(* ===== verification/_CoqProject ===== *)
-Q . S2P
Prelude.v
Name.v
Wire.v
RData.v
RDataCodec.v
TypeBitmap.v
RDataRoundtrip.v
Reader.v
RDataReads.v
Message.v
MessageRoundtrip.v
MessageReads.v
MessageOps.v
RDataNew.v
Netip.v
EdnsOptions.v
Padding.v
Compare.v
RRset.v
Authoritative.v
Update.v
ZoneTree.v
ZoneLookup.v
ZoneUpdate.v
Transitions.v
Transfer.v
Dnssec.v
Signatures.v
Denial.v
DenialOrder.v
DenialSound.v
Nta.v
Walker.v
WalkerSound.v
NsecSound.v
Tsig.v
TsigSound.v
Replay.v
ReplaySound.v
Xfr.v
XfrSound.v
Handler.v
HandlerSound.v
RateLimit.v
RateSound.v
Rrl.v
RrlSound.v
Cookies.v
CookiesSound.v
Middleware.v
MiddlewareSound.v
Exchanger.v
ExchangerSound.v
Stub.v
Cache.v
CacheSound.v
Aggressive.v
AggressiveSound.v
Recursive.v
RecursiveSound.v
RecursiveLive.v
Forward.v
ForwardSound.v
Text.v
Zonefile.v
ZonefileSound.v
ZonefileRoundtrip.v
Sig0.v
Sig0Sound.v
Dso.v
Dnscrypt.v
DnscryptSound.v
