(* ===== verification/Prelude.v ===== *)
(** * acidns: a verification development

    acidns (src/) is a DNS library in Go: a wire codec, an authoritative
    server, resolvers, transports and tools around them.  This library is a
    shallow embedding of its wire layer -- everything between a [wire.Message]
    and the bytes on the network --, of the authoritative server with dynamic
    update and zone transfer, of DNSSEC signing, verification and validation,
    of transaction signatures, of the zone transfer clients, of the UDP
    server with the middleware and cookies in front of its handlers, of the
    exchangers and the stub resolver, of the recursive resolver with its
    cache and its aggressive use of denials, of the caching forwarder, of the
    zone files, of SIG(0), of the bodies of stateful operations and of DNSCrypt,
    with the theorems that make them correct.

    ** The program's parts

    - [wire/wirebb]: names in their canonical wire form (name.go), and the
      [Packer] and [Unpacker] (wire.go): an append-only buffer with a
      dictionary of name suffixes already written, and a cursor over a message.
    - [wire/rrtype], [wire/rdata]: one Go struct per record type, each with a
      Pack method and an unpack helper, constructors that validate, and the
      dispatch [rdata.Unpack].
    - [wire]: header flags, questions, records, EDNS and whole messages with
      [Pack], [Unpack] and the builders; on top of them the typed EDNS
      options, padding, comparison of messages, and RRsets.
    - [authoritative]: zones as indexes of records, lookup, transfer, NOTIFY
      and dynamic update, all behind [ServeDNS].
    - [dnssec]: canonical forms, signed data and the signature checks;
      [dnssec/validator]: trust anchors, denial of existence, and the walker
      that follows the chain of zone cuts from an anchor to an answer.
    - [tsig]: MACs over packed messages and the replay cache in front of them;
      [sig0]: the same with public keys.
    - [axfr], [ixfr]: the clients that read a zone, or the differences since
      a serial, from a stream of response messages.
    - The root package's servers: a [Handler] answers a query through a
      [ResponseWriter]; the UDP server reads datagrams, parses them, applies
      the preflight and limits the size of what is written.  Middleware are
      handlers around handlers: access lists, query and response rate
      limiting over sharded token buckets ([internal/shardbucket]), cookies
      ([cookies]) and observation; [NewPublicUDPServer] stacks them.
    - The root package's clients: an [Exchanger] sends a query and returns the
      response; the UDP and TCP clients speak to a socket, others retry, fail
      over and fall back to TCP.  The stub resolver builds queries, answers
      special-use names ([specialuse]) and matches answers.
    - [recursive]: a resolver that iterates from the roots over referrals,
      shares lookups in flight, caches entries, may hand answers to a
      validator and may answer from the NSEC and NSEC3 records it has seen.
      It is a [Handler] of the servers and a [Resolver] of the stub's kind.
    - [forward]: a caching forwarder, a [Handler] that asks one upstream
      [Exchanger], once at a time for the same question.
    - [zonefile]: master files, read by a lexer and a parser with the
      directives $ORIGIN, $TTL, $GENERATE and $INCLUDE, and written; the zone
      read is what the authoritative server loads.
    - [dnscrypt]: queries and responses sealed with keys that a signed
      certificate names: a client, and a server that is a transport of the
      handlers above; [dso]: the TLVs of stateful operations.
    - [mdns] and the other encrypted transports are further clients of the wire
      layer.

    A message is packed record by record: wire.Pack calls packQuestion and
    packRecord, which call Packer.Name and the Pack method of the payload and
    back-fill the payload's length; the dictionary is threaded through all of
    it, so what a name is written as depends on everything before it.  Unpack
    runs the mirror image over one [Unpacker], narrowing its window to the
    payload for each record, extracts the OPT record from the additional
    section, and reports errors with the section and the record index.

    ** Files

    - Prelude.v: machine integers, byte strings, errors as values, big-endian
      fields, lists and automation.
    - Name.v: src/wire/wirebb/name.go.  [Name] is the wire form; [Parse],
      [FromLabels], [DecodeWire], [DecodeWireUncompressed], [String],
      [Labels], [Parent], [Equal].  [name_at] is an independent relational
      reading of RFC 1035 section 4.1.4.
    - Wire.v: src/wire/wirebb/wire.go.  Modules [Packer] and [Unpacker];
      [codec] is the interface between an append and the read that undoes it.
    - RData.v: src/wire/rrtype and src/wire/rdata, one constructor of [RData]
      per struct.  RDataCodec.v composes codecs field by field, TypeBitmap.v
      treats the NSEC bitmaps, RDataRoundtrip.v the round trip of every type,
      RDataNew.v the constructors and the typed SVCB accessors.
    - Reader.v: [reads], what every reader promises on arbitrary input;
      RDataReads.v discharges it for every record type.
    - Message.v: src/wire/flags.go, question.go, record.go, edns.go,
      dnsmsg.go, builder.go; MessageRoundtrip.v, MessageReads.v and
      MessageOps.v prove its properties.
    - EdnsOptions.v: src/wire/edns_options.go, edns_chain_keytag.go,
      edns_reporting.go; Padding.v: src/wire/edns_padding.go.
    - Compare.v: src/wire/compare.go; RRset.v: src/wire/rrset.go.
    - Authoritative.v: src/authoritative/authoritative.go, notify.go, option.go
      and zonefile.Zone; Update.v: src/authoritative/update.go and ServeDNS.
      ZoneTree.v (the tree of names, the invariant of a zone index),
      ZoneLookup.v (lookup against RFC 1034), ZoneUpdate.v (updates against RFC
      2136), Transitions.v (the server as a transition system) and Transfer.v
      (AXFR) prove their properties.
    - Dnssec.v: src/dnssec and src/dnssec/dnssecbb; Signatures.v its theorems.
    - Denial.v: src/dnssec/validator/nsec3.go, walker_helpers.go,
      compact_denial.go and validatorbb; DenialOrder.v (canonical order,
      hashes, times) and DenialSound.v (NSEC3 proofs) its theorems.
    - Nta.v: src/dnssec/validator/nta.go, with its theorem.
    - Walker.v: src/dnssec/validator/walker.go, anchor.go, validator.go;
      WalkerSound.v (justification of answers, termination, the signature
      search) and NsecSound.v (NSEC proofs) its theorems.
    - Tsig.v: src/tsig/tsig.go; TsigSound.v its theorems.  Replay.v:
      src/tsig/replay.go; ReplaySound.v its theorems.
    - Xfr.v: src/axfr/axfr.go and src/ixfr/ixfr.go, Modules [axfr] and [ixfr];
      XfrSound.v their theorems.
    - Netip.v: the operations of Go's net/netip on addresses and prefixes.
    - Handler.v: src/server.go, server_preflight.go, server_request.go and
      server_udp.go; HandlerSound.v its theorems.
    - RateLimit.v: src/internal/shardbucket and src/middleware_ratelimit.go;
      RateSound.v: the interface [TokenBuckets] of both limiters, and the
      theorems of the first.  Rrl.v: src/middleware_rrl.go; RrlSound.v.
    - Cookies.v: src/cookies, Modules [Client], [SecretPool], [Server];
      CookiesSound.v their theorems.
    - Middleware.v: src/middleware_acl.go, middleware_cookies.go,
      middleware_observe.go, server_public.go; MiddlewareSound.v.
    - Exchanger.v: src/exchanger.go, exchanger_udp.go, exchanger_tcp.go, the
      retrying exchangers of resolver.go and the framing of
      src/internal/streamframe; ExchangerSound.v its theorems.
    - Stub.v: src/resolver.go, resolver_errors.go and src/specialuse.
    - Cache.v: src/recursive/cache.go; CacheSound.v its theorem.
    - Aggressive.v: src/recursive/aggressive_nsec.go and aggressive_nsec3.go
      (Module [nsec3]); AggressiveSound.v their theorems.
    - Recursive.v: src/recursive/recursive.go, resolver.go, priming.go,
      server_stats.go, upstream_ratelimit.go, option.go and roothints.go;
      RecursiveSound.v (what is kept of responses, and where every cached
      entry and every answer comes from) and RecursiveLive.v (resolution along
      delegations, and what goes wrong) its theorems.
    - Forward.v: src/forward; ForwardSound.v its theorems.
    - Text.v: the operations of Go's strconv, strings, encoding/hex,
      encoding/base64 and net/netip that text formats use, and the mnemonics
      of src/wire/rrtype, with their round trips.
    - Zonefile.v: src/zonefile and src/zonefile/classless; ZonefileSound.v
      (every input) and ZonefileRoundtrip.v (the parser undoes the writer) its
      theorems.
    - Sig0.v: src/sig0; Sig0Sound.v its theorems.
    - Dso.v: src/dso, with its theorems.
    - Dnscrypt.v: src/dnscrypt; DnscryptSound.v its theorems.

    ** How the code is represented

    A w-bit integer is a [Z]; conversions that can wrap are written with
    [mod].  A byte slice or string is a list of bytes.  A struct is a record, an
    interface with a closed set of implementations an inductive type, a nil
    interface [None].  A function that returns an error has type [res]: a
    value or an [error]; [Panic] is the error that stands for a Go panic.  Methods that
    change their receiver return the new one.  Go's slices.SortFunc, whose
    order of equal elements is unspecified, is the class [SortFunc] of
    Compare.v, the order in which a map is ranged over the class [MapRange]
    below, the hash and signature functions of Go's crypto packages the
    classes [Crypto] of Dnssec.v, [Hmac] of Tsig.v and [Box] of Dnscrypt.v, and the validator's
    source of responses an arbitrary function of the lookups made so far;
    theorems hold for every instance, or for every instance with the
    documented laws.  A time is a number of nanoseconds since 1970.

    A handler is a program: a tree of writes and clock readings ([prog] of
    Handler.v) that a transport interprets, and middleware transform such
    trees; its state is passed explicitly.  What a goroutine does while it
    holds a lock is one step.  A client is a tree, too: each node is an action
    (read a datagram, look into the cache, claim a lookup in flight, exchange a
    message with a server, ask the validator, read the clock) and has a
    continuation for every outcome.  [exec] and [reaches] of RecursiveSound.v
    run any number of such trees with any interleaving and any outcomes that a
    contract allows; [run] of Recursive.v interprets one tree with a concrete
    cache, indexes and network.  Two goroutines that are joined are a node with
    two subtrees.  The authoritative server and the forwarder are transition
    systems ([step] and [reachable] of Forward.v): an event is what one
    goroutine does between two points where others can intervene.  A float64 is a rational number and each
    operation is followed by the rounding of the class [Float64], of which
    the theorems assume the error bound of IEEE 754.  The buckets of the
    limiters are keyed by structured values where the code joins their texts.

    Loops without a structural measure carry fuel, and exhausting it is the
    error [ErrFuel], which is no Go error: that it is never returned is part
    of the theorems.  [DecodeWire] has 300 iterations (a name has at most 127
    labels and at most 32 pointers are followed); a loop over a payload window
    has one iteration per byte of the window and one more (each iteration
    consumes at least one byte); the list decoders of ALPN identifiers and
    address hints and the search for pointers have one iteration per byte;
    printing a 64-bit integer has 20 digits.  The chain walk has one iteration
    per label of the query name and two more; [walk_terminates] shows it enough.
    The read loop of the UDP client has one iteration per datagram its
    mismatch budgets admit and one more.  The recursion of the resolver over
    depth and rounds is structural in the configured limits, the depth and
    the number of iterations.  The loops of the zone-file lexer and parser have
    one iteration per character left and two more (each consumes a character),
    includes are structural in the depth that is left, and $GENERATE has 2^64
    rounds, one for every value of its counter, after which it repeats itself;
    [zonefile_total] shows them enough, but for the ranges that never end.  The
    loop over the TLVs of a stateful operation has one iteration per octet and
    one more.

    ** What the theorems show

    - Round trips: [message_roundtrip] (Pack then Unpack is the identity on
      every expressible message that Pack accepts), [reencode_stable] (Unpack,
      Pack, Unpack), [rdata_roundtrip] and [constructed_roundtrip] (payloads,
      from their constructors on), [type_bitmap_roundtrip],
      [parse_string_roundtrip], the option and parameter accessors.
    - Robustness: [unpack_safe] and [rdata_unpack_safe] (total on every input,
      never a panic, located errors, results in normal form),
      [decode_wire_terminates], [section_capacity].
    - Refinement: [decode_wire_refines_rfc1035], [builder_refines],
      [compression_transparent].
    - Functional behaviour: [flags_setters], [question_echo],
      [pad_encrypted_block], [group_records_partition], client subnets and
      their privacy, comparison as multiset equality.
    - Where the code departs from its documentation, a theorem exhibits it:
      [pack_unpack_pointer_limit], [parse_decimal_escape_not_folded],
      [message_equal_ttl_order], [sort_records_not_canonical_order],
      [error_report_name_unescaped].
    - The authoritative server: [lookup_refines] (the answer is the one the
      zone's records determine, and that of RFC 1034 unless an alias leads below
      a delegation), [server_invariant] (all interleavings of requests, of which
      those that bring an invalid SOA keep all but its validity) and
      [update_linearizable], [update_outcome], [prerequisites_exact],
      [axfr_stream]; [update_replaces_soa] and [alias_below_cut] exhibit the gaps.
    - Signatures: [signed_data_binds] (equal signed octets, equal records),
      [signed_data_wildcard], [verify_accepts_exactly].
    - Denial of existence: [nsec_nxdomain_sound], [nsec_nodata_sound],
      [nsec3_nxdomain_sound], [nsec3_nodata_sound] (an accepted proof made of
      genuine records agrees with the zone), [canonical_name_order],
      [rrsig_validity_window]; [nsec_empty_non_terminal],
      [nsec_below_delegation] and [nsec_wildcard_expansion] exhibit where the
      validator errs.
    - Validation: [resolve_justified] (secure and insecure answers have a
      justification from a trust anchor), [signature_search],
      [walk_terminates], [nta_run].
    - Transaction signatures: [tsig_roundtrip], [tsig_authentic] (an accepted
      message was signed as such or its tag is forged), [replay_once] and
      [replay_bounded] (the cache as a memory of everything accepted);
      [replay_window_gap] and [replay_truncated_mac] exhibit the gaps.
    - Zone transfer: [axfr_client_exact] and [ixfr_incremental_exact] (a client
      yields the records of the stream, cut into messages any way),
      [axfr_end_to_end] (the client of this server reads this server's zone);
      [axfr_truncation_undetected], [ixfr_newer_soa_up_to_date] and
      [unsigned_envelopes_unauthenticated] exhibit what the clients accept.
    - The server: [udp_reply] (at most one bounded reply per datagram),
      [udp_loop_accounting], [rate_limit_bound], [rrl_bound],
      [buckets_bounded] (what the limiters let through and keep, evictions
      counted), [cookie_roundtrip], [cookie_binds], [cookie_client_invariant],
      [cookie_gate_bounds], and [public_udp_gates] (what becomes of a datagram in
      the public stack, at the clock readings its layers make); [rrl_random_names_unlimited],
      [rrl_small_rates_block], [cookie_client_unchecked],
      [cookie_reserved_unbound] and [acl_zone_unmatched] exhibit the gaps.
    - The clients: [exchange_authentic] (where a returned message comes from,
      whatever the network does), [exchange_bounded] (connections and datagrams
      of an exchange), [case_randomisation] (0x20 against its reference),
      [frames_roundtrip] (messages on a stream, cut anywhere).
    - The recursive resolver: [bailiwick_exact] (what is kept of a response),
      [resolver_provenance] (an invariant of all interleavings: what is cached
      and answered comes from responses to the right queries),
      [delegation_resolves] (resolution succeeds along delegations),
      [cache_refines] (the sharded cache as a map of what was put last),
      [nsec3_synthesis_sound] (synthesised denials are the zone's own, unless
      it delegates the name); [nsec3_below_delegation], [nsec_synthesis_unsound], [nsec_insert_panics],
      [minimisation_exhausts_iterations], [bogus_answer_served_from_cache],
      [cached_alias_not_followed] and [insecure_answer_keeps_upstream_ad]
      exhibit where the code errs.
    - The forwarder: [lru_refines] (the cache as a list in order of use),
      [forward_singleflight] and [forward_replies] (invariants of all
      interleavings: what is asked upstream, and what clients are answered),
      [forward_query_private] (what the upstream learns);
      [forward_checking_disabled_shared], [forward_truncation_hidden],
      [forward_zero_minimum_cached] and [forward_denials_dropped] exhibit the
      gaps.
    - Zone files: [zone_roundtrip] (Write then Parse is the identity on every
      zone that can be written), [zonefile_total] and [zonefile_typed] (every
      input), [generate_exact] (what a range is expanded to);
      [generate_endless], [generate_exceeds_count], [generate_limit_bypassed],
      [default_ttl_unchecked], [generate_width_panics],
      [quoted_hash_misread], [escaped_dot_absolute], [semicolon_not_escaped],
      [at_not_escaped], [any_read_as_class], [ttl_after_class],
      [empty_owner_accepted] and [classless_past_octet] exhibit where the code
      errs.
    - SIG(0): [sig0_roundtrip], [sig0_authentic], [sig0_replay_refused];
      [replayed_with_negated_signature] exhibits a gap.
    - Stateful operations: [dso_roundtrip]; [reserved_primary_dropped].
    - DNSCrypt: [certificate_roundtrip], [dnscrypt_exchange] (a client of this
      server gets the handler's answer), [dnscrypt_replay_refused];
      [reflected_query_accepted], [forged_packet_displaces] and
      [replay_cache_exceeds_max] exhibit where the code errs.

    ** What is not modelled

    Text that only people read (error messages, loggers and metrics); sockets, timers,
    goroutines and locks but for the order of the steps they allow; the hash
    and signature functions of Go's crypto packages.  Slice aliasing is not
    represented where nothing writes through the alias.  The TCP server and the
    keepalive pools, the transports over TLS, HTTP and QUIC, multicast DNS, the typed
    lookups of the stub resolver, the validator's source over an exchanger and
    the commands are left out: wrappers over TLS, HTTP and QUIC libraries, or
    glue over the parts above. *)

From stdpp Require Export base numbers list gmap.
From Stdlib Require Export ZArith Lia.
From Stdlib Require Strings.String Strings.Ascii.

Declare Scope wire_scope.
Delimit Scope wire_scope with wire.
#[global] Open Scope Z_scope.
#[global] Open Scope wire_scope.

(** ** Machine integers and byte strings

    A Go [byte], [uint16], [uint32], [uint64] or [int] is a [Z]; the range of
    the first four is a predicate and every conversion that can wrap writes
    its reduction out.  A Go string or byte slice is a list of bytes. *)

Abbreviation bytes := (list Z).

Definition u8 (v : Z) : Prop := 0 <= v < 256.
Definition u16 (v : Z) : Prop := 0 <= v < 65536.
Definition u32 (v : Z) : Prop := 0 <= v < 4294967296.
Definition u64 (v : Z) : Prop := 0 <= v < 18446744073709551616.

#[export] Instance u8_dec v : Decision (u8 v).
Proof. unfold u8. apply _. Defined.
#[export] Instance u16_dec v : Decision (u16 v).
Proof. unfold u16. apply _. Defined.
#[export] Instance u32_dec v : Decision (u32 v).
Proof. unfold u32. apply _. Defined.
#[export] Instance u64_dec v : Decision (u64 v).
Proof. unfold u64. apply _. Defined.

(** The Go conversions [byte(v)], [uint16(v)] and [uint32(v)]. *)
Definition to_u8 (v : Z) : Z := v mod 256.
Definition to_u16 (v : Z) : Z := v mod 65536.
Definition to_u32 (v : Z) : Z := v mod 4294967296.

Abbreviation is_bytes := (Forall u8).

(** [len(l)] as a Go [int]. *)
Definition zlen {A} (l : list A) : Z := Z.of_nat (length l).

(** [l[i]] for a byte slice and an index the code has already checked. *)
Definition zget (l : bytes) (i : Z) : Z := default 0 (l !! Z.to_nat i).

(** [l[a:b]]. *)
Definition zslice {A} (l : list A) (a b : Z) : list A :=
  take (Z.to_nat (b - a)) (drop (Z.to_nat a) l).

(** The bytes of a string literal. *)
Definition str (s : String.string) : bytes := map (fun a => Z.of_N (Ascii.N_of_ascii a)) (String.list_ascii_of_string s).

(** ** Errors

    One constructor per sentinel or ad-hoc error value of the source; the
    rendered text is not modelled, the sentinel, and the structured fields
    of [wire.MessageParseError], are. *)

Inductive Section_ :=
  | SectionUnknown | SectionHeader | SectionQuestion | SectionAnswer
  | SectionAuthority | SectionAdditional | SectionOPT.

Inductive error :=
  | ErrTruncated          (* wirebb.ErrTruncated *)
  | ErrInvalidName        (* wirebb.ErrInvalidName *)
  | ErrInvalidMessage     (* wire.ErrInvalidMessage *)
  | ErrInvalidTTL         (* wire.ErrInvalidTTL *)
  | ErrInvalidRData       (* rdata.ErrInvalidRData *)
  | ErrInvalidCookie      (* wire.ErrInvalidCookie *)
  | ErrPlain              (* fmt.Errorf without a sentinel *)
  | ErrSignatureMismatch  (* dnssecbb.ErrSignatureMismatch *)
  | ErrUnsupportedAlgorithm (* dnssecbb.ErrUnsupportedAlgorithm, tsig.ErrUnsupportedAlgorithm, sig0.ErrUnsupportedAlg *)
  | ErrInvalidKey         (* dnssec.ErrInvalidKey *)
  | ErrNoCoveringRRSIG    (* validator.ErrNoCoveringRRSIG *)
  | ErrNoTrustAnchor      (* validator.ErrNoTrustAnchor *)
  | ErrIterationLimit     (* validator.ErrIterationLimit, recursive.ErrIterationLimit *)
  | ErrAlgorithmIncomplete (* validator.ErrAlgorithmIncomplete *)
  | ErrUnsignedAnswer     (* validator.ErrUnsignedAnswer *)
  | errNXDomainAtCandidate (* validator.errNXDomainAtCandidate *)
  | errInsecureNSEC3Iterations (* validator.errInsecureNSEC3Iterations *)
  | errInsecureNSEC3OptOut (* validator.errInsecureNSEC3OptOut *)
  | ErrTSIGMissing        (* tsig.ErrTSIGMissing, sig0.ErrSIGMissing *)
  | ErrBadTime            (* tsig.ErrBadTime, sig0.ErrBadTime *)
  | ErrBadSignature       (* tsig.ErrBadSignature, sig0.ErrBadSignature *)
  | ErrBadTruncation      (* tsig.ErrBadTruncation *)
  | ErrSHA1Disabled       (* tsig.ErrSHA1Disabled *)
  | ErrKeyTagMismatch     (* sig0.ErrKeyTagMismatch *)
  | ErrReplay             (* tsig.ErrReplay, sig0.ErrReplay *)
  | ErrTSIGVerify         (* tsig.ErrVerify *)
  | EOF                   (* io.EOF *)
  | ErrEmptyResponse      (* axfr.ErrEmptyResponse, ixfr.ErrEmptyResponse *)
  | ErrMissingLeadingSOA  (* axfr.ErrMissingLeadingSOA, ixfr.ErrMissingLeadingSOA *)
  | ErrRCODE              (* axfr.ErrRCODE, ixfr.ErrRCODE *)
  | ErrEnvelopeMismatch   (* axfr.ErrEnvelopeMismatch, ixfr.ErrEnvelopeMismatch *)
  | ErrInvalidSOAPair     (* ixfr.ErrInvalidSOAPair *)
  | ErrUnexpectedRecord   (* ixfr.ErrUnexpectedRecord *)
  | ErrMissingClosingSOA  (* ixfr.ErrMissingClosingSOA *)
  | ErrMissingSubDiffSOA  (* ixfr.ErrMissingSubDiffSOA *)
  | ErrServerClosed       (* acidns.ErrServerClosed *)
  | ErrInvalidAddress     (* acidns.ErrInvalidAddress *)
  | ErrNilHandler         (* acidns.ErrNilHandler *)
  | ErrACLNoRules         (* acidns.ErrACLNoRules *)
  | ErrNilCookieServer    (* acidns.ErrNilCookieServer *)
  | ErrPublicACLRequired  (* acidns.ErrPublicACLRequired *)
  | ErrPublicCookiesServerRequired (* acidns.ErrPublicCookiesServerRequired *)
  | ErrCookieMissing      (* cookies.ErrCookieMissing *)
  | ErrCookieTooShort     (* cookies.ErrCookieTooShort *)
  | ErrCookieMalformed    (* cookies.ErrCookieMalformed *)
  | ErrCookieExpired      (* cookies.ErrCookieExpired *)
  | ErrCookieMismatch     (* cookies.ErrCookieMismatch *)
  | ErrCookieRetryExhausted (* cookies.ErrCookieRetryExhausted *)
  | ErrPoolRotationNeedsContext (* cookies.ErrPoolRotationNeedsContext *)
  | ErrUnexpectedEOF      (* io.ErrUnexpectedEOF *)
  | ErrInflightFull       (* acidns.ErrInflightFull *)
  | ErrContext            (* ctx.Err() *)
  | ErrCNAMELoop          (* recursive.ErrCNAMELoop *)
  | ErrAllServersLame     (* recursive.AllServersLameError *)
  | ErrUpstreamRateLimited (* recursive.ErrUpstreamRateLimited *)
  | ErrTruncatedAfterTCPFail (* recursive.ErrTruncatedAfterTCPFail *)
  | errBogusAnswer        (* recursive.errBogusAnswer *)
  | ErrMaintenanceAlreadyRunning (* recursive.ErrMaintenanceAlreadyRunning *)
  | ErrNoResolver         (* acidns.ErrNoResolver *)
  | ErrParse              (* zonefile.ErrParse *)
  | ErrNoNameserver       (* resolvconf.ErrNoNameserver *)
  | ErrInvalidDSO         (* dso.ErrInvalidDSO *)
  | ErrCertMagicMismatch  (* dnscrypt.ErrCertMagicMismatch *)
  | ErrCertSignatureInvalid (* dnscrypt.ErrCertSignatureInvalid *)
  | ErrCertExpired        (* dnscrypt.ErrCertExpired *)
  | ErrUnsupportedESVersion (* dnscrypt.ErrUnsupportedESVersion *)
  | ErrResponseMagic      (* dnscrypt.ErrResponseMagic *)
  | ErrPlainTextTooShort  (* dnscrypt.ErrPlainTextTooShort *)
  | ErrCertUnverified     (* dnscrypt.ErrCertUnverified *)
  | ErrCertRequired       (* dnscrypt.ErrCertRequired *)
  | ErrLowOrderPoint      (* dnscrypt.ErrLowOrderPoint *)
  | ErrWrapped (cause : error) (* fmt.Errorf with the cause, where the code tells it from the bare cause *)
  | ErrExternal (what : Z)  (* an error returned by a caller-supplied component *)
  | Panic                 (* a run-time panic *)
  | MessageParseError (section : Section_) (index offset : Z) (cause : error)
  | ErrFuel.              (* the model's own: a loop bound was too small *)

#[export] Instance Section_eq_dec : EqDecision Section_.
Proof. solve_decision. Defined.
#[export] Instance error_eq_dec : EqDecision error.
Proof. solve_decision. Defined.

(** ** Results of fallible calls *)

Inductive res (A : Type) :=
  | Ok (a : A)
  | Err (e : error).
Arguments Ok {A} a.
Arguments Err {A} e.

#[export] Instance res_eq_dec `{EqDecision A} : EqDecision (res A).
Proof. solve_decision. Defined.

Definition res_bind {A B} (r : res A) (f : A -> res B) : res B :=
  match r with Ok a => f a | Err e => Err e end.

Notation "'let?' x := r 'in' k" := (res_bind r (fun x => k))
  (at level 10, x pattern, r at level 100, k at level 200,
   format "'[v' 'let?'  x  :=  r  'in' '/' k ']'") : wire_scope.

Definition is_ok {A} (r : res A) : bool :=
  match r with Ok _ => true | Err _ => false end.

Lemma res_bind_Ok {A B} (r : res A) (f : A -> res B) b :
  res_bind r f = Ok b <-> exists a, r = Ok a /\ f a = Ok b.
Proof.
  destruct r as [a|e]; simpl; split.
  - intros H. by exists a.
  - by intros (? & [= ->] & H).
  - done.
  - by intros (? & ? & ?).
Qed.

(** ** Automation

    [wire] is the rewrite database of the length lemmas; [inv_ok] takes a
    successful chain of calls apart; [ifs] splits on the boolean tests of the
    code and turns them into arithmetic facts. *)

Create HintDb wire discriminated.
Create Rewrite HintDb wlen.

Ltac inv_ok :=
  repeat match goal with
  | H : res_bind _ _ = Ok _ |- _ => apply res_bind_Ok in H as (? & ? & H)
  | H : Ok _ = Ok _ |- _ => injection H as H; subst
  | H : Err _ = Ok _ |- _ => discriminate H
  | H : Ok _ = Err _ |- _ => discriminate H
  | H : (_, _) = (_, _) |- _ => injection H as ? ?; subst
  end.

Ltac bool_facts :=
  repeat match goal with
  | H : (_ <? _) = true |- _ => apply Z.ltb_lt in H
  | H : (_ <? _) = false |- _ => apply Z.ltb_ge in H
  | H : (_ <=? _) = true |- _ => apply Z.leb_le in H
  | H : (_ <=? _) = false |- _ => apply Z.leb_gt in H
  | H : (_ =? _) = true |- _ => apply Z.eqb_eq in H
  | H : (_ =? _) = false |- _ => apply Z.eqb_neq in H
  | H : (_ && _)%bool = true |- _ => apply andb_true_iff in H as [? ?]
  | H : (_ || _)%bool = false |- _ => apply orb_false_iff in H as [? ?]
  | H : negb _ = true |- _ => apply negb_true_iff in H
  | H : negb _ = false |- _ => apply negb_false_iff in H
  end.

Ltac split_if :=
  match goal with
  | |- context [if ?b then _ else _] => destruct b eqn:?
  | H : context [if ?b then _ else _] |- _ => destruct b eqn:?
  end.

(** Prove a closed decidable proposition by evaluating its decision. *)
Ltac decide_now := apply (bool_decide_unpack _); vm_compute; exact I.

(** [lia] with the defining equations of [/] and [mod]. *)
Ltac elia := Z.to_euclidean_division_equations; lia.

(** ** Lengths *)

Lemma zlen_nil {A} : zlen (@nil A) = 0.
Proof. done. Qed.
Lemma zlen_cons {A} (x : A) l : zlen (x :: l) = 1 + zlen l.
Proof. unfold zlen. cbn [length]. lia. Qed.
Lemma zlen_app {A} (l k : list A) : zlen (l ++ k) = zlen l + zlen k.
Proof. unfold zlen. rewrite length_app. lia. Qed.
Lemma zlen_map {A B} (f : A -> B) l : zlen (map f l) = zlen l.
Proof. unfold zlen. by rewrite length_map. Qed.
Lemma zlen_nonneg {A} (l : list A) : 0 <= zlen l.
Proof. unfold zlen. lia. Qed.
Lemma zlen_0_inv {A} (l : list A) : zlen l = 0 -> l = [].
Proof. destruct l; [done|]. rewrite zlen_cons. pose proof (zlen_nonneg l). lia. Qed.

#[export] Hint Rewrite @zlen_nil @zlen_cons @zlen_app @zlen_map : wlen.
#[export] Hint Resolve zlen_nonneg : wire.

(** Add [0 <= zlen l] for every list whose length is mentioned, then [lia]. *)
Ltac pose_len l :=
  lazymatch goal with
  | H : 0 <= zlen l |- _ => fail
  | _ => pose proof (zlen_nonneg l)
  end.
Ltac llia :=
  autorewrite with wlen in *;
  repeat match goal with
  | |- context [zlen ?l] => pose_len l
  | H : context [zlen ?l] |- _ => pose_len l
  end;
  unfold u8, u16, u32, u64 in *; lia.

(** Decide a boolean test of the goal by arithmetic. *)
Ltac if_true :=
  match goal with
  | |- context [if ?b then _ else _] =>
      replace b with true by (symmetry; rewrite ?andb_true_iff, ?orb_true_iff,
        ?negb_true_iff, ?Z.ltb_lt, ?Z.leb_le, ?Z.eqb_eq, ?Z.ltb_ge, ?Z.leb_gt, ?Z.eqb_neq;
        intuition llia)
  end.
Ltac if_false :=
  match goal with
  | |- context [if ?b then _ else _] =>
      replace b with false by (symmetry; rewrite ?andb_false_iff, ?orb_false_iff,
        ?negb_false_iff, ?Z.ltb_ge, ?Z.leb_gt, ?Z.eqb_neq, ?Z.ltb_lt, ?Z.leb_le, ?Z.eqb_eq;
        intuition llia)
  end.

(** ** Big-endian integers: [binary.BigEndian.AppendUintN] and [UintN] *)

Definition be16 (v : Z) : bytes := [to_u8 (Z.shiftr v 8); to_u8 v].
Definition be32 (v : Z) : bytes :=
  [to_u8 (Z.shiftr v 24); to_u8 (Z.shiftr v 16); to_u8 (Z.shiftr v 8); to_u8 v].
Definition get16 (a b : Z) : Z := Z.lor (Z.shiftl a 8) b.
Definition get32 (a b c d : Z) : Z :=
  Z.lor (Z.shiftl a 24) (Z.lor (Z.shiftl b 16) (Z.lor (Z.shiftl c 8) d)).

(** [hi<<k | lo] is [hi*2^k + lo] when [lo] fits below the shift. *)
Lemma lor_shiftl_add hi lo k :
  0 <= k -> 0 <= lo < 2 ^ k -> Z.lor (Z.shiftl hi k) lo = hi * 2 ^ k + lo.
Proof.
  intros Hk Hlo. rewrite <- Z.shiftl_mul_pow2 by done.
  assert (Z.land (Z.shiftl hi k) lo = 0) as E.
  { apply Z.bits_inj'. intros n Hn. rewrite Z.land_spec, Z.bits_0.
    destruct (Z.lt_ge_cases n k).
    - by rewrite Z.shiftl_spec_low by lia.
    - rewrite <- (Z.mod_small lo (2 ^ k)) by lia.
      by rewrite Z.mod_pow2_bits_high, andb_false_r by lia. }
  by rewrite Z.add_nocarry_lxor, Z.lxor_lor by done.
Qed.

Lemma get16_add a b : u8 b -> get16 a b = a * 256 + b.
Proof. intros. unfold get16. rewrite lor_shiftl_add; unfold u8 in *; lia. Qed.

Lemma get32_add a b c d :
  u8 b -> u8 c -> u8 d -> get32 a b c d = a * 16777216 + b * 65536 + c * 256 + d.
Proof.
  unfold u8, get32. intros.
  rewrite (lor_shiftl_add c d 8), (lor_shiftl_add b _ 16), (lor_shiftl_add a _ 24); lia.
Qed.

Lemma get16_be16 v : u16 v -> get16 (to_u8 (Z.shiftr v 8)) (to_u8 v) = v.
Proof.
  unfold u16, to_u8. intros. rewrite get16_add by (apply Z.mod_pos_bound; lia).
  rewrite Z.shiftr_div_pow2 by lia. change (2 ^ 8) with 256. elia.
Qed.

Lemma get32_be32 v :
  u32 v -> get32 (to_u8 (Z.shiftr v 24)) (to_u8 (Z.shiftr v 16)) (to_u8 (Z.shiftr v 8)) (to_u8 v) = v.
Proof.
  unfold u32, to_u8. intros. rewrite get32_add by (apply Z.mod_pos_bound; lia).
  rewrite !Z.shiftr_div_pow2 by lia.
  change (2 ^ 8) with 256; change (2 ^ 16) with 65536; change (2 ^ 24) with 16777216. elia.
Qed.

Lemma to_u8_range v : u8 (to_u8 v).
Proof. unfold u8, to_u8. apply Z.mod_pos_bound. lia. Qed.
Lemma to_u32_range v : u32 (to_u32 v).
Proof. unfold u32, to_u32. apply Z.mod_pos_bound. lia. Qed.
Lemma to_u8_id v : u8 v -> to_u8 v = v.
Proof. unfold u8, to_u8. intros. by rewrite Z.mod_small. Qed.
Lemma to_u16_id v : u16 v -> to_u16 v = v.
Proof. unfold u16, to_u16. intros. by rewrite Z.mod_small. Qed.
Lemma to_u32_id v : u32 v -> to_u32 v = v.
Proof. unfold u32, to_u32. intros. by rewrite Z.mod_small. Qed.
Lemma get16_range a b : u8 a -> u8 b -> u16 (get16 a b).
Proof. intros ??. rewrite get16_add by done. unfold u8, u16 in *. lia. Qed.
Lemma get32_range a b c d : u8 a -> u8 b -> u8 c -> u8 d -> u32 (get32 a b c d).
Proof. intros. rewrite get32_add by done. unfold u8, u32 in *. lia. Qed.

#[export] Hint Resolve to_u8_range to_u32_range get16_range get32_range : wire.

Lemma be16_bytes v : is_bytes (be16 v).
Proof. unfold be16. auto 6 with wire. Qed.
Lemma be32_bytes v : is_bytes (be32 v).
Proof. unfold be32. auto 8 with wire. Qed.
Lemma zlen_be16 v : zlen (be16 v) = 2.
Proof. done. Qed.
Lemma zlen_be32 v : zlen (be32 v) = 4.
Proof. done. Qed.
#[export] Hint Resolve be16_bytes be32_bytes : wire.
#[export] Hint Rewrite zlen_be16 zlen_be32 : wlen.

(** ** Map iteration *)

(** [for k, v := range m]: every entry once, in an unspecified order. *)
Class MapRange := {
  mapRange {K : Type} {EqK : EqDecision K} {CountK : Countable K} {A : Type} :
    gmap K A -> list (K * A);
  mapRange_perm {K : Type} {EqK : EqDecision K} {CountK : Countable K} {A : Type} (m : gmap K A) :
    mapRange m ≡ₚ map_to_list m }.

(** ** Times and durations, in nanoseconds *)

(** [t.Sub(u)], which saturates at the bounds of a [time.Duration]. *)
Definition timeSub (a b : Z) : Z := Z.max (- 2 ^ 63) (Z.min (2 ^ 63 - 1) (a - b)).

(** ** Bytes at an offset

    [at_bytes msg off bs]: the buffer [msg] holds [bs] starting at offset
    [off].  All reads of the decoders are described with it. *)

Definition at_bytes (msg : bytes) (off : Z) (bs : bytes) : Prop :=
  0 <= off /\ exists r, drop (Z.to_nat off) msg = bs ++ r.

Lemma at_bytes_app msg off a b :
  at_bytes msg off (a ++ b) <-> at_bytes msg off a /\ at_bytes msg (off + zlen a) b.
Proof.
  unfold at_bytes, zlen. split.
  - intros (H & r & E). rewrite <- app_assoc in E.
    split; [by split; [|exists (b ++ r)]|]. split; [lia|]. exists r.
    replace (Z.to_nat (off + Z.of_nat (length a))) with (Z.to_nat off + length a)%nat by lia.
    by rewrite <- drop_drop, E, drop_app_length.
  - intros ((H & r & E) & _ & r' & E'). split; [done|]. exists r'.
    replace (Z.to_nat (off + Z.of_nat (length a))) with (Z.to_nat off + length a)%nat in E' by lia.
    rewrite <- drop_drop, E, drop_app_length in E'. by rewrite E, E', app_assoc.
Qed.

Lemma at_bytes_cons msg off x b :
  at_bytes msg off (x :: b) <-> at_bytes msg off [x] /\ at_bytes msg (off + 1) b.
Proof. apply (at_bytes_app msg off [x] b). Qed.

Lemma at_bytes_mid pre bs r : at_bytes (pre ++ bs ++ r) (zlen pre) bs.
Proof.
  split; [apply zlen_nonneg|]. exists r. unfold zlen.
  by rewrite Nat2Z.id, drop_app_length.
Qed.

Lemma at_bytes_ext msg off bs r : at_bytes msg off bs -> at_bytes (msg ++ r) off bs.
Proof.
  intros (H & s & E). split; [done|].
  destruct (decide (Z.to_nat off <= length msg)%nat) as [Hl|Hl].
  - rewrite drop_app_le, E by done. exists (s ++ r). by rewrite app_assoc.
  - rewrite drop_ge in E by lia. symmetry in E. apply app_nil in E as [-> _]. by eexists.
Qed.

Lemma at_bytes_len msg off x bs : at_bytes msg off (x :: bs) -> off + 1 + zlen bs <= zlen msg.
Proof.
  intros (H & r & E). apply (f_equal length) in E.
  rewrite length_drop, length_app in E. cbn [length] in E. unfold zlen. lia.
Qed.

Lemma at_bytes_get msg off x bs : at_bytes msg off (x :: bs) -> zget msg off = x.
Proof.
  intros (H & r & E). unfold zget.
  replace (msg !! Z.to_nat off) with (Some x); [done|].
  apply (f_equal (lookup 0%nat)) in E. rewrite lookup_drop, Nat.add_0_r in E. by rewrite E.
Qed.

Lemma at_bytes_slice msg off bs : at_bytes msg off bs -> zslice msg off (off + zlen bs) = bs.
Proof.
  intros (H & r & E). unfold zslice. rewrite E.
  replace (Z.to_nat (off + zlen bs - off)) with (length bs) by (unfold zlen; lia).
  apply take_app_length.
Qed.

(** Conversely, an in-range slice is what the buffer holds there. *)
Lemma at_bytes_of_slice msg off n :
  0 <= off -> 0 <= n -> off + n <= zlen msg ->
  at_bytes msg off (zslice msg off (off + n)) /\ zlen (zslice msg off (off + n)) = n.
Proof.
  intros. unfold zslice, zlen in *. split.
  - split; [done|]. eexists. symmetry. apply take_drop.
  - rewrite length_take, length_drop. lia.
Qed.

Lemma at_bytes_of_get msg off :
  0 <= off < zlen msg -> at_bytes msg off [zget msg off].
Proof.
  intros H. unfold zlen, zget in *.
  destruct (lookup_lt_is_Some_2 msg (Z.to_nat off)) as [x Hx]; [lia|].
  split; [lia|]. exists (drop (S (Z.to_nat off)) msg). rewrite Hx. by apply drop_S.
Qed.

Lemma at_bytes_Forall (P : Z -> Prop) msg off bs : Forall P msg -> at_bytes msg off bs -> Forall P bs.
Proof.
  intros HP (H & r & E). apply (Forall_drop P (Z.to_nat off)) in HP.
  rewrite E in HP. by apply Forall_app in HP as [? _].
Qed.

(** The bytes held at an offset are determined by their number. *)
Lemma at_bytes_det msg off a b : at_bytes msg off a -> at_bytes msg off b -> zlen a = zlen b -> a = b.
Proof.
  intros Ha Hb E. rewrite <- (at_bytes_slice _ _ _ Ha), <- (at_bytes_slice _ _ _ Hb). by rewrite E.
Qed.

(** ** Facts about single bytes, by enumeration *)

Lemma u8_forall (P : Z -> Prop) `{!forall b, Decision (P b)} :
  forallb (fun b => bool_decide (P b)) (seqZ 0 256) = true -> forall b, u8 b -> P b.
Proof.
  intros Hall b Hb. rewrite forallb_forall in Hall. apply (bool_decide_eq_true_1 (P b)), Hall.
  apply list_elem_of_In, elem_of_seqZ. unfold u8 in Hb. lia.
Qed.

(** Prove a decidable statement about one byte by checking all 256. *)
Ltac byte_cases b :=
  let H := fresh in
  intros H; revert b H; refine (u8_forall _ _); vm_compute; reflexivity.
