(* ===== verification/Name.v ===== *)
(** * Domain names: wire/wirebb/name.go

    A [Name] holds its canonical wire encoding.  The decoders are modelled
    loop for loop, with a bound on the number of iterations that
    [DecodeWire_fuel] shows to be enough; [name_at] is the independent
    relational reading of RFC 1035 section 4.1.4 that the compressed decoder
    is proved equivalent to. *)

From S2P Require Import Prelude.

(** ** Model *)

Record Name := mkName { wire : bytes }.

#[export] Instance Name_eq_dec : EqDecision Name.
Proof. solve_decision. Defined.

Definition maxLabelLen : Z := 63.
Definition maxNameLen : Z := 255.
Definition maxPtrHops : Z := 32.

(** The zero value [Name{}]. *)
Definition zeroName : Name := mkName [].

Definition IsValid (n : Name) : bool := 0 <? zlen (wire n).
Definition IsRoot (n : Name) : bool := bool_decide (wire n = [0]).
Definition Root : Name := mkName [0].
Definition Equal (n o : Name) : bool := bool_decide (wire n = wire o).

Definition foldByte (c : Z) : Z :=
  if (65 <=? c) && (c <=? 90) then c + 32 else c.

(** The loops over [n.wire] advance by [1+l]; they are written on the
    remaining suffix, so the bound is the length of the string. *)
Fixpoint numLabels_loop (fuel : nat) (w : bytes) (count : Z) : Z :=
  match fuel, w with
  | S fuel, l :: rest =>
      if l =? 0 then count
      else numLabels_loop fuel (drop (Z.to_nat l) rest) (count + 1)
  | _, _ => count
  end.

Definition NumLabels (n : Name) : Z :=
  if negb (IsValid n) then 0
  else numLabels_loop (length (wire n)) (wire n) 0.

Fixpoint labels_loop (fuel : nat) (w : bytes) : list bytes :=
  match fuel, w with
  | S fuel, l :: rest =>
      if l =? 0 then []
      else take (Z.to_nat l) rest :: labels_loop fuel (drop (Z.to_nat l) rest)
  | _, _ => []
  end.

Definition Labels (n : Name) : list bytes :=
  if negb (IsValid n) then [] else labels_loop (length (wire n)) (wire n).

Definition Parent (n : Name) : option Name :=
  if negb (IsValid n) || IsRoot n then None
  else let first := zget (wire n) 0 in
       Some (mkName (drop (Z.to_nat (1 + first)) (wire n))).

(** [fmt.Fprintf("\%03d", c)] for a byte [c]. *)
Definition fmt03 (c : Z) : bytes := [48 + c / 100; 48 + c / 10 mod 10; 48 + c mod 10].

Definition escapeByte (c : Z) : bytes :=
  if (c =? 46) || (c =? 92) then [92; c]
  else if (c <? 33) || (126 <? c) then 92 :: fmt03 c
  else [c].

Fixpoint string_loop (fuel : nat) (w : bytes) : bytes :=
  match fuel, w with
  | S fuel, l :: rest =>
      if l =? 0 then []
      else concat (map escapeByte (take (Z.to_nat l) rest)) ++ [46]
           ++ string_loop fuel (drop (Z.to_nat l) rest)
  | _, _ => []
  end.

(** [Name.String]. *)
Definition String_ (n : Name) : bytes :=
  if negb (IsValid n) then []
  else if IsRoot n then [46]
  else string_loop (length (wire n)) (wire n).

Definition AppendWire (n : Name) (buf : bytes) : bytes :=
  if negb (IsValid n) then buf ++ [0] else buf ++ wire n.

Definition WireLen (n : Name) : Z :=
  if negb (IsValid n) then 1 else zlen (wire n).

(** *** Parse: the closures [flush] and [appendLabel] and the main loop. *)

Definition flush (w label : bytes) : res bytes :=
  if zlen label =? 0 then Err ErrInvalidName
  else if maxLabelLen <? zlen label then Err ErrInvalidName
  else let w := w ++ to_u8 (zlen label) :: label in
       if maxNameLen <? zlen w then Err ErrInvalidName else Ok w.

Definition appendLabel (label : bytes) (c : Z) : res bytes :=
  if c =? 0 then Err ErrInvalidName
  else if maxLabelLen <=? zlen label then Err ErrInvalidName
  else Ok (label ++ [c]).

Definition isDigit (c : Z) : bool := (48 <=? c) && (c <=? 57).

Fixpoint parse_loop (s w label : bytes) : res (bytes * bytes) :=
  match s with
  | [] => Ok (w, label)
  | c :: s1 =>
      if c =? 46 then
        match flush w label with
        | Err e => Err e
        | Ok w => parse_loop s1 w []
        end
      else if c =? 92 then
        match s1 with
        | [] => Err ErrInvalidName
        | next :: s2 =>
            if isDigit next then
              match s2 with
              | d2 :: d3 :: s4 =>
                  if negb (isDigit d2) || negb (isDigit d3) then Err ErrInvalidName
                  else
                    let v := (next - 48) * 100 + (d2 - 48) * 10 + (d3 - 48) in
                    if 255 <? v then Err ErrInvalidName
                    else match appendLabel label (to_u8 v) with
                         | Err e => Err e
                         | Ok label => parse_loop s4 w label
                         end
              | _ => Err ErrInvalidName
              end
            else
              match appendLabel label (foldByte next) with
              | Err e => Err e
              | Ok label => parse_loop s2 w label
              end
        end
      else
        match appendLabel label (foldByte c) with
        | Err e => Err e
        | Ok label => parse_loop s1 w label
        end
  end.

Definition Parse (s : bytes) : res Name :=
  if zlen s =? 0 then Err ErrInvalidName
  else if bool_decide (s = [46]) then Ok Root
  else
    let? (w, label) := parse_loop s [] [] in
    let? w := (if 0 <? zlen label then flush w label else Ok w) in
    let w := w ++ [0] in
    if maxNameLen <? zlen w then Err ErrInvalidName else Ok (mkName w).

Fixpoint fromLabels_loop (labels : list bytes) (w : bytes) : res bytes :=
  match labels with
  | [] => Ok w
  | l :: rest =>
      if zlen l =? 0 then Err ErrInvalidName
      else if maxLabelLen <? zlen l then Err ErrInvalidName
      else fromLabels_loop rest (w ++ to_u8 (zlen l) :: map foldByte l)
  end.

Definition FromLabels (labels : list bytes) : res Name :=
  if zlen labels =? 0 then Ok Root
  else
    let? w := fromLabels_loop labels [] in
    let w := w ++ [0] in
    if maxNameLen <? zlen w then Err ErrInvalidName else Ok (mkName w).

(** *** Wire decoding

    Every iteration either adds at least one byte to [total] (at most 255) or
    one to [hops] (at most 32), so 300 iterations are enough. *)

Definition decodeFuel : nat := 300.

Fixpoint DecodeWireUncompressed_loop (fuel : nat) (msg : bytes)
    (cur total : Z) (out : bytes) : res (Name * Z) :=
  match fuel with
  | O => Err ErrFuel
  | S fuel =>
      if zlen msg <=? cur then Err ErrInvalidName
      else
        let b := zget msg cur in
        if Z.land b 0xc0 =? 0 then
          let l := b in
          if l =? 0 then
            let out := out ++ [0] in
            if maxNameLen <? total + 1 then Err ErrInvalidName
            else Ok (mkName out, cur + 1)
          else if zlen msg <? cur + 1 + l then Err ErrInvalidName
          else
            let total := total + (1 + l) in
            if maxNameLen <? total then Err ErrInvalidName
            else DecodeWireUncompressed_loop fuel msg (cur + (1 + l)) total
                   (out ++ to_u8 l :: map foldByte (zslice msg (cur + 1) (cur + 1 + l)))
        else Err ErrInvalidName
  end.

Definition DecodeWireUncompressed (msg : bytes) (off : Z) : res (Name * Z) :=
  if (off <? 0) || (zlen msg <=? off) then Err ErrInvalidName
  else DecodeWireUncompressed_loop decodeFuel msg off 0 [].

Fixpoint DecodeWire_loop (fuel : nat) (msg : bytes)
    (cur nextOff hops total : Z) (out : bytes) : res (Name * Z) :=
  match fuel with
  | O => Err ErrFuel
  | S fuel =>
      if zlen msg <=? cur then Err ErrInvalidName
      else
        let b := zget msg cur in
        if Z.land b 0xc0 =? 0 then
          let l := b in
          if l =? 0 then
            let out := out ++ [0] in
            let nextOff := if nextOff <? 0 then cur + 1 else nextOff in
            if maxNameLen <? total + 1 then Err ErrInvalidName
            else Ok (mkName out, nextOff)
          else if zlen msg <? cur + 1 + l then Err ErrInvalidName
          else
            let total := total + (1 + l) in
            if maxNameLen <? total then Err ErrInvalidName
            else DecodeWire_loop fuel msg (cur + (1 + l)) nextOff hops total
                   (out ++ to_u8 l :: map foldByte (zslice msg (cur + 1) (cur + 1 + l)))
        else if Z.land b 0xc0 =? 0xc0 then
          if zlen msg <=? cur + 1 then Err ErrInvalidName
          else
            let ptr := Z.lor (Z.shiftl (Z.land b 0x3f) 8) (zget msg (cur + 1)) in
            let nextOff := if nextOff <? 0 then cur + 2 else nextOff in
            if cur <=? ptr then Err ErrInvalidName
            else
              let hops := hops + 1 in
              if maxPtrHops <? hops then Err ErrInvalidName
              else DecodeWire_loop fuel msg ptr nextOff hops total out
        else Err ErrInvalidName
  end.

Definition DecodeWire (msg : bytes) (off : Z) : res (Name * Z) :=
  if (off <? 0) || (zlen msg <=? off) then Err ErrInvalidName
  else DecodeWire_loop decodeFuel msg off (-1) 0 0 [].

(** ** Well-formed names *)

Definition label_ok (l : bytes) : Prop := 1 <= zlen l <= 63 /\ is_bytes l.

Definition encLabel (l : bytes) : bytes := zlen l :: l.
Definition encLabels (ls : list bytes) : bytes := concat (map encLabel ls).
Definition encName (ls : list bytes) : bytes := encLabels ls ++ [0].

(** The representation invariant of [Name]: the wire form of some labels,
    within the RFC 1035 limits. *)
Definition wf_name (n : Name) (ls : list bytes) : Prop :=
  wire n = encName ls /\ Forall label_ok ls /\ zlen (wire n) <= maxNameLen.

Definition folded (l : bytes) : Prop := map foldByte l = l.

(** The invariant the type comment claims: well formed and lower case. *)
Definition canonical (n : Name) : Prop :=
  exists ls, wf_name n ls /\ Forall folded ls.

Definition foldLabels (ls : list bytes) : list bytes := map (map foldByte) ls.

(** ** RFC 1035 section 4.1.4 as a relation

    [name_at msg off ls h nx]: at offset [off] of [msg] there is an encoding
    of the labels [ls] that follows [h] compression pointers and whose
    in-line part ends at [nx]. *)
Inductive name_at (msg : bytes) : Z -> list bytes -> Z -> Z -> Prop :=
  | na_root off :
      at_bytes msg off [0] ->
      name_at msg off [] 0 (off + 1)
  | na_label off l ls h nx :
      at_bytes msg off (encLabel l) -> 1 <= zlen l <= 63 ->
      name_at msg (off + 1 + zlen l) ls h nx ->
      name_at msg off (l :: ls) h nx
  | na_ptr off hi lo ls h nx :
      at_bytes msg off [192 + hi; lo] -> 0 <= hi < 64 -> u8 lo ->
      hi * 256 + lo < off ->
      name_at msg (hi * 256 + lo) ls h nx ->
      name_at msg off ls (h + 1) (off + 2).

#[export] Hint Constructors name_at : wire.

(** ** Basic lemmas *)

Lemma land_c0_label b : u8 b -> (Z.land b 0xc0 = 0 <-> b < 64).
Proof. byte_cases b. Qed.
Lemma land_c0_ptr b : u8 b -> (Z.land b 0xc0 = 0xc0 <-> 192 <= b).
Proof. byte_cases b. Qed.
Lemma land_3f b : u8 b -> Z.land b 0x3f = b mod 64.
Proof. byte_cases b. Qed.

Lemma foldByte_u8 c : u8 c -> u8 (foldByte c).
Proof. byte_cases c. Qed.
Lemma foldByte_idem c : foldByte (foldByte c) = foldByte c.
Proof. unfold foldByte. repeat split_if; bool_facts; lia. Qed.

Lemma zlen_encLabel l : zlen (encLabel l) = 1 + zlen l.
Proof. unfold encLabel. llia. Qed.
Lemma encLabels_cons l ls : encLabels (l :: ls) = encLabel l ++ encLabels ls.
Proof. done. Qed.
Lemma encName_cons l ls : encName (l :: ls) = encLabel l ++ encName ls.
Proof. unfold encName. by rewrite encLabels_cons, <- app_assoc. Qed.
Lemma zlen_encName ls : zlen (encName ls) = zlen (encLabels ls) + 1.
Proof. unfold encName. llia. Qed.
Lemma encLabels_app ls ks : encLabels (ls ++ ks) = encLabels ls ++ encLabels ks.
Proof. unfold encLabels. by rewrite map_app, concat_app. Qed.
#[export] Hint Rewrite zlen_encLabel zlen_encName : wlen.

Lemma zlen_encLabels_fold ls : zlen (encLabels (foldLabels ls)) = zlen (encLabels ls).
Proof.
  induction ls as [|l ls IH]; [done|].
  change (foldLabels (l :: ls)) with (map foldByte l :: foldLabels ls).
  rewrite !encLabels_cons. llia.
Qed.
#[export] Hint Rewrite zlen_encLabels_fold : wlen.

Lemma map_foldByte_bytes l : is_bytes l -> is_bytes (map foldByte l).
Proof. induction 1; simpl; auto using foldByte_u8. Qed.

Lemma label_ok_fold l : label_ok l -> label_ok (map foldByte l).
Proof. intros [H ?]. split; [llia|]. by apply map_foldByte_bytes. Qed.
Lemma labels_ok_fold ls : Forall label_ok ls -> Forall label_ok (foldLabels ls).
Proof. induction 1; constructor; auto using label_ok_fold. Qed.

Lemma folded_fold l : folded (map foldByte l).
Proof. unfold folded. rewrite map_map. apply map_ext, foldByte_idem. Qed.
Lemma Forall_folded_fold ls : Forall folded (foldLabels ls).
Proof. induction ls; constructor; auto using folded_fold. Qed.
Lemma foldLabels_folded ls : Forall folded ls -> foldLabels ls = ls.
Proof. induction 1 as [|l ls Hl _ IH]; [done|]. cbn. rewrite Hl. f_equal. exact IH. Qed.
#[export] Hint Resolve label_ok_fold labels_ok_fold folded_fold Forall_folded_fold : wire.

(** ** The relation and the decoder *)

Lemma name_at_ext msg r off ls h nx : name_at msg off ls h nx -> name_at (msg ++ r) off ls h nx.
Proof. induction 1; eauto using at_bytes_ext with wire. Qed.

Lemma name_at_hops msg off ls h nx : name_at msg off ls h nx -> 0 <= h.
Proof. induction 1; lia. Qed.

Lemma name_at_labels msg off ls h nx :
  is_bytes msg -> name_at msg off ls h nx -> Forall label_ok ls.
Proof.
  intros Hb. induction 1 as [| off l ls h nx Hl Hn _ IH |]; auto.
  constructor; [|done]. split; [done|].
  apply (at_bytes_Forall _ _ _ _ Hb) in Hl. by inversion Hl.
Qed.

Lemma name_at_off msg off ls h nx : name_at msg off ls h nx -> 0 <= off < zlen msg /\ off < nx.
Proof.
  induction 1 as [off H|off l ls h nx H ? ? IH|off hi lo ls h nx H ????].
  - pose proof (at_bytes_len _ _ _ _ H). destruct H. llia.
  - pose proof (at_bytes_len _ _ _ _ H). destruct H. llia.
  - pose proof (at_bytes_len _ _ _ _ H). destruct H. llia.
Qed.

(** What a successful call reports, as a function of the relation's data. *)
Definition decoded (out : bytes) (ls : list bytes) : Name :=
  mkName (out ++ encName (foldLabels ls)).

Lemma decoded_cons out l ls :
  decoded (out ++ encLabel (map foldByte l)) ls = decoded out (l :: ls).
Proof.
  unfold decoded. change (foldLabels (l :: ls)) with (map foldByte l :: foldLabels ls).
  by rewrite encName_cons, <- app_assoc.
Qed.

Lemma encLabel_slice msg cur l :
  u8 l -> 0 <= cur -> cur + 1 + l <= zlen msg ->
  to_u8 l :: map foldByte (zslice msg (cur + 1) (cur + 1 + l))
    = encLabel (map foldByte (zslice msg (cur + 1) (cur + 1 + l))).
Proof.
  intros Hl ??. unfold encLabel.
  destruct (at_bytes_of_slice msg (cur + 1) l) as [_ E]; [unfold u8 in Hl; lia..|].
  by rewrite zlen_map, E, to_u8_id.
Qed.

Lemma zget_u8 msg i : is_bytes msg -> 0 <= i < zlen msg -> u8 (zget msg i).
Proof.
  intros Hb Hi. pose proof (at_bytes_of_get msg i Hi) as H.
  apply (at_bytes_Forall _ _ _ _ Hb) in H. by inversion H.
Qed.

Lemma DecodeWire_loop_sound fuel msg cur nextOff hops total out n nx :
  is_bytes msg -> 0 <= cur ->
  DecodeWire_loop fuel msg cur nextOff hops total out = Ok (n, nx) ->
  exists ls h nx0,
    name_at msg cur ls h nx0 /\ (0 < h -> hops + h <= maxPtrHops) /\
    total + zlen (encName ls) <= maxNameLen /\
    n = decoded out ls /\ nx = (if nextOff <? 0 then nx0 else nextOff).
Proof.
  intros Hb. revert cur nextOff hops total out.
  induction fuel as [|fuel IH]; intros cur nextOff hops total out Hc H; [done|].
  cbn [DecodeWire_loop] in H. destruct (zlen msg <=? cur) eqn:E1; [done|]. bool_facts.
  pose proof (zget_u8 msg cur Hb ltac:(lia)) as Hu.
  pose proof (at_bytes_of_get msg cur ltac:(lia)) as Hat.
  set (b := zget msg cur) in *.
  destruct (Z.land b 0xc0 =? 0) eqn:E2; bool_facts.
  - destruct (b =? 0) eqn:E3; bool_facts.
    + destruct (_ <? _) eqn:E4 in H; [done|]. bool_facts. injection H as <- <-.
      rewrite E3 in Hat. exists [], 0, (cur + 1).
      repeat split; [by constructor|lia|llia].
    + destruct (zlen msg <? _) eqn:E4 in H; [done|].
      destruct (maxNameLen <? _) eqn:E5 in H; [done|]. bool_facts.
      rewrite encLabel_slice in H by (done || lia).
      destruct (at_bytes_of_slice msg (cur + 1) b) as [Hs El]; [unfold u8 in Hu; lia..|].
      set (l := zslice msg (cur + 1) (cur + 1 + b)) in *.
      apply IH in H as (ls & h & nx0 & Hn & Hh & Ht & -> & ->); [|unfold u8 in Hu; lia].
      apply land_c0_label in E2; [|done].
      exists (l :: ls), h, nx0. rewrite decoded_cons, encName_cons.
      split; [|split; [done|split; [llia|done]]].
      apply na_label; [|unfold u8 in Hu; lia|].
      * unfold encLabel. rewrite El. apply at_bytes_cons. by split.
      * replace (cur + 1 + zlen l) with (cur + (1 + b)) by lia. done.
  - destruct (Z.land b 0xc0 =? 0xc0) eqn:E3; [|done].
    destruct (zlen msg <=? cur + 1) eqn:E4; [done|]. bool_facts.
    destruct (_ <=? _) eqn:E5 in H; [done|].
    destruct (maxPtrHops <? _) eqn:E6 in H; [done|]. bool_facts.
    pose proof (zget_u8 msg (cur + 1) Hb ltac:(lia)) as Hu2.
    pose proof (at_bytes_of_get msg (cur + 1) ltac:(lia)) as Hat2.
    set (lo := zget msg (cur + 1)) in *.
    rewrite land_3f in E5, H by done. fold (get16 (b mod 64) lo) in E5, H.
    rewrite get16_add in E5, H by done.
    apply land_c0_ptr in E3; [|done].
    apply IH in H as (ls & h & nx0 & Hn & Hh & Ht & -> & ->);
      [|unfold u8 in Hu2; pose proof (Z.mod_pos_bound b 64); lia].
    exists ls, (h + 1), (cur + 2).
    pose proof (name_at_hops _ _ _ _ _ Hn).
    split; [|split; [|split; [done|split; [done|by repeat split_if; bool_facts; try lia]]]].
    + apply (na_ptr _ _ (b mod 64) lo ls h nx0); try done; [|unfold u8 in Hu; elia].
      apply (at_bytes_cons _ _ _ [lo]). split; [|done].
      by replace (192 + b mod 64) with b by (unfold u8 in Hu; elia).
    + intros _. destruct (decide (h = 0)); lia.
Qed.

Lemma DecodeWire_loop_complete msg cur ls h nx0 fuel nextOff hops total out :
  is_bytes msg -> name_at msg cur ls h nx0 ->
  0 <= total -> total + zlen (encName ls) <= maxNameLen -> 0 <= hops -> hops + h <= maxPtrHops ->
  (256 - total) + (33 - hops) <= Z.of_nat fuel ->
  DecodeWire_loop fuel msg cur nextOff hops total out
    = Ok (decoded out ls, if nextOff <? 0 then nx0 else nextOff).
Proof.
  intros Hb Hn. revert fuel nextOff hops total out. unfold maxNameLen, maxPtrHops.
  induction Hn as [off Ha|off l ls h nx Ha Hl Hn IH|off hi lo ls h nx Ha Hhi Hlo Hlt Hn IH];
    intros fuel nextOff hops total out Ht Htot Hh Hhop Hf;
    try pose proof (name_at_hops _ _ _ _ _ Hn) as Hh0;
    (destruct fuel as [|fuel]; [llia|]);
    cbn [DecodeWire_loop]; cbv zeta;
    pose proof (at_bytes_len _ _ _ _ Ha) as Hlen; pose proof (proj1 Ha) as Hoff;
    rewrite (at_bytes_get _ _ _ _ Ha); unfold maxNameLen, maxPtrHops.
  - do 4 (if_false || if_true). done.
  - rewrite encName_cons in Htot. if_false.
    rewrite (proj2 (land_c0_label (zlen l) ltac:(unfold u8; lia))) by lia. cbn [Z.eqb].
    do 3 if_false. rewrite encLabel_slice by (unfold u8 in *; lia).
    apply at_bytes_cons in Ha as [_ Ha].
    rewrite (at_bytes_slice _ _ _ Ha).
    replace (off + (1 + zlen l)) with (off + 1 + zlen l) by lia.
    rewrite IH by llia. by rewrite decoded_cons.
  - if_false.
    destruct (Z.land (192 + hi) 192 =? 0) eqn:E1; bool_facts.
    { apply land_c0_label in E1; unfold u8; lia. }
    rewrite (proj2 (land_c0_ptr (192 + hi) ltac:(unfold u8; lia))) by lia.
    apply at_bytes_cons in Ha as [_ Ha]. rewrite (at_bytes_get _ _ _ _ Ha). cbn [Z.eqb].
    rewrite land_3f by (unfold u8; lia). fold (get16 ((192 + hi) mod 64) lo).
    rewrite get16_add by done. replace ((192 + hi) mod 64) with hi by elia.
    do 3 if_false. rewrite IH by llia.
    f_equal. f_equal. by repeat split_if; bool_facts; try lia.
Qed.

Lemma DecodeWire_loop_fuel fuel msg cur nextOff hops total out :
  is_bytes msg -> 0 <= cur -> 0 <= total <= maxNameLen -> 0 <= hops <= maxPtrHops ->
  (256 - total) + (33 - hops) <= Z.of_nat fuel ->
  DecodeWire_loop fuel msg cur nextOff hops total out <> Err ErrFuel.
Proof.
  intros Hb. unfold maxNameLen, maxPtrHops. revert cur nextOff hops total out.
  induction fuel as [|fuel IH]; intros cur nextOff hops total out Hc Ht Hh Hf; [lia|].
  cbn [DecodeWire_loop]; cbv zeta; unfold maxNameLen, maxPtrHops.
  destruct (zlen msg <=? cur) eqn:E1; [done|]. bool_facts.
  pose proof (zget_u8 msg cur Hb ltac:(lia)) as Hu. unfold u8 in Hu.
  repeat (split_if; [try done|try done]); bool_facts; try apply IH; try lia.
  all: pose proof (zget_u8 msg (cur + 1) Hb ltac:(lia)) as Hu2; unfold u8 in Hu2.
  all: apply Z.lor_nonneg; split; [|lia].
  all: apply Z.shiftl_nonneg, Z.land_nonneg; lia.
Qed.

(** The decoder refines the relation, in both directions. *)
Lemma DecodeWire_spec msg off n nx :
  is_bytes msg ->
  DecodeWire msg off = Ok (n, nx) <->
  exists ls h, name_at msg off ls h nx /\ h <= maxPtrHops /\
    zlen (encName ls) <= maxNameLen /\ n = mkName (encName (foldLabels ls)).
Proof.
  intros Hb. unfold DecodeWire. split.
  - destruct (_ || _) eqn:E; [done|]. bool_facts. intros Hd.
    apply DecodeWire_loop_sound in Hd as (ls & h & nx0 & Hn & Hh & Ht & -> & ->); [|done|lia].
    exists ls, h. repeat split; [done| |lia].
    unfold maxPtrHops in *. destruct (decide (0 < h)); lia.
  - intros (ls & h & Hn & Hh & Hl & ->).
    pose proof (name_at_off _ _ _ _ _ Hn). if_false.
    rewrite (DecodeWire_loop_complete _ _ _ _ _ decodeFuel (-1) 0 0 [] Hb Hn); try lia; [done|].
    unfold decodeFuel. lia.
Qed.

Lemma DecodeWire_fuel msg off : is_bytes msg -> DecodeWire msg off <> Err ErrFuel.
Proof.
  intros Hb. unfold DecodeWire. destruct (_ || _) eqn:E; [done|]. bool_facts.
  apply DecodeWire_loop_fuel; try done; unfold maxNameLen, maxPtrHops, decodeFuel; lia.
Qed.

(** The only errors of the decoder are [ErrInvalidName] and the bound. *)
Lemma DecodeWire_loop_error fuel msg cur nextOff hops total out e :
  DecodeWire_loop fuel msg cur nextOff hops total out = Err e -> e = ErrInvalidName \/ e = ErrFuel.
Proof.
  revert cur nextOff hops total out. induction fuel as [|fuel IH]; intros cur nextOff hops total out; cbn.
  - intros [= <-]. by right.
  - repeat split_if; try (by intros [= <-]; left); try done; apply IH.
Qed.

Lemma DecodeWire_error msg off e :
  is_bytes msg -> DecodeWire msg off = Err e -> e = ErrInvalidName \/ e = ErrFuel.
Proof.
  intros _. unfold DecodeWire. destruct (_ || _); [by intros [= <-]; left|].
  apply DecodeWire_loop_error.
Qed.

(** ** Inline names and the uncompressed decoder *)

Lemma name_at_inline msg off ls :
  at_bytes msg off (encName ls) -> Forall label_ok ls ->
  name_at msg off ls 0 (off + zlen (encName ls)).
Proof.
  intros Ha Hok. revert off Ha. induction Hok as [|l ls [Hl _] _ IH]; intros off Ha.
  - by constructor.
  - rewrite encName_cons in *. apply at_bytes_app in Ha as [Ha Hr].
    apply na_label; [done..|].
    replace (off + zlen (encLabel l ++ encName ls)) with (off + 1 + zlen l + zlen (encName ls)) by llia.
    apply IH. by rewrite zlen_encLabel, Z.add_assoc in Hr.
Qed.

Lemma name_at_inline_inv msg off ls h nx :
  name_at msg off ls h nx -> h = 0 ->
  at_bytes msg off (encName ls) /\ nx = off + zlen (encName ls).
Proof.
  induction 1 as [off Ha|off l ls h nx Ha Hl Hn IH|off hi lo ls h nx Ha ??? Hn IH]; intros Hh.
  - done.
  - destruct (IH Hh) as [H ->]. rewrite encName_cons. split; [|llia].
    apply at_bytes_app. split; [done|]. by rewrite zlen_encLabel, Z.add_assoc.
  - apply name_at_hops in Hn. lia.
Qed.

Lemma DecodeWireUncompressed_loop_refines fuel msg cur nextOff hops total out n nx :
  DecodeWireUncompressed_loop fuel msg cur total out = Ok (n, nx) ->
  DecodeWire_loop fuel msg cur nextOff hops total out
    = Ok (n, if nextOff <? 0 then nx else nextOff).
Proof.
  revert cur total out. induction fuel as [|fuel IH]; intros cur total out H; [done|].
  cbn [DecodeWireUncompressed_loop DecodeWire_loop] in *.
  repeat split_if; inv_ok; try done; try by apply IH.
Qed.

Lemma DecodeWireUncompressed_loop_inline fuel msg cur total out n nx :
  is_bytes msg -> 0 <= cur ->
  DecodeWireUncompressed_loop fuel msg cur total out = Ok (n, nx) ->
  exists ls, name_at msg cur ls 0 nx /\ total + zlen (encName ls) <= maxNameLen /\ n = decoded out ls.
Proof.
  intros Hb. revert cur total out. induction fuel as [|fuel IH]; intros cur total out Hc H; [done|].
  cbn [DecodeWireUncompressed_loop] in H. destruct (zlen msg <=? cur) eqn:E1; [done|]. bool_facts.
  pose proof (zget_u8 msg cur Hb ltac:(lia)) as Hu.
  pose proof (at_bytes_of_get msg cur ltac:(lia)) as Hat.
  set (b := zget msg cur) in *.
  destruct (Z.land b 0xc0 =? 0) eqn:E2; [|done]. bool_facts. destruct (b =? 0) eqn:E3; bool_facts.
  - destruct (_ <? _) eqn:E4 in H; [done|]. bool_facts. injection H as <- <-.
    rewrite E3 in Hat. exists []. repeat split; [by constructor|llia].
  - destruct (zlen msg <? _) eqn:E4 in H; [done|].
    destruct (maxNameLen <? _) eqn:E5 in H; [done|]. bool_facts.
    rewrite encLabel_slice in H by (done || lia).
    destruct (at_bytes_of_slice msg (cur + 1) b) as [Hs El]; [unfold u8 in Hu; lia..|].
    set (l := zslice msg (cur + 1) (cur + 1 + b)) in *.
    apply IH in H as (ls & Hn & Ht & ->); [|unfold u8 in Hu; lia].
    apply land_c0_label in E2; [|done].
    exists (l :: ls). rewrite decoded_cons, encName_cons. split; [|split; [llia|done]].
    apply na_label; [|unfold u8 in Hu; lia|].
    + unfold encLabel. rewrite El. apply at_bytes_cons. by split.
    + replace (cur + 1 + zlen l) with (cur + (1 + b)) by lia. done.
Qed.

Lemma DecodeWireUncompressed_loop_complete msg ls fuel cur total out :
  at_bytes msg cur (encName ls) -> Forall label_ok ls -> 0 <= total ->
  total + zlen (encName ls) <= maxNameLen -> (256 - total) <= Z.of_nat fuel ->
  DecodeWireUncompressed_loop fuel msg cur total out
    = Ok (decoded out ls, cur + zlen (encName ls)).
Proof.
  intros Ha Hok. revert fuel cur total out Ha. unfold maxNameLen.
  induction Hok as [|l ls [Hl Hlb] _ IH]; intros fuel cur total out Ha Ht Htot Hf;
    (destruct fuel as [|fuel]; [llia|]); cbn [DecodeWireUncompressed_loop];
    cbv zeta; unfold maxNameLen.
  - pose proof (at_bytes_len _ _ _ _ Ha). rewrite (at_bytes_get _ _ _ _ Ha).
    cbn [Z.land Z.eqb]. do 2 if_false. done.
  - rewrite encName_cons in *. pose proof (at_bytes_len _ _ _ _ Ha) as Hlen.
    rewrite (at_bytes_get _ _ _ _ Ha). if_false.
    rewrite (proj2 (land_c0_label (zlen l) ltac:(unfold u8; lia))) by lia. cbn [Z.eqb].
    pose proof (proj1 Ha). do 3 if_false. rewrite encLabel_slice by (unfold u8 in *; llia).
    apply at_bytes_app in Ha as [Ha Hr]. apply at_bytes_cons in Ha as [_ Ha].
    rewrite (at_bytes_slice _ _ _ Ha). rewrite zlen_encLabel in Hr.
    rewrite IH by (done || llia). rewrite decoded_cons. do 2 f_equal. llia.
Qed.

Lemma DecodeWireUncompressed_spec msg off n nx :
  is_bytes msg ->
  DecodeWireUncompressed msg off = Ok (n, nx) <->
  exists ls, at_bytes msg off (encName ls) /\ Forall label_ok ls /\ nx = off + zlen (encName ls) /\
    zlen (encName ls) <= maxNameLen /\ n = mkName (encName (foldLabels ls)).
Proof.
  intros Hb. unfold DecodeWireUncompressed. split.
  - destruct (_ || _) eqn:E; [done|]. bool_facts. intros Hd.
    apply DecodeWireUncompressed_loop_inline in Hd as (ls & Hn & Ht & ->); [|done|lia].
    exists ls. pose proof (name_at_labels _ _ _ _ _ Hb Hn).
    apply name_at_inline_inv in Hn as [? ->]; [|done]. split_and!; (done || lia).
  - intros (ls & Ha & Hok & -> & Hl & ->).
    pose proof (name_at_off _ _ _ _ _ (name_at_inline _ _ _ Ha Hok)). if_false.
    rewrite (DecodeWireUncompressed_loop_complete _ ls); try done; unfold decodeFuel; lia.
Qed.

Lemma DecodeWireUncompressed_refines msg off r :
  DecodeWireUncompressed msg off = Ok r -> DecodeWire msg off = Ok r.
Proof.
  destruct r as [n nx]. unfold DecodeWireUncompressed, DecodeWire. destruct (_ || _); [done|].
  intros H. by rewrite (DecodeWireUncompressed_loop_refines _ _ _ (-1) 0 _ _ _ _ H).
Qed.

(** Every decoded name satisfies the invariant the type comment claims. *)
Lemma encName_canonical ls :
  Forall label_ok ls -> zlen (encName ls) <= maxNameLen ->
  canonical (mkName (encName (foldLabels ls))).
Proof.
  intros Hok Hl. exists (foldLabels ls). split; [|auto with wire].
  split; [done|]. split; [auto with wire|]. cbn [wire]. llia.
Qed.

(** ** Accessors on well-formed names *)

Lemma wf_valid n ls : wf_name n ls -> IsValid n = true.
Proof. intros (E & _). unfold IsValid. rewrite E. apply Z.ltb_lt. llia. Qed.

Lemma drop_label (l r : bytes) : drop (Z.to_nat (zlen l)) (l ++ r) = r.
Proof. unfold zlen. by rewrite Nat2Z.id, drop_app_length. Qed.
Lemma take_label (l r : bytes) : take (Z.to_nat (zlen l)) (l ++ r) = l.
Proof. unfold zlen. by rewrite Nat2Z.id, take_app_length. Qed.

(** A loop over [n.wire] visits exactly the labels: the three accessors are
    instances of one fact about the suffix they step to. *)
Lemma length_encName_cons l ls fuel :
  (length (encName (l :: ls)) <= S fuel)%nat -> (length (encName ls) <= fuel)%nat.
Proof. rewrite encName_cons, length_app. cbn. lia. Qed.

Lemma encName_pos l ls : label_ok l ->
  encName (l :: ls) = zlen l :: (l ++ encName ls) /\ (zlen l =? 0) = false.
Proof. intros [H _]. split; [by rewrite encName_cons|]. apply Z.eqb_neq. lia. Qed.

Ltac step_label Hl :=
  match goal with
  | |- context [encName (?l :: ?ls)] =>
      destruct (encName_pos l ls Hl) as [-> Hz]; cbn; rewrite Hz, ?drop_label, ?take_label
  end.

Lemma numLabels_loop_enc fuel ls c :
  Forall label_ok ls -> (length (encName ls) <= fuel)%nat ->
  numLabels_loop fuel (encName ls) c = c + zlen ls.
Proof.
  intros Hok. revert fuel c. induction Hok as [|l ls Hl _ IH]; intros fuel c Hf;
    (destruct fuel as [|fuel]; [cbn in Hf; lia|]); [cbn; llia|].
  apply length_encName_cons in Hf. step_label Hl. rewrite IH by done. llia.
Qed.

Lemma labels_loop_enc fuel ls :
  Forall label_ok ls -> (length (encName ls) <= fuel)%nat -> labels_loop fuel (encName ls) = ls.
Proof.
  intros Hok. revert fuel. induction Hok as [|l ls Hl _ IH]; intros fuel Hf;
    (destruct fuel as [|fuel]; [cbn in Hf; lia|]); [done|].
  apply length_encName_cons in Hf. step_label Hl. by rewrite IH.
Qed.

Definition escapeLabel (l : bytes) : bytes := concat (map escapeByte l) ++ [46].

Lemma string_loop_enc fuel ls :
  Forall label_ok ls -> (length (encName ls) <= fuel)%nat ->
  string_loop fuel (encName ls) = concat (map escapeLabel ls).
Proof.
  intros Hok. revert fuel. induction Hok as [|l ls Hl _ IH]; intros fuel Hf;
    (destruct fuel as [|fuel]; [cbn in Hf; lia|]); [done|].
  apply length_encName_cons in Hf. step_label Hl. rewrite IH by done.
  unfold escapeLabel. by rewrite <- app_assoc.
Qed.

Lemma NumLabels_wf n ls : wf_name n ls -> NumLabels n = zlen ls.
Proof.
  intros Hw. pose proof (wf_valid _ _ Hw) as Hv. destruct Hw as (E & Hok & _).
  unfold NumLabels. by rewrite Hv, E, numLabels_loop_enc.
Qed.

Lemma Labels_wf n ls : wf_name n ls -> Labels n = ls.
Proof.
  intros Hw. pose proof (wf_valid _ _ Hw) as Hv. destruct Hw as (E & Hok & _).
  unfold Labels. by rewrite Hv, E, labels_loop_enc.
Qed.

(** The labels determine the name and the name the labels. *)
Lemma wf_name_inj n ls ks : wf_name n ls -> wf_name n ks -> ls = ks.
Proof. intros H1 H2. by rewrite <- (Labels_wf _ _ H1), (Labels_wf _ _ H2). Qed.

Lemma Root_wf : wf_name Root [].
Proof. split; [done|]. split; [constructor|]. cbn. unfold maxNameLen. llia. Qed.

Lemma IsRoot_wf n ls : wf_name n ls -> IsRoot n = true <-> ls = [].
Proof.
  intros (E & Hok & _). unfold IsRoot. rewrite bool_decide_eq_true, E.
  destruct ls as [|l ls]; [done|]. rewrite encName_cons. split; [|done].
  intros H. apply (f_equal zlen) in H. inversion Hok as [|?? [Hl _] _]; subst. llia.
Qed.

Lemma Parent_wf n l ls : wf_name n (l :: ls) ->
  exists p, Parent n = Some p /\ wf_name p ls.
Proof.
  intros Hw. pose proof (wf_valid _ _ Hw) as Hv.
  assert (IsRoot n = false) as Hr.
  { destruct (IsRoot n) eqn:E; [|done]. by apply (IsRoot_wf _ _ Hw) in E. }
  destruct Hw as (E & Hok & Hl). unfold Parent. rewrite Hv, Hr. cbn [negb orb].
  eexists. split; [done|]. inversion Hok as [|?? Hlo Hoks]; subst.
  rewrite E. destruct (encName_pos l ls Hlo) as [Ee _]. rewrite E, encName_cons in Hl.
  rewrite Ee. change (zget (zlen l :: l ++ encName ls) 0) with (zlen l).
  replace (Z.to_nat (1 + zlen l)) with (S (Z.to_nat (zlen l))) by llia.
  cbn [skipn]. rewrite drop_label.
  split; [done|]. split; [done|]. cbn [wire]. llia.
Qed.

(** ** FromLabels *)

Lemma fromLabels_loop_ok ls w :
  Forall (fun l => 1 <= zlen l <= 63) ls ->
  fromLabels_loop ls w = Ok (w ++ encLabels (foldLabels ls)).
Proof.
  intros Hok. revert w. induction Hok as [|l ls Hl _ IH]; intros w; cbn [fromLabels_loop].
  - by rewrite app_nil_r.
  - unfold maxLabelLen. do 2 if_false. rewrite IH.
    change (foldLabels (l :: ls)) with (map foldByte l :: foldLabels ls).
    rewrite encLabels_cons, app_assoc. unfold encLabel. rewrite zlen_map, to_u8_id by (unfold u8; lia).
    done.
Qed.

Lemma fromLabels_loop_inv ls w w' :
  fromLabels_loop ls w = Ok w' -> Forall (fun l => 1 <= zlen l <= 63) ls.
Proof.
  revert w. induction ls as [|l ls IH]; intros w; cbn; [constructor|].
  unfold maxLabelLen. repeat split_if; try done. bool_facts. intros H'.
  constructor; [pose proof (zlen_nonneg l); lia|eauto].
Qed.

Lemma FromLabels_spec ls n :
  Forall is_bytes ls ->
  FromLabels ls = Ok n <->
  Forall label_ok ls /\ zlen (encName ls) <= maxNameLen /\ n = mkName (encName (foldLabels ls)).
Proof.
  intros Hb. unfold FromLabels. destruct (zlen ls =? 0) eqn:E; bool_facts.
  { apply zlen_0_inv in E as ->. split.
    - intros [= <-]. split_and!; [constructor|unfold maxNameLen; llia|done].
    - by intros (_ & _ & ->). }
  split.
  - intros H. inv_ok. match goal with H : fromLabels_loop _ _ = _ |- _ => rename H into Hl end.
    pose proof (fromLabels_loop_inv _ _ _ Hl) as Hk. rewrite fromLabels_loop_ok in Hl by done.
    inv_ok. cbn [app] in H. destruct (_ <? _) eqn:E2 in H; [done|]. bool_facts. inv_ok.
    split_and!; [|llia|done]. clear -Hk Hb.
    induction Hk; inversion Hb; subst; constructor; [by split|auto].
  - intros (Hok & Hlen & ->).
    rewrite fromLabels_loop_ok by (eapply Forall_impl; [apply Hok|by intros ? [? _]]).
    cbn [res_bind app]. if_false. done.
Qed.

(** ** Parse and String *)

(** What a label must satisfy to survive the presentation form: no NUL
    (Parse refuses it) and lower case (Parse folds it). *)
Definition printable (l : bytes) : Prop := Forall (fun c => u8 c /\ c <> 0 /\ foldByte c = c) l.

Lemma parse_escape c s w label :
  u8 c -> c <> 0 -> foldByte c = c -> zlen label < 63 ->
  parse_loop (escapeByte c ++ s) w label = parse_loop s w (label ++ [c]).
Proof.
  intros Hu H0 Hf Hl. unfold escapeByte.
  assert (forall d, d = c -> appendLabel label d = Ok (label ++ [c])) as Ha.
  { intros d ->. unfold appendLabel, maxLabelLen. do 2 if_false. done. }
  destruct ((c =? 46) || (c =? 92)) eqn:E1; [|destruct ((c <? 33) || (126 <? c)) eqn:E2].
  - change ([92; c] ++ s) with (92 :: c :: s). cbn [parse_loop].
    change (92 =? 46) with false. change (92 =? 92) with true. cbv iota.
    assert (isDigit c = false) as -> by (unfold isDigit; apply orb_true_iff in E1; lia).
    by rewrite Ha.
  - change ((92 :: fmt03 c) ++ s) with (92 :: 48 + c / 100 :: 48 + c / 10 mod 10 :: 48 + c mod 10 :: s).
    cbn [parse_loop]. change (92 =? 46) with false. change (92 =? 92) with true. cbv iota.
    unfold u8 in Hu.
    assert (isDigit (48 + c / 100) = true) as -> by (unfold isDigit; elia).
    assert (isDigit (48 + c / 10 mod 10) = true) as -> by (unfold isDigit; elia).
    assert (isDigit (48 + c mod 10) = true) as -> by (unfold isDigit; elia).
    cbn [negb orb]. cbv zeta.
    replace ((48 + c / 100 - 48) * 100 + (48 + c / 10 mod 10 - 48) * 10 + (48 + c mod 10 - 48))
      with c by elia.
    if_false. by rewrite Ha by (by apply to_u8_id).
  - bool_facts. change ([c] ++ s) with (c :: s). cbn [parse_loop].
    do 2 if_false. by rewrite Ha.
Qed.

Lemma parse_escapes l s w label :
  printable l -> zlen label + zlen l <= 63 ->
  parse_loop (concat (map escapeByte l) ++ s) w label = parse_loop s w (label ++ l).
Proof.
  intros Hp. revert label. induction Hp as [|c l (Hu & H0 & Hf) _ IH]; intros label Hl.
  - by rewrite app_nil_r.
  - cbn [map concat]. rewrite <- app_assoc, parse_escape by (done || llia).
    rewrite IH by llia. by rewrite <- app_assoc.
Qed.

Lemma flush_ok w l :
  label_ok l -> zlen w + zlen (encLabel l) <= 255 -> flush w l = Ok (w ++ encLabel l).
Proof.
  intros [Hl _] Hw. unfold flush, maxLabelLen, maxNameLen.
  rewrite to_u8_id by (unfold u8; lia). do 3 if_false. done.
Qed.

Lemma parse_escapeLabel l s w :
  label_ok l -> printable l -> zlen w + zlen (encLabel l) <= 255 ->
  parse_loop (escapeLabel l ++ s) w [] = parse_loop s (w ++ encLabel l) [].
Proof.
  intros Hl Hp Hw. unfold escapeLabel. rewrite <- app_assoc, parse_escapes by (done || destruct Hl; llia).
  cbn [app parse_loop]. change (46 =? 46) with true. cbv iota. by rewrite flush_ok.
Qed.

Lemma parse_escapeLabels ls w :
  Forall label_ok ls -> Forall printable ls -> zlen w + zlen (encLabels ls) <= 255 ->
  parse_loop (concat (map escapeLabel ls)) w [] = Ok (w ++ encLabels ls, []).
Proof.
  intros Hok. revert w. induction Hok as [|l ls Hl _ IH]; intros w Hp Hw.
  - by rewrite app_nil_r.
  - inversion Hp; subst. rewrite encLabels_cons in *. cbn [map concat].
    rewrite parse_escapeLabel by (done || llia). rewrite IH by (done || llia). by rewrite app_assoc.
Qed.

Lemma escapeByte_nonempty c : 1 <= zlen (escapeByte c).
Proof. unfold escapeByte, fmt03. repeat split_if; cbn; llia. Qed.

Lemma zlen_escapeLabel l : label_ok l -> 2 <= zlen (escapeLabel l).
Proof.
  intros [Hl _]. unfold escapeLabel. destruct l as [|c l]; [llia|]. cbn [map concat].
  pose proof (escapeByte_nonempty c). llia.
Qed.

Lemma Parse_String n ls :
  wf_name n ls -> Forall printable ls -> Parse (String_ n) = Ok n.
Proof.
  intros Hw Hp. pose proof (wf_valid _ _ Hw) as Hv. pose proof (IsRoot_wf _ _ Hw) as Hr.
  unfold String_. rewrite Hv. cbn [negb]. destruct (IsRoot n) eqn:E.
  { unfold IsRoot in E. apply bool_decide_eq_true in E. destruct n as [w]. cbn in E. by subst. }
  destruct Hw as (Ew & Hok & Hlen). rewrite Ew, string_loop_enc by done.
  destruct ls as [|l ls]; [by discriminate (proj2 Hr eq_refl)|].
  set (s := concat (map escapeLabel (l :: ls))).
  assert (2 <= zlen s) as Hs.
  { subst s. cbn [map concat]. inversion Hok as [|?? Hl _]; subst.
    pose proof (zlen_escapeLabel l Hl). llia. }
  unfold Parse. if_false. rewrite bool_decide_eq_false_2 by (intros ->; llia). subst s.
  rewrite Ew in Hlen. unfold maxNameLen in Hlen. rewrite zlen_encName in Hlen.
  rewrite parse_escapeLabels by (done || llia). cbn [res_bind app]. change (0 <? zlen (@nil Z)) with false. cbn [res_bind].
  change (encLabels (l :: ls) ++ [0]) with (encName (l :: ls)). unfold maxNameLen. if_false.
  destruct n as [w]. cbn in Ew. by subst.
Qed.

(** The invariant of [Parse]: what it accepts is well formed. *)
Definition parse_inv (w label : bytes) : Prop :=
  (exists ls, w = encLabels ls /\ Forall label_ok ls /\ Forall (fun l => ~ In 0 l) ls) /\
  zlen label <= 63 /\ is_bytes label /\ ~ In 0 label.

Lemma flush_inv w label w' :
  parse_inv w label -> flush w label = Ok w' -> parse_inv w' [].
Proof.
  intros ((ls & -> & Hok & Hz) & Hl & Hb & H0). unfold flush, maxLabelLen, maxNameLen.
  repeat split_if; try done. bool_facts. intros [= <-]. rewrite to_u8_id by llia.
  unfold parse_inv. split_and!; [|llia|constructor|by intros []].
  exists (ls ++ [label]). rewrite encLabels_app. split; [by rewrite encLabels_cons, app_nil_r|].
  split; apply Forall_app_2; try done; constructor; try done. split; [llia|done].
Qed.

Lemma appendLabel_inv w label c label' :
  u8 c -> parse_inv w label -> appendLabel label c = Ok label' -> parse_inv w label'.
Proof.
  intros Hu (Hw & Hl & Hb & H0). unfold appendLabel, maxLabelLen.
  repeat split_if; try done. bool_facts. intros [= <-]. split; [done|].
  split; [llia|]. split; [by apply Forall_app_2; [|constructor]|].
  rewrite in_app_iff. cbn. intuition lia.
Qed.

Lemma parse_loop_inv k s w label w' label' :
  (length s <= k)%nat -> is_bytes s -> parse_inv w label ->
  parse_loop s w label = Ok (w', label') -> parse_inv w' label'.
Proof.
  revert s w label. induction k as [|k IH]; intros s w label Hk Hs Hinv H;
    (destruct s as [|c s]; [cbn in H; by inv_ok|]); [cbn in Hk; lia|].
  inversion Hs as [|?? Hc Hs']; subst. cbn in Hk. cbn [parse_loop] in H.
  destruct (c =? 46).
  { destruct (flush w label) eqn:Ef; [|done].
    eapply IH, H; [lia|done|]. eauto using flush_inv. }
  destruct (c =? 92).
  - destruct s as [|next s]; [done|]. inversion Hs' as [|?? Hn Hs2]; subst. cbn in Hk.
    destruct (isDigit next).
    + destruct s as [|d2 [|d3 s]]; try done. inversion Hs2 as [|?? ? Hs3]; subst.
      inversion Hs3; subst. repeat (destruct (_ : bool) eqn:? in H; [done|]).
      cbv zeta in H. destruct (appendLabel _ _) eqn:Ea in H; [|done]. cbn in Hk.
      eapply IH, H; [lia|done|]. eapply appendLabel_inv, Ea; auto with wire.
    + destruct (appendLabel _ _) eqn:Ea in H; [|done].
      eapply IH, H; [lia|done|]. eapply appendLabel_inv, Ea; auto using foldByte_u8.
  - destruct (appendLabel _ _) eqn:Ea in H; [|done].
    eapply IH, H; [lia|done|]. eapply appendLabel_inv, Ea; auto using foldByte_u8.
Qed.

Lemma Parse_wf s n :
  is_bytes s -> Parse s = Ok n -> exists ls, wf_name n ls /\ Forall (fun l => ~ In 0 l) ls.
Proof.
  intros Hs H. unfold Parse in H. destruct (_ =? _); [done|].
  destruct (bool_decide _); [inv_ok; by exists []; split; [apply Root_wf|constructor]|].
  inv_ok. destruct x as [w label]. inv_ok. cbn [fst snd] in *.
  destruct (maxNameLen <? _) eqn:E in H; [done|]. inv_ok. bool_facts.
  match goal with H : parse_loop _ _ _ = _ |- _ => rename H into Hp end.
  assert (parse_inv w label) as Hinv.
  { eapply (parse_loop_inv (length s)), Hp; try done.
    unfold parse_inv. split_and!; [|llia|constructor|by intros []].
    exists []. split_and!; by constructor. }
  assert (parse_inv x []) as ((ls & -> & Hok & Hz) & _).
  { destruct (0 <? zlen label) eqn:El; bool_facts; [by eapply flush_inv|].
    inv_ok. assert (label = []) as -> by (apply zlen_0_inv; llia). done. }
  exists ls. split; [|done]. split; [done|]. split; [done|]. cbn [wire]. llia.
Qed.

(** ** Properties *)

(** [DecodeWire] is exactly RFC 1035 section 4.1.4: it returns [n] and
    [next] if and only if the message holds, at [off], an encoding of some
    labels that uses strictly backward pointers only, follows at most 32 of
    them, is at most 255 octets long when expanded, and ends in line at
    [next]; and [n] is then the lower-cased wire form of those labels. *)
Theorem decode_wire_refines_rfc1035 msg off n next :
  is_bytes msg ->
  DecodeWire msg off = Ok (n, next) <->
  exists ls h, name_at msg off ls h next /\ h <= maxPtrHops /\
    zlen (encName ls) <= maxNameLen /\ n = mkName (encName (foldLabels ls)).
Proof. exact (DecodeWire_spec msg off n next). Qed.

Example decode_wire_refines_rfc1035_witness :
  is_bytes [1; 65; 0; 192; 0] /\ DecodeWire [1; 65; 0; 192; 0] 3 = Ok (mkName [1; 97; 0], 5).
Proof.
  assert (is_bytes [1; 65; 0; 192; 0]) as Hb by decide_now. split; [exact Hb|].
  apply (decode_wire_refines_rfc1035 _ 3 _ 5 Hb). exists [[65]], 1.
  split; [|split; [unfold maxPtrHops; lia|split; [unfold maxNameLen; vm_compute; discriminate|reflexivity]]].
  apply (na_ptr _ 3 0 0 [[65]] 0 3); try (unfold u8; lia).
  - split; [lia|]. by exists [].
  - apply na_label; [split; [lia|]; by exists [0; 192; 0]|unfold zlen; cbn; lia|].
    apply (na_root _ 2). split; [lia|]. by exists [192; 0].
Defined.

(** The decoding loop always ends: whatever bytes a peer sends, the
    outcome is a name or a decoding error, never an exhausted iteration
    bound; and when it is a name the reported offset lies inside the message
    and after the start, so a parser that resumes there makes progress. *)
Theorem decode_wire_terminates msg off :
  is_bytes msg ->
  DecodeWire msg off = Err ErrInvalidName \/
  exists n next, DecodeWire msg off = Ok (n, next) /\ canonical n /\ 0 <= off < next.
Proof.
  intros Hb. destruct (DecodeWire msg off) as [[n next]|e] eqn:E.
  - right. exists n, next. split; [done|]. apply DecodeWire_spec in E as (ls & h & Hn & _ & Hl & ->); [|done].
    split; [|pose proof (name_at_off _ _ _ _ _ Hn); lia].
    apply encName_canonical; [|done]. by eapply name_at_labels.
  - left. destruct (DecodeWire_error msg off e Hb E) as [->| ->]; [done|].
    by apply DecodeWire_fuel in E.
Qed.

Example decode_wire_terminates_witness :
  is_bytes [192; 0] /\ (DecodeWire [192; 0] 0 = Err ErrInvalidName \/
  exists n next, DecodeWire [192; 0] 0 = Ok (n, next) /\ canonical n /\ 0 <= 0 < next).
Proof.
  assert (is_bytes [192; 0]) as Hb by decide_now.
  split; [exact Hb|exact (decode_wire_terminates _ 0 Hb)].
Defined.

(** Printing and parsing agree: for a well-formed name whose labels hold
    no NUL and no upper-case letter, [Parse] of [String] is the name itself,
    whatever other octets (dots, backslashes, non-ASCII) the labels hold. *)
Theorem parse_string_roundtrip n ls :
  wf_name n ls -> Forall printable ls -> Parse (String_ n) = Ok n.
Proof. exact (Parse_String n ls). Qed.

Example parse_string_roundtrip_witness :
  Parse (String_ (mkName [3; 46; 92; 200; 1; 97; 0])) = Ok (mkName [3; 46; 92; 200; 1; 97; 0]).
Proof.
  apply (parse_string_roundtrip _ [[46; 92; 200]; [97]]).
  - split; [reflexivity|]. split; [|unfold maxNameLen; vm_compute; discriminate].
    repeat constructor; try (unfold zlen; cbn; lia); unfold u8; lia.
  - repeat constructor; try (unfold u8; lia); discriminate.
Defined.

(** [Parse] only returns names that satisfy the RFC 1035 limits: labels
    of 1 to 63 octets without NUL, at most 255 octets in all; and the
    accessors agree with those labels. *)
Theorem parse_well_formed s n :
  is_bytes s -> Parse s = Ok n ->
  exists ls, wf_name n ls /\ Forall (fun l => ~ In 0 l) ls /\
    Labels n = ls /\ NumLabels n = zlen ls.
Proof.
  intros Hs H. destruct (Parse_wf s n Hs H) as (ls & Hw & Hz).
  exists ls. split; [done|]. split; [done|]. by split; [apply Labels_wf|apply NumLabels_wf].
Qed.

Example parse_well_formed_witness :
  exists ls, wf_name (mkName [1; 97; 0]) ls /\ Forall (fun l => ~ In 0 l) ls /\
    Labels (mkName [1; 97; 0]) = ls /\ NumLabels (mkName [1; 97; 0]) = zlen ls.
Proof. apply (parse_well_formed [65; 46] (mkName [1; 97; 0])); [decide_now|reflexivity]. Defined.

(** The type comment's claim that a [Name] is held in canonical lower
    case is not established by [Parse]: the decimal escape [\065] is stored
    unfolded, so two spellings of the same domain name compare unequal and the
    result is not canonical. *)
Theorem parse_decimal_escape_not_folded :
  exists n m, Parse [92; 48; 54; 53; 46] = Ok n /\ Parse [65; 46] = Ok m /\
    Equal n m = false /\ ~ canonical n /\ canonical m.
Proof.
  exists (mkName [1; 65; 0]), (mkName [1; 97; 0]). split; [done|]. split; [done|]. split; [done|].
  assert (forall c, u8 c -> wf_name (mkName [1; c; 0]) [[c]]) as Hw.
  { intros c Hc. split; [done|]. split; [|unfold maxNameLen; by vm_compute].
    constructor; [|done]. split; [done|by constructor]. }
  split.
  - intros (ls & Hn & Hf). rewrite (wf_name_inj _ _ _ Hn (Hw 65 ltac:(unfold u8; lia))) in Hf.
    inversion Hf as [|?? Hl _]; subst. discriminate Hl.
  - exists [[97]]. split; [apply Hw; unfold u8; lia|]. by constructor.
Qed.
