(* ===== verification/Wire.v ===== *)
(** * The packer and the unpacker: wire/wirebb/wire.go

    [Packer] appends to a growing buffer and remembers where each name suffix
    was first written; [Unpacker] reads a message at a moving offset.  The
    modules carry the source's method names.  [codec] is the interface between
    the two: an append operation and a read operation that undo each other in
    any context, which the rdata and message layers compose. *)

From S2P Require Import Prelude Name.

(** ** Packer *)
Module Packer.

Record t := mk { buf : bytes; comp : gmap bytes Z }.

Definition NewPacker (buf : bytes) : t := mk buf ∅.

(** [p.buf = append(p.buf, b...)] *)
Definition Raw (b : bytes) (p : t) : t := mk (buf p ++ b) (comp p).
Definition Len (p : t) : Z := zlen (buf p).
Definition Uint8 (v : Z) (p : t) : t := Raw [v] p.
Definition Uint16 (v : Z) (p : t) : t := Raw (be16 v) p.
Definition Uint32 (v : Z) (p : t) : t := Raw (be32 v) p.

Definition CharString (s : bytes) (p : t) : res unit * t :=
  if 255 <? zlen s then (Err ErrPlain, p)
  else (Ok tt, Raw (to_u8 (zlen s) :: s) p).

Definition nameWire (n : Name) : bytes :=
  if negb (IsValid n) then [0] else AppendWire n [].

(** The loop of [Packer.Name], on the suffix [wire[off:]]. *)
Fixpoint Name_loop (fuel : nat) (suffix : bytes) (p : t) : t :=
  match fuel, suffix with
  | S fuel, l :: rest =>
      if l =? 0 then Raw [0] p
      else
        let emit (p : t) :=
          let p := if Len p <? 16384 then mk (buf p) (<[suffix := Len p]> (comp p)) else p in
          let p := Raw [to_u8 l] p in
          let p := Raw (take (Z.to_nat l) rest) p in
          Name_loop fuel (drop (Z.to_nat l) rest) p in
        match comp p !! suffix with
        | Some ptr =>
            if (ptr <? 16384) && (Len p <? 16384)
            then Raw [Z.lor 0xc0 (to_u8 (Z.shiftr ptr 8)); to_u8 ptr] p
            else emit p
        | None => emit p
        end
  | _, _ => p
  end.

Definition Name (n : Name.Name) (p : t) : t :=
  let w := nameWire n in Name_loop (length w) w p.

Definition NameUncompressed (n : Name.Name) (p : t) : t := mk (AppendWire n (buf p)) (comp p).

End Packer.

(** ** Unpacker

    A state and error monad: a failed read leaves the offset where the last
    successful one put it, which is what [MessageParseError] reports. *)
Module Unpacker.

Record t := mk { msg : bytes; off : Z }.

Definition M (A : Type) : Type := t -> res A * t.

Definition ret {A} (a : A) : M A := fun u => (Ok a, u).
Definition fail {A} (e : error) : M A := fun u => (Err e, u).
Definition bind {A B} (m : M A) (k : A -> M B) : M B := fun u =>
  match m u with
  | (Ok a, u') => k a u'
  | (Err e, u') => (Err e, u')
  end.

Definition Off : M Z := fun u => (Ok (off u), u).
Definition Remaining : M Z := fun u => (Ok (zlen (msg u) - off u), u).
Definition SetOff (o : Z) : M unit := fun u => (Ok tt, mk (msg u) o).
Definition Msg : M bytes := fun u => (Ok (msg u), u).

Definition Uint8 : M Z := fun u =>
  if zlen (msg u) <? off u + 1 then (Err ErrTruncated, u)
  else (Ok (zget (msg u) (off u)), mk (msg u) (off u + 1)).

Definition Uint16 : M Z := fun u =>
  if zlen (msg u) <? off u + 2 then (Err ErrTruncated, u)
  else (Ok (get16 (zget (msg u) (off u)) (zget (msg u) (off u + 1))), mk (msg u) (off u + 2)).

Definition Uint32 : M Z := fun u =>
  if zlen (msg u) <? off u + 4 then (Err ErrTruncated, u)
  else (Ok (get32 (zget (msg u) (off u)) (zget (msg u) (off u + 1))
              (zget (msg u) (off u + 2)) (zget (msg u) (off u + 3))), mk (msg u) (off u + 4)).

Definition Bytes (n : Z) : M bytes := fun u =>
  if (n <? 0) || (zlen (msg u) <? off u + n) then (Err ErrTruncated, u)
  else (Ok (zslice (msg u) (off u) (off u + n)), mk (msg u) (off u + n)).

Definition CharString : M bytes := bind Uint8 Bytes.

Definition CharStringInRange (end_ : Z) : M bytes := fun u =>
  let end_ := if (end_ <? 0) || (zlen (msg u) <? end_) then zlen (msg u) else end_ in
  if end_ <=? off u then (Err ErrTruncated, u)
  else
    match Uint8 u with
    | (Err e, u) => (Err e, u)
    | (Ok l, u) => if end_ <? off u + l then (Err ErrTruncated, u) else Bytes l u
    end.

Definition Name : M Name.Name := fun u =>
  match DecodeWire (msg u) (off u) with
  | Err e => (Err e, u)
  | Ok (n, next) => (Ok n, mk (msg u) next)
  end.

Definition NameInRange (end_ : Z) : M Name.Name := fun u =>
  let end_ := if (end_ <? 0) || (zlen (msg u) <? end_) then zlen (msg u) else end_ in
  if end_ <? off u then (Err ErrTruncated, u)
  else
    match DecodeWire (msg u) (off u) with
    | Err e => (Err e, u)
    | Ok (n, next) => if end_ <? next then (Err ErrTruncated, u) else (Ok n, mk (msg u) next)
    end.

Definition UncompressedName (rdlength : Z) : M Name.Name := fun u =>
  let end_ := off u + rdlength in
  let end_ := if (rdlength <? 0) || (zlen (msg u) <? end_) || (end_ <? off u)
              then zlen (msg u) else end_ in
  if end_ <? off u then (Err ErrTruncated, u)
  else
    match DecodeWireUncompressed (zslice (msg u) 0 end_) (off u) with
    | Err e => (Err e, u)
    | Ok (n, next) => (Ok n, mk (msg u) next)
    end.

End Unpacker.

Abbreviation U := Unpacker.M.

Notation "'do' x <- m ; k" := (Unpacker.bind m (fun x => k))
  (at level 10, x pattern, m at level 100, k at level 200,
   format "'[v' 'do'  x  <-  m ; '/' k ']'") : wire_scope.
Notation "p |> f" := (f p) (at level 69, left associativity, only parsing) : wire_scope.

(** ** Idioms of the callers *)

(** [u.Bytes(end - u.Off())]: the rest of the window. *)
Definition bytesTo (end_ : Z) : U bytes :=
  do off <- Unpacker.Off; Unpacker.Bytes (end_ - off).

(** [if u.Off()+n > end { return ..., ErrInvalidRData }] *)
Definition checkWindow (end_ n : Z) : U unit :=
  do off <- Unpacker.Off;
  if end_ <? off + n then Unpacker.fail ErrInvalidRData else Unpacker.ret tt.

(** [u.UncompressedName(end - u.Off())]: every caller passes the rest of its
    window. *)
Definition uncompressedNameTo (end_ : Z) : U Name :=
  do off <- Unpacker.Off; Unpacker.UncompressedName (end_ - off).

(** *** Loops [for u.Off() < end { ... }]

    The bound is the number of bytes left in the window plus one: every
    iteration that succeeds consumes at least one byte. *)

Fixpoint untilEnd {A} (fuel : nat) (end_ : Z) (body : A -> U A) (acc : A) : U A :=
  match fuel with
  | O => Unpacker.fail ErrFuel
  | S fuel =>
      do off <- Unpacker.Off;
      if off <? end_ then do acc <- body acc; untilEnd fuel end_ body acc
      else Unpacker.ret acc
  end.

Definition loopUntil {A} (end_ : Z) (body : A -> U A) (acc : A) : U A :=
  do off <- Unpacker.Off; untilEnd (S (Z.to_nat (end_ - off))) end_ body acc.

(** ** What the compression table promises *)

(** A table entry: the suffix is a well-formed name, it can be decoded at the
    recorded offset, and doing so follows fewer pointers than it has labels. *)
Definition entry_ok (b : bytes) (s : bytes) (ptr : Z) : Prop :=
  0 <= ptr < 16384 /\ exists ls h nx,
    s = encName ls /\ Forall label_ok ls /\ name_at b ptr ls h nx /\ h < zlen ls.

Definition comp_ok (p : Packer.t) : Prop :=
  forall s ptr, Packer.comp p !! s = Some ptr -> entry_ok (Packer.buf p) s ptr.

Definition packer_ok (p : Packer.t) : Prop := comp_ok p /\ is_bytes (Packer.buf p).

Lemma entry_ok_ext b r s ptr : entry_ok b s ptr -> entry_ok (b ++ r) s ptr.
Proof.
  intros (H & ls & h & nx & -> & Hok & Hn & Hh). split; [done|].
  exists ls, h, nx. split_and!; try done. by apply name_at_ext.
Qed.

Lemma packer_ok_raw b p : is_bytes b -> packer_ok p -> packer_ok (Packer.Raw b p).
Proof.
  intros Hb [Hc Hp]. split; [|by apply Forall_app_2].
  intros s ptr E. by apply entry_ok_ext, Hc.
Qed.

Lemma packer_ok_new : packer_ok (Packer.NewPacker []).
Proof. split; [|constructor]. intros s ptr E. cbn [Packer.NewPacker Packer.comp] in E. by rewrite lookup_empty in E. Qed.

(** ** Packing a name *)

Lemma lor_c0 hi : 0 <= hi < 64 -> Z.lor 0xc0 hi = 192 + hi.
Proof.
  intros H. replace (Z.lor 0xc0 hi) with (Z.lor (Z.shiftl 3 6) hi) by done.
  rewrite lor_shiftl_add; lia.
Qed.

Lemma encName_inj ls ks :
  Forall label_ok ls -> Forall label_ok ks -> encName ls = encName ks -> ls = ks.
Proof.
  intros H1 H2 E. rewrite <- (labels_loop_enc (length (encName ls)) ls H1) by done.
  rewrite E. by apply labels_loop_enc.
Qed.

Lemma is_bytes_encLabel l : label_ok l -> is_bytes (encLabel l).
Proof. intros [H ?]. constructor; [unfold u8; lia|done]. Qed.

Lemma is_bytes_encName ls : Forall label_ok ls -> is_bytes (encName ls).
Proof.
  induction 1; [by repeat constructor|]. rewrite encName_cons.
  apply Forall_app_2; [by apply is_bytes_encLabel|done].
Qed.

(** What one run of the packing loop establishes. *)
Definition name_packed (ls : list bytes) (p p' : Packer.t) : Prop :=
  exists bs h, Packer.buf p' = Packer.buf p ++ bs /\ is_bytes bs /\
    name_at (Packer.buf p') (zlen (Packer.buf p)) ls h (zlen (Packer.buf p')) /\
    h <= zlen ls.

(** The table after a run: old entries, or entries that hold in the new
    buffer. *)
Definition comp_grows (p p' : Packer.t) : Prop :=
  forall s ptr, Packer.comp p' !! s = Some ptr ->
    Packer.comp p !! s = Some ptr \/ entry_ok (Packer.buf p') s ptr.

(** A pointer to a valid entry encodes the entry's labels. *)
Lemma pointer_packed p ls ptr :
  Forall label_ok ls -> entry_ok (Packer.buf p) (encName ls) ptr ->
  name_packed ls p (Packer.Raw [Z.lor 0xc0 (to_u8 (Z.shiftr ptr 8)); to_u8 ptr] p).
Proof.
  intros Hls (Hp & ks & h & nx & Ek & Hks & Hn & Hh).
  apply encName_inj in Ek; [|done..]. subst ks.
  assert (Z.lor 192 (to_u8 (Z.shiftr ptr 8)) = 192 + ptr / 256) as ->.
  { unfold to_u8. rewrite Z.shiftr_div_pow2 by lia. change (2 ^ 8) with 256.
    rewrite Z.mod_small by elia. apply lor_c0. elia. }
  pose proof (name_at_off _ _ _ _ _ Hn) as Hoff.
  exists [192 + ptr / 256; to_u8 ptr], (h + 1). cbn [Packer.Raw Packer.buf]. split_and!.
  - done.
  - constructor; [unfold u8; elia|]. constructor; auto with wire.
  - rewrite zlen_app. apply (na_ptr _ _ (ptr / 256) (to_u8 ptr) _ _ nx).
    + apply (at_bytes_mid _ [192 + ptr / 256; to_u8 ptr] []).
    + elia.
    + auto with wire.
    + unfold to_u8. elia.
    + replace (ptr / 256 * 256 + to_u8 ptr) with ptr by (unfold to_u8; elia).
      by apply name_at_ext.
  - llia.
Qed.

(** The state in which the loop continues after writing a label in line. *)
Definition after_label (sfx l : bytes) (p : Packer.t) : Packer.t :=
  Packer.Raw l (Packer.Raw [to_u8 (zlen l)]
    (if Packer.Len p <? 16384
     then Packer.mk (Packer.buf p) (<[sfx := Packer.Len p]> (Packer.comp p)) else p)).

Lemma after_label_buf sfx l p :
  label_ok l -> Packer.buf (after_label sfx l p) = Packer.buf p ++ encLabel l.
Proof.
  intros [Hl _]. unfold after_label. cbn. rewrite to_u8_id by (unfold u8; lia).
  rewrite <- app_assoc. by split_if.
Qed.

Lemma after_label_comp sfx l p s ptr :
  Packer.comp (after_label sfx l p) !! s = Some ptr ->
  Packer.comp p !! s = Some ptr \/ (s = sfx /\ ptr = zlen (Packer.buf p) /\ ptr < 16384).
Proof.
  unfold after_label. cbn. destruct (_ <? _) eqn:E; cbn; [|by left]. bool_facts.
  rewrite lookup_insert. case_decide; [|by left]. intros [= <-]. right. by subst.
Qed.

(** Writing [l] in line and then a packing of [ls] packs [l :: ls], and the
    entry recorded for it is valid. *)
Lemma label_packed l ls p p' :
  Forall label_ok (l :: ls) ->
  let p1 := after_label (encName (l :: ls)) l p in
  name_packed ls p1 p' -> comp_grows p1 p' ->
  name_packed (l :: ls) p p' /\ comp_grows p p'.
Proof.
  intros Hlls p1 (bs & h & Eb & Hbs & Hn & Hh) Hgrow.
  assert (label_ok l) as Hl by (by inversion Hlls).
  subst p1. rewrite (after_label_buf _ _ _ Hl) in Eb, Hn. rewrite <- app_assoc in Eb.
  assert (name_at (Packer.buf p') (zlen (Packer.buf p)) (l :: ls) h (zlen (Packer.buf p'))) as Hn'.
  { apply na_label; [|by destruct Hl|by rewrite zlen_app, zlen_encLabel, Z.add_assoc in Hn].
    rewrite Eb. apply at_bytes_mid. }
  split.
  - exists (encLabel l ++ bs), h. split_and!; [done| |done|llia].
    apply Forall_app_2; [by apply is_bytes_encLabel|done].
  - intros s ptr E. destruct (Hgrow _ _ E) as [E'|?]; [|by right].
    apply after_label_comp in E' as [?|(-> & -> & ?)]; [by left|right].
    split; [pose proof (zlen_nonneg (Packer.buf p)); lia|].
    exists (l :: ls), h, (zlen (Packer.buf p')). split_and!; try done. llia.
Qed.

Lemma Name_loop_spec fuel ls p :
  Forall label_ok ls -> (length (encName ls) <= fuel)%nat ->
  (forall s ptr, Packer.comp p !! s = Some ptr -> zlen s <= zlen (encName ls) ->
     entry_ok (Packer.buf p) s ptr) ->
  let p' := Packer.Name_loop fuel (encName ls) p in
  name_packed ls p p' /\ comp_grows p p'.
Proof.
  intros Hok. revert fuel p. induction Hok as [|l ls Hl Hls IH]; intros fuel p Hf Hc;
    (destruct fuel as [|fuel]; [cbn in Hf; lia|]).
  { cbn. split; [|by left]. exists [0], 0. cbn. split_and!; [done|by repeat constructor| |llia].
    rewrite zlen_app. apply na_root. apply (at_bytes_mid _ [0] []). }
  pose proof (Forall_cons_2 _ _ _ Hl Hls) as Hlls. apply length_encName_cons in Hf.
  destruct (encName_pos l ls Hl) as [Ee Hz]. set (sfx := encName (l :: ls)) in *.
  assert (let p' := Packer.Name_loop fuel (encName ls) (after_label sfx l p) in
          name_packed (l :: ls) p p' /\ comp_grows p p') as Hemit.
  { intros p'. edestruct (IH fuel (after_label sfx l p) Hf) as [? ?]; [|by apply label_packed].
    intros s ptr E Hs. rewrite after_label_buf by done. apply entry_ok_ext.
    assert (zlen sfx = 1 + zlen l + zlen (encName ls)) by (rewrite Ee, zlen_cons, zlen_app; lia).
    apply after_label_comp in E as [E'|(-> & _)]; [apply Hc; [done|]|exfalso]; destruct Hl; llia. }
  intros p'. subst p'. rewrite Ee. cbn [Packer.Name_loop]. rewrite Hz. cbv zeta.
  rewrite take_label, drop_label, <- Ee.
  destruct (Packer.comp p !! sfx) as [ptr|] eqn:E; [|by apply Hemit].
  destruct (_ && _) eqn:E2; [|by apply Hemit].
  split; [|by left]. apply pointer_packed; [done|]. apply Hc; [done|]. apply Z.le_refl.
Qed.

Lemma nameWire_wf n ls : wf_name n ls -> Packer.nameWire n = encName ls.
Proof.
  intros Hw. unfold Packer.nameWire, AppendWire. rewrite (wf_valid _ _ Hw). by destruct Hw as (-> & _).
Qed.

Lemma pack_name n ls p :
  wf_name n ls -> packer_ok p -> packer_ok (Packer.Name n p) /\ name_packed ls p (Packer.Name n p).
Proof.
  intros Hw [Hc Hb]. unfold Packer.Name. rewrite (nameWire_wf _ _ Hw).
  destruct Hw as (Ew & Hok & Hlen).
  destruct (Name_loop_spec (length (encName ls)) ls p Hok ltac:(lia)) as [Hp Hg].
  { intros s ptr E _. by apply Hc. }
  split; [|done]. destruct Hp as (bs & h & Eb & Hbs & _). split.
  - intros s ptr E. destruct (Hg _ _ E) as [E'|?]; [|done]. rewrite Eb. by apply entry_ok_ext, Hc.
  - rewrite Eb. by apply Forall_app_2.
Qed.

(** ** Locality

    What an append operation writes depends only on the current length and
    the table, never on the bytes already written; so patching earlier bytes
    afterwards (the RDLENGTH back-fill) is the same as having written the
    patched bytes first. *)
Definition frame (op : Packer.t -> Packer.t) : Prop :=
  forall b1 b2 c, zlen b1 = zlen b2 -> exists bs c',
    op (Packer.mk b1 c) = Packer.mk (b1 ++ bs) c' /\
    op (Packer.mk b2 c) = Packer.mk (b2 ++ bs) c'.

Lemma frame_id : frame (fun p => p).
Proof. intros b1 b2 c _. exists [], c. by rewrite !app_nil_r. Qed.

Lemma frame_raw b : frame (Packer.Raw b).
Proof. intros b1 b2 c _. by exists b, c. Qed.

Lemma frame_comp f g : frame f -> frame g -> frame (fun p => g (f p)).
Proof.
  intros Hf Hg b1 b2 c E. destruct (Hf b1 b2 c E) as (bs & c1 & -> & ->).
  destruct (Hg (b1 ++ bs) (b2 ++ bs) c1 ltac:(llia)) as (bs' & c2 & -> & ->).
  exists (bs ++ bs'), c2. by rewrite !app_assoc.
Qed.

Lemma frame_Name_loop fuel sfx : frame (Packer.Name_loop fuel sfx).
Proof.
  revert sfx. induction fuel as [|fuel IH]; intros sfx; [apply frame_id|].
  destruct sfx as [|l rest]; [apply frame_id|]. intros b1 b2 c E. cbn [Packer.Name_loop].
  destruct (l =? 0); [by apply frame_raw|]. cbv zeta. unfold Packer.Len. cbn [Packer.comp Packer.buf].
  rewrite <- E. destruct (c !! (l :: rest)) as [ptr|]; [destruct (_ && _); [by apply frame_raw|]|];
    (destruct (zlen b1 <? 16384);
     apply (frame_comp _ _ (frame_comp _ _ (frame_raw [to_u8 l]) (frame_raw _)) (IH _)); done).
Qed.

Lemma frame_Name n : frame (Packer.Name n).
Proof. apply frame_Name_loop. Qed.

Lemma NameUncompressed_raw n : Packer.NameUncompressed n = Packer.Raw (AppendWire n []).
Proof. unfold Packer.NameUncompressed, Packer.Raw, AppendWire. by destruct (negb (IsValid n)). Qed.

(** ** The interface between packing and unpacking

    [codec t op r a]: from any valid packer, [op] appends an encoding that the
    reader [r], given the end of its window, reads back as [a], stopping
    exactly after it, whatever follows in the message.  With [t = true] the
    window ends exactly there (the last field of an rdata); with [t = false]
    it may extend further. *)
Definition codec {A} (t : bool) (op : Packer.t -> Packer.t) (r : Z -> U A) (a : A) : Prop :=
  frame op /\ forall p, packer_ok p -> packer_ok (op p) /\
    forall post e, is_bytes post ->
      zlen (Packer.buf (op p)) <= e <= zlen (Packer.buf (op p) ++ post) ->
      (t = true -> e = zlen (Packer.buf (op p))) ->
      r e (Unpacker.mk (Packer.buf (op p) ++ post) (zlen (Packer.buf p)))
        = (Ok a, Unpacker.mk (Packer.buf (op p) ++ post) (zlen (Packer.buf (op p)))).

Lemma codec_weaken {A} op (r : Z -> U A) a t : codec false op r a -> codec t op r a.
Proof.
  intros [Hf H]. split; [done|]. intros p Hp. destruct (H p Hp) as [? Hr]. split; [done|].
  intros post e ? ? _. by apply Hr.
Qed.

Lemma codec_op_ext {A} t op op' (r : Z -> U A) a :
  (forall p, op p = op' p) -> codec t op r a -> codec t op' r a.
Proof.
  intros E [Hf Hc]. split; [intros b1 b2 c Hl; rewrite <- !E; by apply Hf|].
  intros p Hp. rewrite <- E. by apply Hc.
Qed.

Lemma codec_ret {A} (a : A) t : codec t (fun p => p) (fun _ => Unpacker.ret a) a.
Proof. split; [apply frame_id|]. intros p Hp. by split. Qed.

Lemma frame_app op p : frame op -> exists bs, Packer.buf (op p) = Packer.buf p ++ bs.
Proof.
  intros Hf. destruct p as [b c]. destruct (Hf b b c eq_refl) as (bs & c' & -> & _). by exists bs.
Qed.

Lemma codec_bind {A B} t op1 op2 (r : Z -> U A) (k : Z -> A -> U B) a b :
  codec false op1 r a -> codec t op2 (fun e => k e a) b ->
  codec t (fun p => op2 (op1 p)) (fun e => Unpacker.bind (r e) (k e)) b.
Proof.
  intros [Hf1 H1] [Hf2 H2]. split; [by apply frame_comp|]. intros p Hp.
  destruct (H1 p Hp) as [Hp1 Hr1]. destruct (H2 _ Hp1) as [Hp2 Hr2].
  split; [done|]. intros post e Hpost He Ht.
  destruct (frame_app op2 (op1 p) Hf2) as [bs Eb]. specialize (Hr2 post e Hpost He Ht).
  assert (is_bytes bs) as Hbs by (destruct Hp2 as [_ Hb]; rewrite Eb in Hb; by apply Forall_app in Hb as [_ ?]).
  unfold Unpacker.bind. rewrite Eb, <- app_assoc in *.
  rewrite Hr1; [done|by apply Forall_app_2|llia|done].
Qed.

(** A reader that ends by computing on what it read. *)
Lemma codec_map {A B} t op (r : Z -> U A) (f : A -> B) a :
  codec t op r a -> codec t op (fun e => do x <- r e; Unpacker.ret (f x)) (f a).
Proof.
  intros [Hf H]. split; [done|]. intros p Hp. destruct (H p Hp) as [? Hr]. split; [done|].
  intros. unfold Unpacker.bind. by rewrite Hr.
Qed.

(** Appending fixed bytes, described by what a reader does on them. *)
Lemma codec_raw {A} t b (r : Z -> U A) a :
  is_bytes b ->
  (forall msg off e, is_bytes msg -> at_bytes msg off b -> 0 <= off -> off + zlen b <= e <= zlen msg ->
     (t = true -> e = off + zlen b) ->
     r e (Unpacker.mk msg off) = (Ok a, Unpacker.mk msg (off + zlen b))) ->
  codec t (Packer.Raw b) r a.
Proof.
  intros Hb Hr. split; [apply frame_raw|]. intros p Hp.
  split; [by apply packer_ok_raw|]. intros post e Hpost He Ht. cbn [Packer.Raw Packer.buf] in *.
  rewrite <- app_assoc in *. rewrite zlen_app. apply Hr.
  - destruct Hp as [_ Hp]. by apply Forall_app_2, Forall_app_2.
  - apply at_bytes_mid.
  - auto with wire.
  - llia.
  - intros E. rewrite (Ht E). llia.
Qed.

(** *** Integers and byte strings *)

Lemma at_bytes_end msg off b e : at_bytes msg off b -> off + zlen b <= e <= zlen msg -> off + zlen b <= zlen msg.
Proof. lia. Qed.

Lemma codec_u8 t v : u8 v -> codec t (Packer.Uint8 v) (fun _ => Unpacker.Uint8) v.
Proof.
  intros Hv. apply codec_raw; [by constructor|]. intros msg off e _ Ha Ho He _.
  unfold Unpacker.Uint8. cbn [Unpacker.msg Unpacker.off]. if_false.
  by rewrite (at_bytes_get _ _ _ _ Ha).
Qed.

Lemma Uint16_at msg off v :
  u16 v -> at_bytes msg off (be16 v) -> Unpacker.Uint16 (Unpacker.mk msg off) = (Ok v, Unpacker.mk msg (off + 2)).
Proof.
  intros Hv Ha. unfold Unpacker.Uint16. cbn [Unpacker.msg Unpacker.off].
  pose proof (at_bytes_len _ _ _ _ Ha). if_false. apply at_bytes_cons in Ha as [Ha Hb].
  rewrite (at_bytes_get _ _ _ _ Ha), (at_bytes_get _ _ _ _ Hb). by rewrite get16_be16.
Qed.

Lemma codec_u16 t v : u16 v -> codec t (Packer.Uint16 v) (fun _ => Unpacker.Uint16) v.
Proof.
  intros Hv. apply codec_raw; [auto with wire|]. intros msg off e _ Ha Ho He _. by apply Uint16_at.
Qed.

Lemma codec_u32 t v : u32 v -> codec t (Packer.Uint32 v) (fun _ => Unpacker.Uint32) v.
Proof.
  intros Hv. apply codec_raw; [auto with wire|]. intros msg off e _ Ha Ho He _.
  unfold Unpacker.Uint32. cbn [Unpacker.msg Unpacker.off]. if_false.
  apply at_bytes_cons in Ha as [Ha Hb]. apply at_bytes_cons in Hb as [Hb Hc].
  apply at_bytes_cons in Hc as [Hc Hd].
  replace (off + 1 + 1) with (off + 2) in * by lia. replace (off + 2 + 1) with (off + 3) in * by lia.
  rewrite (at_bytes_get _ _ _ _ Ha), (at_bytes_get _ _ _ _ Hb), (at_bytes_get _ _ _ _ Hc),
    (at_bytes_get _ _ _ _ Hd). by rewrite get32_be32.
Qed.

Lemma Bytes_at msg off b :
  at_bytes msg off b -> off + zlen b <= zlen msg ->
  Unpacker.Bytes (zlen b) (Unpacker.mk msg off) = (Ok b, Unpacker.mk msg (off + zlen b)).
Proof.
  intros Ha He. unfold Unpacker.Bytes. cbn [Unpacker.msg Unpacker.off]. if_false.
  by rewrite at_bytes_slice.
Qed.

Lemma codec_bytes t b n :
  is_bytes b -> n = zlen b -> codec t (Packer.Raw b) (fun _ => Unpacker.Bytes n) b.
Proof.
  intros Hb ->. apply codec_raw; [done|]. intros msg off e _ Ha Ho He _. apply Bytes_at; [done|lia].
Qed.

Lemma codec_bytesTo b : is_bytes b -> codec true (Packer.Raw b) bytesTo b.
Proof.
  intros Hb. apply codec_raw; [done|]. intros msg off e _ Ha Ho He Ht.
  unfold bytesTo, Unpacker.bind, Unpacker.Off. cbn [Unpacker.off].
  rewrite (Ht eq_refl). replace (off + zlen b - off) with (zlen b) by lia. apply Bytes_at; [done|lia].
Qed.

Lemma codec_checked_bytes t b :
  is_bytes b ->
  codec t (Packer.Raw b) (fun e => do _ <- checkWindow e (zlen b); Unpacker.Bytes (zlen b)) b.
Proof.
  intros Hb. apply codec_raw; [done|]. intros msg off e _ Ha Ho He _.
  unfold checkWindow, Unpacker.bind, Unpacker.Off, Unpacker.ret. cbn [Unpacker.off].
  if_false. apply Bytes_at; [done|lia].
Qed.

Lemma codec_charstring t s :
  is_bytes s -> zlen s <= 255 ->
  codec t (fun p => snd (Packer.CharString s p)) Unpacker.CharStringInRange s.
Proof.
  intros Hs Hl.
  assert (codec t (Packer.Raw (to_u8 (zlen s) :: s)) Unpacker.CharStringInRange s) as [Hf Hc].
  { apply codec_raw; [by constructor; [apply to_u8_range|]|]. intros msg off e _ Ha Ho He _.
    apply at_bytes_cons in Ha as [Ha Hb].
    unfold Unpacker.CharStringInRange, Unpacker.Uint8. cbn [Unpacker.msg Unpacker.off].
    replace ((e <? 0) || (zlen msg <? e)) with false by (symmetry; apply orb_false_iff; llia).
    do 2 if_false. rewrite (at_bytes_get _ _ _ _ Ha), to_u8_id by llia. cbn [Unpacker.off].
    if_false. rewrite Bytes_at by (done || llia). do 2 f_equal. llia. }
  assert (forall p, snd (Packer.CharString s p) = Packer.Raw (to_u8 (zlen s) :: s) p) as E.
  { intros p. unfold Packer.CharString. by if_false. }
  split; [intros b1 b2 c ?; rewrite !E; by apply Hf|]. intros p Hp. rewrite E. by apply Hc.
Qed.

(** *** Names *)

(** What a name must satisfy to survive a compressed round trip: canonical,
    and short enough for the decoder's pointer limit. *)
Definition name_ok (n : Name) : Prop :=
  exists ls, wf_name n ls /\ Forall folded ls /\ zlen ls <= maxPtrHops.

Lemma name_ok_canonical n : name_ok n -> canonical n.
Proof. intros (ls & ? & ? & _). by exists ls. Qed.

Lemma canonical_wire n ls : wf_name n ls -> Forall folded ls -> n = mkName (encName (foldLabels ls)).
Proof. intros (E & _) Hf. rewrite (foldLabels_folded _ Hf), <- E. by destruct n. Qed.

(** Any packed name with a bounded pointer chain decodes to itself. *)
Lemma name_packed_decodes n ls p p' post :
  wf_name n ls -> Forall folded ls -> zlen ls <= maxPtrHops ->
  packer_ok p' -> is_bytes post -> name_packed ls p p' ->
  DecodeWire (Packer.buf p' ++ post) (zlen (Packer.buf p)) = Ok (n, zlen (Packer.buf p')).
Proof.
  intros Hw Hf Hl [_ Hb] Hpost (bs & h & Eb & Hbs & Hn & Hh).
  apply DecodeWire_spec; [by apply Forall_app_2|]. exists ls, h. split_and!.
  - by apply name_at_ext.
  - lia.
  - destruct Hw as (E & _ & Hlen). by rewrite <- E.
  - by apply canonical_wire.
Qed.

Lemma codec_Name t n : name_ok n -> codec t (Packer.Name n) (fun _ => Unpacker.Name) n.
Proof.
  intros (ls & Hw & Hf & Hl). split; [apply frame_Name|]. intros p Hp.
  destruct (pack_name n ls p Hw Hp) as [Hp' Hn]. split; [done|]. intros post e Hpost He _.
  unfold Unpacker.Name. cbn [Unpacker.msg Unpacker.off].
  by rewrite (name_packed_decodes n ls).
Qed.

Lemma codec_NameInRange t n : name_ok n -> codec t (Packer.Name n) Unpacker.NameInRange n.
Proof.
  intros (ls & Hw & Hf & Hl). split; [apply frame_Name|]. intros p Hp.
  destruct (pack_name n ls p Hw Hp) as [Hp' Hn]. split; [done|]. intros post e Hpost He _.
  unfold Unpacker.NameInRange. cbn [Unpacker.msg Unpacker.off].
  replace ((e <? 0) || (_ <? e)) with false by (symmetry; apply orb_false_iff; llia).
  destruct (frame_app _ p (frame_Name n)) as [bs Eb].
  assert (zlen (Packer.buf (Packer.Name n p)) = zlen (Packer.buf p) + zlen bs) as Ez by (rewrite Eb; llia).
  if_false. rewrite (name_packed_decodes n ls) by done. by if_false.
Qed.

Lemma AppendWire_wf n ls : wf_name n ls -> AppendWire n [] = encName ls.
Proof. intros Hw. unfold AppendWire. rewrite (wf_valid _ _ Hw). by destruct Hw as (-> & _). Qed.

Lemma at_bytes_take msg off b e :
  at_bytes msg off b -> off + zlen b <= e -> at_bytes (zslice msg 0 e) off b.
Proof.
  intros (Ho & r & E) He. split; [done|]. unfold zslice, zlen in *.
  rewrite Z.sub_0_r. change (Z.to_nat 0) with 0%nat. rewrite drop_0.
  rewrite skipn_firstn_comm, E. exists (take (Z.to_nat e - Z.to_nat off - length b) r).
  rewrite take_app, (take_ge b) by lia. done.
Qed.

Lemma codec_uncompressedName t n :
  canonical n -> codec t (Packer.NameUncompressed n) uncompressedNameTo n.
Proof.
  intros (ls & Hw & Hf). rewrite NameUncompressed_raw, (AppendWire_wf _ _ Hw).
  pose proof Hw as (E & Hok & Hlen). rewrite E in Hlen.
  apply codec_raw; [by apply is_bytes_encName|]. intros msg off e Hb Ha Ho He _.
  unfold uncompressedNameTo, Unpacker.UncompressedName, Unpacker.bind, Unpacker.Off.
  cbn [Unpacker.msg Unpacker.off]. cbv zeta.
  replace (off + (e - off)) with e by lia.
  replace ((e - off <? 0) || _ || _) with false
    by (symmetry; rewrite !orb_false_iff; pose proof (zlen_nonneg (encName ls)); lia).
  if_false.
  assert (is_bytes (zslice msg 0 e)) as Hbs.
  { unfold zslice. by apply Forall_take, Forall_drop. }
  rewrite (proj2 (DecodeWireUncompressed_spec (zslice msg 0 e) off n (off + zlen (encName ls)) Hbs)); [done|].
  exists ls. split_and!; try done; [|by apply canonical_wire].
  apply at_bytes_take; [done|lia].
Qed.

(** *** Loops *)

(** An operation that writes at least one byte. *)
Definition progress (op : Packer.t -> Packer.t) : Prop :=
  forall p, zlen (Packer.buf p) < zlen (Packer.buf (op p)).

Fixpoint loop_ok {S X} (opx : X -> Packer.t -> Packer.t) (body : Z -> S -> U S)
    (step : S -> X -> S) (s : S) (items : list X) : Prop :=
  match items with
  | [] => True
  | x :: items =>
      codec false (opx x) (fun e => body e s) (step s x) /\ progress (opx x) /\
      loop_ok opx body step (step s x) items
  end.

Lemma codec_untilEnd {S X} (opx : X -> Packer.t -> Packer.t) (body : Z -> S -> U S) step items s :
  loop_ok opx body step s items ->
  frame (fun p => fold_left (fun p x => opx x p) items p) /\
  forall p, packer_ok p ->
    let p' := fold_left (fun p x => opx x p) items p in
    packer_ok p' /\ zlen (Packer.buf p) <= zlen (Packer.buf p') /\
    forall post fuel e, is_bytes post -> e = zlen (Packer.buf p') ->
      e - zlen (Packer.buf p) < Z.of_nat fuel ->
      untilEnd fuel e (body e) s (Unpacker.mk (Packer.buf p' ++ post) (zlen (Packer.buf p)))
        = (Ok (fold_left step items s), Unpacker.mk (Packer.buf p' ++ post) (zlen (Packer.buf p'))).
Proof.
  revert s. induction items as [|x items IH]; intros s; cbn [loop_ok fold_left].
  { intros _. split; [apply frame_id|]. intros p Hp. split_and!; [done|lia|].
    intros post fuel e _ -> Hf. destruct fuel as [|fuel]; [lia|]. cbn [untilEnd].
    unfold Unpacker.bind, Unpacker.Off. cbn [Unpacker.off]. by if_false. }
  intros ([Hf Hc] & Hpr & Hrest). destruct (IH _ Hrest) as [Hfr Hrun].
  split; [by apply frame_comp|]. intros p Hp.
  destruct (Hc p Hp) as [Hp1 Hr1]. destruct (Hrun _ Hp1) as (Hp' & Hle & Hr).
  pose proof (Hpr p) as Hlt. split_and!; [done|lia|].
  intros post fuel e Hpost -> Hfu. destruct fuel as [|fuel]; [lia|]. cbn [untilEnd].
  unfold Unpacker.bind at 1, Unpacker.Off. cbn [Unpacker.off]. if_true.
  destruct (frame_app _ (opx x p) Hfr) as [bs Eb]. cbn beta in Eb.
  set (p' := fold_left _ items (opx x p)) in *.
  assert (is_bytes bs) as Hbs.
  { destruct Hp' as [_ Hb]. rewrite Eb in Hb. by apply Forall_app in Hb as [_ ?]. }
  specialize (Hr post fuel (zlen (Packer.buf p')) Hpost eq_refl ltac:(lia)).
  unfold Unpacker.bind. rewrite Eb, <- app_assoc in *.
  rewrite Hr1; [done|by apply Forall_app_2|llia|done].
Qed.

Lemma codec_loop {S X} (opx : X -> Packer.t -> Packer.t) (body : Z -> S -> U S) step items s :
  loop_ok opx body step s items ->
  codec true (fun p => fold_left (fun p x => opx x p) items p)
    (fun e => loopUntil e (body e) s) (fold_left step items s).
Proof.
  intros H. destruct (codec_untilEnd _ _ _ _ _ H) as [Hf Hr]. split; [done|]. intros p Hp.
  destruct (Hr p Hp) as (Hp' & Hle & Hrun). split; [done|]. intros post e Hpost He Ht.
  specialize (Ht eq_refl). unfold loopUntil. unfold Unpacker.bind at 1, Unpacker.Off.
  cbn [Unpacker.off]. apply Hrun; [done|done|lia].
Qed.

Lemma progress_raw b : b <> [] -> progress (Packer.Raw b).
Proof. intros Hb p. cbn. destruct b; [done|]. llia. Qed.

(** ** Compression is transparent *)

(** A message under construction: names mixed with other bytes. *)
Inductive item :=
  | INamed (n : Name)
  | IRaw (b : bytes).

(** Pack the items and record where each name was written. *)
Fixpoint packItems (items : list item) (p : Packer.t) : Packer.t * list (Z * Name) :=
  match items with
  | [] => (p, [])
  | INamed n :: items =>
      let '(p', l) := packItems items (Packer.Name n p) in (p', (Packer.Len p, n) :: l)
  | IRaw b :: items => packItems items (Packer.Raw b p)
  end.

Definition item_ok (it : item) : Prop :=
  match it with INamed n => name_ok n | IRaw b => is_bytes b end.

Lemma packItems_frame items p :
  exists bs, Packer.buf (fst (packItems items p)) = Packer.buf p ++ bs.
Proof.
  revert p. induction items as [|[n|b] items IH]; intros p; cbn [packItems]; [by exists []; rewrite app_nil_r| |].
  - destruct (IH (Packer.Name n p)) as [bs E]. destruct (packItems items (Packer.Name n p)) as [p' l]. cbn [fst] in *.
    destruct (frame_app _ p (frame_Name n)) as [bs' E']. exists (bs' ++ bs). by rewrite E, E', app_assoc.
  - destruct (IH (Packer.Raw b p)) as [bs E]. exists (b ++ bs). rewrite E. cbn. by rewrite app_assoc.
Qed.

(** Name compression is transparent: pack any mixture of names and other
    bytes in any order, starting from any valid packer; in the finished
    buffer, at each position where a name was packed, the decoder finds that
    name, whether it was written in full or as a pointer into earlier names. *)
Theorem compression_transparent items p :
  packer_ok p -> Forall item_ok items ->
  let '(p', names) := packItems items p in
  packer_ok p' /\
  Forall (fun '(off, n) => exists next, off < next <= zlen (Packer.buf p') /\ DecodeWire (Packer.buf p') off = Ok (n, next)) names.
Proof.
  intros Hp Hi. revert p Hp. induction Hi as [|[n|b] items Hit _ IH]; intros p Hp; cbn [packItems].
  - by split.
  - destruct Hit as (ls & Hw & Hf & Hl). destruct (pack_name n ls p Hw Hp) as [Hp1 Hn].
    specialize (IH _ Hp1). destruct (packItems_frame items (Packer.Name n p)) as [bs Eb].
    destruct (packItems items (Packer.Name n p)) as [p' l]. destruct IH as [Hp' IH]. split; [done|]. constructor; [|done].
    cbn [fst] in Eb. exists (zlen (Packer.buf (Packer.Name n p))). rewrite Eb.
    assert (is_bytes bs) as Hbs by (destruct Hp' as [_ Hb]; rewrite Eb in Hb; by apply Forall_app in Hb as [_ ?]).
    split; [|by apply (name_packed_decodes n ls p)]. destruct Hn as (x & h & _ & _ & Hn & _).
    pose proof (name_at_off _ _ _ _ _ Hn). unfold Packer.Len. llia.
  - apply IH. by apply packer_ok_raw.
Qed.

(** example., then five bytes, then mail.example. and example. again. *)
Lemma compression_transparent_witness :
  let example := mkName [7; 101; 120; 97; 109; 112; 108; 101; 0] in
  let mail := mkName [4; 109; 97; 105; 108; 7; 101; 120; 97; 109; 112; 108; 101; 0] in
  let p' := fst (packItems [INamed example; IRaw [1; 2; 3; 4; 5]; INamed mail; INamed example] (Packer.NewPacker [])) in
  packer_ok p' /\
  Forall (fun '(off, n) => exists next, off < next <= zlen (Packer.buf p') /\ DecodeWire (Packer.buf p') off = Ok (n, next))
    [(0, example); (14, mail); (21, example)].
Proof.
  refine (compression_transparent
    [INamed (mkName [7; 101; 120; 97; 109; 112; 108; 101; 0]); IRaw [1; 2; 3; 4; 5];
     INamed (mkName [4; 109; 97; 105; 108; 7; 101; 120; 97; 109; 112; 108; 101; 0]);
     INamed (mkName [7; 101; 120; 97; 109; 112; 108; 101; 0])] (Packer.NewPacker []) packer_ok_new _).
  assert (name_ok (mkName [7; 101; 120; 97; 109; 112; 108; 101; 0])) as He.
  { exists [[101; 120; 97; 109; 112; 108; 101]]. split; [|split; [decide_now|decide_now]]. split; [reflexivity|decide_now]. }
  assert (name_ok (mkName [4; 109; 97; 105; 108; 7; 101; 120; 97; 109; 112; 108; 101; 0])) as Hm.
  { exists [[109; 97; 105; 108]; [101; 120; 97; 109; 112; 108; 101]].
    split; [|split; [decide_now|decide_now]]. split; [reflexivity|decide_now]. }
  constructor; [exact He|]. constructor; [change (is_bytes [1; 2; 3; 4; 5]); decide_now|].
  constructor; [exact Hm|]. constructor; [exact He|]. constructor.
Defined.
