(* ===== verification/RData.v ===== *)
(** * Resource record data: wire/rdata and wire/rrtype

    One constructor of [RData] per Go struct, with the struct's fields, one
    [<T>_Pack] and one [unpack<T>] per [Pack] method and unpack helper, and the
    dispatch of [rdata.Unpack].  A Go slice copy ([make] and [copy]) is the
    identity on the model's immutable lists. *)

From S2P Require Import Prelude Name Wire.
Import Unpacker (ret, fail).

(** ** RR types (wire/rrtype/rrtype.go) *)
Module rrtype.
Definition A : Z := 1.
Definition NS : Z := 2.
Definition CNAME : Z := 5.
Definition SOA : Z := 6.
Definition PTR : Z := 12.
Definition HINFO : Z := 13.
Definition MX : Z := 15.
Definition TXT : Z := 16.
Definition RP : Z := 17.
Definition AFSDB : Z := 18.
Definition X25 : Z := 19.
Definition ISDN : Z := 20.
Definition RT : Z := 21.
Definition NSAP : Z := 22.
Definition NSAPPTR : Z := 23.
Definition LOC : Z := 29.
Definition AAAA : Z := 28.
Definition SRV : Z := 33.
Definition KX : Z := 36.
Definition CERT : Z := 37.
Definition NAPTR : Z := 35.
Definition DNAME : Z := 39.
Definition APL : Z := 42.
Definition OPT : Z := 41.
Definition DS : Z := 43.
Definition SSHFP : Z := 44.
Definition IPSECKEY : Z := 45.
Definition RRSIG : Z := 46.
Definition NSEC : Z := 47.
Definition DNSKEY : Z := 48.
Definition DHCID : Z := 49.
Definition NSEC3 : Z := 50.
Definition NSEC3PARAM : Z := 51.
Definition TLSA : Z := 52.
Definition SMIMEA : Z := 53.
Definition HIP : Z := 55.
Definition CDS : Z := 59.
Definition CDNSKEY : Z := 60.
Definition OPENPGPKEY : Z := 61.
Definition CSYNC : Z := 62.
Definition ZONEMD : Z := 63.
Definition SVCB : Z := 64.
Definition HTTPS : Z := 65.
Definition SPF : Z := 99.
Definition NID : Z := 104.
Definition L32 : Z := 105.
Definition L64 : Z := 106.
Definition LP : Z := 107.
Definition EUI48 : Z := 108.
Definition EUI64 : Z := 109.
Definition URI : Z := 256.
Definition CAA : Z := 257.
Definition AMTRELAY : Z := 260.
Definition RESINFO : Z := 261.
Definition NXNAME : Z := 128.
Definition ANY : Z := 255.
Definition AXFR : Z := 252.
Definition IXFR : Z := 251.
Definition TKEY : Z := 249.
Definition ClassIN : Z := 1.
Definition ClassCH : Z := 3.
Definition ClassHS : Z := 4.
Definition ClassNONE : Z := 254.
Definition ClassANY : Z := 255.
End rrtype.

(** [time.Second], in the nanoseconds of a [time.Duration]. *)
Definition Second : Z := 1000000000.

(** ** Addresses (net/netip)

    [netip.Addr]: the zero value, an IPv4 address, or an IPv6 address with a
    zone.  [As4] of a plain IPv6 or zero address and [As16] of neither panics;
    the constructors below exclude the panicking case of [As4]. *)
Inductive Addr :=
  | AddrZero
  | Addr4 (b : bytes)
  | Addr6 (b : bytes) (zone : bytes).

Definition Is4 (a : Addr) : bool := match a with Addr4 _ => true | _ => false end.
Definition Is6 (a : Addr) : bool := match a with Addr6 _ _ => true | _ => false end.
Definition v4mapped : bytes := [0; 0; 0; 0; 0; 0; 0; 0; 0; 0; 255; 255].
Definition As4 (a : Addr) : bytes :=
  match a with
  | Addr4 b => b
  | Addr6 b _ => drop 12 b
  | AddrZero => []
  end.
Definition As16 (a : Addr) : bytes :=
  match a with
  | Addr4 b => v4mapped ++ b
  | Addr6 b _ => b
  | AddrZero => replicate 16 0
  end.
Definition AddrFrom4 (b : bytes) : Addr := Addr4 b.
Definition AddrFrom16 (b : bytes) : Addr := Addr6 b [].

(** [netip.AddrPort] *)
Record AddrPort := mkAddrPort { ap_addr : Addr; ap_port : Z }.

(** [netip.Prefix] *)
Record Prefix := PrefixFrom { pfx_addr : Addr; pfx_bits : Z }.

Record SVCBParam := mkSVCBParam { key : Z; data : bytes }.
Record APLItem := mkAPLItem { family : Z; prefix : Prefix; neg : bool }.

Record svcbBody := mkSvcbBody { svcb_priority : Z; svcb_target : Name; params : list SVCBParam }.

#[export] Instance Addr_eq_dec : EqDecision Addr.
Proof. solve_decision. Defined.
#[export] Instance AddrPort_eq_dec : EqDecision AddrPort.
Proof. solve_decision. Defined.
#[export] Instance Prefix_eq_dec : EqDecision Prefix.
Proof. solve_decision. Defined.
#[export] Instance SVCBParam_eq_dec : EqDecision SVCBParam.
Proof. solve_decision. Defined.
#[export] Instance APLItem_eq_dec : EqDecision APLItem.
Proof. solve_decision. Defined.
#[export] Instance svcbBody_eq_dec : EqDecision svcbBody.
Proof. solve_decision. Defined.

(** ** The payloads *)
Inductive RData :=
  | RD_A (addr : Addr)
  | RD_AAAA (addr : Addr)
  | RD_CNAME (target : Name)
  | RD_NS (name : Name)
  | RD_PTR (name : Name)
  | RD_MX (pref : Z) (exchange : Name)
  | RD_TXT (strs : list bytes)
  | RD_SOA (mname rname : Name) (serial refresh retry expire minimum : Z)
  | RD_SVCB (body : svcbBody)
  | RD_HTTPS (body : svcbBody)
  | RD_CAA (flags : Z) (tag value : bytes)
  | RD_DNSKEY (flags protocol algorithm : Z) (pubkey : bytes)
  | RD_DS (keyTag algorithm digestT : Z) (digest : bytes)
  | RD_RRSIG (typeCovered algorithm labels origTTL sigExp sigInc keyTag : Z)
      (signerName : Name) (signature : bytes)
  | RD_NSEC (next : Name) (types : list Z)
  | RD_NSEC3 (hashAlg flags iterations : Z) (salt nextOwner : bytes) (types : list Z)
  | RD_NSEC3PARAM (alg flags iter : Z) (salt : bytes)
  | RD_SRV (priority weight port : Z) (target : Name)
  | RD_NAPTR (order pref : Z) (flags services regexp : bytes) (replacement : Name)
  | RD_RP (mbox txt : Name)
  | RD_AFSDB (subtype : Z) (hostname : Name)
  | RD_X25 (addr : bytes)
  | RD_ISDN (addr sub : bytes) (hasSub : bool)
  | RD_RT (pref : Z) (host : Name)
  | RD_NSAP (addr : bytes)
  | RD_NSAPPTR (owner : Name)
  | RD_LOC (version size horizPre vertPre lat lon alt : Z)
  | RD_APL (items : list APLItem)
  | RD_IPSECKEY (prec gt alg : Z) (gwAddr : Addr) (gwName : Name) (pubkey : bytes)
  | RD_DHCID (data : bytes)
  | RD_HIP (alg : Z) (hit pubkey : bytes) (rvs : list Name)
  | RD_NID (pref id : Z)
  | RD_L32 (pref loc : Z)
  | RD_L64 (pref loc : Z)
  | RD_LP (pref : Z) (fqdn : Name)
  | RD_EUI48 (addr : bytes)
  | RD_EUI64 (addr : bytes)
  | RD_URI (priority weight : Z) (target : bytes)
  | RD_ZONEMD (serial scheme hash : Z) (digest : bytes)
  | RD_RESINFO (strs : list bytes)
  | RD_SPF (strs : list bytes)
  | RD_SSHFP (alg fpt : Z) (value : bytes)
  | RD_TLSA (usage selector matching : Z) (data : bytes)
  | RD_SMIMEA (usage selector matching : Z) (data : bytes)
  | RD_CSYNC (soaSerial flags : Z) (types : list Z)
  | RD_DNAME (target : Name)
  | RD_HINFO (cpu os : bytes)
  | RD_KX (pref : Z) (exchange : Name)
  | RD_CDS (keyTag algorithm digestT : Z) (digest : bytes)
  | RD_CDNSKEY (flags protocol algorithm : Z) (pubkey : bytes)
  | RD_OPENPGPKEY (pubkey : bytes)
  | RD_CERT (certType keyTag algorithm : Z) (cert : bytes)
  | RD_AMTRELAY (prec : Z) (discovery : bool) (rt : Z) (relayAddr : Addr) (relayName : Name)
  | RD_TKEY (algorithm : Name) (inception expire mode errCode : Z) (keyData otherData : bytes)
  | RD_Unknown (typ : Z) (data : bytes).

#[export] Instance RData_eq_dec : EqDecision RData.
Proof. solve_decision. Defined.

(** The [Type] methods. *)
Definition Type_ (rd : RData) : Z :=
  match rd with
  | RD_A _ => rrtype.A
  | RD_AAAA _ => rrtype.AAAA
  | RD_CNAME _ => rrtype.CNAME
  | RD_NS _ => rrtype.NS
  | RD_PTR _ => rrtype.PTR
  | RD_MX _ _ => rrtype.MX
  | RD_TXT _ => rrtype.TXT
  | RD_SOA _ _ _ _ _ _ _ => rrtype.SOA
  | RD_SVCB _ => rrtype.SVCB
  | RD_HTTPS _ => rrtype.HTTPS
  | RD_CAA _ _ _ => rrtype.CAA
  | RD_DNSKEY _ _ _ _ => rrtype.DNSKEY
  | RD_DS _ _ _ _ => rrtype.DS
  | RD_RRSIG _ _ _ _ _ _ _ _ _ => rrtype.RRSIG
  | RD_NSEC _ _ => rrtype.NSEC
  | RD_NSEC3 _ _ _ _ _ _ => rrtype.NSEC3
  | RD_NSEC3PARAM _ _ _ _ => rrtype.NSEC3PARAM
  | RD_SRV _ _ _ _ => rrtype.SRV
  | RD_NAPTR _ _ _ _ _ _ => rrtype.NAPTR
  | RD_RP _ _ => rrtype.RP
  | RD_AFSDB _ _ => rrtype.AFSDB
  | RD_X25 _ => rrtype.X25
  | RD_ISDN _ _ _ => rrtype.ISDN
  | RD_RT _ _ => rrtype.RT
  | RD_NSAP _ => rrtype.NSAP
  | RD_NSAPPTR _ => rrtype.NSAPPTR
  | RD_LOC _ _ _ _ _ _ _ => rrtype.LOC
  | RD_APL _ => rrtype.APL
  | RD_IPSECKEY _ _ _ _ _ _ => rrtype.IPSECKEY
  | RD_DHCID _ => rrtype.DHCID
  | RD_HIP _ _ _ _ => rrtype.HIP
  | RD_NID _ _ => rrtype.NID
  | RD_L32 _ _ => rrtype.L32
  | RD_L64 _ _ => rrtype.L64
  | RD_LP _ _ => rrtype.LP
  | RD_EUI48 _ => rrtype.EUI48
  | RD_EUI64 _ => rrtype.EUI64
  | RD_URI _ _ _ => rrtype.URI
  | RD_ZONEMD _ _ _ _ => rrtype.ZONEMD
  | RD_RESINFO _ => rrtype.RESINFO
  | RD_SPF _ => rrtype.SPF
  | RD_SSHFP _ _ _ => rrtype.SSHFP
  | RD_TLSA _ _ _ _ => rrtype.TLSA
  | RD_SMIMEA _ _ _ _ => rrtype.SMIMEA
  | RD_CSYNC _ _ _ => rrtype.CSYNC
  | RD_DNAME _ => rrtype.DNAME
  | RD_HINFO _ _ => rrtype.HINFO
  | RD_KX _ _ => rrtype.KX
  | RD_CDS _ _ _ _ => rrtype.CDS
  | RD_CDNSKEY _ _ _ _ => rrtype.CDNSKEY
  | RD_OPENPGPKEY _ => rrtype.OPENPGPKEY
  | RD_CERT _ _ _ _ => rrtype.CERT
  | RD_AMTRELAY _ _ _ _ _ => rrtype.AMTRELAY
  | RD_TKEY _ _ _ _ _ _ _ => rrtype.TKEY
  | RD_Unknown typ _ => typ
  end.

(** ** Type bitmaps (RFC 4034 section 4.1.2) *)

(** [slices.Sort] on 16-bit integers: equal elements are indistinguishable,
    so every sorting algorithm gives this list. *)
Fixpoint insertSorted (x : Z) (l : list Z) : list Z :=
  match l with
  | [] => [x]
  | y :: l => if x <=? y then x :: y :: l else y :: insertSorted x l
  end.
Definition sortTypes (l : list Z) : list Z := foldr insertSorted [] l.

Record bucket := mkBucket { win : Z; bitmap : bytes }.

(** [buckets[idx].bitmap[bit/8] |= 1 << (7 - bit%8)] *)
Definition setBitmap (bm : bytes) (bit : Z) : bytes :=
  <[Z.to_nat (bit / 8) := Z.lor (zget bm (bit / 8)) (Z.shiftl 1 (7 - bit mod 8))]> bm.

Fixpoint addType (buckets : list bucket) (w bit : Z) : list bucket :=
  match buckets with
  | [] => [mkBucket w (setBitmap (replicate 32 0) bit)]
  | b :: rest =>
      if win b =? w then mkBucket w (setBitmap (bitmap b) bit) :: rest
      else b :: addType rest w bit
  end.

(** [ln := 32; for ln > 1 && bitmap[ln-1] == 0 { ln-- }] *)
Fixpoint trimLen (ln : nat) (bm : bytes) : nat :=
  match ln with
  | S (S _ as m) => if zget bm (Z.of_nat m) =? 0 then trimLen m bm else ln
  | _ => ln
  end.

Definition packBucket (b : bucket) (p : Packer.t) : Packer.t :=
  let ln := trimLen 32 (bitmap b) in
  p |> Packer.Uint8 (win b) |> Packer.Uint8 (Z.of_nat ln) |> Packer.Raw (take ln (bitmap b)).

Definition typeBuckets (types : list Z) : list bucket :=
  fold_left (fun bs t => addType bs (to_u8 (Z.shiftr t 8)) (Z.land t 0xff)) (sortTypes types) [].

Definition encodeTypeBitmap (types : list Z) (p : Packer.t) : Packer.t :=
  if zlen types =? 0 then p
  else fold_left (fun p b => packBucket b p) (typeBuckets types) p.

(** The two inner loops: the types whose bits are set in window [w]. *)
Definition byteTypes (w i b : Z) : list Z :=
  flat_map (fun bit => if Z.land b (Z.shiftl 1 (7 - bit)) =? 0 then []
                       else [Z.lor (Z.shiftl w 8) (i * 8 + bit)]) (seqZ 0 8).
Fixpoint windowTypes (w i : Z) (bm : bytes) : list Z :=
  match bm with
  | [] => []
  | b :: bm => byteTypes w i b ++ windowTypes w (i + 1) bm
  end.

(** State of the decoding loop: [out], [lastWin], [first]. *)
Definition bitmapStep (end_ : Z) (st : list Z * Z * bool) : U (list Z * Z * bool) :=
  let '(out, lastWin, first) := st in
  do w <- Unpacker.Uint8;
  if negb first && (w <=? lastWin) then fail ErrInvalidRData
  else
    do ln <- Unpacker.Uint8;
    if (ln =? 0) || (32 <? ln) then fail ErrInvalidRData
    else
      do _ <- checkWindow end_ ln;
      do bm <- Unpacker.Bytes ln;
      ret (out ++ windowTypes w 0 bm, w, false).

Definition decodeTypeBitmap (end_ : Z) : U (list Z) :=
  do st <- loopUntil end_ (bitmapStep end_) ([], -1, true);
  ret (fst (fst st)).

(** ** SVCB parameters (RFC 9460) *)

Definition SvcParamMandatory : Z := 0.
Definition SvcParamALPN : Z := 1.

Fixpoint decodeALPN_loop (fuel : nat) (buf : bytes) (out : list bytes) : res (list bytes) :=
  match fuel, buf with
  | _, [] => Ok out
  | O, _ => Err ErrFuel
  | S fuel, l :: rest =>
      if l =? 0 then Err ErrInvalidRData
      else if zlen rest <? l then Err ErrInvalidRData
      else decodeALPN_loop fuel (drop (Z.to_nat l) rest) (out ++ [take (Z.to_nat l) rest])
  end.
Definition decodeALPN (buf : bytes) : res (list bytes) := decodeALPN_loop (length buf) buf [].

Definition validateSvcParam (p : SVCBParam) : res unit :=
  if key p =? SvcParamALPN then let? _ := decodeALPN (data p) in Ok tt else Ok tt.

(** [binary.BigEndian.Uint16(data[i:i+2])] for each even [i]. *)
Fixpoint mandatory_loop (d : bytes) (lastKey : Z) (seen : list Z) : res unit :=
  match d with
  | a :: b :: d =>
      let k := get16 a b in
      if k =? SvcParamMandatory then Err ErrInvalidRData
      else if k <=? lastKey then Err ErrInvalidRData
      else if negb (existsb (Z.eqb k) seen) then Err ErrInvalidRData
      else mandatory_loop d k seen
  | _ => Ok tt
  end.

(** The last parameter with key 0, as the Go loop leaves it. *)
Definition findMandatory (ps : list SVCBParam) : option SVCBParam :=
  fold_left (fun acc p => if key p =? SvcParamMandatory then Some p else acc) ps None.

Definition validateMandatoryParam (ps : list SVCBParam) : res unit :=
  match findMandatory ps with
  | None => Ok tt
  | Some m =>
      let d := data m in
      if zlen d =? 0 then Err ErrInvalidRData
      else if negb (zlen d mod 2 =? 0) then Err ErrInvalidRData
      else mandatory_loop d (-1) (map key ps)
  end.

Fixpoint insertParam (x : SVCBParam) (l : list SVCBParam) : list SVCBParam :=
  match l with
  | [] => [x]
  | y :: l => if key x <? key y then x :: y :: l else y :: insertParam x l
  end.
(** [sort.SliceStable] by key: insertion after the elements with an equal key. *)
Definition sortParams (l : list SVCBParam) : list SVCBParam :=
  fold_left (fun acc x => insertParam x acc) l [].

Fixpoint dupKey (l : list SVCBParam) : bool :=
  match l with
  | x :: ((y :: _) as l') => (key y =? key x) || dupKey l'
  | _ => false
  end.

Fixpoint validateAll (l : list SVCBParam) : res unit :=
  match l with
  | [] => Ok tt
  | p :: l => let? _ := validateSvcParam p in validateAll l
  end.

Definition newSvcbBody (priority : Z) (target : Name) (ps : list SVCBParam) : res svcbBody :=
  if negb (IsValid target) then Err ErrInvalidRData
  else
    let cp := sortParams ps in
    if dupKey cp then Err ErrInvalidRData
    else
      let? _ := validateAll cp in
      let? _ := validateMandatoryParam cp in
      Ok (mkSvcbBody priority target cp).

Definition packParam (sp : SVCBParam) (p : Packer.t) : Packer.t :=
  p |> Packer.Uint16 (key sp) |> Packer.Uint16 (to_u16 (zlen (data sp))) |> Packer.Raw (data sp).

Definition packBody (s : svcbBody) (p : Packer.t) : Packer.t :=
  let p := p |> Packer.Uint16 (svcb_priority s) |> Packer.NameUncompressed (svcb_target s) in
  fold_left (fun p sp => packParam sp p) (params s) p.

(** Lift a pure check into the reader. *)
Definition lift {X} (r : res X) : U X := fun u => (r, u).

(** State of the parameter loop: [params], [lastKey]. *)
Definition svcbStep (end_ : Z) (st : list SVCBParam * Z) : U (list SVCBParam * Z) :=
  let '(ps, lastKey) := st in
  do k <- Unpacker.Uint16;
  if k <=? lastKey then fail ErrInvalidRData
  else
    do l <- Unpacker.Uint16;
    do _ <- checkWindow end_ l;
    do v <- Unpacker.Bytes l;
    let sp := mkSVCBParam k v in
    do _ <- lift (validateSvcParam sp);
    ret (ps ++ [sp], k).

Definition unpackSvcbBody (rdlen : Z) : U svcbBody :=
  do off <- Unpacker.Off;
  let end_ := off + rdlen in
  do prio <- Unpacker.Uint16;
  do target <- uncompressedNameTo end_;
  do st <- loopUntil end_ (svcbStep end_) ([], -1);
  do _ <- lift (validateMandatoryParam (fst st));
  ret (mkSvcbBody prio target (fst st)).

Definition unpackSVCB (t rdlen : Z) : U RData :=
  do body <- unpackSvcbBody rdlen;
  if t =? rrtype.SVCB then ret (RD_SVCB body)
  else if t =? rrtype.HTTPS then ret (RD_HTTPS body)
  else fail ErrInvalidRData.

(** ** The unpack helpers and Pack methods, type by type *)

(** [end := u.Off() + rdlen] *)
Definition withEnd {X} (rdlen : Z) (k : Z -> U X) : U X :=
  do off <- Unpacker.Off; k (off + rdlen).

(** *** addr.go *)
Definition A_Pack (addr : Addr) (p : Packer.t) : Packer.t := p |> Packer.Raw (As4 addr).
Definition NewA (addr : Addr) : res RData :=
  if negb (Is4 addr) then Err ErrInvalidRData else Ok (RD_A addr).
Definition unpackA (rdlen : Z) : U RData :=
  if negb (rdlen =? 4) then fail ErrInvalidRData
  else do b <- Unpacker.Bytes 4; ret (RD_A (AddrFrom4 b)).

Definition AAAA_Pack (addr : Addr) (p : Packer.t) : Packer.t := p |> Packer.Raw (As16 addr).
Definition NewAAAA (addr : Addr) : res RData :=
  if negb (Is6 addr) then Err ErrInvalidRData else Ok (RD_AAAA addr).
Definition unpackAAAA (rdlen : Z) : U RData :=
  if negb (rdlen =? 16) then fail ErrInvalidRData
  else do b <- Unpacker.Bytes 16; ret (RD_AAAA (AddrFrom16 b)).

(** *** name.go, nsap.go (NSAP-PTR), dname.go *)
Definition CNAME_Pack (target : Name) (p : Packer.t) : Packer.t := p |> Packer.Name target.
Definition NewCNAME (target : Name) : res RData :=
  if negb (IsValid target) then Err ErrInvalidRData else Ok (RD_CNAME target).
Definition unpackCNAME (rdlen : Z) : U RData :=
  withEnd rdlen (fun end_ => do n <- Unpacker.NameInRange end_; ret (RD_CNAME n)).

Definition NS_Pack (name : Name) (p : Packer.t) : Packer.t := p |> Packer.Name name.
Definition NewNS (name : Name) : res RData :=
  if negb (IsValid name) then Err ErrInvalidRData else Ok (RD_NS name).
Definition unpackNS (rdlen : Z) : U RData :=
  withEnd rdlen (fun end_ => do n <- Unpacker.NameInRange end_; ret (RD_NS n)).

Definition PTR_Pack (name : Name) (p : Packer.t) : Packer.t := p |> Packer.Name name.
Definition NewPTR (name : Name) : res RData :=
  if negb (IsValid name) then Err ErrInvalidRData else Ok (RD_PTR name).
Definition unpackPTR (rdlen : Z) : U RData :=
  withEnd rdlen (fun end_ => do n <- Unpacker.NameInRange end_; ret (RD_PTR n)).

Definition NSAPPTR_Pack (owner : Name) (p : Packer.t) : Packer.t := p |> Packer.Name owner.
Definition unpackNSAPPTR (rdlen : Z) : U RData :=
  withEnd rdlen (fun end_ => do n <- Unpacker.NameInRange end_; ret (RD_NSAPPTR n)).

Definition DNAME_Pack (target : Name) (p : Packer.t) : Packer.t := p |> Packer.NameUncompressed target.
Definition unpackDNAME (rdlen : Z) : U RData :=
  withEnd rdlen (fun end_ => do n <- uncompressedNameTo end_; ret (RD_DNAME n)).

(** *** mx.go, kx.go, srv.go *)
Definition MX_Pack (pref : Z) (exchange : Name) (p : Packer.t) : Packer.t :=
  p |> Packer.Uint16 pref |> Packer.Name exchange.
Definition NewMX (pref : Z) (exchange : Name) : res RData :=
  if negb (IsValid exchange) then Err ErrInvalidRData else Ok (RD_MX pref exchange).
Definition unpackMX (rdlen : Z) : U RData :=
  if rdlen <? 3 then fail ErrInvalidRData
  else withEnd rdlen (fun end_ =>
    do pref <- Unpacker.Uint16;
    do n <- Unpacker.NameInRange end_;
    ret (RD_MX pref n)).

Definition KX_Pack (pref : Z) (exchange : Name) (p : Packer.t) : Packer.t :=
  p |> Packer.Uint16 pref |> Packer.NameUncompressed exchange.
Definition unpackKX (rdlen : Z) : U RData :=
  withEnd rdlen (fun end_ =>
    do pref <- Unpacker.Uint16;
    do n <- uncompressedNameTo end_;
    ret (RD_KX pref n)).

Definition SRV_Pack (priority weight port : Z) (target : Name) (p : Packer.t) : Packer.t :=
  p |> Packer.Uint16 priority |> Packer.Uint16 weight |> Packer.Uint16 port
    |> Packer.NameUncompressed target.
Definition NewSRV (priority weight port : Z) (target : Name) : res RData :=
  if negb (IsValid target) then Err ErrInvalidRData else Ok (RD_SRV priority weight port target).
Definition unpackSRV (rdlen : Z) : U RData :=
  withEnd rdlen (fun end_ =>
    do priority <- Unpacker.Uint16;
    do weight <- Unpacker.Uint16;
    do port <- Unpacker.Uint16;
    do target <- uncompressedNameTo end_;
    ret (RD_SRV priority weight port target)).

(** *** soa.go *)
Definition maxSOATimerSeconds : Z := 0x7fffffff.

Definition SOA_Pack (mname rname : Name) (serial refresh retry expire minimum : Z)
    (p : Packer.t) : Packer.t :=
  p |> Packer.Name mname |> Packer.Name rname |> Packer.Uint32 serial
    |> Packer.Uint32 (to_u32 (Z.quot refresh Second))
    |> Packer.Uint32 (to_u32 (Z.quot retry Second))
    |> Packer.Uint32 (to_u32 (Z.quot expire Second))
    |> Packer.Uint32 (to_u32 (Z.quot minimum Second)).

Definition NewSOA (mname rname : Name) (serial refresh retry expire minimum : Z) : res RData :=
  if negb (IsValid mname) then Err ErrInvalidRData
  else if negb (IsValid rname) then Err ErrInvalidRData
  else if existsb (fun d => (d <? 0) || (maxSOATimerSeconds <? Z.quot d Second))
            [refresh; retry; expire; minimum] then Err ErrInvalidRData
  else Ok (RD_SOA mname rname serial refresh retry expire minimum).

Definition unpackSOA (rdlen : Z) : U RData :=
  withEnd rdlen (fun end_ =>
    do mname <- Unpacker.NameInRange end_;
    do rname <- Unpacker.NameInRange end_;
    do serial <- Unpacker.Uint32;
    do refresh <- Unpacker.Uint32;
    do retry <- Unpacker.Uint32;
    do expire <- Unpacker.Uint32;
    do minimum <- Unpacker.Uint32;
    ret (RD_SOA mname rname serial (refresh * Second) (retry * Second)
           (expire * Second) (minimum * Second))).

(** *** txt.go, spf.go, resinfo.go, hinfo.go, rfc1183.go (X25, ISDN) *)

(** [_ = p.CharString(s)]: the callers discard the error. *)
Definition packCharString (s : bytes) (p : Packer.t) : Packer.t := snd (Packer.CharString s p).

Definition packStrings (strs : list bytes) (p : Packer.t) : Packer.t :=
  fold_left (fun p s => packCharString s p) strs p.
Definition checkStrings (strs : list bytes) : bool := forallb (fun s => zlen s <=? 255) strs.
Definition unpackStrings (end_ : Z) : U (list bytes) :=
  loopUntil end_ (fun out => do s <- Unpacker.CharStringInRange end_; ret (out ++ [s])) [].

Definition TXT_Pack := packStrings.
Definition NewTXT (strs : list bytes) : res RData :=
  if negb (checkStrings strs) then Err ErrInvalidRData else Ok (RD_TXT strs).
Definition unpackTXT (rdlen : Z) : U RData :=
  withEnd rdlen (fun end_ => do out <- unpackStrings end_; ret (RD_TXT out)).

Definition SPF_Pack := packStrings.
Definition unpackSPF (rdlen : Z) : U RData :=
  withEnd rdlen (fun end_ => do out <- unpackStrings end_; ret (RD_SPF out)).

Definition RESINFO_Pack := packStrings.
Definition unpackRESINFO (rdlen : Z) : U RData :=
  withEnd rdlen (fun end_ => do out <- unpackStrings end_; ret (RD_RESINFO out)).

Definition HINFO_Pack (cpu os : bytes) (p : Packer.t) : Packer.t :=
  p |> packCharString cpu |> packCharString os.
Definition unpackHINFO (rdlen : Z) : U RData :=
  withEnd rdlen (fun end_ =>
    do cpu <- Unpacker.CharStringInRange end_;
    do os <- Unpacker.CharStringInRange end_;
    ret (RD_HINFO cpu os)).

Definition X25_Pack (addr : bytes) (p : Packer.t) : Packer.t := p |> packCharString addr.
Definition unpackX25 (rdlen : Z) : U RData :=
  withEnd rdlen (fun end_ => do s <- Unpacker.CharStringInRange end_; ret (RD_X25 s)).

Definition ISDN_Pack (addr sub : bytes) (hasSub : bool) (p : Packer.t) : Packer.t :=
  let p := p |> packCharString addr in
  if hasSub then p |> packCharString sub else p.
Definition unpackISDN (rdlen : Z) : U RData :=
  withEnd rdlen (fun end_ =>
    do addr <- Unpacker.CharStringInRange end_;
    do off <- Unpacker.Off;
    if off =? end_ then ret (RD_ISDN addr [] false)
    else
      do sub <- Unpacker.CharStringInRange end_;
      ret (RD_ISDN addr sub true)).

(** *** rfc1183.go (RP, AFSDB, RT) *)
Definition RP_Pack (mbox txt : Name) (p : Packer.t) : Packer.t :=
  p |> Packer.Name mbox |> Packer.Name txt.
Definition unpackRP (rdlen : Z) : U RData :=
  withEnd rdlen (fun end_ =>
    do mbox <- Unpacker.NameInRange end_;
    do txt <- Unpacker.NameInRange end_;
    ret (RD_RP mbox txt)).

Definition AFSDB_Pack (subtype : Z) (hostname : Name) (p : Packer.t) : Packer.t :=
  p |> Packer.Uint16 subtype |> Packer.NameUncompressed hostname.
Definition unpackAFSDB (rdlen : Z) : U RData :=
  withEnd rdlen (fun end_ =>
    do st <- Unpacker.Uint16;
    do n <- uncompressedNameTo end_;
    ret (RD_AFSDB st n)).

Definition RT_Pack (pref : Z) (host : Name) (p : Packer.t) : Packer.t :=
  p |> Packer.Uint16 pref |> Packer.NameUncompressed host.
Definition unpackRT (rdlen : Z) : U RData :=
  withEnd rdlen (fun end_ =>
    do pref <- Unpacker.Uint16;
    do n <- uncompressedNameTo end_;
    ret (RD_RT pref n)).

(** *** svcb.go *)
Definition SVCB_Pack := packBody.
Definition HTTPS_Pack := packBody.
Definition NewSVCB (priority : Z) (target : Name) (ps : list SVCBParam) : res RData :=
  let? body := newSvcbBody priority target ps in Ok (RD_SVCB body).
Definition NewHTTPS (priority : Z) (target : Name) (ps : list SVCBParam) : res RData :=
  let? body := newSvcbBody priority target ps in Ok (RD_HTTPS body).

(** *** caa.go *)
Definition isAlnum (c : Z) : bool :=
  ((97 <=? c) && (c <=? 122)) || ((65 <=? c) && (c <=? 90)) || ((48 <=? c) && (c <=? 57)).
Definition CAA_Pack (flags : Z) (tag value : bytes) (p : Packer.t) : Packer.t :=
  p |> Packer.Uint8 flags |> Packer.Uint8 (to_u8 (zlen tag)) |> Packer.Raw tag |> Packer.Raw value.
Definition NewCAA (flags : Z) (tag value : bytes) : res RData :=
  if (zlen tag =? 0) || (15 <? zlen tag) then Err ErrInvalidRData
  else if negb (forallb isAlnum tag) then Err ErrInvalidRData
  else Ok (RD_CAA flags tag value).
Definition unpackCAA (rdlen : Z) : U RData :=
  withEnd rdlen (fun end_ =>
    do flags <- Unpacker.Uint8;
    do tlen <- Unpacker.Uint8;
    if (tlen =? 0) || (15 <? tlen) then fail ErrInvalidRData
    else
      do _ <- checkWindow end_ tlen;
      do tag <- Unpacker.Bytes tlen;
      if negb (forallb isAlnum tag) then fail ErrInvalidRData
      else
        do _ <- checkWindow end_ 0;
        do val <- bytesTo end_;
        ret (RD_CAA flags tag val)).

(** *** dnssec.go *)
Definition DNSKEY_Pack (flags protocol algorithm : Z) (pubkey : bytes) (p : Packer.t) : Packer.t :=
  p |> Packer.Uint16 flags |> Packer.Uint8 protocol |> Packer.Uint8 algorithm |> Packer.Raw pubkey.
Definition NewDNSKEY (flags protocol algorithm : Z) (pubkey : bytes) : res RData :=
  if negb (protocol =? 3) then Err ErrInvalidRData else Ok (RD_DNSKEY flags protocol algorithm pubkey).
Definition unpackDNSKEY (rdlen : Z) : U RData :=
  if rdlen <? 4 then fail ErrInvalidRData
  else withEnd rdlen (fun end_ =>
    do flags <- Unpacker.Uint16;
    do proto <- Unpacker.Uint8;
    if negb (proto =? 3) then fail ErrInvalidRData
    else
      do alg <- Unpacker.Uint8;
      do pk <- bytesTo end_;
      ret (RD_DNSKEY flags proto alg pk)).

Definition dsDigestLen (dt : Z) : Z :=
  if dt =? 1 then 20 else if dt =? 2 then 32 else if dt =? 4 then 48 else 0.
Definition DS_Pack (keyTag algorithm digestT : Z) (digest : bytes) (p : Packer.t) : Packer.t :=
  p |> Packer.Uint16 keyTag |> Packer.Uint8 algorithm |> Packer.Uint8 digestT |> Packer.Raw digest.
Definition NewDS (keyTag alg dt : Z) (digest : bytes) : res RData :=
  let want := dsDigestLen dt in
  if negb (want =? 0) && negb (zlen digest =? want) then Err ErrInvalidRData
  else Ok (RD_DS keyTag alg dt digest).
Definition unpackDS (rdlen : Z) : U RData :=
  if rdlen <? 4 then fail ErrInvalidRData
  else withEnd rdlen (fun end_ =>
    do tag <- Unpacker.Uint16;
    do alg <- Unpacker.Uint8;
    do dt <- Unpacker.Uint8;
    do dig <- bytesTo end_;
    ret (RD_DS tag alg dt dig)).

Definition RRSIG_Pack (typeCovered algorithm labels origTTL sigExp sigInc keyTag : Z)
    (signerName : Name) (signature : bytes) (p : Packer.t) : Packer.t :=
  p |> Packer.Uint16 typeCovered |> Packer.Uint8 algorithm |> Packer.Uint8 labels
    |> Packer.Uint32 origTTL |> Packer.Uint32 sigExp |> Packer.Uint32 sigInc
    |> Packer.Uint16 keyTag |> Packer.NameUncompressed signerName |> Packer.Raw signature.
Definition unpackRRSIG (rdlen : Z) : U RData :=
  if rdlen <? 19 then fail ErrInvalidRData
  else withEnd rdlen (fun end_ =>
    do tc <- Unpacker.Uint16;
    do alg <- Unpacker.Uint8;
    do labels <- Unpacker.Uint8;
    do origTTL <- Unpacker.Uint32;
    do sigExp <- Unpacker.Uint32;
    do sigInc <- Unpacker.Uint32;
    do keyTag <- Unpacker.Uint16;
    do signer <- uncompressedNameTo end_;
    do sig <- bytesTo end_;
    ret (RD_RRSIG tc alg labels origTTL sigExp sigInc keyTag signer sig)).

Definition NSEC_Pack (next : Name) (types : list Z) (p : Packer.t) : Packer.t :=
  p |> Packer.NameUncompressed next |> encodeTypeBitmap types.
Definition unpackNSEC (rdlen : Z) : U RData :=
  withEnd rdlen (fun end_ =>
    do next <- uncompressedNameTo end_;
    do types <- decodeTypeBitmap end_;
    ret (RD_NSEC next types)).

Definition NSEC3_Pack (hashAlg flags iterations : Z) (salt nextOwner : bytes) (types : list Z)
    (p : Packer.t) : Packer.t :=
  p |> Packer.Uint8 hashAlg |> Packer.Uint8 flags |> Packer.Uint16 iterations
    |> Packer.Uint8 (to_u8 (zlen salt)) |> Packer.Raw salt
    |> Packer.Uint8 (to_u8 (zlen nextOwner)) |> Packer.Raw nextOwner
    |> encodeTypeBitmap types.
Definition NewNSEC3 (hashAlg flags iterations : Z) (salt nextOwner : bytes) (types : list Z) : res RData :=
  if 255 <? zlen salt then Err ErrInvalidRData
  else if zlen nextOwner =? 0 then Err ErrInvalidRData
  else if 255 <? zlen nextOwner then Err ErrInvalidRData
  else Ok (RD_NSEC3 hashAlg flags iterations salt nextOwner types).
Definition unpackNSEC3 (rdlen : Z) : U RData :=
  withEnd rdlen (fun end_ =>
    do alg <- Unpacker.Uint8;
    do flags <- Unpacker.Uint8;
    do iters <- Unpacker.Uint16;
    do saltLen <- Unpacker.Uint8;
    do _ <- checkWindow end_ saltLen;
    do salt <- Unpacker.Bytes saltLen;
    do hashLen <- Unpacker.Uint8;
    if hashLen =? 0 then fail ErrInvalidRData
    else
      do _ <- checkWindow end_ hashLen;
      do hash <- Unpacker.Bytes hashLen;
      do _ <- checkWindow end_ 0;
      do types <- decodeTypeBitmap end_;
      ret (RD_NSEC3 alg flags iters salt hash types)).

(** *** nsec3param.go, csync.go *)
Definition NSEC3PARAM_Pack (alg flags iter : Z) (salt : bytes) (p : Packer.t) : Packer.t :=
  p |> Packer.Uint8 alg |> Packer.Uint8 flags |> Packer.Uint16 iter
    |> Packer.Uint8 (to_u8 (zlen salt)) |> Packer.Raw salt.
Definition unpackNSEC3PARAM (rdlen : Z) : U RData :=
  withEnd rdlen (fun end_ =>
    do alg <- Unpacker.Uint8;
    do flags <- Unpacker.Uint8;
    do iter <- Unpacker.Uint16;
    do saltLen <- Unpacker.Uint8;
    do _ <- checkWindow end_ saltLen;
    do salt <- Unpacker.Bytes saltLen;
    ret (RD_NSEC3PARAM alg flags iter salt)).

Definition CSYNC_Pack (soaSerial flags : Z) (types : list Z) (p : Packer.t) : Packer.t :=
  p |> Packer.Uint32 soaSerial |> Packer.Uint16 flags |> encodeTypeBitmap types.
Definition unpackCSYNC (rdlen : Z) : U RData :=
  if rdlen <? 6 then fail ErrInvalidRData
  else withEnd rdlen (fun end_ =>
    do serial <- Unpacker.Uint32;
    do flags <- Unpacker.Uint16;
    do types <- decodeTypeBitmap end_;
    ret (RD_CSYNC serial flags types)).

(** *** naptr.go *)
Definition NAPTR_Pack (order pref : Z) (flags services regexp : bytes) (replacement : Name)
    (p : Packer.t) : Packer.t :=
  p |> Packer.Uint16 order |> Packer.Uint16 pref |> packCharString flags
    |> packCharString services |> packCharString regexp |> Packer.NameUncompressed replacement.
Definition unpackNAPTR (rdlen : Z) : U RData :=
  withEnd rdlen (fun end_ =>
    do order <- Unpacker.Uint16;
    do pref <- Unpacker.Uint16;
    do flags <- Unpacker.CharStringInRange end_;
    do services <- Unpacker.CharStringInRange end_;
    do regexp <- Unpacker.CharStringInRange end_;
    do replacement <- uncompressedNameTo end_;
    ret (RD_NAPTR order pref flags services regexp replacement)).

(** *** nsap.go (NSAP), dhcid.go, openpgpkey.go, eui.go, unknown.go *)
Definition NSAP_Pack (addr : bytes) (p : Packer.t) : Packer.t := p |> Packer.Raw addr.
Definition unpackNSAP (rdlen : Z) : U RData := do b <- Unpacker.Bytes rdlen; ret (RD_NSAP b).
Definition DHCID_Pack (data : bytes) (p : Packer.t) : Packer.t := p |> Packer.Raw data.
Definition unpackDHCID (rdlen : Z) : U RData := do b <- Unpacker.Bytes rdlen; ret (RD_DHCID b).
Definition OPENPGPKEY_Pack (pubkey : bytes) (p : Packer.t) : Packer.t := p |> Packer.Raw pubkey.
Definition unpackOPENPGPKEY (rdlen : Z) : U RData :=
  do b <- Unpacker.Bytes rdlen; ret (RD_OPENPGPKEY b).
Definition EUI48_Pack (addr : bytes) (p : Packer.t) : Packer.t := p |> Packer.Raw addr.
Definition unpackEUI48 (rdlen : Z) : U RData :=
  if negb (rdlen =? 6) then fail ErrInvalidRData
  else do b <- Unpacker.Bytes 6; ret (RD_EUI48 b).
Definition EUI64_Pack (addr : bytes) (p : Packer.t) : Packer.t := p |> Packer.Raw addr.
Definition unpackEUI64 (rdlen : Z) : U RData :=
  if negb (rdlen =? 8) then fail ErrInvalidRData
  else do b <- Unpacker.Bytes 8; ret (RD_EUI64 b).
Definition Unknown_Pack (data : bytes) (p : Packer.t) : Packer.t := p |> Packer.Raw data.

(** *** loc.go *)
Definition validateLOCSizeByte (b : Z) : bool :=
  negb (9 <? Z.shiftr b 4) && negb (9 <? Z.land b 0x0f).
Definition LOC_Pack (version size horizPre vertPre lat lon alt : Z) (p : Packer.t) : Packer.t :=
  p |> Packer.Uint8 version |> Packer.Uint8 size |> Packer.Uint8 horizPre |> Packer.Uint8 vertPre
    |> Packer.Uint32 lat |> Packer.Uint32 lon |> Packer.Uint32 alt.
Definition NewLOC (version size horizPre vertPre lat lon alt : Z) : res RData :=
  if negb (validateLOCSizeByte size) then Err ErrInvalidRData
  else if negb (validateLOCSizeByte horizPre) then Err ErrInvalidRData
  else if negb (validateLOCSizeByte vertPre) then Err ErrInvalidRData
  else Ok (RD_LOC version size horizPre vertPre lat lon alt).
Definition unpackLOC (rdlen : Z) : U RData :=
  if negb (rdlen =? 16) then fail ErrInvalidRData
  else
    do v <- Unpacker.Uint8;
    do sz <- Unpacker.Uint8;
    if negb (validateLOCSizeByte sz) then fail ErrInvalidRData
    else
      do hp <- Unpacker.Uint8;
      if negb (validateLOCSizeByte hp) then fail ErrInvalidRData
      else
        do vp <- Unpacker.Uint8;
        if negb (validateLOCSizeByte vp) then fail ErrInvalidRData
        else
          do lat <- Unpacker.Uint32;
          do lon <- Unpacker.Uint32;
          do alt <- Unpacker.Uint32;
          ret (RD_LOC v sz hp vp lat lon alt).

(** *** apl.go *)

(** [for len(raw) > 0 && raw[len(raw)-1] == 0 { raw = raw[:len(raw)-1] }] *)
Fixpoint stripZeros (l : bytes) : bytes :=
  match l with
  | [] => []
  | x :: l =>
      match stripZeros l with
      | [] => if x =? 0 then [] else [x]
      | l' => x :: l'
      end
  end.
Definition encodeAPLAFD (p : Prefix) : bytes :=
  stripZeros (if Is4 (pfx_addr p) then As4 (pfx_addr p) else As16 (pfx_addr p)).

(** [var b [n]byte; copy(b[:], afd)] *)
Definition copyInto (n : nat) (afd : bytes) : bytes := take n (afd ++ replicate n 0).

Definition decodeAPLAFD (family prefix : Z) (afd : bytes) : res Prefix :=
  if family =? 1 then
    if (32 <? prefix) || (4 <? zlen afd) then Err ErrInvalidRData
    else Ok (PrefixFrom (AddrFrom4 (copyInto 4 afd)) prefix)
  else if family =? 2 then
    if (128 <? prefix) || (16 <? zlen afd) then Err ErrInvalidRData
    else Ok (PrefixFrom (AddrFrom16 (copyInto 16 afd)) prefix)
  else Err ErrInvalidRData.

Definition packAPLItem (it : APLItem) (p : Packer.t) : Packer.t :=
  let afd := encodeAPLAFD (prefix it) in
  let nlen := Z.land (to_u8 (zlen afd)) 0x7f in
  let nlen := if neg it then Z.lor nlen 0x80 else nlen in
  p |> Packer.Uint16 (family it) |> Packer.Uint8 (to_u8 (pfx_bits (prefix it)))
    |> Packer.Uint8 nlen |> Packer.Raw afd.
Definition APL_Pack (items : list APLItem) (p : Packer.t) : Packer.t :=
  fold_left (fun p it => packAPLItem it p) items p.
Definition aplStep (end_ : Z) (items : list APLItem) : U (list APLItem) :=
  do fam <- Unpacker.Uint16;
  do pfx <- Unpacker.Uint8;
  do nlen <- Unpacker.Uint8;
  let alen := Z.land nlen 0x7f in
  let neg := negb (Z.land nlen 0x80 =? 0) in
  do _ <- checkWindow end_ alen;
  do afd <- Unpacker.Bytes alen;
  do p <- lift (decodeAPLAFD fam pfx afd);
  ret (items ++ [mkAPLItem fam p neg]).
Definition unpackAPL (rdlen : Z) : U RData :=
  withEnd rdlen (fun end_ => do items <- loopUntil end_ (aplStep end_) []; ret (RD_APL items)).

(** *** ipseckey.go, amtrelay.go: a gateway that is nothing, an address or a
    name, selected by a type octet *)

(** The [switch] of both Pack methods. *)
Definition packGateway (gt : Z) (addr : Addr) (name : Name) (p : Packer.t) : Packer.t :=
  if gt =? 1 then p |> Packer.Raw (As4 addr)
  else if gt =? 2 then p |> Packer.Raw (As16 addr)
  else if gt =? 3 then p |> Packer.NameUncompressed name
  else p.

(** The [switch] of both unpack helpers. *)
Definition unpackGateway (end_ gt : Z) : U (Addr * Name) :=
  if gt =? 0 then ret (AddrZero, zeroName)
  else if gt =? 1 then
    do _ <- checkWindow end_ 4;
    do b <- Unpacker.Bytes 4; ret (AddrFrom4 b, zeroName)
  else if gt =? 2 then
    do _ <- checkWindow end_ 16;
    do b <- Unpacker.Bytes 16; ret (AddrFrom16 b, zeroName)
  else if gt =? 3 then
    do n <- uncompressedNameTo end_; ret (AddrZero, n)
  else fail ErrInvalidRData.

Definition IPSECKEY_Pack (prec gt alg : Z) (gwAddr : Addr) (gwName : Name) (pubkey : bytes)
    (p : Packer.t) : Packer.t :=
  p |> Packer.Uint8 prec |> Packer.Uint8 gt |> Packer.Uint8 alg
    |> packGateway gt gwAddr gwName |> Packer.Raw pubkey.
Definition unpackIPSECKEY (rdlen : Z) : U RData :=
  withEnd rdlen (fun end_ =>
    do prec <- Unpacker.Uint8;
    do gt <- Unpacker.Uint8;
    do alg <- Unpacker.Uint8;
    do gw <- unpackGateway end_ gt;
    do _ <- checkWindow end_ 0;
    do pk <- bytesTo end_;
    ret (RD_IPSECKEY prec gt alg (fst gw) (snd gw) pk)).

Definition AMTRELAY_Pack (prec : Z) (discovery : bool) (rt : Z) (relayAddr : Addr) (relayName : Name)
    (p : Packer.t) : Packer.t :=
  let b := Z.land rt 0x7f in
  let b := if discovery then Z.lor b 0x80 else b in
  p |> Packer.Uint8 prec |> Packer.Uint8 b |> packGateway rt relayAddr relayName.
Definition unpackAMTRELAY (rdlen : Z) : U RData :=
  if rdlen <? 2 then fail ErrInvalidRData
  else withEnd rdlen (fun end_ =>
    do prec <- Unpacker.Uint8;
    do b <- Unpacker.Uint8;
    let discovery := negb (Z.land b 0x80 =? 0) in
    let rt := Z.land b 0x7f in
    do relay <- unpackGateway end_ rt;
    do off <- Unpacker.Off;
    if negb (off =? end_) then fail ErrInvalidRData
    else ret (RD_AMTRELAY prec discovery rt (fst relay) (snd relay))).

(** *** hip.go *)
Definition HIP_Pack (alg : Z) (hit pubkey : bytes) (rvs : list Name) (p : Packer.t) : Packer.t :=
  let p := p |> Packer.Uint8 (to_u8 (zlen hit)) |> Packer.Uint8 alg
             |> Packer.Uint16 (to_u16 (zlen pubkey)) |> Packer.Raw hit |> Packer.Raw pubkey in
  fold_left (fun p rv => Packer.NameUncompressed rv p) rvs p.
Definition NewHIP (alg : Z) (hit pubkey : bytes) (rvs : list Name) : res RData :=
  if 0xff <? zlen hit then Err ErrInvalidRData
  else if 0xffff <? zlen pubkey then Err ErrInvalidRData
  else Ok (RD_HIP alg hit pubkey rvs).
Definition unpackHIP (rdlen : Z) : U RData :=
  withEnd rdlen (fun end_ =>
    do hitLen <- Unpacker.Uint8;
    do alg <- Unpacker.Uint8;
    do pkLen <- Unpacker.Uint16;
    do _ <- checkWindow end_ hitLen;
    do hit <- Unpacker.Bytes hitLen;
    do _ <- checkWindow end_ pkLen;
    do pk <- Unpacker.Bytes pkLen;
    do rvs <- loopUntil end_ (fun rvs => do n <- uncompressedNameTo end_; ret (rvs ++ [n])) [];
    ret (RD_HIP alg hit pk rvs)).

(** *** ilnp.go *)
Definition NID_Pack (pref id : Z) (p : Packer.t) : Packer.t :=
  p |> Packer.Uint16 pref |> Packer.Uint32 (to_u32 (Z.shiftr id 32)) |> Packer.Uint32 (to_u32 id).
Definition unpackNID (rdlen : Z) : U RData :=
  if negb (rdlen =? 10) then fail ErrInvalidRData
  else
    do pref <- Unpacker.Uint16;
    do hi <- Unpacker.Uint32;
    do lo <- Unpacker.Uint32;
    ret (RD_NID pref (Z.lor (Z.shiftl hi 32) lo)).
Definition L32_Pack (pref loc : Z) (p : Packer.t) : Packer.t :=
  p |> Packer.Uint16 pref |> Packer.Uint32 loc.
Definition unpackL32 (rdlen : Z) : U RData :=
  if negb (rdlen =? 6) then fail ErrInvalidRData
  else
    do pref <- Unpacker.Uint16;
    do loc <- Unpacker.Uint32;
    ret (RD_L32 pref loc).
Definition L64_Pack (pref loc : Z) (p : Packer.t) : Packer.t :=
  p |> Packer.Uint16 pref |> Packer.Uint32 (to_u32 (Z.shiftr loc 32)) |> Packer.Uint32 (to_u32 loc).
Definition unpackL64 (rdlen : Z) : U RData :=
  if negb (rdlen =? 10) then fail ErrInvalidRData
  else
    do pref <- Unpacker.Uint16;
    do hi <- Unpacker.Uint32;
    do lo <- Unpacker.Uint32;
    ret (RD_L64 pref (Z.lor (Z.shiftl hi 32) lo)).
Definition LP_Pack (pref : Z) (fqdn : Name) (p : Packer.t) : Packer.t :=
  p |> Packer.Uint16 pref |> Packer.NameUncompressed fqdn.
Definition unpackLP (rdlen : Z) : U RData :=
  withEnd rdlen (fun end_ =>
    do pref <- Unpacker.Uint16;
    do n <- uncompressedNameTo end_;
    ret (RD_LP pref n)).

(** *** uri.go, zonemd.go, sshfp.go, tlsa.go *)
Definition URI_Pack (priority weight : Z) (target : bytes) (p : Packer.t) : Packer.t :=
  p |> Packer.Uint16 priority |> Packer.Uint16 weight |> Packer.Raw target.
Definition unpackURI (rdlen : Z) : U RData :=
  if rdlen <? 5 then fail ErrInvalidRData
  else
    do pr <- Unpacker.Uint16;
    do w <- Unpacker.Uint16;
    do t <- Unpacker.Bytes (rdlen - 4);
    ret (RD_URI pr w t).

Definition validateZONEMDDigestLength (hash n : Z) : bool :=
  if hash =? 1 then n =? 48 else if hash =? 2 then n =? 64 else true.
Definition ZONEMD_Pack (serial scheme hash : Z) (digest : bytes) (p : Packer.t) : Packer.t :=
  p |> Packer.Uint32 serial |> Packer.Uint8 scheme |> Packer.Uint8 hash |> Packer.Raw digest.
Definition NewZONEMD (serial scheme hash : Z) (digest : bytes) : res RData :=
  if negb (validateZONEMDDigestLength hash (zlen digest)) then Err ErrInvalidRData
  else Ok (RD_ZONEMD serial scheme hash digest).
Definition unpackZONEMD (rdlen : Z) : U RData :=
  if rdlen <? 6 then fail ErrInvalidRData
  else
    do serial <- Unpacker.Uint32;
    do scheme <- Unpacker.Uint8;
    do hash <- Unpacker.Uint8;
    do digest <- Unpacker.Bytes (rdlen - 6);
    if negb (validateZONEMDDigestLength hash (zlen digest)) then fail ErrInvalidRData
    else ret (RD_ZONEMD serial scheme hash digest).

Definition SSHFP_Pack (alg fpt : Z) (value : bytes) (p : Packer.t) : Packer.t :=
  p |> Packer.Uint8 alg |> Packer.Uint8 fpt |> Packer.Raw value.
Definition unpackSSHFP (rdlen : Z) : U RData :=
  if rdlen <? 2 then fail ErrInvalidRData
  else
    do alg <- Unpacker.Uint8;
    do fpt <- Unpacker.Uint8;
    do fp <- Unpacker.Bytes (rdlen - 2);
    ret (RD_SSHFP alg fpt fp).

Definition TLSA_Pack (usage selector matching : Z) (data : bytes) (p : Packer.t) : Packer.t :=
  p |> Packer.Uint8 usage |> Packer.Uint8 selector |> Packer.Uint8 matching |> Packer.Raw data.
Definition unpackTLSA (rdlen : Z) : U RData :=
  if rdlen <? 3 then fail ErrInvalidRData
  else
    do usage <- Unpacker.Uint8;
    do selector <- Unpacker.Uint8;
    do matching <- Unpacker.Uint8;
    do data <- Unpacker.Bytes (rdlen - 3);
    ret (RD_TLSA usage selector matching data).
Definition SMIMEA_Pack (usage selector matching : Z) (data : bytes) (p : Packer.t) : Packer.t :=
  p |> Packer.Uint8 usage |> Packer.Uint8 selector |> Packer.Uint8 matching |> Packer.Raw data.
Definition unpackSMIMEA (rdlen : Z) : U RData :=
  if rdlen <? 3 then fail ErrInvalidRData
  else
    do usage <- Unpacker.Uint8;
    do selector <- Unpacker.Uint8;
    do matching <- Unpacker.Uint8;
    do data <- Unpacker.Bytes (rdlen - 3);
    ret (RD_SMIMEA usage selector matching data).

(** *** cds.go, cert.go, tkey.go *)
Definition CDS_Pack (keyTag algorithm digestT : Z) (digest : bytes) (p : Packer.t) : Packer.t :=
  p |> Packer.Uint16 keyTag |> Packer.Uint8 algorithm |> Packer.Uint8 digestT |> Packer.Raw digest.
Definition unpackCDS (rdlen : Z) : U RData :=
  if rdlen <? 4 then fail ErrInvalidRData
  else withEnd rdlen (fun end_ =>
    do tag <- Unpacker.Uint16;
    do alg <- Unpacker.Uint8;
    do dt <- Unpacker.Uint8;
    do dig <- bytesTo end_;
    ret (RD_CDS tag alg dt dig)).
Definition CDNSKEY_Pack (flags protocol algorithm : Z) (pubkey : bytes) (p : Packer.t) : Packer.t :=
  p |> Packer.Uint16 flags |> Packer.Uint8 protocol |> Packer.Uint8 algorithm |> Packer.Raw pubkey.
Definition NewCDNSKEY (flags protocol algorithm : Z) (pubkey : bytes) : res RData :=
  let sentinel := (flags =? 0) && (protocol =? 0) && (algorithm =? 0) in
  if negb sentinel && negb (protocol =? 3) then Err ErrInvalidRData
  else Ok (RD_CDNSKEY flags protocol algorithm pubkey).
Definition unpackCDNSKEY (rdlen : Z) : U RData :=
  if rdlen <? 4 then fail ErrInvalidRData
  else withEnd rdlen (fun end_ =>
    do flags <- Unpacker.Uint16;
    do proto <- Unpacker.Uint8;
    do alg <- Unpacker.Uint8;
    do pk <- bytesTo end_;
    ret (RD_CDNSKEY flags proto alg pk)).
Definition CERT_Pack (certType keyTag algorithm : Z) (cert : bytes) (p : Packer.t) : Packer.t :=
  p |> Packer.Uint16 certType |> Packer.Uint16 keyTag |> Packer.Uint8 algorithm |> Packer.Raw cert.
Definition unpackCERT (rdlen : Z) : U RData :=
  if rdlen <? 5 then fail ErrInvalidRData
  else withEnd rdlen (fun end_ =>
    do ct <- Unpacker.Uint16;
    do tag <- Unpacker.Uint16;
    do alg <- Unpacker.Uint8;
    do cert <- bytesTo end_;
    ret (RD_CERT ct tag alg cert)).
Definition TKEY_Pack (algorithm : Name) (inception expire mode errCode : Z)
    (keyData otherData : bytes) (p : Packer.t) : Packer.t :=
  p |> Packer.NameUncompressed algorithm |> Packer.Uint32 inception |> Packer.Uint32 expire
    |> Packer.Uint16 mode |> Packer.Uint16 errCode
    |> Packer.Uint16 (to_u16 (zlen keyData)) |> Packer.Raw keyData
    |> Packer.Uint16 (to_u16 (zlen otherData)) |> Packer.Raw otherData.
Definition unpackTKEY (rdlen : Z) : U RData :=
  withEnd rdlen (fun end_ =>
    do alg <- uncompressedNameTo end_;
    do inc <- Unpacker.Uint32;
    do exp <- Unpacker.Uint32;
    do mode <- Unpacker.Uint16;
    do ec <- Unpacker.Uint16;
    do klen <- Unpacker.Uint16;
    do _ <- checkWindow end_ klen;
    do kd <- Unpacker.Bytes klen;
    do olen <- Unpacker.Uint16;
    do _ <- checkWindow end_ olen;
    do od <- Unpacker.Bytes olen;
    ret (RD_TKEY alg inc exp mode ec kd od)).

(** ** The interface: Pack and Unpack *)

(** [r.Pack(p)]: the method of the dynamic type. *)
Definition Pack (rd : RData) : Packer.t -> Packer.t :=
  match rd with
  | RD_A addr => A_Pack addr
  | RD_AAAA addr => AAAA_Pack addr
  | RD_CNAME target => CNAME_Pack target
  | RD_NS name => NS_Pack name
  | RD_PTR name => PTR_Pack name
  | RD_MX pref exchange => MX_Pack pref exchange
  | RD_TXT strs => TXT_Pack strs
  | RD_SOA mname rname serial refresh retry expire minimum => SOA_Pack mname rname serial refresh retry expire minimum
  | RD_SVCB body => SVCB_Pack body
  | RD_HTTPS body => HTTPS_Pack body
  | RD_CAA flags tag value => CAA_Pack flags tag value
  | RD_DNSKEY flags protocol algorithm pubkey => DNSKEY_Pack flags protocol algorithm pubkey
  | RD_DS keyTag algorithm digestT digest => DS_Pack keyTag algorithm digestT digest
  | RD_RRSIG typeCovered algorithm labels origTTL sigExp sigInc keyTag signerName signature => RRSIG_Pack typeCovered algorithm labels origTTL sigExp sigInc keyTag signerName signature
  | RD_NSEC next types => NSEC_Pack next types
  | RD_NSEC3 hashAlg flags iterations salt nextOwner types => NSEC3_Pack hashAlg flags iterations salt nextOwner types
  | RD_NSEC3PARAM alg flags iter salt => NSEC3PARAM_Pack alg flags iter salt
  | RD_SRV priority weight port target => SRV_Pack priority weight port target
  | RD_NAPTR order pref flags services regexp replacement => NAPTR_Pack order pref flags services regexp replacement
  | RD_RP mbox txt => RP_Pack mbox txt
  | RD_AFSDB subtype hostname => AFSDB_Pack subtype hostname
  | RD_X25 addr => X25_Pack addr
  | RD_ISDN addr sub hasSub => ISDN_Pack addr sub hasSub
  | RD_RT pref host => RT_Pack pref host
  | RD_NSAP addr => NSAP_Pack addr
  | RD_NSAPPTR owner => NSAPPTR_Pack owner
  | RD_LOC version size horizPre vertPre lat lon alt => LOC_Pack version size horizPre vertPre lat lon alt
  | RD_APL items => APL_Pack items
  | RD_IPSECKEY prec gt alg gwAddr gwName pubkey => IPSECKEY_Pack prec gt alg gwAddr gwName pubkey
  | RD_DHCID data => DHCID_Pack data
  | RD_HIP alg hit pubkey rvs => HIP_Pack alg hit pubkey rvs
  | RD_NID pref id => NID_Pack pref id
  | RD_L32 pref loc => L32_Pack pref loc
  | RD_L64 pref loc => L64_Pack pref loc
  | RD_LP pref fqdn => LP_Pack pref fqdn
  | RD_EUI48 addr => EUI48_Pack addr
  | RD_EUI64 addr => EUI64_Pack addr
  | RD_URI priority weight target => URI_Pack priority weight target
  | RD_ZONEMD serial scheme hash digest => ZONEMD_Pack serial scheme hash digest
  | RD_RESINFO strs => RESINFO_Pack strs
  | RD_SPF strs => SPF_Pack strs
  | RD_SSHFP alg fpt value => SSHFP_Pack alg fpt value
  | RD_TLSA usage selector matching data => TLSA_Pack usage selector matching data
  | RD_SMIMEA usage selector matching data => SMIMEA_Pack usage selector matching data
  | RD_CSYNC soaSerial flags types => CSYNC_Pack soaSerial flags types
  | RD_DNAME target => DNAME_Pack target
  | RD_HINFO cpu os => HINFO_Pack cpu os
  | RD_KX pref exchange => KX_Pack pref exchange
  | RD_CDS keyTag algorithm digestT digest => CDS_Pack keyTag algorithm digestT digest
  | RD_CDNSKEY flags protocol algorithm pubkey => CDNSKEY_Pack flags protocol algorithm pubkey
  | RD_OPENPGPKEY pubkey => OPENPGPKEY_Pack pubkey
  | RD_CERT certType keyTag algorithm cert => CERT_Pack certType keyTag algorithm cert
  | RD_AMTRELAY prec discovery rt relayAddr relayName => AMTRELAY_Pack prec discovery rt relayAddr relayName
  | RD_TKEY algorithm inception expire mode errCode keyData otherData => TKEY_Pack algorithm inception expire mode errCode keyData otherData
  | RD_Unknown _ data => Unknown_Pack data
  end.

(** The package-level [rdata.Pack]: a fresh packer. *)
Definition PackBytes (rd : RData) : bytes := Packer.buf (Pack rd (Packer.NewPacker [])).

Definition unpackTyped (t rdlen : Z) : U RData :=
  if t =? rrtype.A then unpackA rdlen
  else if t =? rrtype.AAAA then unpackAAAA rdlen
  else if t =? rrtype.CNAME then unpackCNAME rdlen
  else if t =? rrtype.NS then unpackNS rdlen
  else if t =? rrtype.PTR then unpackPTR rdlen
  else if t =? rrtype.MX then unpackMX rdlen
  else if t =? rrtype.TXT then unpackTXT rdlen
  else if t =? rrtype.SOA then unpackSOA rdlen
  else if (t =? rrtype.SVCB) || (t =? rrtype.HTTPS) then unpackSVCB t rdlen
  else if t =? rrtype.CAA then unpackCAA rdlen
  else if t =? rrtype.DNSKEY then unpackDNSKEY rdlen
  else if t =? rrtype.DS then unpackDS rdlen
  else if t =? rrtype.RRSIG then unpackRRSIG rdlen
  else if t =? rrtype.NSEC then unpackNSEC rdlen
  else if t =? rrtype.NSEC3 then unpackNSEC3 rdlen
  else if t =? rrtype.NSEC3PARAM then unpackNSEC3PARAM rdlen
  else if t =? rrtype.SRV then unpackSRV rdlen
  else if t =? rrtype.NAPTR then unpackNAPTR rdlen
  else if t =? rrtype.RP then unpackRP rdlen
  else if t =? rrtype.AFSDB then unpackAFSDB rdlen
  else if t =? rrtype.X25 then unpackX25 rdlen
  else if t =? rrtype.ISDN then unpackISDN rdlen
  else if t =? rrtype.RT then unpackRT rdlen
  else if t =? rrtype.NSAP then unpackNSAP rdlen
  else if t =? rrtype.NSAPPTR then unpackNSAPPTR rdlen
  else if t =? rrtype.LOC then unpackLOC rdlen
  else if t =? rrtype.APL then unpackAPL rdlen
  else if t =? rrtype.IPSECKEY then unpackIPSECKEY rdlen
  else if t =? rrtype.DHCID then unpackDHCID rdlen
  else if t =? rrtype.HIP then unpackHIP rdlen
  else if t =? rrtype.NID then unpackNID rdlen
  else if t =? rrtype.L32 then unpackL32 rdlen
  else if t =? rrtype.L64 then unpackL64 rdlen
  else if t =? rrtype.LP then unpackLP rdlen
  else if t =? rrtype.EUI48 then unpackEUI48 rdlen
  else if t =? rrtype.EUI64 then unpackEUI64 rdlen
  else if t =? rrtype.URI then unpackURI rdlen
  else if t =? rrtype.ZONEMD then unpackZONEMD rdlen
  else if t =? rrtype.RESINFO then unpackRESINFO rdlen
  else if t =? rrtype.SPF then unpackSPF rdlen
  else if t =? rrtype.SSHFP then unpackSSHFP rdlen
  else if t =? rrtype.TLSA then unpackTLSA rdlen
  else if t =? rrtype.SMIMEA then unpackSMIMEA rdlen
  else if t =? rrtype.CSYNC then unpackCSYNC rdlen
  else if t =? rrtype.DNAME then unpackDNAME rdlen
  else if t =? rrtype.HINFO then unpackHINFO rdlen
  else if t =? rrtype.KX then unpackKX rdlen
  else if t =? rrtype.CDS then unpackCDS rdlen
  else if t =? rrtype.CDNSKEY then unpackCDNSKEY rdlen
  else if t =? rrtype.OPENPGPKEY then unpackOPENPGPKEY rdlen
  else if t =? rrtype.CERT then unpackCERT rdlen
  else if t =? rrtype.AMTRELAY then unpackAMTRELAY rdlen
  else if t =? rrtype.TKEY then unpackTKEY rdlen
  else do b <- Unpacker.Bytes rdlen; ret (RD_Unknown t b).

(** [rdata.Unpack] *)
Definition Unpack (t rdlen : Z) : U RData :=
  do remaining <- Unpacker.Remaining;
  if (rdlen <? 0) || (remaining <? rdlen) then fail ErrInvalidRData
  else if rdlen =? 0 then ret (RD_Unknown t [])
  else
    do off <- Unpacker.Off;
    let end_ := off + rdlen in
    do r <- unpackTyped t rdlen;
    do off' <- Unpacker.Off;
    if negb (off' =? end_) then fail ErrInvalidRData else ret r.
