(* ===== verification/RDataCodec.v ===== *)
(** * Composing the rdata codecs

    The combinators with which the Pack method and the unpack helper of a
    record type are matched, field by field: [seqops] for the sequence of
    appends, [codec_cons] and its variants for the reads, [rcodec] for a whole
    payload in its window, [minsize] for the least number of bytes written. *)

From S2P Require Import Prelude Name Wire RData.

(** ** Composing a Pack method

    [seqops] lists the appends of a Pack method in order, so that they can be
    matched with the reads of the unpack helper one by one. *)
Definition seqops (ops : list (Packer.t -> Packer.t)) (p : Packer.t) : Packer.t :=
  fold_left (fun p f => f p) ops p.

Lemma codec_nil {A} t (a : A) : codec t (seqops []) (fun _ => Unpacker.ret a) a.
Proof. apply codec_ret. Qed.

Lemma codec_cons {A B} t f fs (r : Z -> U A) (k : Z -> A -> U B) a b :
  codec false f r a -> codec t (seqops fs) (fun e => k e a) b ->
  codec t (seqops (f :: fs)) (fun e => Unpacker.bind (r e) (k e)) b.
Proof. apply (codec_bind t f (seqops fs)). Qed.

(** The last read sees the exact end of the window. *)
Lemma codec_last {A B} f (r : Z -> U A) (g : A -> B) a :
  codec true f r a ->
  codec true (seqops [f]) (fun e => Unpacker.bind (r e) (fun x => Unpacker.ret (g x))) (g a).
Proof. apply codec_map. Qed.

(** A bounds check before [n] bytes that are there. *)
Lemma codec_checked {B} t b fs n (k : Z -> bytes -> U B) v :
  is_bytes b -> n = zlen b -> codec t (seqops fs) (fun e => k e b) v ->
  codec t (seqops (Packer.Raw b :: fs))
    (fun e => Unpacker.bind (checkWindow e n) (fun _ => Unpacker.bind (Unpacker.Bytes n) (k e))) v.
Proof.
  intros Hb -> Hk.
  destruct (codec_cons t (Packer.Raw b) fs _ k b v (codec_checked_bytes false b Hb) Hk) as [Hf Hc].
  split; [done|]. intros p Hp. destruct (Hc p Hp) as [? Hr]. split; [done|].
  intros post e Hpost He Ht. rewrite <- (Hr post e Hpost He Ht).
  unfold checkWindow, Unpacker.bind, Unpacker.Off, Unpacker.ret, Unpacker.fail. cbn [Unpacker.off].
  by split_if.
Qed.

(** A check that the offset has not passed the end. *)
Lemma codec_check0 {B} t op (k : Z -> U B) v :
  codec t op k v ->
  codec t op (fun e => Unpacker.bind (checkWindow e 0) (fun _ => k e)) v.
Proof.
  intros [Hf Hc]. split; [done|]. intros p Hp. destruct (Hc p Hp) as [? Hr]. split; [done|].
  intros post e Hpost He Ht. destruct (frame_app _ p Hf) as [bs Eb].
  assert (zlen (Packer.buf (op p)) = zlen (Packer.buf p) + zlen bs) as Ez by (rewrite Eb; llia).
  unfold checkWindow. unfold Unpacker.bind at 1. unfold Unpacker.bind at 1. unfold Unpacker.Off. cbn [Unpacker.off].
  if_false. cbn [Unpacker.ret]. by apply Hr.
Qed.

(** A pure validation that succeeds. *)
Lemma codec_lift {X B} t op (c : res X) (x : X) (k : Z -> X -> U B) v :
  c = Ok x -> codec t op (fun e => k e x) v ->
  codec t op (fun e => Unpacker.bind (lift c) (k e)) v.
Proof. by intros ->. Qed.

(** ** From a window to an rdata: [rdlen] bytes starting at the offset *)
Definition rcodec (op : Packer.t -> Packer.t) (unp : Z -> U RData) (rd : RData) : Prop :=
  frame op /\ forall p, packer_ok p -> packer_ok (op p) /\
    forall post, is_bytes post ->
      unp (zlen (Packer.buf (op p)) - zlen (Packer.buf p))
        (Unpacker.mk (Packer.buf (op p) ++ post) (zlen (Packer.buf p)))
      = (Ok rd, Unpacker.mk (Packer.buf (op p) ++ post) (zlen (Packer.buf (op p)))).

(** Present a Pack method as [seqops]. *)
Ltac ops_of op acc :=
  lazymatch op with
  | (fun p => p) => acc
  | (fun p => ?f (@?g p)) => ops_of g constr:(f :: acc)
  end.
Ltac to_seqops :=
  match goal with
  | |- codec ?t ?op ?r ?a =>
      let l := ops_of op constr:(@nil (Packer.t -> Packer.t)) in
      change (codec t (seqops l) r a)
  | |- rcodec ?op ?r ?a =>
      let l := ops_of op constr:(@nil (Packer.t -> Packer.t)) in
      change (rcodec (seqops l) r a)
  end.

Lemma rcodec_end op body rd : codec true op body rd -> rcodec op (fun rdlen => withEnd rdlen body) rd.
Proof.
  intros [Hf Hc]. split; [done|]. intros p Hp. destruct (Hc p Hp) as [? Hr]. split; [done|].
  intros post Hpost. unfold withEnd, Unpacker.bind, Unpacker.Off. cbn [Unpacker.off].
  replace (zlen (Packer.buf p) + _) with (zlen (Packer.buf (op p))) by lia.
  apply Hr; [done|llia|done].
Qed.

(** A minimum length that the encoding always has. *)
Definition minsize (n : Z) (op : Packer.t -> Packer.t) : Prop :=
  forall p, n <= zlen (Packer.buf (op p)) - zlen (Packer.buf p).

Lemma rcodec_guard op unp rd k :
  minsize k op -> rcodec op unp rd ->
  rcodec op (fun rdlen => if rdlen <? k then Unpacker.fail ErrInvalidRData else unp rdlen) rd.
Proof.
  intros Hm [Hf Hc]. split; [done|]. intros p Hp. destruct (Hc p Hp) as [? Hr]. split; [done|].
  intros post Hpost. pose proof (Hm p). if_false. by apply Hr.
Qed.

(** A payload of known size. *)
Lemma rcodec_fixed op unp rd n :
  (forall p, zlen (Packer.buf (op p)) - zlen (Packer.buf p) = n) ->
  codec true op (fun _ => unp n) rd -> rcodec op unp rd.
Proof.
  intros Hn [Hf Hc]. split; [done|]. intros p Hp. destruct (Hc p Hp) as [? Hr]. split; [done|].
  intros post Hpost. rewrite Hn. apply (Hr post (zlen (Packer.buf (op p)))); [done|llia|done].
Qed.

Lemma minsize_nil : minsize 0 (seqops []).
Proof. intros p. cbn. lia. Qed.
Lemma minsize_cons n m f fs : minsize n f -> minsize m (seqops fs) -> minsize (n + m) (seqops (f :: fs)).
Proof. intros H1 H2 p. specialize (H1 p). specialize (H2 (f p)). change (seqops (f :: fs) p) with (seqops fs (f p)). lia. Qed.
Lemma minsize_raw b : minsize (zlen b) (Packer.Raw b).
Proof. intros p. cbn. llia. Qed.
Lemma minsize_0 f : frame f -> minsize 0 f.
Proof. intros Hf p. destruct (frame_app f p Hf) as [bs ->]. llia. Qed.
Lemma minsize_le n m f : m <= n -> minsize n f -> minsize m f.
Proof. intros H Hm p. specialize (Hm p). lia. Qed.
Lemma minsize_name n : minsize 1 (Packer.Name n).
Proof.
  intros p. destruct (frame_app _ p (frame_Name n)) as [bs Eb]. rewrite Eb, zlen_app.
  destruct bs; [|llia]. exfalso. revert Eb. rewrite app_nil_r. unfold Packer.Name.
  destruct (Packer.nameWire n) as [|l w] eqn:E.
  { revert E. unfold Packer.nameWire, AppendWire, IsValid. destruct (wire n); [done|].
    rewrite zlen_cons. destruct (_ <? _) eqn:El; [done|]. bool_facts. llia. }
  intros Eb. apply (f_equal zlen) in Eb. revert Eb. cbn [length Packer.Name_loop].
  destruct (l =? 0); [cbn; llia|]. cbv beta zeta.
  assert (forall q, zlen (Packer.buf p) + 1 <= zlen (Packer.buf q) ->
    zlen (Packer.buf (Packer.Name_loop (length w) (drop (Z.to_nat l) w) q)) <> zlen (Packer.buf p)) as Hq.
  { intros q Hq. destruct (frame_app _ q (frame_Name_loop (length w) (drop (Z.to_nat l) w))) as [bs ->]. llia. }
  destruct (_ !! _); [destruct (_ && _); [cbn; llia|]|]; apply Hq;
    cbn; destruct (_ <? _); cbn; llia.
Qed.
Lemma minsize_nameU n : minsize 1 (Packer.NameUncompressed n).
Proof.
  intros p. rewrite NameUncompressed_raw. cbn. unfold AppendWire, IsValid.
  destruct (_ <? _) eqn:E; cbn; bool_facts; llia.
Qed.
