(* ===== verification/TypeBitmap.v ===== *)
(** * Type bitmaps: encodeTypeBitmap and decodeTypeBitmap of rdata/dnssec.go

    The encoder sorts the types, spreads them over 256-bit windows and trims
    the trailing zero octets; the decoder lists the set bits.  Together they
    normalise a list of types to the strictly ascending list of its members. *)

From Stdlib Require Import Sorted.
From S2P Require Import Prelude Name Wire RData RDataCodec.

(** ** Bits of a bitmap, most significant first *)
Definition bitOf (bm : bytes) (j : Z) : bool := Z.testbit (zget bm (j / 8)) (7 - j mod 8).

Lemma land_bit b k : 0 <= k -> (Z.land b (Z.shiftl 1 k) =? 0) = negb (Z.testbit b k).
Proof.
  intros Hk. destruct (Z.testbit b k) eqn:E; cbn.
  - apply Z.eqb_neq. intros H. apply (f_equal (fun z => Z.testbit z k)) in H.
    rewrite Z.land_spec, E, Z.shiftl_spec, Z.sub_diag, Z.bits_0 in H by done. done.
  - apply Z.eqb_eq, Z.bits_inj'. intros n Hn. rewrite Z.land_spec, Z.bits_0, Z.shiftl_1_l.
    destruct (decide (n = k)) as [->|Hne]; [by rewrite E|].
    by rewrite Z.pow2_bits_false, andb_false_r by lia.
Qed.

Lemma zget_cons b bm i : 0 < i -> zget (b :: bm) i = zget bm (i - 1).
Proof.
  intros Hi. unfold zget. by replace (Z.to_nat i) with (S (Z.to_nat (i - 1))) by lia.
Qed.

Lemma bitOf_head b bm j : 0 <= j < 8 -> bitOf (b :: bm) j = Z.testbit b (7 - j).
Proof.
  intros Hj. unfold bitOf. rewrite Z.div_small, Z.mod_small by lia. done.
Qed.

Lemma bitOf_tail b bm j : 8 <= j -> bitOf (b :: bm) j = bitOf bm (j - 8).
Proof.
  intros Hj. unfold bitOf.
  replace (j - 8) with (j + (-1) * 8) by lia. rewrite Z.div_add, Z.mod_add by lia.
  rewrite zget_cons by elia. done.
Qed.

(** The types of a window are the window's number times 256 plus the positions
    of its set bits. *)
Definition setBits (bm : bytes) : list Z :=
  filter (fun j => bitOf bm j = true) (seqZ 0 (8 * zlen bm)).

Lemma lor_window w v : 0 <= v < 256 -> Z.lor (Z.shiftl w 8) v = w * 256 + v.
Proof. intros. by rewrite lor_shiftl_add. Qed.

Lemma byteTypes_bits w i b :
  0 <= i < 32 ->
  byteTypes w i b = map (fun j => w * 256 + (8 * i + j)) (filter (fun j => Z.testbit b (7 - j) = true) (seqZ 0 8)).
Proof.
  intros Hi. unfold byteTypes.
  assert (Forall (fun j => 0 <= j < 8) (seqZ 0 8)) as Hall by decide_now.
  induction Hall as [|j l Hj _ IH]; [done|]. cbn [flat_map]. rewrite IH, filter_cons, land_bit by lia.
  destruct (Z.testbit b (7 - j)); cbn; [|done].
  rewrite lor_window by lia. by replace (i * 8) with (8 * i) by lia.
Qed.

Lemma filter_map {A B} (f : A -> B) (P : B -> Prop) `{!forall x, Decision (P x)} l :
  filter P (map f l) = map f (filter (fun x => P (f x)) l).
Proof.
  induction l as [|x l IH]; [done|]. cbn [map]. rewrite !filter_cons, IH. by case_decide.
Qed.

Lemma filter_ext_in {A} (P Q : A -> Prop) `{!forall x, Decision (P x)} `{!forall x, Decision (Q x)} (l : list A) :
  (forall x, x ∈ l -> P x <-> Q x) -> filter P l = filter Q l.
Proof.
  induction l as [|x l IH]; intros Hiff; [done|]. rewrite !filter_cons.
  rewrite IH by (intros y Hy; apply Hiff; by right).
  destruct (Hiff x ltac:(left)) as [? ?]. repeat case_decide; tauto || (f_equal; tauto).
Qed.

Lemma setBits_cons b bm :
  setBits (b :: bm) = filter (fun j => Z.testbit b (7 - j) = true) (seqZ 0 8) ++ map (Z.add 8) (setBits bm).
Proof.
  unfold setBits. rewrite zlen_cons.
  replace (8 * (1 + zlen bm)) with (8 + 8 * zlen bm) by lia.
  rewrite seqZ_app, filter_app by (pose proof (zlen_nonneg bm); lia). apply (f_equal2 app).
  - apply filter_ext_in. intros x Hx. apply elem_of_seqZ in Hx. by rewrite bitOf_head by lia.
  - assert (seqZ (0 + 8) (8 * zlen bm) = map (Z.add 8) (seqZ 0 (8 * zlen bm))) as ->
      by (symmetry; apply (fmap_add_seqZ 8 0)).
    rewrite filter_map. f_equal.
    apply filter_ext_in. intros x Hx. apply elem_of_seqZ in Hx.
    rewrite bitOf_tail by lia. by replace (8 + x - 8) with x by lia.
Qed.

Lemma windowTypes_bits w i bm :
  0 <= i -> i + zlen bm <= 32 ->
  windowTypes w i bm = map (fun j => w * 256 + (8 * i + j)) (setBits bm).
Proof.
  revert i. induction bm as [|b bm IH]; intros i Hi Hl; [done|]. rewrite zlen_cons in Hl.
  cbn [windowTypes]. rewrite setBits_cons, map_app, byteTypes_bits, IH
    by (pose proof (zlen_nonneg bm); lia).
  rewrite map_map. f_equal. apply map_ext. intros j. lia.
Qed.

Lemma zget_insert bm i v j :
  0 <= i < zlen bm -> 0 <= j -> zget (<[Z.to_nat i := v]> bm) j = if i =? j then v else zget bm j.
Proof.
  intros Hi Hj. unfold zget, zlen in *. destruct (i =? j) eqn:E; bool_facts.
  - subst. by rewrite list_lookup_insert_eq by lia.
  - by rewrite list_lookup_insert_ne by lia.
Qed.

Lemma bitOf_setBitmap bm bit j :
  0 <= bit < 8 * zlen bm -> 0 <= j -> bitOf (setBitmap bm bit) j = bitOf bm j || (bit =? j).
Proof.
  intros Hb Hj. unfold bitOf, setBitmap. rewrite zget_insert by elia.
  destruct (bit / 8 =? j / 8) eqn:E; bool_facts.
  - rewrite E, Z.lor_spec, Z.shiftl_1_l. f_equal.
    rewrite Z.pow2_bits_eqb by elia. apply eq_true_iff_eq. rewrite !Z.eqb_eq. elia.
  - replace (bit =? j) with false; [by rewrite orb_false_r|].
    symmetry. apply Z.eqb_neq. intros ->. done.
Qed.

Lemma elem_of_setBits bm j : j ∈ setBits bm <-> bitOf bm j = true /\ 0 <= j < 8 * zlen bm.
Proof. unfold setBits. rewrite list_elem_of_filter, elem_of_seqZ. by rewrite Z.add_0_l. Qed.

(** ** Buckets *)

Definition bucketTypes (b : bucket) : list Z := windowTypes (win b) 0 (bitmap b).
Definition bucket_ok (b : bucket) : Prop :=
  u8 (win b) /\ length (bitmap b) = 32%nat /\ is_bytes (bitmap b).

Lemma elem_of_bucketTypes b t :
  zlen (bitmap b) <= 32 ->
  t ∈ bucketTypes b <-> exists j, t = win b * 256 + j /\ bitOf (bitmap b) j = true /\ 0 <= j < 8 * zlen (bitmap b).
Proof.
  intros Hl. unfold bucketTypes. rewrite windowTypes_bits by lia.
  change (map ?f ?l) with (f <$> l). rewrite list_elem_of_fmap.
  split; intros (j & E & Hj); exists j; rewrite elem_of_setBits in *; split; try done; lia.
Qed.

Lemma setBitmap_ok bm bit :
  0 <= bit < 256 -> length bm = 32%nat -> is_bytes bm ->
  length (setBitmap bm bit) = 32%nat /\ is_bytes (setBitmap bm bit).
Proof.
  intros Hbit Hl Hb. unfold setBitmap. split; [by rewrite length_insert|].
  apply Forall_insert; [done|].
  assert (u8 (zget bm (bit / 8))) as Hu.
  { unfold zget. destruct (lookup_lt_is_Some_2 bm (Z.to_nat (bit / 8))) as [x Hx]; [elia|].
    rewrite Hx. by eapply Forall_lookup_1 in Hx. }
  assert (0 <= 7 - bit mod 8 < 8) as Hk by elia. revert Hk. generalize (7 - bit mod 8). intros k Hk.
  unfold u8 in *. rewrite Z.shiftl_1_l. split; [rewrite Z.lor_nonneg; lia|].
  apply Z.log2_lt_cancel. change (Z.log2 256) with 8.
  rewrite Z.log2_lor, Z.log2_pow2 by lia.
  assert (Z.log2 (zget bm (bit / 8)) <= 7) by (change 7 with (Z.log2 255); apply Z.log2_le_mono; lia). lia.
Qed.

Lemma addType_ok bs w bit :
  u8 w -> u8 bit -> Forall bucket_ok bs -> Forall bucket_ok (addType bs w bit).
Proof.
  intros Hw Hbit. induction 1 as [|b bs (Hb1 & Hb2 & Hb3) Hbs IH]; cbn [addType].
  - constructor; [|done]. destruct (setBitmap_ok (replicate 32 0) bit); [done|done|decide_now|].
    by split_and!.
  - destruct (_ =? _).
    + constructor; [|done]. destruct (setBitmap_ok (bitmap b) bit); [done..|]. by split_and!.
    + by constructor.
Qed.

Lemma bucketTypes_set w bm bit t :
  u8 bit -> length bm = 32%nat ->
  t ∈ bucketTypes (mkBucket w (setBitmap bm bit)) <-> t ∈ bucketTypes (mkBucket w bm) \/ t = w * 256 + bit.
Proof.
  unfold u8. intros Hbit Hl.
  assert (length (setBitmap bm bit) = 32%nat) as Hl' by (unfold setBitmap; by rewrite length_insert).
  rewrite !elem_of_bucketTypes by (unfold zlen; cbn; lia).
  cbn [win bitmap]. unfold zlen. rewrite Hl, Hl'. split.
  - intros (j & -> & Hj & Hr). rewrite bitOf_setBitmap in Hj by (unfold zlen; lia).
    apply orb_true_iff in Hj as [Hj|Hj]; [left; by exists j|right; bool_facts; by subst].
  - intros [(j & -> & Hj & Hr)| ->]; [exists j|exists bit]; (split; [done|]); (split; [|lia]);
      rewrite bitOf_setBitmap by (unfold zlen; lia); apply orb_true_iff; [by left|right; by apply Z.eqb_eq].
Qed.

Lemma bucketTypes_new w t : t ∉ bucketTypes (mkBucket w (replicate 32 0)).
Proof.
  rewrite elem_of_bucketTypes by done. intros (j & _ & Hj & Hr). revert Hj. cbn [bitmap] in *.
  unfold bitOf, zget. destruct (_ !! _) eqn:E; cbn; [|by rewrite Z.bits_0].
  apply lookup_replicate_1 in E as [-> _]. by rewrite Z.bits_0.
Qed.

(** All types of a list of buckets. *)
Abbreviation allTypes := (flat_map bucketTypes).

Lemma elem_of_allTypes_cons b bs t : t ∈ allTypes (b :: bs) <-> t ∈ bucketTypes b \/ t ∈ allTypes bs.
Proof. cbn [flat_map]. apply elem_of_app. Qed.

Lemma addType_elem bs w bit t :
  u8 bit -> Forall bucket_ok bs ->
  t ∈ allTypes (addType bs w bit) <-> t ∈ allTypes bs \/ t = w * 256 + bit.
Proof.
  intros Hbit. induction 1 as [|b bs (Hb1 & Hb2 & Hb3) Hbs IH]; cbn [addType].
  - rewrite elem_of_allTypes_cons, bucketTypes_set by done.
    pose proof (bucketTypes_new w t). rewrite elem_of_nil. tauto.
  - destruct (_ =? _) eqn:E; bool_facts; rewrite !elem_of_allTypes_cons; [|rewrite IH; tauto].
    rewrite bucketTypes_set by done. subst w. destruct b; cbn. tauto.
Qed.

(** Adding types in ascending order keeps the windows strictly ascending. *)
Lemma addType_sorted bs w bit :
  StronglySorted Z.lt (map win bs) -> Forall (fun b => win b <= w) bs ->
  StronglySorted Z.lt (map win (addType bs w bit)) /\ Forall (fun b => win b <= w) (addType bs w bit).
Proof.
  induction bs as [|b bs IH]; cbn [addType map]; intros Hs Hle.
  - split; [by repeat constructor|]. constructor; [cbn; lia|done].
  - apply StronglySorted_inv in Hs as [Hs Hb]. apply Forall_cons in Hle as [Hbw Hle].
    destruct (_ =? _) eqn:E; bool_facts; cbn [map win].
    + subst w. split; [by constructor|]. by constructor.
    + destruct (IH Hs Hle) as [IH1 IH2]. split; [|by constructor]. constructor; [done|].
      clear IH IH1 IH2 Hs. induction bs as [|c bs IH]; cbn [addType map].
      * constructor; [cbn; lia|done].
      * cbn [map] in Hb. apply Forall_cons in Hb as [? Hb]. apply Forall_cons in Hle as [? Hle].
        destruct (_ =? _); cbn [map win]; constructor; try done; [cbn in *; lia|by apply IH].
Qed.

(** ** Sorting *)

Lemma insertSorted_elem x l t : t ∈ insertSorted x l <-> t = x \/ t ∈ l.
Proof.
  induction l as [|y l IH]; cbn [insertSorted]; [set_solver|].
  destruct (_ <=? _); rewrite ?elem_of_cons; [done|]. rewrite IH. tauto.
Qed.

Lemma sortTypes_elem l t : t ∈ sortTypes l <-> t ∈ l.
Proof.
  induction l as [|x l IH]; [done|]. cbn [sortTypes foldr]. fold (sortTypes l).
  by rewrite insertSorted_elem, IH, elem_of_cons.
Qed.

Lemma sortTypes_sorted l : StronglySorted Z.le (sortTypes l).
Proof.
  induction l as [|x l IH]; [constructor|]. cbn [sortTypes foldr]. fold (sortTypes l).
  induction IH as [|y l' Hs IH Hy]; cbn [insertSorted]; [by repeat constructor|].
  destruct (_ <=? _) eqn:E; bool_facts.
  - constructor; [by constructor|]. constructor; [done|]. eapply Forall_impl; [done|]. cbn. lia.
  - constructor; [done|]. apply Forall_forall. intros t Ht.
    apply insertSorted_elem in Ht as [->|Ht]; [lia|]. by eapply Forall_forall in Hy.
Qed.

(** A strictly ascending list is determined by its members. *)
Lemma sorted_lt_ext l k :
  StronglySorted Z.lt l -> StronglySorted Z.lt k -> (forall t, t ∈ l <-> t ∈ k) -> l = k.
Proof.
  intros Hl. revert k. induction Hl as [|x l Hl IH Hx]; intros [|y k] Hk Hext.
  - done.
  - exfalso. apply (not_elem_of_nil y), Hext. by left.
  - exfalso. apply (not_elem_of_nil x), Hext. by left.
  - apply StronglySorted_inv in Hk as [Hk Hy]. rewrite Forall_forall in Hx, Hy.
    assert (x = y) as ->.
    { destruct (proj1 (elem_of_cons _ _ _) (proj1 (Hext x) ltac:(left))) as [|Hx'], (proj1 (elem_of_cons _ _ _) (proj2 (Hext y) ltac:(left))) as [|Hy']; try done.
      specialize (Hy _ Hx'). specialize (Hx _ Hy'). lia. }
    f_equal. apply IH; [done|]. intros t. specialize (Hext t). rewrite !elem_of_cons in Hext.
    destruct (decide (t = y)) as [->|]; [|tauto].
    split; intros Ht; exfalso; [specialize (Hx _ Ht)|specialize (Hy _ Ht)]; lia.
Qed.

Definition buckets_ok (bs : list bucket) : Prop :=
  Forall bucket_ok bs /\ StronglySorted Z.lt (map win bs).



Lemma typeSplit_ok t :
  u16 t -> to_u8 (Z.shiftr t 8) = t / 256 /\ Z.land t 0xff = t mod 256.
Proof.
  unfold u16, to_u8. intros Ht. rewrite Z.shiftr_div_pow2 by done. change (2 ^ 8) with 256.
  split; [apply Z.mod_small; elia|]. change 0xff with (Z.ones 8). by rewrite Z.land_ones.
Qed.

Lemma fold_addType l bs :
  Forall u16 l -> StronglySorted Z.le l -> buckets_ok bs ->
  (forall b t, b ∈ bs -> t ∈ l -> win b <= t / 256) ->
  let bs' := fold_left (fun bs t => addType bs (to_u8 (Z.shiftr t 8)) (Z.land t 0xff)) l bs in
  buckets_ok bs' /\ forall t, t ∈ allTypes bs' <-> t ∈ allTypes bs \/ t ∈ l.
Proof.
  intros Hl Hs. revert bs. induction Hs as [|x l Hs IH Hx]; intros bs [Hok Hw] Hle; cbn [fold_left].
  { split; [done|]. intros t. rewrite elem_of_nil. tauto. }
  apply Forall_cons in Hl as [Hux Hl]. destruct (typeSplit_ok x Hux) as [-> ->].
  assert (u8 (x / 256) /\ u8 (x mod 256)) as [Hq Hr] by (unfold u8, u16 in *; elia).
  destruct (addType_sorted bs (x / 256) (x mod 256) Hw) as [Hw' Hle'].
  { apply Forall_forall. intros b Hb. by apply Hle; [|left]. }
  destruct (IH Hl (addType bs (x / 256) (x mod 256))) as [IH1 IH2].
  - split; [by apply addType_ok|done].
  - intros b t Hb Ht. rewrite Forall_forall in Hle'. rewrite Forall_forall in Hx. specialize (Hle' _ Hb). specialize (Hx _ Ht).
    cbn in Hle'. elia.
  - split; [done|]. intros t. rewrite IH2, addType_elem, elem_of_cons by done.
    replace (x / 256 * 256 + x mod 256) with x by elia. tauto.
Qed.

Lemma typeBuckets_spec types :
  Forall u16 types ->
  buckets_ok (typeBuckets types) /\ forall t, t ∈ allTypes (typeBuckets types) <-> t ∈ types.
Proof.
  intros H. destruct (fold_addType (sortTypes types) []) as [H1 H2].
  - rewrite Forall_forall in *. intros t Ht. by apply H, sortTypes_elem.
  - apply sortTypes_sorted.
  - split; constructor.
  - intros b t Hb. by apply not_elem_of_nil in Hb.
  - split; [done|]. intros t. unfold typeBuckets. rewrite H2, sortTypes_elem, elem_of_nil. tauto.
Qed.

(** The listing of a window, and of ascending windows, is ascending. *)
Lemma seqZ_sorted m n : StronglySorted Z.lt (seqZ m n).
Proof.
  destruct (Z.le_gt_cases n 0); [by rewrite seqZ_nil; [constructor|]|].
  rewrite <- (Z2Nat.id n) by lia. generalize (Z.to_nat n). clear. intros k. revert m.
  induction k as [|k IH]; intros m; [constructor|]. rewrite seqZ_cons by lia.
  replace (Z.pred (Z.of_nat (S k))) with (Z.of_nat k) by lia. constructor; [apply IH|].
  apply Forall_forall. intros t Ht. apply elem_of_seqZ in Ht. lia.
Qed.

Lemma sorted_filter (P : Z -> Prop) `{!forall x, Decision (P x)} l :
  StronglySorted Z.lt l -> StronglySorted Z.lt (filter P l).
Proof.
  induction 1 as [|x l Hl IH Hx]; [constructor|]. rewrite filter_cons. case_decide; [|done].
  constructor; [done|]. apply Forall_forall. intros t Ht. apply list_elem_of_filter in Ht as [_ Ht].
  by eapply Forall_forall in Hx.
Qed.

Lemma sorted_shift c l : StronglySorted Z.lt l -> StronglySorted Z.lt (map (fun j => c + (8 * 0 + j)) l).
Proof.
  induction 1 as [|x l Hl IH Hx]; [constructor|]. cbn [map]. constructor; [done|].
  apply List.Forall_map. eapply Forall_impl; [done|]. cbn. lia.
Qed.

Lemma bucketTypes_sorted b : bucket_ok b -> StronglySorted Z.lt (bucketTypes b).
Proof.
  intros (_ & Hl & _). unfold bucketTypes. rewrite windowTypes_bits by (unfold zlen; lia).
  by apply sorted_shift, sorted_filter, seqZ_sorted.
Qed.

Lemma bucketTypes_range b t : bucket_ok b -> t ∈ bucketTypes b -> win b * 256 <= t < win b * 256 + 256.
Proof.
  intros (_ & Hl & _). rewrite elem_of_bucketTypes by (unfold zlen; lia).
  intros (j & -> & _ & Hj). unfold zlen in Hj. lia.
Qed.

Lemma sorted_app l k :
  StronglySorted Z.lt l -> StronglySorted Z.lt k -> (forall x y, x ∈ l -> y ∈ k -> x < y) ->
  StronglySorted Z.lt (l ++ k).
Proof.
  intros Hl Hk. induction Hl as [|x l Hl IH Hx]; intros H; [done|]. cbn. constructor.
  - apply IH. intros a c Ha Hc. apply H; [by right|done].
  - apply Forall_app. split; [done|]. apply Forall_forall. intros y Hy. by apply H; [left|].
Qed.

Lemma allTypes_sorted bs : buckets_ok bs -> StronglySorted Z.lt (allTypes bs).
Proof.
  intros [Hok Hs]. induction Hok as [|b bs Hb Hbs IH]; [constructor|]. cbn [map] in Hs.
  apply StronglySorted_inv in Hs as [Hs Hlt]. cbn [flat_map].
  apply sorted_app; [by apply bucketTypes_sorted|by apply IH|].
  intros x y Hx Hy. apply (bucketTypes_range b x Hb) in Hx.
  apply list_elem_of_In, in_flat_map in Hy as (c & Hc & Hy%list_elem_of_In). apply list_elem_of_In in Hc.
  apply (bucketTypes_range c y) in Hy; [|by eapply Forall_forall in Hbs].
  apply (proj1 (List.Forall_map _ _ _)) in Hlt. rewrite Forall_forall in Hlt. specialize (Hlt _ Hc). cbn in Hlt. lia.
Qed.

(** ** Trimming *)

Lemma windowTypes_app w i a b :
  windowTypes w i (a ++ b) = windowTypes w i a ++ windowTypes w (i + zlen a) b.
Proof.
  revert i. induction a as [|x a IH]; intros i; cbn [windowTypes app].
  - by rewrite zlen_nil, Z.add_0_r.
  - rewrite IH, zlen_cons, <- app_assoc. by replace (i + 1 + zlen a) with (i + (1 + zlen a)) by lia.
Qed.

Lemma windowTypes_zeros w i l : Forall (eq 0) l -> windowTypes w i l = [].
Proof. intros H. revert i. induction H as [|? l <- _ IH]; intros i; [done|]. cbn [windowTypes]. by rewrite IH. Qed.

Lemma trimLen_spec n bm :
  length bm = S n -> let k := trimLen (S n) bm in
  (1 <= k <= S n)%nat /\ Forall (eq 0) (drop k bm).
Proof.
  intros Hl. assert (forall m, (m <= n)%nat -> Forall (eq 0) (drop (S m) bm) ->
    let k := trimLen (S m) bm in (1 <= k <= S m)%nat /\ Forall (eq 0) (drop k bm)) as H.
  { induction m as [|m IH]; intros Hm Hz; [cbn; split; [lia|done]|].
    change (trimLen (S (S m)) bm) with (if zget bm (Z.of_nat (S m)) =? 0 then trimLen (S m) bm else S (S m)).
    destruct (_ =? _) eqn:E; [|split; [lia|done]]. bool_facts.
    destruct IH as [? ?]; [lia| |split; [lia|done]].
    destruct (lookup_lt_is_Some_2 bm (S m)) as [x Hx]; [lia|].
    rewrite (drop_S _ x) by done. constructor; [|done].
    unfold zget in E. rewrite Nat2Z.id, Hx in E. by cbn in E. }
  apply H; [lia|]. rewrite drop_ge by lia. constructor.
Qed.

Lemma codec_bucket b out lastWin first :
  bucket_ok b -> first = true \/ lastWin < win b ->
  codec false (packBucket b) (fun e => bitmapStep e (out, lastWin, first)) (out ++ bucketTypes b, win b, false).
Proof.
  intros (Hw & Hl & Hb) Hfirst.
  destruct (trimLen_spec 31 (bitmap b) Hl) as [Hk Hz]. unfold packBucket. cbv zeta.
  set (ln := trimLen 32 (bitmap b)) in *.
  assert (zlen (take ln (bitmap b)) = Z.of_nat ln) as Hln by (unfold zlen; rewrite length_take; lia).
  assert (bucketTypes b = windowTypes (win b) 0 (take ln (bitmap b))) as ->.
  { unfold bucketTypes. rewrite <- (take_drop ln (bitmap b)) at 1.
    by rewrite windowTypes_app, (windowTypes_zeros _ _ _ Hz), app_nil_r. }
  to_seqops. unfold bitmapStep.
  eapply codec_cons; [by apply codec_u8|]. cbn beta.
  replace (negb first && (win b <=? lastWin)) with false.
  2: { symmetry. apply andb_false_iff. destruct Hfirst as [->|]; [by left|right]. by apply Z.leb_gt. }
  eapply codec_cons; [apply codec_u8; unfold u8; lia|]. cbn beta. if_false.
  apply codec_checked; [by apply Forall_take|done|]. apply codec_nil.
Qed.

Lemma progress_bucket b : progress (packBucket b).
Proof. intros p. cbn. llia. Qed.

(** What the loop accumulates. *)
Definition bitmapAcc (st : list Z * Z * bool) (b : bucket) : list Z * Z * bool :=
  (fst (fst st) ++ bucketTypes b, win b, false).

Lemma fold_bitmapAcc bs st : fst (fst (fold_left bitmapAcc bs st)) = fst (fst st) ++ allTypes bs.
Proof.
  revert st. induction bs as [|b bs IH]; intros st; cbn [fold_left flat_map]; [by rewrite app_nil_r|].
  rewrite IH. cbn. by rewrite app_assoc.
Qed.

Lemma bitmap_loop_ok bs out lastWin first :
  buckets_ok bs -> first = true \/ Forall (fun b => lastWin < win b) bs ->
  loop_ok packBucket bitmapStep bitmapAcc (out, lastWin, first) bs.
Proof.
  intros [Hok Hs]. revert out lastWin first. induction Hok as [|b bs Hb Hbs IH]; intros out lw first Hf; [done|].
  cbn [map] in Hs. apply StronglySorted_inv in Hs as [Hs Hlt]. cbn [loop_ok]. split_and!.
  - apply codec_bucket; [done|]. destruct Hf as [|Hf]; [by left|right]. by apply Forall_cons in Hf as [? _].
  - apply progress_bucket.
  - apply IH; [done|]. right. by apply (proj1 (List.Forall_map _ _ _)) in Hlt.
Qed.

(** Encoding a list of types and decoding it. *)
Definition normTypes (types : list Z) : list Z := allTypes (typeBuckets types).

Lemma codec_typeBitmap types :
  Forall u16 types -> codec true (encodeTypeBitmap types) decodeTypeBitmap (normTypes types).
Proof.
  intros Hu. destruct (typeBuckets_spec types Hu) as [Hok _].
  assert (encodeTypeBitmap types = fun p => fold_left (fun p b => packBucket b p) (typeBuckets types) p) as ->.
  { clear. unfold encodeTypeBitmap. destruct types; [reflexivity|]. rewrite zlen_cons. if_false. reflexivity. }
  unfold decodeTypeBitmap, normTypes.
  assert (allTypes (typeBuckets types) = fst (fst (fold_left bitmapAcc (typeBuckets types) ([], -1, true)))) as ->
    by (by rewrite fold_bitmapAcc).
  apply (codec_map true _ _ (fun st : list Z * Z * bool => fst (fst st))). apply (codec_loop packBucket bitmapStep). apply bitmap_loop_ok; [done|by left].
Qed.

Lemma normTypes_elem types t : Forall u16 types -> t ∈ normTypes types <-> t ∈ types.
Proof. intros Hu. by apply typeBuckets_spec. Qed.

Lemma normTypes_sorted types : Forall u16 types -> StronglySorted Z.lt (normTypes types).
Proof. intros Hu. apply allTypes_sorted. by apply typeBuckets_spec. Qed.

Lemma normTypes_id types : Forall u16 types -> StronglySorted Z.lt types -> normTypes types = types.
Proof.
  intros Hu Hs. apply sorted_lt_ext; [by apply normTypes_sorted|done|].
  intros t. by apply normTypes_elem.
Qed.

(** ** The claim *)

(** Decoding an encoded type bitmap (NSEC, NSEC3, CSYNC) consumes exactly
    the encoding, wherever it was written and whatever follows it, and yields
    the strictly ascending list that has exactly the members of the list that
    was encoded: duplicates are dropped and order is normalised, no type is
    lost or invented. *)
Theorem type_bitmap_roundtrip types p post :
  Forall u16 types -> packer_ok p -> is_bytes post ->
  let p' := encodeTypeBitmap types p in
  exists out,
    decodeTypeBitmap (zlen (Packer.buf p')) (Unpacker.mk (Packer.buf p' ++ post) (zlen (Packer.buf p)))
      = (Ok out, Unpacker.mk (Packer.buf p' ++ post) (zlen (Packer.buf p'))) /\
    StronglySorted Z.lt out /\ forall t, t ∈ out <-> t ∈ types.
Proof.
  intros Hu Hp Hpost p'. subst p'. exists (normTypes types). split_and!.
  - destruct (codec_typeBitmap types Hu) as [_ Hc]. apply (Hc p Hp); [done|llia|done].
  - by apply normTypes_sorted.
  - intros t. by apply normTypes_elem.
Qed.

(** NS, SOA, RRSIG, DNSKEY and CAA, unsorted and with a duplicate, behind four
    bytes. *)
Lemma type_bitmap_roundtrip_witness :
  exists out,
    decodeTypeBitmap 16 (Unpacker.mk (Packer.buf (encodeTypeBitmap [257; 48; 2; 6; 46; 2]
      (Packer.mk [1; 2; 3; 4] ∅)) ++ [9]) 4)
      = (Ok out, Unpacker.mk [1; 2; 3; 4; 0; 7; 34; 0; 0; 0; 0; 2; 128; 1; 1; 64; 9] 16) /\
    StronglySorted Z.lt out /\ forall t, t ∈ out <-> t ∈ [257; 48; 2; 6; 46; 2].
Proof.
  apply (type_bitmap_roundtrip [257; 48; 2; 6; 46; 2] (Packer.mk [1; 2; 3; 4] ∅) [9]).
  - decide_now.
  - split; [|decide_now]. intros s ptr E. cbn [Packer.comp] in E. by rewrite lookup_empty in E.
  - decide_now.
Defined.
