(* ===== verification/RDataRoundtrip.v ===== *)
(** * Round trips of the rdata codecs

    [rd_ok] says which payloads the wire format can express; [rdata_roundtrip]
    shows that packing one, anywhere in a message, and unpacking it gives it
    back.  Each type is a few applications of the codec lemmas. *)

From Stdlib Require Import Sorted.
From S2P Require Import Prelude Name Wire RData RDataCodec TypeBitmap.

(** ** Payloads in normal form *)

Definition str_ok (s : bytes) : Prop := is_bytes s /\ zlen s <= 255.
Definition strs_ok (l : list bytes) : Prop := Forall str_ok l /\ l <> [].
Definition types_ok (l : list Z) : Prop := Forall u16 l /\ StronglySorted Z.lt l.
Definition addr4_ok (a : Addr) : Prop := exists b, a = Addr4 b /\ is_bytes b /\ zlen b = 4.
Definition addr6_ok (a : Addr) : Prop := exists b, a = Addr6 b [] /\ is_bytes b /\ zlen b = 16.
Definition secs_ok (d : Z) : Prop := exists s, d = s * Second /\ u32 s.
Definition blob_ok (b : bytes) : Prop := is_bytes b /\ b <> [].

Definition param_ok (p : SVCBParam) : Prop := u16 (key p) /\ is_bytes (data p) /\ u16 (zlen (data p)).
Definition svcb_ok (s : svcbBody) : Prop :=
  u16 (svcb_priority s) /\ canonical (svcb_target s) /\ Forall param_ok (params s) /\
  StronglySorted Z.lt (map key (params s)) /\
  validateAll (params s) = Ok tt /\ validateMandatoryParam (params s) = Ok tt.

Definition apl_ok (it : APLItem) : Prop :=
  (family it = 1 /\ addr4_ok (pfx_addr (prefix it)) /\ 0 <= pfx_bits (prefix it) <= 32) \/
  (family it = 2 /\ addr6_ok (pfx_addr (prefix it)) /\ 0 <= pfx_bits (prefix it) <= 128).

Definition gateway_ok (gt : Z) (a : Addr) (n : Name) : Prop :=
  (gt = 0 /\ a = AddrZero /\ n = zeroName) \/ (gt = 1 /\ addr4_ok a /\ n = zeroName) \/
  (gt = 2 /\ addr6_ok a /\ n = zeroName) \/ (gt = 3 /\ a = AddrZero /\ canonical n).

(** The types [rdata.Unpack] has a case for. *)
Definition knownTypes : list Z :=
  [rrtype.A; rrtype.AAAA; rrtype.CNAME; rrtype.NS; rrtype.PTR; rrtype.MX; rrtype.TXT; rrtype.SOA;
   rrtype.SVCB; rrtype.HTTPS; rrtype.CAA; rrtype.DNSKEY; rrtype.DS; rrtype.RRSIG; rrtype.NSEC;
   rrtype.NSEC3; rrtype.NSEC3PARAM; rrtype.SRV; rrtype.NAPTR; rrtype.RP; rrtype.AFSDB; rrtype.X25;
   rrtype.ISDN; rrtype.RT; rrtype.NSAP; rrtype.NSAPPTR; rrtype.LOC; rrtype.APL; rrtype.IPSECKEY;
   rrtype.DHCID; rrtype.HIP; rrtype.NID; rrtype.L32; rrtype.L64; rrtype.LP; rrtype.EUI48;
   rrtype.EUI64; rrtype.URI; rrtype.ZONEMD; rrtype.RESINFO; rrtype.SPF; rrtype.SSHFP; rrtype.TLSA;
   rrtype.SMIMEA; rrtype.CSYNC; rrtype.DNAME; rrtype.HINFO; rrtype.KX; rrtype.CDS; rrtype.CDNSKEY;
   rrtype.OPENPGPKEY; rrtype.CERT; rrtype.AMTRELAY; rrtype.TKEY].

(** A payload the wire format can express: every field in the range of its Go
    type and of its length prefix, lists in the order the decoder produces, and no encoding that is
    empty, which RFC 2136 gives another meaning; [NP] is required of the names
    that are packed with compression. *)
Definition rd_okP (NP : Name -> Prop) (rd : RData) : Prop :=
  match rd with
  | RD_A a => addr4_ok a
  | RD_AAAA a => addr6_ok a
  | RD_CNAME n | RD_NS n | RD_PTR n | RD_NSAPPTR n => NP n
  | RD_MX pref n => u16 pref /\ NP n
  | RD_TXT strs | RD_SPF strs | RD_RESINFO strs => strs_ok strs
  | RD_SOA mname rname serial refresh retry expire minimum =>
      NP mname /\ NP rname /\ u32 serial /\
      secs_ok refresh /\ secs_ok retry /\ secs_ok expire /\ secs_ok minimum
  | RD_SVCB body | RD_HTTPS body => svcb_ok body
  | RD_CAA flags tag value =>
      u8 flags /\ 0 < zlen tag <= 15 /\ is_bytes tag /\ forallb isAlnum tag = true /\ is_bytes value
  | RD_DNSKEY flags protocol algorithm pubkey =>
      u16 flags /\ protocol = 3 /\ u8 algorithm /\ is_bytes pubkey
  | RD_DS keyTag algorithm digestT digest | RD_CDS keyTag algorithm digestT digest =>
      u16 keyTag /\ u8 algorithm /\ u8 digestT /\ is_bytes digest
  | RD_RRSIG tc alg labels origTTL sigExp sigInc keyTag signer signature =>
      u16 tc /\ u8 alg /\ u8 labels /\ u32 origTTL /\ u32 sigExp /\ u32 sigInc /\ u16 keyTag /\
      canonical signer /\ is_bytes signature
  | RD_NSEC next types => canonical next /\ types_ok types
  | RD_NSEC3 alg flags iters salt nextOwner types =>
      u8 alg /\ u8 flags /\ u16 iters /\ str_ok salt /\ str_ok nextOwner /\ nextOwner <> [] /\ types_ok types
  | RD_NSEC3PARAM alg flags iters salt => u8 alg /\ u8 flags /\ u16 iters /\ str_ok salt
  | RD_SRV priority weight port target => u16 priority /\ u16 weight /\ u16 port /\ canonical target
  | RD_NAPTR order pref flags services regexp replacement =>
      u16 order /\ u16 pref /\ str_ok flags /\ str_ok services /\ str_ok regexp /\ canonical replacement
  | RD_RP mbox txt => NP mbox /\ NP txt
  | RD_AFSDB v n | RD_RT v n | RD_KX v n | RD_LP v n => u16 v /\ canonical n
  | RD_X25 addr => str_ok addr
  | RD_ISDN addr sub hasSub => str_ok addr /\ str_ok sub /\ (hasSub = false -> sub = [])
  | RD_NSAP b | RD_DHCID b | RD_OPENPGPKEY b => blob_ok b
  | RD_LOC version size horizPre vertPre lat lon alt =>
      u8 version /\ u8 size /\ u8 horizPre /\ u8 vertPre /\ u32 lat /\ u32 lon /\ u32 alt /\
      validateLOCSizeByte size = true /\ validateLOCSizeByte horizPre = true /\ validateLOCSizeByte vertPre = true
  | RD_APL items => Forall apl_ok items /\ items <> []
  | RD_IPSECKEY prec gt alg a n pubkey => u8 prec /\ u8 alg /\ gateway_ok gt a n /\ is_bytes pubkey
  | RD_HIP alg hit pubkey rvs =>
      u8 alg /\ str_ok hit /\ is_bytes pubkey /\ zlen pubkey <= 65535 /\ Forall canonical rvs
  | RD_NID pref id => u16 pref /\ u64 id
  | RD_L32 pref loc => u16 pref /\ u32 loc
  | RD_L64 pref loc => u16 pref /\ u64 loc
  | RD_EUI48 b => is_bytes b /\ zlen b = 6
  | RD_EUI64 b => is_bytes b /\ zlen b = 8
  | RD_URI priority weight target => u16 priority /\ u16 weight /\ blob_ok target
  | RD_ZONEMD serial scheme hash digest =>
      u32 serial /\ u8 scheme /\ u8 hash /\ is_bytes digest /\ validateZONEMDDigestLength hash (zlen digest) = true
  | RD_SSHFP alg fpt value => u8 alg /\ u8 fpt /\ is_bytes value
  | RD_TLSA u s m d | RD_SMIMEA u s m d => u8 u /\ u8 s /\ u8 m /\ is_bytes d
  | RD_CSYNC serial flags types => u32 serial /\ u16 flags /\ types_ok types
  | RD_DNAME n => canonical n
  | RD_HINFO cpu os => str_ok cpu /\ str_ok os
  | RD_CDNSKEY flags protocol algorithm pubkey =>
      u16 flags /\ u8 protocol /\ u8 algorithm /\ is_bytes pubkey
  | RD_CERT ct tag alg cert => u16 ct /\ u16 tag /\ u8 alg /\ is_bytes cert
  | RD_AMTRELAY prec discovery rt a n => u8 prec /\ gateway_ok rt a n
  | RD_TKEY alg inc exp mode ec kd od =>
      canonical alg /\ u32 inc /\ u32 exp /\ u16 mode /\ u16 ec /\
      is_bytes kd /\ zlen kd <= 65535 /\ is_bytes od /\ zlen od <= 65535
  | RD_Unknown typ d => is_bytes d /\ (d = [] \/ existsb (Z.eqb typ) knownTypes = false)
  end.

(** With the pointer limit on the names the packer compresses. *)
Abbreviation rd_ok := (rd_okP name_ok).

(** ** Field by field *)

Lemma codec_charstr t s : str_ok s -> codec t (packCharString s) Unpacker.CharStringInRange s.
Proof. intros [? ?]. by apply codec_charstring. Qed.

Lemma codec_types types : types_ok types -> codec true (encodeTypeBitmap types) decodeTypeBitmap types.
Proof. intros [Hu Hs]. rewrite <- (normTypes_id types) at 2 by done. by apply codec_typeBitmap. Qed.

Lemma minsize_charstr s : zlen s <= 255 -> minsize (1 + zlen s) (packCharString s).
Proof. intros H p. unfold packCharString, Packer.CharString. if_false. cbn. llia. Qed.

Lemma minsize_u8 v : minsize 1 (Packer.Uint8 v).
Proof. intros p. cbn. llia. Qed.
Lemma minsize_u16 v : minsize 2 (Packer.Uint16 v).
Proof. intros p. cbn. llia. Qed.
Lemma minsize_u32 v : minsize 4 (Packer.Uint32 v).
Proof. intros p. cbn. llia. Qed.
Lemma minsize_types types : types_ok types -> minsize 0 (encodeTypeBitmap types).
Proof. intros H. apply minsize_0, (codec_types _ H). Qed.

Create HintDb fields discriminated.
#[export] Hint Resolve codec_u8 codec_u16 codec_u32 codec_NameInRange codec_uncompressedName
  codec_charstr codec_bytesTo codec_types to_u8_range to_u32_range : fields.
#[export] Hint Resolve minsize_u8 minsize_u16 minsize_u32 minsize_name minsize_nameU minsize_raw
  minsize_charstr minsize_types minsize_nil minsize_cons : fields.

Ltac side := first [done | by eauto with fields wire | rewrite ?to_u8_id, ?to_u16_id; llia
                   | unfold str_ok, blob_ok, to_u8, to_u16 in *; intuition (done || llia || elia)].

Ltac field :=
  first [ apply codec_bytes; side | solve [eauto 3 with fields] | apply codec_u8; llia | apply codec_u16; llia ].

(** Pass a test of the helper. *)
Ltac pass :=
  first [ if_false
        | match goal with H : ?b = true |- context [negb ?b] => rewrite H; cbn [negb] end ].

(** Match the next append with the next read. *)
Ltac fstep :=
  first [ apply codec_nil
        | eapply codec_checked; [side|side|]
        | apply codec_check0
        | eapply codec_cons; [solve [field]|]
        | eapply codec_last; solve [field] ];
  cbn beta; repeat pass.
Ltac fields := cbn beta; repeat fstep.

Ltac msize := eapply minsize_le; [|eauto 20 with fields]; llia.

(** ** Type by type *)

Lemma zlen_pos {A} (l : list A) : l <> [] -> 0 < zlen l.
Proof. destruct l; [done|]. intros _. llia. Qed.

Lemma u64_split v : u64 v -> Z.lor (Z.shiftl (to_u32 (Z.shiftr v 32)) 32) (to_u32 v) = v.
Proof.
  unfold u64, to_u32. intros H. rewrite Z.shiftr_div_pow2, lor_shiftl_add by elia.
  change (2 ^ 32) with 4294967296. elia.
Qed.

Ltac split_ok :=
  repeat match goal with
  | H : rd_ok _ |- _ => progress cbn [rd_okP] in H
  | H : _ /\ _ |- _ => destruct H
  | H : addr4_ok _ |- _ => destruct H as (? & -> & ? & ?)
  | H : addr6_ok _ |- _ => destruct H as (? & -> & ? & ?)
  | H : blob_ok _ |- _ => destruct H
  | H : ?l <> [] |- _ =>
      lazymatch goal with _ : 0 < zlen l |- _ => fail | _ => pose proof (zlen_pos _ H) end
  | H : str_ok ?s |- _ =>
      lazymatch goal with
      | _ : zlen s <= 255 |- _ => fail
      | _ => pose proof (proj1 H); pose proof (proj2 H)
      end
  end;
  rewrite ?to_u8_id, ?to_u16_id by llia.

(** A payload whose helper works with the end of its window. *)
Ltac rdata := split_ok; to_seqops; repeat (apply rcodec_guard; [msize|]); apply rcodec_end; fields.

(** A payload whose helper computes with the length. *)
Ltac rfixed n :=
  split_ok; to_seqops; apply (rcodec_fixed _ _ _ n); [intros p; cbn; llia|]; repeat if_false; fields.

Lemma rcodec_A addr : rd_ok (RD_A addr) -> rcodec (A_Pack addr) unpackA (RD_A addr).
Proof. intros. unfold A_Pack, unpackA. rfixed 4. Qed.
Lemma rcodec_AAAA addr : rd_ok (RD_AAAA addr) -> rcodec (AAAA_Pack addr) unpackAAAA (RD_AAAA addr).
Proof. intros. unfold AAAA_Pack, unpackAAAA. rfixed 16. Qed.
Lemma rcodec_CNAME target : rd_ok (RD_CNAME target) -> rcodec (CNAME_Pack target) unpackCNAME (RD_CNAME target).
Proof. intros. unfold CNAME_Pack, unpackCNAME. rdata. Qed.
Lemma rcodec_NS name : rd_ok (RD_NS name) -> rcodec (NS_Pack name) unpackNS (RD_NS name).
Proof. intros. unfold NS_Pack, unpackNS. rdata. Qed.
Lemma rcodec_PTR name : rd_ok (RD_PTR name) -> rcodec (PTR_Pack name) unpackPTR (RD_PTR name).
Proof. intros. unfold PTR_Pack, unpackPTR. rdata. Qed.
Lemma rcodec_MX pref exchange : rd_ok (RD_MX pref exchange) -> rcodec (MX_Pack pref exchange) unpackMX (RD_MX pref exchange).
Proof. intros. unfold MX_Pack, unpackMX. rdata. Qed.
Lemma rcodec_CAA flags tag value : rd_ok (RD_CAA flags tag value) -> rcodec (CAA_Pack flags tag value) unpackCAA (RD_CAA flags tag value).
Proof. intros. unfold CAA_Pack, unpackCAA. rdata. Qed.
Lemma rcodec_DNSKEY flags protocol algorithm pubkey : rd_ok (RD_DNSKEY flags protocol algorithm pubkey) -> rcodec (DNSKEY_Pack flags protocol algorithm pubkey) unpackDNSKEY (RD_DNSKEY flags protocol algorithm pubkey).
Proof. intros. unfold DNSKEY_Pack, unpackDNSKEY. rdata. Qed.
Lemma rcodec_DS keyTag algorithm digestT digest : rd_ok (RD_DS keyTag algorithm digestT digest) -> rcodec (DS_Pack keyTag algorithm digestT digest) unpackDS (RD_DS keyTag algorithm digestT digest).
Proof. intros. unfold DS_Pack, unpackDS. rdata. Qed.
Lemma rcodec_RRSIG typeCovered algorithm labels origTTL sigExp sigInc keyTag signerName signature : rd_ok (RD_RRSIG typeCovered algorithm labels origTTL sigExp sigInc keyTag signerName signature) -> rcodec (RRSIG_Pack typeCovered algorithm labels origTTL sigExp sigInc keyTag signerName signature) unpackRRSIG (RD_RRSIG typeCovered algorithm labels origTTL sigExp sigInc keyTag signerName signature).
Proof. intros. unfold RRSIG_Pack, unpackRRSIG. rdata. Qed.
Lemma rcodec_NSEC next types : rd_ok (RD_NSEC next types) -> rcodec (NSEC_Pack next types) unpackNSEC (RD_NSEC next types).
Proof. intros. unfold NSEC_Pack, unpackNSEC. rdata. Qed.
Lemma rcodec_NSEC3 hashAlg flags iterations salt nextOwner types : rd_ok (RD_NSEC3 hashAlg flags iterations salt nextOwner types) -> rcodec (NSEC3_Pack hashAlg flags iterations salt nextOwner types) unpackNSEC3 (RD_NSEC3 hashAlg flags iterations salt nextOwner types).
Proof. intros. unfold NSEC3_Pack, unpackNSEC3. rdata. Qed.
Lemma rcodec_NSEC3PARAM alg flags iter salt : rd_ok (RD_NSEC3PARAM alg flags iter salt) -> rcodec (NSEC3PARAM_Pack alg flags iter salt) unpackNSEC3PARAM (RD_NSEC3PARAM alg flags iter salt).
Proof. intros. unfold NSEC3PARAM_Pack, unpackNSEC3PARAM. rdata. Qed.
Lemma rcodec_SRV priority weight port target : rd_ok (RD_SRV priority weight port target) -> rcodec (SRV_Pack priority weight port target) unpackSRV (RD_SRV priority weight port target).
Proof. intros. unfold SRV_Pack, unpackSRV. rdata. Qed.
Lemma rcodec_NAPTR order pref flags services regexp replacement : rd_ok (RD_NAPTR order pref flags services regexp replacement) -> rcodec (NAPTR_Pack order pref flags services regexp replacement) unpackNAPTR (RD_NAPTR order pref flags services regexp replacement).
Proof. intros. unfold NAPTR_Pack, unpackNAPTR. rdata. Qed.
Lemma rcodec_RP mbox txt : rd_ok (RD_RP mbox txt) -> rcodec (RP_Pack mbox txt) unpackRP (RD_RP mbox txt).
Proof. intros. unfold RP_Pack, unpackRP. rdata. Qed.
Lemma rcodec_AFSDB subtype hostname : rd_ok (RD_AFSDB subtype hostname) -> rcodec (AFSDB_Pack subtype hostname) unpackAFSDB (RD_AFSDB subtype hostname).
Proof. intros. unfold AFSDB_Pack, unpackAFSDB. rdata. Qed.
Lemma rcodec_X25 addr : rd_ok (RD_X25 addr) -> rcodec (X25_Pack addr) unpackX25 (RD_X25 addr).
Proof. intros. unfold X25_Pack, unpackX25. rdata. Qed.
Lemma rcodec_RT pref host : rd_ok (RD_RT pref host) -> rcodec (RT_Pack pref host) unpackRT (RD_RT pref host).
Proof. intros. unfold RT_Pack, unpackRT. rdata. Qed.
Lemma rcodec_NSAP addr : rd_ok (RD_NSAP addr) -> rcodec (NSAP_Pack addr) unpackNSAP (RD_NSAP addr).
Proof. intros. unfold NSAP_Pack, unpackNSAP. rfixed (zlen addr). Qed.
Lemma rcodec_NSAPPTR owner : rd_ok (RD_NSAPPTR owner) -> rcodec (NSAPPTR_Pack owner) unpackNSAPPTR (RD_NSAPPTR owner).
Proof. intros. unfold NSAPPTR_Pack, unpackNSAPPTR. rdata. Qed.
Lemma rcodec_LOC version size horizPre vertPre lat lon alt : rd_ok (RD_LOC version size horizPre vertPre lat lon alt) -> rcodec (LOC_Pack version size horizPre vertPre lat lon alt) unpackLOC (RD_LOC version size horizPre vertPre lat lon alt).
Proof. intros. unfold LOC_Pack, unpackLOC. rfixed 16. Qed.
Lemma rcodec_DHCID data : rd_ok (RD_DHCID data) -> rcodec (DHCID_Pack data) unpackDHCID (RD_DHCID data).
Proof. intros. unfold DHCID_Pack, unpackDHCID. rfixed (zlen data). Qed.
Lemma rcodec_NID pref id : rd_ok (RD_NID pref id) -> rcodec (NID_Pack pref id) unpackNID (RD_NID pref id).
Proof. intros. unfold NID_Pack, unpackNID. rfixed 10. rewrite u64_split by done. fields. Qed.
Lemma rcodec_L32 pref loc : rd_ok (RD_L32 pref loc) -> rcodec (L32_Pack pref loc) unpackL32 (RD_L32 pref loc).
Proof. intros. unfold L32_Pack, unpackL32. rfixed 6. Qed.
Lemma rcodec_L64 pref loc : rd_ok (RD_L64 pref loc) -> rcodec (L64_Pack pref loc) unpackL64 (RD_L64 pref loc).
Proof. intros. unfold L64_Pack, unpackL64. rfixed 10. rewrite u64_split by done. fields. Qed.
Lemma rcodec_LP pref fqdn : rd_ok (RD_LP pref fqdn) -> rcodec (LP_Pack pref fqdn) unpackLP (RD_LP pref fqdn).
Proof. intros. unfold LP_Pack, unpackLP. rdata. Qed.
Lemma rcodec_EUI48 addr : rd_ok (RD_EUI48 addr) -> rcodec (EUI48_Pack addr) unpackEUI48 (RD_EUI48 addr).
Proof. intros. unfold EUI48_Pack, unpackEUI48. rfixed 6. Qed.
Lemma rcodec_EUI64 addr : rd_ok (RD_EUI64 addr) -> rcodec (EUI64_Pack addr) unpackEUI64 (RD_EUI64 addr).
Proof. intros. unfold EUI64_Pack, unpackEUI64. rfixed 8. Qed.
Lemma rcodec_URI priority weight target : rd_ok (RD_URI priority weight target) -> rcodec (URI_Pack priority weight target) unpackURI (RD_URI priority weight target).
Proof. intros. unfold URI_Pack, unpackURI. rfixed (4 + zlen target). Qed.
Lemma rcodec_ZONEMD serial scheme hash digest : rd_ok (RD_ZONEMD serial scheme hash digest) -> rcodec (ZONEMD_Pack serial scheme hash digest) unpackZONEMD (RD_ZONEMD serial scheme hash digest).
Proof. intros. unfold ZONEMD_Pack, unpackZONEMD. rfixed (6 + zlen digest). Qed.
Lemma rcodec_SSHFP alg fpt value : rd_ok (RD_SSHFP alg fpt value) -> rcodec (SSHFP_Pack alg fpt value) unpackSSHFP (RD_SSHFP alg fpt value).
Proof. intros. unfold SSHFP_Pack, unpackSSHFP. rfixed (2 + zlen value). Qed.
Lemma rcodec_TLSA usage selector matching data : rd_ok (RD_TLSA usage selector matching data) -> rcodec (TLSA_Pack usage selector matching data) unpackTLSA (RD_TLSA usage selector matching data).
Proof. intros. unfold TLSA_Pack, unpackTLSA. rfixed (3 + zlen data). Qed.
Lemma rcodec_SMIMEA usage selector matching data : rd_ok (RD_SMIMEA usage selector matching data) -> rcodec (SMIMEA_Pack usage selector matching data) unpackSMIMEA (RD_SMIMEA usage selector matching data).
Proof. intros. unfold SMIMEA_Pack, unpackSMIMEA. rfixed (3 + zlen data). Qed.
Lemma rcodec_CSYNC soaSerial flags types : rd_ok (RD_CSYNC soaSerial flags types) -> rcodec (CSYNC_Pack soaSerial flags types) unpackCSYNC (RD_CSYNC soaSerial flags types).
Proof. intros. unfold CSYNC_Pack, unpackCSYNC. rdata. Qed.
Lemma rcodec_DNAME target : rd_ok (RD_DNAME target) -> rcodec (DNAME_Pack target) unpackDNAME (RD_DNAME target).
Proof. intros. unfold DNAME_Pack, unpackDNAME. rdata. Qed.
Lemma rcodec_HINFO cpu os : rd_ok (RD_HINFO cpu os) -> rcodec (HINFO_Pack cpu os) unpackHINFO (RD_HINFO cpu os).
Proof. intros. unfold HINFO_Pack, unpackHINFO. rdata. Qed.
Lemma rcodec_KX pref exchange : rd_ok (RD_KX pref exchange) -> rcodec (KX_Pack pref exchange) unpackKX (RD_KX pref exchange).
Proof. intros. unfold KX_Pack, unpackKX. rdata. Qed.
Lemma rcodec_CDS keyTag algorithm digestT digest : rd_ok (RD_CDS keyTag algorithm digestT digest) -> rcodec (CDS_Pack keyTag algorithm digestT digest) unpackCDS (RD_CDS keyTag algorithm digestT digest).
Proof. intros. unfold CDS_Pack, unpackCDS. rdata. Qed.
Lemma rcodec_CDNSKEY flags protocol algorithm pubkey : rd_ok (RD_CDNSKEY flags protocol algorithm pubkey) -> rcodec (CDNSKEY_Pack flags protocol algorithm pubkey) unpackCDNSKEY (RD_CDNSKEY flags protocol algorithm pubkey).
Proof. intros. unfold CDNSKEY_Pack, unpackCDNSKEY. rdata. Qed.
Lemma rcodec_OPENPGPKEY pubkey : rd_ok (RD_OPENPGPKEY pubkey) -> rcodec (OPENPGPKEY_Pack pubkey) unpackOPENPGPKEY (RD_OPENPGPKEY pubkey).
Proof. intros. unfold OPENPGPKEY_Pack, unpackOPENPGPKEY. rfixed (zlen pubkey). Qed.
Lemma rcodec_CERT certType keyTag algorithm cert : rd_ok (RD_CERT certType keyTag algorithm cert) -> rcodec (CERT_Pack certType keyTag algorithm cert) unpackCERT (RD_CERT certType keyTag algorithm cert).
Proof. intros. unfold CERT_Pack, unpackCERT. rdata. Qed.
Lemma rcodec_TKEY algorithm inception expire mode errCode keyData otherData : rd_ok (RD_TKEY algorithm inception expire mode errCode keyData otherData) -> rcodec (TKEY_Pack algorithm inception expire mode errCode keyData otherData) unpackTKEY (RD_TKEY algorithm inception expire mode errCode keyData otherData).
Proof. intros. unfold TKEY_Pack, unpackTKEY. rdata. Qed.

(** *** Character-string and item lists *)

Lemma progress_minsize op : minsize 1 op -> progress op.
Proof. intros H p. specialize (H p). lia. Qed.

(** A loop that appends one item per iteration to its result. *)
Lemma codec_collect {X} (opx : X -> Packer.t -> Packer.t) (body : Z -> list X -> U (list X)) items :
  Forall (fun x => minsize 1 (opx x) /\ forall s, codec false (opx x) (fun e => body e s) (s ++ [x])) items ->
  codec true (fun p => fold_left (fun p x => opx x p) items p) (fun e => loopUntil e (body e) []) items.
Proof.
  intros H.
  assert (forall acc, fold_left (fun s x => s ++ [x]) items acc = acc ++ items) as E.
  { clear. induction items as [|x items IH]; intros acc; cbn; [by rewrite app_nil_r|].
    by rewrite IH, <- app_assoc. }
  enough (codec true (fun p => fold_left (fun p x => opx x p) items p) (fun e => loopUntil e (body e) [])
            (fold_left (fun s x => s ++ [x]) items [])) as Hc by (by rewrite E in Hc).
  apply codec_loop. clear E. enough (forall s, loop_ok opx body (fun s x => s ++ [x]) s items) by done.
  induction H as [|x items [Hm Hc] _ IH]; intros s; [done|].
  split_and!; [apply Hc|by apply progress_minsize|apply IH].
Qed.

Lemma codec_strings strs : Forall str_ok strs -> codec true (packStrings strs) unpackStrings strs.
Proof.
  intros H. apply (codec_collect packCharString (fun e out => do s <- Unpacker.CharStringInRange e; Unpacker.ret (out ++ [s]))).
  eapply Forall_impl; [done|]. intros s Hs. split; [apply (minsize_le (1 + zlen s)); destruct Hs; [llia|by apply minsize_charstr]|].
  intros acc. apply (codec_map _ _ Unpacker.CharStringInRange (fun s => acc ++ [s])). by apply codec_charstr.
Qed.

Lemma rcodec_TXT strs : rd_ok (RD_TXT strs) -> rcodec (TXT_Pack strs) unpackTXT (RD_TXT strs).
Proof. intros [H _]. apply rcodec_end, (codec_map _ _ unpackStrings RD_TXT), codec_strings, H. Qed.
Lemma rcodec_SPF strs : rd_ok (RD_SPF strs) -> rcodec (SPF_Pack strs) unpackSPF (RD_SPF strs).
Proof. intros [H _]. apply rcodec_end, (codec_map _ _ unpackStrings RD_SPF), codec_strings, H. Qed.
Lemma rcodec_RESINFO strs : rd_ok (RD_RESINFO strs) -> rcodec (RESINFO_Pack strs) unpackRESINFO (RD_RESINFO strs).
Proof. intros [H _]. apply rcodec_end, (codec_map _ _ unpackStrings RD_RESINFO), codec_strings, H. Qed.

(** *** SOA: timers in whole seconds *)

Lemma quot_Second s : Z.quot (s * Second) Second = s.
Proof. by apply Z.quot_mul. Qed.

Lemma rcodec_SOA mname rname serial refresh retry expire minimum :
  rd_ok (RD_SOA mname rname serial refresh retry expire minimum) ->
  rcodec (SOA_Pack mname rname serial refresh retry expire minimum) unpackSOA
    (RD_SOA mname rname serial refresh retry expire minimum).
Proof.
  intros (? & ? & ? & (? & -> & ?) & (? & -> & ?) & (? & -> & ?) & (? & -> & ?)).
  unfold SOA_Pack, unpackSOA. rewrite !quot_Second, !to_u32_id by done. rdata.
Qed.

(** *** ISDN and AMTRELAY: the helper compares the offset with the end *)

Lemma codec_at_end {B} (k : Z -> bool -> U B) v :
  codec true (seqops []) (fun e => k e true) v ->
  codec true (seqops []) (fun e => do off <- Unpacker.Off; k e (off =? e)) v.
Proof.
  intros [Hf Hc]. split; [done|]. intros p Hp. destruct (Hc p Hp) as [? Hr]. split; [done|].
  intros post e Hpost He Ht. unfold Unpacker.bind, Unpacker.Off. cbn [Unpacker.off].
  change (seqops [] p) with p in *. specialize (Ht eq_refl). subst e. rewrite Z.eqb_refl.
  apply Hr; [done|llia|done].
Qed.

Lemma codec_before_end {B} op (k : Z -> bool -> U B) v :
  minsize 1 op -> codec true op (fun e => k e false) v ->
  codec true op (fun e => do off <- Unpacker.Off; k e (off =? e)) v.
Proof.
  intros Hm [Hf Hc]. split; [done|]. intros p Hp. destruct (Hc p Hp) as [? Hr]. split; [done|].
  intros post e Hpost He Ht. unfold Unpacker.bind, Unpacker.Off. cbn [Unpacker.off].
  specialize (Hm p). replace (zlen (Packer.buf p) =? e) with false by (symmetry; apply Z.eqb_neq; lia).
  by apply Hr.
Qed.

Lemma rcodec_ISDN addr sub hasSub :
  rd_ok (RD_ISDN addr sub hasSub) -> rcodec (ISDN_Pack addr sub hasSub) unpackISDN (RD_ISDN addr sub hasSub).
Proof.
  intros (Ha & Hs & Hn). unfold ISDN_Pack, unpackISDN. cbv zeta. destruct hasSub.
  - to_seqops. apply rcodec_end. fstep.
    apply (codec_before_end _ (fun e b => if b : bool then Unpacker.ret (RD_ISDN addr [] false)
      else do sub <- Unpacker.CharStringInRange e; Unpacker.ret (RD_ISDN addr sub true))).
    + split_ok. msize.
    + fields.
  - rewrite (Hn eq_refl). to_seqops. apply rcodec_end. fstep.
    apply (codec_at_end (fun e b => if b : bool then Unpacker.ret (RD_ISDN addr [] false)
      else do sub <- Unpacker.CharStringInRange e; Unpacker.ret (RD_ISDN addr sub true))). fields.
Qed.

(** *** Gateways *)

Lemma codec_gateway gt a n :
  gateway_ok gt a n -> codec false (packGateway gt a n) (fun e => unpackGateway e gt) (a, n).
Proof.
  intros [(-> & -> & ->)|[(-> & Ha & ->)|[(-> & Ha & ->)|(-> & -> & Hn)]]]; unfold packGateway, unpackGateway; cbn [Z.eqb Pos.eqb].
  - apply codec_nil.
  - destruct Ha as (b & -> & ? & ?). to_seqops. fields.
  - destruct Ha as (b & -> & ? & ?). to_seqops. fields.
  - to_seqops. fields.
Qed.

Lemma rcodec_IPSECKEY prec gt alg a n pubkey :
  rd_ok (RD_IPSECKEY prec gt alg a n pubkey) ->
  rcodec (IPSECKEY_Pack prec gt alg a n pubkey) unpackIPSECKEY (RD_IPSECKEY prec gt alg a n pubkey).
Proof.
  intros (? & ? & Hg & ?). assert (u8 gt) by (unfold u8; destruct Hg as [|[|[|]]]; lia).
  pose proof (codec_gateway _ _ _ Hg). unfold IPSECKEY_Pack, unpackIPSECKEY. rdata.
Qed.

(** The relay type octet carries the discovery bit. *)
Lemma discovery_bit (d : bool) rt :
  u8 rt -> rt < 128 ->
  let b := if d then Z.lor (Z.land rt 0x7f) 0x80 else Z.land rt 0x7f in
  u8 b /\ Z.land b 0x7f = rt /\ negb (Z.land b 0x80 =? 0) = d.
Proof. destruct d; cbv zeta; byte_cases rt. Qed.

Lemma rcodec_AMTRELAY prec discovery rt a n :
  rd_ok (RD_AMTRELAY prec discovery rt a n) ->
  rcodec (AMTRELAY_Pack prec discovery rt a n) unpackAMTRELAY (RD_AMTRELAY prec discovery rt a n).
Proof.
  intros (? & Hg). pose proof (codec_gateway _ _ _ Hg) as Hcg.
  destruct (discovery_bit discovery rt) as (Hb & Hrt & Hd); [unfold u8; destruct Hg as [|[|[|]]]; lia..|].
  unfold AMTRELAY_Pack, unpackAMTRELAY. cbv zeta in *.
  set (b := if discovery then _ else _) in *. to_seqops. apply rcodec_guard.
  { pose proof (minsize_0 _ (proj1 Hcg)). msize. }
  apply rcodec_end. do 2 fstep. rewrite Hrt, Hd. eapply codec_cons; [done|]. cbn [fst snd].
  apply (codec_at_end (fun _ e => if negb e then Unpacker.fail ErrInvalidRData
    else Unpacker.ret (RD_AMTRELAY prec discovery rt a n))). apply codec_nil.
Qed.

(** *** HIP *)

Lemma codec_names rvs :
  Forall canonical rvs ->
  codec true (fun p => fold_left (fun p rv => Packer.NameUncompressed rv p) rvs p)
    (fun e => loopUntil e (fun rvs => do n <- uncompressedNameTo e; Unpacker.ret (rvs ++ [n])) []) rvs.
Proof.
  intros H. apply (codec_collect Packer.NameUncompressed (fun e rvs => do n <- uncompressedNameTo e; Unpacker.ret (rvs ++ [n]))).
  eapply Forall_impl; [done|]. intros n Hn. split; [apply minsize_nameU|]. intros s.
  apply (codec_map _ _ uncompressedNameTo (fun n => s ++ [n])). by apply codec_uncompressedName.
Qed.

Lemma rcodec_HIP alg hit pubkey rvs :
  rd_ok (RD_HIP alg hit pubkey rvs) -> rcodec (HIP_Pack alg hit pubkey rvs) unpackHIP (RD_HIP alg hit pubkey rvs).
Proof.
  intros. split_ok. unfold HIP_Pack, unpackHIP. cbv zeta. rewrite to_u8_id, to_u16_id by llia.
  to_seqops. apply rcodec_end. fields. eapply codec_last. by apply codec_names.
Qed.

(** *** APL: trailing zero octets are dropped and restored *)

Lemma take_pad n m (l : bytes) : (n <= m)%nat -> take n (l ++ replicate m 0) = take n l ++ replicate (n - length l) 0.
Proof. intros H. rewrite take_app, take_replicate. do 2 f_equal. lia. Qed.

Lemma stripZeros_copy l : copyInto (length l) (stripZeros l) = l.
Proof.
  unfold copyInto. induction l as [|x l IH]; [done|]. cbn [stripZeros length].
  rewrite take_pad in * by lia. destruct (stripZeros l) as [|y l'] eqn:E.
  - destruct (x =? 0) eqn:Ex; bool_facts; cbn in *; rewrite ?firstn_nil, ?Nat.sub_0_r in *; cbn in *; congruence.
  - cbn [firstn length app Nat.sub] in *. by rewrite IH.
Qed.

Lemma stripZeros_len l : (length (stripZeros l) <= length l)%nat.
Proof.
  induction l as [|x l IH]; [done|]. cbn [stripZeros]. destruct (stripZeros l); [|cbn in *; lia].
  by destruct (x =? 0); cbn; lia.
Qed.

Lemma stripZeros_bytes l : is_bytes l -> is_bytes (stripZeros l).
Proof.
  induction 1 as [|x l Hx Hl IH]; [constructor|]. cbn [stripZeros]. destruct (stripZeros l); [|by constructor].
  destruct (x =? 0); [done|by constructor].
Qed.

(** What the address of an item decodes to. *)
Lemma decodeAPLAFD_ok it :
  apl_ok it ->
  let afd := encodeAPLAFD (prefix it) in
  u16 (family it) /\ u8 (pfx_bits (prefix it)) /\ is_bytes afd /\ zlen afd <= 16 /\
  decodeAPLAFD (family it) (pfx_bits (prefix it)) afd = Ok (prefix it).
Proof.
  intros H. destruct it as [fam [a bits] ng]. unfold apl_ok in H. cbn [family prefix pfx_addr pfx_bits] in *.
  destruct H as [(-> & (b & -> & Hb & Hl) & Hbits)|(-> & (b & -> & Hb & Hl) & Hbits)];
    unfold encodeAPLAFD, decodeAPLAFD; cbn [pfx_addr pfx_bits Is4 As4 As16 Z.eqb Pos.eqb];
    pose proof (stripZeros_len b); unfold zlen in Hl; split_and!; try (unfold u8, u16; lia);
    try (by apply stripZeros_bytes); try (unfold zlen; lia);
    unfold zlen; if_false; first [replace 4%nat with (length b) by lia | replace 16%nat with (length b) by lia]; by rewrite stripZeros_copy.
Qed.

Lemma nlen_bits (ng : bool) n :
  u8 n -> n < 128 ->
  let b := if ng then Z.lor (Z.land (to_u8 n) 0x7f) 0x80 else Z.land (to_u8 n) 0x7f in
  u8 b /\ Z.land b 0x7f = n /\ negb (Z.land b 0x80 =? 0) = ng.
Proof. destruct ng; cbv zeta; byte_cases n. Qed.

Lemma codec_aplItem it s :
  apl_ok it -> codec false (packAPLItem it) (fun e => aplStep e s) (s ++ [it]).
Proof.
  intros Hit. destruct (decodeAPLAFD_ok it Hit) as (? & Hbits & Hb & Hl & Hdec).
  destruct (nlen_bits (neg it) (zlen (encodeAPLAFD (prefix it)))) as (Hn & Hln & Hng); [llia..|].
  unfold packAPLItem, aplStep. cbv zeta in *. rewrite to_u8_id with (v := pfx_bits _) by done.
  set (nlen := if neg it then _ else _) in *. to_seqops. do 3 fstep. rewrite Hln, Hng. fstep.
  eapply codec_lift; [done|]. destruct it. apply codec_nil.
Qed.

Lemma minsize_aplItem it : minsize 1 (packAPLItem it).
Proof. intros p. unfold packAPLItem. cbn. llia. Qed.

Lemma rcodec_APL items : rd_ok (RD_APL items) -> rcodec (APL_Pack items) unpackAPL (RD_APL items).
Proof.
  intros [H _]. unfold APL_Pack, unpackAPL.
  apply rcodec_end, (codec_map _ _ (fun e => loopUntil e (aplStep e) []) RD_APL), (codec_collect packAPLItem aplStep).
  eapply Forall_impl; [done|]. intros it Hit. split; [apply minsize_aplItem|]. intros s. by apply codec_aplItem.
Qed.

(** *** SVCB and HTTPS *)

Lemma codec_param ps lastKey sp :
  param_ok sp -> lastKey < key sp -> validateSvcParam sp = Ok tt ->
  codec false (packParam sp) (fun e => svcbStep e (ps, lastKey)) (ps ++ [sp], key sp).
Proof.
  intros (Hk & Hd & Hl) Hlt Hv. unfold packParam, svcbStep. rewrite to_u16_id by done.
  to_seqops. fstep. fstep. fstep. destruct sp as [k d]. cbn [key data] in *.
  eapply codec_lift; [done|]. apply codec_nil.
Qed.

Lemma svcb_loop_ok ps items lastKey :
  Forall param_ok items -> StronglySorted Z.lt (map key items) -> Forall (fun sp => lastKey < key sp) items ->
  validateAll items = Ok tt ->
  loop_ok packParam svcbStep (fun st sp => (fst st ++ [sp], key sp)) (ps, lastKey) items.
Proof.
  intros Hok. revert ps lastKey. induction Hok as [|sp items Hsp Hit IH]; intros ps lk Hs Hlt Hv; [done|].
  cbn [map validateAll] in *. apply StronglySorted_inv in Hs as [Hs Hk]. apply Forall_cons in Hlt as [? _].
  destruct (validateSvcParam sp) as [[]|] eqn:E; [|done]. cbn [res_bind] in Hv. split_and!.
  - by apply codec_param.
  - apply progress_minsize. intros p. cbn. llia.
  - apply IH; [done| |done]. by apply (proj1 (List.Forall_map _ _ _)) in Hk.
Qed.

Lemma fold_params items st :
  fst (fold_left (fun (st : list SVCBParam * Z) sp => (fst st ++ [sp], key sp)) items st) = fst st ++ items.
Proof.
  revert st. induction items as [|sp items IH]; intros st; cbn [fold_left]; [by rewrite app_nil_r|].
  rewrite IH. cbn [fst]. by rewrite <- app_assoc.
Qed.

(** [unpackSvcbBody] after the end of its window is known. *)
Definition svcbReader (e : Z) : U svcbBody :=
  do prio <- Unpacker.Uint16;
  do target <- uncompressedNameTo e;
  do st <- loopUntil e (svcbStep e) ([], -1);
  do _ <- lift (validateMandatoryParam (fst st));
  Unpacker.ret (mkSvcbBody prio target (fst st)).

Lemma codec_body s : svcb_ok s -> codec true (packBody s) svcbReader s.
Proof.
  unfold svcbReader.
  destruct s as [prio target items]. intros (? & ? & Hok & Hs & Hv & Hm). cbn [svcb_priority svcb_target params] in *.
  unfold packBody. cbn [svcb_priority svcb_target params]. to_seqops. do 2 fstep.
  assert (loop_ok packParam svcbStep (fun st sp => (fst st ++ [sp], key sp)) ([], -1) items) as Hl.
  { apply svcb_loop_ok; try done. eapply Forall_impl; [exact Hok|]. intros sp [Hk _]. unfold u16 in Hk. lia. }
  apply codec_loop in Hl. pose proof (fold_params items ([], -1)) as Ef. cbn [fst] in Ef.
  destruct Hl as [Hf Hc]. split; [done|]. intros p Hp. destruct (Hc p Hp) as [? Hr]. split; [done|].
  intros post e Hpost He Ht. unfold Unpacker.bind at 1.
  replace (seqops _ p) with (fold_left (fun p sp => packParam sp p) items p) in * by done.
  rewrite Hr by done. unfold Unpacker.bind, lift, Unpacker.ret. rewrite Ef, app_nil_l, Hm. done.
Qed.

Lemma unpackSVCB_end (mkRD : svcbBody -> RData) t s :
  svcb_ok s ->
  (forall b, (if t =? rrtype.SVCB then Unpacker.ret (RD_SVCB b)
    else if t =? rrtype.HTTPS then Unpacker.ret (RD_HTTPS b) else Unpacker.fail ErrInvalidRData) = Unpacker.ret (mkRD b)) ->
  rcodec (packBody s) (unpackSVCB t) (mkRD s).
Proof.
  intros Hs Ht. destruct (rcodec_end _ _ _ (codec_map _ _ _ mkRD _ (codec_body s Hs))) as [Hf Hc].
  split; [done|]. intros p Hp. destruct (Hc p Hp) as [? Hr]. split; [done|]. intros post Hpost.
  rewrite <- (Hr post Hpost). set (u := Unpacker.mk _ _). set (rdlen := _ - _).
  change (Unpacker.bind (withEnd rdlen svcbReader) (fun body =>
    if t =? rrtype.SVCB then Unpacker.ret (RD_SVCB body)
    else if t =? rrtype.HTTPS then Unpacker.ret (RD_HTTPS body) else Unpacker.fail ErrInvalidRData) u
    = Unpacker.bind (withEnd rdlen svcbReader) (fun body => Unpacker.ret (mkRD body)) u).
  unfold Unpacker.bind. destruct (withEnd _ _ _) as [[b|] ?]; [by rewrite Ht|done].
Qed.

(** *** Unknown types *)

Lemma unpackTyped_unknown t rdlen :
  existsb (Z.eqb t) knownTypes = false ->
  unpackTyped t rdlen = (do b <- Unpacker.Bytes rdlen; Unpacker.ret (RD_Unknown t b)).
Proof.
  intros H. unfold knownTypes in H. cbn [existsb] in H. bool_facts.
  unfold unpackTyped. by repeat if_false.
Qed.

(** ** All types *)

Create HintDb rcodecs.
#[export] Hint Resolve rcodec_A rcodec_AAAA rcodec_CNAME rcodec_NS rcodec_PTR rcodec_MX rcodec_TXT
  rcodec_SOA rcodec_CAA rcodec_DNSKEY rcodec_DS rcodec_RRSIG rcodec_NSEC rcodec_NSEC3
  rcodec_NSEC3PARAM rcodec_SRV rcodec_NAPTR rcodec_RP rcodec_AFSDB rcodec_X25 rcodec_ISDN rcodec_RT
  rcodec_NSAP rcodec_NSAPPTR rcodec_LOC rcodec_APL rcodec_IPSECKEY rcodec_DHCID rcodec_HIP
  rcodec_NID rcodec_L32 rcodec_L64 rcodec_LP rcodec_EUI48 rcodec_EUI64 rcodec_URI rcodec_ZONEMD
  rcodec_RESINFO rcodec_SPF rcodec_SSHFP rcodec_TLSA rcodec_SMIMEA rcodec_CSYNC rcodec_DNAME
  rcodec_HINFO rcodec_KX rcodec_CDS rcodec_CDNSKEY rcodec_OPENPGPKEY rcodec_CERT rcodec_AMTRELAY
  rcodec_TKEY : rcodecs.

(** Every payload but the opaque one is read back by the helper its type
    selects. *)
Lemma rcodec_typed rd :
  rd_ok rd -> match rd with RD_Unknown _ _ => False | _ => True end -> rcodec (Pack rd) (unpackTyped (Type_ rd)) rd.
Proof.
  intros Hok Hk. destruct rd; cbn [Pack Type_]; try solve [eauto 2 with rcodecs nocore].
  - by apply (unpackSVCB_end RD_SVCB rrtype.SVCB).
  - by apply (unpackSVCB_end RD_HTTPS rrtype.HTTPS).
  - done.
Qed.

(** *** No encoding is empty *)

Lemma minsize_first f g : minsize 1 f -> frame g -> minsize 1 (fun p => g (f p)).
Proof. intros Hf Hg p. specialize (Hf p). destruct (frame_app g (f p) Hg) as [bs ->]. llia. Qed.

Lemma frame_items {X} (opx : X -> Packer.t -> Packer.t) items :
  (forall x, x ∈ items -> frame (opx x)) -> frame (fun p => fold_left (fun p x => opx x p) items p).
Proof.
  induction items as [|y items IH]; intros Hf; cbn [fold_left]; [apply frame_id|].
  apply (frame_comp (opx y)); [apply Hf; by left|]. apply IH. intros z Hz. apply Hf. by right.
Qed.

Lemma minsize_items {X} (opx : X -> Packer.t -> Packer.t) items :
  items <> [] -> (forall x, x ∈ items -> minsize 1 (opx x) /\ frame (opx x)) ->
  minsize 1 (fun p => fold_left (fun p x => opx x p) items p).
Proof.
  intros Hne H. destruct items as [|x items]; [done|]. cbn [fold_left].
  apply (minsize_first (opx x)); [apply H; by left|].
  apply frame_items. intros y Hy. apply H. by right.
Qed.

Lemma minsize_strings strs : strs_ok strs -> minsize 1 (packStrings strs).
Proof.
  intros [H Hne]. apply minsize_items; [done|]. intros s Hs. rewrite Forall_forall in H. specialize (H _ Hs).
  split; [|apply (codec_charstr false _ H)]. destruct H. eapply minsize_le; [|by apply minsize_charstr]. llia.
Qed.

Lemma minsize_APL items : rd_ok (RD_APL items) -> minsize 1 (APL_Pack items).
Proof.
  intros [H Hne]. apply minsize_items; [done|]. intros it Hit. rewrite Forall_forall in H.
  split; [apply minsize_aplItem|apply (codec_aplItem it [])]. by apply H.
Qed.

Ltac to_minsize :=
  match goal with
  | |- minsize ?n ?op =>
      let l := ops_of op constr:(@nil (Packer.t -> Packer.t)) in change (minsize n (seqops l))
  end.

(** The whole payload of a record that has at least one byte. *)
Definition nonempty (rd : RData) : Prop :=
  match rd with RD_Unknown _ d => d <> [] | _ => True end.

Lemma frame_param sp : frame (packParam sp).
Proof. apply (frame_comp _ _ (frame_comp _ _ (frame_raw _) (frame_raw _)) (frame_raw _)). Qed.

Lemma minsize_body s : minsize 1 (packBody s).
Proof.
  unfold packBody. apply (minsize_first (fun p => Packer.NameUncompressed (svcb_target s) (Packer.Uint16 (svcb_priority s) p))).
  - to_minsize. msize.
  - apply frame_items. intros sp _. apply frame_param.
Qed.

Lemma minsize_HIP alg hit pubkey rvs : minsize 1 (HIP_Pack alg hit pubkey rvs).
Proof.
  unfold HIP_Pack. cbv zeta. eapply (minsize_first (fun p => Packer.Raw pubkey (Packer.Raw hit _))).
  - to_minsize. msize.
  - apply frame_items. intros n _. rewrite NameUncompressed_raw. apply frame_raw.
Qed.

Lemma minsize_ISDN addr sub hasSub : rd_ok (RD_ISDN addr sub hasSub) -> minsize 1 (ISDN_Pack addr sub hasSub).
Proof. intros. unfold ISDN_Pack. cbv zeta. split_ok. destruct hasSub; to_minsize; msize. Qed.

Ltac unfold_pack :=
  unfold A_Pack, AAAA_Pack, CNAME_Pack, NS_Pack, PTR_Pack, MX_Pack, SOA_Pack, CAA_Pack, DNSKEY_Pack,
    DS_Pack, RRSIG_Pack, NSEC_Pack, NSEC3_Pack, NSEC3PARAM_Pack, SRV_Pack, NAPTR_Pack, RP_Pack,
    AFSDB_Pack, X25_Pack, RT_Pack, NSAP_Pack, NSAPPTR_Pack, LOC_Pack, IPSECKEY_Pack, DHCID_Pack,
    NID_Pack, L32_Pack, L64_Pack, LP_Pack, EUI48_Pack, EUI64_Pack, URI_Pack, ZONEMD_Pack,
    SSHFP_Pack, TLSA_Pack, SMIMEA_Pack, CSYNC_Pack, DNAME_Pack, HINFO_Pack, KX_Pack, CDS_Pack,
    CDNSKEY_Pack, OPENPGPKEY_Pack, CERT_Pack, AMTRELAY_Pack, TKEY_Pack, Unknown_Pack.

Lemma minsize_Pack rd : rd_ok rd -> nonempty rd -> minsize 1 (Pack rd).
Proof.
  intros Hok Hne. destruct rd; cbn [Pack nonempty] in *;
    try solve [by apply minsize_strings | by apply minsize_APL | apply minsize_body
              | apply minsize_HIP | by eapply minsize_ISDN];
    try (match goal with H : rd_ok (RD_IPSECKEY _ _ _ _ _ _) |- _ => destruct H as (? & ? & Hg & ?) 
         | H : rd_ok (RD_AMTRELAY _ _ _ _ _) |- _ => destruct H as (? & Hg) end;
         pose proof (minsize_0 _ (proj1 (codec_gateway _ _ _ Hg))));
    unfold_pack; cbv zeta; split_ok; cbn [As4 As16]; to_minsize; msize.
Qed.

(** ** The interface of the package *)

Lemma rcodec_unknown t d :
  is_bytes d -> d <> [] -> existsb (Z.eqb t) knownTypes = false -> rcodec (Unknown_Pack d) (unpackTyped t) (RD_Unknown t d).
Proof.
  intros Hb Hd Ht. apply (rcodec_fixed _ _ _ (zlen d)); [intros p; cbn; llia|].
  rewrite (unpackTyped_unknown _ _ Ht). unfold Unknown_Pack. to_seqops. fields.
Qed.

(** [rdata.Unpack] around the helper of a type that never encodes to nothing. *)
Lemma rcodec_wrap op t rd : minsize 1 op -> rcodec op (unpackTyped t) rd -> rcodec op (Unpack t) rd.
Proof.
  intros Hm [Hf Hc]. split; [done|]. intros p Hp. destruct (Hc p Hp) as [? Hr]. split; [done|]. intros post Hpost.
  specialize (Hm p). specialize (Hr post Hpost).
  set (rdlen := zlen _ - zlen _) in *.
  unfold Unpack, Unpacker.Remaining, Unpacker.Off.
  unfold Unpacker.bind at 1. cbn [Unpacker.msg Unpacker.off]. rewrite zlen_app.
  replace ((rdlen <? 0) || _) with false by (symmetry; apply orb_false_iff; subst rdlen; llia).
  replace (rdlen =? 0) with false by (symmetry; apply Z.eqb_neq; lia).
  unfold Unpacker.bind. cbn [Unpacker.off]. rewrite Hr. cbn [Unpacker.off].
  replace (negb _) with false by (symmetry; apply negb_false_iff, Z.eqb_eq; subst rdlen; lia). done.
Qed.

(** Packing and then [rdata.Unpack], as one codec. *)
Lemma rcodec_Unpack rd : rd_ok rd -> rcodec (Pack rd) (Unpack (Type_ rd)) rd.
Proof.
  intros Hok. assert (rd = RD_Unknown (Type_ rd) [] \/ (nonempty rd /\ rcodec (Pack rd) (unpackTyped (Type_ rd)) rd))
    as [->|[Hne Hc]].
  { destruct rd; try (right; split; [done|by apply rcodec_typed]).
    destruct Hok as [Hb [->|Ht]]; [by left|]. destruct (decide (data = [])) as [->|]; [by left|right].
    split; [done|]. by apply rcodec_unknown. }
  { split; [apply frame_raw|]. intros p Hp. split; [by apply packer_ok_raw|]. intros post Hpost.
    cbn [Pack Unknown_Pack Packer.Raw Packer.buf Type_]. rewrite app_nil_r, Z.sub_diag.
    unfold Unpack, Unpacker.bind, Unpacker.Remaining. cbn [Unpacker.msg Unpacker.off].
    rewrite zlen_app. replace ((0 <? 0) || _) with false by (symmetry; apply orb_false_iff; llia). done. }
  apply rcodec_wrap; [by apply minsize_Pack|done].
Qed.

(** C4. Unpacking inverts packing, for every record type: a payload in the normal
    form [rd_ok] -- fields in the ranges of their types and length prefixes, lists
    in the order the decoder gives, canonical names, those packed with compression
    of at most 32 labels --, packed at any point of a message (after any earlier
    names, so with any compression) and followed by anything, is read back by
    [rdata.Unpack] with its type and the length it occupies as exactly the same
    payload, and the reader stops exactly at its end.  (The converse is false: a
    payload has other encodings too.) *)
Theorem rdata_roundtrip rd p post :
  rd_ok rd -> packer_ok p -> is_bytes post ->
  let b := Packer.buf (Pack rd p) in
  Unpack (Type_ rd) (zlen b - zlen (Packer.buf p)) (Unpacker.mk (b ++ post) (zlen (Packer.buf p)))
    = (Ok rd, Unpacker.mk (b ++ post) (zlen b)).
Proof. intros Hok Hp Hpost b. subst b. by apply (rcodec_Unpack rd Hok). Qed.

(** An MX record whose exchange compresses against a name packed before. *)
Lemma rdata_roundtrip_witness :
  let example := mkName [7; 101; 120; 97; 109; 112; 108; 101; 0] in
  let mail := mkName [4; 109; 97; 105; 108; 7; 101; 120; 97; 109; 112; 108; 101; 0] in
  let p := Packer.Name example (Packer.NewPacker []) in
  let b := Packer.buf (Pack (RD_MX 10 mail) p) in
  b = [7; 101; 120; 97; 109; 112; 108; 101; 0; 0; 10; 4; 109; 97; 105; 108; 192; 0] /\
  Unpack rrtype.MX 9 (Unpacker.mk (b ++ [1; 2]) 9)
    = (Ok (RD_MX 10 mail), Unpacker.mk (b ++ [1; 2]) 18).
Proof.
  split; [vm_compute; reflexivity|].
  apply (rdata_roundtrip (RD_MX 10 (mkName [4; 109; 97; 105; 108; 7; 101; 120; 97; 109; 112; 108; 101; 0]))
           (Packer.Name (mkName [7; 101; 120; 97; 109; 112; 108; 101; 0]) (Packer.NewPacker [])) [1; 2]).
  - split; [decide_now|]. exists [[109; 97; 105; 108]; [101; 120; 97; 109; 112; 108; 101]].
    split_and!; [split; [reflexivity|decide_now]|decide_now|decide_now].
  - apply (pack_name _ [[101; 120; 97; 109; 112; 108; 101]]); [|apply packer_ok_new].
    split; [reflexivity|decide_now].
  - decide_now.
Defined.
