(* ===== verification/Reader.v ===== *)
(** * What every reader of the decoder promises

    [reads k m P]: on any message and from any offset inside it, the reader
    [m] either fails with an error whose reported positions lie in the
    message, or succeeds with a value satisfying [P] after consuming at least
    [k] bytes; in both cases the offset stays inside the message, and it never
    panics or runs out of the model's loop bounds.  The rules below derive it
    from the shape of a reader. *)

From S2P Require Import Prelude Name Wire RData.

(** ** The interface *)

Definition valid (u : Unpacker.t) : Prop :=
  is_bytes (Unpacker.msg u) /\ 0 <= Unpacker.off u <= zlen (Unpacker.msg u).

(** Errors the decoder may report on a message of [len] bytes. *)
Fixpoint err_ok (len : Z) (e : error) : Prop :=
  match e with
  | ErrFuel | Panic => False
  | MessageParseError _ i o c => -1 <= i /\ 0 <= o <= len /\ err_ok len c
  | ErrWrapped c => err_ok len c
  | _ => True
  end.

Definition reads {A} (k : Z) (m : U A) (P : A -> Prop) : Prop :=
  forall u, valid u ->
    match m u with
    | (Ok a, u') =>
        Unpacker.msg u' = Unpacker.msg u /\
        Unpacker.off u + k <= Unpacker.off u' <= zlen (Unpacker.msg u) /\ P a
    | (Err e, u') =>
        Unpacker.msg u' = Unpacker.msg u /\
        0 <= Unpacker.off u' <= zlen (Unpacker.msg u) /\ err_ok (zlen (Unpacker.msg u)) e
    end.

(** ** Rules *)

Lemma reads_mono {A} k k' (m : U A) (P Q : A -> Prop) :
  reads k m P -> k' <= k -> (forall a, P a -> Q a) -> reads k' m Q.
Proof.
  intros H Hk HPQ u Hu. specialize (H u Hu). destruct (m u) as [[a|e] u']; [|done].
  destruct H as (? & ? & ?). split_and!; try done; [lia|lia|auto].
Qed.

Lemma reads_ret {A} k (a : A) (P : A -> Prop) : k <= 0 -> P a -> reads k (Unpacker.ret a) P.
Proof. intros Hk HP u (? & ?). cbn. split_and!; (done || lia). Qed.

Lemma reads_fail {A} k e (P : A -> Prop) : (forall len, err_ok len e) -> reads k (Unpacker.fail e) P.
Proof. intros He u (? & ?). cbn. split_and!; try done; lia. Qed.

Lemma reads_bind {A B} k k1 (m : U A) (f : A -> U B) (P : A -> Prop) (Q : B -> Prop) :
  0 <= k1 -> reads k1 m P -> (forall a, P a -> reads (k - k1) (f a) Q) -> reads k (Unpacker.bind m f) Q.
Proof.
  intros Hk1 Hm Hf u Hu. specialize (Hm u Hu). unfold Unpacker.bind.
  destruct (m u) as [[a|e] u']; [|done]. destruct Hm as (E & Ho & HP).
  assert (valid u') as Hu' by (destruct Hu; split; [by rewrite E|rewrite E; lia]).
  specialize (Hf a HP u' Hu'). rewrite E in Hf. destruct (f a u') as [[b|e] u'']; [|done].
  destruct Hf as (? & ? & ?). split_and!; (done || lia).
Qed.

Lemma reads_if {A} k (b : bool) (m n : U A) P :
  (b = true -> reads k m P) -> (b = false -> reads k n P) -> reads k (if b then m else n) P.
Proof. destruct b; auto. Qed.

(** Access to the offset: the continuation is verified for any offset. *)
Lemma reads_Off {B} k (f : Z -> U B) Q :
  (forall o, reads k (f o) Q) -> reads k (Unpacker.bind Unpacker.Off f) Q.
Proof. intros H u Hu. unfold Unpacker.bind, Unpacker.Off. by apply H. Qed.

Lemma reads_Remaining {B} k (f : Z -> U B) Q :
  (forall o, reads k (f o) Q) -> reads k (Unpacker.bind Unpacker.Remaining f) Q.
Proof. intros H u Hu. unfold Unpacker.bind, Unpacker.Remaining. by apply H. Qed.

Lemma reads_checkWindow {B} k e n (f : unit -> U B) Q :
  reads k (f tt) Q -> reads k (Unpacker.bind (checkWindow e n) f) Q.
Proof.
  intros H. unfold checkWindow. intros u Hu. unfold Unpacker.bind at 1 2, Unpacker.Off.
  split_if; [|by apply H]. by apply (reads_fail k ErrInvalidRData Q).
Qed.

Lemma reads_lift {X B} k (r : res X) (f : X -> U B) Q :
  (forall e, r = Err e -> forall len, err_ok len e) -> (forall x, r = Ok x -> reads k (f x) Q) ->
  reads k (Unpacker.bind (lift r) f) Q.
Proof.
  intros He Hf u Hu. unfold Unpacker.bind, lift. destruct r as [x|e]; [by apply Hf|].
  apply (reads_fail k e Q); [by apply He|done].
Qed.

Lemma reads_withEnd {B} k rdlen (f : Z -> U B) Q :
  (forall e, reads k (f e) Q) -> reads k (withEnd rdlen f) Q.
Proof. intros H. apply reads_Off. intros o. apply H. Qed.

(** ** Primitives *)

Lemma reads_Uint8 : reads 1 Unpacker.Uint8 u8.
Proof.
  intros u [Hb Ho]. unfold Unpacker.Uint8. split_if; bool_facts; cbn; split_and!; try done; try lia.
  apply zget_u8; [done|lia].
Qed.

Lemma reads_Uint16 : reads 2 Unpacker.Uint16 u16.
Proof.
  intros u [Hb Ho]. unfold Unpacker.Uint16. split_if; bool_facts; cbn; split_and!; try done; try lia.
  apply get16_range; apply zget_u8; (done || lia).
Qed.

Lemma reads_Uint32 : reads 4 Unpacker.Uint32 u32.
Proof.
  intros u [Hb Ho]. unfold Unpacker.Uint32. split_if; bool_facts; cbn; split_and!; try done; try lia.
  apply get32_range; apply zget_u8; (done || lia).
Qed.

Lemma is_bytes_zslice msg a b : is_bytes msg -> is_bytes (zslice msg a b).
Proof. intros H. unfold zslice. by apply Forall_take, Forall_drop. Qed.

Lemma reads_Bytes n : reads (Z.max 0 n) (Unpacker.Bytes n) (fun b : bytes => is_bytes b /\ zlen b = n).
Proof.
  intros u [Hb Ho]. unfold Unpacker.Bytes. destruct (_ || _) eqn:E; cbn.
  { split_and!; try done; lia. }
  bool_facts. split_and!; try done; try lia; [by apply is_bytes_zslice|].
  by apply at_bytes_of_slice; lia.
Qed.

Lemma reads_bytesTo e : reads 0 (bytesTo e) is_bytes.
Proof. apply reads_Off. intros o. eapply reads_mono; [apply reads_Bytes|lia|by intros ? []]. Qed.

(** Forget how the end of a window was clamped. *)
Ltac clamp_end e :=
  match goal with
  | |- context [if ?c then zlen ?m else ?y] => generalize (if c then zlen m else y); intros e
  end.

Lemma reads_CharStringInRange e :
  reads 1 (Unpacker.CharStringInRange e) (fun s : bytes => is_bytes s /\ zlen s <= 255).
Proof.
  intros u Hu. unfold Unpacker.CharStringInRange. clamp_end e'.
  split_if; [destruct Hu; cbn; split_and!; try done; lia|].
  pose proof (reads_Uint8 u Hu) as H8. destruct (Unpacker.Uint8 u) as [[l|?] u']; [|done].
  destruct H8 as (E & Ho & Hl). split_if; [cbn; destruct Hu; split_and!; try done; lia|].
  assert (valid u') as Hu' by (destruct Hu; split; [by rewrite E|rewrite E; lia]).
  pose proof (reads_Bytes l u' Hu') as HB. rewrite E in HB.
  destruct (Unpacker.Bytes l u') as [[s|?] u'']; [|done]. destruct HB as (? & ? & ? & ?).
  unfold u8 in Hl. split_and!; (done || lia).
Qed.

(** *** Names *)

Lemma name_at_next msg off ls h nx : name_at msg off ls h nx -> nx <= zlen msg.
Proof.
  induction 1 as [off Ha|off l ls h nx Ha Hl Hn IH|off hi lo ls h nx Ha Hhi Hlo Hlt Hn IH]; try done;
    apply at_bytes_len in Ha; llia.
Qed.

Lemma DecodeWire_ok msg off n nx :
  is_bytes msg -> DecodeWire msg off = Ok (n, nx) -> canonical n /\ off < nx <= zlen msg.
Proof.
  intros Hb (ls & h & Hn & _ & Hl & ->)%DecodeWire_spec; [|done].
  split; [apply encName_canonical; [by eapply name_at_labels|done]|].
  pose proof (name_at_off _ _ _ _ _ Hn). pose proof (name_at_next _ _ _ _ _ Hn). lia.
Qed.

Lemma DecodeWire_err msg off e : is_bytes msg -> DecodeWire msg off = Err e -> e = ErrInvalidName.
Proof.
  intros Hb E. destruct (DecodeWire_error msg off e Hb E) as [->| ->]; [done|]. by apply DecodeWire_fuel in E.
Qed.

Lemma DecodeWireUncompressed_err msg off e :
  is_bytes msg -> DecodeWireUncompressed msg off = Err e -> e = ErrInvalidName.
Proof.
  intros Hb. unfold DecodeWireUncompressed. destruct (_ || _) eqn:Eo; [by intros [= <-]|]. bool_facts.
  assert (forall fuel cur total out, 0 <= cur -> 0 <= total <= maxNameLen -> maxNameLen - total < Z.of_nat fuel ->
    DecodeWireUncompressed_loop fuel msg cur total out = Err e -> e = ErrInvalidName) as Hl.
  { induction fuel as [|fuel IH]; intros cur total out Hc Ht Hf; [lia|]. cbn [DecodeWireUncompressed_loop].
    destruct (_ <=? _) eqn:E1; [by intros [= <-]|]. bool_facts.
    pose proof (zget_u8 msg cur Hb ltac:(lia)) as Hu. unfold u8 in Hu. cbv zeta.
    repeat (split_if; try (by intros [= <-])). bool_facts. apply IH; lia. }
  apply Hl; unfold maxNameLen, decodeFuel; lia.
Qed.

Lemma reads_Name : reads 1 Unpacker.Name canonical.
Proof.
  intros u [Hb Ho]. unfold Unpacker.Name. destruct (DecodeWire _ _) as [[n nx]|e] eqn:E.
  - apply DecodeWire_ok in E as [? ?]; [|done]. cbn. split_and!; (done || lia).
  - apply DecodeWire_err in E as ->; [|done]. split_and!; (done || lia).
Qed.

Lemma reads_NameInRange e : reads 1 (Unpacker.NameInRange e) canonical.
Proof.
  intros u [Hb Ho]. unfold Unpacker.NameInRange. clamp_end e'.
  split_if; [split_and!; (done || lia)|]. destruct (DecodeWire _ _) as [[n nx]|?] eqn:E.
  - apply DecodeWire_ok in E as [? ?]; [|done]. split_if; cbn; split_and!; (done || lia).
  - apply DecodeWire_err in E as ->; [|done]. split_and!; (done || lia).
Qed.

Lemma zlen_prefix (msg : bytes) e : zlen (zslice msg 0 e) <= zlen msg.
Proof. unfold zslice, zlen. rewrite length_take, length_drop. lia. Qed.

Lemma reads_uncompressedName e : reads 1 (uncompressedNameTo e) canonical.
Proof.
  apply reads_Off. intros o u [Hb Ho]. unfold Unpacker.UncompressedName. cbv zeta.
  clamp_end e'. split_if; [split_and!; (done || lia)|].
  pose proof (is_bytes_zslice _ 0 e' Hb) as Hb'. pose proof (zlen_prefix (Unpacker.msg u) e').
  destruct (DecodeWireUncompressed _ _) as [[n nx]|?] eqn:E.
  - apply DecodeWireUncompressed_refines, DecodeWire_ok in E as [? ?]; [|done]. cbn. split_and!; (done || lia).
  - apply DecodeWireUncompressed_err in E as ->; [|done]. split_and!; (done || lia).
Qed.

(** ** Loops *)

(** A loop whose body consumes at least one byte per iteration ends within
    the bytes of its window. *)
Lemma reads_untilEnd {T} e (body : T -> U T) (I : T -> Prop) fuel s :
  (forall s, I s -> reads 1 (body s) I) -> I s ->
  forall u, valid u -> Z.max 0 (e - Unpacker.off u) < Z.of_nat fuel ->
    match untilEnd fuel e body s u with
    | (Ok a, u') => Unpacker.msg u' = Unpacker.msg u /\ Unpacker.off u <= Unpacker.off u' <= zlen (Unpacker.msg u) /\
        I a /\ e <= Unpacker.off u'
    | (Err x, u') => Unpacker.msg u' = Unpacker.msg u /\ 0 <= Unpacker.off u' <= zlen (Unpacker.msg u) /\
        err_ok (zlen (Unpacker.msg u)) x
    end.
Proof.
  intros Hbody. revert s. induction fuel as [|fuel IH]; intros s Hs u Hu Hf; [lia|].
  cbn [untilEnd]. unfold Unpacker.bind at 1, Unpacker.Off. destruct (_ <? _) eqn:E; bool_facts.
  - specialize (Hbody s Hs u Hu). unfold Unpacker.bind. destruct (body s u) as [[a|x] u']; [|done].
    destruct Hbody as (Em & Ho & Ha).
    assert (valid u') as Hu' by (destruct Hu; split; [by rewrite Em|rewrite Em; lia]).
    specialize (IH a Ha u' Hu' ltac:(lia)). rewrite Em in IH.
    destruct (untilEnd fuel e body a u') as [[b|x] u'']; [|done].
    destruct IH as (? & ? & ? & ?). split_and!; (done || lia).
  - destruct Hu. cbn. split_and!; (done || lia).
Qed.

Lemma reads_loop {T} e (body : T -> U T) (I : T -> Prop) s :
  (forall s, I s -> reads 1 (body s) I) -> I s -> reads 0 (loopUntil e body s) I.
Proof.
  intros Hbody Hs u Hu. unfold loopUntil, Unpacker.bind, Unpacker.Off.
  pose proof (reads_untilEnd e body I (S (Z.to_nat (e - Unpacker.off u))) s Hbody Hs u Hu ltac:(lia)) as H.
  destruct (untilEnd _ _ _ _ _) as [[a|x] u']; [|done]. destruct H as (? & ? & ? & _). split_and!; (done || lia).
Qed.

(** A loop that appends to its result, over a window that is not empty. *)
Lemma reads_collect {X} rdlen (body : Z -> list X -> U (list X)) (P : X -> Prop) :
  1 <= rdlen ->
  (forall e s, reads 1 (body e s) (fun s' => exists x, s' = s ++ [x] /\ P x)) ->
  reads 1 (withEnd rdlen (fun e => loopUntil e (body e) [])) (fun l => Forall P l /\ l <> []).
Proof.
  intros Hr Hbody u Hu. unfold withEnd, loopUntil. unfold Unpacker.bind, Unpacker.Off.
  set (e := Unpacker.off u + rdlen). cbn [untilEnd]. unfold Unpacker.bind, Unpacker.Off.
  destruct (_ <? _) eqn:E; bool_facts; [|lia].
  pose proof (Hbody e [] u Hu) as Hb. destruct (body e [] u) as [[l|x] u']; [|done].
  destruct Hb as (Em & Ho & x & -> & Hx).
  assert (valid u') as Hu' by (destruct Hu; split; [by rewrite Em|rewrite Em; lia]).
  pose proof (reads_untilEnd e (body e) (fun l => Forall P l /\ l <> []) (Z.to_nat (e - Unpacker.off u)) ([] ++ [x])) as H.
  specialize (H ltac:(intros s [Hs _]; eapply reads_mono; [apply Hbody|lia|]; intros ? (y & -> & Hy);
    split; [apply Forall_app; by split; [|constructor]|by destruct s])
    ltac:(split; [by constructor|done]) u' Hu' ltac:(subst e; lia)). rewrite Em in H.
  destruct (untilEnd _ _ _ _ _) as [[a|y] u'']; [|done].
  destruct H as (? & ? & (? & ?) & _). split_and!; (done || lia).
Qed.
