(* ===== verification/RDataReads.v ===== *)
(** * Robustness of rdata.Unpack

    On every byte sequence, for every type and length, [rdata.Unpack] either
    fails with an ordinary error or returns a payload in normal form whose
    names are canonical: what was decoded can be encoded again. *)

From Stdlib Require Import Sorted.
From S2P Require Import Prelude Name Wire RData RDataCodec TypeBitmap RDataRoundtrip Reader.

(** In normal form, with canonical names, and of the requested type. *)
Definition decoded_as (t : Z) (rd : RData) : Prop := rd_okP canonical rd /\ Type_ rd = t.

Create HintDb reads discriminated.
#[export] Hint Resolve reads_Uint8 reads_Uint16 reads_Uint32 reads_Bytes reads_bytesTo
  reads_CharStringInRange reads_Name reads_NameInRange reads_uncompressedName : reads.

(** One step through the body of a reader. *)
Ltac rstep :=
  lazymatch goal with
  | |- reads _ (Unpacker.bind Unpacker.Off _) _ => apply reads_Off; intros ?
  | |- reads _ (Unpacker.bind Unpacker.Remaining _) _ => apply reads_Remaining; intros ?
  | |- reads _ (Unpacker.bind (checkWindow _ _) _) _ => apply reads_checkWindow
  | |- reads _ (Unpacker.bind (lift _) _) _ => apply reads_lift; [|intros ? ?]
  | |- reads _ (Unpacker.bind _ _) _ =>
      eapply reads_bind; [|solve [eauto 2 with reads nocore]|intros ? ?]; [lia|]
  | |- reads _ (withEnd _ _) _ => apply reads_withEnd; intros ?
  | |- reads _ (if _ then _ else _) _ => apply reads_if; intros ?
  | |- reads _ (Unpacker.fail _) _ => apply reads_fail; intros; exact I
  | |- reads _ (Unpacker.ret _) _ => apply reads_ret; [lia|]
  end.

Ltac ok_facts :=
  cbn beta in *;
  repeat match goal with
  | H : _ /\ _ |- _ => destruct H
  | H : (_ || _)%bool = false |- _ => apply orb_false_iff in H as [? ?]
  | H : negb _ = false |- _ => apply negb_false_iff in H
  | H : (_ =? _) = true |- _ => apply Z.eqb_eq in H
  | H : (_ =? _) = false |- _ => apply Z.eqb_neq in H
  | H : (_ <? _) = false |- _ => apply Z.ltb_ge in H
  end.

Lemma u64_join hi lo : u32 hi -> u32 lo -> u64 (Z.lor (Z.shiftl hi 32) lo).
Proof. unfold u32, u64. intros. rewrite lor_shiftl_add by lia. lia. Qed.

Ltac ok_field :=
  first [ assumption | reflexivity | done | by constructor | by apply u64_join
        | match goal with
          | |- str_ok _ => split
          | |- blob_ok _ => split
          | |- addr4_ok _ => eexists; split; [reflexivity|split]
          | |- addr6_ok _ => eexists; split; [reflexivity|split]
          | |- secs_ok (?s * _) => exists s; split
          end; ok_field
        | intros ->; llia | llia ].

Ltac ok_end := split; [|reflexivity]; cbn [rd_okP]; cbn beta in *; ok_facts; subst; split_and?; ok_field.
Ltac rreads := repeat rstep; try solve [ok_end].

Lemma reads_unpackA rdlen : 1 <= rdlen -> reads 0 (unpackA rdlen) (decoded_as rrtype.A).
Proof. intros. unfold unpackA. rreads. Qed.
Lemma reads_unpackAAAA rdlen : 1 <= rdlen -> reads 0 (unpackAAAA rdlen) (decoded_as rrtype.AAAA).
Proof. intros. unfold unpackAAAA. rreads. Qed.
Lemma reads_unpackCNAME rdlen : 1 <= rdlen -> reads 0 (unpackCNAME rdlen) (decoded_as rrtype.CNAME).
Proof. intros. unfold unpackCNAME. rreads. Qed.
Lemma reads_unpackNS rdlen : 1 <= rdlen -> reads 0 (unpackNS rdlen) (decoded_as rrtype.NS).
Proof. intros. unfold unpackNS. rreads. Qed.
Lemma reads_unpackPTR rdlen : 1 <= rdlen -> reads 0 (unpackPTR rdlen) (decoded_as rrtype.PTR).
Proof. intros. unfold unpackPTR. rreads. Qed.
Lemma reads_unpackNSAPPTR rdlen : 1 <= rdlen -> reads 0 (unpackNSAPPTR rdlen) (decoded_as rrtype.NSAPPTR).
Proof. intros. unfold unpackNSAPPTR. rreads. Qed.
Lemma reads_unpackDNAME rdlen : 1 <= rdlen -> reads 0 (unpackDNAME rdlen) (decoded_as rrtype.DNAME).
Proof. intros. unfold unpackDNAME. rreads. Qed.
Lemma reads_unpackMX rdlen : 1 <= rdlen -> reads 0 (unpackMX rdlen) (decoded_as rrtype.MX).
Proof. intros. unfold unpackMX. rreads. Qed.
Lemma reads_unpackKX rdlen : 1 <= rdlen -> reads 0 (unpackKX rdlen) (decoded_as rrtype.KX).
Proof. intros. unfold unpackKX. rreads. Qed.
Lemma reads_unpackSRV rdlen : 1 <= rdlen -> reads 0 (unpackSRV rdlen) (decoded_as rrtype.SRV).
Proof. intros. unfold unpackSRV. rreads. Qed.
Lemma reads_unpackSOA rdlen : 1 <= rdlen -> reads 0 (unpackSOA rdlen) (decoded_as rrtype.SOA).
Proof. intros. unfold unpackSOA. rreads. Qed.
Lemma reads_unpackHINFO rdlen : 1 <= rdlen -> reads 0 (unpackHINFO rdlen) (decoded_as rrtype.HINFO).
Proof. intros. unfold unpackHINFO. rreads. Qed.
Lemma reads_unpackX25 rdlen : 1 <= rdlen -> reads 0 (unpackX25 rdlen) (decoded_as rrtype.X25).
Proof. intros. unfold unpackX25. rreads. Qed.
Lemma reads_unpackISDN rdlen : 1 <= rdlen -> reads 0 (unpackISDN rdlen) (decoded_as rrtype.ISDN).
Proof. intros. unfold unpackISDN. rreads. Qed.
Lemma reads_unpackRP rdlen : 1 <= rdlen -> reads 0 (unpackRP rdlen) (decoded_as rrtype.RP).
Proof. intros. unfold unpackRP. rreads. Qed.
Lemma reads_unpackAFSDB rdlen : 1 <= rdlen -> reads 0 (unpackAFSDB rdlen) (decoded_as rrtype.AFSDB).
Proof. intros. unfold unpackAFSDB. rreads. Qed.
Lemma reads_unpackRT rdlen : 1 <= rdlen -> reads 0 (unpackRT rdlen) (decoded_as rrtype.RT).
Proof. intros. unfold unpackRT. rreads. Qed.
Lemma reads_unpackCAA rdlen : 1 <= rdlen -> reads 0 (unpackCAA rdlen) (decoded_as rrtype.CAA).
Proof. intros. unfold unpackCAA. rreads. Qed.
Lemma reads_unpackDNSKEY rdlen : 1 <= rdlen -> reads 0 (unpackDNSKEY rdlen) (decoded_as rrtype.DNSKEY).
Proof. intros. unfold unpackDNSKEY. rreads. Qed.
Lemma reads_unpackDS rdlen : 1 <= rdlen -> reads 0 (unpackDS rdlen) (decoded_as rrtype.DS).
Proof. intros. unfold unpackDS. rreads. Qed.
Lemma reads_unpackRRSIG rdlen : 1 <= rdlen -> reads 0 (unpackRRSIG rdlen) (decoded_as rrtype.RRSIG).
Proof. intros. unfold unpackRRSIG. rreads. Qed.
Lemma reads_unpackNSEC3PARAM rdlen : 1 <= rdlen -> reads 0 (unpackNSEC3PARAM rdlen) (decoded_as rrtype.NSEC3PARAM).
Proof. intros. unfold unpackNSEC3PARAM. rreads. Qed.
Lemma reads_unpackNAPTR rdlen : 1 <= rdlen -> reads 0 (unpackNAPTR rdlen) (decoded_as rrtype.NAPTR).
Proof. intros. unfold unpackNAPTR. rreads. Qed.
Lemma reads_unpackNSAP rdlen : 1 <= rdlen -> reads 0 (unpackNSAP rdlen) (decoded_as rrtype.NSAP).
Proof. intros. unfold unpackNSAP. rreads. Qed.
Lemma reads_unpackDHCID rdlen : 1 <= rdlen -> reads 0 (unpackDHCID rdlen) (decoded_as rrtype.DHCID).
Proof. intros. unfold unpackDHCID. rreads. Qed.
Lemma reads_unpackOPENPGPKEY rdlen : 1 <= rdlen -> reads 0 (unpackOPENPGPKEY rdlen) (decoded_as rrtype.OPENPGPKEY).
Proof. intros. unfold unpackOPENPGPKEY. rreads. Qed.
Lemma reads_unpackEUI48 rdlen : 1 <= rdlen -> reads 0 (unpackEUI48 rdlen) (decoded_as rrtype.EUI48).
Proof. intros. unfold unpackEUI48. rreads. Qed.
Lemma reads_unpackEUI64 rdlen : 1 <= rdlen -> reads 0 (unpackEUI64 rdlen) (decoded_as rrtype.EUI64).
Proof. intros. unfold unpackEUI64. rreads. Qed.
Lemma reads_unpackLOC rdlen : 1 <= rdlen -> reads 0 (unpackLOC rdlen) (decoded_as rrtype.LOC).
Proof. intros. unfold unpackLOC. rreads. Qed.
Lemma reads_unpackNID rdlen : 1 <= rdlen -> reads 0 (unpackNID rdlen) (decoded_as rrtype.NID).
Proof. intros. unfold unpackNID. rreads. Qed.
Lemma reads_unpackL32 rdlen : 1 <= rdlen -> reads 0 (unpackL32 rdlen) (decoded_as rrtype.L32).
Proof. intros. unfold unpackL32. rreads. Qed.
Lemma reads_unpackL64 rdlen : 1 <= rdlen -> reads 0 (unpackL64 rdlen) (decoded_as rrtype.L64).
Proof. intros. unfold unpackL64. rreads. Qed.
Lemma reads_unpackLP rdlen : 1 <= rdlen -> reads 0 (unpackLP rdlen) (decoded_as rrtype.LP).
Proof. intros. unfold unpackLP. rreads. Qed.
Lemma reads_unpackURI rdlen : 1 <= rdlen -> reads 0 (unpackURI rdlen) (decoded_as rrtype.URI).
Proof. intros. unfold unpackURI. rreads. Qed.
Lemma reads_unpackZONEMD rdlen : 1 <= rdlen -> reads 0 (unpackZONEMD rdlen) (decoded_as rrtype.ZONEMD).
Proof. intros. unfold unpackZONEMD. rreads. Qed.
Lemma reads_unpackSSHFP rdlen : 1 <= rdlen -> reads 0 (unpackSSHFP rdlen) (decoded_as rrtype.SSHFP).
Proof. intros. unfold unpackSSHFP. rreads. Qed.
Lemma reads_unpackTLSA rdlen : 1 <= rdlen -> reads 0 (unpackTLSA rdlen) (decoded_as rrtype.TLSA).
Proof. intros. unfold unpackTLSA. rreads. Qed.
Lemma reads_unpackSMIMEA rdlen : 1 <= rdlen -> reads 0 (unpackSMIMEA rdlen) (decoded_as rrtype.SMIMEA).
Proof. intros. unfold unpackSMIMEA. rreads. Qed.
Lemma reads_unpackCDS rdlen : 1 <= rdlen -> reads 0 (unpackCDS rdlen) (decoded_as rrtype.CDS).
Proof. intros. unfold unpackCDS. rreads. Qed.
Lemma reads_unpackCDNSKEY rdlen : 1 <= rdlen -> reads 0 (unpackCDNSKEY rdlen) (decoded_as rrtype.CDNSKEY).
Proof. intros. unfold unpackCDNSKEY. rreads. Qed.
Lemma reads_unpackCERT rdlen : 1 <= rdlen -> reads 0 (unpackCERT rdlen) (decoded_as rrtype.CERT).
Proof. intros. unfold unpackCERT. rreads. Qed.
Lemma reads_unpackTKEY rdlen : 1 <= rdlen -> reads 0 (unpackTKEY rdlen) (decoded_as rrtype.TKEY).
Proof. intros. unfold unpackTKEY. rreads. Qed.

(** ** Lists of strings, names and items *)

Lemma reads_unpackStrings t rdlen (mkRD : list bytes -> RData) :
  1 <= rdlen -> (forall l, strs_ok l -> decoded_as t (mkRD l)) ->
  reads 0 (withEnd rdlen (fun e => do out <- unpackStrings e; Unpacker.ret (mkRD out))) (decoded_as t).
Proof.
  intros Hr Hmk u Hu.
  pose proof (reads_collect rdlen (fun e out => do s <- Unpacker.CharStringInRange e; Unpacker.ret (out ++ [s])) str_ok Hr) as Hc.
  change (match Unpacker.bind (withEnd rdlen unpackStrings) (fun out => Unpacker.ret (mkRD out)) u with
    | (Ok a, u') => Unpacker.msg u' = Unpacker.msg u /\ Unpacker.off u + 0 <= Unpacker.off u' <= zlen (Unpacker.msg u) /\ decoded_as t a
    | (Err e, u') => Unpacker.msg u' = Unpacker.msg u /\ 0 <= Unpacker.off u' <= zlen (Unpacker.msg u) /\ err_ok (zlen (Unpacker.msg u)) e
    end).
  revert u Hu. eapply reads_bind; [|apply Hc|]; [lia| |].
  - intros e s. rstep. apply reads_ret; [lia|]. by exists a.
  - intros l Hl. apply reads_ret; [lia|]. by apply Hmk.
Qed.

Lemma reads_unpackTXT rdlen : 1 <= rdlen -> reads 0 (unpackTXT rdlen) (decoded_as rrtype.TXT).
Proof. intros. by apply (reads_unpackStrings _ rdlen RD_TXT). Qed.
Lemma reads_unpackSPF rdlen : 1 <= rdlen -> reads 0 (unpackSPF rdlen) (decoded_as rrtype.SPF).
Proof. intros. by apply (reads_unpackStrings _ rdlen RD_SPF). Qed.
Lemma reads_unpackRESINFO rdlen : 1 <= rdlen -> reads 0 (unpackRESINFO rdlen) (decoded_as rrtype.RESINFO).
Proof. intros. by apply (reads_unpackStrings _ rdlen RD_RESINFO). Qed.

Lemma zlen_copyInto n afd : zlen (copyInto n afd) = Z.of_nat n.
Proof. unfold copyInto, zlen. rewrite length_take, length_app, length_replicate. lia. Qed.

Lemma is_bytes_copyInto n afd : is_bytes afd -> is_bytes (copyInto n afd).
Proof. intros H. apply Forall_take, Forall_app_2; [done|]. apply Forall_replicate. unfold u8. lia. Qed.

Lemma decodeAPLAFD_inv fam pfx afd p ng :
  u8 pfx -> is_bytes afd -> decodeAPLAFD fam pfx afd = Ok p -> apl_ok (mkAPLItem fam p ng).
Proof.
  intros Hp Hb. unfold decodeAPLAFD. destruct (fam =? 1) eqn:E1; [|destruct (fam =? 2) eqn:E2; [|done]];
    (destruct (_ || _) eqn:E; [done|]); intros [= <-]; bool_facts; subst; [left|right];
    (split; [done|]); cbn; unfold u8 in Hp; (split; [|lia]); eexists; (split; [reflexivity|]);
    (split; [by apply is_bytes_copyInto|apply zlen_copyInto]).
Qed.

Lemma decodeAPLAFD_err fam pfx afd e : decodeAPLAFD fam pfx afd = Err e -> e = ErrInvalidRData.
Proof. unfold decodeAPLAFD. repeat split_if; by intros [= <-]. Qed.

Lemma reads_aplStep e s : reads 1 (aplStep e s) (fun s' => exists x, s' = s ++ [x] /\ apl_ok x).
Proof.
  unfold aplStep. cbv zeta. repeat rstep.
  - intros x Hx len. apply decodeAPLAFD_err in Hx as ->. done.
  - eexists. split; [reflexivity|]. ok_facts. eapply decodeAPLAFD_inv; [| |eassumption]; done.
Qed.

Lemma reads_unpackAPL rdlen : 1 <= rdlen -> reads 0 (unpackAPL rdlen) (decoded_as rrtype.APL).
Proof.
  intros Hr u Hu.
  pose proof (reads_collect rdlen aplStep apl_ok Hr reads_aplStep) as Hc.
  change (unpackAPL rdlen u) with (Unpacker.bind (withEnd rdlen (fun e => loopUntil e (aplStep e) [])) (fun items => Unpacker.ret (RD_APL items)) u).
  revert u Hu. eapply reads_bind; [|apply Hc|]; [lia|].
  intros l Hl. by apply reads_ret; [lia|].
Qed.

Lemma reads_unpackHIP rdlen : 1 <= rdlen -> reads 0 (unpackHIP rdlen) (decoded_as rrtype.HIP).
Proof.
  intros. unfold unpackHIP. repeat rstep.
  eapply reads_bind; [|apply (reads_loop _ _ (Forall canonical))|]; [lia| |constructor|].
  - intros s Hs. repeat rstep. apply Forall_app_2; [done|by constructor].
  - intros rvs Hrvs. rstep. ok_end.
Qed.

(** ** Gateways *)

Lemma reads_unpackGateway e gt : reads 0 (unpackGateway e gt) (fun r => gateway_ok gt (fst r) (snd r)).
Proof.
  unfold unpackGateway. repeat rstep; cbn beta in *; bool_facts; ok_facts; cbn [fst snd].
  - by left.
  - right; left. split_and!; try done. by exists a.
  - right; right; left. split_and!; try done. by exists a.
  - right; right; right. done.
Qed.
#[export] Hint Resolve reads_unpackGateway : reads.

Lemma reads_unpackIPSECKEY rdlen : 1 <= rdlen -> reads 0 (unpackIPSECKEY rdlen) (decoded_as rrtype.IPSECKEY).
Proof. intros. unfold unpackIPSECKEY. rreads. Qed.

Lemma reads_unpackAMTRELAY rdlen : 1 <= rdlen -> reads 0 (unpackAMTRELAY rdlen) (decoded_as rrtype.AMTRELAY).
Proof. intros. unfold unpackAMTRELAY. cbv zeta. rreads. Qed.

(** ** Type bitmaps *)

Lemma windowTypes_facts w bm :
  u8 w -> zlen bm <= 32 ->
  StronglySorted Z.lt (windowTypes w 0 bm) /\
  forall t, t ∈ windowTypes w 0 bm -> w * 256 <= t < w * 256 + 256 /\ u16 t.
Proof.
  intros Hw Hl. split.
  - rewrite windowTypes_bits by lia. by apply sorted_shift, sorted_filter, seqZ_sorted.
  - intros t Ht. apply (elem_of_bucketTypes (mkBucket w bm)) in Ht as (j & -> & _ & Hj); [|done].
    cbn [win bitmap] in *. unfold u8, u16 in *. lia.
Qed.

(** What holds of [out], [lastWin] and [first] before each window. *)
Definition bitmap_inv (st : list Z * Z * bool) : Prop :=
  let '(out, lastWin, first) := st in
  types_ok out /\ (if first : bool then out = [] else forall t, t ∈ out -> t < lastWin * 256 + 256).

Lemma reads_bitmapStep e st : bitmap_inv st -> reads 1 (bitmapStep e st) bitmap_inv.
Proof.
  destruct st as [[out lw] first]. intros [[Hu Hs] Hlt]. unfold bitmapStep. repeat rstep.
  ok_facts. destruct (windowTypes_facts a a1) as [Hws Hwr]; [done|lia|]. split; [split|].
  - apply Forall_app_2; [done|]. apply Forall_forall. intros t Ht. by apply Hwr.
  - apply sorted_app; [done..|]. intros x y Hx Hy. destruct first; [by rewrite Hlt in Hx; apply not_elem_of_nil in Hx|].
    specialize (Hlt _ Hx). destruct (Hwr _ Hy) as [? _].
    match goal with H : negb false && _ = false |- _ => cbn in H; apply Z.leb_gt in H end. lia.
  - intros t [Ht|Ht]%elem_of_app.
    + destruct first; [by rewrite Hlt in Ht; apply not_elem_of_nil in Ht|]. specialize (Hlt _ Ht).
      match goal with H : negb false && _ = false |- _ => cbn in H; apply Z.leb_gt in H end. lia.
    + apply Hwr in Ht. lia.
Qed.

Lemma reads_decodeTypeBitmap e : reads 0 (decodeTypeBitmap e) types_ok.
Proof.
  unfold decodeTypeBitmap. eapply reads_bind; [|apply (reads_loop _ _ bitmap_inv)|]; [lia|apply reads_bitmapStep| |].
  - split; [split; constructor|done].
  - intros [[out ?] ?] [Hok _]. by apply reads_ret; [lia|].
Qed.
#[export] Hint Resolve reads_decodeTypeBitmap : reads.

Lemma reads_unpackNSEC rdlen : 1 <= rdlen -> reads 0 (unpackNSEC rdlen) (decoded_as rrtype.NSEC).
Proof. intros. unfold unpackNSEC. rreads. Qed.
Lemma reads_unpackCSYNC rdlen : 1 <= rdlen -> reads 0 (unpackCSYNC rdlen) (decoded_as rrtype.CSYNC).
Proof. intros. unfold unpackCSYNC. rreads. Qed.
Lemma reads_unpackNSEC3 rdlen : 1 <= rdlen -> reads 0 (unpackNSEC3 rdlen) (decoded_as rrtype.NSEC3).
Proof. intros. unfold unpackNSEC3. rreads. Qed.

(** ** SVCB and HTTPS *)

Definition plain_err {X} (r : res X) : Prop := forall e, r = Err e -> e = ErrInvalidRData.

Lemma decodeALPN_err buf : plain_err (decodeALPN buf).
Proof.
  intros e. unfold decodeALPN.
  assert (forall fuel buf out, (length buf <= fuel)%nat -> decodeALPN_loop fuel buf out = Err e -> e = ErrInvalidRData) as H.
  { induction fuel as [|fuel IH]; intros [|l rest] out Hf; cbn in *; try done; [lia|].
    repeat split_if; try (by intros [= <-]). apply IH. rewrite length_drop. lia. }
  by apply H.
Qed.

Lemma validateSvcParam_err sp : plain_err (validateSvcParam sp).
Proof.
  intros e. unfold validateSvcParam. split_if; [|done].
  destruct (decodeALPN (data sp)) eqn:E; cbn; [done|]. intros [= ->]. by apply decodeALPN_err in E.
Qed.

Lemma validateMandatoryParam_err ps : plain_err (validateMandatoryParam ps).
Proof.
  intros e. unfold validateMandatoryParam. destruct (findMandatory ps) as [m|]; [|done].
  repeat (split_if; [by intros [= <-]|]). generalize (-1) (data m) (map key ps). intros k d seen.
  assert (forall n d k, (length d <= n)%nat -> mandatory_loop d k seen = Err e -> e = ErrInvalidRData) as H.
  { clear. induction n as [|n IH]; intros [|a [|b d]] k Hl; cbn in *; try done; try lia.
    repeat (split_if; [by intros [= <-]|]). apply IH. lia. }
  by eapply H.
Qed.

(** What holds of the parameters read so far and of [lastKey]. *)
Definition svcb_inv (st : list SVCBParam * Z) : Prop :=
  Forall param_ok (fst st) /\ StronglySorted Z.lt (map key (fst st)) /\
  Forall (fun p => key p <= snd st) (fst st) /\ validateAll (fst st) = Ok tt.

Lemma validateAll_snoc ps sp :
  validateAll ps = Ok tt -> validateSvcParam sp = Ok tt -> validateAll (ps ++ [sp]) = Ok tt.
Proof.
  intros H Hs. induction ps as [|p ps IH]; cbn in *; [by rewrite Hs|].
  destruct (validateSvcParam p); cbn in *; [by apply IH|done].
Qed.

Lemma reads_svcbStep e st : svcb_inv st -> reads 1 (svcbStep e st) svcb_inv.
Proof.
  destruct st as [ps lk]. intros (Hok & Hs & Hle & Hv). cbn [fst snd] in *. unfold svcbStep. cbv zeta.
  repeat rstep; [intros ? Hx ?; by apply validateSvcParam_err in Hx as ->|].
  ok_facts. match goal with H : (_ <=? _) = false |- _ => apply Z.leb_gt in H; rename H into Hgt end.
  unfold svcb_inv. cbn [fst snd]. rewrite map_app. cbn [map key]. split_and!.
  - apply Forall_app_2; [done|]. constructor; [|done]. split_and!; try done. cbn. llia.
  - apply sorted_app; [done|by repeat constructor|]. intros k1 k2 Hx Hy. apply list_elem_of_singleton in Hy as ->.
    change (map key ps) with (key <$> ps) in Hx. apply list_elem_of_fmap in Hx as (p & -> & Hp).
    rewrite Forall_forall in Hle. specialize (Hle _ Hp). cbn in Hle. lia.
  - apply Forall_app_2; [|constructor; [cbn; lia|done]]. eapply Forall_impl; [done|]. cbn. lia.
  - apply validateAll_snoc; [done|]. by match goal with H : _ = Ok ?x |- _ => destruct x end.
Qed.

Lemma reads_unpackSvcbBody rdlen : reads 0 (unpackSvcbBody rdlen) svcb_ok.
Proof.
  unfold unpackSvcbBody. cbv zeta. do 3 rstep.
  eapply reads_bind; [|apply (reads_loop _ _ svcb_inv); [apply reads_svcbStep|by repeat constructor]|]; [lia|].
  intros [ps lk] (Hok & Hs & _ & Hv). cbn [fst snd] in *. repeat rstep.
  - intros x Hx len. by apply validateMandatoryParam_err in Hx as ->.
  - split_and!; try done. by destruct x.
Qed.

Lemma reads_unpackSVCB t rdlen : reads 0 (unpackSVCB t rdlen) (decoded_as t).
Proof.
  unfold unpackSVCB. eapply reads_bind; [|apply reads_unpackSvcbBody|]; [lia|].
  intros b Hb. repeat rstep; bool_facts; by subst.
Qed.

(** ** The dispatch *)

#[export] Hint Resolve reads_unpackSVCB reads_unpackA reads_unpackAAAA reads_unpackCNAME
  reads_unpackNS reads_unpackPTR reads_unpackNSAPPTR reads_unpackDNAME reads_unpackMX reads_unpackKX
  reads_unpackSRV reads_unpackSOA reads_unpackHINFO reads_unpackX25 reads_unpackISDN reads_unpackRP
  reads_unpackAFSDB reads_unpackRT reads_unpackCAA reads_unpackDNSKEY reads_unpackDS
  reads_unpackRRSIG reads_unpackNSEC3PARAM reads_unpackNAPTR reads_unpackNSAP reads_unpackDHCID
  reads_unpackOPENPGPKEY reads_unpackEUI48 reads_unpackEUI64 reads_unpackLOC reads_unpackNID
  reads_unpackL32 reads_unpackL64 reads_unpackLP reads_unpackURI reads_unpackZONEMD
  reads_unpackSSHFP reads_unpackTLSA reads_unpackSMIMEA reads_unpackCDS reads_unpackCDNSKEY
  reads_unpackCERT reads_unpackTKEY reads_unpackTXT reads_unpackSPF reads_unpackRESINFO
  reads_unpackAPL reads_unpackHIP reads_unpackIPSECKEY reads_unpackAMTRELAY reads_unpackNSEC
  reads_unpackCSYNC reads_unpackNSEC3 : reads.

Lemma reads_unpackTyped t rdlen : 1 <= rdlen -> reads 0 (unpackTyped t rdlen) (decoded_as t).
Proof.
  intros Hr. unfold unpackTyped.
  repeat (apply reads_if; intros ?;
    [bool_facts; subst; clear - Hr; solve [eauto 2 with reads nocore]|]).
  assert (existsb (Z.eqb t) knownTypes = false) as Hex.
  { unfold knownTypes. cbn [existsb].
    repeat (apply orb_false_iff; split; [first [assumption | match goal with H : _ || _ = false |- _ => by apply orb_false_iff in H as [? ?] end]|]). done. }
  clear - Hr Hex. repeat rstep. split; [|done]. ok_facts. split; [done|by right].
Qed.

Lemma reads_Unpack t rdlen : reads 0 (Unpack t rdlen) (decoded_as t).
Proof.
  unfold Unpack. cbv zeta. rstep. rstep; [rstep|]. rstep; [rstep|].
  { split; [|done]. split; [constructor|by left]. }
  bool_facts. rstep. eapply reads_bind; [|apply reads_unpackTyped; lia|]; [lia|]. intros rd Hrd. by repeat rstep.
Qed.
#[export] Hint Resolve reads_Unpack : reads.

(** Success means the window was consumed exactly. *)
Lemma Unpack_exact t rdlen u rd u' :
  Unpack t rdlen u = (Ok rd, u') -> 0 <= rdlen /\ Unpacker.off u' = Unpacker.off u + rdlen.
Proof.
  unfold Unpack, Unpacker.bind, Unpacker.Remaining, Unpacker.Off. destruct (_ || _) eqn:E; [done|]. bool_facts.
  destruct (rdlen =? 0) eqn:E0; bool_facts; [intros [= _ <-]; lia|].
  destruct (unpackTyped _ _ _) as [[r|e] u1]; [|done]. destruct (negb _) eqn:E1; [done|]. bool_facts.
  intros [= _ <-]. lia.
Qed.

(** Decoding rdata is total and safe: on any message, at any offset inside
    it, for any type and any claimed length, [rdata.Unpack] returns without
    panicking or looping; it leaves the message alone and the offset inside
    it; when it succeeds it has consumed exactly the claimed length, and the
    payload has the requested type, canonical names and a normal form that
    the encoder accepts (lengths that fit their prefixes, sorted type lists
    and parameters, ...). *)
Theorem rdata_unpack_safe t rdlen u :
  valid u ->
  let '(r, u') := Unpack t rdlen u in
  Unpacker.msg u' = Unpacker.msg u /\ 0 <= Unpacker.off u' <= zlen (Unpacker.msg u) /\
  match r with
  | Ok rd => Unpacker.off u' = Unpacker.off u + rdlen /\ rd_okP canonical rd /\ Type_ rd = t
  | Err e => err_ok (zlen (Unpacker.msg u)) e
  end.
Proof.
  intros Hu. pose proof (reads_Unpack t rdlen u Hu) as H. destruct (Unpack t rdlen u) as [[rd|e] u'] eqn:E; [|done].
  destruct H as (? & ? & ? & ?). apply Unpack_exact in E as [? ?]. destruct Hu. split_and!; (done || lia).
Qed.

(** A hostile SVCB record: the parameter length runs past the window. *)
Lemma rdata_unpack_safe_witness :
  let u := Unpacker.mk [0; 1; 0; 0; 1; 255; 255; 2; 104; 50] 0 in
  valid u /\
  let '(r, u') := Unpack rrtype.SVCB 10 u in
  Unpacker.msg u' = Unpacker.msg u /\ 0 <= Unpacker.off u' <= zlen (Unpacker.msg u) /\
  match r with
  | Ok rd => Unpacker.off u' = Unpacker.off u + 10 /\ rd_okP canonical rd /\ Type_ rd = rrtype.SVCB
  | Err e => err_ok (zlen (Unpacker.msg u)) e
  end.
Proof.
  assert (valid (Unpacker.mk [0; 1; 0; 0; 1; 255; 255; 2; 104; 50] 0)) as Hv
    by (split; [decide_now|split; vm_compute; discriminate]).
  split; [exact Hv|exact (rdata_unpack_safe rrtype.SVCB 10 _ Hv)].
Defined.
