(* ===== verification/Message.v ===== *)
(** * Messages: package wire

    The header flags, questions, records, EDNS and whole messages of
    wire/flags.go, question.go, record.go, edns.go, dnsmsg.go, builder.go,
    compare.go and rrset.go.  A section slice is a list; a nil interface is
    [None].  [Pack] and [Unpack] here are those of package wire; those of
    package rdata are written [RData.Pack] and [RData.Unpack]. *)

From S2P Require Import Prelude Name Wire RData.
Import Unpacker (ret, fail).

(** ** flags.go *)
Definition Flags : Type := Z.
Definition flagQR : Z := Z.shiftl 1 15.
Definition flagAA : Z := Z.shiftl 1 10.
Definition flagTC : Z := Z.shiftl 1 9.
Definition flagRD : Z := Z.shiftl 1 8.
Definition flagRA : Z := Z.shiftl 1 7.
Definition flagAD : Z := Z.shiftl 1 5.
Definition flagCD : Z := Z.shiftl 1 4.

Definition OpcodeQuery : Z := 0.
Definition OpcodeNotify : Z := 4.
Definition OpcodeUpdate : Z := 5.
Definition OpcodeDSO : Z := 6.

Definition RCODENoError : Z := 0.
Definition RCODEFormErr : Z := 1.
Definition RCODEServFail : Z := 2.
Definition RCODENXDomain : Z := 3.
Definition RCODENotImp : Z := 4.
Definition RCODERefused : Z := 5.
Definition RCODEYXDomain : Z := 6.
Definition RCODEYXRRSet : Z := 7.
Definition RCODENXRRSet : Z := 8.
Definition RCODENotAuth : Z := 9.
Definition RCODENotZone : Z := 10.

Definition Response (f : Flags) : bool := negb (Z.land f flagQR =? 0).
Definition Opcode (f : Flags) : Z := Z.land (Z.shiftr f 11) 0x0f.
Definition Authoritative (f : Flags) : bool := negb (Z.land f flagAA =? 0).
Definition Truncated (f : Flags) : bool := negb (Z.land f flagTC =? 0).
Definition RecursionDesired (f : Flags) : bool := negb (Z.land f flagRD =? 0).
Definition RecursionAvailable (f : Flags) : bool := negb (Z.land f flagRA =? 0).
Definition AuthenticData (f : Flags) : bool := negb (Z.land f flagAD =? 0).
Definition CheckingDisabled (f : Flags) : bool := negb (Z.land f flagCD =? 0).
Definition RCODE (f : Flags) : Z := Z.land f 0x0f.

Definition setBit (f : Flags) (mask : Z) (on : bool) : Flags :=
  if on then Z.lor f mask else Z.ldiff f mask.

Definition WithResponse (v : bool) (f : Flags) : Flags := setBit f flagQR v.
Definition WithAuthoritative (v : bool) (f : Flags) : Flags := setBit f flagAA v.
Definition WithTruncated (v : bool) (f : Flags) : Flags := setBit f flagTC v.
Definition WithRecursionDesired (v : bool) (f : Flags) : Flags := setBit f flagRD v.
Definition WithRecursionAvailable (v : bool) (f : Flags) : Flags := setBit f flagRA v.
Definition WithAuthenticData (v : bool) (f : Flags) : Flags := setBit f flagAD v.
Definition WithCheckingDisabled (v : bool) (f : Flags) : Flags := setBit f flagCD v.
Definition WithOpcode (o : Z) (f : Flags) : Flags :=
  Z.lor (Z.ldiff f (Z.shiftl 0x0f 11)) (to_u16 (Z.shiftl (Z.land o 0x0f) 11)).
Definition WithRCODE (r : Z) (f : Flags) : Flags := Z.lor (Z.ldiff f 0x0f) (Z.land r 0x0f).

(** ** question.go *)
Record Question := mkQuestion { q_name : Name; q_typ : Z; q_class : Z; rawName : bytes }.

Definition NewQuestion (n : Name) (t : Z) : Question := mkQuestion n t rrtype.ClassIN [].
Definition NewQuestionClass (n : Name) (t c : Z) : Question := mkQuestion n t c [].

Definition packQuestion (q : Question) (p : Packer.t) : Packer.t :=
  let p := if 0 <? zlen (rawName q) then p |> Packer.Raw (rawName q)
           else p |> Packer.NameUncompressed (q_name q) in
  p |> Packer.Uint16 (q_typ q) |> Packer.Uint16 (q_class q).

(** The scan for a compression pointer: [true] when one is met before the
    terminating zero. *)
Fixpoint hasPointer (fuel : nat) (raw : bytes) (off : Z) : bool :=
  match fuel with
  | O => false
  | S fuel =>
      if off <? zlen raw then
        let b := zget raw off in
        if Z.land b 0xc0 =? 0xc0 then true
        else if b =? 0 then false
        else hasPointer fuel raw (off + (1 + b))
      else false
  end.

Definition unpackQuestion : U Question :=
  do msg <- Unpacker.Msg;
  do start <- Unpacker.Off;
  do n <- Unpacker.Name;
  do end_ <- Unpacker.Off;
  do raw <- (if (0 <=? start) && (start <? end_) && (end_ <=? zlen msg)
             then let raw := zslice msg start end_ in
                  if hasPointer (length raw) raw 0 then fail ErrInvalidMessage else ret raw
             else ret []);
  do t <- Unpacker.Uint16;
  do c <- Unpacker.Uint16;
  ret (mkQuestion n t c raw).

(** ** record.go *)
Definition maxRecordTTLSeconds : Z := 0x7fffffff.

Record Record_ := mkRecord { r_name : Name; r_class : Z; r_ttl : Z; r_rd : option RData }.

Definition RType (r : Record_) : Z :=
  match r_rd r with None => 0 | Some rd => Type_ rd end.
Definition IsZero (r : Record_) : bool := match r_rd r with None => true | Some _ => false end.
Definition NewRecord (n : Name) (ttl : Z) (rd : RData) : Record_ := mkRecord n rrtype.ClassIN ttl (Some rd).
Definition NewRecordClass (n : Name) (c ttl : Z) (rd : RData) : Record_ := mkRecord n c ttl (Some rd).

(** [buf[at] = hi; buf[at+1] = lo] on the packer's buffer. *)
Definition patch16 (at_ hi lo : Z) (p : Packer.t) : Packer.t :=
  Packer.mk (<[Z.to_nat (at_ + 1) := lo]> (<[Z.to_nat at_ := hi]> (Packer.buf p))) (Packer.comp p).

Definition packRecord (r : Record_) (p : Packer.t) : res Packer.t :=
  if r_ttl r <? 0 then Err ErrInvalidTTL
  else if maxRecordTTLSeconds <? Z.quot (r_ttl r) Second then Err ErrInvalidTTL
  else
    let p := p |> Packer.Name (r_name r) |> Packer.Uint16 (RType r) |> Packer.Uint16 (r_class r)
               |> Packer.Uint32 (to_u32 (Z.quot (r_ttl r) Second)) in
    let rdlenAt := Packer.Len p in
    let p := p |> Packer.Uint16 0 in
    let startRD := Packer.Len p in
    match r_rd r with
    | None => Err Panic
    | Some rd =>
        let p := p |> RData.Pack rd in
        let rdlen := Packer.Len p - startRD in
        if 0xffff <? rdlen then Err ErrInvalidMessage
        else Ok (p |> patch16 rdlenAt (to_u8 (Z.shiftr rdlen 8)) (to_u8 rdlen))
    end.

Definition unpackRecord : U Record_ :=
  do n <- Unpacker.Name;
  do t16 <- Unpacker.Uint16;
  do c16 <- Unpacker.Uint16;
  do ttl <- Unpacker.Uint32;
  let ttl := if Z.shiftl 1 31 <=? ttl then 0 else ttl in
  do rdlen <- Unpacker.Uint16;
  do rd <- RData.Unpack t16 rdlen;
  ret (mkRecord n c16 (ttl * Second) (Some rd)).

(** ** edns.go *)
Record EDNSOption := mkEDNSOption { code : Z; optData : bytes }.

Definition NewEDNSOption (c : Z) (d : bytes) : res EDNSOption :=
  if 0xffff <? zlen d then Err ErrInvalidMessage else Ok (mkEDNSOption c d).

Record EDNS := mkEDNS { udpSize : Z; extRCODE : Z; version : Z; do_ : bool; opts : list EDNSOption }.
Definition zeroEDNS : EDNS := mkEDNS 0 0 0 false [].

(** *** EDNSBuilder *)
Module EDNSBuilder.
Definition t : Type := EDNS.
Definition NewEDNSBuilder : t := mkEDNS 1232 0 0 false [].
Definition UDPSize (v : Z) (b : t) : t := mkEDNS v (extRCODE b) (version b) (do_ b) (opts b).
Definition ExtendedRCODE (v : Z) (b : t) : t := mkEDNS (udpSize b) v (version b) (do_ b) (opts b).
Definition Version (v : Z) (b : t) : t := mkEDNS (udpSize b) (extRCODE b) v (do_ b) (opts b).
Definition DO (v : bool) (b : t) : t := mkEDNS (udpSize b) (extRCODE b) (version b) v (opts b).
Definition Option (o : EDNSOption) (b : t) : t :=
  mkEDNS (udpSize b) (extRCODE b) (version b) (do_ b) (opts b ++ [o]).
(** The scan with the [seen] set. *)
Fixpoint dupCode (seen : gset Z) (l : list EDNSOption) : bool :=
  match l with
  | [] => false
  | o :: l => if decide (code o ∈ seen) then true else dupCode ({[code o]} ∪ seen) l
  end.
Definition Build (b : t) : res EDNS * t :=
  if dupCode ∅ (opts b) then (Err ErrPlain, NewEDNSBuilder) else (Ok b, NewEDNSBuilder).
End EDNSBuilder.

Definition optTypeWire : Z := 41.

Definition packOption (o : EDNSOption) (p : Packer.t) : Packer.t :=
  p |> Packer.Uint16 (code o) |> Packer.Uint16 (to_u16 (zlen (optData o))) |> Packer.Raw (optData o).

(** The TTL field of the OPT record. *)
Definition optTTL (e : EDNS) : Z :=
  let ttl := Z.lor (Z.shiftl (extRCODE e) 24) (Z.shiftl (version e) 16) in
  if do_ e then Z.lor ttl (Z.shiftl 1 15) else ttl.

Definition packOPT (e : EDNS) (p : Packer.t) : res Packer.t :=
  let p := p |> Packer.Uint8 0 |> Packer.Uint16 optTypeWire |> Packer.Uint16 (udpSize e)
             |> Packer.Uint32 (optTTL e) in
  let rdlenAt := Packer.Len p in
  let p := p |> Packer.Uint16 0 in
  let start := Packer.Len p in
  let p := fold_left (fun p o => packOption o p) (opts e) p in
  let rdlen := Packer.Len p - start in
  if 0xffff <? rdlen then Err ErrInvalidMessage
  else Ok (p |> patch16 rdlenAt (to_u8 (Z.shiftr rdlen 8)) (to_u8 rdlen)).

(** State of the option loop: the [seen] set and [e.opts]. *)
Definition optStep (end_ : Z) (st : gset Z * list EDNSOption) : U (gset Z * list EDNSOption) :=
  let '(seen, out) := st in
  do c <- Unpacker.Uint16;
  do l <- Unpacker.Uint16;
  do off <- Unpacker.Off;
  if end_ <? off + l then fail ErrInvalidMessage
  else if decide (c ∈ seen) then fail ErrInvalidMessage
  else
    do d <- Unpacker.Bytes l;
    ret ({[c]} ∪ seen, out ++ [mkEDNSOption c d]).

Definition unpackOPT : U EDNS :=
  do n <- Unpacker.Name;
  if negb (NumLabels n =? 0) then fail ErrInvalidMessage
  else
    do t <- Unpacker.Uint16;
    if negb (t =? optTypeWire) then fail ErrInvalidMessage
    else
      do udp <- Unpacker.Uint16;
      do ttl <- Unpacker.Uint32;
      do rdlen <- Unpacker.Uint16;
      do remaining <- Unpacker.Remaining;
      if remaining <? rdlen then fail ErrInvalidMessage
      else
        do off <- Unpacker.Off;
        let end_ := off + rdlen in
        do st <- loopUntil end_ (optStep end_) (∅, []);
        do off <- Unpacker.Off;
        if negb (off =? end_) then fail ErrInvalidMessage
        else ret (mkEDNS udp (to_u8 (Z.shiftr ttl 24)) (to_u8 (Z.shiftr ttl 16))
                    (negb (Z.land ttl (Z.shiftl 1 15) =? 0)) (snd st)).

(** ** dnsmsg.go *)
Record Message := mkMessage {
  id : Z; flags : Flags; questions : list Question;
  answers : list Record_; authorities : list Record_; additionals : list Record_;
  edns : EDNS; hasEDNS : bool }.

Definition zeroMessage : Message := mkMessage 0 0 [] [] [] [] zeroEDNS false.

Definition WithID (m : Message) (v : Z) : Message :=
  mkMessage v (flags m) (questions m) (answers m) (authorities m) (additionals m) (edns m) (hasEDNS m).

(** [for _, r := range rs { if err := packRecord(p, r); err != nil { return nil, err } }] *)
Fixpoint packRecords (rs : list Record_) (p : Packer.t) : res Packer.t :=
  match rs with
  | [] => Ok p
  | r :: rs => let? p := packRecord r p in packRecords rs p
  end.

Definition packHeader (m : Message) (arcount : Z) (p : Packer.t) : Packer.t :=
  p |> Packer.Uint16 (id m) |> Packer.Uint16 (flags m)
    |> Packer.Uint16 (to_u16 (zlen (questions m))) |> Packer.Uint16 (to_u16 (zlen (answers m)))
    |> Packer.Uint16 (to_u16 (zlen (authorities m))) |> Packer.Uint16 (to_u16 arcount).

Definition Pack (m : Message) : res bytes :=
  if (0xffff <? zlen (questions m)) || (0xffff <? zlen (answers m)) ||
     (0xffff <? zlen (authorities m)) || (0xffff <? zlen (additionals m))
  then Err ErrInvalidMessage
  else
    let arcount := if hasEDNS m then zlen (additionals m) + 1 else zlen (additionals m) in
    let p := packHeader m arcount (Packer.NewPacker []) in
    let p := fold_left (fun p q => packQuestion q p) (questions m) p in
    let? p := packRecords (answers m) p in
    let? p := packRecords (authorities m) p in
    let? p := packRecords (additionals m) p in
    let? p := (if hasEDNS m then packOPT (edns m) p else Ok p) in
    let out := Packer.buf p in
    if 0xffff <? zlen out then Err ErrInvalidMessage else Ok out.

(** [x, _ := u.Uint16()]: zero when the read fails. *)
Definition uint16OrZero : U Z := fun u =>
  match Unpacker.Uint16 u with
  | (Ok v, u) => (Ok v, u)
  | (Err _, u) => (Ok 0, u)
  end.

(** [if err != nil { return NewMessageParseError(section, i, u.Off(), err) }] *)
Definition inSection {A} (s : Section_) (i : Z) (m : U A) : U A := fun u =>
  match m u with
  | (Ok a, u) => (Ok a, u)
  | (Err e, u) => (Err (MessageParseError s i (Unpacker.off u) e), u)
  end.

Definition minQuestionSize : Z := 5.
Definition minRecordSize : Z := 11.

(** The capacity with which a section's slice is made. *)
Definition clampCount (n remaining minSize : Z) : Z :=
  if (minSize <=? 0) || (remaining <=? 0) then 0
  else
    let upper := Z.quot remaining minSize in
    if upper <? n then upper else n.

(** [for i := range n { ... append(out, x) }], [i] counting up. *)
Fixpoint unpackN {A} (n : nat) (i : Z) (body : Z -> U A) (out : list A) : U (list A) :=
  match n with
  | O => ret out
  | S n => do x <- body i; unpackN n (i + 1) body (out ++ [x])
  end.

Definition unpackQuestions (n : Z) : U (list Question) :=
  unpackN (Z.to_nat n) 0 (fun i => inSection SectionQuestion i unpackQuestion) [].
Definition unpackRRs (n : Z) (section : Section_) : U (list Record_) :=
  unpackN (Z.to_nat n) 0 (fun i => inSection section i unpackRecord) [].

(** One iteration of [unpackAdditionals]; the state is [out], [m.edns] and
    [m.hasEDNS]. *)
Definition additionalStep (i : Z) (st : list Record_ * EDNS * bool) : U (list Record_ * EDNS * bool) :=
  let '(out, e, has) := st in
  do save <- Unpacker.Off;
  do _ <- inSection SectionAdditional i Unpacker.Name;
  do t <- inSection SectionAdditional i Unpacker.Uint16;
  do _ <- Unpacker.SetOff save;
  if t =? optTypeWire then
    if has : bool then fail (MessageParseError SectionOPT i save ErrPlain)
    else
      do e <- inSection SectionOPT i unpackOPT;
      ret (out, e, true)
  else
    do r <- inSection SectionAdditional i unpackRecord;
    ret (out ++ [r], e, has).

Fixpoint unpackAdditionals_loop (n : nat) (i : Z) (st : list Record_ * EDNS * bool)
    : U (list Record_ * EDNS * bool) :=
  match n with
  | O => ret st
  | S n => do st <- additionalStep i st; unpackAdditionals_loop n (i + 1) st
  end.
Definition unpackAdditionals (n : Z) : U (list Record_ * EDNS * bool) :=
  unpackAdditionals_loop (Z.to_nat n) 0 ([], zeroEDNS, false).

(** [Unpack] after the length check. *)
Definition unpackMessage : U Message :=
  do id <- uint16OrZero;
  do flags <- uint16OrZero;
  do qdcount <- uint16OrZero;
  do ancount <- uint16OrZero;
  do nscount <- uint16OrZero;
  do arcount <- uint16OrZero;
  do qs <- unpackQuestions qdcount;
  do ans <- unpackRRs ancount SectionAnswer;
  do aut <- unpackRRs nscount SectionAuthority;
  do adds <- unpackAdditionals arcount;
  let '(add, e, has) := adds in
  ret (mkMessage id flags qs ans aut add e has).

Definition Unpack (buf : bytes) : res Message :=
  if zlen buf <? 12 then Err (MessageParseError SectionHeader (-1) (zlen buf) ErrPlain)
  else fst (unpackMessage (Unpacker.mk buf 0)).

(** ** builder.go *)
Module MessageBuilder.
Record t := mk { msg : Message; err : option error }.
Definition NewMessageBuilder : t := mk zeroMessage None.
Definition upd (f : Message -> Message) (b : t) : t := mk (f (msg b)) (err b).
Definition setFlags (g : Flags -> Flags) (m : Message) : Message :=
  mkMessage (id m) (g (flags m)) (questions m) (answers m) (authorities m) (additionals m) (edns m) (hasEDNS m).
Definition ID (v : Z) : t -> t := upd (fun m => WithID m v).
Definition Flags_ (f : Flags) : t -> t := upd (setFlags (fun _ => f)).
Definition Response (v : bool) : t -> t := upd (setFlags (WithResponse v)).
Definition Opcode (o : Z) : t -> t := upd (setFlags (WithOpcode o)).
Definition Authoritative (v : bool) : t -> t := upd (setFlags (WithAuthoritative v)).
Definition Truncated (v : bool) : t -> t := upd (setFlags (WithTruncated v)).
Definition RecursionDesired (v : bool) : t -> t := upd (setFlags (WithRecursionDesired v)).
Definition RecursionAvailable (v : bool) : t -> t := upd (setFlags (WithRecursionAvailable v)).
Definition AuthenticData (v : bool) : t -> t := upd (setFlags (WithAuthenticData v)).
Definition CheckingDisabled (v : bool) : t -> t := upd (setFlags (WithCheckingDisabled v)).
Definition RCODE (r : Z) : t -> t := upd (setFlags (WithRCODE r)).
Definition Question_ (q : Question) : t -> t := upd (fun m =>
  mkMessage (id m) (flags m) (questions m ++ [q]) (answers m) (authorities m) (additionals m) (edns m) (hasEDNS m)).
Definition setErr (e : error) (b : t) : t :=
  match err b with None => mk (msg b) (Some e) | Some _ => b end.
Definition Answer (r : Record_) (b : t) : t :=
  if IsZero r then setErr ErrPlain b
  else upd (fun m => mkMessage (id m) (flags m) (questions m) (answers m ++ [r]) (authorities m)
                       (additionals m) (edns m) (hasEDNS m)) b.
Definition Authority (r : Record_) (b : t) : t :=
  if IsZero r then setErr ErrPlain b
  else upd (fun m => mkMessage (id m) (flags m) (questions m) (answers m) (authorities m ++ [r])
                       (additionals m) (edns m) (hasEDNS m)) b.
Definition Additional (r : Record_) (b : t) : t :=
  if IsZero r then setErr ErrPlain b
  else upd (fun m => mkMessage (id m) (flags m) (questions m) (answers m) (authorities m)
                       (additionals m ++ [r]) (edns m) (hasEDNS m)) b.
Definition EDNS_ (e : EDNS) : t -> t := upd (fun m =>
  mkMessage (id m) (flags m) (questions m) (answers m) (authorities m) (additionals m) e true).
Definition Build (b : t) : res Message * t :=
  match err b with
  | Some e => (Err e, NewMessageBuilder)
  | None => (Ok (msg b), NewMessageBuilder)
  end.
End MessageBuilder.
