(* ===== verification/MessageRoundtrip.v ===== *)
(** * Round trip of whole messages: wire.Pack and wire.Unpack

    [packs p p' r a] is the interface between the two directions at message
    level: going from packer [p] to packer [p'] appended an encoding that the
    reader [r] decodes as [a].  [message_ok] describes the messages the wire
    format can express. *)

From S2P Require Import Prelude Name Wire RData RDataCodec TypeBitmap RDataRoundtrip Message.

(** ** Messages in normal form *)

(** The qname bytes a question is packed with. *)
Definition qraw (q : Question) : bytes :=
  if 0 <? zlen (rawName q) then rawName q else AppendWire (q_name q) [].

(** The qname bytes are an inline encoding, in any case, of the name. *)
Definition question_ok (q : Question) : Prop :=
  u16 (q_typ q) /\ u16 (q_class q) /\
  exists ls, Forall label_ok ls /\ qraw q = encName ls /\ zlen (encName ls) <= maxNameLen /\
    q_name q = mkName (encName (foldLabels ls)).

Definition record_okP (NP : Name -> Prop) (r : Record_) : Prop :=
  NP (r_name r) /\ u16 (r_class r) /\
  (exists s, r_ttl r = s * Second /\ 0 <= s <= maxRecordTTLSeconds) /\
  exists rd, r_rd r = Some rd /\ rd_okP NP rd /\ u16 (Type_ rd).

Definition option_ok (o : EDNSOption) : Prop :=
  u16 (code o) /\ is_bytes (optData o) /\ zlen (optData o) <= 65535.
Definition edns_ok (e : EDNS) : Prop :=
  u16 (udpSize e) /\ u8 (extRCODE e) /\ u8 (version e) /\
  Forall option_ok (opts e) /\ NoDup (map code (opts e)).

Definition message_okP (NP : Name -> Prop) (m : Message) : Prop :=
  u16 (id m) /\ u16 (flags m) /\ Forall question_ok (questions m) /\
  Forall (record_okP NP) (answers m) /\ Forall (record_okP NP) (authorities m) /\
  Forall (fun r => record_okP NP r /\ RType r <> optTypeWire) (additionals m) /\
  (if hasEDNS m then edns_ok (edns m) else edns m = zeroEDNS).

Abbreviation record_ok := (record_okP name_ok).
Abbreviation message_ok := (message_okP name_ok).

(** What decoding adds: the questions remember their wire bytes. *)
Definition echoQuestion (q : Question) : Question := mkQuestion (q_name q) (q_typ q) (q_class q) (qraw q).
Definition echoMessage (m : Message) : Message :=
  mkMessage (id m) (flags m) (map echoQuestion (questions m)) (answers m) (authorities m)
    (additionals m) (edns m) (hasEDNS m).

(** ** The interface *)

Definition packs {A} (p p' : Packer.t) (r : U A) (a : A) : Prop :=
  packer_ok p' /\ exists bs, Packer.buf p' = Packer.buf p ++ bs /\ is_bytes bs /\
    forall post, is_bytes post ->
      r (Unpacker.mk (Packer.buf p' ++ post) (zlen (Packer.buf p)))
        = (Ok a, Unpacker.mk (Packer.buf p' ++ post) (zlen (Packer.buf p'))).

Lemma packs_codec {A} op (r : U A) a p : codec false op (fun _ => r) a -> packer_ok p -> packs p (op p) r a.
Proof.
  intros [Hf Hc] Hp. destruct (Hc p Hp) as [Hp' Hr]. destruct (frame_app op p Hf) as [bs Eb]. split; [done|].
  exists bs. split; [done|]. split; [destruct Hp' as [_ Hb]; rewrite Eb in Hb; by apply Forall_app in Hb as [_ ?]|].
  intros post Hpost. apply (Hr post (zlen (Packer.buf (op p)))); [done|llia|done].
Qed.

Lemma packs_rcodec op unp rd p n :
  rcodec op unp rd -> packer_ok p -> n = zlen (Packer.buf (op p)) - zlen (Packer.buf p) -> packs p (op p) (unp n) rd.
Proof.
  intros [Hf Hc] Hp ->. destruct (Hc p Hp) as [Hp' Hr]. destruct (frame_app op p Hf) as [bs Eb]. split; [done|].
  exists bs. split; [done|]. split; [|done].
  destruct Hp' as [_ Hb]. rewrite Eb in Hb. by apply Forall_app in Hb as [_ ?].
Qed.

Lemma packs_ret {A} p (a : A) : packer_ok p -> packs p p (Unpacker.ret a) a.
Proof. intros Hp. split; [done|]. exists []. by rewrite app_nil_r. Qed.

(** A reader of a prefix is not disturbed by what is packed later. *)
Lemma packs_prefix {A} p p1 (r : U A) a bs post :
  packs p p1 r a -> is_bytes bs -> is_bytes post ->
  r (Unpacker.mk ((Packer.buf p1 ++ bs) ++ post) (zlen (Packer.buf p)))
    = (Ok a, Unpacker.mk ((Packer.buf p1 ++ bs) ++ post) (zlen (Packer.buf p1))).
Proof. intros (_ & _ & _ & _ & Hr) Hbs Hpost. rewrite <- app_assoc. apply Hr. by apply Forall_app_2. Qed.

Lemma packs_bind {A B} p p1 p2 (r : U A) (k : A -> U B) a b :
  packs p p1 r a -> packs p1 p2 (k a) b -> packs p p2 (Unpacker.bind r k) b.
Proof.
  intros H1 (Hp2 & bs2 & E2 & Hb2 & Hr2). split; [done|].
  pose proof H1 as (_ & bs1 & E1 & Hb1 & _). exists (bs1 ++ bs2).
  split; [by rewrite E2, E1, app_assoc|]. split; [by apply Forall_app_2|].
  intros post Hpost. unfold Unpacker.bind. specialize (Hr2 post Hpost). rewrite E2 in *.
  by rewrite (packs_prefix _ _ _ _ _ _ H1 Hb2 Hpost).
Qed.

Lemma packs_ext {A} p p' (r s : U A) a :
  packs p p' r a -> (forall u, r u = (Ok a, snd (r u)) -> s u = r u) -> packs p p' s a.
Proof.
  intros (Hp & bs & E & Hb & Hr) Hs. split; [done|]. exists bs. split_and!; try done.
  intros post Hpost. rewrite Hs; rewrite Hr by done; done.
Qed.

Lemma packs_inSection {A} s i p p' (r : U A) a : packs p p' r a -> packs p p' (inSection s i r) a.
Proof. intros H. eapply packs_ext; [done|]. intros u Hu. unfold inSection. rewrite Hu. by destruct (r u). Qed.

(** ** Questions *)

Lemma hasPointer_encName fuel pre ls :
  Forall label_ok ls -> hasPointer fuel (pre ++ encName ls) (zlen pre) = false.
Proof.
  intros H. revert fuel pre. induction H as [|l ls [Hl Hb] _ IH]; intros [|fuel] pre; try done; cbn [hasPointer].
  - rewrite (at_bytes_get _ _ 0 []); [by split_if|]. apply (at_bytes_mid pre [0] []).
  - rewrite encName_cons. rewrite (at_bytes_get _ _ (zlen l) l) by apply at_bytes_mid.
    split_if; [|done]. replace (Z.land (zlen l) 192 =? 192) with false.
    2: { symmetry. apply Z.eqb_neq. intros E. apply land_c0_ptr in E; [|unfold u8; lia]. lia. }
    if_false. rewrite app_assoc. replace (zlen pre + (1 + zlen l)) with (zlen (pre ++ encLabel l)) by (unfold encLabel; llia).
    apply IH.
Qed.

Lemma codec_question q :
  question_ok q -> codec false (packQuestion q) (fun _ => unpackQuestion) (echoQuestion q).
Proof.
  intros (Ht & Hc & ls & Hls & Eq & Hl & En).
  eapply (codec_op_ext _ (Packer.Raw (encName ls ++ be16 (q_typ q) ++ be16 (q_class q)))).
  { intros p. unfold packQuestion. rewrite NameUncompressed_raw, <- Eq. unfold qraw, Packer.Uint16, Packer.Raw.
    split_if; cbn [Packer.buf Packer.comp]; by rewrite !app_assoc. }
  apply codec_raw; [by apply Forall_app_2; [apply is_bytes_encName|auto using Forall_app_2 with wire]|].
  intros msg off e Hb Ha Ho He _. apply at_bytes_app in Ha as [Ha Ha2]. apply at_bytes_app in Ha2 as [Hat Hac].
  pose proof (name_at_inline _ _ _ Ha Hls) as Hn. pose proof (name_at_off _ _ _ _ _ Hn).
  unfold unpackQuestion, Unpacker.Msg, Unpacker.Off, Unpacker.Name. unfold Unpacker.bind at 1 2 3. cbn [Unpacker.msg Unpacker.off].
  rewrite (proj2 (DecodeWire_spec msg off (q_name q) (off + zlen (encName ls)) Hb)) by (by exists ls, 0).
  unfold Unpacker.bind. cbn [Unpacker.off]. if_true. rewrite (at_bytes_slice _ _ _ Ha).
  rewrite (hasPointer_encName _ [] ls Hls). cbn [Unpacker.ret].
  rewrite (Uint16_at _ _ _ Ht Hat), zlen_be16 in *. rewrite (Uint16_at _ _ _ Hc Hac).
  unfold Unpacker.ret, echoQuestion. rewrite Eq. do 2 f_equal. llia.
Qed.

(** ** Back-patching a length *)

Lemma patch16_mid b x y hi lo r c :
  patch16 (zlen b) hi lo (Packer.mk ((b ++ [x; y]) ++ r) c) = Packer.mk ((b ++ [hi; lo]) ++ r) c.
Proof.
  unfold patch16. cbn [Packer.buf Packer.comp]. f_equal. rewrite <- !app_assoc. unfold zlen.
  rewrite Nat2Z.id. replace (Z.to_nat (Z.of_nat (length b) + 1)) with (length b + 1)%nat by lia.
  replace (length b) with (length b + 0)%nat at 2 by lia. by rewrite !insert_app_r.
Qed.

(** Writing a placeholder, packing, and patching the length in afterwards is
    the same as writing the length first. *)
Lemma backpatch op p :
  frame op ->
  let p3 := op (Packer.Uint16 0 p) in
  let n := Packer.Len p3 - Packer.Len (Packer.Uint16 0 p) in
  let p' := op (Packer.Uint16 n p) in
  patch16 (Packer.Len p) (to_u8 (Z.shiftr n 8)) (to_u8 n) p3 = p' /\
  n = zlen (Packer.buf p') - zlen (Packer.buf (Packer.Uint16 n p)) /\ 0 <= n.
Proof.
  intros Hf p3 n p'. destruct p as [b c].
  destruct (Hf (b ++ be16 0) (b ++ be16 n) c ltac:(llia)) as (bs & c' & E1 & E2).
  assert (p3 = Packer.mk ((b ++ be16 0) ++ bs) c') as E3 by exact E1.
  assert (p' = Packer.mk ((b ++ be16 n) ++ bs) c') as E4 by exact E2.
  assert (n = zlen bs) as En.
  { unfold n. rewrite E3. unfold Packer.Len, Packer.Uint16, Packer.Raw. cbn [Packer.buf]. llia. }
  rewrite E3, E4. split; [apply patch16_mid|]. cbn [Packer.buf Packer.Uint16 Packer.Raw].
  unfold Packer.Uint16, Packer.Raw. cbn [Packer.buf]. rewrite En. split; llia.
Qed.

(** ** Records *)

Lemma frame_Pack rd : rd_ok rd -> frame (RData.Pack rd).
Proof. intros H. apply (rcodec_Unpack rd H). Qed.

Lemma packRecord_spec r p p' :
  packer_ok p -> record_ok r -> packRecord r p = Ok p' ->
  packs p p' unpackRecord r /\
  exists p1 bs, packs p p1 (do _ <- Unpacker.Name; Unpacker.Uint16) (RType r) /\
    Packer.buf p' = Packer.buf p1 ++ bs /\ is_bytes bs /\ 8 <= zlen bs.
Proof.
  intros Hp (Hn & Hc & (s & Es & Hs) & rd & Erd & Hrd & Ht). unfold packRecord, RType, unpackRecord.
  rewrite Es, quot_Second, Erd. unfold maxRecordTTLSeconds in *. unfold Second. do 2 if_false. cbv zeta.
  rewrite to_u32_id by (unfold u32; lia).
  pose proof (packs_codec _ _ _ p (codec_Name false (r_name r) Hn) Hp) as K1. set (p1 := Packer.Name _ p) in *.
  pose proof (packs_codec _ _ _ p1 (codec_u16 false _ Ht) (proj1 K1)) as K2. set (p2 := Packer.Uint16 (Type_ rd) p1) in *.
  pose proof (packs_codec _ _ _ p2 (codec_u16 false _ Hc) (proj1 K2)) as K3. set (p3 := Packer.Uint16 (r_class r) p2) in *.
  pose proof (packs_codec _ _ _ p3 (codec_u32 false s ltac:(unfold u32; lia)) (proj1 K3)) as K4. set (p4 := Packer.Uint32 s p3) in *.
  destruct (backpatch (RData.Pack rd) p4 (frame_Pack rd Hrd)) as (Eb & En & Hnn). cbv zeta in Eb, En, Hnn.
  set (n := Packer.Len _ - _) in *. destruct (_ <? _) eqn:E; [done|]. bool_facts. intros [= <-]. rewrite Eb.
  pose proof (packs_codec _ _ _ p4 (codec_u16 false n ltac:(unfold u16; lia)) (proj1 K4)) as K5. set (p5 := Packer.Uint16 n p4) in *.
  pose proof (packs_rcodec _ _ _ p5 n (rcodec_Unpack rd Hrd) (proj1 K5) En) as K6. split.
  - eapply packs_bind; [exact K1|]. eapply packs_bind; [exact K2|]. eapply packs_bind; [exact K3|].
    eapply packs_bind; [exact K4|]. cbn beta. change (Z.shiftl 1 31) with 2147483648. if_false.
    eapply packs_bind; [exact K5|]. eapply packs_bind; [exact K6|].
    destruct r as [nm cl ttl ord]. cbn in Es, Erd. subst. apply packs_ret, K6.
  - exists p2. destruct K6 as (_ & b6 & E6 & Hb6 & _). exists (be16 (r_class r) ++ be32 s ++ be16 n ++ b6).
    split; [eapply packs_bind; [exact K1|exact K2]|]. rewrite E6. subst p5 p4 p3. cbn [Packer.Uint16 Packer.Uint32 Packer.Raw Packer.buf].
    unfold Packer.Uint16, Packer.Uint32, Packer.Raw. cbn [Packer.buf]. rewrite <- !app_assoc. split; [done|].
    split; [auto 6 using Forall_app_2 with wire|llia].
Qed.

(** ** The OPT record *)

Lemma codec_root_name : codec false (Packer.Uint8 0) (fun _ => Unpacker.Name) Root.
Proof.
  apply codec_raw; [by repeat constructor|]. intros msg off e Hb Ha Ho He _.
  unfold Unpacker.Name. cbn [Unpacker.msg Unpacker.off].
  rewrite (proj2 (DecodeWire_spec msg off Root (off + 1) Hb)); [done|].
  exists [], 0. split_and!; try done. by apply na_root.
Qed.

(** The three fields in the TTL of an OPT record. *)
Lemma optTTL_fields e :
  u8 (extRCODE e) -> u8 (version e) ->
  u32 (optTTL e) /\ to_u8 (Z.shiftr (optTTL e) 24) = extRCODE e /\ to_u8 (Z.shiftr (optTTL e) 16) = version e /\
  negb (Z.land (optTTL e) (Z.shiftl 1 15) =? 0) = do_ e.
Proof.
  intros He Hv. unfold u8 in *.
  assert (optTTL e = extRCODE e * 16777216 + version e * 65536 + (if do_ e then 32768 else 0)) as E.
  { unfold optTTL. cbv zeta. rewrite lor_shiftl_add by (rewrite ?Z.shiftl_mul_pow2 by lia; lia). rewrite (Z.shiftl_mul_pow2 (version e)) by lia.
    destruct (do_ e); [|lia].
    replace (extRCODE e * 2 ^ 24 + version e * 2 ^ 16) with (Z.shiftl (extRCODE e * 256 + version e) 16) by (rewrite Z.shiftl_mul_pow2; lia).
    change (Z.shiftl 1 15) with 32768. rewrite lor_shiftl_add; lia. }
  rewrite land_bit, negb_involutive by done. rewrite Z.testbit_odd, E. unfold u32, to_u8. rewrite !Z.shiftr_div_pow2 by lia.
  change (2 ^ 24) with 16777216; change (2 ^ 16) with 65536; change (2 ^ 15) with 32768.
  split_and!; try (destruct (do_ e); lia); try (destruct (do_ e); elia).
  replace (_ / 32768) with (2 * (extRCODE e * 256 + version e) + if do_ e then 1 else 0) by (destruct (do_ e); elia).
  rewrite Z.odd_add, Z.odd_mul. by destruct (do_ e).
Qed.

Lemma codec_option seen out o :
  option_ok o -> code o ∉ seen ->
  codec false (packOption o) (fun e => optStep e (seen, out)) ({[code o]} ∪ seen, out ++ [o]).
Proof.
  intros (Hc & Hb & Hl) Hs. unfold packOption, optStep. rewrite to_u16_id by llia. to_seqops.
  eapply codec_cons; [by apply codec_u16|]. eapply codec_cons; [apply codec_u16; llia|]. cbn beta.
  rewrite decide_False by done.
  pose proof (codec_checked false (optData o) [] (zlen (optData o)) (fun _ d => Unpacker.ret ({[code o]} ∪ seen, out ++ [mkEDNSOption (code o) d]))
    (({[code o]} ∪ seen), out ++ [o]) Hb eq_refl) as [Hf Hk]; [destruct o; apply codec_nil|].
  split; [done|]. intros p Hp. destruct (Hk p Hp) as [? Hr]. split; [done|]. intros post e Hpost He Ht.
  rewrite <- (Hr post e Hpost He Ht). unfold checkWindow, Unpacker.bind, Unpacker.Off. cbn [Unpacker.off].
  pose proof (frame_app _ p Hf) as [bs Eb].
  assert (zlen (Packer.buf (seqops [Packer.Raw (optData o)] p)) = zlen (Packer.buf p) + zlen (optData o)) by (cbn; llia).
  split_if; [bool_facts; lia|done].
Qed.

Definition optAcc (st : gset Z * list EDNSOption) (o : EDNSOption) : gset Z * list EDNSOption :=
  ({[code o]} ∪ fst st, snd st ++ [o]).

Lemma opts_loop_ok seen out l :
  Forall option_ok l -> NoDup (map code l) -> (forall o, o ∈ l -> code o ∉ seen) ->
  loop_ok packOption optStep optAcc (seen, out) l.
Proof.
  intros Hok. revert seen out. induction Hok as [|o l Ho Hl IH]; intros seen out Hnd Hs; [done|].
  cbn [map] in Hnd. apply NoDup_cons in Hnd as [Hno Hnd]. split_and!.
  - apply codec_option; [done|]. apply Hs. by left.
  - apply progress_minsize. intros p. cbn. llia.
  - apply IH; [done|]. intros o' Ho'. cbn [fst]. apply not_elem_of_union. split; [|apply Hs; by right].
    apply not_elem_of_singleton. intros E. apply Hno. rewrite <- E. change (map code l) with (code <$> l).
    by apply list_elem_of_fmap_2.
Qed.

Lemma fold_optAcc l st : snd (fold_left optAcc l st) = snd st ++ l.
Proof.
  revert st. induction l as [|o l IH]; intros st; cbn [fold_left]; [by rewrite app_nil_r|].
  rewrite IH. cbn [optAcc snd]. by rewrite <- app_assoc.
Qed.

Lemma frame_option o : frame (packOption o).
Proof. apply (frame_comp _ _ (frame_comp _ _ (frame_raw _) (frame_raw _)) (frame_raw _)). Qed.

Lemma frame_options l : frame (fun p => fold_left (fun p o => packOption o p) l p).
Proof. apply frame_items. intros o _. apply frame_option. Qed.

(** [unpackOPT] from the point where the window is known. *)
Lemma packs_options l p n udp ttl :
  Forall option_ok l -> NoDup (map code l) -> packer_ok p ->
  let p' := fold_left (fun p o => packOption o p) l p in
  n = zlen (Packer.buf p') - zlen (Packer.buf p) -> 0 <= n ->
  packs p p'
    (do remaining <- Unpacker.Remaining;
     if remaining <? n then Unpacker.fail ErrInvalidMessage
     else
       do off <- Unpacker.Off;
       do st <- loopUntil (off + n) (optStep (off + n)) (∅, []);
       do off' <- Unpacker.Off;
       if negb (off' =? off + n) then Unpacker.fail ErrInvalidMessage
       else Unpacker.ret (mkEDNS udp (to_u8 (Z.shiftr ttl 24)) (to_u8 (Z.shiftr ttl 16))
                            (negb (Z.land ttl (Z.shiftl 1 15) =? 0)) (snd st)))
    (mkEDNS udp (to_u8 (Z.shiftr ttl 24)) (to_u8 (Z.shiftr ttl 16)) (negb (Z.land ttl (Z.shiftl 1 15) =? 0)) l).
Proof.
  intros Hok Hnd Hp p' En Hn.
  destruct (codec_loop packOption optStep optAcc l (∅, [])) as [Hf Hc].
  { apply opts_loop_ok; [done..|]. set_solver. }
  destruct (Hc p Hp) as [Hp' Hr]. fold p' in Hp', Hr. split; [done|].
  destruct (frame_app _ p Hf) as [bs Eb]. fold p' in Eb. exists bs. split; [done|].
  split; [destruct Hp' as [_ Hb]; rewrite Eb in Hb; by apply Forall_app in Hb as [_ ?]|].
  intros post Hpost. unfold Unpacker.bind, Unpacker.Remaining, Unpacker.Off. cbn [Unpacker.msg Unpacker.off].
  rewrite zlen_app. pose proof (zlen_nonneg post). if_false. cbn [Unpacker.off].
  replace (zlen (Packer.buf p) + n) with (zlen (Packer.buf p')) by lia.
  rewrite (Hr post (zlen (Packer.buf p'))); [|done|rewrite zlen_app; lia|done]. cbn [Unpacker.off]. rewrite Z.eqb_refl. cbn [negb].
  by rewrite fold_optAcc.
Qed.

Lemma packOPT_spec e p p' :
  packer_ok p -> edns_ok e -> packOPT e p = Ok p' ->
  packs p p' unpackOPT e /\
  exists p1 bs, packs p p1 (do _ <- Unpacker.Name; Unpacker.Uint16) optTypeWire /\
    Packer.buf p' = Packer.buf p1 ++ bs /\ is_bytes bs /\ 8 <= zlen bs.
Proof.
  intros Hp (Hu & Hx & Hv & Hok & Hnd). unfold packOPT, unpackOPT. cbv zeta.
  destruct (optTTL_fields e Hx Hv) as (Ht & Ex & Ev & Ed).
  pose proof (packs_codec _ _ _ p codec_root_name Hp) as K1. set (p1 := Packer.Uint8 0 p) in *.
  pose proof (packs_codec _ _ _ p1 (codec_u16 false optTypeWire ltac:(unfold u16; by vm_compute)) (proj1 K1)) as K2. set (p2 := Packer.Uint16 optTypeWire p1) in *.
  pose proof (packs_codec _ _ _ p2 (codec_u16 false _ Hu) (proj1 K2)) as K3. set (p3 := Packer.Uint16 (udpSize e) p2) in *.
  pose proof (packs_codec _ _ _ p3 (codec_u32 false _ Ht) (proj1 K3)) as K4. set (p4 := Packer.Uint32 (optTTL e) p3) in *.
  destruct (backpatch _ p4 (frame_options (opts e))) as (Eb & En & Hnn). cbv zeta in Eb, En, Hnn. cbn beta in Eb, En, Hnn.
  set (n := Packer.Len _ - _) in *. destruct (_ <? _) eqn:E; [done|]. bool_facts. intros [= <-]. rewrite Eb.
  pose proof (packs_codec _ _ _ p4 (codec_u16 false n ltac:(unfold u16; lia)) (proj1 K4)) as K5. set (p5 := Packer.Uint16 n p4) in *.
  pose proof (packs_options (opts e) p5 n (udpSize e) (optTTL e) Hok Hnd (proj1 K5) En Hnn) as K6.
  rewrite Ex, Ev, Ed in K6. split.
  - eapply packs_bind; [exact K1|]. cbn [NumLabels]. change (negb (NumLabels Root =? 0)) with false.
    eapply packs_bind; [exact K2|]. eapply packs_bind; [exact K3|]. eapply packs_bind; [exact K4|].
    eapply packs_bind; [exact K5|]. rewrite Ex, Ev, Ed. destruct e. exact K6.
  - exists p2. destruct K6 as (_ & b6 & E6 & Hb6 & _). exists (be16 (udpSize e) ++ be32 (optTTL e) ++ be16 n ++ b6).
    split; [eapply packs_bind; [exact K1|exact K2]|]. rewrite E6. subst p5 p4 p3.
    unfold Packer.Uint16, Packer.Uint32, Packer.Raw. cbn [Packer.buf]. rewrite <- !app_assoc. split; [done|].
    split; [auto 6 using Forall_app_2 with wire|llia].
Qed.

(** ** Sections *)

Lemma packs_questions qs p i out :
  packer_ok p -> Forall question_ok qs ->
  packs p (fold_left (fun p q => packQuestion q p) qs p)
    (unpackN (length qs) i (fun i => inSection SectionQuestion i unpackQuestion) out) (out ++ map echoQuestion qs).
Proof.
  intros Hp Hqs. revert p i out Hp. induction Hqs as [|q qs Hq Hqs IH]; intros p i out Hp; cbn [fold_left length unpackN map].
  { rewrite app_nil_r. by apply packs_ret. }
  pose proof (packs_codec _ _ _ p (codec_question q Hq) Hp) as K.
  eapply packs_bind; [by apply packs_inSection|].
  replace (out ++ echoQuestion q :: map echoQuestion qs) with ((out ++ [echoQuestion q]) ++ map echoQuestion qs) by (by rewrite <- app_assoc).
  apply IH, K.
Qed.

Lemma packs_len {A} p p' (r : U A) a : packs p p' r a -> zlen (Packer.buf p) <= zlen (Packer.buf p').
Proof. intros (_ & bs & -> & _). llia. Qed.

Lemma packs_records rs p p' i s out :
  packer_ok p -> Forall record_ok rs -> packRecords rs p = Ok p' ->
  packs p p' (unpackN (length rs) i (fun i => inSection s i unpackRecord) out) (out ++ rs).
Proof.
  intros Hp Hrs. revert p i out Hp. induction Hrs as [|r rs Hr Hrs IH]; intros p i out Hp; cbn [packRecords length unpackN].
  { intros [= ->]. rewrite app_nil_r. by apply packs_ret. }
  intros (p1 & E1 & E)%res_bind_Ok. destruct (packRecord_spec r p p1 Hp Hr E1) as [K _].
  eapply packs_bind; [by apply packs_inSection|].
  replace (out ++ r :: rs) with ((out ++ [r]) ++ rs) by (by rewrite <- app_assoc). by apply IH; [apply K|].
Qed.

(** Looking at the type of the next record without consuming it. *)
Lemma packs_peek {B} p p' p1 s i t bs (k : Z -> Z -> U B) b :
  packs p p1 (do _ <- Unpacker.Name; Unpacker.Uint16) t -> Packer.buf p' = Packer.buf p1 ++ bs -> is_bytes bs ->
  packs p p' (k (zlen (Packer.buf p)) t) b ->
  packs p p'
    (do save <- Unpacker.Off;
     do _ <- inSection s i Unpacker.Name;
     do t <- inSection s i Unpacker.Uint16;
     do _ <- Unpacker.SetOff save;
     k save t) b.
Proof.
  intros K1 Eb Hbs (Hp' & bs' & Eb' & Hbs' & Hr). split; [done|]. exists bs'. split_and!; try done.
  intros post Hpost. pose proof (packs_prefix _ _ _ _ _ post K1 Hbs Hpost) as Hpeek. rewrite <- Eb in Hpeek.
  set (u := Unpacker.mk (Packer.buf p' ++ post) (zlen (Packer.buf p))) in *.
  rewrite <- (Hr post Hpost). unfold Unpacker.bind, Unpacker.Off, Unpacker.SetOff, inSection in *.
  destruct (Unpacker.Name u) as [[n|e] u1]; [|done]. rewrite Hpeek. done.
Qed.

Lemma packs_additional r p p' i out e has :
  packer_ok p -> record_ok r -> RType r <> optTypeWire -> packRecord r p = Ok p' ->
  packs p p' (additionalStep i (out, e, has)) (out ++ [r], e, has).
Proof.
  intros Hp Hr Ht E. destruct (packRecord_spec r p p' Hp Hr E) as [K (p1 & bs & K1 & Eb & Hbs & _)].
  unfold additionalStep. cbv beta iota. eapply packs_peek; [done..|]. cbn beta.
  replace (RType r =? optTypeWire) with false by (symmetry; by apply Z.eqb_neq).
  eapply packs_bind; [by apply packs_inSection|]. apply packs_ret, K.
Qed.

Lemma packs_additionalOPT e p p' i out e0 :
  packer_ok p -> edns_ok e -> packOPT e p = Ok p' ->
  packs p p' (additionalStep i (out, e0, false)) (out, e, true).
Proof.
  intros Hp He E. destruct (packOPT_spec e p p' Hp He E) as [K (p1 & bs & K1 & Eb & Hbs & _)].
  unfold additionalStep. cbv beta iota. eapply packs_peek; [done..|]. cbn beta. rewrite Z.eqb_refl.
  eapply packs_bind; [by apply packs_inSection|]. apply packs_ret, K.
Qed.

Lemma packs_additionals rs n p p1 p2 i out e has st :
  packer_ok p -> Forall (fun r => record_ok r /\ RType r <> optTypeWire) rs -> packRecords rs p = Ok p1 ->
  (packer_ok p1 -> forall i, packs p1 p2 (unpackAdditionals_loop n i (out ++ rs, e, has)) st) ->
  packs p p2 (unpackAdditionals_loop (length rs + n) i (out, e, has)) st /\
  packer_ok p1 /\ zlen rs <= zlen (Packer.buf p1) - zlen (Packer.buf p).
Proof.
  intros Hp Hrs. revert p i out Hp. induction Hrs as [|r rs [Hr Ht] Hrs IH]; intros p i out Hp; cbn [packRecords].
  { intros [= ->] H. rewrite app_nil_r in H. split; [by apply H|]. rewrite zlen_nil. split; [done|lia]. }
  intros (p3 & E1 & E)%res_bind_Ok H. cbn [length Nat.add unpackAdditionals_loop].
  pose proof (packs_additional r p p3 i out e has Hp Hr Ht E1) as K.
  destruct (IH p3 (i + 1) (out ++ [r]) (proj1 K) E) as (IH1 & IH2 & IH3); [by rewrite <- app_assoc|].
  split; [by eapply packs_bind|]. split; [done|]. destruct (packRecord_spec r p p3 Hp Hr E1) as [_ (q & bs & K1 & Eb & _ & Hl)].
  apply packs_len in K1. rewrite zlen_cons. assert (zlen (Packer.buf p3) = zlen (Packer.buf q) + zlen bs) by (rewrite Eb; llia). lia.
Qed.

(** ** The message *)

Lemma codec_uint16OrZero v : u16 v -> codec false (Packer.Uint16 v) (fun _ => uint16OrZero) v.
Proof.
  intros Hv. apply codec_raw; [auto with wire|]. intros msg off e _ Ha Ho He _. unfold uint16OrZero. by rewrite (Uint16_at _ _ v).
Qed.

(** Reading the header hands the four counts to the rest of the parser. *)
Lemma packs_header {A} m arcount p' (k : Z -> Z -> Z -> Z -> Z -> Z -> U A) a :
  u16 (id m) -> u16 (flags m) -> u16 (zlen (questions m)) -> u16 (zlen (answers m)) -> u16 (zlen (authorities m)) -> u16 arcount ->
  let p := Packer.NewPacker [] in
  (packer_ok (packHeader m arcount p) ->
   packs (packHeader m arcount p) p' (k (id m) (flags m) (zlen (questions m)) (zlen (answers m)) (zlen (authorities m)) arcount) a) ->
  packs p p' (do id <- uint16OrZero; do flags <- uint16OrZero; do qd <- uint16OrZero;
              do an <- uint16OrZero; do ns <- uint16OrZero; do ar <- uint16OrZero; k id flags qd an ns ar) a.
Proof.
  intros H1 H2 H3 H4 H5 H6 p K. unfold packHeader in K. rewrite !to_u16_id in K by done.
  assert (forall v q, u16 v -> packer_ok q -> packs q (Packer.Uint16 v q) uint16OrZero v) as Hu.
  { intros v q Hv Hq. apply (packs_codec (Packer.Uint16 v)); [by apply codec_uint16OrZero|done]. }
  pose proof (Hu _ _ H1 packer_ok_new) as K1. pose proof (Hu _ _ H2 (proj1 K1)) as K2. pose proof (Hu _ _ H3 (proj1 K2)) as K3.
  pose proof (Hu _ _ H4 (proj1 K3)) as K4. pose proof (Hu _ _ H5 (proj1 K4)) as K5. pose proof (Hu _ _ H6 (proj1 K5)) as K6.
  repeat (eapply packs_bind; [eassumption|]). apply K, K6.
Qed.

(** The additional section, with its OPT record last. *)
Lemma packs_additional_section m p2 p3 p4 :
  packer_ok p2 -> Forall (fun r => record_ok r /\ RType r <> optTypeWire) (additionals m) ->
  (if hasEDNS m then edns_ok (edns m) else edns m = zeroEDNS) ->
  packRecords (additionals m) p2 = Ok p3 -> (if hasEDNS m then packOPT (edns m) p3 else Ok p3) = Ok p4 ->
  let arcount := if hasEDNS m then zlen (additionals m) + 1 else zlen (additionals m) in
  packs p2 p4 (unpackAdditionals arcount) (additionals m, edns m, hasEDNS m) /\
  arcount <= zlen (Packer.buf p4) - zlen (Packer.buf p2).
Proof.
  intros Hp2 Had He E3 E4. unfold unpackAdditionals. destruct (hasEDNS m); cbv zeta.
  - replace (Z.to_nat (zlen (additionals m) + 1)) with (length (additionals m) + 1)%nat by (unfold zlen; lia).
    destruct (packs_additionals (additionals m) 1 p2 p3 p4 0 [] zeroEDNS false (additionals m, edns m, true) Hp2 Had E3)
      as (K & Hp3 & Hl).
    { intros Hp3 i. cbn [app unpackAdditionals_loop]. eapply packs_bind; [by apply packs_additionalOPT|].
      apply packs_ret. by destruct (packOPT_spec _ _ _ Hp3 He E4) as [[? _] _]. }
    split; [done|]. destruct (packOPT_spec _ _ _ Hp3 He E4) as [_ (q & bs & Kq & Eb & _ & Hb)]. apply packs_len in Kq.
    assert (zlen (Packer.buf p4) = zlen (Packer.buf q) + zlen bs) by (rewrite Eb; llia). lia.
  - injection E4 as <-. replace (Z.to_nat (zlen (additionals m))) with (length (additionals m) + 0)%nat by (unfold zlen; lia).
    destruct (packs_additionals (additionals m) 0 p2 p3 p3 0 [] zeroEDNS false (additionals m, edns m, false) Hp2 Had E3)
      as (K & _ & Hl); [|done].
    intros Hp3 i. cbn [app unpackAdditionals_loop]. rewrite He. by apply packs_ret.
Qed.

(** The sections after the header. *)
Lemma packs_body m p p1 p2 p3 p4 i1 i2 :
  message_ok m -> packer_ok p ->
  packRecords (answers m) (fold_left (fun p q => packQuestion q p) (questions m) p) = Ok p1 ->
  packRecords (authorities m) p1 = Ok p2 -> packRecords (additionals m) p2 = Ok p3 ->
  (if hasEDNS m then packOPT (edns m) p3 else Ok p3) = Ok p4 ->
  let arcount := if hasEDNS m then zlen (additionals m) + 1 else zlen (additionals m) in
  arcount <= zlen (Packer.buf p4) - zlen (Packer.buf p) /\
  packs p p4
    (do qs <- unpackQuestions (zlen (questions m));
     do ans <- unpackRRs (zlen (answers m)) SectionAnswer;
     do aut <- unpackRRs (zlen (authorities m)) SectionAuthority;
     do adds <- unpackAdditionals arcount;
     let '(add, e, has) := adds in
     Unpacker.ret (mkMessage i1 i2 qs ans aut add e has))
    (mkMessage i1 i2 (map echoQuestion (questions m)) (answers m) (authorities m) (additionals m) (edns m) (hasEDNS m)).
Proof.
  intros (_ & _ & Hq & Han & Hau & Had & He) Hp E1 E2 E3 E4 arcount.
  pose proof (packs_questions (questions m) p 0 [] Hp Hq) as K0.
  pose proof (packs_records _ _ _ 0 SectionAnswer [] (proj1 K0) Han E1) as K1.
  pose proof (packs_records _ _ _ 0 SectionAuthority [] (proj1 K1) Hau E2) as K2.
  destruct (packs_additional_section m p2 p3 p4 (proj1 K2) Had He E3 E4) as [K3 Hl]. fold arcount in K3, Hl.
  apply packs_len in K0 as L0. apply packs_len in K1 as L1. apply packs_len in K2 as L2. split; [lia|].
  unfold unpackQuestions, unpackRRs. unfold zlen at 1 2 3. rewrite !Nat2Z.id.
  eapply packs_bind; [exact K0|]. eapply packs_bind; [exact K1|]. eapply packs_bind; [exact K2|].
  eapply packs_bind; [exact K3|]. apply packs_ret, K3.
Qed.

Lemma Pack_inv m b :
  Pack m = Ok b ->
  zlen (questions m) <= 0xffff /\ zlen (answers m) <= 0xffff /\ zlen (authorities m) <= 0xffff /\ zlen (additionals m) <= 0xffff /\
  let arcount := if hasEDNS m then zlen (additionals m) + 1 else zlen (additionals m) in
  exists p1 p2 p3 p4,
    packRecords (answers m) (fold_left (fun p q => packQuestion q p) (questions m) (packHeader m arcount (Packer.NewPacker []))) = Ok p1 /\
    packRecords (authorities m) p1 = Ok p2 /\ packRecords (additionals m) p2 = Ok p3 /\
    (if hasEDNS m then packOPT (edns m) p3 else Ok p3) = Ok p4 /\ b = Packer.buf p4 /\ zlen b <= 0xffff.
Proof.
  unfold Pack. destruct (_ || _) eqn:E; [done|]. bool_facts. cbv zeta. intros HP.
  apply res_bind_Ok in HP as (p1 & E1 & HP). apply res_bind_Ok in HP as (p2 & E2 & HP).
  apply res_bind_Ok in HP as (p3 & E3 & HP). apply res_bind_Ok in HP as (p4 & E4 & HP).
  destruct (_ <? _) eqn:El; [done|]. injection HP as <-. bool_facts.
  split_and!; try done. by exists p1, p2, p3, p4.
Qed.

Lemma Unpack_Pack m b : message_ok m -> Pack m = Ok b -> Unpack b = Ok (echoMessage m).
Proof.
  intros Hm HP. destruct (Pack_inv _ _ HP) as (L1 & L2 & L3 & L4 & p1 & p2 & p3 & p4 & E1 & E2 & E3 & E4 & -> & Hb).
  set (arcount := if hasEDNS m then _ else _) in *. pose proof Hm as (Hi & Hf & _).
  set (p0 := packHeader m arcount (Packer.NewPacker [])) in *.
  assert (packer_ok p0) as Hp0 by (repeat apply packer_ok_raw; auto using packer_ok_new with wire).
  destruct (packs_body m p0 p1 p2 p3 p4 (id m) (flags m) Hm Hp0 E1 E2 E3 E4) as [Har K]. fold arcount in Har, K.
  assert (zlen (Packer.buf p0) = 12) as H12 by done.
  assert (0 <= arcount) by (subst arcount; destruct (hasEDNS m); llia).
  assert (packs (Packer.NewPacker []) p4 unpackMessage (echoMessage m)) as (_ & bs & Eb & _ & Hr).
  { apply (packs_header m arcount p4 (fun id flags qd an ns ar =>
      do qs <- unpackQuestions qd; do ans <- unpackRRs an SectionAnswer; do aut <- unpackRRs ns SectionAuthority;
      do adds <- unpackAdditionals ar; let '(add, e, has) := adds in Unpacker.ret (mkMessage id flags qs ans aut add e has)));
      [done|done|unfold u16; llia..|]. intros _. exact K. }
  apply packs_len in K. unfold Unpack. if_false. specialize (Hr [] (Forall_nil_2 _)). rewrite app_nil_r in Hr.
  change (zlen (Packer.buf (Packer.NewPacker []))) with 0 in Hr. by rewrite Hr.
Qed.

(** C1. Round trip of whole messages: whenever [Pack] accepts a message the wire
    format can express, [Unpack] of the produced bytes gives back the same id,
    flags, sections and EDNS, question bytes recorded, with every name
    compressed against every earlier one; in particular the 16-bit section
    counts never wrap, although the additional count is incremented for the
    OPT record after the overflow check. *)
Theorem message_roundtrip m b : message_ok m -> Pack m = Ok b -> Unpack b = Ok (echoMessage m).
Proof. apply Unpack_Pack. Qed.

(** A response to example. IN A with one compressed answer and an EDNS cookie. *)
Definition sampleName : Name := mkName [7; 101; 120; 97; 109; 112; 108; 101; 0].
Definition sampleMessage : Message :=
  mkMessage 4660 33152 [NewQuestion sampleName rrtype.A]
    [NewRecord sampleName (300 * Second) (RD_A (Addr4 [192; 0; 2; 1]));
     NewRecord sampleName (300 * Second) (RD_CNAME sampleName)] [] []
    (mkEDNS 1232 0 0 true [mkEDNSOption 10 [1; 2; 3; 4; 5; 6; 7; 8]]) true.
Definition sampleBytes : bytes :=
  [18; 52; 129; 128; 0; 1; 0; 2; 0; 0; 0; 1;
   7; 101; 120; 97; 109; 112; 108; 101; 0; 0; 1; 0; 1;
   7; 101; 120; 97; 109; 112; 108; 101; 0; 0; 1; 0; 1; 0; 0; 1; 44; 0; 4; 192; 0; 2; 1;
   192; 25; 0; 5; 0; 1; 0; 0; 1; 44; 0; 2; 192; 25;
   0; 0; 41; 4; 208; 0; 0; 128; 0; 0; 12; 0; 10; 0; 8; 1; 2; 3; 4; 5; 6; 7; 8].

Lemma sampleName_ok : name_ok sampleName.
Proof. exists [[101; 120; 97; 109; 112; 108; 101]]. split_and!; [split; [reflexivity|decide_now]|decide_now|decide_now]. Qed.

Lemma sampleMessage_ok : message_ok sampleMessage.
Proof.
  unfold sampleMessage. split_and!; cbn [id flags questions answers authorities additionals edns hasEDNS].
  - decide_now.
  - decide_now.
  - constructor; [|constructor]. split; [decide_now|]. split; [decide_now|].
    exists [[101; 120; 97; 109; 112; 108; 101]]. split_and!; [decide_now|reflexivity|by vm_compute|reflexivity].
  - constructor; [|constructor; [|constructor]]; (split; [apply sampleName_ok|]); (split; [decide_now|]);
      (split; [exists 300; split; [reflexivity|by vm_compute]|]); eexists; (split; [reflexivity|]); (split; [|decide_now]).
    + exists [192; 0; 2; 1]. split; [done|]. split; [decide_now|reflexivity].
    + apply sampleName_ok.
  - constructor.
  - constructor.
  - split_and!; [decide_now..| |].
    + constructor; [|constructor]. split_and!; [decide_now|decide_now|by vm_compute].
    + apply NoDup_singleton.
Qed.

Lemma message_roundtrip_witness :
  Pack sampleMessage = Ok sampleBytes /\ Unpack sampleBytes = Ok (echoMessage sampleMessage).
Proof.
  assert (Pack sampleMessage = Ok sampleBytes) as E by (vm_compute; reflexivity).
  split; [exact E|exact (message_roundtrip _ _ sampleMessage_ok E)].
Defined.

(** ** The pointer limit *)

(** The name of [k] labels "a". *)
Definition aLabels (k : nat) : list bytes := replicate k [97].
Definition aName (k : nat) : Name := mkName (encName (aLabels k)).

(** One answer for each of a., a.a., ..., each name one label longer than the
    one before. *)
Definition chainMessage (n : nat) : Message :=
  mkMessage 0 0 [] (map (fun k => mkRecord (aName k) rrtype.ClassIN 0 (Some (RD_Unknown rrtype.A []))) (seq 1 n))
    [] [] zeroEDNS false.

Lemma aName_canonical k : (k <= 127)%nat -> canonical (aName k).
Proof.
  intros Hk. exists (aLabels k).
  assert (zlen (encName (aLabels k)) = 2 * Z.of_nat k + 1) as Hl.
  { clear. induction k as [|k IH]; [done|]. change (aLabels (S k)) with ([97] :: aLabels k). rewrite encName_cons, zlen_app, IH, zlen_encLabel. change (zlen [97]) with 1. lia. }
  split; [split_and!; [done| |]|].
  - apply Forall_replicate. split; [done|]. constructor; [by vm_compute|done].
  - cbn [wire aName]. rewrite Hl. unfold maxNameLen. lia.
  - by apply Forall_replicate.
Qed.

Lemma chainMessage_ok n : (n <= 127)%nat -> message_okP canonical (chainMessage n).
Proof.
  intros Hn. unfold chainMessage. split_and!; cbn [id flags questions answers authorities additionals edns hasEDNS]; try done; try constructor.
  apply List.Forall_map, Forall_forall. intros k Hk. apply elem_of_seq in Hk.
  split; [apply aName_canonical; lia|]. split; [done|]. split; [by exists 0|]. eexists. split; [reflexivity|].
  split; [|done]. split; [constructor|by left].
Qed.

(** The pointer limit is one-sided: the encoder chains pointers without
    bound, the decoder follows at most 32.  With 34 owner names, each one
    label longer than the one before, [Pack] succeeds and the package's own
    [Unpack] rejects the result at the 34th record, although every name is
    canonical and at most 69 bytes long. *)
Theorem pack_unpack_pointer_limit :
  message_okP canonical (chainMessage 34) /\
  exists b, Pack (chainMessage 34) = Ok b /\
    Unpack b = Err (MessageParseError SectionAnswer 33 (zlen b - 14) ErrInvalidName).
Proof.
  split; [by apply chainMessage_ok; lia|].
  exists (match Pack (chainMessage 34) with Ok b => b | Err _ => [] end). split; vm_compute; reflexivity.
Qed.
