(* ===== verification/MessageReads.v ===== *)
(** * Robustness of wire.Unpack

    On every byte sequence [Unpack] either reports where parsing failed or
    returns a message in normal form; and what it returns can be packed and
    parsed again. *)

From S2P Require Import Prelude Name Wire RData RDataCodec TypeBitmap.
From S2P Require Import RDataRoundtrip Reader RDataReads Message MessageRoundtrip.

(** ** Questions *)

(** A qname that goes through a pointer is detected. *)
Lemma hasPointer_compressed msg off ls h nx :
  is_bytes msg -> name_at msg off ls h nx -> 0 < h ->
  forall fuel pre, (length (zslice msg off nx) <= fuel)%nat ->
    hasPointer fuel (pre ++ zslice msg off nx) (zlen pre) = true.
Proof.
  intros Hb Hn. induction Hn as [off Ha|off l ls h nx Ha Hl Hn IH|off hi lo ls h nx Ha Hhi Hlo Hlt Hn IH];
    intros Hh fuel pre Hf; [lia| |].
  - pose proof (name_at_off _ _ _ _ _ Hn) as Ho. pose proof (name_at_next _ _ _ _ _ Hn) as Hx.
    assert (zslice msg off nx = encLabel l ++ zslice msg (off + 1 + zlen l) nx) as Es.
    { pose proof (at_bytes_len _ _ _ _ Ha). pose proof (proj1 Ha). apply (at_bytes_det msg off).
      - replace nx with (off + (nx - off)) by lia. apply at_bytes_of_slice; lia.
      - apply at_bytes_app. split; [done|]. rewrite zlen_encLabel, Z.add_assoc.
        replace nx with (off + 1 + zlen l + (nx - (off + 1 + zlen l))) by lia. apply at_bytes_of_slice; lia.
      - rewrite zlen_app, zlen_encLabel. replace nx with (off + (nx - off)) at 1 by lia.
        replace nx with (off + 1 + zlen l + (nx - (off + 1 + zlen l))) at 2 by lia.
        rewrite (proj2 (at_bytes_of_slice msg off (nx - off) ltac:(lia) ltac:(lia) ltac:(lia))).
        rewrite (proj2 (at_bytes_of_slice msg (off + 1 + zlen l) (nx - (off + 1 + zlen l)) ltac:(lia) ltac:(lia) ltac:(lia))). lia. }
    rewrite Es in *. rewrite length_app in Hf. unfold encLabel in Hf. cbn [length] in Hf.
    destruct fuel as [|fuel]; [lia|]. cbn [hasPointer].
    rewrite (at_bytes_get _ _ (zlen l) l) by apply at_bytes_mid.
    if_true. replace (Z.land (zlen l) 192 =? 192) with false.
    2: { symmetry. apply Z.eqb_neq. intros E. apply land_c0_ptr in E; [|unfold u8; lia]. lia. }
    if_false. rewrite app_assoc. replace (zlen pre + (1 + zlen l)) with (zlen (pre ++ encLabel l)) by (unfold encLabel; llia).
    apply IH; [done|lia].
  - replace (off + 2) with (off + zlen [192 + hi; lo]) in Hf |- * by done. rewrite (at_bytes_slice _ _ _ Ha) in Hf |- *.
    destruct fuel as [|fuel]; [cbn in Hf; lia|]. cbn [hasPointer].
    rewrite (at_bytes_get _ _ (192 + hi) [lo]) by apply (at_bytes_mid pre [192 + hi; lo] []).
    if_true. rewrite (proj2 (land_c0_ptr (192 + hi) ltac:(unfold u8; lia))) by lia. done.
Qed.

(** The qname part of [unpackQuestion]: the bytes kept for the echo are the
    inline encoding found on the wire. *)
Definition qname_at (msg : bytes) (off : Z) (q : Question) : Prop :=
  exists ls, Forall label_ok ls /\ at_bytes msg off (encName ls) /\ rawName q = encName ls /\
    zlen (encName ls) <= maxNameLen /\ q_name q = mkName (encName (foldLabels ls)).

Lemma be16_get16 a b : u8 a -> u8 b -> be16 (get16 a b) = [a; b].
Proof.
  intros Ha Hb. rewrite get16_add by done. unfold be16, to_u8, u8 in *. rewrite Z.shiftr_div_pow2 by lia.
  change (2 ^ 8) with 256. f_equal; [elia|]. f_equal. elia.
Qed.

Lemma at_bytes_u16 msg off :
  is_bytes msg -> 0 <= off -> off + 2 <= zlen msg -> at_bytes msg off (be16 (get16 (zget msg off) (zget msg (off + 1)))).
Proof.
  intros Hb Ho Hl. rewrite be16_get16 by (apply zget_u8; (done || lia)).
  apply at_bytes_cons. split; apply at_bytes_of_get; lia.
Qed.

Lemma unpackQuestion_spec u :
  valid u ->
  match unpackQuestion u with
  | (Ok q, u') => Unpacker.msg u' = Unpacker.msg u /\ Unpacker.off u + 5 <= Unpacker.off u' <= zlen (Unpacker.msg u) /\
      qname_at (Unpacker.msg u) (Unpacker.off u) q /\ u16 (q_typ q) /\ u16 (q_class q) /\
      Unpacker.off u' = Unpacker.off u + zlen (rawName q) + 4 /\
      at_bytes (Unpacker.msg u) (Unpacker.off u + zlen (rawName q)) (be16 (q_typ q) ++ be16 (q_class q))
  | (Err e, u') => Unpacker.msg u' = Unpacker.msg u /\ 0 <= Unpacker.off u' <= zlen (Unpacker.msg u) /\
      err_ok (zlen (Unpacker.msg u)) e
  end.
Proof.
  intros Hu. destruct u as [msg off]. destruct Hu as [Hb Ho]. cbn [Unpacker.msg Unpacker.off] in *.
  unfold unpackQuestion, Unpacker.Msg, Unpacker.Off, Unpacker.Name, Unpacker.bind. cbn [Unpacker.msg Unpacker.off].
  destruct (DecodeWire msg off) as [[n nx]|e] eqn:E; [|apply (DecodeWire_err _ _ _ Hb) in E as ->; cbn; split_and!; (done || lia)].
  pose proof (DecodeWire_ok _ _ _ _ Hb E) as [_ Hnx]. apply DecodeWire_spec in E as (ls & h & Hn & _ & Hl & ->); [|done].
  cbn [Unpacker.off]. if_true.
  destruct (hasPointer _ _ 0) eqn:Ep; [cbn; split_and!; (done || lia)|].
  assert (h = 0) as ->.
  { pose proof (name_at_hops _ _ _ _ _ Hn). destruct (decide (0 < h)); [|lia].
    by rewrite (hasPointer_compressed _ _ _ _ _ Hb Hn ltac:(lia) _ []) in Ep. }
  pose proof (name_at_labels _ _ _ _ _ Hb Hn) as Hls. apply name_at_inline_inv in Hn as [Ha ->]; [|done].
  rewrite (at_bytes_slice _ _ _ Ha). unfold Unpacker.ret, Unpacker.Uint16. cbn [Unpacker.msg Unpacker.off].
  destruct (_ <? _) eqn:E1; bool_facts; [cbn [Unpacker.msg Unpacker.off err_ok]; split_and!; (done || llia)|].
  destruct (_ <? _) eqn:E2; bool_facts; [cbn [Unpacker.msg Unpacker.off err_ok]; split_and!; (done || llia)|].
  cbn [Unpacker.ret Unpacker.msg Unpacker.off rawName q_typ q_class] in *. pose proof (zlen_encName ls) as Hz. rewrite Hz in *.
  split_and!; try done; try llia; [|apply get16_range; apply zget_u8; (done || llia)..|].
  - exists ls. rewrite Hz. by split_and!.
  - apply at_bytes_app. rewrite zlen_be16. split; apply at_bytes_u16; (done || llia).
Qed.

Lemma qname_question_ok msg off q :
  qname_at msg off q -> u16 (q_typ q) -> u16 (q_class q) -> question_ok q.
Proof.
  intros (ls & Hls & _ & Er & Hl & En) Ht Hc. split_and!; try done. exists ls. split_and!; try done.
  unfold qraw. rewrite Er. rewrite zlen_encName. by if_true.
Qed.

Lemma reads_unpackQuestion : reads 5 unpackQuestion question_ok.
Proof.
  intros u Hu. pose proof (unpackQuestion_spec u Hu) as H. destruct (unpackQuestion u) as [[q|e] u']; [|done].
  destruct H as (? & ? & ? & ? & ? & _). split_and!; try lia; try done. by eapply qname_question_ok.
Qed.

(** ** Records and the OPT record *)

#[export] Hint Resolve reads_unpackQuestion : reads.

Lemma reads_unpackRecord : reads 11 unpackRecord (record_okP canonical).
Proof.
  unfold unpackRecord. cbv zeta. repeat rstep. ok_facts. split; [done|]. split; [done|]. split.
  - eexists. split; [reflexivity|]. change (Z.shiftl 1 31) with 2147483648. unfold maxRecordTTLSeconds.
    split_if; bool_facts; unfold u32 in *; lia.
  - eexists. split; [reflexivity|]. match goal with H : decoded_as _ _ |- _ => destruct H as [? ->] end. done.
Qed.
#[export] Hint Resolve reads_unpackRecord : reads.

(** What holds of the options read so far. *)
Definition opt_inv (st : gset Z * list EDNSOption) : Prop :=
  Forall option_ok (snd st) /\ NoDup (map code (snd st)) /\ forall o, o ∈ snd st -> code o ∈ fst st.

Lemma reads_optStep e st : opt_inv st -> reads 1 (optStep e st) opt_inv.
Proof.
  destruct st as [seen out]. intros (Hok & Hnd & Hs). cbn [fst snd] in *. unfold optStep. do 3 rstep. rstep; [rstep|].
  case_decide as Hc; [rstep|]. repeat rstep. ok_facts. unfold opt_inv. cbn [fst snd]. split_and!.
  - apply Forall_app_2; [done|]. constructor; [|done]. split_and!; try done. cbn. llia.
  - rewrite map_app. apply NoDup_app. split_and!; [done| |by apply NoDup_singleton]. intros c Hin.
    change (map code out) with (code <$> out) in Hin. apply list_elem_of_fmap in Hin as (op & -> & Hop). cbn [map code].
    intros E%list_elem_of_singleton. apply Hc. rewrite <- E. by apply Hs.
  - intros op [Hop|Hop]%elem_of_app; [set_solver|]. apply list_elem_of_singleton in Hop as ->. cbn. set_solver.
Qed.

Lemma reads_unpackOPT : reads 11 unpackOPT edns_ok.
Proof.
  unfold unpackOPT. cbv zeta. repeat rstep.
  eapply reads_bind; [|apply (reads_loop _ _ opt_inv); [apply reads_optStep|]|]; [lia| |].
  { split_and!; [constructor|constructor|]. intros op Hop. by apply not_elem_of_nil in Hop. }
  intros [seen out] (Hok & Hnd & _). cbn [fst snd] in *. repeat rstep. unfold edns_ok. cbn [udpSize extRCODE version opts]. split_and!; try done; auto with wire.
Qed.
#[export] Hint Resolve reads_unpackOPT : reads.

(** ** Sections *)

Lemma reads_inSection {A} k s i (m : U A) P : -1 <= i -> reads k m P -> reads k (inSection s i m) P.
Proof.
  intros Hi H u Hu. specialize (H u Hu). unfold inSection. destruct (m u) as [[a|e] u']; [done|].
  destruct H as (? & ? & ?). cbn. split_and!; (done || lia).
Qed.

(** Reading [n] items that each take at least [k] bytes. *)
Lemma reads_unpackN {A} k (body : Z -> U A) (P : A -> Prop) n i out :
  0 <= k -> (forall i, 0 <= i -> reads k (body i) P) -> 0 <= i -> Forall P out ->
  reads (k * Z.of_nat n) (unpackN n i body out) (fun l => Forall P l /\ length l = (length out + n)%nat).
Proof.
  intros Hk Hbody. revert i out. induction n as [|n IH]; intros i out Hi Hout; cbn [unpackN].
  { apply reads_ret; [lia|]. split; [done|lia]. }
  eapply reads_bind; [|by apply Hbody|]; [done|]. intros a Ha.
  eapply reads_mono; [apply IH; [lia|apply Forall_app_2; [done|by constructor]]|lia|].
  intros l [Hl El]. split; [done|]. rewrite El, length_app. cbn [length]. lia.
Qed.

Lemma reads_unpackQuestions n : 0 <= n -> reads (minQuestionSize * n) (unpackQuestions n) (fun l => Forall question_ok l /\ zlen l = n).
Proof.
  intros Hn. unfold unpackQuestions. rewrite <- (Z2Nat.id n) at 1 by done.
  eapply reads_mono; [apply (reads_unpackN minQuestionSize _ question_ok); [done| |done|constructor]|lia|].
  - intros i Hi. apply reads_inSection; [lia|apply reads_unpackQuestion].
  - intros l [Hl El]. split; [done|]. unfold zlen. rewrite El. cbn [length]. lia.
Qed.

Lemma reads_unpackRRs n s : 0 <= n -> reads (minRecordSize * n) (unpackRRs n s) (fun l => Forall (record_okP canonical) l /\ zlen l = n).
Proof.
  intros Hn. unfold unpackRRs. rewrite <- (Z2Nat.id n) at 1 by done.
  eapply reads_mono; [apply (reads_unpackN minRecordSize _ (record_okP canonical)); [done| |done|constructor]|lia|].
  - intros i Hi. apply reads_inSection; [lia|apply reads_unpackRecord].
  - intros l [Hl El]. split; [done|]. unfold zlen. rewrite El. cbn [length]. lia.
Qed.

(** A reader's success leaves a valid position. *)
Lemma reads_valid {A} k (m : U A) P u a u' :
  0 <= k -> reads k m P -> valid u -> m u = (Ok a, u') -> valid u' /\ P a /\ Unpacker.msg u' = Unpacker.msg u.
Proof.
  intros Hk Hm Hu E. specialize (Hm u Hu). rewrite E in Hm. destruct Hm as (Em & Ho & HP). destruct Hu.
  split; [|done]. split; rewrite Em; [done|lia].
Qed.

(** The type seen by peeking is the type of the record read from there. *)
Lemma unpackRecord_type u n t u1 u2 r u' :
  valid u -> Unpacker.Name u = (Ok n, u1) -> Unpacker.Uint16 u1 = (Ok t, u2) -> unpackRecord u = (Ok r, u') -> RType r = t.
Proof.
  intros Hu En Et. unfold unpackRecord, Unpacker.bind. rewrite En, Et.
  destruct (reads_valid 1 _ _ _ _ _ ltac:(lia) reads_Name Hu En) as (Hu1 & _ & _).
  destruct (reads_valid 2 _ _ _ _ _ ltac:(lia) reads_Uint16 Hu1 Et) as (Hu2 & _ & _).
  destruct (Unpacker.Uint16 u2) as [[c|] u3] eqn:E3; [|done].
  destruct (reads_valid 2 _ _ _ _ _ ltac:(lia) reads_Uint16 Hu2 E3) as (Hu3 & _ & _).
  destruct (Unpacker.Uint32 u3) as [[ttl|] u4] eqn:E4; [|done].
  destruct (reads_valid 4 _ _ _ _ _ ltac:(lia) reads_Uint32 Hu3 E4) as (Hu4 & _ & _).
  destruct (Unpacker.Uint16 u4) as [[l|] u5] eqn:E5; [|done].
  destruct (reads_valid 2 _ _ _ _ _ ltac:(lia) reads_Uint16 Hu4 E5) as (Hu5 & _ & _).
  destruct (RData.Unpack t l u5) as [[rd|] u6] eqn:E6; [|done].
  destruct (reads_valid 0 _ _ _ _ _ ltac:(lia) (reads_Unpack t l) Hu5 E6) as (_ & [_ Ht] & _).
  intros [= <- _]. exact Ht.
Qed.

(** What holds of [out], [m.edns] and [m.hasEDNS] during the loop. *)
Definition add_inv (st : list Record_ * EDNS * bool) : Prop :=
  let '(out, e, has) := st in
  Forall (fun r => record_okP canonical r /\ RType r <> optTypeWire) out /\
  (if has : bool then edns_ok e else e = zeroEDNS).

Lemma reads_additionalStep i st :
  0 <= i -> add_inv st -> reads 11 (additionalStep i st) add_inv.
Proof.
  destruct st as [[out e] has]. intros Hi [Hout He] u Hu. unfold additionalStep.
  pose proof (reads_inSection _ SectionAdditional i _ _ ltac:(lia) reads_Name u Hu) as H1.
  unfold Unpacker.bind at 1, Unpacker.Off. unfold Unpacker.bind at 1. unfold inSection at 1. unfold inSection at 1 in H1.
  destruct (Unpacker.Name u) as [[n|x] u1] eqn:En; [|done].
  destruct (reads_valid 1 _ _ _ _ _ ltac:(lia) reads_Name Hu En) as (Hu1 & _ & Em1).
  pose proof (reads_inSection _ SectionAdditional i _ _ ltac:(lia) reads_Uint16 u1 Hu1) as H2. rewrite Em1 in H2.
  unfold Unpacker.bind at 1. unfold inSection at 1. unfold inSection at 1 in H2.
  destruct (Unpacker.Uint16 u1) as [[t|x] u2] eqn:Et; [|done].
  destruct (reads_valid 2 _ _ _ _ _ ltac:(lia) reads_Uint16 Hu1 Et) as (Hu2 & _ & Em2).
  unfold Unpacker.bind at 1, Unpacker.SetOff.
  assert (Unpacker.mk (Unpacker.msg u2) (Unpacker.off u) = u) as -> by (destruct u; cbn in *; congruence).
  destruct (t =? optTypeWire) eqn:E; bool_facts; [destruct has|].
  - destruct Hu. cbn. split_and!; (done || lia).
  - revert u Hu En H1 Em1 Em2 H2. intros u Hu _ _ _ _ _.
    apply (reads_bind 11 11 _ _ edns_ok add_inv); [lia|apply reads_inSection; [lia|apply reads_unpackOPT]| |done].
    intros e' He'. apply reads_ret; [lia|]. exact (conj Hout He').
  - pose proof (reads_inSection _ SectionAdditional i _ _ ltac:(lia) reads_unpackRecord u Hu) as H3.
    unfold Unpacker.bind, inSection in *. destruct (unpackRecord u) as [[r|x] u3] eqn:Er; [|done].
    destruct H3 as (? & ? & Hr). cbn. split_and!; try done; try lia.
    apply Forall_app_2; [done|]. constructor; [|done]. split; [done|]. by rewrite (unpackRecord_type _ _ _ _ _ _ _ Hu En Et Er).
Qed.

Lemma reads_unpackAdditionals_loop n i st :
  0 <= i -> add_inv st -> reads (11 * Z.of_nat n) (unpackAdditionals_loop n i st) add_inv.
Proof.
  revert i st. induction n as [|n IH]; intros i st Hi Hst; cbn [unpackAdditionals_loop]; [by apply reads_ret; [lia|]|].
  eapply reads_bind; [|by apply reads_additionalStep|]; [lia|]. intros st' Hst'.
  eapply reads_mono; [apply IH; [lia|done]|lia|done].
Qed.

Lemma reads_unpackAdditionals n : 0 <= n -> reads (minRecordSize * n) (unpackAdditionals n) add_inv.
Proof.
  intros Hn. unfold unpackAdditionals, minRecordSize. rewrite <- (Z2Nat.id n) at 1 by done.
  apply reads_unpackAdditionals_loop; [done|]. by split; [constructor|].
Qed.

(** ** The message *)

Lemma reads_uint16OrZero : reads 0 uint16OrZero u16.
Proof.
  intros u Hu. pose proof (reads_Uint16 u Hu) as H. unfold uint16OrZero. destruct (Unpacker.Uint16 u) as [[v|e] u'] eqn:E.
  - destruct H as (? & ? & ?). split_and!; (done || lia).
  - revert E. unfold Unpacker.Uint16. destruct (_ <? _); [|done]. intros [= <- <-]. destruct Hu. split_and!; (done || lia).
Qed.
#[export] Hint Resolve reads_uint16OrZero : reads.

Lemma reads_unpackMessage : reads 0 unpackMessage (message_okP canonical).
Proof.
  unfold unpackMessage. do 6 rstep. unfold u16 in *.
  eapply (reads_bind _ 0); [|eapply reads_mono; [apply reads_unpackQuestions; lia|unfold minQuestionSize; lia|done]|]; [lia|]. intros qs [Hqs _].
  eapply (reads_bind _ 0); [|eapply reads_mono; [apply reads_unpackRRs; lia|unfold minRecordSize; lia|done]|]; [lia|]. intros ans [Hans _].
  eapply (reads_bind _ 0); [|eapply reads_mono; [apply reads_unpackRRs; lia|unfold minRecordSize; lia|done]|]; [lia|]. intros aut [Haut _].
  eapply (reads_bind _ 0); [|eapply reads_mono; [apply reads_unpackAdditionals; lia|unfold minRecordSize; lia|done]|]; [lia|].
  intros [[add e] has] [Hadd He]. apply reads_ret; [lia|]. by split_and!.
Qed.

(** Errors that say where they happened. *)
Definition is_located (e : error) : Prop := match e with MessageParseError _ _ _ _ => True | _ => False end.
Definition located {A} (m : U A) : Prop := forall u e u', m u = (Err e, u') -> is_located e.

Lemma located_bind {A B} (m : U A) (f : A -> U B) : located m -> (forall a, located (f a)) -> located (Unpacker.bind m f).
Proof.
  intros Hm Hf u e u'. unfold Unpacker.bind. destruct (m u) as [[a|x] u1] eqn:E; [apply Hf|].
  intros [= -> _]. by eapply Hm.
Qed.
Lemma located_ok {A} (m : U A) : (forall u, is_ok (fst (m u)) = true) -> located m.
Proof. intros H u e u' E. specialize (H u). by rewrite E in H. Qed.
Lemma located_inSection {A} s i (m : U A) : located (inSection s i m).
Proof. intros u e u'. unfold inSection. destruct (m u) as [[a|x] u1]; [done|]. by intros [= <- _]. Qed.
Lemma located_uint16OrZero : located uint16OrZero.
Proof. apply located_ok. intros u. unfold uint16OrZero. by destruct (Unpacker.Uint16 u) as [[] ?]. Qed.
Lemma located_unpackN {A} n i s (m : U A) out : located (unpackN n i (fun i => inSection s i m) out).
Proof.
  revert i out. induction n as [|n IH]; intros i out; cbn [unpackN]; [by apply located_ok|].
  apply located_bind; [apply located_inSection|]. intros x. apply IH.
Qed.
Lemma located_additionals n i st : located (unpackAdditionals_loop n i st).
Proof.
  revert i st. induction n as [|n IH]; intros i st; cbn [unpackAdditionals_loop]; [by apply located_ok|].
  apply located_bind; [|intros; apply IH]. destruct st as [[out e] has]. unfold additionalStep.
  apply located_bind; [by apply located_ok|]. intros save.
  do 2 (apply located_bind; [apply located_inSection|]; intros ?). apply located_bind; [by apply located_ok|]. intros _.
  destruct (_ =? _); [destruct has|].
  - intros u x u' [= <- _]. done.
  - apply located_bind; [apply located_inSection|]. intros ?. by apply located_ok.
  - apply located_bind; [apply located_inSection|]. intros ?. by apply located_ok.
Qed.
Lemma located_unpackMessage : located unpackMessage.
Proof.
  unfold unpackMessage. do 6 (apply located_bind; [apply located_uint16OrZero|]; intros ?).
  do 3 (apply located_bind; [apply located_unpackN|]; intros ?).
  apply located_bind; [apply located_additionals|]. intros [[add e] has]. by apply located_ok.
Qed.

(** C2. [Unpack] is total and safe: on every byte sequence it returns (no panic,
    no unbounded loop), either a message in normal form (every name
    canonical, every payload well formed, TTLs below 2^31 seconds, EDNS option
    codes distinct, no OPT left among the additionals), or a
    [MessageParseError] whose offset points into the input. *)
Theorem unpack_safe b :
  is_bytes b ->
  match Unpack b with
  | Ok m => message_okP canonical m
  | Err e => is_located e /\ err_ok (zlen b) e
  end.
Proof.
  intros Hb. unfold Unpack. destruct (_ <? _) eqn:E; bool_facts.
  { split; [done|]. cbn. llia. }
  assert (valid (Unpacker.mk b 0)) as Hu by (split; [done|cbn; lia]).
  pose proof (reads_unpackMessage _ Hu) as H. pose proof (located_unpackMessage (Unpacker.mk b 0)) as Hl.
  destruct (unpackMessage (Unpacker.mk b 0)) as [[m|e] u']; cbn [fst]; [by destruct H as (_ & _ & ?)|].
  split; [by eapply Hl|]. by destruct H as (_ & _ & ?).
Qed.

(** A header that promises 65535 records of each section and has none. *)
Lemma unpack_safe_witness :
  let b := [0; 0; 0; 0; 255; 255; 255; 255; 255; 255; 255; 255] in
  is_bytes b /\
  match Unpack b with
  | Ok m => message_okP canonical m
  | Err e => is_located e /\ err_ok (zlen b) e
  end.
Proof.
  assert (is_bytes [0; 0; 0; 0; 255; 255; 255; 255; 255; 255; 255; 255]) as Hb by decide_now.
  split; [exact Hb|exact (unpack_safe _ Hb)].
Defined.

(** ** Echoing the question *)

(** Byte-exact question echo (RFC 5452 0x20): re-packing a question that was
    parsed appends exactly the bytes it was parsed from, original letter case
    included, and those bytes hold the name inline: a question whose name goes
    through a compression pointer is refused. *)
Theorem question_echo u q u' p :
  valid u -> unpackQuestion u = (Ok q, u') ->
  Packer.buf (packQuestion q p) = Packer.buf p ++ zslice (Unpacker.msg u) (Unpacker.off u) (Unpacker.off u') /\
  qname_at (Unpacker.msg u) (Unpacker.off u) q.
Proof.
  intros Hu E. pose proof (unpackQuestion_spec u Hu) as H. rewrite E in H.
  destruct H as (Em & Ho & Hq & Ht & Hc & Hend & Hat). split; [|done].
  pose proof Hq as (ls & Hls & Ha & Er & Hl & En).
  assert (at_bytes (Unpacker.msg u) (Unpacker.off u) (rawName q ++ be16 (q_typ q) ++ be16 (q_class q))) as Hall
    by (apply at_bytes_app; rewrite Er in *; done).
  apply at_bytes_slice in Hall. rewrite !zlen_app, !zlen_be16 in Hall.
  replace (Unpacker.off u') with (Unpacker.off u + (zlen (rawName q) + (2 + 2))) by lia. rewrite Hall.
  unfold packQuestion, Packer.Uint16, Packer.Raw. rewrite Er, zlen_encName. if_true. cbn [Packer.buf]. by rewrite <- !app_assoc.
Qed.

(** "eXAmple" keeps its letter case. *)
Lemma question_echo_witness :
  let msg := [7; 101; 88; 65; 109; 112; 108; 101; 0; 0; 28; 0; 1] in
  let q := mkQuestion (mkName [7; 101; 120; 97; 109; 112; 108; 101; 0]) 28 1 [7; 101; 88; 65; 109; 112; 108; 101; 0] in
  Packer.buf (packQuestion q (Packer.NewPacker [])) = [] ++ zslice msg 0 13 /\ qname_at msg 0 q.
Proof.
  apply (question_echo (Unpacker.mk [7; 101; 88; 65; 109; 112; 108; 101; 0; 0; 28; 0; 1] 0)
           (mkQuestion (mkName [7; 101; 120; 97; 109; 112; 108; 101; 0]) 28 1 [7; 101; 88; 65; 109; 112; 108; 101; 0])
           (Unpacker.mk [7; 101; 88; 65; 109; 112; 108; 101; 0; 0; 28; 0; 1] 13) (Packer.NewPacker [])).
  - split; [decide_now|split; vm_compute; discriminate].
  - vm_compute; reflexivity.
Defined.

(** ** Packing what was parsed *)

(** The names of a payload that are packed with compression. *)
Definition compNames (rd : RData) : list Name :=
  match rd with
  | RD_CNAME n | RD_NS n | RD_PTR n | RD_NSAPPTR n | RD_MX _ n => [n]
  | RD_SOA mname rname _ _ _ _ _ => [mname; rname]
  | RD_RP mbox txt => [mbox; txt]
  | _ => []
  end.
Definition recordNames (r : Record_) : list Name :=
  r_name r :: match r_rd r with Some rd => compNames rd | None => [] end.
Definition messageNames (m : Message) : list Name :=
  flat_map recordNames (answers m ++ authorities m ++ additionals m).
Definition short (n : Name) : Prop := NumLabels n <= maxPtrHops.

Lemma short_name_ok n : canonical n -> short n -> name_ok n.
Proof. intros (ls & Hw & Hf) Hs. exists ls. unfold short in Hs. by rewrite (NumLabels_wf _ _ Hw) in Hs. Qed.

Lemma rd_ok_short rd : rd_okP canonical rd -> Forall short (compNames rd) -> rd_ok rd.
Proof.
  destruct rd; cbn [rd_okP compNames]; try done; rewrite ?Forall_cons; intuition auto using short_name_ok.
Qed.

Lemma record_ok_short r : record_okP canonical r -> Forall short (recordNames r) -> record_ok r.
Proof.
  intros (Hn & Hc & Ht & rd & E & Hrd & Hty) H. unfold recordNames in H. rewrite E in H. apply Forall_cons in H as [H1 H2].
  split_and!; try done; [by apply short_name_ok|]. exists rd. split_and!; try done. by apply rd_ok_short.
Qed.

Lemma Forall_flat_map {A B} (P : B -> Prop) (f : A -> list B) l :
  Forall P (flat_map f l) <-> Forall (fun x => Forall P (f x)) l.
Proof. induction l as [|x l IH]; cbn; [by rewrite !Forall_nil|]. by rewrite Forall_app, Forall_cons, IH. Qed.

Lemma message_ok_short m : message_okP canonical m -> Forall short (messageNames m) -> message_ok m.
Proof.
  intros (? & ? & ? & Ha & Hu & Hd & ?) HS. unfold messageNames in HS. rewrite Forall_flat_map, !Forall_app in HS.
  destruct HS as (Sa & Su & Sd). split_and!; try done.
  - rewrite Forall_forall in *. intros r Hr. apply record_ok_short; auto.
  - rewrite Forall_forall in *. intros r Hr. apply record_ok_short; auto.
  - rewrite Forall_forall in *. intros r Hr. split; [apply record_ok_short; [by apply Hd|auto]|by apply Hd].
Qed.

(** Parsed questions already carry their bytes. *)
Definition echoed (q : Question) : Prop := 0 < zlen (rawName q).

Lemma reads_echoed : reads 5 unpackQuestion echoed.
Proof.
  intros u Hu. pose proof (unpackQuestion_spec u Hu) as H. destruct (unpackQuestion u) as [[q|e] u']; [|done].
  destruct H as (? & ? & (ls & _ & _ & Er & _) & _). split_and!; try lia; try done. unfold echoed. rewrite Er, zlen_encName. llia.
Qed.

Lemma reads_echoed_message : reads 0 unpackMessage (fun m => Forall echoed (questions m)).
Proof.
  unfold unpackMessage. do 6 rstep. unfold u16 in *.
  eapply (reads_bind _ 0); [|eapply reads_mono; [eapply (reads_unpackN 5 _ echoed)| |]|]; [lia|lia| |lia|constructor|lia|intros l [Hl _]; exact Hl|].
  { intros i Hi. apply reads_inSection; [lia|apply reads_echoed]. }
  intros qs Hqs. cbn beta in Hqs.
  eapply (reads_bind _ 0); [|eapply reads_mono; [apply reads_unpackRRs; lia|unfold minRecordSize; lia|done]|]; [lia|]. intros ans _.
  eapply (reads_bind _ 0); [|eapply reads_mono; [apply reads_unpackRRs; lia|unfold minRecordSize; lia|done]|]; [lia|]. intros aut _.
  eapply (reads_bind _ 0); [|eapply reads_mono; [apply reads_unpackAdditionals; lia|unfold minRecordSize; lia|done]|]; [lia|].
  intros [[add e] has] _. by apply reads_ret; [lia|].
Qed.

Lemma echoMessage_id m : Forall echoed (questions m) -> echoMessage m = m.
Proof.
  intros H. destruct m as [i f qs an au ad e h]. unfold echoMessage. cbn in *. f_equal.
  induction H as [|q qs Hq _ IH]; [done|]. cbn. rewrite IH. f_equal. destruct q as [n t c raw]. unfold echoQuestion, qraw, echoed in *.
  cbn in *. by if_true.
Qed.

Lemma Unpack_ok b m :
  is_bytes b -> Unpack b = Ok m -> message_okP canonical m /\ Forall echoed (questions m).
Proof.
  intros Hb. unfold Unpack. destruct (_ <? _) eqn:E; [done|]. bool_facts.
  assert (valid (Unpacker.mk b 0)) as Hu by (split; [done|cbn; lia]).
  pose proof (reads_unpackMessage _ Hu) as H1. pose proof (reads_echoed_message _ Hu) as H2.
  destruct (unpackMessage _) as [[m'|e] u']; [|done]. intros [= <-]. by destruct H1 as (_ & _ & ?), H2 as (_ & _ & ?).
Qed.

(** C3. Re-encoding is faithful: a message parsed from the wire (whatever
    compression, letter case or record layout the sender chose) and packed
    again is read back as the same message, provided its names have at most
    32 labels; so a forwarder that unpacks and re-packs changes nothing. *)
Theorem reencode_stable b m b' :
  is_bytes b -> Unpack b = Ok m -> Forall short (messageNames m) -> Pack m = Ok b' -> Unpack b' = Ok m.
Proof.
  intros Hb HU Hs HP. destruct (Unpack_ok b m Hb HU) as [Hm Hq].
  rewrite <- (echoMessage_id m Hq). apply Unpack_Pack; [by apply message_ok_short|done].
Qed.

(** sampleBytes with the answer's owner pointing into the question instead. *)
Definition compressedBytes : bytes :=
  [18; 52; 129; 128; 0; 1; 0; 1; 0; 0; 0; 0;
   7; 101; 88; 97; 109; 112; 108; 101; 0; 0; 1; 0; 1;
   192; 12; 0; 1; 0; 1; 0; 0; 1; 44; 0; 4; 192; 0; 2; 1].

Lemma reencode_stable_witness :
  exists m b', Unpack compressedBytes = Ok m /\ Pack m = Ok b' /\ b' <> compressedBytes /\ Unpack b' = Ok m.
Proof.
  exists (match Unpack compressedBytes with Ok m => m | Err _ => zeroMessage end).
  exists (match Unpack compressedBytes with Ok m => match Pack m with Ok b => b | Err _ => [] end | Err _ => [] end).
  split; [vm_compute; reflexivity|]. split; [vm_compute; reflexivity|]. split; [vm_compute; discriminate|].
  apply (reencode_stable compressedBytes).
  - decide_now.
  - vm_compute; reflexivity.
  - vm_compute. repeat constructor; discriminate.
  - vm_compute; reflexivity.
Defined.

(** ** Allocation *)

(** The capacity reserved for a section is bounded by the input and exact:
    a claimed count never reserves more entries than could fit in the bytes
    that are left, and whenever the section parses, the reserved capacity is
    exactly the number of records appended, so the slice never regrows. *)
Theorem section_capacity n s u l u' :
  0 <= n -> valid u -> unpackRRs n s u = (Ok l, u') ->
  clampCount n (zlen (Unpacker.msg u) - Unpacker.off u) minRecordSize = zlen l /\
  forall claimed, 0 <= claimed ->
    0 <= clampCount claimed (zlen (Unpacker.msg u) - Unpacker.off u) minRecordSize * minRecordSize
      <= zlen (Unpacker.msg u) - Unpacker.off u.
Proof.
  intros Hn Hu E. pose proof (reads_unpackRRs n s Hn u Hu) as H. rewrite E in H. destruct H as (_ & Ho & _ & Hl).
  destruct Hu as [_ Hu]. unfold clampCount, minRecordSize in *. cbn [Z.leb Z.compare orb]. split.
  - destruct (_ <=? 0) eqn:E0; bool_facts; [rewrite Hl; lia|]. rewrite Z.quot_div_nonneg by lia. rewrite Hl.
    destruct (_ <? n) eqn:E1; bool_facts; elia.
  - intros c Hc. destruct (_ <=? 0) eqn:E0; bool_facts; [lia|]. rewrite Z.quot_div_nonneg by lia.
    destruct (_ <? c) eqn:E1; bool_facts; elia.
Qed.

Lemma section_capacity_witness :
  let b := [0; 0; 1; 0; 1; 0; 0; 0; 0; 0; 4; 192; 0; 2; 1] in
  exists l : list Record_,
  clampCount 1 (zlen b - 0) minRecordSize = zlen l /\
  forall claimed, 0 <= claimed -> 0 <= clampCount claimed (zlen b - 0) minRecordSize * minRecordSize <= zlen b - 0.
Proof.
  eexists. refine (section_capacity 1 SectionAnswer (Unpacker.mk [0; 0; 1; 0; 1; 0; 0; 0; 0; 0; 4; 192; 0; 2; 1] 0) _ _ _ _ _).
  - lia.
  - split; [decide_now|split; vm_compute; discriminate].
  - vm_compute; reflexivity.
Defined.
