(* ===== verification/MessageOps.v ===== *)
(** * Header flags and the builders

    The accessors of [Flags] as fields of a 16-bit word; [MessageBuilder] and
    [EDNSBuilder] against specifications that read a message off the list of
    calls. *)

From S2P Require Import Prelude Name Wire RData RDataCodec TypeBitmap RDataRoundtrip Message MessageRoundtrip.

(** ** Flags *)

Lemma flag_bit f k : 0 <= k -> negb (Z.land f (Z.shiftl 1 k) =? 0) = Z.testbit f k.
Proof. intros Hk. by rewrite land_bit, negb_involutive. Qed.

Lemma setBit_bit f k v n :
  0 <= k -> 0 <= n -> Z.testbit (setBit f (Z.shiftl 1 k) v) n = if k =? n then v else Z.testbit f n.
Proof.
  intros Hk Hn. unfold setBit. rewrite Z.shiftl_1_l.
  destruct v; rewrite ?Z.lor_spec, ?Z.ldiff_spec, Z.pow2_bits_eqb by done;
    destruct (k =? n); by rewrite ?orb_true_r, ?orb_false_r, ?andb_false_r, ?andb_true_r.
Qed.

Lemma u16_bits f : u16 f <-> 0 <= f /\ forall n, 16 <= n -> Z.testbit f n = false.
Proof.
  unfold u16. split.
  - intros [H1 H2]. split; [done|]. intros n Hn. destruct (decide (f = 0)) as [->|]; [apply Z.bits_0|].
    apply Z.bits_above_log2; [done|]. enough (Z.log2 f < 16) by lia. apply Z.log2_lt_pow2; lia.
  - intros [H1 H2]. split; [done|]. destruct (decide (f = 0)) as [->|]; [lia|].
    change 65536 with (2 ^ 16). apply Z.log2_lt_pow2; [lia|]. destruct (Z.lt_ge_cases (Z.log2 f) 16); [done|].
    specialize (H2 _ H). by rewrite Z.bit_log2 in H2 by lia.
Qed.

Lemma nibble_ext f g k :
  0 <= k -> (forall n, k <= n < k + 4 -> Z.testbit f n = Z.testbit g n) ->
  Z.land (Z.shiftr f k) 0x0f = Z.land (Z.shiftr g k) 0x0f.
Proof.
  intros Hk H. apply Z.bits_inj'. intros n Hn. rewrite !Z.land_spec, !Z.shiftr_spec by done.
  change 0x0f with (Z.ones 4). rewrite Z.testbit_ones_nonneg by lia.
  destruct (Z.ltb_spec n 4); [by rewrite H by lia|by rewrite !andb_false_r].
Qed.

(** The word with its nibble at [k] replaced. *)
Lemma nibble_bit f v k n :
  0 <= k -> 0 <= n ->
  Z.testbit (Z.lor (Z.ldiff f (Z.shiftl 0x0f k)) (Z.shiftl (Z.land v 0x0f) k)) n
    = if (k <=? n) && (n <? k + 4) then Z.testbit v (n - k) else Z.testbit f n.
Proof.
  intros Hk Hn. rewrite Z.lor_spec, Z.ldiff_spec, !Z.shiftl_spec, Z.land_spec by done.
  change 0x0f with (Z.ones 4). rewrite Z.testbit_ones by lia.
  replace (0 <=? n - k) with (k <=? n) by (apply eq_true_iff_eq; rewrite !Z.leb_le; lia).
  replace (n - k <? 4) with (n <? k + 4) by (apply eq_true_iff_eq; rewrite !Z.ltb_lt; lia).
  destruct (Z.leb_spec k n), (Z.ltb_spec n (k + 4)); cbn; rewrite ?andb_false_r, ?andb_true_r, ?orb_false_r; done.
Qed.

Lemma WithOpcode_bit o f n :
  0 <= n -> Z.testbit (WithOpcode o f) n = if (11 <=? n) && (n <? 15) then Z.testbit o (n - 11) else Z.testbit f n.
Proof.
  intros Hn. unfold WithOpcode. rewrite to_u16_id; [by apply (nibble_bit f o 11)|].
  rewrite Z.shiftl_mul_pow2 by done. change 0x0f with (Z.ones 4). rewrite Z.land_ones by done. unfold u16.
  pose proof (Z.mod_pos_bound o (2 ^ 4) ltac:(lia)). lia.
Qed.

Lemma WithRCODE_bit r f n :
  0 <= n -> Z.testbit (WithRCODE r f) n = if (0 <=? n) && (n <? 4) then Z.testbit r (n - 0) else Z.testbit f n.
Proof. intros Hn. pose proof (nibble_bit f r 0 n) as H. rewrite !Z.shiftl_0_r in H. by apply H. Qed.

(** The fields of a header word, as the accessors see them. *)
Definition flagFields (f : Flags) : bool * Z * bool * bool * bool * bool * bool * bool * Z :=
  (Response f, Opcode f, Authoritative f, Truncated f, RecursionDesired f, RecursionAvailable f,
   AuthenticData f, CheckingDisabled f, RCODE f).

Lemma nibble_get f v k :
  0 <= k -> 0 <= v < 16 -> (forall n, k <= n < k + 4 -> Z.testbit f n = Z.testbit v (n - k)) ->
  Z.land (Z.shiftr f k) 0x0f = v.
Proof.
  intros Hk Hv H. transitivity (Z.land (Z.shiftr (Z.shiftl v k) k) 0x0f).
  - apply nibble_ext; [done|]. intros n Hn. by rewrite H, Z.shiftl_spec by lia.
  - rewrite Z.shiftr_shiftl_l, Z.sub_diag, Z.shiftl_0_r by lia. change 0x0f with (Z.ones 4).
    rewrite Z.land_ones by lia. by apply Z.mod_small.
Qed.

Lemma RCODE_nibble f : RCODE f = Z.land (Z.shiftr f 0) 0x0f.
Proof. done. Qed.

Ltac flag_rw :=
  unfold flagQR, flagAA, flagTC, flagRD, flagRA, flagAD, flagCD in *;
  rewrite ?flag_bit by done;
  repeat (rewrite ?setBit_bit, ?WithOpcode_bit, ?WithRCODE_bit by lia).
Ltac flag_bits := flag_rw; cbn [Z.eqb Z.leb Z.ltb Z.compare Pos.compare Pos.compare_cont Pos.eqb andb].

(** A field that the setter leaves alone, or the one it sets. *)
Ltac flag_field :=
  first [ reflexivity
        | apply nibble_get; [done|lia|]; intros n Hn; flag_rw; by if_true
        | apply nibble_ext; [done|]; intros n Hn; flag_rw; by if_false ].

Ltac flag_fields :=
  unfold flagFields, Response, Authoritative, Truncated, RecursionDesired, RecursionAvailable, AuthenticData,
    CheckingDisabled, WithResponse, WithAuthoritative, WithTruncated, WithRecursionDesired, WithRecursionAvailable,
    WithAuthenticData, WithCheckingDisabled;
  flag_bits; rewrite ?RCODE_nibble; unfold Opcode;
  do 8 (apply (f_equal2 pair); [|flag_field]); flag_field.

(** The header word is a record: each With setter changes exactly its own
    field and no other, on every word. *)
Theorem flags_setters f :
  let '(qr, op, aa, tc, rd, ra, ad, cd, rc) := flagFields f in
  (forall v, flagFields (WithResponse v f) = (v, op, aa, tc, rd, ra, ad, cd, rc)) /\
  (forall o, 0 <= o < 16 -> flagFields (WithOpcode o f) = (qr, o, aa, tc, rd, ra, ad, cd, rc)) /\
  (forall v, flagFields (WithAuthoritative v f) = (qr, op, v, tc, rd, ra, ad, cd, rc)) /\
  (forall v, flagFields (WithTruncated v f) = (qr, op, aa, v, rd, ra, ad, cd, rc)) /\
  (forall v, flagFields (WithRecursionDesired v f) = (qr, op, aa, tc, v, ra, ad, cd, rc)) /\
  (forall v, flagFields (WithRecursionAvailable v f) = (qr, op, aa, tc, rd, v, ad, cd, rc)) /\
  (forall v, flagFields (WithAuthenticData v f) = (qr, op, aa, tc, rd, ra, v, cd, rc)) /\
  (forall v, flagFields (WithCheckingDisabled v f) = (qr, op, aa, tc, rd, ra, ad, v, rc)) /\
  (forall r, 0 <= r < 16 -> flagFields (WithRCODE r f) = (qr, op, aa, tc, rd, ra, ad, cd, r)).
Proof. unfold flagFields. split_and!; intros; flag_fields. Qed.

Lemma flags_setters_witness : flagFields (WithOpcode OpcodeNotify 0x8180) = (true, OpcodeNotify, false, false, true, true, false, false, 0).
Proof. apply (flags_setters 0x8180). split; vm_compute; [discriminate|reflexivity]. Defined.

(** ** MessageBuilder *)
Module BuilderSpec.
Import MessageBuilder.

(** The calls a client can make between construction and Build. *)
Inductive call :=
  | CID (v : Z)
  | CFlags (g : Flags -> Flags)        (* Flags, Response, Opcode, ..., RCODE *)
  | CQuestion (q : Question)
  | CAnswer (r : Record_)
  | CAuthority (r : Record_)
  | CAdditional (r : Record_)
  | CEDNS (e : EDNS).

Definition run1 (c : call) : MessageBuilder.t -> MessageBuilder.t :=
  match c with
  | CID v => ID v
  | CFlags g => upd (setFlags g)
  | CQuestion q => Question_ q
  | CAnswer r => Answer r
  | CAuthority r => Authority r
  | CAdditional r => Additional r
  | CEDNS e => EDNS_ e
  end.
Definition run (cs : list call) (b : MessageBuilder.t) : MessageBuilder.t := fold_left (fun b c => run1 c b) cs b.

(** A call that hands over a record without rdata. *)
Definition zeroCall (c : call) : bool :=
  match c with CAnswer r | CAuthority r | CAdditional r => IsZero r | _ => false end.

(** The message described by a list of calls, section by section. *)
Definition specMessage (cs : list call) : Message :=
  mkMessage
    (fold_left (fun i c => match c with CID v => v | _ => i end) cs 0)
    (fold_left (fun f c => match c with CFlags g => g f | _ => f end) cs 0)
    (omap (fun c => match c with CQuestion q => Some q | _ => None end) cs)
    (omap (fun c => match c with CAnswer r => Some r | _ => None end) cs)
    (omap (fun c => match c with CAuthority r => Some r | _ => None end) cs)
    (omap (fun c => match c with CAdditional r => Some r | _ => None end) cs)
    (fold_left (fun e c => match c with CEDNS e' => e' | _ => e end) cs zeroEDNS)
    (fold_left (fun h c => match c with CEDNS _ => true | _ => h end) cs false).

Lemma omap_snoc {A B} (f : A -> option B) l x : omap f (l ++ [x]) = omap f l ++ match f x with Some y => [y] | None => [] end.
Proof. rewrite omap_app. cbn. by destruct (f x). Qed.

Lemma run_snoc cs c b : run (cs ++ [c]) b = run1 c (run cs b).
Proof. unfold run. by rewrite fold_left_app. Qed.

(** Before any zero record the builder holds the specified message. *)
Lemma run_spec cs :
  existsb zeroCall cs = false -> run cs NewMessageBuilder = mk (specMessage cs) None.
Proof.
  induction cs as [|c cs IH] using rev_ind; [done|]. rewrite existsb_app, orb_false_iff. cbn [existsb].
  intros [H1 H2]. rewrite orb_false_r in H2. rewrite run_snoc, IH by done.
  unfold specMessage. rewrite !omap_snoc, !fold_left_app. cbn [fold_left].
  destruct c; cbn [run1 zeroCall] in *; unfold Answer, Authority, Additional; rewrite ?H2, ?app_nil_r; reflexivity.
Qed.

(** The first zero record fixes the error for good. *)
Lemma run_error cs : existsb zeroCall cs = true -> err (run cs NewMessageBuilder) = Some ErrPlain.
Proof.
  induction cs as [|c cs IH] using rev_ind; [done|]. rewrite existsb_app. cbn [existsb]. rewrite orb_false_r, run_snoc. intros H.
  destruct (existsb zeroCall cs) eqn:E.
  - specialize (IH eq_refl). destruct c; cbn [run1]; unfold ID, Question_, EDNS_, Answer, Authority, Additional, setErr, upd;
      rewrite ?IH; repeat split_if; first [exact IH | reflexivity].
  - cbn in H. rewrite (run_spec _ E). destruct c; cbn in *; try done; unfold Answer, Authority, Additional; by rewrite H.
Qed.

Lemma packRecord_no_panic r p : IsZero r = false -> packRecord r p <> Err Panic.
Proof.
  unfold IsZero, packRecord. destruct (r_rd r) as [rd|]; [|done]. intros _. repeat split_if; done.
Qed.

Lemma packRecords_no_panic rs p : Forall (fun r => IsZero r = false) rs -> packRecords rs p <> Err Panic.
Proof.
  intros H. revert p. induction H as [|r rs Hr _ IH]; intros p; [done|]. cbn [packRecords].
  pose proof (packRecord_no_panic r p Hr). destruct (packRecord r p); cbn; [apply IH|congruence].
Qed.

Lemma Pack_no_panic m :
  Forall (fun r => IsZero r = false) (answers m) -> Forall (fun r => IsZero r = false) (authorities m) ->
  Forall (fun r => IsZero r = false) (additionals m) -> Pack m <> Err Panic.
Proof.
  intros H1 H2 H3. unfold Pack. destruct (_ || _); [done|]. cbv zeta. set (p := fold_left _ _ _).
  pose proof (packRecords_no_panic _ p H1). destruct (packRecords (answers m) p) as [p1|]; cbn [res_bind]; [|congruence].
  pose proof (packRecords_no_panic _ p1 H2). destruct (packRecords (authorities m) p1) as [p2|]; cbn [res_bind]; [|congruence].
  pose proof (packRecords_no_panic _ p2 H3). destruct (packRecords (additionals m) p2) as [p3|]; cbn [res_bind]; [|congruence].
  destruct (hasEDNS m); [unfold packOPT; cbv zeta|]; repeat (split_if; try done); cbn [res_bind]; by repeat (split_if; try done).
Qed.

Lemma nonzero_omap cs (f : call -> option Record_) :
  (forall c r, f c = Some r -> zeroCall c = IsZero r) -> existsb zeroCall cs = false ->
  Forall (fun r => IsZero r = false) (omap f cs).
Proof.
  intros Hf. induction cs as [|c cs IH]; [constructor|]. cbn [existsb]. rewrite orb_false_iff. intros [Hc Hcs].
  cbn. destruct (f c) as [r|] eqn:E; [|by apply IH]. constructor; [|by apply IH]. by rewrite <- (Hf _ _ E).
Qed.

(** The builder refines its specification: for every sequence of setter
    calls, Build yields exactly the message those calls describe (sections in
    call order, last id and EDNS, flag updates composed) unless some call
    passed a record without rdata, in which case it reports an error however
    many calls followed; either way the builder is left as freshly made, and
    a message that was built never makes [Pack] panic. *)
Theorem builder_refines cs :
  let '(r, b') := Build (run cs NewMessageBuilder) in
  b' = NewMessageBuilder /\
  r = (if existsb zeroCall cs then Err ErrPlain else Ok (specMessage cs)) /\
  (existsb zeroCall cs = false -> Pack (specMessage cs) <> Err Panic).
Proof.
  unfold Build. destruct (existsb zeroCall cs) eqn:E.
  - rewrite (run_error _ E). by split_and!.
  - rewrite (run_spec _ E). cbn [err msg]. split_and!; try done. intros _.
    apply Pack_no_panic; apply nonzero_omap; try done; intros [] ? [= <-]; done.
Qed.
End BuilderSpec.

(** ** EDNSBuilder *)

Lemma dupCode_spec seen l :
  EDNSBuilder.dupCode seen l = false <-> NoDup (map code l) /\ forall o, o ∈ l -> code o ∉ seen.
Proof.
  revert seen. induction l as [|o l IH]; intros seen; cbn [EDNSBuilder.dupCode map].
  { split; [|done]. intros _. split; [constructor|]. intros o Ho. by apply not_elem_of_nil in Ho. }
  case_decide as Hc.
  - split; [done|]. intros [_ H]. exfalso. apply (H o); [by left|done].
  - rewrite IH, NoDup_cons. change (map code l) with (code <$> l). rewrite list_elem_of_fmap. split.
    + intros [Hnd H]. split_and!; [|done|].
      * intros (o' & E & Ho'). apply (H _ Ho'). set_solver.
      * intros o' [->|Ho']%elem_of_cons; [done|]. specialize (H _ Ho'). set_solver.
    + intros [[Ho Hnd] H]. split; [done|]. intros o' Ho'.
      apply not_elem_of_union. split; [|apply H; by right]. intros E%elem_of_singleton. apply Ho. by exists o'.
Qed.

(** EDNS option codes are unique on both sides: [EDNSBuilder.Build] accepts
    exactly the option lists without a repeated code, leaves the builder in
    its constructor state (UDP size 1232, no options) on success and failure,
    and what it accepts is what [unpackOPT] accepts back. *)
Theorem edns_builder_unique b :
  let '(r, b') := EDNSBuilder.Build b in
  b' = EDNSBuilder.NewEDNSBuilder /\
  (NoDup (map code (opts b)) -> r = Ok b) /\ (~ NoDup (map code (opts b)) -> r = Err ErrPlain) /\
  (forall e p p', r = Ok e -> edns_ok e -> packer_ok p -> packOPT e p = Ok p' -> packs p p' unpackOPT e).
Proof.
  unfold EDNSBuilder.Build. destruct (EDNSBuilder.dupCode ∅ (opts b)) eqn:E.
  - assert (~ NoDup (map code (opts b))) as Hn.
    { intros Hnd. rewrite (proj2 (dupCode_spec ∅ (opts b))) in E; [done|]. split; [done|]. set_solver. }
    by split_and!.
  - apply dupCode_spec in E as [Hnd _]. split_and!; try done. intros e p p' [= <-] He Hp HP.
    by apply (packOPT_spec b p p' Hp He HP).
Qed.

Lemma edns_builder_unique_witness :
  let b := EDNSBuilder.Option (mkEDNSOption 10 [1]) (EDNSBuilder.Option (mkEDNSOption 3 []) EDNSBuilder.NewEDNSBuilder) in
  fst (EDNSBuilder.Build b) = Ok b.
Proof.
  set (b := EDNSBuilder.Option _ _). destruct (edns_builder_unique b) as (_ & H & _).
  apply H. subst b. cbn. apply (bool_decide_unpack _). vm_compute. exact I.
Defined.
