(* ===== verification/RDataNew.v ===== *)
(** * Constructors of the payloads (src/wire/rdata/*.go)

    The exported constructors that the codec itself does not call, the typed
    accessors of the service-binding parameters, and what becomes of a
    constructed payload on the wire. *)

From Stdlib Require Import Sorting.Sorted Permutation.
From S2P Require Import Prelude Name Wire RData RDataCodec TypeBitmap RDataRoundtrip.

(** ** Constructors *)

Definition checkName (n : Name) (rd : RData) : res RData :=
  if negb (IsValid n) then Err ErrInvalidRData else Ok rd.

Definition NewAMTRELAYNone (prec : Z) (discovery : bool) : RData := RD_AMTRELAY prec discovery 0 AddrZero zeroName.
Definition NewAMTRELAYAddr (prec : Z) (discovery : bool) (addr : Addr) : res RData :=
  if Is4 addr then Ok (RD_AMTRELAY prec discovery 1 addr zeroName)
  else if Is6 addr then Ok (RD_AMTRELAY prec discovery 2 addr zeroName)
  else Err ErrInvalidRData.
Definition NewAMTRELAYName (prec : Z) (discovery : bool) (name : Name) : res RData :=
  checkName name (RD_AMTRELAY prec discovery 3 AddrZero name).

(** [netip.Prefix.IsValid]; an invalid prefix has [Bits] -1. *)
Definition Prefix_IsValid (p : Prefix) : bool := 0 <=? pfx_bits p.
Definition NewAPLItem (p : Prefix) (negate : bool) : res APLItem :=
  if negb (Prefix_IsValid p) then Err ErrInvalidRData
  else Ok (mkAPLItem (if Is6 (pfx_addr p) then 2 else 1) p negate).
Definition NewAPL (items : list APLItem) : RData := RD_APL items.

Definition NewCDS (keyTag alg dt : Z) (digest : bytes) : res RData :=
  let want := dsDigestLen dt in
  if negb (alg =? 0) && (negb (want =? 0) && negb (zlen digest =? want)) then Err ErrInvalidRData
  else Ok (RD_CDS keyTag alg dt digest).
Definition NewCERT (certType keyTag alg : Z) (cert : bytes) : RData := RD_CERT certType keyTag alg cert.
Definition NewCSYNC (soaSerial flags : Z) (types : list Z) : RData := RD_CSYNC soaSerial flags types.
Definition NewDHCID (data : bytes) : RData := RD_DHCID data.
Definition NewDNAME (target : Name) : res RData := checkName target (RD_DNAME target).

(** [time.Duration] in nanoseconds and [time.Time] as its Unix seconds. *)
Definition NewRRSIG (typeCovered alg labels origTTL expiration inception keyTag : Z)
    (signerName : Name) (signature : bytes) : RData :=
  RD_RRSIG typeCovered alg labels (to_u32 (Z.quot origTTL Second)) (to_u32 expiration) (to_u32 inception)
    keyTag signerName signature.
Definition NewNSEC (next : Name) (types : list Z) : RData := RD_NSEC next types.
Definition NewEUI48 (addr : bytes) : RData := RD_EUI48 addr.
Definition NewEUI64 (addr : bytes) : RData := RD_EUI64 addr.
Definition NewHINFO (cpu os : bytes) : res RData :=
  if 255 <? zlen cpu then Err ErrInvalidRData
  else if 255 <? zlen os then Err ErrInvalidRData
  else Ok (RD_HINFO cpu os).
Definition NewNID (pref nodeID : Z) : RData := RD_NID pref nodeID.
Definition NewL32 (pref locator : Z) : RData := RD_L32 pref locator.
Definition NewL64 (pref locator : Z) : RData := RD_L64 pref locator.
Definition NewLP (pref : Z) (fqdn : Name) : res RData := checkName fqdn (RD_LP pref fqdn).
Definition NewIPSECKEYNoGateway (prec alg : Z) (pubkey : bytes) : RData :=
  RD_IPSECKEY prec 0 alg AddrZero zeroName pubkey.
Definition NewIPSECKEYAddr (prec alg : Z) (addr : Addr) (pubkey : bytes) : res RData :=
  if Is6 addr then Ok (RD_IPSECKEY prec 2 alg addr zeroName pubkey)
  else if negb (Is4 addr) then Err ErrInvalidRData
  else Ok (RD_IPSECKEY prec 1 alg addr zeroName pubkey).
Definition NewIPSECKEYName (prec alg : Z) (name : Name) (pubkey : bytes) : res RData :=
  checkName name (RD_IPSECKEY prec 3 alg AddrZero name pubkey).
Definition NewKX (pref : Z) (exchanger : Name) : res RData := checkName exchanger (RD_KX pref exchanger).
Definition NewNAPTR (order pref : Z) (flags services regexp : bytes) (replacement : Name) : res RData :=
  if existsb (fun s => 255 <? zlen s) [flags; services; regexp] then Err ErrInvalidRData
  else Ok (RD_NAPTR order pref flags services regexp replacement).
Definition NewNSAP (addr : bytes) : RData := RD_NSAP addr.
Definition NewNSAPPTR (owner : Name) : res RData := checkName owner (RD_NSAPPTR owner).
Definition NewNSEC3PARAM (alg flags iter : Z) (salt : bytes) : res RData :=
  if 255 <? zlen salt then Err ErrInvalidRData else Ok (RD_NSEC3PARAM alg flags iter salt).
Definition NewOPENPGPKEY (pubkey : bytes) : RData := RD_OPENPGPKEY pubkey.
Definition NewRESINFO (strs : list bytes) : res RData :=
  if negb (checkStrings strs) then Err ErrInvalidRData else Ok (RD_RESINFO strs).
Definition NewSPF (strs : list bytes) : res RData :=
  if negb (checkStrings strs) then Err ErrInvalidRData else Ok (RD_SPF strs).
Definition NewRP (mbox txt : Name) : res RData :=
  if negb (IsValid mbox) then Err ErrInvalidRData
  else if negb (IsValid txt) then Err ErrInvalidRData
  else Ok (RD_RP mbox txt).
Definition NewAFSDB (subtype : Z) (hostname : Name) : res RData := checkName hostname (RD_AFSDB subtype hostname).
Definition NewX25 (addr : bytes) : res RData :=
  if 255 <? zlen addr then Err ErrInvalidRData else Ok (RD_X25 addr).
Definition NewISDN (addr subaddress : bytes) (hasSubaddress : bool) : res RData :=
  if 255 <? zlen addr then Err ErrInvalidRData
  else if 255 <? zlen subaddress then Err ErrInvalidRData
  else Ok (RD_ISDN addr subaddress hasSubaddress).
Definition NewRT (pref : Z) (host : Name) : res RData := checkName host (RD_RT pref host).
Definition NewSSHFP (alg fpt : Z) (fingerprint : bytes) : RData := RD_SSHFP alg fpt fingerprint.
Definition NewTKEY (algorithm : Name) (inception expiration mode errCode : Z) (keyData otherData : bytes)
  : res RData :=
  if 0xffff <? zlen keyData then Err ErrInvalidRData
  else if 0xffff <? zlen otherData then Err ErrInvalidRData
  else Ok (RD_TKEY algorithm (to_u32 inception) (to_u32 expiration) mode errCode keyData otherData).
Definition NewTLSA (usage selector matching : Z) (data : bytes) : RData := RD_TLSA usage selector matching data.
Definition NewSMIMEA (usage selector matching : Z) (data : bytes) : RData := RD_SMIMEA usage selector matching data.
Definition NewUnknown (t : Z) (data : bytes) : RData := RD_Unknown t data.
Definition NewURI (priority weight : Z) (target : bytes) : res RData :=
  if zlen target =? 0 then Err ErrInvalidRData else Ok (RD_URI priority weight target).

(** ** Typed service-binding parameters *)

Definition SvcParamPort : Z := 3.
Definition SvcParamIPv4Hint : Z := 4.
Definition SvcParamIPv6Hint : Z := 6.
Definition SvcParamDOHPath : Z := 7.

Definition NewSVCBParam (k : Z) (d : bytes) : SVCBParam := mkSVCBParam k d.

Fixpoint encodeALPN (alpns : list bytes) (buf : bytes) : res bytes :=
  match alpns with
  | [] => Ok buf
  | a :: alpns =>
      if (zlen a =? 0) || (255 <? zlen a) then Err ErrInvalidRData
      else encodeALPN alpns (buf ++ to_u8 (zlen a) :: a)
  end.
Definition NewSvcParamALPN (alpns : list bytes) : res SVCBParam :=
  let? buf := encodeALPN alpns [] in Ok (mkSVCBParam SvcParamALPN buf).

Definition NewSvcParamPort (port : Z) : SVCBParam := mkSVCBParam SvcParamPort (be16 port).

(** The loops of the two hint constructors, with their family test and form. *)
Fixpoint encodeHints (isF : Addr -> bool) (asF : Addr -> bytes) (addrs : list Addr) (buf : bytes) : res bytes :=
  match addrs with
  | [] => Ok buf
  | a :: addrs => if negb (isF a) then Err ErrInvalidRData else encodeHints isF asF addrs (buf ++ asF a)
  end.
Definition NewSvcParamIPv4Hint (addrs : list Addr) : res SVCBParam :=
  let? buf := encodeHints Is4 As4 addrs [] in Ok (mkSVCBParam SvcParamIPv4Hint buf).
Definition NewSvcParamIPv6Hint (addrs : list Addr) : res SVCBParam :=
  let? buf := encodeHints Is6 As16 addrs [] in Ok (mkSVCBParam SvcParamIPv6Hint buf).

Definition NewSvcParamDOHPath (template : bytes) : SVCBParam := mkSVCBParam SvcParamDOHPath template.

(** The first parameter with the key, as the accessors' loops find it. *)
Definition firstParam (ps : list SVCBParam) (k : Z) : option SVCBParam :=
  List.find (fun p => key p =? k) ps.

Definition ALPN (s : svcbBody) : list bytes :=
  match firstParam (params s) SvcParamALPN with
  | Some p => match decodeALPN (data p) with Ok out => out | Err _ => [] end
  | None => []
  end.

Definition Port (s : svcbBody) : Z * bool :=
  match List.find (fun p => (key p =? SvcParamPort) && (zlen (data p) =? 2)) (params s) with
  | Some p => (get16 (zget (data p) 0) (zget (data p) 1), true)
  | None => (0, false)
  end.

(** The [switch sz] of [decodeAddrHint]. *)
Definition addrAt (sz : nat) (v : bytes) : list Addr :=
  if Nat.eqb sz 4 then [AddrFrom4 (take 4 v)]
  else if Nat.eqb sz 16 then [AddrFrom16 (take 16 v)] else [].

(** [for off := 0; off < len(v); off += sz] over a value whose length is a
    multiple of [sz]; each turn takes at least one byte. *)
Fixpoint addrHints (fuel : nat) (sz : nat) (v : bytes) : list Addr :=
  match fuel, v with
  | S fuel, _ :: _ => addrAt sz v ++ addrHints fuel sz (drop sz v)
  | _, _ => []
  end.
Definition decodeAddrHint (ps : list SVCBParam) (k : Z) (sz : nat) : list Addr :=
  match firstParam ps k with
  | Some p =>
      let v := data p in
      if negb (zlen v mod Z.of_nat sz =? 0) then [] else addrHints (length v) sz v
  | None => []
  end.
Definition IPv4Hints (s : svcbBody) : list Addr := decodeAddrHint (params s) SvcParamIPv4Hint 4.
Definition IPv6Hints (s : svcbBody) : list Addr := decodeAddrHint (params s) SvcParamIPv6Hint 16.

Definition DOHPath (s : svcbBody) : bytes * bool :=
  match firstParam (params s) SvcParamDOHPath with
  | Some p => (data p, true)
  | None => ([], false)
  end.

(** ** What a caller can construct

    The arguments range over the values of their Go types: an [Addr] holds 4
    or 16 bytes, a [Prefix] is what [netip.PrefixFrom] returns, and a name is
    the zero [Name] or a canonical one, with the pointer limit where it is
    packed with compression. *)

Definition addr_wf (a : Addr) : Prop :=
  match a with
  | AddrZero => True
  | Addr4 b => is_bytes b /\ zlen b = 4
  | Addr6 b zone => is_bytes b /\ zlen b = 16
  end.
Definition prefix_wf (p : Prefix) : Prop :=
  match pfx_addr p with
  | AddrZero => pfx_bits p = -1
  | Addr4 b => is_bytes b /\ zlen b = 4 /\ -1 <= pfx_bits p <= 32
  | Addr6 b zone => is_bytes b /\ zlen b = 16 /\ zone = [] /\ -1 <= pfx_bits p <= 128
  end.
Definition nameC (n : Name) : Prop := n = zeroName \/ name_ok n.
Definition nameU (n : Name) : Prop := n = zeroName \/ canonical n.

Inductive built : RData -> Prop :=
  | built_A a rd : addr_wf a -> NewA a = Ok rd -> built rd
  | built_AAAA a rd : addr_wf a -> NewAAAA a = Ok rd -> built rd
  | built_CNAME n rd : nameC n -> NewCNAME n = Ok rd -> built rd
  | built_NS n rd : nameC n -> NewNS n = Ok rd -> built rd
  | built_PTR n rd : nameC n -> NewPTR n = Ok rd -> built rd
  | built_MX v n rd : u16 v -> nameC n -> NewMX v n = Ok rd -> built rd
  | built_TXT l rd : Forall is_bytes l -> NewTXT l = Ok rd -> built rd
  | built_SOA m r s a b c d rd : nameC m -> nameC r -> u32 s -> NewSOA m r s a b c d = Ok rd -> built rd
  | built_SVCB v n ps rd : u16 v -> nameU n -> Forall param_ok ps -> NewSVCB v n ps = Ok rd -> built rd
  | built_HTTPS v n ps rd : u16 v -> nameU n -> Forall param_ok ps -> NewHTTPS v n ps = Ok rd -> built rd
  | built_CAA f t v rd : u8 f -> is_bytes t -> is_bytes v -> NewCAA f t v = Ok rd -> built rd
  | built_DNSKEY f p a k rd : u16 f -> u8 p -> u8 a -> is_bytes k -> NewDNSKEY f p a k = Ok rd -> built rd
  | built_DS t a d b rd : u16 t -> u8 a -> u8 d -> is_bytes b -> NewDS t a d b = Ok rd -> built rd
  | built_RRSIG tc a l o e i t n s : u16 tc -> u8 a -> u8 l -> u16 t -> nameU n -> is_bytes s ->
      built (NewRRSIG tc a l o e i t n s)
  | built_NSEC n ts : nameU n -> Forall u16 ts -> built (NewNSEC n ts)
  | built_NSEC3 a f i s o ts rd : u8 a -> u8 f -> u16 i -> is_bytes s -> is_bytes o -> Forall u16 ts ->
      NewNSEC3 a f i s o ts = Ok rd -> built rd
  | built_NSEC3PARAM a f i s rd : u8 a -> u8 f -> u16 i -> is_bytes s -> NewNSEC3PARAM a f i s = Ok rd -> built rd
  | built_SRV p w o n rd : u16 p -> u16 w -> u16 o -> nameU n -> NewSRV p w o n = Ok rd -> built rd
  | built_NAPTR o p f s r n rd : u16 o -> u16 p -> is_bytes f -> is_bytes s -> is_bytes r -> nameU n ->
      NewNAPTR o p f s r n = Ok rd -> built rd
  | built_RP m t rd : nameC m -> nameC t -> NewRP m t = Ok rd -> built rd
  | built_AFSDB v n rd : u16 v -> nameU n -> NewAFSDB v n = Ok rd -> built rd
  | built_X25 a rd : is_bytes a -> NewX25 a = Ok rd -> built rd
  | built_ISDN a s h rd : is_bytes a -> is_bytes s -> NewISDN a s h = Ok rd -> built rd
  | built_RT v n rd : u16 v -> nameU n -> NewRT v n = Ok rd -> built rd
  | built_NSAP b : is_bytes b -> built (NewNSAP b)
  | built_NSAPPTR n rd : nameC n -> NewNSAPPTR n = Ok rd -> built rd
  | built_LOC v s h p a o t rd : u8 v -> u8 s -> u8 h -> u8 p -> u32 a -> u32 o -> u32 t ->
      NewLOC v s h p a o t = Ok rd -> built rd
  | built_APL l : Forall (fun it => exists p b, prefix_wf p /\ NewAPLItem p b = Ok it) l -> built (NewAPL l)
  | built_IPSECKEY0 p a k : u8 p -> u8 a -> is_bytes k -> built (NewIPSECKEYNoGateway p a k)
  | built_IPSECKEYA p a g k rd : u8 p -> u8 a -> addr_wf g -> is_bytes k -> NewIPSECKEYAddr p a g k = Ok rd -> built rd
  | built_IPSECKEYN p a n k rd : u8 p -> u8 a -> nameU n -> is_bytes k -> NewIPSECKEYName p a n k = Ok rd -> built rd
  | built_DHCID b : is_bytes b -> built (NewDHCID b)
  | built_HIP a h k rvs rd : u8 a -> is_bytes h -> is_bytes k -> Forall nameU rvs -> NewHIP a h k rvs = Ok rd -> built rd
  | built_NID p v : u16 p -> u64 v -> built (NewNID p v)
  | built_L32 p v : u16 p -> u32 v -> built (NewL32 p v)
  | built_L64 p v : u16 p -> u64 v -> built (NewL64 p v)
  | built_LP v n rd : u16 v -> nameU n -> NewLP v n = Ok rd -> built rd
  | built_EUI48 b : is_bytes b -> zlen b = 6 -> built (NewEUI48 b)
  | built_EUI64 b : is_bytes b -> zlen b = 8 -> built (NewEUI64 b)
  | built_URI p w t rd : u16 p -> u16 w -> is_bytes t -> NewURI p w t = Ok rd -> built rd
  | built_ZONEMD s c h d rd : u32 s -> u8 c -> u8 h -> is_bytes d -> NewZONEMD s c h d = Ok rd -> built rd
  | built_RESINFO l rd : Forall is_bytes l -> NewRESINFO l = Ok rd -> built rd
  | built_SPF l rd : Forall is_bytes l -> NewSPF l = Ok rd -> built rd
  | built_SSHFP a t b : u8 a -> u8 t -> is_bytes b -> built (NewSSHFP a t b)
  | built_TLSA u s m d : u8 u -> u8 s -> u8 m -> is_bytes d -> built (NewTLSA u s m d)
  | built_SMIMEA u s m d : u8 u -> u8 s -> u8 m -> is_bytes d -> built (NewSMIMEA u s m d)
  | built_CSYNC s f ts : u32 s -> u16 f -> Forall u16 ts -> built (NewCSYNC s f ts)
  | built_DNAME n rd : nameU n -> NewDNAME n = Ok rd -> built rd
  | built_HINFO c o rd : is_bytes c -> is_bytes o -> NewHINFO c o = Ok rd -> built rd
  | built_KX v n rd : u16 v -> nameU n -> NewKX v n = Ok rd -> built rd
  | built_CDS t a d b rd : u16 t -> u8 a -> u8 d -> is_bytes b -> NewCDS t a d b = Ok rd -> built rd
  | built_CDNSKEY f p a k rd : u16 f -> u8 p -> u8 a -> is_bytes k -> NewCDNSKEY f p a k = Ok rd -> built rd
  | built_OPENPGPKEY b : is_bytes b -> built (NewOPENPGPKEY b)
  | built_CERT c t a b : u16 c -> u16 t -> u8 a -> is_bytes b -> built (NewCERT c t a b)
  | built_AMTRELAY0 p d : u8 p -> built (NewAMTRELAYNone p d)
  | built_AMTRELAYA p d a rd : u8 p -> addr_wf a -> NewAMTRELAYAddr p d a = Ok rd -> built rd
  | built_AMTRELAYN p d n rd : u8 p -> nameU n -> NewAMTRELAYName p d n = Ok rd -> built rd
  | built_TKEY n i e m c k o rd : nameU n -> u16 m -> u16 c -> is_bytes k -> is_bytes o ->
      NewTKEY n i e m c k o = Ok rd -> built rd
  | built_Unknown t d : is_bytes d -> existsb (Z.eqb t) knownTypes = false -> built (NewUnknown t d).

(** What the wire keeps of it: no zone of an IPv6 address, whole seconds, a
    bitmap's members in order, [Root] for the zero name, no ISDN subaddress
    that was not announced; an empty encoding is the empty payload of
    RFC 2136. *)

Definition wireName (n : Name) : Name := if IsValid n then n else Root.
Definition wireAddr (a : Addr) : Addr := match a with Addr6 b _ => Addr6 b [] | _ => a end.
Definition wireSecs (d : Z) : Z := Z.quot d Second * Second.
Definition orEmpty {A} (l : list A) (t : Z) (rd : RData) : RData :=
  match l with [] => RD_Unknown t [] | _ => rd end.

Definition wireRD (rd : RData) : RData :=
  match rd with
  | RD_AAAA a => RD_AAAA (wireAddr a)
  | RD_TXT l => orEmpty l rrtype.TXT rd
  | RD_SPF l => orEmpty l rrtype.SPF rd
  | RD_RESINFO l => orEmpty l rrtype.RESINFO rd
  | RD_NSAP l => orEmpty l rrtype.NSAP rd
  | RD_DHCID l => orEmpty l rrtype.DHCID rd
  | RD_OPENPGPKEY l => orEmpty l rrtype.OPENPGPKEY rd
  | RD_APL l => orEmpty l rrtype.APL rd
  | RD_SOA m r s a b c d => RD_SOA m r s (wireSecs a) (wireSecs b) (wireSecs c) (wireSecs d)
  | RD_RRSIG tc a l o e i t n s => RD_RRSIG tc a l o e i t (wireName n) s
  | RD_NSEC n ts => RD_NSEC (wireName n) (normTypes ts)
  | RD_NSEC3 a f i s o ts => RD_NSEC3 a f i s o (normTypes ts)
  | RD_CSYNC s f ts => RD_CSYNC s f (normTypes ts)
  | RD_NAPTR o p f s r n => RD_NAPTR o p f s r (wireName n)
  | RD_ISDN a s h => RD_ISDN a (if h then s else []) h
  | RD_HIP a h k rvs => RD_HIP a h k (map wireName rvs)
  | RD_IPSECKEY p g a ad n k => RD_IPSECKEY p g a (wireAddr ad) n k
  | RD_AMTRELAY p d t ad n => RD_AMTRELAY p d t (wireAddr ad) n
  | RD_TKEY n i e m c k o => RD_TKEY (wireName n) i e m c k o
  | _ => rd
  end.

(** ** Bitmaps: the encoding depends on the members only *)

Lemma setBitmap_idem bm bit : u8 bit -> length bm = 32%nat -> setBitmap (setBitmap bm bit) bit = setBitmap bm bit.
Proof.
  intros Hb Hl. unfold setBitmap. set (i := Z.to_nat (bit / 8)).
  assert (i < length bm)%nat by (subst i; unfold u8 in Hb; rewrite Hl; elia).
  rewrite list_insert_insert_eq. f_equal. unfold zget at 1. fold i.
  rewrite list_lookup_insert_eq by done. cbn -[Z.lor zget]. by rewrite <- Z.lor_assoc, Z.lor_diag.
Qed.

Lemma addType_idem bs w bit :
  u8 bit -> Forall bucket_ok bs -> addType (addType bs w bit) w bit = addType bs w bit.
Proof.
  intros Hb. induction 1 as [|b bs (Hw & Hl & Hby) Hbs IH]; cbn [addType].
  { rewrite Z.eqb_refl. cbn [win bitmap]. by rewrite setBitmap_idem. }
  destruct (win b =? w) eqn:E; cbn [addType win bitmap].
  - rewrite Z.eqb_refl, setBitmap_idem by done. done.
  - by rewrite E, IH.
Qed.

(** Drop adjacent duplicates. *)
Fixpoint dedup (l : list Z) : list Z :=
  match l with
  | x :: ((y :: _) as l') => if x =? y then dedup l' else x :: dedup l'
  | _ => l
  end.

Lemma dedup_elem l t : t ∈ dedup l <-> t ∈ l.
Proof.
  induction l as [|x [|y l] IH]; [done|done|]. cbn [dedup] in *. destruct (x =? y) eqn:E; bool_facts.
  - subst. rewrite IH, !elem_of_cons. tauto.
  - rewrite elem_of_cons, IH, !elem_of_cons. tauto.
Qed.

Lemma dedup_sorted l : StronglySorted Z.le l -> StronglySorted Z.lt (dedup l).
Proof.
  induction l as [|x [|y l] IH]; intros H; [constructor|repeat constructor|].
  apply StronglySorted_inv in H as [H Hx]. specialize (IH H). cbn [dedup] in *.
  destruct (x =? y) eqn:E; bool_facts; [done|]. constructor; [done|].
  apply Forall_forall. intros t Ht. apply (dedup_elem (y :: l)) in Ht.
  assert (y <= t) by (apply StronglySorted_inv in H as [_ Hy];
    apply elem_of_cons in Ht as [->|Ht]; [lia|]; rewrite Forall_forall in Hy; by apply Hy).
  rewrite Forall_forall in Hx. specialize (Hx y ltac:(left)). lia.
Qed.

Lemma fold_dedup l bs :
  Forall u16 l -> Forall bucket_ok bs ->
  let add := fun bs t => addType bs (to_u8 (Z.shiftr t 8)) (Z.land t 0xff) in
  fold_left add (dedup l) bs = fold_left add l bs.
Proof.
  cbn zeta. revert bs. induction l as [|x [|y l] IH]; intros bs Hl Hbs; [done|done|].
  apply Forall_cons in Hl as [Hx Hl]. destruct (typeSplit_ok x Hx) as [E1 E2].
  assert (u8 (x / 256) /\ u8 (x mod 256)) as [Hq Hr] by (unfold u8, u16 in *; elia).
  cbn [dedup]. destruct (x =? y) eqn:E; bool_facts.
  - subst y. rewrite IH by done. cbn [fold_left]. by rewrite E1, E2, addType_idem.
  - cbn [fold_left]. rewrite E1, E2. rewrite IH; [done|done|]. by apply addType_ok.
Qed.

Lemma sortTypes_id l : StronglySorted Z.le l -> sortTypes l = l.
Proof.
  induction 1 as [|x l Hs IH Hx]; [done|]. cbn [sortTypes foldr]. fold (sortTypes l). rewrite IH.
  destruct l as [|y l]; [done|]. cbn [insertSorted]. apply Forall_cons in Hx as [Hx _].
  by replace (x <=? y) with true by (symmetry; lia).
Qed.

Lemma normTypes_dedup types : Forall u16 types -> normTypes types = dedup (sortTypes types).
Proof.
  intros Hu. apply sorted_lt_ext; [by apply normTypes_sorted|apply dedup_sorted, sortTypes_sorted|].
  intros t. by rewrite normTypes_elem, dedup_elem, sortTypes_elem.
Qed.

Lemma sorted_lt_le l : StronglySorted Z.lt l -> StronglySorted Z.le l.
Proof. induction 1 as [|x l Hs IH Hx]; constructor; [done|]. eapply Forall_impl; [done|]. cbn. lia. Qed.

Lemma Forall_sortTypes P l : Forall P l -> Forall P (sortTypes l).
Proof. rewrite !Forall_forall. intros H t Ht. by apply H, sortTypes_elem. Qed.

Lemma normTypes_ok types : Forall u16 types -> types_ok (normTypes types).
Proof.
  intros Hu. split; [|by apply normTypes_sorted]. rewrite Forall_forall in *. intros t Ht. apply Hu.
  apply normTypes_elem; [by apply Forall_forall|done].
Qed.

Lemma encode_normTypes types p : Forall u16 types -> encodeTypeBitmap (normTypes types) p = encodeTypeBitmap types p.
Proof.
  intros Hu. unfold encodeTypeBitmap. replace (zlen (normTypes types) =? 0) with (zlen types =? 0).
  2: { apply Bool.eq_iff_eq_true. rewrite !Z.eqb_eq. split; intros E%zlen_0_inv.
       - by subst.
       - destruct types as [|x l]; [done|]. exfalso. apply (not_elem_of_nil x). rewrite <- E.
         apply normTypes_elem; [done|left]. }
  destruct (_ =? _); [done|]. f_equal. unfold typeBuckets at 1.
  rewrite sortTypes_id by apply sorted_lt_le, normTypes_sorted, Hu.
  rewrite normTypes_dedup by done. by rewrite fold_dedup by (done || by apply Forall_sortTypes).
Qed.

(** ** Service-binding parameters: what [newSvcbBody] accepts *)

Lemma insertParam_perm x l : insertParam x l ≡ₚ x :: l.
Proof.
  induction l as [|y l IH]; [done|]. cbn [insertParam]. destruct (_ <? _); [done|].
  rewrite IH. apply Permutation_swap.
Qed.

Lemma insertParam_sorted x l :
  StronglySorted Z.le (map key l) -> StronglySorted Z.le (map key (insertParam x l)).
Proof.
  induction l as [|y l IH]; intros Hs; [repeat constructor|]. cbn [insertParam].
  destruct (_ <? _) eqn:E; bool_facts; cbn [map] in *; apply StronglySorted_inv in Hs as [Hs Hy].
  - constructor; [by constructor|]. constructor; [lia|]. eapply Forall_impl; [exact Hy|]. cbn. lia.
  - constructor; [by apply IH|]. rewrite insertParam_perm. cbn [map]. by constructor.
Qed.

Lemma sortParams_spec l : sortParams l ≡ₚ l /\ StronglySorted Z.le (map key (sortParams l)).
Proof.
  unfold sortParams. assert (forall acc, StronglySorted Z.le (map key acc) ->
    fold_left (fun acc x => insertParam x acc) l acc ≡ₚ l ++ acc /\
    StronglySorted Z.le (map key (fold_left (fun acc x => insertParam x acc) l acc))) as H.
  { induction l as [|x l IH]; intros acc Ha; [done|]. cbn [fold_left app].
    destruct (IH (insertParam x acc)) as [H1 H2]; [by apply insertParam_sorted|].
    split; [|done]. rewrite H1, insertParam_perm. symmetry. apply Permutation_middle. }
  destruct (H []) as [H1 H2]; [constructor|]. by rewrite app_nil_r in H1.
Qed.

Lemma dupKey_sorted l :
  StronglySorted Z.le (map key l) -> dupKey l = false -> StronglySorted Z.lt (map key l).
Proof.
  induction l as [|x [|y l] IH]; intros Hs Hd; [constructor|repeat constructor|].
  cbn [dupKey] in Hd. apply orb_false_iff in Hd as [Hd1 Hd2]. bool_facts.
  cbn [map] in *. apply StronglySorted_inv in Hs as [Hs Hx]. specialize (IH Hs Hd2).
  constructor; [done|]. apply Forall_cons in Hx as [Hxy _]. constructor; [lia|].
  apply StronglySorted_inv in IH as [_ Hy]. eapply Forall_impl; [exact Hy|]. cbn. lia.
Qed.

Lemma newSvcbBody_inv priority target ps body :
  newSvcbBody priority target ps = Ok body ->
  exists ps', body = mkSvcbBody priority target ps' /\ IsValid target = true /\ ps' ≡ₚ ps /\
    StronglySorted Z.lt (map key ps') /\ validateAll ps' = Ok tt /\ validateMandatoryParam ps' = Ok tt.
Proof.
  intros H. unfold newSvcbBody in H. destruct (IsValid target) eqn:E; [|done]. cbn [negb] in H.
  destruct (sortParams_spec ps) as [Hperm Hsort]. destruct (dupKey _) eqn:Ed; [done|].
  apply res_bind_Ok in H as ([] & Ha & H). apply res_bind_Ok in H as ([] & Hm & H). injection H as <-.
  exists (sortParams ps). split_and!; try done. by apply dupKey_sorted.
Qed.

Lemma newSvcbBody_ok priority target ps body :
  u16 priority -> nameU target -> Forall param_ok ps -> newSvcbBody priority target ps = Ok body -> svcb_ok body.
Proof.
  intros Hp Ht Hps (ps' & -> & E & Hperm & Hs & Ha & Hm)%newSvcbBody_inv.
  split_and!; cbn [svcb_priority svcb_target params]; try done; [by destruct Ht as [->|?]|by rewrite Hperm].
Qed.

(** ** The wire form of a constructed payload *)

Lemma wireName_canonical n : nameU n -> canonical (wireName n).
Proof.
  intros [->|H]; [exists []; split; [apply Root_wf|constructor]|]. unfold wireName.
  destruct H as (ls & Hw & Hf). rewrite (wf_valid n ls Hw). by exists ls.
Qed.

Lemma wireName_pack n p : Packer.NameUncompressed (wireName n) p = Packer.NameUncompressed n p.
Proof. unfold wireName, Packer.NameUncompressed, AppendWire. by destruct (IsValid n) eqn:E; rewrite ?E. Qed.

Lemma valid_nameC n : nameC n -> IsValid n = true -> name_ok n.
Proof. by intros [->|?]. Qed.
Lemma valid_nameU n : nameU n -> IsValid n = true -> canonical n.
Proof. by intros [->|?]. Qed.
Create HintDb built discriminated.
#[local] Hint Resolve valid_nameC valid_nameU wireName_canonical normTypes_ok : built.

Lemma wireSecs_ok d : 0 <= d -> Z.quot d Second <= maxSOATimerSeconds ->
  secs_ok (wireSecs d) /\ Z.quot (wireSecs d) Second = Z.quot d Second.
Proof.
  intros H0 H. unfold wireSecs. assert (0 <= Z.quot d Second) by (apply Z.quot_pos; unfold Second; lia).
  split; [|by rewrite Z.quot_mul by (unfold Second; lia)].
  exists (Z.quot d Second). split; [done|]. unfold maxSOATimerSeconds in H. unfold u32. lia.
Qed.

Lemma checkStrings_ok l : Forall is_bytes l -> checkStrings l = true -> Forall str_ok l.
Proof.
  unfold checkStrings. intros Hb Hc. rewrite forallb_forall in Hc. rewrite Forall_forall in *.
  intros s Hs. split; [by apply Hb|]. apply list_elem_of_In in Hs. by apply Z.leb_le, Hc.
Qed.

(** Open a constructor's tests: every refusal contradicts its success. *)
Ltac accepted :=
  repeat match goal with
  | H : checkName ?n _ = Ok _ |- _ => unfold checkName in H
  | H : (if ?b then _ else _) = Ok _ |- _ => let E := fresh "E" in destruct b eqn:E; try discriminate H
  | H : Ok _ = Ok _ |- _ => injection H as <-
  | H : negb ?b = false |- _ => apply negb_false_iff in H
  | H : existsb _ _ = false |- _ => progress cbn [existsb] in H
  | H : (_ || _)%bool = false |- _ => apply orb_false_iff in H as [? ?]
  end; bool_facts.

Definition wire_of (rd rd' : RData) : Prop :=
  rd_ok rd' /\ Type_ rd' = Type_ rd /\ forall p, Pack rd' p = Pack rd p.

Lemma wire_refl rd : rd_ok rd -> wire_of rd rd.
Proof. by intros. Qed.

Ltac head t := match t with ?f _ => head f | _ => t end.

(** Constructors whose payload is kept as it is. *)
Ltac kept :=
  accepted; apply wire_refl; cbn [wireRD rd_okP]; unfold str_ok, blob_ok;
  split_and?; eauto with built; try lia.

Lemma Raw_nil p : Packer.Raw [] p = p.
Proof. destruct p. unfold Packer.Raw. cbn. by rewrite app_nil_r. Qed.

(** Payloads that are a string, or a list of them. *)
Lemma wire_blob {X} rd t (b : list X) :
  (b <> [] -> rd_ok rd) -> Type_ rd = t -> (forall p, b = [] -> Pack rd p = p) -> wire_of rd (orEmpty b t rd).
Proof.
  intros Hok Ht Hp. destruct b as [|x b]; cbn [orEmpty]; [|by apply wire_refl, Hok].
  split_and!; [by split; [constructor|left]|done|]. intros p. rewrite Hp by done. apply Raw_nil.
Qed.

Lemma wire_strings rd t l :
  Forall is_bytes l -> checkStrings l = true -> (strs_ok l -> rd_ok rd) -> Type_ rd = t ->
  (forall p, Pack rd p = packStrings l p) -> wire_of rd (orEmpty l t rd).
Proof.
  intros Hb Hc Hok Ht Hp. destruct l as [|x l]; cbn [orEmpty].
  - split_and!; [by split; [constructor|left]|done|]. intros p. rewrite Hp. apply Raw_nil.
  - apply wire_refl, Hok. split; [by apply checkStrings_ok|done].
Qed.

Lemma packGateway_wireAddr gt a n p : packGateway gt (wireAddr a) n p = packGateway gt a n p.
Proof. by destruct a. Qed.

Lemma fold_wireName l p :
  fold_left (fun p rv => Packer.NameUncompressed rv p) (map wireName l) p =
  fold_left (fun p rv => Packer.NameUncompressed rv p) l p.
Proof. revert p. induction l as [|n l IH]; intros p; [done|]. cbn [map fold_left]. by rewrite wireName_pack, IH. Qed.

Lemma NewAPLItem_ok p b it : prefix_wf p -> NewAPLItem p b = Ok it -> apl_ok it.
Proof.
  intros Hp H. unfold NewAPLItem, Prefix_IsValid in H. accepted. unfold prefix_wf in Hp. unfold apl_ok; cbn.
  destruct (pfx_addr p) as [|d|d z] eqn:Ep; cbn; [lia| |].
  - left. destruct Hp as (? & ? & ?). split_and!; [done|by exists d|lia|lia].
  - right. destruct Hp as (? & ? & -> & ?). split_and!; [done|by exists d|lia|lia].
Qed.

Lemma wire_SOA m r s a b c d :
  name_ok m -> name_ok r -> u32 s ->
  Forall (fun d => 0 <= d /\ Z.quot d Second <= maxSOATimerSeconds) [a; b; c; d] ->
  wire_of (RD_SOA m r s a b c d) (wireRD (RD_SOA m r s a b c d)).
Proof.
  intros Hm Hr Hs H. rewrite !Forall_cons in H. destruct H as ([A1 A2] & [B1 B2] & [C1 C2] & [D1 D2] & _).
  destruct (wireSecs_ok a A1 A2) as [? E1], (wireSecs_ok b B1 B2) as [? E2],
    (wireSecs_ok c C1 C2) as [? E3], (wireSecs_ok d D1 D2) as [? E4].
  split_and!; [by cbn|done|]. intros p. cbn [wireRD Pack]. unfold SOA_Pack. by rewrite E1, E2, E3, E4.
Qed.

(** A payload one of whose fields is rewritten, with the packer's lemma for it. *)
Ltac rewritten :=
  accepted; (cbn [wireRD]; split_and!;
  [cbn [rd_okP]; unfold str_ok, blob_ok; split_and?; eauto with built wire; try llia
  |done
  |intros ?p; cbn [Pack];
   unfold RRSIG_Pack, NSEC_Pack, NSEC3_Pack, NAPTR_Pack, HIP_Pack, CSYNC_Pack, TKEY_Pack, IPSECKEY_Pack, AMTRELAY_Pack;
   rewrite ?wireName_pack, ?encode_normTypes, ?packGateway_wireAddr, ?fold_wireName by done; try done]).

Lemma gateway_none : gateway_ok 0 (wireAddr AddrZero) zeroName.
Proof. by left. Qed.
Lemma addr4_wf a : addr_wf a -> Is4 a = true -> addr4_ok (wireAddr a).
Proof. destruct a as [|b|b z]; [done| |done]. intros [? ?] _. by exists b. Qed.
Lemma addr6_wf a : addr_wf a -> Is6 a = true -> addr6_ok (wireAddr a).
Proof. destruct a as [|b|b z]; [done|done|]. intros [? ?] _. by exists b. Qed.
Lemma gateway_4 a : addr_wf a -> Is4 a = true -> gateway_ok 1 (wireAddr a) zeroName.
Proof. intros. right; left. split_and!; [done|by apply addr4_wf|done]. Qed.
Lemma gateway_6 a : addr_wf a -> Is6 a = true -> gateway_ok 2 (wireAddr a) zeroName.
Proof. intros. right; right; left. split_and!; [done|by apply addr6_wf|done]. Qed.
Lemma gateway_name n : nameU n -> IsValid n = true -> gateway_ok 3 (wireAddr AddrZero) n.
Proof. intros. right; right; right. split_and!; [done|done|by apply valid_nameU]. Qed.
Lemma zlen_ne {X} (l : list X) : zlen l <> 0 -> l <> [].
Proof. by intros H ->. Qed.
Lemma Forall_wireName l : Forall nameU l -> Forall canonical (map wireName l).
Proof. induction 1; constructor; [by apply wireName_canonical|done]. Qed.
#[local] Hint Resolve gateway_none addr4_wf addr6_wf gateway_4 gateway_6 gateway_name zlen_ne Forall_wireName : built.

Lemma wire_built rd : built rd -> wire_of rd (wireRD rd).
Proof.
  destruct 1;
    repeat match goal with
    | H : ?lhs = Ok ?rd |- wire_of ?rd _ => let f := head lhs in progress unfold f in H
    | |- wire_of ?x _ => let f := head x in progress unfold f
    end; try solve [kept | rewritten].
  - destruct a as [|b|b z]; try done. accepted. apply wire_refl. by exists b.
  - destruct a as [|b|b z]; try done. accepted. split_and!; [by exists b|done|done].
  - accepted. by apply wire_strings.
  - accepted. apply wire_SOA; eauto with built. by repeat constructor.
  - destruct (newSvcbBody v n ps) eqn:E; [|done]. accepted. apply wire_refl. by eapply newSvcbBody_ok.
  - destruct (newSvcbBody v n ps) eqn:E; [|done]. accepted. apply wire_refl. by eapply newSvcbBody_ok.
  - accepted. destruct h; (cbn [wireRD]; split_and!; [split_and!; [by split|split; [done || constructor|done || by cbn]|done]|done|done]).
  - apply wire_blob; [by split|done|]. intros p ->. apply Raw_nil.
  - apply wire_blob; [|done|by intros p ->]. intros Hne. split; [|done]. eapply Forall_impl; [done|].
    intros it (p & b & Hp & Hi). by eapply NewAPLItem_ok.
  - apply wire_blob; [by split|done|]. intros p ->. apply Raw_nil.
  - accepted. by apply wire_strings.
  - accepted. by apply wire_strings.
  - apply wire_blob; [by split|done|]. intros p ->. apply Raw_nil.
Qed.

(** *** The decoders invert the constructors *)

Lemma encodeALPN_spec alpns buf out :
  encodeALPN alpns buf = Ok out ->
  Forall (fun a => 1 <= zlen a <= 255) alpns /\ out = buf ++ concat (map encLabel alpns).
Proof.
  revert buf. induction alpns as [|a alpns IH]; intros buf H; cbn [encodeALPN] in H.
  - injection H as <-. split; [constructor|]. cbn. by rewrite app_nil_r.
  - accepted. apply IH in H as [? ->]. split; [constructor; [llia|done]|].
    cbn [map concat]. unfold encLabel at 2. rewrite to_u8_id by llia. by rewrite <- app_assoc.
Qed.

Lemma decodeALPN_labels fuel alpns out :
  Forall (fun a => 1 <= zlen a <= 255) alpns -> (length (concat (map encLabel alpns)) <= fuel)%nat ->
  decodeALPN_loop fuel (concat (map encLabel alpns)) out = Ok (out ++ alpns).
Proof.
  intros H. revert fuel out. induction H as [|a alpns Ha Hs IH]; intros fuel out Hf.
  - destruct fuel; cbn; by rewrite app_nil_r.
  - cbn [map concat] in *. rewrite length_app in Hf. unfold encLabel at 1 in Hf. cbn [length] in Hf.
    destruct fuel as [|fuel]; [lia|]. unfold encLabel at 1. cbn [app decodeALPN_loop].
    replace (zlen a =? 0) with false by (symmetry; lia).
    replace (zlen (a ++ _) <? zlen a) with false by (symmetry; llia).
    rewrite drop_label, take_label, IH by lia. by rewrite <- app_assoc.
Qed.

Lemma decodeALPN_encode alpns p : NewSvcParamALPN alpns = Ok p -> decodeALPN (data p) = Ok alpns.
Proof.
  intros H. apply res_bind_Ok in H as (buf & H & E). injection E as <-. apply encodeALPN_spec in H as [? ->].
  unfold decodeALPN. cbn [data app]. by rewrite decodeALPN_labels.
Qed.

Lemma encodeHints_spec isF asF addrs buf out :
  encodeHints isF asF addrs buf = Ok out ->
  Forall (fun a => isF a = true) addrs /\ out = buf ++ concat (map asF addrs).
Proof.
  revert buf. induction addrs as [|a addrs IH]; intros buf H; cbn [encodeHints] in H.
  - injection H as <-. split; [constructor|]. cbn. by rewrite app_nil_r.
  - accepted. apply IH in H as [? ->]. split; [by constructor|]. cbn [map concat]. by rewrite app_assoc.
Qed.

Lemma addrHints_step fuel sz v :
  v <> [] -> addrHints (S fuel) sz v = addrAt sz v ++ addrHints fuel sz (drop sz v).
Proof. by destruct v. Qed.

(** Fixed-width entries are cut apart where they were joined. *)
Lemma addrHints_concat (asF : Addr -> bytes) (g : Addr -> Addr) sz addrs fuel :
  sz <> O ->
  Forall (fun a => length (asF a) = sz /\ addrAt sz (asF a) = [g a]) addrs ->
  (length (concat (map asF addrs)) <= fuel)%nat ->
  addrHints fuel sz (concat (map asF addrs)) = map g addrs.
Proof.
  intros Hsz H. revert fuel. induction H as [|a addrs [Hl Ha] Hs IH]; intros fuel Hf; [by destruct fuel|].
  cbn [map concat] in *. rewrite length_app in Hf. destruct fuel as [|fuel]; [lia|].
  assert (forall n, n = sz -> take n (asF a ++ concat (map asF addrs)) = take n (asF a)) as Htk
    by (intros n ->; rewrite take_app_le by lia; done).
  rewrite addrHints_step by (intros E%(f_equal length); rewrite length_app in E; cbn in E; lia).
  assert (drop sz (asF a ++ concat (map asF addrs)) = concat (map asF addrs)) as ->
    by (rewrite <- Hl; apply drop_app_length).
  rewrite IH by lia.
  cbn [map]. rewrite <- (app_nil_l (map g addrs)) at 2. rewrite app_comm_cons, <- Ha. f_equal.
  unfold addrAt. destruct (Nat.eqb sz 4) eqn:E4; [apply Nat.eqb_eq in E4; by rewrite Htk|].
  destruct (Nat.eqb sz 16) eqn:E16; [apply Nat.eqb_eq in E16; by rewrite Htk|done].
Qed.

Lemma firstParam_sorted ps p :
  StronglySorted Z.lt (map key ps) -> p ∈ ps -> firstParam ps (key p) = Some p.
Proof.
  induction ps as [|x ps IH]; intros Hs Hp; [by apply not_elem_of_nil in Hp|].
  cbn [map] in Hs. apply StronglySorted_inv in Hs as [Hs Hx]. unfold firstParam in *. cbn [List.find].
  apply elem_of_cons in Hp as [->|Hp]; [by rewrite Z.eqb_refl|].
  assert (key x < key p) by (rewrite Forall_forall in Hx; apply Hx; change (map key ps) with (key <$> ps);
    rewrite list_elem_of_fmap; by exists p).
  replace (key x =? key p) with false by (symmetry; lia). by apply IH.
Qed.

Lemma hints_found ps p k sz addrs isF asF g :
  StronglySorted Z.lt (map key ps) -> p ∈ ps -> sz <> O ->
  (let? buf := encodeHints isF asF addrs [] in Ok (mkSVCBParam k buf)) = Ok p ->
  Forall (fun a => isF a = true -> length (asF a) = sz /\ addrAt sz (asF a) = [g a]) addrs ->
  decodeAddrHint ps k sz = map g addrs.
Proof.
  intros Hs Hp Hsz H Ha. apply res_bind_Ok in H as (buf & H & E). injection E as <-.
  apply encodeHints_spec in H as [Hf ->]. unfold decodeAddrHint.
  pose proof (firstParam_sorted ps _ Hs Hp) as Ef. cbn [key] in Ef. rewrite Ef. cbn [data app].
  assert (Forall (fun a => length (asF a) = sz /\ addrAt sz (asF a) = [g a]) addrs) as Hall.
  { rewrite Forall_forall in *. intros a Hin. exact (Ha a Hin (Hf a Hin)). }
  assert (zlen (concat (map asF addrs)) = zlen addrs * Z.of_nat sz) as ->.
  { clear -Hall. induction Hall as [|a l [H _] _ IH]; [done|]. cbn [map concat]. rewrite zlen_app, IH.
    unfold zlen at 1. rewrite H. llia. }
  rewrite Z.mod_mul by lia. by apply addrHints_concat.
Qed.

Lemma Port_found ps port :
  StronglySorted Z.lt (map key ps) -> NewSvcParamPort port ∈ ps ->
  List.find (fun p => (key p =? SvcParamPort) && (zlen (data p) =? 2)) ps = Some (NewSvcParamPort port).
Proof.
  intros Hs Hp. pose proof (firstParam_sorted ps _ Hs Hp) as Hf. unfold firstParam in Hf.
  cbn [NewSvcParamPort key] in Hf. clear Hp. induction ps as [|x ps IH]; [done|]. cbn [List.find] in *.
  cbn [map] in Hs. apply StronglySorted_inv in Hs as [Hs _].
  destruct (key x =? SvcParamPort); cbn [andb]; [|by apply IH]. injection Hf as ->. done.
Qed.

(** Typed service-binding parameters survive: in a body that [newSvcbBody]
    accepts, every parameter made by one of the typed constructors is what the
    matching accessor returns, wherever the caller put it in the list: the ALPN
    identifiers, the port, the address hints (without their zones) and the DoH
    path template. *)
Theorem svcb_accessors priority target ps body p :
  newSvcbBody priority target ps = Ok body -> p ∈ ps ->
  (forall alpns, NewSvcParamALPN alpns = Ok p -> ALPN body = alpns) /\
  (forall port, u16 port -> p = NewSvcParamPort port -> Port body = (port, true)) /\
  (forall addrs, Forall addr_wf addrs -> NewSvcParamIPv4Hint addrs = Ok p -> IPv4Hints body = addrs) /\
  (forall addrs, Forall addr_wf addrs -> NewSvcParamIPv6Hint addrs = Ok p -> IPv6Hints body = map wireAddr addrs) /\
  (forall template, p = NewSvcParamDOHPath template -> DOHPath body = (template, true)).
Proof.
  intros (ps' & -> & _ & Hperm & Hs & _)%newSvcbBody_inv Hp. rewrite <- Hperm in Hp.
  pose proof (firstParam_sorted ps' p Hs Hp) as Hf. split_and!.
  - intros alpns H. pose proof (decodeALPN_encode _ _ H) as Hd. apply res_bind_Ok in H as (buf & _ & E).
    injection E as <-. unfold ALPN. cbn [params key] in *. by rewrite Hf, Hd.
  - intros port Hu ->. unfold Port. cbn [params]. rewrite (Port_found ps' port Hs Hp). f_equal.
    exact (get16_be16 port Hu).
  - intros addrs Ha H. rewrite <- (List.map_id addrs). eapply hints_found; [done|done|done|exact H|].
    eapply Forall_impl; [exact Ha|]. intros [|b|b z] Hb; try done. intros _. destruct Hb as [_ Hl]. unfold zlen in Hl.
    split; [cbn; lia|]. unfold addrAt. cbn -[take]. by rewrite take_ge by (cbn; lia).
  - intros addrs Ha H. eapply hints_found; [done|done|done|exact H|].
    eapply Forall_impl; [exact Ha|]. intros [|b|b z] Hb; try done. intros _. destruct Hb as [_ Hl]. unfold zlen in Hl.
    split; [cbn; lia|]. unfold addrAt. cbn -[take]. by rewrite take_ge by (cbn; lia).
  - intros t ->. unfold DOHPath. cbn [params key NewSvcParamDOHPath] in *. by rewrite Hf.
Qed.

(** h2 and h3 on port 8443, the parameters given out of order. *)
Definition svcbExample : res svcbBody :=
  let? alpn := NewSvcParamALPN [[104; 50]; [104; 51]] in
  newSvcbBody 1 Root [NewSvcParamPort 8443; alpn].
Lemma svcb_accessors_witness :
  exists body, svcbExample = Ok body /\ ALPN body = [[104; 50]; [104; 51]].
Proof.
  eexists. split; [vm_compute; reflexivity|].
  eapply (svcb_accessors 1 Root
    [NewSvcParamPort 8443; mkSVCBParam SvcParamALPN [2; 104; 50; 2; 104; 51]] _
    (mkSVCBParam SvcParamALPN [2; 104; 50; 2; 104; 51])).
  - vm_compute. reflexivity.
  - by right; left.
  - vm_compute. reflexivity.
Defined.

(** What a caller constructs is what the wire carries: a payload returned by
    any constructor of the package, packed anywhere in a message, is read back
    as [wireRD] says: unchanged, but for the zone of an IPv6 address, fractions
    of seconds, the order and repetition of bitmap types, the zero name (sent
    as the root), an ISDN subaddress that is not announced, and a payload whose
    encoding is empty. *)
Theorem constructed_roundtrip rd p post :
  built rd -> packer_ok p -> is_bytes post ->
  let b := Packer.buf (Pack rd p) in
  Unpack (Type_ rd) (zlen b - zlen (Packer.buf p)) (Unpacker.mk (b ++ post) (zlen (Packer.buf p)))
    = (Ok (wireRD rd), Unpacker.mk (b ++ post) (zlen b)).
Proof.
  intros Hb Hp Hpost b. subst b. destruct (wire_built rd Hb) as (Hok & Ht & Hpk).
  rewrite <- Ht, <- (Hpk p). by apply (rcodec_Unpack _ Hok).
Qed.

(** An NSEC payload built with unsorted types and a zero next name. *)
Lemma constructed_roundtrip_witness :
  let b := Packer.buf (Pack (NewNSEC zeroName [46; 1; 46]) (Packer.NewPacker [7; 7])) in
  Unpack rrtype.NSEC (zlen b - 2) (Unpacker.mk (b ++ [5]) 2)
    = (Ok (RD_NSEC Root [1; 46]), Unpacker.mk (b ++ [5]) (zlen b)).
Proof.
  apply (constructed_roundtrip (NewNSEC zeroName [46; 1; 46]) (Packer.NewPacker [7; 7]) [5]).
  - apply built_NSEC; [by left|decide_now].
  - split; [|decide_now]. intros s ptr E. cbn [Packer.comp Packer.NewPacker] in E. by rewrite lookup_empty in E.
  - decide_now.
Defined.
