(* ===== verification/Netip.v ===== *)
(** * Addresses and prefixes (net/netip)

    What the server framework uses of Go's netip: IPv4-mapped addresses,
    prefixes of an address, and membership in a prefix. *)

From S2P Require Import Prelude RData RDataNew.

(** [ip.Is4In6()], [ip.Unmap()]: an IPv4-mapped address, and the IPv4 address
    in it; the zone goes. *)
Definition Is4In6 (a : Addr) : bool :=
  match a with Addr6 b _ => bool_decide (take 12 b = v4mapped) | _ => false end.
Definition Unmap (a : Addr) : Addr :=
  match a with
  | Addr6 b _ => if Is4In6 a then Addr4 (drop 12 b) else a
  | _ => a
  end.

(** [ip.IsValid()], [ap.IsValid()] *)
Definition Addr_IsValid (a : Addr) : bool := match a with AddrZero => false | _ => true end.
Definition AddrPort_IsValid (ap : AddrPort) : bool := Addr_IsValid (ap_addr ap).

Definition hasZone (a : Addr) : bool :=
  match a with Addr6 _ zone => negb (bool_decide (zone = [])) | _ => false end.

(** The number of address bits. *)
Definition BitLen (a : Addr) : Z :=
  match a with AddrZero => 0 | Addr4 _ => 32 | Addr6 _ _ => 128 end.

(** The first [bits] bits of [b], the others zero. *)
Fixpoint maskBits (bits : Z) (b : bytes) : bytes :=
  match b with
  | [] => []
  | x :: b => Z.land x (to_u8 (Z.shiftl 0xff (8 - Z.min 8 (Z.max 0 bits)))) :: maskBits (bits - 8) b
  end.

(** [ip.Prefix(b)]; a prefix has no zone. *)
Definition Addr_Prefix (a : Addr) (bits : Z) : res Prefix :=
  if bits <? 0 then Err ErrPlain
  else match a with
  | AddrZero => Ok (PrefixFrom AddrZero (-1))
  | Addr4 b => if 32 <? bits then Err ErrPlain else Ok (PrefixFrom (Addr4 (maskBits bits b)) bits)
  | Addr6 b _ => if 128 <? bits then Err ErrPlain else Ok (PrefixFrom (Addr6 (maskBits bits b) []) bits)
  end.

Definition addrBytes (a : Addr) : bytes :=
  match a with AddrZero => [] | Addr4 b => b | Addr6 b _ => b end.

(** [p.Contains(ip)]: an address with a zone is in no prefix. *)
Definition Contains (p : Prefix) (a : Addr) : bool :=
  if negb (Prefix_IsValid p) || hasZone a then false
  else if (BitLen (pfx_addr p) =? 0) || (BitLen a =? 0) || negb (BitLen (pfx_addr p) =? BitLen a) then false
  else bool_decide (maskBits (pfx_bits p) (addrBytes a) = maskBits (pfx_bits p) (addrBytes (pfx_addr p))).

(** ** Facts *)

#[export] Instance Addr_countable : Countable Addr.
Proof.
  refine (inj_countable'
    (fun a => match a with AddrZero => inl tt | Addr4 b => inr (inl b) | Addr6 b z => inr (inr (b, z)) end)
    (fun s => match s with inl _ => AddrZero | inr (inl b) => Addr4 b | inr (inr (b, z)) => Addr6 b z end) _).
  by intros [|b|b z].
Defined.

Lemma Unmap_idem a : Unmap (Unmap a) = Unmap a.
Proof. destruct a as [|b|b z]; cbn; [done..|]. destruct (bool_decide _) eqn:E; cbn; [done|]. by rewrite E. Qed.

Lemma maskBits_length bits b : length (maskBits bits b) = length b.
Proof. revert bits. induction b as [|x b IH]; intros; cbn; [done|]. by rewrite IH. Qed.

Lemma maskBits_idem bits b : maskBits bits (maskBits bits b) = maskBits bits b.
Proof.
  revert bits. induction b as [|x b IH]; intros bits; cbn [maskBits]; [done|].
  by rewrite IH, <- Z.land_assoc, Z.land_diag.
Qed.

(** The prefix of a valid address contains it, unless it has a zone. *)
Lemma Addr_Prefix_Contains a bits p : Addr_IsValid a = true -> Addr_Prefix a bits = Ok p ->
  Contains p a = negb (hasZone a).
Proof.
  intros Hv. unfold Addr_Prefix. destruct (bits <? 0) eqn:E; [done|].
  destruct a as [|b|b z]; [done| |]; (split_if; [done|]); intros [= <-]; unfold Contains, Prefix_IsValid;
    cbn [pfx_bits pfx_addr hasZone BitLen]; bool_facts; rewrite (proj2 (Z.leb_le 0 bits)) by lia; cbn [negb orb].
  - cbn. rewrite bool_decide_eq_true_2; [done|]. by rewrite maskBits_idem.
  - destruct (bool_decide (z = [])); cbn; [|done]. rewrite bool_decide_eq_true_2; [done|]. by rewrite maskBits_idem.
Qed.
