(* ===== verification/EdnsOptions.v ===== *)
(** * Typed EDNS options (src/wire/edns.go, edns_options.go,
      edns_chain_keytag.go, edns_reporting.go)

    One constructor and one accessor per option code.  An accessor that
    returns a value and [false] in Go returns [None]. *)

From S2P Require Import Prelude Name Wire RData RDataCodec TypeBitmap.
From S2P Require Import RDataRoundtrip RDataNew Reader RDataReads Message.

Definition EDNSOptionLLQ : Z := 1.
Definition EDNSOptionUL : Z := 2.
Definition EDNSOptionNSID : Z := 3.
Definition EDNSOptionDAU : Z := 5.
Definition EDNSOptionDHU : Z := 6.
Definition EDNSOptionN3U : Z := 7.
Definition EDNSOptionClientSubnet : Z := 8.
Definition EDNSOptionExpire : Z := 9.
Definition EDNSOptionCookie : Z := 10.
Definition EDNSOptionTCPKeepalive : Z := 11.
Definition EDNSOptionPadding : Z := 12.
Definition EDNSOptionChain : Z := 13.
Definition EDNSOptionKeyTag : Z := 14.
Definition EDNSOptionExtendedDNS : Z := 15.
Definition EDNSOptionReportChannel : Z := 18.
Definition EDNSOptionZoneVersion : Z := 19.

(** ** Plain payloads *)

Definition NewAlgorithmUnderstood (c : Z) (algorithms : bytes) : res EDNSOption :=
  if (c =? EDNSOptionDAU) || (c =? EDNSOptionDHU) || (c =? EDNSOptionN3U)
  then Ok (mkEDNSOption c algorithms) else Err ErrInvalidMessage.

Definition NewUpdateLease (seconds : Z) : EDNSOption := mkEDNSOption EDNSOptionUL (be32 seconds).

Definition be64 (v : Z) : bytes := be32 (to_u32 (Z.shiftr v 32)) ++ be32 (to_u32 v).
Definition NewLLQ (opcode errCode llqID leaseSeconds : Z) : EDNSOption :=
  mkEDNSOption EDNSOptionLLQ (be16 1 ++ be16 opcode ++ be16 errCode ++ be64 llqID ++ be32 leaseSeconds).

Definition NewNSID (identifier : bytes) : EDNSOption := mkEDNSOption EDNSOptionNSID identifier.
Definition NSIDIdentifier (o : EDNSOption) : option bytes :=
  if negb (code o =? EDNSOptionNSID) then None else Some (optData o).

Definition NewEDNSExpire (seconds : Z) : EDNSOption := mkEDNSOption EDNSOptionExpire (be32 seconds).
Definition NewEDNSExpireQuery : EDNSOption := mkEDNSOption EDNSOptionExpire [].

(** [binary.BigEndian.Uint16] and [Uint32] at an offset. *)
Definition u16at (d : bytes) (i : Z) : Z := get16 (zget d i) (zget d (i + 1)).
Definition u32at (d : bytes) (i : Z) : Z :=
  get32 (zget d i) (zget d (i + 1)) (zget d (i + 2)) (zget d (i + 3)).

Definition EDNSExpireSeconds (o : EDNSOption) : option Z :=
  if negb (code o =? EDNSOptionExpire) || negb (zlen (optData o) =? 4) then None
  else Some (u32at (optData o) 0).

(** Durations in nanoseconds; the unit of the option is 100 ms. *)
Definition keepaliveUnit : Z := 100 * 1000000.
Definition NewTCPKeepalive (timeout : Z) : EDNSOption :=
  if timeout =? 0 then mkEDNSOption EDNSOptionTCPKeepalive []
  else mkEDNSOption EDNSOptionTCPKeepalive (be16 (to_u16 (Z.quot timeout keepaliveUnit))).
Definition TCPKeepaliveTimeout (o : EDNSOption) : option Z :=
  if negb (code o =? EDNSOptionTCPKeepalive) || negb (zlen (optData o) =? 2) then None
  else Some (u16at (optData o) 0 * keepaliveUnit).

(** ** Client subnet (RFC 7871) *)

(** [byte(0xff << n)] *)
Definition mask8 (n : Z) : Z := to_u8 (Z.shiftl 0xff n).

Definition NewClientSubnet (pfx : Prefix) (scope : Z) : res EDNSOption :=
  if negb (Prefix_IsValid pfx) then Err ErrInvalidMessage
  else
    let family := if Is6 (pfx_addr pfx) then 2 else 1 in
    let addr := if Is6 (pfx_addr pfx) then As16 (pfx_addr pfx) else As4 (pfx_addr pfx) in
    let source := to_u8 (pfx_bits pfx) in
    let addrLen := (source + 7) / 8 in
    if zlen addr <? addrLen then Err ErrInvalidMessage
    else
      let data := be16 family ++ [source; scope] ++ zslice addr 0 addrLen in
      let data :=
        if 0 <? addrLen then
          let trailing := addrLen * 8 - source in
          if 0 <? trailing then
            let i := 4 + addrLen - 1 in
            <[Z.to_nat i := Z.land (zget data i) (mask8 trailing)]> data
          else data
        else data in
      Ok (mkEDNSOption EDNSOptionClientSubnet data).

(** The prefix and the scope. *)
Definition ClientSubnet (o : EDNSOption) : option (Prefix * Z) :=
  if negb (code o =? EDNSOptionClientSubnet) || (zlen (optData o) <? 4) then None
  else
    let d := optData o in
    let family := u16at d 0 in
    let source := zget d 2 in
    let scope := zget d 3 in
    let addr := drop 4 d in
    if negb ((family =? 1) || (family =? 2)) then None
    else
      let width := if family =? 1 then 32 else 128 in
      if width <? source then None
      else
        let addrLen := (source + 7) / 8 in
        if zlen addr <? addrLen then None
        else
          let trailing := addrLen * 8 - source in
          if (0 <? addrLen) && (0 <? trailing)
             && negb (Z.ldiff (zget addr (addrLen - 1)) (mask8 trailing) =? 0) then None
          else if family =? 1
          then Some (PrefixFrom (AddrFrom4 (copyInto 4 (zslice addr 0 addrLen))) source, scope)
          else Some (PrefixFrom (AddrFrom16 (copyInto 16 (zslice addr 0 addrLen))) source, scope).

(** ** Cookies (RFC 7873) *)

Definition NewClientCookie (clientCookie : bytes) : EDNSOption := mkEDNSOption EDNSOptionCookie clientCookie.
Definition NewClientServerCookie (clientCookie serverCookie : bytes) : res EDNSOption :=
  if (zlen serverCookie <? 8) || (32 <? zlen serverCookie) then Err ErrInvalidCookie
  else Ok (mkEDNSOption EDNSOptionCookie (clientCookie ++ serverCookie)).
Definition Cookies (o : EDNSOption) : option (bytes * bytes) :=
  if negb (code o =? EDNSOptionCookie) then None
  else
    let d := optData o in
    if negb (zlen d =? 8) && ((zlen d <? 16) || (40 <? zlen d)) then None
    else Some (take 8 d, if 8 <? zlen d then drop 8 d else []).

(** ** Extended errors (RFC 8914), zone version (RFC 9660) *)

Definition NewExtendedError (c : Z) (extraText : bytes) : EDNSOption :=
  mkEDNSOption EDNSOptionExtendedDNS (be16 c ++ extraText).
Definition ExtendedError (o : EDNSOption) : option (Z * bytes) :=
  if negb (code o =? EDNSOptionExtendedDNS) || (zlen (optData o) <? 2) then None
  else Some (u16at (optData o) 0, drop 2 (optData o)).

Definition ZoneVersionTypeSOASerial : Z := 0.
Definition NewZoneVersionQuery : EDNSOption := mkEDNSOption EDNSOptionZoneVersion [].
Definition NewZoneVersionSOASerial (labelCount serial : Z) : EDNSOption :=
  mkEDNSOption EDNSOptionZoneVersion ([labelCount; ZoneVersionTypeSOASerial] ++ be32 serial).
Definition ZoneVersionSOASerial (o : EDNSOption) : option (Z * Z) :=
  if negb (code o =? EDNSOptionZoneVersion) || negb (zlen (optData o) =? 6) then None
  else if negb (zget (optData o) 1 =? ZoneVersionTypeSOASerial) then None
  else Some (zget (optData o) 0, u32at (optData o) 2).

(** ** Names in options: CHAIN (RFC 7901), report channel (RFC 9567) *)

Definition nameOption (c : Z) (n : Name) : EDNSOption :=
  mkEDNSOption c (Packer.buf (Packer.NameUncompressed n (Packer.NewPacker []))).
Definition optionName (c : Z) (o : EDNSOption) : option Name :=
  if negb (code o =? c) then None
  else match fst (Unpacker.Name (Unpacker.mk (optData o) 0)) with Ok n => Some n | Err _ => None end.
Definition NewChain : Name -> EDNSOption := nameOption EDNSOptionChain.
Definition ChainClosestTrustPoint : EDNSOption -> option Name := optionName EDNSOptionChain.
Definition NewReportChannel : Name -> EDNSOption := nameOption EDNSOptionReportChannel.
Definition ReportChannelAgent : EDNSOption -> option Name := optionName EDNSOptionReportChannel.

(** ** Key tags (RFC 8145) *)

Definition NewKeyTag (tags : list Z) : EDNSOption := mkEDNSOption EDNSOptionKeyTag (flat_map be16 tags).
Fixpoint pairs16 (d : bytes) : list Z :=
  match d with a :: b :: d => get16 a b :: pairs16 d | _ => [] end.
Definition KeyTags (o : EDNSOption) : option (list Z) :=
  if negb (code o =? EDNSOptionKeyTag) then None
  else if negb (zlen (optData o) mod 2 =? 0) then None
  else Some (pairs16 (optData o)).

(** ** Error report names (RFC 9567 section 7) *)

(** [strconv.FormatUint(v, 10)]; a uint64 has at most 20 digits. *)
Fixpoint formatUint_loop (fuel : nat) (v : Z) (acc : bytes) : bytes :=
  match fuel with
  | O => acc
  | S fuel => if v <? 10 then (48 + v) :: acc else formatUint_loop fuel (v / 10) (48 + v mod 10 :: acc)
  end.
Definition FormatUint (v : Z) : bytes := formatUint_loop 20 v [].

Definition joinLabels (parts : list bytes) : bytes :=
  match parts with
  | [] => [46]
  | p :: ps => p ++ concat (map (cons 46) ps)
  end.

Definition er : bytes := [95; 101; 114].
Definition BuildErrorReportName (qname : Name) (qtype infoCode : Z) (agent : Name) : res Name :=
  if negb (IsValid qname) || IsRoot qname then Err ErrInvalidMessage
  else if negb (IsValid agent) then Err ErrInvalidMessage
  else Parse (joinLabels ([er; FormatUint qtype] ++ Labels qname ++ [FormatUint infoCode; er] ++ Labels agent)).

(** ** Accessors invert constructors *)

Lemma u16at_be16 v rest : u16 v -> u16at (be16 v ++ rest) 0 = v.
Proof. intros H. exact (get16_be16 v H). Qed.
Lemma u32at_be32 v : u32 v -> u32at (be32 v) 0 = v.
Proof. intros H. exact (get32_be32 v H). Qed.

Lemma pairs16_be16 tags : Forall u16 tags -> pairs16 (flat_map be16 tags) = tags.
Proof. induction 1 as [|t l Ht _ IH]; [done|]. cbn [flat_map be16 app pairs16]. by rewrite IH, get16_be16. Qed.

Lemma zlen_be16s tags : zlen (flat_map be16 tags) = 2 * zlen tags.
Proof. induction tags as [|t l IH]; [done|]. cbn [flat_map]. rewrite zlen_app, IH, zlen_be16. llia. Qed.

Lemma optionName_nameOption c n : canonical n -> optionName c (nameOption c n) = Some n.
Proof.
  intros (ls & Hw & Hf). unfold optionName, nameOption. cbn [code optData]. rewrite Z.eqb_refl. cbn [negb].
  unfold Packer.NameUncompressed, Packer.NewPacker. cbn [Packer.buf]. rewrite (AppendWire_wf _ _ Hw).
  pose proof Hw as (E & Hok & Hlen). rewrite E in Hlen.
  assert (DecodeWire (encName ls) 0 = Ok (n, zlen (encName ls))) as Hd.
  { apply DecodeWire_spec; [by apply is_bytes_encName|]. exists ls, 0. split_and!; [|done|done|by apply canonical_wire].
    apply (name_at_inline (encName ls) 0 ls); [|done]. pose proof (at_bytes_mid [] (encName ls) []) as H.
    by rewrite app_nil_r in H. }
  unfold Unpacker.Name. cbn [Unpacker.msg Unpacker.off]. by rewrite Hd.
Qed.

(** Typed EDNS options: what an accessor returns for an option is what its
    constructor was given, for every option code with an accessor, and a query
    form carries no value.  A keepalive timeout comes back in whole units of
    100 ms, reduced modulo 65536 of them: the option has 16 bits, and a longer
    timeout is not refused but wraps. *)
Theorem edns_option_accessors :
  (forall b, NSIDIdentifier (NewNSID b) = Some b) /\
  (forall s, u32 s -> EDNSExpireSeconds (NewEDNSExpire s) = Some s) /\
  EDNSExpireSeconds NewEDNSExpireQuery = None /\
  (forall d, d <> 0 -> TCPKeepaliveTimeout (NewTCPKeepalive d)
     = Some (Z.quot d keepaliveUnit mod 65536 * keepaliveUnit)) /\
  TCPKeepaliveTimeout (NewTCPKeepalive 0) = None /\
  (forall c, zlen c = 8 -> Cookies (NewClientCookie c) = Some (c, [])) /\
  (forall c s, zlen c = 8 -> match NewClientServerCookie c s with
     | Ok o => 8 <= zlen s <= 32 /\ Cookies o = Some (c, s)
     | Err e => e = ErrInvalidCookie /\ ~ 8 <= zlen s <= 32 end) /\
  (forall c t, u16 c -> ExtendedError (NewExtendedError c t) = Some (c, t)) /\
  (forall l s, u32 s -> ZoneVersionSOASerial (NewZoneVersionSOASerial l s) = Some (l, s)) /\
  ZoneVersionSOASerial NewZoneVersionQuery = None /\
  (forall n, canonical n -> ChainClosestTrustPoint (NewChain n) = Some n) /\
  (forall n, canonical n -> ReportChannelAgent (NewReportChannel n) = Some n) /\
  (forall tags, Forall u16 tags -> KeyTags (NewKeyTag tags) = Some tags).
Proof.
  split_and!; try done.
  - intros s Hs. unfold EDNSExpireSeconds, NewEDNSExpire. cbn [code optData]. rewrite zlen_be32. cbn.
    f_equal. by apply u32at_be32.
  - intros d Hd. unfold NewTCPKeepalive. if_false. unfold TCPKeepaliveTimeout. cbn [code optData].
    rewrite zlen_be16. cbn -[Z.mul u16at be16 keepaliveUnit]. do 2 f_equal.
    rewrite <- (app_nil_r (be16 _)). apply u16at_be16. unfold to_u16, u16. by apply Z.mod_pos_bound.
  - intros c Hc. unfold Cookies, NewClientCookie. cbn [code optData]. rewrite Hc. cbn.
    rewrite take_ge; [done|]. unfold zlen in Hc. lia.
  - intros c s Hc. unfold NewClientServerCookie. destruct (_ || _) eqn:E.
    { apply orb_true_iff in E. split; [done|]. lia. }
    apply orb_false_iff in E as [E1 E2]. bool_facts. split; [lia|].
    unfold Cookies. cbn [code optData]. rewrite Z.eqb_refl. cbn [negb]. rewrite zlen_app, Hc.
    replace ((8 + zlen s <? 16) || (40 <? 8 + zlen s)) with false
      by (symmetry; rewrite orb_false_iff; lia). rewrite andb_false_r.
    replace (8 <? 8 + zlen s) with true by (symmetry; lia).
    assert (length c = 8%nat) as Hl by (unfold zlen in Hc; lia).
    by rewrite <- Hl, take_app_length, drop_app_length.
  - intros c t Hc. unfold ExtendedError, NewExtendedError. cbn [code optData]. rewrite zlen_app, zlen_be16.
    replace (2 + zlen t <? 2) with false by (symmetry; llia). rewrite Z.eqb_refl. cbn [negb orb].
    by rewrite (u16at_be16 c t).
  - intros l s Hs. unfold ZoneVersionSOASerial, NewZoneVersionSOASerial. cbn -[u32at].
    do 2 f_equal. exact (get32_be32 s Hs).
  - intros n Hn. by apply optionName_nameOption.
  - intros n Hn. by apply optionName_nameOption.
  - intros tags Ht. unfold KeyTags, NewKeyTag. cbn [code optData]. rewrite zlen_be16s, Z.mul_comm, Z.mod_mul by done.
    cbn -[pairs16 flat_map]. by rewrite pairs16_be16.
Qed.

(** ** Client subnet: only the announced prefix leaves the machine *)

(** Bit [k] of an address, the most significant of the first byte being 0. *)
Definition addrBit (b : bytes) (k : Z) : bool := Z.testbit (zget b (k / 8)) (7 - k mod 8).

(** The address octets an option carries for the first [bits] bits. *)
Definition clip (bits : Z) (b : bytes) : bytes :=
  let n := (bits + 7) / 8 in
  let c := zslice b 0 n in
  if (0 <? n) && (0 <? n * 8 - bits)
  then <[Z.to_nat (n - 1) := Z.land (zget c (n - 1)) (mask8 (n * 8 - bits))]> c else c.

Lemma mask8_bit t i : 0 <= t -> 0 <= i < 8 -> Z.testbit (mask8 t) i = (t <=? i).
Proof.
  intros Ht Hi. unfold mask8, to_u8. change 256 with (2 ^ 8). rewrite Z.mod_pow2_bits_low by lia.
  rewrite Z.shiftl_spec by lia. destruct (Z.leb_spec t i).
  - change 255 with (Z.ones 8). apply Z.ones_spec_low. lia.
  - apply Z.testbit_neg_r. lia.
Qed.

Lemma zget_zslice b n i : 0 <= i < n -> n <= zlen b -> zget (zslice b 0 n) i = zget b i.
Proof.
  intros Hi Hn. unfold zget, zslice. rewrite drop_0, lookup_take_lt by lia. done.
Qed.

Lemma zlen_zslice0 (b : bytes) n : 0 <= n <= zlen b -> zlen (zslice b 0 n) = n.
Proof. intros Hn. unfold zslice, zlen in *. rewrite length_take, length_drop. lia. Qed.

Lemma zlen_clip bits b : 0 <= bits <= 8 * zlen b -> zlen (clip bits b) = (bits + 7) / 8.
Proof.
  intros Hb. assert (0 <= (bits + 7) / 8 <= zlen b) by elia. unfold clip.
  destruct (_ && _); [|by apply zlen_zslice0]. unfold zlen. rewrite length_insert. by apply zlen_zslice0.
Qed.

Lemma clip_bit bits b k :
  0 <= bits <= 8 * zlen b -> 0 <= k < 8 * ((bits + 7) / 8) ->
  addrBit (clip bits b) k = addrBit b k && (k <? bits).
Proof.
  intros Hb Hk. set (n := (bits + 7) / 8) in *. assert (0 <= n <= zlen b) by (subst n; elia).
  assert (0 <= k / 8 < n) as Hq by elia. assert (0 <= 7 - k mod 8 < 8) as Hr by elia.
  unfold addrBit, clip. fold n. destruct ((0 <? n) && (0 <? n * 8 - bits)) eqn:E.
  - bool_facts. rewrite zget_insert by (rewrite ?zlen_zslice0; lia).
    destruct (Z.eqb_spec (n - 1) (k / 8)) as [Eq|Ne].
    + rewrite Z.land_spec, mask8_bit, zget_zslice by lia. rewrite Eq. f_equal.
      apply Bool.eq_iff_eq_true. rewrite Z.leb_le, Z.ltb_lt. elia.
    + rewrite zget_zslice by lia. replace (k <? bits) with true by (symmetry; apply Z.ltb_lt; subst n; elia).
      by rewrite andb_true_r.
  - rewrite zget_zslice by lia. replace (k <? bits) with true; [by rewrite andb_true_r|].
    symmetry. apply Z.ltb_lt. apply andb_false_iff in E as [E|E]; bool_facts; subst n; elia.
Qed.

Lemma land_u8 a b : u8 a -> u8 (Z.land a b).
Proof.
  unfold u8. intros Ha. replace a with (Z.land a (Z.ones 8)) by (rewrite Z.land_ones by lia; by apply Z.mod_small).
  rewrite <- Z.land_assoc, (Z.land_comm (Z.ones 8)), Z.land_assoc, Z.land_ones by lia. by apply Z.mod_pos_bound.
Qed.

Lemma clip_bytes bits b : is_bytes b -> 0 <= bits <= 8 * zlen b -> is_bytes (clip bits b).
Proof.
  intros Hb Hbits. assert (is_bytes (zslice b 0 ((bits + 7) / 8))) as Hs by by apply Forall_take, Forall_drop.
  unfold clip. destruct (_ && _) eqn:E; [|done]. bool_facts. apply Forall_insert; [done|].
  apply land_u8, zget_u8; [done|]. rewrite zlen_zslice0; elia.
Qed.

Lemma u8_bit_high x n : u8 x -> 8 <= n -> Z.testbit x n = false.
Proof.
  unfold u8. intros Hx Hn. destruct (Z.eq_dec x 0) as [->|]; [apply Z.bits_0|]. apply Z.bits_above_log2; [lia|].
  apply (Z.lt_le_trans _ 8); [|done]. apply Z.log2_lt_pow2; lia.
Qed.

(** Bytes are their bits. *)
Lemma bytes_bit_ext c d :
  is_bytes c -> is_bytes d -> zlen c = zlen d -> (forall k, 0 <= k < 8 * zlen c -> addrBit c k = addrBit d k) -> c = d.
Proof.
  intros Hc Hd Hl H. apply list_eq_same_length with (n := length c); [unfold zlen in Hl; lia|done|].
  intros i x y Hi Hx Hy. assert (0 <= Z.of_nat i < zlen c) as Hz by (unfold zlen; lia).
  assert (x = zget c (Z.of_nat i)) as -> by (unfold zget; by rewrite Nat2Z.id, Hx).
  assert (y = zget d (Z.of_nat i)) as -> by (unfold zget; by rewrite Nat2Z.id, Hy).
  pose proof (zget_u8 c _ Hc Hz) as Hu1. pose proof (zget_u8 d (Z.of_nat i) Hd ltac:(lia)) as Hu2.
  apply Z.bits_inj'. intros n Hn. destruct (Z.lt_ge_cases n 8) as [Hlt|Hge].
  - specialize (H (8 * Z.of_nat i + (7 - n)) ltac:(lia)). unfold addrBit in H.
    replace ((8 * Z.of_nat i + (7 - n)) / 8) with (Z.of_nat i) in H by elia.
    replace (7 - (8 * Z.of_nat i + (7 - n)) mod 8) with n in H by elia. done.
  - by rewrite !u8_bit_high.
Qed.

Definition prefixBytes (p : Prefix) : bytes := if Is6 (pfx_addr p) then As16 (pfx_addr p) else As4 (pfx_addr p).
Definition familyOf (p : Prefix) : Z := if Is6 (pfx_addr p) then 2 else 1.
Definition withBytes (p : Prefix) (b : bytes) : Addr := if Is6 (pfx_addr p) then Addr6 b [] else Addr4 b.

(** The octets of a prefix in use. *)
Lemma prefix_facts p : prefix_wf p -> 0 <= pfx_bits p ->
  is_bytes (prefixBytes p) /\ zlen (prefixBytes p) = (if Is6 (pfx_addr p) then 16 else 4) /\
  pfx_bits p <= 8 * zlen (prefixBytes p) /\ pfx_bits p <= 128.
Proof.
  unfold prefix_wf, prefixBytes. destruct (pfx_addr p) as [|b|b z]; cbn; [lia| |].
  - intros (? & -> & ?) ?. split_and!; (done || lia).
  - intros (? & -> & -> & ?) ?. split_and!; (done || lia).
Qed.

Lemma insert_header (h : bytes) c i v :
  0 <= i -> <[Z.to_nat (zlen h + i) := v]> (h ++ c) = h ++ <[Z.to_nat i := v]> c.
Proof.
  intros Hi. unfold zlen. rewrite insert_app_r_alt by lia. f_equal. f_equal. lia.
Qed.
Lemma zget_header (h : bytes) c i : 0 <= i -> zget (h ++ c) (zlen h + i) = zget c i.
Proof. intros Hi. unfold zget, zlen. rewrite lookup_app_r by lia. do 2 f_equal. lia. Qed.

Lemma NewClientSubnet_spec p scope :
  prefix_wf p ->
  NewClientSubnet p scope =
    if Prefix_IsValid p
    then Ok (mkEDNSOption EDNSOptionClientSubnet
               (be16 (familyOf p) ++ [pfx_bits p; scope] ++ clip (pfx_bits p) (prefixBytes p)))
    else Err ErrInvalidMessage.
Proof.
  intros Hp. unfold NewClientSubnet. destruct (Prefix_IsValid p) eqn:E; [|done]. cbn [negb].
  unfold Prefix_IsValid in E. bool_facts. destruct (prefix_facts p Hp E) as (Hb & Hl & H8 & H128).
  fold (prefixBytes p) (familyOf p). cbv zeta. rewrite to_u8_id by (unfold u8; lia).
  replace (zlen (prefixBytes p) <? (pfx_bits p + 7) / 8) with false by (symmetry; apply Z.ltb_ge; elia).
  do 2 f_equal. unfold clip. set (n := (pfx_bits p + 7) / 8).
  destruct (0 <? n) eqn:E0; [|done]. destruct (0 <? n * 8 - pfx_bits p) eqn:E1; [|done]. cbn [andb]. bool_facts.
  set (h := be16 (familyOf p) ++ [pfx_bits p; scope]).
  assert (forall r, be16 (familyOf p) ++ [pfx_bits p; scope] ++ r = h ++ r) as Ha by (intros; subst h; by rewrite app_assoc).
  rewrite !Ha. replace (4 + n - 1) with (zlen h + (n - 1)) by (subst h; rewrite zlen_app, zlen_be16; llia).
  rewrite insert_header, zget_header by lia. done.
Qed.

Lemma ldiff_land a m : Z.ldiff (Z.land a m) m = 0.
Proof. apply Z.bits_inj'. intros n Hn. rewrite Z.ldiff_spec, Z.land_spec, Z.bits_0. by destruct (Z.testbit a n), (Z.testbit m n). Qed.

(** The decoder accepts what the constructor writes. *)
Lemma ClientSubnet_clip p scope :
  prefix_wf p -> 0 <= pfx_bits p ->
  ClientSubnet (mkEDNSOption EDNSOptionClientSubnet
    (be16 (familyOf p) ++ [pfx_bits p; scope] ++ clip (pfx_bits p) (prefixBytes p)))
  = Some (PrefixFrom (withBytes p (copyInto (length (prefixBytes p)) (clip (pfx_bits p) (prefixBytes p)))) (pfx_bits p), scope).
Proof.
  intros Hp E. destruct (prefix_facts p Hp E) as (Hb & Hl & H8 & H128).
  pose proof (zlen_clip (pfx_bits p) (prefixBytes p) ltac:(lia)) as Hc.
  unfold ClientSubnet. cbn [code optData]. rewrite Z.eqb_refl. cbn [negb orb].
  rewrite !zlen_app, zlen_be16. replace (2 + _ <? 4) with false by (symmetry; apply Z.ltb_ge; llia).
  rewrite u16at_be16 by (unfold familyOf, u16; destruct (Is6 _); lia).
  change (zget (be16 (familyOf p) ++ [pfx_bits p; scope] ++ ?c) 2) with (pfx_bits p).
  change (zget (be16 (familyOf p) ++ [pfx_bits p; scope] ++ ?c) 3) with scope.
  change (drop 4 (be16 (familyOf p) ++ [pfx_bits p; scope] ++ ?c)) with c.
  cbv zeta. rewrite Hc, Z.ltb_irrefl.
  replace (_ && negb _) with false.
  2: { symmetry. destruct (0 <? (pfx_bits p + 7) / 8) eqn:E0; [|done].
       destruct (0 <? (pfx_bits p + 7) / 8 * 8 - pfx_bits p) eqn:E1; [|done]. cbn [andb].
       unfold clip. rewrite E0, E1. cbn [andb]. bool_facts.
       rewrite zget_insert by (rewrite ?zlen_zslice0; elia). by rewrite Z.eqb_refl, ldiff_land. }
  assert (zslice (clip (pfx_bits p) (prefixBytes p)) 0 ((pfx_bits p + 7) / 8) = clip (pfx_bits p) (prefixBytes p)) as ->.
  { unfold zslice. rewrite drop_0. apply take_ge. unfold zlen in Hc. lia. }
  unfold familyOf, withBytes. revert Hl. unfold zlen in *. destruct (Is6 (pfx_addr p)); intros Hl; cbn [Z.eqb Pos.eqb negb orb];
    (replace (_ <? pfx_bits p) with false by (symmetry; apply Z.ltb_ge; lia));
    assert (length (prefixBytes p) = Z.to_nat (Z.of_nat (length (prefixBytes p)))) as -> by lia; by rewrite Hl.
Qed.

Lemma copyInto_bit w c k :
  zlen c <= Z.of_nat w -> 0 <= k < 8 * Z.of_nat w ->
  addrBit (copyInto w c) k = if k <? 8 * zlen c then addrBit c k else false.
Proof.
  intros Hc Hk. unfold addrBit, copyInto, zget, zlen in *. rewrite lookup_take_lt by elia.
  destruct (Z.ltb_spec k (8 * Z.of_nat (length c))).
  - by rewrite lookup_app_l by elia.
  - rewrite lookup_app_r, lookup_replicate_2 by elia. apply Z.bits_0.
Qed.

(** An EDNS client subnet option round-trips the prefix and nothing else:
    the accessor returns the same family, prefix length and scope, and the
    address whose bits are the caller's up to the prefix length and zero
    after it. *)
Theorem client_subnet_roundtrip p scope o :
  prefix_wf p -> NewClientSubnet p scope = Ok o ->
  exists b, ClientSubnet o = Some (PrefixFrom (withBytes p b) (pfx_bits p), scope) /\
    zlen b = zlen (prefixBytes p) /\
    forall k, 0 <= k < 8 * zlen b -> addrBit b k = addrBit (prefixBytes p) k && (k <? pfx_bits p).
Proof.
  intros Hp H. rewrite NewClientSubnet_spec in H by done. destruct (Prefix_IsValid p) eqn:E; [|done].
  unfold Prefix_IsValid in E. bool_facts. injection H as <-. destruct (prefix_facts p Hp E) as (Hb & Hl & H8 & H128).
  eexists. split; [by apply ClientSubnet_clip|].
  pose proof (zlen_clip (pfx_bits p) (prefixBytes p) ltac:(lia)) as Hc.
  rewrite zlen_copyInto. split; [done|]. fold (zlen (prefixBytes p)). intros k Hk.
  rewrite copyInto_bit by (fold (zlen (prefixBytes p)); rewrite ?Hc; elia). rewrite Hc.
  destruct (Z.ltb_spec k (8 * ((pfx_bits p + 7) / 8))).
  - by rewrite clip_bit by lia.
  - replace (k <? pfx_bits p) with false by (symmetry; apply Z.ltb_ge; elia). by rewrite andb_false_r.
Qed.

(** The privacy boundary of RFC 7871: two addresses of the same family that
    agree on the announced prefix give the same option octets, so nothing
    beyond the prefix leaves the machine. *)
Theorem client_subnet_privacy p q scope :
  prefix_wf p -> prefix_wf q -> Is6 (pfx_addr p) = Is6 (pfx_addr q) -> pfx_bits p = pfx_bits q ->
  (forall k, 0 <= k < pfx_bits p -> addrBit (prefixBytes p) k = addrBit (prefixBytes q) k) ->
  NewClientSubnet p scope = NewClientSubnet q scope.
Proof.
  intros Hp Hq H6 Hbits Hk. rewrite !NewClientSubnet_spec by done.
  unfold Prefix_IsValid, familyOf. rewrite H6, <- Hbits. destruct (0 <=? pfx_bits p) eqn:E; [|done]. bool_facts.
  destruct (prefix_facts p Hp E) as (Pb & Pl & P8 & _). destruct (prefix_facts q Hq ltac:(lia)) as (Qb & Ql & Q8 & _).
  rewrite H6, <- Ql in Pl. assert (clip (pfx_bits p) (prefixBytes p) = clip (pfx_bits p) (prefixBytes q)) as ->; [|done].
  apply bytes_bit_ext; [apply clip_bytes; (done || lia)|apply clip_bytes; (done || lia)|rewrite !zlen_clip; lia|].
  rewrite zlen_clip by lia. intros k Hk8. rewrite !clip_bit by lia.
  destruct (Z.ltb_spec k (pfx_bits p)); [|by rewrite !andb_false_r]. f_equal. apply Hk. lia.
Qed.

(** 192.0.2.255/20: the last octet sent is masked to its upper half. *)
Definition subnetExample : Prefix := PrefixFrom (Addr4 [192; 0; 47; 255]) 20.
Lemma client_subnet_roundtrip_witness :
  NewClientSubnet subnetExample 0 = Ok (mkEDNSOption 8 [0; 1; 20; 0; 192; 0; 32]) /\
  exists b, ClientSubnet (mkEDNSOption 8 [0; 1; 20; 0; 192; 0; 32]) = Some (PrefixFrom (Addr4 b) 20, 0) /\
    zlen b = 4 /\
    forall k, 0 <= k < 8 * zlen b -> addrBit b k = addrBit [192; 0; 47; 255] k && (k <? 20).
Proof.
  split; [vm_compute; reflexivity|].
  apply (client_subnet_roundtrip subnetExample 0 (mkEDNSOption 8 [0; 1; 20; 0; 192; 0; 32])).
  - split; [decide_now|]. vm_compute. split; [reflexivity|split; discriminate].
  - vm_compute. reflexivity.
Defined.

Lemma client_subnet_privacy_witness :
  NewClientSubnet subnetExample 0 = NewClientSubnet (PrefixFrom (Addr4 [192; 0; 32; 1]) 20) 0.
Proof.
  apply (client_subnet_privacy subnetExample (PrefixFrom (Addr4 [192; 0; 32; 1]) 20) 0).
  - split; [decide_now|]. vm_compute. split; [reflexivity|split; discriminate].
  - split; [decide_now|]. vm_compute. split; [reflexivity|split; discriminate].
  - reflexivity.
  - reflexivity.
  - intros k Hk. cbn in Hk. assert (k ∈ seqZ 0 20) as Hin by (apply elem_of_seqZ; lia).
    clear Hk. revert k Hin. apply Forall_forall. decide_now.
Defined.

(** ** Error report names *)

(** A label that [joinLabels] and [Parse] carry unchanged. *)
Definition plain (l : bytes) : Prop := Forall (fun c => 33 <= c <= 126 /\ c <> 46 /\ c <> 92 /\ foldByte c = c) l.

Lemma plain_printable l : plain l -> printable l /\ concat (map escapeByte l) = l.
Proof.
  induction 1 as [|c l (Hr & H1 & H2 & Hf) _ [IH1 IH2]]; [by split; [constructor|]|].
  split; [constructor; [unfold u8; lia|done]|]. cbn [map concat]. rewrite IH2. unfold escapeByte.
  replace ((c =? 46) || (c =? 92)) with false by (symmetry; rewrite orb_false_iff; lia).
  by replace ((c <? 33) || (126 <? c)) with false by (symmetry; rewrite orb_false_iff; lia).
Qed.

Lemma parse_join l ls w :
  Forall label_ok (l :: ls) -> Forall plain (l :: ls) -> zlen w + zlen (encLabels (l :: ls)) <= 255 ->
  exists w' label, parse_loop (joinLabels (l :: ls)) w [] = Ok (w', label) /\ label_ok label /\
    flush w' label = Ok (w ++ encLabels (l :: ls)).
Proof.
  revert l w. induction ls as [|k ls IH]; intros l w Hok Hp Hlen.
  - apply Forall_cons in Hok as [Hl _]. apply Forall_cons in Hp as [[Hp He]%plain_printable _].
    exists w, l. cbn [joinLabels map concat]. rewrite encLabels_cons in *. rewrite <- He at 1.
    rewrite parse_escapes by (done || destruct Hl; llia). cbn [parse_loop app].
    split_and!; [done|done|]. rewrite zlen_app in Hlen. pose proof (zlen_nonneg (encLabels [])).
    rewrite flush_ok by (done || lia). by rewrite app_nil_r.
  - apply Forall_cons in Hok as [Hl Hok]. apply Forall_cons in Hp as [[Hp He]%plain_printable Hps].
    rewrite encLabels_cons in *. rewrite zlen_app in Hlen.
    destruct (IH k (w ++ encLabel l) Hok Hps) as (w' & label & E & Hlab & Hf); [rewrite zlen_app; lia|].
    exists w', label. rewrite <- app_assoc in Hf. split_and!; [|done|done]. rewrite <- E.
    assert (joinLabels (l :: k :: ls) = escapeLabel l ++ joinLabels (k :: ls)) as ->.
    { unfold escapeLabel. rewrite He. cbn [joinLabels map concat]. rewrite <- !app_assoc. done. }
    apply parse_escapeLabel; [done|done|]. pose proof (zlen_nonneg (encLabels (k :: ls))). lia.
Qed.

Lemma Parse_join l ls :
  Forall label_ok (l :: ls) -> Forall plain (l :: ls) -> zlen (encName (l :: ls)) <= maxNameLen ->
  Parse (joinLabels (l :: ls)) = Ok (mkName (encName (l :: ls))).
Proof.
  intros Hok Hp Hlen. unfold maxNameLen in Hlen. rewrite zlen_encName in Hlen.
  destruct (parse_join l ls [] Hok Hp) as (w' & label & E & [Hll _] & Hf); [rewrite zlen_nil; lia|].
  assert (1 <= zlen l /\ zlen l <= zlen (joinLabels (l :: ls)) /\ joinLabels (l :: ls) <> [46]) as (H1 & H2 & H3).
  { apply Forall_cons in Hok as [[Hl _] _]. apply Forall_cons in Hp as [Hp _]. cbn [joinLabels]. rewrite zlen_app.
    split_and!; [lia|pose proof (zlen_nonneg (concat (map (cons 46) ls))); lia|].
    destruct Hp as [|c l' (_ & Hc & _) _]; [llia|]. intros [= ? _]. lia. }
  unfold Parse. replace (zlen (joinLabels (l :: ls)) =? 0) with false by (symmetry; lia).
  rewrite bool_decide_eq_false_2 by done. rewrite E. cbn [res_bind].
  replace (0 <? zlen label) with true by (symmetry; lia). rewrite Hf. cbn [res_bind app].
  change (encLabels (l :: ls) ++ [0]) with (encName (l :: ls)). unfold maxNameLen. rewrite zlen_encName.
  by replace (255 <? _) with false by (symmetry; lia).
Qed.

Lemma formatUint_digits fuel v acc :
  0 <= v -> Forall (fun c => 48 <= c <= 57) acc -> (0 < fuel)%nat ->
  Forall (fun c => 48 <= c <= 57) (formatUint_loop fuel v acc) /\
  zlen (formatUint_loop fuel v acc) <= Z.of_nat fuel + zlen acc /\ 1 <= zlen (formatUint_loop fuel v acc).
Proof.
  revert v acc. induction fuel as [|fuel IH]; intros v acc Hv Ha Hf; [lia|]. cbn [formatUint_loop].
  destruct (v <? 10) eqn:E; bool_facts.
  - split_and!; [constructor; [lia|done]|llia|llia].
  - destruct fuel as [|fuel].
    + cbn [formatUint_loop]. split_and!; [constructor; [elia|done]|llia|llia].
    + destruct (IH (v / 10) (48 + v mod 10 :: acc)) as (H1 & H2 & H3); [elia|constructor; [elia|done]|lia|].
      split_and!; [done|llia|done].
Qed.

Lemma FormatUint_label v : 0 <= v -> label_ok (FormatUint v) /\ plain (FormatUint v).
Proof.
  intros Hv. destruct (formatUint_digits 20 v [] Hv) as (Hd & Hl & H1); [constructor|lia|]. fold (FormatUint v) in *.
  split; [split; [llia|]|]; (eapply Forall_impl; [exact Hd|]); intros c Hc; cbn in Hc.
  - unfold u8. lia.
  - unfold foldByte. replace ((65 <=? c) && (c <=? 90)) with false by (symmetry; rewrite andb_false_iff; lia). lia.
Qed.

(** The name of an error report: for a query name and an agent whose labels
    are plain text, the constructed name is exactly
    [_er.<qtype>.<qname>.<info-code>._er.<agent>], label for label, whenever
    that fits a name. *)
Theorem error_report_name qname qls qtype info agent als :
  wf_name qname qls -> qls <> [] -> wf_name agent als -> Forall plain qls -> Forall plain als ->
  0 <= qtype -> 0 <= info ->
  let ls := [er; FormatUint qtype] ++ qls ++ [FormatUint info; er] ++ als in
  zlen (encName ls) <= maxNameLen ->
  exists n, BuildErrorReportName qname qtype info agent = Ok n /\ Labels n = ls.
Proof.
  intros Hq Hne Ha Pq Pa Hqt Hi ls Hlen. exists (mkName (encName ls)).
  destruct (FormatUint_label qtype Hqt) as [T1 T2], (FormatUint_label info Hi) as [I1 I2].
  assert (label_ok er /\ plain er) as [E1 E2] by (split; [split; [vm_compute; split; discriminate|decide_now]|decide_now]).
  pose proof Hq as (_ & Oq & _). pose proof Ha as (_ & Oa & _).
  assert (Forall label_ok ls) as Hok by (subst ls; rewrite !Forall_app, !Forall_cons; done).
  assert (Forall plain ls) as Hpl by (subst ls; rewrite !Forall_app, !Forall_cons; done).
  split; [|by apply Labels_wf; split].
  unfold BuildErrorReportName. rewrite (wf_valid _ _ Hq), (wf_valid _ _ Ha), (Labels_wf _ _ Hq), (Labels_wf _ _ Ha).
  destruct (IsRoot qname) eqn:E; [by apply (IsRoot_wf _ _ Hq) in E|]. cbn [negb orb]. by apply Parse_join.
Qed.

(** www.example, type A, DNSSEC bogus, reported to agent.test. *)
Lemma error_report_name_witness :
  let q := mkName (encName [[119; 119; 119]; [101; 120]]) in
  let a := mkName (encName [[97; 103]; [116]]) in
  exists n, BuildErrorReportName q 1 6 a = Ok n /\
    Labels n = [er; [49]; [119; 119; 119]; [101; 120]; [54]; er; [97; 103]; [116]].
Proof.
  apply (error_report_name _ [[119; 119; 119]; [101; 120]] 1 6 _ [[97; 103]; [116]]);
    [split; [reflexivity|decide_now]|discriminate|split; [reflexivity|decide_now]|decide_now|decide_now|lia|lia|].
  vm_compute. discriminate.
Defined.

(** The labels are joined without escaping, so a label that contains a dot is
    read back as two: reports about two different query names go to the same
    name. *)
Theorem error_report_name_unescaped :
  exists q1 q2 agent n,
    canonical q1 /\ canonical q2 /\ Equal q1 q2 = false /\ canonical agent /\
    BuildErrorReportName q1 1 6 agent = Ok n /\ BuildErrorReportName q2 1 6 agent = Ok n.
Proof.
  exists (mkName (encName [[97; 46; 98]])), (mkName (encName [[97]; [98]])), (mkName (encName [[116]])).
  eexists. split_and!.
  - exists [[97; 46; 98]]. split; [split; [reflexivity|decide_now]|decide_now].
  - exists [[97]; [98]]. split; [split; [reflexivity|decide_now]|decide_now].
  - vm_compute. reflexivity.
  - exists [[116]]. split; [split; [reflexivity|decide_now]|decide_now].
  - vm_compute. reflexivity.
  - vm_compute. reflexivity.
Qed.
