(* ===== verification/Padding.v ===== *)
(** * Padding of queries on encrypted transports (src/wire/edns_padding.go)

    [PadEncrypted] rebuilds a message with a Padding option so that its wire
    form fills whole blocks of 128 octets. *)

From S2P Require Import Prelude Name Wire RData RDataCodec TypeBitmap.
From S2P Require Import RDataRoundtrip RDataNew Message MessageRoundtrip Reader.
From S2P Require Import RDataReads MessageReads MessageOps EdnsOptions.

Definition paddingBlock : Z := 128.

(** The EDNS values [PadEncrypted] starts from: the message's, or the defaults. *)
Definition baseEDNS (m : Message) : EDNS := if hasEDNS m then edns m else mkEDNS 1232 0 0 false [].

Definition hasPadding (m : Message) : bool :=
  hasEDNS m && existsb (fun o => code o =? EDNSOptionPadding) (opts (edns m)).

(** The builder after [ID], [Flags] and the four section loops of [build]. *)
Definition fillSections (m : Message) : MessageBuilder.t :=
  let b := MessageBuilder.NewMessageBuilder |> MessageBuilder.ID (id m) |> MessageBuilder.Flags_ (flags m) in
  let b := fold_left (fun b q => MessageBuilder.Question_ q b) (questions m) b in
  let b := fold_left (fun b r => MessageBuilder.Answer r b) (answers m) b in
  let b := fold_left (fun b r => MessageBuilder.Authority r b) (authorities m) b in
  fold_left (fun b r => MessageBuilder.Additional r b) (additionals m) b.

(** The closure [build]. *)
Definition build (m : Message) (padBytes : Z) : res (Message * bytes) :=
  let base := baseEDNS m in
  let eb := EDNSBuilder.NewEDNSBuilder |> EDNSBuilder.UDPSize (udpSize base)
              |> EDNSBuilder.ExtendedRCODE (extRCODE base) |> EDNSBuilder.Version (version base)
              |> EDNSBuilder.DO (do_ base) in
  let eb := fold_left (fun eb o => EDNSBuilder.Option o eb) (opts base) eb in
  let? pad := NewEDNSOption EDNSOptionPadding (replicate (Z.to_nat padBytes) 0) in
  let eb := EDNSBuilder.Option pad eb in
  let b := fillSections m in
  let? ed := fst (EDNSBuilder.Build eb) in
  let b := MessageBuilder.EDNS_ ed b in
  let? msg := fst (MessageBuilder.Build b) in
  let? buf := Pack msg in
  Ok (msg, buf).

Definition PadEncrypted (m : Message) : Message :=
  if hasPadding m then m
  else
    match build m 0 with
    | Err _ => m
    | Ok (_, buf0) =>
        let rem := zlen buf0 mod paddingBlock in
        let n := if rem =? 0 then 0 else paddingBlock - rem in
        match build m n with
        | Err _ => m
        | Ok (msg, _) => msg
        end
    end.

(** ** What the builders assemble *)

(** [m] with a Padding option of [n] octets after its own options. *)
Definition padWith (m : Message) (n : Z) : Message :=
  let base := baseEDNS m in
  mkMessage (id m) (flags m) (questions m) (answers m) (authorities m) (additionals m)
    (mkEDNS (udpSize base) (extRCODE base) (version base) (do_ base)
       (opts base ++ [mkEDNSOption EDNSOptionPadding (replicate (Z.to_nat n) 0)])) true.

Definition nonzero (m : Message) : Prop :=
  Forall (fun r => IsZero r = false) (answers m ++ authorities m ++ additionals m).

Lemma fold_Option os eb :
  fold_left (fun eb o => EDNSBuilder.Option o eb) os eb =
  mkEDNS (udpSize eb) (extRCODE eb) (version eb) (do_ eb) (opts eb ++ os).
Proof.
  revert eb. induction os as [|o os IH]; intros eb; cbn [fold_left].
  - destruct eb. cbn. by rewrite app_nil_r.
  - rewrite IH. cbn. by rewrite <- app_assoc.
Qed.

Section build.
Import MessageBuilder.

Lemma fold_Question qs b :
  fold_left (fun b q => Question_ q b) qs b =
  upd (fun m => mkMessage (id m) (flags m) (questions m ++ qs) (answers m) (authorities m) (additionals m) (edns m) (hasEDNS m)) b.
Proof.
  revert b. induction qs as [|q qs IH]; intros [m e]; cbn [fold_left].
  - destruct m. cbn. unfold upd. cbn. by rewrite app_nil_r.
  - rewrite IH. unfold upd. cbn. by rewrite <- app_assoc.
Qed.

(** The three section methods have the same shape. *)
Definition extAnswers (rs : list Record_) (m : Message) : Message :=
  mkMessage (id m) (flags m) (questions m) (answers m ++ rs) (authorities m) (additionals m) (edns m) (hasEDNS m).
Definition extAuthorities (rs : list Record_) (m : Message) : Message :=
  mkMessage (id m) (flags m) (questions m) (answers m) (authorities m ++ rs) (additionals m) (edns m) (hasEDNS m).
Definition extAdditionals (rs : list Record_) (m : Message) : Message :=
  mkMessage (id m) (flags m) (questions m) (answers m) (authorities m) (additionals m ++ rs) (edns m) (hasEDNS m).

Record section_add (add : Record_ -> t -> t) (ext : list Record_ -> Message -> Message) : Prop := {
  add_eq r b : add r b = if IsZero r then setErr ErrPlain b else upd (ext [r]) b;
  ext_nil m : ext [] m = m;
  ext_app a c m : ext c (ext a m) = ext (a ++ c) m }.

Lemma add_Answer : section_add Answer extAnswers.
Proof.
  split; [done| |]; [intros []|intros a c []]; unfold extAnswers; cbn; by rewrite ?app_nil_r, ?app_assoc.
Qed.
Lemma add_Authority : section_add Authority extAuthorities.
Proof.
  split; [done| |]; [intros []|intros a c []]; unfold extAuthorities; cbn; by rewrite ?app_nil_r, ?app_assoc.
Qed.
Lemma add_Additional : section_add Additional extAdditionals.
Proof.
  split; [done| |]; [intros []|intros a c []]; unfold extAdditionals; cbn; by rewrite ?app_nil_r, ?app_assoc.
Qed.

Lemma fold_sticky add ext rs b e :
  section_add add ext -> err b = Some e -> err (fold_left (fun b r => add r b) rs b) = Some e.
Proof.
  intros Ha. revert b. induction rs as [|r rs IH]; intros b Hb; [done|]. cbn [fold_left]. apply IH.
  rewrite (add_eq _ _ Ha). destruct (IsZero r); [unfold setErr; by rewrite Hb|done].
Qed.

(** A section's loop: all records without an error, or no record was zero. *)
Lemma fold_section add ext rs b :
  section_add add ext -> err b = None ->
  (Forall (fun r => IsZero r = false) rs -> fold_left (fun b r => add r b) rs b = upd (ext rs) b) /\
  (err (fold_left (fun b r => add r b) rs b) = None -> Forall (fun r => IsZero r = false) rs).
Proof.
  intros Ha. revert b. induction rs as [|r rs IH]; intros b Hb; cbn [fold_left].
  { split; [|by constructor]. intros _. destruct b. unfold upd. cbn. by rewrite (ext_nil _ _ Ha). }
  rewrite (add_eq _ _ Ha). destruct (IsZero r) eqn:E.
  - split; [intros H; apply Forall_cons in H as [H _]; congruence|].
    rewrite (fold_sticky _ _ _ _ ErrPlain Ha) by (unfold setErr; by rewrite Hb). done.
  - destruct (IH (upd (ext [r]) b) Hb) as [H1 H2]. split.
    + intros [_ H]%Forall_cons. rewrite H1 by done. unfold upd. cbn. by rewrite (ext_app _ _ Ha).
    + intros H. constructor; [done|by apply H2].
Qed.

End build.

(** The sections arrive unchanged, or a zero record leaves an error. *)
Lemma fillSections_spec m :
  (nonzero m -> fillSections m = MessageBuilder.mk (mkMessage (id m) (flags m) (questions m) (answers m)
     (authorities m) (additionals m) zeroEDNS false) None) /\
  (MessageBuilder.err (fillSections m) = None -> nonzero m).
Proof.
  unfold fillSections, nonzero. rewrite fold_Question, !Forall_app. cbv zeta.
  set (b0 := MessageBuilder.upd _ _).
  destruct (fold_section _ _ (answers m) b0 add_Answer eq_refl) as [A1 A2]. set (b1 := fold_left _ (answers m) b0) in *.
  split.
  - intros (Ha & Hu & Hd). rewrite (A1 Ha).
    pose proof (fun b H => proj1 (fold_section _ _ (authorities m) b add_Authority H) Hu) as U1.
    pose proof (fun b H => proj1 (fold_section _ _ (additionals m) b add_Additional H) Hd) as D1.
    rewrite U1 by reflexivity. by rewrite D1 by reflexivity.
  - intros H. destruct (MessageBuilder.err b1) as [e|] eqn:E1.
    { by rewrite (fold_sticky _ _ _ _ e add_Additional) in H by (by apply (fold_sticky _ _ _ _ _ add_Authority)). }
    destruct (fold_section _ _ (authorities m) b1 add_Authority E1) as [_ U2].
    set (b2 := fold_left _ (authorities m) b1) in *. destruct (MessageBuilder.err b2) as [e|] eqn:E2.
    { by rewrite (fold_sticky _ _ _ _ e add_Additional) in H. }
    destruct (fold_section _ _ (additionals m) b2 add_Additional E2) as [_ D2].
    split_and!; [by apply A2|by apply U2|by apply D2].
Qed.

Lemma dupCode_NoDup l : EDNSBuilder.dupCode ∅ l = false <-> NoDup (map code l).
Proof.
  rewrite dupCode_spec. split; [by intros [? _]|]. intros H. split; [done|]. intros o _. apply not_elem_of_empty.
Qed.

Lemma build_spec m n msg buf :
  0 <= n <= 0xffff ->
  build m n = Ok (msg, buf) <->
  nonzero m /\ NoDup (map code (opts (edns (padWith m n)))) /\ msg = padWith m n /\ Pack msg = Ok buf.
Proof.
  intros Hn. destruct (fillSections_spec m) as [F1 F2]. unfold build. cbv zeta. rewrite fold_Option.
  unfold NewEDNSOption. replace (_ <? _) with false
    by (symmetry; apply Z.ltb_ge; unfold zlen; rewrite length_replicate; lia). cbn [res_bind].
  match goal with |- context [EDNSBuilder.Build ?e] => change e with (edns (padWith m n)) end.
  unfold EDNSBuilder.Build. rewrite <- dupCode_NoDup.
  destruct (EDNSBuilder.dupCode ∅ _) eqn:Ed; cbn [fst res_bind]; [split; [done|by intros (_ & ? & _)]|].
  unfold MessageBuilder.Build, MessageBuilder.EDNS_, MessageBuilder.upd. cbn [MessageBuilder.err MessageBuilder.msg].
  destruct (MessageBuilder.err (fillSections m)) as [e|] eqn:E; cbn [fst res_bind].
  { split; [done|]. intros (Hz & _). rewrite (F1 Hz) in E. done. }
  rewrite (F1 (F2 eq_refl)). cbn [MessageBuilder.msg id flags questions answers authorities additionals].
  change (mkMessage _ _ _ _ _ _ (edns (padWith m n)) true) with (padWith m n). split.
  - intros (b & Hb & H)%res_bind_Ok. injection H as <- <-. split_and!; [by apply F2|done|done|done].
  - intros (_ & _ & -> & Hb). by rewrite Hb.
Qed.

(** ** The length of a padded message *)

Definition optsLen (os : list EDNSOption) : Z := fold_right (fun o n => 4 + zlen (optData o) + n) 0 os.

Lemma optsLen_app a b : optsLen (a ++ b) = optsLen a + optsLen b.
Proof. induction a as [|o a IH]; [done|]. cbn [optsLen fold_right app] in *. fold (optsLen a) (optsLen (a ++ b)) in *. lia. Qed.

Lemma fold_packOption_len os p :
  zlen (Packer.buf (fold_left (fun p o => packOption o p) os p)) = zlen (Packer.buf p) + optsLen os.
Proof.
  revert p. induction os as [|o os IH]; intros p; cbn [fold_left optsLen fold_right]; [lia|].
  fold (optsLen os). rewrite IH. cbn. llia.
Qed.

Lemma packOPT_len e p :
  match packOPT e p with
  | Ok p' => optsLen (opts e) <= 0xffff /\ zlen (Packer.buf p') = zlen (Packer.buf p) + 11 + optsLen (opts e)
  | Err _ => 0xffff < optsLen (opts e)
  end.
Proof.
  unfold packOPT. cbv zeta. unfold Packer.Len. rewrite !fold_packOption_len.
  match goal with |- context [?a + ?b - ?a] => replace (a + b - a) with b by lia end.
  destruct (_ <? _) eqn:E; bool_facts; [done|]. split; [done|].
  unfold patch16. cbn [Packer.buf]. unfold zlen at 1. rewrite !length_insert. fold (zlen (Packer.buf (fold_left (fun p o => packOption o p) (opts e)
    (Packer.Uint16 0 (Packer.Uint32 (optTTL e) (Packer.Uint16 (udpSize e) (Packer.Uint16 optTypeWire (Packer.Uint8 0 p)))))))).
  rewrite fold_packOption_len. cbn. llia.
Qed.

(** Padding by [n] more octets lengthens the message by [n]. *)
Lemma Pack_padWith m n b0 :
  0 <= n -> Pack (padWith m 0) = Ok b0 ->
  match Pack (padWith m n) with Ok b => zlen b = zlen b0 + n | Err _ => 0xffff < zlen b0 + n end.
Proof.
  intros Hn H. unfold Pack in *. cbn [padWith questions answers authorities additionals hasEDNS edns] in *.
  destruct (_ || _ || _ || _); [done|].
  change (packHeader (padWith m n)) with (packHeader (padWith m 0)).
  apply res_bind_Ok in H as (p1 & E1 & H). rewrite E1. apply res_bind_Ok in H as (p2 & E2 & H). cbn [res_bind]. rewrite E2.
  apply res_bind_Ok in H as (p3 & E3 & H). cbn [res_bind]. rewrite E3. cbn [res_bind].
  apply res_bind_Ok in H as (p4 & E4 & H). destruct (_ <? _) eqn:E in H; [done|]. injection H as <-. bool_facts.
  set (e0 := mkEDNS _ _ _ _ _) in E4. set (e := mkEDNS _ _ _ _ _).
  assert (optsLen (opts e) = optsLen (opts e0) + n) as He.
  { subst e e0. cbn [opts]. rewrite !optsLen_app. cbn [optsLen fold_right optData]. unfold zlen.
    rewrite !length_replicate. lia. }
  pose proof (packOPT_len e0 p3) as L0. rewrite E4 in L0. destruct L0 as [_ L0].
  pose proof (packOPT_len e p3) as L. pose proof (zlen_nonneg (Packer.buf p3)).
  destruct (packOPT e p3) as [p5|?]; cbn [res_bind]; [|lia]. destruct L as [_ L].
  destruct (_ <? _) eqn:E5; bool_facts; lia.
Qed.

Definition padLen (b0 : bytes) : Z :=
  let rem := zlen b0 mod paddingBlock in if rem =? 0 then 0 else paddingBlock - rem.

Lemma padLen_spec b0 : 0 <= padLen b0 < paddingBlock /\ (zlen b0 + padLen b0) mod paddingBlock = 0.
Proof. unfold padLen, paddingBlock. cbv zeta. destruct (_ =? _) eqn:E; bool_facts; elia. Qed.

(** ** The claim *)

(** Padding for encrypted transports (RFC 8467): a message that already has
    a Padding option is left alone; otherwise [PadEncrypted] returns the
    message itself or the message with a Padding option of fewer than 128 zero
    octets after its own EDNS options, every section, the ID, the flags and
    the EDNS fields unchanged, whose wire form is a multiple of 128 octets.
    The second is what happens to every message that can be packed with room
    for the padding, has no zero record and no repeated option. *)
Theorem pad_encrypted_block m :
  (hasPadding m = true -> PadEncrypted m = m) /\
  (PadEncrypted m = m \/ exists n b, 0 <= n < paddingBlock /\
     PadEncrypted m = padWith m n /\ Pack (padWith m n) = Ok b /\ zlen b mod paddingBlock = 0) /\
  (forall b0, hasPadding m = false -> nonzero m -> NoDup (map code (opts (baseEDNS m))) ->
     Pack (padWith m 0) = Ok b0 -> zlen b0 + paddingBlock <= 0xffff ->
     exists n b, 0 <= n < paddingBlock /\
       PadEncrypted m = padWith m n /\ Pack (padWith m n) = Ok b /\ zlen b mod paddingBlock = 0).
Proof.
  assert (forall b0 b, Pack (padWith m 0) = Ok b0 -> Pack (padWith m (padLen b0)) = Ok b ->
    zlen b mod paddingBlock = 0) as Hmod.
  { intros b0 b H0 H. destruct (padLen_spec b0) as [Hp Hm]. pose proof (Pack_padWith m (padLen b0) b0 ltac:(lia) H0) as Hl.
    rewrite H in Hl. by rewrite Hl. }
  unfold PadEncrypted. split_and!.
  - by intros ->.
  - destruct (hasPadding m); [by left|]. destruct (build m 0) as [[m0 b0]|] eqn:E0; [|by left].
    apply build_spec in E0 as (_ & _ & -> & H0); [|lia]. fold (padLen b0). destruct (padLen_spec b0) as [Hp _].
    destruct (build m (padLen b0)) as [[m1 b]|] eqn:E1; [right|by left].
    apply build_spec in E1 as (_ & _ & -> & H1); [|unfold paddingBlock in *; lia].
    exists (padLen b0), b. split_and!; (done || lia || by eapply Hmod).
  - intros b0 Hpad Hz Hnd H0 Hroom. rewrite Hpad. destruct (padLen_spec b0) as [Hp _].
    assert (forall n, NoDup (map code (opts (edns (padWith m n))))) as Hcodes.
    { intros n. cbn [padWith edns opts]. rewrite map_app. apply NoDup_app. split_and!; [done| |apply NoDup_singleton].
      intros c Hc ->%list_elem_of_singleton. revert Hpad. unfold hasPadding, baseEDNS in *.
      destruct (hasEDNS m); [|by apply not_elem_of_nil in Hc]. cbn [andb]. apply not_false_iff_true.
      apply existsb_exists. change (map code (opts (edns m))) with (code <$> opts (edns m)) in Hc.
      apply list_elem_of_fmap in Hc as (o & Eo & Ho). exists o. split; [by apply list_elem_of_In|].
      rewrite <- Eo. apply Z.eqb_refl. }
    rewrite (proj2 (build_spec m 0 (padWith m 0) b0 ltac:(lia))) by done. fold (padLen b0).
    pose proof (Pack_padWith m (padLen b0) b0 ltac:(lia) H0) as Hl.
    destruct (Pack (padWith m (padLen b0))) as [b|] eqn:Eb; [|lia].
    rewrite (proj2 (build_spec m (padLen b0) (padWith m (padLen b0)) b ltac:(unfold paddingBlock in *; lia))) by done.
    exists (padLen b0), b. split_and!; (done || lia || by eapply Hmod).
Qed.

(** A bare query for the root's NS records: 12 + 5 + 11 + 4 octets, padded by 96. *)
Lemma pad_encrypted_block_witness :
  let q := mkMessage 7 256 [NewQuestion Root rrtype.NS] [] [] [] zeroEDNS false in
  exists n b, 0 <= n < paddingBlock /\
    PadEncrypted q = padWith q n /\ Pack (padWith q n) = Ok b /\ zlen b mod paddingBlock = 0.
Proof.
  intros q. destruct (pad_encrypted_block q) as (_ & _ & H). eapply H.
  - reflexivity.
  - constructor.
  - constructor.
  - vm_compute. reflexivity.
  - vm_compute. discriminate.
Defined.
