(* ===== verification/Compare.v ===== *)
(** * Ordering and comparison of records and messages (src/wire/compare.go)

    [slices.SortFunc] of the Go standard library is an interface: any
    function that permutes its argument into ascending order, not necessarily
    stable.  The theorems hold for every such function. *)

From Stdlib Require Import Sorting.Sorted Permutation.
From S2P Require Import Prelude Name Wire RData RDataNew Message.

(** ** Comparison functions *)

(** A strict weak ordering given by a three-way comparison. *)
Record weak_order {A} (cmp : A -> A -> Z) : Prop := {
  cmp_refl x : cmp x x = 0;
  cmp_flip x y : cmp x y <= 0 <-> 0 <= cmp y x;
  cmp_trans x y z : cmp x y <= 0 -> cmp y z <= 0 -> cmp x z <= 0 }.
Arguments cmp_refl {A cmp} _.
Arguments cmp_flip {A cmp} _.
Arguments cmp_trans {A cmp} _.

(** [slices.SortFunc] *)
Class SortFunc := {
  sortFunc {A} (cmp : A -> A -> Z) : list A -> list A;
  sortFunc_perm {A} (cmp : A -> A -> Z) l : weak_order cmp -> sortFunc cmp l ≡ₚ l;
  sortFunc_sorted {A} (cmp : A -> A -> Z) l :
    weak_order cmp -> StronglySorted (fun x y => cmp x y <= 0) (sortFunc cmp l) }.

(** [bytes.Compare] *)
Fixpoint cmpBytes (a b : bytes) : Z :=
  match a, b with
  | [], [] => 0
  | [], _ => -1
  | _, [] => 1
  | x :: a, y :: b => if x <? y then -1 else if y <? x then 1 else cmpBytes a b
  end.
Definition cmpZ (x y : Z) : Z := if x =? y then 0 else if x <? y then -1 else 1.

(** First by one comparison, then by another. *)
Definition thenBy {A} (c1 c2 : A -> A -> Z) (x y : A) : Z :=
  if c1 x y =? 0 then c2 x y else c1 x y.
Definition on {A B} (f : A -> B) (c : B -> B -> Z) (x y : A) : Z := c (f x) (f y).

(** ** compare.go *)

(** [rdata.Pack(r.RData())]; of a zero record, which has no payload, the call
    panics: the theorems exclude it. *)
Definition rdataBytes (r : Record_) : bytes :=
  match r_rd r with Some rd => PackBytes rd | None => [] end.

Definition compareRecords : Record_ -> Record_ -> Z :=
  thenBy (on (fun r => AppendWire (r_name r) []) cmpBytes)
    (thenBy (on RType cmpZ) (thenBy (on r_class cmpZ) (on rdataBytes cmpBytes))).

Definition questionsEqual (a b : list Question) : bool :=
  (zlen a =? zlen b) &&
  forallb (fun '(x, y) => Equal (q_name x) (q_name y) && (q_typ x =? q_typ y) && (q_class x =? q_class y))
    (combine a b).
Definition QuestionsMatch (a b : Message) : bool := questionsEqual (questions a) (questions b).

Definition recordEqual (a b : Record_) : bool :=
  if negb (Equal (r_name a) (r_name b)) || negb (RType a =? RType b) || negb (r_class a =? r_class b) then false
  else if negb (r_ttl a =? r_ttl b) then false
  else bool_decide (rdataBytes a = rdataBytes b).

Definition compareOptions : EDNSOption -> EDNSOption -> Z := thenBy (on code cmpZ) (on optData cmpBytes).
Definition optionEqual (x y : EDNSOption) : bool := (code x =? code y) && bool_decide (optData x = optData y).

Section sorting.
Context {sorter : SortFunc}.

Definition SortRecords (s : list Record_) : list Record_ := sortFunc compareRecords s.

Definition recordsSectionEqual (a b : list Record_) : bool :=
  (zlen a =? zlen b) &&
  forallb (fun '(x, y) => recordEqual x y) (combine (SortRecords a) (SortRecords b)).

Definition keyed (os : list EDNSOption) : list EDNSOption := sortFunc compareOptions os.

Definition ednsEqual (a b : Message) : bool :=
  if negb (Bool.eqb (hasEDNS a) (hasEDNS b)) then false
  else if negb (hasEDNS a) then true
  else
    let ea := edns a in let eb := edns b in
    if negb (udpSize ea =? udpSize eb) || negb (extRCODE ea =? extRCODE eb) ||
       negb (version ea =? version eb) || negb (Bool.eqb (do_ ea) (do_ eb)) then false
    else (zlen (opts ea) =? zlen (opts eb)) &&
         forallb (fun '(x, y) => optionEqual x y) (combine (keyed (opts ea)) (keyed (opts eb))).

Definition MessageEqual (a b : Message) : bool :=
  if negb (id a =? id b) || negb (flags a =? flags b) then false
  else if negb (questionsEqual (questions a) (questions b)) then false
  else if negb (recordsSectionEqual (answers a) (answers b))
       || negb (recordsSectionEqual (authorities a) (authorities b))
       || negb (recordsSectionEqual (additionals a) (additionals b)) then false
  else ednsEqual a b.

End sorting.

(** ** The comparisons are orders *)

Lemma weak_on {A B} (f : A -> B) c : weak_order c -> weak_order (on f c).
Proof. intros [H1 H2 H3]. split; unfold on; eauto. Qed.

Lemma weak_thenBy {A} (c1 c2 : A -> A -> Z) : weak_order c1 -> weak_order c2 -> weak_order (thenBy c1 c2).
Proof.
  intros H1 H2.
  assert (forall x y, c1 x y = 0 <-> c1 y x = 0) as H0.
  { intros x y. pose proof (cmp_flip H1 x y). pose proof (cmp_flip H1 y x). lia. }
  split; unfold thenBy.
  - intros x. by rewrite (cmp_refl H1), Z.eqb_refl, (cmp_refl H2).
  - intros x y. pose proof (cmp_flip H1 x y). pose proof (cmp_flip H1 y x). pose proof (cmp_flip H2 x y).
    specialize (H0 x y). destruct (c1 x y =? 0) eqn:E, (c1 y x =? 0) eqn:E'; bool_facts; lia.
  - intros x y z. pose proof (cmp_trans H1 x y z) as T. pose proof (cmp_trans H1 z y x) as T'.
    pose proof (cmp_trans H1 y z x) as T2. pose proof (cmp_trans H1 z x y) as T3.
    pose proof (cmp_trans H2 x y z). pose proof (cmp_flip H1 x y). pose proof (cmp_flip H1 y x).
    pose proof (cmp_flip H1 y z). pose proof (cmp_flip H1 z y). pose proof (cmp_flip H1 x z). pose proof (cmp_flip H1 z x).
    destruct (c1 x y =? 0) eqn:E1, (c1 y z =? 0) eqn:E2, (c1 x z =? 0) eqn:E3; bool_facts; lia.
Qed.

Lemma weak_cmpZ : weak_order cmpZ.
Proof.
  split; unfold cmpZ; intros; repeat split_if; bool_facts; lia.
Qed.

Lemma cmpBytes_eq a b : cmpBytes a b = 0 <-> a = b.
Proof.
  revert b. induction a as [|x a IH]; intros [|y b]; cbn [cmpBytes]; try done.
  repeat split_if; bool_facts; split; try done; try (intros [= -> ->]; lia).
  - intros H%IH. subst. f_equal. lia.
  - intros [= -> ->]. by apply IH.
Qed.

Lemma cmpBytes_flip a b : cmpBytes a b = - cmpBytes b a.
Proof.
  revert b. induction a as [|x a IH]; intros [|y b]; cbn [cmpBytes]; try done.
  rewrite IH. repeat split_if; bool_facts; lia.
Qed.

Lemma weak_cmpBytes : weak_order cmpBytes.
Proof.
  split.
  - intros x. by apply cmpBytes_eq.
  - intros x y. rewrite cmpBytes_flip. lia.
  - intros x. induction x as [|a x IH]; intros [|b y] [|c z]; cbn [cmpBytes]; try lia.
    specialize (IH y z). repeat split_if; bool_facts; lia.
Qed.
#[export] Hint Resolve weak_on weak_thenBy weak_cmpZ weak_cmpBytes : wire.

Lemma weak_compareRecords : weak_order compareRecords.
Proof. unfold compareRecords. eauto 10 with wire. Qed.
Lemma weak_compareOptions : weak_order compareOptions.
Proof. unfold compareOptions. eauto with wire. Qed.

Lemma cmpZ_eq x y : cmpZ x y = 0 <-> x = y.
Proof. unfold cmpZ. repeat split_if; bool_facts; lia. Qed.

Lemma thenBy_eq {A} (c1 c2 : A -> A -> Z) x y : thenBy c1 c2 x y = 0 <-> c1 x y = 0 /\ c2 x y = 0.
Proof. unfold thenBy. split_if; bool_facts; lia. Qed.

(** What the comparison of records looks at. *)
Definition sortKey (r : Record_) : bytes * Z * Z * bytes :=
  (AppendWire (r_name r) [], RType r, r_class r, rdataBytes r).

Lemma compareRecords_eq a b : compareRecords a b = 0 <-> sortKey a = sortKey b.
Proof.
  unfold compareRecords, sortKey. rewrite !thenBy_eq. unfold on. rewrite !cmpBytes_eq, !cmpZ_eq.
  split; [intros (-> & -> & -> & ->); done|intros [= -> -> -> ->]; done].
Qed.

Lemma compareOptions_eq a b : compareOptions a b = 0 <-> a = b.
Proof.
  unfold compareOptions. rewrite !thenBy_eq. unfold on. rewrite cmpBytes_eq, cmpZ_eq.
  destruct a, b; cbn. split; [by intros (-> & ->)|by intros [= -> ->]].
Qed.

(** ** Sorted permutations *)

Lemma sorted_head {A B} (cmp : A -> A -> Z) (f : A -> B) x l y :
  weak_order cmp -> (forall x y, f x = f y -> cmp x y = 0) ->
  Forall (fun z => cmp x z <= 0) l -> f y ∈ map f (x :: l) -> cmp x y <= 0.
Proof.
  intros Hw Hf Hx Hy. apply (list_elem_of_fmap f (x :: l)) in Hy as (z & Ez & Hz). apply elem_of_cons in Hz as [->|Hz].
  - rewrite (Hf x y) by done. lia.
  - apply (cmp_trans Hw x z y); [rewrite Forall_forall in Hx; by apply Hx|]. rewrite (Hf z y) by done. lia.
Qed.

(** Two sorted lists with the same elements, up to what the order can tell
    apart in the first, are the same list. *)
Lemma sorted_key_unique {A B} (cmp : A -> A -> Z) (f : A -> B) l k :
  weak_order cmp -> (forall x y, f x = f y -> cmp x y = 0) ->
  (forall x y, x ∈ l -> y ∈ l -> cmp x y = 0 -> f x = f y) ->
  StronglySorted (fun x y => cmp x y <= 0) l -> StronglySorted (fun x y => cmp x y <= 0) k ->
  map f l ≡ₚ map f k -> map f l = map f k.
Proof.
  intros Hw Hf Hl0 Hl. revert k. induction Hl as [|x l Hl IH Hx]; intros [|y k] Hk Hp; try done.
  1, 2: by apply Permutation_length in Hp.
  apply StronglySorted_inv in Hk as [Hk Hy].
  assert (cmp x y <= 0) as H1 by (apply (sorted_head cmp f x l y Hw Hf Hx); rewrite Hp; left).
  assert (cmp y x <= 0) as H2 by (apply (sorted_head cmp f y k x Hw Hf Hy); rewrite <- Hp; left).
  assert (f x = f y) as E.
  { assert (f y ∈ map f (x :: l)) as Hin by (rewrite Hp; left).
    apply (list_elem_of_fmap f (x :: l)) in Hin as (z & Ez & Hz). rewrite Ez. apply Hl0; [left|done|].
    pose proof (Hf z y (eq_sym Ez)). pose proof (cmp_trans Hw x y z). pose proof (cmp_trans Hw z y x).
    pose proof (cmp_flip Hw x z). pose proof (cmp_flip Hw z x). pose proof (cmp_flip Hw y z). pose proof (cmp_flip Hw z y). lia. }
  cbn [map] in *. rewrite E in *. f_equal. apply IH; [|done|by apply Permutation_cons_inv in Hp].
  intros a b Ha Hb. apply Hl0; by right.
Qed.

(** ** Pointwise comparison *)

Lemma forallb_combine {A} (eqf : A -> A -> bool) l k :
  length l = length k -> forallb (fun '(x, y) => eqf x y) (combine l k) = true <-> Forall2 (fun x y => eqf x y = true) l k.
Proof.
  revert k. induction l as [|x l IH]; intros [|y k] H; try done; cbn [combine forallb].
  rewrite andb_true_iff, IH by (cbn in H; lia). split; [by intros [? ?]; constructor|by intros [? ?]%Forall2_cons].
Qed.

Lemma Forall2_map_eq {A B} (f : A -> B) l k : Forall2 (fun x y => f x = f y) l k <-> map f l = map f k.
Proof.
  split; [induction 1; cbn; congruence|]. revert k. induction l as [|x l IH]; intros [|y k] H; try done.
  injection H as ? ?. constructor; [done|by apply IH].
Qed.

(** What [recordEqual] looks at. *)
Definition fullKey (r : Record_) : bytes * Z * Z * Z * bytes :=
  (wire (r_name r), RType r, r_class r, r_ttl r, rdataBytes r).

Lemma recordEqual_key a b : recordEqual a b = true <-> fullKey a = fullKey b.
Proof.
  unfold recordEqual, fullKey, Equal. destruct (bool_decide (wire _ = _)) eqn:E1; cbn [negb orb].
  2: { apply bool_decide_eq_false in E1. split; [done|]. by intros [= ? _ _ _ _]. }
  apply bool_decide_eq_true in E1. rewrite E1.
  destruct (RType a =? RType b) eqn:E2, (r_class a =? r_class b) eqn:E3, (r_ttl a =? r_ttl b) eqn:E4;
    cbn [negb orb]; bool_facts; rewrite ?bool_decide_eq_true; split; try done; try congruence.
Qed.

Lemma optionEqual_eq x y : optionEqual x y = true <-> x = y.
Proof.
  unfold optionEqual. rewrite andb_true_iff, Z.eqb_eq, bool_decide_eq_true. destruct x, y; cbn.
  split; [by intros [-> ->]|by intros [= -> ->]].
Qed.

Section properties.
Context {sorter : SortFunc}.

Lemma SortRecords_perm s : SortRecords s ≡ₚ s.
Proof. apply sortFunc_perm, weak_compareRecords. Qed.
Lemma SortRecords_sorted s : StronglySorted (fun x y => compareRecords x y <= 0) (SortRecords s).
Proof. apply sortFunc_sorted, weak_compareRecords. Qed.

(** Equal sections are equal pointwise once sorted. *)
Lemma recordsSectionEqual_sorted a b :
  recordsSectionEqual a b = true <-> map fullKey (SortRecords a) = map fullKey (SortRecords b).
Proof.
  unfold recordsSectionEqual. rewrite andb_true_iff, Z.eqb_eq.
  pose proof (Permutation_length (SortRecords_perm a)) as La. pose proof (Permutation_length (SortRecords_perm b)) as Lb.
  unfold zlen. split.
  - intros [Hl H]. apply forallb_combine in H; [|lia]. apply Forall2_map_eq.
    eapply Forall2_impl; [exact H|]. intros x y. apply recordEqual_key.
  - intros H. pose proof (f_equal length H) as Hl. rewrite !length_map in Hl. split; [lia|].
    apply forallb_combine; [done|]. apply Forall2_map_eq in H.
    eapply Forall2_impl; [exact H|]. intros x y. apply recordEqual_key.
Qed.

Lemma keyed_spec os os' :
  (zlen os =? zlen os') && forallb (fun '(x, y) => optionEqual x y) (combine (keyed os) (keyed os')) = true <-> os ≡ₚ os'.
Proof.
  pose proof (sortFunc_perm compareOptions os weak_compareOptions) as Pa.
  pose proof (sortFunc_perm compareOptions os' weak_compareOptions) as Pb. fold (keyed os) (keyed os') in *.
  rewrite andb_true_iff, Z.eqb_eq. unfold zlen. split.
  - intros [Hl H]. apply forallb_combine in H; [|apply Permutation_length in Pa, Pb; lia].
    assert (keyed os = keyed os') as E.
    { rewrite <- (map_id (keyed os)), <- (map_id (keyed os')). apply Forall2_map_eq.
      eapply Forall2_impl; [exact H|]. intros x y. apply optionEqual_eq. }
    by rewrite <- Pa, E.
  - intros H. pose proof (Permutation_length H). split; [lia|].
    assert (map (fun o => o) (keyed os) = map (fun o => o) (keyed os')) as E.
    { apply (sorted_key_unique compareOptions); [apply weak_compareOptions|intros x y; by apply compareOptions_eq
        |intros x y _ _; by apply compareOptions_eq|apply sortFunc_sorted, weak_compareOptions
        |apply sortFunc_sorted, weak_compareOptions|]. by rewrite !map_id, Pa, Pb. }
    rewrite !map_id in E. rewrite E. apply forallb_combine; [done|].
    eapply Forall2_impl; [by apply (Forall2_map_eq (fun o => o))|]. intros x y. apply optionEqual_eq.
Qed.

Lemma questionsEqual_spec a b :
  questionsEqual a b = true <->
  map (fun q => (wire (q_name q), q_typ q, q_class q)) a = map (fun q => (wire (q_name q), q_typ q, q_class q)) b.
Proof.
  unfold questionsEqual. rewrite andb_true_iff, Z.eqb_eq. unfold zlen.
  assert (forall x y, Equal (q_name x) (q_name y) && (q_typ x =? q_typ y) && (q_class x =? q_class y) = true <->
    (wire (q_name x), q_typ x, q_class x) = (wire (q_name y), q_typ y, q_class y)) as Hk.
  { intros x y. unfold Equal. rewrite !andb_true_iff, !Z.eqb_eq, bool_decide_eq_true.
    split; [by intros [[-> ->] ->]|by intros [= -> -> ->]]. }
  split.
  - intros [Hl H]. apply (forallb_combine (fun x y => _ && _ && _)) in H; [|lia]. apply Forall2_map_eq.
    eapply Forall2_impl; [exact H|]. intros x y. apply Hk.
  - intros H. pose proof (f_equal length H) as Hl. rewrite !length_map in Hl. split; [lia|].
    apply (forallb_combine (fun x y => _ && _ && _)); [done|]. apply Forall2_map_eq in H.
    eapply Forall2_impl; [exact H|]. intros x y. apply Hk.
Qed.

(** *** What message equality compares *)

(** Everything [MessageEqual] looks at, records in sorted order and options
    as a multiset. *)
Definition sameEDNS (a b : Message) : Prop :=
  hasEDNS a = hasEDNS b /\ (hasEDNS a = true ->
    udpSize (edns a) = udpSize (edns b) /\ extRCODE (edns a) = extRCODE (edns b) /\
    version (edns a) = version (edns b) /\ do_ (edns a) = do_ (edns b) /\ opts (edns a) ≡ₚ opts (edns b)).

Lemma ednsEqual_spec a b : ednsEqual a b = true <-> sameEDNS a b.
Proof.
  unfold ednsEqual, sameEDNS. destruct (hasEDNS a), (hasEDNS b); cbn [Bool.eqb negb]; try (split; [done|by intros [? _]]).
  cbv zeta. destruct (_ || _ || _ || _) eqn:E.
  - split; [done|]. intros [_ H]. destruct (H eq_refl) as (E1 & E2 & E3 & E4 & _).
    rewrite E1, E2, E3, E4, !Z.eqb_refl, eqb_reflx in E. done.
  - bool_facts. repeat match goal with H : Bool.eqb _ _ = true |- _ => apply eqb_prop in H end.
    rewrite keyed_spec. split; [done|]. intros [_ Hs]. by apply Hs.
Qed.

Lemma MessageEqual_spec a b :
  MessageEqual a b = true <->
  Message.id a = Message.id b /\ flags a = flags b /\ QuestionsMatch a b = true /\
  recordsSectionEqual (answers a) (answers b) = true /\
  recordsSectionEqual (authorities a) (authorities b) = true /\
  recordsSectionEqual (additionals a) (additionals b) = true /\ sameEDNS a b.
Proof.
  unfold MessageEqual, QuestionsMatch. rewrite <- ednsEqual_spec.
  destruct (Message.id a =? Message.id b) eqn:E1; [|bool_facts; split; [done|by intros (? & _)]].
  destruct (flags a =? flags b) eqn:E2; [|bool_facts; split; [done|by intros (_ & ? & _)]]. bool_facts.
  cbn [negb orb].
  destruct (questionsEqual _ _), (recordsSectionEqual (answers _) _), (recordsSectionEqual (authorities _) _),
    (recordsSectionEqual (additionals _) _); cbn [negb orb]; split; intros; destruct_and?; try done.
Qed.

(** Message equality is an equivalence relation, whatever the sort does with
    records it cannot tell apart. *)
Theorem message_equal_equivalence :
  (forall a, MessageEqual a a = true) /\
  (forall a b, MessageEqual a b = true -> MessageEqual b a = true) /\
  (forall a b c, MessageEqual a b = true -> MessageEqual b c = true -> MessageEqual a c = true).
Proof.
  split_and!; intros *; rewrite !MessageEqual_spec; unfold QuestionsMatch, sameEDNS;
    rewrite !questionsEqual_spec, !recordsSectionEqual_sorted.
  - by split_and!.
  - intros (-> & -> & -> & -> & -> & -> & He & Ho). split_and!; try done. rewrite <- He. intros Ht.
    destruct (Ho Ht) as (-> & -> & -> & -> & ?). by split_and!.
  - intros (-> & -> & -> & -> & -> & -> & E & Ho) (-> & -> & -> & -> & -> & -> & E' & Ho').
    rewrite E, <- E' in *. split_and!; try done. intros Ht. destruct (Ho Ht) as (-> & -> & -> & -> & ->). by apply Ho'.
Qed.

(** Records of a section whose sort keys agree have the same TTL, as
    RFC 2181 section 5.2 requires of an RRset. *)
Definition ttl_consistent (rs : list Record_) : Prop :=
  Forall (fun r => IsValid (r_name r) = true /\ IsZero r = false) rs /\
  forall x y, x ∈ rs -> y ∈ rs -> sortKey x = sortKey y -> r_ttl x = r_ttl y.

Lemma AppendWire_valid n : IsValid n = true -> AppendWire n [] = wire n.
Proof. unfold AppendWire. by intros ->. Qed.

Lemma recordsSectionEqual_perm a b :
  ttl_consistent a -> recordsSectionEqual a b = true <-> map fullKey a ≡ₚ map fullKey b.
Proof.
  intros [Hv Ht]. rewrite Forall_forall in Hv. rewrite recordsSectionEqual_sorted.
  rewrite <- (SortRecords_perm a), <- (SortRecords_perm b) at 2. split; [by intros ->|].
  apply (sorted_key_unique compareRecords); [apply weak_compareRecords| | |apply SortRecords_sorted|apply SortRecords_sorted].
  - intros x y [= E1 E2 E3 _ E5]. apply compareRecords_eq. unfold sortKey, AppendWire, IsValid. by rewrite E1, E2, E3, E5.
  - intros x y Hx Hy E%compareRecords_eq. rewrite SortRecords_perm in Hx, Hy. pose proof (Ht x y Hx Hy E) as Et.
    destruct (Hv x Hx) as [Vx _], (Hv y Hy) as [Vy _]. unfold sortKey in E. rewrite !AppendWire_valid in E by done.
    injection E as E1 E2 E3 E4. unfold fullKey. by rewrite E1, E2, E3, E4, Et.
Qed.

(** What message equality means: for a message whose sections are
    TTL-consistent, [MessageEqual] holds exactly when the other message has the
    same ID, flags and questions in order, the same records in each section in
    any order (name, type, class, TTL and rdata octets), and the same EDNS
    fields with the same options in any order; for every sort the library may
    use. *)
Theorem message_equal_order_insensitive a b :
  ttl_consistent (answers a) -> ttl_consistent (authorities a) -> ttl_consistent (additionals a) ->
  MessageEqual a b = true <->
  Message.id a = Message.id b /\ flags a = flags b /\
  map (fun q => (wire (q_name q), q_typ q, q_class q)) (questions a)
    = map (fun q => (wire (q_name q), q_typ q, q_class q)) (questions b) /\
  map fullKey (answers a) ≡ₚ map fullKey (answers b) /\
  map fullKey (authorities a) ≡ₚ map fullKey (authorities b) /\
  map fullKey (additionals a) ≡ₚ map fullKey (additionals b) /\ sameEDNS a b.
Proof.
  intros H1 H2 H3. rewrite MessageEqual_spec. unfold QuestionsMatch.
  by rewrite questionsEqual_spec, !recordsSectionEqual_perm.
Qed.

(** Sorting is canonical: two arrangements of the same records are sorted to
    the same list, as far as name, type, class and rdata go. *)
Theorem sort_records_canonical s s' :
  s ≡ₚ s' -> map sortKey (SortRecords s) = map sortKey (SortRecords s') /\ SortRecords s ≡ₚ s.
Proof.
  intros H. split; [|apply SortRecords_perm]. apply (sorted_key_unique compareRecords);
    [apply weak_compareRecords|by intros; apply compareRecords_eq|by intros ????; apply compareRecords_eq
    |apply SortRecords_sorted|apply SortRecords_sorted|]. by rewrite !SortRecords_perm, H.
Qed.

End properties.

(** ** A sort that meets the interface

    Insertion sort, which Go's [slices.SortFunc] is on fewer than 12 elements. *)

Fixpoint insertBy {A} (cmp : A -> A -> Z) (x : A) (l : list A) : list A :=
  match l with
  | [] => [x]
  | y :: l => if cmp x y <? 0 then x :: y :: l else y :: insertBy cmp x l
  end.
Definition insertionSort {A} (cmp : A -> A -> Z) (l : list A) : list A :=
  fold_left (fun acc x => insertBy cmp x acc) l [].

Lemma insertBy_perm {A} (cmp : A -> A -> Z) x l : insertBy cmp x l ≡ₚ x :: l.
Proof.
  induction l as [|y l IH]; [done|]. cbn [insertBy]. destruct (_ <? _); [done|]. rewrite IH. apply Permutation_swap.
Qed.

Lemma insertBy_sorted {A} (cmp : A -> A -> Z) x l :
  weak_order cmp -> StronglySorted (fun x y => cmp x y <= 0) l ->
  StronglySorted (fun x y => cmp x y <= 0) (insertBy cmp x l).
Proof.
  intros Hw. induction 1 as [|y l Hs IH Hy]; cbn [insertBy]; [repeat constructor|].
  destruct (_ <? _) eqn:E; bool_facts.
  - constructor; [by constructor|]. constructor; [lia|]. eapply Forall_impl; [exact Hy|].
    cbn. intros z Hz. apply (cmp_trans Hw x y z); lia.
  - constructor; [done|]. rewrite insertBy_perm. constructor; [|done]. pose proof (cmp_flip Hw y x). lia.
Qed.

Lemma insertionSort_spec {A} (cmp : A -> A -> Z) l :
  weak_order cmp -> insertionSort cmp l ≡ₚ l /\ StronglySorted (fun x y => cmp x y <= 0) (insertionSort cmp l).
Proof.
  intros Hw. unfold insertionSort.
  assert (forall acc, StronglySorted (fun x y => cmp x y <= 0) acc ->
    let r := fold_left (fun acc x => insertBy cmp x acc) l acc in
    r ≡ₚ l ++ acc /\ StronglySorted (fun x y => cmp x y <= 0) r) as H.
  { induction l as [|x l IH]; intros acc Ha; [done|]. cbn [fold_left app].
    destruct (IH (insertBy cmp x acc)) as [H1 H2]; [by apply insertBy_sorted|].
    split; [|done]. rewrite H1, insertBy_perm. symmetry. apply Permutation_middle. }
  destruct (H []) as [H1 H2]; [constructor|]. rewrite app_nil_r in H1. done.
Qed.

Definition insertionSorter : SortFunc.
Proof.
  refine {| sortFunc := @insertionSort |}; intros; by apply insertionSort_spec.
Defined.

(** Two messages with their answers in different order. *)
Definition ns1 : Record_ := NewRecord Root (60 * Second) (RD_A (Addr4 [192; 0; 2; 1])).
Definition ns2 : Record_ := NewRecord Root (60 * Second) (RD_A (Addr4 [192; 0; 2; 2])).
Definition withAnswers (rs : list Record_) : Message := mkMessage 1 0 [] rs [] [] zeroEDNS false.

Lemma message_equal_order_insensitive_witness :
  @MessageEqual insertionSorter (withAnswers [ns1; ns2]) (withAnswers [ns2; ns1]) = true.
Proof.
  assert (forall rs, rs = [] -> ttl_consistent rs) as Hnil
    by (intros rs ->; split; [constructor|intros x y Hx; by apply not_elem_of_nil in Hx]).
  apply (@message_equal_order_insensitive insertionSorter (withAnswers [ns1; ns2]) (withAnswers [ns2; ns1])).
  - split; [repeat constructor|]. intros x y Hx Hy _. cbn [answers withAnswers] in Hx, Hy.
    assert (forall z, z ∈ [ns1; ns2] -> r_ttl z = 60 * Second) as Ht
      by (intros z [->|[->|Hz%not_elem_of_nil]%elem_of_cons]%elem_of_cons; done).
    by rewrite (Ht x Hx), (Ht y Hy).
  - by apply Hnil.
  - by apply Hnil.
  - split_and!; try reflexivity; [apply Permutation_swap|split; [reflexivity|discriminate]].
Defined.

Lemma sort_records_canonical_witness :
  map sortKey (@SortRecords insertionSorter [ns1; ns2]) = map sortKey (@SortRecords insertionSorter [ns2; ns1]).
Proof. apply (@sort_records_canonical insertionSorter [ns1; ns2] [ns2; ns1]). apply Permutation_swap. Defined.

Lemma message_equal_equivalence_witness :
  @MessageEqual insertionSorter (withAnswers [ns2; ns1]) (withAnswers [ns1; ns2]) = true.
Proof.
  apply (@message_equal_equivalence insertionSorter). vm_compute. reflexivity.
Defined.

(** The documented order-insensitivity does not extend to records that
    differ in TTL only: the sort leaves them in input order, and swapping two
    of them makes the messages unequal. *)
Theorem message_equal_ttl_order :
  exists r1 r2, sortKey r1 = sortKey r2 /\
    @MessageEqual insertionSorter (withAnswers [r1; r2]) (withAnswers [r2; r1]) = false.
Proof.
  exists ns1, (NewRecord Root (30 * Second) (RD_A (Addr4 [192; 0; 2; 1]))). split; vm_compute; reflexivity.
Qed.

(** [SortRecords] is documented as the canonical order of RFC 4034 section
    6.1, where names are compared label by label from the root; it compares
    wire forms from the left, so the length of the first label decides: b.a
    sorts before aa.a although canonical order puts aa before b. *)
Theorem sort_records_not_canonical_order :
  exists r1 r2, Labels (r_name r1) = [[98]; [97]] /\ Labels (r_name r2) = [[97; 97]; [97]] /\
    @SortRecords insertionSorter [r2; r1] = [r1; r2].
Proof.
  exists (NewRecord (mkName [1; 98; 1; 97; 0]) 0 (RD_TXT [])), (NewRecord (mkName [2; 97; 97; 1; 97; 0]) 0 (RD_TXT [])).
  split_and!; vm_compute; reflexivity.
Qed.
