(* ===== verification/RRset.v ===== *)
(** * Resource record sets (src/wire/rrset.go) *)

From S2P Require Import Prelude Name Wire RData RDataNew Message.

Record RRset := mkRRset { set_name : Name; set_typ : Z; set_class : Z; set_ttl : Z; records : list Record_ }.
Definition zeroRRset : RRset := mkRRset zeroName 0 0 0 [].

Definition Len (s : RRset) : Z := zlen (records s).

(** The loop of [NewRRset] over the records after the first. *)
Fixpoint checkMembers (first : Record_) (rs : list Record_) (minTTL : Z) : res Z :=
  match rs with
  | [] => Ok minTTL
  | r :: rs =>
      if negb (Equal (r_name first) (r_name r)) then Err ErrInvalidMessage
      else if negb (r_class first =? r_class r) then Err ErrInvalidMessage
      else if negb (RType first =? RType r) then Err ErrInvalidMessage
      else checkMembers first rs (if r_ttl r <? minTTL then r_ttl r else minTTL)
  end.

Definition NewRRset (rs : list Record_) : res RRset :=
  match rs with
  | [] => Err ErrInvalidMessage
  | first :: rest =>
      let? minTTL := checkMembers first rest (r_ttl first) in
      Ok (mkRRset (r_name first) (RType first) (r_class first) minTTL rs)
  end.

Fixpoint recordsOf (name : Name) (class ttl typ : Z) (rds : list RData) : res (list Record_) :=
  match rds with
  | [] => Ok []
  | rd :: rds =>
      if negb (Type_ rd =? typ) then Err ErrInvalidMessage
      else let? rest := recordsOf name class ttl typ rds in Ok (NewRecordClass name class ttl rd :: rest)
  end.

Definition NewRRsetFromRDatas (name : Name) (class ttl : Z) (rds : list RData) : res RRset :=
  match rds with
  | [] => Err ErrInvalidMessage
  | rd :: _ =>
      let typ := Type_ rd in
      let? rs := recordsOf name class ttl typ rds in
      Ok (mkRRset name typ class ttl rs)
  end.

(** The struct [key]. *)
Definition gkey : Type := bytes * Z * Z.
Definition keyOf (r : Record_) : gkey := (String_ (r_name r), r_class r, RType r).

(** One turn of the grouping loop, on [indexByKey] and [groups]. *)
Definition groupStep (st : gmap gkey nat * list (list Record_)) (r : Record_) : gmap gkey nat * list (list Record_) :=
  let '(indexByKey, groups) := st in
  match indexByKey !! keyOf r with
  | None => (<[keyOf r := length groups]> indexByKey, groups ++ [[r]])
  | Some idx => (indexByKey, alter (fun g => g ++ [r]) idx groups)
  end.

Fixpoint buildSets (groups : list (list Record_)) : res (list RRset) :=
  match groups with
  | [] => Ok []
  | g :: groups => let? s := NewRRset g in let? out := buildSets groups in Ok (s :: out)
  end.

Definition GroupRecords (rs : list Record_) : res (list RRset) :=
  let '(_, groups) := fold_left groupStep rs (∅, []) in buildSets groups.

(** ** The presentation form identifies a name

    The escapes are a prefix code, and no escape begins with a dot. *)

Lemma escapeByte_head c : u8 c -> exists x y, escapeByte c = x :: y /\ x <> 46.
Proof.
  intros Hu. unfold escapeByte. destruct ((c =? 46) || (c =? 92)) eqn:E1; [exists 92, [c]; split; [done|lia]|].
  destruct ((c <? 33) || (126 <? c)); [exists 92, (fmt03 c); split; [done|lia]|]. exists c, []. split; [done|]. apply orb_false_iff in E1 as [E1 _]. lia.
Qed.

Lemma escapeByte_inj c d x y : u8 c -> u8 d -> escapeByte c ++ x = escapeByte d ++ y -> c = d /\ x = y.
Proof.
  unfold u8. intros Hc Hd. unfold escapeByte, fmt03.
  destruct ((c =? 46) || (c =? 92)) eqn:E1, ((d =? 46) || (d =? 92)) eqn:E2;
    destruct ((c <? 33) || (126 <? c)) eqn:E3, ((d <? 33) || (126 <? d)) eqn:E4;
    rewrite ?orb_true_iff, ?orb_false_iff in *; cbn [app]; intros H; injection H; intros; subst; try done;
    first [split; [elia|done] | exfalso; elia].
Qed.

Lemma escapeLabel_inj l k x y :
  is_bytes l -> is_bytes k -> escapeLabel l ++ x = escapeLabel k ++ y -> l = k /\ x = y.
Proof.
  unfold escapeLabel. intros Hl. revert k. induction Hl as [|c l Hc Hl IH]; intros k Hk H.
  - destruct Hk as [|d k Hd Hk]; [by injection H as ->|]. exfalso.
    destruct (escapeByte_head d Hd) as (a & b & E & Ha). cbn in H. rewrite E in H. cbn in H. injection H. congruence.
  - destruct Hk as [|d k Hd Hk].
    + exfalso. destruct (escapeByte_head c Hc) as (a & b & E & Ha). cbn in H. rewrite E in H. cbn in H. injection H. congruence.
    + cbn [map concat] in H. rewrite <- !app_assoc in H. apply escapeByte_inj in H as [-> H]; [|done|done].
      rewrite !app_assoc in H. apply IH in H as [-> ->]; [done|done].
Qed.

Lemma escapeLabels_inj ls ks :
  Forall label_ok ls -> Forall label_ok ks -> concat (map escapeLabel ls) = concat (map escapeLabel ks) -> ls = ks.
Proof.
  intros Hl. revert ks. induction Hl as [|l ls [Hl1 Hl] _ IH]; intros ks Hk H.
  - destruct Hk as [|k ks Hk _]; [done|]. cbn in H. pose proof (zlen_escapeLabel k Hk) as Hz.
    apply (f_equal zlen) in H. rewrite zlen_app in H. llia.
  - destruct Hk as [|k ks [Hk1 Hk] Hks].
    + cbn in H. pose proof (zlen_escapeLabel l ltac:(by split)) as Hz. apply (f_equal zlen) in H. rewrite zlen_app in H. llia.
    + cbn [map concat] in H. apply escapeLabel_inj in H as [-> H]; [|done|done]. by rewrite (IH ks).
Qed.

Lemma String_wf n ls : wf_name n ls -> String_ n = if decide (ls = []) then [46] else concat (map escapeLabel ls).
Proof.
  intros Hw. pose proof (IsRoot_wf _ _ Hw) as Hr. unfold String_. rewrite (wf_valid _ _ Hw). cbn [negb].
  destruct (IsRoot n) eqn:E.
  - by rewrite decide_True by by apply Hr.
  - rewrite decide_False by (intros H; apply Hr in H; done). destruct Hw as (-> & Hok & _). by rewrite string_loop_enc.
Qed.

Lemma String_inj n m ls ks : wf_name n ls -> wf_name m ks -> String_ n = String_ m -> n = m.
Proof.
  intros Hn Hm H. assert (ls = ks) as ->.
  { pose proof Hn as (_ & Hl & _). pose proof Hm as (_ & Hk & _).
    rewrite (String_wf _ _ Hn), (String_wf _ _ Hm) in H.
    assert (forall l, Forall label_ok l -> l <> [] -> concat (map escapeLabel l) <> [46]) as Hne.
    { intros l Hf Hne E. destruct Hf as [|k l Hk' _]; [done|]. cbn in E. pose proof (zlen_escapeLabel k Hk').
      apply (f_equal zlen) in E. rewrite zlen_app in E. llia. }
    repeat case_decide; subst; try done; [symmetry in H; by apply Hne in H|by apply Hne in H|by apply escapeLabels_inj]. }
  destruct Hn as (E1 & _), Hm as (E2 & _). destruct n, m. cbn in *. congruence.
Qed.

(** ** Grouping *)

(** The distinct elements in order of first appearance. *)
Definition addFirst (acc : list gkey) (k : gkey) : list gkey := if decide (k ∈ acc) then acc else acc ++ [k].
Definition firsts (ks : list gkey) : list gkey := fold_left addFirst ks [].

(** The members of a group, in input order. *)
Definition members (rs : list Record_) (k : gkey) : list Record_ := filter (fun r => keyOf r = k) rs.

Lemma firsts_snoc ks k : firsts (ks ++ [k]) = addFirst (firsts ks) k.
Proof. unfold firsts. by rewrite fold_left_app. Qed.

Lemma firsts_elem ks k : k ∈ firsts ks <-> k ∈ ks.
Proof.
  induction ks as [|x ks IH] using rev_ind; [done|]. rewrite firsts_snoc, elem_of_app, list_elem_of_singleton, <- IH.
  unfold addFirst. case_decide; [|by rewrite elem_of_app, list_elem_of_singleton].
  split; [by left|]. by intros [?| ->].
Qed.

Lemma firsts_NoDup ks : NoDup (firsts ks).
Proof.
  induction ks as [|x ks IH] using rev_ind; [constructor|]. rewrite firsts_snoc. unfold addFirst. case_decide; [done|].
  apply NoDup_app. split_and!; [done| |apply NoDup_singleton]. intros k Hk ->%list_elem_of_singleton. done.
Qed.

Lemma members_snoc rs r k : members (rs ++ [r]) k = members rs k ++ (if decide (keyOf r = k) then [r] else []).
Proof. unfold members. by rewrite filter_app. Qed.

Lemma members_none rs k : k ∉ map keyOf rs -> members rs k = [].
Proof.
  intros Hk. unfold members. induction rs as [|r rs IH]; [done|].
  rewrite filter_cons. case_decide as E; [exfalso; apply Hk; rewrite <- E; by left|]. apply IH. intros H. apply Hk. by right.
Qed.

(** The invariant of the loop: the index finds the group of a key, and the
    groups are the members of the distinct keys so far. *)
Lemma group_invariant rs :
  let '(ix, groups) := fold_left groupStep rs (∅, []) in
  (forall k i, ix !! k = Some i <-> firsts (map keyOf rs) !! i = Some k) /\
  groups = map (members rs) (firsts (map keyOf rs)).
Proof.
  induction rs as [|r rs IH] using rev_ind.
  { cbn. split; [|done]. intros k i. by rewrite lookup_empty. }
  rewrite fold_left_app. destruct (fold_left groupStep rs (∅, [])) as [ix groups]. destruct IH as [Hix ->].
  cbn [fold_left groupStep]. rewrite map_app. cbn [map]. rewrite firsts_snoc. unfold addFirst.
  pose proof (firsts_NoDup (map keyOf rs)) as Hnd. set (fs := firsts (map keyOf rs)) in *.
  destruct (ix !! keyOf r) as [i|] eqn:E.
  - apply Hix in E as Hi. rewrite decide_True by (by eapply list_elem_of_lookup_2). split; [done|].
    apply list_eq. intros j. rewrite list_lookup_alter, !(list_lookup_fmap _ fs).
    case_decide as Hij; [subst j; rewrite Hi; cbn; by rewrite members_snoc, decide_True|].
    destruct (fs !! j) as [k|] eqn:Ek; [|done]. cbn. rewrite members_snoc, decide_False; [by rewrite app_nil_r|].
    intros Ekr. apply Hij. rewrite <- Ekr in Ek. by eapply NoDup_lookup.
  - assert (keyOf r ∉ fs) as Hk.
    { intros [i Hi]%list_elem_of_lookup. apply Hix in Hi. congruence. }
    rewrite decide_False by done. split.
    + intros k i. rewrite length_map. destruct (decide (k = keyOf r)) as [->|Hne].
      * rewrite lookup_insert_eq. split; [intros [= <-]; by rewrite lookup_app_r, Nat.sub_diag by lia|].
        intros [Hi|[Hl Hi]]%lookup_app_Some; [by apply list_elem_of_lookup_2 in Hi|].
        destruct (i - length fs)%nat eqn:El; [f_equal; lia|done].
      * rewrite lookup_insert_ne by done. rewrite Hix, lookup_app_Some. split; [by left|].
        intros [?|[_ Hi]]; [done|]. destruct (i - length fs)%nat; [injection Hi; congruence|done].
    + rewrite map_app. cbn [map]. f_equal.
      * apply map_ext_in. intros k Hin. rewrite members_snoc, decide_False; [by rewrite app_nil_r|].
        intros <-. by apply Hk, list_elem_of_In.
      * rewrite members_snoc, decide_True by done. rewrite members_none; [done|]. by rewrite <- firsts_elem.
Qed.

(** ** Sets *)

Definition is_min (m : Z) (l : list Z) : Prop := m ∈ l /\ Forall (fun x => m <= x) l.

Lemma checkMembers_spec first rest m0 pre :
  Forall (fun r => r_name r = r_name first /\ r_class r = r_class first /\ RType r = RType first) rest ->
  is_min m0 pre ->
  exists m, checkMembers first rest m0 = Ok m /\ is_min m (pre ++ map r_ttl rest).
Proof.
  intros H. revert m0 pre. induction H as [|r rest (En & Ec & Et) _ IH]; intros m0 pre [Hin Hmin]; cbn [checkMembers map].
  - exists m0. split; [done|]. by rewrite app_nil_r.
  - unfold Equal. rewrite En, Ec, Et, !Z.eqb_refl, bool_decide_eq_true_2 by done. cbn [negb].
    destruct (IH (if r_ttl r <? m0 then r_ttl r else m0) (pre ++ [r_ttl r])) as (m & -> & Hm).
    + split; [split_if; rewrite elem_of_app; [right; left|by left]|].
      apply Forall_app. split; [|repeat constructor; split_if; bool_facts; lia].
      eapply Forall_impl; [exact Hmin|]. cbn. intros. split_if; bool_facts; lia.
    + exists m. split; [done|]. by rewrite <- app_assoc in Hm.
Qed.

(** An RRset of records that belong together. *)
Definition set_of (rs : list Record_) (s : RRset) : Prop :=
  records s = rs /\ Forall (fun r => r_name r = set_name s /\ r_class r = set_class s /\ RType r = set_typ s) rs /\
  is_min (set_ttl s) (map r_ttl rs).

Lemma NewRRset_ok first rest :
  Forall (fun r => r_name r = r_name first /\ r_class r = r_class first /\ RType r = RType first) rest ->
  exists s, NewRRset (first :: rest) = Ok s /\ set_of (first :: rest) s.
Proof.
  intros H. destruct (checkMembers_spec first rest (r_ttl first) [r_ttl first] H) as (m & E & Hm).
  { split; [left|repeat constructor; lia]. }
  eexists. unfold NewRRset. rewrite E. cbn [res_bind]. split; [done|].
  split_and!; [done|by constructor|done].
Qed.

Lemma buildSets_ok groups :
  Forall (fun g => exists s, NewRRset g = Ok s /\ set_of g s) groups ->
  exists sets, buildSets groups = Ok sets /\ Forall2 set_of groups sets.
Proof.
  induction 1 as [|g groups (s & E & Hs) _ (sets & E' & Hss)]; [by exists []|].
  exists (s :: sets). cbn [buildSets]. rewrite E. cbn [res_bind]. rewrite E'. split; [done|by constructor].
Qed.

Definition named (r : Record_) : Prop := exists ls, wf_name (r_name r) ls.

Lemma members_ok rs k : Forall named rs -> k ∈ map keyOf rs -> exists s, NewRRset (members rs k) = Ok s /\ set_of (members rs k) s.
Proof.
  intros Hn Hk. assert (Forall (fun r => named r /\ keyOf r = k) (members rs k)) as Hm.
  { apply Forall_forall. intros r [Hr Hin]%list_elem_of_filter. rewrite Forall_forall in Hn. auto. }
  destruct (members rs k) as [|first rest] eqn:E.
  { exfalso. change (map keyOf rs) with (keyOf <$> rs) in Hk. apply list_elem_of_fmap in Hk as (r & -> & Hr).
    apply (not_elem_of_nil r). rewrite <- E. apply list_elem_of_filter. done. }
  apply NewRRset_ok. apply Forall_cons in Hm as [[(ls & Hf) Hkf] Hm]. eapply Forall_impl; [exact Hm|].
  cbn. intros r [(ks & Hr) Hkr]. unfold keyOf in *. rewrite <- Hkr in Hkf. injection Hkf as E1 E2 E3.
  split_and!; [|done|done]. symmetry. by eapply String_inj.
Qed.

Lemma members_perm rs ks :
  NoDup ks -> (forall r, r ∈ rs -> keyOf r ∈ ks) -> concat (map (members rs) ks) ≡ₚ rs.
Proof.
  revert rs. induction ks as [|k ks IH]; intros rs Hnd Hin.
  - destruct rs as [|r rs]; [done|]. exfalso. apply (not_elem_of_nil (keyOf r)). apply Hin. left.
  - apply NoDup_cons in Hnd as [Hk Hnd]. cbn [map concat].
    rewrite <- (filter_app_complement (fun r => keyOf r = k) rs) at 3. apply Permutation_app; [done|].
    rewrite <- (IH (filter (fun r => keyOf r <> k) rs) Hnd).
    + apply Permutation_refl'. f_equal. apply map_ext_in. intros k' Hk'%list_elem_of_In. unfold members.
      rewrite list_filter_filter. apply list_filter_iff. intros r. split; [|tauto]. intros E. split; [done|].
      intros E'. apply Hk. by rewrite <- E', E.
    + intros r [Hr1 Hr2]%list_elem_of_filter. specialize (Hin r Hr2). by apply elem_of_cons in Hin as [?|?].
Qed.

(** Grouping partitions: for records with well-formed owner names
    [GroupRecords] never fails and returns one set per distinct (name, class,
    type), in order of first appearance, each holding exactly the records of
    that key in input order with the minimum of their TTLs; no record is lost
    or duplicated. *)
Theorem group_records_partition rs :
  Forall named rs ->
  exists sets, GroupRecords rs = Ok sets /\
    map records sets = map (members rs) (firsts (map keyOf rs)) /\
    Forall (fun s => set_of (records s) s) sets /\
    concat (map records sets) ≡ₚ rs.
Proof.
  intros Hn. unfold GroupRecords. pose proof (group_invariant rs) as Hi.
  destruct (fold_left groupStep rs (∅, [])) as [ix groups]. destruct Hi as [_ ->].
  destruct (buildSets_ok (map (members rs) (firsts (map keyOf rs)))) as (sets & E & H2).
  { apply Forall_forall. intros g (k & -> & Hk)%(list_elem_of_fmap (members rs)).
    apply members_ok; [done|by rewrite <- firsts_elem]. }
  assert (map records sets = map (members rs) (firsts (map keyOf rs))) as Em.
  { clear E. induction H2 as [|g s gs ss [Hs _] _ IH]; [done|]. cbn. by rewrite Hs, IH. }
  exists sets. split_and!; [done|done| |].
  - clear E Em. induction H2 as [|g s gs ss Hs _ IH]; constructor; [|done]. destruct Hs as [E Hs]. by rewrite E.
  - rewrite Em. apply members_perm; [apply firsts_NoDup|]. intros r Hr. apply firsts_elem.
    change (map keyOf rs) with (keyOf <$> rs). apply list_elem_of_fmap. by exists r.
Qed.

(** Two A records and an AAAA record, interleaved, with different TTLs. *)
Definition groupSample : list Record_ :=
  [NewRecord Root 30 (RD_A (Addr4 [1; 1; 1; 1])); NewRecord Root 10 (RD_AAAA (Addr6 (replicate 16 0) []));
   NewRecord Root 20 (RD_A (Addr4 [2; 2; 2; 2]))].
Lemma group_records_partition_witness :
  exists sets, GroupRecords groupSample = Ok sets /\
    map records sets = map (members groupSample) (firsts (map keyOf groupSample)) /\
    Forall (fun s => set_of (records s) s) sets /\ concat (map records sets) ≡ₚ groupSample.
Proof. apply (group_records_partition groupSample). repeat constructor; exists []; apply Root_wf. Defined.

Lemma checkMembers_err first rest m e :
  checkMembers first rest m = Err e ->
  e = ErrInvalidMessage /\ exists r, r ∈ rest /\
    (r_name r <> r_name first \/ r_class r <> r_class first \/ RType r <> RType first).
Proof.
  revert m. induction rest as [|r rest IH]; intros m; cbn [checkMembers]; [done|]. unfold Equal.
  destruct (bool_decide _) eqn:E1; cbn [negb].
  2: { apply bool_decide_eq_false in E1. intros [= <-]. split; [done|]. exists r. split; [left|left; congruence]. }
  destruct (r_class first =? r_class r) eqn:E2; cbn [negb]; bool_facts.
  2: { intros [= <-]. split; [done|]. exists r. split; [left|right; left; congruence]. }
  destruct (RType first =? RType r) eqn:E3; cbn [negb]; bool_facts.
  2: { intros [= <-]. split; [done|]. exists r. split; [left|right; right; congruence]. }
  intros H. destruct (IH _ H) as (-> & r' & Hr & Hd). split; [done|]. exists r'. split; [by right|done].
Qed.

Lemma checkMembers_agree first rest m m' :
  checkMembers first rest m = Ok m' ->
  Forall (fun r => r_name r = r_name first /\ r_class r = r_class first /\ RType r = RType first) rest.
Proof.
  revert m. induction rest as [|r rest IH]; intros m; cbn [checkMembers]; [constructor|]. unfold Equal.
  destruct (bool_decide _) eqn:E1; [|done]. apply bool_decide_eq_true in E1.
  destruct (r_class first =? r_class r) eqn:E2; [|done]. destruct (RType first =? RType r) eqn:E3; [|done].
  cbn [negb]. bool_facts. intros H. constructor; [|by eapply IH].
  split_and!; [|done|done]. destruct (r_name first), (r_name r). cbn in E1. congruence.
Qed.

Lemma recordsOf_spec name class ttl typ rds :
  match recordsOf name class ttl typ rds with
  | Ok rs => Forall (fun rd => Type_ rd = typ) rds /\ rs = map (NewRecordClass name class ttl) rds
  | Err e => e = ErrInvalidMessage /\ Exists (fun rd => Type_ rd <> typ) rds
  end.
Proof.
  induction rds as [|rd rds IH]; cbn [recordsOf]; [by split; [constructor|]|].
  destruct (Type_ rd =? typ) eqn:E; cbn [negb]; bool_facts; [|by split; [|left]].
  destruct (recordsOf _ _ _ _ rds) as [rs|e]; cbn [res_bind].
  - destruct IH as [? ->]. by split; [constructor|].
  - destruct IH as [-> ?]. by split; [|right].
Qed.

(** The constructors of RRsets: [NewRRset] accepts exactly the non-empty
    lists whose records agree on name, class and type, keeps them in order and
    takes the minimum TTL; [NewRRsetFromRDatas] accepts exactly the non-empty
    lists of payloads of one type and makes one record of each.  Everything
    else is refused with ErrInvalidMessage. *)
Theorem rrset_constructors :
  (forall rs, match NewRRset rs with
   | Ok s => rs <> [] /\ set_of rs s
   | Err e => e = ErrInvalidMessage /\ (rs = [] \/ exists x y, x ∈ rs /\ y ∈ rs /\
       (r_name x <> r_name y \/ r_class x <> r_class y \/ RType x <> RType y)) end) /\
  (forall name class ttl rds, match NewRRsetFromRDatas name class ttl rds with
   | Ok s => rds <> [] /\ set_of (map (NewRecordClass name class ttl) rds) s /\ set_ttl s = ttl
   | Err e => e = ErrInvalidMessage /\ (rds = [] \/ exists x y, x ∈ rds /\ y ∈ rds /\ Type_ x <> Type_ y) end).
Proof.
  split.
  - intros [|first rest]; [by split; [|left]|]. cbn [NewRRset].
    destruct (checkMembers first rest (r_ttl first)) as [m|e] eqn:E; cbn [res_bind].
    + split; [done|]. destruct (NewRRset_ok first rest (checkMembers_agree _ _ _ _ E)) as (s & Es & Hs).
      cbn [NewRRset] in Es. rewrite E in Es. by injection Es as <-.
    + apply checkMembers_err in E as (-> & r & Hr & Hd). split; [done|]. right. exists r, first.
      split_and!; [by right|left|done].
  - intros name class ttl [|rd rds]; [by split; [|left]|]. unfold NewRRsetFromRDatas. cbv zeta.
    pose proof (recordsOf_spec name class ttl (Type_ rd) (rd :: rds)) as H.
    destruct (recordsOf _ _ _ _ _) as [rs|e]; cbn [res_bind].
    + destruct H as [Hall ->]. split_and!; [done| |done]. split_and!; [done| |].
      * apply List.Forall_map. eapply Forall_impl; [exact Hall|]. intros x Hx. by split_and!.
      * cbn [set_ttl]. split; [left|]. apply Forall_forall. intros t (r & -> & Hr)%(list_elem_of_fmap r_ttl).
        apply (list_elem_of_fmap (NewRecordClass name class ttl)) in Hr as (x & -> & _). cbn. lia.
    + destruct H as [-> Hex]. split; [done|]. right. apply Exists_exists in Hex as (x & Hx & Ht).
      exists x, rd. split_and!; [done|left|done].
Qed.
