(* ===== verification/Authoritative.v ===== *)
(** * The authoritative server (src/authoritative/authoritative.go, notify.go,
      option.go; zonefile/zonefile.go for the parsed zone)

    A zone index as the server keeps it, the lookup of RFC 1034 section 4.3.2
    with wildcards and delegations, zone transfer and NOTIFY.  A Go map from
    name keys is a [gmap]; the order in which [range] visits a map is that of
    any instance of [MapRange].  Callbacks are represented by whether they are
    installed, and their invocations by [Event]s; [ctx] is passed through
    unchanged, so policies are functions of the writer and the message. *)

From S2P Require Import Prelude Name Wire RData RDataNew Message Compare.

(** ** Walking up the tree *)

(** [for { if <found> return x; parent, ok := cur.Parent(); if !ok { return
    nil }; cur = parent }].  A parent is shorter than its child, so one
    iteration per byte and one more are enough ([walkUp_step]). *)
Fixpoint walkUp_loop {A} (fuel : nat) (found : Name -> option A) (cur : Name) : option A :=
  match fuel with
  | O => None
  | S fuel =>
      match found cur with
      | Some x => Some x
      | None =>
          match Parent cur with
          | None => None
          | Some parent => walkUp_loop fuel found parent
          end
      end
  end.
Definition walkUp {A} (found : Name -> option A) (n : Name) : option A :=
  walkUp_loop (S (length (wire n))) found n.

Definition nameKey (n : Name) : bytes := AppendWire n [].

(** ** Parsed zones (zonefile.Zone) *)

(** [wire.RDataAs[rdata.SOA](r)] and its instances at CNAME, DNAME and NS. *)
Definition asSOA (r : Record_) : option RData :=
  match r_rd r with Some (RD_SOA _ _ _ _ _ _ _ as soa) => Some soa | _ => None end.
Definition asCNAME (r : Record_) : option Name :=
  match r_rd r with Some (RD_CNAME target) => Some target | _ => None end.
Definition asDNAME (r : Record_) : option Name :=
  match r_rd r with Some (RD_DNAME target) => Some target | _ => None end.
Definition asNS (r : Record_) : option Name :=
  match r_rd r with Some (RD_NS target) => Some target | _ => None end.

Record Zone := mkZone { z_origin : Name; z_records : list Record_ }.

(** The first record that carries SOA rdata. *)
Definition Zone_SOA (z : Zone) : option Record_ :=
  List.find (fun r => match asSOA r with Some _ => true | None => false end) (z_records z).

(** ** The zone index *)
Module zoneIndex.
Record t := mk {
  origin : Name; soaRec : Record_;
  byName : gmap bytes (list Record_); namesExist : gset bytes }.

(** [z.byName[k]], nil when absent. *)
Definition at_ (z : t) (k : bytes) : list Record_ := default [] (byName z !! k).

(** The loop that registers a name and its ancestors up to the origin. *)
Fixpoint mark_loop (fuel : nat) (origin cur : Name) (set : gset bytes) : gset bytes :=
  match fuel with
  | O => set
  | S fuel =>
      let set := {[nameKey cur]} ∪ set in
      if Equal cur origin then set
      else match Parent cur with
           | None => set
           | Some parent => mark_loop fuel origin parent set
           end
  end.
Definition markNames (origin n : Name) (set : gset bytes) : gset bytes :=
  mark_loop (S (length (wire n))) origin n set.

Arguments markNames : simpl never.

(** One iteration of the loop of [AddZone] over the zone's records. *)
Definition addRecord (z : t) (rec : Record_) : t :=
  let k := nameKey (r_name rec) in
  mk (origin z) (soaRec z) (<[k := at_ z k ++ [rec]]> (byName z))
    (markNames (origin z) (r_name rec) (namesExist z)).

(** matchRRSet: the answer, the name to follow, and whether the lookup is done. *)
Definition matchRRSet (recs : list Record_) (qtype : Z) : list Record_ * Name * bool :=
  let matched := List.filter (fun r => RType r =? qtype) recs in
  if 0 <? zlen matched then (matched, zeroName, true)
  else if negb (qtype =? rrtype.CNAME) then
    match List.find (fun r => match asCNAME r with Some _ => true | None => false end) recs with
    | Some r => ([r], default zeroName (asCNAME r), false)
    | None => ([], zeroName, true)
    end
  else ([], zeroName, true).

Definition closestEncloser (z : t) (name : Name) : option Name :=
  match Parent name with
  | None => None
  | Some cur =>
      walkUp (fun cur => if decide (nameKey cur ∈ namesExist z) then Some cur else None) cur
  end.

Definition star : bytes := [42].

Definition wildcardKey (encloser : Name) : bytes :=
  if IsRoot encloser then
    match FromLabels [star] with Ok n => nameKey n | Err _ => nameKey zeroName end
  else
    match FromLabels (star :: Labels encloser) with Ok n => nameKey n | Err _ => [] end.

Definition rewriteOwners (recs : list Record_) (owner : Name) : list Record_ :=
  map (fun r => mkRecord owner (r_class r) (r_ttl r) (r_rd r)) recs.

Definition findDelegation (z : t) (qname : Name) : list Record_ :=
  default [] (walkUp (fun cur =>
    if Equal cur (origin z) then Some []
    else match byName z !! nameKey cur with
         | Some recs =>
             let ns := List.filter (fun r => RType r =? rrtype.NS) recs in
             if 0 <? zlen ns then Some ns else None
         | None => None
         end) qname).

(** The glue of one NS record. *)
Definition glueOf (z : t) (ns : Record_) : list Record_ :=
  match asNS ns with
  | None => []
  | Some target =>
      match byName z !! nameKey target with
      | None => []
      | Some recs => List.filter (fun r => (RType r =? rrtype.A) || (RType r =? rrtype.AAAA)) recs
      end
  end.
Definition collectGlue (z : t) (nsRecs : list Record_) : list Record_ := concat (map (glueOf z) nsRecs).

Fixpoint labelEqualFold (a b : bytes) : bool :=
  match a, b with
  | [], [] => true
  | x :: a, y :: b => (foldByte x =? foldByte y) && labelEqualFold a b
  | _, _ => false
  end.

Definition substituteSuffix (name owner target : Name) : option Name :=
  let nameLabels := Labels name in
  let ownerLabels := Labels owner in
  if zlen nameLabels <=? zlen ownerLabels then None
  else
    let prefixLen := zlen nameLabels - zlen ownerLabels in
    let prefix := take (Z.to_nat prefixLen) nameLabels in
    if forallb (fun '(l, lbl) => labelEqualFold l lbl)
         (combine (drop (Z.to_nat prefixLen) nameLabels) ownerLabels)
    then match FromLabels (prefix ++ Labels target) with Ok n => Some n | Err _ => None end
    else None.

(** The visit of one ancestor [cur]: the first DNAME there, if any, ends the
    walk; inside, [None] is the early [return] when the substitution fails. *)
Definition dnameAt (z : t) (qname cur : Name) : option (option (Record_ * Name)) :=
  match List.find (fun r => match asDNAME r with Some _ => true | None => false end)
          (at_ z (nameKey cur)) with
  | None => None
  | Some r =>
      Some (match substituteSuffix qname cur (default zeroName (asDNAME r)) with
            | None => None
            | Some synth => Some (r, synth)
            end)
  end.

(** The walk over the strict ancestors. *)
Definition findDNAMEAncestor (z : t) (qname : Name) : option (Record_ * Name) :=
  match Parent qname with
  | None => None
  | Some parent => default None (walkUp (dnameAt z qname) parent)
  end.

Definition maxCNAMEChain : nat := 8.

(** What one iteration of [lookupAuthoritative] decides: return, or go on
    with more of the answer and another name. *)
Inductive hop :=
  | Return_ (answer authority : list Record_) (rcode : Z)
  | Follow (answer : list Record_) (current : Name)
  | Panics.

(** The branches after [matchRRSet], which the exact and the wildcard match
    share; [first] is [chain == 0]. *)
Definition matched (z : t) (first : bool) (answer ans : list Record_) (follow : Name) (done : bool) : hop :=
  if done then
    if 0 <? zlen ans then Return_ (answer ++ ans) [] RCODENoError
    else if first then Return_ [] [soaRec z] RCODENoError
    else Return_ answer [] RCODENoError
  else Follow (answer ++ ans) follow.

Definition chaseStep (z : t) (qtype : Z) (first : bool) (answer : list Record_) (current : Name) : hop :=
  match byName z !! nameKey current with
  | Some recs =>
      let '(ans, follow, done) := matchRRSet recs qtype in
      matched z first answer ans follow done
  | None =>
      if decide (nameKey current ∈ namesExist z) then
        if first then Return_ [] [soaRec z] RCODENoError else Return_ answer [] RCODENoError
      else
        match findDNAMEAncestor z current with
        | Some (dnameRR, synth) =>
            match NewCNAME synth with
            | Err _ => Panics
            | Ok cnameRD => Follow (answer ++ [dnameRR; NewRecord current (r_ttl dnameRR) cnameRD]) synth
            end
        | None =>
            match (match closestEncloser z current with
                   | Some encloser => byName z !! wildcardKey encloser
                   | None => None
                   end) with
            | Some wcRecs =>
                let '(ans, follow, done) := matchRRSet wcRecs qtype in
                matched z first answer (rewriteOwners ans current) follow done
            | None =>
                if first then Return_ [] [soaRec z] RCODENXDomain else Return_ answer [] RCODENoError
            end
        end
  end.

(** [for chain := range maxCNAMEChain]: [n] iterations are left. *)
Fixpoint chase (z : t) (qtype : Z) (n : nat) (first : bool) (answer : list Record_) (current : Name)
    : res (list Record_ * list Record_ * Z) :=
  match n with
  | O => Ok (answer, [], RCODEServFail)
  | S n =>
      match chaseStep z qtype first answer current with
      | Return_ answer authority rcode => Ok (answer, authority, rcode)
      | Follow answer current => chase z qtype n false answer current
      | Panics => Err Panic
      end
  end.
Definition lookupAuthoritative (z : t) (qname : Name) (qtype : Z) : res (list Record_ * list Record_ * Z) :=
  chase z qtype maxCNAMEChain true [] qname.
Arguments lookupAuthoritative : simpl never.

Record lookupResult := mkResult {
  l_answer : list Record_; l_authority : list Record_; l_additional : list Record_;
  l_rcode : Z; l_aa : bool }.

Definition lookup_ (z : t) (qname : Name) (qtype : Z) : res lookupResult :=
  let nsRecs := findDelegation z qname in
  if 0 <? zlen nsRecs then Ok (mkResult [] nsRecs (collectGlue z nsRecs) RCODENoError false)
  else
    let? (answer, authority, rcode) := lookupAuthoritative z qname qtype in
    Ok (mkResult answer authority [] rcode true).

(** The records of the zone, in the order of a map iteration. *)
Definition allRecordsOrdered `{MapRange} (z : t) : list Record_ := concat (map snd (mapRange (byName z))).
End zoneIndex.

(** ** The server *)

(** [acidns.ResponseWriter]: the peer, what has been written, and the writer's
    decision to fail on the next message. *)
Record ResponseWriter := mkWriter {
  RemoteAddr : AddrPort; LocalAddr : AddrPort; Network : bytes;
  written : list Message; refuses : list Message -> Message -> bool }.

Definition WriteMsg (w : ResponseWriter) (m : Message) : res ResponseWriter :=
  if refuses w (written w) m then Err ErrPlain
  else Ok (mkWriter (RemoteAddr w) (LocalAddr w) (Network w) (written w ++ [m]) (refuses w)).

(** [_ = w.WriteMsg(m)] *)
Definition reply (w : ResponseWriter) (m : Message) : ResponseWriter :=
  match WriteMsg w m with Ok w => w | Err _ => w end.

Definition Policy : Type := ResponseWriter -> Message -> bool.

(** [policy == nil || !policy(ctx, w, q)] *)
Definition denied (p : option Policy) (w : ResponseWriter) (q : Message) : bool :=
  match p with None => true | Some p => negb (p w q) end.

(** The state of a server.  [notifySem] is the capacity of the semaphore, if
    there is one, and [inflight] the number of handlers that hold it. *)
Record Server := mkServer {
  zones : gmap bytes zoneIndex.t;
  notifyHandler : bool; notifyPolicy : option Policy; notifySem : option Z; inflight : Z;
  axfrPolicy : option Policy; updatePolicy : option Policy; onUpdate : bool;
  maxUpdateRecords : Z; minimalANY : bool }.

Definition setZones (a : Server) (zs : gmap bytes zoneIndex.t) : Server :=
  mkServer zs (notifyHandler a) (notifyPolicy a) (notifySem a) (inflight a) (axfrPolicy a)
    (updatePolicy a) (onUpdate a) (maxUpdateRecords a) (minimalANY a).
Definition setInflight (a : Server) (n : Z) : Server :=
  mkServer (zones a) (notifyHandler a) (notifyPolicy a) (notifySem a) n (axfrPolicy a)
    (updatePolicy a) (onUpdate a) (maxUpdateRecords a) (minimalANY a).

(** Calls of the installed callbacks. *)
Inductive Event :=
  | NotifyCalled (zone : Question) (remote local : AddrPort) (network : bytes)
  | OnUpdateCalled (zone : Name) (oldSerial newSerial : Z).

(** The two sentinels of the package. *)
Inductive zoneError := ErrNoSOA | ErrApexCNAMEOrDNAME.

(** *** Zone management *)

(** The check that the apex carries neither CNAME nor DNAME. *)
Definition apexClash (z : Zone) : bool :=
  existsb (fun rec => Equal (r_name rec) (z_origin z) &&
                      ((RType rec =? rrtype.CNAME) || (RType rec =? rrtype.DNAME))) (z_records z).

Definition buildIndex (z : Zone) (soaRec : Record_) : zoneIndex.t :=
  fold_left zoneIndex.addRecord (z_records z) (zoneIndex.mk (z_origin z) soaRec ∅ ∅).

Definition AddZone (a : Server) (z : Zone) : zoneError + Server :=
  match Zone_SOA z with
  | None => inl ErrNoSOA
  | Some soaRec =>
      if apexClash z then inl ErrApexCNAMEOrDNAME
      else inr (setZones a (<[nameKey (z_origin z) := buildIndex z soaRec]> (zones a)))
  end.

(** ReloadZone repeats the body of AddZone. *)
Definition ReloadZone (a : Server) (z : Zone) : zoneError + Server :=
  match Zone_SOA z with
  | None => inl ErrNoSOA
  | Some soaRec =>
      if apexClash z then inl ErrApexCNAMEOrDNAME
      else inr (setZones a (<[nameKey (z_origin z) := buildIndex z soaRec]> (zones a)))
  end.

Definition Zones `{MapRange} (a : Server) : list Name :=
  map (fun kz => zoneIndex.origin kz.2) (mapRange (zones a)).

(** *** Options and New (option.go) *)
Inductive Opt :=
  | WithZone (z : Zone)
  | WithNotifyHandler (h : bool)
  | WithUpdatePolicy (p : option Policy)
  | WithAXFRPolicy (p : option Policy)
  | WithNotifyPolicy (p : option Policy)
  | WithMinimalANY (v : bool)
  | WithMaxNotifyInflight (n : Z)
  | WithOnUpdate (f : bool)
  | WithMaxUpdateRecords (n : Z).

(** [config]: the zones to add, the size of the semaphore, and the other
    fields as they are copied to the server. *)
Record config := mkConfig { c_zones : list Zone; maxNotifyInflight : Z; c_rest : Server }.

Definition defaultConfig : config :=
  mkConfig [] 32 (mkServer ∅ false None None 0 None None false 1000 true).

Definition applyOption (c : config) (o : Opt) : config :=
  let '(mkConfig zs n (mkServer m nh np ns i ap up ou mu ma)) := c in
  match o with
  | WithZone z => mkConfig (zs ++ [z]) n (mkServer m nh np ns i ap up ou mu ma)
  | WithNotifyHandler h => mkConfig zs n (mkServer m h np ns i ap up ou mu ma)
  | WithUpdatePolicy p => mkConfig zs n (mkServer m nh np ns i ap p ou mu ma)
  | WithAXFRPolicy p => mkConfig zs n (mkServer m nh np ns i p up ou mu ma)
  | WithNotifyPolicy p => mkConfig zs n (mkServer m nh p ns i ap up ou mu ma)
  | WithMinimalANY v => mkConfig zs n (mkServer m nh np ns i ap up ou mu v)
  | WithMaxNotifyInflight k => mkConfig zs k (mkServer m nh np ns i ap up ou mu ma)
  | WithOnUpdate f => mkConfig zs n (mkServer m nh np ns i ap up f mu ma)
  | WithMaxUpdateRecords k => mkConfig zs n (mkServer m nh np ns i ap up ou k ma)
  end.

Fixpoint addZones (a : Server) (zs : list Zone) : zoneError + Server :=
  match zs with
  | [] => inr a
  | z :: zs => match AddZone a z with inl e => inl e | inr a => addZones a zs end
  end.

Definition New (opts : list Opt) : zoneError + Server :=
  let '(mkConfig zs n (mkServer m nh np _ i ap up ou mu ma)) := fold_left applyOption opts defaultConfig in
  addZones (mkServer m nh np (if 0 <? n then Some n else None) i ap up ou mu ma) zs.

(** *** Building responses *)
Import MessageBuilder (NewMessageBuilder).

(** [uint8(code) & 0x0f] in the header, [uint8(code) >> 4] in the OPT. *)
Definition setRCODE (b : MessageBuilder.t) (q : Message) (code : Z) : MessageBuilder.t :=
  let b := b |> MessageBuilder.RCODE (Z.land (to_u8 code) 0x0f) in
  if negb (hasEDNS q) then b
  else
    let eb := EDNSBuilder.NewEDNSBuilder |> EDNSBuilder.UDPSize 1232 |> EDNSBuilder.DO (do_ (edns q)) in
    let hi := Z.shiftr (to_u8 code) 4 in
    let eb := if negb (hi =? 0) then eb |> EDNSBuilder.ExtendedRCODE hi else eb in
    match fst (EDNSBuilder.Build eb) with
    | Err _ => b
    | Ok ed => b |> MessageBuilder.EDNS_ ed
    end.
Definition echoEDNS (b : MessageBuilder.t) (q : Message) : MessageBuilder.t := setRCODE b q RCODENoError.

(** [wire.NewMessageBuilder().ID(q.ID()).Response(true).RecursionDesired(...)] *)
Definition replyTo (q : Message) : MessageBuilder.t :=
  NewMessageBuilder |> MessageBuilder.ID (id q) |> MessageBuilder.Response true
    |> MessageBuilder.RecursionDesired (RecursionDesired (flags q)).

Definition mustBuild (b : MessageBuilder.t) (q : Message) : Message :=
  match fst (MessageBuilder.Build b) with
  | Ok m => m
  | Err _ =>
      let fb := replyTo q in
      let fb := match questions q with qs0 :: _ => fb |> MessageBuilder.Question_ qs0 | [] => fb end in
      let fb := setRCODE fb q RCODEServFail in
      match fst (MessageBuilder.Build fb) with
      | Ok out => out
      | Err _ =>
          match fst (MessageBuilder.Build
                  (NewMessageBuilder |> MessageBuilder.Response true |> MessageBuilder.RCODE RCODEServFail)) with
          | Ok out => out
          | Err _ => zeroMessage
          end
      end
  end.

(** [time.Hour] *)
Definition rfc8482HINFOTTLCap : Z := 3600 * Second.

Definition buildRFC8482HINFO (qname : Name) (z : zoneIndex.t) : Record_ :=
  let ttl := match asSOA (zoneIndex.soaRec z) with
             | Some (RD_SOA _ _ _ _ _ _ m) =>
                 if (0 <? m) && (m <? rfc8482HINFOTTLCap) then m else rfc8482HINFOTTLCap
             | _ => rfc8482HINFOTTLCap
             end in
  match NewHINFO [82; 70; 67; 56; 52; 56; 50] [] with
  | Ok rd => NewRecord qname ttl rd
  | Err _ => NewRecord qname ttl (RD_HINFO [] [])
  end.

(** *** Answering queries *)
Definition findZone (a : Server) (name : Name) : option zoneIndex.t :=
  walkUp (fun cur => zones a !! nameKey cur) name.

(** [b = b.Answer(r)] for every record, and likewise for the other sections. *)
Definition addAll (add : Record_ -> MessageBuilder.t -> MessageBuilder.t) (rs : list Record_)
    (b : MessageBuilder.t) : MessageBuilder.t := fold_left (fun b r => add r b) rs b.

Definition answer (a : Server) (q : Message) : res Message :=
  let b := replyTo q in
  match questions q with
  | [] => Ok (mustBuild (setRCODE b q RCODEFormErr) q)
  | question :: _ =>
      let b := b |> MessageBuilder.Question_ question in
      match findZone a (q_name question) with
      | None => Ok (mustBuild (setRCODE b q RCODERefused) q)
      | Some zone =>
          if (minimalANY a && (q_typ question =? rrtype.ANY) && (q_class question =? rrtype.ClassIN)) &&
             (zlen (zoneIndex.findDelegation zone (q_name question)) =? 0)
          then
            let hinfo := buildRFC8482HINFO (q_name question) zone in
            let b := b |> MessageBuilder.Authoritative true |> MessageBuilder.Answer hinfo in
            Ok (mustBuild (setRCODE b q RCODENoError) q)
          else
            let? r := zoneIndex.lookup_ zone (q_name question) (q_typ question) in
            let b := b |> MessageBuilder.Authoritative (zoneIndex.l_aa r)
                       |> addAll MessageBuilder.Answer (zoneIndex.l_answer r)
                       |> addAll MessageBuilder.Authority (zoneIndex.l_authority r)
                       |> addAll MessageBuilder.Additional (zoneIndex.l_additional r) in
            Ok (mustBuild (setRCODE b q (zoneIndex.l_rcode r)) q)
      end
  end.

(** *** Zone transfer *)
Definition AXFRChunkBudget : Z := 16 * 1024.

Definition estimateRecordSize (rec : Record_) : Z := WireLen (r_name rec) + 10 + zlen (rdataBytes rec).

(** State of the streamer: the writer, the builder and [used]. *)
Record stream := mkStream { s_w : ResponseWriter; s_b : MessageBuilder.t; s_used : Z }.

(** The header of every message of the transfer, [header().Authoritative(true)]. *)
Definition axfrHeader (q : Message) (question : Question) : MessageBuilder.t :=
  replyTo q |> MessageBuilder.Question_ question |> MessageBuilder.Authoritative true.

(** [flush()] *)
Definition axfrFlush (q : Message) (question : Question) (s : stream) : res stream :=
  let? w := WriteMsg (s_w s) (mustBuild (s_b s) q) in
  Ok (mkStream w (axfrHeader q question) 0).

(** One iteration of the loop over [body]. *)
Definition axfrStep (q : Message) (question : Question) (soaSize : Z) (s : stream) (rec : Record_)
    : res stream :=
  if RType rec =? rrtype.SOA then Ok s
  else
    let recSize := estimateRecordSize rec in
    let? s := (if (0 <? s_used s) && (AXFRChunkBudget <? s_used s + recSize + soaSize)
               then axfrFlush q question s else Ok s) in
    Ok (mkStream (s_w s) (s_b s |> MessageBuilder.Answer rec) (s_used s + recSize)).

(** The state is kept on an error too: what was written stays written. *)
Fixpoint axfrLoop (q : Message) (question : Question) (soaSize : Z) (s : stream) (body : list Record_)
    : bool * stream :=
  match body with
  | [] => (true, s)
  | rec :: body =>
      match axfrStep q question soaSize s rec with
      | Ok s => axfrLoop q question soaSize s body
      | Err _ => (false, s)
      end
  end.

(** The writer after the call, and whether it returned nil. *)
Definition StreamAXFR (w : ResponseWriter) (q : Message) (soa : Record_) (body : list Record_)
    : ResponseWriter * bool :=
  match questions q with
  | [] => (w, false)
  | question :: _ =>
      let soaSize := estimateRecordSize soa in
      let s := mkStream w (axfrHeader q question |> MessageBuilder.Answer soa) soaSize in
      let '(ok, s) := axfrLoop q question soaSize s body in
      if negb ok then (s_w s, false)
      else
        let fin := if AXFRChunkBudget <? s_used s + soaSize then axfrFlush q question s else Ok s in
        match fin with
        | Err _ => (s_w s, false)
        | Ok s =>
            match WriteMsg (s_w s) (mustBuild (s_b s |> MessageBuilder.Answer soa) q) with
            | Ok w => (w, true)
            | Err _ => (s_w s, false)
            end
        end
  end.

Definition tcp : bytes := [116; 99; 112].

Definition serveAXFR `{MapRange} (a : Server) (w : ResponseWriter) (q : Message) (question : Question)
    : ResponseWriter :=
  let refuse code := reply w (mustBuild (setRCODE (replyTo q |> MessageBuilder.Question_ question) q code) q) in
  if negb (bool_decide (Network w = tcp)) then refuse RCODERefused
  else
    match findZone a (q_name question) with
    | None => refuse RCODERefused
    | Some zone =>
        if negb (Equal (zoneIndex.origin zone) (q_name question)) then refuse RCODENotAuth
        else if denied (axfrPolicy a) w q then refuse RCODERefused
        else fst (StreamAXFR w q (zoneIndex.soaRec zone) (zoneIndex.allRecordsOrdered zone))
    end.

(** *** NOTIFY (notify.go) *)
Definition serveNotify (a : Server) (w : ResponseWriter) (q : Message)
    : Server * ResponseWriter * list Event :=
  let b := NewMessageBuilder |> MessageBuilder.ID (id q) |> MessageBuilder.Response true
             |> MessageBuilder.Opcode OpcodeNotify in
  let b := fold_left (fun b qq => b |> MessageBuilder.Question_ qq) (questions q) b in
  match questions q with
  | [] => (a, reply w (mustBuild (setRCODE b q RCODEFormErr) q), [])
  | zoneQ :: _ =>
      match zones a !! nameKey (q_name zoneQ) with
      | None => (a, reply w (mustBuild (setRCODE b q RCODENotAuth) q), [])
      | Some _ =>
          if denied (notifyPolicy a) w q
          then (a, reply w (mustBuild (setRCODE b q RCODERefused) q), [])
          else
            let w := reply w (mustBuild (echoEDNS b q |> MessageBuilder.Authoritative true) q) in
            let call := NotifyCalled zoneQ (RemoteAddr w) (LocalAddr w) (Network w) in
            if negb (notifyHandler a) then (a, w, [])
            else
              match notifySem a with
              | None => (a, w, [call])
              | Some cap =>
                  if inflight a <? cap then (setInflight a (inflight a + 1), w, [call])
                  else (a, w, [])
              end
      end
  end.

(** [<-sem], when a handler returns. *)
Definition notifyDone (a : Server) : Server :=
  match notifySem a with
  | Some _ => setInflight a (inflight a - 1)
  | None => a
  end.
