(* ===== verification/Update.v ===== *)
(** * Dynamic update (src/authoritative/update.go) and the handler's dispatch

    An UPDATE is checked against a snapshot under the read lock, then checked
    again and applied to a clone under the write lock.  The two critical
    sections are two operations, [updateCheck] and [updateCommit], so that
    other requests may come between them; [serveUpdate] runs them in
    sequence. *)

From S2P Require Import Prelude Name Wire RData RDataNew Message Compare Authoritative.

Module Update.
Import zoneIndex.

(** [len(rdata.Pack(r.RData())) > 0] *)
Definition hasRData (r : Record_) : bool := 0 <? zlen (rdataBytes r).

(** The loop goes on while the name is valid and differs from its parent. *)
Definition inBailiwick (origin name : Name) : bool :=
  default false (walkUp (fun cur =>
    if negb (IsValid cur) then Some false
    else if Equal cur origin then Some true
    else match Parent cur with
         | None => Some false
         | Some p => if Equal cur p then Some false else None
         end) name).

Definition hasName (z : t) (name : Name) : bool :=
  match byName z !! nameKey name with Some _ => true | None => false end.

Definition hasType (z : t) (name : Name) (typ : Z) : bool :=
  match byName z !! nameKey name with
  | None => false
  | Some recs => existsb (fun r => RType r =? typ) recs
  end.

Definition rdataEqual (a b : Record_) : bool :=
  if negb (RType a =? RType b) then false else bool_decide (rdataBytes a = rdataBytes b).

(** *** Prerequisites *)

(** [want]: the expected rdata by name key and type. *)
Abbreviation Want := (gmap (bytes * Z) (gset bytes)).

(** One iteration of the first loop: an RCODE to return, or the new [want]. *)
Definition prereqStep (z : t) (want : Want) (p : Record_) : Z + Want :=
  if negb (r_ttl p =? 0) then inl RCODEFormErr
  else if r_class p =? rrtype.ClassANY then
    if hasRData p then inl RCODEFormErr
    else if RType p =? rrtype.ANY then
      if negb (hasName z (r_name p)) then inl RCODENXDomain else inr want
    else if negb (hasType z (r_name p) (RType p)) then inl RCODENXRRSet else inr want
  else if r_class p =? rrtype.ClassNONE then
    if hasRData p then inl RCODEFormErr
    else if RType p =? rrtype.ANY then
      if hasName z (r_name p) then inl RCODEYXDomain else inr want
    else if hasType z (r_name p) (RType p) then inl RCODEYXRRSet else inr want
  else if r_class p =? rrtype.ClassIN then
    let k := (nameKey (r_name p), RType p) in
    inr (<[k := {[rdataBytes p]} ∪ default ∅ (want !! k)]> want)
  else inl RCODEFormErr.

Fixpoint prereqLoop (z : t) (want : Want) (ps : list Record_) : Z + Want :=
  match ps with
  | [] => inr want
  | p :: ps => match prereqStep z want p with inl rc => inl rc | inr want => prereqLoop z want ps end
  end.

(** The rdata of the zone's records at a name key and type. *)
Definition gotSet (recs : list Record_) (typ : Z) : gset bytes :=
  list_to_set (map rdataBytes (List.filter (fun r => RType r =? typ) recs)).

(** One iteration of the loop over [want]. *)
Definition wantMet (z : t) (k : bytes * Z) (set : gset bytes) : bool :=
  match byName z !! k.1 with
  | None => false
  | Some recs =>
      let got := gotSet recs k.2 in
      if negb (Z.of_nat (size got) =? Z.of_nat (size set)) then false
      else bool_decide (set ⊆ got)
  end.

Definition evaluatePrereqs `{MapRange} (z : t) (prereqs : list Record_) : Z :=
  match prereqLoop z ∅ prereqs with
  | inl rcode => rcode
  | inr want =>
      if forallb (fun kv => wantMet z kv.1 kv.2) (mapRange want) then RCODENoError else RCODENXRRSet
  end.

(** *** The update section *)
Definition validUpdate (z : t) (u : Record_) : bool :=
  if r_class u =? rrtype.ClassANY then negb (negb (r_ttl u =? 0) || hasRData u)
  else if r_class u =? rrtype.ClassNONE then negb (negb (r_ttl u =? 0) || negb (hasRData u))
  else if r_class u =? rrtype.ClassIN then
    negb (Equal (r_name u) (origin z) && ((RType u =? rrtype.CNAME) || (RType u =? rrtype.DNAME)))
  else false.
Definition validateUpdates (z : t) (updates : list Record_) : Z :=
  if forallb (validUpdate z) updates then RCODENoError else RCODEFormErr.

Definition setByName (z : t) (m : gmap bytes (list Record_)) : t := mk (origin z) (soaRec z) m (namesExist z).

Definition markExists (z : t) (n : Name) : t :=
  mk (origin z) (soaRec z) (byName z) (markNames (origin z) n (namesExist z)).

(** [if len(kept) == 0 { delete(...) } else { z.byName[k] = kept }] *)
Definition store (z : t) (k : bytes) (kept : list Record_) : t :=
  if zlen kept =? 0 then setByName z (delete k (byName z)) else setByName z (<[k := kept]> (byName z)).

(** The three filtering deletions: drop the records that satisfy [drop], and
    report whether there were any. *)
Definition deleteMatching (z : t) (k : bytes) (recs : list Record_) (drop : Record_ -> bool) : t * bool :=
  if negb (existsb drop recs) then (z, false)
  else (store z k (List.filter (fun r => negb (drop r)) recs), true).

Definition isSOA (r : Record_) : bool := RType r =? rrtype.SOA.
Definition isSOAorNS (r : Record_) : bool := (RType r =? rrtype.SOA) || (RType r =? rrtype.NS).

Definition applyUpdate (z : t) (u : Record_) : t * bool :=
  let name := r_name u in
  let typ := RType u in
  let k := nameKey name in
  if r_class u =? rrtype.ClassANY then
    match byName z !! k with
    | None => (z, false)
    | Some recs =>
        if Equal name (origin z) &&
           ((typ =? rrtype.SOA) || (typ =? rrtype.NS) || (typ =? rrtype.ANY)) then
          if typ =? rrtype.ANY then deleteMatching z k recs (fun r => negb (isSOAorNS r))
          else (z, false)
        else if typ =? rrtype.ANY then (setByName z (delete k (byName z)), true)
        else deleteMatching z k recs (fun r => RType r =? typ)
    end
  else if r_class u =? rrtype.ClassNONE then
    match byName z !! k with
    | None => (z, false)
    | Some recs =>
        if Equal name (origin z) && ((typ =? rrtype.SOA) || (typ =? rrtype.NS)) then (z, false)
        else deleteMatching z k recs (fun r => (RType r =? typ) && rdataEqual r u)
    end
  else
    let stored := mkRecord name rrtype.ClassIN (r_ttl u) (r_rd u) in
    let recs := at_ z k in
    if existsb (fun r => (RType r =? typ) && (r_ttl r =? r_ttl u) && rdataEqual r u) recs then (z, false)
    else if Equal name (origin z) && (typ =? rrtype.SOA) then
      let out := List.filter (fun r => negb (isSOA r)) recs ++ [stored] in
      (markExists (mk (origin z) stored (<[k := out]> (byName z)) (namesExist z)) name, true)
    else (markExists (setByName z (<[k := recs ++ [stored]]> (byName z))) name, true).

Definition rebuildNamesExist `{MapRange} (z : t) : t :=
  let out := fold_left (fun out kr =>
    match kr.2 with
    | [] => out
    | r :: _ => markNames (origin z) (r_name r) out
    end) (mapRange (byName z)) ∅ in
  mk (origin z) (soaRec z) (byName z) ({[nameKey (origin z)]} ∪ out).

(** Replace the first SOA of the list, or append. *)
Fixpoint replaceSOA (recs : list Record_) (newRec : Record_) : list Record_ :=
  match recs with
  | [] => [newRec]
  | r :: recs => if isSOA r then newRec :: recs else r :: replaceSOA recs newRec
  end.

Definition bumpSOA (z : t) : t :=
  match asSOA (soaRec z) with
  | Some (RD_SOA mname rname serial refresh retry expire minimum) =>
      match NewSOA mname rname (to_u32 (serial + 1)) refresh retry expire minimum with
      | Err _ => z
      | Ok bumped =>
          let newRec := NewRecord (r_name (soaRec z)) (r_ttl (soaRec z)) bumped in
          let apexKey := nameKey (origin z) in
          mk (origin z) newRec (<[apexKey := replaceSOA (at_ z apexKey) newRec]> (byName z)) (namesExist z)
      end
  | _ => z
  end.

(** [soa.Serial()] of the zone's SOA record, zero when it has none. *)
Definition serialOf (z : t) : Z :=
  match asSOA (soaRec z) with Some (RD_SOA _ _ serial _ _ _ _) => serial | _ => 0 end.

Fixpoint applyAll (z : t) (changed : bool) (us : list Record_) : t * bool :=
  match us with
  | [] => (z, changed)
  | u :: us => let '(z, c) := applyUpdate z u in applyAll z (changed || c) us
  end.

(** The zone after the updates, whether it changed, and the two serials. *)
Definition updatedZone `{MapRange} (zone : t) (updates : list Record_) : t * bool * Z * Z :=
  let '(newZone, changed) := applyAll zone false updates in
  let oldSerial := serialOf newZone in
  if changed : bool then
    let newZone := rebuildNamesExist (bumpSOA newZone) in
    (newZone, true, oldSerial,
     match asSOA (soaRec newZone) with Some _ => serialOf newZone | None => oldSerial end)
  else (newZone, false, oldSerial, oldSerial).
End Update.

(** ** The handler *)

(** What the two critical sections check, against the zones at that moment:
    an RCODE to return, or the zone to update. *)
Definition checkUpdate `{MapRange} (a : Server) (zoneName : Name) (q : Message) : Z + zoneIndex.t :=
  match zones a !! nameKey zoneName with
  | None => inl RCODENotAuth
  | Some zone =>
      let rcode := Update.evaluatePrereqs zone (answers q) in
      if negb (rcode =? RCODENoError) then inl rcode
      else
        let rcode := Update.validateUpdates zone (authorities q) in
        if negb (rcode =? RCODENoError) then inl rcode else inr zone
  end.

(** serveUpdate up to and including the section under the read lock: an RCODE
    to reply with, or the zone name to go on with. *)
Definition updateCheck `{MapRange} (a : Server) (w : ResponseWriter) (q : Message) : Z + Name :=
  match questions q with
  | [zoneQ] =>
      if negb (q_typ zoneQ =? rrtype.SOA) then inl RCODEFormErr
      else
        let zoneName := q_name zoneQ in
        if (0 <? maxUpdateRecords a) && (maxUpdateRecords a <? zlen (answers q) + zlen (authorities q))
        then inl RCODEFormErr
        else if denied (updatePolicy a) w q then inl RCODERefused
        else if negb (forallb (fun p => Update.inBailiwick zoneName (r_name p)) (answers q)) then inl RCODENotZone
        else if negb (forallb (fun u => Update.inBailiwick zoneName (r_name u)) (authorities q)) then inl RCODENotZone
        else match checkUpdate a zoneName q with inl rcode => inl rcode | inr _ => inr zoneName end
  | _ => inl RCODEFormErr
  end.

(** The section under the write lock: the new server, the RCODE, and the call
    of OnUpdate that follows the reply. *)
Definition updateCommit `{MapRange} (a : Server) (zoneName : Name) (q : Message)
    : Server * Z * list Event :=
  match checkUpdate a zoneName q with
  | inl rcode => (a, rcode, [])
  | inr zone =>
      let '(newZone, changed, oldSerial, newSerial) := Update.updatedZone zone (authorities q) in
      (setZones a (<[nameKey zoneName := newZone]> (zones a)), RCODENoError,
       if changed && onUpdate a then [OnUpdateCalled zoneName oldSerial newSerial] else [])
  end.

(** The reply to an UPDATE with the given RCODE. *)
Definition updateReply (q : Message) (rcode : Z) : Message :=
  let b := MessageBuilder.NewMessageBuilder |> MessageBuilder.ID (id q) |> MessageBuilder.Response true
             |> MessageBuilder.Opcode OpcodeUpdate in
  let b := fold_left (fun b qq => b |> MessageBuilder.Question_ qq) (questions q) b in
  mustBuild (setRCODE b q rcode) q.

Definition serveUpdate `{MapRange} (a : Server) (w : ResponseWriter) (q : Message)
    : Server * ResponseWriter * list Event :=
  match updateCheck a w q with
  | inl rcode => (a, reply w (updateReply q rcode), [])
  | inr zoneName =>
      let '(a, rcode, events) := updateCommit a zoneName q in
      (a, reply w (updateReply q rcode), events)
  end.

Definition ServeDNS `{MapRange} (a : Server) (w : ResponseWriter) (q : Message)
    : res (Server * ResponseWriter * list Event) :=
  if Opcode (flags q) =? OpcodeUpdate then Ok (serveUpdate a w q)
  else if Opcode (flags q) =? OpcodeNotify then Ok (serveNotify a w q)
  else
    let plain := let? resp := answer a q in Ok (a, reply w resp, []) in
    match questions q with
    | [question] =>
        if q_typ question =? rrtype.AXFR then Ok (a, serveAXFR a w q question, [])
        else if q_typ question =? rrtype.IXFR then Ok (a, serveAXFR a w q question, [])
        else plain
    | _ => plain
    end.
