(* ===== verification/ZoneTree.v ===== *)
(** * The tree of names and the index invariant

    [anc n p]: [p] is [n] or one of its ancestors.  The walks of the server
    are characterised by it, and [zone_ok] is what every published zone index
    satisfies. *)

From S2P Require Import Prelude Name Wire RData RDataNew Message Compare Authoritative Update.

(** ** Ancestors *)

Definition up (n p : Name) : Prop := Parent n = Some p.
Abbreviation anc := (rtc up).

Lemma Name_ext n m : wire n = wire m -> n = m.
Proof. destruct n, m; cbn; congruence. Qed.
Lemma Equal_iff n m : Equal n m = true <-> n = m.
Proof. unfold Equal. rewrite bool_decide_eq_true. split; [apply Name_ext|congruence]. Qed.
Lemma Equal_false n m : Equal n m = false <-> n <> m.
Proof. rewrite <- Equal_iff. destruct (Equal n m); split; congruence. Qed.
Lemma Equal_refl n : Equal n n = true.
Proof. by apply Equal_iff. Qed.

#[export] Instance Name_eq_dec : EqDecision Name.
Proof. intros n m. destruct (Equal n m) eqn:E; [left; by apply Equal_iff|right; by apply Equal_false]. Defined.

Lemma canonical_valid n : canonical n -> IsValid n = true.
Proof. intros (ls & Hw & _). by eapply wf_valid. Qed.

(** A canonical name is the root or a label and its parent. *)
Lemma canonical_cases n : canonical n ->
  (n = Root /\ Parent n = None) \/
  exists l ls p, wf_name n (l :: ls) /\ Forall folded (l :: ls) /\ Parent n = Some p /\ wf_name p ls.
Proof.
  intros ([|l ls] & Hw & Hf).
  - left. assert (n = Root) as -> by (apply Name_ext; apply Hw). done.
  - right. destruct (Parent_wf _ _ _ Hw) as (p & Hp & Hwp). by exists l, ls, p.
Qed.

Lemma canonical_up n p : canonical n -> up n p -> canonical p.
Proof.
  intros Hc Hup. destruct (canonical_cases n Hc) as [[-> H]|(l & ls & p' & Hw & Hf & Hp & Hwp)].
  - unfold up in Hup. congruence.
  - unfold up in Hup. rewrite Hp in Hup. injection Hup as <-. exists ls. split; [done|]. by inversion Hf.
Qed.
Lemma canonical_anc n p : canonical n -> anc n p -> canonical p.
Proof. intros Hc H. induction H; eauto using canonical_up. Qed.

Lemma up_shorter n p : canonical n -> up n p -> (length (wire p) < length (wire n))%nat.
Proof.
  intros Hc Hup. destruct (canonical_cases n Hc) as [[-> H]|(l & ls & p' & Hw & Hf & Hp & Hwp)].
  - unfold up in Hup. congruence.
  - unfold up in Hup. rewrite Hp in Hup. injection Hup as <-.
    destruct Hw as (-> & _), Hwp as (-> & _). rewrite encName_cons, length_app. cbn. lia.
Qed.

(** Induction along the path to the root. *)
Lemma name_ind (P : Name -> Prop) :
  (forall n, canonical n -> (forall p, up n p -> P p) -> P n) -> forall n, canonical n -> P n.
Proof.
  intros IH n. remember (length (wire n)) as k eqn:Hk. revert n Hk.
  induction k as [k IHk] using lt_wf_ind. intros n -> Hc. apply IH; [done|].
  intros p Hup. eapply IHk; eauto using up_shorter, canonical_up.
Qed.

Lemma anc_shorter n p : canonical n -> anc n p -> n = p \/ (length (wire p) < length (wire n))%nat.
Proof.
  intros Hc H. induction H as [|x y z Hxy Hyz IH]; [by left|]. right.
  pose proof (up_shorter _ _ Hc Hxy). destruct (IH (canonical_up _ _ Hc Hxy)) as [->|?]; lia.
Qed.
Lemma anc_antisym n p : canonical n -> canonical p -> anc n p -> anc p n -> n = p.
Proof.
  intros Hn Hp H1 H2. destruct (anc_shorter _ _ Hn H1) as [|?]; [done|].
  destruct (anc_shorter _ _ Hp H2) as [|?]; [done|lia].
Qed.

(** Ancestors of one name form a chain. *)
Lemma anc_total n p q : anc n p -> anc n q -> anc p q \/ anc q p.
Proof.
  intros Hp. revert q. induction Hp as [n|n m p Hnm Hmp IH]; intros q Hq; [by left|].
  inversion Hq as [|? m' ? Hm' Hq']; subst; [right; by eapply rtc_l|].
  unfold up in *. rewrite Hnm in Hm'. injection Hm' as <-. auto.
Qed.

(** *** The walks *)

Lemma walkUp_loop_fuel {A} (f : Name -> option A) k1 k2 n :
  canonical n -> (length (wire n) < k1)%nat -> (length (wire n) < k2)%nat ->
  walkUp_loop k1 f n = walkUp_loop k2 f n.
Proof.
  intros Hc. revert k1 k2. induction Hc as [n Hc IH] using name_ind. intros k1 k2 H1 H2.
  destruct k1 as [|k1]; [lia|]. destruct k2 as [|k2]; [lia|]. cbn.
  destruct (f n); [done|]. destruct (Parent n) as [p|] eqn:E; [|done].
  pose proof (up_shorter _ _ Hc E). apply IH; [done|lia|lia].
Qed.

(** The loop's own equation: the bound on its iterations is never reached. *)
Lemma walkUp_step {A} (f : Name -> option A) n : canonical n ->
  walkUp f n = match f n with
               | Some x => Some x
               | None => match Parent n with None => None | Some p => walkUp f p end
               end.
Proof.
  intros Hc. unfold walkUp at 1. cbn [walkUp_loop]. destruct (f n); [done|].
  destruct (Parent n) as [p|] eqn:E; [|done]. pose proof (up_shorter _ _ Hc E).
  apply walkUp_loop_fuel; [eauto using canonical_up|lia|lia].
Qed.

(** [first_up f n p x]: [p] is the first name on the way up from [n] at which
    [f] is defined, and [x] is its value. *)
Inductive first_up {A} (f : Name -> option A) : Name -> Name -> A -> Prop :=
  | first_here n x : f n = Some x -> first_up f n n x
  | first_above n m p x : f n = None -> up n m -> first_up f m p x -> first_up f n p x.

Lemma walkUp_Some {A} (f : Name -> option A) n x : canonical n ->
  walkUp f n = Some x <-> exists p, first_up f n p x.
Proof.
  intros Hc. revert x. induction Hc as [n Hc IH] using name_ind. intros x.
  rewrite walkUp_step by done. split.
  - destruct (f n) as [y|] eqn:E; [intros [= <-]; exists n; by constructor|].
    destruct (Parent n) as [p|] eqn:Ep; [|done]. intros H. apply IH in H as [q Hq]; [|done].
    exists q. by eapply first_above.
  - intros [p Hp]. inversion Hp as [? ? E|? m ? ? E Hup Hf]; subst; rewrite E; [done|].
    rewrite Hup. apply IH; eauto.
Qed.

Lemma walkUp_None {A} (f : Name -> option A) n : canonical n ->
  walkUp f n = None <-> forall p, anc n p -> f p = None.
Proof.
  intros Hc. induction Hc as [n Hc IH] using name_ind. rewrite walkUp_step by done. split.
  - destruct (f n) eqn:E; [done|]. intros H p Hp. inversion Hp as [|? m ? Hm Hp']; subst; [done|].
    rewrite Hm in H. by apply (IH m Hm).
  - intros H. rewrite (H n) by done. destruct (Parent n) as [p|] eqn:E; [|done].
    apply IH; [done|]. intros q Hq. apply H. by eapply rtc_l.
Qed.

Lemma first_up_anc {A} (f : Name -> option A) n p x : first_up f n p x -> anc n p /\ f p = Some x.
Proof. induction 1 as [|n m p x ? ? ? [? ?]]; [done|]. split; [by eapply rtc_l|done]. Qed.

(** The first hit is below every other. *)
Lemma first_up_least {A} (f : Name -> option A) n p x q y :
  first_up f n p x -> anc n q -> f q = Some y -> anc p q.
Proof.
  induction 1 as [|n m p x Hn Hup Hf IH]; [done|]. intros Hq Hy.
  inversion Hq as [|? m' ? Hm' Hq']; subst; [congruence|].
  unfold up in *. rewrite Hup in Hm'. injection Hm' as <-. auto.
Qed.

Lemma first_up_intro {A} (f : Name -> option A) n p x : anc n p -> f p = Some x ->
  (forall q, anc n q -> anc q p -> q <> p -> f q = None) -> canonical n -> first_up f n p x.
Proof.
  intros Hnp Hx. induction Hnp as [|n m p Hnm Hmp IH]; intros Hl Hc; [by constructor|].
  assert (n <> p) as Hne.
  { intros ->. pose proof (up_shorter _ _ Hc Hnm). apply canonical_up in Hnm; [|done].
    destruct (anc_shorter _ _ Hnm Hmp) as [->|?]; lia. }
  eapply first_above; [|done|].
  - apply Hl; [done| |done]. by eapply rtc_l.
  - apply IH; [done| |by eapply canonical_up]. intros q Hq Hqp Hne'. apply Hl; [by eapply rtc_l|done|done].
Qed.

(** *** Name keys *)

Lemma nameKey_wire n : canonical n -> nameKey n = wire n.
Proof. intros Hc. unfold nameKey, AppendWire. by rewrite canonical_valid. Qed.
Lemma nameKey_inj n m : canonical n -> canonical m -> nameKey n = nameKey m -> n = m.
Proof. intros Hn Hm. rewrite !nameKey_wire by done. apply Name_ext. Qed.

(** *** Marking a name and its ancestors *)

Lemma mark_loop_spec fuel o n s k : canonical n -> (length (wire n) < fuel)%nat ->
  anc n o ->
  k ∈ zoneIndex.mark_loop fuel o n s <-> k ∈ s \/ exists p, anc n p /\ anc p o /\ k = nameKey p.
Proof.
  intros Hc. revert fuel s. induction Hc as [n Hc IH] using name_ind. intros fuel s Hf Ho.
  destruct fuel as [|fuel]; [lia|]. cbn. destruct (Equal n o) eqn:E.
  - apply Equal_iff in E as <-. rewrite elem_of_union, elem_of_singleton. split.
    + intros [->|?]; [right; by exists n|by left].
    + intros [?|(p & H1 & H2 & ->)]; [by right|left]. f_equal.
      eapply anc_antisym; eauto using canonical_anc.
  - apply Equal_false in E. inversion Ho as [|? m ? Hm Hmo]; subst; [done|]. rewrite Hm.
    pose proof (up_shorter _ _ Hc Hm). rewrite (IH m Hm fuel) by (done || lia).
    rewrite elem_of_union, elem_of_singleton. split.
    + intros [[->|?]|(p & H1 & H2 & ->)]; [right; by exists n|by left|right].
      exists p. split; [by eapply rtc_l|done].
    + intros [?|(p & H1 & H2 & ->)]; [by left; right|].
      inversion H1 as [|? m' ? Hm' Hp]; subst; [by left; left|].
      unfold up in *. rewrite Hm in Hm'. injection Hm' as <-. right. by exists p.
Qed.
Lemma markNames_spec o n s k : canonical n -> anc n o ->
  k ∈ zoneIndex.markNames o n s <-> k ∈ s \/ exists p, anc n p /\ anc p o /\ k = nameKey p.
Proof. intros. apply mark_loop_spec; [done|lia|done]. Qed.

(** ** The invariant of a zone index *)

(** A payload that [NewSOA] accepts. *)
Definition valid_soa (r : Record_) : Prop :=
  exists m n s a b c d, r_rd r = Some (RD_SOA m n s a b c d) /\
    NewSOA m n s a b c d = Ok (RD_SOA m n s a b c d) /\ u32 s.

(** A record that may be in a zone: canonical names, at or below the origin,
    and a payload. *)
Definition rec_ok (o : Name) (r : Record_) : Prop :=
  canonical (r_name r) /\ anc (r_name r) o /\ is_Some (r_rd r) /\
  (forall t, asCNAME r = Some t -> canonical t) /\ (forall t, asDNAME r = Some t -> canonical t) /\
  (forall t, asNS r = Some t -> canonical t).

(** The records of [R] owned by a name. *)
Definition owned (R : list Record_) (n : Name) : list Record_ :=
  List.filter (fun r => Equal (r_name r) n) R.

(** A name exists in a zone with origin [o] and records [R] when it or a name
    below it owns a record (RFC 4592 section 2.2.2). *)
Definition exists_in (o : Name) (R : list Record_) (n : Name) : Prop :=
  anc n o /\ exists r, r ∈ R /\ anc (r_name r) n.

(** The index [z] represents the records [R]. *)
Record indexes (z : zoneIndex.t) (R : list Record_) : Prop := {
  ix_origin : canonical (zoneIndex.origin z);
  ix_recs : Forall (rec_ok (zoneIndex.origin z)) R;
  ix_byName n : canonical n ->
    zoneIndex.byName z !! nameKey n = match owned R n with [] => None | l => Some l end;
  ix_keys k : is_Some (zoneIndex.byName z !! k) -> exists n, canonical n /\ k = nameKey n;
  ix_exist k : k ∈ zoneIndex.namesExist z <->
    exists n, k = nameKey n /\ exists_in (zoneIndex.origin z) R n }.

Definition isCNAMEorDNAME (r : Record_) : bool := (RType r =? rrtype.CNAME) || (RType r =? rrtype.DNAME).

(** What holds at the apex: one SOA, which is the one the index caches, and
    neither CNAME nor DNAME. *)
Definition apex_ok (z : zoneIndex.t) (R : list Record_) : Prop :=
  List.filter Update.isSOA (owned R (zoneIndex.origin z)) = [zoneIndex.soaRec z] /\
  valid_soa (zoneIndex.soaRec z) /\
  Forall (fun r => isCNAMEorDNAME r = false) (owned R (zoneIndex.origin z)).

(** The same, where only under the condition [V] the SOA is one that [NewSOA]
    accepts. *)
Definition apex_at (V : Prop) (z : zoneIndex.t) (R : list Record_) : Prop :=
  List.filter Update.isSOA (owned R (zoneIndex.origin z)) = [zoneIndex.soaRec z] /\
  (V -> valid_soa (zoneIndex.soaRec z)) /\
  Forall (fun r => isCNAMEorDNAME r = false) (owned R (zoneIndex.origin z)).
Lemma apex_ok_at V z R : apex_ok z R -> apex_at V z R.
Proof. intros (? & ? & ?). by split_and!. Qed.
Lemma apex_at_ok (V : Prop) z R : V -> apex_at V z R -> apex_ok z R.
Proof. intros HV (? & ? & ?). split_and!; auto. Qed.

Definition zone_ok (V : Prop) (z : zoneIndex.t) : Prop := exists R, indexes z R /\ apex_at V z R.

(** *** Zones as loaded *)

(** A master file that describes a zone: records at or below the origin, one
    SOA, at the origin. *)
Definition zone_wf (f : Zone) : Prop :=
  canonical (z_origin f) /\ Forall (rec_ok (z_origin f)) (z_records f) /\
  exists s, List.filter Update.isSOA (z_records f) = [s] /\ r_name s = z_origin f /\ valid_soa s.

Lemma owned_app R S n : owned (R ++ S) n = owned R n ++ owned S n.
Proof. apply List.filter_app. Qed.
Lemma elem_of_owned R n r : r ∈ owned R n <-> r ∈ R /\ r_name r = n.
Proof. unfold owned. by rewrite !list_elem_of_In, filter_In, Equal_iff. Qed.
Lemma owned_nil R n : owned R n = [] <-> forall r, r ∈ R -> r_name r <> n.
Proof.
  split.
  - intros E r Hr Hn. assert (r ∈ owned R n) as H by by apply elem_of_owned. rewrite E in H. by apply not_elem_of_nil in H.
  - intros Hn. destruct (owned R n) as [|r l] eqn:E; [done|].
    assert (r ∈ owned R n) as H by (rewrite E; by left). apply elem_of_owned in H as [H1 H2]. by destruct (Hn r).
Qed.
Lemma exists_in_app o R S n : exists_in o (R ++ S) n <-> exists_in o R n \/ exists_in o S n.
Proof.
  unfold exists_in. setoid_rewrite elem_of_app. split.
  - intros (Ho & r & [Hr|Hr] & Ha); [left|right]; by split; [|exists r].
  - intros [(Ho & r & Hr & Ha)|(Ho & r & Hr & Ha)]; (split; [done|exists r; auto]).
Qed.
Lemma exists_in_one o r n : exists_in o [r] n <-> anc (r_name r) n /\ anc n o.
Proof.
  unfold exists_in. setoid_rewrite list_elem_of_singleton. split.
  - by intros (Ho & ? & -> & Ha).
  - intros [Ha Ho]. split; [done|by exists r].
Qed.
Lemma owned_one r n : owned [r] n = if Equal (r_name r) n then [r] else [].
Proof. done. Qed.

(** Adding a record to the index adds it to what it represents. *)
Lemma indexes_empty o s : canonical o -> indexes (zoneIndex.mk o s ∅ ∅) [].
Proof.
  intros Ho. constructor; [done|constructor| | |]; cbn.
  - intros n _. by rewrite lookup_empty.
  - intros k. rewrite lookup_empty. by intros [? ?].
  - intros k. rewrite elem_of_empty. split; [done|]. intros (n & _ & _ & r & Hr & _). by apply not_elem_of_nil in Hr.
Qed.

Lemma byName_insert_spec (m : gmap bytes (list Record_)) R r n :
  canonical (r_name r) -> canonical n ->
  (forall n, canonical n -> m !! nameKey n = match owned R n with [] => None | l => Some l end) ->
  <[nameKey (r_name r) := default [] (m !! nameKey (r_name r)) ++ [r]]> m !! nameKey n =
    match owned (R ++ [r]) n with [] => None | l => Some l end.
Proof.
  intros Hr Hn Hm. rewrite owned_app, owned_one. destruct (Equal (r_name r) n) eqn:E.
  - apply Equal_iff in E as <-. rewrite lookup_insert_eq, Hm by done. by destruct (owned R (r_name r)).
  - apply Equal_false in E. rewrite app_nil_r, lookup_insert_ne by (intros H; apply E; by apply nameKey_inj).
    by apply Hm.
Qed.

Lemma indexes_add z R r :
  indexes z R -> rec_ok (zoneIndex.origin z) r -> indexes (zoneIndex.addRecord z r) (R ++ [r]).
Proof.
  intros [Ho HR Hb Hk He] Hr. pose proof Hr as (Hc & Ha & _). constructor; cbn.
  - done.
  - apply Forall_app. by split; [|constructor].
  - intros n Hn. by apply byName_insert_spec.
  - intros k. rewrite lookup_insert_is_Some. intros [<-|[_ H]]; [by exists (r_name r)|auto].
  - intros k. rewrite markNames_spec, He by done. setoid_rewrite exists_in_app. setoid_rewrite exists_in_one.
    split.
    + intros [(n & -> & H)|(p & H1 & H2 & ->)]; eauto.
    + intros (n & -> & [H|[H1 H2]]); eauto.
Qed.

Lemma indexes_fold z R S :
  indexes z R -> Forall (rec_ok (zoneIndex.origin z)) S ->
  indexes (fold_left zoneIndex.addRecord S z) (R ++ S).
Proof.
  intros Hi HS. revert z R Hi HS. induction S as [|r S IH]; intros z R Hi HS; cbn; [by rewrite app_nil_r|].
  inversion HS; subst. rewrite cons_middle, app_assoc. apply IH; [by apply indexes_add|done].
Qed.

Lemma fold_addRecord_fixed S z :
  zoneIndex.origin (fold_left zoneIndex.addRecord S z) = zoneIndex.origin z /\
  zoneIndex.soaRec (fold_left zoneIndex.addRecord S z) = zoneIndex.soaRec z.
Proof. revert z. induction S as [|r S IH]; intros z; cbn; [done|]. by destruct (IH (zoneIndex.addRecord z r)). Qed.

Lemma RType_SOA_valid s : valid_soa s -> Update.isSOA s = true /\ is_Some (asSOA s).
Proof. intros (m & n & x & a & b & c & d & E & _). unfold Update.isSOA, RType, asSOA. rewrite E. by split. Qed.
Lemma asSOA_type s : is_Some (asSOA s) -> Update.isSOA s = true.
Proof. unfold asSOA, Update.isSOA, RType. destruct (r_rd s) as [[]|]; cbn; try (by intros []); done. Qed.

(** The only record of SOA type is the one [Zone.SOA] finds. *)
Lemma Zone_SOA_wf f s :
  List.filter Update.isSOA (z_records f) = [s] -> valid_soa s -> Zone_SOA f = Some s.
Proof.
  unfold Zone_SOA. intros E Hv. induction (z_records f) as [|r R IH]; cbn in *; [done|].
  destruct (Update.isSOA r) eqn:Er.
  - injection E as -> _. destruct (RType_SOA_valid s Hv) as [_ [x Hx]]. by rewrite Hx.
  - destruct (asSOA r) eqn:Ea; [|auto]. assert (Update.isSOA r = true) by (apply asSOA_type; eauto). congruence.
Qed.

Lemma filter_owned (f : Record_ -> bool) R n : List.filter f (owned R n) = owned (List.filter f R) n.
Proof.
  unfold owned. induction R as [|r R IH]; cbn; [done|].
  destruct (Equal (r_name r) n) eqn:E, (f r) eqn:F; cbn; rewrite ?E, ?F; by rewrite ?IH.
Qed.

Lemma buildIndex_ok f s : zone_wf f -> Zone_SOA f = Some s -> apexClash f = false ->
  indexes (buildIndex f s) (z_records f) /\ apex_ok (buildIndex f s) (z_records f).
Proof.
  intros (Ho & HR & s' & Es & Hn & Hv) Hs Hx. rewrite (Zone_SOA_wf f s') in Hs by done. injection Hs as <-.
  unfold buildIndex. set (z0 := zoneIndex.mk _ _ _ _).
  destruct (fold_addRecord_fixed (z_records f) z0) as [E1 E2]. split.
  - change (z_records f) with ([] ++ z_records f) at 2. apply indexes_fold; [by apply indexes_empty|done].
  - unfold apex_ok. rewrite E1, E2. cbn. split_and!; [|done|].
    + rewrite filter_owned, Es, owned_one, Hn, Equal_refl. done.
    + apply Forall_forall. intros r Hr. apply elem_of_owned in Hr as [Hr Hn'].
      unfold apexClash in Hx. rewrite <- not_true_iff_false, existsb_exists in Hx.
      apply not_true_iff_false. intros Hc. apply Hx. exists r.
      rewrite <- list_elem_of_In, Hn', Equal_refl. done.
Qed.

(** ** Concrete names *)

(** The name with the given labels; [labels_okb] decides that it is canonical. *)
Definition nm (ls : list bytes) : Name := mkName (encName ls).

Definition labels_okb (ls : list bytes) : bool :=
  forallb (fun l => (1 <=? zlen l) && (zlen l <=? 63) &&
                    forallb (fun c => (0 <=? c) && (c <? 256) && (foldByte c =? c)) l) ls &&
  (zlen (encName ls) <=? 255).

Lemma labels_okb_canonical ls : labels_okb ls = true -> wf_name (nm ls) ls /\ canonical (nm ls).
Proof.
  intros H. apply andb_prop in H as [H Hl]. rewrite forallb_forall in H. bool_facts.
  assert (Forall label_ok ls /\ Forall folded ls) as [Hok Hf].
  { split; apply Forall_forall; intros l Hi; apply list_elem_of_In, H in Hi;
      apply andb_prop in Hi as [Hi Hc]; apply andb_prop in Hi as [H1 H2]; rewrite forallb_forall in Hc; bool_facts.
    - split; [lia|]. apply Forall_forall. intros c Hi. apply list_elem_of_In, Hc in Hi.
      apply andb_prop in Hi as [Hi _]. unfold u8. lia.
    - unfold folded. rewrite <- (map_id l) at 2. apply map_ext_in. intros c Hi. apply Hc in Hi.
      apply andb_prop in Hi as [_ Hi]. bool_facts. done. }
  assert (wf_name (nm ls) ls) as Hw by (split; [done|]; split; [done|]; unfold maxNameLen; cbn [nm wire]; lia).
  split; [done|]. by exists ls.
Qed.

Lemma anc_nm pre ls : labels_okb (pre ++ ls) = true -> anc (nm (pre ++ ls)) (nm ls).
Proof.
  intros H. apply labels_okb_canonical in H as [Hw _]. revert Hw.
  induction pre as [|l pre IH]; intros Hw; [done|].
  destruct (Parent_wf _ _ _ Hw) as (p & Hp & Hwp).
  assert (p = nm (pre ++ ls)) as -> by (apply Name_ext; by destruct Hwp as [-> _]).
  eapply rtc_l; [done|auto].
Qed.
