(* ===== verification/ZoneLookup.v ===== *)
(** * Answering from a zone: RFC 1034 section 4.3.2 and RFC 4592

    [resolves] says, of the records of a zone alone and without reference to
    the index, which answer a query has.  The server's lookup computes it. *)

From S2P Require Import Prelude Name Wire RData RDataNew Message Compare Authoritative Update ZoneTree.

(** ** The specification *)

(** What the records at one name, or their absence, say about a query. *)
Inductive outcome :=
  | Found (rs : list Record_)
  | NoData
  | NoName
  | Redirect (rs : list Record_) (next : Name).

Definition isAlias {A} (f : Record_ -> option A) (r : Record_) : bool :=
  match f r with Some _ => true | None => false end.

(** [x] is the first element of [l] that satisfies [f]. *)
Definition first_in {A} (f : A -> bool) (l : list A) (x : A) : Prop :=
  exists l1 l2, l = l1 ++ x :: l2 /\ f x = true /\ Forall (fun y => f y = false) l1.

Definition rrset (l : list Record_) (t : Z) : list Record_ := List.filter (fun r => RType r =? t) l.

(** The records of one owner, asked for type [t]. *)
Inductive selects (l : list Record_) (t : Z) : outcome -> Prop :=
  | sel_found : rrset l t <> [] -> selects l t (Found (rrset l t))
  | sel_cname c target : rrset l t = [] -> t <> rrtype.CNAME ->
      first_in (isAlias asCNAME) l c -> asCNAME c = Some target -> selects l t (Redirect [c] target)
  | sel_nodata : rrset l t = [] ->
      (t = rrtype.CNAME \/ Forall (fun r => asCNAME r = None) l) -> selects l t NoData.

Section Spec.
Context (o : Name) (R : list Record_).

(** [p] is a proper ancestor of [n]. *)
Definition above (n p : Name) : Prop := exists m, up n m /\ anc m p.

(** The closest encloser (RFC 4592 section 3.3.1). *)
Definition closest_encloser (n e : Name) : Prop :=
  above n e /\ exists_in o R e /\ forall q, above n q -> exists_in o R q -> anc e q.

(** [w] is the wildcard below [e]. *)
Definition wildcard (e w : Name) : Prop := canonical w /\ Labels w = zoneIndex.star :: Labels e.

(** [s] is [n] with its suffix [p] replaced by [target]. *)
Definition substituted (n p target s : Name) : Prop :=
  exists pre, Labels n = pre ++ Labels p /\ canonical s /\ Labels s = pre ++ Labels target.

(** The DNAME record [d] at the nearest ancestor of [n] that has one redirects
    [n] to [s] (RFC 6672 section 3.2). *)
Definition dname_redirects (n : Name) (d : Record_) (s : Name) : Prop :=
  exists p target,
    above n p /\ first_in (isAlias asDNAME) (owned R p) d /\ asDNAME d = Some target /\
    (forall q, above n q -> anc q p -> q <> p -> Forall (fun r => asDNAME r = None) (owned R q)) /\
    substituted n p target s.

(** The owner of records synthesised from a wildcard is the query name. *)
Definition renamed (n : Name) (out : outcome) : outcome :=
  match out with
  | Found rs => Found (zoneIndex.rewriteOwners rs n)
  | Redirect rs next => Redirect (zoneIndex.rewriteOwners rs n) next
  | _ => out
  end.

Inductive at_node (t : Z) (n : Name) : outcome -> Prop :=
  | node_exact out : owned R n <> [] -> selects (owned R n) t out -> at_node t n out
  | node_empty : owned R n = [] -> exists_in o R n -> at_node t n NoData
  | node_dname d s : ~ exists_in o R n -> dname_redirects n d s ->
      at_node t n (Redirect [d; NewRecord n (r_ttl d) (RD_CNAME s)] s)
  | node_wildcard e w out : ~ exists_in o R n -> (forall d s, ~ dname_redirects n d s) ->
      closest_encloser n e -> wildcard e w -> owned R w <> [] ->
      selects (owned R w) t out -> at_node t n (renamed n out)
  | node_nxdomain : ~ exists_in o R n -> (forall d s, ~ dname_redirects n d s) ->
      (forall e w, closest_encloser n e -> wildcard e w -> owned R w = []) -> at_node t n NoName.

(** The NS records of the deepest name between [n] and the origin, the origin
    excluded, that has any: the delegation [n] is at or below. *)
Definition delegated (n : Name) (ns : list Record_) : Prop :=
  exists cut, anc n cut /\ ~ anc o cut /\ ns = rrset (owned R cut) rrtype.NS /\ ns <> [] /\
    forall q, anc n q -> ~ anc o q -> rrset (owned R q) rrtype.NS <> [] -> anc cut q.

(** The result of a lookup that may still follow [k] names, with the answer
    so far; negative answers to the query name itself carry the SOA. *)
Inductive resolves (soa : Record_) (t : Z) :
    nat -> bool -> list Record_ -> Name -> list Record_ * list Record_ * Z -> Prop :=
  | res_exhausted first acc n : resolves soa t 0 first acc n (acc, [], RCODEServFail)
  | res_found k first acc n rs : at_node t n (Found rs) ->
      resolves soa t (S k) first acc n (acc ++ rs, [], RCODENoError)
  | res_nodata k acc n : at_node t n NoData -> resolves soa t (S k) true acc n ([], [soa], RCODENoError)
  | res_nxdomain k acc n : at_node t n NoName -> resolves soa t (S k) true acc n ([], [soa], RCODENXDomain)
  | res_end k acc n out : at_node t n out -> out = NoData \/ out = NoName ->
      resolves soa t (S k) false acc n (acc, [], RCODENoError)
  | res_redirect k first acc n rs next r : at_node t n (Redirect rs next) ->
      resolves soa t k false (acc ++ rs) next r -> resolves soa t (S k) first acc n r.
End Spec.

(** ** Names and labels *)

Lemma find_first {A} (f : A -> bool) l x : List.find f l = Some x <-> first_in f l x.
Proof.
  split.
  - induction l as [|y l IH]; cbn; [done|]. destruct (f y) eqn:E.
    + intros [= ->]. by exists [], l.
    + intros H. destruct (IH H) as (l1 & l2 & -> & Hx & Hl). exists (y :: l1), l2. by split_and!; [..|constructor].
  - intros (l1 & l2 & -> & Hx & Hl). induction Hl as [|y l1 Hy _ IH]; cbn; [by rewrite Hx|by rewrite Hy].
Qed.
Lemma find_None_iff {A} (f : A -> bool) l : List.find f l = None <-> Forall (fun y => f y = false) l.
Proof.
  induction l as [|y l IH]; cbn; [by split|]. destruct (f y) eqn:E; split; try done.
  - by inversion 1; subst; congruence.
  - intros H. constructor; [done|by apply IH].
  - inversion 1; by apply IH.
Qed.

Lemma canonical_labels n : canonical n ->
  wf_name n (Labels n) /\ Forall folded (Labels n) /\ Forall is_bytes (Labels n).
Proof.
  intros (ls & Hw & Hf). rewrite (Labels_wf _ _ Hw). split_and!; [done..|].
  destruct Hw as (_ & Hok & _). eapply Forall_impl; [apply Hok|by intros ? [_ ?]].
Qed.
Lemma Labels_inj n m : canonical n -> canonical m -> Labels n = Labels m -> n = m.
Proof.
  intros Hn Hm E. destruct (canonical_labels n Hn) as [[H1 _] _], (canonical_labels m Hm) as [[H2 _] _].
  apply Name_ext. by rewrite H1, H2, E.
Qed.

(** [FromLabels] of lower-case labels is the name with these labels. *)
Lemma FromLabels_canonical ls n : Forall folded ls -> Forall is_bytes ls ->
  FromLabels ls = Ok n <-> canonical n /\ Labels n = ls.
Proof.
  intros Hf Hb. rewrite FromLabels_spec, foldLabels_folded by done. split.
  - intros (Hok & Hl & ->). assert (wf_name (mkName (encName ls)) ls) as Hw by done.
    split; [by exists ls|by apply Labels_wf].
  - intros [Hc <-]. destruct (canonical_labels n Hc) as ((E & Hok & Hl) & _).
    split_and!; [done|by rewrite <- E|by apply Name_ext].
Qed.

Lemma up_labels n p : canonical n -> up n p -> exists l, Labels n = l :: Labels p.
Proof.
  intros Hc Hup. destruct (canonical_cases n Hc) as [[-> H]|(l & ls & p' & Hw & Hf & Hp & Hwp)].
  - unfold up in Hup. congruence.
  - unfold up in Hup. rewrite Hp in Hup. injection Hup as <-. exists l. by rewrite (Labels_wf _ _ Hw), (Labels_wf _ _ Hwp).
Qed.
Lemma anc_labels n p : canonical n -> anc n p -> exists pre, Labels n = pre ++ Labels p.
Proof.
  intros Hc H. induction H as [|x y z Hxy Hyz IH]; [by exists []|].
  destruct (up_labels _ _ Hc Hxy) as [l ->]. destruct (IH (canonical_up _ _ Hc Hxy)) as [pre ->]. by exists (l :: pre).
Qed.
Lemma above_labels n p : canonical n -> above n p -> exists l pre, Labels n = (l :: pre) ++ Labels p.
Proof.
  intros Hc (m & Hup & Ha). destruct (up_labels _ _ Hc Hup) as [l ->].
  destruct (anc_labels m p) as [pre ->]; eauto using canonical_up.
Qed.
Lemma above_anc n p : above n p -> anc n p.
Proof. intros (m & Hup & Ha). by eapply rtc_l. Qed.
Lemma above_canonical n p : canonical n -> above n p -> canonical p.
Proof. eauto using canonical_anc, above_anc. Qed.

Lemma labelEqualFold_refl l : zoneIndex.labelEqualFold l l = true.
Proof. induction l as [|x l IH]; cbn; [done|]. by rewrite Z.eqb_refl. Qed.
Lemma labelsEqualFold_refl ls :
  forallb (fun '(l, lbl) => zoneIndex.labelEqualFold l lbl) (combine ls ls) = true.
Proof. induction ls as [|l ls IH]; cbn; [done|]. by rewrite labelEqualFold_refl. Qed.

(** The substitution succeeds exactly when the new name fits. *)
Lemma substituteSuffix_spec n p target s :
  canonical n -> canonical target -> above n p ->
  zoneIndex.substituteSuffix n p target = Some s <-> substituted n p target s.
Proof.
  intros Hn Ht Hp. destruct (above_labels _ _ Hn Hp) as (l & pre & E).
  unfold zoneIndex.substituteSuffix. rewrite E. rewrite (proj2 (Z.leb_gt _ _)) by (unfold zlen; rewrite length_app; cbn; lia).
  replace (zlen ((l :: pre) ++ Labels p) - zlen (Labels p)) with (zlen (l :: pre)) by llia.
  unfold zlen. rewrite Nat2Z.id, drop_app_length, take_app_length, labelsEqualFold_refl.
  assert (Forall folded (l :: pre) /\ Forall is_bytes (l :: pre)) as [Hf Hb].
  { destruct (canonical_labels n Hn) as (_ & H1 & H2). rewrite E in H1, H2. apply Forall_app in H1, H2. tauto. }
  destruct (canonical_labels target Ht) as (_ & Hft & Hbt).
  pose proof (FromLabels_canonical ((l :: pre) ++ Labels target) s) as HF.
  rewrite !Forall_app in HF. specialize (HF (conj Hf Hft) (conj Hb Hbt)).
  split.
  - intros H. exists (l :: pre). destruct (FromLabels _) eqn:EF; [|done]. injection H as ->.
    by split; [|apply HF].
  - intros (pre' & E' & Hs). rewrite E in E'. apply app_inv_tail in E' as <-. apply HF in Hs. by rewrite Hs.
Qed.

(** [wildcardKey] is the key of the wildcard, or no key at all. *)
Lemma wildcardKey_spec e : canonical e ->
  (exists w, wildcard e w /\ zoneIndex.wildcardKey e = nameKey w) \/
  ((forall w, ~ wildcard e w) /\ zoneIndex.wildcardKey e = []).
Proof.
  intros He. destruct (canonical_labels e He) as (Hw & Hf & Hb).
  unfold zoneIndex.wildcardKey. destruct (IsRoot e) eqn:Er.
  - left. apply (IsRoot_wf _ _ Hw) in Er. exists (mkName (encName [zoneIndex.star])).
    unfold wildcard. rewrite Er. split; [|done].
    apply (FromLabels_canonical [zoneIndex.star]); [repeat constructor..|done].
    all: unfold u8; lia.
  - assert (forall w, FromLabels (zoneIndex.star :: Labels e) = Ok w <-> wildcard e w) as HF.
    { intros w. apply FromLabels_canonical; constructor; try done. repeat constructor; unfold u8; lia. }
    destruct (FromLabels _) as [w|err] eqn:E.
    + left. exists w. by split; [apply HF|].
    + right. split; [|done]. intros w Hw'. apply HF in Hw'. congruence.
Qed.

Lemma wildcard_inj e w w' : wildcard e w -> wildcard e w' -> w = w'.
Proof. intros [H1 E1] [H2 E2]. apply Labels_inj; congruence. Qed.

(** ** The index against the specification *)

Section Lookup.
Context (z : zoneIndex.t) (R : list Record_) (Hz : indexes z R).
Abbreviation o := (zoneIndex.origin z).

Lemma byName_None n : canonical n -> zoneIndex.byName z !! nameKey n = None <-> owned R n = [].
Proof. intros Hn. rewrite (ix_byName z R Hz) by done. by destruct (owned R n). Qed.
Lemma byName_Some n l : canonical n ->
  zoneIndex.byName z !! nameKey n = Some l <-> owned R n = l /\ l <> [].
Proof. intros Hn. rewrite (ix_byName z R Hz) by done. destruct (owned R n); naive_solver. Qed.
Lemma at_owned n : canonical n -> zoneIndex.at_ z (nameKey n) = owned R n.
Proof. intros Hn. unfold zoneIndex.at_. rewrite (ix_byName z R Hz) by done. by destruct (owned R n). Qed.
Lemma no_empty_key : zoneIndex.byName z !! [] = None.
Proof.
  destruct (_ !! []) eqn:E; [|done]. destruct (ix_keys z R Hz []) as (n & Hn & Hk); [by eauto|].
  rewrite nameKey_wire in Hk by done. apply canonical_valid in Hn. unfold IsValid in Hn. by rewrite <- Hk in Hn.
Qed.
Lemma exist_key n : canonical n -> nameKey n ∈ zoneIndex.namesExist z <-> exists_in o R n.
Proof.
  intros Hn. rewrite (ix_exist z R Hz). split; [|by exists n].
  intros (m & E & He). assert (n = m) as ->; [|done]. apply nameKey_inj; [done| |done].
  destruct He as (_ & r & Hr & Ha). eapply canonical_anc; [|apply Ha].
  pose proof (ix_recs z R Hz) as HR. rewrite Forall_forall in HR. by destruct (HR r Hr).
Qed.
Lemma owned_exists n : owned R n <> [] -> exists_in o R n.
Proof.
  intros H. destruct (owned R n) as [|r l] eqn:E; [done|].
  assert (r ∈ owned R n) as Hr by (rewrite E; by left). apply elem_of_owned in Hr as [Hr <-].
  pose proof (ix_recs z R Hz) as HR. rewrite Forall_forall in HR. destruct (HR r Hr) as (_ & Ha & _).
  split; [done|by exists r].
Qed.
Lemma in_owned_ok n r : r ∈ owned R n -> rec_ok o r.
Proof.
  intros Hr. apply elem_of_owned in Hr as [Hr _].
  pose proof (ix_recs z R Hz) as HR. rewrite Forall_forall in HR. auto.
Qed.
Lemma first_in_elem {A} (f : A -> bool) l x : first_in f l x -> x ∈ l.
Proof. intros (l1 & l2 & -> & _). apply elem_of_app. right. by left. Qed.

(** *** closestEncloser *)
Lemma closestEncloser_spec n e : canonical n ->
  zoneIndex.closestEncloser z n = Some e <-> closest_encloser o R n e.
Proof.
  intros Hn. unfold zoneIndex.closestEncloser. set (f := fun cur => if decide _ then _ else _).
  assert (forall q y, canonical q -> f q = Some y <-> y = q /\ exists_in o R q) as Hf.
  { intros q y Hq. unfold f. destruct (decide _) as [H|H]; rewrite exist_key in H by done; naive_solver. }
  destruct (Parent n) as [m|] eqn:Em.
  - assert (canonical m) as Hm by eauto using canonical_up. rewrite walkUp_Some by done. split.
    + intros [p Hp]. destruct (first_up_anc _ _ _ _ Hp) as [Ha Hx].
      apply Hf in Hx as [-> Hx]; [|eauto using canonical_anc]. split_and!; [by exists m|done|].
      intros q (m' & Em' & Hq) He. unfold up in Em'. rewrite Em in Em'. injection Em' as <-.
      eapply first_up_least; [done..|]. apply Hf; [eauto using canonical_anc|done].
    + intros ((m' & Em' & Ha) & He & Hl). unfold up in Em'. rewrite Em in Em'. injection Em' as <-.
      exists e. apply first_up_intro; [done| | |done]; [apply Hf; [eauto using canonical_anc|done]|].
      intros q Hmq Hqe Hne. destruct (f q) eqn:E; [|done]. apply Hf in E as [-> E]; [|eauto using canonical_anc].
      destruct Hne. eapply anc_antisym; eauto using canonical_anc. apply Hl; [by exists m|done].
  - split; [done|]. intros ((m' & Em' & _) & _). unfold up in Em'. congruence.
Qed.

(** The records at the wildcard of the closest encloser. *)
Lemma wildcard_lookup e l : canonical e ->
  zoneIndex.byName z !! zoneIndex.wildcardKey e = Some l <->
  exists w, wildcard e w /\ owned R w = l /\ l <> [].
Proof.
  intros He. destruct (wildcardKey_spec e He) as [(w & Hw & ->)|[Hn ->]].
  - rewrite byName_Some by apply Hw. split; [by exists w|]. intros (w' & Hw' & H).
    by rewrite (wildcard_inj e w w').
  - rewrite no_empty_key. split; [done|]. intros (w & Hw & _). by destruct (Hn w).
Qed.

(** *** findDNAMEAncestor *)
Lemma isAlias_false {A} (f : Record_ -> option A) r : isAlias f r = false <-> f r = None.
Proof. unfold isAlias. by destruct (f r). Qed.
Lemma Forall_isAlias {A} (f : Record_ -> option A) l :
  Forall (fun r => isAlias f r = false) l <-> Forall (fun r => f r = None) l.
Proof. rewrite !Forall_forall. by setoid_rewrite isAlias_false. Qed.

Lemma dnameAt_None n q : canonical q ->
  zoneIndex.dnameAt z n q = None <-> Forall (fun r => asDNAME r = None) (owned R q).
Proof.
  intros Hq. unfold zoneIndex.dnameAt. rewrite at_owned by done.
  rewrite <- Forall_isAlias, <- find_None_iff. unfold isAlias. by destruct (List.find _ _).
Qed.
Lemma dnameAt_Some n q y : canonical n -> above n q -> zoneIndex.dnameAt z n q = Some y ->
  exists r t, first_in (isAlias asDNAME) (owned R q) r /\ asDNAME r = Some t /\
    forall d s, y = Some (d, s) <-> d = r /\ substituted n q t s.
Proof.
  intros Hn Hq. unfold zoneIndex.dnameAt. rewrite at_owned by eauto using above_canonical.
  destruct (List.find _ _) as [r|] eqn:E; [|done]. intros [= <-]. apply find_first in E.
  destruct (asDNAME r) as [t|] eqn:Et; [|exfalso; destruct E as (? & ? & _ & E & _); by rewrite Et in E].
  exists r, t. split_and!; [done..|]. intros d s. cbn. rewrite <- substituteSuffix_spec; [|done| |done].
  - destruct (zoneIndex.substituteSuffix n q t); naive_solver.
  - destruct (in_owned_ok q r) as (_ & _ & _ & _ & Hr & _); [by eapply first_in_elem|auto].
Qed.

Lemma findDNAMEAncestor_spec n d s : canonical n ->
  zoneIndex.findDNAMEAncestor z n = Some (d, s) <-> dname_redirects R n d s.
Proof.
  intros Hn. unfold zoneIndex.findDNAMEAncestor. destruct (Parent n) as [m|] eqn:Em; cycle 1.
  { split; [done|]. intros (p & t & (m' & Hup & _) & _). unfold up in Hup. congruence. }
  assert (canonical m) as Hm by eauto using canonical_up.
  assert (forall q, above n q <-> anc m q) as Hab.
  { intros q. unfold above, up. rewrite Em. split; [by intros (? & [= <-] & ?)|by exists m]. }
  split.
  - destruct (walkUp _ m) as [y|] eqn:E; cbn; [|done]. intros ->.
    apply walkUp_Some in E as [p Hp]; [|done]. destruct (first_up_anc _ _ _ _ Hp) as [Ha Hx].
    destruct (dnameAt_Some n p _ Hn (proj2 (Hab p) Ha) Hx) as (r & t & Hr & Ht & Hsub).
    destruct (proj1 (Hsub d s) eq_refl) as [-> Hs].
    exists p, t. split_and!; [by apply Hab|done..| |done].
    intros q Hq Hqp Hne. apply Hab in Hq. apply (dnameAt_None n); [eauto using canonical_anc|].
    destruct (zoneIndex.dnameAt z n q) eqn:Eq; [|done]. destruct Hne.
    eapply anc_antisym; eauto using canonical_anc, first_up_least.
  - intros (p & t & Hp & Hd & Ht & Hl & Hs).
    assert (zoneIndex.dnameAt z n p = Some (Some (d, s))) as Hfp.
    { destruct (zoneIndex.dnameAt z n p) as [y|] eqn:E.
      - destruct (dnameAt_Some n p y) as (r & t' & Hr & Ht' & Hsub); [done..|].
        apply find_first in Hr, Hd. rewrite Hr in Hd. injection Hd as ->. rewrite Ht in Ht'. injection Ht' as <-.
        f_equal. by apply Hsub.
      - apply dnameAt_None in E; [|eauto using above_canonical]. rewrite Forall_forall in E.
        rewrite (E d) in Ht; [done|by eapply first_in_elem]. }
    apply Hab in Hp. rewrite (proj2 (walkUp_Some _ m (Some (d, s)) Hm)); [done|]. exists p.
    apply first_up_intro; [done|done| |done]. intros q Hq Hqp Hne.
    apply dnameAt_None; [eauto using canonical_anc|]. apply Hl; [by apply Hab|done|done].
Qed.

(** *** One step *)

(** The code's branches for each outcome. *)
Definition hop_of (first : bool) (acc : list Record_) (out : outcome) : zoneIndex.hop :=
  match out with
  | Found rs => zoneIndex.Return_ (acc ++ rs) [] RCODENoError
  | NoData => if first then zoneIndex.Return_ [] [zoneIndex.soaRec z] RCODENoError
              else zoneIndex.Return_ acc [] RCODENoError
  | NoName => if first then zoneIndex.Return_ [] [zoneIndex.soaRec z] RCODENXDomain
              else zoneIndex.Return_ acc [] RCODENoError
  | Redirect rs next => zoneIndex.Follow (acc ++ rs) next
  end.

Definition match_of (out : outcome) : list Record_ * Name * bool :=
  match out with
  | Found rs => (rs, zeroName, true)
  | Redirect rs next => (rs, next, false)
  | _ => ([], zeroName, true)
  end.

Lemma matchRRSet_selects l t out : selects l t out -> zoneIndex.matchRRSet l t = match_of out.
Proof.
  unfold zoneIndex.matchRRSet. fold (rrset l t). intros [H|c target H Ht Hc Hn|H Ht].
  - destruct (rrset l t); [done|]. by rewrite (proj2 (Z.ltb_lt _ _)) by llia.
  - rewrite H. cbn [zlen]. rewrite (proj2 (Z.eqb_neq _ _)) by done. cbn.
    apply find_first in Hc. unfold isAlias in Hc. by rewrite Hc, Hn.
  - rewrite H. cbn. destruct (t =? rrtype.CNAME) eqn:E; [done|]. bool_facts. destruct Ht as [?|Ht]; [done|].
    rewrite <- Forall_isAlias, <- find_None_iff in Ht. unfold isAlias in Ht. cbn. by rewrite Ht.
Qed.

Lemma selects_total l t : exists out, selects l t out.
Proof.
  destruct (rrset l t) as [|r rs] eqn:E; [|exists (Found (rrset l t)); constructor; congruence].
  destruct (decide (t = rrtype.CNAME)) as [Ht|Ht]; [exists NoData; constructor; auto|].
  destruct (List.find (isAlias asCNAME) l) as [c|] eqn:Ec.
  - apply find_first in Ec. destruct (asCNAME c) as [target|] eqn:Et.
    + exists (Redirect [c] target). by constructor.
    + destruct Ec as (? & ? & _ & Ec & _). unfold isAlias in Ec. by rewrite Et in Ec.
  - apply find_None_iff, Forall_isAlias in Ec. exists NoData. constructor; auto.
Qed.

Lemma matched_hop l t out first acc n : selects l t out -> out <> NoName ->
  (let '(ans, follow, done) := match_of out in
   zoneIndex.matched z first acc ans follow done) = hop_of first acc out /\
  (let '(ans, follow, done) := match_of out in
   zoneIndex.matched z first acc (zoneIndex.rewriteOwners ans n) follow done) = hop_of first acc (renamed n out).
Proof.
  intros Hs Hne. unfold zoneIndex.matched, zoneIndex.rewriteOwners. destruct out as [rs| | |rs next]; cbn; try done.
  rewrite zlen_map. inversion Hs; subst. rewrite (proj2 (Z.ltb_lt 0 _)); [done|].
  destruct (rrset l t); [done|llia].
Qed.
Lemma selects_not_NoName l t out : selects l t out -> out <> NoName.
Proof. by intros []. Qed.

(** The exact-match and empty-non-terminal branches are for existing names. *)
Lemma absent_owned n : ~ exists_in o R n -> owned R n = [].
Proof. intros He. destruct (owned R n) eqn:E; [done|]. destruct He. apply owned_exists. by rewrite E. Qed.

(** The records of the wildcard that covers [n], as the code finds them. *)
Definition wildcardRecs (n : Name) : option (list Record_) :=
  match zoneIndex.closestEncloser z n with
  | Some encloser => zoneIndex.byName z !! zoneIndex.wildcardKey encloser
  | None => None
  end.
Lemma wildcardRecs_Some n l : canonical n -> wildcardRecs n = Some l <->
  exists e w, closest_encloser o R n e /\ wildcard e w /\ owned R w = l /\ l <> [].
Proof.
  intros Hn. unfold wildcardRecs. split.
  - destruct (zoneIndex.closestEncloser z n) as [e|] eqn:E; [|done]. apply closestEncloser_spec in E; [|done].
    intros H. apply wildcard_lookup in H as (w & H); [by exists e, w|].
    destruct E as (Ha & _). eauto using above_canonical.
  - intros (e & w & He & H). rewrite (proj2 (closestEncloser_spec n e Hn) He).
    apply wildcard_lookup; [destruct He as (Ha & _); eauto using above_canonical|by exists w].
Qed.

Lemma chaseStep_absent t first acc n : canonical n -> ~ exists_in o R n ->
  (forall d s, ~ dname_redirects R n d s) ->
  zoneIndex.chaseStep z t first acc n =
    match wildcardRecs n with
    | Some l => let '(ans, follow, done) := zoneIndex.matchRRSet l t in
                zoneIndex.matched z first acc (zoneIndex.rewriteOwners ans n) follow done
    | None => hop_of first acc NoName
    end.
Proof.
  intros Hn He Hd. unfold zoneIndex.chaseStep.
  rewrite (proj2 (byName_None n Hn)), decide_False by (rewrite ?exist_key; auto using absent_owned).
  destruct (zoneIndex.findDNAMEAncestor z n) as [[d s]|] eqn:E; [by apply findDNAMEAncestor_spec, Hd in E|done].
Qed.

Lemma chaseStep_spec t first acc n out : canonical n ->
  at_node o R t n out -> zoneIndex.chaseStep z t first acc n = hop_of first acc out.
Proof.
  intros Hn [out' Ho Hs|Ho He|d s He Hd|e w out' He Hd Hc Hw Ho Hs|He Hd Hc].
  - unfold zoneIndex.chaseStep. rewrite (proj2 (byName_Some n (owned R n) Hn)) by done.
    rewrite (matchRRSet_selects _ _ _ Hs). eapply (matched_hop _ t _ first acc n); [done|by eapply selects_not_NoName].
  - unfold zoneIndex.chaseStep. rewrite (proj2 (byName_None n Hn) Ho), decide_True by by apply exist_key. done.
  - unfold zoneIndex.chaseStep.
    rewrite (proj2 (byName_None n Hn)), decide_False by (rewrite ?exist_key; auto using absent_owned).
    rewrite (proj2 (findDNAMEAncestor_spec n d s Hn) Hd). unfold NewCNAME.
    destruct Hd as (p & t' & _ & _ & _ & _ & pre & _ & Hs & _). by rewrite canonical_valid.
  - rewrite chaseStep_absent by done. rewrite (proj2 (wildcardRecs_Some n (owned R w) Hn)) by by exists e, w.
    rewrite (matchRRSet_selects _ _ _ Hs). eapply (matched_hop _ t _ first acc n); [done|by eapply selects_not_NoName].
  - rewrite chaseStep_absent by done. destruct (wildcardRecs n) as [l|] eqn:Ew; [|done].
    apply wildcardRecs_Some in Ew as (e & w & He' & Hw & <- & Hne); [|done]. by destruct Hne; eauto.
Qed.

(** Every name has an outcome. *)
Lemma at_node_total t n : canonical n -> exists out, at_node o R t n out.
Proof.
  intros Hn. destruct (decide (nameKey n ∈ zoneIndex.namesExist z)) as [He|He]; rewrite exist_key in He by done.
  - destruct (owned R n) as [|r l] eqn:E; [exists NoData; by apply node_empty|].
    destruct (selects_total (owned R n) t) as [out Hs]. exists out. apply node_exact; [congruence|done].
  - destruct (zoneIndex.findDNAMEAncestor z n) as [[d s]|] eqn:Ed.
    { apply findDNAMEAncestor_spec in Ed; [|done]. eexists. by eapply node_dname. }
    assert (forall d s, ~ dname_redirects R n d s) as Hd.
    { intros d s H. apply findDNAMEAncestor_spec in H; [congruence|done]. }
    destruct (wildcardRecs n) as [l|] eqn:Ew.
    + apply wildcardRecs_Some in Ew as (e & w & Hc & Hw & <- & Hne); [|done].
      destruct (selects_total (owned R w) t) as [out Hs]. eexists. by eapply node_wildcard.
    + exists NoName. apply node_nxdomain; [done..|]. intros e w Hc Hw.
      destruct (owned R w) eqn:E; [done|].
      assert (wildcardRecs n = Some (owned R w)); [|congruence].
      apply wildcardRecs_Some; [done|]. exists e, w. by rewrite E.
Qed.

(** The next name of a chase is canonical. *)
Lemma selects_next l t rs next : (forall r, r ∈ l -> rec_ok o r) ->
  selects l t (Redirect rs next) -> canonical next.
Proof.
  intros Hl Hs. inversion Hs as [|c target _ _ Hc Hn|]; subst.
  destruct (Hl c) as (_ & _ & _ & H & _); [by eapply first_in_elem|auto].
Qed.
Lemma at_node_next t n rs next : at_node o R t n (Redirect rs next) -> canonical next.
Proof.
  intros H. inversion H as [out Ho Hs| |d s He Hd|e w out He Hd Hc Hw Ho Hs E|]; subst.
  - eapply selects_next; [|done]. apply in_owned_ok.
  - destruct Hd as (p & t' & _ & _ & _ & _ & pre & _ & Hs & _). done.
  - destruct out as [| | |rs' next']; cbn in E; try done. injection E as _ <-.
    eapply selects_next; [|done]. apply in_owned_ok.
Qed.

(** *** The chase *)
Lemma resolves_chase t k first acc n r : canonical n ->
  resolves o R (zoneIndex.soaRec z) t k first acc n r -> zoneIndex.chase z t k first acc n = Ok r.
Proof.
  intros Hn H. induction H as [| | | |k acc n out Ho Hout|k f0 acc n rs nx res0 Hout _ IH]; cbn [zoneIndex.chase]; [done|..].
  1-3: by erewrite chaseStep_spec by done.
  - rewrite (chaseStep_spec t false acc n out) by done. by destruct Hout as [-> | ->].
  - rewrite (chaseStep_spec t f0 acc n (Redirect rs nx)) by done. cbn. apply IH. by eapply at_node_next.
Qed.
Lemma resolves_total t k first acc n : canonical n ->
  exists r, resolves o R (zoneIndex.soaRec z) t k first acc n r.
Proof.
  revert first acc n. induction k as [|k IH]; intros first acc n Hn; [eexists; constructor|].
  destruct (at_node_total t n Hn) as [[rs| | |rs next] Ho].
  - eexists. by apply res_found.
  - destruct first; eexists; [by apply res_nodata|by eapply res_end; [|left]].
  - destruct first; eexists; [by apply res_nxdomain|by eapply res_end; [|right]].
  - destruct (IH false (acc ++ rs) next) as [r Hr]; [by eapply at_node_next|]. exists r. by eapply res_redirect.
Qed.
Lemma lookupAuthoritative_spec t n r : canonical n ->
  zoneIndex.lookupAuthoritative z n t = Ok r <->
  resolves o R (zoneIndex.soaRec z) t zoneIndex.maxCNAMEChain true [] n r.
Proof.
  intros Hn. unfold zoneIndex.lookupAuthoritative. split; [|by apply resolves_chase].
  intros H. destruct (resolves_total t zoneIndex.maxCNAMEChain true [] n Hn) as [r' Hr'].
  pose proof (resolves_chase _ _ _ _ _ _ Hn Hr') as E. rewrite H in E. by injection E as ->.
Qed.

(** *** Delegations *)

Definition delegation : Name -> list Record_ -> Prop := delegated o R.

Lemma rrset_pos l t : (0 <? zlen (rrset l t)) = true <-> rrset l t <> [].
Proof. destruct (rrset l t); cbn; [done|]. split; [done|]. intros _. apply Z.ltb_lt. llia. Qed.

(** What the walk of [findDelegation] does at one name. *)
Lemma cut_here n : canonical n -> n <> o ->
  (if Equal n o then Some []
   else match zoneIndex.byName z !! nameKey n with
        | Some recs =>
            let ns := List.filter (fun r => RType r =? rrtype.NS) recs in
            if 0 <? zlen ns then Some ns else None
        | None => None
        end) =
  match rrset (owned R n) rrtype.NS with [] => None | ns => Some ns end.
Proof.
  intros Hn Hne. rewrite (proj2 (Equal_false n o) Hne), (ix_byName z R Hz) by done.
  destruct (owned R n) as [|r l] eqn:E; [done|]. cbv zeta. fold (rrset (r :: l) rrtype.NS).
  destruct (rrset (r :: l) rrtype.NS) eqn:E'; [done|]. rewrite (proj2 (Z.ltb_lt _ _)) by llia. done.
Qed.

Lemma anc_below n q : canonical n -> anc n o -> anc n q -> ~ anc o q -> anc q o /\ q <> o.
Proof. intros Hn Ho Hq Hnq. destruct (anc_total n o q Ho Hq); [done|]. split; [done|]. by intros ->. Qed.

Lemma findDelegation_spec n ns : canonical n -> anc n o -> ns <> [] ->
  zoneIndex.findDelegation z n = ns <-> delegation n ns.
Proof.
  intros Hn Ho Hne. unfold zoneIndex.findDelegation.
  match goal with |- context [walkUp ?g n] => set (f := g) end.
  assert (forall q, canonical q -> q <> o ->
    f q = match rrset (owned R q) rrtype.NS with [] => None | ns => Some ns end) as Hf by apply cut_here.
  assert (f o = Some []) as Hfo by (unfold f; by rewrite Equal_refl). split.
  - destruct (walkUp f n) as [x|] eqn:E; cbn; [|congruence]. intros ->.
    apply walkUp_Some in E as [p Hp]; [|done]. destruct (first_up_anc _ _ _ _ Hp) as [Ha Hx].
    assert (p <> o) as Hpo by congruence. rewrite Hf in Hx by eauto using canonical_anc.
    exists p. destruct (rrset (owned R p) rrtype.NS) eqn:Er; [done|]. injection Hx as <-.
    split_and!; [done| |done|done|].
    + intros Hop. apply Hpo. assert (anc p o) by (eapply first_up_least; eauto).
      eapply anc_antisym; eauto using canonical_anc.
    + intros q Hq Hoq Hr. destruct (anc_below n q) as [_ Hqo]; [done..|].
      assert (exists y, f q = Some y) as [y Hy].
      { rewrite Hf by eauto using canonical_anc. destruct (rrset (owned R q) rrtype.NS); eauto. done. }
      by eapply first_up_least.
  - intros (p & Ha & Hop & -> & _ & Hl). destruct (anc_below n p) as [Hpo Hpn]; [done..|].
    rewrite (proj2 (walkUp_Some f n (rrset (owned R p) rrtype.NS) Hn)); [done|]. exists p.
    apply first_up_intro; [done| | |done].
    + rewrite Hf by eauto using canonical_anc. by destruct (rrset (owned R p) rrtype.NS).
    + intros q Hq Hqp Hqn. assert (q <> o) as Hqo.
      { intros ->. done. }
      rewrite Hf by eauto using canonical_anc. destruct (rrset (owned R q) rrtype.NS) eqn:Er; [done|].
      destruct Hqn. eapply anc_antisym; eauto using canonical_anc. apply Hl; [done| |by rewrite Er].
      intros Hoq. apply Hop. by etrans.
Qed.
End Lookup.

(** ** Referrals *)

(** The addresses the zone holds for the targets of NS records. *)
Definition glue (R ns : list Record_) : list Record_ :=
  concat (map (fun r => match asNS r with
                        | Some target => List.filter (fun a => (RType a =? rrtype.A) || (RType a =? rrtype.AAAA)) (owned R target)
                        | None => []
                        end) ns).

Lemma collectGlue_spec z R ns : indexes z R -> Forall (rec_ok (zoneIndex.origin z)) ns ->
  zoneIndex.collectGlue z ns = glue R ns.
Proof.
  intros Hz Hns. unfold zoneIndex.collectGlue, glue. f_equal. apply map_ext_in. intros r Hr.
  unfold zoneIndex.glueOf. destruct (asNS r) as [t|] eqn:E; [|done].
  rewrite Forall_forall in Hns. destruct (Hns r) as (_ & _ & _ & _ & _ & Ht); [by apply list_elem_of_In|].
  rewrite (ix_byName z R Hz) by auto. by destruct (owned R t).
Qed.

Lemma delegation_recs z R n ns : indexes z R -> delegation z R n ns -> Forall (rec_ok (zoneIndex.origin z)) ns.
Proof.
  intros Hz (cut & _ & _ & -> & _). apply Forall_forall. intros r Hr.
  unfold rrset in Hr. rewrite list_elem_of_In, filter_In, <- list_elem_of_In in Hr. destruct Hr as [Hr _]. by eapply in_owned_ok.
Qed.

(** The result of a lookup in the zone with records [R]: a referral from the
    delegation above the name, or the authoritative answer. *)
Definition answered (z : zoneIndex.t) (R : list Record_) (n : Name) (t : Z) (r : zoneIndex.lookupResult) : Prop :=
  (exists ns, delegation z R n ns /\ r = zoneIndex.mkResult [] ns (glue R ns) RCODENoError false) \/
  ((forall ns, ~ delegation z R n ns) /\
   exists ans auth rcode,
     resolves (zoneIndex.origin z) R (zoneIndex.soaRec z) t zoneIndex.maxCNAMEChain true [] n (ans, auth, rcode) /\
     r = zoneIndex.mkResult ans auth [] rcode true).

Lemma lookup_answered z R n t r :
  indexes z R -> canonical n -> anc n (zoneIndex.origin z) ->
  zoneIndex.lookup_ z n t = Ok r <-> answered z R n t r.
Proof.
  intros Hz Hn Ho. unfold zoneIndex.lookup_, answered.
  destruct (zoneIndex.findDelegation z n) as [|x ns] eqn:E.
  - assert (forall ns, ~ delegation z R n ns) as Hd.
    { intros ns Hns. pose proof Hns as (cut & _ & _ & _ & Hne & _).
      apply (findDelegation_spec z R Hz n ns Hn Ho Hne) in Hns. congruence. }
    change (0 <? zlen []) with false. cbv zeta iota. pose proof (fun r => lookupAuthoritative_spec z R Hz t n r Hn) as Hl.
    destruct (zoneIndex.lookupAuthoritative z n t) as [[[ans auth] rc]|e] eqn:El; cbn.
    + pose proof (proj1 (Hl _) eq_refl) as Hr. split.
      * intros [= <-]. right. split; [done|]. by exists ans, auth, rc.
      * intros [(ns & Hns & _)|(_ & ans' & auth' & rc' & H & ->)]; [by apply Hd in Hns|].
        apply Hl in H. by injection H as -> -> ->.
    + split; [done|]. intros [(ns & Hns & _)|(_ & ans' & auth' & rc' & H & ->)]; [by apply Hd in Hns|].
      by apply Hl in H.
  - assert (delegation z R n (x :: ns)) as Hd by (apply (findDelegation_spec z R Hz n); done).
    rewrite (proj2 (Z.ltb_lt _ _)) by llia. rewrite (collectGlue_spec z R) by eauto using delegation_recs. split.
    + intros [= <-]. left. by exists (x :: ns).
    + intros [(ns' & Hns & ->)|[H _]]; [|by apply H in Hd].
      pose proof Hns as (cut & _ & _ & _ & Hne & _).
      apply (findDelegation_spec z R Hz n ns' Hn Ho Hne) in Hns. rewrite E in Hns. by subst.
Qed.

Lemma lookup_total z R n t : indexes z R -> canonical n -> exists r, zoneIndex.lookup_ z n t = Ok r.
Proof.
  intros Hz Hn. unfold zoneIndex.lookup_. case_match; [eauto|].
  destruct (resolves_total z R Hz t zoneIndex.maxCNAMEChain true [] n Hn) as [[[ans auth] rc] Hr].
  apply (lookupAuthoritative_spec z R Hz) in Hr; [|done]. rewrite Hr. cbn. eauto.
Qed.

(** ** A small zone *)
Module Sample.
Definition ex : bytes := [101; 120].
Definition ns : bytes := [110; 115].
Definition www : bytes := [119; 119; 119].
Definition sub : bytes := [115; 117; 98].
Definition hour : Z := 3600 * Second.

Definition origin : Name := nm [ex].
Definition nsName : Name := nm [ns; ex].
Definition wwwName : Name := nm [www; ex].
Definition address (b : Z) : RData := RD_A (Addr4 [192; 0; 2; b]).

Definition soa : Record_ := NewRecord origin hour (RD_SOA nsName origin 7 hour hour hour hour).
Definition records : list Record_ :=
  [soa; NewRecord origin hour (RD_NS nsName); NewRecord nsName hour (address 1);
   NewRecord wwwName hour (RD_CNAME nsName);
   NewRecord (nm [zoneIndex.star; www; ex]) hour (address 2);
   NewRecord (nm [sub; ex]) hour (RD_NS (nm [ns; sub; ex]));
   NewRecord (nm [ns; sub; ex]) hour (address 3)].
Definition zone : Zone := mkZone origin records.
Definition index : zoneIndex.t := buildIndex zone soa.

(** [rec_ok] of a record whose owner has the given labels above the origin. *)
Lemma rec_okI pre r : r_name r = nm (pre ++ [ex]) -> labels_okb (pre ++ [ex]) = true -> is_Some (r_rd r) ->
  (forall t, asCNAME r = Some t \/ asDNAME r = Some t \/ asNS r = Some t -> canonical t) -> rec_ok origin r.
Proof.
  intros E Hl Hrd Ht. unfold rec_ok. rewrite E. split_and!; [by apply labels_okb_canonical|by apply anc_nm|done|..]; auto.
Qed.
Lemma canonicalI ls : labels_okb ls = true -> canonical (nm ls).
Proof. apply labels_okb_canonical. Qed.

Lemma wf : zone_wf zone.
Proof.
  split; [by apply canonicalI|]. split.
  - repeat apply Forall_cons_2; [| | | | | | |constructor].
    all: first [apply (rec_okI []); [done..|] | apply (rec_okI [ns]); [done..|] | apply (rec_okI [www]); [done..|]
               | apply (rec_okI [zoneIndex.star; www]); [done..|] | apply (rec_okI [sub]); [done..|]
               | apply (rec_okI [ns; sub]); [done..|] ].
    all: intros t Ht; cbn in Ht; destruct Ht as [Ht|[Ht|Ht]]; simplify_eq; by apply canonicalI.
  - exists soa. split_and!; [by vm_compute|done|].
    exists nsName, origin, 7, hour, hour, hour, hour. split_and!; [done|by vm_compute|unfold u32; lia].
Qed.
Lemma indexed : indexes index records /\ apex_ok index records.
Proof. apply (buildIndex_ok zone soa wf); by vm_compute. Qed.

(** The same zone with an alias to the name server below the cut. *)
Definition aliased : zoneIndex.t := buildIndex (mkZone origin (records ++ [NewRecord (nm [[97]; ex]) hour (RD_CNAME (nm [ns; sub; ex]))])) soa.
End Sample.

(** ** The lookup claim *)

(** RFC 1034 section 4.3.2 with the delegation check (step 3b) at every name,
    the ones reached by an alias included: answer, authority, additional data
    and code. *)
Inductive rfc_resolves (o : Name) (R : list Record_) (cut : Name -> list Record_ -> Prop) (soa : Record_) (t : Z) :
    nat -> bool -> list Record_ -> Name -> list Record_ * list Record_ * list Record_ * Z -> Prop :=
  | rfc_exhausted first acc n : rfc_resolves o R cut soa t 0 first acc n (acc, [], [], RCODEServFail)
  | rfc_referral k first acc n ns : cut n ns -> rfc_resolves o R cut soa t (S k) first acc n (acc, ns, glue R ns, RCODENoError)
  | rfc_found k first acc n rs : (forall ns, ~ cut n ns) -> at_node o R t n (Found rs) ->
      rfc_resolves o R cut soa t (S k) first acc n (acc ++ rs, [], [], RCODENoError)
  | rfc_nodata k acc n : (forall ns, ~ cut n ns) -> at_node o R t n NoData ->
      rfc_resolves o R cut soa t (S k) true acc n ([], [soa], [], RCODENoError)
  | rfc_nxdomain k acc n : (forall ns, ~ cut n ns) -> at_node o R t n NoName ->
      rfc_resolves o R cut soa t (S k) true acc n ([], [soa], [], RCODENXDomain)
  | rfc_end k acc n out : (forall ns, ~ cut n ns) -> at_node o R t n out -> out = NoData \/ out = NoName ->
      rfc_resolves o R cut soa t (S k) false acc n (acc, [], [], RCODENoError)
  | rfc_redirect k first acc n rs next r : (forall ns, ~ cut n ns) -> at_node o R t n (Redirect rs next) ->
      rfc_resolves o R cut soa t k false (acc ++ rs) next r -> rfc_resolves o R cut soa t (S k) first acc n r.
(** The answer of the RFC: authoritative unless the query name itself is
    delegated. *)
Definition rfc_answered (z : zoneIndex.t) (R : list Record_) (n : Name) (t : Z) (r : zoneIndex.lookupResult) : Prop :=
  (exists ns, delegation z R n ns /\ r = zoneIndex.mkResult [] ns (glue R ns) RCODENoError false) \/
  ((forall ns, ~ delegation z R n ns) /\
   exists ans auth add rcode,
     rfc_resolves (zoneIndex.origin z) R (delegation z R) (zoneIndex.soaRec z) t zoneIndex.maxCNAMEChain true [] n (ans, auth, add, rcode) /\
     r = zoneIndex.mkResult ans auth add rcode true).
(** The negative answer of the RFC for the query name [n]. *)
Definition zone_denies (o : Name) (R : list Record_) (t : Z) (n : Name) (rcode : Z) : Prop :=
  forall soa k, rfc_resolves o R (delegated o R) soa t (S k) true [] n ([], [soa], [], rcode).
(** The names an alias leads to from [n]. *)
Inductive leads (o : Name) (R : list Record_) (t : Z) : Name -> Name -> Prop :=
  | leads_one n rs n' : at_node o R t n (Redirect rs n') -> leads o R t n n'
  | leads_more n rs n' n'' : at_node o R t n (Redirect rs n') -> leads o R t n' n'' -> leads o R t n n''.
(** No alias from [n] leads below a delegation of the zone. *)
Definition contained (z : zoneIndex.t) (R : list Record_) (t : Z) (n : Name) : Prop :=
  forall n' ns, leads (zoneIndex.origin z) R t n n' -> ~ delegation z R n' ns.

Lemma resolves_rfc o R (cut : Name -> list Record_ -> Prop) soa t k first acc n ans auth rc :
  (forall ns, ~ cut n ns) -> (forall n' ns, leads o R t n n' -> ~ cut n' ns) ->
  resolves o R soa t k first acc n (ans, auth, rc) -> rfc_resolves o R cut soa t k first acc n (ans, auth, [], rc).
Proof.
  intros Hc Hl H. remember (ans, auth, rc) as r eqn:E. revert E Hc Hl.
  induction H as [| | | | |k f0 acc n rs nx r' Hout _ IH]; intros E Hc Hl; [injection E as <- <- <-; by econstructor..|].
  eapply rfc_redirect; [done..|]. apply IH; [done| |].
  - intros ns. apply Hl. by eapply leads_one.
  - intros n' ns Hn'. apply Hl. by eapply leads_more.
Qed.
Lemma rfc_resolves_code o R (cut : Name -> list Record_ -> Prop) soa t k first acc n ans auth add rc :
  (forall ns, ~ cut n ns) -> (forall n' ns, leads o R t n n' -> ~ cut n' ns) ->
  rfc_resolves o R cut soa t k first acc n (ans, auth, add, rc) -> add = [] /\ resolves o R soa t k first acc n (ans, auth, rc).
Proof.
  intros Hc Hl H. remember (ans, auth, add, rc) as r eqn:E. revert E Hc Hl.
  induction H as [|k f0 acc n ns Hns| | | | |k f0 acc n rs nx r' _ Hout _ IH]; intros E Hc Hl; try (injection E as <- <- <- <-; split; [done|by econstructor]).
  - by destruct (Hc ns).
  - destruct IH as [-> Hr]; [done|intros ns; apply Hl; by eapply leads_one|intros n' ns Hn'; apply Hl; by eapply leads_more|]. split; [done|]. by eapply res_redirect.
Qed.
Lemma contained_rfc z R n t r : contained z R t n -> answered z R n t r <-> rfc_answered z R n t r.
Proof.
  intros Hl. unfold answered, rfc_answered. split; (intros [H|[Hc H]]; [by left|right; split; [done|]]).
  - destruct H as (ans & auth & rc & H & ->). exists ans, auth, [], rc. split; [|done]. by eapply resolves_rfc.
  - destruct H as (ans & auth & add & rc & H & ->). apply rfc_resolves_code in H as [-> H]; [|done..]. by exists ans, auth, rc.
Qed.


(** An alias to a name below a cut is answered from the glue, with AA set, where
    step 3b is a referral. *)
Lemma alias_below_cut :
  zoneIndex.lookup_ Sample.aliased (nm [[97]; Sample.ex]) rrtype.A =
    Ok (zoneIndex.mkResult [NewRecord (nm [[97]; Sample.ex]) Sample.hour (RD_CNAME (nm [Sample.ns; Sample.sub; Sample.ex]));
                            NewRecord (nm [Sample.ns; Sample.sub; Sample.ex]) Sample.hour (Sample.address 3)] [] [] RCODENoError true) /\
  zoneIndex.findDelegation Sample.aliased (nm [Sample.ns; Sample.sub; Sample.ex]) <> [].
Proof. split; [vm_compute; reflexivity|vm_compute; discriminate]. Qed.

(** ns.ex. has the address asked for, so that no alias is followed. *)
Lemma ns_contained : contained Sample.index Sample.records rrtype.A Sample.nsName.
Proof.
  assert (forall rs n', ~ at_node Sample.origin Sample.records rrtype.A Sample.nsName (Redirect rs n')) as H.
  { assert (exists_in Sample.origin Sample.records Sample.nsName) as He.
    { split; [apply (anc_nm [Sample.ns] [Sample.ex]); reflexivity|]. exists (NewRecord Sample.nsName Sample.hour (Sample.address 1)). split; [by do 2 right; left|reflexivity]. }
    intros rs n' H. inversion H as [out Ho Hs| |d s Hx|e w out Hx|]; subst; [|done..]. inversion Hs as [|c target Hr|]; subst. by vm_compute in Hr. }
  intros n' ns Hl _. inversion Hl; subst; by eapply H.
Qed.

