(* ===== verification/ZoneUpdate.v ===== *)
(** * Dynamic update against its specification

    [effect] is RFC 2136 section 3.4.2 as a function on the records of a zone;
    the index operations of update.go implement it, keep the invariant, and
    move the serial by one. *)

From S2P Require Import Prelude Name Wire RData RDataNew Message Compare Authoritative Update ZoneTree ZoneLookup.

(** ** The effect of one update record *)

Definition owner_is (n : Name) (r : Record_) : bool := Equal (r_name r) n.
Definition without (drop : Record_ -> bool) (R : list Record_) : list Record_ :=
  List.filter (fun r => negb (drop r)) R.

(** The record that an addition stores. *)
Definition stored (u : Record_) : Record_ := mkRecord (r_name u) rrtype.ClassIN (r_ttl u) (r_rd u).
(** An addition that is already there. *)
Definition duplicate (u r : Record_) : bool :=
  owner_is (r_name u) r && ((RType r =? RType u) && (r_ttl r =? r_ttl u) && Update.rdataEqual r u).

Definition effect (o : Name) (R : list Record_) (u : Record_) : list Record_ :=
  let n := r_name u in
  let t := RType u in
  if r_class u =? rrtype.ClassANY then
    if Equal n o && ((t =? rrtype.SOA) || (t =? rrtype.NS)) then R
    else without (fun r => owner_is n r &&
                   (if t =? rrtype.ANY then negb (Equal n o && Update.isSOAorNS r) else RType r =? t)) R
  else if r_class u =? rrtype.ClassNONE then
    if Equal n o && ((t =? rrtype.SOA) || (t =? rrtype.NS)) then R
    else without (fun r => owner_is n r && ((RType r =? t) && Update.rdataEqual r u)) R
  else
    if existsb (duplicate u) R then R
    else without (fun r => owner_is n r && (Equal n o && (t =? rrtype.SOA) && Update.isSOA r)) R ++ [stored u].

(** ** Indexes up to the set of existing names *)

Record holds (z : zoneIndex.t) (R : list Record_) : Prop := {
  h_origin : canonical (zoneIndex.origin z);
  h_recs : Forall (rec_ok (zoneIndex.origin z)) R;
  h_byName n : canonical n ->
    zoneIndex.byName z !! nameKey n = match owned R n with [] => None | l => Some l end;
  h_keys k : is_Some (zoneIndex.byName z !! k) -> exists n, canonical n /\ k = nameKey n }.

Lemma indexes_holds z R : indexes z R <-> holds z R /\
  forall k, k ∈ zoneIndex.namesExist z <-> exists n, k = nameKey n /\ exists_in (zoneIndex.origin z) R n.
Proof. split; [intros []; split; [by constructor|done]|intros [[] ?]; by constructor]. Qed.

(** [holds] does not look at the SOA copy or at the existing names. *)
Lemma holds_ext z z' R : holds z R ->
  zoneIndex.origin z' = zoneIndex.origin z -> zoneIndex.byName z' = zoneIndex.byName z -> holds z' R.
Proof. intros [] E1 E2. constructor; rewrite ?E1, ?E2; auto. Qed.

Lemma owned_without drop R n m :
  owned (without (fun r => owner_is n r && drop r) R) m =
    if Equal m n then without drop (owned R n) else owned R m.
Proof.
  unfold without. rewrite <- filter_owned. destruct (Equal m n) eqn:E.
  - apply Equal_iff in E as ->. unfold owned. apply filter_ext_in. intros r Hr. apply filter_In in Hr as [_ Hr].
    unfold owner_is. by rewrite Hr.
  - apply Equal_false in E. rewrite (filter_ext_in _ (fun _ => true)).
    + apply List.filter_true.
    + intros r Hr. apply filter_In in Hr as [_ Hr]. apply Equal_iff in Hr as <-.
      unfold owner_is. by rewrite (proj2 (Equal_false (r_name r) n) E).
Qed.
Lemma without_false drop R : existsb drop R = false -> without drop R = R.
Proof.
  unfold without. induction R as [|r R IH]; cbn; [done|]. intros H. apply orb_false_iff in H as [-> H].
  cbn. by rewrite IH.
Qed.
Lemma length_without drop R : existsb drop R = true -> (length (without drop R) < length R)%nat.
Proof.
  unfold without. induction R as [|r R IH]; cbn; [done|]. intros H.
  pose proof (List.filter_length_le (fun r => negb (drop r)) R).
  destruct (drop r); cbn in *; [lia|]. specialize (IH H). lia.
Qed.
Lemma existsb_owned drop R n :
  existsb (fun r => owner_is n r && drop r) R = existsb drop (owned R n).
Proof.
  unfold owned, owner_is. induction R as [|r R IH]; cbn; [done|]. destruct (Equal (r_name r) n); cbn; by rewrite IH.
Qed.
Lemma Forall_without (P : Record_ -> Prop) drop R : Forall P R -> Forall P (without drop R).
Proof.
  intros H. rewrite Forall_forall in H |- *. intros r Hr. apply H.
  unfold without in Hr. rewrite list_elem_of_In, filter_In in Hr. apply list_elem_of_In. tauto.
Qed.

(** Storing a new list at one name. *)
Lemma holds_set z R R' n l :
  holds z R -> canonical n -> Forall (rec_ok (zoneIndex.origin z)) R' ->
  owned R' n = l -> (forall m, m <> n -> owned R' m = owned R m) ->
  l <> [] -> holds (Update.setByName z (<[nameKey n := l]> (zoneIndex.byName z))) R'.
Proof.
  intros [Ho HR Hb Hk] Hn HR' El Em Hl. constructor; cbn; [done|done| |].
  - intros m Hm. destruct (decide (m = n)) as [->|Hne].
    + rewrite lookup_insert_eq, El. by destruct l.
    + rewrite lookup_insert_ne by (intros E; apply Hne; symmetry; by apply nameKey_inj). rewrite Em by done. auto.
  - intros k. rewrite lookup_insert_is_Some. intros [<-|[_ H]]; [by exists n|auto].
Qed.
Lemma holds_delete z R R' n :
  holds z R -> canonical n -> Forall (rec_ok (zoneIndex.origin z)) R' ->
  owned R' n = [] -> (forall m, m <> n -> owned R' m = owned R m) ->
  holds (Update.setByName z (delete (nameKey n) (zoneIndex.byName z))) R'.
Proof.
  intros [Ho HR Hb Hk] Hn HR' El Em. constructor; cbn; [done|done| |].
  - intros m Hm. destruct (decide (m = n)) as [->|Hne].
    + by rewrite lookup_delete_eq, El.
    + rewrite lookup_delete_ne by (intros E; apply Hne; symmetry; by apply nameKey_inj). rewrite Em by done. auto.
  - intros k. rewrite lookup_delete_is_Some. intros [_ H]. auto.
Qed.
Lemma holds_store z R R' n l :
  holds z R -> canonical n -> Forall (rec_ok (zoneIndex.origin z)) R' ->
  owned R' n = l -> (forall m, m <> n -> owned R' m = owned R m) ->
  holds (Update.store z (nameKey n) l) R'.
Proof.
  intros. unfold Update.store. destruct l; cbn [zlen length Z.of_nat Z.eqb].
  - by eapply holds_delete.
  - rewrite (proj2 (Z.eqb_neq _ _)) by llia. by eapply holds_set.
Qed.

(** *** Deletions *)

(** One step relates an index operation to a change of the records: the
    result represents them, keeps the other fields, and [changed] tells
    whether they differ. *)
Definition steps (z : zoneIndex.t) (R : list Record_) (zc : zoneIndex.t * bool) (R' : list Record_) : Prop :=
  let '(z', changed) := zc in
  holds z' R' /\ zoneIndex.origin z' = zoneIndex.origin z /\
  (changed = false -> z' = z /\ R' = R) /\ (changed = true -> R' <> R).

Lemma steps_same z R : holds z R -> steps z R (z, false) R.
Proof. intros. by split_and!. Qed.

Lemma deleteMatching_steps z R n recs drop :
  holds z R -> canonical n -> zoneIndex.byName z !! nameKey n = Some recs ->
  steps z R (Update.deleteMatching z (nameKey n) recs drop)
    (without (fun r => owner_is n r && drop r) R) /\
  zoneIndex.soaRec (fst (Update.deleteMatching z (nameKey n) recs drop)) = zoneIndex.soaRec z.
Proof.
  intros Hh Hn Hb. assert (recs = owned R n) as ->.
  { rewrite (h_byName z R Hh) in Hb by done. by destruct (owned R n); simplify_eq. }
  unfold Update.deleteMatching. rewrite <- existsb_owned.
  destruct (existsb _ R) eqn:E; cbn.
  - split; [|by unfold Update.store; case_match]. split_and!.
    + eapply holds_store; [done|done|apply Forall_without, Hh| |].
      * by rewrite owned_without, Equal_refl.
      * intros m Hm. by rewrite owned_without, (proj2 (Equal_false m n) Hm).
    + unfold Update.store. by case_match.
    + done.
    + intros _ E'. apply length_without in E. rewrite E' in E. lia.
  - rewrite without_false by done. split; [by apply steps_same|done].
Qed.

Lemma no_records_steps z R n drop : holds z R -> canonical n -> zoneIndex.byName z !! nameKey n = None ->
  steps z R (z, false) (without (fun r => owner_is n r && drop r) R).
Proof.
  intros Hh Hn Hb. rewrite without_false; [by apply steps_same|]. rewrite existsb_owned.
  rewrite (h_byName z R Hh) in Hb by done. by destruct (owned R n).
Qed.

(** *** Additions *)

Lemma rdataEqual_stored u : Update.rdataEqual (stored u) u = true.
Proof. unfold Update.rdataEqual. cbn. rewrite Z.eqb_refl. by apply bool_decide_eq_true. Qed.
Lemma duplicate_stored u : duplicate u (stored u) = true.
Proof.
  unfold duplicate, owner_is. change (r_name (stored u)) with (r_name u). change (RType (stored u)) with (RType u).
  change (r_ttl (stored u)) with (r_ttl u). by rewrite Equal_refl, !Z.eqb_refl, rdataEqual_stored.
Qed.
Lemma stored_new u R S : existsb (duplicate u) R = false -> S ++ [stored u] <> R.
Proof.
  intros H E. rewrite <- not_true_iff_false in H. apply H. apply existsb_exists. exists (stored u).
  split; [|apply duplicate_stored]. rewrite <- E. apply in_app_iff. right. by left.
Qed.
Lemma rec_ok_stored o u : rec_ok o u -> rec_ok o (stored u).
Proof. done. Qed.

(** The records after an addition at [n], with those of [drop] replaced. *)
Lemma addition_steps z R u drop s :
  holds z R -> rec_ok (zoneIndex.origin z) u -> existsb (duplicate u) R = false ->
  steps z R
    (Update.markExists (zoneIndex.mk (zoneIndex.origin z) s
       (<[nameKey (r_name u) := without drop (owned R (r_name u)) ++ [stored u]]> (zoneIndex.byName z))
       (zoneIndex.namesExist z)) (r_name u), true)
    (without (fun r => owner_is (r_name u) r && drop r) R ++ [stored u]).
Proof.
  intros Hh Hu Hd. pose proof Hu as (Hn & _). split_and!; [|done|done|].
  - eapply holds_ext; [eapply (holds_set z R)|done|done]; [done|done|..].
    + apply Forall_app. split; [apply Forall_without, Hh|by constructor].
    + by rewrite owned_app, owned_without, Equal_refl, owned_one, Equal_refl.
    + intros m Hm. rewrite owned_app, owned_without, (proj2 (Equal_false m (r_name u)) Hm), owned_one.
      cbn. rewrite (proj2 (Equal_false (r_name u) m)) by done. apply app_nil_r.
    + by intros [_ E]%app_eq_nil.
  - intros _. by apply stored_new.
Qed.

Lemma without_none R : without (fun _ => false) R = R.
Proof. apply List.filter_true. Qed.
Lemma holds_at z R n : holds z R -> canonical n -> zoneIndex.at_ z (nameKey n) = owned R n.
Proof. intros Hh Hn. unfold zoneIndex.at_. rewrite (h_byName z R Hh) by done. by destruct (owned R n). Qed.

(** ** applyUpdate implements [effect] *)
Lemma applyUpdate_steps z R u : holds z R -> rec_ok (zoneIndex.origin z) u ->
  steps z R (Update.applyUpdate z u) (effect (zoneIndex.origin z) R u).
Proof.
  intros Hh Hu. pose proof Hu as (Hn & _). unfold Update.applyUpdate, effect. cbv zeta.
  set (apex := Equal (r_name u) (zoneIndex.origin z)).
  destruct (r_class u =? rrtype.ClassANY).
  - destruct (zoneIndex.byName z !! nameKey (r_name u)) as [recs|] eqn:Eb; cycle 1.
    { destruct (_ && _); [by apply steps_same|by apply no_records_steps]. }
    assert (RType u =? rrtype.ANY = true -> (RType u =? rrtype.SOA) || (RType u =? rrtype.NS) = false) as Hany.
    { intros E. bool_facts. by rewrite E. }
    destruct (RType u =? rrtype.ANY) eqn:Et.
    + rewrite (Hany eq_refl). destruct apex eqn:Ea; cbn.
      * by apply deleteMatching_steps.
      * assert (existsb (fun r => owner_is (r_name u) r && true) R = true) as Hne.
        { rewrite existsb_owned. rewrite (h_byName z R Hh) in Eb by done. by destruct (owned R (r_name u)). }
        split_and!; [|done|done|].
        -- eapply holds_delete; [done|done|apply Forall_without, Hh| |].
           ++ rewrite owned_without, Equal_refl. unfold without. by rewrite List.filter_false.
           ++ intros m Hm. by rewrite owned_without, (proj2 (Equal_false m (r_name u)) Hm).
        -- intros _ E. apply length_without in Hne. rewrite E in Hne. lia.
    + rewrite !orb_false_r. destruct (apex && _) eqn:Ea; [by apply steps_same|by apply deleteMatching_steps].
  - destruct (r_class u =? rrtype.ClassNONE).
    { destruct (zoneIndex.byName z !! nameKey (r_name u)) as [recs|] eqn:Eb; cycle 1.
      { destruct (_ && _); [by apply steps_same|by apply no_records_steps]. }
      destruct (_ && _); [by apply steps_same|by apply deleteMatching_steps]. }
    rewrite (holds_at z R) by done. rewrite <- existsb_owned. fold (duplicate u).
    change (existsb (fun r => owner_is (r_name u) r && _) R) with (existsb (duplicate u) R).
    destruct (existsb (duplicate u) R) eqn:Ed; [by apply steps_same|].
    destruct (apex && (RType u =? rrtype.SOA)) eqn:Ea.
    + by apply addition_steps.
    + rewrite <- (without_none (owned R (r_name u))) at 1. by apply addition_steps.
Qed.

(** ** The apex *)

(** An addition of an SOA at the apex carries an SOA that [NewSOA] accepts. *)
Definition soa_update_ok (o : Name) (u : Record_) : Prop :=
  r_class u = rrtype.ClassIN -> r_name u = o -> RType u = rrtype.SOA -> valid_soa u.

Lemma filter_without f drop (l : list Record_) :
  (forall r, drop r = true -> f r = false) -> List.filter f (without drop l) = List.filter f l.
Proof.
  intros H. unfold without. induction l as [|r l IH]; cbn; [done|].
  destruct (drop r) eqn:E; cbn; rewrite IH; [by rewrite (H r E)|done].
Qed.
Lemma elem_of_without drop R r : r ∈ without drop R <-> r ∈ R /\ drop r = false.
Proof. unfold without. rewrite !list_elem_of_In, filter_In, negb_true_iff. done. Qed.

(** Deletions that spare the SOA keep the apex. *)
Lemma apex_without (V : Prop) z z' R n drop :
  apex_at V z R -> zoneIndex.origin z' = zoneIndex.origin z -> zoneIndex.soaRec z' = zoneIndex.soaRec z ->
  (n = zoneIndex.origin z -> forall r, drop r = true -> Update.isSOA r = false) ->
  apex_at V z' (without (fun r => owner_is n r && drop r) R).
Proof.
  intros (H1 & H2 & H3) Eo Es Hd. unfold apex_at. rewrite Eo, Es, owned_without.
  destruct (Equal (zoneIndex.origin z) n) eqn:E; [|done]. apply Equal_iff in E as <-.
  rewrite filter_without by auto. split_and!; [done..|]. by apply Forall_without.
Qed.

Lemma deleteMatching_fixed z k recs drop :
  zoneIndex.origin (fst (Update.deleteMatching z k recs drop)) = zoneIndex.origin z /\
  zoneIndex.soaRec (fst (Update.deleteMatching z k recs drop)) = zoneIndex.soaRec z.
Proof. unfold Update.deleteMatching, Update.store. by repeat case_match. Qed.

Lemma not_SOA r t : (RType r =? t) = true -> (t =? rrtype.SOA) = false -> Update.isSOA r = false.
Proof. intros. bool_facts. unfold Update.isSOA. bool_facts. subst. by apply Z.eqb_neq. Qed.

Lemma applyUpdate_soa z u :
  zoneIndex.origin (fst (Update.applyUpdate z u)) = zoneIndex.origin z /\
  ((r_class u =? rrtype.ClassANY) || (r_class u =? rrtype.ClassNONE) = true ->
   zoneIndex.soaRec (fst (Update.applyUpdate z u)) = zoneIndex.soaRec z).
Proof.
  unfold Update.applyUpdate. cbv zeta. repeat case_match; cbn; try done; try apply deleteMatching_fixed.
  all: split; [apply deleteMatching_fixed|intros _; apply deleteMatching_fixed].
Qed.

Lemma RType_stored u : RType (stored u) = RType u.
Proof. done. Qed.
Lemma filter_isSOA_without (l : list Record_) : List.filter Update.isSOA (without Update.isSOA l) = [].
Proof.
  unfold without. induction l as [|r l IH]; cbn; [done|]. destruct (Update.isSOA r) eqn:E; cbn; [done|by rewrite E].
Qed.

(** The apex after an addition: an SOA replaces the SOA, anything else but an
    alias joins the other records. *)
Lemma addition_apex (V : Prop) z R u :
  holds z R -> apex_at V z R -> rec_ok (zoneIndex.origin z) u ->
  (r_class u =? rrtype.ClassANY) = false -> (r_class u =? rrtype.ClassNONE) = false ->
  Equal (r_name u) (zoneIndex.origin z) && isCNAMEorDNAME u = false ->
  (V -> r_name u = zoneIndex.origin z -> RType u = rrtype.SOA -> valid_soa u) ->
  apex_at V (fst (Update.applyUpdate z u)) (effect (zoneIndex.origin z) R u).
Proof.
  intros Hh (H1 & H2 & H3) (Hn & _) Ec1 Ec2 Hv Hs. unfold Update.applyUpdate, effect. cbv zeta.
  rewrite Ec1, Ec2, (holds_at z R), <- existsb_owned by done.
  change (existsb (fun r => owner_is (r_name u) r && _) R) with (existsb (duplicate u) R).
  destruct (existsb (duplicate u) R); [done|]. fold (stored u).
  destruct (Equal (r_name u) (zoneIndex.origin z)) eqn:En; cbn [andb] in Hv |- *; cycle 1.
  { unfold apex_at. cbn. rewrite owned_app, owned_without, owned_one. change (r_name (stored u)) with (r_name u).
    rewrite En. apply Equal_false in En. rewrite (proj2 (Equal_false _ (r_name u))) by done.
    by rewrite app_nil_r. }
  apply Equal_iff in En. destruct (RType u =? rrtype.SOA) eqn:Et; unfold apex_at; cbn;
    rewrite owned_app, owned_without, owned_one; change (r_name (stored u)) with (r_name u);
    rewrite En, !Equal_refl, List.filter_app; cbn [List.filter].
  - rewrite filter_isSOA_without. unfold Update.isSOA at 1. rewrite RType_stored, Et. bool_facts. split_and!; [done| |].
    + intros HV. exact (Hs HV En Et).
    + apply Forall_app. split; [by apply Forall_without|by constructor].
  - rewrite without_none, H1. unfold Update.isSOA. rewrite RType_stored, Et. split_and!; [done|done|].
    apply Forall_app. by split; [|constructor].
Qed.

(** The apex keeps one SOA, which is the cached one, and stays free of aliases. *)
Lemma applyUpdate_apex (V : Prop) z R u :
  holds z R -> apex_at V z R -> rec_ok (zoneIndex.origin z) u ->
  Update.validUpdate z u = true -> (V -> soa_update_ok (zoneIndex.origin z) u) ->
  apex_at V (fst (Update.applyUpdate z u)) (effect (zoneIndex.origin z) R u).
Proof.
  intros Hh Ha Hu Hv Hs. destruct (applyUpdate_soa z u) as [Eo Es]. unfold Update.validUpdate in Hv.
  assert (forall z', zoneIndex.origin z' = zoneIndex.origin z -> zoneIndex.soaRec z' = zoneIndex.soaRec z ->
            apex_at V z' R) as Hsame by (intros z' E1 E2; unfold apex_at; by rewrite E1, E2).
  destruct (r_class u =? rrtype.ClassANY) eqn:Ec1; [|destruct (r_class u =? rrtype.ClassNONE) eqn:Ec2].
  1-2: unfold effect; cbv zeta; rewrite Ec1, ?Ec2; destruct (_ && _) eqn:Ep; [by apply Hsame; auto|];
       apply apex_without with (z := z); [done..|auto|]; intros En r; rewrite En, Equal_refl in Ep;
       cbn in Ep; apply orb_false_iff in Ep as [Ep _].
  - rewrite En, Equal_refl. cbn. destruct (RType u =? rrtype.ANY).
    + unfold Update.isSOAorNS, Update.isSOA. intros Hx. apply negb_true_iff, orb_false_iff in Hx. tauto.
    + intros Hx. by eapply not_SOA.
  - intros Hx. apply andb_prop in Hx as [Hx _]. by eapply not_SOA.
  - destruct (r_class u =? rrtype.ClassIN) eqn:Ec3; [|done]. rewrite negb_true_iff in Hv.
    apply addition_apex; [done..|]. intros HV. apply Hs; [done|]. by apply Z.eqb_eq.
Qed.

(** ** The whole update section *)

Lemma validUpdate_ext z z' u : zoneIndex.origin z' = zoneIndex.origin z ->
  Update.validUpdate z' u = Update.validUpdate z u.
Proof. intros E. unfold Update.validUpdate. by rewrite E. Qed.

Lemma applyAll_spec (V : Prop) us z R c :
  holds z R -> apex_at V z R -> Forall (rec_ok (zoneIndex.origin z)) us ->
  forallb (Update.validUpdate z) us = true -> (V -> Forall (soa_update_ok (zoneIndex.origin z)) us) ->
  let '(z', c') := Update.applyAll z c us in
  let R' := fold_left (effect (zoneIndex.origin z)) us R in
  holds z' R' /\ apex_at V z' R' /\ zoneIndex.origin z' = zoneIndex.origin z /\
  (c' = false -> c = false /\ z' = z /\ R' = R).
Proof.
  revert z R c. induction us as [|u us IH]; intros z R c Hh Ha Hr Hv Hs; cbn.
  { by split_and!. }
  inversion Hr; subst. assert ((V -> soa_update_ok (zoneIndex.origin z) u) /\ (V -> Forall (soa_update_ok (zoneIndex.origin z)) us)) as [Hs1 Hs2] by (split; intros HV; specialize (Hs HV); by inversion Hs). cbn in Hv. apply andb_prop in Hv as [Hv Hvs].
  pose proof (applyUpdate_steps z R u Hh ltac:(done)) as Hst.
  pose proof (applyUpdate_apex V z R u Hh Ha ltac:(done) Hv Hs1) as Hap.
  destruct (Update.applyUpdate z u) as [z1 c1]. destruct Hst as (Hh1 & Eo & Hc1 & Hc1').
  specialize (IH z1 (effect (zoneIndex.origin z) R u) (c || c1)). rewrite Eo in IH.
  destruct (Update.applyAll z1 (c || c1) us) as [z2 c2].
  destruct IH as (Hh2 & Ha2 & Eo2 & Hc2); [done..| |done|].
  { rewrite forallb_forall in Hvs |- *. intros v Hv'. rewrite (validUpdate_ext z) by done. auto. }
  split_and!; [done..|congruence|]. intros E. destruct (Hc2 E) as (Hc & -> & E2).
  apply orb_false_iff in Hc as [-> ->]. rewrite E2. split; [done|auto].
Qed.

(** *** The serial *)

Definition bumped (o : Name) (s : Record_) (R : list Record_) : list Record_ :=
  map (fun r => if owner_is o r && Update.isSOA r then s else r) R.

Lemma owned_bumped o s R n : r_name s = o ->
  owned (bumped o s R) n =
    if Equal n o then map (fun r => if Update.isSOA r then s else r) (owned R o) else owned R n.
Proof.
  intros Hs. unfold owned, bumped, owner_is. induction R as [|r R IH]; cbn; [by destruct (Equal n o)|].
  destruct (Equal (r_name r) o) eqn:Er; cbn.
  - apply Equal_iff in Er. rewrite Er. assert (r_name (if Update.isSOA r then s else r) = o) as -> by by destruct (Update.isSOA r).
    rewrite IH. destruct (Equal n o) eqn:En; [apply Equal_iff in En as ->; by rewrite Equal_refl|].
    by rewrite (proj2 (Equal_false o n)) by (apply Equal_false in En; congruence).
  - rewrite IH. destruct (Equal n o) eqn:En; [apply Equal_iff in En as ->; by rewrite Er|done].
Qed.
Lemma replaceSOA_one l x s : List.filter Update.isSOA l = [x] ->
  Update.replaceSOA l s = map (fun r => if Update.isSOA r then s else r) l.
Proof.
  induction l as [|r l IH]; cbn; [done|]. destruct (Update.isSOA r) eqn:E; [|intros; by rewrite IH].
  intros [= -> Hl]. f_equal. rewrite <- (map_id l) at 1. apply map_ext_in. intros y Hy.
  destruct (Update.isSOA y) eqn:Ey; [|done]. assert (In y (List.filter Update.isSOA l)) by by apply filter_In.
  by rewrite Hl in *.
Qed.
Lemma filter_bumped (l : list Record_) x s : List.filter Update.isSOA l = [x] -> Update.isSOA s = true ->
  List.filter Update.isSOA (map (fun r => if Update.isSOA r then s else r) l) = [s].
Proof.
  intros H Hs. enough (List.filter Update.isSOA (map (fun r => if Update.isSOA r then s else r) l)
                       = map (fun _ => s) (List.filter Update.isSOA l)) as -> by by rewrite H.
  clear H. induction l as [|r l IH]; cbn; [done|]. destruct (Update.isSOA r) eqn:E; cbn; rewrite ?Hs, ?E; by rewrite IH.
Qed.

Lemma soa_not_alias s : valid_soa s -> isCNAMEorDNAME s = false.
Proof. intros (m & n & x & a & b & c & d & E & _). unfold isCNAMEorDNAME, RType. by rewrite E. Qed.

(** With the zone's own SOA in place of its one SOA the records are the same. *)
Lemma bumped_same o s R : List.filter Update.isSOA (owned R o) = [s] -> bumped o s R = R.
Proof.
  intros H. unfold bumped. rewrite <- (map_id R) at 2. apply map_ext_in. intros r Hr. destruct (owner_is o r && Update.isSOA r) eqn:E; [|done].
  apply andb_prop in E as [E1 E2]. assert (In r (List.filter Update.isSOA (owned R o))) as Hi.
  { apply filter_In. split; [|done]. by apply filter_In. }
  rewrite H in Hi. by destruct Hi as [->|[]].
Qed.
Lemma NewSOA_serial m n x y a b c d r : NewSOA m n x a b c d = Ok r -> NewSOA m n y a b c d = Ok (RD_SOA m n y a b c d).
Proof. unfold NewSOA. repeat case_match; done. Qed.
(** An SOA record at the apex. *)
Lemma apex_soa V z R : holds z R -> apex_at V z R ->
  r_name (zoneIndex.soaRec z) = zoneIndex.origin z /\ rec_ok (zoneIndex.origin z) (zoneIndex.soaRec z) /\ Update.isSOA (zoneIndex.soaRec z) = true.
Proof.
  intros Hh (H1 & _). assert (zoneIndex.soaRec z ∈ List.filter Update.isSOA (owned R (zoneIndex.origin z))) as Hi by (rewrite H1; by left).
  rewrite list_elem_of_In, filter_In, <- list_elem_of_In, elem_of_owned in Hi. destruct Hi as [[Hi Hi'] Hi2].
  split; [done|]. split; [|done]. pose proof (h_recs z R Hh) as HR. rewrite Forall_forall in HR. auto.
Qed.

Lemma bumpSOA_cases z : Update.bumpSOA z = z \/ exists m n x a b c d, r_rd (zoneIndex.soaRec z) = Some (RD_SOA m n x a b c d) /\
  NewSOA m n (to_u32 (x + 1)) a b c d = Ok (RD_SOA m n (to_u32 (x + 1)) a b c d) /\
  Update.bumpSOA z = let newRec := NewRecord (r_name (zoneIndex.soaRec z)) (r_ttl (zoneIndex.soaRec z)) (RD_SOA m n (to_u32 (x + 1)) a b c d) in
    let apexKey := nameKey (zoneIndex.origin z) in
    zoneIndex.mk (zoneIndex.origin z) newRec (<[apexKey := Update.replaceSOA (zoneIndex.at_ z apexKey) newRec]> (zoneIndex.byName z)) (zoneIndex.namesExist z).
Proof.
  unfold Update.bumpSOA, asSOA. destruct (r_rd (zoneIndex.soaRec z)) as [[]|] eqn:E; try (by left). destruct (NewSOA _ _ _ _ _ _ _) as [rd|] eqn:En; [|by left].
  right. pose proof (NewSOA_serial _ _ _ (to_u32 (serial + 1)) _ _ _ _ _ En) as En'. do 7 eexists. split; [done|]. split; [exact En'|]. assert (rd = RD_SOA mname rname (to_u32 (serial + 1)) refresh retry expire minimum) as -> by congruence. done.
Qed.
(** [bumpSOA] replaces the one SOA of the zone by itself with the next serial,
    or leaves it, when it is no SOA that [NewSOA] accepts. *)
Lemma bumpSOA_spec (V : Prop) z R : holds z R -> apex_at V z R ->
  let z' := Update.bumpSOA z in
  let R' := bumped (zoneIndex.origin z) (zoneIndex.soaRec z') R in
  holds z' R' /\ apex_at V z' R' /\ zoneIndex.origin z' = zoneIndex.origin z /\
  (V -> Update.serialOf z' = to_u32 (Update.serialOf z + 1)).
Proof.
  intros Hh Hap. destruct (apex_soa V z R Hh Hap) as (Hn & Hok & _). pose proof Hap as (H1 & H2 & H3). cbv zeta.
  assert (V -> Update.serialOf (Update.bumpSOA z) = to_u32 (Update.serialOf z + 1)) as Hser.
  { intros (m & n & x & a & b & c & d & E & En & _)%H2. unfold Update.bumpSOA, Update.serialOf, asSOA. rewrite E, (NewSOA_serial _ _ _ _ _ _ _ _ _ En). done. }
  destruct (bumpSOA_cases z) as [E|(m & n & x & a & b & c & d & E & En & Eb)].
  { rewrite E in *. rewrite (bumped_same _ _ _ H1). by split_and!. }
  revert Hser. rewrite Eb. cbv zeta. cbn [zoneIndex.soaRec zoneIndex.origin]. intros Hser.
  set (s := NewRecord _ _ _) in *. pose proof (h_origin z R Hh) as Ho.
  assert (valid_soa s) as Hv.
  { exists m, n, (to_u32 (x + 1)), a, b, c, d. split_and!; [done..|apply to_u32_range]. }
  rewrite (holds_at z R) by done. rewrite (replaceSOA_one _ _ s H1).
  split; [|split; [|by rewrite (holds_at z R), (replaceSOA_one _ _ s H1) in Hser by done]].
  - eapply holds_ext; [eapply (holds_set z R)|done|done]; [done|done|..].
    + apply Forall_forall. intros r Hr. unfold bumped in Hr. apply list_elem_of_fmap in Hr as (r' & -> & Hr').
      pose proof (h_recs z R Hh) as HR. rewrite Forall_forall in HR. case_match; [|auto].
      destruct Hok as (Hc & Han & _). rewrite Hn in Hc, Han. unfold rec_ok, s. cbn. rewrite Hn. by split_and!.
    + by rewrite owned_bumped, Equal_refl.
    + intros k Hk. by rewrite owned_bumped, (proj2 (Equal_false k (zoneIndex.origin z)) Hk).
    + destruct (owned R (zoneIndex.origin z)); [done|]. by intros ?%(f_equal length).
  - unfold apex_at. cbn [zoneIndex.origin zoneIndex.soaRec]. rewrite owned_bumped, Equal_refl by done.
    split_and!; [eapply filter_bumped; [done|by apply RType_SOA_valid]|done|].
    apply Forall_forall. intros r Hr. apply list_elem_of_fmap in Hr as (r' & -> & Hr').
    rewrite Forall_forall in H3. case_match; [by apply soa_not_alias|auto].
Qed.

(** *** The set of existing names *)

Section WithRange.
Context {range : MapRange}.

Lemma elem_of_mapRange {K} `{Countable K} {A} (m : gmap K A) k x : (k, x) ∈ mapRange m <-> m !! k = Some x.
Proof. rewrite mapRange_perm. apply elem_of_map_to_list. Qed.

(** The names marked by the loop of [rebuildNamesExist]. *)
Lemma rebuild_loop o (l : list (bytes * list Record_)) set k :
  (forall kk r recs, (kk, r :: recs) ∈ l -> canonical (r_name r) /\ anc (r_name r) o) ->
  k ∈ fold_left (fun out (kr : bytes * list Record_) =>
        match kr.2 with [] => out | r :: _ => zoneIndex.markNames o (r_name r) out end) l set <->
  k ∈ set \/ exists kk r recs p, (kk, r :: recs) ∈ l /\ anc (r_name r) p /\ anc p o /\ k = nameKey p.
Proof.
  revert set. induction l as [|[kk [|r recs]] l IH]; intros set Hl; cbn.
  - split; [by left|]. intros [?|(? & ? & ? & ? & H & _)]; [done|]. by apply not_elem_of_nil in H.
  - rewrite IH by (intros; eapply Hl; by right). split.
    + intros [?|(kk' & r & recs & p & H1 & H2)]; [by left|right]. exists kk', r, recs, p. split; [by right|done].
    + intros [?|(kk' & r & recs & p & H1 & H2)]; [by left|right]. exists kk', r, recs, p. split; [|done].
      by apply elem_of_cons in H1 as [?|?].
  - destruct (Hl kk r recs) as [Hc Ha]; [by left|]. rewrite IH by (intros; eapply Hl; by right).
    rewrite markNames_spec by done. split.
    + intros [[?|(p & H)]|(kk' & r' & recs' & p & H1 & H2)]; [by left|right..].
      * exists kk, r, recs, p. split; [by left|done].
      * exists kk', r', recs', p. split; [by right|done].
    + intros [?|(kk' & r' & recs' & p & H1 & H2)]; [by left; left|].
      apply elem_of_cons in H1 as [[= -> -> ->]|H1]; [left; right; by exists p|right]. by exists kk', r', recs', p.
Qed.

Lemma rebuild_indexes z R : holds z R -> owned R (zoneIndex.origin z) <> [] ->
  indexes (Update.rebuildNamesExist z) R.
Proof.
  intros Hh Hne. apply indexes_holds. split; [by eapply holds_ext|]. intros k.
  unfold Update.rebuildNamesExist. cbn [zoneIndex.namesExist zoneIndex.origin].
  pose proof (h_recs z R Hh) as HR. rewrite Forall_forall in HR.
  assert (forall kk r recs, (kk, r :: recs) ∈ mapRange (zoneIndex.byName z) -> r ∈ R) as Hin.
  { intros kk r recs Hi. apply elem_of_mapRange in Hi. destruct (h_keys z R Hh kk) as (n & Hn & ->); [by eauto|].
    rewrite (h_byName z R Hh) in Hi by done. destruct (owned R n) as [|r' l'] eqn:E; [done|]. injection Hi as -> ->.
    eapply elem_of_owned. rewrite E. by left. }
  rewrite elem_of_union, elem_of_singleton, rebuild_loop, elem_of_empty; cycle 1.
  { intros kk r recs Hi. apply Hin, HR in Hi as (? & ? & _). done. }
  split.
  - intros [->|[?|(kk & r & recs & p & Hi & H1 & H2 & ->)]]; [|done|].
    + exists (zoneIndex.origin z). split; [done|]. destruct (owned R (zoneIndex.origin z)) as [|r l] eqn:E; [done|].
      assert (r ∈ owned R (zoneIndex.origin z)) as Hr by (rewrite E; by left).
      apply elem_of_owned in Hr as [Hr Hn]. split; [done|]. exists r. by rewrite Hn.
    + exists p. split; [done|]. split; [done|]. exists r. eauto.
  - intros (n & -> & Ho & r & Hr & Ha). right. right. destruct (HR r Hr) as (Hc & _).
    destruct (owned R (r_name r)) as [|r0 l] eqn:E.
    { by apply owned_nil with (r := r) in E. }
    assert (r_name r0 = r_name r) as E0 by (eapply elem_of_owned; rewrite E; by left).
    exists (nameKey (r_name r)), r0, l, n. rewrite E0. split_and!; [|done..].
    apply elem_of_mapRange. by rewrite (h_byName z R Hh), E.
Qed.

(** ** The outcome of an update *)

(** The records of a zone after the updates [us], and the SOA bumped when
    there was a change. *)
Lemma updatedZone_spec (V : Prop) z R us :
  indexes z R -> apex_at V z R -> Forall (rec_ok (zoneIndex.origin z)) us ->
  forallb (Update.validUpdate z) us = true -> (V -> Forall (soa_update_ok (zoneIndex.origin z)) us) ->
  let '(z', changed, oldSerial, newSerial) := Update.updatedZone z us in
  let R1 := fold_left (effect (zoneIndex.origin z)) us R in
  if changed : bool then
    indexes z' (bumped (zoneIndex.origin z) (zoneIndex.soaRec z') R1) /\
    apex_at V z' (bumped (zoneIndex.origin z) (zoneIndex.soaRec z') R1) /\
    zoneIndex.origin z' = zoneIndex.origin z /\
    (V -> newSerial = Update.serialOf z' /\ newSerial = to_u32 (oldSerial + 1))
  else z' = z /\ R1 = R /\ newSerial = oldSerial /\ oldSerial = Update.serialOf z.
Proof.
  intros Hi Ha Hr Hv Hs. apply indexes_holds in Hi as [Hh _].
  pose proof (applyAll_spec V us z R false Hh Ha Hr Hv Hs) as H.
  unfold Update.updatedZone. destruct (Update.applyAll z false us) as [z1 changed].
  destruct H as (Hh1 & Ha1 & Eo & Hc). destruct changed; [|destruct (Hc eq_refl) as (_ & -> & ->); by split_and!].
  destruct (bumpSOA_spec V z1 _ Hh1 Ha1) as (Hh2 & Ha2 & Eo2 & Es). rewrite Eo in *.
  set (z2 := Update.bumpSOA z1) in *. cbn [Update.rebuildNamesExist zoneIndex.soaRec zoneIndex.origin].
  split; [|split; [|split; [done|]]].
  - apply rebuild_indexes; [done|]. rewrite Eo2. destruct Ha2 as (H2 & _). rewrite Eo2 in H2.
    intros E. by rewrite E in H2.
  - done.
  - intros HV. pose proof (proj1 (proj2 Ha2) HV) as Hval. apply RType_SOA_valid in Hval as [_ [? Hsome]]. rewrite Hsome. split; [done|]. by apply Es.
Qed.
End WithRange.

(** ** Prerequisites (RFC 2136 sections 2.4 and 3.2) *)

(** The prerequisite records of class IN about the RRset of [p]. *)
Definition same_rrset (p q : Record_) : Prop :=
  r_class q = rrtype.ClassIN /\ r_name q = r_name p /\ RType q = RType p.

(** The part of a prerequisite that concerns the record alone: a form check
    and, by class and type, name in use, RRset exists, name not in use, or
    RRset does not exist in the zone's records [R]. *)
Definition prereq_form (R : list Record_) (p : Record_) : Prop :=
  let here := if decide (RType p = rrtype.ANY) then owned R (r_name p)
              else rrset (owned R (r_name p)) (RType p) in
  r_ttl p = 0 /\
  (if decide (r_class p = rrtype.ClassANY) then (rdataBytes p = [] /\ here <> [])
   else (if decide (r_class p = rrtype.ClassNONE) then (rdataBytes p = [] /\ here = [])
   else (r_class p = rrtype.ClassIN))).

(** The whole of it, among the prerequisites [ps]: a class IN record also asks
    that the RRset exists with exactly the values given for it. *)
Definition prereq_ok (R ps : list Record_) (p : Record_) : Prop :=
  prereq_form R p /\
  (r_class p = rrtype.ClassIN ->
   forall v, v ∈ map rdataBytes (rrset (owned R (r_name p)) (RType p)) <->
             exists q, q ∈ ps /\ same_rrset p q /\ rdataBytes q = v).

(** The key of a record in [want], and [want] after a record of class IN. *)
Definition wantKey (p : Record_) : bytes * Z := (nameKey (r_name p), RType p).
Definition collect (want : Update.Want) (p : Record_) : Update.Want :=
  if r_class p =? rrtype.ClassIN
  then <[wantKey p := {[rdataBytes p]} ∪ default ∅ (want !! wantKey p)]> want else want.

(** The tests of the code as propositions. *)
Lemma eqb_decide x y : (x =? y) = bool_decide (x = y).
Proof. destruct (Z.eqb_spec x y); by case_bool_decide. Qed.
Lemma hasRData_decide p : Update.hasRData p = negb (bool_decide (rdataBytes p = [])).
Proof.
  unfold Update.hasRData. case_bool_decide as E; [by rewrite E|]. destruct (rdataBytes p); [done|].
  apply Z.ltb_lt. llia.
Qed.
Lemma hasName_decide z R n : holds z R -> canonical n ->
  Update.hasName z n = negb (bool_decide (owned R n = [])).
Proof.
  intros Hh Hn. unfold Update.hasName. rewrite (h_byName z R Hh) by done.
  case_bool_decide as E; [by rewrite E|]. by destruct (owned R n).
Qed.
Lemma existsb_rrset (l : list Record_) t : existsb (fun r => RType r =? t) l = negb (bool_decide (rrset l t = [])).
Proof. unfold rrset. induction l as [|r l IH]; cbn; [done|]. by destruct (RType r =? t). Qed.
Lemma hasType_decide z R n t : holds z R -> canonical n ->
  Update.hasType z n t = negb (bool_decide (rrset (owned R n) t = [])).
Proof.
  intros Hh Hn. unfold Update.hasType. rewrite (h_byName z R Hh), <- existsb_rrset by done.
  by destruct (owned R n).
Qed.

Definition prereq_rcodes : list Z :=
  [RCODEFormErr; RCODENXDomain; RCODENXRRSet; RCODEYXDomain; RCODEYXRRSet].

Lemma prereqStep_spec z R want p : holds z R -> canonical (r_name p) ->
  (prereq_form R p /\ Update.prereqStep z want p = inr (collect want p)) \/
  (~ prereq_form R p /\ exists rc, Update.prereqStep z want p = inl rc /\ rc ∈ prereq_rcodes).
Proof.
  intros Hh Hn. unfold Update.prereqStep, prereq_form, collect. fold (wantKey p).
  rewrite !eqb_decide, !hasRData_decide, (hasName_decide z R), (hasType_decide z R) by done.
  repeat case_bool_decide; repeat case_decide; cbn; try congruence;
    try match goal with H1 : r_class p = _, H2 : r_class p = _ |- _ => rewrite H1 in H2; discriminate H2 end;
    first [left; split; [by split_and!|congruence] | right; split; [tauto|eexists; split; [done|set_solver]]].
Qed.

(** [want] after the first loop: the values given for each RRset. *)
Lemma collect_lookup want p k v :
  v ∈ default ∅ (collect want p !! k) <->
  v ∈ default ∅ (want !! k) \/ (r_class p = rrtype.ClassIN /\ wantKey p = k /\ rdataBytes p = v).
Proof.
  unfold collect. destruct (r_class p =? rrtype.ClassIN) eqn:E; bool_facts; [|tauto].
  destruct (decide (wantKey p = k)) as [<-|Hne].
  - rewrite lookup_insert_eq. cbn. rewrite elem_of_union, elem_of_singleton. naive_solver.
  - rewrite lookup_insert_ne by done. tauto.
Qed.
Lemma collect_Some want p k : is_Some (collect want p !! k) <->
  is_Some (want !! k) \/ (r_class p = rrtype.ClassIN /\ wantKey p = k).
Proof.
  unfold collect. destruct (r_class p =? rrtype.ClassIN) eqn:E; bool_facts; [|tauto].
  rewrite lookup_insert_is_Some'. tauto.
Qed.

Lemma prereqLoop_spec z R ps want : holds z R -> Forall (fun p => canonical (r_name p)) ps ->
  (Forall (prereq_form R) ps /\ exists want', Update.prereqLoop z want ps = inr want' /\
     (forall k v, v ∈ default ∅ (want' !! k) <-> v ∈ default ∅ (want !! k) \/
        exists p, p ∈ ps /\ r_class p = rrtype.ClassIN /\ wantKey p = k /\ rdataBytes p = v) /\
     (forall k, is_Some (want' !! k) <-> is_Some (want !! k) \/
        exists p, p ∈ ps /\ r_class p = rrtype.ClassIN /\ wantKey p = k)) \/
  (~ Forall (prereq_form R) ps /\ exists rc, Update.prereqLoop z want ps = inl rc /\ rc ∈ prereq_rcodes).
Proof.
  intros Hh. revert want. induction ps as [|p ps IH]; intros want Hps; cbn.
  { left. split; [constructor|]. exists want. split_and!; [done|..]; intros; setoid_rewrite elem_of_nil; naive_solver. }
  apply Forall_cons in Hps as [Hp Hps]. destruct (prereqStep_spec z R want p) as [[Hf ->]|[Hf (rc & -> & Hrc)]]; [done..| |].
  2: { right. split; [by inversion 1|by exists rc]. }
  destruct (IH (collect want p)) as [(Hfs & want' & -> & H1 & H2)|(Hfs & rc & -> & Hrc)]; [done| |].
  2: { right. split; [by inversion 1|by exists rc]. }
  left. split; [by constructor|]. exists want'. split_and!; [done|..].
  - intros k v. rewrite H1, collect_lookup. setoid_rewrite elem_of_cons. naive_solver.
  - intros k. rewrite H2, collect_Some. setoid_rewrite elem_of_cons. naive_solver.
Qed.

(** One entry of the second loop: the sets are equal. *)
Lemma wantMet_spec z R n t set : holds z R -> canonical n -> set <> ∅ ->
  Update.wantMet z (nameKey n, t) set = true <->
  forall v, v ∈ map rdataBytes (rrset (owned R n) t) <-> v ∈ set.
Proof.
  intros Hh Hn Hne. unfold Update.wantMet. cbn [fst snd]. rewrite (h_byName z R Hh) by done.
  enough (forall l, l = owned R n -> (let got := Update.gotSet l t in
     if negb (Z.of_nat (size got) =? Z.of_nat (size set)) then false else bool_decide (set ⊆ got)) = true <->
     forall v, v ∈ map rdataBytes (rrset l t) <-> v ∈ set) as H.
  { specialize (H (owned R n) eq_refl). destruct (owned R n) as [|r l]; [|apply H].
    split; [done|]. intros Hv. destruct Hne. apply set_eq. intros v. rewrite <- Hv. cbn. set_solver. }
  intros l _. unfold Update.gotSet. fold (rrset l t). cbv zeta.
  set (got := list_to_set (map rdataBytes (rrset l t)) : gset bytes).
  assert (forall v, v ∈ map rdataBytes (rrset l t) <-> v ∈ got) as Hg by (intros; unfold got; by rewrite elem_of_list_to_set).
  setoid_rewrite Hg. rewrite <- set_eq.
  destruct (Z.eqb_spec (Z.of_nat (size got)) (Z.of_nat (size set))) as [E|E]; cbn.
  - rewrite bool_decide_eq_true. split; [|by intros ->]. intros Hsub. symmetry.
    apply set_subseteq_size_eq; [done|lia].
  - split; [done|]. by intros ->.
Qed.

Lemma wantKey_inj p q : canonical (r_name p) -> canonical (r_name q) ->
  wantKey p = wantKey q <-> r_name p = r_name q /\ RType p = RType q.
Proof. intros Hp Hq. unfold wantKey. split; [intros [= H ->]; split; [by apply nameKey_inj|done]|by intros [-> ->]]. Qed.

(** An entry of [want] is met exactly when the value-dependent part of the
    prerequisites behind it is. *)
Lemma want_entry (z : zoneIndex.t) (R ps : list Record_) (want : Update.Want) (p : Record_) (set : gset bytes) :
  holds z R -> (forall q, q ∈ ps -> canonical (r_name q)) ->
  (forall k v, v ∈ default ∅ (want !! k) <-> v ∈ default ∅ ((∅ : Update.Want) !! k) \/
     exists q, q ∈ ps /\ r_class q = rrtype.ClassIN /\ wantKey q = k /\ rdataBytes q = v) ->
  p ∈ ps -> r_class p = rrtype.ClassIN -> want !! wantKey p = Some set ->
  Update.wantMet z (wantKey p) set = true <->
  forall v, v ∈ map rdataBytes (rrset (owned R (r_name p)) (RType p)) <->
            exists q, q ∈ ps /\ same_rrset p q /\ rdataBytes q = v.
Proof.
  intros Hh Hps Hv Hp Hc Hset.
  assert (forall v, v ∈ set <-> exists q, q ∈ ps /\ same_rrset p q /\ rdataBytes q = v) as Hs.
  { intros v. specialize (Hv (wantKey p) v). rewrite Hset, lookup_empty in Hv. cbn in Hv. rewrite Hv. split.
    - intros [?|(q & Hq & Hqc & E & Eb)]; [set_solver|]. exists q. split_and!; [done| |done].
      apply wantKey_inj in E as [? ?]; [|auto..]. done.
    - intros (q & Hq & (Hqc & E1 & E2) & Eb). right. exists q. split_and!; [done..| |done].
      by apply wantKey_inj; [auto..|]. }
  setoid_rewrite <- Hs. apply (wantMet_spec z R); [done|auto|].
  assert (rdataBytes p ∈ set) by (apply Hs; by exists p). set_solver.
Qed.

(** The prerequisites are met exactly when every one of them is. *)
Lemma evaluatePrereqs_spec {range : MapRange} z R ps :
  holds z R -> Forall (fun p => canonical (r_name p)) ps ->
  (Update.evaluatePrereqs z ps = RCODENoError <-> Forall (prereq_ok R ps) ps) /\
  (Update.evaluatePrereqs z ps = RCODENoError \/ Update.evaluatePrereqs z ps ∈ prereq_rcodes).
Proof.
  intros Hh Hps. unfold Update.evaluatePrereqs.
  destruct (prereqLoop_spec z R ps ∅ Hh Hps) as [(Hf & want & -> & Hv & Hk)|(Hf & rc & -> & Hrc)]; cycle 1.
  { split; [|by right]. split.
    - intros ->. unfold prereq_rcodes in Hrc. set_unfold in Hrc. by repeat destruct Hrc as [Hrc|Hrc].
    - intros H. destruct Hf. eapply Forall_impl; [exact H|by intros ? [? _]]. }
  rewrite Forall_forall in Hps.
  assert (forallb (fun kv => Update.wantMet z kv.1 kv.2) (mapRange want) = true <-> Forall (prereq_ok R ps) ps) as H.
  { rewrite forallb_forall, Forall_forall. split.
    - intros Hm p Hp. rewrite Forall_forall in Hf. split; [auto|]. intros Hc.
      destruct (proj2 (Hk (wantKey p))) as [set Hset]; [right; by exists p|].
      apply (want_entry z R ps want p set); [done..|].
      apply (Hm (wantKey p, set)). by apply list_elem_of_In, elem_of_mapRange.
    - intros Hok [k set] Hi. apply list_elem_of_In, elem_of_mapRange in Hi. cbn.
      destruct (proj1 (Hk k)) as [[? Hx]|(p & Hp & Hc & <-)]; [by eauto|by rewrite lookup_empty in Hx|].
      apply (want_entry z R ps want p set); [done..|]. by apply (Hok p Hp). }
  destruct (forallb _ _); (split; [|set_solver]); [by rewrite <- H|]. split; [done|]. intros Hx. by apply H in Hx.
Qed.
