(* ===== verification/Transitions.v ===== *)
(** * The server as a transition system

    Requests interleave: an UPDATE passes its checks under the read lock,
    other requests run, and it commits under the write lock.  The invariant of
    the server holds in every reachable state, and a commit does what the
    whole request, run at once at that moment, would have done. *)

From S2P Require Import Prelude Name Wire RData RDataCodec TypeBitmap RDataRoundtrip RDataNew Reader RDataReads.
From S2P Require Import Message MessageRoundtrip MessageReads Compare.
From S2P Require Import Authoritative Update ZoneTree ZoneLookup ZoneUpdate.

(** ** Requests *)

Lemma inBailiwick_spec o n : canonical n -> Update.inBailiwick o n = true <-> anc n o.
Proof.
  intros Hn. unfold Update.inBailiwick. match goal with |- context [walkUp ?g n] => set (f := g) end.
  induction Hn as [n Hn IH] using name_ind. rewrite walkUp_step by done.
  unfold f at 1. rewrite canonical_valid by done. cbn [negb].
  destruct (Equal n o) eqn:E; [apply Equal_iff in E as ->; done|]. apply Equal_false in E.
  destruct (Parent n) as [p|] eqn:Ep.
  - rewrite (proj2 (Equal_false n p)); [rewrite IH by done|].
    + split; [intros; by eapply rtc_l|]. intros H. inversion H as [|? m ? Hm]; subst; [done|].
      unfold up in Hm. rewrite Ep in Hm. by injection Hm as <-.
    + intros ->. pose proof (up_shorter _ _ Hn Ep). lia.
  - cbn. split; [done|]. intros H. inversion H as [|? m ? Hm]; subst; [done|]. unfold up in Hm. congruence.
Qed.

(** A record of a parsed message that lies in the zone may be stored there. *)
Lemma record_ok_rec o r : record_okP canonical r -> anc (r_name r) o -> rec_ok o r.
Proof.
  intros (Hn & _ & _ & rd & E & Hrd & _) Ha. unfold rec_ok, asCNAME, asDNAME, asNS. rewrite E.
  split_and!; [done..|by eauto| | |]; intros t Ht; destruct rd; simplify_eq; apply Hrd.
Qed.

(** Messages from the network are in normal form. *)
Lemma Unpack_normal b m : is_bytes b -> Unpack b = Ok m -> message_okP canonical m.
Proof.
  intros Hb. unfold Unpack. destruct (_ <? _); [done|].
  assert (valid (Unpacker.mk b 0)) as Hu by (split; [done|cbn; pose proof (zlen_nonneg b); lia]).
  pose proof (reads_unpackMessage _ Hu) as H. destruct (unpackMessage (Unpacker.mk b 0)) as [[m'|e] u']; [|done].
  intros [= ->]. by destruct H as (_ & _ & ?).
Qed.

(** The SOA records that an UPDATE adds at the apex are ones that [NewSOA]
    accepts. *)
Definition soa_safe (q : Message) (zoneName : Name) : Prop :=
  Forall (soa_update_ok zoneName) (authorities q).

(** ** The invariant *)

Definition sem_ok (a : Server) : Prop :=
  match notifySem a with Some cap => 0 <= inflight a <= cap | None => inflight a = 0 end.

(** Every zone is stored under its origin and consistent; under the condition
    [V] its SOA is one that [NewSOA] accepts. *)
Record server_ok (V : Prop) (a : Server) : Prop := {
  sv_zones k z : zones a !! k = Some z -> k = nameKey (zoneIndex.origin z) /\ zone_ok V z;
  sv_sem : sem_ok a }.

(** An UPDATE that has passed the checks of [updateCheck] that do not look at
    the zones. *)
Definition admitted (a : Server) (w : ResponseWriter) (q : Message) (zoneName : Name) : Prop :=
  (exists zoneQ, questions q = [zoneQ] /\ q_typ zoneQ = rrtype.SOA /\ zoneName = q_name zoneQ) /\
  (0 <? maxUpdateRecords a) && (maxUpdateRecords a <? zlen (answers q) + zlen (authorities q)) = false /\
  denied (updatePolicy a) w q = false /\
  forallb (fun p => Update.inBailiwick zoneName (r_name p)) (answers q) = true /\
  forallb (fun u => Update.inBailiwick zoneName (r_name u)) (authorities q) = true.

Section Server.
Context {range : MapRange} (V : Prop).

Lemma updateCheck_admitted a w q zoneName :
  updateCheck a w q = inr zoneName <->
  admitted a w q zoneName /\ exists z, checkUpdate a zoneName q = inr z.
Proof.
  unfold updateCheck, admitted. split.
  - destruct (questions q) as [|zoneQ [|]]; try done. destruct (q_typ zoneQ =? rrtype.SOA) eqn:E1; [|done]. bool_facts.
    cbn [negb]. destruct (_ && _) eqn:E2; [done|]. destruct (denied _ _ _) eqn:E3; [done|].
    destruct (forallb _ (answers q)) eqn:E4; [|done]. destruct (forallb _ (authorities q)) eqn:E5; [|done]. cbn [negb].
    destruct (checkUpdate a (q_name zoneQ) q) as [|z] eqn:E6; [done|]. intros [= <-].
    split; [|by exists z]. split_and!; [by exists zoneQ|done..].
  - intros (((zoneQ & -> & E1 & ->) & E2 & E3 & E4 & E5) & z & E6).
    rewrite E1, Z.eqb_refl, E2, E3, E4, E5, E6. done.
Qed.

(** An admitted UPDATE, served at once. *)
Lemma serveUpdate_admitted a w q zoneName : admitted a w q zoneName ->
  serveUpdate a w q =
    let '(a', rcode, events) := updateCommit a zoneName q in
    (a', reply w (updateReply q rcode), events).
Proof.
  intros ((zoneQ & Eq & E1 & ->) & E2 & E3 & E4 & E5).
  unfold serveUpdate, updateCheck, updateCommit. rewrite Eq, E1, Z.eqb_refl, E2, E3, E4, E5. cbn [negb].
  destruct (checkUpdate a (q_name zoneQ) q) as [rc|z] eqn:E6; [done|]. cbn. by rewrite E6.
Qed.

(** ** The outcome of a commit *)

(** What an accepted UPDATE does to the zone [z] that holds [R]. *)
Definition update_result (z z' : zoneIndex.t) (R : list Record_) (us : list Record_)
    (oldSerial newSerial : Z) (changed : bool) : Prop :=
  let o := zoneIndex.origin z in
  let R1 := fold_left (effect o) us R in
  if changed then
    let R' := bumped o (zoneIndex.soaRec z') R1 in
    indexes z' R' /\ apex_at V z' R' /\ zoneIndex.origin z' = o /\
    (V -> newSerial = Update.serialOf z' /\ newSerial = to_u32 (oldSerial + 1))
  else z' = z /\ R1 = R.

Lemma checkUpdate_inr a zoneName q z R :
  zones a !! nameKey zoneName = Some z -> holds z R -> Forall (fun p => canonical (r_name p)) (answers q) ->
  (exists z', checkUpdate a zoneName q = inr z') ->
  checkUpdate a zoneName q = inr z /\ Forall (prereq_ok R (answers q)) (answers q) /\
  forallb (Update.validUpdate z) (authorities q) = true.
Proof.
  intros Hz Hh Hps [z' H]. unfold checkUpdate in *. rewrite Hz in *.
  destruct (Update.evaluatePrereqs z (answers q) =? RCODENoError) eqn:E1; [|done]. bool_facts.
  unfold Update.validateUpdates in *. destruct (forallb _ _) eqn:E2; [|done].
  split_and!; [done| |done]. by apply (evaluatePrereqs_spec z R).
Qed.

Lemma checkUpdate_inl a zoneName q rc : checkUpdate a zoneName q = inl rc -> rc <> RCODENoError.
Proof.
  unfold checkUpdate. destruct (zones a !! _); [|by intros [= <-]].
  destruct (Z.eqb_spec (Update.evaluatePrereqs t (answers q)) RCODENoError); cbn; [|by intros [= <-]].
  destruct (Z.eqb_spec (Update.validateUpdates t (authorities q)) RCODENoError); cbn; [done|by intros [= <-]].
Qed.

Lemma question_canonical qu : question_ok qu -> canonical (q_name qu).
Proof.
  intros (_ & _ & ls & Hok & _ & Hl & ->). exists (foldLabels ls). split; [|apply Forall_folded_fold].
  split; [done|]. split; [by apply labels_ok_fold|]. cbn. rewrite zlen_encName in *. by rewrite zlen_encLabels_fold.
Qed.

Lemma bailiwick_rec_ok o rs : Forall (record_okP canonical) rs ->
  forallb (fun r => Update.inBailiwick o (r_name r)) rs = true -> Forall (rec_ok o) rs.
Proof.
  intros Hok Hb. rewrite forallb_forall in Hb. rewrite Forall_forall in Hok |- *. intros r Hr.
  apply record_ok_rec; [auto|]. apply inBailiwick_spec; [by apply Hok|]. apply Hb. by apply list_elem_of_In.
Qed.

(** A commit either refuses and changes nothing, or the zone had met every
    prerequisite and now holds the effect of every update. *)
Definition commit_result (a : Server) (zoneName : Name) (q : Message)
    (out : Server * Z * list Event) : Prop :=
  let '(a', rcode, events) := out in
  (rcode <> RCODENoError /\ a' = a /\ events = []) \/
  (rcode = RCODENoError /\
   exists z z' R changed oldSerial newSerial,
     zones a !! nameKey zoneName = Some z /\ zoneIndex.origin z = zoneName /\ indexes z R /\ apex_at V z R /\
     Forall (prereq_ok R (answers q)) (answers q) /\
     update_result z z' R (authorities q) oldSerial newSerial changed /\
     a' = setZones a (<[nameKey zoneName := z']> (zones a)) /\
     events = if changed && onUpdate a then [OnUpdateCalled zoneName oldSerial newSerial] else []).

Lemma updateCommit_spec a w q zoneName :
  server_ok V a -> message_okP canonical q -> admitted a w q zoneName -> (V -> soa_safe q zoneName) ->
  commit_result a zoneName q (updateCommit a zoneName q).
Proof.
  intros Ha Hq Hadm Hsafe. pose proof Hadm as ((zoneQ & Eq & _ & ->) & _ & _ & Hb1 & Hb2).
  destruct Hq as (_ & _ & Hqs & Hans & Hauth & _). rewrite Eq in Hqs. apply Forall_cons in Hqs as [Hzq _].
  apply question_canonical in Hzq. set (n := q_name zoneQ) in *.
  unfold updateCommit. destruct (checkUpdate a n q) as [rc|z0] eqn:Ec.
  { left. by apply checkUpdate_inl in Ec. }
  destruct (zones a !! nameKey n) as [z|] eqn:Ez; [|by unfold checkUpdate in Ec; rewrite Ez in Ec].
  destruct (sv_zones V a Ha _ _ Ez) as [Ek (R & Hi & Hap)].
  assert (zoneIndex.origin z = n) as Eo by (symmetry; apply nameKey_inj; [done|apply (ix_origin z R Hi)|done]).
  pose proof Hi as Hi'. apply indexes_holds in Hi' as [Hh _].
  destruct (checkUpdate_inr a n q z R Ez Hh) as (Ec' & Hpre & Hval); [|by eauto|].
  { eapply Forall_impl; [exact Hans|]. by intros r (? & _). }
  rewrite Ec in Ec'. injection Ec' as ->.
  pose proof (updatedZone_spec V z R (authorities q) Hi Hap) as Hu. rewrite Eo in Hu.
  specialize (Hu (bailiwick_rec_ok n _ Hauth Hb2) Hval Hsafe).
  destruct (Update.updatedZone z (authorities q)) as [[[z' changed] old] new]. right. split; [done|].
  exists z, z', R, changed, old, new. unfold update_result. rewrite Eo. split_and!; try done.
  destruct changed; [exact Hu|]. by destruct Hu as (-> & -> & _).
Qed.

(** ** Invariance *)

Lemma server_ok_set a n z' : server_ok V a -> nameKey (zoneIndex.origin z') = n -> zone_ok V z' ->
  server_ok V (setZones a (<[n := z']> (zones a))).
Proof.
  intros [Hz Hs] En Hok. constructor; [|done]. intros k z. cbn. rewrite lookup_insert_Some.
  intros [[<- <-]|[_ H]]; [done|eauto].
Qed.
Lemma AddZone_ok a f a' : server_ok V a -> zone_wf f -> AddZone a f = inr a' -> server_ok V a'.
Proof.
  intros Ha Hf. unfold AddZone. destruct (Zone_SOA f) as [s|] eqn:Es; [|done].
  destruct (apexClash f) eqn:Ec; [done|]. intros [= <-]. destruct (buildIndex_ok f s Hf Es Ec) as [Hi Hap]. apply (apex_ok_at V) in Hap.
  apply server_ok_set; [done| |by exists (z_records f)].
  unfold buildIndex. by rewrite (proj1 (fold_addRecord_fixed _ _)).
Qed.
Lemma commit_ok a zoneName q a' rc ev : server_ok V a ->
  commit_result a zoneName q (a', rc, ev) -> server_ok V a'.
Proof.
  intros Ha [(_ & -> & _)|(_ & z & z' & R & changed & old & new & Hz & Eo & Hi & Hap & _ & Hu & -> & _)]; [done|].
  unfold update_result in Hu. destruct changed.
  - destruct Hu as (Hi' & Hap' & Eo' & _). apply server_ok_set; [done|by rewrite Eo', Eo|]. eexists. by split.
  - destruct Hu as [-> _]. apply server_ok_set; [done|by rewrite Eo|]. by exists R.
Qed.
Lemma serveNotify_ok a w q : server_ok V a -> server_ok V (fst (fst (serveNotify a w q))).
Proof.
  intros [Hz Hs]. unfold serveNotify. repeat case_match; cbn; try done. constructor; [done|].
  unfold sem_ok in *. cbn. simplify_option_eq. bool_facts. lia.
Qed.

(** ** The transition system *)

(** The server and the UPDATEs between their two critical sections. *)
Record state := mkState { srv : Server; pending : list (ResponseWriter * Message * Name) }.

Inductive step : state -> state -> Prop :=
  | step_load a ps f a' : zone_wf f -> AddZone a f = inr a' -> step (mkState a ps) (mkState a' ps)
  | step_reload a ps f a' : zone_wf f -> ReloadZone a f = inr a' -> step (mkState a ps) (mkState a' ps)
  | step_begin a ps w b q zoneName : is_bytes b -> Unpack b = Ok q -> (V -> soa_safe q zoneName) ->
      updateCheck a w q = inr zoneName -> step (mkState a ps) (mkState a (ps ++ [(w, q, zoneName)]))
  | step_refuse a ps w q rcode : updateCheck a w q = inl rcode -> step (mkState a ps) (mkState a ps)
  | step_commit a ps1 ps2 w q zoneName a' rcode events :
      updateCommit a zoneName q = (a', rcode, events) ->
      step (mkState a (ps1 ++ (w, q, zoneName) :: ps2)) (mkState a' (ps1 ++ ps2))
  | step_serve a ps w q a' w' events : Opcode (flags q) <> OpcodeUpdate ->
      ServeDNS a w q = Ok (a', w', events) -> step (mkState a ps) (mkState a' ps)
  | step_notified a ps : 0 < inflight a -> step (mkState a ps) (mkState (notifyDone a) ps).

(** The configuration of a server, which no request changes. *)
Definition conf (a : Server) : option Policy * Z := (updatePolicy a, maxUpdateRecords a).

Definition state_ok (s : state) : Prop :=
  server_ok V (srv s) /\
  Forall (fun '(w, q, zoneName) => message_okP canonical q /\ (V -> soa_safe q zoneName) /\
                                   admitted (srv s) w q zoneName) (pending s).

Lemma admitted_conf a a' w q n : conf a' = conf a -> admitted a w q n -> admitted a' w q n.
Proof. unfold conf, admitted. by intros [= -> ->]. Qed.
Lemma pending_conf a a' (ps : list (ResponseWriter * Message * Name)) : conf a' = conf a ->
  Forall (fun '(w, q, zoneName) => message_okP canonical q /\ (V -> soa_safe q zoneName) /\ admitted a w q zoneName) ps ->
  Forall (fun '(w, q, zoneName) => message_okP canonical q /\ (V -> soa_safe q zoneName) /\ admitted a' w q zoneName) ps.
Proof.
  intros E H. eapply Forall_impl; [exact H|]. intros [[w q] n] (? & ? & ?).
  split_and!; [done..|by eapply admitted_conf].
Qed.

Lemma updateCommit_conf a n q : conf (fst (fst (updateCommit a n q))) = conf a.
Proof. unfold updateCommit. destruct (checkUpdate a n q); [done|]. by destruct (Update.updatedZone _ _) as [[[? ?] ?] ?]. Qed.
Lemma AddZone_conf a f a' : AddZone a f = inr a' -> conf a' = conf a.
Proof. unfold AddZone. repeat case_match; try done. by intros [= <-]. Qed.

(** A request other than an UPDATE leaves the zones and the configuration. *)
Lemma ServeDNS_other a w q a' w' events : Opcode (flags q) <> OpcodeUpdate ->
  ServeDNS a w q = Ok (a', w', events) -> a' = a \/ a' = fst (fst (serveNotify a w q)).
Proof.
  intros Ho. unfold ServeDNS. rewrite (proj2 (Z.eqb_neq _ _) Ho). destruct (_ =? OpcodeNotify).
  - intros [= E]. rewrite E. by right.
  - intros H. left. repeat case_match; inv_ok; done.
Qed.
Lemma serveNotify_conf a w q : conf (fst (fst (serveNotify a w q))) = conf a.
Proof. unfold serveNotify. by repeat case_match. Qed.

Lemma step_ok s s' : state_ok s -> step s s' -> state_ok s'.
Proof.
  intros [Ha Hp] Hs. destruct Hs as [a ps f a' Hf E|a ps f a' Hf E|a ps w b q n Hb Hq Hsafe E| |a ps1 ps2 w q n a' rc ev E|a ps w q a' w' ev Ho E|a ps Hi];
    unfold state_ok in *; cbn [srv pending] in *.
  - split; [by eapply AddZone_ok|eapply pending_conf; [by eapply AddZone_conf|done]].
  - split; [by eapply AddZone_ok|eapply pending_conf; [by eapply AddZone_conf|done]].
  - split; [done|]. apply updateCheck_admitted in E as [E _]. apply Unpack_normal in Hq; [|done].
    apply Forall_app. by split; [|constructor].
  - done.
  - apply Forall_app in Hp as [Hp1 Hp2]. apply Forall_cons in Hp2 as [(Hq & Hsafe & Hadm) Hp2].
    pose proof (updateCommit_spec a w q n Ha Hq Hadm Hsafe) as Hc.
    pose proof (updateCommit_conf a n q) as Hconf. rewrite E in Hc, Hconf.
    split; [by eapply commit_ok|]. eapply pending_conf; [exact Hconf|]. by apply Forall_app.
  - apply ServeDNS_other in E as [-> | ->]; [done| |done].
    split; [by apply serveNotify_ok|eapply pending_conf; [apply serveNotify_conf|done]].
  - split; [|by unfold notifyDone; destruct (notifySem a)]. destruct Ha as [Hz Hs].
    unfold notifyDone. destruct (notifySem a) eqn:En; [|done]. constructor; [done|].
    unfold sem_ok in *. cbn. rewrite En in *. lia.
Qed.
End Server.

(** ** Servers from New *)

Definition opt_wf (o : Opt) : Prop := match o with WithZone z => zone_wf z | _ => True end.

Lemma applyOption_spec opts c :
  Forall zone_wf (c_zones c) -> zones (c_rest c) = ∅ -> inflight (c_rest c) = 0 -> Forall opt_wf opts ->
  let c' := fold_left applyOption opts c in
  Forall zone_wf (c_zones c') /\ zones (c_rest c') = ∅ /\ inflight (c_rest c') = 0.
Proof.
  revert c. induction opts as [|o opts IH]; intros c Hz He Hi Ho; cbn; [done|].
  apply Forall_cons in Ho as [Ho Hos]. destruct c as [zs n []]; cbn in *. subst.
  apply IH; destruct o; cbn; try done. apply Forall_app. by split; [|constructor].
Qed.
Lemma addZones_ok V zs a a' : server_ok V a -> Forall zone_wf zs -> addZones a zs = inr a' -> server_ok V a'.
Proof.
  revert a. induction zs as [|z zs IH]; intros a Ha Hz; cbn; [by intros [= <-]|].
  apply Forall_cons in Hz as [Hz Hzs]. destruct (AddZone a z) as [|a1] eqn:E; [done|].
  apply IH; [|done]. by eapply AddZone_ok.
Qed.
Lemma New_ok V opts a : Forall opt_wf opts -> New opts = inr a -> server_ok V a.
Proof.
  intros Ho. unfold New. destruct (applyOption_spec opts defaultConfig) as (Hz & He & Hi); [constructor|done..|].
  destruct (fold_left applyOption opts defaultConfig) as [zs n []]. cbn in Hz, He, Hi. subst.
  apply addZones_ok; [|done]. constructor; cbn; [intros k z; by rewrite lookup_empty|].
  unfold sem_ok. cbn. destruct (0 <? n) eqn:E; bool_facts; [lia|done].
Qed.

(** ** Claims *)
Section Claims.
Context {range : MapRange}.


(** C7. Linearizability of UPDATE.  Whatever happened between the two critical
    sections of an UPDATE -- other updates, reloads, queries -- its commit has
    exactly the effect, the response code and the callback that the whole
    request would have had if it had been served in one piece at the moment of
    the commit: the early check under the read lock is never relied on. *)
Theorem update_linearizable (V : Prop) opts a s w q zoneName :
  Forall opt_wf opts -> New opts = inr a -> rtc (step V) (mkState a []) s ->
  (w, q, zoneName) ∈ pending s ->
  serveUpdate (srv s) w q =
    let '(a', rcode, events) := updateCommit (srv s) zoneName q in
    (a', reply w (updateReply q rcode), events).
Proof.
  intros Ho Hn Hs Hp. assert (state_ok V s) as [_ H].
  { assert (state_ok V (mkState a [])) as H by (split; [by eapply New_ok|constructor]).
    clear Ho Hn Hp. induction Hs; eauto using step_ok. }
  rewrite Forall_forall in H. specialize (H _ Hp) as (_ & _ & H). by apply serveUpdate_admitted.
Qed.

(** The outcome of an UPDATE, all or nothing.  If the reply is an error the
    server is unchanged and no callback runs.  Otherwise the zone had met every
    prerequisite, it now holds exactly the effect of the update records in
    order (RFC 2136 section 3.4.2; the apex SOA and NS sets cannot be deleted),
    its serial is one more modulo 2^32 if an update had an effect and the zone
    is the same otherwise, no other zone changed, and OnUpdate is called
    exactly when the zone changed. *)
Theorem update_outcome (V : Prop) a w b q zoneName :
  server_ok V a -> is_bytes b -> Unpack b = Ok q -> admitted a w q zoneName -> (V -> soa_safe q zoneName) ->
  exists a' rcode events,
    serveUpdate a w q = (a', reply w (updateReply q rcode), events) /\
    commit_result V a zoneName q (a', rcode, events) /\
    (forall k, k <> nameKey zoneName -> zones a' !! k = zones a !! k).
Proof.
  intros Ha Hb Hq Hadm Hsafe. apply Unpack_normal in Hq; [|done].
  pose proof (updateCommit_spec V a w q zoneName Ha Hq Hadm Hsafe) as Hc.
  rewrite (serveUpdate_admitted a w q zoneName Hadm).
  destruct (updateCommit a zoneName q) as [[a' rc] ev]. exists a', rc, ev. split_and!; [done..|].
  intros k Hk. destruct Hc as [(_ & -> & _)|(_ & z & z' & R & ch & o & n & _ & _ & _ & _ & _ & _ & -> & _)]; [done|].
  cbn. by rewrite lookup_insert_ne.
Qed.

(** Prerequisites (RFC 2136 section 3.2) are met exactly when each of them
    holds of the zone's records: name in use, RRset exists, name or RRset not
    in use, and for records of class IN that the RRset exists with exactly the
    values listed for it, whatever the order in which the map of expected sets
    is walked.  Any failure is reported with one of five response codes. *)
Theorem prerequisites_exact z R ps :
  indexes z R -> Forall (fun p => canonical (r_name p)) ps ->
  (Update.evaluatePrereqs z ps = RCODENoError <-> Forall (prereq_ok R ps) ps) /\
  (Update.evaluatePrereqs z ps <> RCODENoError -> Update.evaluatePrereqs z ps ∈ prereq_rcodes).
Proof.
  intros Hz Hps. apply indexes_holds in Hz as [Hh _].
  destruct (evaluatePrereqs_spec z R ps Hh Hps) as [H1 H2]. split; [done|]. by destruct H2.
Qed.
End Claims.

(** ** A run *)

(** Iterating in the order of the map's own list is one of the orders. *)
#[export] Instance mapRangeList : MapRange :=
  {| mapRange K _ _ A m := map_to_list m; mapRange_perm K _ _ A m := Permutation_refl _ |}.

Module SampleRun.
Import Sample.
Definition allow : Policy := fun _ _ => true.
Definition options : list Opt := [WithZone zone; WithUpdatePolicy (Some allow); WithOnUpdate true].
Definition server : Server :=
  match New options with inr a => a | inl _ => c_rest defaultConfig end.
Definition peer : AddrPort := mkAddrPort (Addr4 [192; 0; 2; 99]) 53.
Definition writer : ResponseWriter := mkWriter peer peer tcp [] (fun _ _ => false).

(** An UPDATE of the zone with the given prerequisites and updates, and its
    wire form. *)
Definition request (prereqs updates : list Record_) : Message :=
  mkMessage 9 (WithOpcode OpcodeUpdate 0) [mkQuestion origin rrtype.SOA rrtype.ClassIN (wire origin)]
    prereqs updates [] zeroEDNS false.
Definition wireOf (q : Message) : bytes := match Pack q with Ok b => b | Err _ => [] end.

(** "www.ex. is in use"; add new.ex. A 192.0.2.9. *)
Definition newName : Name := nm [[110; 101; 119]; ex].
Definition prereq : Record_ := mkRecord wwwName rrtype.ClassANY 0 (Some (RD_Unknown rrtype.ANY [])).
Definition added : Record_ := NewRecord newName hour (address 9).
Definition q : Message := request [prereq] [added].
Definition b : bytes := Eval vm_compute in wireOf q.

Lemma started : New options = inr server.
Proof. vm_compute. reflexivity. Qed.
Lemma options_wf : Forall opt_wf options.
Proof. apply Forall_cons_2; [apply wf|by repeat constructor]. Qed.
Lemma b_bytes : is_bytes b.
Proof. unfold b. repeat constructor; by compute. Qed.
Lemma parsed : Unpack b = Ok q.
Proof. vm_compute. reflexivity. Qed.
Lemma safe : soa_safe q origin.
Proof. repeat constructor. intros _ _ H. by vm_compute in H. Qed.
Lemma checked : updateCheck server writer q = inr origin.
Proof. vm_compute. reflexivity. Qed.
Lemma begins : step True (mkState server []) (mkState server [(writer, q, origin)]).
Proof. apply (step_begin True server [] writer b q origin); [apply b_bytes|apply parsed|intros _; apply safe|apply checked]. Qed.
Definition after : Server := fst (fst (updateCommit server origin q)).
Lemma commits : step True (mkState server [(writer, q, origin)]) (mkState after []).
Proof. apply (step_commit True server [] [] writer q origin after (snd (fst (updateCommit server origin q))) (snd (updateCommit server origin q))).
  unfold after. by destruct (updateCommit server origin q) as [[? ?] ?]. Qed.
End SampleRun.


Lemma update_linearizable_witness :
  serveUpdate SampleRun.server SampleRun.writer SampleRun.q =
    let '(a', rcode, events) := updateCommit SampleRun.server Sample.origin SampleRun.q in
    (a', reply SampleRun.writer (updateReply SampleRun.q rcode), events).
Proof.
  apply (update_linearizable True SampleRun.options SampleRun.server
           (mkState SampleRun.server [(SampleRun.writer, SampleRun.q, Sample.origin)])).
  - exact SampleRun.options_wf.
  - exact SampleRun.started.
  - apply rtc_once. exact SampleRun.begins.
  - left.
Defined.

(** The reply to the sample UPDATE is NOERROR, the serial goes from 7 to 8. *)
Lemma update_outcome_witness :
  (exists a' rcode events,
    serveUpdate SampleRun.server SampleRun.writer SampleRun.q =
      (a', reply SampleRun.writer (updateReply SampleRun.q rcode), events) /\
    commit_result True SampleRun.server Sample.origin SampleRun.q (a', rcode, events) /\
    (forall k, k <> nameKey Sample.origin -> zones a' !! k = zones SampleRun.server !! k)) /\
  snd (serveUpdate SampleRun.server SampleRun.writer SampleRun.q) = [OnUpdateCalled Sample.origin 7 8].
Proof.
  split; [|vm_compute; reflexivity].
  apply (update_outcome True SampleRun.server SampleRun.writer SampleRun.b SampleRun.q Sample.origin).
  - eapply New_ok; [exact SampleRun.options_wf|exact SampleRun.started].
  - exact SampleRun.b_bytes.
  - exact SampleRun.parsed.
  - apply (updateCheck_admitted SampleRun.server). exact SampleRun.checked.
  - intros _. exact SampleRun.safe.
Defined.

(** www.ex. is in use. *)
Lemma prerequisites_exact_witness :
  Forall (prereq_ok Sample.records [SampleRun.prereq]) [SampleRun.prereq].
Proof.
  apply (prerequisites_exact Sample.index Sample.records [SampleRun.prereq]).
  - apply Sample.indexed.
  - constructor; [by apply Sample.canonicalI|constructor].
  - vm_compute. reflexivity.
Defined.

(** An UPDATE can take the SOA away from a zone.  The update section is not
    checked for records of class IN without rdata: adding an SOA with an empty
    payload at the apex is accepted with NOERROR, replaces the apex SOA by a
    record that is no SOA, and from then on updates that change the zone no
    longer move its serial (OnUpdate reports 0 and 0).  Transfers and negative
    answers carry the empty record. *)
Theorem update_replaces_soa :
  let empty := mkRecord Sample.origin rrtype.ClassIN 0 (Some (RD_Unknown rrtype.SOA [])) in
  let q1 := SampleRun.request [] [empty] in
  let b1 := SampleRun.wireOf q1 in
  let '(a1, w1, _) := serveUpdate SampleRun.server SampleRun.writer q1 in
  let '(a2, w2, events) := serveUpdate a1 SampleRun.writer SampleRun.q in
  Unpack b1 = Ok q1 /\
  map (fun m => RCODE (flags m)) (written w1) = [RCODENoError] /\
  option_map (fun z => asSOA (zoneIndex.soaRec z)) (zones a1 !! nameKey Sample.origin) = Some None /\
  map (fun m => RCODE (flags m)) (written w2) = [RCODENoError] /\
  option_map (fun z => zoneIndex.at_ z (nameKey SampleRun.newName)) (zones a2 !! nameKey Sample.origin)
    = Some [SampleRun.added] /\
  events = [OnUpdateCalled Sample.origin 0 0].
Proof. vm_compute. repeat split. Qed.
