(* ===== verification/Transfer.v ===== *)
(** * Zone transfer (StreamAXFR and serveAXFR)

    The stream as a list of chunks, written in order until the writer
    refuses; what the chunks hold, and who gets them. *)

From S2P Require Import Prelude Name Wire RData RDataNew Message Compare.
From S2P Require Import Authoritative Update ZoneTree ZoneLookup ZoneUpdate Transitions.

(** ** The stream as chunks *)

#[local] Arguments addAll : simpl never.
#[local] Arguments owned : simpl never.
#[local] Arguments MessageBuilder.Answer : simpl never.
#[local] Arguments axfrHeader : simpl never.

(** The records of each message: [cur] is the open one, [used] its size. *)
Fixpoint chunks (soa : Record_) (cur : list Record_) (used : Z) (body : list Record_) : list (list Record_) :=
  match body with
  | [] => if AXFRChunkBudget <? used + estimateRecordSize soa then [cur; [soa]] else [cur ++ [soa]]
  | r :: body =>
      if RType r =? rrtype.SOA then chunks soa cur used body
      else if (0 <? used) && (AXFRChunkBudget <? used + estimateRecordSize r + estimateRecordSize soa)
           then cur :: chunks soa [r] (estimateRecordSize r) body
           else chunks soa (cur ++ [r]) (used + estimateRecordSize r) body
  end.
Definition axfrChunks (soa : Record_) (body : list Record_) : list (list Record_) :=
  chunks soa [soa] (estimateRecordSize soa) body.

(** The message of one chunk. *)
Definition axfrMessage (q : Message) (question : Question) (rs : list Record_) : Message :=
  mustBuild (addAll MessageBuilder.Answer rs (axfrHeader q question)) q.

(** Writing messages until one is refused. *)
Fixpoint writeAll (w : ResponseWriter) (ms : list Message) : ResponseWriter * bool :=
  match ms with
  | [] => (w, true)
  | m :: ms => match WriteMsg w m with Ok w => writeAll w ms | Err _ => (w, false) end
  end.

Lemma addAll_snoc rs r b : addAll MessageBuilder.Answer (rs ++ [r]) b = MessageBuilder.Answer r (addAll MessageBuilder.Answer rs b).
Proof. unfold addAll. by rewrite fold_left_app. Qed.

(** The streamer from inside the loop: [cur] is what the builder holds. *)
Lemma axfrLoop_chunks q question soa body w cur used :
  (let '(ok, s) := axfrLoop q question (estimateRecordSize soa)
                     (mkStream w (addAll MessageBuilder.Answer cur (axfrHeader q question)) used) body in
   if negb ok then (s_w s, false)
   else match (if AXFRChunkBudget <? s_used s + estimateRecordSize soa then axfrFlush q question s else Ok s) with
        | Err _ => (s_w s, false)
        | Ok s => match WriteMsg (s_w s) (mustBuild (MessageBuilder.Answer soa (s_b s)) q) with
                  | Ok w => (w, true)
                  | Err _ => (s_w s, false)
                  end
        end) =
  writeAll w (map (axfrMessage q question) (chunks soa cur used body)).
Proof.
  revert w cur used. induction body as [|r body IH]; intros w cur used; cbn [axfrLoop chunks].
  - cbn [negb s_w s_b s_used]. unfold axfrFlush. cbn [s_w s_b].
    destruct (AXFRChunkBudget <? _); cbn [map writeAll]; fold (axfrMessage q question cur).
    + destruct (WriteMsg w (axfrMessage q question cur)) as [w1|]; cbn; [|done].
      change (MessageBuilder.Answer soa (axfrHeader q question)) with (addAll MessageBuilder.Answer [soa] (axfrHeader q question)).
      fold (axfrMessage q question [soa]). by destruct (WriteMsg w1 _).
    + cbn [s_w s_b]. rewrite <- addAll_snoc. fold (axfrMessage q question (cur ++ [soa])). by destruct (WriteMsg w _).
  - unfold axfrStep. destruct (RType r =? rrtype.SOA); [by rewrite <- IH|]. cbn [s_used s_w s_b].
    destruct (_ && _); cbn [res_bind s_w s_b s_used map writeAll].
    + unfold axfrFlush. cbn [s_w s_b]. fold (axfrMessage q question cur).
      destruct (WriteMsg w (axfrMessage q question cur)) as [w1|]; cbn [res_bind s_w s_b s_used]; [|done].
      rewrite <- IH. done.
    + rewrite <- addAll_snoc. apply IH.
Qed.

Lemma StreamAXFR_chunks w q soa body question rest : questions q = question :: rest ->
  StreamAXFR w q soa body = writeAll w (map (axfrMessage q question) (axfrChunks soa body)).
Proof. intros E. unfold StreamAXFR. rewrite E. apply (axfrLoop_chunks q question soa body w [soa]). Qed.

(** ** What the chunks hold *)

Definition notSOA (r : Record_) : bool := negb (RType r =? rrtype.SOA).
Definition sizeOf (rs : list Record_) : Z := foldr (fun r n => estimateRecordSize r + n) 0 rs.

Lemma chunks_concat soa cur used body :
  concat (chunks soa cur used body) = cur ++ List.filter notSOA body ++ [soa].
Proof.
  revert cur used. induction body as [|r body IH]; intros cur used; cbn [chunks List.filter].
  - case_match; cbn; by rewrite ?app_nil_r.
  - unfold notSOA at 1. destruct (RType r =? rrtype.SOA); cbn [negb]; [apply IH|].
    case_match; cbn [concat]; rewrite IH; by rewrite <- ?app_assoc.
Qed.

Lemma estimate_pos r : 0 < estimateRecordSize r.
Proof. unfold estimateRecordSize, WireLen. pose proof (zlen_nonneg (rdataBytes r)). pose proof (zlen_nonneg (wire (r_name r))). case_match; lia. Qed.
Lemma sizeOf_app a b : sizeOf (a ++ b) = sizeOf a + sizeOf b.
Proof. unfold sizeOf. induction a as [|r a IH]; cbn; lia. Qed.

(** Within the budget, or a single record. *)
Definition chunk_ok (rs : list Record_) : Prop :=
  rs <> [] /\ (sizeOf rs <= AXFRChunkBudget \/ length rs = 1%nat).

Lemma chunks_ok soa cur used body : cur <> [] -> used = sizeOf cur ->
  (used + estimateRecordSize soa <= AXFRChunkBudget \/ length cur = 1%nat) ->
  Forall chunk_ok (chunks soa cur used body).
Proof.
  revert cur used. induction body as [|r body IH]; intros cur used Hc Hu Hs; cbn [chunks].
  - assert (chunk_ok [soa]) as Hsoa by (split; [done|by right]).
    assert (chunk_ok cur) as Hcur.
    { split; [done|]. pose proof (estimate_pos soa). destruct Hs as [?|?]; [left; lia|by right]. }
    case_match; bool_facts; [by apply Forall_cons; split; [|apply Forall_singleton]|]. constructor; [|constructor].
    split; [by intros [_ ?]%app_eq_nil|]. left. rewrite sizeOf_app. cbn. lia.
  - destruct (RType r =? rrtype.SOA); [by apply IH|]. pose proof (estimate_pos soa). pose proof (estimate_pos r).
    destruct (_ && _) eqn:E.
    + constructor; [|by apply IH; [done|cbn; lia|right]].
      split; [done|]. destruct Hs as [?|?]; [left; lia|by right].
    + apply IH.
      * by intros [_ ?]%app_eq_nil.
      * rewrite sizeOf_app. cbn. lia.
      * left. apply andb_false_iff in E as [E|E]; bool_facts; [|lia]. exfalso.
        destruct cur as [|c cur]; [done|]. cbn in Hu. pose proof (estimate_pos c).
        assert (0 <= sizeOf cur); [|unfold sizeOf in *; lia]. clear. unfold sizeOf.
        induction cur as [|x cur IH]; cbn; [done|]. pose proof (estimate_pos x). lia.
Qed.

(** ** The messages *)

(** The message that carries the records [rs] of the transfer asked by [q]. *)
Definition transferMessage (q : Message) (question : Question) (rs : list Record_) : Message :=
  mkMessage (id q) (WithAuthoritative true (WithRecursionDesired (RecursionDesired (flags q)) (WithResponse true 0)))
    [question] rs [] [] zeroEDNS false.

Lemma addAll_answers rs m : Forall (fun r => IsZero r = false) rs ->
  addAll MessageBuilder.Answer rs (MessageBuilder.mk m None) =
  MessageBuilder.mk (mkMessage (id m) (flags m) (questions m) (answers m ++ rs) (authorities m) (additionals m) (edns m) (hasEDNS m)) None.
Proof.
  intros H. revert m. induction H as [|r rs Hr _ IH]; intros m.
  - cbn. rewrite app_nil_r. by destruct m.
  - change (addAll MessageBuilder.Answer (r :: rs) (MessageBuilder.mk m None))
      with (addAll MessageBuilder.Answer rs (MessageBuilder.Answer r (MessageBuilder.mk m None))).
    unfold MessageBuilder.Answer at 2. rewrite Hr. unfold MessageBuilder.upd. cbn. rewrite IH. cbn. by rewrite <- app_assoc.
Qed.
Lemma axfrMessage_spec q question rs : Forall (fun r => IsZero r = false) rs ->
  axfrMessage q question rs = transferMessage q question rs.
Proof.
  intros H. unfold axfrMessage.
  change (axfrHeader q question) with (MessageBuilder.mk (transferMessage q question []) None).
  by rewrite addAll_answers by done.
Qed.

(** A writer that accepts everything. *)
Definition accepting (w : ResponseWriter) : Prop := forall l m, refuses w l m = false.
Lemma writeAll_accepting w ms : accepting w ->
  writeAll w ms = (mkWriter (RemoteAddr w) (LocalAddr w) (Network w) (written w ++ ms) (refuses w), true).
Proof.
  revert w. induction ms as [|m ms IH]; intros w Hw; cbn.
  - rewrite app_nil_r. by destruct w.
  - unfold WriteMsg. rewrite Hw. rewrite IH by done. cbn. by rewrite <- app_assoc.
Qed.
(** In general a prefix of the messages is written, and all of them on success. *)
Lemma writeAll_prefix w ms w' ok : writeAll w ms = (w', ok) ->
  exists k, written w' = written w ++ take k ms /\ (ok = true -> take k ms = ms).
Proof.
  revert w. induction ms as [|m ms IH]; intros w; cbn.
  - intros [= <- <-]. exists 0%nat. cbn. by rewrite app_nil_r.
  - unfold WriteMsg. destruct (refuses w (written w) m).
    + intros [= <- <-]. exists 0%nat. cbn. by rewrite app_nil_r.
    + intros H. apply IH in H as (k & E & Hok). exists (S k). cbn in *. rewrite E, <- app_assoc.
      split; [done|]. intros Ht. by rewrite Hok.
Qed.

(** ** The records of a zone *)

Lemma owned_concat (l : list (bytes * list Record_)) n :
  NoDup l.*1 -> canonical n ->
  (forall k recs r, (k, recs) ∈ l -> r ∈ recs -> canonical (r_name r) /\ nameKey (r_name r) = k) ->
  (forall recs, (nameKey n, recs) ∈ l -> owned (concat l.*2) n = recs) /\
  (nameKey n ∉ l.*1 -> owned (concat l.*2) n = []).
Proof.
  intros Hnd Hn. induction l as [|[k recs] l IH]; intros Hl; cbn.
  { split; [intros recs H; by apply not_elem_of_nil in H|done]. }
  cbn in Hnd. apply NoDup_cons in Hnd as [Hk Hnd].
  destruct IH as [IH1 IH2]; [done|intros; eapply Hl; [by right|done]|].
  assert (nameKey n = k -> owned recs n = recs) as Hsame.
  { intros <-. unfold owned. rewrite (filter_ext_in _ (fun _ => true)); [apply List.filter_true|].
    intros r Hr. destruct (Hl (nameKey n) recs r) as [Hc E]; [by left|by apply list_elem_of_In|].
    apply Equal_iff. by apply nameKey_inj. }
  assert (nameKey n <> k -> owned recs n = []) as Hdiff.
  { intros Hne. apply owned_nil. intros r Hr <-. destruct (Hl k recs r) as [_ E]; [by left|done|done]. }
  split.
  - intros recs' Hi. rewrite owned_app. apply elem_of_cons in Hi as [[= <- <-]|Hi].
    + rewrite Hsame, IH2 by done. apply app_nil_r.
    + rewrite Hdiff, (IH1 recs') by (done || (intros <-; apply Hk; apply list_elem_of_fmap; by eexists (_, _))). done.
  - intros Hi. rewrite not_elem_of_cons in Hi. rewrite owned_app, Hdiff, IH2 by naive_solver. done.
Qed.

(** [allRecordsOrdered] lists the records of every owner, in their order. *)
Lemma allRecords_owned {range : MapRange} z R n : holds z R -> canonical n ->
  owned (zoneIndex.allRecordsOrdered z) n = owned R n.
Proof.
  intros Hh Hn. unfold zoneIndex.allRecordsOrdered.
  destruct (owned_concat (mapRange (zoneIndex.byName z)) n) as [H1 H2].
  - rewrite mapRange_perm. apply NoDup_fst_map_to_list.
  - done.
  - intros k recs r Hi Hr. apply elem_of_mapRange in Hi. destruct (h_keys z R Hh k) as (m & Hm & ->); [by eauto|].
    rewrite (h_byName z R Hh) in Hi by done. destruct (owned R m) eqn:E; [done|]. injection Hi as <-.
    rewrite <- E in Hr. apply elem_of_owned in Hr as [_ ->]. done.
  - destruct (owned R n) as [|r l] eqn:E.
    + apply H2. intros ((k & recs) & Ek & Hi)%list_elem_of_fmap. cbn in Ek. subst k. apply elem_of_mapRange in Hi.
      by rewrite (h_byName z R Hh), E in Hi.
    + apply H1. apply elem_of_mapRange. by rewrite (h_byName z R Hh), E.
Qed.

Lemma allRecords_elem {range : MapRange} z R r : holds z R -> r ∈ zoneIndex.allRecordsOrdered z -> r ∈ R.
Proof.
  intros Hh. unfold zoneIndex.allRecordsOrdered. rewrite list_elem_of_In, in_concat. intros (l & Hl & Hr).
  apply in_map_iff in Hl as ([k recs] & <- & Hl). apply list_elem_of_In, elem_of_mapRange in Hl.
  destruct (h_keys z R Hh k) as (n & Hn & ->); [by eauto|]. rewrite (h_byName z R Hh) in Hl by done.
  destruct (owned R n) eqn:E; [done|]. injection Hl as <-. cbn [snd] in Hr. rewrite <- E, <- list_elem_of_In in Hr.
  by apply elem_of_owned in Hr as [? _].
Qed.

(** ** The claim *)

Lemma refuse_answers q question code :
  let m := mustBuild (setRCODE (MessageBuilder.Question_ question (replyTo q)) q code) q in
  answers m = [] /\ authorities m = [] /\ additionals m = [].
Proof. unfold setRCODE. destruct (hasEDNS q); cbn [negb]; [|done]. by destruct (negb (Z.shiftr (to_u8 code) 4 =? 0)). Qed.

Lemma findZone_apex a n z : canonical n -> zones a !! nameKey n = Some z -> findZone a n = Some z.
Proof. intros Hn E. unfold findZone. by rewrite walkUp_step, E. Qed.

Lemma IsZero_rec_ok o r : rec_ok o r -> IsZero r = false.
Proof. intros (_ & _ & [rd E] & _). unfold IsZero. by rewrite E. Qed.

(** At most one message was written, and it has no records. *)
Definition refused (w sent : ResponseWriter) : Prop :=
  written sent = written w \/
  exists m, written sent = written w ++ [m] /\ answers m = [] /\ authorities m = [] /\ additionals m = [].
Lemma reply_refused q question code w :
  refused w (reply w (mustBuild (setRCODE (MessageBuilder.Question_ question (replyTo q)) q code) q)).
Proof.
  unfold refused, reply, WriteMsg. destruct (refuses _ _ _); [by left|right]. eexists. split; [done|].
  by apply refuse_answers.
Qed.

(** Every record of the stream has a payload. *)
Lemma stream_recs {range : MapRange} a k z R r : server_ok False a -> zones a !! k = Some z -> holds z R ->
  r ∈ [zoneIndex.soaRec z] ++ List.filter notSOA (zoneIndex.allRecordsOrdered z) ++ [zoneIndex.soaRec z] ->
  rec_ok (zoneIndex.origin z) r.
Proof.
  intros Ha Hz Hh Hr. destruct (sv_zones False a Ha _ _ Hz) as [_ (R0 & Hi0 & Hap0)].
  assert (rec_ok (zoneIndex.origin z) (zoneIndex.soaRec z)) as Hs.
  { destruct Hap0 as (H1 & _). eapply (in_owned_ok z R0 Hi0 (zoneIndex.origin z)).
    assert (zoneIndex.soaRec z ∈ List.filter Update.isSOA (owned R0 (zoneIndex.origin z))) as Hx by (rewrite H1; by left).
    rewrite list_elem_of_In, filter_In, <- list_elem_of_In in Hx. tauto. }
  rewrite !elem_of_app, list_elem_of_singleton in Hr. destruct Hr as [->|[Hr | ->]]; [done| |done].
  rewrite list_elem_of_In, filter_In, <- list_elem_of_In in Hr. destruct Hr as [Hr _].
  pose proof (h_recs z R Hh) as HR. rewrite Forall_forall in HR. apply HR. by eapply allRecords_elem.
Qed.

(** What is sent, and to whom. *)
Lemma serveAXFR_stream {range : MapRange} a w q question z R :
  server_ok False a -> indexes z R -> canonical (q_name question) -> questions q = [question] ->
  zones a !! nameKey (q_name question) = Some z ->
  let sent := serveAXFR a w q question in
  if bool_decide (Network w = tcp) && negb (denied (axfrPolicy a) w q) then
    exists parts body k,
      concat parts = zoneIndex.soaRec z :: body ++ [zoneIndex.soaRec z] /\
      (forall n, canonical n -> owned body n = List.filter notSOA (owned R n)) /\
      Forall (fun r => r ∈ R) body /\
      Forall chunk_ok parts /\
      written sent = written w ++ take k (map (transferMessage q question) parts) /\
      (accepting w -> take k (map (transferMessage q question) parts) = map (transferMessage q question) parts)
  else refused w sent.
Proof.
  intros Ha Hi Hn Hq Hz. cbv zeta. unfold serveAXFR. rewrite (findZone_apex a _ z) by done.
  destruct (bool_decide (Network w = tcp)); cbn [negb andb]; [|apply reply_refused].
  destruct (sv_zones False a Ha _ _ Hz) as [Ek _].
  assert (Equal (zoneIndex.origin z) (q_name question) = true) as ->.
  { apply Equal_iff, nameKey_inj; [apply (ix_origin z R Hi)|done|done]. }
  cbn [negb]. destruct (denied (axfrPolicy a) w q); cbn [negb]; [apply reply_refused|].
  apply indexes_holds in Hi as [Hh _].
  destruct (StreamAXFR w q _ _) as [w' ok] eqn:Es. rewrite (StreamAXFR_chunks _ _ _ _ question []) in Es by done.
  set (body := zoneIndex.allRecordsOrdered z) in *. set (soa := zoneIndex.soaRec z) in *.
  pose proof (chunks_concat soa [soa] (estimateRecordSize soa) body) as Hc. fold (axfrChunks soa body) in Hc.
  assert (map (axfrMessage q question) (axfrChunks soa body) = map (transferMessage q question) (axfrChunks soa body)) as Em.
  { apply map_ext_in. intros rs Hrs. apply axfrMessage_spec, Forall_forall. intros r Hr.
    assert (r ∈ concat (axfrChunks soa body)) as Hi.
    { rewrite list_elem_of_In, in_concat. exists rs. split; [done|by apply list_elem_of_In]. }
    rewrite Hc in Hi. eapply IsZero_rec_ok, stream_recs; [exact Ha|exact Hz|exact Hh|exact Hi]. }
  rewrite Em in Es. pose proof Es as Es'. apply writeAll_prefix in Es' as (k & Ew & _).
  exists (axfrChunks soa body), (List.filter notSOA body), k. split_and!; [done| | | |done|].
  - intros n Hcn. rewrite <- filter_owned. f_equal. by apply (allRecords_owned z).
  - apply Forall_forall. intros r Hr. rewrite list_elem_of_In, filter_In in Hr. destruct Hr as [Hr _].
    apply (allRecords_elem z R); [done|]. by apply list_elem_of_In.
  - apply chunks_ok; [done|cbn; lia|by right].
  - intros Hacc. rewrite writeAll_accepting in Es by done. injection Es as <- _. cbn in Ew. by apply app_inv_head in Ew.
Qed.

(** Zone transfer.  Asked for the zone with records [R] at its apex, the
    server streams it only over TCP and only when the policy admits the
    request; every other request gets one message without records.  The
    stream's messages, each with the request's ID and question and the AA bit,
    concatenate to the apex SOA, the other records (for every owner exactly
    its records other than SOA, in order, whatever order the zone map is walked in)
    and the SOA again; each message is within the 16 KiB budget or holds a
    single record.  If the writer fails, a prefix of the stream was sent. *)
Theorem axfr_stream {range : MapRange} a w q question z R :
  server_ok False a -> indexes z R -> canonical (q_name question) -> questions q = [question] ->
  zones a !! nameKey (q_name question) = Some z ->
  let sent := serveAXFR a w q question in
  if bool_decide (Network w = tcp) && negb (denied (axfrPolicy a) w q) then
    exists parts body k,
      concat parts = zoneIndex.soaRec z :: body ++ [zoneIndex.soaRec z] /\
      (forall n, canonical n -> owned body n = List.filter notSOA (owned R n)) /\
      Forall (fun r => r ∈ R) body /\
      Forall chunk_ok parts /\
      written sent = written w ++ take k (map (transferMessage q question) parts) /\
      (accepting w -> take k (map (transferMessage q question) parts) = map (transferMessage q question) parts)
  else refused w sent.
Proof. apply serveAXFR_stream. Qed.

(** The sample zone fits in one message; without a policy nothing is sent. *)
Lemma axfr_stream_witness :
  let q := mkMessage 5 0 [NewQuestion Sample.origin rrtype.AXFR] [] [] [] zeroEDNS false in
  refused SampleRun.writer (serveAXFR SampleRun.server SampleRun.writer q (NewQuestion Sample.origin rrtype.AXFR)) /\
  (let open := mkServer (zones SampleRun.server) false None None 0 (Some SampleRun.allow) None false 0 true in
   exists parts body k,
    concat parts = Sample.soa :: body ++ [Sample.soa] /\
    (forall n, canonical n -> owned body n = List.filter notSOA (owned Sample.records n)) /\
    Forall (fun r => r ∈ Sample.records) body /\ Forall chunk_ok parts /\
    written (serveAXFR open SampleRun.writer q (NewQuestion Sample.origin rrtype.AXFR)) =
      written SampleRun.writer ++ take k (map (transferMessage q (NewQuestion Sample.origin rrtype.AXFR)) parts) /\
    (accepting SampleRun.writer ->
     take k (map (transferMessage q (NewQuestion Sample.origin rrtype.AXFR)) parts) =
     map (transferMessage q (NewQuestion Sample.origin rrtype.AXFR)) parts)).
Proof.
  intros q. assert (server_ok False SampleRun.server) as Hs by (eapply New_ok; [apply SampleRun.options_wf|apply SampleRun.started]).
  split.
  - apply (axfr_stream SampleRun.server SampleRun.writer q _ Sample.index Sample.records);
      [exact Hs|apply Sample.indexed|by apply Sample.canonicalI|done|vm_compute; reflexivity].
  - intros open. apply (axfr_stream open SampleRun.writer q _ Sample.index Sample.records);
      [constructor; [apply Hs|done]|apply Sample.indexed|by apply Sample.canonicalI|done|vm_compute; reflexivity].
Defined.
