(* ===== verification/Dnssec.v ===== *)
(** * DNSSEC signatures and digests: packages dnssec and dnssecbb

    canonical.go (the canonical form of an RRset and the signed data),
    keytag.go, verify.go, sign.go and dnssecbb.go.  The hash functions and
    signature schemes of Go's crypto packages are the fields of the class
    [Crypto]; nothing is assumed about them here.  A [*rsa.PublicKey] is its
    modulus and exponent, an elliptic-curve point or signature a pair of
    big-endian numbers. *)

From Stdlib Require Import Sorting.Sorted Permutation.
From S2P Require Import Prelude Name Wire RData Message Compare.

(** ** The structs of wire/rdata/dnssec.go the packages work on *)
Record DNSKEY := mkDNSKEY { k_flags : Z; k_protocol : Z; k_algorithm : Z; k_pubkey : bytes }.
Record DS := mkDS { ds_keyTag : Z; ds_algorithm : Z; ds_digestType : Z; ds_digest : bytes }.
Record RRSIG := mkRRSIG {
  s_typeCovered : Z; s_algorithm : Z; s_labels : Z; s_origTTL : Z; s_sigExp : Z; s_sigInc : Z;
  s_keyTag : Z; s_signerName : Name; s_signature : bytes }.

#[export] Instance DNSKEY_eq_dec : EqDecision DNSKEY.
Proof. solve_decision. Defined.
#[export] Instance DS_eq_dec : EqDecision DS.
Proof. solve_decision. Defined.
#[export] Instance RRSIG_eq_dec : EqDecision RRSIG.
Proof. solve_decision. Defined.

(** [wire.RDataAs] at these types: the type number and the payload of a
    record always agree. *)
Definition asDNSKEY (r : Record_) : option DNSKEY :=
  match r_rd r with Some (RD_DNSKEY f p a k) => Some (mkDNSKEY f p a k) | _ => None end.
Definition asDS (r : Record_) : option DS :=
  match r_rd r with Some (RD_DS t a dt d) => Some (mkDS t a dt d) | _ => None end.
Definition asRRSIG (r : Record_) : option RRSIG :=
  match r_rd r with
  | Some (RD_RRSIG tc a l ttl e i t n s) => Some (mkRRSIG tc a l ttl e i t n s)
  | _ => None
  end.

(** Algorithm and digest numbers and key flags. *)
Definition AlgRSAMD5 : Z := 1.
Definition AlgDSA : Z := 3.
Definition AlgRSASHA1 : Z := 5.
Definition AlgDSANSEC3SHA1 : Z := 6.
Definition AlgRSASHA1NSEC3SHA1 : Z := 7.
Definition AlgRSASHA256 : Z := 8.
Definition AlgRSASHA512 : Z := 10.
Definition AlgECDSAP256SHA256 : Z := 13.
Definition AlgECDSAP384SHA384 : Z := 14.
Definition AlgED25519 : Z := 15.
Definition DigestSHA1 : Z := 1.
Definition DigestSHA256 : Z := 2.
Definition DigestSHA384 : Z := 4.
Definition DNSKEYFlagZone : Z := 0x0100.
Definition DNSKEYFlagRevoke : Z := 0x0080.

(** ** Go's crypto packages *)
Inductive Curve := P256 | P384.

Class Crypto := {
  sha1 : bytes -> bytes;
  sha256 : bytes -> bytes;
  sha384 : bytes -> bytes;
  sha512 : bytes -> bytes;
  rsaVerifyPKCS1v15 : Z * Z -> bytes -> bytes -> bool;      (* (N, E), hash, signature *)
  ecdsaVerify : Curve -> Z * Z -> bytes -> Z * Z -> bool;   (* (X, Y), hash, (r, s) *)
  ed25519Verify : bytes -> bytes -> bytes -> bool }.         (* key, message, signature *)

(** ** canonical.go *)
Fixpoint stripLeadingLabels (n : Name) (count : nat) : Name :=
  match count with
  | O => n
  | S count => match Parent n with Some p => stripLeadingLabels p count | None => n end
  end.

Definition canonicalOwner (owner : Name) (rrsig : RRSIG) : bytes :=
  let rrsigLabels := s_labels rrsig in
  if (0 <? rrsigLabels) && (rrsigLabels <? NumLabels owner) then
    let stripped := stripLeadingLabels owner (Z.to_nat (NumLabels owner - rrsigLabels)) in
    match FromLabels ([42] :: Labels stripped) with
    | Ok star => AppendWire star []
    | Err _ => AppendWire owner []
    end
  else AppendWire owner [].

(** [uint32(d.Seconds())] for a non-negative duration [d]: exact for whole
    seconds, which every decoded payload has. *)
Definition seconds32 (d : Z) : Z := to_u32 (Z.quot d Second).

Definition canonicalRData (rd : RData) : bytes :=
  match rd with
  | RD_NS target | RD_CNAME target | RD_PTR target => AppendWire target []
  | RD_SOA mname rname serial refresh retry expire minimum =>
      AppendWire mname [] ++ AppendWire rname [] ++ be32 serial ++ be32 (seconds32 refresh)
        ++ be32 (seconds32 retry) ++ be32 (seconds32 expire) ++ be32 (seconds32 minimum)
  | RD_MX pref exchange => be16 pref ++ AppendWire exchange []
  | _ => PackBytes rd
  end.

(** [sort.SliceStable] by [bytes.Compare]. *)
Definition sortCanonical (l : list bytes) : list bytes := insertionSort cmpBytes l.

(** The loop that fills [canonRDataList]; a record without a payload makes
    [rdata.Pack] panic. *)
Fixpoint canonRDataList (set : list Record_) : res (list bytes) :=
  match set with
  | [] => Ok []
  | r :: set =>
      match r_rd r with
      | None => Err Panic
      | Some rd => let? rest := canonRDataList set in Ok (canonicalRData rd :: rest)
      end
  end.

(** One iteration of the output loop. *)
Definition canonicalRR (owner : bytes) (rrType class origTTL : Z) (rd : bytes) : bytes :=
  owner ++ be16 rrType ++ be16 class ++ be32 origTTL ++ be16 (to_u16 (zlen rd)) ++ rd.

Definition canonicalRRSet (set : list Record_) (rrsig : RRSIG) : res bytes :=
  match set with
  | [] => Err ErrPlain
  | r0 :: _ =>
      let owner := canonicalOwner (r_name r0) rrsig in
      let? rds := canonRDataList set in
      Ok (concat (map (canonicalRR owner (RType r0) (r_class r0) (s_origTTL rrsig)) (sortCanonical rds)))
  end.

Definition rrsigSignedHeader (r : RRSIG) : bytes :=
  be16 (s_typeCovered r) ++ [s_algorithm r; s_labels r] ++ be32 (s_origTTL r)
    ++ be32 (s_sigExp r) ++ be32 (s_sigInc r) ++ be16 (s_keyTag r) ++ AppendWire (s_signerName r) [].

Definition signedData (set : list Record_) (r : RRSIG) : res bytes :=
  let? body := canonicalRRSet set r in Ok (rrsigSignedHeader r ++ body).

(** sign.go *)
Definition SignedData := signedData.

(** ** keytag.go *)
Definition dnskeyWire (k : DNSKEY) : bytes :=
  be16 (k_flags k) ++ [k_protocol k; k_algorithm k] ++ k_pubkey k.

Fixpoint keyTag_loop (even : bool) (rd : bytes) (sum : Z) : Z :=
  match rd with
  | [] => sum
  | b :: rd => keyTag_loop (negb even) rd (to_u32 (sum + if even then to_u32 (Z.shiftl b 8) else b))
  end.

Definition KeyTag (k : DNSKEY) : Z :=
  let sum := keyTag_loop true (dnskeyWire k) 0 in
  let sum := to_u32 (sum + Z.land (Z.shiftr sum 16) 0xffff) in
  to_u16 (Z.land sum 0xffff).

(** ** dnssecbb.go *)
Module dnssecbb.

Definition MaxRSAModulusBytes : Z := 520.
Definition MinRSAModulusBytes : Z := 128.
Definition MaxRSAExponentBytes : Z := 8.

(** [new(big.Int).SetBytes] *)
Definition SetBytes (b : bytes) : Z := fold_left (fun acc x => acc * 256 + x) b 0.

(** The exponent length and the offset of the exponent. *)
Definition rsaExplen (b : bytes) : res (Z * Z) :=
  if zlen b <? 1 then Err ErrPlain
  else if zget b 0 =? 0 then
    if zlen b <? 3 then Err ErrPlain else Ok (get16 (zget b 1) (zget b 2), 3)
  else Ok (zget b 0, 1).

Definition ParseRSAPublic (b : bytes) : res (Z * Z) :=
  let? el := rsaExplen b in
  let '(explen, off) := el in
  if explen <=? 0 then Err ErrPlain
  else if MaxRSAExponentBytes <? explen then Err ErrPlain
  else if zlen b <? off + explen then Err ErrPlain
  else
    let modBytes := drop (Z.to_nat (off + explen)) b in
    if zlen modBytes =? 0 then Err ErrPlain
    else if MaxRSAModulusBytes <? zlen modBytes then Err ErrPlain
    else if zlen modBytes <? MinRSAModulusBytes then Err ErrPlain
    else
      let e := SetBytes (zslice b off (off + explen)) in
      if 2 ^ 63 <=? e then Err ErrPlain
      else if e <? 3 then Err ErrPlain
      else if Z.rem e 2 =? 0 then Err ErrPlain
      else Ok (SetBytes modBytes, e).

Section crypto.
Context `{Crypto}.

Definition VerifyRSA (alg : Z) (pub : Z * Z) (data sig : bytes) : res unit :=
  if alg =? AlgRSASHA256 then
    if rsaVerifyPKCS1v15 pub (sha256 data) sig then Ok tt else Err ErrSignatureMismatch
  else if alg =? AlgRSASHA512 then
    if rsaVerifyPKCS1v15 pub (sha512 data) sig then Ok tt else Err ErrSignatureMismatch
  else Err ErrUnsupportedAlgorithm.

Definition VerifyECDSA (curve : Curve) (size : Z) (hashFn : bytes -> bytes) (data pub sig : bytes) : res unit :=
  if negb (zlen pub =? 2 * size) then Err ErrSignatureMismatch
  else if negb (zlen sig =? 2 * size) then Err ErrSignatureMismatch
  else
    let k := Z.to_nat size in
    if ecdsaVerify curve (SetBytes (take k pub), SetBytes (drop k pub)) (hashFn data)
         (SetBytes (take k sig), SetBytes (drop k sig))
    then Ok tt else Err ErrSignatureMismatch.

Definition VerifyECDSAP256 (data pub sig : bytes) : res unit := VerifyECDSA P256 32 sha256 data pub sig.
Definition VerifyECDSAP384 (data pub sig : bytes) : res unit := VerifyECDSA P384 48 sha384 data pub sig.

Definition VerifyEd25519 (pub data sig : bytes) : res unit :=
  if negb (zlen pub =? 32) then Err ErrSignatureMismatch
  else if ed25519Verify pub data sig then Ok tt else Err ErrSignatureMismatch.

Definition Digest (dt : Z) (data : bytes) : res bytes :=
  if dt =? DigestSHA1 then Ok (sha1 data)
  else if dt =? DigestSHA256 then Ok (sha256 data)
  else if dt =? DigestSHA384 then Ok (sha384 data)
  else Err ErrUnsupportedAlgorithm.
End crypto.
End dnssecbb.

(** ** verify.go *)
Definition rejectedAlgorithms : list Z :=
  [AlgRSAMD5; AlgDSA; AlgRSASHA1; AlgDSANSEC3SHA1; AlgRSASHA1NSEC3SHA1].
Definition IsRejectedAlgorithm (alg : Z) : bool := existsb (Z.eqb alg) rejectedAlgorithms.

Definition validateDNSKEY (key : DNSKEY) : res unit :=
  if negb (k_protocol key =? 3) then Err ErrInvalidKey
  else if negb (Z.land (k_flags key) DNSKEYFlagRevoke =? 0) then Err ErrInvalidKey
  else if Z.land (k_flags key) DNSKEYFlagZone =? 0 then Err ErrInvalidKey
  else Ok tt.

Section crypto.
Context `{Crypto}.

(** The final [switch] of [Verify]. *)
Definition verifyWith (alg : Z) (pub data sig : bytes) : res unit :=
  if (alg =? AlgRSASHA256) || (alg =? AlgRSASHA512) then
    let? rsa := dnssecbb.ParseRSAPublic pub in dnssecbb.VerifyRSA alg rsa data sig
  else if alg =? AlgECDSAP256SHA256 then dnssecbb.VerifyECDSAP256 data pub sig
  else if alg =? AlgECDSAP384SHA384 then dnssecbb.VerifyECDSAP384 data pub sig
  else if alg =? AlgED25519 then dnssecbb.VerifyEd25519 pub data sig
  else Err ErrUnsupportedAlgorithm.

Definition Verify (set : list Record_) (rrsig : RRSIG) (key : DNSKEY) : res unit :=
  let? _ := validateDNSKEY key in
  if IsRejectedAlgorithm (s_algorithm rrsig) then Err ErrUnsupportedAlgorithm
  else if negb (s_algorithm rrsig =? k_algorithm key) then Err ErrSignatureMismatch
  else if negb (s_keyTag rrsig =? KeyTag key) then Err ErrSignatureMismatch
  else
    let? data := signedData set rrsig in
    verifyWith (s_algorithm rrsig) (k_pubkey key) data (s_signature rrsig).

(** [subtle.ConstantTimeCompare] is equality of byte strings. *)
Definition verifyDS (owner : Name) (ds : DS) (key : DNSKEY) (allowSHA1 : bool) : res unit :=
  let? _ := validateDNSKEY key in
  if negb allowSHA1 && (ds_digestType ds =? DigestSHA1) then Err ErrUnsupportedAlgorithm
  else if negb (ds_keyTag ds =? KeyTag key) then Err ErrSignatureMismatch
  else if negb (ds_algorithm ds =? k_algorithm key) then Err ErrSignatureMismatch
  else
    match dnssecbb.Digest (ds_digestType ds) (AppendWire owner [] ++ dnskeyWire key) with
    | Err _ => Err ErrUnsupportedAlgorithm
    | Ok sum => if bool_decide (sum = ds_digest ds) then Ok tt else Err ErrSignatureMismatch
    end.

Definition VerifyDS (owner : Name) (ds : DS) (key : DNSKEY) : res unit := verifyDS owner ds key false.
Definition VerifyDSWithSHA1 (owner : Name) (ds : DS) (key : DNSKEY) : res unit := verifyDS owner ds key true.

(** sign.go *)
Definition DSDigest (owner : Name) (key : DNSKEY) (dt : Z) : res bytes :=
  let data := AppendWire owner [] ++ dnskeyWire key in
  if dt =? DigestSHA1 then Ok (sha1 data)
  else if dt =? DigestSHA256 then Ok (sha256 data)
  else if dt =? DigestSHA384 then Ok (sha384 data)
  else Err ErrUnsupportedAlgorithm.
End crypto.
