(* ===== verification/Signatures.v ===== *)
(** * DNSSEC signatures: what is signed and what is accepted

    Theorems about Dnssec.v: the key tag, the canonical form of payloads and
    RRsets, the signed data and the decisions of [Verify] and [VerifyDS]. *)

From Stdlib Require Import Sorting.Sorted Permutation.
From S2P Require Import Prelude Name Wire RData RDataCodec TypeBitmap RDataRoundtrip Message Compare Authoritative ZoneTree ZoneLookup Dnssec.

(** ** Encoders that do not look at the packer *)
Definition rawop (op : Packer.t -> Packer.t) : Prop := exists b, forall p, op p = Packer.Raw b p.

Lemma rawop_raw b : rawop (Packer.Raw b).
Proof. by exists b. Qed.
Lemma rawop_id : rawop (fun p => p).
Proof. exists []. intros [b c]. unfold Packer.Raw. cbn. by rewrite app_nil_r. Qed.
Lemma rawop_comp f g : rawop f -> rawop g -> rawop (fun p => g (f p)).
Proof.
  intros [a Ha] [b Hb]. exists (a ++ b). intros p. rewrite Ha, Hb. unfold Packer.Raw. cbn. by rewrite app_assoc.
Qed.
Lemma rawop_ext f g : (forall p, f p = g p) -> rawop f -> rawop g.
Proof. intros E [b Hb]. exists b. intros p. by rewrite <- E. Qed.
Lemma rawop_nameU n : rawop (Packer.NameUncompressed n).
Proof. rewrite NameUncompressed_raw. apply rawop_raw. Qed.
Lemma rawop_charString s : rawop (packCharString s).
Proof.
  unfold packCharString, Packer.CharString. destruct (_ <? _) eqn:E; cbn; [apply rawop_id|apply rawop_raw].
Qed.
Lemma rawop_fold {X} (op : X -> Packer.t -> Packer.t) items : (forall x, rawop (op x)) ->
  rawop (fun p => fold_left (fun p x => op x p) items p).
Proof.
  intros H. induction items as [|x items IH]; [apply rawop_id|]. cbn. by apply (rawop_comp (op x)).
Qed.
Create HintDb rawops.
#[export] Hint Resolve rawop_raw rawop_id rawop_nameU rawop_charString rawop_fold : rawops.

(** Split a Pack method into its steps. *)
Ltac rawsteps :=
  repeat first [ solve [eauto with rawops nocore]
    | match goal with |- rawop (fun p => ?g (@?f p)) => apply (rawop_comp f g) end ].

Lemma rawop_bitmap types : rawop (encodeTypeBitmap types).
Proof.
  unfold encodeTypeBitmap. destruct (_ =? 0); [apply rawop_id|]. apply (rawop_fold packBucket).
  intros b. unfold packBucket. cbv zeta. rawsteps.
Qed.
Lemma rawop_strings strs : rawop (packStrings strs).
Proof. apply rawop_fold, rawop_charString. Qed.
Lemma rawop_gateway gt a n : rawop (packGateway gt a n).
Proof. unfold packGateway. repeat case_match; rawsteps. Qed.
Lemma rawop_body s : rawop (packBody s).
Proof.
  apply (rawop_comp (fun p => p |> Packer.Uint16 (svcb_priority s) |> Packer.NameUncompressed (svcb_target s))
           (fun p => fold_left (fun p sp => packParam sp p) (params s) p)); [rawsteps|].
  apply rawop_fold. intros sp. unfold packParam. rawsteps.
Qed.
#[export] Hint Resolve rawop_bitmap rawop_strings rawop_gateway rawop_body : rawops.

(** The payloads with a name that the message encoder may compress. *)
Definition compressible (rd : RData) : bool :=
  match rd with
  | RD_CNAME _ | RD_NS _ | RD_PTR _ | RD_NSAPPTR _ | RD_MX _ _ | RD_SOA _ _ _ _ _ _ _ | RD_RP _ _ => true
  | _ => false
  end.

Lemma rawop_Pack rd : compressible rd = false -> rawop (RData.Pack rd).
Proof.
  destruct rd; intros H; try discriminate H; cbn [RData.Pack]; try (solve [eauto with rawops nocore]).
  all: unfold A_Pack, AAAA_Pack, CAA_Pack, DNSKEY_Pack, DS_Pack, RRSIG_Pack, NSEC_Pack, NSEC3_Pack, NSEC3PARAM_Pack,
      SRV_Pack, NAPTR_Pack, AFSDB_Pack, X25_Pack, ISDN_Pack, RT_Pack, NSAP_Pack, LOC_Pack, APL_Pack, IPSECKEY_Pack,
      DHCID_Pack, HIP_Pack, NID_Pack, L32_Pack, L64_Pack, LP_Pack, EUI48_Pack, EUI64_Pack, URI_Pack, ZONEMD_Pack,
      SSHFP_Pack, TLSA_Pack, SMIMEA_Pack, CSYNC_Pack, DNAME_Pack, HINFO_Pack, KX_Pack, CDS_Pack, CDNSKEY_Pack,
      OPENPGPKEY_Pack, CERT_Pack, AMTRELAY_Pack, TKEY_Pack, Unknown_Pack; cbv zeta.
  all: try (solve [rawsteps]).
  - destruct hasSub; rawsteps.
  - apply rawop_fold. intros it. unfold packAPLItem. cbv zeta. rawsteps.
Qed.

(** An uncompressed name is read back by the reader for compressed names too,
    whatever the number of its labels. *)
Lemma codec_NameInRangeU t n : canonical n -> codec t (Packer.NameUncompressed n) Unpacker.NameInRange n.
Proof.
  intros (ls & Hw & Hf). rewrite NameUncompressed_raw, (AppendWire_wf _ _ Hw).
  pose proof Hw as (E & Hok & Hlen). rewrite E in Hlen.
  apply codec_raw; [by apply is_bytes_encName|]. intros msg off e Hb Ha Ho He _.
  pose proof (zlen_encName ls). pose proof (zlen_nonneg (encLabels ls)).
  unfold Unpacker.NameInRange. cbn [Unpacker.msg Unpacker.off].
  replace ((e <? 0) || (_ <? e)) with false by (symmetry; apply orb_false_iff; lia). if_false.
  rewrite (proj2 (DecodeWire_spec msg off n (off + zlen (encName ls)) Hb)); [by if_false|].
  exists ls, 0. split_and!; [by apply name_at_inline|done|done|by apply canonical_wire].
Qed.
#[export] Hint Resolve codec_NameInRangeU : fields.

(** ** The canonical form of a payload (RFC 4034 section 6.2) *)

(** A fresh packer does not compress the first name. *)
Lemma Name_loop_fresh ls fuel p : Forall label_ok ls -> (length (encName ls) <= fuel)%nat ->
  (forall s, is_Some (Packer.comp p !! s) -> (length (encName ls) < length s)%nat) ->
  Packer.buf (Packer.Name_loop fuel (encName ls) p) = Packer.buf p ++ encName ls.
Proof.
  intros Hok. revert fuel p. induction Hok as [|l ls Hl Hls IH]; intros fuel p Hf Hc;
    (destruct fuel as [|fuel]; [cbn in Hf; lia|]); [done|].
  apply length_encName_cons in Hf. destruct (encName_pos l ls Hl) as [Ee Hz].
  destruct (Packer.comp p !! encName (l :: ls)) as [ptr|] eqn:E; [pose proof (Hc _ (mk_is_Some _ _ E)); lia|].
  rewrite Ee. cbn [Packer.Name_loop]. rewrite <- Ee, Hz, E. cbv zeta. rewrite take_label, drop_label.
  change (Packer.Raw l (Packer.Raw [to_u8 (zlen l)] _)) with (after_label (encName (l :: ls)) l p).
  rewrite IH; [by rewrite after_label_buf, encName_cons, app_assoc|done|].
  intros s [ptr Hs]. assert (length (encName ls) < length (encName (l :: ls)))%nat by (rewrite encName_cons, length_app; cbn; lia).
  apply after_label_comp in Hs as [Hs|[-> _]]; [|done]. pose proof (Hc _ (mk_is_Some _ _ Hs)). lia.
Qed.
Lemma Name_fresh n : canonical n -> Packer.buf (Packer.Name n (Packer.NewPacker [])) = AppendWire n [].
Proof.
  intros (ls & Hw & _). unfold Packer.Name. rewrite (nameWire_wf _ _ Hw), (AppendWire_wf _ _ Hw).
  destruct Hw as (_ & Hok & _). rewrite Name_loop_fresh; [done..|]. intros s [? E]. cbn in E. by rewrite lookup_empty in E.
Qed.

Lemma rcodec_op_ext op op' unp rd : (forall p, op p = op' p) -> rcodec op unp rd -> rcodec op' unp rd.
Proof.
  intros E [Hf Hc]. split; [intros b1 b2 c Hl; rewrite <- !E; by apply Hf|]. intros p Hp. rewrite <- !E. by apply Hc.
Qed.
Lemma minsize_ext n op op' : (forall p, op p = op' p) -> minsize n op -> minsize n op'.
Proof. intros E H p. rewrite <- E. apply H. Qed.

Lemma raw_seq2 a b p : Packer.Raw (a ++ b) p = Packer.Raw b (Packer.Raw a p).
Proof. unfold Packer.Raw. cbn. by rewrite app_assoc. Qed.

(** The compressible payloads, written without compression. *)
Definition packUncompressed (rd : RData) : Packer.t -> Packer.t :=
  match rd with
  | RD_CNAME n | RD_NS n | RD_PTR n | RD_NSAPPTR n => fun p => p |> Packer.NameUncompressed n
  | RD_MX pref n => fun p => p |> Packer.Uint16 pref |> Packer.NameUncompressed n
  | RD_SOA mname rname serial refresh retry expire minimum => fun p =>
      p |> Packer.NameUncompressed mname |> Packer.NameUncompressed rname |> Packer.Uint32 serial
        |> Packer.Uint32 (to_u32 (Z.quot refresh Second)) |> Packer.Uint32 (to_u32 (Z.quot retry Second))
        |> Packer.Uint32 (to_u32 (Z.quot expire Second)) |> Packer.Uint32 (to_u32 (Z.quot minimum Second))
  | RD_RP mbox txt => fun p => p |> Packer.NameUncompressed mbox |> Packer.NameUncompressed txt
  | rd => RData.Pack rd
  end.

Lemma canonicalRData_raw rd p : rd_okP canonical rd -> match rd with RD_RP _ _ => False | _ => True end ->
  Packer.Raw (canonicalRData rd) p = packUncompressed rd p.
Proof.
  intros Hok Hrp. destruct (compressible rd) eqn:Hc.
  - destruct rd; try done; cbn [canonicalRData packUncompressed]; rewrite ?NameUncompressed_raw, ?raw_seq2; try done.
    unfold PackBytes. cbn [RData.Pack NSAPPTR_Pack]. by rewrite Name_fresh.
  - destruct (rawop_Pack rd Hc) as [b Hb].
    assert (canonicalRData rd = b) as ->.
    { transitivity (PackBytes rd); [by destruct rd|]. unfold PackBytes. by rewrite Hb. }
    rewrite <- Hb. by destruct rd.
Qed.

Ltac to_minsize :=
  match goal with
  | |- minsize ?n ?op =>
      let l := ops_of op constr:(@nil (Packer.t -> Packer.t)) in change (minsize n (seqops l))
  end.

Ltac helper u := match goal with |- rcodec ?op _ ?rd => change (rcodec op u rd) end; unfold u.

(** The canonical bytes are one uncompressed encoding. *)
Lemma rcodec_canonical rd : rd_okP canonical rd -> match rd with RD_RP _ _ => False | _ => True end ->
  rcodec (Packer.Raw (canonicalRData rd)) (RData.Unpack (Type_ rd)) rd.
Proof.
  intros Hok Hrp. apply (rcodec_op_ext (packUncompressed rd)); [intros p; by rewrite canonicalRData_raw|].
  destruct (compressible rd) eqn:Hc.
  - destruct rd; try done; cbn [packUncompressed] in *;
      (apply rcodec_wrap; [to_minsize; msize|]).
    1: helper unpackCNAME.
    2: helper unpackNS.
    3: helper unpackPTR.
    4: helper unpackMX.
    5: { destruct Hok as (? & ? & ? & (? & -> & ?) & (? & -> & ?) & (? & -> & ?) & (? & -> & ?)).
      helper unpackSOA. rewrite !quot_Second, !to_u32_id by done. rdata. }
    5: helper unpackNSAPPTR.
    all: cbn [rd_okP] in Hok; rdata.
  - apply rcodec_op_ext with (op := RData.Pack rd); [by destruct rd|]. apply rcodec_Unpack. by destruct rd.
Qed.

(** The canonical form of a payload (RFC 4034 section 6.2) is
    self-contained: for every record type but RP, the canonical bytes, placed
    anywhere in any message, are read back by [rdata.Unpack] as exactly the
    payload.  No compression pointer refers outside them, in contrast with
    the form the message encoder writes. *)
Theorem canonical_rdata_selfcontained rd pre post :
  rd_okP canonical rd -> match rd with RD_RP _ _ => False | _ => True end -> is_bytes pre -> is_bytes post ->
  let c := canonicalRData rd in
  RData.Unpack (Type_ rd) (zlen c) (Unpacker.mk (pre ++ c ++ post) (zlen pre))
    = (Ok rd, Unpacker.mk (pre ++ c ++ post) (zlen pre + zlen c)).
Proof.
  intros Hok Hrp Hpre Hpost c. destruct (rcodec_canonical rd Hok Hrp) as [_ H].
  destruct (H (Packer.mk pre ∅)) as [_ Hr].
  { split; [|done]. intros s ptr E. cbn in E. by rewrite lookup_empty in E. }
  specialize (Hr post Hpost). cbn [Packer.Raw Packer.buf] in Hr. rewrite <- !app_assoc, !zlen_app in Hr.
  by replace (zlen pre + zlen (canonicalRData rd) - zlen pre) with (zlen (canonicalRData rd)) in Hr by lia.
Qed.

Lemma canonical_rdata_selfcontained_witness :
  let n := mkName [2; 110; 115; 7; 101; 120; 97; 109; 112; 108; 101; 0] in
  let rd := RD_SOA n n 7 (60 * Second) (60 * Second) (60 * Second) (60 * Second) in
  zlen (PackBytes rd) = 34 /\ zlen (canonicalRData rd) = 44 /\
  fst (RData.Unpack rrtype.SOA 44 (Unpacker.mk ([1; 2] ++ canonicalRData rd ++ [3]) 2)) = Ok rd.
Proof.
  split; [vm_compute; reflexivity|]. split; [vm_compute; reflexivity|].
  set (n := mkName [2; 110; 115; 7; 101; 120; 97; 109; 112; 108; 101; 0]).
  change 2 with (zlen [1; 2]) at 2.
  change 44 with (zlen (canonicalRData (RD_SOA n n 7 (60 * Second) (60 * Second) (60 * Second) (60 * Second)))).
  change rrtype.SOA with (Type_ (RD_SOA n n 7 (60 * Second) (60 * Second) (60 * Second) (60 * Second))).
  assert (canonical n) as Hn.
  { exists [[110; 115]; [101; 120; 97; 109; 112; 108; 101]]. split; [split; [reflexivity|decide_now]|decide_now]. }
  cbv zeta. rewrite (canonical_rdata_selfcontained _ [1; 2] [3]); [reflexivity| |exact I|decide_now..].
  split_and!; try exact Hn; try decide_now; by exists 60.
Defined.

(** The canonical form of an RP payload whose two names share a suffix is
    not canonical: the second name is written as a compression pointer, an
    offset that depends on where the payload was packed (RFC 4034 section 6.2
    requires uncompressed names).  A correctly signed RP RRset fails to
    verify, and its canonical bytes do not decode to the payload. *)
Theorem canonical_rdata_rp_compressed :
  let mbox := mkName [1; 109; 7; 101; 120; 97; 109; 112; 108; 101; 0] in
  let txt := mkName [1; 116; 7; 101; 120; 97; 109; 112; 108; 101; 0] in
  let rd := RD_RP mbox txt in
  canonicalRData rd = wire mbox ++ [1; 116; 192; 2] /\
  canonicalRData rd <> wire mbox ++ wire txt /\
  fst (RData.Unpack rrtype.RP (zlen (canonicalRData rd)) (Unpacker.mk ([0] ++ canonicalRData rd) 1)) <> Ok rd.
Proof. split_and!; vm_compute; congruence. Qed.

(** ** Key tags *)

(** The sum of RFC 4034 appendix B: 16-bit big-endian words, an odd last
    byte being a high one. *)
Fixpoint words (rd : bytes) : Z :=
  match rd with
  | a :: b :: rd => a * 256 + b + words rd
  | [a] => a * 256
  | [] => 0
  end.

Lemma bytes_pair_ind (P : bytes -> Prop) :
  P [] -> (forall a, P [a]) -> (forall a b l, P l -> P (a :: b :: l)) -> forall l, P l.
Proof.
  intros H0 H1 H2 l. cut (P l /\ forall a, P (a :: l)); [by intros [? _]|]. induction l as [|x l [IH1 IH2]]; auto.
Qed.

Lemma words_bound rd : is_bytes rd -> 0 <= words rd <= 32768 * (zlen rd + 1).
Proof.
  revert rd. apply (bytes_pair_ind (fun rd => is_bytes rd -> 0 <= words rd <= 32768 * (zlen rd + 1))).
  - intros _. cbn. llia.
  - intros a H. inversion H as [|? ? Ha]. unfold u8 in *. cbn. llia.
  - intros a b l IH H. inversion H as [|? ? Ha H']. inversion H' as [|? ? Hb Hl]. specialize (IH Hl).
    unfold u8 in *. cbn [words]. llia.
Qed.

Lemma keyTag_loop_words rd sum : is_bytes rd -> 0 <= sum -> sum + words rd < 2 ^ 32 ->
  keyTag_loop true rd sum = sum + words rd.
Proof.
  revert rd sum. apply (bytes_pair_ind (fun rd => forall sum, is_bytes rd -> 0 <= sum ->
    sum + words rd < 2 ^ 32 -> keyTag_loop true rd sum = sum + words rd)).
  - intros sum _ _ _. cbn. lia.
  - intros a sum H Hs Hb. inversion H as [|? ? Ha]; subst. unfold u8 in *. cbn in *.
    rewrite Z.shiftl_mul_pow2 by lia. unfold to_u32. rewrite !Z.mod_small; elia.
  - intros a b l IH sum H Hs Hb. inversion H as [|? ? Ha H']; subst. inversion H' as [|? ? Hb' Hl]; subst.
    pose proof (words_bound l Hl). cbn [words] in *. unfold u8 in *. cbn [keyTag_loop negb].
    rewrite Z.shiftl_mul_pow2 by lia. unfold to_u32. rewrite !(Z.mod_small) by elia. rewrite IH; [lia|done|lia|lia].
Qed.

Definition key_ok (k : DNSKEY) : Prop :=
  u16 (k_flags k) /\ u8 (k_protocol k) /\ u8 (k_algorithm k) /\ is_bytes (k_pubkey k) /\ zlen (dnskeyWire k) <= 65535.

Lemma dnskeyWire_bytes k : key_ok k -> is_bytes (dnskeyWire k).
Proof.
  intros (? & ? & ? & ? & _). unfold dnskeyWire.
  apply Forall_app_2; [apply be16_bytes|]. repeat (constructor; [done|]). done.
Qed.

(** Key tags (RFC 4034 appendix B): for every DNSKEY payload that fits in
    a record, the bytes the tag is computed over are the payload's wire form,
    the 32-bit accumulator never overflows, and the tag is the low half of
    the word sum with the carries of its high half added once. *)
Theorem key_tag_rfc4034 k : key_ok k ->
  let s := words (PackBytes (RD_DNSKEY (k_flags k) (k_protocol k) (k_algorithm k) (k_pubkey k))) in
  0 <= s + s / 65536 < 2 ^ 32 /\ keyTag_loop true (dnskeyWire k) 0 = s /\ KeyTag k = (s + s / 65536) mod 65536.
Proof.
  intros Hk. change (PackBytes _) with (dnskeyWire k). intros s.
  pose proof (words_bound _ (dnskeyWire_bytes k Hk)) as Hb. fold s in Hb.
  destruct Hk as (H1 & H2 & H3 & H4 & H5).
  assert (0 <= s + s / 65536 < 2 ^ 32) as Hs by elia.
  assert (keyTag_loop true (dnskeyWire k) 0 = s) as E.
  { rewrite keyTag_loop_words; [done|by apply dnskeyWire_bytes|lia|]. fold s. elia. }
  split_and!; [lia|lia|done|]. unfold KeyTag. rewrite E.
  change 0xffff with (Z.ones 16). rewrite !Z.land_ones, Z.shiftr_div_pow2 by lia.
  change (2 ^ 16) with 65536. unfold to_u32, to_u16.
  rewrite (Z.mod_small (s / 65536)) by elia. rewrite (Z.mod_small (s + s / 65536)) by elia. by rewrite Z.mod_mod.
Qed.
Lemma key_tag_rfc4034_witness :
  let k := mkDNSKEY 257 3 15 (repeat 200 32) in
  key_ok k /\ 0 <= words (dnskeyWire k) + words (dnskeyWire k) / 65536 < 2 ^ 32.
Proof.
  set (k := mkDNSKEY 257 3 15 (repeat 200 32)). cbv zeta.
  assert (key_ok k) as H by (repeat split; try decide_now).
  split; [exact H|]. destruct (key_tag_rfc4034 k H) as [H1 _]. exact H1.
Defined.

(** ** Signed data *)

(** An RRset: at least one record, all with one owner, class and type, and a
    payload each. *)
Record rrset_at (set : list Record_) (n : Name) (c t : Z) (rds : list RData) : Prop := {
  ra_records : Forall2 (fun r rd => r_name r = n /\ r_class r = c /\ r_rd r = Some rd) set rds;
  ra_types : Forall (fun rd => Type_ rd = t) rds;
  ra_some : rds <> [] }.

Lemma canonRDataList_at set rds :
  Forall2 (fun r rd => r_rd r = Some rd) set rds -> canonRDataList set = Ok (map canonicalRData rds).
Proof. induction 1 as [|r rd set rds E _ IH]; [done|]. cbn [canonRDataList map]. by rewrite E, IH. Qed.

Definition canonicalStream (owner : bytes) (t c ttl : Z) (rds : list RData) : bytes :=
  concat (map (canonicalRR owner t c ttl) (sortCanonical (map canonicalRData rds))).

Lemma signedData_at set n c t rds s : rrset_at set n c t rds ->
  signedData set s = Ok (rrsigSignedHeader s ++ canonicalStream (canonicalOwner n s) t c (s_origTTL s) rds).
Proof.
  intros [Hr Ht Hne]. assert (canonRDataList set = Ok (map canonicalRData rds)) as E.
  { apply canonRDataList_at. eapply Forall2_impl; [exact Hr|]. by intros r rd (_ & _ & ?). }
  destruct Hr as [|r rd set rds (<- & <- & Hrd) Hr]; [done|]. inversion Ht as [|? ? <- _]; subst.
  unfold signedData, canonicalRRSet. rewrite E. cbn [res_bind]. unfold RType. by rewrite Hrd.
Qed.

Lemma sortCanonical_perm l : sortCanonical l ≡ₚ l.
Proof. by apply insertionSort_spec, weak_cmpBytes. Qed.
Lemma sortCanonical_unique l k : l ≡ₚ k -> sortCanonical l = sortCanonical k.
Proof.
  intros Hp. rewrite <- (map_id (sortCanonical l)), <- (map_id (sortCanonical k)).
  apply (sorted_key_unique cmpBytes (fun x => x)).
  - apply weak_cmpBytes.
  - intros x y E. by apply cmpBytes_eq.
  - intros x y _ _ E. by apply cmpBytes_eq.
  - by apply insertionSort_spec, weak_cmpBytes.
  - by apply insertionSort_spec, weak_cmpBytes.
  - rewrite !map_id, !sortCanonical_perm. done.
Qed.

(** The signed data of an RRset (RFC 4034 section 3.1.8.1) depends only
    on the set: neither the order in which a responder sends the records nor
    the TTLs they carry, which caches decrement, changes the bytes a
    signature is checked against. *)
Theorem signed_data_set_only set set' n c t rds rds' s :
  rrset_at set n c t rds -> rrset_at set' n c t rds' -> rds ≡ₚ rds' -> signedData set s = signedData set' s.
Proof.
  intros H H' Hp. rewrite (signedData_at _ _ _ _ _ _ H), (signedData_at _ _ _ _ _ _ H').
  unfold canonicalStream. by rewrite (sortCanonical_unique (map canonicalRData rds) (map canonicalRData rds')) by by rewrite Hp.
Qed.

(** ** Wildcards *)
Lemma stripLeadingLabels_labels k n : canonical n -> (k <= length (Labels n))%nat ->
  canonical (stripLeadingLabels n k) /\ Labels (stripLeadingLabels n k) = drop k (Labels n).
Proof.
  revert n. induction k as [|k IH]; intros n Hn Hk; [done|]. cbn [stripLeadingLabels].
  destruct (canonical_cases n Hn) as [[-> H]|(l & ls & p & Hw & Hf & Hp & Hwp)].
  { rewrite (Labels_wf _ _ Root_wf) in Hk. cbn in Hk. lia. }
  rewrite (Labels_wf _ _ Hw) in *. rewrite Hp. cbn [drop]. rewrite <- (Labels_wf _ _ Hwp).
  apply IH; [by eapply canonical_up|]. rewrite (Labels_wf _ _ Hwp). cbn in Hk. lia.
Qed.

Lemma NumLabels_labels n : canonical n -> NumLabels n = zlen (Labels n).
Proof. intros (ls & Hw & _). by rewrite (NumLabels_wf _ _ Hw), (Labels_wf _ _ Hw). Qed.

Lemma FromLabels_star e w : canonical e -> FromLabels ([42] :: Labels e) = Ok w <-> wildcard e w.
Proof.
  intros He. destruct (canonical_labels e He) as (_ & Hf & Hb).
  apply FromLabels_canonical; constructor; try done. repeat constructor; unfold u8; lia.
Qed.

Lemma canonicalOwner_wildcard n e w pre s : canonical n -> canonical e -> wildcard e w ->
  Labels n = pre ++ Labels e -> pre <> [] -> s_labels s = NumLabels e -> 0 < NumLabels e ->
  canonicalOwner n s = wire w.
Proof.
  intros Hn He Hw E Hpre Hs Hpos. unfold canonicalOwner. rewrite Hs.
  rewrite (NumLabels_labels n Hn), E, (NumLabels_labels e He), zlen_app.
  rewrite (NumLabels_labels e He) in Hpos. pose proof (zlen_pos pre Hpre).
  replace ((0 <? _) && _) with true by (symmetry; apply andb_true_iff; lia).
  destruct (stripLeadingLabels_labels (length pre) n Hn) as [Hc Hl]; [rewrite E, length_app; lia|].
  replace (Z.to_nat (zlen pre + zlen (Labels e) - zlen (Labels e))) with (length pre) by (unfold zlen; lia).
  rewrite E, drop_app_length in Hl. rewrite Hl, (proj2 (FromLabels_star e w He) Hw).
  apply AppendWire_valid, canonical_valid, Hw.
Qed.

Lemma rewriteOwners_at set w n c t rds : rrset_at set w c t rds -> rrset_at (zoneIndex.rewriteOwners set n) n c t rds.
Proof.
  intros [Hr Ht Hne]. split; [|done..]. clear Ht Hne.
  induction Hr as [|r rd set rds (_ & Hc & E) _ IH]; constructor; auto.
Qed.

(** Wildcards (RFC 4034 section 3.1.3, RFC 4035 section 5.3.2): the
    records the authoritative server synthesises for a name below the closest
    encloser have the same signed data as the wildcard's own RRset, so the
    wildcard's signature, whose Labels field counts the labels of the
    encloser, verifies on the synthesised answer. *)
Theorem signed_data_wildcard set n e w pre c t rds s :
  canonical n -> canonical e -> wildcard e w -> Labels n = pre ++ Labels e -> pre <> [] ->
  s_labels s = NumLabels e -> 0 < NumLabels e -> rrset_at set w c t rds ->
  signedData (zoneIndex.rewriteOwners set n) s = signedData set s.
Proof.
  intros Hn He Hw E Hpre Hs Hpos H.
  rewrite (signedData_at _ _ _ _ _ _ (rewriteOwners_at _ _ n _ _ _ H)), (signedData_at _ _ _ _ _ _ H).
  rewrite (canonicalOwner_wildcard n e w pre) by done.
  by rewrite (canonicalOwner_wildcard w e w [zoneIndex.star]) by (done || apply Hw).
Qed.

(** *** Samples *)
Module SigSample.
Definition example : bytes := [101; 120; 97; 109; 112; 108; 101].
Definition zone : Name := nm [example].
Definition star : Name := nm [[42]; example].
Definition host : Name := nm [[97]; [98]; example].
Definition a1 : RData := RD_A (Addr4 [192; 0; 2; 1]).
Definition a2 : RData := RD_A (Addr4 [192; 0; 2; 2]).
Definition set (n : Name) (ttl : Z) (rds : list RData) : list Record_ := map (NewRecord n (ttl * Second)) rds.
Definition sig (labels : Z) : RRSIG := mkRRSIG rrtype.A AlgED25519 labels 3600 2000000 1000000 4711 zone [1; 2; 3].

Lemma set_at n ttl rds : rds <> [] -> Forall (fun rd => Type_ rd = rrtype.A) rds ->
  rrset_at (set n ttl rds) n rrtype.ClassIN rrtype.A rds.
Proof.
  intros Hne Ht. split; [|done..]. clear. unfold set. by induction rds; constructor.
Qed.
End SigSample.

Lemma signed_data_set_only_witness :
  signedData (SigSample.set SigSample.zone 60 [SigSample.a1; SigSample.a2]) (SigSample.sig 1)
  = signedData (SigSample.set SigSample.zone 7 [SigSample.a2; SigSample.a1]) (SigSample.sig 1).
Proof.
  eapply signed_data_set_only; [apply SigSample.set_at; [done|decide_now]..|]. apply Permutation_swap.
Defined.

Lemma signed_data_wildcard_witness :
  signedData (zoneIndex.rewriteOwners (SigSample.set SigSample.star 60 [SigSample.a1]) SigSample.host) (SigSample.sig 1)
  = signedData (SigSample.set SigSample.star 60 [SigSample.a1]) (SigSample.sig 1).
Proof.
  eapply (signed_data_wildcard _ SigSample.host SigSample.zone SigSample.star [[97]; [98]]).
  - apply labels_okb_canonical. reflexivity.
  - apply labels_okb_canonical. reflexivity.
  - split; [apply labels_okb_canonical|]; reflexivity.
  - reflexivity.
  - discriminate.
  - reflexivity.
  - reflexivity.
  - apply SigSample.set_at; [discriminate|decide_now].
Defined.

(** A wildcard at the root, whose signatures have Labels 0, is not
    reconstructed: the signed data of an answer synthesised from [*.] is not
    that of the wildcard's RRset, so its signature cannot verify. *)
Theorem signed_data_root_wildcard :
  let star := nm [[42]] in let n := nm [[97]] in
  wildcard Root star /\ s_labels (SigSample.sig 0) = NumLabels Root /\ Labels n = [[97]] ++ Labels Root /\
  signedData (zoneIndex.rewriteOwners (SigSample.set star 60 [SigSample.a1]) n) (SigSample.sig 0)
  <> signedData (SigSample.set star 60 [SigSample.a1]) (SigSample.sig 0).
Proof.
  split_and!; [split; [apply labels_okb_canonical|]; reflexivity|reflexivity|reflexivity|vm_compute; congruence].
Qed.

(** ** What a signature binds *)
Lemma encName_app_inj ls ks x y : Forall label_ok ls -> Forall label_ok ks ->
  encName ls ++ x = encName ks ++ y -> ls = ks /\ x = y.
Proof.
  intros Hl. revert ks. induction Hl as [|l ls Hl _ IH]; intros ks Hk E.
  - destruct Hk as [|k ks [Hk _] _]; [by injection E|]. rewrite encName_cons in E. injection E as E _. lia.
  - destruct Hk as [|k ks Hk Hks]; [destruct Hl; rewrite encName_cons in E; injection E as E _; lia|].
    rewrite !encName_cons, <- !app_assoc in E. injection E as E1 E.
    apply app_inj_1 in E as [-> E]; [|unfold zlen in E1; lia]. by destruct (IH ks Hks E) as [-> ->].
Qed.

Lemma be16_inj v v' x y : u16 v -> u16 v' -> be16 v ++ x = be16 v' ++ y -> v = v' /\ x = y.
Proof.
  intros H H' E. injection E as E1 E2 ->. split; [|done].
  by rewrite <- (get16_be16 v H), <- (get16_be16 v' H'), E1, E2.
Qed.
Lemma be32_inj v v' x y : u32 v -> u32 v' -> be32 v ++ x = be32 v' ++ y -> v = v' /\ x = y.
Proof.
  intros H H' E. injection E as E1 E2 E3 E4 ->. split; [|done].
  by rewrite <- (get32_be32 v H), <- (get32_be32 v' H'), E1, E2, E3, E4.
Qed.

Lemma canonicalRR_inj o o' t t' c c' ttl ttl' rd rd' x y :
  Forall label_ok o -> Forall label_ok o' -> u16 t -> u16 t' -> u16 c -> u16 c' -> u32 ttl -> u32 ttl' ->
  zlen rd <= 65535 -> zlen rd' <= 65535 ->
  canonicalRR (encName o) t c ttl rd ++ x = canonicalRR (encName o') t' c' ttl' rd' ++ y ->
  o = o' /\ t = t' /\ c = c' /\ ttl = ttl' /\ rd = rd' /\ x = y.
Proof.
  intros Ho Ho' Ht Ht' Hc Hc' Hl Hl' Hr Hr' E. unfold canonicalRR in E. rewrite <- !app_assoc in E.
  apply encName_app_inj in E as [-> E]; [|done..].
  apply be16_inj in E as [-> E]; [|done..]. apply be16_inj in E as [-> E]; [|done..].
  apply be32_inj in E as [-> E]; [|done..].
  pose proof (zlen_nonneg rd). pose proof (zlen_nonneg rd').
  apply be16_inj in E as [E1 E]; [|unfold u16, to_u16; elia..].
  rewrite !to_u16_id in E1 by (unfold u16; lia).
  apply app_inj_1 in E as [-> ->]; [done|unfold zlen in E1; lia].
Qed.

Lemma canonicalRR_list_inj o t c ttl l k :
  Forall label_ok o -> u16 t -> u16 c -> u32 ttl ->
  Forall (fun rd => zlen rd <= 65535) l -> Forall (fun rd => zlen rd <= 65535) k ->
  concat (map (canonicalRR (encName o) t c ttl) l) = concat (map (canonicalRR (encName o) t c ttl) k) -> l = k.
Proof.
  intros Ho Ht Hc Hl H. assert (forall rd x, canonicalRR (encName o) t c ttl rd ++ x <> []) as Hne.
  { intros rd x E. unfold canonicalRR, encName in E. rewrite <- !app_assoc in E.
    apply (f_equal length) in E. rewrite !length_app in E. cbn in E. lia. }
  revert k. induction H as [|rd l Hrd _ IH]; intros k Hk E.
  - destruct Hk; [done|]. cbn in E. by destruct (Hne _ _ (eq_sym E)).
  - destruct Hk as [|rd' k Hrd' Hk]; [by destruct (Hne _ _ E)|].
    cbn [map concat] in E. apply canonicalRR_inj in E as (_ & _ & _ & _ & -> & E); [|done..].
    f_equal. auto.
Qed.

Lemma stripLeadingLabels_canonical k n : canonical n -> canonical (stripLeadingLabels n k).
Proof.
  revert n. induction k as [|k IH]; intros n Hn; [done|]. cbn [stripLeadingLabels].
  destruct (Parent n) as [p|] eqn:E; [|done]. apply IH. by eapply canonical_up.
Qed.

Lemma canonicalOwner_enc n s : canonical n -> exists o, Forall label_ok o /\ canonicalOwner n s = encName o.
Proof.
  intros Hn. assert (exists o, Forall label_ok o /\ AppendWire n [] = encName o) as H.
  { destruct Hn as (ls & Hw & _). exists ls. split; [apply Hw|by apply AppendWire_wf]. }
  unfold canonicalOwner. destruct (_ && _); [|done]. destruct (FromLabels _) as [star|] eqn:E; [|done].
  apply FromLabels_spec in E as (Hok & Hl & ->).
  2: { constructor; [repeat constructor; unfold u8; lia|]. by apply canonical_labels, stripLeadingLabels_canonical. }
  exists (foldLabels ([42] :: Labels (stripLeadingLabels n
    (Z.to_nat (NumLabels n - s_labels s))))). split; [by apply labels_ok_fold|].
  unfold AppendWire, IsValid. cbn [wire]. rewrite zlen_encName.
  pose proof (zlen_nonneg (encLabels (foldLabels ([42] :: Labels (stripLeadingLabels n (Z.to_nat (NumLabels n - s_labels s))))))).
  by replace (0 <? _) with true by (symmetry; apply Z.ltb_lt; lia).
Qed.

Definition sig_ok (s : RRSIG) : Prop :=
  u16 (s_typeCovered s) /\ u8 (s_algorithm s) /\ u8 (s_labels s) /\ u32 (s_origTTL s) /\ u32 (s_sigExp s) /\
  u32 (s_sigInc s) /\ u16 (s_keyTag s) /\ canonical (s_signerName s).

(** The signature record without the signature. *)
Definition signedFields (s : RRSIG) : RRSIG :=
  mkRRSIG (s_typeCovered s) (s_algorithm s) (s_labels s) (s_origTTL s) (s_sigExp s) (s_sigInc s)
    (s_keyTag s) (s_signerName s) [].

Lemma rrsigSignedHeader_inj s s' x y : sig_ok s -> sig_ok s' ->
  rrsigSignedHeader s ++ x = rrsigSignedHeader s' ++ y -> signedFields s = signedFields s' /\ x = y.
Proof.
  intros (H1 & H2 & H3 & H4 & H5 & H6 & H7 & ls & Hw & _) (K1 & K2 & K3 & K4 & K5 & K6 & K7 & ks & Kw & _) E.
  unfold rrsigSignedHeader in E. rewrite (AppendWire_wf _ _ Hw), (AppendWire_wf _ _ Kw), <- !app_assoc in E.
  apply be16_inj in E as [E1 E]; [|done..]. apply app_inj_1 in E as [E2 E]; [|done]. injection E2 as E2 E3.
  apply be32_inj in E as [E4 E]; [|done..]. apply be32_inj in E as [E5 E]; [|done..].
  apply be32_inj in E as [E6 E]; [|done..]. apply be16_inj in E as [E7 E]; [|done..].
  apply encName_app_inj in E as [E8 ->]; [|apply Hw|apply Kw]. split; [|done]. unfold signedFields.
  assert (s_signerName s = s_signerName s') as -> by (apply Name_ext; destruct Hw as [-> _], Kw as [-> _]; congruence).
  congruence.
Qed.

(** A payload with a canonical form that fits in a record. *)
Definition canonicalizable (rd : RData) : Prop :=
  rd_okP canonical rd /\ match rd with RD_RP _ _ => False | _ => True end /\ zlen (canonicalRData rd) <= 65535.

Lemma canonicalRData_inj rd rd' : canonicalizable rd -> canonicalizable rd' -> Type_ rd = Type_ rd' ->
  canonicalRData rd = canonicalRData rd' -> rd = rd'.
Proof.
  intros (H & Hr & _) (H' & Hr' & _) Et E.
  destruct (rcodec_canonical rd H Hr) as [_ D], (rcodec_canonical rd' H' Hr') as [_ D'].
  assert (packer_ok (Packer.NewPacker [])) as Hp by apply packer_ok_new.
  destruct (D _ Hp) as [_ D1], (D' _ Hp) as [_ D2]. specialize (D1 [] (Forall_nil_2 _)). specialize (D2 [] (Forall_nil_2 _)).
  rewrite Et, E, D2 in D1. congruence.
Qed.

Lemma perm_map_inj {A B} (f : A -> B) l k :
  (forall x y, x ∈ l -> y ∈ k -> f x = f y -> x = y) -> map f l ≡ₚ map f k -> l ≡ₚ k.
Proof.
  revert k. induction l as [|x l IH]; intros k Hf Hp; [by destruct k; [|apply Permutation_nil_l in Hp]|].
  assert (f x ∈ map f k) as Hin by (rewrite <- Hp; left). apply list_elem_of_fmap in Hin as (y & E & Hy).
  assert (x = y) as <- by (apply Hf; [left|done..]).
  apply elem_of_Permutation in Hy as [k' Hk]. rewrite Hk. constructor. apply IH.
  - intros a b Ha Hb. apply Hf; [by right|]. rewrite Hk. by right.
  - rewrite Hk in Hp. cbn in Hp. by apply Permutation_cons_inv in Hp.
Qed.

Lemma Ok_inj {A} (x y : A) : Ok x = Ok y -> x = y.
Proof. by intros [= ->]. Qed.

(** C11. A signature binds the RRset: if two RRsets under two RRSIG headers
    have the same signed data, then the headers agree in every field (type
    covered, algorithm, labels, original TTL, validity period, key tag,
    signer), the RRsets agree in owner (as reconstructed from the labels
    field), type and class, and they consist of the same payloads.  Nothing
    outside the signature can be moved from one signed RRset to another. *)
Theorem signed_data_binds set set' n n' c c' t t' rds rds' s s' d :
  sig_ok s -> sig_ok s' -> canonical n -> canonical n' -> u16 c -> u16 c' -> u16 t -> u16 t' ->
  rrset_at set n c t rds -> rrset_at set' n' c' t' rds' ->
  Forall canonicalizable rds -> Forall canonicalizable rds' ->
  signedData set s = Ok d -> signedData set' s' = Ok d ->
  signedFields s = signedFields s' /\ canonicalOwner n s = canonicalOwner n' s' /\
  (NumLabels n <= s_labels s -> NumLabels n' <= s_labels s' -> n = n') /\ t = t' /\ c = c' /\ rds ≡ₚ rds'.
Proof.
  intros Hs Hs' Hn Hn' Hc Hc' Ht Ht' HR HR' Hrds Hrds' E E'.
  rewrite (signedData_at _ _ _ _ _ _ HR) in E. rewrite (signedData_at _ _ _ _ _ _ HR') in E'.
  rewrite <- E' in E. apply Ok_inj in E. apply rrsigSignedHeader_inj in E as [Ef E]; [|done..].
  destruct (canonicalOwner_enc n s Hn) as (o & Ho & Eo), (canonicalOwner_enc n' s' Hn') as (o' & Ho' & Eo').
  assert (forall l, Forall canonicalizable l -> Forall (fun rd => zlen rd <= 65535) (sortCanonical (map canonicalRData l))) as Hlen.
  { intros l Hl. rewrite sortCanonical_perm. apply Forall_map. eapply Forall_impl; [exact Hl|]. by intros ? (_ & _ & ?). }
  assert (forall l : list RData, l <> [] -> exists x r, sortCanonical (map canonicalRData l) = x :: r) as Hne.
  { intros l Hl. destruct (sortCanonical _) eqn:Es; [|eauto]. pose proof (sortCanonical_perm (map canonicalRData l)) as Hp.
    rewrite Es in Hp. apply Permutation_nil_l in Hp. by destruct l. }
  assert (o = o' /\ t = t' /\ c = c' /\ s_origTTL s = s_origTTL s') as (<- & <- & <- & Ettl).
  { destruct (Hne rds) as (x & r & Ex); [apply HR|]. destruct (Hne rds') as (x' & r' & Ex'); [apply HR'|].
    pose proof (Hlen rds Hrds) as L. pose proof (Hlen rds' Hrds') as L'. rewrite Ex in L. rewrite Ex' in L'.
    apply Forall_cons in L as [L _], L' as [L' _].
    unfold canonicalStream in E. rewrite Eo, Eo', Ex, Ex' in E. cbn [map concat] in E.
    apply canonicalRR_inj in E; [tauto|first [done|apply Hs|apply Hs'] ..]. }
  split_and!; [done|congruence| |done|done|].
  - intros L L'. rewrite Eo' in *. unfold canonicalOwner in Eo, Eo'.
    replace ((0 <? s_labels s) && _) with false in Eo by (symmetry; apply andb_false_iff; lia).
    replace ((0 <? s_labels s') && _) with false in Eo' by (symmetry; apply andb_false_iff; lia).
    apply Name_ext. rewrite <- (AppendWire_valid n), <- (AppendWire_valid n') by by apply canonical_valid. congruence.
  - unfold canonicalStream in E. rewrite Eo, Eo', Ettl in E.
    apply canonicalRR_list_inj in E; [|first [done|apply Hs'|by apply Hlen] ..].
    apply (perm_map_inj canonicalRData).
    + intros x y Hx Hy. destruct HR as [_ T _], HR' as [_ T' _]. rewrite Forall_forall in T, T', Hrds, Hrds'.
      apply canonicalRData_inj; auto. rewrite T, T'; auto.
    + by rewrite <- (sortCanonical_perm (map canonicalRData rds)), E, sortCanonical_perm.
Qed.

Lemma signed_data_binds_witness :
  [SigSample.a1; SigSample.a2] ≡ₚ [SigSample.a2; SigSample.a1].
Proof.
  assert (canonical SigSample.zone) as Hz by (apply labels_okb_canonical; reflexivity).
  assert (sig_ok (SigSample.sig 1)) as Hs by (repeat split; try decide_now; exact Hz).
  assert (forall l, Forall (fun rd => rd = SigSample.a1 \/ rd = SigSample.a2) l -> Forall canonicalizable l) as Hc.
  { intros l Hl. eapply Forall_impl; [exact Hl|]. cbn. intros rd [-> | ->]; (split; [|split; [exact I|vm_compute; discriminate]]);
      eexists; split_and!; try reflexivity; decide_now. }
  eapply (signed_data_binds
    (SigSample.set SigSample.zone 60 [SigSample.a1; SigSample.a2]) (SigSample.set SigSample.zone 7 [SigSample.a2; SigSample.a1])
    SigSample.zone SigSample.zone rrtype.ClassIN rrtype.ClassIN rrtype.A rrtype.A _ _ (SigSample.sig 1) (SigSample.sig 1)
    (match signedData (SigSample.set SigSample.zone 60 [SigSample.a1; SigSample.a2]) (SigSample.sig 1) with Ok d => d | Err _ => [] end));
    try exact Hz; try exact Hs; try decide_now.
  - apply SigSample.set_at; [discriminate|decide_now].
  - apply SigSample.set_at; [discriminate|decide_now].
  - apply Hc. decide_now.
  - apply Hc. decide_now.
Defined.

(** ** Acceptance *)

(** The RFC 3110 encoding of an RSA key: the length of the exponent in one
    byte, or in two after a zero byte, the exponent, the modulus. *)
Definition rsa_encoding (b e m : bytes) : Prop :=
  (b = zlen e :: e ++ m /\ 1 <= zlen e) \/ b = 0 :: be16 (zlen e) ++ e ++ m.

(** The keys that are accepted: a modulus of 128 to 520 bytes and an odd
    exponent, at least 3, of at most 8 bytes. *)
Definition rsa_key (b : bytes) (N E : Z) : Prop :=
  exists e m, rsa_encoding b e m /\ 1 <= zlen e <= 8 /\ 128 <= zlen m <= 520 /\
    dnssecbb.SetBytes m = N /\ dnssecbb.SetBytes e = E /\ 3 <= E < 2 ^ 63 /\ Z.odd E = true.

Lemma SetBytes_snoc b x : dnssecbb.SetBytes (b ++ [x]) = dnssecbb.SetBytes b * 256 + x.
Proof. unfold dnssecbb.SetBytes. by rewrite fold_left_app. Qed.
Lemma SetBytes_nonneg b : is_bytes b -> 0 <= dnssecbb.SetBytes b.
Proof.
  induction b as [|x b IH] using rev_ind; intros H; [done|]. rewrite SetBytes_snoc. apply Forall_app in H as [H1 H2].
  inversion H2 as [|? ? Hx]; subst. unfold u8 in Hx. specialize (IH H1). lia.
Qed.

Lemma rsaExplen_spec b explen off : is_bytes b -> dnssecbb.rsaExplen b = Ok (explen, off) <->
  exists hdr rest, b = hdr ++ rest /\ zlen hdr = off /\
    ((hdr = [explen] /\ explen <> 0) \/ (hdr = 0 :: be16 explen /\ u16 explen)).
Proof.
  intros Hb. unfold dnssecbb.rsaExplen. split.
  - destruct b as [|b0 b]; [done|]. destruct (_ <? 1); [done|].
    destruct (zget (b0 :: b) 0 =? 0) eqn:E0; bool_facts; cbn in E0.
    + assert (b0 = 0) as -> by exact E0. destruct (_ <? 3) eqn:E3; [done|]. bool_facts. destruct b as [|b1 [|b2 b]]; try (exfalso; llia).
      intros [= <- <-]. cbn. inversion Hb as [|? ? _ Hb']; subst. inversion Hb' as [|? ? H1 Hb'']; subst.
      inversion Hb'' as [|? ? H2 _]; subst.
      exists [0; b1; b2], b. split_and!; [done|done|]. right. split; [|by apply get16_range].
      change (zget _ 1) with b1. change (zget _ 2) with b2. rewrite get16_add by done. unfold be16, to_u8, u8 in *. rewrite Z.shiftr_div_pow2 by lia. change (2 ^ 8) with 256.
      replace ((b1 * 256 + b2) / 256 mod 256) with b1 by elia. by replace ((b1 * 256 + b2) mod 256) with b2 by elia.
    + intros [= <- <-]. exists [b0], b. split_and!; [done|done|]. by left.
  - intros (hdr & rest & -> & <- & [[-> Hne]|[-> Hu]]).
    + replace (zlen ([explen] ++ rest) <? 1) with false by (symmetry; apply Z.ltb_ge; llia).
      change (zget ([explen] ++ rest) 0) with explen. by replace (explen =? 0) with false by (symmetry; by apply Z.eqb_neq).
    + replace (zlen ((0 :: be16 explen) ++ rest) <? 1) with false by (symmetry; apply Z.ltb_ge; llia).
      change (zget ((0 :: be16 explen) ++ rest) 0) with 0. cbn [Z.eqb].
      replace (zlen ((0 :: be16 explen) ++ rest) <? 3) with false by (symmetry; apply Z.ltb_ge; llia).
      change (zget ((0 :: be16 explen) ++ rest) 1) with (to_u8 (Z.shiftr explen 8)).
      change (zget ((0 :: be16 explen) ++ rest) 2) with (to_u8 explen). by rewrite get16_be16.
Qed.

Lemma rsa_split (hdr rest : bytes) explen : 0 <= explen <= zlen rest ->
  let b := hdr ++ rest in let k := Z.to_nat explen in
  drop (Z.to_nat (zlen hdr + explen)) b = drop k rest /\ zslice b (zlen hdr) (zlen hdr + explen) = take k rest.
Proof.
  intros H b k. subst b k. unfold zslice. pose proof (zlen_nonneg hdr). split.
  - rewrite Z2Nat.inj_add by lia. unfold zlen at 1. rewrite Nat2Z.id, drop_app_add by done. done.
  - replace (zlen hdr + explen - zlen hdr) with explen by lia. unfold zlen. by rewrite Nat2Z.id, drop_app_length.
Qed.

Lemma rem_odd e : 0 <= e -> (Z.rem e 2 =? 0) = negb (Z.odd e).
Proof. intros H. rewrite Z.rem_mod_nonneg by lia. rewrite Zmod_odd. by destruct (Z.odd e). Qed.

(** What is left of [ParseRSAPublic] once the exponent length is known. *)
Lemma ParseRSAPublic_split hdr e m : is_bytes (hdr ++ e ++ m) -> dnssecbb.rsaExplen (hdr ++ e ++ m) = Ok (zlen e, zlen hdr) ->
  dnssecbb.ParseRSAPublic (hdr ++ e ++ m) =
    if (1 <=? zlen e) && (zlen e <=? 8) && (128 <=? zlen m) && (zlen m <=? 520) &&
       (3 <=? dnssecbb.SetBytes e) && (dnssecbb.SetBytes e <? 2 ^ 63) && Z.odd (dnssecbb.SetBytes e)
    then Ok (dnssecbb.SetBytes m, dnssecbb.SetBytes e) else Err ErrPlain.
Proof.
  intros Hb El. unfold dnssecbb.ParseRSAPublic. rewrite El. cbn [res_bind].
  unfold dnssecbb.MaxRSAExponentBytes, dnssecbb.MaxRSAModulusBytes, dnssecbb.MinRSAModulusBytes.
  pose proof (zlen_nonneg e). pose proof (zlen_nonneg m).
  destruct (rsa_split hdr (e ++ m) (zlen e)) as [-> ->]; [llia|].
  rewrite drop_label, take_label, !zlen_app.
  assert (0 <= dnssecbb.SetBytes e) by (apply SetBytes_nonneg; apply Forall_app in Hb as [_ Hb]; by apply Forall_app in Hb as [? _]).
  rewrite rem_odd by done. destruct (Z.odd (dnssecbb.SetBytes e)); cbn [negb];
    rewrite ?andb_true_r, ?andb_false_r; repeat (case_match; bool_facts); try done; try (exfalso; lia); try (f_equal; lia).
  all: rewrite ?andb_true_iff, ?andb_false_iff in *; bool_facts; try lia.
Qed.

Lemma ParseRSAPublic_spec b N E : is_bytes b -> dnssecbb.ParseRSAPublic b = Ok (N, E) <-> rsa_key b N E.
Proof.
  intros Hb. assert (forall hdr e m, b = hdr ++ e ++ m -> dnssecbb.rsaExplen b = Ok (zlen e, zlen hdr) ->
    dnssecbb.ParseRSAPublic b = Ok (N, E) <-> 1 <= zlen e <= 8 /\ 128 <= zlen m <= 520 /\
      dnssecbb.SetBytes m = N /\ dnssecbb.SetBytes e = E /\ 3 <= E < 2 ^ 63 /\ Z.odd E = true) as Hsplit.
  { intros hdr e m Eb El. rewrite Eb in *. rewrite ParseRSAPublic_split by done. split.
    - destruct (_ && _) eqn:C; [|done]. rewrite !andb_true_iff in C. bool_facts. intros [= <- <-]. intuition lia.
    - intros (? & ? & <- & <- & ? & Ho). rewrite Ho.
      by replace (_ && _) with true by (symmetry; rewrite !andb_true_iff; split_and!; lia). }
  unfold rsa_key, rsa_encoding. split.
  - intros H. destruct (dnssecbb.rsaExplen b) as [[explen off]|] eqn:El; [|by unfold dnssecbb.ParseRSAPublic in H; rewrite El in H].
    pose proof El as El0. apply rsaExplen_spec in El as (hdr & rest & E0 & <- & Hh); [|done].
    assert (0 < explen <= zlen rest) as Hl.
    { unfold dnssecbb.ParseRSAPublic in H. rewrite El0 in H. cbn [res_bind] in H. rewrite E0, zlen_app in H.
      destruct (explen <=? 0) eqn:?; [done|]. destruct (_ <? explen); [done|]. destruct (_ <? _) eqn:?; [done|]. bool_facts. lia. }
    set (e := take (Z.to_nat explen) rest). set (m := drop (Z.to_nat explen) rest).
    assert (zlen e = explen) as Ee by (unfold zlen, e in *; rewrite length_take; lia).
    assert (rest = e ++ m) as Er by (symmetry; apply take_drop).
    exists e, m. split; [|apply (Hsplit hdr e m); [by rewrite <- Er|by rewrite Ee|done]].
    rewrite E0, Er, Ee. destruct Hh as [[-> _]|[-> _]]; [left; split; [done|lia]|by right].
  - intros (e & m & Henc & H). pose proof H as (Hl & _).
    destruct Henc as [[E0 _]|E0].
    + apply (Hsplit [zlen e] e m); [done| |done]. apply rsaExplen_spec; [done|]. exists [zlen e], (e ++ m).
      split_and!; [done|done|]. left. split; [done|lia].
    + apply (Hsplit (0 :: be16 (zlen e)) e m); [done| |done]. apply rsaExplen_spec; [done|].
      exists (0 :: be16 (zlen e)), (e ++ m). split_and!; [done|done|]. right. split; [done|unfold u16; lia].
Qed.

Section acceptance.
Context `{Crypto}.

(** The signature schemes that are accepted, with the sizes they require. *)
Inductive crypto_accepts (pub data sig : bytes) : Z -> Prop :=
  | accepts_rsa256 N E : rsa_key pub N E -> rsaVerifyPKCS1v15 (N, E) (sha256 data) sig = true ->
      crypto_accepts pub data sig AlgRSASHA256
  | accepts_rsa512 N E : rsa_key pub N E -> rsaVerifyPKCS1v15 (N, E) (sha512 data) sig = true ->
      crypto_accepts pub data sig AlgRSASHA512
  | accepts_p256 x y r s : pub = x ++ y -> sig = r ++ s -> Forall (fun b => zlen b = 32) [x; y; r; s] ->
      ecdsaVerify P256 (dnssecbb.SetBytes x, dnssecbb.SetBytes y) (sha256 data)
        (dnssecbb.SetBytes r, dnssecbb.SetBytes s) = true -> crypto_accepts pub data sig AlgECDSAP256SHA256
  | accepts_p384 x y r s : pub = x ++ y -> sig = r ++ s -> Forall (fun b => zlen b = 48) [x; y; r; s] ->
      ecdsaVerify P384 (dnssecbb.SetBytes x, dnssecbb.SetBytes y) (sha384 data)
        (dnssecbb.SetBytes r, dnssecbb.SetBytes s) = true -> crypto_accepts pub data sig AlgECDSAP384SHA384
  | accepts_ed25519 : zlen pub = 32 -> ed25519Verify pub data sig = true -> crypto_accepts pub data sig AlgED25519.

Lemma split_half (b : bytes) k : 0 <= k -> zlen b = 2 * k ->
  exists x y, b = x ++ y /\ zlen x = k /\ zlen y = k /\ take (Z.to_nat k) b = x /\ drop (Z.to_nat k) b = y.
Proof.
  intros Hk E. exists (take (Z.to_nat k) b), (drop (Z.to_nat k) b). rewrite take_drop.
  unfold zlen in *. rewrite length_take, length_drop. split_and!; try done; lia.
Qed.

Lemma VerifyECDSA_spec curve k h data pub sig : 0 <= k ->
  dnssecbb.VerifyECDSA curve k h data pub sig = Ok tt <->
  exists x y r s, pub = x ++ y /\ sig = r ++ s /\ Forall (fun b => zlen b = k) [x; y; r; s] /\
    ecdsaVerify curve (dnssecbb.SetBytes x, dnssecbb.SetBytes y) (h data) (dnssecbb.SetBytes r, dnssecbb.SetBytes s) = true.
Proof.
  intros Hk. unfold dnssecbb.VerifyECDSA. split.
  - destruct (zlen pub =? _) eqn:E1, (zlen sig =? _) eqn:E2; try done. bool_facts. cbn [negb].
    destruct (split_half pub k Hk E1) as (x & y & -> & Hx & Hy & -> & ->).
    destruct (split_half sig k Hk E2) as (r & s & -> & Hr & Hs & -> & ->).
    destruct (ecdsaVerify _ _ _ _) eqn:E; [|done]. intros _. exists x, y, r, s. by repeat constructor.
  - intros (x & y & r & s & -> & -> & Hl & E).
    inversion Hl as [|? ? Hx Hl1]; inversion Hl1 as [|? ? Hy Hl2]; inversion Hl2 as [|? ? Hr Hl3]; inversion Hl3 as [|? ? Hs _]; subst.
    rewrite !zlen_app, Hy, Hr, Hs. replace (zlen x + zlen x =? _) with true by (symmetry; apply Z.eqb_eq; lia). cbn [negb].
    rewrite drop_label, take_label. rewrite <- Hr at 1 2. by rewrite drop_label, take_label, E.
Qed.

Lemma verifyWith_spec alg pub data sig : is_bytes pub ->
  verifyWith alg pub data sig = Ok tt <-> crypto_accepts pub data sig alg.
Proof.
  intros Hb. unfold verifyWith. split.
  - destruct ((alg =? AlgRSASHA256) || _) eqn:Er.
    { destruct (dnssecbb.ParseRSAPublic pub) as [[N E]|] eqn:Ep; [|done]. cbn [res_bind].
      apply ParseRSAPublic_spec in Ep; [|done]. unfold dnssecbb.VerifyRSA.
      destruct (alg =? AlgRSASHA256) eqn:E1; bool_facts; subst.
      - destruct (rsaVerifyPKCS1v15 _ _ _) eqn:Ev; [|done]. intros _. by eapply accepts_rsa256.
      - cbn in Er. rewrite Er. bool_facts. subst. destruct (rsaVerifyPKCS1v15 _ _ _) eqn:Ev; [|done]. intros _. by eapply accepts_rsa512. }
    destruct (alg =? AlgECDSAP256SHA256) eqn:E1; bool_facts; subst.
    { intros Hv. apply VerifyECDSA_spec in Hv as (x & y & r & s & ? & ? & ? & ?); [|done]. by eapply accepts_p256. }
    destruct (alg =? AlgECDSAP384SHA384) eqn:E2; bool_facts; subst.
    { intros Hv. apply VerifyECDSA_spec in Hv as (x & y & r & s & ? & ? & ? & ?); [|done]. by eapply accepts_p384. }
    destruct (alg =? AlgED25519) eqn:E3; bool_facts; subst; [|done].
    unfold dnssecbb.VerifyEd25519. destruct (zlen pub =? 32) eqn:E4; [|done]. bool_facts.
    destruct (ed25519Verify _ _ _) eqn:Ev; [|done]. intros _. by apply accepts_ed25519.
  - intros [N E Hk Hv|N E Hk Hv|x y r s Hp Hs Hl Hv|x y r s Hp Hs Hl Hv|Hl Hv].
    + cbn. rewrite (proj2 (ParseRSAPublic_spec pub N E Hb) Hk). cbn. by rewrite Hv.
    + cbn. rewrite (proj2 (ParseRSAPublic_spec pub N E Hb) Hk). cbn. by rewrite Hv.
    + cbn. apply VerifyECDSA_spec; [done|]. by exists x, y, r, s.
    + cbn. apply VerifyECDSA_spec; [done|]. by exists x, y, r, s.
    + cbn. unfold dnssecbb.VerifyEd25519. by rewrite Hl, Hv.
Qed.

(** A key that may authenticate: protocol 3, zone bit, not revoked. *)
Definition zone_key (k : DNSKEY) : Prop :=
  k_protocol k = 3 /\ Z.testbit (k_flags k) 8 = true /\ Z.testbit (k_flags k) 7 = false.

Lemma land_pow2 v i : 0 <= i -> (Z.land v (2 ^ i) =? 0) = negb (Z.testbit v i).
Proof.
  intros Hi. destruct (Z.testbit v i) eqn:E; cbn.
  - apply Z.eqb_neq. intros H0. apply (f_equal (fun z => Z.testbit z i)) in H0.
    rewrite Z.land_spec, E, Z.pow2_bits_true, Z.bits_0 in H0 by lia. done.
  - apply Z.eqb_eq. apply Z.bits_inj'. intros j Hj. rewrite Z.land_spec, Z.bits_0.
    destruct (Z.eq_dec i j) as [<-|Hne]; [by rewrite E|]. by rewrite Z.pow2_bits_false, andb_false_r by lia.
Qed.

Lemma validateDNSKEY_spec k : validateDNSKEY k = Ok tt <-> zone_key k.
Proof.
  unfold validateDNSKEY, zone_key. change DNSKEYFlagRevoke with (2 ^ 7). change DNSKEYFlagZone with (2 ^ 8).
  rewrite !land_pow2 by lia. rewrite negb_involutive.
  generalize (Z.testbit (k_flags k) 7) (Z.testbit (k_flags k) 8). intros b7 b8.
  destruct (k_protocol k =? 3) eqn:E; bool_facts; cbn; [|by split; [|intros [? _]]].
  destruct b7, b8; cbn; split; try done; by intros (_ & ? & ?).
Qed.
Lemma validateDNSKEY_cases k : validateDNSKEY k = Ok tt \/ validateDNSKEY k = Err ErrInvalidKey.
Proof. unfold validateDNSKEY. repeat (case_match; auto). Qed.

Lemma accepted_not_rejected pub data sig alg : crypto_accepts pub data sig alg -> IsRejectedAlgorithm alg = false.
Proof. by intros []. Qed.

(** [dnssec.Verify] accepts exactly the valid signatures: the key is an
    unrevoked zone key for protocol 3 with the signature's algorithm and key
    tag, and one of the five supported schemes (RSA with SHA-256 or SHA-512
    and a modulus of 1024 to 4160 bits and an odd exponent of at least 3,
    ECDSA P-256 and P-384 with keys and signatures of the exact size,
    Ed25519) accepts the signature over the RRset's signed data.  Deprecated
    algorithms are never accepted. *)
Theorem verify_accepts_exactly set s k : is_bytes (k_pubkey k) ->
  Verify set s k = Ok tt <->
  zone_key k /\ s_algorithm s = k_algorithm k /\ s_keyTag s = KeyTag k /\
  exists data, signedData set s = Ok data /\ crypto_accepts (k_pubkey k) data (s_signature s) (s_algorithm s).
Proof.
  intros Hb. unfold Verify. rewrite <- validateDNSKEY_spec. split.
  - destruct (validateDNSKEY_cases k) as [E|E]; rewrite E; [|done]. cbn [res_bind].
    destruct (IsRejectedAlgorithm _); [done|]. destruct (s_algorithm s =? _) eqn:E1; [|done].
    destruct (s_keyTag s =? _) eqn:E2; [|done]. cbn [negb]. bool_facts.
    destruct (signedData set s) as [data|]; [|done]. cbn [res_bind]. rewrite verifyWith_spec by done. eauto 10.
  - intros (-> & E1 & E2 & data & -> & Ha). cbn [res_bind]. rewrite (accepted_not_rejected _ _ _ _ Ha).
    rewrite E1, Z.eqb_refl, E2, Z.eqb_refl. cbn. rewrite <- E1. by apply verifyWith_spec.
Qed.

(** [dnssec.VerifyDS] accepts exactly the keys a DS record designates: an
    unrevoked zone key with the record's tag and algorithm whose SHA-256 or
    SHA-384 digest (with the owner's canonical name in front) is the
    record's.  SHA-1 digests are accepted only by [VerifyDSWithSHA1], and the
    digest [DSDigest] computes is the one that is accepted. *)
Theorem verify_ds_accepts_exactly owner ds k :
  (VerifyDS owner ds k = Ok tt <->
   zone_key k /\ ds_digestType ds <> DigestSHA1 /\ ds_keyTag ds = KeyTag k /\ ds_algorithm ds = k_algorithm k /\
   DSDigest owner k (ds_digestType ds) = Ok (ds_digest ds)) /\
  (VerifyDSWithSHA1 owner ds k = Ok tt <->
   zone_key k /\ ds_keyTag ds = KeyTag k /\ ds_algorithm ds = k_algorithm k /\
   DSDigest owner k (ds_digestType ds) = Ok (ds_digest ds)).
Proof.
  assert (forall allow, verifyDS owner ds k allow = Ok tt <->
    zone_key k /\ (allow = false -> ds_digestType ds <> DigestSHA1) /\ ds_keyTag ds = KeyTag k /\ ds_algorithm ds = k_algorithm k /\
    DSDigest owner k (ds_digestType ds) = Ok (ds_digest ds)) as Hall.
  { intros allow. unfold verifyDS. rewrite <- validateDNSKEY_spec. change (DSDigest owner k) with
      (fun dt => dnssecbb.Digest dt (AppendWire owner [] ++ dnskeyWire k)). cbv beta. split.
    - destruct (validateDNSKEY_cases k) as [E|E]; rewrite E; [|done]. cbn [res_bind].
      destruct (negb allow && _) eqn:E0; [done|]. destruct (ds_keyTag ds =? _) eqn:E1; [|done].
      destruct (ds_algorithm ds =? _) eqn:E2; [|done]. cbn [negb]. bool_facts.
      destruct (dnssecbb.Digest _ _) as [sum|]; [|done]. case_bool_decide as Es; [|done]. intros _. subst.
      split_and!; try done. intros ->. cbn in E0. by bool_facts.
    - intros (-> & Ha & -> & -> & ->). cbn [res_bind]. rewrite !Z.eqb_refl. cbn [negb].
      rewrite bool_decide_eq_true_2 by done. destruct allow; [done|]. cbn.
      by replace (ds_digestType ds =? DigestSHA1) with false by (symmetry; apply Z.eqb_neq; auto). }
  split; [rewrite (Hall false)|rewrite (Hall true)]; tauto || intuition congruence.
Qed.
End acceptance.

(** A crypto library for examples: hashing does nothing and the valid
    signature of a message is the message. *)
Definition plainCrypto : Crypto := {|
  sha1 := fun b => b; sha256 := fun b => b; sha384 := fun b => b; sha512 := fun b => b;
  rsaVerifyPKCS1v15 := fun _ h s => bool_decide (h = s);
  ecdsaVerify := fun _ _ h s => dnssecbb.SetBytes h =? fst s;
  ed25519Verify := fun _ m s => bool_decide (m = s) |}.

(** A key and the signature it makes under [plainCrypto]. *)
Module PlainSigner.
Definition key : DNSKEY := mkDNSKEY 257 3 AlgED25519 (repeat 9 32).
Definition unsigned (t labels : Z) (zone : Name) : RRSIG :=
  mkRRSIG t AlgED25519 labels 3600 2000000 1000000 (KeyTag key) zone [].
Definition sign (set : list Record_) (s : RRSIG) : RRSIG :=
  mkRRSIG (s_typeCovered s) (s_algorithm s) (s_labels s) (s_origTTL s) (s_sigExp s) (s_sigInc s) (s_keyTag s)
    (s_signerName s) (match signedData set s with Ok d => d | Err _ => [] end).
End PlainSigner.

Lemma verify_accepts_exactly_witness :
  let set := SigSample.set SigSample.zone 60 [SigSample.a1; SigSample.a2] in
  let s := PlainSigner.sign set (PlainSigner.unsigned rrtype.A 1 SigSample.zone) in
  zone_key PlainSigner.key /\ @Verify plainCrypto set s PlainSigner.key = Ok tt.
Proof.
  cbv zeta. set (set := SigSample.set SigSample.zone 60 [SigSample.a1; SigSample.a2]).
  set (s := PlainSigner.sign set (PlainSigner.unsigned rrtype.A 1 SigSample.zone)).
  assert (@Verify plainCrypto set s PlainSigner.key = Ok tt) as E by (vm_compute; reflexivity).
  split; [|exact E]. eapply (@verify_accepts_exactly plainCrypto set s PlainSigner.key); [decide_now|exact E].
Defined.
