(* ===== verification/Denial.v ===== *)
(** * Denial of existence: packages validatorbb and validator (nsec3.go,
      walker_helpers.go, compact_denial.go)

    The pure helpers of the validator: base32hex, canonical name order,
    covering intervals, validity periods, and the classification of NSEC3
    proofs.  SHA-1 is a field of [Crypto]. *)

From S2P Require Import Prelude Name Wire RData Message Compare RRset Authoritative Dnssec.

(** ** Payload structs *)
Record NSEC := mkNSEC { nsec_next : Name; nsec_types : list Z }.
Record NSEC3 := mkNSEC3 {
  n3_alg : Z; n3_flags : Z; n3_iterations : Z; n3_salt : bytes; n3_next : bytes; n3_types : list Z }.

Definition asNSEC (r : Record_) : option NSEC :=
  match r_rd r with Some (RD_NSEC next types) => Some (mkNSEC next types) | _ => None end.
Definition asNSEC3 (r : Record_) : option NSEC3 :=
  match r_rd r with
  | Some (RD_NSEC3 a f i salt next types) => Some (mkNSEC3 a f i salt next types)
  | _ => None
  end.

Module validatorbb.

(** ** base32.go

    The accumulator is a [uint64]; only its low [bits] bits are read. *)
Definition to_u64 (v : Z) : Z := v mod 18446744073709551616.

(** [base32hexAlphabet[idx]] *)
Definition base32hexAlphabet (idx : Z) : Z := if idx <? 10 then 48 + idx else 55 + idx.

(** The inner loop [for bits >= 5]: at most two turns, as [bits < 13]. *)
Fixpoint encodeBits (fuel : nat) (buf bits : Z) : bytes * Z :=
  match fuel with
  | O => ([], bits)
  | S fuel =>
      if 5 <=? bits then
        let bits := bits - 5 in
        let '(out, rest) := encodeBits fuel buf bits in
        (base32hexAlphabet (Z.land (Z.shiftr buf bits) 0x1f) :: out, rest)
      else ([], bits)
  end.

Fixpoint encode_loop (b : bytes) (buf bits : Z) : bytes :=
  match b with
  | [] => if 0 <? bits then [base32hexAlphabet (Z.land (to_u64 (Z.shiftl buf (5 - bits))) 0x1f)] else []
  | x :: b =>
      let buf := Z.lor (to_u64 (Z.shiftl buf 8)) x in
      let '(out, bits) := encodeBits 3 buf (bits + 8) in
      out ++ encode_loop b buf bits
  end.

Definition Base32HexEncode (b : bytes) : bytes := if zlen b =? 0 then [] else encode_loop b 0 0.

(** The [switch] on one character. *)
Definition base32Value (c : Z) : option Z :=
  if (48 <=? c) && (c <=? 57) then Some (c - 48)
  else if (65 <=? c) && (c <=? 86) then Some (c - 65 + 10)
  else if (97 <=? c) && (c <=? 118) then Some (c - 97 + 10)
  else None.

Fixpoint decode_loop (s : bytes) (buf bits : Z) : res bytes :=
  match s with
  | [] => Ok []
  | c :: s =>
      match base32Value c with
      | None => Err ErrPlain
      | Some v =>
          let buf := Z.lor (to_u64 (Z.shiftl buf 5)) v in
          let bits := bits + 5 in
          if 8 <=? bits then
            let bits := bits - 8 in
            let? rest := decode_loop s buf bits in Ok (Z.land (Z.shiftr buf bits) 0xff :: rest)
          else decode_loop s buf bits
      end
  end.

Definition Base32HexDecode (s : bytes) : res bytes := if zlen s =? 0 then Ok [] else decode_loop s 0 0.

(** ** bytes.go, hex.go *)
Fixpoint BytesLess (a b : bytes) : bool :=
  match a, b with
  | x :: a, y :: b => if negb (x =? y) then x <? y else BytesLess a b
  | _, _ => zlen a <? zlen b
  end.

Definition HexDigit (b : Z) : Z :=
  if (48 <=? b) && (b <=? 57) then b - 48
  else if (97 <=? b) && (b <=? 102) then b - 97 + 10
  else if (65 <=? b) && (b <=? 70) then b - 65 + 10
  else -1.

(** An odd length indexes past the end of the string, which panics too. *)
Fixpoint MustHex (s : bytes) : res bytes :=
  match s with
  | [] => Ok []
  | [_] => Err Panic
  | a :: b :: s =>
      let hi := HexDigit a in
      let lo := HexDigit b in
      if (hi <? 0) || (lo <? 0) then Err Panic
      else let? rest := MustHex s in Ok (to_u8 (Z.lor (Z.shiftl hi 4) lo) :: rest)
  end.

(** ** name.go *)

(** [strings.HasSuffix] and, of the ASCII text [String] returns,
    [strings.ToLower]. *)
Definition HasSuffix (s suffix : bytes) : bool :=
  (zlen suffix <=? zlen s) && bool_decide (drop (length s - length suffix) s = suffix).
Definition ToLower (s : bytes) : bytes := map foldByte s.

Definition NameSuffixEqualOrSubdomain (sub parent : Name) : bool :=
  if Equal sub parent then true
  else
    let subStr := ToLower (String_ sub) in
    let parentStr := ToLower (String_ parent) in
    if bool_decide (parentStr = [46]) then true else HasSuffix subStr (46 :: parentStr).

Definition collectLabels (n : Name) : list bytes := rev (Labels n).

Fixpoint cmpLabels (a b : list bytes) : Z :=
  match a, b with
  | x :: a, y :: b => if negb (cmpBytes x y =? 0) then cmpBytes x y else cmpLabels a b
  | _, _ => zlen a - zlen b
  end.
Definition CanonicalNameCmp (a b : Name) : Z := cmpLabels (collectLabels a) (collectLabels b).

Definition NameCoveredBy (qname owner next : Name) : bool :=
  if CanonicalNameCmp owner next <? 0 then
    (CanonicalNameCmp owner qname <? 0) && (CanonicalNameCmp qname next <? 0)
  else (CanonicalNameCmp owner qname <? 0) || (CanonicalNameCmp qname next <? 0).

(** [for cur.NumLabels() > k { parent, ok := cur.Parent(); ... }]; a parent is
    shorter, so the length of the name bounds the iterations. *)
Fixpoint truncate_loop (fuel : nat) (cur : Name) (k : Z) : Name :=
  match fuel with
  | O => cur
  | S fuel =>
      if k <? NumLabels cur then
        match Parent cur with Some parent => truncate_loop fuel parent k | None => cur end
      else cur
  end.
Definition TruncateNameTo (name : Name) (k : Z) : Name := truncate_loop (length (wire name)) name k.
Definition NextCloserName (qname encloser : Name) : Name :=
  truncate_loop (length (wire qname)) qname (NumLabels encloser + 1).

Definition WildcardOf (encloser : Name) : res Name := FromLabels ([42] :: Labels encloser).

(** The loop over [matched]. *)
Fixpoint commonPrefix (a b : list bytes) : list bytes :=
  match a, b with
  | x :: a, y :: b => if bool_decide (x = y) then x :: commonPrefix a b else []
  | _, _ => []
  end.
Definition LongestCommonAncestor (a b : Name) : Name :=
  match commonPrefix (collectLabels a) (collectLabels b) with
  | [] => Root
  | common => match FromLabels (rev common) with Ok out => out | Err _ => Root end
  end.

(** ** nsec.go *)
Definition HashIntervalContains (owner next x : bytes) : bool :=
  if BytesLess owner next then BytesLess owner x && BytesLess x next
  else BytesLess owner x || BytesLess x next.

(** ** records.go *)
Definition RecordsOfType (records : list Record_) (t : Z) (owner : Name) : list Record_ :=
  List.filter (fun r => (RType r =? t) && Equal (r_name r) owner) records.

Definition SignerOf (records : list Record_) : Name :=
  match List.find (fun r => match asRRSIG r with Some _ => true | None => false end) records with
  | Some r => match asRRSIG r with Some s => s_signerName s | None => zeroName end
  | None => zeroName
  end.

Definition groupStep (st : gmap bytes nat * list (list Record_)) (r : Record_) :
    gmap bytes nat * list (list Record_) :=
  let '(idx, out) := st in
  let k := String_ (r_name r) in
  match idx !! k with
  | None => (<[k := length out]> idx, out ++ [[r]])
  | Some i => (idx, alter (fun g => g ++ [r]) i out)
  end.
Definition GroupRecordsByOwner (records : list Record_) : list (list Record_) :=
  snd (fold_left groupStep records (∅, [])).

Definition FilterNSECByOwner (records : list Record_) (target : Name) : list Record_ :=
  List.filter (fun r => (RType r =? rrtype.NSEC) && Equal (r_name r) target) records.

(** ** rrsig.go

    [int32(a - b) < 0]: the top bit of the 32-bit difference. *)
Definition serialLT (a b : Z) : bool := 2147483648 <=? to_u32 (a - b).

Definition Hour : Z := 3600 * Second.

(** [now] is the Unix time in seconds; [skew] is any duration but the least
    [int64]. *)
Definition RRSIGValidNowWithSkew (sig : RRSIG) (now skew : Z) : bool :=
  let skew := if skew <? 0 then - skew else skew in
  let skew := if 24 * Hour <? skew then 24 * Hour else skew in
  let nowU := to_u32 now in
  let skewU := to_u32 (Z.quot skew Second) in
  if serialLT (to_u32 (nowU + skewU)) (s_sigInc sig) then false
  else if serialLT (s_sigExp sig) (to_u32 (nowU - skewU)) then false
  else true.

End validatorbb.

(** ** walker_helpers.go and compact_denial.go *)
Definition extractRRSIGs (records : list Record_) : list RRSIG := omap asRRSIG records.

Definition rrsigsForTypeAndOwner (sigs : list RRSIG) (t : Z) (owner : Name) : list RRSIG :=
  List.filter (fun s => s_typeCovered s =? t) sigs.

Definition bitmapHas (types : list Z) (t : Z) : bool := existsb (Z.eqb t) types.
Definition allNSEC (records : list Record_) : list Record_ :=
  List.filter (fun r => RType r =? rrtype.NSEC) records.
Definition recordsOfType3 (records : list Record_) : list Record_ :=
  List.filter (fun r => RType r =? rrtype.NSEC3) records.

Definition IsCompactNXDOMAIN (nsec : NSEC) : bool := bitmapHas (nsec_types nsec) rrtype.NXNAME.

(** ** nsec3.go *)
Definition NSEC3HashSHA1 : Z := 1.
Definition NSEC3FlagOptOut : Z := 0x01.
Definition MaxNSEC3Iterations : Z := 50.

Record nsec3Params := mkParams { p_alg : Z; p_iterations : Z; p_salt : bytes }.

Inductive nsec3DenialKind :=
  | nsec3DenialNone | nsec3DenialNoData | nsec3DenialNXDomain
  | nsec3DenialInsecureDelegation | nsec3DenialOptOut | nsec3DenialIterationsExceeded.

#[export] Instance nsec3DenialKind_eq_dec : EqDecision nsec3DenialKind.
Proof. solve_decision. Defined.

(** The kind and the closest encloser (the zero name when not set). *)
Record nsec3DenialResult := mkDenial { kind : nsec3DenialKind; closestEncloser : Name }.

(** [strings.ToUpper] of a label.  The dotless i (bytes c4 b1) and the long s
    (c5 bf) are the two other characters with an ASCII upper case; what
    becomes of further bytes above 7f is not modelled, as base32hex has none. *)
Fixpoint ToUpper (s : bytes) : bytes :=
  match s with
  | 0xc4 :: 0xb1 :: s => 73 :: ToUpper s
  | 0xc5 :: 0xbf :: s => 83 :: ToUpper s
  | c :: s => (if (97 <=? c) && (c <=? 122) then c - 32 else c) :: ToUpper s
  | [] => []
  end.

Definition nsec3OwnerHash (owner : Name) : res bytes :=
  match Labels owner with
  | l :: _ => validatorbb.Base32HexDecode (ToUpper l)
  | [] => Err ErrPlain
  end.

(** [n3.Flags()&NSEC3FlagOptOut != 0] *)
Definition optOut (n3 : NSEC3) : bool := negb (Z.land (n3_flags n3) NSEC3FlagOptOut =? 0).

Section hashing.
Context `{Crypto}.

Definition nsec3Hash (name : Name) (salt : bytes) (iterations : Z) : option bytes :=
  if MaxNSEC3Iterations <? iterations then None
  else Some (Nat.iter (Z.to_nat iterations) (fun h => sha1 (h ++ salt)) (sha1 (AppendWire name [] ++ salt))).

Fixpoint match_loop (want : bytes) (records : list Record_) : option NSEC3 :=
  match records with
  | [] => None
  | r :: records =>
      if negb (RType r =? rrtype.NSEC3) then match_loop want records
      else match nsec3OwnerHash (r_name r) with
           | Err _ => match_loop want records
           | Ok got =>
               if bool_decide (got = want) then
                 match asNSEC3 r with Some n3 => Some n3 | None => match_loop want records end
               else match_loop want records
           end
  end.
Definition nsec3Match (name : Name) (params : nsec3Params) (records : list Record_) : option NSEC3 :=
  match nsec3Hash name (p_salt params) (p_iterations params) with
  | None => None
  | Some want => match_loop want records
  end.

Fixpoint cover_loop (target : bytes) (records : list Record_) : option NSEC3 :=
  match records with
  | [] => None
  | r :: records =>
      if negb (RType r =? rrtype.NSEC3) then cover_loop target records
      else match nsec3OwnerHash (r_name r) with
           | Err _ => cover_loop target records
           | Ok ownerHash =>
               match asNSEC3 r with
               | None => cover_loop target records
               | Some n3 =>
                   if validatorbb.HashIntervalContains ownerHash (n3_next n3) target then Some n3
                   else cover_loop target records
               end
           end
  end.
Definition nsec3Cover (name : Name) (params : nsec3Params) (records : list Record_) : option NSEC3 :=
  match nsec3Hash name (p_salt params) (p_iterations params) with
  | None => None
  | Some target => cover_loop target records
  end.

Fixpoint params_loop (records : list Record_) (params : option nsec3Params) : option nsec3Params :=
  match records with
  | [] => params
  | r :: records =>
      if negb (RType r =? rrtype.NSEC3) then params_loop records params
      else match asNSEC3 r with
           | None => None
           | Some n3 =>
               if negb (n3_alg n3 =? NSEC3HashSHA1) then None
               else
                 match params with
                 | None => params_loop records (Some (mkParams (n3_alg n3) (n3_iterations n3) (n3_salt n3)))
                 | Some p =>
                     if negb (n3_alg n3 =? p_alg p) || negb (n3_iterations n3 =? p_iterations p)
                        || negb (bool_decide (n3_salt n3 = p_salt p))
                     then None else params_loop records params
                 end
           end
  end.
Definition extractNSEC3Params (records : list Record_) : option nsec3Params := params_loop records None.

(** A parent is shorter than its child: the length of the name bounds the
    iterations. *)
Fixpoint encloser_loop (fuel : nat) (cur zone : Name) (params : nsec3Params) (records : list Record_) : option Name :=
  match fuel with
  | O => None
  | S fuel =>
      match Parent cur with
      | None => None
      | Some parent =>
          match nsec3Match parent params records with
          | Some _ => Some parent
          | None =>
              if Equal parent zone then
                match nsec3Match zone params records with Some _ => Some zone | None => None end
              else encloser_loop fuel parent zone params records
          end
      end
  end.
Definition findNSEC3ClosestEncloser (qname zone : Name) (params : nsec3Params) (records : list Record_) : option Name :=
  encloser_loop (S (length (wire qname))) qname zone params records.

(** Step 1 of [nsec3ProveDenial]: the DS branch, when it decides. *)
Definition proveDS (qname : Name) (params : nsec3Params) (records : list Record_) : option nsec3DenialKind :=
  let covered :=
    match nsec3Cover qname params records with
    | Some n3 => if optOut n3 then Some nsec3DenialOptOut else None
    | None => None
    end in
  match nsec3Match qname params records with
  | Some n3 =>
      let hasNS := bitmapHas (n3_types n3) rrtype.NS in
      let hasDS := bitmapHas (n3_types n3) rrtype.DS in
      let hasSOA := bitmapHas (n3_types n3) rrtype.SOA in
      if hasNS && negb hasDS && negb hasSOA then Some nsec3DenialInsecureDelegation
      else if negb hasDS then Some nsec3DenialNoData
      else covered
  | None => covered
  end.

(** A matching NSEC3 without the type and without CNAME. *)
Definition deniesType (qtype : Z) (n3 : NSEC3) : bool :=
  negb (bitmapHas (n3_types n3) qtype) && negb (bitmapHas (n3_types n3) rrtype.CNAME).

(** Step 3: the closest-encloser proof. *)
Definition proveEncloser (qname : Name) (qtype : Z) (zone : Name) (params : nsec3Params) (records : list Record_) :
    nsec3DenialResult :=
  let none := mkDenial nsec3DenialNone zeroName in
  match findNSEC3ClosestEncloser qname zone params records with
  | None => none
  | Some encloser =>
      match nsec3Cover (validatorbb.NextCloserName qname encloser) params records with
      | None => none
      | Some nc =>
          if optOut nc then mkDenial nsec3DenialOptOut encloser
          else
            match validatorbb.WildcardOf encloser with
            | Err _ => none
            | Ok wildcard =>
                match nsec3Cover wildcard params records with
                | Some n3 => mkDenial (if optOut n3 then nsec3DenialOptOut else nsec3DenialNXDomain) encloser
                | None =>
                    match nsec3Match wildcard params records with
                    | Some n3 => if deniesType qtype n3 then mkDenial nsec3DenialNoData encloser else none
                    | None => none
                    end
                end
            end
      end
  end.

Definition nsec3ProveDenial (qname : Name) (qtype : Z) (zone : Name) (records : list Record_) : nsec3DenialResult :=
  match extractNSEC3Params records with
  | None => mkDenial nsec3DenialNone zeroName
  | Some params =>
      if MaxNSEC3Iterations <? p_iterations params then mkDenial nsec3DenialIterationsExceeded zeroName
      else
        match (if qtype =? rrtype.DS then proveDS qname params records else None) with
        | Some k => mkDenial k zeroName
        | None =>
            match nsec3Match qname params records with
            | Some n3 =>
                if deniesType qtype n3 then mkDenial nsec3DenialNoData zeroName
                else proveEncloser qname qtype zone params records
            | None => proveEncloser qname qtype zone params records
            end
        end
  end.
End hashing.
