(* ===== verification/DenialOrder.v ===== *)
(** * Order, intervals and ancestors of names

    The canonical name order of RFC 4034 section 6.1 is a total order in
    which the names below any name form an interval; the helpers of
    validatorbb compute it, ancestors, truncations and base32hex. *)

From S2P Require Import Prelude Name Wire RData Message Compare RRset Authoritative ZoneTree ZoneLookup Dnssec Signatures Denial.
Import validatorbb.

(** ** Byte strings *)
Lemma BytesLess_cmp a b : BytesLess a b = (cmpBytes a b <? 0).
Proof.
  revert b. induction a as [|x a IH]; intros [|y b]; cbn [BytesLess cmpBytes]; try done.
  rewrite IH. destruct (x =? y) eqn:E; bool_facts; cbn [negb].
  - subst. by rewrite Z.ltb_irrefl.
  - destruct (x <? y) eqn:E1, (y <? x) eqn:E2; bool_facts; try done; lia.
Qed.

(** ** Label sequences, root first *)

(** A three-way comparison as a strict order. *)
Lemma cmpLabels_eq a b : cmpLabels a b = 0 <-> a = b.
Proof.
  revert b. induction a as [|x a IH]; intros [|y b]; cbn [cmpLabels].
  - done.
  - split; [|done]. intros H. exfalso. llia.
  - split; [|done]. intros H. exfalso. llia.
  - destruct (cmpBytes x y =? 0) eqn:E; bool_facts; cbn [negb].
    + apply cmpBytes_eq in E as ->. rewrite IH. split; congruence.
    + split; [done|]. intros [= -> _]. by destruct E; apply cmpBytes_eq.
Qed.

Lemma cmpLabels_flip a b : cmpLabels a b = - cmpLabels b a.
Proof.
  revert b. induction a as [|x a IH]; intros [|y b]; cbn [cmpLabels]; try (llia).
  rewrite (cmpBytes_flip x y). replace (- cmpBytes y x =? 0) with (cmpBytes y x =? 0) by lia.
  destruct (cmpBytes y x =? 0); cbn [negb]; [apply IH|done].
Qed.

Lemma cmpLabels_trans a b c : cmpLabels a b < 0 -> cmpLabels b c < 0 -> cmpLabels a c < 0.
Proof.
  revert b c. induction a as [|x a IH]; intros [|y b] [|z c]; cbn [cmpLabels]; try llia.
  pose proof weak_cmpBytes as Hw.
  destruct (cmpBytes x y =? 0) eqn:E1, (cmpBytes y z =? 0) eqn:E2; bool_facts; cbn [negb]; intros H1 H2.
  - apply cmpBytes_eq in E1 as ->, E2 as ->. rewrite (proj2 (cmpBytes_eq z z)) by done. cbn. by eapply IH.
  - apply cmpBytes_eq in E1 as ->. by replace (cmpBytes y z =? 0) with false by (symmetry; lia).
  - apply cmpBytes_eq in E2 as ->. by replace (cmpBytes x z =? 0) with false by (symmetry; lia).
  - assert (cmpBytes x z <= 0) by (apply (cmp_trans Hw x y z); lia).
    assert (cmpBytes x z <> 0) as Hne.
    { intros E. apply cmpBytes_eq in E as ->. pose proof (cmpBytes_flip z y). lia. }
    replace (cmpBytes x z =? 0) with false by (symmetry; lia). cbn. lia.
Qed.

(** The sequences that extend [p] form an interval. *)
Lemma cmpLabels_convex p a b c : cmpLabels a b <= 0 -> cmpLabels b c <= 0 ->
  p `prefix_of` a -> p `prefix_of` c -> p `prefix_of` b.
Proof.
  intros H1 H2 [s ->] [t ->]. revert b H1 H2. induction p as [|x p IH]; intros b H1 H2; [apply prefix_nil|].
  destruct b as [|y b]; [cbn in H1; llia|]. cbn [app cmpLabels] in H1, H2.
  assert (x = y) as ->.
  { apply cmpBytes_eq. pose proof (cmpBytes_flip x y).
    destruct (cmpBytes x y =? 0) eqn:E1, (cmpBytes y x =? 0) eqn:E2; bool_facts; cbn [negb] in *; lia. }
  rewrite (proj2 (cmpBytes_eq y y)) in H1, H2 by done. cbn in H1, H2. by apply prefix_cons, IH.
Qed.

(** ** Ancestors and label sequences *)
Lemma anc_of_labels n p pre : canonical n -> canonical p -> Labels n = pre ++ Labels p -> anc n p.
Proof.
  intros Hn Hp. revert n Hn. induction pre as [|l pre IH]; intros n Hn E.
  - assert (n = p) as -> by by apply Labels_inj. apply rtc_refl.
  - destruct (canonical_cases n Hn) as [[-> _]|(l' & ls & m & Hw & Hf & Hm & Hwm)].
    { rewrite (Labels_wf _ _ Root_wf) in E. done. }
    rewrite (Labels_wf _ _ Hw) in E. injection E as -> E. eapply rtc_l; [exact Hm|].
    apply IH; [by eapply canonical_up|]. by rewrite (Labels_wf _ _ Hwm).
Qed.

Lemma anc_prefix n p : canonical n -> canonical p -> anc n p <-> collectLabels p `prefix_of` collectLabels n.
Proof.
  intros Hn Hp. unfold collectLabels. split.
  - intros H. destruct (anc_labels n p Hn H) as [pre ->]. exists (rev pre). apply rev_app_distr.
  - intros [k E]. apply (anc_of_labels n p (rev k)); [done..|].
    apply (f_equal (@rev bytes)) in E. by rewrite rev_app_distr, !rev_involutive in E.
Qed.

Lemma CanonicalNameCmp_eq n m : canonical n -> canonical m -> CanonicalNameCmp n m = 0 <-> n = m.
Proof.
  intros Hn Hm. unfold CanonicalNameCmp. rewrite cmpLabels_eq. split; [|by intros ->].
  intros E. apply Labels_inj; [done..|]. apply (f_equal (@rev bytes)) in E. unfold collectLabels in E.
  by rewrite !rev_involutive in E.
Qed.
Lemma CanonicalNameCmp_flip n m : CanonicalNameCmp n m = - CanonicalNameCmp m n.
Proof. apply cmpLabels_flip. Qed.

(** The names at or below [p] form an interval. *)
Lemma anc_convex p a b c : canonical p -> canonical a -> canonical b -> canonical c ->
  CanonicalNameCmp a b <= 0 -> CanonicalNameCmp b c <= 0 -> anc a p -> anc c p -> anc b p.
Proof. intros Hp Ha Hb Hc. rewrite !anc_prefix by done. apply cmpLabels_convex. Qed.

(** An ancestor comes before what is below it. *)
Lemma anc_le n p : canonical n -> canonical p -> anc n p -> CanonicalNameCmp p n <= 0.
Proof.
  intros Hn Hp H. apply anc_prefix in H as [k E]; [|done..]. unfold CanonicalNameCmp. rewrite E.
  generalize (collectLabels p). clear. induction l as [|x l IH]; cbn [app cmpLabels].
  - destruct k; cbn; llia.
  - by rewrite (proj2 (cmpBytes_eq x x)).
Qed.

(** The canonical name order (RFC 4034 section 6.1): [CanonicalNameCmp]
    is a total order on names, and the names at or below any given name form
    an interval of it that the name itself begins. *)
Theorem canonical_name_order :
  (forall n m, canonical n -> canonical m -> CanonicalNameCmp n m = 0 <-> n = m) /\
  (forall n m, CanonicalNameCmp n m = - CanonicalNameCmp m n) /\
  (forall a b c, CanonicalNameCmp a b < 0 -> CanonicalNameCmp b c < 0 -> CanonicalNameCmp a c < 0) /\
  (forall n p, canonical n -> canonical p -> anc n p -> CanonicalNameCmp p n <= 0) /\
  (forall p a b c, canonical p -> canonical a -> canonical b -> canonical c ->
     CanonicalNameCmp a b <= 0 -> CanonicalNameCmp b c <= 0 -> anc a p -> anc c p -> anc b p).
Proof.
  split_and!; [exact CanonicalNameCmp_eq|exact CanonicalNameCmp_flip| |exact anc_le|exact anc_convex].
  intros a b c. apply cmpLabels_trans.
Qed.

(** ** Covering intervals *)

(** A covered name and a name that is not covered meet no deeper than the
    covered name and one of the two ends. *)
Lemma covered_meets q s o n p : canonical q -> canonical s -> canonical o -> canonical n -> canonical p ->
  NameCoveredBy q o n = true -> NameCoveredBy s o n = false -> anc q p -> anc s p -> anc o p \/ anc n p.
Proof.
  intros Hq Hs Ho Hn Hp. unfold NameCoveredBy.
  assert (CanonicalNameCmp s o <= 0 -> CanonicalNameCmp o q < 0 -> anc q p -> anc s p -> anc o p) as HL.
  { intros H1 H2 Ha Hb. apply (anc_convex p s o q); try done; lia. }
  assert (CanonicalNameCmp n s <= 0 -> CanonicalNameCmp q n < 0 -> anc q p -> anc s p -> anc n p) as HR.
  { intros H1 H2 Ha Hb. apply (anc_convex p q n s); try done; lia. }
  pose proof (CanonicalNameCmp_flip o s). pose proof (CanonicalNameCmp_flip n s).
  destruct (CanonicalNameCmp o n <? 0) eqn:E; rewrite ?andb_true_iff, ?andb_false_iff, ?orb_true_iff, ?orb_false_iff; bool_facts.
  - intros [H1 H2] [H3|H3] Ha Hb; bool_facts; [left; apply HL; auto; lia|right; apply HR; auto; lia].
  - intros [H1|H1] [H3 H4] Ha Hb; bool_facts; [left; apply HL; auto; lia|right; apply HR; auto; lia].
Qed.

(** ** Common ancestors, truncation *)
Lemma commonPrefix_spec a b : commonPrefix a b `prefix_of` a /\ commonPrefix a b `prefix_of` b /\
  forall p, p `prefix_of` a -> p `prefix_of` b -> p `prefix_of` commonPrefix a b.
Proof.
  revert b. induction a as [|x a IH]; intros [|y b]; cbn [commonPrefix].
  1-3: split_and!; try apply prefix_nil; try (by intros p Hp _); try (by intros p _ Hp).
  case_bool_decide as E.
  - subst. destruct (IH b) as (H1 & H2 & H3). split_and!; try by apply prefix_cons.
    intros [|z p] Ha Hb; [apply prefix_nil|]. apply prefix_cons_inv_1 in Ha as Hz. subst.
    apply prefix_cons. apply H3; by eapply prefix_cons_inv_2.
  - split_and!; try apply prefix_nil. intros [|z p] Ha Hb; [apply prefix_nil|].
    apply prefix_cons_inv_1 in Ha as Hz, Hb as Hy. congruence.
Qed.

(** Every prefix of the labels of a name, root first, is a name. *)
Lemma prefix_name a l : canonical a -> l `prefix_of` collectLabels a ->
  exists p, canonical p /\ collectLabels p = l /\ FromLabels (rev l) = Ok p.
Proof.
  intros Ha [k E]. unfold collectLabels in *. apply (f_equal (@rev bytes)) in E. rewrite rev_involutive, rev_app_distr in E.
  destruct (stripLeadingLabels_labels (length (rev k)) a Ha) as [Hc Hl]; [rewrite E, length_app; lia|].
  rewrite E, drop_app_length in Hl. eexists. split_and!; [exact Hc|by rewrite Hl, rev_involutive|].
  rewrite <- Hl. destruct (canonical_labels _ Hc) as (_ & Hf & Hb). by apply FromLabels_canonical.
Qed.

Lemma LongestCommonAncestor_spec a b : canonical a -> canonical b ->
  let c := LongestCommonAncestor a b in
  canonical c /\ anc a c /\ anc b c /\ forall p, anc a p -> anc b p -> anc c p.
Proof.
  intros Ha Hb c. destruct (commonPrefix_spec (collectLabels a) (collectLabels b)) as (H1 & H2 & H3).
  destruct (prefix_name a _ Ha H1) as (c' & Hc & El & EF).
  assert (c = c') as ->.
  { unfold c, LongestCommonAncestor. destruct (commonPrefix _ _) as [|x l] eqn:E; [|by rewrite EF].
    cbn in EF. by injection EF. }
  split_and!; [done|by apply anc_prefix; [..|rewrite El]|by apply anc_prefix; [..|rewrite El]|].
  intros p Hp1 Hp2. pose proof (canonical_anc a p Ha Hp1) as Hp.
  apply anc_prefix; [done..|]. rewrite El. apply H3; by apply anc_prefix.
Qed.

Lemma NumLabels_up n p : canonical n -> up n p -> NumLabels n = NumLabels p + 1.
Proof.
  intros Hn Hup. pose proof (canonical_up n p Hn Hup) as Hp. rewrite !NumLabels_labels by done.
  destruct (up_labels n p Hn Hup) as [l ->]. llia.
Qed.
Lemma NumLabels_nonneg n : canonical n -> 0 <= NumLabels n.
Proof. intros Hn. rewrite NumLabels_labels by done. apply zlen_nonneg. Qed.
Lemma NumLabels_anc n p : canonical n -> anc n p -> NumLabels p <= NumLabels n.
Proof.
  intros Hn H. destruct (anc_labels n p Hn H) as [pre E]. rewrite !NumLabels_labels, E by eauto using canonical_anc.
  llia.
Qed.
Lemma anc_same_depth n p q : canonical n -> anc n p -> anc n q -> NumLabels p = NumLabels q -> p = q.
Proof.
  intros Hn Hp Hq E. assert (canonical p /\ canonical q) as [Cp Cq] by eauto using canonical_anc.
  apply Labels_inj; [done..|]. rewrite !NumLabels_labels in E by done.
  destruct (anc_labels n p Hn Hp) as [l1 E1], (anc_labels n q Hn Hq) as [l2 E2]. rewrite E1 in E2.
  apply app_inj_2 in E2 as [_ ?]; [done|]. unfold zlen in E. lia.
Qed.

Lemma truncate_loop_spec fuel n k : canonical n -> 0 <= k -> (Z.to_nat (NumLabels n) <= fuel)%nat ->
  let m := truncate_loop fuel n k in anc n m /\ NumLabels m = Z.min k (NumLabels n).
Proof.
  revert n. induction fuel as [|fuel IH]; intros n Hn Hk Hf; cbn [truncate_loop].
  - split; [apply rtc_refl|]. pose proof (NumLabels_nonneg n Hn). lia.
  - destruct (k <? NumLabels n) eqn:E; bool_facts; [|split; [apply rtc_refl|lia]].
    destruct (Parent n) as [p|] eqn:Ep.
    + pose proof (NumLabels_up n p Hn Ep). destruct (IH p) as [H1 H2]; [by eapply canonical_up|done|lia|].
      split; [by eapply rtc_l|lia].
    + exfalso. destruct (canonical_cases n Hn) as [[-> _]|(? & ? & ? & _ & _ & ? & _)]; [|congruence].
      rewrite (NumLabels_wf _ _ Root_wf) in E. unfold zlen in E. cbn in E. lia.
Qed.
Lemma labels_le_wire n : canonical n -> (Z.to_nat (NumLabels n) <= length (wire n))%nat.
Proof.
  intros (ls & Hw & _). rewrite (NumLabels_wf _ _ Hw). destruct Hw as (-> & _ & _). unfold zlen. rewrite Nat2Z.id.
  induction ls as [|l ls IH]; [cbn; lia|]. rewrite encName_cons, length_app. cbn. lia.
Qed.
Lemma TruncateNameTo_spec n k : canonical n -> 0 <= k ->
  let m := TruncateNameTo n k in canonical m /\ anc n m /\ NumLabels m = Z.min k (NumLabels n).
Proof.
  intros Hn Hk. destruct (truncate_loop_spec (length (wire n)) n k Hn Hk (labels_le_wire n Hn)) as [H1 H2].
  split_and!; [by eapply canonical_anc|done..].
Qed.

(** The next closer name is the child of the encloser towards the query name
    (RFC 5155 section 1.3). *)
Lemma NextCloserName_spec q e : canonical q -> above q e ->
  let m := NextCloserName q e in canonical m /\ anc q m /\ up m e.
Proof.
  intros Hq Ha m. pose proof (above_canonical q e Hq Ha) as He. pose proof (NumLabels_nonneg e He).
  assert (NumLabels e < NumLabels q) as Hlt.
  { destruct Ha as (m' & Hu & Hm). pose proof (NumLabels_up q m' Hq Hu).
    pose proof (NumLabels_anc m' e (canonical_up q m' Hq Hu) Hm). lia. }
  destruct (TruncateNameTo_spec q (NumLabels e + 1) Hq ltac:(lia)) as (H1 & H2 & H3). fold m in H1, H2, H3 |- *.
  change (TruncateNameTo q (NumLabels e + 1)) with m in *.
  split_and!; [done..|]. destruct (canonical_cases m H1) as [[E _]|(l & ls & p & Hw & Hf & Hp & Hwp)].
  { rewrite E, (NumLabels_wf _ _ Root_wf) in H3. unfold zlen in H3. cbn in H3. lia. }
  assert (p = e) as <-; [|done]. pose proof (NumLabels_up m p H1 Hp).
  apply (anc_same_depth q); [done| |by apply above_anc|lia].
  etrans; [exact H2|]. by apply rtc_once.
Qed.

(** ** Subdomains in presentation form *)
Definition dotless (n : Name) : Prop := Forall (fun l => 46 ∉ l) (Labels n).

Lemma escapeByte_dotless c : c <> 46 -> u8 c -> 46 ∉ escapeByte c.
Proof.
  intros Hc Hu. unfold escapeByte, fmt03. destruct (c =? 46) eqn:E; bool_facts; [done|]. cbn [orb].
  unfold u8 in Hu. repeat (case_match; bool_facts); rewrite ?elem_of_cons, ?elem_of_nil; elia.
Qed.
Lemma escaped_dotless l : 46 ∉ l -> is_bytes l -> 46 ∉ concat (map escapeByte l).
Proof.
  intros Hl Hb H. apply list_elem_of_In, in_concat in H as (e & He & H46).
  apply in_map_iff in He as (c & <- & Hc). apply list_elem_of_In in Hc, H46.
  rewrite Forall_forall in Hb. apply (escapeByte_dotless c); [by intros ->|by apply Hb|done].
Qed.

Lemma suffix_at_dot ls ks pre : Forall label_ok ls -> Forall label_ok ks -> Forall (fun l => 46 ∉ l) ls ->
  concat (map escapeLabel ls) = pre ++ 46 :: concat (map escapeLabel ks) -> exists p, ls = p ++ ks.
Proof.
  intros Hl Hk. revert pre. induction Hl as [|l ls Hl Hls IH]; intros pre Hd E.
  - by destruct pre.
  - apply Forall_cons in Hd as [Hd Hds]. cbn [map concat] in E. unfold escapeLabel at 1 in E. rewrite <- app_assoc in E.
    pose proof (escaped_dotless l Hd (proj2 Hl)) as He. set (e := concat (map escapeByte l)) in *. cbn [app] in E.
    apply app_eq_inv in E as [(m & E1 & E2)|(m & E1 & E2)].
    + destruct m as [|c m]; [|exfalso; apply He; rewrite E1; injection E2 as <- _; apply elem_of_app; right; left].
      injection E2 as E2. exists [l]. cbn. f_equal. symmetry. by apply escapeLabels_inj.
    + destruct m as [|c m]; [injection E2 as E2|injection E2 as _ E3].
      * exists [l]. cbn. f_equal. by apply escapeLabels_inj.
      * destruct (IH m Hds E3) as [p ->]. by exists (l :: p).
Qed.

Lemma ToLower_String n : canonical n -> ToLower (String_ n) = String_ n.
Proof.
  intros (ls & Hw & Hf). rewrite (String_wf _ _ Hw). case_decide; [done|].
  unfold ToLower. destruct Hw as (_ & Hok & _). clear -Hf Hok. revert Hf Hok.
  induction ls as [|l ls IH]; intros Hf Hok; [done|]. apply Forall_cons in Hf as [Hf Hfs], Hok as [[_ Hb] Hok].
  cbn [map concat]. rewrite map_app, (IH Hfs Hok). f_equal. unfold escapeLabel. rewrite map_app. f_equal.
  clear -Hf Hb. unfold folded in Hf. induction Hb as [|c l Hc Hb IH]; [done|]. cbn in Hf. injection Hf as Ec El.
  cbn [map concat]. rewrite map_app, IH by done. f_equal. unfold escapeByte, fmt03.
  unfold u8 in Hc. unfold foldByte in *. repeat (case_match; bool_facts); cbn; rewrite ?Ec; try done.
  all: repeat f_equal; repeat (case_match; bool_facts); try done; elia.
Qed.

Lemma HasSuffix_spec s suf : HasSuffix s suf = true <-> exists pre, s = pre ++ suf.
Proof.
  unfold HasSuffix. rewrite andb_true_iff, Z.leb_le, bool_decide_eq_true. split.
  - intros [_ E]. exists (take (length s - length suf) s). rewrite <- (take_drop (length s - length suf) s) at 1. by rewrite E.
  - intros [pre ->]. split; [llia|]. rewrite length_app. replace (length pre + length suf - length suf)%nat with (length pre) by lia.
    by rewrite drop_app_length.
Qed.

Lemma NameSuffix_complete sub parent : canonical sub -> canonical parent -> anc sub parent ->
  NameSuffixEqualOrSubdomain sub parent = true.
Proof.
  intros Hs Hp H. unfold NameSuffixEqualOrSubdomain. destruct (Equal sub parent) eqn:E; [done|].
  rewrite !ToLower_String by done. case_bool_decide as Er; [done|]. apply HasSuffix_spec.
  apply Equal_false in E. destruct (anc_labels sub parent Hs H) as [pre El].
  destruct (canonical_labels sub Hs) as (Hws & _), (canonical_labels parent Hp) as (Hwp & _).
  rewrite (String_wf _ _ Hws), (String_wf _ _ Hwp) in *. rewrite El in *.
  case_decide as D; [done|]. rewrite decide_False by (by intros ?%app_eq_nil; naive_solver).
  destruct pre as [|l pre _] using rev_ind; [by destruct E; apply Labels_inj; [..|rewrite El]|].
  exists (concat (map escapeLabel pre) ++ concat (map escapeByte l)).
  rewrite !map_app, !concat_app. cbn. unfold escapeLabel at 2. rewrite app_nil_r, <- !app_assoc. done.
Qed.

Lemma anc_root n : canonical n -> anc n Root.
Proof.
  intros Hn. apply (anc_of_labels n Root (Labels n)); [done|by exists []; split; [apply Root_wf|]|].
  by rewrite (Labels_wf _ _ Root_wf), app_nil_r.
Qed.

Lemma NameSuffix_sound sub parent : canonical sub -> canonical parent -> dotless sub ->
  NameSuffixEqualOrSubdomain sub parent = true -> anc sub parent.
Proof.
  intros Hs Hp Hd. unfold NameSuffixEqualOrSubdomain. destruct (Equal sub parent) eqn:E.
  { apply Equal_iff in E as ->. done. }
  rewrite !ToLower_String by done.
  destruct (canonical_labels sub Hs) as (Hws & _), (canonical_labels parent Hp) as (Hwp & _).
  pose proof Hws as (_ & Hok & _). pose proof Hwp as (_ & Hokp & _).
  destruct (decide (Labels parent = [])) as [Er|Er].
  { intros _. assert (parent = Root) as ->; [|by apply anc_root]. apply Labels_inj; [done| |by rewrite (Labels_wf _ _ Root_wf)].
    exists []. by split; [apply Root_wf|]. }
  case_bool_decide as Es.
  { intros _. assert (parent = Root) as ->; [|by apply anc_root].
    eapply String_inj; [exact Hwp|exact Root_wf|]. by rewrite Es. }
  rewrite HasSuffix_spec, (String_wf _ _ Hws), (String_wf _ _ Hwp), (decide_False (P := Labels parent = [])) by done.
  intros [pre Epre]. case_decide as D.
  { exfalso. destruct (Labels parent) as [|l ls]; [done|]. inversion Hokp as [|? ? Hl _]; subst.
    pose proof (zlen_escapeLabel l Hl). apply (f_equal zlen) in Epre. cbn [map concat] in Epre.
    rewrite zlen_app, !zlen_cons, zlen_app, zlen_nil in Epre.
    pose proof (zlen_nonneg pre). pose proof (zlen_nonneg (concat (map escapeLabel ls))). lia. }
  destruct (suffix_at_dot _ _ _ Hok Hokp Hd Epre) as [p Ep]. by apply (anc_of_labels sub parent p).
Qed.

(** The subdomain test works on presentation forms.  It holds of every
    descendant, and of nothing else provided no label of the tested name
    contains a dot: then it decides the ancestor relation. *)
Theorem subdomain_test_spec sub parent : canonical sub -> canonical parent ->
  (anc sub parent -> NameSuffixEqualOrSubdomain sub parent = true) /\
  (dotless sub -> NameSuffixEqualOrSubdomain sub parent = true -> anc sub parent).
Proof. intros Hs Hp. split; [by apply NameSuffix_complete|by apply NameSuffix_sound]. Qed.
Lemma subdomain_test_spec_witness :
  let sub := nm [[97]; SigSample.example] in anc sub SigSample.zone.
Proof.
  cbv zeta. assert (canonical (nm [[97]; SigSample.example])) as H by (apply labels_okb_canonical; reflexivity).
  assert (canonical SigSample.zone) as H' by (apply labels_okb_canonical; reflexivity).
  destruct (subdomain_test_spec _ _ H H') as [_ Hs]. apply Hs; [|reflexivity].
  unfold dotless. change (Labels (nm [[97]; SigSample.example])) with [[97]; SigSample.example].
  repeat constructor; decide_now.
Defined.

(** The single label [x.example] passes the test for a subdomain of
    [example]: in the presentation form [x\.example.] the escaped dot of the
    label reads as a separator, so names outside a zone are taken to be in it
    (when choosing a trust anchor, and when checking signers and empty
    non-terminals). *)
Theorem subdomain_test_escaped_dot :
  let sub := nm [[120; 46] ++ SigSample.example] in
  canonical sub /\ ~ anc sub SigSample.zone /\ NameSuffixEqualOrSubdomain sub SigSample.zone = true.
Proof.
  assert (canonical (nm [[120; 46] ++ SigSample.example])) as H by (apply labels_okb_canonical; reflexivity).
  split_and!; [done| |reflexivity]. intros Ha. apply anc_labels in Ha as [pre E]; [|done].
  change (Labels (nm [[120; 46] ++ SigSample.example])) with [[120; 46] ++ SigSample.example] in E.
  change (Labels SigSample.zone) with [SigSample.example] in E. destruct pre as [|? [|? ?]]; discriminate E.
Qed.

(** ** Validity periods *)

(** Signature validity (RFC 4034 section 3.1.5, RFC 1982): the inception
    and expiration fields are the true instants modulo 2^32.  As long as both
    are within half the number circle of the clock, the comparison on the
    fields is the comparison of the instants, before and after the year 2106,
    with the clock skew, clamped to a day, allowed at both ends. *)
Theorem rrsig_validity_window s now skew inception expiration :
  s_sigInc s = to_u32 inception -> s_sigExp s = to_u32 expiration -> 0 <= skew ->
  let k := Z.min (skew / Second) 86400 in
  - 2 ^ 31 <= now + k - inception < 2 ^ 31 -> - 2 ^ 31 <= expiration - (now - k) < 2 ^ 31 ->
  RRSIGValidNowWithSkew s now skew = true <-> inception <= now + k /\ now - k <= expiration.
Proof.
  intros Ei Ee Hs k H1 H2. unfold RRSIGValidNowWithSkew. rewrite Ei, Ee.
  replace (skew <? 0) with false by (symmetry; lia).
  assert (Z.quot (if 24 * Hour <? skew then 24 * Hour else skew) Second = k) as Ek.
  { subst k. unfold Hour, Second. destruct (_ <? _) eqn:E; bool_facts; rewrite Z.quot_div_nonneg by lia.
    - change (24 * (3600 * 1000000000) / 1000000000) with 86400. elia.
    - elia. }
  rewrite Ek. assert (0 <= k <= 86400) as Hk by (subst k; unfold Second; elia).
  rewrite (to_u32_id k) by (unfold u32; lia).
  assert (forall a b, - 2 ^ 31 <= a - b < 2 ^ 31 -> serialLT (to_u32 a) (to_u32 b) = (a <? b)) as Hlt.
  { intros a b Hab. unfold serialLT, to_u32. rewrite <- Zminus_mod.
    destruct (a <? b) eqn:E; bool_facts; [apply Z.leb_le|apply Z.leb_gt]; elia. }
  assert (to_u32 (to_u32 now + k) = to_u32 (now + k)) as -> by (unfold to_u32; by rewrite Zplus_mod_idemp_l).
  assert (to_u32 (to_u32 now - k) = to_u32 (now - k)) as -> by (unfold to_u32; by rewrite Zminus_mod_idemp_l).
  rewrite !Hlt by lia. destruct (now + k <? inception) eqn:E1, (expiration <? now - k) eqn:E2; bool_facts; split; (done || lia).
Qed.
Lemma rrsig_validity_window_witness :
  RRSIGValidNowWithSkew (mkRRSIG rrtype.A AlgED25519 1 3600 100 4294967000 0 Root []) 4294967290 0 = true.
Proof.
  apply (rrsig_validity_window (mkRRSIG rrtype.A AlgED25519 1 3600 100 4294967000 0 Root []) 4294967290 0 4294967000 4294967396);
    try reflexivity; vm_compute; split; congruence.
Defined.

(** ** Base32hex *)
Lemma base32_digit idx : 0 <= idx < 32 -> base32Value (base32hexAlphabet idx) = Some idx.
Proof.
  intros H. unfold base32Value, base32hexAlphabet. destruct (idx <? 10) eqn:E; bool_facts.
  - replace ((48 <=? 48 + idx) && _) with true by (symmetry; apply andb_true_iff; lia). f_equal. lia.
  - replace ((48 <=? 55 + idx) && _) with false by (symmetry; apply andb_false_iff; lia).
    replace ((65 <=? 55 + idx) && _) with true by (symmetry; apply andb_true_iff; lia). f_equal. lia.
Qed.

(** The accumulators as arithmetic. *)
Lemma acc_add buf v k : 0 <= k < 64 -> 0 <= v < 2 ^ k ->
  Z.lor (to_u64 (Z.shiftl buf k)) v = (buf * 2 ^ k) mod 2 ^ 64 + v.
Proof.
  intros Hk Hv. unfold to_u64. rewrite Z.shiftl_mul_pow2 by lia. change 18446744073709551616 with (2 ^ 64).
  replace (2 ^ 64) with (2 ^ (64 - k) * 2 ^ k) by (rewrite <- Z.pow_add_r by lia; f_equal; lia).
  assert (0 < 2 ^ k) by lia. assert (0 < 2 ^ (64 - k)) by lia.
  rewrite Z.mul_mod_distr_r, <- lor_shiftl_add by lia. by rewrite Z.shiftl_mul_pow2 by lia.
Qed.
Lemma low_bits b k n : 0 <= k -> 0 <= n -> Z.land (Z.shiftr b k) (Z.ones n) = (b / 2 ^ k) mod 2 ^ n.
Proof. intros. rewrite Z.land_ones, Z.shiftr_div_pow2 by lia. done. Qed.


(** Wrapping the accumulator at 64 bits does not touch the bits in use. *)
Lemma wrap_mod z v k : 0 <= k <= 64 -> (z mod 2 ^ 64 + v) mod 2 ^ k = (z + v) mod 2 ^ k.
Proof.
  intros Hk. assert (0 < 2 ^ k) by lia. rewrite <- (Z.add_mod_idemp_l (z mod 2 ^ 64)), <- (Z.add_mod_idemp_l z) by lia.
  f_equal. f_equal. replace (2 ^ 64) with (2 ^ k * 2 ^ (64 - k)) by (rewrite <- Z.pow_add_r by lia; f_equal; lia).
  rewrite Z.rem_mul_r by lia. rewrite Z.mul_comm. by rewrite Z.mod_add, Z.mod_mod by lia.
Qed.
Lemma wrap_field z v m n : 0 <= m -> 0 <= n -> m + n <= 64 ->
  (z mod 2 ^ 64 + v) / 2 ^ m mod 2 ^ n = (z + v) / 2 ^ m mod 2 ^ n.
Proof.
  intros Hm Hn Hmn. assert (0 < 2 ^ m) by lia. assert (0 < 2 ^ n) by lia.
  assert (forall a, a / 2 ^ m mod 2 ^ n = (a mod 2 ^ (m + n)) / 2 ^ m) as Hf.
  { intros a. rewrite Z.pow_add_r, Z.rem_mul_r by lia.
    rewrite Z.mul_comm, Z.div_add, (Z.div_small (a mod _)) by (try apply Z.mod_pos_bound; lia). lia. }
  rewrite !Hf. by rewrite wrap_mod by lia.
Qed.

(** Evaluate powers of two of constants. *)
Ltac pow2 :=
  repeat match goal with
  | |- context [2 ^ ?k] => let v := eval compute in (2 ^ k) in change (2 ^ k) with v
  | H : context [2 ^ ?k] |- _ => let v := eval compute in (2 ^ k) in change (2 ^ k) with v in H
  end.

(** The decoder has read what the encoder has written: the encoder holds back
    [e] bits of the last byte, the decoder the [8 - e] bits before them. *)
Definition in_step (e buf d dbuf : Z) (pend : bytes) : Prop :=
  (e = 0 /\ d = 0 /\ pend = []) \/
  (1 <= e <= 4 /\ d = 8 - e /\ exists x, u8 x /\ pend = [x] /\ buf mod 2 ^ e = x mod 2 ^ e /\ dbuf mod 2 ^ d = x / 2 ^ e).

(** One character that carries the value [v]. *)
Lemma decode_char v s dbuf d : 0 <= v < 32 -> 0 <= d <= 8 ->
  decode_loop (base32hexAlphabet v :: s) dbuf d =
    let dbuf' := (dbuf * 32) mod 2 ^ 64 + v in
    if 8 <=? d + 5 then let? rest := decode_loop s dbuf' (d + 5 - 8) in Ok (((dbuf * 32 + v) / 2 ^ (d + 5 - 8)) mod 2 ^ 8 :: rest)
    else decode_loop s dbuf' (d + 5).
Proof.
  intros Hv Hd. cbn [decode_loop]. rewrite base32_digit by done. rewrite (acc_add dbuf v 5) by lia.
  change 0xff with (Z.ones 8). cbv zeta. destruct (8 <=? d + 5) eqn:E; bool_facts; [|done].
  by rewrite low_bits, (wrap_field _ _ _ 8) by lia.
Qed.

(** One input byte, in each of the five phases of the cycle. *)
Lemma encode_byte x b buf e : u8 x -> 0 <= e <= 4 ->
  let buf' := (buf * 256) mod 2 ^ 64 + x in
  encode_loop (x :: b) buf e =
    base32hexAlphabet (((buf * 256 + x) / 2 ^ (e + 3)) mod 2 ^ 5) ::
    (if 2 <=? e then base32hexAlphabet (((buf * 256 + x) / 2 ^ (e - 2)) mod 2 ^ 5) :: encode_loop b buf' (e - 2)
     else encode_loop b buf' (e + 3)).
Proof.
  intros Hx He buf'. cbn [encode_loop]. rewrite (acc_add buf x 8) by (unfold u8 in Hx; lia).
  change ((buf * 2 ^ 8) mod 2 ^ 64 + x) with buf'.
  assert (e = 0 \/ e = 1 \/ e = 2 \/ e = 3 \/ e = 4) as [-> | [-> | [-> | [-> | ->]]]] by lia;
    cbn [Z.leb]; rewrite <- !(wrap_field (buf * 256)) by lia; fold buf'; rewrite <- !low_bits by lia; reflexivity.
Qed.

Lemma base32_loop b : forall e buf d dbuf pend, is_bytes b -> in_step e buf d dbuf pend ->
  decode_loop (encode_loop b buf e) dbuf d = Ok (pend ++ b).
Proof.
  induction b as [|x b IH]; intros e buf d dbuf pend Hb Hs.
  - cbn [encode_loop]. destruct Hs as [(-> & -> & ->)|(He & -> & x & Hx & -> & Eb & Ed)]; [done|].
    replace (0 <? e) with true by (symmetry; lia). unfold to_u64. rewrite Z.shiftl_mul_pow2 by lia.
    change 31 with (Z.ones 5). rewrite Z.land_ones by lia. change 18446744073709551616 with (2 ^ 64).
    rewrite <- (Z.add_0_r ((buf * _) mod 2 ^ 64)), wrap_mod by lia.
    rewrite decode_char by ((apply Z.mod_pos_bound; lia) || lia). cbv zeta.
    replace (8 <=? _) with true by (symmetry; lia). cbn [decode_loop res_bind app]. do 2 f_equal.
    unfold u8 in Hx. replace (8 - e + 5 - 8) with (5 - e) by lia.
    assert (e = 1 \/ e = 2 \/ e = 3 \/ e = 4) as [-> | [-> | [-> | ->]]] by lia; pow2; elia.
  - inversion Hb as [|? ? Hx Hb']; subst.
    assert (forall v k, 0 <= v < 256 -> 0 <= k <= 4 -> ((buf * 256) mod 2 ^ 64 + v) mod 2 ^ k = v mod 2 ^ k) as Hlow.
    { intros v k Hv Hk. rewrite wrap_mod by lia. assert (k = 0 \/ k = 1 \/ k = 2 \/ k = 3 \/ k = 4) as Hc by lia.
      destruct Hc as [-> | [-> | [-> | [-> | ->]]]]; pow2; elia. }
    assert (forall a v k, 0 <= v < 32 -> 5 <= k <= 7 -> (a mod 2 ^ 64 + v) mod 2 ^ k = (a + v) mod 2 ^ k) as Hd.
    { intros a v k Hv Hk. apply wrap_mod. lia. }
    unfold u8 in Hx.
    destruct Hs as [(-> & -> & ->)|(He & -> & y & Hy & -> & Eb & Ed)].
    + rewrite encode_byte by (done || lia). cbn [Z.leb Z.compare]. cbv zeta.
      rewrite decode_char by ((apply Z.mod_pos_bound; lia) || lia). cbn [Z.leb Z.compare Z.add]. cbv zeta. cbn [app].
      change (0 + 3) with 3. change (0 + 5) with 5.
      apply (IH 3 _ 5 _ [x]); [done|]. right. split_and!; [lia|lia|done|]. exists x. split_and!; [done|done|by apply Hlow; lia|].
      rewrite Hd by ((apply Z.mod_pos_bound; lia) || lia). pow2. elia.
    + unfold u8 in Hy. rewrite encode_byte by (done || lia). cbv zeta. set (buf' := (buf * 256) mod 2 ^ 64 + x) in *.
      set (v1 := (buf * 256 + x) / 2 ^ (e + 3) mod 2 ^ 5). set (v2 := (buf * 256 + x) / 2 ^ (e - 2) mod 2 ^ 5).
      assert (0 <= v1 < 32 /\ 0 <= v2 < 32) as [Hv1 Hv2] by (split; apply Z.mod_pos_bound; lia).
      rewrite decode_char by (done || lia). cbv zeta. set (w1 := (dbuf * 32) mod 2 ^ 64 + v1) in *.
      assert (forall k, 0 <= k <= 7 -> w1 mod 2 ^ k = (dbuf * 32 + v1) mod 2 ^ k) as Hw1 by (intros; apply wrap_mod; lia).
      pose proof (Hlow x) as Hlow'. fold buf' in Hlow'.
      assert (e = 1 \/ e = 2 \/ e = 3 \/ e = 4) as [-> | [-> | [-> | ->]]] by lia.
      * change (8 <=? 8 - 1 + 5) with true. change (2 <=? 1) with false. cbv iota. change (8 - 1 + 5 - 8) with 4. change (1 + 3) with 4.
        rewrite (IH 4 buf' 4 w1 [x]); [|done|right; split_and!; [lia..|]; exists x; split_and!; try done].
        -- cbn [res_bind app]. do 2 f_equal. unfold v1. pow2. elia.
        -- by apply Hlow'.
        -- rewrite Hw1 by lia. unfold v1. pow2. elia.
      * change (8 <=? 8 - 2 + 5) with true. change (2 <=? 2) with true. cbv iota.
        rewrite decode_char by (done || lia). cbv zeta. change (8 <=? 8 - 2 + 5 - 8 + 5) with true. cbv iota. change (8 - 2 + 5 - 8 + 5 - 8) with 0. change (2 - 2) with 0. change (8 - 2 + 5 - 8) with 3.
        rewrite (IH 0 buf' 0 _ []); [|done|by left].
        cbn [res_bind app]. specialize (Hw1 3 ltac:(lia)). do 2 f_equal; [unfold v1; pow2; elia|]. f_equal.
        unfold v1, v2 in *. pow2. elia.
      * change (8 <=? 8 - 3 + 5) with true. change (2 <=? 3) with true. cbv iota.
        rewrite decode_char by (done || lia). cbv zeta. change (8 <=? 8 - 3 + 5 - 8 + 5) with false. cbv iota. change (8 - 3 + 5 - 8 + 5) with 7. change (3 - 2) with 1. change (8 - 3 + 5 - 8) with 2.
        rewrite (IH 1 buf' 7 _ [x]); [|done|right; split_and!; [lia..|]; exists x; split_and!; try done].
        -- cbn [res_bind app]. do 2 f_equal. unfold v1. pow2. elia.
        -- by apply Hlow'.
        -- rewrite wrap_mod by lia. specialize (Hw1 2 ltac:(lia)). unfold v1, v2 in *. pow2. elia.
      * change (8 <=? 8 - 4 + 5) with true. change (2 <=? 4) with true. cbv iota.
        rewrite decode_char by (done || lia). cbv zeta. change (8 <=? 8 - 4 + 5 - 8 + 5) with false. cbv iota. change (8 - 4 + 5 - 8 + 5) with 6. change (4 - 2) with 2. change (8 - 4 + 5 - 8) with 1.
        rewrite (IH 2 buf' 6 _ [x]); [|done|right; split_and!; [lia..|]; exists x; split_and!; try done].
        -- cbn [res_bind app]. do 2 f_equal. unfold v1. pow2. elia.
        -- by apply Hlow'.
        -- rewrite wrap_mod by lia. specialize (Hw1 1 ltac:(lia)). unfold v1, v2 in *. pow2. elia.
Qed.

Lemma base32_roundtrip b : is_bytes b -> Base32HexDecode (Base32HexEncode b) = Ok b.
Proof.
  intros Hb. unfold Base32HexEncode, Base32HexDecode. destruct (zlen b =? 0) eqn:E; bool_facts.
  { apply zlen_0_inv in E as ->. done. }
  pose proof (base32_loop b 0 0 0 0 [] Hb ltac:(by left)) as H. cbn [app] in H.
  destruct (zlen (encode_loop b 0 0) =? 0) eqn:E'; bool_facts; [|done].
  apply zlen_0_inv in E'. rewrite E' in H. cbn in H. injection H as <-. done.
Qed.

Definition base32Char (c : Z) : Prop := 48 <= c <= 57 \/ 65 <= c <= 86.
Lemma alphabet_char idx : 0 <= idx < 32 -> base32Char (base32hexAlphabet idx).
Proof. intros H. unfold base32Char, base32hexAlphabet. destruct (_ <? _) eqn:E; bool_facts; lia. Qed.
Lemma encode_loop_chars b : forall buf e, is_bytes b -> 0 <= e <= 4 -> Forall base32Char (encode_loop b buf e).
Proof.
  induction b as [|x b IH]; intros buf e Hb He.
  - cbn [encode_loop]. destruct (_ <? _); [|constructor]. constructor; [|constructor]. apply alphabet_char.
    change 31 with (Z.ones 5). rewrite Z.land_ones by lia. apply Z.mod_pos_bound. lia.
  - inversion Hb as [|? ? Hx Hb']; subst. rewrite encode_byte by done. cbv zeta.
    constructor; [apply alphabet_char, Z.mod_pos_bound; lia|]. destruct (2 <=? e) eqn:E; bool_facts; [|apply IH; [done|lia]].
    constructor; [apply alphabet_char, Z.mod_pos_bound; lia|]. apply IH; [done|lia].
Qed.
Lemma ToUpper_fold s : Forall base32Char s -> ToUpper (map foldByte s) = s.
Proof.
  induction 1 as [|c s Hc _ IH]; [done|]. cbn [map].
  assert (foldByte c < 128) as Hlt by (unfold foldByte, base32Char in *; case_match; bool_facts; lia).
  assert (forall d t, d < 128 -> ToUpper (d :: t) = (if (97 <=? d) && (d <=? 122) then d - 32 else d) :: ToUpper t) as Hstep.
  { clear. intros d t Hd. destruct d as [|p|p]; try done.
    do 8 (destruct p as [p|p|]; try done); lia. }
  rewrite Hstep, IH by done. f_equal. unfold foldByte, base32Char in *. repeat (case_match; bool_facts; rewrite ?andb_true_iff, ?andb_false_iff in *; bool_facts); lia.
Qed.

(** NSEC3 owner names: the hash a label encodes in base32hex (RFC 4648
    section 7, RFC 5155 section 1.3) is recovered from the owner name, in
    which the label is in lower case, for hashes of every length; in
    particular the 64-bit accumulators of encoder and decoder never lose a
    bit that is still needed. *)
Theorem nsec3_owner_roundtrip h n rest : is_bytes h -> Labels n = map foldByte (Base32HexEncode h) :: rest ->
  Base32HexDecode (Base32HexEncode h) = Ok h /\ nsec3OwnerHash n = Ok h.
Proof.
  intros Hh E. split; [by apply base32_roundtrip|]. unfold nsec3OwnerHash. rewrite E, ToUpper_fold; [by apply base32_roundtrip|].
  unfold Base32HexEncode. destruct (_ =? 0); [constructor|]. by apply encode_loop_chars.
Qed.
Lemma nsec3_owner_roundtrip_witness :
  nsec3OwnerHash (nm [[102; 118; 118; 118; 117; 48; 48; 48]; SigSample.example]) = Ok [127; 255; 255; 0; 0].
Proof.
  eapply (nsec3_owner_roundtrip [127; 255; 255; 0; 0] (nm [[102; 118; 118; 118; 117; 48; 48; 48]; SigSample.example]) [SigSample.example]);
    [decide_now|vm_compute; reflexivity].
Defined.
