(* ===== verification/DenialSound.v ===== *)
(** * Soundness of denial of existence

    The validator's NSEC3 proofs against the specification of answers in
    ZoneLookup.v: records that are genuine members of a zone's NSEC3 chain
    prove a name or type absent only if the zone's authoritative answer says
    so too. *)

From S2P Require Import Prelude Name Wire RData Message Compare RRset Authoritative ZoneTree ZoneLookup Dnssec Signatures Denial DenialOrder.
Import validatorbb.

(** ** Answers of a zone, by cases *)
Section Answers.
Context (o : Name) (R : list Record_).

Lemma exists_in_anc n p : exists_in o R n -> anc n p -> anc p o -> exists_in o R p.
Proof. intros [_ (r & Hr & Ha)] Hp Ho. split; [done|]. exists r. split; [done|]. by etrans. Qed.

Lemma owned_exists_in n : Forall (rec_ok o) R -> owned R n <> [] -> exists_in o R n.
Proof.
  intros HR Hn. destruct (owned R n) as [|r l] eqn:E; [done|].
  assert (r ∈ owned R n) as Hr by (rewrite E; left). apply elem_of_owned in Hr as [Hr <-].
  rewrite Forall_forall in HR. destruct (HR r Hr) as (_ & Ha & _). split; [done|]. by exists r.
Qed.

(** No record of [n] has type [t] or is an alias. *)
Definition lacks (n : Name) (t : Z) : Prop := forall r, r ∈ owned R n -> RType r <> t /\ RType r <> rrtype.CNAME.

Lemma asCNAME_type r target : asCNAME r = Some target -> RType r = rrtype.CNAME.
Proof. unfold asCNAME, RType. destruct (r_rd r) as [[]|]; by intros [= <-]. Qed.

Lemma lacks_selects n t : lacks n t -> selects (owned R n) t NoData.
Proof.
  intros H. apply sel_nodata.
  - unfold rrset. destruct (List.filter _ _) as [|r l] eqn:E; [done|].
    assert (In r (List.filter (fun r => RType r =? t) (owned R n))) as Hr by (rewrite E; by left).
    apply filter_In in Hr as [Hr Et]. bool_facts. apply list_elem_of_In in Hr. by destruct (H r Hr).
  - right. apply Forall_forall. intros r Hr. destruct (asCNAME r) eqn:E; [|done].
    apply asCNAME_type in E. by destruct (H r Hr).
Qed.

Lemma nodata_exact n t : exists_in o R n -> lacks n t -> at_node o R t n NoData.
Proof.
  intros He Hl. destruct (owned R n) as [|r l] eqn:E; [by apply node_empty|].
  apply node_exact; [congruence|by apply lacks_selects].
Qed.
Lemma nodata_wildcard n e w t : ~ exists_in o R n -> (forall d s, ~ dname_redirects R n d s) ->
  closest_encloser o R n e -> wildcard e w -> owned R w <> [] -> lacks w t -> at_node o R t n NoData.
Proof.
  intros Hn Hd He Hw Ho Hl. apply (node_wildcard o R t n e w NoData); try done. by apply lacks_selects.
Qed.

Lemma closest_encloser_inj n e e' : canonical n ->
  closest_encloser o R n e -> closest_encloser o R n e' -> e = e'.
Proof.
  intros Hn (H1 & H2 & H3) (K1 & K2 & K3).
  apply anc_antisym; try by eapply above_canonical. all: auto.
Qed.

(** An encloser whose child towards the name does not exist is the closest. *)
Lemma closest_by_next_closer n e nc : canonical n -> above n e -> exists_in o R e -> anc n nc -> up nc e ->
  ~ exists_in o R nc -> closest_encloser o R n e /\ ~ exists_in o R n.
Proof.
  intros Hn Ha He Hnc Hup Hno. assert (anc nc o) as Ho by (eapply rtc_l; [exact Hup|apply He]).
  assert (forall q, anc n q -> exists_in o R q -> anc e q) as Hq.
  { intros q Hq Hx. destruct (anc_total n nc q Hnc Hq) as [H|H].
    - inversion H as [|? m ? Hm H']; subst; [done|]. unfold up in Hm, Hup. by simplify_eq.
    - destruct Hno. by apply (exists_in_anc q). }
  split; [split_and!; [done..|]|].
  - intros q Hq' Hx. apply Hq; [by apply above_anc|done].
  - intros Hx. destruct Hno. by apply (exists_in_anc n).
Qed.
End Answers.

(** ** NSEC3 chains *)
Section Nsec3.
Context `{Crypto} (o : Name) (R : list Record_) (salt : bytes) (iters : Z).

(** [r] is an NSEC3 record of the zone: its owner is the hash of a name that
    exists, its bitmap has every type the name owns, and, unless it is marked
    opt-out, no existing name hashes into its interval. *)
Record genuine3 (r : Record_) (n3 : NSEC3) : Prop := {
  g3_salt : n3_salt n3 = salt;
  g3_iters : n3_iterations n3 = iters;
  g3_owner h : nsec3OwnerHash (r_name r) = Ok h ->
    exists n, exists_in o R n /\ nsec3Hash n salt iters = Some h /\
      forall x, x ∈ owned R n -> bitmapHas (n3_types n3) (RType x) = true;
  g3_gap h : nsec3OwnerHash (r_name r) = Ok h -> optOut n3 = false ->
    forall n hn, exists_in o R n -> nsec3Hash n salt iters = Some hn ->
      HashIntervalContains h (n3_next n3) hn = false }.

Definition genuine3_set (records : list Record_) : Prop :=
  forall r n3, r ∈ records -> asNSEC3 r = Some n3 -> genuine3 r n3.

Lemma match_loop_Some want records n3 : match_loop want records = Some n3 ->
  exists r, r ∈ records /\ asNSEC3 r = Some n3 /\ nsec3OwnerHash (r_name r) = Ok want.
Proof.
  induction records as [|r records IH]; [done|]. cbn [match_loop]. intros E.
  assert (match_loop want records = Some n3 -> exists r0, r0 ∈ r :: records /\ asNSEC3 r0 = Some n3 /\
    nsec3OwnerHash (r_name r0) = Ok want) as Hrest.
  { intros E'. destruct (IH E') as (x & Hx & ?). exists x. split; [by right|done]. }
  destruct (negb _); [auto|]. destruct (nsec3OwnerHash (r_name r)) as [got|] eqn:Eg; [|auto].
  case_bool_decide as Ew; [|auto]. subst. destruct (asNSEC3 r) as [x|] eqn:Ex; [|auto].
  injection E as ->. exists r. split; [left|done].
Qed.
Lemma cover_loop_Some target records n3 : cover_loop target records = Some n3 ->
  exists r h, r ∈ records /\ asNSEC3 r = Some n3 /\ nsec3OwnerHash (r_name r) = Ok h /\
    HashIntervalContains h (n3_next n3) target = true.
Proof.
  induction records as [|r records IH]; [done|]. cbn [cover_loop]. intros E.
  assert (cover_loop target records = Some n3 -> exists r0 h, r0 ∈ r :: records /\ asNSEC3 r0 = Some n3 /\
    nsec3OwnerHash (r_name r0) = Ok h /\ HashIntervalContains h (n3_next n3) target = true) as Hrest.
  { intros E'. destruct (IH E') as (x & h & Hx & ?). exists x, h. split; [by right|done]. }
  destruct (negb _); [auto|]. destruct (nsec3OwnerHash (r_name r)) as [h|] eqn:Eg; [|auto].
  destruct (asNSEC3 r) as [x|] eqn:Ex; [|auto]. destruct (HashIntervalContains h _ target) eqn:Eh; [|auto].
  injection E as ->. exists r, h. split; [left|done].
Qed.

Lemma params_loop_genuine records p0 p : genuine3_set records ->
  (forall q, p0 = Some q -> p_salt q = salt /\ p_iterations q = iters) -> params_loop records p0 = Some p ->
  p_salt p = salt /\ p_iterations p = iters.
Proof.
  intros Hg. revert p0. induction records as [|r records IH]; intros p0 H0; cbn [params_loop]; [by apply H0|].
  assert (genuine3_set records) as Hg' by (intros x n3 Hx; apply Hg; by right). specialize (IH Hg').
  destruct (negb _); [by apply IH|]. destruct (asNSEC3 r) as [n3|] eqn:E; [|done]. destruct (negb _); [done|].
  destruct p0 as [q|].
  - destruct (_ || _); [done|]. by apply IH.
  - apply IH. intros q [= <-]. destruct (Hg r n3 ltac:(left) E) as [? ? _ _]. done.
Qed.

Context (records : list Record_) (Hgen : genuine3_set records).
Context (params : nsec3Params) (Hsalt : p_salt params = salt) (Hiters : p_iterations params = iters).

(** No name of interest collides with a name of the zone. *)
Definition collision_free (rel : Name -> Prop) : Prop :=
  forall m n, rel m -> exists_in o R n -> nsec3Hash m salt iters = nsec3Hash n salt iters -> m = n.

Lemma match_exists rel m n3 : collision_free rel -> rel m -> nsec3Match m params records = Some n3 ->
  exists_in o R m /\ forall x, x ∈ owned R m -> bitmapHas (n3_types n3) (RType x) = true.
Proof.
  intros Hc Hm. unfold nsec3Match. rewrite Hsalt, Hiters. destruct (nsec3Hash m salt iters) as [h|] eqn:Eh; [|done].
  intros E. apply match_loop_Some in E as (r & Hr & E3 & Eo).
  destruct (g3_owner _ _ (Hgen r n3 Hr E3) h Eo) as (n & Hn & Ehn & Ht).
  assert (m = n) as -> by (apply Hc; congruence || done). done.
Qed.

Lemma cover_absent m n3 : nsec3Cover m params records = Some n3 -> optOut n3 = false -> ~ exists_in o R m.
Proof.
  unfold nsec3Cover. rewrite Hsalt, Hiters. destruct (nsec3Hash m salt iters) as [h|] eqn:Eh; [|done].
  intros E Ho Hm. apply cover_loop_Some in E as (r & h' & Hr & E3 & Eo & Ec).
  pose proof (g3_gap _ _ (Hgen r n3 Hr E3) h' Eo Ho m h Hm Eh). congruence.
Qed.

Lemma encloser_loop_Some fuel q zone e : encloser_loop fuel q zone params records = Some e ->
  above q e /\ is_Some (nsec3Match e params records).
Proof.
  revert q. induction fuel as [|fuel IH]; intros q; [done|]. cbn [encloser_loop].
  destruct (Parent q) as [p|] eqn:Ep; [|done].
  assert (above q p) as Hp by (exists p; split; [done|apply rtc_refl]).
  destruct (nsec3Match p params records) eqn:Em; [intros [= <-]; eauto|].
  destruct (Equal p zone) eqn:Ez.
  - apply Equal_iff in Ez as <-. by rewrite Em.
  - intros E. apply IH in E as [Ha ?]. split; [|done]. exists p. split; [done|by apply above_anc].
Qed.

(** The closest-encloser half of a proof. *)
Lemma prove_encloser q zone e nc : canonical q -> collision_free (anc q) ->
  findNSEC3ClosestEncloser q zone params records = Some e ->
  nsec3Cover (NextCloserName q e) params records = Some nc -> optOut nc = false ->
  closest_encloser o R q e /\ ~ exists_in o R q.
Proof.
  intros Hq Hc Hf Hn Ho. apply encloser_loop_Some in Hf as [Ha [n3 Hm]].
  destruct (match_exists _ e n3 Hc (above_anc _ _ Ha) Hm) as [He _].
  destruct (NextCloserName_spec q e Hq Ha) as (_ & H1 & H2).
  eapply closest_by_next_closer; try done. by eapply cover_absent.
Qed.
End Nsec3.

(** The names a proof about [q] hashes: its ancestors and the wildcards below
    them. *)
Definition proof_names (q m : Name) : Prop := anc q m \/ exists e, anc q e /\ wildcard e m.

Section Nsec3Theorems.
Context `{Crypto} (o : Name) (R : list Record_) (salt : bytes) (iters : Z) (records : list Record_).
Context (HR : Forall (rec_ok o) R) (Hgen : genuine3_set o R salt iters records).

Lemma extract_genuine params : extractNSEC3Params records = Some params ->
  p_salt params = salt /\ p_iterations params = iters.
Proof. intros E. by eapply (params_loop_genuine o R salt iters); [exact Hgen| |exact E]. Qed.

(** What [nsec3ProveDenial] has found when it reports one of the two proofs. *)
Inductive proof_shape (q : Name) (qtype : Z) (zone : Name) (params : nsec3Params) : nsec3DenialKind -> Name -> Prop :=
  | shape_exact n3 : nsec3Match q params records = Some n3 -> deniesType qtype n3 = true ->
      proof_shape q qtype zone params nsec3DenialNoData zeroName
  | shape_absent k e nc w n3 : findNSEC3ClosestEncloser q zone params records = Some e ->
      nsec3Cover (NextCloserName q e) params records = Some nc -> optOut nc = false -> WildcardOf e = Ok w ->
      (k = nsec3DenialNXDomain /\ nsec3Cover w params records = Some n3 /\ optOut n3 = false \/
       k = nsec3DenialNoData /\ nsec3Match w params records = Some n3 /\ deniesType qtype n3 = true) ->
      proof_shape q qtype zone params k e.

Lemma proveEncloser_shape q qtype zone params k e :
  proveEncloser q qtype zone params records = mkDenial k e -> k = nsec3DenialNXDomain \/ k = nsec3DenialNoData ->
  proof_shape q qtype zone params k e.
Proof.
  unfold proveEncloser. intros E Hk.
  destruct (findNSEC3ClosestEncloser _ _ _ _) as [e'|] eqn:Ee; [|injection E as <- <-; naive_solver].
  destruct (nsec3Cover (NextCloserName q e') _ _) as [nc|] eqn:Ec; [|injection E as <- <-; naive_solver].
  destruct (optOut nc) eqn:Eo; [injection E as <- <-; naive_solver|].
  destruct (WildcardOf e') as [w|] eqn:Ew; [|injection E as <- <-; naive_solver].
  destruct (nsec3Cover w _ _) as [n3|] eqn:En.
  - destruct (optOut n3) eqn:Eo3; injection E as <- <-; [naive_solver|]. eapply shape_absent; eauto.
  - destruct (nsec3Match w _ _) as [n3|] eqn:Em; [|injection E as <- <-; naive_solver].
    destruct (deniesType qtype n3) eqn:Ed; injection E as <- <-; [|naive_solver]. eapply shape_absent; eauto.
Qed.

Lemma nsec3ProveDenial_shape q qtype zone k e : nsec3ProveDenial q qtype zone records = mkDenial k e ->
  k = nsec3DenialNXDomain \/ (k = nsec3DenialNoData /\ qtype <> rrtype.DS) ->
  exists params, extractNSEC3Params records = Some params /\ proof_shape q qtype zone params k e.
Proof.
  unfold nsec3ProveDenial. intros E Hk.
  destruct (extractNSEC3Params records) as [params|]; [|injection E as <- <-; naive_solver].
  exists params. split; [done|]. destruct (_ <? _); [injection E as <- <-; naive_solver|].
  assert (proveEncloser q qtype zone params records = mkDenial k e -> proof_shape q qtype zone params k e) as He.
  { intros E'. apply proveEncloser_shape in E'; [done|naive_solver]. }
  assert (match nsec3Match q params records with
          | Some n3 => if deniesType qtype n3 then mkDenial nsec3DenialNoData zeroName else proveEncloser q qtype zone params records
          | None => proveEncloser q qtype zone params records
          end = mkDenial k e -> proof_shape q qtype zone params k e) as Hm.
  { intros E'. destruct (nsec3Match q params records) as [n3|] eqn:Em; [|auto].
    destruct (deniesType qtype n3) eqn:Ed; [|auto]. injection E' as <- <-. by eapply shape_exact. }
  destruct (qtype =? rrtype.DS) eqn:Et; bool_facts; [|auto].
  unfold proveDS in E. destruct Hk as [-> |[-> ?]]; [|done].
  repeat (case_match; try done); try (apply Hm; congruence); auto.
Qed.

Lemma wildcard_absent e w n3 params : canonical e -> p_salt params = salt -> p_iterations params = iters ->
  WildcardOf e = Ok w -> nsec3Cover w params records = Some n3 -> optOut n3 = false ->
  forall w', wildcard e w' -> owned R w' = [].
Proof.
  intros He Hs Hi Ew Ec Eo w' Hw'. apply FromLabels_star in Ew; [|done]. rewrite (wildcard_inj e w' w) by done.
  destruct (owned R w) eqn:E; [done|]. exfalso.
  eapply (cover_absent o R salt iters records Hgen params Hs Hi); [exact Ec|exact Eo|].
  apply owned_exists_in; [done|congruence].
Qed.

(** C10. NSEC3 proofs of non-existence are sound (RFC 5155 section 8.4): if
    the records are genuine members of the zone's chain and no ancestor of
    the query name collides with a name of the zone, then a proof classified
    NXDOMAIN means that the name does not exist, that the reported encloser
    is its closest encloser and that no wildcard below it exists; so, unless
    a DNAME redirects the name, the records of the zone have no answer at the
    name ([at_node], which leaves delegations above the name aside). *)
Theorem nsec3_nxdomain_sound q qtype zone e : canonical q -> collision_free o R salt iters (anc q) ->
  nsec3ProveDenial q qtype zone records = mkDenial nsec3DenialNXDomain e ->
  ~ exists_in o R q /\ closest_encloser o R q e /\ (forall w, wildcard e w -> owned R w = []) /\
  ((forall d s, ~ dname_redirects R q d s) -> forall t, at_node o R t q NoName).
Proof.
  intros Hq Hc E. apply nsec3ProveDenial_shape in E as (params & Ep & Hs); [|by left].
  inversion Hs as [|k e' nc w n3 Hf Hn Ho Hw [(_ & Hcov & Ho3)|(? & _)]]; subst; [|done].
  destruct (extract_genuine params Ep) as [Hsalt Hiters].
  destruct (prove_encloser o R _ _ records Hgen params Hsalt Hiters q zone e nc Hq Hc Hf Hn Ho) as [Hce Hno].
  assert (canonical e) as He by (eapply above_canonical; [exact Hq|apply Hce]).
  assert (forall w', wildcard e w' -> owned R w' = []) as Hwild by by eapply wildcard_absent.
  split_and!; try done. intros Hd t. apply node_nxdomain; [done..|]. intros e' w' He' Hw'.
  rewrite (closest_encloser_inj o R q e' e) in Hw' by done. by apply Hwild.
Qed.

Lemma denies_lacks m n3 qtype : deniesType qtype n3 = true ->
  (forall x, x ∈ owned R m -> bitmapHas (n3_types n3) (RType x) = true) -> lacks R m qtype.
Proof.
  intros Hd Ht x Hx. specialize (Ht x Hx). unfold deniesType in Hd. rewrite andb_true_iff, !negb_true_iff in Hd.
  destruct Hd as [H1 H2]. split; intros E; rewrite E in Ht; congruence.
Qed.

(** NSEC3 proofs of the absence of a type are sound (RFC 5155 sections
    8.5 and 8.7): under the same hypotheses, a proof classified NoData (for a
    type other than DS) means that the zone's authoritative answer has no
    data, at the name itself or at the wildcard that matches it.  The only
    exception is a wildcard that owns no records but has names below it. *)
Theorem nsec3_nodata_sound q qtype zone e : canonical q -> collision_free o R salt iters (proof_names q) ->
  qtype <> rrtype.DS -> (forall d s, ~ dname_redirects R q d s) ->
  nsec3ProveDenial q qtype zone records = mkDenial nsec3DenialNoData e ->
  at_node o R qtype q NoData \/
  (closest_encloser o R q e /\ exists w, wildcard e w /\ exists_in o R w /\ owned R w = []).
Proof.
  intros Hq Hc Hds Hd E. apply nsec3ProveDenial_shape in E as (params & Ep & Hs); [|by right].
  assert (collision_free o R salt iters (anc q)) as Hc' by (intros m n Hm; apply Hc; by left).
  inversion Hs as [n3 Hm Hdt|k e' nc w n3 Hf Hn Ho Hw [(? & _)|(_ & Hm & Hdt)]]; subst; [|done|]; destruct (extract_genuine params Ep) as [Hsalt Hiters].
  - left. destruct (match_exists o R _ _ records Hgen params Hsalt Hiters _ q n3 Hc' ltac:(apply rtc_refl) Hm) as [He Ht].
    apply nodata_exact; [done|by eapply denies_lacks].
  - destruct (prove_encloser o R _ _ records Hgen params Hsalt Hiters q zone e nc Hq Hc' Hf Hn Ho) as [Hce Hno].
    assert (canonical e) as He by (eapply above_canonical; [exact Hq|apply Hce]). apply FromLabels_star in Hw; [|done].
    assert (proof_names q w) as Hrel by (right; exists e; split; [apply above_anc, Hce|done]).
    destruct (match_exists o R _ _ records Hgen params Hsalt Hiters _ w n3 Hc Hrel Hm) as [Hex Ht].
    assert (owned R w = [] \/ owned R w <> []) as [Eo|Eo] by (destruct (owned R w); auto); [right; eauto|]. left.
    eapply nodata_wildcard; [done..|by eapply denies_lacks].
Qed.
End Nsec3Theorems.

(** *** A zone with two names and its NSEC3 chain, hashed by [plainCrypto] *)
Module Nsec3Sample.
#[local] Existing Instance plainCrypto.
Definition zone : Name := SigSample.zone.
Definition host : Name := nm [[97]; SigSample.example].
Definition q : Name := nm [[98]; SigSample.example].
Definition soa : Record_ := NewRecord zone (60 * Second) (RD_SOA zone zone 1 Second Second Second Second).
Definition R : list Record_ := [soa; NewRecord host (60 * Second) SigSample.a1].
Definition owner3 (n : Name) : Name := nm [map foldByte (Base32HexEncode (wire n)); SigSample.example].
Definition nsec3 (n next : Name) (types : list Z) : Record_ :=
  NewRecord (owner3 n) (60 * Second) (RD_NSEC3 NSEC3HashSHA1 0 0 [] (wire next) types).
Definition chain : list Record_ := [nsec3 zone host [rrtype.SOA]; nsec3 host zone [rrtype.A]].

Lemma zone_canonical : canonical zone.
Proof. apply labels_okb_canonical. reflexivity. Qed.
Lemma host_canonical : canonical host.
Proof. apply labels_okb_canonical. reflexivity. Qed.
Lemma q_canonical : canonical q.
Proof. apply labels_okb_canonical. reflexivity. Qed.

Lemma zone_records : Forall (rec_ok zone) R.
Proof.
  assert (anc host zone) by (apply (anc_nm [[97]] [SigSample.example]); reflexivity).
  repeat constructor; cbn; auto using zone_canonical, host_canonical; try done; by eexists.
Qed.
Lemma names n : exists_in zone R n -> n = zone \/ n = host.
Proof.
  intros [Ho (r & Hr & Ha)].
  assert (anc zone n -> n = zone) as Hz.
  { intros H. apply anc_antisym; try done; [|apply zone_canonical]. eapply canonical_anc; [apply zone_canonical|done]. }
  repeat (apply elem_of_cons in Hr as [->|Hr]; [|try by apply elem_of_nil in Hr]); [auto|].
  cbn in Ha. inversion Ha as [|? m ? Hm H]; subst; [by right|]. left. apply Hz.
  assert (m = zone) as <-; [|done]. unfold up in Hm.
  change (Parent host) with (Some zone) in Hm. congruence.
Qed.
Lemma hashes n : canonical n -> nsec3Hash n [] 0 = Some (wire n).
Proof.
  intros Hn. unfold nsec3Hash. cbn. rewrite app_nil_r. f_equal. by apply AppendWire_valid, canonical_valid.
Qed.
Lemma chain_genuine : genuine3_set zone R [] 0 chain.
Proof.
  assert (forall n next types, canonical n -> canonical next -> nsec3OwnerHash (owner3 n) = Ok (wire n) ->
    exists_in zone R n -> (forall x, x ∈ owned R n -> bitmapHas types (RType x) = true) ->
    HashIntervalContains (wire n) (wire next) (wire zone) = false ->
    HashIntervalContains (wire n) (wire next) (wire host) = false ->
    genuine3 zone R [] 0 (nsec3 n next types) (mkNSEC3 NSEC3HashSHA1 0 0 [] (wire next) types)) as H.
  { intros n next types Hn Hx Eo He Ht H1 H2. split; [done|done|..].
    - intros h E. cbn in E. rewrite Eo in E. injection E as <-. exists n. by rewrite hashes.
    - intros h E _ m hm Hm Em. cbn in E. rewrite Eo in E. injection E as <-.
      destruct (names m Hm) as [-> | ->]; rewrite hashes in Em by auto using zone_canonical, host_canonical;
        injection Em as <-; done. }
  assert (exists_in zone R zone) as Hz.
  { split; [apply rtc_refl|]. exists soa. split; [left|apply rtc_refl]. }
  assert (exists_in zone R host) as Hh.
  { split; [apply (anc_nm [[97]] [SigSample.example]); reflexivity|]. eexists. split; [right; left|apply rtc_refl]. }
  intros r n3 Hr E3. repeat (apply elem_of_cons in Hr as [->|Hr]; [|try by apply elem_of_nil in Hr]);
    cbn in E3; injection E3 as <-; apply H; auto using zone_canonical, host_canonical; try (vm_compute; reflexivity).
  all: intros x Hx; apply elem_of_owned in Hx as [Hx Ex].
  all: repeat (apply elem_of_cons in Hx as [->|Hx]; [|try by apply elem_of_nil in Hx]); try reflexivity; vm_compute in Ex; congruence.
Qed.
Lemma no_collisions : collision_free zone R [] 0 (proof_names q).
Proof.
  intros m n Hm Hn E. assert (canonical m) as Cm.
  { destruct Hm as [Hm|(e & _ & [? _])]; [|done]. eapply canonical_anc; [apply q_canonical|done]. }
  assert (canonical n) as Cn by (destruct (names n Hn) as [-> | ->]; auto using zone_canonical, host_canonical).
  rewrite !hashes in E by done. injection E as E. by apply Name_ext.
Qed.
End Nsec3Sample.

(** [b.example] is proved not to exist, and [a.example] to have no AAAA. *)
Lemma nsec3_nxdomain_sound_witness :
  ~ exists_in Nsec3Sample.zone Nsec3Sample.R Nsec3Sample.q.
Proof.
  eapply (@nsec3_nxdomain_sound plainCrypto Nsec3Sample.zone Nsec3Sample.R [] 0 Nsec3Sample.chain
    Nsec3Sample.zone_records Nsec3Sample.chain_genuine Nsec3Sample.q 0 Nsec3Sample.zone Nsec3Sample.zone).
  - exact Nsec3Sample.q_canonical.
  - intros m n Hm. apply Nsec3Sample.no_collisions. by left.
  - vm_compute. reflexivity.
Defined.
Lemma nsec3_nodata_sound_witness :
  at_node Nsec3Sample.zone Nsec3Sample.R rrtype.AAAA Nsec3Sample.host NoData.
Proof.
  assert (collision_free (H := plainCrypto) Nsec3Sample.zone Nsec3Sample.R [] 0 (proof_names Nsec3Sample.host)) as Hc.
  { intros m n Hm Hn E. assert (canonical m) as Cm.
    { destruct Hm as [Hm|(e & _ & [? _])]; [|done]. eapply canonical_anc; [apply Nsec3Sample.host_canonical|done]. }
    assert (canonical n) as Cn by (destruct (Nsec3Sample.names n Hn) as [-> | ->];
      auto using Nsec3Sample.zone_canonical, Nsec3Sample.host_canonical).
    rewrite !Nsec3Sample.hashes in E by done. injection E as E. by apply Name_ext. }
  destruct (@nsec3_nodata_sound plainCrypto Nsec3Sample.zone Nsec3Sample.R [] 0 Nsec3Sample.chain
    Nsec3Sample.chain_genuine Nsec3Sample.host rrtype.AAAA Nsec3Sample.zone zeroName
    Nsec3Sample.host_canonical Hc) as [Hn|[[Ha _] _]].
  - discriminate.
  - intros d s (p & t & _ & (l1 & l2 & El & _ & _) & Ed & _).
    assert (d ∈ Nsec3Sample.R) as Hd by (apply (elem_of_owned _ p); rewrite El; apply elem_of_app; right; left).
    repeat (apply elem_of_cons in Hd as [->|Hd]; [|try by apply elem_of_nil in Hd]); discriminate Ed.
  - vm_compute. reflexivity.
  - exact Hn.
  - apply above_canonical in Ha; [|apply Nsec3Sample.host_canonical]. apply canonical_valid in Ha. discriminate Ha.
Defined.
