(* ===== verification/Nta.v ===== *)
(** * Negative trust anchors (src/dnssec/validator/nta.go)

    The store is a map from wire names to entries; instants and durations
    are nanoseconds.  The clock is an argument of every operation that reads
    it.  The lock makes each operation atomic: [Covers] and [Names] sweep
    expired entries in a second critical section, which is part of the
    operation here because an operation between the two sections commutes
    with a sweep at the same instant ([sweep_live]). *)

From S2P Require Import Prelude Name Wire RData Message Authoritative ZoneTree.

Module NTA.

Definition Hour : Z := 3600 * Second.
Definition DefaultNTATTL : Z := 24 * Hour.
Definition MaxNTATTL : Z := 7 * 24 * Hour.
Definition MaxNTAEntries : Z := 4096.

Record ntaEntry := mkEntry { e_name : Name; expiresAt : Z }.
Abbreviation Store := (gmap bytes ntaEntry).

Definition ntaKey (n : Name) : bytes := AppendWire n [].
(** [e.expiresAt.After(now)] *)
Definition live (now : Z) (e : ntaEntry) : bool := now <? expiresAt e.

Section iteration.
Context {MR : MapRange}.

(** The running minimum of [evictSoonestLocked]: strictly earlier replaces. *)
Definition soonest (entries : list (bytes * ntaEntry)) : option (bytes * Z) :=
  fold_left (fun best '(k, e) =>
    match best with
    | Some (_, t) => if expiresAt e <? t then Some (k, expiresAt e) else best
    | None => Some (k, expiresAt e)
    end) entries None.
(** [delete] of the empty key when the store is empty. *)
Definition evictSoonestLocked (s : Store) : Store :=
  match soonest (mapRange s) with Some (k, _) => delete k s | None => delete [] s end.

Definition Add (now : Z) (n : Name) (ttl : Z) (s : Store) : bool * Store :=
  if negb (IsValid n) then (false, s)
  else
    let ttl := if ttl <=? 0 then DefaultNTATTL else ttl in
    let ttl := if MaxNTATTL <? ttl then MaxNTATTL else ttl in
    let k := ntaKey n in
    let existed := bool_decide (is_Some (s !! k)) in
    let s := if negb existed && (MaxNTAEntries <=? Z.of_nat (size s)) then evictSoonestLocked s else s in
    (negb existed, <[k := mkEntry n (now + ttl)]> s).

(** The construction reads the clock once per name. *)
Definition NewNTAStore (now : Z) (initial : list Name) : Store :=
  fold_left (fun s n => snd (Add now n DefaultNTATTL s)) initial ∅.

Definition Remove (n : Name) (s : Store) : bool * Store :=
  if negb (IsValid n) then (false, s)
  else
    let k := ntaKey n in
    match s !! k with None => (false, s) | Some _ => (true, delete k s) end.

Definition sweepExpiredLocked (now : Z) (s : Store) : Store := filter (fun ke => live now (snd ke) = true) s.
Definition hasExpiredLocked (now : Z) (s : Store) : bool :=
  existsb (fun ke => negb (live now (snd ke))) (mapRange s).

Definition Names (now : Z) (s : Store) : list Name * Store :=
  let s := if hasExpiredLocked now s then sweepExpiredLocked now s else s in
  (map (fun ke => e_name (snd ke)) (List.filter (fun ke => live now (snd ke)) (mapRange s)), s).

(** The walk over the ancestors: matched, and whether an expired entry was
    met.  [cur.Equal(parent)] never holds. *)
Fixpoint scan_loop (fuel : nat) (now : Z) (s : Store) (cur : Name) (sawExpired : bool) : bool * bool :=
  match fuel with
  | O => (false, sawExpired)
  | S fuel =>
      let next (sawExpired : bool) :=
        match Parent cur with
        | None => (false, sawExpired)
        | Some parent => if Equal cur parent then (false, sawExpired) else scan_loop fuel now s parent sawExpired
        end in
      match s !! ntaKey cur with
      | Some e => if live now e then (true, sawExpired) else next true
      | None => next sawExpired
      end
  end.
Definition coverScanLocked (now : Z) (s : Store) (n : Name) : bool * bool :=
  let '(matched, sawExpired) := scan_loop (S (length (wire n))) now s n false in
  (matched, sawExpired || existsb (fun ke => negb (live now (snd ke))) (take 8 (mapRange s))).

Definition Covers (now : Z) (n : Name) (s : Store) : bool * Store :=
  if negb (IsValid n) then (false, s)
  else if bool_decide (size s = 0%nat) then (false, s)
  else
    let '(matched, sawExpired) := coverScanLocked now s n in
    (matched, if sawExpired then sweepExpiredLocked now s else s).

(** ** What a store means *)

(** The name is under a negative trust anchor at an instant. *)
Definition covered_at (now : Z) (s : Store) (n : Name) : Prop :=
  exists p e, anc n p /\ s !! ntaKey p = Some e /\ now < expiresAt e.

Lemma live_spec now e : live now e = true <-> now < expiresAt e.
Proof. apply Z.ltb_lt. Qed.

Lemma sweep_lookup now s k e : sweepExpiredLocked now s !! k = Some e <-> s !! k = Some e /\ now < expiresAt e.
Proof. unfold sweepExpiredLocked. rewrite map_lookup_filter_Some. cbn. by rewrite live_spec. Qed.

(** Sweeping changes no answer, at that instant or later. *)
Lemma sweep_live now now' s n : now <= now' -> covered_at now' (sweepExpiredLocked now s) n <-> covered_at now' s n.
Proof.
  intros Hle. split; intros (p & e & Ha & E & Hl); exists p, e; split_and!; try done.
  - by apply sweep_lookup in E as [? _].
  - apply sweep_lookup. split; [done|lia].
Qed.

Lemma scan_loop_spec fuel now s n b : canonical n -> (length (wire n) < fuel)%nat ->
  fst (scan_loop fuel now s n b) = true <-> covered_at now s n.
Proof.
  revert n b. induction fuel as [|fuel IH]; intros n b Hn Hf; [lia|]. cbn [scan_loop].
  assert (forall b, (forall e, s !! ntaKey n = Some e -> live now e = false) ->
    fst (match Parent n with None => (false, b)
         | Some parent => if Equal n parent then (false, b) else scan_loop fuel now s parent b end) = true
    <-> covered_at now s n) as Hnext.
  { intros b' Hno. destruct (Parent n) as [p|] eqn:Ep.
    - assert (canonical p) as Hp by by eapply canonical_up.
      pose proof (up_shorter n p Hn Ep) as Hs. destruct (Equal n p) eqn:Eq; [apply Equal_iff in Eq; subst; lia|].
      rewrite IH by (done || lia). split; intros (q & e & Ha & E & Hl).
      + exists q, e. split_and!; try done. by eapply rtc_l.
      + inversion Ha as [|? m ? Hm Ha']; subst; [apply Hno in E; apply live_spec in Hl; congruence|].
        unfold up in Hm. rewrite Ep in Hm. injection Hm as <-. by exists q, e.
    - split; [done|]. intros (q & e & Ha & E & Hl).
      inversion Ha as [|? m ? Hm Ha']; subst; [apply Hno in E; apply live_spec in Hl; congruence|].
      unfold up in Hm. congruence. }
  destruct (s !! ntaKey n) as [e|] eqn:E; [destruct (live now e) eqn:El|].
  - split; [|done]. intros _. exists n, e. split_and!; [apply rtc_refl|done|by apply live_spec].
  - apply Hnext. by intros ? [= <-].
  - by apply Hnext.
Qed.

Lemma Covers_spec now n s : canonical n -> fst (Covers now n s) = true <-> covered_at now s n.
Proof.
  intros Hn. unfold Covers. rewrite (canonical_valid n Hn). cbn [negb]. case_bool_decide as Hz.
  - split; [done|]. apply map_size_empty_inv in Hz as ->. intros (p & e & _ & E & _). by rewrite lookup_empty in E.
  - unfold coverScanLocked. pose proof (scan_loop_spec (S (length (wire n))) now s n false Hn ltac:(lia)) as Hs.
    destruct (scan_loop _ _ _ _ _) as [m x]. done.
Qed.

(** ** Runs of a store *)

(** The clock advances, or an operation runs. *)
Inductive step : Z * Store -> Z * Store -> Prop :=
  | step_tick now now' s : now <= now' -> step (now, s) (now', s)
  | step_remove now n s : step (now, s) (now, snd (Remove n s))
  | step_covers now n s : step (now, s) (now, snd (Covers now n s))
  | step_names now s : step (now, s) (now, snd (Names now s)).
Inductive step_or_add : Z * Store -> Z * Store -> Prop :=
  | step_other st st' : step st st' -> step_or_add st st'
  | step_add now n ttl s : step_or_add (now, s) (now, snd (Add now n ttl s)).

(** Every entry is filed under its own name and ends by the given instant. *)
Definition entries_until (limit : Z) (s : Store) : Prop :=
  forall k e, s !! k = Some e -> k = ntaKey (e_name e) /\ IsValid (e_name e) = true /\ expiresAt e <= limit.
Definition inv (st : Z * Store) : Prop :=
  let '(now, s) := st in Z.of_nat (size s) <= MaxNTAEntries /\ entries_until (now + MaxNTATTL) s.

(** Everything but adding leaves a part of the store. *)
Lemma step_subset now s now' s' : step (now, s) (now', s') -> now <= now' /\ s' ⊆ s.
Proof.
  intros Hs. assert (forall now s, sweepExpiredLocked now s ⊆ s) as Hsw.
  { intros t m. apply map_filter_subseteq. }
  inversion Hs; subst; split; try lia; try done.
  - unfold Remove. destruct (negb _); [done|]. destruct (s !! _); [apply delete_subseteq|done].
  - unfold Covers. destruct (negb _); [done|]. destruct (bool_decide _); [done|].
    destruct (coverScanLocked _ _ _) as [? []]; [apply Hsw|done].
  - unfold Names. cbn. destruct (hasExpiredLocked _ _); [apply Hsw|done].
Qed.
Lemma entries_subset limit s s' : s' ⊆ s -> entries_until limit s -> entries_until limit s'.
Proof. intros Hs H k e E. apply H. by eapply lookup_weaken. Qed.

Lemma soonest_elem l : l <> [] -> exists k t, soonest l = Some (k, t) /\ k ∈ map fst l.
Proof.
  unfold soonest. assert (forall best, (best = None /\ l <> []) \/ (exists k t, best = Some (k, t)) ->
    exists k t, fold_left (fun best '(k, e) =>
      match best with Some (_, t) => if expiresAt e <? t then Some (k, expiresAt e) else best
      | None => Some (k, expiresAt e) end) l best = Some (k, t) /\ (k ∈ map fst l \/ exists t', best = Some (k, t'))) as Hgen.
  { induction l as [|[k e] l IH]; intros best Hb.
    - destruct Hb as [[_ ?]|(k & t & ->)]; [done|]. cbn. exists k, t. eauto.
    - cbn [fold_left map fst]. set (best' := match best with Some (_, t) => _ | None => _ end).
      assert (exists k' t', best' = Some (k', t') /\ (k' = k \/ exists t0, best = Some (k', t0))) as (k' & t' & E' & Hk').
      { subst best'. destruct best as [[k0 t0]|]; [destruct (_ <? _)|]; eauto 10. }
      destruct (IH best') as (r & t & E & Hr); [right; eauto|]. exists r, t. split; [done|].
      destruct Hr as [Hr|(t1 & Hr)]; [left; by right|]. rewrite E' in Hr. injection Hr as -> ->.
      destruct Hk' as [-> |[t0 ->]]; [left; left|right; eauto]. }
  intros Hl. destruct (Hgen None) as (k & t & E & [Hk|(? & ?)]); [by left| |done]. eauto.
Qed.

Lemma evict_size s : (0 < size s)%nat -> S (size (evictSoonestLocked s)) = size s /\ evictSoonestLocked s ⊆ s.
Proof.
  intros Hz. unfold evictSoonestLocked. destruct (soonest_elem (mapRange s)) as (k & t & -> & Hk).
  { intros E. pose proof (mapRange_perm s) as Hp. rewrite E in Hp. apply Permutation_nil_l in Hp.
    symmetry in Hp. apply map_to_list_empty_iff in Hp. subst. rewrite map_size_empty in Hz. lia. }
  rewrite mapRange_perm in Hk. apply list_elem_of_fmap in Hk as ([k' e] & -> & Hk). apply elem_of_map_to_list in Hk.
  split; [|apply delete_subseteq]. cbn. rewrite (map_size_delete_Some k' s) by eauto. lia.
Qed.

Lemma Add_inv now n ttl s : inv (now, s) -> inv (now, snd (Add now n ttl s)).
Proof.
  intros [Hsz He]. unfold Add. destruct (IsValid n) eqn:Hv; [|done]. cbn [negb]. cbv zeta.
  set (ttl1 := if ttl <=? 0 then DefaultNTATTL else ttl). set (ttl2 := if MaxNTATTL <? ttl1 then MaxNTATTL else ttl1).
  assert (ttl2 <= MaxNTATTL) as Ht by (subst ttl2; destruct (_ <? _) eqn:E; bool_facts; lia).
  set (s1 := if _ && _ then _ else _).
  assert (s1 ⊆ s /\ Z.of_nat (size (<[ntaKey n := mkEntry n (now + ttl2)]> s1)) <= MaxNTAEntries) as [Hs1 Hsz1].
  { subst s1. case_bool_decide as Hex; cbn [negb andb].
    - split; [done|]. by rewrite map_size_insert_Some.
    - destruct (MaxNTAEntries <=? _) eqn:E; bool_facts.
      + destruct (evict_size s) as [H1 H2]; [unfold MaxNTAEntries in *; lia|]. split; [done|].
        rewrite map_size_insert. case_match; unfold Datatypes.id, MaxNTAEntries in *; lia.
      + split; [done|]. rewrite map_size_insert. case_match; unfold Datatypes.id, MaxNTAEntries in *; lia. }
  split; [done|]. cbn [snd]. intros k e E. apply lookup_insert_Some in E as [[<- <-]|[_ E]].
  - split_and!; [done..|cbn; lia].
  - apply He. by eapply lookup_weaken.
Qed.

Lemma step_inv st st' : step_or_add st st' -> inv st -> inv st'.
Proof.
  intros [[now s] [now' s'] Hs|now n ttl s] Hi; [|by apply Add_inv].
  apply step_subset in Hs as [Hn Hs]. destruct Hi as [Hsz He]. split.
  - pose proof (map_subseteq_size _ _ Hs). lia.
  - apply (entries_subset _ _ _ Hs). intros k e E. destruct (He k e E) as (? & ? & ?). split_and!; [done..|lia].
Qed.

Lemma NewNTAStore_inv now initial : inv (now, NewNTAStore now initial).
Proof.
  unfold NewNTAStore. assert (inv (now, ∅)) as H0.
  { split; [by rewrite map_size_empty|]. intros k e E. by rewrite lookup_empty in E. }
  generalize dependent (∅ : Store). induction initial as [|n l IH]; intros s Hs; [done|]. cbn. by apply IH, Add_inv.
Qed.

Lemma run_inv st st' : rtc step_or_add st st' -> inv st -> inv st'.
Proof. induction 1; eauto using step_inv. Qed.
Lemma run_subset st st' : rtc step st st' -> snd st' ⊆ snd st.
Proof.
  induction 1 as [|[n1 s1] [n2 s2] st3 H1 _ IH]; [done|]. apply step_subset in H1 as [_ H1]. by etrans.
Qed.

(** Negative trust anchors (RFC 7646): in every run of the store its size
    stays within 4096, every entry is filed under its name and expires within
    a week of the current time, [Covers] answers exactly whether an unexpired
    entry is at or above the name, and an entry is forgotten by itself: a
    week after the last addition nothing is covered, whatever else ran. *)
Theorem nta_run now0 initial now s :
  rtc step_or_add (now0, NewNTAStore now0 initial) (now, s) ->
  Z.of_nat (size s) <= MaxNTAEntries /\ entries_until (now + MaxNTATTL) s /\
  (forall n, canonical n -> fst (Covers now n s) = true <-> covered_at now s n) /\
  (forall now' s' n, rtc step (now, s) (now', s') -> now + MaxNTATTL <= now' -> canonical n ->
     fst (Covers now' n s') = false).
Proof.
  intros Hr. assert (inv (now, s)) as [Hsz He].
  { eapply run_inv; [exact Hr|apply NewNTAStore_inv]. }
  split_and!; [done..| |].
  - intros n Hn. by apply Covers_spec.
  - intros now' s' n Hr' Hle Hn. assert (s' ⊆ s) as Hs.
    { by apply run_subset in Hr'. }
    apply not_true_is_false. rewrite Covers_spec by done. intros (p & e & _ & E & Hl).
    destruct (He _ e (lookup_weaken _ _ _ _ E Hs)) as (_ & _ & Hx). lia.
Qed.
End iteration.
End NTA.

(** One of the orders of iteration. *)
Definition mapRangeOrdered : MapRange :=
  {| mapRange K _ _ A m := map_to_list m; mapRange_perm K _ _ A m := Permutation_refl _ |}.

Lemma nta_run_witness :
  let n := nm [[100; 101]] in
  fst (@NTA.Covers mapRangeOrdered 5 n (@NTA.NewNTAStore mapRangeOrdered 0 [n])) = true /\
  fst (@NTA.Covers mapRangeOrdered (8 * 24 * NTA.Hour) n (@NTA.NewNTAStore mapRangeOrdered 0 [n])) = false.
Proof.
  split; [vm_compute; reflexivity|].
  destruct (@NTA.nta_run mapRangeOrdered 0 [nm [[100; 101]]] 0 (@NTA.NewNTAStore mapRangeOrdered 0 [nm [[100; 101]]]))
    as (_ & _ & _ & H); [apply rtc_refl|].
  apply (H (8 * 24 * NTA.Hour)); [|vm_compute; congruence|apply labels_okb_canonical; reflexivity].
  apply rtc_once. constructor. vm_compute. congruence.
Defined.

