(* ===== verification/Walker.v ===== *)
(** * The validator and the chain walker (src/dnssec/validator: validator.go,
      anchor.go, option.go, walker.go)

    The upstream is a [Source]: any function of the number of lookups made
    so far, the name and the type, so that it may answer the same question
    differently at different times.  Functions that look up take and return
    that number.  The signature checks return, beside their result, the list
    of calls of [dnssec.Verify] they made.  Clocks are constant during one
    call. *)

From Stdlib Require Import Strings.String Strings.Ascii.
From S2P Require Import Prelude Name Wire RData Message Compare Authoritative Dnssec Denial Nta.
Import validatorbb.
Open Scope Z_scope.
Open Scope list_scope.

(** ** Results *)
Inductive Result := Secure | Insecure | Bogus | Indeterminate.
#[export] Instance Result_eq_dec : EqDecision Result.
Proof. solve_decision. Defined.
Inductive BogusPolicy := BogusReturnSERVFAIL | BogusReturnAnswer.

Record ChainStep := mkStep { st_zone : Name; st_keys : list DNSKEY; st_dss : list DS; st_res : Result }.
Record Answer := mkAnswer {
  a_result : Result; a_records : list Record_; a_rcode : Z; a_chain : list ChainStep; a_reason : option error }.
(** The zero value; [Secure] is the zero [Result]. *)
Definition zeroAnswer : Answer := mkAnswer Secure [] 0 [] None.

(** ** anchor.go *)
Record Anchor := mkAnchor { an_name : Name; an_dss : list DS }.
Definition zeroAnchor : Anchor := mkAnchor zeroName [].
Definition AnchorIsValid (a : Anchor) : bool := IsValid (an_name a) && (0 <? zlen (an_dss a)).

Definition NewAnchor (name : Name) (dss : list DS) : res Anchor :=
  if negb (IsValid name) then Err ErrPlain
  else if zlen dss =? 0 then Err ErrPlain
  else Ok (mkAnchor name dss).

(** [rdata.NewDS] of a decoded literal; an error panics. *)
Definition literalDS (tag : Z) (hex : string) : res DS :=
  let? digest := MustHex (str hex) in
  match NewDS tag AlgRSASHA256 DigestSHA256 digest with
  | Ok (RD_DS t a dt d) => Ok (mkDS t a dt d)
  | _ => Err Panic
  end.
Definition IANARootKSK2017DS : res DS :=
  literalDS 20326 "E06D44B80B8F1D39A95C0B0D7C65D08458E880409BBC683457104237C7F8EC8D".
Definition IANARootKSK2024DS : res DS :=
  literalDS 38696 "683D2D0ACB8C9B712A1948B27F741219298D0A450D612C483AF444A4C0FB2B16".
Definition IANARootAnchor : res Anchor :=
  let? a := IANARootKSK2017DS in
  let? b := IANARootKSK2024DS in
  match NewAnchor Root [a; b] with Ok anchor => Ok anchor | Err _ => Err Panic end.

Definition closestStep (qname : Name) (st : Anchor * Z) (a : Anchor) : Anchor * Z :=
  let '(best, bestLabels) := st in
  if negb (NameSuffixEqualOrSubdomain qname (an_name a)) then st
  else if bestLabels <? NumLabels (an_name a) then (a, NumLabels (an_name a)) else st.
Definition closestAnchor (anchors : list Anchor) (qname : Name) : option Anchor :=
  let '(best, _) := fold_left (closestStep qname) anchors (zeroAnchor, -1) in
  if AnchorIsValid best then Some best else None.

(** ** The walker and its options *)
Record walker := mkWalker {
  w_anchors : list Anchor; w_ntas : NTA.Store; w_ntaNow : Z; w_now : Z; w_skew : Z; w_bogusPolicy : BogusPolicy;
  w_maxZoneCuts : Z; w_maxRRSIGsTry : Z; w_maxAlgs : Z; w_maxKeys : Z }.

Inductive WalkerOption :=
  | WithWalkerAnchors (anchors : list Anchor)
  | WithWalkerIANARootAnchor (v : bool)
  | WithWalkerNTAStore (s : option (NTA.Store * Z))
  | WithWalkerBogusPolicy (p : BogusPolicy)
  | WithWalkerClock (now : option Z)
  | WithWalkerClockSkew (skew : Z)
  | WithWalkerMaxZoneCuts (n : Z)
  | WithWalkerMaxRRSIGsTry (n : Z)
  | WithWalkerMaxAlgorithms (n : Z)
  | WithWalkerMaxKeysPerZone (n : Z).

Definition applyOption (w : walker) (o : WalkerOption) : res walker :=
  let '(mkWalker an nt ntn now skew pol cuts tries algs keys) := w in
  match o with
  | WithWalkerAnchors l => Ok (mkWalker l nt ntn now skew pol cuts tries algs keys)
  | WithWalkerIANARootAnchor v =>
      if v then let? a := IANARootAnchor in Ok (mkWalker (an ++ [a]) nt ntn now skew pol cuts tries algs keys) else Ok w
  | WithWalkerNTAStore (Some (s, t)) => Ok (mkWalker an s t now skew pol cuts tries algs keys)
  | WithWalkerNTAStore None => Ok w
  | WithWalkerBogusPolicy p => Ok (mkWalker an nt ntn now skew p cuts tries algs keys)
  | WithWalkerClock (Some t) => Ok (mkWalker an nt ntn t skew pol cuts tries algs keys)
  | WithWalkerClock None => Ok w
  | WithWalkerClockSkew s => if 0 <=? s then Ok (mkWalker an nt ntn now s pol cuts tries algs keys) else Ok w
  | WithWalkerMaxZoneCuts n => if 0 <? n then Ok (mkWalker an nt ntn now skew pol n tries algs keys) else Ok w
  | WithWalkerMaxRRSIGsTry n => if 0 <? n then Ok (mkWalker an nt ntn now skew pol cuts n algs keys) else Ok w
  | WithWalkerMaxAlgorithms n => if 0 <? n then Ok (mkWalker an nt ntn now skew pol cuts tries n keys) else Ok w
  | WithWalkerMaxKeysPerZone n => if 0 <? n then Ok (mkWalker an nt ntn now skew pol cuts tries algs n) else Ok w
  end.
Fixpoint applyOptions (w : walker) (opts : list WalkerOption) : res walker :=
  match opts with
  | [] => Ok w
  | o :: opts => let? w := applyOption w o in applyOptions w opts
  end.
(** [timeNow] is [time.Now]; the source is an argument of [Resolve]. *)
Definition NewWalker (timeNow : Z) (opts : list WalkerOption) : res walker :=
  applyOptions (mkWalker [] ∅ timeNow timeNow 0 BogusReturnSERVFAIL 16 8 4 16) opts.

Definition Source : Type := nat -> Name -> Z -> res Message.

Section Walk.
Context `{Crypto} `{MapRange} (source : Source) (w : walker).

(** [w.ntas.Covers(n)]; its sweep of expired entries changes no later answer. *)
Definition ntaCovers (n : Name) : bool := fst (NTA.Covers (w_ntaNow w) n (w_ntas w)).

(** [w.source.Lookup]: an error of the source is opaque. *)
Definition lookup (n : nat) (name : Name) (t : Z) : res Message * nat :=
  (match source n name t with Ok m => Ok m | Err _ => Err (ErrExternal 0) end, S n).

(** ** Signature checks *)
Definition Calls : Type := list (RRSIG * DNSKEY).

(** The loop over the keys for one signature: a final result, or the number
    of tries and the last error. *)
Fixpoint tryKeys (set : list Record_) (sig : RRSIG) (keys : list DNSKEY) (tries : Z) (lastErr : option error) :
    Calls * (res unit + Z * option error) :=
  match keys with
  | [] => ([], inr (tries, lastErr))
  | key :: keys =>
      if negb (KeyTag key =? s_keyTag sig) || negb (k_algorithm key =? s_algorithm sig)
      then tryKeys set sig keys tries lastErr
      else
        let tries := tries + 1 in
        if w_maxRRSIGsTry w <? tries then
          ([], inl (Err (match lastErr with Some e => e | None => ErrIterationLimit end)))
        else
          match Verify set sig key with
          | Ok _ => ([(sig, key)], inl (Ok tt))
          | Err e => let '(calls, r) := tryKeys set sig keys tries (Some e) in ((sig, key) :: calls, r)
          end
  end.

Fixpoint trySigs (set : list Record_) (sigs : list RRSIG) (keys : list DNSKEY) (tries : Z) (lastErr : option error) :
    Calls * res unit :=
  match sigs with
  | [] => ([], Err (match lastErr with Some e => e | None => ErrPlain end))
  | sig :: sigs =>
      if negb (RRSIGValidNowWithSkew sig (w_now w) (w_skew w)) then trySigs set sigs keys tries (Some ErrPlain)
      else
        let '(calls, r) := tryKeys set sig keys tries lastErr in
        match r with
        | inl res => (calls, res)
        | inr (tries, lastErr) =>
            if w_maxRRSIGsTry w <? tries then (calls, Err (match lastErr with Some e => e | None => ErrPlain end))
            else let '(calls', res) := trySigs set sigs keys tries lastErr in (calls ++ calls', res)
        end
  end.

Definition verifyRRsetWithKeys_calls (set : list Record_) (sigs : list RRSIG) (keys : list DNSKEY) : Calls * res unit :=
  if zlen set =? 0 then ([], Err ErrPlain) else trySigs set sigs keys 0 None.
Definition verifyRRsetWithKeys (set : list Record_) (sigs : list RRSIG) (keys : list DNSKEY) : res unit :=
  snd (verifyRRsetWithKeys_calls set sigs keys).

(** [tryAlgorithm]; [None] from the inner loop means: keep going. *)
Fixpoint algKeys (set : list Record_) (sig : RRSIG) (keys : list DNSKEY) (alg : Z) (tries : Z) :
    Calls * (bool + Z) :=
  match keys with
  | [] => ([], inr tries)
  | key :: keys =>
      if negb (KeyTag key =? s_keyTag sig) || negb (k_algorithm key =? alg) then algKeys set sig keys alg tries
      else
        let tries := tries + 1 in
        if w_maxRRSIGsTry w <? tries then ([], inl false)
        else
          match Verify set sig key with
          | Ok _ => ([(sig, key)], inl true)
          | Err _ => let '(calls, r) := algKeys set sig keys alg tries in ((sig, key) :: calls, r)
          end
  end.
Fixpoint algSigs (set : list Record_) (sigs : list RRSIG) (keys : list DNSKEY) (alg : Z) (tries : Z) : Calls * bool :=
  match sigs with
  | [] => ([], false)
  | sig :: sigs =>
      if negb (s_algorithm sig =? alg) then algSigs set sigs keys alg tries
      else if negb (RRSIGValidNowWithSkew sig (w_now w) (w_skew w)) then algSigs set sigs keys alg tries
      else
        let '(calls, r) := algKeys set sig keys alg tries in
        match r with
        | inl b => (calls, b)
        | inr tries => let '(calls', b) := algSigs set sigs keys alg tries in (calls ++ calls', b)
        end
  end.
Definition tryAlgorithm_calls (set : list Record_) (sigs : list RRSIG) (keys : list DNSKEY) (alg : Z) : Calls * bool :=
  algSigs set sigs keys alg 0.
Definition tryAlgorithm (set : list Record_) (sigs : list RRSIG) (keys : list DNSKEY) (alg : Z) : bool :=
  snd (tryAlgorithm_calls set sigs keys alg).

(** A Go map used as a set of algorithms: its distinct keys.  The loops over
    it give the same result in every order. *)
Definition algSet (dss : list DS) : list Z := remove_dups (map ds_algorithm dss).

Definition verifyRRsetAllAlgs (set : list Record_) (sigs : list RRSIG) (keys : list DNSKEY) (requiredAlgs : list Z) :
    res unit :=
  if zlen requiredAlgs =? 0 then verifyRRsetWithKeys set sigs keys
  else if zlen set =? 0 then Err ErrPlain
  else if forallb (tryAlgorithm set sigs keys) requiredAlgs then Ok tt
  else Err ErrAlgorithmIncomplete.

(** ** DNSKEY sets *)

(** The filter loop of [fetchAndVerifyDNSKEY]. *)
Fixpoint usableKeys (rrs : list Record_) : res (list DNSKEY) :=
  match rrs with
  | [] => Ok []
  | r :: rrs =>
      match asDNSKEY r with
      | None => Err ErrPlain
      | Some k =>
          let? rest := usableKeys rrs in
          if negb (k_protocol k =? 3) || negb (Z.land (k_flags k) DNSKEYFlagRevoke =? 0) then Ok rest
          else if Z.land (k_flags k) DNSKEYFlagZone =? 0 then Ok rest
          else Ok (k :: rest)
      end
  end.

(** The keys a DS record designates: at most one for each record. *)
Definition matchDS (zone : Name) (keys : list DNSKEY) (ds : DS) : option DNSKEY :=
  List.find (fun key => (KeyTag key =? ds_keyTag ds) && (k_algorithm key =? ds_algorithm ds)
                        && is_ok (VerifyDS zone ds key)) keys.
Definition trustedKSKs (zone : Name) (dss : list DS) (keys : list DNSKEY) : list DNSKEY :=
  omap (matchDS zone keys) dss.

(** [fetchAndVerifyDNSKEY] after the lookup. *)
Definition verifyDNSKEYs (zone : Name) (dss : list DS) (msg : Message) : res (list DNSKEY) :=
  let dnskeyRRs := RecordsOfType (answers msg) rrtype.DNSKEY zone in
  if zlen dnskeyRRs =? 0 then Err ErrPlain
  else
    let preCap := w_maxKeys w * 4 in
    if (0 <? preCap) && (preCap <? zlen dnskeyRRs) then Err ErrIterationLimit
    else
      let? keys := usableKeys dnskeyRRs in
      if zlen keys =? 0 then Err ErrPlain
      else if w_maxKeys w <? zlen keys then Err ErrIterationLimit
      else if w_maxAlgs w <? zlen (algSet dss) then Err ErrIterationLimit
      else
        let ksks := trustedKSKs zone dss keys in
        if zlen ksks =? 0 then Err ErrPlain
        else
          let sigs := rrsigsForTypeAndOwner (extractRRSIGs (answers msg)) rrtype.DNSKEY zone in
          if zlen sigs =? 0 then Err ErrPlain
          else
            let? _ := verifyRRsetWithKeys dnskeyRRs sigs ksks in
            if forallb (tryAlgorithm dnskeyRRs sigs keys) (algSet dss) then Ok keys
            else Err ErrAlgorithmIncomplete.
Definition fetchAndVerifyDNSKEY (n : nat) (zone : Name) (dss : list DS) : res (list DNSKEY) * nat :=
  let '(m, n) := lookup n zone rrtype.DNSKEY in
  (let? msg := m in verifyDNSKEYs zone dss msg, n).

(** ** Denial of existence *)

(** The loop over groups that [verifyNSEC3Set], [validateNSECNXDomain],
    [validateWildcardNextCloser] and [validateNoDataNSEC] share. *)
Fixpoint verifyGroups (t : Z) (groups : list (list Record_)) (allSigs : list RRSIG) (keys : list DNSKEY) : res unit :=
  match groups with
  | [] => Ok tt
  | set :: groups =>
      let owner := match set with r :: _ => r_name r | [] => zeroName end in
      let sigs := rrsigsForTypeAndOwner allSigs t owner in
      if zlen sigs =? 0 then Err ErrPlain
      else let? _ := verifyRRsetWithKeys set sigs keys in verifyGroups t groups allSigs keys
  end.

Definition verifyNSEC3Set (nsec3RRs authority : list Record_) (parentKeys : list DNSKEY) : res unit :=
  verifyGroups rrtype.NSEC3 (GroupRecordsByOwner nsec3RRs) (extractRRSIGs authority) parentKeys.

Definition validateNSEC3NXDomain (qname parentZone : Name) (parentKeys : list DNSKEY) (msg : Message) : res unit :=
  let nsec3RRs := recordsOfType3 (authorities msg) in
  if zlen nsec3RRs =? 0 then Err ErrPlain
  else
    let? _ := verifyNSEC3Set nsec3RRs (authorities msg) parentKeys in
    match kind (nsec3ProveDenial qname 0 parentZone nsec3RRs) with
    | nsec3DenialNXDomain => Ok tt
    | nsec3DenialOptOut => Err errInsecureNSEC3OptOut
    | nsec3DenialIterationsExceeded => Err errInsecureNSEC3Iterations
    | _ => Err ErrPlain
    end.

(** The first NSEC record that covers a name, with its two ends. *)
Definition covering (n : Name) (nsecRRs : list Record_) : option (Name * Name) :=
  match List.find (fun r => match asNSEC r with
                            | Some nsec => NameCoveredBy n (r_name r) (nsec_next nsec)
                            | None => false
                            end) nsecRRs with
  | Some r => match asNSEC r with Some nsec => Some (r_name r, nsec_next nsec) | None => None end
  | None => None
  end.

(** The loop over the records in step 2 of [validateNSECNXDomain]. *)
Fixpoint wildcardScan (wildcard : Name) (nsecRRs : list Record_) : res unit :=
  match nsecRRs with
  | [] => Err ErrPlain
  | r :: nsecRRs =>
      match asNSEC r with
      | None => wildcardScan wildcard nsecRRs
      | Some nsec =>
          if Equal (r_name r) wildcard then Err ErrPlain
          else if NameCoveredBy wildcard (r_name r) (nsec_next nsec) then Ok tt
          else wildcardScan wildcard nsecRRs
      end
  end.

(** Steps 1 and 2 of [validateNSECNXDomain]. *)
Definition nsecProvesNXDomain (qname : Name) (nsecRRs : list Record_) : res unit :=
  match covering qname nsecRRs with
  | None => Err ErrPlain
  | Some (coverOwner, coverNext) =>
      let encA := LongestCommonAncestor qname coverOwner in
      let encB := LongestCommonAncestor qname coverNext in
      let encloser := if NumLabels encA <? NumLabels encB then encB else encA in
      match WildcardOf encloser with
      | Err _ => Err ErrPlain
      | Ok wildcard => wildcardScan wildcard nsecRRs
      end
  end.

Definition validateNSECNXDomain (qname : Name) (parentKeys : list DNSKEY) (msg : Message) : res unit :=
  let nsecRRs := allNSEC (authorities msg) in
  if zlen nsecRRs =? 0 then Err ErrPlain
  else
    let? _ := verifyGroups rrtype.NSEC (GroupRecordsByOwner nsecRRs) (extractRRSIGs (authorities msg)) parentKeys in
    nsecProvesNXDomain qname nsecRRs.

Definition validateNXDomain (qname parentZone : Name) (parentKeys : list DNSKEY) (msg : Message) : res unit :=
  let hasNSEC := 0 <? zlen (allNSEC (authorities msg)) in
  let hasNSEC3 := 0 <? zlen (recordsOfType3 (authorities msg)) in
  if hasNSEC then validateNSECNXDomain qname parentKeys msg
  else if hasNSEC3 then validateNSEC3NXDomain qname parentZone parentKeys msg
  else Err ErrPlain.

(** ** DS responses *)
Inductive dsOutcome := dsOutcomeCut | dsOutcomeInsecure | dsOutcomeNonCut | dsOutcomeNXDomain.
#[local] Instance dsOutcome_eq_dec : EqDecision dsOutcome.
Proof. solve_decision. Defined.

(** The [switch] over the bitmaps; the error stands for [dsOutcomeUnknown]. *)
Fixpoint nsecDS (nsecRRs : list Record_) : res dsOutcome :=
  match nsecRRs with
  | [] => Err ErrPlain
  | r :: nsecRRs =>
      match asNSEC r with
      | None => nsecDS nsecRRs
      | Some nsec =>
          let hasNS := bitmapHas (nsec_types nsec) rrtype.NS in
          let hasDS := bitmapHas (nsec_types nsec) rrtype.DS in
          let hasSOA := bitmapHas (nsec_types nsec) rrtype.SOA in
          if hasNS && negb hasDS && negb hasSOA then Ok dsOutcomeInsecure
          else if negb hasDS then Ok dsOutcomeNonCut
          else nsecDS nsecRRs
      end
  end.

(** [None]: no NSEC records (ok = false). *)
Definition classifyDSViaNSEC (candidate : Name) (parentKeys : list DNSKEY) (msg : Message) : option (res dsOutcome) :=
  let nsecRRs := RecordsOfType (authorities msg) rrtype.NSEC candidate in
  let nsecRRs := if zlen nsecRRs =? 0 then FilterNSECByOwner (authorities msg) candidate else nsecRRs in
  if zlen nsecRRs =? 0 then None
  else Some (
    let sigs := rrsigsForTypeAndOwner (extractRRSIGs (authorities msg)) rrtype.NSEC candidate in
    if zlen sigs =? 0 then Err ErrPlain
    else let? _ := verifyRRsetWithKeys nsecRRs sigs parentKeys in nsecDS nsecRRs).

Definition classifyDSViaNSEC3 (candidate parentZone : Name) (parentKeys : list DNSKEY) (msg : Message) :
    option (res dsOutcome) :=
  let nsec3RRs := recordsOfType3 (authorities msg) in
  if zlen nsec3RRs =? 0 then None
  else Some (
    let? _ := verifyNSEC3Set nsec3RRs (authorities msg) parentKeys in
    match kind (nsec3ProveDenial candidate rrtype.DS parentZone nsec3RRs) with
    | nsec3DenialInsecureDelegation | nsec3DenialOptOut | nsec3DenialIterationsExceeded => Ok dsOutcomeInsecure
    | nsec3DenialNoData => Ok dsOutcomeNonCut
    | _ => Err ErrPlain
    end).

Fixpoint allDS (rrs : list Record_) : res (list DS) :=
  match rrs with
  | [] => Ok []
  | r :: rrs => match asDS r with None => Err ErrPlain | Some d => let? rest := allDS rrs in Ok (d :: rest) end
  end.

Definition classifyDSResponse (candidate parentZone : Name) (parentKeys : list DNSKEY) (msg : Message) :
    res (dsOutcome * list DS) :=
  if RCODE (flags msg) =? RCODENXDomain then
    let? _ := validateNXDomain candidate parentZone parentKeys msg in Ok (dsOutcomeNXDomain, [])
  else
    let dsRRs := RecordsOfType (answers msg) rrtype.DS candidate in
    if 0 <? zlen dsRRs then
      let? dss := allDS dsRRs in
      let sigs := rrsigsForTypeAndOwner (extractRRSIGs (answers msg)) rrtype.DS candidate in
      if zlen sigs =? 0 then Err ErrPlain
      else let? _ := verifyRRsetWithKeys dsRRs sigs parentKeys in Ok (dsOutcomeCut, dss)
    else
      match classifyDSViaNSEC candidate parentKeys msg with
      | Some r => let? out := r in Ok (out, [])
      | None =>
          match classifyDSViaNSEC3 candidate parentZone parentKeys msg with
          | Some r => let? out := r in Ok (out, [])
          | None => Err ErrPlain
          end
      end.

(** ** The chain *)
Record walked := mkWalked {
  wk_chain : list ChainStep; wk_keys : list DNSKEY; wk_insecureFrom : Name; wk_err : option error }.

(** The loop of [walkChain].  The zone gains a label in every iteration, so
    one iteration for each label of the query name and one more are enough
    ([walk_loop_fuel]). *)
Fixpoint walk_loop (fuel n : nat) (chain : list ChainStep) (parentKeys : list DNSKEY) (zone qname : Name) : walked * nat :=
  match fuel with
  | O => (mkWalked chain [] zeroName (Some ErrFuel), n)
  | S fuel =>
      if Equal zone qname then (mkWalked chain parentKeys zeroName None, n)
      else if w_maxZoneCuts w <? zlen chain then (mkWalked chain [] zeroName (Some ErrIterationLimit), n)
      else
        let nextLabels := NumLabels zone + 1 in
        if NumLabels qname <? nextLabels then (mkWalked chain parentKeys zeroName None, n)
        else
          let candidate := TruncateNameTo qname nextLabels in
          if ntaCovers candidate then (mkWalked chain parentKeys candidate None, n)
          else
            let '(m, n) := lookup n candidate rrtype.DS in
            match m with
            | Err e => (mkWalked chain [] zeroName (Some e), n)
            | Ok dsMsg =>
                match classifyDSResponse candidate zone parentKeys dsMsg with
                | Err e => (mkWalked chain [] zeroName (Some e), n)
                | Ok (dsOutcomeCut, dsRRs) =>
                    let '(ck, n) := fetchAndVerifyDNSKEY n candidate dsRRs in
                    match ck with
                    | Err e => (mkWalked chain [] zeroName (Some e), n)
                    | Ok childKeys =>
                        walk_loop fuel n (chain ++ [mkStep candidate childKeys dsRRs Secure]) childKeys candidate qname
                    end
                | Ok (dsOutcomeInsecure, _) =>
                    (mkWalked (chain ++ [mkStep candidate [] [] Insecure]) parentKeys candidate None, n)
                | Ok (dsOutcomeNonCut, _) => walk_loop fuel n chain parentKeys candidate qname
                | Ok (dsOutcomeNXDomain, _) =>
                    if Equal candidate qname then
                      (mkWalked (chain ++ [mkStep candidate [] [] Secure]) parentKeys candidate
                         (Some errNXDomainAtCandidate), n)
                    else (mkWalked chain [] zeroName (Some ErrPlain), n)
                end
            end
  end.

Definition walkFuel (qname : Name) : nat := S (S (Z.to_nat (NumLabels qname))).

Definition walkChain (n : nat) (anchor : Anchor) (qname : Name) : walked * nat :=
  let '(k, n) := fetchAndVerifyDNSKEY n (an_name anchor) (an_dss anchor) in
  match k with
  | Err e => (mkWalked [] [] zeroName (Some e), n)
  | Ok keys =>
      walk_loop (walkFuel qname) n [mkStep (an_name anchor) keys (an_dss anchor) Secure] keys (an_name anchor) qname
  end.

(** [deepestSecureZone] and [signingAlgorithms]: [slices.Backward]. *)
Definition isSecure (s : ChainStep) : bool := match st_res s with Secure => true | _ => false end.
Definition deepestSecureZone (chain : list ChainStep) : Name :=
  match List.find isSecure (rev chain) with Some s => st_zone s | None => zeroName end.
Definition signingAlgorithms (chain : list ChainStep) : list Z :=
  match List.find (fun s => isSecure s && (0 <? zlen (st_dss s))) (rev chain) with
  | Some s => algSet (st_dss s)
  | None => []
  end.

(** ** Answers *)

(** [w.bogus]: the error is nil under [BogusReturnAnswer]. *)
Definition bogus (chain : list ChainStep) (e : error) : Answer * option error :=
  (mkAnswer Bogus [] 0 chain (Some e),
   match w_bogusPolicy w with BogusReturnAnswer => None | BogusReturnSERVFAIL => Some e end).
Definition indeterminate (e : option error) (note : bool) : Answer :=
  mkAnswer Indeterminate [] 0 []
    (match e with Some e => Some e | None => if note then Some ErrPlain else None end).

Definition synthStep (labels : Z) (st : Z * bool) (sig : RRSIG) : Z * bool :=
  let '(encloserLabels, wildcard) := st in
  let l := s_labels sig in
  if (l <? labels) && (negb wildcard || (l <? encloserLabels)) then (l, true) else st.
Definition wildcardSynthLabels (qname : Name) (sigs : list RRSIG) : Z * bool :=
  fold_left (synthStep (NumLabels qname)) sigs (-1, false).

Definition validateWildcardNextCloser (qname : Name) (encloserLabels : Z) (parentKeys : list DNSKEY) (msg : Message) :
    res unit :=
  let nsecRRs := allNSEC (authorities msg) in
  let nsec3RRs := recordsOfType3 (authorities msg) in
  if (zlen nsecRRs =? 0) && (zlen nsec3RRs =? 0) then Err ErrPlain
  else if 0 <? zlen nsecRRs then
    let? _ := verifyGroups rrtype.NSEC (GroupRecordsByOwner nsecRRs) (extractRRSIGs (authorities msg)) parentKeys in
    match covering qname nsecRRs with Some _ => Ok tt | None => Err ErrPlain end
  else
    let? _ := verifyNSEC3Set nsec3RRs (authorities msg) parentKeys in
    match extractNSEC3Params nsec3RRs with
    | None => Err ErrPlain
    | Some params =>
        let nextCloserLabels := encloserLabels + 1 in
        if NumLabels qname <? nextCloserLabels then Err ErrPlain
        else
          match nsec3Cover (TruncateNameTo qname nextCloserLabels) params nsec3RRs with
          | None => Err ErrPlain
          | Some nc => if optOut nc then Err errInsecureNSEC3OptOut else Ok tt
          end
    end.

(** The two scans of [validateNoDataNSEC]. *)
Definition nsecDeniesType (qname : Name) (qtype : Z) (r : Record_) : bool :=
  Equal (r_name r) qname &&
  match asNSEC r with
  | Some nsec => negb (bitmapHas (nsec_types nsec) qtype) && negb (bitmapHas (nsec_types nsec) rrtype.CNAME)
  | None => false
  end.
Definition nsecProvesENT (qname : Name) (r : Record_) : bool :=
  match asNSEC r with
  | None => false
  | Some nsec =>
      let next := nsec_next nsec in
      let owner := r_name r in
      if Equal next qname then false
      else if negb (NameSuffixEqualOrSubdomain qname owner) || Equal owner qname then false
      else NameSuffixEqualOrSubdomain next qname
  end.
Definition secureNoData (chain : list ChainStep) : Answer := mkAnswer Secure [] RCODENoError chain None.

Definition validateNoDataNSEC (qname : Name) (qtype : Z) (parentKeys : list DNSKEY) (msg : Message)
    (chain : list ChainStep) : option Answer :=
  let allNSECs := allNSEC (authorities msg) in
  if zlen allNSECs =? 0 then None
  else
    match verifyGroups rrtype.NSEC (GroupRecordsByOwner allNSECs) (extractRRSIGs (authorities msg)) parentKeys with
    | Err _ => None
    | Ok _ =>
        if existsb (nsecDeniesType qname qtype) allNSECs then Some (secureNoData chain)
        else if existsb (nsecProvesENT qname) allNSECs then Some (secureNoData chain)
        else None
    end.

(** The check that the responder's signer is the chain's deepest zone or an
    ancestor of it. *)
Definition foreignSigner (zone : Name) (msg : Message) : bool :=
  let respSigner := SignerOf (authorities msg) in
  IsValid respSigner && negb (NameSuffixEqualOrSubdomain zone respSigner) && negb (Equal respSigner zone).

Definition validateNoDataNSEC3 (qname : Name) (qtype : Z) (parentKeys : list DNSKEY) (msg : Message)
    (chain : list ChainStep) : option Answer :=
  let nsec3RRs := recordsOfType3 (authorities msg) in
  if zlen nsec3RRs =? 0 then None
  else
    match verifyNSEC3Set nsec3RRs (authorities msg) parentKeys with
    | Err _ => None
    | Ok _ =>
        let zone := deepestSecureZone chain in
        if negb (IsValid zone) then None
        else if foreignSigner zone msg then None
        else
          match kind (nsec3ProveDenial qname qtype zone nsec3RRs) with
          | nsec3DenialNoData => Some (secureNoData chain)
          | nsec3DenialIterationsExceeded => Some (mkAnswer Insecure (answers msg) RCODENoError chain None)
          | _ => None
          end
    end.

Definition validateNoData (qname : Name) (qtype : Z) (parentKeys : list DNSKEY) (msg : Message)
    (chain : list ChainStep) : Answer * option error :=
  match validateNoDataNSEC qname qtype parentKeys msg chain with
  | Some ans => (ans, None)
  | None =>
      match validateNoDataNSEC3 qname qtype parentKeys msg chain with
      | Some ans => (ans, None)
      | None => bogus chain ErrPlain
      end
  end.

(** [errors.Is] on the two internal sentinels. *)
Definition isInsecureSentinel (e : error) : bool :=
  bool_decide (e = errInsecureNSEC3Iterations) || bool_decide (e = errInsecureNSEC3OptOut).

Definition validateNegative (qname : Name) (qtype : Z) (parentKeys : list DNSKEY) (msg : Message)
    (chain : list ChainStep) : Answer * option error :=
  if negb (RCODE (flags msg) =? RCODENXDomain) then validateNoData qname qtype parentKeys msg chain
  else
    let zone := deepestSecureZone chain in
    if negb (IsValid zone) then bogus chain ErrPlain
    else if foreignSigner zone msg then bogus chain ErrPlain
    else
      match validateNXDomain qname zone parentKeys msg with
      | Err e =>
          if isInsecureSentinel e then (mkAnswer Insecure [] RCODENXDomain chain (Some e), None) else bogus chain e
      | Ok _ => (mkAnswer Secure [] RCODENXDomain chain None, None)
      end.

(** The answer path of [Resolve], once the chain is known and the answer
    fetched. *)
Definition validateAnswer (qname : Name) (qtype : Z) (parentKeys : list DNSKEY) (chain : list ChainStep)
    (msg : Message) : Answer * option error :=
  let rcode := RCODE (flags msg) in
  if (rcode =? RCODENoError) && (0 <? zlen (answers msg)) then
    let matching := RecordsOfType (answers msg) qtype qname in
    if zlen matching =? 0 then validateNoData qname qtype parentKeys msg chain
    else
      let sigs := rrsigsForTypeAndOwner (extractRRSIGs (answers msg)) qtype qname in
      if zlen sigs =? 0 then bogus chain ErrUnsignedAnswer
      else
        match verifyRRsetAllAlgs matching sigs parentKeys (signingAlgorithms chain) with
        | Err e => bogus chain e
        | Ok _ =>
            let '(encloserLabels, wildcard) := wildcardSynthLabels qname sigs in
            let secure := (mkAnswer Secure matching rcode chain None, None) in
            if wildcard then
              match validateWildcardNextCloser qname encloserLabels parentKeys msg with
              | Ok _ => secure
              | Err e =>
                  if bool_decide (e = errInsecureNSEC3OptOut) then (mkAnswer Insecure matching rcode chain (Some e), None)
                  else bogus chain e
              end
            else secure
        end
  else validateNegative qname qtype parentKeys msg chain.

Definition Resolve (qname : Name) (qtype : Z) : (Answer * option error) * nat :=
  if negb (IsValid qname) then ((zeroAnswer, Some ErrPlain), 0%nat)
  else if ntaCovers qname then ((indeterminate None true, None), 0%nat)
  else
    match closestAnchor (w_anchors w) qname with
    | None => ((indeterminate (Some ErrNoTrustAnchor) false, Some ErrNoTrustAnchor), 0%nat)
    | Some anchor =>
        let '(wk, n) := walkChain 0 anchor qname in
        let chain := wk_chain wk in
        match wk_err wk with
        | Some e =>
            if bool_decide (e = errNXDomainAtCandidate) then ((mkAnswer Secure [] RCODENXDomain chain None, None), n)
            else (bogus chain e, n)
        | None =>
            let '(m, n) := lookup n qname qtype in
            match m with
            | Err e => (bogus chain e, n)
            | Ok msg =>
                if IsValid (wk_insecureFrom wk) then
                  ((mkAnswer Insecure (answers msg) (RCODE (flags msg)) chain None, None), n)
                else (validateAnswer qname qtype (wk_keys wk) chain msg, n)
            end
        end
    end.
End Walk.

(** ** validator.go *)
Record Validator := mkValidator { v_ntas : NTA.Store; v_ntaNow : Z; v_now : Z; v_skew : Z; v_bogusPolicy : BogusPolicy }.

Section Validate.
Context `{Crypto} `{MapRange} (v : Validator).

(** The loop over the keys for one signature: success, or the number of
    matching keys and the last error. *)
Fixpoint validateKeys (set : list Record_) (sig : RRSIG) (keys : list DNSKEY) (matched : bool) (verifyErr : option error) :
    option (bool * option error) :=
  match keys with
  | [] => Some (matched, verifyErr)
  | key :: keys =>
      if negb (k_algorithm key =? s_algorithm sig) then validateKeys set sig keys matched verifyErr
      else if negb (KeyTag key =? s_keyTag sig) then validateKeys set sig keys matched verifyErr
      else match Verify set sig key with
           | Ok _ => None
           | Err e => validateKeys set sig keys true (Some e)
           end
  end.
Fixpoint validateSigs (set : list Record_) (sigs : list RRSIG) (keys : list DNSKEY) (lastErr : option error) :
    RRSIG + option error :=
  match sigs with
  | [] => inr lastErr
  | sig :: sigs =>
      if negb (RRSIGValidNowWithSkew sig (v_now v) (v_skew v)) then validateSigs set sigs keys (Some ErrPlain)
      else match validateKeys set sig keys false None with
           | None => inl sig
           | Some (matched, e) => validateSigs set sigs keys (if matched then e else Some ErrPlain)
           end
  end.

(** The signature that verified, if any, and the error. *)
Definition ValidateRRset (set : list Record_) (rrsigs : list RRSIG) (keys : list DNSKEY) :
    Result * option RRSIG * option error :=
  match set with
  | [] => (Indeterminate, None, Some ErrPlain)
  | r0 :: _ =>
      if fst (NTA.Covers (v_ntaNow v) (r_name r0) (v_ntas v)) then (Indeterminate, None, None)
      else if zlen rrsigs =? 0 then (Bogus, None, Some ErrNoCoveringRRSIG)
      else match validateSigs set rrsigs keys None with
           | inl sig => (Secure, Some sig, None)
           | inr e => (Bogus, None, e)
           end
  end.

Definition VerifyDelegation (owner : Name) (dsRecords : list DS) (keys : list DNSKEY) : Result * option error :=
  if fst (NTA.Covers (v_ntaNow v) owner (v_ntas v)) then (Indeterminate, None)
  else if zlen dsRecords =? 0 then (Insecure, None)
  else if existsb (fun ds => existsb (fun key => is_ok (VerifyDS owner ds key)) keys) dsRecords then (Secure, None)
  else (Bogus, Some ErrPlain).
End Validate.
