(* ===== verification/WalkerSound.v ===== *)
(** * What the chain walker establishes

    The bounded search for a verifying signature is compared with a reference
    search over all pairs of a signature and a key; the walk over zone cuts
    terminates within a bound on its queries; and every answer reported as
    secure or insecure has a justification that starts at a trust anchor. *)

From S2P Require Import Prelude Name Wire RData Message Compare RRset Authoritative ZoneTree ZoneLookup Dnssec Signatures Denial DenialOrder DenialSound Nta Walker.
Import validatorbb.
Open Scope Z_scope.
Open Scope list_scope.

(** ** The search for a verifying signature *)
Section Search.
Context `{Crypto} (w : walker) (set : list Record_).

Definition verifies (c : RRSIG * DNSKEY) : bool := is_ok (Verify set (fst c) (snd c)).

(** The reference: try the first [n] pairs, stop at the first success. *)
Fixpoint firstOk (n : nat) (l : Calls) : Calls * bool :=
  match n, l with
  | S n, c :: l => if verifies c then ([c], true) else let '(cs, b) := firstOk n l in (c :: cs, b)
  | _, _ => ([], false)
  end.

Lemma firstOk_more n l l' : snd (firstOk n l) = true \/ (n < length l)%nat -> firstOk n (l ++ l') = firstOk n l.
Proof.
  revert n. induction l as [|c l IH]; intros [|n]; cbn; try done; try (intros [|]; (done || lia)).
  destruct (verifies c); [done|]. intros Hc. rewrite IH; [done|]. destruct (firstOk n l). cbn in *. destruct Hc; [by left|right; lia].
Qed.
Lemma firstOk_rest n l l' : snd (firstOk n l) = false -> (length l <= n)%nat ->
  firstOk n (l ++ l') = (fst (firstOk n l) ++ fst (firstOk (n - length l) l'), snd (firstOk (n - length l) l')).
Proof.
  revert n. induction l as [|c l IH]; intros n; cbn.
  - rewrite Nat.sub_0_r. intros _ _. destruct n; apply surjective_pairing.
  - destruct n as [|n]; [lia|]. cbn. destruct (verifies c); [done|]. intros Hb Hn.
    specialize (IH n). destruct (firstOk n l) as [cs b]. cbn in *. rewrite IH; [done|done|lia].
Qed.
Lemma firstOk_prefix n l : fst (firstOk n l) `prefix_of` l /\ (length (fst (firstOk n l)) <= n)%nat.
Proof.
  revert n. induction l as [|c l IH]; intros [|n]; cbn; try (split; [apply prefix_nil|lia]).
  destruct (verifies c); cbn; [split; [apply prefix_cons, prefix_nil|lia]|].
  destruct (IH n) as [Hp Hl], (firstOk n l). cbn in *. split; [by apply prefix_cons|lia].
Qed.
Lemma firstOk_true n l : snd (firstOk n l) = true <-> existsb verifies (take n l) = true.
Proof.
  revert n. induction l as [|c l IH]; intros [|n]; cbn; try done. destruct (verifies c); cbn; [done|].
  rewrite <- IH. by destruct (firstOk n l).
Qed.
Lemma firstOk_hit n l : snd (firstOk n l) = true <-> exists c, c ∈ take n l /\ Verify set (fst c) (snd c) = Ok tt.
Proof.
  rewrite firstOk_true, existsb_exists. split; intros (c & Hc & Hv); exists c; rewrite <- ?list_elem_of_In, ?list_elem_of_In in *.
  - split; [done|]. unfold verifies in Hv. by destruct (Verify _ _ _) as [[]|].
  - split; [done|]. unfold verifies. by rewrite Hv.
Qed.

(** The pairs of a signature in its validity period and a key it names. *)
Definition signs (sig : RRSIG) (key : DNSKEY) : bool :=
  (KeyTag key =? s_keyTag sig) && (k_algorithm key =? s_algorithm sig).
Definition keysOf (keys : list DNSKEY) (sig : RRSIG) : Calls :=
  if RRSIGValidNowWithSkew sig (w_now w) (w_skew w) then map (pair sig) (List.filter (signs sig) keys) else [].
Definition candidates (sigs : list RRSIG) (keys : list DNSKEY) : Calls := concat (map (keysOf keys) sigs).

Definition budget (tries : Z) : nat := Z.to_nat (w_maxRRSIGsTry w - tries).

(** One signature: either the search is over, or every key has been tried. *)
Definition sig_step (tries : Z) (l calls : Calls) (over : option bool) (tries' : Z) : Prop :=
  calls = fst (firstOk (budget tries) l) /\
  match over with
  | Some b => snd (firstOk (budget tries) l) = b /\ (b = true \/ (budget tries < length l)%nat)
  | None => snd (firstOk (budget tries) l) = false /\ (length l <= budget tries)%nat /\
            tries' = tries + zlen l
  end.

Lemma sig_step_cons c l tries calls over tries' : tries < w_maxRRSIGsTry w -> verifies c = false ->
  sig_step (tries + 1) l calls over tries' -> sig_step tries (c :: l) (c :: calls) over tries'.
Proof.
  intros Ht Hv [-> Hs]. assert (budget tries = S (budget (tries + 1))) as E by (unfold budget; lia).
  unfold sig_step. rewrite E. cbn [firstOk]. rewrite Hv. destruct (firstOk _ l) as [cs b]. cbn [fst snd] in *.
  split; [done|]. destruct over; cbn [length].
  - destruct Hs as [-> [?|?]]; split; auto; right; lia.
  - destruct Hs as (-> & ? & ->). split_and!; [done|lia|]. unfold zlen. cbn [length]. lia.
Qed.

Lemma sig_step_nil tries : sig_step tries [] [] None tries.
Proof. unfold sig_step. destruct (budget tries); cbn; split_and!; try done; unfold zlen; cbn; lia. Qed.
Lemma sig_step_stop c l tries t : w_maxRRSIGsTry w < tries + 1 -> sig_step tries (c :: l) [] (Some false) t.
Proof.
  intros Hm. unfold sig_step. assert (budget tries = 0%nat) as -> by (unfold budget; lia). cbn. split_and!; auto. right. lia.
Qed.
Lemma sig_step_hit c l tries t : tries + 1 <= w_maxRRSIGsTry w -> verifies c = true ->
  sig_step tries (c :: l) [c] (Some true) t.
Proof.
  intros Hm Hv. unfold sig_step. destruct (budget tries) eqn:E; [unfold budget in E; lia|]. cbn [firstOk]. rewrite Hv. auto.
Qed.

Lemma tryKeys_step sig keys tries lastErr : let '(calls, r) := tryKeys w set sig keys tries lastErr in
  sig_step tries (map (pair sig) (List.filter (signs sig) keys)) calls
    (match r with inl res => Some (is_ok res) | inr _ => None end) (match r with inl _ => 0 | inr (t, _) => t end).
Proof.
  revert tries lastErr. induction keys as [|key keys IH]; intros tries lastErr; cbn [tryKeys List.filter]; [apply sig_step_nil|].
  unfold signs at 1. rewrite <- negb_andb. destruct (_ && _); cbn [negb]; [|apply IH].
  destruct (w_maxRRSIGsTry w <? tries + 1) eqn:Em; bool_facts; [by apply sig_step_stop|].
  assert (verifies (sig, key) = is_ok (Verify set sig key)) as Ev by done. cbn [map]. destruct (Verify set sig key) as [u|e].
  - by apply sig_step_hit.
  - specialize (IH (tries + 1) (Some e)). destruct (tryKeys w set sig keys (tries + 1) (Some e)).
    apply sig_step_cons; [lia|done..].
Qed.
Lemma algKeys_step sig keys tries : let '(calls, r) := algKeys w set sig keys (s_algorithm sig) tries in
  sig_step tries (map (pair sig) (List.filter (signs sig) keys)) calls
    (match r with inl b => Some b | inr _ => None end) (match r with inl _ => 0 | inr t => t end).
Proof.
  revert tries. induction keys as [|key keys IH]; intros tries; cbn [algKeys List.filter]; [apply sig_step_nil|].
  unfold signs at 1. rewrite <- negb_andb. destruct (_ && _); cbn [negb]; [|apply IH].
  destruct (w_maxRRSIGsTry w <? tries + 1) eqn:Em; bool_facts; [by apply sig_step_stop|].
  assert (verifies (sig, key) = is_ok (Verify set sig key)) as Ev by done. cbn [map]. destruct (Verify set sig key) as [u|e].
  - by apply sig_step_hit.
  - specialize (IH (tries + 1)). destruct (algKeys w set sig keys (s_algorithm sig) (tries + 1)).
    apply sig_step_cons; [lia|done..].
Qed.

(** Once a signature is settled the search over the others follows. *)
Lemma sig_step_over tries l l' calls b t : sig_step tries l calls (Some b) t ->
  firstOk (budget tries) (l ++ l') = (calls, b).
Proof.
  intros (-> & <- & Hb). rewrite firstOk_more by done. by destruct (firstOk _ _).
Qed.
Lemma sig_step_next tries l l' calls t cs b : sig_step tries l calls None t ->
  firstOk (budget t) l' = (cs, b) -> firstOk (budget tries) (l ++ l') = (calls ++ cs, b).
Proof.
  intros (-> & Hb & Hl & ->) E. rewrite firstOk_rest by done.
  replace (budget tries - length l)%nat with (budget (tries + zlen l)) by (unfold budget, zlen; lia). by rewrite E.
Qed.

Lemma trySigs_firstOk sigs keys tries lastErr : let '(calls, r) := trySigs w set sigs keys tries lastErr in
  firstOk (budget tries) (candidates sigs keys) = (calls, is_ok r).
Proof.
  revert tries lastErr. induction sigs as [|sig sigs IH]; intros tries lastErr; cbn [trySigs]; [by destruct (budget tries)|].
  unfold candidates in *. cbn [map concat]. unfold keysOf at 1. destruct (RRSIGValidNowWithSkew _ _ _); cbn [negb]; [|apply IH].
  pose proof (tryKeys_step sig keys tries lastErr) as Hs. destruct (tryKeys w set sig keys tries lastErr) as [calls [r|[t e]]].
  { by eapply sig_step_over. }
  destruct (w_maxRRSIGsTry w <? t) eqn:Em; bool_facts.
  - rewrite <- (app_nil_r calls). eapply sig_step_next; [done|].
    assert (budget t = 0%nat) as E by (unfold budget; lia). by rewrite E.
  - specialize (IH t e). destruct (trySigs w set sigs keys t e). by eapply sig_step_next.
Qed.
Lemma algSigs_firstOk sigs keys alg tries : let '(calls, b) := algSigs w set sigs keys alg tries in
  firstOk (budget tries) (candidates (List.filter (fun s => (s_algorithm s =? alg)%Z) sigs) keys) = (calls, b).
Proof.
  revert tries. induction sigs as [|sig sigs IH]; intros tries; cbn [algSigs List.filter]; [by destruct (budget tries)|].
  destruct (s_algorithm sig =? alg) eqn:Ea; cbn [negb]; [|apply IH]. bool_facts.
  unfold candidates in *. cbn [map concat]. unfold keysOf at 1. destruct (RRSIGValidNowWithSkew _ _ _); cbn [negb]; [|apply IH].
  pose proof (algKeys_step sig keys tries) as Hs. rewrite Ea in Hs. destruct (algKeys w set sig keys alg tries) as [calls [r|t]].
  { by eapply sig_step_over. }
  specialize (IH t). destruct (algSigs w set sigs keys alg t). by eapply sig_step_next.
Qed.

Lemma candidates_spec c sigs keys : c ∈ candidates sigs keys <->
  fst c ∈ sigs /\ snd c ∈ keys /\ signs (fst c) (snd c) = true /\
  RRSIGValidNowWithSkew (fst c) (w_now w) (w_skew w) = true.
Proof.
  unfold candidates. etrans; [apply list_elem_of_In|]. rewrite in_concat. split.
  - intros (l & Hl & Hc). apply in_map_iff in Hl as (sig & <- & Hs). unfold keysOf in Hc.
    destruct (RRSIGValidNowWithSkew sig _ _) eqn:Ev; [|by destruct Hc]. apply in_map_iff in Hc as (key & <- & Hk).
    apply filter_In in Hk as [Hk Hm]. cbn. by rewrite !list_elem_of_In.
  - destruct c as [sig key]. cbn. intros (Hs & Hk & Hm & Hv). exists (keysOf keys sig).
    split; [apply in_map, list_elem_of_In, Hs|]. unfold keysOf. rewrite Hv. apply in_map, filter_In.
    by rewrite <- list_elem_of_In.
Qed.
End Search.

(** Bounded signature search (the KeyTrap limit): on a non-empty set
    [verifyRRsetWithKeys] and [tryAlgorithm] make exactly the calls of
    [dnssec.Verify] the reference search makes on the pairs of a signature
    inside its validity period (of the algorithm asked for) and a key with its
    tag and algorithm, in order: at most [maxRRSIGsTry], none after the first
    success; and they succeed exactly if one of the first [maxRRSIGsTry] pairs
    verifies. *)
Theorem signature_search `{Crypto} w set sigs keys alg : set <> [] ->
  let n := Z.to_nat (w_maxRRSIGsTry w) in
  let of_alg := candidates w (List.filter (fun s => s_algorithm s =? alg) sigs) keys in
  fst (verifyRRsetWithKeys_calls w set sigs keys) = fst (firstOk set n (candidates w sigs keys)) /\
  (verifyRRsetWithKeys w set sigs keys = Ok tt <->
   exists c, c ∈ take n (candidates w sigs keys) /\ Verify set (fst c) (snd c) = Ok tt) /\
  fst (tryAlgorithm_calls w set sigs keys alg) = fst (firstOk set n of_alg) /\
  (tryAlgorithm w set sigs keys alg = true <->
   exists c, c ∈ take n of_alg /\ Verify set (fst c) (snd c) = Ok tt) /\
  zlen (fst (verifyRRsetWithKeys_calls w set sigs keys)) <= Z.max 0 (w_maxRRSIGsTry w) /\
  zlen (fst (tryAlgorithm_calls w set sigs keys alg)) <= Z.max 0 (w_maxRRSIGsTry w).
Proof.
  intros Hs n of_alg. unfold verifyRRsetWithKeys, verifyRRsetWithKeys_calls, tryAlgorithm, tryAlgorithm_calls.
  assert (zlen set =? 0 = false) as -> by (by destruct set).
  pose proof (trySigs_firstOk w set sigs keys 0 None) as E1. pose proof (algSigs_firstOk w set sigs keys alg 0) as E2.
  unfold budget in E1, E2. rewrite Z.sub_0_r in E1, E2. fold n of_alg in E1, E2.
  pose proof (firstOk_prefix set n (candidates w sigs keys)) as [_ L1]. pose proof (firstOk_prefix set n of_alg) as [_ L2].
  pose proof (firstOk_hit set n (candidates w sigs keys)) as H1. pose proof (firstOk_hit set n of_alg) as H2.
  destruct (trySigs w set sigs keys 0 None) as [calls r], (algSigs w set sigs keys alg 0) as [calls' b].
  rewrite E1 in *. rewrite E2 in *. cbn [fst snd] in *. unfold zlen. split_and!; try done; try lia.
  rewrite <- H1. by destruct r as [[]|].
Qed.

(** ** Trust *)
Section Trust.
Context `{Crypto} `{MapRange} (source : Source) (w : walker).

(** One of [sigs] is a valid signature on [set] by one of [keys], which
    satisfies [P], in its validity period. *)
Definition signedWith (P : DNSKEY -> Prop) (set : list Record_) (sigs : list RRSIG) (keys : list DNSKEY) : Prop :=
  exists sig key, sig ∈ sigs /\ key ∈ keys /\ P key /\
    RRSIGValidNowWithSkew sig (w_now w) (w_skew w) = true /\ Verify set sig key = Ok tt.
Definition signedBy : list Record_ -> list RRSIG -> list DNSKEY -> Prop := signedWith (fun _ => True).
Definition signedUnder (alg : Z) : list Record_ -> list RRSIG -> list DNSKEY -> Prop :=
  signedWith (fun key => k_algorithm key = alg).

(** A set of records of one owner and type. *)
Definition set_of (n : Name) (t : Z) (rrs : list Record_) : Prop :=
  rrs <> [] /\ Forall (fun r => r_name r = n /\ RType r = t) rrs.

(** The keys of a zone follow from its DS records: the DNSKEY set is signed
    by a key that one of them designates, and under each of their
    algorithms. *)
Definition vouched (zone : Name) (dss : list DS) (keys : list DNSKEY) : Prop :=
  exists rrs sigs, set_of zone rrtype.DNSKEY rrs /\ usableKeys rrs = Ok keys /\
    signedWith (fun ksk => exists ds, ds ∈ dss /\ VerifyDS zone ds ksk = Ok tt) rrs sigs keys /\
    forall ds, ds ∈ dss -> signedUnder (ds_algorithm ds) rrs sigs keys.

(** The keys of a zone follow from a trust anchor: through a DNSKEY set
    vouched for by DS records that are the anchor's, or signed by trusted
    keys of a zone above. *)
Inductive trusted : Name -> list DS -> list DNSKEY -> Prop :=
  | trust_anchor a keys : a ∈ w_anchors w -> vouched (an_name a) (an_dss a) keys ->
      trusted (an_name a) (an_dss a) keys
  | trust_cut zone dss keys child rrs sigs dss' keys' : trusted zone dss keys -> above child zone ->
      set_of child rrtype.DS rrs -> allDS rrs = Ok dss' -> signedBy rrs sigs keys -> vouched child dss' keys' ->
      trusted child dss' keys'.

Lemma verified_signed set sigs keys : verifyRRsetWithKeys w set sigs keys = Ok tt -> signedBy set sigs keys.
Proof.
  unfold verifyRRsetWithKeys, verifyRRsetWithKeys_calls. destruct (zlen set =? 0); [done|].
  pose proof (trySigs_firstOk w set sigs keys 0 None) as E. destruct (trySigs _ _ _ _ _ _) as [calls r]. intros [= ->].
  destruct (proj1 (firstOk_hit set (budget w 0) (candidates w sigs keys))) as ([sig key] & Hc & Hv); [by rewrite E|].
  apply elem_of_take in Hc as (i & Hi & _). apply list_elem_of_lookup_2, candidates_spec in Hi as (? & ? & _ & ?). by exists sig, key.
Qed.
Lemma algorithm_signed set sigs keys alg : tryAlgorithm w set sigs keys alg = true -> signedUnder alg set sigs keys.
Proof.
  unfold tryAlgorithm, tryAlgorithm_calls. pose proof (algSigs_firstOk w set sigs keys alg 0) as E.
  destruct (algSigs _ _ _ _ _ _) as [calls b]. intros [= ->].
  destruct (proj1 (firstOk_hit set _ _) (f_equal snd E)) as ([sig key] & Hc & Hv).
  apply elem_of_take in Hc as (i & Hi & _). apply list_elem_of_lookup_2, candidates_spec in Hi as (Hs & Hk & Hm & ?).
  apply list_elem_of_In, filter_In in Hs as [Hs Ea]. unfold signs in Hm. bool_facts. exists sig, key.
  split_and!; try done; [by apply list_elem_of_In|cbn in *; congruence].
Qed.
Lemma algorithms_signed set sigs keys dss : forallb (tryAlgorithm w set sigs keys) (algSet dss) = true ->
  forall ds, ds ∈ dss -> signedUnder (ds_algorithm ds) set sigs keys.
Proof.
  intros Hall ds Hds. rewrite forallb_forall in Hall. apply algorithm_signed, Hall.
  apply list_elem_of_In, elem_of_remove_dups, list_elem_of_fmap. eauto.
Qed.

Lemma RecordsOfType_set records t n : zlen (RecordsOfType records t n) =? 0 = false -> set_of n t (RecordsOfType records t n).
Proof.
  intros Hz. split; [by intros E; rewrite E in Hz|]. apply Forall_forall. intros r Hr.
  apply list_elem_of_In, filter_In in Hr as [_ Hr]. bool_facts. by rewrite <- Equal_iff.
Qed.
Lemma trustedKSKs_elem zone dss keys ksk : ksk ∈ trustedKSKs zone dss keys ->
  ksk ∈ keys /\ exists ds, ds ∈ dss /\ VerifyDS zone ds ksk = Ok tt.
Proof.
  intros Hk. apply list_elem_of_omap in Hk as (ds & Hd & E). apply find_some in E as [Hi E]. bool_facts.
  split; [by apply list_elem_of_In|]. exists ds. split; [done|]. by destruct (VerifyDS _ _ _) as [[]|].
Qed.

Lemma verifyDNSKEYs_vouched zone dss msg keys : verifyDNSKEYs w zone dss msg = Ok keys -> vouched zone dss keys.
Proof.
  unfold verifyDNSKEYs. destruct (zlen (RecordsOfType _ _ _) =? 0) eqn:E0; [done|]. destruct (_ && _); [done|].
  intros E. inv_ok. repeat (match goal with E : (if ?b then _ else _) = Ok _ |- _ => destruct b eqn:?; [done|] end).
  inv_ok. destruct (forallb _ _) eqn:Ea; [|done]. inv_ok.
  eexists _, _. split_and!; [by apply RecordsOfType_set|done| |by apply algorithms_signed].
  match goal with E : verifyRRsetWithKeys _ _ _ _ = Ok ?u |- _ => destruct u; apply verified_signed in E as (sig & ksk & ? & Hk & _ & ? & ?) end.
  apply trustedKSKs_elem in Hk as [? ?]. by exists sig, ksk.
Qed.
Lemma fetch_vouched n zone dss keys n' : fetchAndVerifyDNSKEY source w n zone dss = (Ok keys, n') -> vouched zone dss keys.
Proof.
  unfold fetchAndVerifyDNSKEY. destruct (lookup _ _ _ _) as [[msg|] m]; cbn [res_bind]; intros [= E ?].
  by eapply verifyDNSKEYs_vouched.
Qed.

(** *** Evidence of absence *)

(** Every owner's records in [rrs] are signed by [keys]. *)
Definition signedSets (keys : list DNSKEY) (rrs : list Record_) : Prop :=
  Forall (fun set => exists sigs, signedBy set sigs keys) (GroupRecordsByOwner rrs).

(** Signed records from which the checks conclude that [q] does not exist. *)
Inductive denies_name (q : Name) (keys : list DNSKEY) : Prop :=
  | denies_name_nsec rrs : signedSets keys rrs -> nsecProvesNXDomain q rrs = Ok tt -> denies_name q keys
  | denies_name_nsec3 zone rrs : signedSets keys rrs ->
      kind (nsec3ProveDenial q 0 zone rrs) = nsec3DenialNXDomain -> denies_name q keys.

(** The same for the type [t] at [q]. *)
Inductive denies_type (q : Name) (t : Z) (keys : list DNSKEY) : Prop :=
  | denies_type_nsec rrs r : signedSets keys rrs -> r ∈ rrs ->
      nsecDeniesType q t r = true \/ nsecProvesENT q r = true -> denies_type q t keys
  | denies_type_nsec3 zone rrs : signedSets keys rrs ->
      kind (nsec3ProveDenial q t zone rrs) = nsec3DenialNoData -> denies_type q t keys.

(** The same for every name between [q] and its ancestor with [l] labels, as
    a wildcard expansion to [q] needs. *)
Inductive denies_closer (q : Name) (l : Z) (keys : list DNSKEY) : Prop :=
  | denies_closer_nsec rrs : signedSets keys rrs -> is_Some (covering q rrs) -> denies_closer q l keys
  | denies_closer_nsec3 params rrs n3 : signedSets keys rrs -> extractNSEC3Params rrs = Some params ->
      nsec3Cover (TruncateNameTo q (l + 1)) params rrs = Some n3 -> optOut n3 = false -> denies_closer q l keys.

(** The same for the DS records of a child zone. *)
Inductive denies_ds (child : Name) (keys : list DNSKEY) : Prop :=
  | denies_ds_nsec rrs sigs : set_of child rrtype.NSEC rrs -> signedBy rrs sigs keys ->
      nsecDS rrs = Ok dsOutcomeInsecure -> denies_ds child keys
  | denies_ds_nsec3 zone rrs : signedSets keys rrs ->
      kind (nsec3ProveDenial child rrtype.DS zone rrs) ∈
        [nsec3DenialInsecureDelegation; nsec3DenialOptOut; nsec3DenialIterationsExceeded] -> denies_ds child keys.

Lemma verifyGroups_signed t groups sigs keys : verifyGroups w t groups sigs keys = Ok tt ->
  Forall (fun set => exists sigs, signedBy set sigs keys) groups.
Proof.
  induction groups as [|set groups IH]; cbn [verifyGroups]; [by constructor|]. destruct (_ =? 0); [done|].
  intros E. inv_ok. constructor; [|by apply IH]. destruct x. eexists. by apply verified_signed.
Qed.
Lemma verifyGroups_sets t rrs sigs keys : verifyGroups w t (GroupRecordsByOwner rrs) sigs keys = Ok tt -> signedSets keys rrs.
Proof. apply verifyGroups_signed. Qed.

Lemma validateNXDomain_denies q zone keys msg : validateNXDomain w q zone keys msg = Ok tt -> denies_name q keys.
Proof.
  unfold validateNXDomain. destruct (0 <? _); [|destruct (0 <? _); [|done]].
  - unfold validateNSECNXDomain. destruct (_ =? 0); [done|]. intros E. inv_ok. destruct x.
    eapply denies_name_nsec; [by eapply verifyGroups_sets|done].
  - unfold validateNSEC3NXDomain. destruct (_ =? 0); [done|]. intros E. inv_ok. destruct x.
    destruct (kind _) eqn:Ek; try done. eapply denies_name_nsec3; [by eapply verifyGroups_sets|done].
Qed.

(** What each outcome of a DS response rests on. *)
Inductive ds_spec (child : Name) (keys : list DNSKEY) : dsOutcome * list DS -> Prop :=
  | ds_cut rrs sigs dss : set_of child rrtype.DS rrs -> allDS rrs = Ok dss -> signedBy rrs sigs keys ->
      ds_spec child keys (dsOutcomeCut, dss)
  | ds_insecure : denies_ds child keys -> ds_spec child keys (dsOutcomeInsecure, [])
  | ds_noncut : ds_spec child keys (dsOutcomeNonCut, [])
  | ds_nxdomain : denies_name child keys -> ds_spec child keys (dsOutcomeNXDomain, []).

Lemma nsecDS_cases rrs out : nsecDS rrs = Ok out -> out = dsOutcomeInsecure \/ out = dsOutcomeNonCut.
Proof.
  induction rrs as [|r rrs IH]; cbn [nsecDS]; [done|]. destruct (asNSEC r); [|done].
  destruct (_ && negb _ && _); [intros [= <-]; by left|]. destruct (negb _); [intros [= <-]; by right|done].
Qed.
Lemma nsec_ds_spec child keys msg out : classifyDSViaNSEC w child keys msg = Some (Ok out) -> ds_spec child keys (out, []).
Proof.
  unfold classifyDSViaNSEC. change (FilterNSECByOwner (authorities msg) child) with (RecordsOfType (authorities msg) rrtype.NSEC child).
  cbv zeta. assert (forall b : bool, forall l : list Record_, (if b then l else l) = l) as Hif by (by intros []). rewrite !Hif.
  destruct (zlen (RecordsOfType _ _ _) =? 0) eqn:Ez; [done|]. intros [= E]. destruct (zlen (rrsigsForTypeAndOwner _ _ _) =? 0); [done|]. inv_ok.
  destruct x.
  destruct (nsecDS_cases _ _ E) as [-> | ->]; [|constructor]. apply ds_insecure.
  eapply denies_ds_nsec; [by apply RecordsOfType_set|by apply verified_signed|done].
Qed.
Lemma nsec3_ds_spec child zone keys msg out : classifyDSViaNSEC3 w child zone keys msg = Some (Ok out) ->
  ds_spec child keys (out, []).
Proof.
  unfold classifyDSViaNSEC3. destruct (_ =? 0); [done|]. intros [= E]. inv_ok. destruct x.
  apply verifyGroups_sets in H1. destruct (kind _) eqn:Ek; try done; injection E as <-; try constructor.
  all: eapply denies_ds_nsec3; [done|rewrite Ek; set_solver].
Qed.
Lemma classify_spec child zone keys msg out : classifyDSResponse w child zone keys msg = Ok out -> ds_spec child keys out.
Proof.
  unfold classifyDSResponse. destruct (_ =? RCODENXDomain).
  { intros E. inv_ok. destruct x. constructor. by eapply validateNXDomain_denies. }
  destruct (0 <? zlen (RecordsOfType _ _ _)) eqn:Ez.
  { intros E. inv_ok. destruct (_ =? 0); [done|]. inv_ok. destruct x0. bool_facts.
    eapply ds_cut; [apply RecordsOfType_set|done|by apply verified_signed]. by apply Z.eqb_neq; lia. }
  destruct (classifyDSViaNSEC _ _ _ _) as [r|] eqn:E1.
  { intros E. inv_ok. by eapply nsec_ds_spec. }
  destruct (classifyDSViaNSEC3 _ _ _ _ _) as [r|] eqn:E2; [|done]. intros E. inv_ok. by eapply nsec3_ds_spec.
Qed.

(** *** Where the internal sentinels come from *)
Definition isNX (e : error) : bool := bool_decide (e = errNXDomainAtCandidate) || bool_decide (e = ErrFuel).
Definition internal (e : error) : bool := isNX e || isInsecureSentinel e.
Definition clean {A} (bad : error -> bool) (r : res A) : Prop := match r with Ok _ => True | Err e => bad e = false end.
Lemma clean_bind {A B} bad (r : res A) (f : A -> res B) : clean bad r -> (forall a, clean bad (f a)) -> clean bad (res_bind r f).
Proof. destruct r; cbn; auto. Qed.
Lemma clean_nx {A} (r : res A) : clean internal r -> clean isNX r.
Proof. destruct r as [|e]; [done|]. cbn. unfold internal. by destruct (isNX e). Qed.
#[local] Hint Extern 1 (clean _ (Err _)) => reflexivity : clean.
#[local] Hint Extern 1 (clean _ (Ok _)) => exact I : clean.
#[local] Hint Extern 3 (clean isNX _) => apply clean_nx : clean.
Ltac clean_tac :=
  repeat (first [match goal with |- clean _ (res_bind _ _) => apply clean_bind; [|intros ?] end | case_match]); auto with clean.

Lemma usableKeys_clean rrs : clean internal (usableKeys rrs).
Proof. induction rrs; cbn [usableKeys]; [done|]. clean_tac. Qed.
Lemma allDS_clean rrs : clean internal (allDS rrs).
Proof. induction rrs; cbn [allDS]; [done|]. clean_tac. Qed.
Lemma canonRDataList_clean set : clean internal (canonRDataList set).
Proof. induction set; cbn [canonRDataList]; [done|]. clean_tac. Qed.
Lemma nsecDS_clean rrs : clean internal (nsecDS rrs).
Proof. induction rrs; cbn [nsecDS]; clean_tac. Qed.
Lemma wildcardScan_clean wc rrs : clean internal (wildcardScan wc rrs).
Proof. induction rrs; cbn [wildcardScan]; clean_tac. Qed.
Lemma signedData_clean set sig : clean internal (signedData set sig).
Proof. unfold signedData, canonicalRRSet. clean_tac. apply canonRDataList_clean. Qed.
Lemma Verify_clean set sig key : clean internal (Verify set sig key).
Proof.
  unfold Verify, validateDNSKEY, verifyWith, dnssecbb.ParseRSAPublic, dnssecbb.rsaExplen, dnssecbb.VerifyRSA,
    dnssecbb.VerifyECDSAP256, dnssecbb.VerifyECDSAP384, dnssecbb.VerifyECDSA, dnssecbb.VerifyEd25519.
  clean_tac. apply signedData_clean.
Qed.
#[local] Hint Resolve usableKeys_clean allDS_clean nsecDS_clean wildcardScan_clean : clean.

Definition cleanErr (e : option error) : Prop := match e with Some e => internal e = false | None => True end.
Lemma tryKeys_clean set sig keys tries lastErr : cleanErr lastErr ->
  match snd (tryKeys w set sig keys tries lastErr) with inl r => clean internal r | inr (_, e) => cleanErr e end.
Proof.
  revert tries lastErr. induction keys as [|key keys IH]; intros tries lastErr Hl; cbn [tryKeys]; [done|].
  destruct (_ || _); [by apply IH|]. destruct (_ <? _).
  { by destruct lastErr. }
  pose proof (Verify_clean set sig key) as Hv. destruct (Verify _ _ _) as [|e]; [done|].
  specialize (IH (tries + 1) (Some e) Hv).
  by destruct (tryKeys w set sig keys (tries + 1) (Some e)).
Qed.
Lemma trySigs_clean set sigs keys tries lastErr : cleanErr lastErr -> clean internal (snd (trySigs w set sigs keys tries lastErr)).
Proof.
  assert (forall e, cleanErr e -> clean internal (Err (match e with Some e => e | None => ErrPlain end) : res unit)) as Hd.
  { by intros [e|]. }
  revert tries lastErr. induction sigs as [|sig sigs IH]; intros tries lastErr Hl; cbn [trySigs]; [by apply Hd|].
  destruct (negb _); [by apply IH|]. pose proof (tryKeys_clean set sig keys tries lastErr Hl) as Hk.
  destruct (tryKeys _ _ _ _ _ _) as [calls [r|[t e]]]; [done|]. cbn in Hk. destruct (_ <? _); [by apply Hd|].
  specialize (IH t e Hk). by destruct (trySigs _ _ _ _ _ _).
Qed.
Lemma verify_clean set sigs keys : clean internal (verifyRRsetWithKeys w set sigs keys).
Proof. unfold verifyRRsetWithKeys, verifyRRsetWithKeys_calls. destruct (_ =? 0); [done|]. by apply trySigs_clean. Qed.
#[local] Hint Resolve verify_clean : clean.
Lemma verifyGroups_clean t groups sigs keys : clean internal (verifyGroups w t groups sigs keys).
Proof. induction groups; cbn [verifyGroups]; clean_tac. Qed.
#[local] Hint Resolve verifyGroups_clean : clean.
Lemma fetch_clean n zone dss : clean internal (fst (fetchAndVerifyDNSKEY source w n zone dss)).
Proof.
  unfold fetchAndVerifyDNSKEY, lookup, verifyDNSKEYs. cbn [fst snd].
  destruct (source n zone rrtype.DNSKEY); cbn [fst res_bind]; clean_tac.
Qed.
Lemma classify_clean child zone keys msg : clean isNX (classifyDSResponse w child zone keys msg).
Proof.
  unfold classifyDSResponse, validateNXDomain, validateNSECNXDomain, validateNSEC3NXDomain, nsecProvesNXDomain,
    classifyDSViaNSEC, classifyDSViaNSEC3, verifyNSEC3Set. cbv zeta.
  repeat match goal with |- clean _ (match ?o with Some _ => _ | None => _ end) => destruct o eqn:? end; clean_tac.
  all: try (match goal with E : _ = Some _ |- clean _ ?r => revert E; repeat case_match; intros [= <-] end); clean_tac.
Qed.

(** *** The walk *)

(** The last step of the chain is the zone whose keys are in use. *)
Definition chain_at (q : Name) (chain : list ChainStep) (zone : Name) (dss : list DS) (keys : list DNSKEY) : Prop :=
  exists pre, chain = pre ++ [mkStep zone keys dss Secure] /\ trusted zone dss keys /\ anc q zone.

(** How a walk towards [q] may end. *)
Inductive walk_spec (q : Name) : walked -> Prop :=
  | ws_reached chain zone dss keys : chain_at q chain zone dss keys ->
      walk_spec q (mkWalked chain keys zeroName None)
  | ws_nta chain zone dss keys c : chain_at q chain zone dss keys -> anc q c -> ntaCovers w c = true ->
      walk_spec q (mkWalked chain keys c None)
  | ws_insecure chain zone dss keys c : chain_at q chain zone dss keys -> anc q c -> denies_ds c keys ->
      walk_spec q (mkWalked (chain ++ [mkStep c [] [] Insecure]) keys c None)
  | ws_nxdomain chain zone dss keys : chain_at q chain zone dss keys -> denies_name q keys ->
      walk_spec q (mkWalked (chain ++ [mkStep q [] [] Secure]) keys q (Some errNXDomainAtCandidate))
  | ws_error chain e : e <> errNXDomainAtCandidate -> walk_spec q (mkWalked chain [] zeroName (Some e)).

Lemma truncated_below q zone : canonical q -> anc q zone -> NumLabels zone + 1 <= NumLabels q ->
  let c := TruncateNameTo q (NumLabels zone + 1) in anc q c /\ up c zone.
Proof.
  intros Hq Hz Hl. cbv zeta. inversion Hz as [|? m ? Hm Hr]; subst; [lia|].
  destruct (NextCloserName_spec q zone Hq) as (_ & ? & ?); [by exists m|done].
Qed.

Lemma walk_loop_spec q fuel n chain keys zone : canonical q ->
  (exists z dss, chain_at q chain z dss keys /\ anc zone z) -> anc q zone ->
  walk_spec q (fst (walk_loop source w fuel n chain keys zone q)).
Proof.
  intros Hq. revert n chain keys zone. induction fuel as [|fuel IH]; intros n chain keys zone (z & dss & Hc & Hz) Ha;
    cbn [walk_loop]; [by constructor|].
  destruct (Equal zone q); [by eapply ws_reached|]. destruct (_ <? zlen chain); [by constructor|].
  destruct (_ <? _ + 1) eqn:El; [by eapply ws_reached|]. bool_facts.
  destruct (truncated_below q zone Hq Ha) as [Hqc Huc]; [lia|]. set (c := TruncateNameTo _ _) in *.
  destruct (ntaCovers w c) eqn:En; [by eapply ws_nta|]. unfold lookup. destruct (source n c rrtype.DS) as [msg|]; [|by constructor].
  pose proof (classify_clean c zone keys msg) as Hcl.
  destruct (classifyDSResponse _ _ _ _ _) as [[out dss']|e] eqn:Ecl; [|constructor; intros ->; by cbn in Hcl].
  apply classify_spec in Ecl. inversion Ecl; subst.
  - pose proof (fetch_clean (S n) c dss') as Hf. destruct (fetchAndVerifyDNSKEY _ _ _ _ _) as [[ck|e] n'] eqn:Ef.
    2: { constructor. intros ->. by cbn in Hf. }
    apply IH; [|done]. exists c, dss'. split; [|done]. eexists. split; [done|]. split; [|done].
    destruct Hc as (pre & _ & Ht & _). eapply trust_cut; [done| |done..|by eapply fetch_vouched]. by exists zone.
  - by eapply ws_insecure.
  - apply IH; [|done]. exists z, dss. split; [done|]. by eapply rtc_l.
  - destruct (Equal c q) eqn:Ec; [|by constructor]. apply Equal_iff in Ec. rewrite Ec in *. by eapply ws_nxdomain.
Qed.
Lemma walkChain_spec n a q : canonical q -> a ∈ w_anchors w -> anc q (an_name a) ->
  walk_spec q (fst (walkChain source w n a q)).
Proof.
  intros Hq Ha Hz. unfold walkChain. pose proof (fetch_clean n (an_name a) (an_dss a)) as Hf.
  destruct (fetchAndVerifyDNSKEY _ _ _ _ _) as [[keys|e] n'] eqn:Ef.
  - apply walk_loop_spec; [done| |done]. exists (an_name a), (an_dss a). split; [|done]. exists []. split; [done|].
    split; [|done]. apply trust_anchor; [done|by eapply fetch_vouched].
  - constructor. intros ->. by cbn in Hf.
Qed.

(** *** Answers *)

(** What a secure answer rests on. *)
Inductive secure (q : Name) (t : Z) : Answer -> Prop :=
  | secure_positive zone dss keys rrs sigs chain : trusted zone dss keys -> anc q zone -> set_of q t rrs ->
      dss <> [] -> (forall ds, ds ∈ dss -> signedUnder (ds_algorithm ds) rrs sigs keys) ->
      (forall s, s ∈ sigs -> s_labels s < NumLabels q ->
         exists l, l <= s_labels s /\ denies_closer q l keys) ->
      secure q t (mkAnswer Secure rrs RCODENoError chain None)
  | secure_nxdomain zone dss keys chain : trusted zone dss keys -> anc q zone -> denies_name q keys ->
      secure q t (mkAnswer Secure [] RCODENXDomain chain None)
  | secure_nodata zone dss keys chain : trusted zone dss keys -> anc q zone -> denies_type q t keys ->
      secure q t (mkAnswer Secure [] RCODENoError chain None).

(** What an insecure answer rests on: a negative trust anchor, a delegation
    proved to be unsigned, or a signed NSEC3 record that proves nothing
    because of its opt-out flag or its iteration count. *)
Inductive insecure (q : Name) : Prop :=
  | insecure_nta c : anc q c -> ntaCovers w c = true -> insecure q
  | insecure_delegation zone dss keys c : trusted zone dss keys -> anc q zone -> anc q c -> denies_ds c keys -> insecure q
  | insecure_nsec3 zone dss keys z t rrs : trusted zone dss keys -> anc q zone -> signedSets keys rrs ->
      kind (nsec3ProveDenial q t z rrs) ∈ [nsec3DenialOptOut; nsec3DenialIterationsExceeded] -> insecure q
  | insecure_wildcard zone dss keys params rrs l n3 : trusted zone dss keys -> anc q zone -> signedSets keys rrs ->
      extractNSEC3Params rrs = Some params -> nsec3Cover (TruncateNameTo q l) params rrs = Some n3 -> optOut n3 = true ->
      insecure q.

(** How an answer of [Resolve] may look. *)
Definition answer_spec (q : Name) (t : Z) (out : Answer * option error) : Prop :=
  let '(a, e) := out in
  match a_result a with
  | Secure => e = None /\ secure q t a
  | Insecure => e = None /\ insecure q
  | Bogus => a_records a = [] /\ (e = None <-> w_bogusPolicy w = BogusReturnAnswer)
  | Indeterminate => a_records a = [] /\
      ((e = None /\ ntaCovers w q = true) \/
       (e = Some ErrNoTrustAnchor /\ forall a, a ∈ w_anchors w -> ~ anc q (an_name a)))
  end.

Lemma bogus_spec q t chain e : answer_spec q t (bogus w chain e).
Proof. unfold bogus. cbn. split; [done|]. by destruct (w_bogusPolicy w). Qed.

Lemma vouched_dss zone dss keys : vouched zone dss keys -> dss <> [].
Proof. intros (rrs & sigs & _ & _ & (sig & ksk & _ & _ & (ds & Hd & _) & _) & _) ->. by apply elem_of_nil in Hd. Qed.
Lemma trusted_dss zone dss keys : trusted zone dss keys -> dss <> [].
Proof. by destruct 1; eapply vouched_dss. Qed.

Lemma synth_spec q sigs st l : fold_left (synthStep (NumLabels q)) sigs st = (l, true) ->
  (forall s, s ∈ sigs -> s_labels s < NumLabels q -> l <= s_labels s) /\ (snd st = true -> l <= fst st).
Proof.
  revert st. induction sigs as [|s sigs IH]; intros [e b]; cbn [fold_left].
  - intros [= -> ->]. split; [|done]. intros s Hs. by apply elem_of_nil in Hs.
  - intros E. apply IH in E as [H1 H2]. unfold synthStep in H2.
    destruct ((_ <? NumLabels q) && _) eqn:Es; cbn in H2; bool_facts.
    + split; [intros x Hx ?; apply elem_of_cons in Hx as [->|Hx]; auto|].
      cbn. intros ->. cbn in *. bool_facts. lia.
    + split; [|done]. intros x Hx Hl. apply elem_of_cons in Hx as [->|Hx]; [|auto].
      destruct b; cbn in *; rewrite ?andb_false_iff in Es; bool_facts; lia.
Qed.
Lemma synth_none q sigs st e : fold_left (synthStep (NumLabels q)) sigs st = (e, false) ->
  snd st = false /\ forall s, s ∈ sigs -> NumLabels q <= s_labels s.
Proof.
  revert st. induction sigs as [|s sigs IH]; intros [e' b]; cbn [fold_left].
  - intros [= -> ->]. split; [done|]. intros s Hs. by apply elem_of_nil in Hs.
  - intros E. apply IH in E as [H1 H2]. unfold synthStep in H1. destruct ((_ <? _) && _) eqn:Es; [done|].
    cbn in H1. subst. split; [done|]. intros x Hx. apply elem_of_cons in Hx as [->|Hx]; [|auto].
    cbn in Es. rewrite andb_true_r in Es. bool_facts. lia.
Qed.

(** The zone in use at the end of a walk is the deepest secure one. *)
Lemma deepest_chain q chain zone dss keys : chain_at q chain zone dss keys -> deepestSecureZone chain = zone.
Proof. intros (pre & -> & _). unfold deepestSecureZone. by rewrite rev_app_distr. Qed.
Lemma algorithms_chain q chain zone dss keys : chain_at q chain zone dss keys -> signingAlgorithms chain = algSet dss.
Proof.
  intros (pre & -> & Ht & _). apply trusted_dss in Ht. unfold signingAlgorithms. rewrite rev_app_distr. cbn.
  by destruct dss.
Qed.

Lemma all_algorithms_signed set sigs keys dss : dss <> [] -> verifyRRsetAllAlgs w set sigs keys (algSet dss) = Ok tt ->
  forall ds, ds ∈ dss -> signedUnder (ds_algorithm ds) set sigs keys.
Proof.
  intros Hd. unfold verifyRRsetAllAlgs. assert (zlen (algSet dss) =? 0 = false) as ->.
  { destruct (algSet dss) eqn:E; [|done]. destruct dss as [|ds dss]; [done|].
    assert (ds_algorithm ds ∈ algSet (ds :: dss)) as Hin by (apply elem_of_remove_dups; left).
    rewrite E in Hin. by apply elem_of_nil in Hin. }
  destruct (_ =? 0); [done|]. destruct (forallb _ _) eqn:Ef; [|done]. intros _. by apply algorithms_signed.
Qed.

(** Case analysis of the negative and wildcard paths. *)
Section Negative.
Context (q : Name) (t : Z) (chain : list ChainStep) (zone : Name) (dss : list DS) (keys : list DNSKEY).
Context (Hc : chain_at q chain zone dss keys).

Lemma nodata_answer_spec msg : answer_spec q t (validateNoData w q t keys msg chain).
Proof.
  destruct Hc as (pre & Echain & Ht & Ha). unfold validateNoData.
  destruct (validateNoDataNSEC _ _ _ _ _ _) as [a|] eqn:E1.
  { unfold validateNoDataNSEC in E1. destruct (_ =? 0); [done|]. destruct (verifyGroups _ _ _ _ _) as [[]|] eqn:Eg; [|done].
    apply verifyGroups_sets in Eg.
    destruct (existsb (nsecDeniesType q t) _) eqn:Ex; [|destruct (existsb (nsecProvesENT q) _) eqn:Ey; [|done]].
    all: injection E1 as <-; cbn; split; [done|]; eapply secure_nodata; [done..|].
    - apply existsb_exists in Ex as (r & Hr & Er). apply list_elem_of_In in Hr. eapply denies_type_nsec; eauto.
    - apply existsb_exists in Ey as (r & Hr & Er). apply list_elem_of_In in Hr. eapply denies_type_nsec; eauto. }
  destruct (validateNoDataNSEC3 _ _ _ _ _ _) as [a|] eqn:E2; [|apply bogus_spec].
  unfold validateNoDataNSEC3 in E2. destruct (_ =? 0); [done|].
  destruct (verifyNSEC3Set _ _ _ _) as [[]|] eqn:Eg; [|done]. apply verifyGroups_sets in Eg.
  destruct (negb _); [done|]. destruct (foreignSigner _ _); [done|]. destruct (kind _) eqn:Ek; try done; injection E2 as <-; cbn; (split; [done|]).
  - eapply secure_nodata; [done..|]. by eapply denies_type_nsec3.
  - eapply insecure_nsec3; [done..|]. rewrite Ek. set_solver.
Qed.

Lemma nsec_clean msg : clean internal (validateNSECNXDomain w q keys msg).
Proof. unfold validateNSECNXDomain, nsecProvesNXDomain. clean_tac. Qed.
Lemma sentinel_nsec3 z msg e : validateNXDomain w q z keys msg = Err e -> isInsecureSentinel e = true -> insecure q.
Proof.
  destruct Hc as (pre & Echain & Ht & Ha). unfold validateNXDomain. destruct (0 <? zlen (allNSEC _)).
  { intros E Hs. pose proof (nsec_clean msg) as Hn. rewrite E in Hn. cbn in Hn. unfold internal in Hn. rewrite Hs, orb_true_r in Hn. done. }
  destruct (0 <? _); [|by intros [= <-]]. unfold validateNSEC3NXDomain, verifyNSEC3Set. destruct (_ =? 0); [by intros [= <-]|].
  pose proof (verifyGroups_clean rrtype.NSEC3 (GroupRecordsByOwner (recordsOfType3 (authorities msg))) (extractRRSIGs (authorities msg)) keys) as Hn.
  destruct (verifyGroups _ _ _ _ _) as [[]|e'] eqn:Eg; cbn [res_bind].
  - apply verifyGroups_sets in Eg. destruct (kind _) eqn:Ek; intros [= <-] Hs; try done;
      (eapply insecure_nsec3; [done..|rewrite Ek; set_solver]).
  - intros [= <-] Hs. cbn in Hn. unfold internal in Hn. by rewrite Hs, orb_true_r in Hn.
Qed.
Lemma negative_spec msg : answer_spec q t (validateNegative w q t keys msg chain).
Proof.
  unfold validateNegative. destruct (negb (_ =? _)); [apply nodata_answer_spec|]. rewrite (deepest_chain _ _ _ _ _ Hc).
  destruct (negb _); [apply bogus_spec|]. destruct (foreignSigner _ _); [apply bogus_spec|].
  destruct (validateNXDomain _ _ _ _ _) as [[]|e] eqn:E.
  - cbn. split; [done|]. apply validateNXDomain_denies in E. destruct Hc as (_ & _ & Ht & Ha). by eapply secure_nxdomain.
  - destruct (isInsecureSentinel e) eqn:Es; [|apply bogus_spec]. cbn. split; [done|]. by eapply sentinel_nsec3.
Qed.

Lemma next_closer_denies l msg : validateWildcardNextCloser w q l keys msg = Ok tt -> denies_closer q l keys.
Proof.
  unfold validateWildcardNextCloser. destruct (_ && _); [done|]. destruct (0 <? _).
  - intros E. inv_ok. destruct x. destruct (covering q _) eqn:Ec; [|done].
    eapply denies_closer_nsec; [by eapply verifyGroups_sets|by eexists].
  - intros E. inv_ok. destruct x. destruct (extractNSEC3Params _) eqn:Ep; [|done]. destruct (_ <? _); [done|].
    destruct (nsec3Cover _ _ _) eqn:En; [|done]. destruct (optOut _) eqn:Eo; [done|].
    eapply denies_closer_nsec3; [by eapply verifyGroups_sets|done..].
Qed.
Lemma next_closer_optout l msg : validateWildcardNextCloser w q l keys msg = Err errInsecureNSEC3OptOut -> insecure q.
Proof.
  destruct Hc as (pre & Echain & Ht & Ha). unfold validateWildcardNextCloser, verifyNSEC3Set. destruct (_ && _); [done|].
  assert (forall t rrs sigs (r : res unit), (let? _ := verifyGroups w t (GroupRecordsByOwner rrs) sigs keys in r) = Err errInsecureNSEC3OptOut ->
    signedSets keys rrs /\ r = Err errInsecureNSEC3OptOut) as Hg.
  { intros t' rrs sigs r. pose proof (verifyGroups_clean t' (GroupRecordsByOwner rrs) sigs keys) as Hn.
    destruct (verifyGroups _ _ _ _ _) as [[]|e] eqn:Eg; cbn.
    - intros ->. split; [by eapply verifyGroups_sets|done].
    - intros [= ->]. done. }
  destruct (0 <? _).
  - intros E. apply Hg in E as [_ E]. by destruct (covering _ _).
  - intros E. apply Hg in E as [Hs E]. destruct (extractNSEC3Params _) eqn:Ep; [|done]. destruct (_ <? _); [done|].
    destruct (nsec3Cover _ _ _) eqn:En; [|done]. destruct (optOut _) eqn:Eo; [|done]. by eapply insecure_wildcard.
Qed.

Lemma answer_path_spec msg : answer_spec q t (validateAnswer w q t keys chain msg).
Proof.
  unfold validateAnswer. destruct (_ && _) eqn:E0; [|apply negative_spec]. bool_facts.
  destruct (_ =? 0) eqn:Em; [apply nodata_answer_spec|]. destruct (zlen (rrsigsForTypeAndOwner _ _ _) =? 0); [apply bogus_spec|].
  rewrite (algorithms_chain _ _ _ _ _ Hc). destruct (verifyRRsetAllAlgs _ _ _ _ _) as [[]|e] eqn:Ev; [|apply bogus_spec].
  pose proof Hc as Hc0. destruct Hc0 as (_ & _ & Ht & Ha). pose proof (trusted_dss _ _ _ Ht) as Hd.
  destruct (wildcardSynthLabels _ _) as [l b] eqn:Ew.
  assert ((forall s, s ∈ rrsigsForTypeAndOwner (extractRRSIGs (answers msg)) t q -> s_labels s < NumLabels q ->
         exists l, l <= s_labels s /\ denies_closer q l keys) ->
    answer_spec q t (mkAnswer Secure (RecordsOfType (answers msg) t q) (RCODE (flags msg)) chain None, None)) as Hpos.
  { intros Hden. cbn. split; [done|]. rewrite H1. eapply secure_positive; [done..|by apply RecordsOfType_set|done| |done].
    by apply all_algorithms_signed. }
  destruct b.
  - destruct (validateWildcardNextCloser _ _ _ _ _) as [[]|e] eqn:En.
    + apply Hpos. intros s Hs Hl. exists l. split; [by eapply (synth_spec q _ _ _ Ew)|by eapply next_closer_denies].
    + case_bool_decide as Ee; [|apply bogus_spec]. subst. cbn. split; [done|]. by eapply next_closer_optout.
  - apply Hpos. intros s Hs Hl. destruct (synth_none q _ _ _ Ew) as [_ Hn]. specialize (Hn s Hs). lia.
Qed.
End Negative.

(** *** Anchors *)
Definition anchors_ok : Prop := Forall (fun a => AnchorIsValid a = true /\ canonical (an_name a)) (w_anchors w).

Lemma closest_step q l st : Forall (fun a => AnchorIsValid a = true /\ canonical (an_name a)) l -> canonical q -> dotless q ->
  let st' := fold_left (closestStep q) l st in
  (st' = st \/ (fst st' ∈ l /\ anc q (an_name (fst st')))) /\ snd st <= snd st' /\
  forall a, a ∈ l -> anc q (an_name a) -> NumLabels (an_name a) <= snd st'.
Proof.
  intros Hl Hq Hd. revert st. induction Hl as [|a l [Hv Hc] Hl IH]; intros st; cbn [fold_left].
  { split_and!; [by left|lia|]. intros a Ha. by apply elem_of_nil in Ha. }
  destruct (IH (closestStep q st a)) as (H1 & H2 & H3). cbv zeta. set (st' := fold_left _ _ _) in *. clearbody st'.
  assert ((closestStep q st a = st \/ (fst (closestStep q st a) = a /\ anc q (an_name a))) /\
    snd st <= snd (closestStep q st a) /\ (anc q (an_name a) -> NumLabels (an_name a) <= snd (closestStep q st a))) as (K1 & K2 & K3).
  { destruct st as [best n]. unfold closestStep. destruct (NameSuffixEqualOrSubdomain q (an_name a)) eqn:En; cbn [negb].
    - destruct (n <? NumLabels (an_name a)) eqn:E; bool_facts; cbn [fst snd]; split_and!; auto; try lia.
      right. split; [done|]. by apply NameSuffix_sound.
    - cbn. split_and!; auto; [lia|]. intros Ha. by rewrite NameSuffix_complete in En. }
  split_and!; [|lia|].
  - destruct H1 as [->|[? ?]]; [|right; split; [by right|done]]. destruct K1 as [->|[-> ?]]; [by left|]. right. split; [left|done].
  - intros x Hx Ha. apply elem_of_cons in Hx as [->|Hx]; [|auto]. specialize (K3 Ha). lia.
Qed.
Lemma closestAnchor_spec q : anchors_ok -> canonical q -> dotless q ->
  match closestAnchor (w_anchors w) q with
  | Some a => a ∈ w_anchors w /\ anc q (an_name a)
  | None => forall a, a ∈ w_anchors w -> ~ anc q (an_name a)
  end.
Proof.
  intros Hok Hq Hd. unfold closestAnchor. destruct (closest_step q (w_anchors w) (zeroAnchor, -1) Hok Hq Hd) as (H1 & _ & H3).
  destruct (fold_left _ _ _) as [best n]. cbn [fst snd] in *. destruct H1 as [[= -> ->]|[Hin Ha]].
  - cbn. intros a Ha Hq'. specialize (H3 a Ha Hq'). pose proof (NumLabels_nonneg (an_name a) (canonical_anc q _ Hq Hq')). lia.
  - unfold anchors_ok in Hok. rewrite Forall_forall in Hok. by destruct (Hok best Hin) as [-> _].
Qed.

Lemma resolve_spec q t : anchors_ok -> canonical q -> dotless q -> answer_spec q t (fst (Resolve source w q t)).
Proof.
  intros Hok Hq Hd. unfold Resolve. rewrite (canonical_valid q Hq). cbn [negb]. destruct (ntaCovers w q) eqn:En; [cbn; auto|].
  pose proof (closestAnchor_spec q Hok Hq Hd) as Ha. destruct (closestAnchor _ _) as [a|]; [|cbn; auto].
  destruct Ha as [Ha Hz]. pose proof (walkChain_spec 0 a q Hq Ha Hz) as Hw. destruct (walkChain _ _ _ _ _) as [wk n].
  cbn [fst] in Hw. inversion Hw as [chain z dss keys Hc|chain z dss keys c Hc Hqc Hn|chain z dss keys c Hc Hqc Hn|
    chain z dss keys Hc Hn|chain e He]; subst; cbn [wk_err wk_chain wk_keys wk_insecureFrom].
  4: { cbn. split; [done|]. destruct Hc as (_ & _ & ? & ?). by eapply secure_nxdomain. }
  4: { rewrite bool_decide_eq_false_2 by congruence. apply bogus_spec. }
  all: unfold lookup; destruct (source _ _ _) as [msg|]; [|apply bogus_spec].
  - change (IsValid zeroName) with false. cbn [fst]. by eapply answer_path_spec.
  - rewrite (canonical_valid c (canonical_anc q c Hq Hqc)). cbn. split; [done|]. by eapply insecure_nta.
  - rewrite (canonical_valid c (canonical_anc q c Hq Hqc)). cbn. split; [done|]. destruct Hc as (_ & _ & ? & ?). by eapply insecure_delegation.
Qed.
End Trust.

(** ** Termination and the number of queries *)
Section Bound.
Context `{Crypto} `{MapRange} (source : Source) (w : walker).

Lemma fetch_lookups n zone dss r n' : fetchAndVerifyDNSKEY source w n zone dss = (r, n') -> n' = S n.
Proof. intros E. by apply (f_equal snd) in E. Qed.
Lemma walk_loop_bound q fuel n chain keys zone : canonical q -> anc q zone -> NumLabels q - NumLabels zone < Z.of_nat fuel ->
  let '(wk, n') := walk_loop source w fuel n chain keys zone q in
  wk_err wk <> Some ErrFuel /\ Z.of_nat n' <= Z.of_nat n + 2 * (NumLabels q - NumLabels zone) /\
  zlen (wk_chain wk) <= Z.max (zlen chain) (w_maxZoneCuts w + 1).
Proof.
  intros Hq. revert n chain keys zone. induction fuel as [|fuel IH]; intros n chain keys zone Ha Hf.
  { pose proof (NumLabels_anc q zone Hq Ha). lia. }
  pose proof (NumLabels_anc q zone Hq Ha) as Hle. cbn [walk_loop].
  destruct (Equal zone q); [cbn; split_and!; [done|lia..]|].
  destruct (_ <? zlen chain) eqn:Ec; [cbn; split_and!; [done|lia..]|]. bool_facts.
  destruct (_ <? _ + 1) eqn:El; [cbn; split_and!; [done|lia..]|]. bool_facts.
  destruct (truncated_below q zone Hq Ha) as [Hqc Huc]; [lia|]. set (c := TruncateNameTo _ _) in *.
  pose proof (NumLabels_up c zone (canonical_anc q c Hq Hqc) Huc) as Ecl.
  destruct (ntaCovers w c); [cbn; split_and!; [done|lia..]|]. unfold lookup.
  destruct (source n c rrtype.DS) as [msg|]; [|cbn; split_and!; [done|lia..]].
  pose proof (classify_clean w c zone keys msg) as Hcl.
  assert (zlen (chain ++ [mkStep c [] [] Secure]) = zlen chain + 1 /\ zlen (chain ++ [mkStep c [] [] Insecure]) = zlen chain + 1)
    as [L1 L2] by (unfold zlen; rewrite !length_app; cbn; lia).
  destruct (classifyDSResponse _ _ _ _ _) as [[[] dss]|e].
  - pose proof (fetch_clean source w (S n) c dss) as Hfc. destruct (fetchAndVerifyDNSKEY _ _ _ _ _) as [[ck|e] n'] eqn:Ef;
      apply fetch_lookups in Ef as ->.
    + specialize (IH (S (S n)) (chain ++ [mkStep c ck dss Secure]) ck c Hqc). destruct (walk_loop _ _ _ _ _ _ _) as [wk n''].
      assert (zlen (chain ++ [mkStep c ck dss Secure]) = zlen chain + 1) by (unfold zlen; rewrite length_app; cbn; lia).
      destruct IH as (? & ? & ?); [lia|]. split_and!; [done|lia..].
    + cbn. split_and!; [intros [= ->]; by cbn in Hfc|lia..].
  - cbn [wk_err wk_chain]. split_and!; [done|lia..].
  - specialize (IH (S n) chain keys c Hqc). destruct (walk_loop _ _ _ _ _ _ _) as [wk n''].
    destruct IH as (? & ? & ?); [lia|]. split_and!; [done|lia..].
  - destruct (Equal c q); cbn [wk_err wk_chain]; split_and!; try done; lia.
  - cbn. split_and!; [intros [= ->]; by cbn in Hcl|lia..].
Qed.

(** C12. Termination of the chain walk: whatever the source answers, a walk
    from an anchor at or above a well-formed query name ends (the model's
    fuel is never used up), after at most one lookup for the anchor's keys
    and two for each label below the anchor, with at most one step more in
    the chain than [maxZoneCuts] allows. *)
Theorem walk_terminates n a q : canonical q -> anc q (an_name a) ->
  let '(wk, n') := walkChain source w n a q in
  wk_err wk <> Some ErrFuel /\ Z.of_nat n' <= Z.of_nat n + 1 + 2 * (NumLabels q - NumLabels (an_name a)) /\
  zlen (wk_chain wk) <= Z.max 1 (w_maxZoneCuts w + 1).
Proof.
  intros Hq Ha. unfold walkChain. pose proof (fetch_clean source w n (an_name a) (an_dss a)) as Hf.
  pose proof (NumLabels_anc q (an_name a) Hq Ha). pose proof (NumLabels_nonneg _ (canonical_anc q _ Hq Ha)).
  destruct (fetchAndVerifyDNSKEY _ _ _ _ _) as [[keys|e] n'] eqn:Ef; apply fetch_lookups in Ef as ->.
  - pose proof (walk_loop_bound q (walkFuel q) (S n) [mkStep (an_name a) keys (an_dss a) Secure] keys (an_name a) Hq Ha) as Hb.
    destruct (walk_loop _ _ _ _ _ _ _) as [wk n'']. change (zlen [_]) with 1 in Hb.
    destruct Hb as (? & ? & ?); [unfold walkFuel; lia|]. split_and!; [done|lia..].
  - cbn. split_and!; [intros [= ->]; by cbn in Hf|lia|unfold zlen; cbn; lia].
Qed.
End Bound.

(** C8. Adequacy of the validator: for a query name without dots inside
    labels and valid trust anchors, an answer [Resolve] reports as secure has
    a justification that starts at a trust anchor -- keys vouched for by DS
    records, zone cut by zone cut; the returned records all have the query's
    name and type and are signed by those keys under every algorithm of the
    zone's DS set, with a denial of the closer names when a signature is a
    wildcard's; an empty secure answer has signed records that deny the name
    or the type.  An insecure answer has a negative trust anchor, a signed
    denial of DS records, or signed opt-out or over-iterated NSEC3 records.
    A bogus answer has no records, and is an error exactly under the default
    policy.  Without an anchor above the name the answer is an error. *)
Theorem resolve_justified `{Crypto} `{MapRange} source w q t : anchors_ok w -> canonical q -> dotless q ->
  answer_spec w q t (fst (Resolve source w q t)).
Proof. intros. by apply resolve_spec. Qed.

(** ** A signed tree: the root with an anchor, and the zone [example] *)
Module SignedWorld.
#[local] Existing Instance plainCrypto.
#[local] Existing Instance mapRangeOrdered.
Definition zone : Name := SigSample.zone.
Definition host : Name := nm [[97]; SigSample.example].
Definition missing : Name := nm [[98]; SigSample.example].
Definition record (n : Name) (rd : RData) : Record_ := NewRecord n (3600 * Second) rd.

(** A set of records with the signature of the zone [z], as an answer has
    them; [labels] is the Labels field. *)
Definition signature (z : Name) (labels : Z) (set : list Record_) : Record_ :=
  let t := match set with r :: _ => RType r | [] => 0 end in
  let n := match set with r :: _ => r_name r | [] => zeroName end in
  let s := PlainSigner.sign set (PlainSigner.unsigned t labels z) in
  record n (RD_RRSIG (s_typeCovered s) (s_algorithm s) (s_labels s) (s_origTTL s) (s_sigExp s) (s_sigInc s)
    (s_keyTag s) (s_signerName s) (s_signature s)).
Definition signed (z : Name) (set : list Record_) : list Record_ :=
  let n := match set with r :: _ => r_name r | [] => zeroName end in
  set ++ [signature z (NumLabels n) set].

Definition keySet (z : Name) : list Record_ :=
  let k := PlainSigner.key in [record z (RD_DNSKEY (k_flags k) (k_protocol k) (k_algorithm k) (k_pubkey k))].
Definition ds (z : Name) : DS :=
  mkDS (KeyTag PlainSigner.key) AlgED25519 DigestSHA256 (wire z ++ dnskeyWire PlainSigner.key).
Definition dsSet (z : Name) : list Record_ :=
  [record z (RD_DS (ds_keyTag (ds z)) (ds_algorithm (ds z)) (ds_digestType (ds z)) (ds_digest (ds z)))].
Definition nsec (n next : Name) (types : list Z) : list Record_ := [record n (RD_NSEC next types)].
Definition message (rcode : Z) (ans auth : list Record_) : Message :=
  mkMessage 0 (WithRCODE rcode 0) [] ans auth [] zeroEDNS false.

(** The zone has an apex and one host. *)
Definition apexNSEC : list Record_ := nsec zone host [rrtype.NS; rrtype.SOA].
Definition hostNSEC : list Record_ := nsec host zone [rrtype.A].
Definition hostA : list Record_ := [record host SigSample.a1].
Definition source : Source := fun _ n t =>
  if (t =? rrtype.DNSKEY) && (Equal n Root || Equal n zone) then Ok (message RCODENoError (signed n (keySet n)) [])
  else if (t =? rrtype.DS) && Equal n zone then Ok (message RCODENoError (signed Root (dsSet zone)) [])
  else if (t =? rrtype.A) && Equal n host then Ok (message RCODENoError (signed zone hostA) [])
  else if Equal n host then Ok (message RCODENoError [] (signed zone hostNSEC))
  else Ok (message RCODENXDomain [] (signed zone hostNSEC ++ signed zone apexNSEC)).
Definition theWalker : walker :=
  mkWalker [mkAnchor Root [ds Root]] ∅ 0 1500000 0 BogusReturnSERVFAIL 16 8 4 16.
End SignedWorld.

(** The anchor's zone is walked to [a.example]. *)
Lemma signed_world_ok : anchors_ok SignedWorld.theWalker /\ canonical SignedWorld.host /\ dotless SignedWorld.host /\
  anc SignedWorld.host Root.
Proof.
  assert (canonical SignedWorld.host) as Hh by (apply labels_okb_canonical; reflexivity).
  split_and!; [|done|decide_now|by apply anc_root]. constructor; [|constructor]. split; [reflexivity|by exists []].
Qed.

Lemma signature_search_witness :
  let sigs := extractRRSIGs [SignedWorld.signature SignedWorld.zone 2 SignedWorld.hostA] in
  @verifyRRsetWithKeys plainCrypto SignedWorld.theWalker SignedWorld.hostA sigs [PlainSigner.key] = Ok tt.
Proof.
  cbv zeta. eapply (@signature_search plainCrypto SignedWorld.theWalker SignedWorld.hostA _ _ 0); [discriminate|].
  eexists (_, PlainSigner.key). split; [vm_compute; left|vm_compute; reflexivity].
Defined.
Lemma walk_terminates_witness :
  wk_err (fst (@walkChain plainCrypto mapRangeOrdered SignedWorld.source SignedWorld.theWalker 0
    (mkAnchor Root [SignedWorld.ds Root]) SignedWorld.host)) <> Some ErrFuel.
Proof.
  pose proof (@walk_terminates plainCrypto mapRangeOrdered SignedWorld.source SignedWorld.theWalker 0
    (mkAnchor Root [SignedWorld.ds Root]) SignedWorld.host) as Hw.
  destruct (walkChain _ _ _ _ _) as [wk n]. destruct signed_world_ok as (_ & Hh & _ & Ha). by destruct (Hw Hh Ha).
Defined.
(** A positive, an empty and a negative secure answer. *)
Lemma resolve_justified_witness :
  let ask q t := fst (fst (@Resolve plainCrypto mapRangeOrdered SignedWorld.source SignedWorld.theWalker q t)) in
  (a_result (ask SignedWorld.host rrtype.A) = Secure /\ a_records (ask SignedWorld.host rrtype.A) = SignedWorld.hostA) /\
  a_result (ask SignedWorld.host rrtype.AAAA) = Secure /\
  (a_result (ask SignedWorld.missing rrtype.A) = Secure /\ a_rcode (ask SignedWorld.missing rrtype.A) = RCODENXDomain) /\
  @secure plainCrypto SignedWorld.theWalker SignedWorld.host rrtype.A (ask SignedWorld.host rrtype.A).
Proof.
  cbv zeta. split_and!; try (vm_compute; reflexivity). destruct signed_world_ok as (Hok & Hh & Hd & _).
  pose proof (@resolve_justified plainCrypto mapRangeOrdered SignedWorld.source SignedWorld.theWalker SignedWorld.host rrtype.A Hok Hh Hd) as Hs.
  assert (a_result (fst (fst (@Resolve plainCrypto mapRangeOrdered SignedWorld.source SignedWorld.theWalker SignedWorld.host rrtype.A))) = Secure)
    as Er by (vm_compute; reflexivity).
  unfold answer_spec in Hs. destruct (Resolve _ _ _ _) as [[a e] n]. cbn [fst] in *. rewrite Er in Hs. apply Hs.
Defined.
