(* ===== verification/NsecSound.v ===== *)
(** * NSEC denial of existence

    The validator's NSEC proofs (the scans of [validateNSECNXDomain] and
    [validateNoDataNSEC] in src/dnssec/validator/walker.go) against the
    specification of answers in ZoneLookup.v, and where they differ from what
    a zone's NSEC chain means. *)

From S2P Require Import Prelude Name Wire RData Message Compare RRset Authoritative Update ZoneTree ZoneLookup ZoneUpdate Transitions Dnssec Signatures Denial DenialOrder DenialSound Nta Walker WalkerSound.
Import validatorbb.
Open Scope Z_scope.
Open Scope list_scope.

Section Nsec.
Context (o : Name) (R : list Record_).

(** [r] is an NSEC record of the zone: its two names own records, its bitmap
    has the types at its owner, and no name that owns records is between. *)
Record genuine (r : Record_) (ns : NSEC) : Prop := {
  gn_owner : owned R (r_name r) <> [];
  gn_next : owned R (nsec_next ns) <> [];
  gn_types x : x ∈ owned R (r_name r) -> bitmapHas (nsec_types ns) (RType x) = true;
  gn_gap n : owned R n <> [] -> NameCoveredBy n (r_name r) (nsec_next ns) = false }.
Definition genuine_set (records : list Record_) : Prop :=
  forall r ns, r ∈ records -> asNSEC r = Some ns -> genuine r ns.

Context (HR : Forall (rec_ok o) R) (records : list Record_) (Hgen : genuine_set records).

Lemma owned_below n : owned R n <> [] -> canonical n /\ anc n o.
Proof.
  intros Hn. destruct (owned R n) as [|r l] eqn:E; [done|]. assert (r ∈ owned R n) as Hr by (rewrite E; left).
  apply elem_of_owned in Hr as [Hr <-]. rewrite Forall_forall in HR. by destruct (HR r Hr) as (? & ? & _).
Qed.
Lemma owned_dec n : owned R n = [] \/ owned R n <> [].
Proof. destruct (owned R n); auto. Qed.

Lemma covering_Some n a b : covering n records = Some (a, b) ->
  exists r ns, genuine r ns /\ r_name r = a /\ nsec_next ns = b /\ NameCoveredBy n a b = true.
Proof.
  unfold covering. destruct (List.find _ records) as [r|] eqn:E; [|done]. apply find_some in E as [Hr Hc].
  apply list_elem_of_In in Hr. destruct (asNSEC r) as [ns|] eqn:En; [|done]. intros [= <- <-]. exists r, ns. eauto.
Qed.
Lemma wildcardScan_Ok wc : wildcardScan wc records = Ok tt ->
  exists r ns, genuine r ns /\ NameCoveredBy wc (r_name r) (nsec_next ns) = true.
Proof.
  revert Hgen. clear HR. induction records as [|r l IH]; intros Hg; cbn [wildcardScan]; [done|].
  assert (genuine_set l) as Hl by (intros x ns Hx; apply Hg; by right). specialize (IH Hl).
  destruct (asNSEC r) as [ns|] eqn:En; [|done]. destruct (Equal _ _); [done|].
  destruct (NameCoveredBy _ _ _) eqn:Ec; [|done]. intros _. exists r, ns. split; [apply Hg; [left|done]|done].
Qed.
Lemma covered_unowned n r ns : genuine r ns -> NameCoveredBy n (r_name r) (nsec_next ns) = true -> owned R n = [].
Proof. intros Hg Hc. destruct (owned_dec n) as [|Hn]; [done|]. by rewrite (gn_gap _ _ Hg n Hn) in Hc. Qed.

(** The encloser derived from a covering record is the closest one. *)
Lemma derived_encloser q r ns : canonical q -> anc q o -> ~ exists_in o R q -> genuine r ns ->
  NameCoveredBy q (r_name r) (nsec_next ns) = true ->
  let encA := LongestCommonAncestor q (r_name r) in
  let encB := LongestCommonAncestor q (nsec_next ns) in
  closest_encloser o R q (if NumLabels encA <? NumLabels encB then encB else encA).
Proof.
  intros Hq Hqo Hno Hg Hc encA encB.
  destruct (owned_below _ (gn_owner _ _ Hg)) as [Cr Ar], (owned_below _ (gn_next _ _ Hg)) as [Cn An].
  destruct (LongestCommonAncestor_spec q (r_name r) Hq Cr) as (CA & A1 & A2 & A3).
  destruct (LongestCommonAncestor_spec q (nsec_next ns) Hq Cn) as (CB & B1 & B2 & B3).
  fold encA in CA, A1, A2, A3. fold encB in CB, B1, B2, B3.
  assert (forall e n, anc q e -> anc n e -> owned R n <> [] -> anc e o -> above q e /\ exists_in o R e) as Hex.
  { intros e n He Hn Hown Heo. assert (exists_in o R e) as Hx.
    { eapply exists_in_anc; [by apply owned_exists_in|done|done]. }
    split; [|done]. inversion He as [|? m ? Hm Hr']; subst; [by destruct Hno|by exists m]. }
  assert (anc encA o /\ anc encB o) as [HAo HBo] by (split; auto).
  assert (forall p, above q p -> exists_in o R p -> anc encA p \/ anc encB p) as Hmax.
  { intros p Hp [Hpo (x & Hx & Hxp)]. assert (owned R (r_name x) <> []) as Hox.
    { intros E. assert (x ∈ owned R (r_name x)) as Hin by (by apply elem_of_owned). rewrite E in Hin. by apply elem_of_nil in Hin. }
    destruct (owned_below _ Hox) as [Cx _]. pose proof (above_canonical q p Hq Hp) as Cp. pose proof (above_anc q p Hp).
    destruct (covered_meets q (r_name x) (r_name r) (nsec_next ns) p) as [?|?]; auto. by apply (gn_gap _ _ Hg). }
  destruct (NumLabels encA <? NumLabels encB) eqn:El; bool_facts.
  - destruct (Hex encB (nsec_next ns)) as [? ?]; try done; [apply (gn_next _ _ Hg)|]. split_and!; [done..|].
    intros p Hp Hxp. destruct (Hmax p Hp Hxp) as [Hm|Hm]; [|done]. etrans; [|exact Hm].
    destruct (anc_total q encA encB A1 B1) as [Hd|Hd]; [|done]. pose proof (NumLabels_anc _ _ CA Hd). lia.
  - destruct (Hex encA (r_name r)) as [? ?]; try done; [apply (gn_owner _ _ Hg)|]. split_and!; [done..|].
    intros p Hp Hxp. destruct (Hmax p Hp Hxp) as [Hm|Hm]; [done|]. etrans; [|exact Hm].
    destruct (anc_total q encA encB A1 B1) as [Hd|Hd]; [done|]. pose proof (NumLabels_anc _ _ CB Hd).
    rewrite (anc_same_depth q encA encB); try done. lia.
Qed.

Lemma nsec_name_error q : canonical q -> anc q o -> nsecProvesNXDomain q records = Ok tt ->
  owned R q = [] /\
  (~ exists_in o R q -> (forall d s, ~ dname_redirects R q d s) -> forall t, at_node o R t q NoName).
Proof.
  intros Hq Hqo. unfold nsecProvesNXDomain. destruct (covering q records) as [[a b]|] eqn:Ec; [|done].
  apply covering_Some in Ec as (r & ns & Hg & <- & <- & Hc). intros Hw. split; [by eapply covered_unowned|].
  intros Hno Hd t. pose proof (derived_encloser q r ns Hq Hqo Hno Hg Hc) as He. cbv zeta in He, Hw.
  set (e := if _ <? _ then _ else _) in *. destruct (WildcardOf e) as [wc|] eqn:Ew; [|done].
  apply FromLabels_star in Ew; [|by eapply above_canonical; [exact Hq|apply He]].
  apply wildcardScan_Ok in Hw as (r' & ns' & Hg' & Hc').
  apply node_nxdomain; [done..|]. intros e' w' He' Hw'. rewrite (closest_encloser_inj o R q e' e Hq He' He) in Hw'.
  rewrite (wildcard_inj e _ _ Hw' Ew). by eapply covered_unowned.
Qed.

(** C9. Soundness of the NSEC name error proof: if the authority section's
    NSEC records are genuine records of a zone and [validateNSECNXDomain]
    accepts them for a name of the zone, the name owns no records; and unless
    it is an empty non-terminal, below a DNAME or below a delegation -- which
    the code does not rule out, see [nsec_empty_non_terminal] and
    [nsec_below_delegation] --, the answer of RFC 1034 from the zone's records is
    NXDOMAIN, for every type: no name or wildcard there applies. *)
Theorem nsec_nxdomain_sound q : canonical q -> anc q o -> nsecProvesNXDomain q records = Ok tt ->
  owned R q = [] /\
  (~ exists_in o R q -> (forall d s, ~ dname_redirects R q d s) -> (forall ns, ~ delegated o R q ns) -> forall t, zone_denies o R t q RCODENXDomain).
Proof.
  intros Hq Ho E. destruct (nsec_name_error q Hq Ho E) as [H1 H2]. split; [done|]. intros Hx Hd Hc t soa k. apply rfc_nxdomain; [done|]. by apply H2.
Qed.

Lemma between_covered n a b : CanonicalNameCmp a n < 0 -> CanonicalNameCmp n b < 0 -> NameCoveredBy n a b = true.
Proof. intros H1 H2. unfold NameCoveredBy. destruct (_ <? 0); bool_facts; rewrite ?andb_true_iff, ?orb_true_iff; lia. Qed.
Lemma strictly_above n p : canonical n -> canonical p -> anc n p -> p <> n -> CanonicalNameCmp p n < 0.
Proof.
  intros Hn Hp Ha Hne. pose proof (anc_le n p Hn Hp Ha). pose proof (CanonicalNameCmp_eq p n Hp Hn) as [He _].
  destruct (Z.eq_dec (CanonicalNameCmp p n) 0) as [E|]; [by apply He in E|lia].
Qed.

(** Soundness of the NSEC no-data proofs: if the NSEC records are genuine
    records of a zone and a scan of [validateNoDataNSEC] accepts one of them
    for a name and type, the zone's own answer is that the name exists without
    that type -- because the name's bitmap has neither the type nor CNAME, or
    because the name owns nothing and has a name below it. *)
Theorem nsec_nodata_sound q t r : canonical q -> dotless q -> anc q o -> r ∈ records ->
  (forall ns, asNSEC r = Some ns -> dotless (nsec_next ns)) ->
  nsecDeniesType q t r = true \/ nsecProvesENT q r = true -> at_node o R t q NoData.
Proof.
  intros Hq Hdq Hqo Hr Hdn. unfold nsecDeniesType, nsecProvesENT. destruct (asNSEC r) as [ns|] eqn:En.
  2: { rewrite andb_false_r. by intros [|]. }
  pose proof (Hgen r ns Hr En) as Hg. specialize (Hdn ns eq_refl). intros [E|E].
  - bool_facts. apply Equal_iff in H. subst q. apply nodata_exact; [by apply owned_exists_in, (gn_owner _ _ Hg)|].
    intros x Hx. pose proof (gn_types _ _ Hg x Hx). split; congruence.
  - destruct (owned_below _ (gn_owner _ _ Hg)) as [Cr Ar], (owned_below _ (gn_next _ _ Hg)) as [Cn An].
    destruct (Equal (nsec_next ns) q) eqn:E1; [done|]. apply Equal_false in E1.
    destruct (NameSuffixEqualOrSubdomain q (r_name r)) eqn:E2; [|done]. destruct (Equal (r_name r) q) eqn:E3; [done|].
    apply Equal_false in E3. apply NameSuffix_sound in E; [|done..]. apply NameSuffix_sound in E2; [|done..].
    apply node_empty.
    + eapply covered_unowned; [exact Hg|]. apply between_covered; [by apply strictly_above|]. apply strictly_above; auto.
    + eapply exists_in_anc; [by apply owned_exists_in, (gn_next _ _ Hg)|done|done].
Qed.
End Nsec.

(** ** Genuine chains, by evaluation *)
Definition genuineb (R : list Record_) (r : Record_) : bool :=
  match asNSEC r with
  | None => true
  | Some ns =>
      existsb (fun x => Equal (r_name x) (r_name r)) R && existsb (fun x => Equal (r_name x) (nsec_next ns)) R &&
      forallb (fun x => bitmapHas (nsec_types ns) (RType x)) (owned R (r_name r)) &&
      forallb (fun x => negb (NameCoveredBy (r_name x) (r_name r) (nsec_next ns))) R
  end.
Lemma owned_names R n : owned R n <> [] <-> exists x, x ∈ R /\ r_name x = n.
Proof.
  split.
  - intros Hn. destruct (owned R n) as [|x l] eqn:E; [done|]. exists x. apply elem_of_owned. rewrite E. left.
  - intros (x & Hx) E. apply elem_of_owned in Hx. rewrite E in Hx. by apply elem_of_nil in Hx.
Qed.
Lemma genuineb_sound R records : forallb (genuineb R) records = true -> genuine_set R records.
Proof.
  intros Hall r ns Hr En. rewrite forallb_forall in Hall. apply list_elem_of_In, Hall in Hr. unfold genuineb in Hr. rewrite En in Hr.
  rewrite !andb_true_iff, !forallb_forall, !existsb_exists in Hr. destruct Hr as [[[(a & Ha & Ea) (b & Hb & Eb)] Ht] Hg].
  apply Equal_iff in Ea, Eb. split.
  - apply owned_names. exists a. by rewrite list_elem_of_In.
  - apply owned_names. exists b. by rewrite list_elem_of_In.
  - intros x Hx. by apply Ht, list_elem_of_In.
  - intros n Hn. apply owned_names in Hn as (x & Hx & <-). apply list_elem_of_In, Hg in Hx. by apply negb_true_iff.
Qed.

(** ** A zone with an empty non-terminal: [example], [a.example] and
       [x.b.example], signed as in [SignedWorld] *)
Module EntWorld.
#[local] Existing Instance plainCrypto.
Definition zone : Name := SigSample.zone.
Definition host : Name := nm [[97]; SigSample.example].
Definition ent : Name := nm [[98]; SigSample.example].
Definition deep : Name := nm [[120]; [98]; SigSample.example].
Definition soa : Record_ := SignedWorld.record zone (RD_SOA zone zone 1 Second Second Second Second).
Definition R : list Record_ := [soa; SignedWorld.record host SigSample.a1; SignedWorld.record deep SigSample.a1].
Definition apexNSEC : list Record_ := SignedWorld.nsec zone host [rrtype.SOA].
Definition hostNSEC : list Record_ := SignedWorld.nsec host deep [rrtype.A].
Definition deepNSEC : list Record_ := SignedWorld.nsec deep zone [rrtype.A].
Definition chain : list Record_ := apexNSEC ++ hostNSEC ++ deepNSEC.

Lemma ent_names_canonical : canonical zone /\ canonical host /\ canonical ent /\ canonical deep.
Proof. split_and!; apply labels_okb_canonical; reflexivity. Qed.
Lemma below_zone : anc host zone /\ anc ent zone /\ anc deep zone /\ anc deep ent.
Proof.
  split_and!; [apply (anc_nm [[97]] [SigSample.example])|apply (anc_nm [[98]] [SigSample.example])|
    apply (anc_nm [[120]; [98]] [SigSample.example])|apply (anc_nm [[120]] [[98]; SigSample.example])]; reflexivity.
Qed.
Lemma ent_zone_ok : Forall (rec_ok zone) R.
Proof.
  destruct ent_names_canonical as (? & ? & _ & ?), below_zone as (? & _ & ? & _).
  repeat constructor; cbn; auto; try done; by eexists.
Qed.
Lemma ent_chain_ok : genuine_set R chain.
Proof. apply genuineb_sound. vm_compute. reflexivity. Qed.
Lemma ent_exists : exists_in zone R ent /\ owned R ent = [].
Proof.
  destruct below_zone as (_ & He & _ & Hd). split; [|reflexivity]. split; [done|].
  eexists. split; [right; right; left|exact Hd].
Qed.

(** An upstream whose last answers are given. *)
Definition source (forZone : Name -> Z -> res Message) : Source := fun _ n t =>
  if (t =? rrtype.DNSKEY) && (Equal n Root || Equal n zone) then
    Ok (SignedWorld.message RCODENoError (SignedWorld.signed n (SignedWorld.keySet n)) [])
  else if (t =? rrtype.DS) && Equal n zone then
    Ok (SignedWorld.message RCODENoError (SignedWorld.signed Root (SignedWorld.dsSet zone)) [])
  else forZone n t.
(** The zone's own answers: data, or no data with the record that proves it. *)
Definition honest (n : Name) (t : Z) : res Message :=
  if Equal n ent then Ok (SignedWorld.message RCODENoError [] (SignedWorld.signed zone hostNSEC))
  else if (t =? rrtype.A) && Equal n deep then
    Ok (SignedWorld.message RCODENoError (SignedWorld.signed zone [SignedWorld.record deep SigSample.a1]) [])
  else if Equal n deep then Ok (SignedWorld.message RCODENoError [] (SignedWorld.signed zone deepNSEC))
  else Err ErrPlain.
(** The same records, with the unsigned response code changed. *)
Definition forged (n : Name) (t : Z) : res Message :=
  Ok (SignedWorld.message RCODENXDomain [] (SignedWorld.signed zone hostNSEC)).
Definition ask (forZone : Name -> Z -> res Message) (q : Name) (t : Z) : Answer :=
  fst (fst (@Resolve plainCrypto mapRangeOrdered (source forZone) SignedWorld.theWalker q t)).
End EntWorld.

(** [c.example] is proved not to exist; the empty non-terminal [b.example] is
    no data by the record of an ancestor. *)
Lemma nsec_nxdomain_sound_witness :
  owned EntWorld.R (nm [[99]; SigSample.example]) = [] /\
  zone_denies EntWorld.zone EntWorld.R rrtype.A (nm [[99]; SigSample.example]) RCODENXDomain.
Proof.
  assert (canonical (nm [[99]; SigSample.example])) as Hc by (apply labels_okb_canonical; reflexivity).
  assert (anc (nm [[99]; SigSample.example]) EntWorld.zone) as Ha by (apply (anc_nm [[99]] [SigSample.example]); reflexivity).
  assert (forall p, owned EntWorld.R p <> [] -> p ∈ [EntWorld.zone; EntWorld.host; EntWorld.deep]) as Hown.
  { intros p (x & Hx & <-)%owned_names. cbn in Hx. repeat (apply elem_of_cons in Hx as [->|Hx]; [set_solver|]). by apply elem_of_nil in Hx. }
  assert (nsecProvesNXDomain (nm [[99]; SigSample.example]) EntWorld.chain = Ok tt) as Hp by (vm_compute; reflexivity).
  destruct (nsec_nxdomain_sound EntWorld.zone EntWorld.R EntWorld.ent_zone_ok EntWorld.chain EntWorld.ent_chain_ok _ Hc Ha Hp) as [H1 H2].
  split; [done|]. apply H2.
  - intros [_ (x & Hx & Hxa)]. cbn in Hx. destruct EntWorld.ent_names_canonical as (? & ? & _ & ?).
    repeat (apply elem_of_cons in Hx as [->|Hx]); [..|by apply elem_of_nil in Hx]; apply inBailiwick_spec in Hxa; try done; vm_compute in Hxa; discriminate.
  - intros r s (p & target & Hab & Hf & Hd & _). assert (owned EntWorld.R p <> []) as Hne by (intros E; rewrite E in Hf; by destruct Hf as ([|] & ? & ? & _)).
    apply Hown in Hne. destruct Hf as (l1 & l2 & El & _ & _). assert (r ∈ EntWorld.R) as Hr by (apply (elem_of_owned _ p); rewrite El; set_solver).
    cbn in Hr. repeat (apply elem_of_cons in Hr as [->|Hr]; [done|]). by apply elem_of_nil in Hr.
  - intros ns (cut & _ & _ & -> & Hn & _). apply Hn. assert (Forall (fun r => (RType r =? rrtype.NS) = false) EntWorld.R) as HN by (repeat constructor).
    destruct (rrset _ _) as [|r l] eqn:E; [done|]. exfalso. assert (r ∈ rrset (owned EntWorld.R cut) rrtype.NS) as Hr by (rewrite E; left).
    unfold rrset in Hr. rewrite list_elem_of_In, filter_In, <- list_elem_of_In in Hr. destruct Hr as [[Hr _]%elem_of_owned Ht]. rewrite Forall_forall in HN. by rewrite (HN r Hr) in Ht.
Defined.
Lemma nsec_nodata_sound_witness :
  at_node EntWorld.zone EntWorld.R rrtype.AAAA EntWorld.host NoData.
Proof.
  destruct EntWorld.ent_names_canonical as (_ & Hh & _), EntWorld.below_zone as (Ha & _).
  eapply (nsec_nodata_sound EntWorld.zone EntWorld.R EntWorld.ent_zone_ok EntWorld.chain EntWorld.ent_chain_ok EntWorld.host
    rrtype.AAAA (SignedWorld.record EntWorld.host (RD_NSEC EntWorld.deep [rrtype.A]))).
  - exact Hh.
  - decide_now.
  - exact Ha.
  - right. left.
  - intros ns [= <-]. decide_now.
  - left. vm_compute. reflexivity.
Defined.

(** Empty non-terminals in NSEC zones: the zone's own answer for
    [b.example] is no data, but the validator rejects the zone's correct
    proof, and rejects every answer below it, while it reports the forged
    response that differs in its unsigned response code only as a secure
    name error. *)
Theorem nsec_empty_non_terminal :
  at_node EntWorld.zone EntWorld.R rrtype.A EntWorld.ent NoData /\ genuine_set EntWorld.R EntWorld.hostNSEC /\
  a_result (EntWorld.ask EntWorld.honest EntWorld.ent rrtype.A) = Bogus /\
  a_result (EntWorld.ask EntWorld.honest EntWorld.deep rrtype.A) = Bogus /\
  a_result (EntWorld.ask EntWorld.forged EntWorld.ent rrtype.A) = Secure /\
  a_rcode (EntWorld.ask EntWorld.forged EntWorld.ent rrtype.A) = RCODENXDomain.
Proof.
  destruct EntWorld.ent_exists. split_and!; [by apply node_empty| |vm_compute; reflexivity..].
  intros r ns Hr. apply EntWorld.ent_chain_ok. right. by apply elem_of_app; left.
Qed.

(** ** A zone with a delegation: [example] and the cut [b.example] *)
Module DelegWorld.
Definition zone : Name := SigSample.zone.
Definition cut : Name := nm [[98]; SigSample.example].
Definition below : Name := nm [[120]; [98]; SigSample.example].
Definition soa : Record_ := SignedWorld.record zone (RD_SOA zone zone 1 Second Second Second Second).
Definition ns : Record_ := SignedWorld.record cut (RD_NS (nm [[110]])).
Definition R : list Record_ := [soa; ns].
Definition chain : list Record_ := SignedWorld.nsec zone cut [rrtype.SOA] ++ SignedWorld.nsec cut zone [rrtype.NS].
End DelegWorld.

(** Names below a delegation: the genuine NSEC record of the cut is accepted as
    a proof that a name of the child zone does not exist, where the zone refers
    to the child; RFC 6840 section 4.1 excludes such records. *)
Lemma nsec_below_delegation :
  genuine_set DelegWorld.R DelegWorld.chain /\ nsecProvesNXDomain DelegWorld.below DelegWorld.chain = Ok tt /\
  delegated DelegWorld.zone DelegWorld.R DelegWorld.below [DelegWorld.ns].
Proof.
  split; [apply genuineb_sound; vm_compute; reflexivity|]. split; [vm_compute; reflexivity|].
  assert (canonical DelegWorld.zone) as Hz by (apply labels_okb_canonical; reflexivity). exists DelegWorld.cut. split_and!.
  - apply (anc_nm [[120]] [[98]; SigSample.example]); reflexivity.
  - intros Ha. apply NumLabels_anc in Ha; [|done]. vm_compute in Ha. by apply Ha.
  - vm_compute. reflexivity.
  - done.
  - intros q _ Hq Hn. assert (owned DelegWorld.R q <> []) as (x & Hx & <-)%owned_names by (intros E; by rewrite E in Hn).
    cbn in Hx. repeat (apply elem_of_cons in Hx as [->|Hx]); [by destruct Hq; apply rtc_refl|apply rtc_refl|by apply elem_of_nil in Hx].
Qed.

(** ** A zone with a wildcard: [example], [*.example] and [b.example] *)
Module WildWorld.
#[local] Existing Instance plainCrypto.
Definition zone : Name := SigSample.zone.
Definition star : Name := SigSample.star.
Definition host : Name := nm [[98]; SigSample.example].
Definition below : Name := nm [[97]; [98]; SigSample.example].
Definition matched : Name := nm [[99]; SigSample.example].
Definition soa : Record_ := SignedWorld.record zone (RD_SOA zone zone 1 Second Second Second Second).
Definition R : list Record_ := [soa; SignedWorld.record star SigSample.a1; SignedWorld.record host SigSample.a2].
Definition apexNSEC : list Record_ := SignedWorld.nsec zone star [rrtype.SOA].
Definition starNSEC (owner : Name) : list Record_ := SignedWorld.nsec owner host [rrtype.A].
Definition hostNSEC : list Record_ := SignedWorld.nsec host zone [rrtype.A].
Definition starA (owner : Name) : list Record_ := [SignedWorld.record owner SigSample.a1].
(** A set with the signature made for the wildcard. *)
Definition expanded (set : list Record_) : list Record_ := set ++ [SignedWorld.signature zone 1 set].

Lemma wild_names_canonical : canonical zone /\ canonical star /\ canonical host /\ canonical below.
Proof. split_and!; apply labels_okb_canonical; reflexivity. Qed.
Lemma wild_zone_ok : Forall (rec_ok zone) R.
Proof.
  destruct wild_names_canonical as (? & ? & ? & _).
  assert (anc star zone) by (apply (anc_nm [[42]] [SigSample.example]); reflexivity).
  assert (anc host zone) by (apply (anc_nm [[98]] [SigSample.example]); reflexivity).
  repeat constructor; cbn; auto; try done; by eexists.
Qed.
Lemma wild_chain_ok : genuine_set R (apexNSEC ++ starNSEC star ++ hostNSEC).
Proof. apply genuineb_sound. vm_compute. reflexivity. Qed.

(** What an attacker builds for [a.b.example] from signed records of the
    zone. *)
Definition forged (n : Name) (t : Z) : res Message :=
  if Equal n host then Ok (SignedWorld.message RCODENoError [] (SignedWorld.signed zone hostNSEC))
  else if t =? rrtype.DS then Ok (SignedWorld.message RCODENoError [] (expanded (starNSEC below)))
  else Ok (SignedWorld.message RCODENoError (expanded (starA below)) (SignedWorld.signed zone hostNSEC)).
(** The zone's answers for [c.example], which the wildcard matches. *)
Definition honest (n : Name) (t : Z) : res Message :=
  if t =? rrtype.A then
    Ok (SignedWorld.message RCODENoError (expanded (starA matched)) (SignedWorld.signed zone hostNSEC))
  else Ok (SignedWorld.message RCODENoError []
    (starNSEC star ++ [SignedWorld.signature zone 1 (starNSEC star)] ++ SignedWorld.signed zone hostNSEC)).
End WildWorld.

(** Wildcards in NSEC zones: [a.b.example] does not exist, since
    [b.example] does and has no wildcard; yet records of the zone's wildcard
    [*.example], its NSEC record included, expanded to that name with their
    own signatures, are reported as a secure answer.  And the zone's correct
    answer for [c.example], which the wildcard does match, is rejected. *)
Theorem nsec_wildcard_expansion :
  at_node WildWorld.zone WildWorld.R rrtype.A WildWorld.below NoName /\
  (let sigOf set := map s_signature (extractRRSIGs (WildWorld.expanded set)) in
   sigOf (WildWorld.starA WildWorld.below) = sigOf (WildWorld.starA WildWorld.star) /\
   sigOf (WildWorld.starNSEC WildWorld.below) = sigOf (WildWorld.starNSEC WildWorld.star)) /\
  a_result (EntWorld.ask WildWorld.forged WildWorld.below rrtype.A) = Secure /\
  a_records (EntWorld.ask WildWorld.forged WildWorld.below rrtype.A) = WildWorld.starA WildWorld.below /\
  a_result (EntWorld.ask WildWorld.honest WildWorld.matched rrtype.A) = Bogus.
Proof.
  split; [|repeat split; vm_compute; reflexivity]. destruct WildWorld.wild_names_canonical as (Hz & Hs & Hh & Hb).
  eapply (nsec_name_error WildWorld.zone WildWorld.R WildWorld.wild_zone_ok _ WildWorld.wild_chain_ok WildWorld.below Hb).
  - apply (anc_nm [[97]; [98]] [SigSample.example]); reflexivity.
  - vm_compute. reflexivity.
  - intros [_ (r & Hr & Ha)].
    repeat (apply elem_of_cons in Hr as [->|Hr]; [|try by apply elem_of_nil in Hr]).
    all: apply NumLabels_anc in Ha; [vm_compute in Ha; by apply Ha|done].
  - intros d s (p & target & _ & (l1 & l2 & El & _) & Ed & _).
    assert (d ∈ owned WildWorld.R p) as Hd by (rewrite El; apply elem_of_app; right; left). apply elem_of_owned in Hd as [Hd _].
    repeat (apply elem_of_cons in Hd as [->|Hd]; [done|]). by apply elem_of_nil in Hd.
Qed.
