(* ===== verification/Tsig.v ===== *)
(** * Transaction signatures (src/tsig/tsig.go)

    TSIG works on packed messages: the signer appends a record to the bytes,
    the verifier finds the last record of the message, parses and removes it,
    and recomputes the MAC.  The HMAC functions of Go's crypto packages are
    the class [Hmac].  A time is a number of nanoseconds since 1970, a
    duration a number of nanoseconds.  The signing time that some error
    returns carry beside the error is not represented. *)

From Stdlib Require Import Strings.String.
From S2P Require Import Prelude Name Wire RData Message.
Open Scope Z_scope.
Open Scope list_scope.

(** ** Algorithms and keys *)
Inductive MacHash := MacSHA1 | MacSHA256 | MacSHA384 | MacSHA512.
Class Hmac := { hmacSum : MacHash -> bytes -> bytes -> bytes }.

(** The output length of each function. *)
Definition macSize (h : MacHash) : Z :=
  match h with MacSHA1 => 20 | MacSHA256 => 32 | MacSHA384 => 48 | MacSHA512 => 64 end.

Definition Algorithm : Type := bytes.
Definition HMACSHA1 : Algorithm := str "hmac-sha1.".
Definition HMACSHA256 : Algorithm := str "hmac-sha256.".
Definition HMACSHA384 : Algorithm := str "hmac-sha384.".
Definition HMACSHA512 : Algorithm := str "hmac-sha512.".

(** The [switch] on an algorithm that [IsKnown], [minMACSize] and
    [computeHMAC] share. *)
Definition hashOf (a : Algorithm) : option MacHash :=
  if bool_decide (a = HMACSHA1) then Some MacSHA1
  else if bool_decide (a = HMACSHA256) then Some MacSHA256
  else if bool_decide (a = HMACSHA384) then Some MacSHA384
  else if bool_decide (a = HMACSHA512) then Some MacSHA512
  else None.
Definition IsKnown (a : Algorithm) : bool := match hashOf a with Some _ => true | None => false end.

Record Key := mkKey { key_name : Name; key_algorithm : Algorithm; key_secret : bytes; key_allowSHA1 : bool }.

(** [allow] is the last [WithAllowSHA1] option, if any. *)
Definition NewKey (name : Name) (alg : Algorithm) (secret : bytes) (allow : option bool) : res Key :=
  if negb (IsValid name) then Err ErrPlain
  else if negb (IsKnown alg) then Err ErrUnsupportedAlgorithm
  else if zlen secret =? 0 then Err ErrPlain
  else Ok (mkKey name alg secret (default false allow)).

(** [wire.MustParseName]. *)
Definition MustParseName (s : bytes) : res Name := match Parse s with Ok n => Ok n | Err _ => Err Panic end.

Definition minMACSize (a : Algorithm) : option Z :=
  match hashOf a with
  | Some MacSHA1 => Some 10 | Some MacSHA256 => Some 16 | Some MacSHA384 => Some 24 | Some MacSHA512 => Some 32
  | None => None
  end.

Definition computeHMAC `{Hmac} (key : Key) (payload : bytes) : res bytes :=
  match hashOf (key_algorithm key) with
  | Some MacSHA1 => if key_allowSHA1 key then Ok (hmacSum MacSHA1 (key_secret key) payload) else Err ErrSHA1Disabled
  | Some h => Ok (hmacSum h (key_secret key) payload)
  | None => Err ErrUnsupportedAlgorithm
  end.

(** ** Fields *)
Definition tsigType : Z := 250.
Definition tsigClass : Z := 255.

(** [binary.BigEndian.Uint16(msg[i:i+2])] and [PutUint16], in range. *)
Definition uint16At (msg : bytes) (i : Z) : Z := get16 (zget msg i) (zget msg (i + 1)).
Definition putUint16 (msg : bytes) (i v : Z) : bytes := take (Z.to_nat i) msg ++ be16 v ++ drop (Z.to_nat (i + 2)) msg.

Definition appendUint48 (v : Z) : bytes :=
  [to_u8 (Z.shiftr v 40); to_u8 (Z.shiftr v 32); to_u8 (Z.shiftr v 24);
   to_u8 (Z.shiftr v 16); to_u8 (Z.shiftr v 8); to_u8 v].
Definition readUint48 (msg : bytes) (i : Z) : Z :=
  Z.lor (Z.shiftl (zget msg i) 40) (Z.lor (Z.shiftl (zget msg (i + 1)) 32) (Z.lor (Z.shiftl (zget msg (i + 2)) 24)
    (Z.lor (Z.shiftl (zget msg (i + 3)) 16) (Z.lor (Z.shiftl (zget msg (i + 4)) 8) (zget msg (i + 5)))))).

Definition buildTSIGVars (keyName algName : Name) (timeSigned fudge errCode : Z) (other : bytes) : bytes :=
  AppendWire keyName [] ++ be16 tsigClass ++ be32 0 ++ AppendWire algName [] ++
  appendUint48 timeSigned ++ be16 fudge ++ be16 errCode ++ be16 (zlen other) ++ other.

(** [priorMAC] is [None] when nil. *)
Definition buildSigningInput (msg : bytes) (keyName algName : Name) (priorMAC : option bytes)
    (timeSigned fudge errCode : Z) (other : bytes) (timersOnly : bool) : bytes :=
  (match priorMAC with Some mac => be16 (zlen mac) ++ mac | None => [] end) ++ msg ++
  (if timersOnly then appendUint48 timeSigned ++ be16 fudge
   else buildTSIGVars keyName algName timeSigned fudge errCode other).

Definition buildTSIGRData (algName : Name) (timeSigned fudge : Z) (mac : bytes) (origID errCode : Z) (other : bytes) : bytes :=
  AppendWire algName [] ++ appendUint48 timeSigned ++ be16 fudge ++ be16 (zlen mac) ++ mac ++
  be16 origID ++ be16 errCode ++ be16 (zlen other) ++ other.

Definition appendTSIGRR (msg : bytes) (owner : Name) (rd : bytes) : bytes :=
  msg ++ AppendWire owner [] ++ be16 tsigType ++ be16 tsigClass ++ be32 0 ++ be16 (zlen rd) ++ rd.

(** ** Signing *)
Section Sign.
Context `{Hmac}.

(** [now.Unix()]. *)
Definition unix (now : Z) : Z := now / Second.

Definition signWithPrefix (msg : bytes) (key : Key) (priorMAC : option bytes) (timersOnly : bool) (now fudge : Z) :
    res (bytes * bytes) :=
  if zlen msg <? 12 then Err ErrPlain
  else if fudge <? 0 then Err ErrPlain
  else if 0xffff * Second <? fudge then Err ErrPlain
  else
    let? algName := MustParseName (key_algorithm key) in
    let timeSigned := unix now mod 2 ^ 64 in
    let fudgeSecs := fudge / Second in
    let input := buildSigningInput msg (key_name key) algName priorMAC timeSigned fudgeSecs 0 [] timersOnly in
    let? mac := computeHMAC key input in
    let origID := uint16At msg 0 in
    let rdata := buildTSIGRData algName timeSigned fudgeSecs mac origID 0 [] in
    let out := appendTSIGRR msg (key_name key) rdata in
    Ok (putUint16 out 10 (uint16At out 10 + 1), mac).

Definition Sign (msg : bytes) (key : Key) (now fudge : Z) : res bytes :=
  let? r := signWithPrefix msg key None false now fudge in Ok (fst r).
Definition SignMessage (m : Message) (key : Key) (now fudge : Z) : res bytes :=
  let? msg := Message.Pack m in Sign msg key now fudge.
Definition SignResponse (msg : bytes) (key : Key) (requestMAC : bytes) (now fudge : Z) : res bytes :=
  if zlen requestMAC =? 0 then Err ErrPlain
  else let? r := signWithPrefix msg key (Some requestMAC) false now fudge in Ok (fst r).
Definition SignAXFRChunk (msg : bytes) (key : Key) (priorMAC : bytes) (now fudge : Z) : res (bytes * bytes) :=
  if zlen priorMAC =? 0 then Err ErrPlain
  else signWithPrefix msg key (Some priorMAC) true now fudge.
End Sign.

(** ** Finding and removing the record *)
Definition skipQuestion (msg : bytes) (off : Z) : res Z :=
  let? r := DecodeWire msg off in
  let off := snd r + 4 in
  if zlen msg <? off then Err ErrPlain else Ok off.
Fixpoint skipQuestions (n : nat) (msg : bytes) (off : Z) : res Z :=
  match n with
  | O => Ok off
  | S n => let? off := skipQuestion msg off in skipQuestions n msg off
  end.
Definition skipRR (msg : bytes) (off : Z) : res Z :=
  let? r := DecodeWire msg off in
  let next := snd r in
  if zlen msg <? next + 10 then Err ErrPlain
  else
    let off := next + 10 + uint16At msg (next + 8) in
    if zlen msg <? off then Err ErrPlain else Ok off.
(** The offset after [n] records and the offset of the last of them. *)
Fixpoint skipRRs (n : nat) (msg : bytes) (off last : Z) : res (Z * Z) :=
  match n with
  | O => Ok (off, last)
  | S n => let? next := skipRR msg off in skipRRs n msg next off
  end.

Definition findLastRROffset (msg : bytes) : res Z :=
  let qdcount := uint16At msg 4 in
  let ancount := uint16At msg 6 in
  let nscount := uint16At msg 8 in
  let arcount := uint16At msg 10 in
  let totalRR := ancount + nscount + arcount in
  let? off := skipQuestions (Z.to_nat qdcount) msg 12 in
  let? r := skipRRs (Z.to_nat totalRR) msg off off in
  let lastIdx := totalRR - 1 in
  if lastIdx <? ancount + nscount then Err ErrPlain else Ok (snd r).

Record parsedTSIG := mkTSIG {
  t_keyName : Name; t_algorithm : Name; t_timeSigned : Z; t_fudge : Z; t_mac : bytes; t_origID : Z; t_errCode : Z;
  t_other : bytes }.

(** The record without its owner. *)
Definition parseTSIGRData (msg : bytes) (keyName : Name) (start end_ : Z) : res parsedTSIG :=
  let? r := DecodeWire msg start in
  let '(algName, off) := r in
  if end_ <? off + 6 + 2 + 2 then Err ErrPlain
  else
    let timeSigned := readUint48 msg off in
    let fudge := uint16At msg (off + 6) in
    let macSize := uint16At msg (off + 8) in
    let off := off + 10 in
    if end_ <? off + macSize + 2 + 2 + 2 then Err ErrPlain
    else
      let mac := zslice msg off (off + macSize) in
      let off := off + macSize in
      let origID := uint16At msg off in
      let errCode := uint16At msg (off + 2) in
      let otherLen := uint16At msg (off + 4) in
      let off := off + 6 in
      if end_ <? off + otherLen then Err ErrPlain
      else Ok (mkTSIG keyName algName timeSigned fudge mac origID errCode (zslice msg off (off + otherLen))).

Definition stripTSIG (msg : bytes) : res (bytes * parsedTSIG) :=
  if zlen msg <? 12 then Err ErrPlain
  else
    let arcount := uint16At msg 10 in
    if arcount =? 0 then Err ErrTSIGMissing
    else
      let? start := findLastRROffset msg in
      let? r := DecodeWire msg start in
      let '(keyName, off) := r in
      if zlen msg <? off + 10 then Err ErrPlain
      else if negb (uint16At msg off =? tsigType) then Err ErrTSIGMissing
      else
        let rdataStart := off + 10 in
        let rdataEnd := rdataStart + uint16At msg (off + 8) in
        if zlen msg <? rdataEnd then Err ErrPlain
        else
          let? tsig := parseTSIGRData msg keyName rdataStart rdataEnd in
          Ok (putUint16 (zslice msg 0 start) 10 (arcount - 1), tsig).

(** ** Verifying *)
Section Verify.
Context `{Hmac}.

(** [-fudge], which wraps. *)
Definition neg64 (d : Z) : Z := (- d + 2 ^ 63) mod 2 ^ 64 - 2 ^ 63.

Definition verifyWithPrefix (msg : bytes) (key : Key) (priorMAC : option bytes) (timersOnly : bool) (now fudge : Z) :
    res (bytes * bytes * Z) :=
  let? r := stripTSIG msg in
  let '(body, tsig) := r in
  if negb (Equal (t_keyName tsig) (key_name key)) then Err ErrPlain
  else
    let? algName := MustParseName (key_algorithm key) in
    if negb (Equal (t_algorithm tsig) algName) then Err ErrPlain
    else
      match minMACSize (key_algorithm key) with
      | None => Err ErrUnsupportedAlgorithm
      | Some floor =>
          if zlen (t_mac tsig) <? floor then Err ErrBadTruncation
          else
            let signed := t_timeSigned tsig * Second in
            let bodyForMAC := putUint16 body 0 (t_origID tsig) in
            let input := buildSigningInput bodyForMAC (t_keyName tsig) (t_algorithm tsig) priorMAC (t_timeSigned tsig)
                           (t_fudge tsig) (t_errCode tsig) (t_other tsig) timersOnly in
            let? mac := computeHMAC key input in
            if zlen mac <? zlen (t_mac tsig) then Err ErrPlain
            else if negb (bool_decide (take (length (t_mac tsig)) mac = t_mac tsig)) then Err ErrBadSignature
            else
              let delta := timeSub now signed in
              if (fudge <? delta) || (delta <? neg64 fudge) then Err ErrBadTime
              else Ok (bodyForMAC, t_mac tsig, signed)
      end.

Definition VerifyMAC (msg : bytes) (key : Key) (now fudge : Z) : res (bytes * bytes * Z) :=
  verifyWithPrefix msg key None false now fudge.
Definition Verify (msg : bytes) (key : Key) (now fudge : Z) : res (bytes * Z) :=
  let? r := VerifyMAC msg key now fudge in
  let '(body, _, signed) := r in Ok (body, signed).
Definition VerifyResponse (msg : bytes) (key : Key) (requestMAC : bytes) (now fudge : Z) : res (bytes * bytes * Z) :=
  if zlen requestMAC =? 0 then Err ErrPlain else verifyWithPrefix msg key (Some requestMAC) false now fudge.
Definition VerifyAXFRChunk (msg : bytes) (key : Key) (priorMAC : bytes) (now fudge : Z) : res (bytes * bytes * Z) :=
  if zlen priorMAC =? 0 then Err ErrPlain else verifyWithPrefix msg key (Some priorMAC) true now fudge.
End Verify.
