(* ===== verification/TsigSound.v ===== *)
(** * What transaction signatures establish

    A signed message verifies to the bytes that were signed, and the input of
    the MAC determines the message: the record walk makes packed messages
    self-delimiting, so no other message has the same input. *)

From Stdlib Require Import Strings.String.
From S2P Require Import Prelude Name Wire RData RDataCodec RDataRoundtrip Message MessageRoundtrip Reader RDataReads MessageReads Signatures Tsig.
Open Scope Z_scope.
Open Scope list_scope.

(** ** Fields at an offset *)
Lemma uint16At_at msg off v : u16 v -> at_bytes msg off (be16 v) -> uint16At msg off = v.
Proof.
  intros Hv Ha. unfold uint16At. apply at_bytes_cons in Ha as [Ha Hb].
  rewrite (at_bytes_get _ _ _ _ Ha), (at_bytes_get _ _ _ _ Hb). by apply get16_be16.
Qed.
Lemma zget_ext a b i : 0 <= i < zlen a -> zget (a ++ b) i = zget a i.
Proof. intros Hi. unfold zget, zlen in *. by rewrite lookup_app_l by lia. Qed.
Lemma uint16At_ext a b i : 0 <= i -> i + 2 <= zlen a -> uint16At (a ++ b) i = uint16At a i.
Proof. intros H1 H2. unfold uint16At. by rewrite !zget_ext by lia. Qed.
Lemma uint16At_u16 msg i : is_bytes msg -> 0 <= i -> i + 2 <= zlen msg -> u16 (uint16At msg i).
Proof. intros Hb H0 H1. unfold uint16At. apply get16_range; apply zget_u8; done || lia. Qed.

Lemma mod_shiftr v k : 0 <= k -> to_u8 (Z.shiftr v k) = (v / 2 ^ k) mod 256.
Proof. intros Hk. unfold to_u8. by rewrite Z.shiftr_div_pow2. Qed.
Lemma readUint48_at msg off v : 0 <= v < 2 ^ 48 -> at_bytes msg off (appendUint48 v) -> readUint48 msg off = v.
Proof.
  intros Hv Ha. unfold readUint48, appendUint48 in *.
  apply at_bytes_cons in Ha as [H0 Ha]. apply at_bytes_cons in Ha as [H1 Ha]. apply at_bytes_cons in Ha as [H2 Ha].
  apply at_bytes_cons in Ha as [H3 Ha]. apply at_bytes_cons in Ha as [H4 H5].
  replace (off + 1 + 1) with (off + 2) in H2, H3, H4, H5 by lia. replace (off + 2 + 1) with (off + 3) in H3, H4, H5 by lia.
  replace (off + 3 + 1) with (off + 4) in H4, H5 by lia. replace (off + 4 + 1) with (off + 5) in H5 by lia.
  rewrite (at_bytes_get _ _ _ _ H0), (at_bytes_get _ _ _ _ H1), (at_bytes_get _ _ _ _ H2), (at_bytes_get _ _ _ _ H3),
    (at_bytes_get _ _ _ _ H4), (at_bytes_get _ _ _ _ H5).
  rewrite !mod_shiftr by lia. unfold to_u8. change (2 ^ 48) with 281474976710656 in Hv.
  change (2 ^ 40) with 1099511627776. change (2 ^ 32) with 4294967296. change (2 ^ 24) with 16777216.
  change (2 ^ 16) with 65536. change (2 ^ 8) with 256.
  repeat (rewrite lor_shiftl_add; [|lia|]); try (change (2 ^ 40) with 1099511627776; change (2 ^ 32) with 4294967296;
    change (2 ^ 24) with 16777216; change (2 ^ 16) with 65536; change (2 ^ 8) with 256); elia.
Qed.

Lemma putUint16_ext a b i v : 0 <= i -> i + 2 <= zlen a -> putUint16 (a ++ b) i v = putUint16 a i v ++ b.
Proof.
  intros H0 H1. unfold putUint16, zlen in *. rewrite take_app_le, drop_app_le by lia. by rewrite <- !app_assoc.
Qed.
Lemma putUint16_len a i v : 0 <= i -> i + 2 <= zlen a -> zlen (putUint16 a i v) = zlen a.
Proof. intros H0 H1. unfold putUint16, zlen in *. rewrite !length_app, length_take, length_drop. cbn. lia. Qed.
Lemma putUint16_at a i v : 0 <= i -> i + 2 <= zlen a -> at_bytes (putUint16 a i v) i (be16 v).
Proof.
  intros H0 H1. unfold putUint16. pose proof (at_bytes_mid (take (Z.to_nat i) a) (be16 v) (drop (Z.to_nat (i + 2)) a)) as H.
  by replace (zlen (take (Z.to_nat i) a)) with i in H by (unfold zlen in *; rewrite length_take; lia).
Qed.
Lemma putUint16_other a i v j : 0 <= i -> i + 2 <= zlen a -> 0 <= j -> j < i \/ i + 2 <= j ->
  zget (putUint16 a i v) j = zget a j.
Proof.
  intros H0 H1 Hj Hd. unfold putUint16, zget, zlen in *. destruct Hd as [Hd|Hd].
  - rewrite lookup_app_l by (rewrite length_take; lia). by rewrite lookup_take_lt by lia.
  - rewrite lookup_app_r by (rewrite length_take; lia). rewrite length_take, lookup_app_r by (cbn; lia).
    rewrite lookup_drop. cbn [length be16]. do 2 f_equal. lia.
Qed.
Lemma putUint16_put a i v v' : 0 <= i -> i + 2 <= zlen a -> putUint16 (putUint16 a i v) i v' = putUint16 a i v'.
Proof.
  intros H0 H1. unfold putUint16, zlen in *. set (h := take _ a). set (t := drop _ a).
  assert (length h = Z.to_nat i) as Hh by (subst h; rewrite length_take; lia).
  rewrite take_app_le by lia. rewrite <- Hh at 1. rewrite firstn_all. f_equal. f_equal.
  replace (Z.to_nat (i + 2)) with (length h + 2)%nat by lia. rewrite <- drop_drop, drop_app_length. reflexivity.
Qed.
Lemma putUint16_same a i : is_bytes a -> 0 <= i -> i + 2 <= zlen a -> putUint16 a i (uint16At a i) = a.
Proof.
  intros Hb H0 H1. unfold putUint16, uint16At. rewrite be16_get16 by (apply zget_u8; done || lia).
  unfold zget, zlen in *. destruct (lookup_lt_is_Some_2 a (Z.to_nat i)) as [x Hx]; [lia|].
  destruct (lookup_lt_is_Some_2 a (Z.to_nat (i + 1))) as [y Hy]; [lia|]. rewrite Hx, Hy. cbn.
  rewrite <- (take_drop (Z.to_nat i) a) at 3. f_equal. rewrite (drop_S _ x (Z.to_nat i)) by done.
  replace (S (Z.to_nat i)) with (Z.to_nat (i + 1)) by lia. rewrite (drop_S _ y (Z.to_nat (i + 1))) by done.
  cbn. do 3 f_equal. lia.
Qed.
Lemma putUint16_bytes a i v : is_bytes a -> is_bytes (putUint16 a i v).
Proof. intros Hb. unfold putUint16. auto using Forall_app_2, Forall_take, Forall_drop with wire. Qed.

(** ** The record walk *)
Lemma DecodeWire_ext msg r off x : is_bytes (msg ++ r) -> DecodeWire msg off = Ok x -> DecodeWire (msg ++ r) off = Ok x.
Proof.
  intros Hb. destruct x as [n nx]. pose proof (proj1 (proj1 (Forall_app _ _ _) Hb)) as Hm. intros E.
  apply DecodeWire_spec in E as (ls & h & Hn & Hr); [|done]. apply DecodeWire_spec; [done|].
  exists ls, h. split; [by apply name_at_ext|done].
Qed.
Lemma DecodeWire_off msg off n nx : is_bytes msg -> DecodeWire msg off = Ok (n, nx) -> 0 <= off < nx /\ nx <= zlen msg.
Proof.
  intros Hb E. apply DecodeWire_spec in E as (ls & h & Hn & _); [|done]. induction Hn.
  - apply at_bytes_len in H as Hl. destruct H as [? _]. rewrite zlen_nil in Hl. lia.
  - destruct H as [? _]. llia.
  - apply at_bytes_len in H as Hl. destruct H as [? _]. rewrite zlen_cons, zlen_nil in Hl. lia.
Qed.
Lemma skipQuestion_ext msg r off x : is_bytes (msg ++ r) -> skipQuestion msg off = Ok x -> skipQuestion (msg ++ r) off = Ok x.
Proof.
  intros Hb. unfold skipQuestion. intros E. inv_ok. erewrite DecodeWire_ext by done. cbn [res_bind].
  destruct (_ <? _) eqn:El; [done|]. bool_facts. if_false. done.
Qed.
Lemma skipRR_ext msg r off x : is_bytes (msg ++ r) -> skipRR msg off = Ok x -> skipRR (msg ++ r) off = Ok x.
Proof.
  intros Hb. unfold skipRR. intros E. inv_ok. destruct x0 as [n nx]. pose proof (proj1 (proj1 (Forall_app _ _ _) Hb)) as Hm.
  apply DecodeWire_off in H as Ho; [|done]. erewrite DecodeWire_ext by done. cbn [res_bind snd] in *.
  destruct (_ <? nx + 10) eqn:El; [done|]. bool_facts. if_false. rewrite uint16At_ext by lia.
  destruct (_ <? _) eqn:El2; [done|]. bool_facts. by if_false.
Qed.
Lemma skipQuestions_ext n msg r off x : is_bytes (msg ++ r) -> skipQuestions n msg off = Ok x -> skipQuestions n (msg ++ r) off = Ok x.
Proof.
  intros Hb. revert off. induction n as [|n IH]; intros off; cbn [skipQuestions]; [done|]. intros E. inv_ok.
  erewrite skipQuestion_ext by done. by apply IH.
Qed.
Lemma skipRRs_ext n msg r off last x : is_bytes (msg ++ r) -> skipRRs n msg off last = Ok x -> skipRRs n (msg ++ r) off last = Ok x.
Proof.
  intros Hb. revert off last. induction n as [|n IH]; intros off last; cbn [skipRRs]; [done|]. intros E. inv_ok.
  erewrite skipRR_ext by done. by apply IH.
Qed.
Lemma skipRRs_snoc n msg off last :
  skipRRs (S n) msg off last = let? r := skipRRs n msg off last in let? next := skipRR msg (fst r) in Ok (next, fst r).
Proof.
  revert off last. induction n as [|n IH]; intros off last; [done|]. change (skipRRs (S (S n)) msg off last) with
    (let? next := skipRR msg off in skipRRs (S n) msg next off).
  change (skipRRs (S n) msg off last) with (let? next := skipRR msg off in skipRRs n msg next off).
  destruct (skipRR msg off) as [next|]; [|done]. cbn [res_bind]. apply IH.
Qed.
Lemma skipRRs_app a b msg off last :
  skipRRs (a + b) msg off last = let? r := skipRRs a msg off last in skipRRs b msg (fst r) (snd r).
Proof.
  revert off last. induction a as [|a IH]; intros off last; [done|]. cbn [Nat.add skipRRs].
  destruct (skipRR msg off) as [next|]; [|done]. apply IH.
Qed.

(** *** The walk follows the message parser *)
Lemma ubind_Ok {A B} (m : U A) (f : A -> U B) u b u' :
  Unpacker.bind m f u = (Ok b, u') -> exists a u1, m u = (Ok a, u1) /\ f a u1 = (Ok b, u').
Proof. unfold Unpacker.bind. destruct (m u) as [[a|e] u1]; [by exists a, u1|done]. Qed.
Lemma Uint16_Ok u v u' : Unpacker.Uint16 u = (Ok v, u') ->
  v = uint16At (Unpacker.msg u) (Unpacker.off u) /\ u' = Unpacker.mk (Unpacker.msg u) (Unpacker.off u + 2) /\
  Unpacker.off u + 2 <= zlen (Unpacker.msg u).
Proof. unfold Unpacker.Uint16. destruct (_ <? _) eqn:E; [done|]. bool_facts. by intros [= <- <-]. Qed.
Lemma Uint32_Ok u v u' : Unpacker.Uint32 u = (Ok v, u') ->
  u' = Unpacker.mk (Unpacker.msg u) (Unpacker.off u + 4) /\ Unpacker.off u + 4 <= zlen (Unpacker.msg u).
Proof. unfold Unpacker.Uint32. destruct (_ <? _) eqn:E; [done|]. bool_facts. by intros [= _ <-]. Qed.
Lemma Name_Ok u n u' : Unpacker.Name u = (Ok n, u') ->
  exists nx, DecodeWire (Unpacker.msg u) (Unpacker.off u) = Ok (n, nx) /\ u' = Unpacker.mk (Unpacker.msg u) nx.
Proof. unfold Unpacker.Name. destruct (DecodeWire _ _) as [[? nx]|]; [|done]. intros [= <- <-]. by exists nx. Qed.
Lemma inSection_Ok {A} s i (m : U A) u a u' : inSection s i m u = (Ok a, u') -> m u = (Ok a, u').
Proof. unfold inSection. by destruct (m u) as [[?|?] ?]. Qed.

(** The fixed part of a record, and data that ends where its length says. *)
Lemma skipRR_header msg off n nx rdlen :
  DecodeWire msg off = Ok (n, nx) -> rdlen = uint16At msg (nx + 8) -> 0 <= rdlen ->
  nx + 10 + rdlen <= zlen msg -> skipRR msg off = Ok (nx + 10 + rdlen).
Proof. intros En El H0 H1. unfold skipRR. rewrite En. cbn [res_bind snd]. rewrite <- El. if_false. by if_false. Qed.

Lemma skip_unpackRecord u r u' :
  valid u -> unpackRecord u = (Ok r, u') -> skipRR (Unpacker.msg u) (Unpacker.off u) = Ok (Unpacker.off u') /\ valid u' /\
  Unpacker.msg u' = Unpacker.msg u.
Proof.
  intros Hu E. destruct (reads_valid 11 _ _ _ _ _ ltac:(lia) reads_unpackRecord Hu E) as (Hu' & _ & Em). split; [|done].
  unfold unpackRecord in E. cbv zeta in E.
  apply ubind_Ok in E as (n & u1 & (nx & En & ->)%Name_Ok & E). cbn [Unpacker.msg Unpacker.off] in *.
  apply ubind_Ok in E as (t & u2 & (_ & -> & _)%Uint16_Ok & E). apply ubind_Ok in E as (c & u3 & (_ & -> & _)%Uint16_Ok & E).
  apply ubind_Ok in E as (ttl & u4 & (-> & _)%Uint32_Ok & E). apply ubind_Ok in E as (l & u5 & (El & -> & _)%Uint16_Ok & E).
  apply ubind_Ok in E as (rd & u6 & E & [= _ <-]). cbn [Unpacker.msg Unpacker.off] in *.
  unfold RData.Unpack in E. apply ubind_Ok in E as (rem & u7 & [= <- <-] & E). cbn [Unpacker.msg Unpacker.off] in E.
  destruct (_ || _) eqn:Er; [done|]. bool_facts.
  replace (nx + 2 + 2 + 4) with (nx + 8) in * by lia.
  assert (Unpacker.off u6 = nx + 10 + l) as ->.
  { destruct (l =? 0) eqn:Ez; [injection E as _ <-; bool_facts; cbn [Unpacker.off]; lia|]. cbv zeta in E.
    apply ubind_Ok in E as (o & u8 & [= <- <-] & E). apply ubind_Ok in E as (rd' & u9 & _ & E).
    apply ubind_Ok in E as (o' & u10 & [= <- <-] & E). destruct (negb _) eqn:Eo; [done|]. injection E as _ <-.
    bool_facts. cbn [Unpacker.off] in *. lia. }
  apply (skipRR_header _ _ n); [done..|lia].
Qed.

Lemma skip_unpackOPT u r u' :
  valid u -> unpackOPT u = (Ok r, u') -> skipRR (Unpacker.msg u) (Unpacker.off u) = Ok (Unpacker.off u') /\ valid u' /\
  Unpacker.msg u' = Unpacker.msg u.
Proof.
  intros Hu E. destruct (reads_valid 11 _ _ _ _ _ ltac:(lia) reads_unpackOPT Hu E) as (Hu' & _ & Em). split; [|done].
  unfold unpackOPT in E. apply ubind_Ok in E as (n & u1 & (nx & En & ->)%Name_Ok & E). cbn [Unpacker.msg Unpacker.off] in *.
  destruct (negb _); [done|]. apply ubind_Ok in E as (t & u2 & (_ & -> & _)%Uint16_Ok & E). destruct (negb _); [done|].
  apply ubind_Ok in E as (c & u3 & (_ & -> & _)%Uint16_Ok & E).
  apply ubind_Ok in E as (ttl & u4 & (-> & _)%Uint32_Ok & E). apply ubind_Ok in E as (l & u5 & (El & -> & Hl)%Uint16_Ok & E).
  apply ubind_Ok in E as (rem & u7 & [= <- <-] & E). cbn [Unpacker.msg Unpacker.off] in *.
  destruct (_ <? l) eqn:Er; [done|]. bool_facts. apply ubind_Ok in E as (o & u8 & [= <- <-] & E). cbv zeta in E.
  apply ubind_Ok in E as (st & u9 & _ & E). apply ubind_Ok in E as (o' & u10 & [= <- <-] & E).
  destruct (negb _) eqn:Eo; [done|]. injection E as _ <-. bool_facts. rewrite Eo. cbn [Unpacker.off].
  apply DecodeWire_ok in En as Hn; [|apply Hu]. replace (nx + 2 + 2 + 4) with (nx + 8) in * by lia.
  assert (u16 l) by (rewrite El; apply uint16At_u16; [apply Hu|destruct Hu; lia..]). unfold u16 in *.
  replace (nx + 8 + 2 + l) with (nx + 10 + l) by lia. apply (skipRR_header _ _ n); [done..|lia|lia].
Qed.

Lemma skip_unpackQuestion u q u' :
  valid u -> unpackQuestion u = (Ok q, u') -> skipQuestion (Unpacker.msg u) (Unpacker.off u) = Ok (Unpacker.off u') /\ valid u' /\
  Unpacker.msg u' = Unpacker.msg u.
Proof.
  intros Hu E. destruct (reads_valid 5 _ _ _ _ _ ltac:(lia) reads_unpackQuestion Hu E) as (Hu' & _ & Em). split; [|done].
  unfold unpackQuestion in E. apply ubind_Ok in E as (o & u1 & [= <- <-] & E). apply ubind_Ok in E as (o & u1 & [= <- <-] & E).
  apply ubind_Ok in E as (n & u1 & (nx & En & ->)%Name_Ok & E). apply ubind_Ok in E as (o & u1 & [= <- <-] & E).
  apply ubind_Ok in E as (raw & u1 & Er & E). assert (u1 = Unpacker.mk (Unpacker.msg u) nx) as ->.
  { destruct (_ && _); cbv zeta in Er; [destruct (hasPointer _ _ _); [done|]|]; by injection Er. }
  apply ubind_Ok in E as (t & u2 & (_ & -> & _)%Uint16_Ok & E). apply ubind_Ok in E as (c & u3 & (_ & -> & Hl)%Uint16_Ok & E).
  injection E as _ <-. cbn [Unpacker.msg Unpacker.off] in *. unfold skipQuestion. rewrite En. cbn [res_bind snd].
  if_false. f_equal. lia.
Qed.

Lemma skip_unpackQuestions n i out u l u' :
  valid u -> unpackN n i (fun i => inSection SectionQuestion i unpackQuestion) out u = (Ok l, u') ->
  skipQuestions n (Unpacker.msg u) (Unpacker.off u) = Ok (Unpacker.off u') /\ valid u' /\ Unpacker.msg u' = Unpacker.msg u.
Proof.
  revert i out u. induction n as [|n IH]; intros i out u Hu; cbn [unpackN skipQuestions]; [by intros [= _ <-]|].
  intros (q & u1 & E%inSection_Ok & E2)%ubind_Ok. apply skip_unpackQuestion in E as (-> & Hu1 & Em); [|done]. cbn [res_bind].
  rewrite <- Em. by eapply IH.
Qed.

(** One iteration of either record loop is one step of the walk. *)
Definition skips (u u' : Unpacker.t) : Prop :=
  skipRR (Unpacker.msg u) (Unpacker.off u) = Ok (Unpacker.off u') /\ valid u' /\ Unpacker.msg u' = Unpacker.msg u.
Definition skipsN (n : nat) (u u' : Unpacker.t) : Prop :=
  (forall last, exists last', skipRRs n (Unpacker.msg u) (Unpacker.off u) last = Ok (Unpacker.off u', last')) /\
  valid u' /\ Unpacker.msg u' = Unpacker.msg u.
Lemma skipsN_0 u : valid u -> skipsN 0 u u.
Proof. intros Hu. split; [|done]. intros last. by exists last. Qed.
Lemma skipsN_S n u u1 u2 : skips u u1 -> skipsN n u1 u2 -> skipsN (S n) u u2.
Proof.
  intros (E1 & _ & Em1) (E2 & Hu2 & Em2). split; [|by rewrite Em2]. intros last. cbn [skipRRs]. rewrite E1. cbn [res_bind].
  rewrite <- Em1. apply E2.
Qed.
Lemma skipsN_app a b u u1 u2 : skipsN a u u1 -> skipsN b u1 u2 -> skipsN (a + b) u u2.
Proof.
  intros (E1 & _ & Em1) (E2 & Hu2 & Em2). split; [|by rewrite Em2]. intros last. rewrite skipRRs_app.
  destruct (E1 last) as [last1 ->]. cbn [res_bind fst snd]. rewrite <- Em1. apply E2.
Qed.
Lemma skip_unpackRRs n s i out u l u' :
  valid u -> unpackN n i (fun i => inSection s i unpackRecord) out u = (Ok l, u') -> skipsN n u u'.
Proof.
  revert i out u. induction n as [|n IH]; intros i out u Hu; cbn [unpackN]; [intros [= _ <-]; by apply skipsN_0|].
  intros (q & u1 & E%inSection_Ok & E2)%ubind_Ok. apply skip_unpackRecord in E as Hs; [|done].
  eapply skipsN_S; [exact Hs|]. eapply IH; [apply Hs|done].
Qed.
Lemma skip_additionalStep i st u st' u' : valid u -> additionalStep i st u = (Ok st', u') -> skips u u'.
Proof.
  intros Hu. destruct st as [[out e] has]. unfold additionalStep.
  intros (o & u1 & [= <- <-] & E)%ubind_Ok. apply ubind_Ok in E as (n & u1 & E1%inSection_Ok & E).
  apply ubind_Ok in E as (t & u2 & E2%inSection_Ok & E). apply ubind_Ok in E as (x & u3 & [= _ <-] & E).
  apply Name_Ok in E1 as (nx & _ & ->). apply Uint16_Ok in E2 as (_ & -> & _). cbn [Unpacker.msg Unpacker.off] in *.
  replace (Unpacker.mk (Unpacker.msg u) (Unpacker.off u)) with u in E by (by destruct u).
  destruct (t =? optTypeWire); [destruct has; [done|]|];
    apply ubind_Ok in E as (r & u4 & E%inSection_Ok & [= _ <-]); [by eapply skip_unpackOPT|by eapply skip_unpackRecord].
Qed.
Lemma skip_unpackAdditionals n i st u st' u' : valid u -> unpackAdditionals_loop n i st u = (Ok st', u') -> skipsN n u u'.
Proof.
  revert i st u. induction n as [|n IH]; intros i st u Hu; cbn [unpackAdditionals_loop]; [intros [= _ <-]; by apply skipsN_0|].
  intros (st1 & u1 & E & E2)%ubind_Ok. apply skip_additionalStep in E as Hs; [|done].
  eapply skipsN_S; [exact Hs|]. eapply IH; [apply Hs|done].
Qed.

(** [walks msg qd n end_]: after [qd] questions and [n] records the walk is at [end_]. *)
Definition walks (msg : bytes) (qd n : nat) (end_ : Z) : Prop :=
  exists off last, skipQuestions qd msg 12 = Ok off /\ skipRRs n msg off off = Ok (end_, last).

(** The sections of a message that the parser reads. *)
Lemma walks_sections msg qd an ns ar qs ans aut st u1 u2 u3 u4 s1 s2 :
  is_bytes msg -> 12 <= zlen msg ->
  unpackQuestions qd (Unpacker.mk msg 12) = (Ok qs, u1) -> unpackRRs an s1 u1 = (Ok ans, u2) ->
  unpackRRs ns s2 u2 = (Ok aut, u3) -> unpackAdditionals ar u3 = (Ok st, u4) ->
  walks msg (Z.to_nat qd) (Z.to_nat an + Z.to_nat ns + Z.to_nat ar) (Unpacker.off u4).
Proof.
  intros Hb Hl Eq Ea En Er. apply skip_unpackQuestions in Eq as (Eq & Hu1 & Em); [|split; [done|cbn; lia]].
  apply skip_unpackRRs in Ea as Sa; [|done]. apply skip_unpackRRs in En as Sn; [|apply Sa].
  apply skip_unpackAdditionals in Er as Sr; [|apply Sn]. cbn [Unpacker.msg Unpacker.off] in *.
  destruct (skipsN_app _ _ _ _ _ (skipsN_app _ _ _ _ _ Sa Sn) Sr) as [S _]. rewrite Em in S.
  destruct (S (Unpacker.off u1)) as [last S']. by exists (Unpacker.off u1), last.
Qed.

(** *** Packed messages *)
(** A packing operation that may fail does not look at the bytes before it. *)
Definition rframe (op : Packer.t -> res Packer.t) : Prop :=
  forall b1 b2 c p', zlen b1 = zlen b2 -> op (Packer.mk b1 c) = Ok p' ->
    exists bs c', p' = Packer.mk (b1 ++ bs) c' /\ op (Packer.mk b2 c) = Ok (Packer.mk (b2 ++ bs) c').
Lemma rframe_bind op op' : rframe op -> rframe op' -> rframe (fun p => let? p := op p in op' p).
Proof.
  intros H1 H2 b1 b2 c p' Hl (p1 & E1 & E2)%res_bind_Ok. destruct (H1 b1 b2 c p1 Hl E1) as (bs & c1 & -> & ->). cbn [res_bind].
  destruct (H2 (b1 ++ bs) (b2 ++ bs) c1 p' ltac:(llia) E2) as (bs' & c2 & -> & ->). exists (bs ++ bs'), c2. by rewrite !app_assoc.
Qed.
Lemma rframe_ok op : frame op -> rframe (fun p => Ok (op p)).
Proof. intros H b1 b2 c p' Hl [= <-]. destruct (H b1 b2 c Hl) as (bs & c' & -> & ->). by exists bs, c'. Qed.
(** A header, a length, and data. *)
Lemma rframe_patched hdr op : frame hdr -> frame op -> rframe (fun p =>
  let p := hdr p in let at_ := Packer.Len p in let p := p |> Packer.Uint16 0 in let start := Packer.Len p in
  let p := op p in let n := Packer.Len p - start in
  if 0xffff <? n then Err ErrInvalidMessage else Ok (patch16 at_ (to_u8 (Z.shiftr n 8)) (to_u8 n) p)).
Proof.
  intros Hh Ho b1 b2 c p' Hl. destruct (Hh b1 b2 c Hl) as (bs & c1 & -> & ->). cbv zeta.
  destruct (backpatch op (Packer.mk (b1 ++ bs) c1) Ho) as (E1 & _). destruct (backpatch op (Packer.mk (b2 ++ bs) c1) Ho) as (E2 & _).
  cbv zeta in E1, E2. rewrite E1, E2. destruct (Ho ((b1 ++ bs) ++ be16 0) ((b2 ++ bs) ++ be16 0) c1 ltac:(llia)) as (ds & c2 & D1 & D2).
  set (n1 := Packer.Len (op _) - _) in *. set (n2 := Packer.Len (op (Packer.Uint16 0 (Packer.mk (b2 ++ bs) c1))) - _) in *.
  assert (n1 = n2) as En.
  { subst n1 n2. unfold Packer.Uint16, Packer.Raw in *. cbn [Packer.buf Packer.comp] in *. rewrite D1, D2.
    unfold Packer.Len. cbn [Packer.buf]. llia. }
  rewrite <- En. destruct (_ <? n1); [done|]. intros [= <-].
  clearbody n1. clear -Hl Ho.
  destruct (Ho ((b1 ++ bs) ++ be16 n1) ((b2 ++ bs) ++ be16 n1) c1 ltac:(llia)) as (ds & c2 & D1 & D2).
  unfold Packer.Uint16, Packer.Raw. cbn [Packer.buf Packer.comp]. rewrite D1, D2.
  exists (bs ++ be16 n1 ++ ds), c2. by rewrite !app_assoc.
Qed.
Lemma rframe_packRecord r : record_ok r -> rframe (packRecord r).
Proof.
  intros (Hn & Hc & (s & Es & Hs) & rd & Erd & Hrd & Ht). unfold packRecord. rewrite Erd.
  destruct (_ <? 0); [done|]. destruct (_ <? _); [done|].
  apply (rframe_patched (fun p => p |> Packer.Name (r_name r) |> Packer.Uint16 (RType r) |> Packer.Uint16 (r_class r)
               |> Packer.Uint32 (to_u32 (Z.quot (r_ttl r) Second))) (RData.Pack rd)); [|by apply frame_Pack].
  apply (frame_comp _ _ (frame_comp _ _ (frame_comp _ _ (frame_Name _) (frame_raw _)) (frame_raw _)) (frame_raw _)).
Qed.
Lemma rframe_packOPT e : rframe (packOPT e).
Proof.
  apply (rframe_patched (fun p => p |> Packer.Uint8 0 |> Packer.Uint16 optTypeWire |> Packer.Uint16 (udpSize e)
     |> Packer.Uint32 (optTTL e)) (fun p => fold_left (fun p o => packOption o p) (opts e) p)); [|apply frame_options].
  apply (frame_comp _ _ (frame_comp _ _ (frame_comp _ _ (frame_raw _) (frame_raw _)) (frame_raw _)) (frame_raw _)).
Qed.
Lemma rframe_packRecords rs : Forall record_ok rs -> rframe (packRecords rs).
Proof.
  intros H. induction H as [|r rs Hr _ IH]; [apply (rframe_ok _ frame_id)|].
  cbn [packRecords]. by apply rframe_bind; [apply rframe_packRecord|].
Qed.

(** The sections, as [Pack] writes them after the header. *)
Definition packSections (m : Message) (p : Packer.t) : res Packer.t :=
  let? p := packRecords (answers m) (fold_left (fun p q => packQuestion q p) (questions m) p) in
  let? p := packRecords (authorities m) p in
  let? p := packRecords (additionals m) p in
  if hasEDNS m then packOPT (edns m) p else Ok p.
Lemma frame_packQuestion q : question_ok q -> frame (packQuestion q).
Proof. intros Hq. apply (codec_question q Hq). Qed.
Lemma rframe_packSections m : message_ok m -> rframe (packSections m).
Proof.
  intros (_ & _ & Hq & Han & Hau & Had & _). unfold packSections.
  apply (rframe_bind (fun p => packRecords (answers m) (fold_left (fun p q => packQuestion q p) (questions m) p))
    (fun p => let? p := packRecords (authorities m) p in let? p := packRecords (additionals m) p in
       if hasEDNS m then packOPT (edns m) p else Ok p)).
  - intros b1 b2 c p' Hl. destruct (frame_items packQuestion (questions m)) with (b1 := b1) (b2 := b2) (c := c) as (bs & c' & -> & ->); [|done|].
    { intros q Hin. apply frame_packQuestion. by apply (Forall_forall _ (questions m)). }
    intros E. destruct (rframe_packRecords _ Han (b1 ++ bs) (b2 ++ bs) c' p' ltac:(llia) E) as (bs' & c2 & -> & ->).
    exists (bs ++ bs'), c2. by rewrite !app_assoc.
  - apply rframe_bind; [by apply rframe_packRecords|]. apply rframe_bind; [apply rframe_packRecords; eapply Forall_impl; [done|]; by intros ? []|].
    destruct (hasEDNS m); [apply rframe_packOPT|apply (rframe_ok _ frame_id)].
Qed.

(** The record counts of a header. *)
Definition counts (msg : bytes) : nat * nat :=
  (Z.to_nat (uint16At msg 4), (Z.to_nat (uint16At msg 6) + Z.to_nat (uint16At msg 8) + Z.to_nat (uint16At msg 10))%nat).

(** A packed message is walked to its end, whatever its record count field is overwritten with. *)
Lemma packed_walks m b v : message_ok m -> Pack m = Ok b -> u16 v ->
  walks (putUint16 b 10 v) (fst (counts b)) (snd (counts b)) (zlen b) /\
  is_bytes b /\ 12 <= zlen b /\ uint16At b 10 + 12 <= zlen b <= 0xffff.
Proof.
  intros Hm HP Hv. destruct (Pack_inv _ _ HP) as (L1 & L2 & L3 & L4 & p1 & p2 & p3 & p4 & E1 & E2 & E3 & E4 & -> & Hb).
  set (arcount := if hasEDNS m then _ else _) in *.
  set (p0 := packHeader m arcount (Packer.NewPacker [])) in *. set (p0' := packHeader m v (Packer.NewPacker [])).
  assert (packer_ok p0) as Hp0 by (repeat apply packer_ok_raw; auto using packer_ok_new with wire).
  assert (packer_ok p0') as Hp0' by (repeat apply packer_ok_raw; auto using packer_ok_new with wire).
  assert (packSections m p0 = Ok p4) as ES by (unfold packSections; by rewrite E1; cbn [res_bind]; rewrite E2; cbn [res_bind]; rewrite E3).
  destruct (packs_body m p0 p1 p2 p3 p4 (id m) (flags m) Hm Hp0 E1 E2 E3 E4) as [Har Kb]. fold arcount in Har.
  destruct (rframe_packSections m Hm (Packer.buf p0) (Packer.buf p0') (Packer.comp p0) p4 eq_refl ES) as (bs & c' & -> & ES').
  change (packSections m p0' = Ok (Packer.mk (Packer.buf p0' ++ bs) c')) in ES'. clear ES E1 E2 E3 E4 p1 p2 p3.
  unfold packSections in ES'. apply res_bind_Ok in ES' as (p1 & E1 & ES'). apply res_bind_Ok in ES' as (p2 & E2 & ES').
  apply res_bind_Ok in ES' as (p3 & E3 & E4).
  destruct (packs_body m p0' p1 p2 p3 _ (id m) (flags m) Hm Hp0' E1 E2 E3 E4) as (_ & K). destruct K as (_ & _ & _ & _ & K).
  specialize (K [] (Forall_nil_2 _)). rewrite app_nil_r in K. cbn [Packer.buf] in *.
  assert (0 <= arcount) by (subst arcount; destruct (hasEDNS m); llia).
  assert (is_bytes (Packer.buf p0 ++ bs)) as Hbs by apply Kb.
  assert (is_bytes (Packer.buf p0' ++ bs)) as Hbs'.
  { apply Forall_app_2; [apply Hp0'|]. by apply Forall_app in Hbs as [_ ?]. }
  assert (zlen (Packer.buf p0) = 12) as H12 by done. assert (zlen (Packer.buf p0') = 12) as H12' by done. rewrite H12' in K. rewrite zlen_app, H12 in *.
  pose proof (zlen_nonneg bs).
  assert (uint16At (Packer.buf p0 ++ bs) 4 = zlen (questions m) /\ uint16At (Packer.buf p0 ++ bs) 6 = zlen (answers m) /\
    uint16At (Packer.buf p0 ++ bs) 8 = zlen (authorities m) /\ uint16At (Packer.buf p0 ++ bs) 10 = arcount) as (C1 & C2 & C3 & C4).
  { rewrite !uint16At_ext by lia. subst p0. unfold packHeader. rewrite !to_u16_id by (unfold u16; llia).
    split_and!; apply get16_be16; unfold u16; llia. }
  unfold counts. rewrite C1, C2, C3, C4. cbn [fst snd].
  replace (putUint16 (Packer.buf p0 ++ bs) 10 v) with (Packer.buf p0' ++ bs)
    by (subst p0'; unfold packHeader; by rewrite (to_u16_id v)).
  split; [|split; [done|lia]].
  apply ubind_Ok in K as (qs & u1 & K1 & K). apply ubind_Ok in K as (an & u2 & K2 & K). apply ubind_Ok in K as (au & u3 & K3 & K).
  apply ubind_Ok in K as (ad & u4 & K4 & K). destruct ad as [[ad e] has]. apply (f_equal (Unpacker.off ∘ snd)) in K. cbn in K.
  pose proof (walks_sections _ _ _ _ _ _ _ _ _ _ _ _ _ _ _ Hbs' ltac:(llia) K1 K2 K3 K4) as W.
  by rewrite K in W.
Qed.

(** ** Appending a record and finding it again *)
Lemma at_bytes_end0 msg off bs : at_bytes msg off bs -> 0 < zlen bs -> 0 <= off /\ off + zlen bs <= zlen msg.
Proof. intros Ha. destruct bs as [|x bs]; [intros H; by vm_compute in H|]. intros _. apply at_bytes_len in Ha as Hl. destruct Ha. llia. Qed.

(** A name written in full. *)
Lemma DecodeWire_at n msg off : canonical n -> is_bytes msg -> at_bytes msg off (AppendWire n []) ->
  DecodeWire msg off = Ok (n, off + zlen (AppendWire n [])).
Proof.
  intros (ls & Hw & Hf) Hb Ha. rewrite (AppendWire_wf _ _ Hw) in *. destruct Hw as (E & Hls & Hl). rewrite E in Hl.
  apply DecodeWire_spec; [done|]. exists ls, 0. split; [by apply name_at_inline|]. split; [by vm_compute|]. split; [done|].
  rewrite (foldLabels_folded _ Hf). destruct n. cbn in E. by rewrite E.
Qed.
Lemma AppendWire_len n : canonical n -> is_bytes (AppendWire n []) /\ 1 <= zlen (AppendWire n []) <= 255.
Proof.
  intros (ls & Hw & _). rewrite (AppendWire_wf _ _ Hw). destruct Hw as (E & Hls & Hl). rewrite E in Hl.
  split; [by apply is_bytes_encName|]. rewrite zlen_encName in *. unfold maxNameLen in *.
  pose proof (zlen_nonneg (encLabels ls)). lia.
Qed.

Lemma zlen_appendUint48 v : zlen (appendUint48 v) = 6.
Proof. done. Qed.
Lemma appendUint48_bytes v : is_bytes (appendUint48 v).
Proof. unfold appendUint48. repeat constructor; apply to_u8_range. Qed.

Lemma buildTSIGRData_ok alg ts f mac oid e other : canonical alg -> is_bytes mac -> is_bytes other ->
  is_bytes (buildTSIGRData alg ts f mac oid e other) /\
  zlen (buildTSIGRData alg ts f mac oid e other) = zlen (AppendWire alg []) + 16 + zlen mac + zlen other.
Proof.
  intros Ha Hm Ho. destruct (AppendWire_len _ Ha) as [Hb _]. unfold buildTSIGRData. pose proof (appendUint48_bytes ts). split.
  - repeat (apply Forall_app_2; [auto with wire|]). done.
  - rewrite !zlen_app, !zlen_be16, zlen_appendUint48. lia.
Qed.

Lemma parseTSIGRData_at msg off name alg ts f mac oid e other :
  canonical alg -> is_bytes msg -> 0 <= ts < 2 ^ 48 -> u16 f -> u16 (zlen mac) -> u16 oid -> u16 e -> u16 (zlen other) ->
  at_bytes msg off (buildTSIGRData alg ts f mac oid e other) ->
  parseTSIGRData msg name off (off + zlen (buildTSIGRData alg ts f mac oid e other)) = Ok (mkTSIG name alg ts f mac oid e other).
Proof.
  intros Ha Hb Hts Hf Hm Hoid He Hol HA. unfold buildTSIGRData in *. rewrite !zlen_app, !zlen_be16, zlen_appendUint48 in *.
  apply at_bytes_app in HA as [Hn HA]. apply at_bytes_app in HA as [Ht HA]. apply at_bytes_app in HA as [Hfu HA].
  apply at_bytes_app in HA as [Hml HA]. apply at_bytes_app in HA as [Hmac HA]. apply at_bytes_app in HA as [Hoi HA].
  apply at_bytes_app in HA as [Her HA]. apply at_bytes_app in HA as [Hol2 Hoth].
  rewrite ?zlen_be16, ?zlen_appendUint48 in *. unfold parseTSIGRData. rewrite (DecodeWire_at _ _ _ Ha Hb Hn). cbn [res_bind].
  set (o := off + zlen (AppendWire alg [])) in *. pose proof (zlen_nonneg mac). pose proof (zlen_nonneg other).
  replace (off + _) with (o + 16 + zlen mac + zlen other) by lia. if_false.
  rewrite (readUint48_at _ _ _ Hts Ht), (uint16At_at _ _ _ Hf Hfu). replace (o + 8) with (o + 6 + 2) by lia. rewrite (uint16At_at _ _ _ Hm Hml).
  if_false. replace (o + 10) with (o + 6 + 2 + 2) by lia. rewrite (at_bytes_slice _ _ _ Hmac), (uint16At_at _ _ _ Hoid Hoi).
  set (o2 := o + 6 + 2 + 2 + zlen mac) in *. rewrite (uint16At_at _ _ _ He Her). replace (o2 + 4) with (o2 + 2 + 2) by lia.
  rewrite (uint16At_at _ _ _ Hol Hol2). if_false. replace (o2 + 6) with (o2 + 2 + 2 + 2) by lia. by rewrite (at_bytes_slice _ _ _ Hoth).
Qed.

(** [stripTSIG] undoes [appendTSIGRR] and the record count. *)
Lemma stripTSIG_append b owner alg ts f mac oid e other :
  let rd := buildTSIGRData alg ts f mac oid e other in
  let ar := uint16At b 10 in
  is_bytes b -> 12 <= zlen b -> ar < 0xffff -> walks (putUint16 b 10 (ar + 1)) (fst (counts b)) (snd (counts b)) (zlen b) ->
  canonical owner -> canonical alg -> is_bytes mac -> is_bytes other -> zlen mac <= 0x4000 -> zlen other <= 0x4000 ->
  0 <= ts < 2 ^ 48 -> u16 f -> u16 oid -> u16 e ->
  stripTSIG (putUint16 (appendTSIGRR b owner rd) 10 (ar + 1)) = Ok (b, mkTSIG owner alg ts f mac oid e other).
Proof.
  intros rd ar Hb H12 Har (qoff & last & Wq & Wr) Hown Halg Hmac Hoth Lmac Loth Hts Hf Hoid He.
  destruct (buildTSIGRData_ok alg ts f mac oid e other Halg Hmac Hoth) as [Hrd Lrd]. fold rd in Hrd, Lrd.
  destruct (AppendWire_len _ Halg) as [_ La]. destruct (AppendWire_len _ Hown) as [Hwb Lo].
  pose proof (zlen_nonneg mac). pose proof (zlen_nonneg other).
  assert (u16 ar) as Hu by (by apply uint16At_u16; [|lia|lia]). unfold u16 in Hu.
  unfold appendTSIGRR. rewrite putUint16_ext by lia. set (pre := putUint16 b 10 (ar + 1)) in *.
  set (R := AppendWire owner [] ++ _). assert (is_bytes R) as HR by (do 5 (apply Forall_app_2; [auto with wire|]); done).
  assert (is_bytes pre) as Hpre by (by apply putUint16_bytes). assert (zlen pre = zlen b) as Lpre by (apply putUint16_len; lia).
  assert (is_bytes (pre ++ R)) as HM by (by apply Forall_app_2).
  assert (at_bytes (pre ++ R) (zlen b) R) as HA.
  { rewrite <- Lpre. pose proof (at_bytes_mid pre R []) as H'. by rewrite app_nil_r in H'. }
  unfold R in HA at 2. apply at_bytes_app in HA as [A1 HA]. apply at_bytes_app in HA as [A2 HA]. apply at_bytes_app in HA as [A3 HA].
  apply at_bytes_app in HA as [A4 HA]. apply at_bytes_app in HA as [A5 A6].
  set (nx := zlen b + zlen (AppendWire owner [])) in *. rewrite !zlen_be16, zlen_be32 in *.
  replace (nx + 2 + 2 + 4) with (nx + 8) in * by lia. replace (nx + 8 + 2) with (nx + 10) in * by lia.
  assert (zlen (pre ++ R) = nx + 10 + zlen rd) as LM by (unfold R; rewrite !zlen_app, !zlen_be16, zlen_be32; lia).
  assert (uint16At (pre ++ R) (nx + 8) = zlen rd) as Erd by (apply uint16At_at; [unfold u16; lia|done]).
  assert (DecodeWire (pre ++ R) (zlen b) = Ok (owner, nx)) as Eown by (by apply DecodeWire_at).
  assert (forall i, 0 <= i -> i + 2 <= 10 -> uint16At (pre ++ R) i = uint16At b i) as Hhdr.
  { intros i Hi Hi2. rewrite uint16At_ext by lia. unfold uint16At, pre. by rewrite !putUint16_other by lia. }
  assert (uint16At (pre ++ R) 10 = ar + 1) as Ear.
  { apply uint16At_at; [unfold u16; lia|]. apply at_bytes_ext, putUint16_at; lia. }
  assert (findLastRROffset (pre ++ R) = Ok (zlen b)) as Efind.
  { unfold findLastRROffset. cbv zeta. rewrite (Hhdr 4), (Hhdr 6), (Hhdr 8), Ear by lia.
    assert (forall i, i = 6 \/ i = 8 -> u16 (uint16At b i)) as Hc by (intros i Hi; apply uint16At_u16; [done|lia..]).
    pose proof (Hc 6 ltac:(lia)) as C6. pose proof (Hc 8 ltac:(lia)) as C8. unfold u16 in C6, C8.
    unfold counts in Wq, Wr. cbn [fst snd] in Wq, Wr. erewrite skipQuestions_ext by done. cbn [res_bind].
    replace (Z.to_nat (uint16At b 6 + uint16At b 8 + (ar + 1))) with (S (Z.to_nat (uint16At b 6) + Z.to_nat (uint16At b 8) + Z.to_nat ar)) by lia.
    rewrite skipRRs_snoc. erewrite skipRRs_ext by done. cbn [res_bind fst snd].
    rewrite (skipRR_header _ _ owner nx (zlen rd)) by (done || lia). cbn [res_bind snd]. by if_false. }
  unfold stripTSIG. if_false. rewrite Ear. if_false. rewrite Efind. cbn [res_bind]. rewrite Eown. cbn [res_bind].
  if_false. rewrite (uint16At_at _ _ tsigType) by (done || (unfold u16, tsigType; lia)). change (negb (tsigType =? tsigType)) with false. cbv iota zeta.
  rewrite Erd. if_false. unfold rd. rewrite parseTSIGRData_at; [|done|done|done|done|unfold u16; lia|done|done|unfold u16; lia|exact A6].
  cbn [res_bind]. do 2 f_equal. replace (ar + 1 - 1) with ar by lia.
  replace (zslice (pre ++ R) 0 (zlen b)) with pre.
  2: { rewrite <- Lpre. symmetry. apply (at_bytes_slice (pre ++ R) 0 pre). exact (at_bytes_mid [] pre R). }
  unfold pre. rewrite putUint16_put by lia. apply putUint16_same; [done|lia..].
Qed.

(** ** Signing and verifying *)

(** What Go documents of its HMAC functions: the length of a tag. *)
Class HmacLaws (H : Hmac) := {
  hmac_len h secret payload : zlen (hmacSum h secret payload) = macSize h;
  hmac_bytes h secret payload : is_bytes (hmacSum h secret payload) }.

(** A key of [NewKey], whose algorithm may be used. *)
Definition key_ok (k : Key) : Prop :=
  canonical (key_name k) /\ IsKnown (key_algorithm k) = true /\ (key_algorithm k = HMACSHA1 -> key_allowSHA1 k = true).

Lemma hashOf_cases a h : hashOf a = Some h ->
  match h with MacSHA1 => a = HMACSHA1 | MacSHA256 => a = HMACSHA256 | MacSHA384 => a = HMACSHA384 | MacSHA512 => a = HMACSHA512 end.
Proof. unfold hashOf. repeat case_bool_decide; by intros [= <-]. Qed.
Definition algLabels (h : MacHash) : list bytes :=
  [match h with MacSHA1 => str "hmac-sha1" | MacSHA256 => str "hmac-sha256" | MacSHA384 => str "hmac-sha384" | MacSHA512 => str "hmac-sha512" end].
Lemma MustParseName_known a h : hashOf a = Some h ->
  exists n, MustParseName a = Ok n /\ canonical n.
Proof.
  intros E%hashOf_cases. exists (mkName (encName (algLabels h))). split; [destruct h; rewrite E; by vm_compute|].
  exists (algLabels h). destruct h; (split; [split_and!; [done|decide_now|by vm_compute]|decide_now]).
Qed.
Lemma computeHMAC_ok `{Hmac} key h payload : key_ok key -> hashOf (key_algorithm key) = Some h ->
  computeHMAC key payload = Ok (hmacSum h (key_secret key) payload).
Proof.
  intros (_ & _ & Hs) E. unfold computeHMAC. rewrite E. destruct h; try done. by rewrite Hs by apply (hashOf_cases _ _ E).
Qed.
Lemma key_hash key : key_ok key -> exists h, hashOf (key_algorithm key) = Some h.
Proof. intros (_ & K & _). unfold IsKnown in K. destruct (hashOf _) as [h|]; [by exists h|done]. Qed.
Lemma minMACSize_hash a h : hashOf a = Some h -> exists floor, minMACSize a = Some floor /\ 0 < floor /\ macSize h = 2 * floor.
Proof. intros E. unfold minMACSize. rewrite E. destruct h; eexists; (split; [done|]); by vm_compute. Qed.
Lemma key_equal n : Equal n n = true.
Proof. unfold Equal. by apply bool_decide_eq_true_2. Qed.

Section Roundtrip.
Context {H : Hmac} {HL : HmacLaws H}.

(** The message [b] with a TSIG record that carries [tag]. *)
Definition tagged (b : bytes) (key : Key) (alg : Name) (ts fudge : Z) (tag : bytes) : bytes :=
  putUint16 (appendTSIGRR b (key_name key) (buildTSIGRData alg ts fudge tag (uint16At b 0) 0 [])) 10 (uint16At b 10 + 1).
(** The walk reaches the end of [b] after its record count was incremented. *)
Definition signable (b : bytes) : Prop :=
  is_bytes b /\ 12 <= zlen b /\ uint16At b 10 < 0xffff /\
  walks (putUint16 b 10 (uint16At b 10 + 1)) (fst (counts b)) (snd (counts b)) (zlen b).
Lemma packed_signable m b : message_ok m -> Message.Pack m = Ok b -> signable b.
Proof.
  intros Hm HP. destruct (packed_walks m b 0 Hm HP ltac:(unfold u16; lia)) as (_ & Hb & H12 & Har & Hl).
  destruct (packed_walks m b (uint16At b 10 + 1) Hm HP) as (HW & _).
  { pose proof (uint16At_u16 b 10 Hb ltac:(lia) ltac:(lia)) as Hu. unfold u16 in *. lia. }
  split_and!; [done|done|lia|done].
Qed.

(** A tag that is a long enough prefix of the MAC is accepted. *)
Lemma verify_tagged b key prior timers h alg ts f k floor now fudge :
  signable b -> key_ok key -> hashOf (key_algorithm key) = Some h -> MustParseName (key_algorithm key) = Ok alg -> canonical alg ->
  minMACSize (key_algorithm key) = Some floor -> floor <= k <= macSize h -> 0 <= floor ->
  0 <= ts < 2 ^ 48 -> u16 f -> 0 <= fudge < 2 ^ 63 -> Z.abs (now - ts * Second) <= fudge ->
  let tag := take (Z.to_nat k) (hmacSum h (key_secret key) (buildSigningInput b (key_name key) alg prior ts f 0 [] timers)) in
  verifyWithPrefix (tagged b key alg ts f tag) key prior timers now fudge = Ok (b, tag, ts * Second) /\ zlen tag = k.
Proof.
  intros (Hb & H12 & Har & HW) Hk Eh Ealg Halg Emin Hkk Hfl Hts Hf Hfu Hd. cbv zeta. pose proof Hk as (Hown & _ & _).
  set (full := hmacSum _ _ _). assert (zlen full = macSize h) as Lf by apply hmac_len. set (tag := take _ full).
  assert (zlen tag = k) as Lt by (unfold zlen in *; unfold tag; rewrite length_take; lia).
  assert (macSize h <= 64) as Hmx by (destruct h; by vm_compute).
  assert (u16 (uint16At b 0)) as Hid by (by apply uint16At_u16; [|lia|lia]).
  split; [|done]. unfold verifyWithPrefix, tagged.
  rewrite stripTSIG_append; try done; try lia; [|by apply Forall_take, hmac_bytes].
  cbn [res_bind t_keyName t_algorithm t_mac t_timeSigned t_origID t_fudge t_errCode t_other]. rewrite key_equal. cbn [negb].
  rewrite Ealg. cbn [res_bind]. rewrite key_equal. cbn [negb]. rewrite Emin. if_false. cbv zeta.
  rewrite putUint16_same by (done || lia). rewrite (computeHMAC_ok _ h) by done. cbn [res_bind]. fold full. if_false.
  assert (take (length tag) full = tag) as ->.
  { unfold tag at 2. f_equal. unfold zlen in Lt. lia. }
  rewrite bool_decide_eq_true_2 by done. cbn [negb].
  unfold timeSub, neg64. rewrite (Z.mod_small (- fudge + 2 ^ 63)) by lia.
  replace ((fudge <? _) || _) with false; [done|]. symmetry. apply orb_false_iff. split; apply Z.ltb_ge; lia.
Qed.

(** What the signer produces. *)
Lemma sign_tagged b key prior timers now fudge :
  signable b -> key_ok key -> 0 <= unix now < 2 ^ 48 -> 0 <= fudge <= 0xffff * Second ->
  exists h alg floor, hashOf (key_algorithm key) = Some h /\ MustParseName (key_algorithm key) = Ok alg /\ canonical alg /\
    minMACSize (key_algorithm key) = Some floor /\ 0 < floor /\ macSize h = 2 * floor /\ u16 (fudge / Second) /\
    let mac := hmacSum h (key_secret key) (buildSigningInput b (key_name key) alg prior (unix now) (fudge / Second) 0 [] timers) in
    signWithPrefix b key prior timers now fudge = Ok (tagged b key alg (unix now) (fudge / Second) mac, mac).
Proof.
  intros (Hb & H12 & _) Hk Hnow Hf. destruct (key_hash _ Hk) as [h Eh]. destruct (MustParseName_known _ _ Eh) as (alg & Ealg & Halg).
  destruct (minMACSize_hash _ _ Eh) as (floor & Emin & Hfl & Hsz). exists h, alg, floor.
  do 6 (split; [done|]). split; [unfold u16, Second in *; elia|].
  cbv zeta. unfold signWithPrefix, tagged. if_false. if_false. if_false. rewrite Ealg. cbn [res_bind]. cbv zeta.
  rewrite (Z.mod_small (unix now) (2 ^ 64)) by lia. rewrite (computeHMAC_ok _ h) by done. cbn [res_bind].
  unfold appendTSIGRR. by rewrite uint16At_ext by lia.
Qed.

Lemma sign_verify b key prior timers now fudge now' fudge' :
  signable b -> key_ok key -> 0 <= unix now < 2 ^ 48 -> 0 <= fudge <= 0xffff * Second ->
  0 <= fudge' < 2 ^ 63 -> Z.abs (now' - unix now * Second) <= fudge' ->
  exists out mac, signWithPrefix b key prior timers now fudge = Ok (out, mac) /\
    verifyWithPrefix out key prior timers now' fudge' = Ok (b, mac, unix now * Second).
Proof.
  intros Hb Hk Hnow Hf Hf' Hd.
  destruct (sign_tagged b key prior timers now fudge Hb Hk Hnow Hf) as (h & alg & floor & Eh & Ealg & Halg & Emin & Hfl & Hsz & Hfu & ES).
  cbv zeta in ES. rewrite ES. eexists _, _. split; [reflexivity|].
  destruct (verify_tagged b key prior timers h alg (unix now) (fudge / Second) (macSize h) floor now' fudge') as [EV _]; try done; [lia|lia|].
  cbv zeta in EV. rewrite firstn_all2 in EV; [done|]. match goal with |- context [length ?x] => pose proof (hmac_len h (key_secret key)
    (buildSigningInput b (key_name key) alg prior (unix now) (fudge / Second) 0 [] timers)) as L end. unfold zlen in L. lia.
Qed.

(** C13. Signing and verifying are inverse: for every message the wire format can
    express that [Pack] accepts, a usable key, and a clock within the
    verifier's fudge of the signing second, the signed bytes verify, in each of
    the three modes (query, response bound to the request's MAC, chained
    transfer envelope), to exactly the packed message, with the MAC that the
    signer returned and the signing time. *)
Theorem tsig_roundtrip m b key prior timers now fudge now' fudge' :
  message_ok m -> Message.Pack m = Ok b -> key_ok key -> 0 <= unix now < 2 ^ 48 -> 0 <= fudge <= 0xffff * Second ->
  0 <= fudge' < 2 ^ 63 -> Z.abs (now' - unix now * Second) <= fudge' ->
  exists out mac, signWithPrefix b key prior timers now fudge = Ok (out, mac) /\
    verifyWithPrefix out key prior timers now' fudge' = Ok (b, mac, unix now * Second).
Proof. intros Hm HP. apply sign_verify. by eapply packed_signable. Qed.
End Roundtrip.

(** ** The input of the MAC determines the message *)
Definition agree (a b : bytes) (lo hi : Z) : Prop := forall i, lo <= i < hi -> zget a i = zget b i.
Lemma agree_sub a b lo hi lo' hi' : agree a b lo hi -> lo <= lo' -> hi' <= hi -> agree a b lo' hi'.
Proof. intros Ha H1 H2 i Hi. apply Ha. lia. Qed.
Lemma agree_uint16 a b lo hi i : agree a b lo hi -> lo <= i -> i + 2 <= hi -> uint16At a i = uint16At b i.
Proof. intros Ha H1 H2. unfold uint16At. by rewrite !Ha by lia. Qed.

(** Where a name ends depends only on the bytes up to there. *)
Lemma name_at_det m1 m2 off ls1 h1 nx1 ls2 h2 nx2 :
  name_at m1 off ls1 h1 nx1 -> name_at m2 off ls2 h2 nx2 -> agree m1 m2 off nx1 -> nx1 = nx2.
Proof.
  intros H1. revert ls2 h2 nx2. induction H1 as [off Ha|off l ls h nx Ha Hl Hn IH|off hi lo ls h nx Ha Hhi Hlo Hlt Hn IH]; intros ls2 h2 nx2 H2 Hag.
  - pose proof (Hag off ltac:(lia)) as Eb. rewrite (at_bytes_get _ _ _ _ Ha) in Eb.
    destruct H2 as [off Hb|off l' ls' h' nx' Hb Hl' _|off hi' lo' ls' h' nx' Hb Hhi' _ _ _]; [done|..];
      apply at_bytes_get in Hb; lia.
  - apply name_at_off in Hn as Ho. pose proof (Hag off ltac:(lia)) as Eb. rewrite (at_bytes_get _ _ _ _ Ha) in Eb.
    destruct H2 as [off Hb|off l' ls' h' nx' Hb Hl' Hn'|off hi' lo' ls' h' nx' Hb Hhi' _ _ _]; apply at_bytes_get in Hb; [lia| |lia].
    assert (zlen l = zlen l') as El by lia. rewrite <- El in Hn'. eapply IH; [done|]. apply (agree_sub _ _ off nx); [done|lia|lia].
  - pose proof (Hag off ltac:(lia)) as Eb. rewrite (at_bytes_get _ _ _ _ Ha) in Eb.
    destruct H2 as [off Hb|off l' ls' h' nx' Hb Hl' _|off hi' lo' ls' h' nx' Hb Hhi' _ _ _]; [apply at_bytes_get in Hb; lia..|done].
Qed.
Lemma DecodeWire_det m1 m2 off n1 nx1 n2 nx2 : is_bytes m1 -> is_bytes m2 ->
  DecodeWire m1 off = Ok (n1, nx1) -> DecodeWire m2 off = Ok (n2, nx2) -> agree m1 m2 off nx1 -> nx1 = nx2.
Proof.
  intros Hb1 Hb2 (ls1 & h1 & H1 & _)%DecodeWire_spec (ls2 & h2 & H2 & _)%DecodeWire_spec; [|done..]. by eapply name_at_det.
Qed.
Lemma skipQuestion_range msg off e : is_bytes msg -> skipQuestion msg off = Ok e -> 0 <= off /\ off <= e /\ e <= zlen msg.
Proof.
  intros Hb. unfold skipQuestion. intros ([n nx] & E & H)%res_bind_Ok. cbn [snd] in *. destruct (_ <? _) eqn:L in H; [done|].
  injection H as <-. bool_facts. apply DecodeWire_off in E; [|done]. lia.
Qed.
Lemma skipRR_range msg off e : is_bytes msg -> skipRR msg off = Ok e -> 0 <= off /\ off <= e /\ e <= zlen msg.
Proof.
  intros Hb. unfold skipRR. intros ([n nx] & E & H)%res_bind_Ok. cbn [snd] in *. destruct (_ <? nx + 10) eqn:L; [done|]. bool_facts.
  apply DecodeWire_off in E; [|done]. pose proof (uint16At_u16 msg (nx + 8) Hb ltac:(lia) ltac:(lia)) as Hu. unfold u16 in Hu.
  destruct (_ <? _) eqn:L2 in H; [done|]. injection H as <-. bool_facts. lia.
Qed.
Lemma skipQuestions_range n msg off e : is_bytes msg -> 0 <= off <= zlen msg -> skipQuestions n msg off = Ok e -> off <= e <= zlen msg.
Proof.
  intros Hb. revert off. induction n as [|n IH]; intros off Ho; cbn [skipQuestions]; [intros [= <-]; lia|].
  intros (o & E & H)%res_bind_Ok. apply skipQuestion_range in E; [|done]. apply IH in H; lia.
Qed.
Lemma skipRRs_range n msg off last e last' : is_bytes msg -> 0 <= off <= zlen msg -> skipRRs n msg off last = Ok (e, last') -> off <= e <= zlen msg.
Proof.
  intros Hb. revert off last. induction n as [|n IH]; intros off last Ho; cbn [skipRRs]; [intros [= <- _]; lia|].
  intros (o & E & H)%res_bind_Ok. apply skipRR_range in E; [|done]. apply IH in H; lia.
Qed.

Lemma skipQuestion_det m1 m2 off e1 e2 : is_bytes m1 -> is_bytes m2 ->
  skipQuestion m1 off = Ok e1 -> skipQuestion m2 off = Ok e2 -> agree m1 m2 off e1 -> e1 = e2.
Proof.
  intros Hb1 Hb2. unfold skipQuestion. intros ([n1 nx1] & E1 & H1)%res_bind_Ok ([n2 nx2] & E2 & H2)%res_bind_Ok. cbn [snd] in *.
  destruct (_ <? _) in H1; [done|]. injection H1 as <-. destruct (_ <? _) in H2; [done|]. injection H2 as <-.
  intros Ha. f_equal. apply (DecodeWire_det m1 m2 off n1 nx1 n2 nx2); try done. eapply agree_sub; [done|lia|lia].
Qed.
Lemma skipRR_det m1 m2 off e1 e2 : is_bytes m1 -> is_bytes m2 ->
  skipRR m1 off = Ok e1 -> skipRR m2 off = Ok e2 -> agree m1 m2 off e1 -> e1 = e2.
Proof.
  intros Hb1 Hb2. unfold skipRR. intros ([n1 nx1] & E1 & H1)%res_bind_Ok ([n2 nx2] & E2 & H2)%res_bind_Ok. cbn [snd] in *.
  destruct (_ <? nx1 + 10) eqn:L1; [done|]. destruct (_ <? nx2 + 10); [done|]. bool_facts. apply DecodeWire_off in E1 as Ho; [|done].
  pose proof (uint16At_u16 m1 (nx1 + 8) Hb1 ltac:(lia) ltac:(lia)) as Hu. unfold u16 in Hu.
  destruct (_ <? _) in H1; [done|]. injection H1 as <-. destruct (_ <? _) in H2; [done|]. injection H2 as <-.
  intros Ha. assert (nx1 = nx2) as <- by (apply (DecodeWire_det m1 m2 off n1 nx1 n2 nx2); try done; eapply agree_sub; [done|lia|lia]).
  f_equal. eapply agree_uint16; [done|lia|lia].
Qed.
Lemma skipQuestions_det n m1 m2 off e1 e2 : is_bytes m1 -> is_bytes m2 ->
  skipQuestions n m1 off = Ok e1 -> skipQuestions n m2 off = Ok e2 -> agree m1 m2 off e1 -> e1 = e2.
Proof.
  intros Hb1 Hb2. revert off. induction n as [|n IH]; intros off; cbn [skipQuestions]; [by intros [= <-] [= <-]|].
  intros (o1 & E1 & H1)%res_bind_Ok (o2 & E2 & H2)%res_bind_Ok Ha. pose proof (skipQuestion_range _ _ _ Hb1 E1) as R1.
  pose proof (skipQuestions_range n m1 o1 e1 Hb1 ltac:(lia) H1) as R2.
  assert (o1 = o2) as <- by (apply (skipQuestion_det m1 m2 off); try done; eapply agree_sub; [done|lia|lia]).
  apply (IH o1); try done. eapply agree_sub; [done|lia|lia].
Qed.
Lemma skipRRs_det n m1 m2 off last e1 e2 l1 l2 : is_bytes m1 -> is_bytes m2 ->
  skipRRs n m1 off last = Ok (e1, l1) -> skipRRs n m2 off last = Ok (e2, l2) -> agree m1 m2 off e1 -> e1 = e2.
Proof.
  intros Hb1 Hb2. revert off last. induction n as [|n IH]; intros off last; cbn [skipRRs]; [by intros [= <- _] [= <- _]|].
  intros (o1 & E1 & H1)%res_bind_Ok (o2 & E2 & H2)%res_bind_Ok Ha. pose proof (skipRR_range _ _ _ Hb1 E1) as R1.
  pose proof (skipRRs_range n m1 o1 off e1 l1 Hb1 ltac:(lia) H1) as R2.
  assert (o1 = o2) as <- by (apply (skipRR_det m1 m2 off); try done; eapply agree_sub; [done|lia|lia]).
  apply (IH o1 off); try done. eapply agree_sub; [done|lia|lia].
Qed.
Lemma walks_range msg qd n e : is_bytes msg -> 12 <= zlen msg -> walks msg qd n e -> 12 <= e <= zlen msg.
Proof.
  intros Hb Hl (o & l & E1 & E2). apply skipQuestions_range in E1; [|done|lia]. apply skipRRs_range in E2; [lia|done|lia].
Qed.
Lemma walks_det m1 m2 qd n e1 e2 : is_bytes m1 -> is_bytes m2 -> 12 <= zlen m1 ->
  walks m1 qd n e1 -> walks m2 qd n e2 -> agree m1 m2 12 e1 -> e1 = e2.
Proof.
  intros Hb1 Hb2 Hl (o1 & l1 & Q1 & R1) (o2 & l2 & Q2 & R2) Ha.
  pose proof (skipQuestions_range qd m1 12 o1 Hb1 ltac:(lia) Q1) as B1. pose proof (skipRRs_range n m1 o1 o1 e1 l1 Hb1 ltac:(lia) R1) as B2.
  assert (o1 = o2) as <- by (apply (skipQuestions_det qd m1 m2 12); try done; eapply agree_sub; [done|lia|lia]).
  apply (skipRRs_det n m1 m2 o1 o1 e1 e2 l1 l2); try done. eapply agree_sub; [done|lia|lia].
Qed.

(** A body whose end the record walk finds, in a message with the same sections. *)
Definition delimited (b : bytes) : Prop :=
  is_bytes b /\ 12 <= zlen b /\
  exists msg, is_bytes msg /\ zlen b <= zlen msg /\ agree msg b 12 (zlen b) /\ walks msg (fst (counts b)) (snd (counts b)) (zlen b).

Lemma counts_eq a b : agree a b 0 12 -> counts a = counts b.
Proof. intros Ha. unfold counts. rewrite !(agree_uint16 a b 0 12) by (done || lia). done. Qed.
Lemma app_agree a b va vb : a ++ va = b ++ vb -> agree a b 0 (Z.min (zlen a) (zlen b)).
Proof. intros E i Hi. rewrite <- (zget_ext a va), E by lia. apply zget_ext. lia. Qed.
Lemma agree_trans a b c lo hi : agree a b lo hi -> agree b c lo hi -> agree a c lo hi.
Proof. intros H1 H2 i Hi. rewrite H1 by done. by apply H2. Qed.
Lemma agree_sym a b lo hi : agree a b lo hi -> agree b a lo hi.
Proof. intros H1 i Hi. by rewrite H1. Qed.

Lemma delimited_short a b va vb : delimited a -> delimited b -> a ++ va = b ++ vb -> zlen a <= zlen b -> zlen a = zlen b.
Proof.
  intros (Ha & La & ma & Hma & Lma & Aa & Wa) (Hb & Lb & mb & Hmb & Lmb & Ab & Wb) E Hl.
  apply app_agree in E. rewrite (counts_eq a b) in Wa by (eapply agree_sub; [done|lia|lia]).
  apply (walks_det ma mb (fst (counts b)) (snd (counts b))); [done|done|lia|done|done|].
  apply (agree_trans _ a); [done|]. apply (agree_trans _ b); [eapply agree_sub; [done|lia|lia]|].
  apply agree_sym. eapply agree_sub; [done|lia|lia].
Qed.
Lemma delimited_inj a b va vb : delimited a -> delimited b -> a ++ va = b ++ vb -> a = b /\ va = vb.
Proof.
  intros Ha Hb E. assert (zlen a = zlen b) as El.
  { destruct (Z.le_ge_cases (zlen a) (zlen b)); [by eapply delimited_short|]. symmetry. eapply delimited_short; [done|done|symmetry; done|done]. }
  apply app_inj_1 in E; [done|]. unfold zlen in El. lia.
Qed.

(** ** What an accepted message was signed as *)
Lemma at_bytes_self bs : at_bytes bs 0 bs.
Proof. split; [lia|]. exists []. by rewrite app_nil_r. Qed.
Lemma appendUint48_inj v w : 0 <= v < 2 ^ 48 -> 0 <= w < 2 ^ 48 -> appendUint48 v = appendUint48 w -> v = w.
Proof.
  intros Hv Hw E. rewrite <- (readUint48_at (appendUint48 v) 0 v Hv (at_bytes_self _)), E. apply (readUint48_at _ _ _ Hw), at_bytes_self.
Qed.
Lemma readUint48_range msg i : is_bytes msg -> 0 <= i -> i + 6 <= zlen msg -> 0 <= readUint48 msg i < 2 ^ 48.
Proof.
  intros Hb H0 H1. unfold readUint48. assert (forall k, 0 <= k <= 5 -> u8 (zget msg (i + k))) as Hg by (intros k Hk; apply zget_u8; [done|lia]).
  pose proof (Hg 0 ltac:(lia)) as G0. rewrite Z.add_0_r in G0. pose proof (Hg 1 ltac:(lia)). pose proof (Hg 2 ltac:(lia)).
  pose proof (Hg 3 ltac:(lia)). pose proof (Hg 4 ltac:(lia)). pose proof (Hg 5 ltac:(lia)). unfold u8 in *.
  change (2 ^ 48) with 281474976710656.
  repeat (rewrite lor_shiftl_add; [|lia|]); change (2 ^ 40) with 1099511627776; change (2 ^ 32) with 4294967296;
    change (2 ^ 24) with 16777216; change (2 ^ 16) with 65536; change (2 ^ 8) with 256; lia.
Qed.

Lemma parseTSIGRData_time msg name s e t : is_bytes msg -> e <= zlen msg -> parseTSIGRData msg name s e = Ok t ->
  t_keyName t = name /\ 0 <= t_timeSigned t < 2 ^ 48.
Proof.
  intros Hb He. unfold parseTSIGRData. intros ([alg off] & E & H)%res_bind_Ok. apply DecodeWire_off in E; [|done].
  destruct (_ <? _) eqn:L1 in H; [done|]. destruct (_ <? _) in H; [done|]. destruct (_ <? _) in H; [done|]. injection H as <-.
  bool_facts. split; [done|]. apply readUint48_range; [done|lia|lia].
Qed.

Lemma zslice_agree msg e : 0 <= e <= zlen msg -> agree msg (zslice msg 0 e) 0 e /\ zlen (zslice msg 0 e) = e.
Proof.
  intros He. split; [|by apply (at_bytes_of_slice msg 0 e); lia]. intros i Hi. unfold zslice, zget.
  by rewrite lookup_take_lt, lookup_drop by lia.
Qed.

Lemma stripTSIG_inv msg body t : is_bytes msg -> stripTSIG msg = Ok (body, t) ->
  0 <= t_timeSigned t < 2 ^ 48 /\ 12 <= zlen body /\ forall v, delimited (putUint16 body 0 v).
Proof.
  intros Hb. unfold stripTSIG. destruct (_ <? 12) eqn:L; [done|]. bool_facts. destruct (_ =? 0) eqn:E0; [done|]. bool_facts.
  intros (start & Ef & E)%res_bind_Ok. apply res_bind_Ok in E as ([kn off] & _ & E).
  destruct (_ <? _) in E; [done|]. destruct (negb _) in E; [done|]. destruct (_ <? _) eqn:Le in E; [done|]. bool_facts.
  apply res_bind_Ok in E as (t' & Ep & [= <- <-]). apply parseTSIGRData_time in Ep as [_ Ht]; [|done|done]. split; [done|].
  unfold findLastRROffset in Ef. apply res_bind_Ok in Ef as (qoff & Eq & Ef). apply res_bind_Ok in Ef as ([e lst] & Er & Ef).
  cbn [snd] in Ef. destruct (_ <? _) eqn:Li in Ef; [done|]. injection Ef as <-. bool_facts.
  assert (forall i, 0 <= i <= 10 -> u16 (uint16At msg i)) as Hu by (intros i Hi; apply uint16At_u16; [done|lia|lia]).
  pose proof (Hu 6 ltac:(lia)) as U6. pose proof (Hu 8 ltac:(lia)) as U8. pose proof (Hu 10 ltac:(lia)) as U10. unfold u16 in U6, U8, U10.
  replace (Z.to_nat _) with (S (Z.to_nat (uint16At msg 6) + Z.to_nat (uint16At msg 8) + Z.to_nat (uint16At msg 10 - 1))) in Er by lia.
  rewrite skipRRs_snoc in Er. apply res_bind_Ok in Er as ([start lst'] & Er & Er2). apply res_bind_Ok in Er2 as (nx & _ & [= _ <-]).
  cbn [fst] in *. assert (walks msg (Z.to_nat (uint16At msg 4)) (Z.to_nat (uint16At msg 6) + Z.to_nat (uint16At msg 8) + Z.to_nat (uint16At msg 10 - 1)) start) as W
    by (by exists qoff, lst').
  pose proof (walks_range _ _ _ _ Hb L W) as Hs. destruct (zslice_agree msg start ltac:(lia)) as [Ha Hl].
  set (body := zslice msg 0 start) in *. set (ar := uint16At msg 10) in *.
  assert (is_bytes body) as Hbb by (by apply is_bytes_zslice). rewrite putUint16_len by lia. split; [lia|]. intros v.
  set (b1 := putUint16 body 10 (ar - 1)). assert (zlen b1 = start) as Lb1 by (unfold b1; rewrite putUint16_len; lia).
  split; [by repeat apply putUint16_bytes|]. rewrite putUint16_len by lia. split; [lia|]. exists msg. split; [done|]. split; [lia|].
  assert (forall i, 2 <= i < 10 \/ 12 <= i < start -> zget (putUint16 b1 0 v) i = zget msg i) as Hz.
  { intros i Hi. unfold b1. rewrite !putUint16_other by (rewrite ?putUint16_len; lia). symmetry. apply Ha. lia. }
  rewrite Lb1. split; [intros i Hi; symmetry; apply Hz; lia|].
  assert (forall i, 2 <= i -> i + 2 <= 10 -> uint16At (putUint16 b1 0 v) i = uint16At msg i) as Hh.
  { intros i H1 H2. unfold uint16At. by rewrite !Hz by lia. }
  unfold counts. rewrite (Hh 4), (Hh 6), (Hh 8) by lia. cbn [fst snd].
  replace (uint16At (putUint16 b1 0 v) 10) with (ar - 1); [done|]. symmetry. unfold uint16At.
  rewrite !(putUint16_other b1 0) by lia. apply uint16At_at; [unfold u16; lia|]. apply putUint16_at; lia.
Qed.

Lemma packed_delimited m b : message_ok m -> Message.Pack m = Ok b -> delimited b.
Proof.
  intros Hm HP. destruct (packed_walks m b 0 Hm HP ltac:(unfold u16; lia)) as (_ & Hb & H12 & _).
  pose proof (uint16At_u16 b 10 Hb ltac:(lia) ltac:(lia)) as Hu. destruct (packed_walks m b _ Hm HP Hu) as (HW & _).
  rewrite putUint16_same in HW by (done || lia). split; [done|]. split; [done|]. by exists b.
Qed.

(** One call of the signer: the packed message, the time and the fudge. *)
Record signing := mkSigning { sg_msg : bytes; sg_now : Z; sg_fudge : Z }.
Definition signing_ok (c : signing) : Prop :=
  (exists m, message_ok m /\ Message.Pack m = Ok (sg_msg c)) /\ 0 <= unix (sg_now c) < 2 ^ 48.

Section Authentic.
Context {H : Hmac}.
Variables (key : Key) (prior : option bytes) (timers : bool).

(** The MAC input of a signing call, and of a received message. *)
Definition signInput (c : signing) : res bytes :=
  let? alg := MustParseName (key_algorithm key) in
  Ok (buildSigningInput (sg_msg c) (key_name key) alg prior (unix (sg_now c)) (sg_fudge c / Second) 0 [] timers).
Definition verifyInput (msg : bytes) : res bytes :=
  let? r := stripTSIG msg in
  let '(body, t) := r in
  Ok (buildSigningInput (putUint16 body 0 (t_origID t)) (t_keyName t) (t_algorithm t) prior (t_timeSigned t) (t_fudge t)
        (t_errCode t) (t_other t) timers).

Lemma buildSigningInput_inj b b' kn alg ts ts' f f' e e' o o' :
  delimited b -> delimited b' -> 0 <= ts < 2 ^ 48 -> 0 <= ts' < 2 ^ 48 ->
  buildSigningInput b kn alg prior ts f e o timers = buildSigningInput b' kn alg prior ts' f' e' o' timers -> b = b' /\ ts = ts'.
Proof.
  intros Hb Hb' Ht Ht' E. unfold buildSigningInput in E. apply app_inv_head in E. apply delimited_inj in E as [-> E]; [|done..].
  split; [done|]. apply appendUint48_inj; [done..|]. destruct timers; [by apply app_inj_1 in E as [? _]|].
  unfold buildTSIGVars in E. do 4 apply app_inv_head in E. by apply app_inj_1 in E as [? _].
Qed.

(** C16. Authenticity of a verified message, relative to the MAC: a message that
    [verifyWithPrefix] accepts carries a tag, at least half of the algorithm's
    output, of one definite input, the time is inside the window, and that
    input is the input of no signing call other than one for exactly the
    returned body and signing time.  So an attacker who changes a signed
    message, splices sections, moves the boundary between the message and the
    TSIG variables or rewrites the time has to produce a tag for an input that
    was never signed. *)
Theorem tsig_authentic msg now fudge body mac signed :
  is_bytes msg -> 0 <= fudge < 2 ^ 63 - 1 -> verifyWithPrefix msg key prior timers now fudge = Ok (body, mac, signed) ->
  exists input h floor, verifyInput msg = Ok input /\ hashOf (key_algorithm key) = Some h /\
    minMACSize (key_algorithm key) = Some floor /\ floor <= zlen mac /\
    take (length mac) (hmacSum h (key_secret key) input) = mac /\
    Z.abs (now - signed) <= fudge /\
    forall c, signing_ok c -> signInput c = Ok input -> body = sg_msg c /\ signed = unix (sg_now c) * Second.
Proof.
  intros Hb Hf E. unfold verifyWithPrefix in E. unfold verifyInput, signInput. destruct (stripTSIG msg) as [[bd t]|] eqn:Es; [|done].
  destruct (stripTSIG_inv msg bd t Hb Es) as (Ht & Hl & Hd). cbn [res_bind] in *.
  destruct (negb _) eqn:Ek in E; [done|]. apply res_bind_Ok in E as (alg & Ealg & E). rewrite Ealg.
  destruct (negb _) eqn:Ea in E; [done|]. destruct (minMACSize _) as [floor|] eqn:Em; [|done].
  destruct (_ <? _) eqn:El in E; [done|]. cbv zeta in E. apply res_bind_Ok in E as (full & Ec & E).
  destruct (_ <? _) in E; [done|]. destruct (negb _) eqn:Emac in E; [done|]. destruct (_ || _) eqn:Et in E; [done|].
  injection E as <- <- <-. bool_facts. unfold minMACSize in Em. destruct (hashOf _) as [h|] eqn:Eh; [|done].
  eexists _, h, floor. split; [reflexivity|]. split; [done|]. split; [done|]. split; [done|].
  split; [|split].
  - apply bool_decide_eq_true_1 in Emac. unfold computeHMAC in Ec. rewrite Eh in Ec.
    destruct h; [destruct (key_allowSHA1 key); [|done]|..]; by injection Ec as <-.
  - unfold timeSub, neg64 in *. rewrite (Z.mod_small (- fudge + 2 ^ 63)) in * by lia. lia.
  - intros c [(m & Hm & HP) Hn]. cbn [res_bind]. intros [= Ei].
    apply bool_decide_eq_true_1 in Ek, Ea.
    assert (t_keyName t = key_name key) as Ekn by (destruct (t_keyName t), (key_name key); cbn in Ek; by f_equal).
    assert (t_algorithm t = alg) as Ean by (destruct (t_algorithm t), alg; cbn in Ea; by f_equal).
    rewrite Ekn, Ean in Ei. apply buildSigningInput_inj in Ei as [<- ->]; [done| |apply Hd|done|done]. by eapply packed_delimited.
Qed.
End Authentic.

(** ** A concrete key and function *)
Module SampleKey.
(** A checksum in place of a MAC, with tags of the right length. *)
Definition sum (bs : bytes) : Z := fold_left (fun a c => (31 * a + c) mod 256) bs 7.
#[export] Instance checksum : Hmac := {| hmacSum h secret payload := replicate (Z.to_nat (macSize h)) (sum (secret ++ payload)) |}.
Lemma sum_u8 bs : u8 (sum bs).
Proof.
  unfold sum. assert (u8 7) as H7 by (unfold u8; lia). revert H7. generalize 7. induction bs as [|c bs IH]; intros a Ha; [done|].
  cbn [fold_left]. apply IH. unfold u8. pose proof (Z.mod_pos_bound (31 * a + c) 256 ltac:(lia)). lia.
Qed.
#[export] Instance checksum_laws : HmacLaws checksum.
Proof.
  split; intros h secret payload; cbn [hmacSum checksum].
  - unfold zlen. rewrite length_replicate. destruct h; by vm_compute.
  - apply Forall_replicate, sum_u8.
Qed.
Definition key : Key := mkKey sampleName HMACSHA256 [1; 2; 3] false.
Lemma key_is_ok : key_ok key.
Proof. split; [apply name_ok_canonical, sampleName_ok|]. split; [by vm_compute|]. intros E. by vm_compute in E. Qed.
(** 2023-11-14 22:13:20 UTC. *)
Definition now : Z := 1700000000 * Second.
Definition signed : bytes := match signWithPrefix sampleBytes key None false now (300 * Second) with Ok (out, _) => out | Err _ => [] end.
Definition tag : bytes := match signWithPrefix sampleBytes key None false now (300 * Second) with Ok (_, mac) => mac | Err _ => [] end.
Lemma packed : Message.Pack sampleMessage = Ok sampleBytes.
Proof. vm_compute. reflexivity. Qed.
Lemma signed_accepted : verifyWithPrefix signed key None false (now + 20 * Second) (300 * Second) = Ok (sampleBytes, tag, now).
Proof. vm_compute. reflexivity. Qed.
End SampleKey.

Lemma tsig_roundtrip_witness :
  exists out mac, signWithPrefix (H := SampleKey.checksum) sampleBytes SampleKey.key (Some [1; 2; 3; 4]) true SampleKey.now (300 * Second) = Ok (out, mac) /\
    verifyWithPrefix (H := SampleKey.checksum) out SampleKey.key (Some [1; 2; 3; 4]) true (SampleKey.now - 5 * Second) (60 * Second)
    = Ok (sampleBytes, mac, SampleKey.now).
Proof.
  refine (tsig_roundtrip (HL := SampleKey.checksum_laws) sampleMessage sampleBytes SampleKey.key (Some [1; 2; 3; 4]) true SampleKey.now (300 * Second)
    (SampleKey.now - 5 * Second) (60 * Second) sampleMessage_ok SampleKey.packed SampleKey.key_is_ok _ _ _ _); decide_now.
Defined.

Lemma tsig_authentic_witness :
  exists input h floor, verifyInput None false SampleKey.signed = Ok input /\ hashOf (key_algorithm SampleKey.key) = Some h /\
    minMACSize (key_algorithm SampleKey.key) = Some floor /\ floor <= zlen SampleKey.tag /\
    take (length SampleKey.tag) (hmacSum (Hmac := SampleKey.checksum) h (key_secret SampleKey.key) input) = SampleKey.tag /\
    Z.abs (SampleKey.now + 20 * Second - SampleKey.now) <= 300 * Second /\
    forall c, signing_ok c -> signInput SampleKey.key None false c = Ok input ->
      sampleBytes = sg_msg c /\ SampleKey.now = unix (sg_now c) * Second.
Proof.
  refine (tsig_authentic (H := SampleKey.checksum) SampleKey.key None false SampleKey.signed (SampleKey.now + 20 * Second) (300 * Second) sampleBytes SampleKey.tag
    SampleKey.now _ _ SampleKey.signed_accepted); [|decide_now].
  apply (bool_decide_eq_true_1 (Forall u8 SampleKey.signed)). vm_compute. reflexivity.
Defined.
