(* ===== verification/Replay.v ===== *)
(** * The replay cache of transaction signatures (src/tsig/replay.go)

    The cache is a map from a key built of the key name, the signing time and
    the MAC to the time of the first observation.  The clock is the argument
    [now] of each call; the mutex makes calls atomic.  The order in which Go
    ranges over a map is the class [MapRange]. *)

From stdpp Require Import pretty.
From Stdlib Require Import Strings.String.
From S2P Require Import Prelude Name Wire RData Message Tsig.
Open Scope Z_scope.
Open Scope list_scope.

Definition Minute : Z := 60 * Second.
Definition DefaultReplayWindow : Z := 5 * Minute.
Definition DefaultReplayCacheSize : Z := 16384.

(** [lastSweep] is [None] when it is the zero time. *)
Record MemoryReplayCache := mkCache { size : Z; window : Z; seen : gmap bytes Z; lastSweep : option Z }.

Inductive ReplayCacheOption := WithReplayWindow (d : Z) | WithReplayCacheSize (n : Z).
Definition applyReplayOption (c : MemoryReplayCache) (o : ReplayCacheOption) : MemoryReplayCache :=
  match o with
  | WithReplayWindow d => mkCache (size c) d (seen c) (lastSweep c)
  | WithReplayCacheSize n => mkCache n (window c) (seen c) (lastSweep c)
  end.
Definition NewMemoryReplayCache (opts : list ReplayCacheOption) : MemoryReplayCache :=
  fold_left applyReplayOption opts (mkCache DefaultReplayCacheSize DefaultReplayWindow ∅ None).

Definition Len (c : MemoryReplayCache) : Z := Z.of_nat (base.size (seen c)).

(** ** Keys *)
Definition hexDigit (d : Z) : Z := if d <? 10 then 48 + d else 87 + d.
(** [hex.EncodeToString]. *)
Definition EncodeToString (b : bytes) : bytes := flat_map (fun c => [hexDigit (c / 16); hexDigit (c mod 16)]) b.
(** [strconv.AppendInt(_, v, 10)]. *)
Definition AppendInt (v : Z) : bytes := str (pretty v).
Definition replayKey (keyName : Name) (signedAt : Z) (mac : bytes) : bytes :=
  AppendWire keyName [] ++ [124] ++ AppendInt (unix signedAt) ++ [124] ++ EncodeToString mac.

(** ** Eviction *)
Definition shouldSweepLocked (c : MemoryReplayCache) (now : Z) : bool :=
  if (0 <? size c) && (Z.quot (size c) 2 <=? Len c) then true
  else if window c <=? 0 then false
  else match lastSweep c with
       | None => true
       | Some last => Z.quot (window c) 4 <=? timeSub now last
       end.

Definition evictExpiredLocked (c : MemoryReplayCache) (now : Z) : MemoryReplayCache :=
  let cutoff := now - window c in
  mkCache (size c) (window c) (filter (fun kt => cutoff <= snd kt) (seen c)) (lastSweep c).
Definition sweepAt (c : MemoryReplayCache) (now : Z) : MemoryReplayCache :=
  let c := evictExpiredLocked c now in mkCache (size c) (window c) (seen c) (Some now).

(** The loop state is [None] while [first]. *)
Definition olderOf (best : option (bytes * Z)) (kt : bytes * Z) : option (bytes * Z) :=
  match best with
  | None => Some kt
  | Some (_, oldestT) => if snd kt <? oldestT then Some kt else best
  end.
Definition evictOldestLocked `{MapRange} (c : MemoryReplayCache) : MemoryReplayCache :=
  let oldestKey := match fold_left olderOf (mapRange (seen c)) None with Some (k, _) => k | None => [] end in
  mkCache (size c) (window c) (delete oldestKey (seen c)) (lastSweep c).

(** ** The operations *)
Definition Seen `{MapRange} (c : MemoryReplayCache) (now : Z) (keyName : Name) (signedAt : Z) (mac : bytes) : bool * MemoryReplayCache :=
  let k := replayKey keyName signedAt mac in
  let c := if shouldSweepLocked c now then sweepAt c now else c in
  match seen c !! k with
  | Some _ => (true, c)
  | None =>
      let c :=
        if (0 <? size c) && (size c <=? Len c) then
          let c := sweepAt c now in
          if size c <=? Len c then evictOldestLocked c else c
        else c in
      (false, mkCache (size c) (window c) (<[k := now]> (seen c)) (lastSweep c))
  end.

(** [cache] is [None] when nil; its clock reads [now] too. *)
Definition VerifyWithReplay `{Hmac} `{MapRange} (msg : bytes) (key : Key) (cache : option MemoryReplayCache) (now fudge : Z) :
    res (bytes * bytes * Z) * option MemoryReplayCache :=
  match VerifyMAC msg key now fudge with
  | Err e => (Err e, cache)
  | Ok (body, mac, signed) =>
      match cache with
      | None => (Ok (body, mac, signed), None)
      | Some c =>
          let '(dup, c) := Seen c now (key_name key) signed mac in
          if dup then (Err ErrReplay, Some c) else (Ok (body, mac, signed), Some c)
      end
  end.
