(* ===== verification/ReplaySound.v ===== *)
(** * What the replay cache promises

    A cache that is large enough and keeps entries for twice the fudge makes
    the verifier accept every signed message once; the default retention, and
    the truncation of tags, leave gaps. *)

From stdpp Require Import pretty.
From Stdlib Require Import Strings.String.
From S2P Require Import Prelude Name Wire RData Message MessageRoundtrip Reader MessageReads Signatures Tsig TsigSound Replay.
Open Scope Z_scope.
Open Scope list_scope.

(** ** Keys are injective *)
Lemma split_first {A} (x : A) a b c d : x ∉ a -> x ∉ b -> a ++ x :: c = b ++ x :: d -> a = b /\ c = d.
Proof.
  revert b. induction a as [|y a IH]; intros [|z b] Ha Hb E; cbn in E; inversion E; subst; [done|set_solver|set_solver|].
  destruct (IH b) as [-> ->]; [set_solver|set_solver|done|done].
Qed.
Lemma split_last {A} (x : A) a b c d : x ∉ c -> x ∉ d -> a ++ x :: c = b ++ x :: d -> a = b /\ c = d.
Proof.
  intros Hc Hd E. apply (f_equal reverse) in E. rewrite !reverse_app, !reverse_cons, <- !app_assoc in E. cbn [app] in E.
  apply split_first in E as [E1 E2]; [|by rewrite elem_of_reverse|by rewrite elem_of_reverse].
  by apply (inj reverse) in E1, E2.
Qed.
Lemma str_inj s t : str s = str t -> s = t.
Proof.
  unfold str. intros E. rewrite <- (String.string_of_list_ascii_of_string s), <- (String.string_of_list_ascii_of_string t). f_equal.
  revert E. generalize (String.list_ascii_of_string s) (String.list_ascii_of_string t). clear.
  induction l as [|x l IH]; intros [|y l'] E; try done. injection E as E1 E2. f_equal; [|by apply IH].
  apply N2Z.inj in E1. by rewrite <- (Ascii.ascii_N_embedding x), E1, Ascii.ascii_N_embedding.
Qed.
Lemma hexDigit_ok d : 0 <= d < 16 -> hexDigit d <> 124.
Proof. unfold hexDigit. split_if; lia. Qed.
Lemma hexDigit_inj d e : 0 <= d < 16 -> 0 <= e < 16 -> hexDigit d = hexDigit e -> d = e.
Proof. unfold hexDigit. intros Hd He. repeat split_if; bool_facts; lia. Qed.
Lemma u8_nibbles c : u8 c -> 0 <= c / 16 < 16 /\ 0 <= c mod 16 < 16.
Proof. unfold u8. intros. elia. Qed.
Lemma EncodeToString_no_bar b : is_bytes b -> 124 ∉ EncodeToString b.
Proof.
  induction 1 as [|c b Hc _ IH]; [set_solver|]. apply u8_nibbles in Hc as [H1 H2]. pose proof (hexDigit_ok _ H1). pose proof (hexDigit_ok _ H2).
  cbn. set_solver.
Qed.
Lemma EncodeToString_inj a b : is_bytes a -> is_bytes b -> EncodeToString a = EncodeToString b -> a = b.
Proof.
  intros Ha. revert b. induction Ha as [|c a Hc Ha IH]; intros b Hb; (destruct Hb as [|d b Hd Hb]; [try done|]); cbn; try done.
  intros [= E1 E2 E]. apply u8_nibbles in Hc as [? ?]. apply u8_nibbles in Hd as [? ?].
  apply hexDigit_inj in E1, E2; [|done..]. f_equal; [|by apply IH]. rewrite (Z.div_mod c 16), (Z.div_mod d 16) by lia. lia.
Qed.

(** What a verified message is remembered as. *)
Definition tuple : Type := Name * Z * bytes.
Definition tuple_ok (x : tuple) : Prop :=
  let '(n, s, m) := x in canonical n /\ (exists u, s = u * Second) /\ is_bytes m.
Definition keyOf (x : tuple) : bytes := let '(n, s, m) := x in replayKey n s m.
Lemma keyOf_inj x y : tuple_ok x -> tuple_ok y -> keyOf x = keyOf y -> x = y.
Proof.
  destruct x as [[n s] m], y as [[n' s'] m']. intros (Hn & [u ->] & Hm) (Hn' & [u' ->] & Hm') E. cbn in E. unfold replayKey, unix in E.
  destruct Hn as (ls & Hw & _), Hn' as (ls' & Hw' & _). rewrite (AppendWire_wf _ _ Hw), (AppendWire_wf _ _ Hw') in E.
  pose proof Hw as (En & Hl & _). pose proof Hw' as (En' & Hl' & _).
  apply encName_app_inj in E as [-> E]; [|done..]. injection E as E. apply split_last in E as [E Em]; [|by apply EncodeToString_no_bar..].
  apply EncodeToString_inj in Em as ->; [|done..]. apply str_inj, (inj pretty) in E. rewrite !Z.div_mul in E by done. subst u'.
  destruct n, n'. cbn in En, En'. by subst.
Qed.

(** ** Verified messages *)
Lemma stripTSIG_mac msg body t : is_bytes msg -> stripTSIG msg = Ok (body, t) -> is_bytes (t_mac t).
Proof.
  intros Hb. unfold stripTSIG. destruct (_ <? 12); [done|]. destruct (_ =? 0); [done|].
  intros (start & _ & E)%res_bind_Ok. apply res_bind_Ok in E as ([kn off] & _ & E).
  destruct (_ <? _) in E; [done|]. destruct (negb _) in E; [done|]. destruct (_ <? _) in E; [done|].
  apply res_bind_Ok in E as (t' & Ep & [= _ <-]). unfold parseTSIGRData in Ep. apply res_bind_Ok in Ep as ([alg o] & _ & H).
  destruct (_ <? _) in H; [done|]. destruct (_ <? _) in H; [done|]. destruct (_ <? _) in H; [done|]. injection H as <-.
  by apply is_bytes_zslice.
Qed.
Lemma verify_tuple `{Hmac} msg key prior timers now fudge body mac signed :
  is_bytes msg -> canonical (key_name key) -> 0 <= fudge < 2 ^ 63 - 1 ->
  verifyWithPrefix msg key prior timers now fudge = Ok (body, mac, signed) ->
  tuple_ok (key_name key, signed, mac) /\ Z.abs (now - signed) <= fudge.
Proof.
  intros Hb Hk Hf E. unfold verifyWithPrefix in E. destruct (stripTSIG msg) as [[bd t]|] eqn:Es; [|done]. apply stripTSIG_mac in Es; [|done].
  cbn [res_bind] in E. destruct (negb _) in E; [done|]. apply res_bind_Ok in E as (alg & _ & E). destruct (negb _) in E; [done|].
  destruct (minMACSize _) as [floor|]; [|done]. destruct (_ <? _) in E; [done|]. apply res_bind_Ok in E as (full & _ & E).
  destruct (_ <? _) in E; [done|]. destruct (negb _) in E; [done|]. destruct (_ || _) eqn:Et in E; [done|].
  injection E as _ <- <-. bool_facts. split; [split_and!; [done|by eexists|done]|].
  unfold timeSub, neg64 in *. rewrite (Z.mod_small (- fudge + 2 ^ 63)) in * by lia. lia.
Qed.

(** ** The reference: remember everything accepted, forever *)
Record event := mkEvent { ev_now : Z; ev_key : Key; ev_msg : bytes }.
Definition event_ok (e : event) : Prop := is_bytes (ev_msg e) /\ canonical (key_name (ev_key e)).
Fixpoint chronological (t : Z) (l : list event) : Prop :=
  match l with [] => True | e :: l => t <= ev_now e /\ chronological (ev_now e) l end.

Section Once.
Context {H : Hmac} {R : MapRange}.
Variable fudge : Z.
Hypothesis fudge_ok : 0 <= fudge < 2 ^ 63 - 1.

Definition acceptOnce (acc : list tuple) (e : event) : res (bytes * bytes * Z) * list tuple :=
  match VerifyMAC (ev_msg e) (ev_key e) (ev_now e) fudge with
  | Err er => (Err er, acc)
  | Ok (body, mac, signed) =>
      let x : tuple := (key_name (ev_key e), signed, mac) in
      if decide (x ∈ acc) then (Err ErrReplay, acc) else (Ok (body, mac, signed), x :: acc)
  end.
Fixpoint runOnce (acc : list tuple) (l : list event) : list (res (bytes * bytes * Z)) :=
  match l with [] => [] | e :: l => let '(r, acc) := acceptOnce acc e in r :: runOnce acc l end.
Fixpoint runCache (c : option MemoryReplayCache) (l : list event) : list (res (bytes * bytes * Z)) :=
  match l with
  | [] => []
  | e :: l => let '(r, c) := VerifyWithReplay (ev_msg e) (ev_key e) c (ev_now e) fudge in r :: runCache c l
  end.

(** The map holds accepted tuples only, and lacks only those that are too old
    to be accepted again. *)
Definition remembers (c : MemoryReplayCache) (acc : list tuple) (t0 : Z) : Prop :=
  (forall k t, seen c !! k = Some t -> exists x, x ∈ acc /\ k = keyOf x /\ Z.abs (t - snd (fst x)) <= fudge) /\
  (forall x, x ∈ acc -> is_Some (seen c !! keyOf x) \/ snd (fst x) + fudge < t0) /\
  (base.size (seen c) <= length acc)%nat /\ Forall tuple_ok acc.

Lemma remembers_later c acc t t' : remembers c acc t -> t <= t' -> remembers c acc t'.
Proof. intros (H1 & H2 & H3 & H4) Ht. split_and!; try done. intros x Hx. destruct (H2 x Hx); [by left|right; lia]. Qed.
Lemma remembers_sweep c acc now : 2 * fudge <= window c -> remembers c acc now -> remembers (sweepAt c now) acc now.
Proof.
  intros Hw (H1 & H2 & H3 & H4). unfold sweepAt, evictExpiredLocked. cbn [size window seen lastSweep]. split_and!; try done; cbn [seen].
  - intros k t [Hk _]%map_lookup_filter_Some. by apply H1.
  - intros x Hx. destruct (H2 x Hx) as [[t Ht]|]; [|by right]. destruct (H1 _ _ Ht) as (y & Hy & Ek & Hd).
    apply keyOf_inj in Ek; [|by eapply Forall_forall..]. subst y.
    destruct (decide (now - window c <= t)); [left; exists t; by apply map_lookup_filter_Some|right; lia].
  - etrans; [|exact H3]. apply map_subseteq_size, map_filter_subseteq.
Qed.

Lemma Seen_once c acc now x : tuple_ok x -> Z.abs (now - snd (fst x)) <= fudge -> 2 * fudge <= window c ->
  (size c <= 0 \/ Z.of_nat (length acc) < size c) -> remembers c acc now ->
  exists c', Seen c now (fst (fst x)) (snd (fst x)) (snd x) = (bool_decide (x ∈ acc), c') /\
    size c' = size c /\ window c' = window c /\ remembers c' (if decide (x ∈ acc) then acc else x :: acc) now.
Proof.
  intros Hx Hd Hw Hs Hr. unfold Seen. set (c1 := if shouldSweepLocked c now then _ else c).
  assert (remembers c1 acc now /\ size c1 = size c /\ window c1 = window c) as (Hr1 & Es & Ew).
  { subst c1. destruct (shouldSweepLocked c now); [|done]. split; [by apply remembers_sweep|done]. }
  clearbody c1. destruct x as [[n s] m]. cbn [fst snd] in *. change (replayKey n s m) with (keyOf (n, s, m)).
  pose proof Hr1 as (H1 & H2 & H3 & H4). destruct (decide ((n, s, m) ∈ acc)) as [Hin|Hin].
  - rewrite bool_decide_eq_true_2 by done. destruct (H2 _ Hin) as [[t ->]|Ho]; [|cbn in Ho; lia]. exists c1. split; [done|]. split; [done|]. split; [done|]. by rewrite decide_True by done.
  - rewrite bool_decide_eq_false_2, decide_False by done. destruct (seen c1 !! keyOf (n, s, m)) as [t|] eqn:Ek.
    { exfalso. destruct (H1 _ _ Ek) as (y & Hy & E & _). apply keyOf_inj in E; [|done|by apply (Forall_forall tuple_ok acc)]. by rewrite <- E in Hy. }
    replace ((0 <? size c1) && (size c1 <=? Len c1)) with false.
    2: { symmetry. apply andb_false_iff. unfold Len. destruct Hs; [left; apply Z.ltb_ge|right; apply Z.leb_gt]; lia. }
    eexists. split; [reflexivity|]. split; [done|]. split; [done|]. split_and!; cbn [seen].
    + intros k t. rewrite lookup_insert_Some. intros [[<- <-]|[_ Hk]].
      * exists (n, s, m). split; [left|]. done.
      * destruct (H1 _ _ Hk) as (y & Hy & E & Hy2). exists y. split; [by right|done].
    + intros y [->|Hy]%elem_of_cons; [left; by rewrite lookup_insert_eq|]. destruct (H2 y Hy) as [Hi|Ho]; [left|by right].
      by apply lookup_insert_is_Some'; right.
    + rewrite map_size_insert_None by done. cbn. lia.
    + by constructor.
Qed.

Lemma run_refines c acc t l : remembers c acc t -> 2 * fudge <= window c ->
  (size c <= 0 \/ Z.of_nat (length acc + length l) <= size c) -> Forall event_ok l -> chronological t l ->
  runCache (Some c) l = runOnce acc l.
Proof.
  intros Hr Hw Hs Hl. revert c acc t Hr Hw Hs. induction Hl as [|e l [Hb Hk] _ IH]; intros c acc t Hr Hw Hs; [done|].
  cbn [chronological runCache runOnce length] in *. intros [Ht Hc]. unfold VerifyWithReplay, acceptOnce.
  apply remembers_later with (t' := ev_now e) in Hr; [|done].
  destruct (VerifyMAC _ _ _ _) as [[[body mac] signed]|er] eqn:EV; [|f_equal; apply (IH c acc (ev_now e)); try done; lia].
  apply verify_tuple in EV as [Hx Hd]; [|done..].
  destruct (Seen_once c acc (ev_now e) (key_name (ev_key e), signed, mac) Hx Hd Hw ltac:(lia) Hr) as (c' & ES & Es & Ew & Hr').
  cbn [fst snd] in ES. rewrite ES.
  destruct (decide ((key_name (ev_key e), signed, mac) ∈ acc)) as [Hin|Hin].
  - rewrite bool_decide_eq_true_2, decide_True by done. rewrite decide_True in Hr' by done. f_equal. apply (IH c' acc (ev_now e)); rewrite ?Es, ?Ew; try done; lia.
  - rewrite bool_decide_eq_false_2, decide_False by done. rewrite decide_False in Hr' by done. f_equal. apply (IH c' _ (ev_now e)); rewrite ?Es, ?Ew; try done. cbn. lia.
Qed.

(** C17. The replay cache, refined by the reference that remembers every accepted
    message forever: on any sequence of received messages in chronological
    order, under any keys, a cache that retains entries for at least twice the
    fudge and is not filled gives at each call exactly the reference's result.
    So each signed message, identified by key name, signing time and MAC, is
    accepted once and never again, and no fresh one is refused. *)
Theorem replay_once w n t l :
  2 * fudge <= w -> (n <= 0 \/ Z.of_nat (length l) <= n) -> Forall event_ok l -> chronological t l ->
  runCache (Some (NewMemoryReplayCache [WithReplayWindow w; WithReplayCacheSize n])) l = runOnce [] l.
Proof.
  intros Hw Hn Hl Hc. apply (run_refines _ _ t); try done. split_and!; cbn; try done.
  intros x Hx. by apply not_elem_of_nil in Hx.
Qed.
End Once.

(** ** The size cap *)
Section Cap.
Context {R : MapRange}.

Lemma olderOf_spec l best : (l <> [] \/ best <> None) ->
  exists k t, fold_left olderOf l best = Some (k, t) /\ ((k, t) ∈ l \/ best = Some (k, t)) /\
    (forall k' t', (k', t') ∈ l \/ best = Some (k', t') -> t <= t').
Proof.
  revert best. induction l as [|[k1 t1] l IH]; intros best Hn; cbn [fold_left].
  - destruct best as [[k t]|]; [|by destruct Hn]. exists k, t. split; [done|]. split; [by right|].
    intros k' t' [Hi|[= <- <-]]; [by apply not_elem_of_nil in Hi|lia].
  - destruct (IH (olderOf best (k1, t1))) as (k & t & E & Hin & Hle).
    { right. destruct best as [[kb tb]|]; cbn; [by destruct (_ <? _)|done]. }
    exists k, t. split; [done|]. destruct best as [[kb tb]|]; cbn [olderOf snd] in *.
    + destruct (t1 <? tb) eqn:Et; bool_facts; (split; [set_solver|]).
      * pose proof (Hle k1 t1 (or_intror eq_refl)). intros k' t' [[[= -> ->]|Hi]%elem_of_cons|[= <- <-]]; [done|apply (Hle k'); by left|lia].
      * pose proof (Hle kb tb (or_intror eq_refl)). intros k' t' [[[= -> ->]|Hi]%elem_of_cons|[= <- <-]]; [lia|apply (Hle k'); by left|done].
    + split; [set_solver|]. intros k' t' [[[= -> ->]|Hi]%elem_of_cons|[= ]]; [apply (Hle k1); by right|apply (Hle k'); by left].
Qed.

(** Eviction removes an entry that no other precedes. *)
Lemma evictOldest_spec c : seen c <> ∅ ->
  exists k t, seen (evictOldestLocked c) = delete k (seen c) /\ seen c !! k = Some t /\
    forall k' t', seen c !! k' = Some t' -> t <= t'.
Proof.
  intros Hne. pose proof (mapRange_perm (seen c)) as HP.
  destruct (olderOf_spec (mapRange (seen c)) None) as (k & t & E & Hin & Hle).
  { left. intros E0. rewrite E0 in HP. apply Permutation_nil in HP. by apply map_to_list_empty_iff in HP. }
  exists k, t. unfold evictOldestLocked. rewrite E. split; [done|]. split.
  - destruct Hin as [Hin|[= ]]. rewrite HP in Hin. by apply elem_of_map_to_list.
  - intros k' t' Hk. apply (Hle k'). left. rewrite HP. by apply elem_of_map_to_list.
Qed.

Lemma Len_sweep c now : Len (sweepAt c now) <= Len c.
Proof. unfold Len. apply Nat2Z.inj_le. apply map_subseteq_size, map_filter_subseteq. Qed.

(** [c'] still has the entries of [c] that are not expired at [now]. *)
Definition keeps (now : Z) (c c' : MemoryReplayCache) : Prop :=
  size c' = size c /\ window c' = window c /\ Len c' <= Len c /\
  forall k t, seen c !! k = Some t -> now - window c <= t -> seen c' !! k = Some t.
Lemma keeps_sweep now c : keeps now c (sweepAt c now).
Proof. split; [done|]. split; [done|]. split; [apply Len_sweep|]. intros k t Hk Ht. by apply map_lookup_filter_Some. Qed.
Lemma keeps_trans now a b c : keeps now a b -> keeps now b c -> keeps now a c.
Proof.
  intros (E1 & E2 & E3 & E4) (F1 & F2 & F3 & F4). split; [congruence|]. split; [congruence|]. split; [lia|].
  intros k t Hk Ht. apply F4; [by apply E4|]. by rewrite E2.
Qed.

(** The three outcomes of a call: a replay, an insertion beside every live
    entry, and an insertion in place of the oldest. *)
Lemma Seen_cases c now name signed mac :
  0 < size c -> Len c <= size c ->
  let k := replayKey name signed mac in
  let c' := snd (Seen c now name signed mac) in
  exists c1, keeps now c c1 /\ size c' = size c /\
    (c' = c1 \/
     (Len c1 < size c /\ seen c' = <[k := now]> (seen c1)) \/
     (Len c1 = size c /\ seen c1 <> ∅ /\ seen c' = <[k := now]> (seen (evictOldestLocked c1)))).
Proof.
  intros Hs Hl. cbv zeta. unfold Seen. set (kk := replayKey name signed mac). set (c1 := if shouldSweepLocked c now then _ else c).
  assert (keeps now c c1) as K1.
  { subst c1. destruct (shouldSweepLocked c now); [apply keeps_sweep|]. by split. }
  clearbody c1. pose proof K1 as (Es & Ew & L1 & Hk). destruct (seen c1 !! kk) as [t0|] eqn:Ek; cbn [snd].
  { exists c1. split; [done|]. split; [done|by left]. }
  rewrite Es. replace (0 <? size c) with true by (symmetry; by apply Z.ltb_lt). cbn [andb].
  destruct (size c <=? Len c1) eqn:Ec; bool_facts.
  - pose proof (keeps_trans _ _ _ _ K1 (keeps_sweep now c1)) as K2. exists (sweepAt c1 now). split; [done|]. pose proof K2 as (E2 & _ & L2 & _).
    rewrite E2. destruct (size c <=? Len (sweepAt c1 now)) eqn:Ec2; bool_facts; cbn [snd seen size evictOldestLocked].
    + split; [done|]. right; right. split; [lia|]. split; [|done]. intros E0. unfold Len in *. rewrite E0, map_size_empty in *. lia.
    + split; [done|]. right; left. done.
  - exists c1. split; [done|]. split; [done|]. right; left. done.
Qed.

(** The cache never outgrows its cap: if it holds at most [size] entries,
    it still does after a call of [Seen], whichever signatures arrive; and a
    live entry is dropped only if no live entry is older, and then every other
    live entry stays. *)
Theorem replay_bounded c now name signed mac :
  0 < size c -> Len c <= size c ->
  let c' := snd (Seen c now name signed mac) in
  Len c' <= size c' /\ size c' = size c /\
  forall k t, seen c !! k = Some t -> now - window c <= t -> seen c' !! k = None ->
    forall k' t', seen c !! k' = Some t' -> now - window c <= t' -> t <= t' /\ (k' <> k -> is_Some (seen c' !! k')).
Proof.
  intros Hs Hl c'. destruct (Seen_cases c now name signed mac Hs Hl) as (c1 & (Es & Ew & L1 & Hk) & Es' & Hc). fold c' in Es', Hc.
  rewrite Es'. destruct Hc as [Hc|[[Hn Hc]|(Hn & Hne & Hc)]].
  - rewrite Hc. split; [lia|]. split; [done|]. intros k t Hkt Ht Hno. by rewrite (Hk k t) in Hno.
  - split; [|split; [done|]].
    + unfold Len in *. rewrite Hc, map_size_insert. destruct (seen c1 !! _); cbn; lia.
    + intros k t Hkt Ht Hno. rewrite Hc in Hno. apply lookup_insert_None in Hno as [Hno _]. by rewrite (Hk k t) in Hno.
  - destruct (evictOldest_spec c1 Hne) as (k0 & t0 & Ed & Hk0 & Hmin). rewrite Ed in Hc. split; [|split; [done|]].
    + unfold Len in *. rewrite Hc, map_size_insert, map_size_delete, Hk0. destruct (delete _ _ !! _); cbn; lia.
    + intros k t Hkt Ht Hno k' t' Hkt' Ht'. rewrite Hc in Hno |- *. apply lookup_insert_None in Hno as [Hno _].
      apply lookup_delete_None in Hno as [<-|Hno]; [|by rewrite (Hk k t) in Hno].
      rewrite (Hk k0 t) in Hk0 by done. injection Hk0 as ->. split; [by apply (Hmin k'), Hk|]. intros Hne'.
      apply lookup_insert_is_Some'. right. rewrite lookup_delete_ne by done. by exists t'; apply Hk.
Qed.
End Cap.

(** ** Gaps *)
Lemma NewMemoryReplayCache_empty opts : seen (NewMemoryReplayCache opts) = ∅.
Proof.
  unfold NewMemoryReplayCache. set (c := mkCache _ _ _ _). assert (seen c = ∅) as Hc by done. revert Hc. generalize c.
  induction opts as [|o opts IH]; intros c0 Hc; [done|]. cbn [fold_left]. apply IH. by destruct o.
Qed.

Section Gaps.
Context {H : Hmac} {HL : HmacLaws H} {R : MapRange}.

(** A call on a cache that the sweep at most empties further. *)
Lemma Seen_fresh c now n s m : (forall t, seen c !! replayKey n s m = Some t -> shouldSweepLocked c now = true /\ t < now - window c) ->
  exists c', Seen c now n s m = (false, c').
Proof.
  intros Hf. unfold Seen. set (c1 := if shouldSweepLocked c now then _ else c).
  assert (seen c1 !! replayKey n s m = None) as ->; [|by eexists].
  subst c1. destruct (seen c !! replayKey n s m) as [t|] eqn:E.
  - destruct (Hf t eq_refl) as [-> Ht]. apply map_lookup_filter_None. right. intros t' E'. rewrite E in E'. injection E' as <-. cbn. lia.
  - destruct (shouldSweepLocked c now); [|done]. apply map_lookup_filter_None. by left.
Qed.
Lemma Seen_first c now n s m : seen c = ∅ ->
  Seen c now n s m = (false, mkCache (size c) (window c) {[replayKey n s m := now]} (if shouldSweepLocked c now then Some now else lastSweep c)).
Proof.
  intros E. unfold Seen. set (c1 := if shouldSweepLocked c now then _ else c).
  assert (c1 = mkCache (size c) (window c) ∅ (if shouldSweepLocked c now then Some now else lastSweep c)) as ->.
  { subst c1. destruct c as [sz w sn ls]. cbn in E. subst sn. destruct (shouldSweepLocked _ _); [|done]. unfold sweepAt, evictExpiredLocked.
    cbn [seen size window lastSweep]. by rewrite map_filter_empty. }
  cbn [seen size window lastSweep]. rewrite lookup_empty.
  destruct ((0 <? size c) && (size c <=? Len _)) eqn:Ec; [|cbn [seen size window lastSweep]; by rewrite insert_empty].
  unfold Len in Ec. cbn [seen] in Ec. rewrite map_size_empty in Ec. apply andb_true_iff in Ec as [E1 E2]. bool_facts. lia.
Qed.

(** Retention below twice the fudge leaves a gap, so the bound of the
    refinement above is tight: with a window [w] shorter than twice the fudge,
    in particular the default one, which equals the usual fudge, a message
    that a peer with a fast clock signed is accepted, forgotten [w] later, and
    accepted again while its signing time is still inside the fudge.  The
    option's documentation says an entry older than the fudge cannot be a live
    replay. *)
Theorem replay_window_gap m b key sec w fudge :
  message_ok m -> Message.Pack m = Ok b -> key_ok key -> 0 <= sec < 2 ^ 48 -> 0 <= fudge <= 0xffff * Second ->
  0 < w < 2 * fudge ->
  let signed := sec * Second in
  exists out mac, Sign b key signed fudge = Ok out /\
    runCache fudge (Some (NewMemoryReplayCache [WithReplayWindow w]))
      [mkEvent (signed - fudge) key out; mkEvent (signed - fudge + w + 1) key out] = [Ok (b, mac, signed); Ok (b, mac, signed)].
Proof.
  intros Hm HP Hk Hsec Hf Hw signed. pose proof (packed_signable m b Hm HP) as Hb. assert (unix signed = sec) as Eu by (apply Z.div_mul; done).
  assert (0xffff * Second < 2 ^ 62) as Hsm by (by vm_compute).
  destruct (sign_verify b key None false signed fudge (signed - fudge) fudge Hb Hk ltac:(lia) Hf ltac:(lia)) as (out & mac & ES & EV1).
  { rewrite Eu. subst signed. lia. }
  destruct (sign_verify b key None false signed fudge (signed - fudge + w + 1) fudge Hb Hk ltac:(lia) Hf ltac:(lia)) as (out' & mac' & ES' & EV2).
  { rewrite Eu. subst signed. lia. }
  rewrite ES in ES'. injection ES' as <- <-. rewrite Eu in EV1, EV2. exists out, mac. unfold Sign. rewrite ES. split; [done|].
  cbn [runCache ev_now ev_key ev_msg]. unfold VerifyWithReplay, VerifyMAC at 1. rewrite EV1. rewrite Seen_first by apply NewMemoryReplayCache_empty.
  unfold VerifyMAC. rewrite EV2. match goal with |- context [Seen ?c ?t ?n ?s ?x] => destruct (Seen_fresh c t n s x) as [c' ->] end; [|done].
  cbn [seen window]. intros t Et. apply lookup_singleton_Some in Et as [_ <-]. split; [|cbn; lia].
  unfold shouldSweepLocked. cbn [size window lastSweep NewMemoryReplayCache fold_left applyReplayOption]. destruct (_ && _); [done|].
  if_false. cbn. if_false. apply Z.leb_le. unfold timeSub. elia.
Qed.

(** The key of the replay cache contains the MAC as received, but the
    verifier accepts the MAC cut to half of its length, and the MAC does not
    cover itself: whatever the configuration of the cache, a captured message
    whose MAC is cut, which takes no key, is accepted again right after the
    original, with the same body. *)
Theorem replay_truncated_mac m b key now fudge opts :
  message_ok m -> Message.Pack m = Ok b -> key_ok key -> 0 <= unix now < 2 ^ 48 -> 0 <= fudge <= 0xffff * Second ->
  Z.abs (now - unix now * Second) <= fudge ->
  exists alg mac cut, (length cut < length mac)%nat /\ cut `prefix_of` mac /\
    Sign b key now fudge = Ok (tagged b key alg (unix now) (fudge / Second) mac) /\
    runCache fudge (Some (NewMemoryReplayCache opts))
      [mkEvent now key (tagged b key alg (unix now) (fudge / Second) mac); mkEvent now key (tagged b key alg (unix now) (fudge / Second) cut)]
    = [Ok (b, mac, unix now * Second); Ok (b, cut, unix now * Second)].
Proof.
  intros Hm HP Hk Hnow Hf Hd. pose proof (packed_signable m b Hm HP) as Hb.
  destruct (sign_tagged b key None false now fudge Hb Hk Hnow Hf) as (h & alg & floor & Eh & Ealg & Halg & Emin & Hfl & Hsz & Hfu & ES).
  cbv zeta in ES. set (mac := hmacSum _ _ _) in *. assert (0xffff * Second < 2 ^ 62) as Hsm by (by vm_compute).
  destruct (verify_tagged b key None false h alg (unix now) (fudge / Second) (macSize h) floor now fudge) as [EV1 L1]; try done; try lia.
  destruct (verify_tagged b key None false h alg (unix now) (fudge / Second) floor floor now fudge) as [EV2 L2]; try done; try lia.
  fold mac in EV1, L1, EV2, L2. pose proof (hmac_len h (key_secret key) (buildSigningInput b (key_name key) alg None (unix now) (fudge / Second) 0 [] false)) as Lm.
  fold mac in Lm. rewrite firstn_all2 in EV1, L1 by (unfold zlen in Lm; lia).
  set (cut := take (Z.to_nat floor) mac) in *. exists alg, mac, cut. split; [unfold zlen in *; lia|].
  split; [exists (drop (Z.to_nat floor) mac); symmetry; apply take_drop|]. unfold Sign. rewrite ES. split; [done|].
  cbn [runCache ev_now ev_key ev_msg]. unfold VerifyWithReplay, VerifyMAC at 1. rewrite EV1. rewrite Seen_first by apply NewMemoryReplayCache_empty.
  unfold VerifyMAC. rewrite EV2. match goal with |- context [Seen ?c ?t ?n ?s ?x] => destruct (Seen_fresh c t n s x) as [c' ->] end; [|done].
  cbn [seen window]. intros t Et. exfalso. apply lookup_singleton_Some in Et as [Ek _].
  assert (is_bytes mac) as Hmac by apply hmac_bytes.
  apply (keyOf_inj (key_name key, unix now * Second, mac) (key_name key, unix now * Second, cut)) in Ek.
  - injection Ek as Ek. rewrite <- Ek in L2. lia.
  - split; [apply Hk|]. split; [by eexists|done].
  - split; [apply Hk|]. split; [by eexists|]. by apply Forall_take.
Qed.
End Gaps.

(** ** A concrete run *)
Module ReplayRun.
#[export] Instance inKeyOrder : MapRange := {| mapRange _ _ _ _ := map_to_list; mapRange_perm _ _ _ _ m := reflexivity _ |}.
Definition fudge : Z := 300 * Second.
Definition events : list event :=
  [mkEvent SampleKey.now SampleKey.key SampleKey.signed; mkEvent (SampleKey.now + Second) SampleKey.key SampleKey.signed].
Lemma events_ok : Forall event_ok events.
Proof.
  assert (is_bytes SampleKey.signed) as Hb by (apply (bool_decide_eq_true_1 (Forall u8 SampleKey.signed)); vm_compute; reflexivity).
  constructor; [|constructor; [|constructor]]; (split; [exact Hb|apply SampleKey.key_is_ok]).
Qed.
(** A cache of two entries that is full. *)
Definition full : MemoryReplayCache := mkCache 2 DefaultReplayWindow {[ [1] := SampleKey.now; [2] := SampleKey.now + 1 ]} None.
End ReplayRun.

Lemma replay_once_witness :
  runCache (H := SampleKey.checksum) (R := ReplayRun.inKeyOrder) ReplayRun.fudge
    (Some (NewMemoryReplayCache [WithReplayWindow (600 * Second); WithReplayCacheSize 2])) ReplayRun.events
  = runOnce (H := SampleKey.checksum) ReplayRun.fudge [] ReplayRun.events /\
  runOnce (H := SampleKey.checksum) ReplayRun.fudge [] ReplayRun.events = [Ok (sampleBytes, SampleKey.tag, SampleKey.now); Err ErrReplay].
Proof.
  split; [|vm_compute; reflexivity].
  refine (replay_once (H := SampleKey.checksum) (R := ReplayRun.inKeyOrder) ReplayRun.fudge _ (600 * Second) 2 0 ReplayRun.events _ _ ReplayRun.events_ok _);
    [decide_now|decide_now|right; decide_now|split; [decide_now|split; [decide_now|exact I]]].
Defined.

Lemma replay_bounded_witness :
  let c' := snd (Seen (H := ReplayRun.inKeyOrder) ReplayRun.full (SampleKey.now + Second) sampleName SampleKey.now [7]) in
  Len c' <= size c' /\ size c' = 2.
Proof.
  pose proof (replay_bounded (R := ReplayRun.inKeyOrder) ReplayRun.full (SampleKey.now + Second) sampleName SampleKey.now [7]) as HB.
  cbv zeta in HB. destruct HB as (H1 & H2 & _); [decide_now|decide_now|]. split; [exact H1|exact H2].
Defined.

Lemma replay_window_gap_witness :
  exists out mac, Sign (H := SampleKey.checksum) sampleBytes SampleKey.key (1700000000 * Second) (300 * Second) = Ok out /\
    runCache (H := SampleKey.checksum) (R := ReplayRun.inKeyOrder) (300 * Second) (Some (NewMemoryReplayCache [WithReplayWindow DefaultReplayWindow]))
      [mkEvent (1700000000 * Second - 300 * Second) SampleKey.key out;
       mkEvent (1700000000 * Second - 300 * Second + DefaultReplayWindow + 1) SampleKey.key out]
    = [Ok (sampleBytes, mac, 1700000000 * Second); Ok (sampleBytes, mac, 1700000000 * Second)].
Proof.
  refine (replay_window_gap (HL := SampleKey.checksum_laws) (R := ReplayRun.inKeyOrder) sampleMessage sampleBytes SampleKey.key 1700000000
    DefaultReplayWindow (300 * Second) sampleMessage_ok SampleKey.packed SampleKey.key_is_ok _ _ _); decide_now.
Defined.

Lemma replay_truncated_mac_witness :
  exists alg mac cut, (length cut < length mac)%nat /\ cut `prefix_of` mac /\
    Sign (H := SampleKey.checksum) sampleBytes SampleKey.key SampleKey.now (300 * Second)
      = Ok (tagged sampleBytes SampleKey.key alg (unix SampleKey.now) (300 * Second / Second) mac) /\
    runCache (H := SampleKey.checksum) (R := ReplayRun.inKeyOrder) (300 * Second) (Some (NewMemoryReplayCache []))
      [mkEvent SampleKey.now SampleKey.key (tagged sampleBytes SampleKey.key alg (unix SampleKey.now) (300 * Second / Second) mac);
       mkEvent SampleKey.now SampleKey.key (tagged sampleBytes SampleKey.key alg (unix SampleKey.now) (300 * Second / Second) cut)]
    = [Ok (sampleBytes, mac, unix SampleKey.now * Second); Ok (sampleBytes, cut, unix SampleKey.now * Second)].
Proof.
  refine (replay_truncated_mac (HL := SampleKey.checksum_laws) (R := ReplayRun.inKeyOrder) sampleMessage sampleBytes SampleKey.key SampleKey.now
    (300 * Second) [] sampleMessage_ok SampleKey.packed SampleKey.key_is_ok _ _ _); decide_now.
Defined.
