(* ===== verification/Xfr.v ===== *)
(** * Clients of zone transfer (src/axfr, src/ixfr)

    A message stream is the list of what its Next method returns, io.EOF after
    the last; contexts and Close are left out.  Both packages read records
    through the same reader and verify envelopes through the same TSIG
    verifier, whose sources are textual copies; the readers differ in how they
    recognise io.EOF. *)

From S2P Require Import Prelude Name Wire RData Message Authoritative Tsig.
Open Scope Z_scope.
Open Scope list_scope.

(** [soa.Serial()] of a record that holds an SOA payload. *)
Definition serialOfRecord (r : Record_) : option Z :=
  match asSOA r with Some (RD_SOA _ _ serial _ _ _ _) => Some serial | _ => None end.

Definition MessageStream : Type := list (res Message).
(** [errors.Is(err, io.EOF)] and [err == io.EOF]. *)
Fixpoint errorsIsEOF (e : error) : bool :=
  match e with EOF => true | ErrWrapped cause => errorsIsEOF cause | _ => false end.
Definition isEOF (e : error) : bool := bool_decide (e = EOF).

(** ** Envelope signatures (axfr/tsig.go, ixfr/tsig.go) *)
Definition messageHasTSIG (m : Message) : bool := existsb (fun r => RType r =? 250) (additionals m).

(** [v_clock k] is what the [k]-th call of [now] returns. *)
Record tsigVerifier := mkVerifier {
  v_key : Key; v_priorMAC : bytes; v_clock : nat -> Z; v_ticks : nat; v_fudge : Z; v_first : bool; v_unsignedRun : Z }.
Definition maxUnsignedAXFREnvelopes : Z := 99.
Definition newTSIGVerifier (key : Key) (requestMAC : bytes) (clock : nat -> Z) (ticks : nat) (fudge : Z) : tsigVerifier :=
  mkVerifier key requestMAC clock ticks fudge true 0.

Section Verifier.
Context `{Hmac}.

Definition verify (v : tsigVerifier) (m : Message) : res unit * tsigVerifier :=
  let signed := messageHasTSIG m in
  if v_first v then
    if negb signed then (Err ErrTSIGVerify, v)
    else
      match Message.Pack m with
      | Err _ => (Err ErrTSIGVerify, v)
      | Ok raw =>
          let now := v_clock v (v_ticks v) in
          let v' mac first := mkVerifier (v_key v) mac (v_clock v) (S (v_ticks v)) (v_fudge v) first (v_unsignedRun v) in
          match VerifyResponse raw (v_key v) (v_priorMAC v) now (v_fudge v) with
          | Err _ => (Err ErrTSIGVerify, v' (v_priorMAC v) true)
          | Ok (_, mac, _) => (Ok tt, v' mac false)
          end
      end
  else if negb signed then
    let run := v_unsignedRun v + 1 in
    let v := mkVerifier (v_key v) (v_priorMAC v) (v_clock v) (v_ticks v) (v_fudge v) false run in
    if maxUnsignedAXFREnvelopes <? run then (Err ErrTSIGVerify, v) else (Ok tt, v)
  else
    match Message.Pack m with
    | Err _ => (Err ErrTSIGVerify, v)
    | Ok raw =>
        let now := v_clock v (v_ticks v) in
        let v' mac run := mkVerifier (v_key v) mac (v_clock v) (S (v_ticks v)) (v_fudge v) false run in
        match VerifyAXFRChunk raw (v_key v) (v_priorMAC v) now (v_fudge v) with
        | Err _ => (Err ErrTSIGVerify, v' (v_priorMAC v) (v_unsignedRun v))
        | Ok (_, mac, _) => (Ok tt, v' mac 0)
        end
    end.

(** ** The record reader *)
Record recReader := mkReader {
  rr_stream : MessageStream; rr_curMsg : list Record_; rr_curIdx : nat; rr_pushback : list Record_; rr_msgEOF : bool;
  rr_verifier : option tsigVerifier; rr_wantID : Z; rr_wantQ : Question }.
Definition newReader (stream : MessageStream) (v : option tsigVerifier) (wantID : Z) (wantQ : Question) : recReader :=
  mkReader stream [] 0 [] false v wantID wantQ.

Definition setStream (rr : recReader) (s : MessageStream) (eof : bool) (v : option tsigVerifier) : recReader :=
  mkReader s (rr_curMsg rr) (rr_curIdx rr) (rr_pushback rr) eof v (rr_wantID rr) (rr_wantQ rr).

(** The checks on one envelope: nil, or the error, and the verifier after it. *)
Definition checkEnvelope (rr : recReader) (m : Message) : res unit * option tsigVerifier :=
  if negb (id m =? rr_wantID rr) then (Err ErrEnvelopeMismatch, rr_verifier rr)
  else
    let mismatch :=
      match questions m with
      | q :: _ => negb (q_typ q =? q_typ (rr_wantQ rr)) || negb (q_class q =? q_class (rr_wantQ rr))
                  || negb (Equal (q_name q) (q_name (rr_wantQ rr)))
      | [] => false
      end in
    if mismatch then (Err ErrEnvelopeMismatch, rr_verifier rr)
    else if negb (RCODE (flags m) =? RCODENoError) then (Err ErrRCODE, rr_verifier rr)
    else
      match rr_verifier rr with
      | None => (Ok tt, None)
      | Some v => let '(r, v) := verify v m in (r, Some v)
      end.

Section Reader.
Variable eof : error -> bool.

(** The [for] loop of Read; every iteration but the last takes a message. *)
Fixpoint Read_loop (stream : MessageStream) (rr : recReader) : res Record_ * recReader :=
  match rr_curMsg rr !! rr_curIdx rr with
  | Some rec =>
      (Ok rec, mkReader stream (rr_curMsg rr) (S (rr_curIdx rr)) (rr_pushback rr) (rr_msgEOF rr) (rr_verifier rr) (rr_wantID rr) (rr_wantQ rr))
  | None =>
      if rr_msgEOF rr then (Err EOF, setStream rr stream true (rr_verifier rr))
      else
        match stream with
        | [] => (Err EOF, setStream rr [] true (rr_verifier rr))
        | Err e :: rest =>
            if eof e then (Err EOF, setStream rr rest true (rr_verifier rr))
            else (Err e, setStream rr rest false (rr_verifier rr))
        | Ok m :: rest =>
            match checkEnvelope rr m with
            | (Err e, v) => (Err e, setStream rr rest false v)
            | (Ok _, v) =>
                Read_loop rest (mkReader rest (answers m) 0 (rr_pushback rr) false v (rr_wantID rr) (rr_wantQ rr))
            end
        end
  end.
Definition Read (rr : recReader) : res Record_ * recReader :=
  match rr_pushback rr with
  | rec :: rest =>
      (Ok rec, mkReader (rr_stream rr) (rr_curMsg rr) (rr_curIdx rr) rest (rr_msgEOF rr) (rr_verifier rr) (rr_wantID rr) (rr_wantQ rr))
  | [] => Read_loop (rr_stream rr) rr
  end.
Definition Push (rr : recReader) (rec : Record_) : recReader :=
  mkReader (rr_stream rr) (rr_curMsg rr) (rr_curIdx rr) (rr_pushback rr ++ [rec]) (rr_msgEOF rr) (rr_verifier rr) (rr_wantID rr) (rr_wantQ rr).
End Reader.

(** ** Options and the query *)
Inductive Option_ := WithTimeout (d : Z) | WithTSIGKey (key : option Key) | WithTSIGFudge (d : Z) | WithTSIGClock (clock : nat -> Z).
Record config := mkConfig { cf_timeout : Z; cf_tsigKey : option Key; cf_clock : nat -> Z; cf_fudge : Z }.
Definition applyOption (c : config) (o : Option_) : config :=
  match o with
  | WithTimeout d => mkConfig d (cf_tsigKey c) (cf_clock c) (cf_fudge c)
  | WithTSIGKey k => mkConfig (cf_timeout c) k (cf_clock c) (cf_fudge c)
  | WithTSIGFudge d => mkConfig (cf_timeout c) (cf_tsigKey c) (cf_clock c) d
  | WithTSIGClock f => mkConfig (cf_timeout c) (cf_tsigKey c) f (cf_fudge c)
  end.
(** [now] is the system clock. *)
Definition configOf (now : nat -> Z) (opts : list Option_) : config :=
  fold_left applyOption opts (mkConfig (30 * Second) None now (300 * Second)).

(** [ex.Stream(ctx, q)]. *)
Definition StreamExchanger : Type := Message -> res MessageStream.

(** Signing the query, opening the stream and setting up the reader. *)
Definition openReader (c : config) (ex : StreamExchanger) (q : Message) : res recReader :=
  match cf_tsigKey c with
  | None =>
      let? stream := ex q in
      match questions q with q0 :: _ => Ok (newReader stream None (id q) q0) | [] => Err Panic end
  | Some key =>
      let? signed := SignMessage q key (cf_clock c 0) (cf_fudge c) in
      let? r := VerifyMAC signed key (cf_clock c 1) (cf_fudge c) in
      let? q := Message.Unpack signed in
      let? stream := ex q in
      match questions q with
      | q0 :: _ => Ok (newReader stream (Some (newTSIGVerifier key (snd (fst r)) (cf_clock c) 2 (cf_fudge c))) (id q) q0)
      | [] => Err Panic
      end
  end.

End Verifier.

(** ** axfr *)
Module axfr.
Section Client.
Context `{Hmac}.

Record transfer := mkTransfer { reader : recReader; newSOA : Z; emittedFirstSOA : bool; done : bool }.

Definition init (rr : recReader) : res transfer :=
  match Read errorsIsEOF rr with
  | (Err EOF, _) => Err ErrEmptyResponse
  | (Err e, _) => Err e
  | (Ok rec, rr) =>
      match serialOfRecord rec with
      | None => Err ErrMissingLeadingSOA
      | Some serial => Ok (mkTransfer (Push rr rec) serial false false)
      end
  end.

Definition query (id : Z) (zone : Name) : res Message :=
  fst (MessageBuilder.Build (MessageBuilder.NewMessageBuilder |> MessageBuilder.ID id
         |> MessageBuilder.Question_ (NewQuestion zone rrtype.AXFR))).

(** [randomID] is what the random source returns. *)
Definition Start (now : nat -> Z) (randomID : res Z) (ex : StreamExchanger) (zone : Name) (opts : list Option_) : res transfer :=
  let c := configOf now opts in
  let? id := randomID in
  let? q := query id zone in
  let? rr := openReader c ex q in
  init rr.

Definition Next (t : transfer) : res Record_ * transfer :=
  if done t then (Err EOF, t)
  else
    match Read errorsIsEOF (reader t) with
    | (Err e, rr) => (Err e, mkTransfer rr (newSOA t) (emittedFirstSOA t) (done t))
    | (Ok rec, rr) =>
        let same := match serialOfRecord rec with Some s => s =? newSOA t | None => false end in
        (Ok rec, mkTransfer rr (newSOA t) (emittedFirstSOA t || same) (done t || (same && emittedFirstSOA t)))
    end.
End Client.
End axfr.

(** ** ixfr *)
Module ixfr.
Section Client.
Context `{Hmac}.

Inductive Kind := KindUpToDate | KindAXFRFallback | KindIncremental.
Inductive Event := recordEvent (rec : Record_) | diffEvent (from to : Z) (removed added : list Record_).
Record transfer := mkTransfer {
  reader : recReader; kind : Kind; newSOA : Z; axfrEmittedFirst : bool; axfrDone : bool; incDone : bool }.

Definition serialIsOlder (a b : Z) : bool := negb (a =? b) && (to_u32 (b - a) <? 2147483648).

Definition init (rr : recReader) (clientSerial : Z) : res transfer :=
  match Read isEOF rr with
  | (Err EOF, _) => Err ErrEmptyResponse
  | (Err e, _) => Err e
  | (Ok rec1, rr) =>
      match serialOfRecord rec1 with
      | None => Err ErrMissingLeadingSOA
      | Some soa1 =>
          let start rr k := Ok (mkTransfer rr k soa1 false false false) in
          match Read isEOF rr with
          | (Err EOF, rr) => start rr KindUpToDate
          | (Err e, _) => Err e
          | (Ok rec2, rr) =>
              match serialOfRecord rec2 with
              | None => start (Push (Push rr rec1) rec2) KindAXFRFallback
              | Some soa2 =>
                  if serialIsOlder soa2 soa1 then start (Push rr rec2) KindIncremental
                  else if soa2 =? soa1 then
                    if soa1 =? clientSerial then start rr KindUpToDate
                    else start (Push (Push rr rec1) rec2) KindAXFRFallback
                  else Err ErrInvalidSOAPair
              end
          end
      end
  end.

Definition query (id : Z) (zone : Name) (clientSOA : RData) : res Message :=
  fst (MessageBuilder.Build (MessageBuilder.NewMessageBuilder |> MessageBuilder.ID id
         |> MessageBuilder.Question_ (NewQuestion zone rrtype.IXFR)
         |> MessageBuilder.Authority (NewRecord zone Second clientSOA))).
Definition Start (now : nat -> Z) (randomID : res Z) (ex : StreamExchanger) (zone : Name) (clientSOA : RData) (clientSerial : Z)
    (opts : list Option_) : res transfer :=
  let c := configOf now opts in
  let? id := randomID in
  let? q := query id zone clientSOA in
  let? rr := openReader c ex q in
  init rr clientSerial.

Definition withReader (t : transfer) (rr : recReader) : transfer :=
  mkTransfer rr (kind t) (newSOA t) (axfrEmittedFirst t) (axfrDone t) (incDone t).

Definition nextAXFR (t : transfer) : res Event * transfer :=
  if axfrDone t then (Err EOF, t)
  else
    match Read isEOF (reader t) with
    | (Err e, rr) => (Err e, withReader t rr)
    | (Ok rec, rr) =>
        let same := match serialOfRecord rec with Some s => s =? newSOA t | None => false end in
        (Ok (recordEvent rec),
         mkTransfer rr (kind t) (newSOA t) (axfrEmittedFirst t || same) (axfrDone t || (same && axfrEmittedFirst t)) (incDone t))
    end.

(** The loops of [nextIncremental] read until an SOA: the records before it and it. *)
Fixpoint readToSOA (fuel : nat) (rr : recReader) (acc : list Record_) : res (list Record_ * Record_) * recReader :=
  match fuel with
  | O => (Err ErrFuel, rr)
  | S fuel =>
      match Read isEOF rr with
      | (Err e, rr) => (Err e, rr)
      | (Ok rec, rr) =>
          if RType rec =? rrtype.SOA then (Ok (acc, rec), rr) else readToSOA fuel rr (acc ++ [rec])
      end
  end.
(** Every Read that succeeds uses up one of these. *)
Definition remaining (rr : recReader) : nat :=
  length (rr_pushback rr) + length (rr_curMsg rr)
  + list_sum (map (fun m => match m with Ok m => length (answers m) | Err _ => 0%nat end) (rr_stream rr)).

Definition nextIncremental (t : transfer) : res Event * transfer :=
  if incDone t then (Err EOF, t)
  else
    match Read isEOF (reader t) with
    | (Err e, rr) => (Err (ErrWrapped e), withReader t rr)
    | (Ok soaOld, rr) =>
        match serialOfRecord soaOld with
        | None => (Err ErrMissingSubDiffSOA, withReader t rr)
        | Some soaOldSerial =>
            if soaOldSerial =? newSOA t then
              match Read isEOF rr with
              | (Err e, rr) =>
                  if errorsIsEOF e
                  then (Err EOF, mkTransfer rr (kind t) (newSOA t) (axfrEmittedFirst t) (axfrDone t) true)
                  else (Err (ErrWrapped e), withReader t rr)
              | (Ok _, rr) => (Err ErrUnexpectedRecord, withReader t rr)
              end
            else
              match readToSOA (S (remaining rr)) rr [] with
              | (Err e, rr) => (Err (ErrWrapped e), withReader t rr)
              | (Ok (removed, soaNew), rr) =>
                  match serialOfRecord soaNew with
                  | None => (Err ErrMissingSubDiffSOA, withReader t rr)
                  | Some soaNewSerial =>
                      match readToSOA (S (remaining rr)) rr [] with
                      | (Err EOF, rr) => (Err ErrMissingClosingSOA, withReader t rr)
                      | (Err e, rr) => (Err (ErrWrapped e), withReader t rr)
                      | (Ok (added, rec), rr) =>
                          (Ok (diffEvent soaOldSerial soaNewSerial removed added), withReader t (Push rr rec))
                      end
                  end
              end
        end
    end.

Definition Next (t : transfer) : res Event * transfer :=
  match kind t with
  | KindUpToDate => (Err EOF, t)
  | KindAXFRFallback => nextAXFR t
  | KindIncremental => nextIncremental t
  end.
End Client.
End ixfr.
