(* ===== verification/XfrSound.v ===== *)
(** * What the transfer clients deliver

    [view] is the abstract state of the record reader: the records it will
    still return and the error that ends them.  The clients are functions of
    the view; the server's stream, through the wire, has the zone as its
    view. *)

From S2P Require Import Prelude Name Wire RData RDataRoundtrip Message MessageRoundtrip MessageReads Compare.
From S2P Require Import Authoritative Update ZoneTree ZoneLookup ZoneUpdate Transitions Transfer Tsig TsigSound Xfr.
Open Scope Z_scope.
Open Scope list_scope.

(** ** The view of a reader *)
Section View.
Context `{Hmac}.
Variable eof : error -> bool.

Fixpoint streamView (v : option tsigVerifier) (wantID : Z) (wantQ : Question) (s : MessageStream) : list Record_ * error :=
  match s with
  | [] => ([], EOF)
  | Err e :: _ => ([], if eof e then EOF else e)
  | Ok m :: s =>
      match checkEnvelope (newReader [] v wantID wantQ) m with
      | (Err e, _) => ([], e)
      | (Ok _, v) => let '(l, e) := streamView v wantID wantQ s in (answers m ++ l, e)
      end
  end.
Definition view (rr : recReader) : list Record_ * error :=
  let '(l, e) := if rr_msgEOF rr then ([], EOF) else streamView (rr_verifier rr) (rr_wantID rr) (rr_wantQ rr) (rr_stream rr) in
  (rr_pushback rr ++ drop (rr_curIdx rr) (rr_curMsg rr) ++ l, e).

Lemma checkEnvelope_new rr m : checkEnvelope rr m = checkEnvelope (newReader [] (rr_verifier rr) (rr_wantID rr) (rr_wantQ rr)) m.
Proof. done. Qed.

Lemma Read_loop_spec s rr : rr_pushback rr = [] -> rr_stream rr = s ->
  match fst (view rr) with
  | r :: l => exists rr', Read_loop eof s rr = (Ok r, rr') /\ view rr' = (l, snd (view rr)) /\ rr_pushback rr' = []
  | [] => exists rr', Read_loop eof s rr = (Err (snd (view rr)), rr')
  end.
Proof.
  revert rr. induction s as [|x s IH]; intros rr Hp Hs; unfold view; rewrite Hp, Hs; cbn [Read_loop app].
  - destruct (rr_curMsg rr !! rr_curIdx rr) as [rec|] eqn:El.
    + rewrite (drop_S _ _ _ El). destruct (rr_msgEOF rr) eqn:Em; cbn [fst snd app streamView];
        (eexists; split; [reflexivity|]; split; [|done]; cbn [rr_msgEOF rr_pushback rr_curIdx rr_curMsg rr_stream]; by rewrite ?Em, ?Hp).
    + rewrite (drop_ge (rr_curMsg rr)) by (by apply lookup_ge_None). destruct (rr_msgEOF rr); cbn [fst snd app streamView]; by eexists.
  - destruct (rr_curMsg rr !! rr_curIdx rr) as [rec|] eqn:El.
    + rewrite (drop_S _ _ _ El). destruct (if rr_msgEOF rr then _ else _) as [l e] eqn:Ev. cbn [fst snd app].
      eexists. split; [reflexivity|]. split; [|done]. cbn [rr_msgEOF rr_pushback rr_curIdx rr_curMsg rr_stream rr_verifier rr_wantID rr_wantQ].
      by rewrite Ev, Hp.
    + rewrite (drop_ge (rr_curMsg rr)) by (by apply lookup_ge_None). destruct (rr_msgEOF rr) eqn:Em; cbn [app fst snd]; [by eexists|].
      destruct x as [m|e]; cbn [streamView].
      * rewrite (checkEnvelope_new rr m). destruct (checkEnvelope _ m) as [[u|e] v]; [|by eexists].
        specialize (IH (mkReader s (answers m) 0 [] false v (rr_wantID rr) (rr_wantQ rr)) eq_refl eq_refl).
        unfold view in IH. cbn [rr_msgEOF rr_pushback rr_curIdx rr_curMsg rr_stream rr_verifier rr_wantID rr_wantQ drop app] in IH.
        rewrite Hp. destruct (streamView v (rr_wantID rr) (rr_wantQ rr) s) as [l e]. exact IH.
      * destruct (eof e); by eexists.
Qed.

(** Reading is taking the first record of the view. *)
Lemma Read_spec rr :
  match fst (view rr) with
  | r :: l => exists rr', Read eof rr = (Ok r, rr') /\ view rr' = (l, snd (view rr)) /\ rr_pushback rr' = tail (rr_pushback rr)
  | [] => exists rr', Read eof rr = (Err (snd (view rr)), rr')
  end.
Proof.
  unfold Read. destruct (rr_pushback rr) as [|p ps] eqn:Ep; [by apply Read_loop_spec|].
  unfold view. rewrite Ep. destruct (if rr_msgEOF rr then _ else _) as [l e] eqn:Ev. cbn [fst snd app].
  eexists. split; [reflexivity|]. split; [|done]. cbn [rr_msgEOF rr_pushback rr_curIdx rr_curMsg rr_stream rr_verifier rr_wantID rr_wantQ].
  by rewrite Ev.
Qed.
Lemma Read_cons rr r l e : view rr = (r :: l, e) ->
  exists rr', Read eof rr = (Ok r, rr') /\ view rr' = (l, e) /\ rr_pushback rr' = tail (rr_pushback rr).
Proof. intros E. pose proof (Read_spec rr) as Hr. by rewrite E in Hr. Qed.
Lemma Read_nil rr e : view rr = ([], e) -> exists rr', Read eof rr = (Err e, rr').
Proof. intros E. pose proof (Read_spec rr) as Hr. by rewrite E in Hr. Qed.
Lemma view_Push rr r l e : rr_pushback rr = [] -> view rr = (l, e) -> view (Push rr r) = (r :: l, e).
Proof.
  unfold view, Push. intros -> E. cbn [rr_msgEOF rr_pushback rr_curIdx rr_curMsg rr_stream rr_verifier rr_wantID rr_wantQ].
  destruct (if rr_msgEOF rr then _ else _) as [l' e']. injection E as <- <-. done.
Qed.
Lemma view_Push2 rr r r' l e : rr_pushback rr = [] -> view rr = (l, e) -> view (Push (Push rr r) r') = (r :: r' :: l, e).
Proof.
  unfold view, Push. intros Hp E. cbn [rr_msgEOF rr_pushback rr_curIdx rr_curMsg rr_stream rr_verifier rr_wantID rr_wantQ].
  rewrite Hp in *. destruct (if rr_msgEOF rr then _ else _) as [l' e']. injection E as <- <-. done.
Qed.
Lemma view_new s v i q : view (newReader s v i q) = streamView v i q s.
Proof. unfold view. cbn. by destruct (streamView v i q s). Qed.
End View.

(** ** The AXFR client *)
Section Axfr.
Context `{Hmac}.

(** Calling Next until it returns an error: the records, the error and the last state. *)
Fixpoint drain (fuel : nat) (t : axfr.transfer) : list Record_ * error * axfr.transfer :=
  match fuel with
  | O => ([], ErrFuel, t)
  | S fuel =>
      match axfr.Next t with
      | (Err e, t) => ([], e, t)
      | (Ok r, t) => let '(l, e, t) := drain fuel t in (r :: l, e, t)
      end
  end.

(** The closing SOA of a transfer with this serial; the records up to and with
    the first one, and whether there is one. *)
Definition closes (serial : Z) (r : Record_) : bool := match serialOfRecord r with Some s => s =? serial | None => false end.
Fixpoint throughClosing (serial : Z) (l : list Record_) : list Record_ * bool :=
  match l with
  | [] => ([], false)
  | r :: l => if closes serial r then ([r], true) else let '(x, c) := throughClosing serial l in (r :: x, c)
  end.

Lemma drain_done fuel t : axfr.done t = true -> (0 < fuel)%nat -> drain fuel t = ([], EOF, t).
Proof. intros Hd Hf. destruct fuel; [lia|]. cbn. unfold axfr.Next. by rewrite Hd. Qed.
Lemma drain_body t l e : axfr.done t = false -> axfr.emittedFirstSOA t = true -> view errorsIsEOF (axfr.reader t) = (l, e) ->
  exists t', axfr.done t' = snd (throughClosing (axfr.newSOA t) l) /\
    forall fuel, (length l < fuel)%nat ->
      drain fuel t = (fst (throughClosing (axfr.newSOA t) l), if snd (throughClosing (axfr.newSOA t) l) then EOF else e, t').
Proof.
  revert t. induction l as [|r l IH]; intros t Hd Hf Hv.
  - destruct (Read_nil _ _ _ Hv) as [rr' ER]. eexists. split; [|intros [|fuel] Hl; [lia|]; cbn [drain]; unfold axfr.Next; rewrite Hd, ER; reflexivity].
    done.
  - destruct (Read_cons _ _ _ _ _ Hv) as (rr' & ER & Hv' & _). cbn [throughClosing].
    set (t1 := axfr.mkTransfer rr' (axfr.newSOA t) true (closes (axfr.newSOA t) r)).
    assert (axfr.Next t = (Ok r, t1)) as EN.
    { unfold axfr.Next. rewrite Hd, ER, Hf, andb_true_r. done. }
    destruct (closes (axfr.newSOA t) r) eqn:Ec; cbn [fst snd].
    + exists t1. split; [done|]. intros [|fuel] Hl; [lia|]. cbn [drain]. rewrite EN, drain_done by (done || (cbn in Hl; lia)). done.
    + destruct (IH t1) as (t' & Hd' & E); [done..|]. change (axfr.newSOA t1) with (axfr.newSOA t) in *. exists t'.
      destruct (throughClosing (axfr.newSOA t) l) as [x c]. cbn [fst snd] in *. split; [done|].
      intros [|fuel] Hl; [lia|]. cbn [drain]. rewrite EN, E by (cbn in Hl; lia). done.
Qed.

(** What a client of [Start] sees, from the records of the stream and the error that ends it. *)
Lemma axfr_view rr l e : rr_pushback rr = [] -> view errorsIsEOF rr = (l, e) ->
  match l with
  | [] => axfr.init rr = Err (if bool_decide (e = EOF) then ErrEmptyResponse else e)
  | r :: l =>
      match serialOfRecord r with
      | None => axfr.init rr = Err ErrMissingLeadingSOA
      | Some serial =>
          exists t t', axfr.init rr = Ok t /\ axfr.newSOA t = serial /\
            (forall fuel, (S (length l) < fuel)%nat ->
               drain fuel t = (r :: fst (throughClosing serial l), if snd (throughClosing serial l) then EOF else e, t')) /\
            axfr.done t' = snd (throughClosing serial l)
      end
  end.
Proof.
  intros Hp Hv. unfold axfr.init. destruct l as [|r l].
  - destruct (Read_nil _ _ _ Hv) as [rr' ->]. case_bool_decide as He; [by subst e|]. by destruct e.
  - destruct (Read_cons _ _ _ _ _ Hv) as (rr1 & -> & Hv1 & Hp1). destruct (serialOfRecord r) as [serial|] eqn:Es; [|done].
    rewrite Hp in Hp1. pose proof (view_Push _ rr1 r l e Hp1 Hv1) as Hv2. set (t := axfr.mkTransfer (Push rr1 r) serial false false).
    destruct (Read_cons _ _ _ _ _ Hv2) as (rr2 & ER & Hv3 & _).
    set (t1 := axfr.mkTransfer rr2 serial true false).
    destruct (drain_body t1 l e eq_refl eq_refl Hv3) as (t' & Hd & E). exists t, t'. split; [done|]. split; [done|].
    split; [|exact Hd]. intros [|fuel] Hf; [lia|]. cbn [drain]. unfold axfr.Next. cbn [axfr.done axfr.reader t].
    rewrite ER. cbn zeta. rewrite Es. cbn [axfr.newSOA axfr.emittedFirstSOA]. rewrite Z.eqb_refl. cbn [orb andb]. fold t1.
    by rewrite E by lia.
Qed.

(** The AXFR client delivers exactly the transfer.  For every sequence of
    messages and errors that a stream returns, [Start] fails exactly when there
    is no leading SOA (with the stream's error, if one comes first), and Next
    then yields the leading SOA and every record up to and with the first later
    SOA of the same serial, then io.EOF; records split over messages in any
    way, messages without records, and everything after the closing SOA make
    no difference.  If the closing SOA does not come, it yields all records and
    the error that ended the stream. *)
Theorem axfr_client_exact s v i q :
  let '(l, e) := streamView errorsIsEOF v i q s in
  match l with
  | [] => axfr.init (newReader s v i q) = Err (if bool_decide (e = EOF) then ErrEmptyResponse else e)
  | r :: l =>
      match serialOfRecord r with
      | None => axfr.init (newReader s v i q) = Err ErrMissingLeadingSOA
      | Some serial =>
          exists t t', axfr.init (newReader s v i q) = Ok t /\ axfr.newSOA t = serial /\
            (forall fuel, (S (length l) < fuel)%nat ->
               drain fuel t = (r :: fst (throughClosing serial l), if snd (throughClosing serial l) then EOF else e, t')) /\
            axfr.done t' = snd (throughClosing serial l)
      end
  end.
Proof.
  destruct (streamView errorsIsEOF v i q s) as [l e] eqn:E. apply (axfr_view (newReader s v i q) l e eq_refl). by rewrite view_new.
Qed.
End Axfr.

(** ** From the server to the client *)
Lemma closes_notSOA serial r : RType r <> rrtype.SOA -> closes serial r = false.
Proof.
  unfold closes, serialOfRecord, asSOA, RType. destruct (r_rd r) as [rd|]; [|done]. destruct rd; try done.
Qed.
Lemma throughClosing_app serial l r rest : Forall (fun r => RType r <> rrtype.SOA) l -> closes serial r = true ->
  throughClosing serial (l ++ r :: rest) = (l ++ [r], true).
Proof.
  intros Hl Hr. induction Hl as [|x l Hx _ IH]; cbn [app throughClosing]; [by rewrite Hr|].
  rewrite closes_notSOA by done. by rewrite IH.
Qed.

(** The messages of [ms] as they arrive. *)
Definition delivered (ms : list Message) : MessageStream := map (fun m => let? b := Message.Pack m in Message.Unpack b) ms.
(** A server behind a stream connection: the query as received, the answers as received. *)
Definition overTCP {range : MapRange} (a : Server) (w : ResponseWriter) : StreamExchanger := fun q =>
  let? b := Message.Pack q in
  let? q := Message.Unpack b in
  let? r := ServeDNS a w q in
  Ok (delivered (written (snd (fst r)))).

Lemma RCODE_transfer rd : RCODE (WithAuthoritative true (WithRecursionDesired rd (WithResponse true 0))) = RCODENoError.
Proof. by destruct rd. Qed.
Lemma view_transfer `{Hmac} eof i q0 q q1 parts : id q = i -> q_typ q1 = q_typ q0 -> q_class q1 = q_class q0 -> q_name q1 = q_name q0 ->
  Forall (fun m => message_ok m /\ is_ok (Message.Pack m) = true) (map (transferMessage q q1) parts) ->
  streamView eof None i q0 (delivered (map (transferMessage q q1) parts)) = (concat parts, EOF).
Proof.
  intros Hi Ht Hc Hn. induction parts as [|rs parts IH]; intros Hm; [done|]. cbn [map] in Hm. apply Forall_cons in Hm as [[Hok HP] Hm].
  cbn [map delivered streamView]. destruct (Message.Pack (transferMessage q q1 rs)) as [b|] eqn:EP; [|done]. cbn [res_bind].
  rewrite (Unpack_Pack _ _ Hok EP). unfold checkEnvelope. cbn [newReader rr_wantID rr_wantQ rr_verifier echoMessage transferMessage id questions flags answers map echoQuestion q_typ q_class q_name].
  rewrite Hi, Z.eqb_refl, Ht, Hc, Hn, !Z.eqb_refl, key_equal, RCODE_transfer. cbn [negb orb].
  change (negb (RCODENoError =? RCODENoError)) with false. cbv iota.
  change (map (fun m => let? b := Message.Pack m in Message.Unpack b) (map (transferMessage q q1) parts)) with (delivered (map (transferMessage q q1) parts)).
  rewrite IH by done. done.
Qed.

(** The query, and that it always fits. *)
Definition axfrQuery (i : Z) (zone : Name) : Message := mkMessage i 0 [NewQuestion zone rrtype.AXFR] [] [] [] zeroEDNS false.
Lemma axfrQuery_ok i zone : u16 i -> canonical zone -> message_ok (axfrQuery i zone) /\ exists b, Message.Pack (axfrQuery i zone) = Ok b.
Proof.
  intros Hi Hz. pose proof (AppendWire_len _ Hz) as [_ Hl]. destruct Hz as (ls & Hw & Hf). pose proof Hw as (En & Hls & Hlen). split.
  - split_and!; try done; cbn [axfrQuery questions]; try constructor; [|constructor].
    split; [done|]. split; [done|]. exists ls. unfold qraw. cbn [rawName q_name NewQuestion]. if_false.
    rewrite (AppendWire_wf _ _ Hw). split_and!; [done|done|by rewrite <- En|].
    rewrite (foldLabels_folded _ Hf). destruct zone. cbn in En. by rewrite En.
  - unfold Message.Pack. cbn [axfrQuery questions answers authorities additionals hasEDNS edns packRecords fold_left res_bind].
    change (_ || _) with false. cbv iota zeta. cbn [res_bind]. unfold packQuestion. cbn [rawName q_name NewQuestion q_typ q_class].
    change (0 <? zlen []) with false. cbv iota. rewrite NameUncompressed_raw. unfold Packer.Uint16, Packer.Raw. cbn [Packer.buf].
    split_if; [|by eexists]. bool_facts. rewrite !zlen_app, !zlen_be16 in *.
    change (zlen (Packer.buf (packHeader _ _ _))) with 12 in *. lia.
Qed.

(** C14. Zone transfer end to end.  The AXFR client, connected over TCP to the
    authoritative server that serves the zone with records [R] to it, receives
    through Pack and Unpack on both legs exactly the zone: the apex SOA, for
    every owner its records other than SOA in order, and the SOA again, and
    reports completion -- whenever the server's answers can be packed and the
    zone's SOA record holds an SOA. *)
Theorem axfr_end_to_end `{Hmac} {range : MapRange} a w zone i z R serial now opts :
  let q := echoMessage (axfrQuery i zone) in
  let question := echoQuestion (NewQuestion zone rrtype.AXFR) in
  server_ok False a -> indexes z R -> canonical zone -> u16 i -> zones a !! nameKey zone = Some z ->
  serialOfRecord (zoneIndex.soaRec z) = Some serial ->
  Network w = tcp -> written w = [] -> accepting w -> denied (axfrPolicy a) w q = false ->
  Forall (fun m => message_ok m /\ is_ok (Message.Pack m) = true) (written (serveAXFR a w q question)) ->
  cf_tsigKey (configOf now opts) = None ->
  exists t body t', axfr.Start now (Ok i) (overTCP a w) zone opts = Ok t /\
    (forall n, canonical n -> owned body n = List.filter notSOA (owned R n)) /\ Forall (fun r => r ∈ R) body /\
    axfr.done t' = true /\
    forall fuel, (length body + 2 < fuel)%nat -> drain fuel t = (zoneIndex.soaRec z :: body ++ [zoneIndex.soaRec z], EOF, t').
Proof.
  intros q question Hs Hx Hz Hi Ez Eser Hnet Hw0 Hacc Hden Hpk Hcf.
  destruct (axfrQuery_ok i zone Hi Hz) as [Hqok [qb EQ]].
  pose proof (serveAXFR_stream a w q question z R Hs Hx Hz eq_refl Ez) as HS. cbv zeta in HS. rewrite Hnet, Hden in HS.
  rewrite bool_decide_eq_true_2 in HS by done. cbn [andb negb] in HS. destruct HS as (parts & body & k & Hcat & Hown & Hin & _ & Hwr & Hall).
  rewrite Hall, Hw0 in Hwr by done. cbn [app] in Hwr.
  assert (Forall (fun r => RType r <> rrtype.SOA) body) as Hns.
  { apply Forall_forall. intros r Hr HT. rewrite Forall_forall in Hin. pose proof (Hin r Hr) as HrR.
    pose proof (ix_recs z R Hx) as HR. rewrite Forall_forall in HR. destruct (HR r HrR) as (Hcn & _).
    assert (r ∈ owned body (r_name r)) as Ho by (unfold owned; rewrite list_elem_of_In, filter_In, <- list_elem_of_In; split; [done|apply key_equal]).
    rewrite Hown in Ho by done. rewrite list_elem_of_In, filter_In in Ho. destruct Ho as [_ Ho]. unfold notSOA in Ho. rewrite HT in Ho. done. }
  set (soa := zoneIndex.soaRec z) in *.
  assert (streamView errorsIsEOF None i (NewQuestion zone rrtype.AXFR) (delivered (map (transferMessage q question) parts)) = (soa :: body ++ [soa], EOF)) as HV.
  { rewrite view_transfer; [by rewrite Hcat|done..|by rewrite <- Hwr]. }
  assert (closes serial soa = true) as Hcl by (unfold closes; rewrite Eser; apply Z.eqb_refl).
  pose proof (axfr_view (newReader (delivered (map (transferMessage q question) parts)) None i (NewQuestion zone rrtype.AXFR)) _ _ eq_refl
    (eq_trans (view_new _ _ _ _ _) HV)) as HA. cbn iota beta in HA. rewrite Eser in HA.
  rewrite (throughClosing_app serial body soa []) in HA by done. cbn [fst snd] in HA. destruct HA as (t & t' & EI & _ & HD & Hdn).
  exists t, body, t'. split; [|split; [done|split; [done|split; [done|]]]].
  - unfold axfr.Start. cbn [res_bind]. change (axfr.query i zone) with (Ok (axfrQuery i zone)). cbn [res_bind]. unfold openReader. rewrite Hcf.
    unfold overTCP. rewrite EQ. cbn [res_bind]. rewrite (Unpack_Pack _ _ Hqok EQ). cbn [res_bind]. fold q.
    change (ServeDNS a w q) with (Ok (a, serveAXFR a w q question, @nil Event)). cbn [res_bind fst snd]. rewrite Hwr.
    exact EI.
  - intros fuel Hfl. apply HD. rewrite length_app. cbn. lia.
Qed.

(** The sample zone, transferred. *)
Module SampleTransfer.
Definition server : Server := mkServer (zones SampleRun.server) false None None 0 (Some SampleRun.allow) None false 0 true.
Definition q : Message := echoMessage (axfrQuery 5 Sample.origin).
Definition question : Question := echoQuestion (NewQuestion Sample.origin rrtype.AXFR).
Definition sent : list Message := Eval vm_compute in written (serveAXFR server SampleRun.writer q question).
Lemma sent_eq : written (serveAXFR server SampleRun.writer q question) = sent.
Proof. vm_compute. reflexivity. Qed.
Definition wireOf (m : Message) : bytes := match Message.Pack m with Ok b => b | Err _ => [] end.
(** What survives the wire unchanged was expressible. *)
Lemma expressible m : forallb (fun c => (0 <=? c) && (c <? 256)) (wireOf m) = true -> Message.Unpack (wireOf m) = Ok m ->
  forallb (fun n => NumLabels n <=? maxPtrHops) (messageNames m) = true -> message_ok m.
Proof.
  intros Hb HU Hs. destruct (Unpack_ok (wireOf m) m) as [Hok _]; [|done|].
  - apply Forall_forall. intros c Hc. rewrite forallb_forall in Hb. specialize (Hb c ltac:(by apply list_elem_of_In)).
    apply andb_true_iff in Hb as [H1 H2]. apply Z.leb_le in H1. apply Z.ltb_lt in H2. done.
  - apply message_ok_short; [done|]. apply Forall_forall. intros n Hn. rewrite forallb_forall in Hs.
    apply Z.leb_le, Hs. by apply list_elem_of_In.
Qed.
Lemma sent_ok : Forall (fun m => message_ok m /\ is_ok (Message.Pack m) = true) sent.
Proof.
  constructor; [|constructor]. split; [|vm_compute; reflexivity]. apply expressible; vm_compute; reflexivity.
Qed.
Lemma server_is_ok : server_ok False server.
Proof.
  assert (server_ok False SampleRun.server) as Hs by (eapply New_ok; [apply SampleRun.options_wf|apply SampleRun.started]).
  constructor; [apply Hs|done].
Qed.
End SampleTransfer.

Lemma axfr_end_to_end_witness :
  exists t body t', axfr.Start (H := SampleKey.checksum) (fun _ => 0) (Ok 5) (overTCP SampleTransfer.server SampleRun.writer) Sample.origin [] = Ok t /\
    (forall n, canonical n -> owned body n = List.filter notSOA (owned Sample.records n)) /\ Forall (fun r => r ∈ Sample.records) body /\
    axfr.done t' = true /\
    forall fuel, (length body + 2 < fuel)%nat -> drain (H := SampleKey.checksum) fuel t = (Sample.soa :: body ++ [Sample.soa], EOF, t').
Proof.
  refine (axfr_end_to_end (H := SampleKey.checksum) SampleTransfer.server SampleRun.writer Sample.origin 5 Sample.index Sample.records 7 (fun _ => 0) []
    SampleTransfer.server_is_ok (proj1 Sample.indexed) (Sample.canonicalI [Sample.ex] eq_refl) _ _ _ eq_refl eq_refl (fun _ _ => eq_refl) eq_refl _ eq_refl).
  - decide_now.
  - vm_compute. reflexivity.
  - vm_compute. reflexivity.
  - change (written _) with (written (serveAXFR SampleTransfer.server SampleRun.writer SampleTransfer.q SampleTransfer.question)).
    rewrite SampleTransfer.sent_eq. exact SampleTransfer.sent_ok.
Defined.

(** ** A transfer that stops early *)
Lemma view_messages `{Hmac} eof q question parts :
  streamView eof None (id q) question (map (fun rs => Ok (transferMessage q question rs)) parts) = (concat parts, EOF).
Proof.
  induction parts as [|rs parts IH]; [done|]. cbn [map streamView]. unfold checkEnvelope.
  cbn [newReader rr_wantID rr_wantQ rr_verifier transferMessage id questions flags answers].
  rewrite !Z.eqb_refl, key_equal, RCODE_transfer. cbn [negb orb]. change (negb (RCODENoError =? RCODENoError)) with false. cbv iota.
  by rewrite IH.
Qed.
Lemma throughClosing_none serial l : Forall (fun r => RType r <> rrtype.SOA) l -> throughClosing serial l = (l, false).
Proof.
  intros Hl. induction Hl as [|x l Hx _ IH]; [done|]. cbn [throughClosing]. rewrite closes_notSOA by done. by rewrite IH.
Qed.

(** A transfer that is cut off looks complete.  When the connection ends
    cleanly between two envelopes, before the closing SOA, the AXFR client
    yields the records it has and then io.EOF, which is how it reports the end
    of a complete transfer; its state knows the difference, the caller does not
    learn it. *)
Theorem axfr_truncation_undetected `{Hmac} q question soa serial first second :
  serialOfRecord soa = Some serial -> Forall (fun r => RType r <> rrtype.SOA) first -> Forall (fun r => RType r <> rrtype.SOA) second ->
  let envelope rs := Ok (transferMessage q question rs) in
  let reader s := newReader s None (id q) question in
  exists t t1 u u1,
    axfr.init (reader [envelope (soa :: first); envelope (second ++ [soa])]) = Ok t /\
    axfr.init (reader [envelope (soa :: first)]) = Ok u /\
    axfr.done t1 = true /\ axfr.done u1 = false /\
    forall fuel, (length first + length second + 2 < fuel)%nat ->
      drain fuel t = (soa :: first ++ second ++ [soa], EOF, t1) /\ drain fuel u = (soa :: first, EOF, u1).
Proof.
  intros Es H1 H2 envelope reader.
  assert (closes serial soa = true) as Hcl by (unfold closes; rewrite Es; apply Z.eqb_refl).
  pose proof (axfr_view (reader [envelope (soa :: first); envelope (second ++ [soa])]) _ _ eq_refl
    (eq_trans (view_new _ _ _ _ _) (view_messages errorsIsEOF q question [soa :: first; second ++ [soa]]))) as HA.
  pose proof (axfr_view (reader [envelope (soa :: first)]) _ _ eq_refl
    (eq_trans (view_new _ _ _ _ _) (view_messages errorsIsEOF q question [soa :: first]))) as HB.
  cbn [concat app] in HA, HB. rewrite Es in HA, HB. rewrite !app_nil_r in *.
  rewrite (throughClosing_none serial first) in HB by done.
  rewrite app_assoc, (throughClosing_app serial (first ++ second) soa []) in HA by (by auto using Forall_app_2 || done).
  destruct HA as (t & t1 & EA & _ & DA & FA), HB as (u & u1 & EB & _ & DB & FB). exists t, t1, u, u1.
  split_and!; try done. intros fuel Hf. rewrite DA, DB; [|lia|rewrite !length_app; cbn; lia]. cbn [fst snd]. by rewrite <- app_assoc.
Qed.
Lemma axfr_truncation_undetected_witness :
  exists t t1 u u1,
    axfr.init (H := SampleKey.checksum) (newReader [Ok (transferMessage SampleTransfer.q SampleTransfer.question [Sample.soa]);
      Ok (transferMessage SampleTransfer.q SampleTransfer.question [Sample.soa])] None 5 SampleTransfer.question) = Ok t /\
    axfr.init (H := SampleKey.checksum) (newReader [Ok (transferMessage SampleTransfer.q SampleTransfer.question [Sample.soa])] None 5 SampleTransfer.question) = Ok u /\
    axfr.done t1 = true /\ axfr.done u1 = false /\
    forall fuel, (0 + 0 + 2 < fuel)%nat -> drain (H := SampleKey.checksum) fuel t = ([Sample.soa; Sample.soa], EOF, t1) /\
      drain (H := SampleKey.checksum) fuel u = ([Sample.soa], EOF, u1).
Proof.
  exact (axfr_truncation_undetected (H := SampleKey.checksum) SampleTransfer.q SampleTransfer.question Sample.soa 7 [] [] eq_refl
    (Forall_nil_2 _) (Forall_nil_2 _)).
Defined.

(** ** The IXFR client *)
Section Ixfr.
Context `{Hmac}.
Import ixfr.

Lemma view_remaining rr : (length (fst (view isEOF rr)) <= remaining rr)%nat.
Proof.
  unfold view, remaining. assert (forall s v i q, (length (fst (streamView isEOF v i q s)) <=
    list_sum (map (fun m => match m with Ok m => length (answers m) | Err _ => 0%nat end) s))%nat) as Hs.
  { induction s as [|[m|e] s IH]; intros v i q; cbn [streamView map]; [done| |cbn [fst length]; lia].
    change (list_sum (?a :: ?b)) with (a + list_sum b)%nat.
    destruct (checkEnvelope _ m) as [[u|e] v']; [|cbn [fst length]; lia]. specialize (IH v' i q). destruct (streamView _ v' i q s) as [l e].
    cbn [fst] in *. rewrite length_app. lia. }
  specialize (Hs (rr_stream rr) (rr_verifier rr) (rr_wantID rr) (rr_wantQ rr)).
  destruct (rr_msgEOF rr).
  - cbn [fst]. rewrite app_nil_r, length_app, length_drop. lia.
  - destruct (streamView _ _ _ _ _) as [l e]. cbn [fst] in *. rewrite !length_app, length_drop. lia.
Qed.

Definition isSOA (r : Record_) : bool := RType r =? rrtype.SOA.
Lemma readToSOA_found fuel rr acc pre r post e :
  view isEOF rr = (pre ++ r :: post, e) -> forallb (fun x => negb (isSOA x)) pre = true -> isSOA r = true -> (length pre < fuel)%nat ->
  exists rr', readToSOA fuel rr acc = (Ok (acc ++ pre, r), rr') /\ view isEOF rr' = (post, e) /\
    ((length (rr_pushback rr) <= 1)%nat -> rr_pushback rr' = []).
Proof.
  revert fuel rr acc. induction pre as [|x pre IH]; intros [|fuel] rr acc Hv Hp Hr Hf; try (cbn in Hf; lia); cbn [readToSOA].
  - destruct (Read_cons _ _ _ _ _ Hv) as (rr' & -> & Hv' & Hp'). unfold isSOA in Hr. rewrite Hr, app_nil_r. exists rr'. split; [done|].
    split; [done|]. intros Hl. rewrite Hp'. destruct (rr_pushback rr) as [|? [|? ?]]; [done|done|cbn in Hl; lia].
  - cbn in Hp. apply andb_true_iff in Hp as [Hx Hp]. destruct (Read_cons _ _ _ _ _ Hv) as (rr' & -> & Hv' & Hp').
    unfold isSOA in Hx. apply negb_true_iff in Hx. rewrite Hx. destruct (IH fuel rr' (acc ++ [x]) Hv' Hp Hr) as (rr2 & -> & Hv2 & Hp2); [cbn in Hf; lia|].
    exists rr2. rewrite <- app_assoc. split; [done|]. split; [done|]. intros Hl. apply Hp2. rewrite Hp'.
    destruct (rr_pushback rr) as [|? ?]; cbn in Hl |- *; lia.
Qed.
Lemma readToSOA_missing fuel rr acc l e : view isEOF rr = (l, e) -> forallb (fun x => negb (isSOA x)) l = true -> (length l < fuel)%nat ->
  exists rr', readToSOA fuel rr acc = (Err e, rr').
Proof.
  revert fuel rr acc. induction l as [|x l IH]; intros [|fuel] rr acc Hv Hp Hf; try (cbn in Hf; lia); cbn [readToSOA].
  - destruct (Read_nil _ _ _ Hv) as [rr' ->]. by eexists.
  - cbn in Hp. apply andb_true_iff in Hp as [Hx Hp]. destruct (Read_cons _ _ _ _ _ Hv) as (rr' & -> & Hv' & _).
    unfold isSOA in Hx. apply negb_true_iff in Hx. rewrite Hx. apply (IH fuel rr'); [done..|cbn in Hf; lia].
Qed.
(** Where the first SOA is. *)
Lemma split_SOA l : (forallb (fun x => negb (isSOA x)) l = true) \/
  exists pre r post, l = pre ++ r :: post /\ forallb (fun x => negb (isSOA x)) pre = true /\ isSOA r = true.
Proof.
  induction l as [|x l IH]; [by left|]. destruct (isSOA x) eqn:Ex; [right; by exists [], x, l|].
  destruct IH as [IH|(pre & r & post & -> & Hp & Hr)]; [left|right].
  - cbn. by rewrite Ex.
  - exists (x :: pre), r, post. cbn. by rewrite Ex.
Qed.
Lemma split_unique pre r post pre' r' post' :
  forallb (fun x => negb (isSOA x)) pre = true -> isSOA r = true -> forallb (fun x => negb (isSOA x)) pre' = true -> isSOA r' = true ->
  pre ++ r :: post = pre' ++ r' :: post' -> pre = pre' /\ r = r' /\ post = post'.
Proof.
  revert pre'. induction pre as [|x pre IH]; intros [|x' pre'] Hp Hr Hp' Hr' E; cbn in *; injection E; intros; subst; try done.
  - by rewrite Hr in Hp'.
  - by rewrite Hr' in Hp.
  - apply andb_true_iff in Hp as [_ Hp], Hp' as [_ Hp']. destruct (IH pre') as (-> & -> & ->); done.
Qed.
Lemma serial_isSOA r s : serialOfRecord r = Some s -> isSOA r = true.
Proof. unfold serialOfRecord, asSOA, isSOA, RType. destruct (r_rd r) as [[]|]; done. Qed.

(** RFC 1995 section 4: sub-diffs, each an SOA, the records removed, an SOA and
    the records added, and the closing SOA. *)
Inductive diffsOf (new : Z) : list Record_ -> list Event -> Prop :=
  | diffs_close r : serialOfRecord r = Some new -> diffsOf new [r] []
  | diffs_sub o s removed n s' added rest ds :
      serialOfRecord o = Some s -> s <> new -> forallb (fun x => negb (isSOA x)) removed = true ->
      serialOfRecord n = Some s' -> forallb (fun x => negb (isSOA x)) added = true -> diffsOf new rest ds ->
      diffsOf new (o :: removed ++ n :: added ++ rest) (diffEvent s s' removed added :: ds).
Lemma diffsOf_head new l ds : diffsOf new l ds -> exists r rest, l = r :: rest /\ isSOA r = true.
Proof. destruct 1; eexists _, _; (split; [reflexivity|]); by eapply serial_isSOA. Qed.

(** One call of Next on an incremental transfer. *)
Lemma next_cases t l e : incDone t = false -> view isEOF (reader t) = (l, e) -> (length (rr_pushback (reader t)) <= 1)%nat ->
  (exists r t', l = [r] /\ serialOfRecord r = Some (newSOA t) /\ errorsIsEOF e = true /\ nextIncremental t = (Err EOF, t')) \/
  (exists o s removed n s' added r rest t', l = o :: removed ++ n :: added ++ r :: rest /\
     serialOfRecord o = Some s /\ s <> newSOA t /\ forallb (fun x => negb (isSOA x)) removed = true /\ serialOfRecord n = Some s' /\
     forallb (fun x => negb (isSOA x)) added = true /\ isSOA r = true /\
     nextIncremental t = (Ok (diffEvent s s' removed added), t') /\ kind t' = kind t /\ newSOA t' = newSOA t /\ incDone t' = false /\
     view isEOF (reader t') = (r :: rest, e) /\ (length (rr_pushback (reader t')) <= 1)%nat) \/
  (exists er t', nextIncremental t = (Err er, t') /\ er <> EOF /\ forall ds, diffsOf (newSOA t) l ds -> errorsIsEOF e = true -> False).
Proof.
  intros Hd Hv Hp. unfold nextIncremental. rewrite Hd. destruct l as [|o l].
  { right; right. destruct (Read_nil _ _ _ Hv) as [rr' ->]. eexists _, _. split; [reflexivity|]. split; [done|]. intros ds HD. inversion HD. }
  destruct (Read_cons _ _ _ _ _ Hv) as (rr1 & -> & Hv1 & Hp1).
  assert (rr_pushback rr1 = []) as Hp1' by (rewrite Hp1; destruct (rr_pushback (reader t)) as [|? [|? ?]]; [done|done|cbn in Hp; lia]). clear Hp1.
  destruct (serialOfRecord o) as [s|] eqn:Eo.
  2: { right; right. eexists _, _. split; [reflexivity|]. split; [done|]. intros ds HD. inversion HD; congruence. }
  destruct (s =? newSOA t) eqn:En; bool_facts.
  { subst s. destruct l as [|x l].
    - destruct (Read_nil _ _ _ Hv1) as [rr2 ->]. destruct (errorsIsEOF e) eqn:Ee.
      + left. eexists o, _. done.
      + right; right. eexists _, _. split; [reflexivity|]. split; [done|]. done.
    - destruct (Read_cons _ _ _ _ _ Hv1) as (rr2 & -> & _ & _). right; right. eexists _, _. split; [reflexivity|]. split; [done|].
      intros ds HD. inversion HD; congruence. }
  pose proof (view_remaining rr1) as Hr1. rewrite Hv1 in Hr1. cbn [fst] in Hr1.
  destruct (split_SOA l) as [Hno|(removed & n & post & -> & Hrem & Hn)].
  { destruct (readToSOA_missing (S (remaining rr1)) rr1 [] l e Hv1 Hno ltac:(lia)) as [rr2 ->]. right; right. eexists _, _.
    split; [reflexivity|]. split; [done|]. intros ds HD. inversion HD; subst; [congruence|].
    rewrite forallb_app in Hno. apply andb_true_iff in Hno as [_ Hno]. cbn in Hno. apply andb_true_iff in Hno as [Hno _].
    by erewrite serial_isSOA in Hno. }
  destruct (readToSOA_found (S (remaining rr1)) rr1 [] removed n post e Hv1 Hrem Hn) as (rr2 & -> & Hv2 & Hp2); [rewrite length_app in Hr1; lia|].
  cbn [app]. destruct (serialOfRecord n) as [s'|] eqn:Es'.
  2: { right; right. eexists _, _. split; [reflexivity|]. split; [done|]. intros ds HD. inversion HD as [|? ? rem' n' ? ? ? ? ? ? Hr' Hn']; subst; [by destruct removed|].
    match goal with E : _ ++ _ = _ ++ _ |- _ => apply split_unique in E as (_ & -> & _); [|first [assumption|eapply serial_isSOA; eassumption]..] end. congruence. }
  pose proof (view_remaining rr2) as Hr2. rewrite Hv2 in Hr2. cbn [fst] in Hr2.
  destruct (split_SOA post) as [Hno|(added & r & rest & -> & Hadd & Hr)].
  - destruct (readToSOA_missing (S (remaining rr2)) rr2 [] post e Hv2 Hno ltac:(lia)) as [rr3 ->]. right; right.
    assert (forall ds, diffsOf (newSOA t) (o :: removed ++ n :: post) ds -> False) as Hnd.
    { intros ds HD. inversion HD as [|? ? rem' n' ? add' rest' ds' ? ? Hr' Hn' Ha' HD']; subst; [by destruct removed|].
      match goal with E : _ ++ _ = _ ++ _ |- _ => apply split_unique in E as (_ & _ & <-); [|first [assumption|eapply serial_isSOA; eassumption]..] end.
      apply diffsOf_head in HD' as (x & y & -> & Hx). rewrite forallb_app in Hno. apply andb_true_iff in Hno as [_ Hno].
      cbn in Hno. by rewrite Hx in Hno. }
    destruct e; (eexists _, _; split; [reflexivity|]; split; [done|]; intros; by eapply Hnd).
  - destruct (readToSOA_found (S (remaining rr2)) rr2 [] added r rest e Hv2 Hadd Hr) as (rr3 & -> & Hv3 & Hp3); [rewrite length_app in Hr2; lia|].
    right; left. cbn [app]. rewrite Hp1' in Hp2. specialize (Hp2 ltac:(cbn; lia)). rewrite Hp2 in Hp3. specialize (Hp3 ltac:(cbn; lia)).
    eexists o, s, removed, n, s', added, r, rest, _. split; [done|]. do 6 (split; [done|]). split; [reflexivity|].
    do 3 (split; [done|]). split; [by apply view_Push|]. cbn. rewrite Hp3. cbn. lia.
Qed.
End Ixfr.

Section IxfrExact.
Context `{Hmac}.
Import ixfr.

(** Calling Next until it returns an error. *)
Fixpoint drainEvents (fuel : nat) (t : transfer) : list Event * error :=
  match fuel with
  | O => ([], ErrFuel)
  | S fuel =>
      match Next t with
      | (Err e, _) => ([], e)
      | (Ok x, t) => let '(l, e) := drainEvents fuel t in (x :: l, e)
      end
  end.

Lemma drainEvents_exact fuel t l e ds :
  kind t = KindIncremental -> incDone t = false -> view isEOF (reader t) = (l, e) -> (length (rr_pushback (reader t)) <= 1)%nat ->
  (length l < fuel)%nat ->
  drainEvents fuel t = (ds, EOF) <-> errorsIsEOF e = true /\ diffsOf (newSOA t) l ds.
Proof.
  revert t l ds. induction fuel as [|fuel IH]; intros t l ds Hk Hd Hv Hp Hf; [lia|]. cbn [drainEvents]. unfold Next. rewrite Hk.
  destruct (next_cases t l e Hd Hv Hp) as [(r & t' & -> & Hr & He & ->)|[(o & s & removed & n & s' & added & r & rest & t' & -> & Ho & Hs & Hrem & Hn & Hadd & Hr & -> & Hk' & Hn' & Hd' & Hv' & Hp')|(er & t' & -> & Her & Hno)]].
  - split.
    + intros [= <-]. split; [done|by constructor].
    + intros [_ HD]. inversion HD; subst; [done|congruence].
  - destruct (drainEvents fuel t') as [l' e'] eqn:ED.
    assert (length (r :: rest) < fuel)%nat as Hlt by (cbn in Hf |- *; rewrite !length_app in Hf; cbn in Hf; rewrite !length_app in Hf; cbn in Hf; lia).
    rewrite <- Hk' in Hk. rewrite <- Hn'. split.
    + intros [= <- ->]. apply (IH t' (r :: rest)) in ED as [He HD]; try done. split; [done|].
      apply (diffs_sub _ o s removed n s' added (r :: rest)); try done. congruence.
    + intros [He HD]. inversion HD as [|? s0 rem' n' s0' add' rest' ds' Ho' ? Hrem' Hn2 Hadd' HD']; subst; [by destruct removed|].
      pose proof HD' as HD2. apply diffsOf_head in HD2 as (x & y & -> & Hx).
      match goal with E : _ ++ _ = _ ++ _ |- _ => apply split_unique in E as (-> & -> & E); [|first [assumption|eapply serial_isSOA; eassumption]..];
        apply split_unique in E as (-> & -> & ->); [|assumption..] end.
      rewrite Ho in Ho'. rewrite Hn in Hn2. injection Ho' as <-. injection Hn2 as <-.
      rewrite (proj2 (IH t' (r :: rest) ds' Hk Hd' Hv' Hp' Hlt)) in ED by done. by injection ED as <- <-.
  - split; [by intros [= _ ->]|]. intros [He HD]. by destruct (Hno ds HD He).
Qed.

(** C15. The IXFR client reads RFC 1995 exactly.  If the second record is an SOA
    older than the first, in serial arithmetic, the response is incremental,
    and calling Next until it fails yields a list of sub-diffs and then io.EOF
    if and only if the rest of the stream is the encoding of these sub-diffs,
    each between two SOAs with the serials reported, closed by an SOA with the
    new serial and nothing after it.  A stream that is cut off, lacks an SOA
    or goes on after the closing SOA ends in another error. *)
Theorem ixfr_incremental_exact s v i q client r1 s1 r2 s2 l e :
  streamView isEOF v i q s = (r1 :: r2 :: l, e) -> serialOfRecord r1 = Some s1 -> serialOfRecord r2 = Some s2 -> serialIsOlder s2 s1 = true ->
  exists t, init (newReader s v i q) client = Ok t /\ kind t = KindIncremental /\ newSOA t = s1 /\
    forall ds fuel, (S (length l) < fuel)%nat ->
      drainEvents fuel t = (ds, EOF) <-> errorsIsEOF e = true /\ diffsOf s1 (r2 :: l) ds.
Proof.
  intros Hs E1 E2 Hold. pose proof (view_new isEOF s v i q) as Hv. rewrite Hs in Hv. unfold init.
  destruct (Read_cons _ _ _ _ _ Hv) as (rr1 & -> & Hv1 & Hp1). rewrite E1. destruct (Read_cons _ _ _ _ _ Hv1) as (rr2 & -> & Hv2 & Hp2).
  rewrite E2, Hold. eexists. split; [reflexivity|]. split; [done|]. split; [done|]. intros ds fuel Hf.
  assert (rr_pushback rr2 = []) as Hp by (rewrite Hp2, Hp1; done). apply drainEvents_exact; try done.
  - by apply view_Push.
  - cbn. rewrite Hp. done.
Qed.

(** An IXFR response that consists of a newer SOA only, which RFC 1995
    section 2 sends when the differences do not fit and the client has to ask
    again, is reported as "up to date", whatever the client's serial: the
    package documents that kind as a single SOA whose serial equals the
    client's. *)
Theorem ixfr_newer_soa_up_to_date q question soa serial client :
  serialOfRecord soa = Some serial ->
  exists t, init (newReader [Ok (transferMessage q question [soa])] None (id q) question) client = Ok t /\ kind t = KindUpToDate /\
    newSOA t = serial /\ Next t = (Err EOF, t).
Proof.
  intros Es. unfold init. pose proof (view_new isEOF [Ok (transferMessage q question [soa])] None (id q) question) as Hv.
  rewrite (view_messages isEOF q question [[soa]]) in Hv. cbn [concat app] in Hv.
  destruct (Read_cons _ _ _ _ _ Hv) as (rr1 & -> & Hv1 & _). rewrite Es. destruct (Read_nil _ _ _ Hv1) as [rr2 ->].
  eexists. split; [reflexivity|]. done.
Qed.
End IxfrExact.

(** ** Unsigned envelopes *)
Section Unsigned.
Context `{Hmac}.

(** A message an attacker can make: the right ID, no question, no TSIG, any records. *)
Definition forged (i : Z) (rs : list Record_) : Message := mkMessage i flagQR [] rs [] [] zeroEDNS false.
Lemma view_forged eof v i q parts s : v_first v = false -> 0 <= v_unsignedRun v -> v_unsignedRun v + zlen parts <= maxUnsignedAXFREnvelopes ->
  exists v', v_priorMAC v' = v_priorMAC v /\ v_key v' = v_key v /\ v_first v' = false /\
    streamView eof (Some v) i q (map (fun rs => Ok (forged i rs)) parts ++ s) =
    (concat parts ++ fst (streamView eof (Some v') i q s), snd (streamView eof (Some v') i q s)).
Proof.
  revert v. induction parts as [|rs parts IH]; intros v Hf H0 Hr.
  { exists v. cbn [map app concat]. split_and!; try done. apply surjective_pairing. }
  rewrite zlen_cons in Hr. pose proof (zlen_nonneg parts). cbn [map app streamView]. unfold checkEnvelope.
  cbn [newReader rr_wantID rr_wantQ rr_verifier forged id questions flags answers]. rewrite Z.eqb_refl.
  change (negb (RCODE flagQR =? RCODENoError)) with false. cbn [negb]. unfold verify. rewrite Hf. change (messageHasTSIG (forged i rs)) with false. cbn [negb].
  if_false. set (v1 := mkVerifier _ _ _ _ _ _ _). destruct (IH v1) as (v' & E1 & E2 & E3 & ->); [done|cbn; lia|cbn; lia|].
  exists v'. split_and!; try done. cbn [concat fst snd]. by rewrite <- app_assoc.
Qed.

(** Unsigned envelopes of a signed transfer are never authenticated.  After
    any prefix of the stream that leaves the verifier past its first signed
    envelope, up to 99 envelopes without TSIG, carrying arbitrary records, are
    accepted: their records become part of the transfer and the MAC expected
    next is unchanged, so no later signature covers them.  An attacker on the
    path appends records and a closing SOA; the option documents that tampered
    envelopes fail at the next signed boundary. *)
Theorem unsigned_envelopes_unauthenticated v i q soa serial parts s :
  v_first v = false -> v_unsignedRun v = 0 -> zlen parts < maxUnsignedAXFREnvelopes -> serialOfRecord soa = Some serial ->
  Forall (fun r => RType r <> rrtype.SOA) (concat parts) ->
  let stream := map (fun rs => Ok (forged i rs)) parts ++ Ok (forged i [soa]) :: s in
  throughClosing serial (fst (streamView errorsIsEOF (Some v) i q stream)) = (concat parts ++ [soa], true) /\
  exists v', v_priorMAC v' = v_priorMAC v /\ v_key v' = v_key v /\
    fst (streamView errorsIsEOF (Some v) i q stream) = concat parts ++ soa :: fst (streamView errorsIsEOF (Some v') i q s).
Proof.
  intros Hf Hr Hl Es Hns stream.
  replace stream with (map (fun rs => Ok (forged i rs)) (parts ++ [[soa]]) ++ s) by (subst stream; by rewrite map_app, <- app_assoc).
  destruct (view_forged errorsIsEOF v i q (parts ++ [[soa]]) s Hf) as (v' & E1 & E2 & _ & ->); [lia|rewrite zlen_app; change (zlen [[soa]]) with 1; lia|].
  cbn [fst]. rewrite concat_app. cbn [concat]. rewrite app_nil_r, <- app_assoc. cbn [app]. split; [|by exists v'].
  apply throughClosing_app; [done|]. unfold closes. rewrite Es. apply Z.eqb_refl.
Qed.
End Unsigned.

Module SampleDiff.
Definition soaAt (serial : Z) : Record_ :=
  NewRecord Sample.origin Sample.hour (RD_SOA Sample.nsName Sample.origin serial Sample.hour Sample.hour Sample.hour Sample.hour).
Definition host (b : Z) : Record_ := NewRecord Sample.wwwName Sample.hour (Sample.address b).
Definition envelope (rs : list Record_) : res Message := Ok (transferMessage SampleTransfer.q SampleTransfer.question rs).
(** From serial 2^32 - 1 to serial 0, across the wrap, in two messages. *)
Definition stream : MessageStream := [envelope [soaAt 0; soaAt 4294967295; host 1]; envelope [soaAt 0; host 2; soaAt 0]].
Definition verifier : tsigVerifier := mkVerifier SampleKey.key [1] (fun _ => 0) 3 (300 * Second) false 0.
End SampleDiff.

Lemma ixfr_incremental_exact_witness :
  exists t, ixfr.init (H := SampleKey.checksum) (newReader SampleDiff.stream None 5 SampleTransfer.question) 4294967295 = Ok t /\
    drainEvents (H := SampleKey.checksum) 9 t = ([ixfr.diffEvent 4294967295 0 [SampleDiff.host 1] [SampleDiff.host 2]], EOF).
Proof.
  destruct (ixfr_incremental_exact (H := SampleKey.checksum) SampleDiff.stream None 5 SampleTransfer.question 4294967295
    (SampleDiff.soaAt 0) 0 (SampleDiff.soaAt 4294967295) 4294967295 [SampleDiff.host 1; SampleDiff.soaAt 0; SampleDiff.host 2; SampleDiff.soaAt 0] EOF
    eq_refl eq_refl eq_refl eq_refl) as (t & EI & _ & _ & HD).
  exists t. split; [exact EI|]. apply HD; [cbn; lia|]. split; [reflexivity|].
  apply (diffs_sub 0 (SampleDiff.soaAt 4294967295) 4294967295 [SampleDiff.host 1] (SampleDiff.soaAt 0) 0 [SampleDiff.host 2] [SampleDiff.soaAt 0] []);
    [reflexivity|discriminate|reflexivity|reflexivity|reflexivity|]. apply diffs_close. reflexivity.
Defined.

Lemma ixfr_newer_soa_up_to_date_witness :
  exists t, ixfr.init (H := SampleKey.checksum) (newReader [SampleDiff.envelope [SampleDiff.soaAt 9]] None 5 SampleTransfer.question) 7 = Ok t /\
    ixfr.kind t = ixfr.KindUpToDate /\ ixfr.newSOA t = 9 /\ ixfr.Next (H := SampleKey.checksum) t = (Err EOF, t).
Proof. exact (ixfr_newer_soa_up_to_date (H := SampleKey.checksum) SampleTransfer.q SampleTransfer.question (SampleDiff.soaAt 9) 9 7 eq_refl). Defined.

Lemma unsigned_envelopes_unauthenticated_witness :
  throughClosing 7 (fst (streamView (H := SampleKey.checksum) errorsIsEOF (Some SampleDiff.verifier) 5 SampleTransfer.question
    [Ok (forged 5 [SampleDiff.host 66]); Ok (forged 5 [SampleDiff.soaAt 7])])) = ([SampleDiff.host 66; SampleDiff.soaAt 7], true).
Proof.
  refine (proj1 (unsigned_envelopes_unauthenticated (H := SampleKey.checksum) SampleDiff.verifier 5 SampleTransfer.question (SampleDiff.soaAt 7) 7
    [[SampleDiff.host 66]] [] eq_refl eq_refl _ eq_refl _)); [decide_now|]. constructor; [|constructor]. vm_compute. congruence.
Defined.
