(* ===== verification/Handler.v ===== *)
(** * The server framework (src/server.go, server_preflight.go,
      server_request.go, server_udp.go)

    A handler answers through a writer it is handed: it may write messages,
    each time learning whether the write failed, and read the clock.  [prog]
    is that interface as a tree of actions, so that a middleware, which hands
    its inner handler a writer of its own, is a function that rewrites the
    tree.  The writer of the UDP listener at the bottom turns written messages
    into datagrams. *)

From Stdlib Require Import Strings.String.
From S2P Require Import Prelude Name Wire RData RDataNew Message EdnsOptions Netip.
Open Scope Z_scope.
Open Scope list_scope.

(** ** Handlers *)

(** The part of [acidns.ResponseWriter] that does not change. *)
Record ResponseWriter := mkWriter { RemoteAddr : AddrPort; LocalAddr : AddrPort; Network : bytes }.

(** What a handler does: return, write a message and go on with the error of
    the write, or read the clock. *)
Inductive prog (A : Type) : Type :=
  | Ret (a : A)
  | WriteMsg (m : Message) (k : option error -> prog A)
  | TimeNow (k : Z -> prog A).
Arguments Ret {A} a.
Arguments WriteMsg {A} m k.
Arguments TimeNow {A} k.

Fixpoint pbind {A B} (p : prog A) (f : A -> prog B) : prog B :=
  match p with
  | Ret a => f a
  | WriteMsg m k => WriteMsg m (fun e => pbind (k e) f)
  | TimeNow k => TimeNow (fun t => pbind (k t) f)
  end.

Notation "'let!' x := p 'in' k" := (pbind p (fun x => k))
  (at level 10, x pattern, p at level 100, k at level 200,
   format "'[v' 'let!'  x  :=  p  'in' '/' k ']'") : wire_scope.

Definition write (m : Message) : prog (option error) := WriteMsg m Ret.
Definition now : prog Z := TimeNow Ret.

(** The context of a request, as far as it carries data: the raw bytes of the
    message, if the framework attached them. *)
Definition Context_ : Type := option bytes.
Definition RawRequest (ctx : Context_) : option bytes := ctx.
Definition contextWithRawRequest (ctx : Context_) (raw : bytes) : Context_ := Some raw.

(** [acidns.Handler], with a state of type [S] that outlives the request. *)
Definition Handler (S : Type) : Type := Context_ -> ResponseWriter -> Message -> S -> prog S.

(** The messages a handler may write, whatever the answers it gets. *)
Inductive emits {A} : prog A -> Message -> Prop :=
  | emits_here m k : emits (WriteMsg m k) m
  | emits_write m k e m' : emits (k e) m' -> emits (WriteMsg m k) m'
  | emits_now k t m' : emits (k t) m' -> emits (TimeNow k) m'.

(** ** Replies of the framework *)

Definition echoOPT (b : MessageBuilder.t) (q : Message) : MessageBuilder.t :=
  if hasEDNS q then
    match fst (EDNSBuilder.Build (EDNSBuilder.NewEDNSBuilder |> EDNSBuilder.UDPSize 1232
                                    |> EDNSBuilder.DO (do_ (edns q)))) with
    | Err _ => b
    | Ok ed => b |> MessageBuilder.EDNS_ ed
    end
  else b.

Definition writeRefused (q : Message) : prog unit :=
  let b := MessageBuilder.NewMessageBuilder |> MessageBuilder.ID (id q) |> MessageBuilder.Response true
             |> MessageBuilder.RecursionDesired (RecursionDesired (flags q))
             |> MessageBuilder.RCODE RCODERefused in
  let b := match questions q with [] => b | qq :: _ => b |> MessageBuilder.Question_ qq end in
  let b := echoOPT b q in
  match fst (MessageBuilder.Build b) with
  | Err _ =>
      match fst (MessageBuilder.Build (MessageBuilder.NewMessageBuilder |> MessageBuilder.ID (id q)
                   |> MessageBuilder.Response true |> MessageBuilder.RCODE RCODEServFail)) with
      | Ok fb => let! _ := write fb in Ret tt
      | Err _ => Ret tt
      end
  | Ok resp => let! _ := write resp in Ret tt
  end.

(** ** server_preflight.go *)

(** The verdict, with the reply of [PreflightReply]. *)
Inductive PreflightVerdict :=
  | PreflightAccept
  | PreflightDrop
  | PreflightReply (reply : Message).

Definition formErrUDPSize : Z := 1232.

Definition formErrReply (q : Message) : option Message :=
  let f := flags q |> WithResponse true |> WithRecursionAvailable false |> WithRCODE RCODEFormErr in
  let b := MessageBuilder.NewMessageBuilder |> MessageBuilder.ID (id q) |> MessageBuilder.Flags_ f in
  let finish b := match fst (MessageBuilder.Build b) with Ok m => Some m | Err _ => None end in
  if hasEDNS q then
    let e := edns q in
    let size := udpSize e in
    let size := if (size =? 0) || (formErrUDPSize <? size) then formErrUDPSize else size in
    match fst (EDNSBuilder.Build (EDNSBuilder.NewEDNSBuilder |> EDNSBuilder.UDPSize size
                 |> EDNSBuilder.Version (version e) |> EDNSBuilder.DO (do_ e))) with
    | Err _ => None
    | Ok ed => finish (b |> MessageBuilder.EDNS_ ed)
    end
  else finish b.

Definition PreflightRequest (q : Message) : PreflightVerdict :=
  if Response (flags q) then PreflightDrop
  else
    let op := Opcode (flags q) in
    if ((op =? OpcodeQuery) || (op =? OpcodeUpdate) || (op =? OpcodeNotify))
       && negb (zlen (questions q) =? 1)
    then match formErrReply q with None => PreflightDrop | Some reply => PreflightReply reply end
    else PreflightAccept.

(** ** server_udp.go *)

Record udpListenerConfig := mkUDPConfig {
  bufferSize : Z; maxResponseLen : Z; maxInflight : Z; writeTimeout : Z;
  preParseFilter : option (AddrPort -> bool) }.

Inductive UDPListenerOption :=
  | UDPListenerBufferSize (n : Z)
  | UDPListenerMaxResponse (n : Z)
  | UDPListenerMaxInflight (n : Z)
  | UDPListenerWriteTimeout (d : Z)
  | UDPListenerPreParseFilter (f : option (AddrPort -> bool)).

Definition WithUDPListenerMaxResponse (n : Z) : UDPListenerOption :=
  UDPListenerMaxResponse (if n <=? 0 then 1232 else n).

Definition applyUDPOption (cfg : udpListenerConfig) (o : UDPListenerOption) : udpListenerConfig :=
  match o with
  | UDPListenerBufferSize n => mkUDPConfig n (maxResponseLen cfg) (maxInflight cfg) (writeTimeout cfg) (preParseFilter cfg)
  | UDPListenerMaxResponse n =>
      if 0 <? n
      then mkUDPConfig (bufferSize cfg) n (maxInflight cfg) (writeTimeout cfg) (preParseFilter cfg)
      else cfg
  | UDPListenerMaxInflight n => mkUDPConfig (bufferSize cfg) (maxResponseLen cfg) n (writeTimeout cfg) (preParseFilter cfg)
  | UDPListenerWriteTimeout d => mkUDPConfig (bufferSize cfg) (maxResponseLen cfg) (maxInflight cfg) d (preParseFilter cfg)
  | UDPListenerPreParseFilter f => mkUDPConfig (bufferSize cfg) (maxResponseLen cfg) (maxInflight cfg) (writeTimeout cfg) f
  end.

Record UDPServer (S : Type) := mkUDPServer { us_addr : AddrPort; us_handler : Handler S; us_cfg : udpListenerConfig }.
Arguments mkUDPServer {S}.
Arguments us_addr {S}.
Arguments us_handler {S}.
Arguments us_cfg {S}.

Definition NewUDPServer {S} (addr : AddrPort) (h : option (Handler S)) (opts : list UDPListenerOption)
    : res (UDPServer S) :=
  match h with
  | None => Err ErrNilHandler
  | Some h =>
      if negb (AddrPort_IsValid addr) then Err ErrInvalidAddress
      else
        let cfg := mkUDPConfig 4096 1232 4096 (5 * Second) None in
        Ok (mkUDPServer addr h (fold_left applyUDPOption opts cfg))
  end.

(** *** The writer

    [sent] is what went to [pc.WriteTo]; [sock] is the error it returns. *)

Record udpResponseWriter := mkUDPWriter { maxLen : Z; wrote : bool; sent : list bytes }.

(** The reply in place of one that is too long. *)
Definition stripped (m : Message) : MessageBuilder.t :=
  let b := MessageBuilder.NewMessageBuilder |> MessageBuilder.ID (id m)
             |> MessageBuilder.Flags_ (flags m |> WithTruncated true |> WithResponse true
                                         |> WithAuthoritative false |> WithAuthenticData false) in
  let b := match questions m with [] => b | qq :: _ => b |> MessageBuilder.Question_ qq end in
  if hasEDNS m then b |> MessageBuilder.EDNS_ (edns m) else b.

Definition udpWriteMsg (sock : bytes -> option error) (w : udpResponseWriter) (m : Message)
    : udpResponseWriter * option error :=
  if wrote w then (w, Some ErrPlain)
  else
    let buf :=
      let? buf := Pack m in
      if (0 <? maxLen w) && (maxLen w <? zlen buf) then
        let? s := fst (MessageBuilder.Build (stripped m)) in
        Pack s
      else Ok buf in
    match buf with
    | Err e => (w, Some e)
    | Ok buf => (mkUDPWriter (maxLen w) true (sent w ++ [buf]), sock buf)
    end.

(** *** A packet

    [clock] is the sequence of readings of [time.Now], [n] the number of those
    already made. *)

Fixpoint runUDP {A} (sock : bytes -> option error) (clock : nat -> Z) (w : udpResponseWriter) (n : nat)
    (p : prog A) : A * udpResponseWriter * nat :=
  match p with
  | Ret a => (a, w, n)
  | WriteMsg m k => let '(w, e) := udpWriteMsg sock w m in runUDP sock clock w n (k e)
  | TimeNow k => runUDP sock clock w (S n) (k (clock n))
  end.

(** The atomic counters of [UDPController]. *)
Record UDPController := mkUDPController {
  parseDrops : Z; inflightDrops : Z; preFilterDrops : Z; preflightDrops : Z }.

Definition add1 (v : Z) : Z := (v + 1) mod 18446744073709551616.
Definition addParse (c : UDPController) : UDPController :=
  mkUDPController (add1 (parseDrops c)) (inflightDrops c) (preFilterDrops c) (preflightDrops c).
Definition addInflight (c : UDPController) : UDPController :=
  mkUDPController (parseDrops c) (add1 (inflightDrops c)) (preFilterDrops c) (preflightDrops c).
Definition addPreFilter (c : UDPController) : UDPController :=
  mkUDPController (parseDrops c) (inflightDrops c) (add1 (preFilterDrops c)) (preflightDrops c).
Definition addPreflight (c : UDPController) : UDPController :=
  mkUDPController (parseDrops c) (inflightDrops c) (preFilterDrops c) (add1 (preflightDrops c)).

(** The runtime state of a listener that packets change. *)
Record udpState (S : Type) := mkUDPState { ctrl : UDPController; hstate : S; readings : nat }.
Arguments mkUDPState {S}.
Arguments ctrl {S}.
Arguments hstate {S}.
Arguments readings {S}.

(** The payload size granted to a request. *)
Definition maxResp (cfg : udpListenerConfig) (q : Message) : Z :=
  let maxResp := 512 in
  let maxResp := if hasEDNS q && (maxResp <? udpSize (edns q)) then udpSize (edns q) else maxResp in
  if maxResponseLen cfg <? maxResp then maxResponseLen cfg else maxResp.

Definition handlePacket {S} (srv : UDPServer S) (sock : bytes -> option error) (clock : nat -> Z)
    (l : udpState S) (body : bytes) (src : AddrPort) : udpState S * list bytes :=
  match Unpack body with
  | Err _ => (mkUDPState (addParse (ctrl l)) (hstate l) (readings l), [])
  | Ok q =>
      let ctx := contextWithRawRequest None body in
      let w := mkUDPWriter (maxResp (us_cfg srv) q) false [] in
      match PreflightRequest q with
      | PreflightDrop => (mkUDPState (addPreflight (ctrl l)) (hstate l) (readings l), [])
      | PreflightReply reply => (l, sent (fst (udpWriteMsg sock w reply)))
      | PreflightAccept =>
          let '(st, w, n) := runUDP sock clock w (readings l)
            (us_handler srv ctx (mkWriter src (us_addr srv) (str "udp")) q (hstate l)) in
          (mkUDPState (ctrl l) st n, sent w)
      end
  end.

(** *** The read loop

    One step of [udpLoop.run] per event: what [pc.ReadFrom] returned, or a
    handler that ended and gave its slot back. *)

Inductive loopEvent :=
  | ReadFrom (datagram : bytes) (src : option AddrPort)
  | ReadClosed                   (* ctx is done or the socket closed *)
  | ReadTransient                (* netutil.IsAcceptTransient *)
  | ReadFailed (e : error)
  | HandlerDone.

Inductive loopOutcome :=
  | Continue
  | Sleep (d : Z)
  | Dispatch (body : bytes) (src : AddrPort)
  | Stop (e : error).

(** [inflight] is the number of slots of [sem] in use. *)
Record loopState := mkLoop { tempBackoff : Z; inflight : Z; loopCtrl : UDPController }.

Definition readBackoffStart : Z := 5 * 1000000.
Definition readBackoffCap : Z := Second.

Definition loopStep (cfg : udpListenerConfig) (l : loopState) (ev : loopEvent) : loopState * loopOutcome :=
  match ev with
  | HandlerDone => (mkLoop (tempBackoff l) (if 0 <? maxInflight cfg then inflight l - 1 else inflight l) (loopCtrl l), Continue)
  | ReadClosed => (l, Stop ErrServerClosed)
  | ReadFailed e => (l, Stop (ErrWrapped e))
  | ReadTransient =>
      let d := if tempBackoff l =? 0 then readBackoffStart
               else let d := tempBackoff l * 2 in if readBackoffCap <? d then readBackoffCap else d in
      (mkLoop d (inflight l) (loopCtrl l), Sleep d)
  | ReadFrom datagram None => (mkLoop 0 (inflight l) (loopCtrl l), Continue)
  | ReadFrom datagram (Some src) =>
      let body := zslice datagram 0 (bufferSize cfg) in
      if match preParseFilter cfg with Some f => negb (f src) | None => false end
      then (mkLoop 0 (inflight l) (addPreFilter (loopCtrl l)), Continue)
      else if 0 <? maxInflight cfg then
        if inflight l <? maxInflight cfg then (mkLoop 0 (inflight l + 1) (loopCtrl l), Dispatch body src)
        else (mkLoop 0 (inflight l) (addInflight (loopCtrl l)), Continue)
      else (mkLoop 0 (inflight l) (loopCtrl l), Dispatch body src)
  end.
