(* ===== verification/HandlerSound.v ===== *)
(** * The UDP listener: theorems

    What leaves the socket for a datagram that came in, and the accounting of
    the read loop. *)

From Stdlib Require Import Strings.String.
From S2P Require Import Prelude Name Wire RData RDataNew Message EdnsOptions Padding Netip Handler.
Open Scope Z_scope.
Open Scope list_scope.

(** ** Programs *)

Lemma emits_bind {A B} (p : prog A) (f : A -> prog B) m :
  emits (pbind p f) m -> emits p m \/ exists a, emits (f a) m.
Proof.
  induction p as [a|m0 k IH|k IH]; cbn; intros E; [by right; exists a|..].
  - inversion E as [? ?|? ? e ? E'|]; subst; [left; constructor|]. destruct (IH e E') as [?|?]; [left; by econstructor|by right].
  - inversion E as [|? ? ? ? ?|? t ? E']; subst. destruct (IH t E') as [?|?]; [left; by econstructor|by right].
Qed.

Lemma emits_write_inv m m' : emits (write m) m' -> m' = m.
Proof. intros E. inversion E as [|? ? ? ? E'|]; subst; [done|]. inversion E'. Qed.

(** ** The stub *)

Definition questionLen (q : Question) : Z :=
  (if 0 <? zlen (rawName q) then zlen (rawName q) else WireLen (q_name q)) + 4.

(** A reply without records: at most the first question, an OPT record, and
    the truncation bit. *)
Record is_stub (m s : Message) : Prop := {
  stub_id : id s = id m;
  stub_flags : flags s = WithAuthenticData false (WithAuthoritative false (WithResponse true (WithTruncated true (flags m))));
  stub_questions : zlen (questions s) <= 1;
  stub_sections : answers s = [] /\ authorities s = [] /\ additionals s = [];
  stub_edns : hasEDNS s = hasEDNS m /\ (hasEDNS m = true -> edns s = edns m) }.

Lemma stripped_stub m : exists s, fst (MessageBuilder.Build (stripped m)) = Ok s /\ is_stub m s /\ questions s = take 1 (questions m).
Proof.
  unfold stripped. destruct (questions m) as [|q qs], (hasEDNS m) eqn:E; (eexists; split; [reflexivity|]);
    (split; [|done]); (split; cbn; [done|done|done|done|]); rewrite E; done.
Qed.

Lemma packQuestion_len q p : zlen (Packer.buf (packQuestion q p)) = zlen (Packer.buf p) + questionLen q.
Proof.
  unfold packQuestion, questionLen. destruct (0 <? zlen (rawName q)); cbn [Packer.buf]; cbn; [llia|].
  unfold AppendWire, WireLen. destruct (negb (IsValid (q_name q))); llia.
Qed.

(** The length of a message without records. *)
Lemma Pack_stub_len m s d : is_stub m s -> Pack s = Ok d ->
  zlen d = 12 + fold_right (fun q n => questionLen q + n) 0 (questions s) + (if hasEDNS m then 11 + optsLen (opts (edns m)) else 0).
Proof.
  intros [_ _ Hq (Ea & Eu & Ed) [Eh Ee]] Hp. unfold Pack in Hp. rewrite Ea, Eu, Ed in Hp. destruct (_ || _ || _ || _); [done|].
  cbn [packRecords res_bind] in Hp. set (p := packHeader _ _ _) in Hp.
  assert (zlen (Packer.buf p) = 12) as Hh by done. clearbody p.
  assert (zlen (Packer.buf (fold_left (fun p q => packQuestion q p) (questions s) p)) =
    12 + fold_right (fun q n => questionLen q + n) 0 (questions s)) as Hqs.
  { destruct (questions s) as [|q [|q' qs]]; cbn [fold_left fold_right]; [lia| |].
    - rewrite packQuestion_len. lia.
    - rewrite !zlen_cons in Hq. pose proof (zlen_nonneg qs). lia. }
  set (p' := fold_left _ _ _) in *. clearbody p'. rewrite Eh in Hp. destruct (hasEDNS m) eqn:E.
  - pose proof (packOPT_len (edns s) p') as Hl. destruct (packOPT (edns s) p') as [p''|]; [|done]. cbn [res_bind] in Hp.
    destruct (_ <? _); [done|]. injection Hp as <-. rewrite (Ee eq_refl) in Hl. lia.
  - cbn [res_bind] in Hp. destruct (_ <? _); [done|]. injection Hp as <-. lia.
Qed.

(** ** What is sent for a message *)

(** The datagram for [m] under a size limit: the message itself when it fits,
    else its stub. *)
Definition datagram (limit : Z) (m : Message) (d : bytes) : Prop :=
  (Pack m = Ok d /\ (0 < limit -> zlen d <= limit)) \/
  (exists full s, Pack m = Ok full /\ 0 < limit < zlen full /\ is_stub m s /\ questions s = take 1 (questions m) /\ Pack s = Ok d).

Lemma udpWriteMsg_spec sock w m :
  let '(w', e) := udpWriteMsg sock w m in
  (w' = w /\ is_Some e) \/
  (wrote w = false /\ wrote w' = true /\ maxLen w' = maxLen w /\
   exists d, sent w' = sent w ++ [d] /\ datagram (maxLen w) m d).
Proof.
  unfold udpWriteMsg. destruct (wrote w) eqn:Ew; [left; by split|].
  destruct (Pack m) as [buf|e] eqn:Ep; cbn [res_bind]; [|left; by split].
  destruct (stripped_stub m) as (s & Es & Hs & Hq). rewrite Es. cbn [res_bind].
  destruct ((0 <? maxLen w) && (maxLen w <? zlen buf)) eqn:El.
  - destruct (Pack s) as [d|] eqn:Ed; [|left; by split]. right. split; [done|]. split; [done|]. split; [done|].
    exists d. split; [done|]. right. exists buf, s. bool_facts. done.
  - right. split; [done|]. split; [done|]. split; [done|]. exists buf. split; [done|]. left. split; [done|]. intros Hl.
    apply andb_false_iff in El as [El|El]; bool_facts; lia.
Qed.

Lemma runUDP_wrote {A} sock clock w n (p : prog A) : wrote w = true -> (runUDP sock clock w n p).1.2 = w.
Proof.
  intros Hw. revert n. induction p as [a|m k IH|k IH]; intros n; cbn [runUDP]; [done| |apply IH].
  unfold udpWriteMsg. rewrite Hw. apply IH.
Qed.

(** A handler's run sends at most one datagram, for a message it wrote. *)
Lemma runUDP_sent {A} sock clock w n (p : prog A) : wrote w = false ->
  sent (runUDP sock clock w n p).1.2 = sent w \/
  exists m d, emits p m /\ datagram (maxLen w) m d /\ sent (runUDP sock clock w n p).1.2 = sent w ++ [d].
Proof.
  intros Hw. revert n. induction p as [a|m k IH|k IH]; intros n; cbn [runUDP]; [by left| |].
  - pose proof (udpWriteMsg_spec sock w m) as Hs. destruct (udpWriteMsg sock w m) as [w' e].
    destruct Hs as [[-> _]|(_ & Hw' & Hm & d & Ed & Hd)].
    + destruct (IH e n) as [?|(m' & d & He & ?)]; [by left|]. right. exists m', d. split; [by econstructor|done].
    + right. exists m, d. rewrite runUDP_wrote by done. split; [constructor|done].
  - destruct (IH (clock n) (S n)) as [?|(m' & d & He & ?)]; [by left|]. right. exists m', d. split; [by econstructor|done].
Qed.

(** Whatever the handler and the stack around it do, a datagram that comes
    in sends at most one back: nothing for input that does not parse or is a
    response; otherwise the framework's FORMERR or a message the handler
    wrote, within the size granted to the request, or its stub without
    records, whose length depends on the question and the OPT record only. *)
Theorem udp_reply {S} (srv : UDPServer S) (sock : bytes -> option error) (clock : nat -> Z) (l : udpState S)
    (body : bytes) (src : AddrPort) :
  match (handlePacket srv sock clock l body src).2 with
  | [] => True
  | [d] => exists q m, Unpack body = Ok q /\ Response (flags q) = false /\
      (PreflightRequest q = PreflightReply m \/
       PreflightRequest q = PreflightAccept /\
       emits (us_handler srv (Some body) (mkWriter src (us_addr srv) (str "udp")) q (hstate l)) m) /\
      datagram (maxResp (us_cfg srv) q) m d /\
      (0 < maxResponseLen (us_cfg srv) -> zlen d <= Z.max (maxResponseLen (us_cfg srv))
         (12 + fold_right (fun q n => questionLen q + n) 0 (take 1 (questions m))
            + (if hasEDNS m then 11 + optsLen (opts (edns m)) else 0)))
  | _ => False
  end.
Proof.
  unfold handlePacket. destruct (Unpack body) as [q|e]; [|done].
  assert (forall m d, datagram (maxResp (us_cfg srv) q) m d -> 0 < maxResponseLen (us_cfg srv) ->
    zlen d <= Z.max (maxResponseLen (us_cfg srv)) (12 + fold_right (fun q n => questionLen q + n) 0 (take 1 (questions m))
      + (if hasEDNS m then 11 + optsLen (opts (edns m)) else 0))) as Hlen.
  { intros m d Hd Hm. assert (0 < maxResp (us_cfg srv) q <= maxResponseLen (us_cfg srv)) as Hr.
    { unfold maxResp. destruct (hasEDNS q && _) eqn:E; bool_facts; split_if; bool_facts; lia. }
    destruct Hd as [[_ Hd]|(full & s & _ & _ & Hs & Hq & Hp)]; [lia|].
    rewrite (Pack_stub_len m s d Hs Hp), Hq. lia. }
  destruct (PreflightRequest q) as [| |reply] eqn:Epf.
  - assert (Response (flags q) = false) as Hr by (unfold PreflightRequest in Epf; by destruct (Response (flags q))).
    set (w := mkUDPWriter _ false []). set (p := us_handler srv _ _ _ _).
    pose proof (runUDP_sent sock clock w (readings l) p eq_refl) as Hs.
    destruct (runUDP sock clock w (readings l) p) as [[st w'] n]. cbn [fst snd] in *.
    destruct Hs as [->|(m & d & He & Hd & ->)]; [done|]. cbn [app sent w]. exists q, m.
    split; [done|]. split; [done|]. split; [right; by split|]. split; [done|]. by apply Hlen.
  - done.
  - assert (Response (flags q) = false) as Hr by (unfold PreflightRequest in Epf; by destruct (Response (flags q))).
    cbn [snd]. set (w := mkUDPWriter _ false []). pose proof (udpWriteMsg_spec sock w reply) as Hs.
    destruct (udpWriteMsg sock w reply) as [w' e]. cbn [fst]. destruct Hs as [[-> _]|(_ & _ & _ & d & -> & Hd)]; [done|].
    cbn [app sent w]. exists q, reply. split; [done|]. split; [done|]. split; [by left|]. split; [done|]. by apply Hlen.
Qed.

(** ** The read loop *)

(** The states of the loop after [s] handlers were started, [e] of them ended
    and [n] datagrams were received from a UDP address.  A handler ends after
    it was started. *)
Inductive loopReach (cfg : udpListenerConfig) : loopState -> Z -> Z -> Z -> Prop :=
  | reach_start : loopReach cfg (mkLoop 0 0 (mkUDPController 0 0 0 0)) 0 0 0
  | reach_step l s e n ev l' o : loopReach cfg l s e n ->
      (ev = HandlerDone -> e < s) -> loopStep cfg l ev = (l', o) -> (forall err, o <> Stop err) ->
      loopReach cfg l'
        (s + match o with Dispatch _ _ => 1 | _ => 0 end)
        (e + match ev with HandlerDone => 1 | _ => 0 end)
        (n + match ev with ReadFrom _ (Some _) => 1 | _ => 0 end).

(** Every datagram received is dispatched to a handler or counted as
    dropped, the handlers in flight are those started and not ended and never
    exceed the configured number, and the pause after a transient error is at
    most a second. *)
Theorem udp_loop_accounting (cfg : udpListenerConfig) (l : loopState) (s e n : Z) :
  loopReach cfg l s e n -> n < 2 ^ 64 ->
  0 <= e <= s /\ n = s + preFilterDrops (loopCtrl l) + inflightDrops (loopCtrl l) /\
  (0 < maxInflight cfg -> inflight l = s - e /\ inflight l <= maxInflight cfg) /\
  0 <= tempBackoff l <= Second.
Proof.
  intros Hr. enough (n < 2 ^ 64 -> 0 <= preFilterDrops (loopCtrl l) /\ 0 <= inflightDrops (loopCtrl l) /\
    0 <= e <= s /\ n = s + preFilterDrops (loopCtrl l) + inflightDrops (loopCtrl l) /\
    (0 < maxInflight cfg -> inflight l = s - e /\ inflight l <= maxInflight cfg) /\ 0 <= tempBackoff l <= Second) as H by (intros Hn; by apply H).
  induction Hr as [|l s e n ev l' o Hr IH Hd Hs Ho]; intros Hn; [cbn; unfold Second; lia|].
  assert (forall v, 0 <= v -> v < 2 ^ 64 - 1 -> add1 v = v + 1) as Hadd by (intros v H0 H1; unfold add1; apply Z.mod_small; lia).
  destruct ev as [dg [src|]| | |err|]; cbn [loopStep] in Hs.
  - specialize (IH ltac:(lia)). destruct IH as (I1 & I2 & I3 & I4 & I5 & I6).
    assert (preFilterDrops (loopCtrl l) < 2 ^ 64 - 1 /\ inflightDrops (loopCtrl l) < 2 ^ 64 - 1) as [B1 B2] by lia.
    unfold addPreFilter, addInflight in Hs. rewrite !Hadd in Hs by lia.
    repeat (split_if; bool_facts); injection Hs as <- <-; cbn [loopCtrl preFilterDrops inflightDrops tempBackoff inflight];
      unfold Second; repeat split; try lia; intros; specialize (I5 ltac:(lia)); lia.
  - injection Hs as <- <-. specialize (IH ltac:(lia)). cbn [loopCtrl tempBackoff inflight]. unfold Second in *. intuition lia.
  - injection Hs as <- <-. by destruct (Ho ErrServerClosed).
  - injection Hs as <- <-. specialize (IH ltac:(lia)). cbn [loopCtrl tempBackoff inflight]. destruct IH as (I1 & I2 & I3 & I4 & I5 & I6).
    rewrite !Z.add_0_r. split_and!; try done; unfold readBackoffStart, readBackoffCap, Second in *; repeat split_if; bool_facts; lia.
  - injection Hs as <- <-. by destruct (Ho (ErrWrapped err)).
  - injection Hs as <- <-. specialize (Hd eq_refl). specialize (IH ltac:(lia)). cbn [loopCtrl tempBackoff inflight].
    destruct IH as (I1 & I2 & I3 & I4 & I5 & I6). rewrite !Z.add_0_r. split_and!; try done; try lia.
    intros Hm. rewrite (proj2 (Z.ltb_lt 0 _)) by done. specialize (I5 Hm). lia.
Qed.

Lemma udp_loop_accounting_witness :
  let cfg := mkUDPConfig 4096 1232 1 0 None in
  let src := mkAddrPort (Addr4 [192; 0; 2; 1]) 53 in
  let l := mkLoop 0 1 (mkUDPController 0 1 0 0) in
  0 <= 0 <= 1 /\ 2 = 1 + preFilterDrops (loopCtrl l) + inflightDrops (loopCtrl l) /\
  (0 < maxInflight cfg -> inflight l = 1 - 0 /\ inflight l <= maxInflight cfg) /\ 0 <= tempBackoff l <= Second.
Proof.
  cbn zeta. apply (udp_loop_accounting (mkUDPConfig 4096 1232 1 0 None) (mkLoop 0 1 (mkUDPController 0 1 0 0)) 1 0 2); [|done].
  set (ev := ReadFrom [1; 2] (Some (mkAddrPort (Addr4 [192; 0; 2; 1]) 53))).
  apply (reach_step _ (mkLoop 0 1 (mkUDPController 0 0 0 0)) 1 0 1 ev _ Continue); [|done|done|done].
  apply (reach_step _ (mkLoop 0 0 (mkUDPController 0 0 0 0)) 0 0 0 ev _ (Dispatch [1; 2] (mkAddrPort (Addr4 [192; 0; 2; 1]) 53)));
    [constructor|done|done|done].
Defined.
