(* ===== verification/RateLimit.v ===== *)
(** * Token buckets (src/internal/shardbucket, src/middleware_ratelimit.go)

    The sharded map of buckets that the two limiters share, and the limiter of
    queries per source.

    A float64 is represented by the rational it denotes; each arithmetic
    operation is the exact one followed by the rounding [rnd] of the class
    [Float64], and a comparison is exact.  Infinities and NaN, which no finite
    configuration produces, are not represented.  The key of a bucket is the
    address or prefix itself instead of its text. *)

From Stdlib Require Import QArith.
From S2P Require Import Prelude Name Wire RData RDataNew Message EdnsOptions Netip Handler.
Open Scope Z_scope.

(** ** float64 *)

(** Rounding to the nearest float64, and the conversion [int64(x)], which
    truncates in range and is unspecified otherwise. *)
Class Float64 := { rnd : Q -> Q; toInt64 : Q -> Z }.

Section Float.
Context `{Float64}.

Definition fofZ (z : Z) : Q := rnd (inject_Z z).
Definition fadd (x y : Q) : Q := rnd (x + y)%Q.
Definition fsub (x y : Q) : Q := rnd (x - y)%Q.
Definition fmul (x y : Q) : Q := rnd (x * y)%Q.
Definition fdiv (x y : Q) : Q := rnd (x / y)%Q.
Definition fle (x y : Q) : bool := Qle_bool x y.
Definition flt (x y : Q) : bool := negb (Qle_bool y x).

(** The wrap-around of int64 arithmetic. *)
Definition int64 (v : Z) : Z := (v + 9223372036854775808) mod 18446744073709551616 - 9223372036854775808.

(** [d.Seconds()] *)
Definition Seconds (d : Z) : Q := fadd (fofZ (Z.quot d Second)) (fdiv (fofZ (Z.rem d Second)) (fofZ Second)).
End Float.

(** ** shardbucket *)

Definition NumShards : Z := 64.

(** A pool: the maps of buckets of its shards. *)
Abbreviation Pool K V := (list (gmap K V)).

(** [maphash.String] under the pool's seed. *)
Class MapHash (K : Type) := { maphash : K -> Z }.

Section Shards.
Context {K V : Type} `{Countable K} `{MapHash K}.

Definition New : Pool K V := replicate (Z.to_nat NumShards) ∅.
Definition shardIndex (k : K) : nat := Z.to_nat (Z.land (maphash k) (NumShards - 1)).
Definition ShardFor (p : Pool K V) (k : K) : gmap K V := default ∅ (p !! shardIndex k).
(** The pool after the shard of [k] changed. *)
Definition setShard (p : Pool K V) (k : K) (sh : gmap K V) : Pool K V := <[shardIndex k := sh]> p.
Definition Len (p : Pool K V) : Z := fold_left (fun n (sh : gmap K V) => n + Z.of_nat (size sh)) p 0.
End Shards.

Definition PerShardCap (totalCap : Z) : Z :=
  if totalCap <=? 0 then 0 else (totalCap + NumShards - 1) / NumShards.

(** The first of the entries in range order whose time is least: the loop over
    [oldestKey] and [oldestTime]. *)
Definition oldestStep {K V} (updated : V -> Z) (acc : option (K * Z)) (kv : K * V) : option (K * Z) :=
  match acc with
  | None => Some (kv.1, updated kv.2)
  | Some (_, t) => if updated kv.2 <? t then Some (kv.1, updated kv.2) else acc
  end.
Definition oldest {K V} (updated : V -> Z) (l : list (K * V)) : option (K * Z) :=
  fold_left (oldestStep updated) l None.

(** ** The limiter *)

Record bucket := mkBucket { tokens : Q; updated : Z }.

(** The text of a bucket's key: an address, or a prefix. *)
Inductive Key := KeyAddr (a : Addr) | KeyPrefix (p : Prefix).

#[export] Instance Key_eq_dec : EqDecision Key.
Proof. solve_decision. Defined.
#[export] Instance Prefix_countable : Countable Prefix.
Proof.
  refine (inj_countable' (fun p => (pfx_addr p, pfx_bits p)) (fun '(a, b) => PrefixFrom a b) _).
  by intros [].
Defined.
#[export] Instance Key_countable : Countable Key.
Proof.
  refine (inj_countable' (fun k => match k with KeyAddr a => inl a | KeyPrefix p => inr p end)
            (fun s => match s with inl a => KeyAddr a | inr p => KeyPrefix p end) _).
  by intros [].
Defined.

Inductive RateLimitOption :=
  | RateLimitQPS (qps : Q) | RateLimitBurst (n : Z) | RateLimitDrop (v : bool)
  | RateLimitV4Prefix (maskBits : Z) | RateLimitV6Prefix (maskBits : Z) | RateLimitMaxKeys (n : Z).

Record rateLimitConfig := mkRLConfig {
  c_qps : Q; c_burst : Z; c_drop : bool; c_v4Prefix : Z; c_v6Prefix : Z; c_maxKeys : Z }.

Definition applyRateLimitOption (c : rateLimitConfig) (o : RateLimitOption) : rateLimitConfig :=
  match o with
  | RateLimitQPS v => mkRLConfig v (c_burst c) (c_drop c) (c_v4Prefix c) (c_v6Prefix c) (c_maxKeys c)
  | RateLimitBurst v => mkRLConfig (c_qps c) v (c_drop c) (c_v4Prefix c) (c_v6Prefix c) (c_maxKeys c)
  | RateLimitDrop v => mkRLConfig (c_qps c) (c_burst c) v (c_v4Prefix c) (c_v6Prefix c) (c_maxKeys c)
  | RateLimitV4Prefix v => mkRLConfig (c_qps c) (c_burst c) (c_drop c) v (c_v6Prefix c) (c_maxKeys c)
  | RateLimitV6Prefix v => mkRLConfig (c_qps c) (c_burst c) (c_drop c) (c_v4Prefix c) v (c_maxKeys c)
  | RateLimitMaxKeys v => mkRLConfig (c_qps c) (c_burst c) (c_drop c) (c_v4Prefix c) (c_v6Prefix c) v
  end.

Definition clampPrefix (maskBits upper : Z) : Z :=
  if maskBits <? 0 then 0 else if upper <? maskBits then upper else maskBits.

(** The fields of [limiter] that do not change; its pool is the state. *)
Record limiter := mkLimiter {
  qps : Q; burst : Q; drop_ : bool; v4Prefix : Z; v6Prefix : Z; maxKeys : Z }.

Section Limiter.
Context `{Float64} `{MapHash Key} `{MapRange}.

Definition NewRateLimit (opts : list RateLimitOption) : limiter :=
  let c := fold_left applyRateLimitOption opts (mkRLConfig (inject_Z 10) 20 false 0 0 100000) in
  mkLimiter (c_qps c) (fofZ (c_burst c)) (c_drop c) (clampPrefix (c_v4Prefix c) 32)
    (clampPrefix (c_v6Prefix c) 128) (PerShardCap (c_maxKeys c)).

Definition key_ (l : limiter) (src : Addr) : Key :=
  let bits := if Is6 src && negb (Is4In6 src) then v6Prefix l else v4Prefix l in
  if bits <=? 0 then KeyAddr src
  else match Addr_Prefix src bits with
  | Err _ => KeyAddr src
  | Ok pfx => KeyPrefix pfx
  end.

(** [time.Duration(burst/rate*float64(time.Second)) + time.Second] *)
Definition idleFor (burst rate : Q) : Z := int64 (toInt64 (fmul (fdiv burst rate) (fofZ Second)) + Second).

Definition evictLocked (l : limiter) (sh : gmap Key bucket) (now : Z) : gmap Key bucket :=
  let sh := if flt 0 (qps l)
            then let threshold := now - idleFor (burst l) (qps l) in
                 filter (fun kv => negb (updated kv.2 <? threshold)) sh
            else sh in
  if (maxKeys l <=? 0) || (Z.of_nat (size sh) <? maxKeys l) then sh
  else match oldest updated (mapRange sh) with
  | None => sh
  | Some (k, _) => delete k sh
  end.

(** [tokens += elapsed * rate], at most [burst]. *)
Definition refill (burst rate tokens elapsed : Q) : Q :=
  let t := fadd tokens (fmul elapsed rate) in
  if flt burst t then burst else t.

(** The critical section of [allow]: the verdict and the shard afterwards. *)
Definition allowShard (l : limiter) (sh : gmap Key bucket) (k : Key) (now : Z) : bool * gmap Key bucket :=
  let '(b, sh) :=
    match sh !! k with
    | Some b => (b, sh)
    | None =>
        let sh := if (0 <? maxKeys l) && (maxKeys l <=? Z.of_nat (size sh)) then evictLocked l sh now else sh in
        (mkBucket (burst l) now, sh)
    end in
  let t := refill (burst l) (qps l) (tokens b) (Seconds (timeSub now (updated b))) in
  if flt t 1 then (false, <[k := mkBucket t now]> sh)
  else (true, <[k := mkBucket (fsub t 1) now]> sh).

Definition allow (l : limiter) (p : Pool Key bucket) (src : Addr) (now : Z) : bool * Pool Key bucket :=
  let k := key_ l src in
  let '(ok, sh) := allowShard l (ShardFor p k) k now in
  (ok, setShard p k sh).

(** [limiter.ServeDNS]: the inner handler's state and the pool. *)
Definition rateLimitServe {S} (l : limiter) (inner : Handler S) : Handler (S * Pool Key bucket) :=
  fun ctx w q '(s, p) =>
    let! t := now in
    let '(ok, p) := allow l p (Unmap (ap_addr (RemoteAddr w))) t in
    if negb ok then
      if drop_ l then Ret (s, p)
      else let! _ := writeRefused q in Ret (s, p)
    else
      let! s := inner ctx w q s in
      Ret (s, p).
End Limiter.
