(* ===== verification/RateSound.v ===== *)
(** * Token buckets: theorems

    What the limiters of RateLimit.v and Rrl.v promise: a bound on the number
    of requests admitted in a window of time, for rounded arithmetic and any
    interleaving of the callers' clock readings, and a bound on the memory. *)

From Stdlib Require Import QArith Qabs Lqa.
From S2P Require Import Prelude Name Wire RData RDataNew Message EdnsOptions Netip Handler RateLimit.
Open Scope Z_scope.

(** ** What is used of float64

    Rounding is monotone, exact on the integers of 53 bits, and the error is
    at most half a unit in the last place -- here weakened to a multiple of
    [|x| + 1], which covers subnormal results, and required of magnitudes that
    cannot overflow.  The conversion to int64 truncates when in range. *)
Definition ulp : Q := 1 # 9007199254740992.
Definition fmax : Q := inject_Z (2 ^ 1000).

Class Float64Laws `{Float64} := {
  rnd_mono x y : (x <= y)%Q -> (rnd x <= rnd y)%Q;
  rnd_int z : Z.abs z <= 2 ^ 53 -> (rnd (inject_Z z) == inject_Z z)%Q;
  rnd_error x : (Qabs x <= fmax)%Q -> (Qabs (rnd x - x) <= ulp * (Qabs x + 1))%Q;
  toInt64_trunc x : (Qabs x < inject_Z (2 ^ 63))%Q -> toInt64 x = Z.quot (Qnum x) (Zpos (Qden x)) }.

(** Exact arithmetic is an instance. *)
#[local] Instance exactFloat : Float64 := {| rnd := fun x => x; toInt64 := fun x => Z.quot (Qnum x) (Zpos (Qden x)) |}.
#[local] Instance exactFloat_laws : Float64Laws.
Proof.
  split; unfold rnd, toInt64, exactFloat; [done|done| |done].
  intros x _. assert (x - x == 0)%Q as E by ring. rewrite E. change (Qabs 0) with 0%Q. pose proof (Qabs_nonneg x). apply Qmult_le_0_compat; [done|lra].
Qed.

Section Rounding.
Context `{Float64Laws}.
Open Scope Q_scope.

#[export] Instance rnd_proper : Proper (Qeq ==> Qeq) rnd.
Proof. intros x y E. apply Qle_antisym; apply rnd_mono; rewrite E; apply Qle_refl. Qed.

Lemma rnd_near x m : - m <= x <= m -> m <= fmax ->
  x - ulp * (m + 1) <= rnd x <= x + ulp * (m + 1).
Proof.
  intros Hx Hm. assert (Qabs x <= m) as Ha by (apply Qabs_Qle_condition; lra).
  pose proof (rnd_error x ltac:(lra)) as E. apply Qabs_Qle_condition in E. unfold ulp in *. lra.
Qed.

Lemma rnd_nonneg x : 0 <= x -> 0 <= rnd x.
Proof. intros Hx. rewrite <- (rnd_int 0) by (cbn; lia). by apply rnd_mono. Qed.

Lemma fofZ_exact z : (Z.abs z <= 2 ^ 53)%Z -> fofZ z == inject_Z z.
Proof. apply rnd_int. Qed.

(** A duration in seconds, exactly. *)
Definition seconds (d : Z) : Q := inject_Z d / inject_Z Second.

Lemma seconds_split d : inject_Z (Z.quot d Second) + inject_Z (Z.rem d Second) / inject_Z Second == seconds d.
Proof.
  unfold seconds. rewrite (Z.quot_rem' d Second) at 3. rewrite inject_Z_plus, inject_Z_mult.
  field. change (inject_Z Second) with (1000000000 # 1). discriminate.
Qed.

Lemma seconds_le a b : (a <= b)%Z -> seconds a <= seconds b.
Proof. intros Hab. unfold seconds. apply Qmult_le_r; [done|]. by rewrite <- Zle_Qle. Qed.

Lemma seconds_sub a b : seconds (a - b) == seconds a - seconds b.
Proof. unfold seconds. unfold Z.sub. rewrite inject_Z_plus, inject_Z_opp. field. discriminate. Qed.
End Rounding.

Section Refill.
Context `{Float64Laws}.
Open Scope Q_scope.

(** A bound on rates and times that keeps all products below [fmax]. *)
Definition big : Q := inject_Z (2 ^ 900).
Lemma big_fmax : 4 * big + 1 <= fmax.
Proof. done. Qed.
Lemma big_pos : 1 <= big.
Proof. done. Qed.

(** [Seconds] of a duration of at most [W] seconds is off by a few units. *)
Lemma Seconds_near d W : (- 2 ^ 63 <= d < 2 ^ 63)%Z -> - W <= seconds d <= W -> W <= big ->
  seconds d - ulp * (W + 4) <= Seconds d <= seconds d + ulp * (W + 4).
Proof.
  intros Hd HW HWm. unfold Seconds, fadd, fdiv.
  assert (Z.abs (Z.quot d Second) <= 2 ^ 53 /\ Z.abs (Z.rem d Second) <= 2 ^ 53)%Z as [Hq Hr].
  { unfold Second. Z.to_euclidean_division_equations. lia. }
  rewrite !fofZ_exact by (try done; unfold Second; lia).
  set (r := inject_Z (Z.rem d Second) / inject_Z Second).
  assert (- (1) <= r <= 1) as Hr1.
  { assert (-1000000000 < Z.rem d Second < 1000000000)%Z as [H1 H2] by (unfold Second; Z.to_euclidean_division_equations; lia).
    unfold r. split.
    - apply Qle_shift_div_l; [done|]. change (inject_Z (-1000000000) <= inject_Z (Z.rem d Second)).
      rewrite <- Zle_Qle. lia.
    - apply Qle_shift_div_r; [done|]. change (inject_Z (Z.rem d Second) <= inject_Z 1000000000).
      rewrite <- Zle_Qle. lia. }
  pose proof (rnd_near r 1 Hr1 ltac:(done)) as Er. pose proof (seconds_split d) as Es. fold r in Es.
  set (q := inject_Z (Z.quot d Second)) in *. clearbody q r. set (T := seconds d) in *. clearbody T.
  assert (0 <= W) by lra. unfold ulp in *.
  assert (W + 1 <= fmax) as Hm by (pose proof big_fmax; pose proof big_pos; lra).
  assert (- (W + 1) <= q + rnd r) as X1 by lra. assert (q + rnd r <= W + 1) as X2 by lra.
  pose proof (rnd_near (q + rnd r) (W + 1) (conj X1 X2) Hm) as E2.
  unfold ulp in *. lra.
Qed.

(** The magnitude of everything in a window of [W] seconds, and the rounding
    error of one call. *)
Definition magnitude (burst rate W : Q) : Q := burst + rate * (W + 1) + 2.
Definition slack (burst rate W : Q) : Q := 16 * ulp * magnitude burst rate W.

Lemma refill_near burst rate W t d :
  0 <= burst -> 0 <= rate -> 0 <= W -> W <= big -> magnitude burst rate W <= big ->
  (- 2 ^ 63 <= d < 2 ^ 63)%Z -> - W <= seconds d <= W ->
  - magnitude burst rate W <= t <= magnitude burst rate W ->
  let x := fadd t (fmul (Seconds d) rate) in
  let e := 12 * ulp * magnitude burst rate W in
  t + rate * seconds d - e <= x <= t + rate * seconds d + e.
Proof.
  intros Hb Hr HW0 HWm Hm Hd Hs Ht x e. pose proof (Seconds_near d W Hd Hs HWm) as Es.
  set (T := seconds d) in *. set (S := Seconds d) in *. set (B := magnitude burst rate W) in *.
  assert (B == burst + rate * W + rate + 2) as EB by (unfold B, magnitude; ring).
  assert (0 <= rate * W) as HrW by (by apply Qmult_le_0_compat).
  assert (rate * (W + 4) <= 4 * B) as H4 by lra.
  assert (- (rate * W) <= rate * T <= rate * W) as HT.
  { split; [setoid_replace (- (rate * W)) with (rate * - W) using relation Qeq by ring|];
      rewrite !(Qmult_comm rate); apply Qmult_le_compat_r; lra. }
  assert (rate * T - ulp * (4 * B) <= S * rate <= rate * T + ulp * (4 * B)) as HS.
  { assert (ulp * (rate * (W + 4)) <= ulp * (4 * B)) by (unfold ulp in *; lra).
    assert ((T - ulp * (W + 4)) * rate <= S * rate <= (T + ulp * (W + 4)) * rate) as E by (split; apply Qmult_le_compat_r; lra).
    rewrite !Qmult_plus_distr_l in E || idtac.
    assert ((T - ulp * (W + 4)) * rate == rate * T - ulp * (rate * (W + 4))) as E1 by ring.
    assert ((T + ulp * (W + 4)) * rate == rate * T + ulp * (rate * (W + 4))) as E2 by ring. lra. }
  pose proof big_fmax as Hf. pose proof big_pos as Hp.
  unfold ulp in *.
  pose proof (rnd_near (S * rate) (2 * B) ltac:(lra) ltac:(lra)) as Ex.
  unfold ulp in Ex. clear Es H4 Hs. clearbody T S B.
  assert (- (4 * B) <= t + rnd (S * rate)) as X1 by lra. 
  assert (t + rnd (S * rate) <= 4 * B) as X2 by lra. 
  pose proof (rnd_near (t + rnd (S * rate)) (4 * B) (conj X1 X2) ltac:(lra)) as Ey.
  unfold x, e, fadd, fmul. unfold ulp in *. lra.
Qed.
End Refill.

(** ** One bucket *)

(** The state of a bucket after a call, and the verdict. *)
Definition spend `{Float64} (burst rate : Q) (b : Q * Z) (now : Z) : bool * (Q * Z) :=
  let t := refill burst rate b.1 (Seconds (timeSub now b.2)) in
  if flt t 1 then (false, (t, now)) else (true, (fsub t 1, now)).

Section Bound.
Context `{Float64Laws}.
Context (burst rate : Q) (lo hi : Z).
Let W : Q := seconds (hi - lo).
Let δ : Q := slack burst rate W.
Hypothesis Hburst : (0 <= burst)%Q.
Hypothesis Hrate : (0 <= rate)%Q.
Hypothesis Hwindow : 0 <= hi - lo < 2 ^ 63.
Hypothesis Hmagnitude : (magnitude burst rate W <= big)%Q.
Open Scope Q_scope.

(** After [i] calls in the window, [cnt] of them admitted. *)
Record bucket_inv (i cnt : Z) (b : Q * Z) : Prop := {
  bi_time : (lo <= b.2 <= hi)%Z;
  bi_burst : b.1 <= burst;
  bi_spent : b.1 + inject_Z cnt <= burst + rate * seconds (b.2 - lo) + inject_Z i * δ;
  bi_low : - (rate * seconds (hi - b.2)) - inject_Z i * δ <= b.1;
  bi_count : inject_Z cnt <= burst + rate * W + inject_Z i * δ }.

Lemma flt_spec x y : flt x y = true <-> x < y.
Proof. unfold flt. rewrite negb_true_iff. rewrite <- not_true_iff_false, Qle_bool_iff. split; [apply Qnot_le_lt | apply Qlt_not_le]. Qed.
Lemma flt_false x y : flt x y = false <-> y <= x.
Proof. unfold flt. rewrite negb_false_iff. apply Qle_bool_iff. Qed.

Lemma W_nonneg : 0 <= W.
Proof. apply (Qle_trans _ (seconds 0)); [done|]. apply seconds_le. lia. Qed.

Lemma rateW_mono a b : (a <= b)%Z -> rate * seconds a <= rate * seconds b.
Proof. intros Hab. rewrite !(Qmult_comm rate). apply Qmult_le_compat_r; [by apply seconds_le|done]. Qed.

Lemma window_facts : 0 <= W /\ 0 <= rate * W /\ magnitude burst rate W == burst + rate * W + rate + 2 /\
  δ == 16 * ulp * magnitude burst rate W /\ 0 <= δ.
Proof.
  pose proof W_nonneg as HW. assert (0 <= rate * W) as HrW by (by apply Qmult_le_0_compat).
  assert (magnitude burst rate W == burst + rate * W + rate + 2) as EB by (unfold magnitude; ring).
  assert (δ == 16 * ulp * magnitude burst rate W) as Eδ by (unfold δ, slack; ring). unfold ulp in *.
  repeat split; lra.
Qed.

Lemma inject_Z_nonneg z : (0 <= z)%Z -> 0 <= inject_Z z.
Proof. intros Hz. change 0 with (inject_Z 0). by rewrite <- Zle_Qle. Qed.

Lemma rate_seconds_nonneg d : (0 <= d)%Z -> 0 <= rate * seconds d.
Proof. intros Hd. apply Qmult_le_0_compat; [done|]. apply (Qle_trans _ (seconds 0)); [done|]. by apply seconds_le. Qed.

(** What a refill does to a bucket of the window. *)
Lemma refill_inv i cnt b now : (0 <= i)%Z -> inject_Z (i + 1) * δ <= 1 -> (lo <= now <= hi)%Z -> bucket_inv i cnt b ->
  let t := refill burst rate b.1 (Seconds (timeSub now b.2)) in
  let e := 12 * ulp * magnitude burst rate W in
  t <= burst /\ t <= b.1 + rate * seconds (now - b.2) + e /\
  (t == burst \/ b.1 + rate * seconds (now - b.2) - e <= t).
Proof.
  intros Hi Hd Hn I t e. destruct I as [It Ib Is Il Ic]. destruct window_facts as (HW & HrW & EB & Eδ & Hd0).
  assert (timeSub now b.2 = now - b.2)%Z as Et by (unfold timeSub; lia).
  assert (- W <= seconds (now - b.2) <= W) as HT.
  { split; [|apply seconds_le; lia]. unfold W. assert (- seconds (hi - lo) == seconds (lo - hi)) as E by (rewrite !seconds_sub; ring).
    rewrite E. apply seconds_le; lia. }
  assert (rate * seconds (hi - b.2) <= rate * W) as Hlow by (apply rateW_mono; lia).
  assert (inject_Z i * δ <= 1) as Hid.
  { rewrite inject_Z_plus in Hd. change (inject_Z 1) with 1 in Hd. lra. }
  assert (W <= big) as HWb.
  { unfold W, seconds. apply Qle_shift_div_r; [done|]. apply (Qle_trans _ (inject_Z (2 ^ 63))); [rewrite <- Zle_Qle; lia|done]. }
  pose proof (refill_near burst rate W b.1 (now - b.2) Hburst Hrate HW HWb Hmagnitude ltac:(lia) HT ltac:(lra)) as Hx.
  cbn zeta in Hx. fold e in Hx. unfold t, refill. rewrite Et. set (x := fadd _ _) in *.
  destruct (flt burst x) eqn:E; [apply flt_spec in E | apply flt_false in E]; repeat split; try lra; (by left) || right; lra.
Qed.

(** The token taken, when there is one. *)
Lemma take_token t : 1 <= t <= burst -> δ <= 1 ->
  0 <= fsub t 1 <= burst /\ t - 1 - 4 * ulp * magnitude burst rate W <= fsub t 1 <= t - 1 + 4 * ulp * magnitude burst rate W.
Proof.
  intros Ht Hd. destruct window_facts as (HW & HrW & EB & Eδ & Hd0).
  unfold fsub. pose proof (rnd_nonneg (t - 1) ltac:(lra)) as H0'. pose proof big_fmax. pose proof big_pos.
  pose proof (rnd_near (t - 1) burst ltac:(lra) ltac:(lra)) as E. unfold ulp in *. lra.
Qed.

Lemma spend_inv i cnt b now : (0 <= i)%Z -> inject_Z (i + 1) * δ <= 1 -> (lo <= now <= hi)%Z -> bucket_inv i cnt b ->
  bucket_inv (i + 1) (cnt + Z.b2z (spend burst rate b now).1) (spend burst rate b now).2.
Proof.
  intros Hi Hd Hn I. destruct (refill_inv i cnt b now Hi Hd Hn I) as (T1 & T2 & T3).
  destruct I as [It Ib Is Il Ic]. unfold spend. set (t := refill _ _ _ _) in *. clearbody t.
  destruct window_facts as (HW & HrW & EB & Eδ & Hd0).
  assert (inject_Z (i + 1) * δ == inject_Z i * δ + δ) as Ei by (rewrite inject_Z_plus; change (inject_Z 1) with 1; ring).
  assert (0 <= inject_Z i * δ) as Hid.
  { apply Qmult_le_0_compat; [by apply inject_Z_nonneg|done]. }
  assert (rate * seconds (now - lo) == rate * seconds (b.2 - lo) + rate * seconds (now - b.2)) as E1 by (rewrite !seconds_sub; ring).
  assert (rate * seconds (hi - now) == rate * seconds (hi - b.2) - rate * seconds (now - b.2)) as E2 by (rewrite !seconds_sub; ring).
  pose proof (rate_seconds_nonneg (hi - now) ltac:(lia)) as H2.
  assert (rate * seconds (now - lo) <= rate * W) as H3 by (apply rateW_mono; lia).
  assert (12 * ulp * magnitude burst rate W <= δ) as He by (unfold ulp in *; lra).
  destruct (flt t 1) eqn:E; cbn [fst snd Z.b2z].
  - rewrite Z.add_0_r. split; cbn [fst snd]; [lia|lra|lra|lra|lra].
  - apply flt_false in E. pose proof (take_token t ltac:(lra) ltac:(lra)) as [F1 F2].
    split; cbn [fst snd]; rewrite ?inject_Z_plus; change (inject_Z 1) with 1; [lia|lra|lra|lra|unfold ulp in *; lra].
Qed.

(** The bucket the first call of the window finds: its own, or one left with
    a balance by calls before. *)
Definition bucket_start (b : Q * Z) (now : Z) : Prop := 0 <= b.1 <= burst /\ (b.2 <= now)%Z.

Lemma refill_start b now : bucket_start b now ->
  0 <= refill burst rate b.1 (Seconds (timeSub now b.2)) <= burst.
Proof.
  intros [Hb Ht]. unfold refill. set (x := fadd _ _).
  assert (0 <= Seconds (timeSub now b.2)) as Hs.
  { assert (0 <= timeSub now b.2)%Z as H0' by (unfold timeSub; lia). set (d := timeSub _ _) in *.
    unfold Seconds, fadd, fdiv. apply rnd_nonneg.
    assert (forall z, (0 <= z)%Z -> 0 <= fofZ z) as Hz by (intros z Hz; apply rnd_nonneg; by apply inject_Z_nonneg).
    assert (0 <= fofZ (Z.quot d Second) /\ 0 <= fofZ (Z.rem d Second)) as [A B].
    { split; apply Hz; unfold Second; Z.to_euclidean_division_equations; lia. }
    assert (0 <= rnd (fofZ (Z.rem d Second) / fofZ Second)); [|lra].
    apply rnd_nonneg. apply Qle_shift_div_l; [|lra]. by rewrite fofZ_exact by (unfold Second; lia). }
  assert (0 <= x).
  { apply rnd_nonneg. assert (0 <= fmul (Seconds (timeSub now b.2)) rate); [|lra].
    apply rnd_nonneg. by apply Qmult_le_0_compat. }
  destruct (flt burst x) eqn:E; [lra|]. apply flt_false in E. lra.
Qed.

Lemma spend_start b now : δ <= 1 -> bucket_start b now -> (lo <= now <= hi)%Z ->
  bucket_inv 1 (Z.b2z (spend burst rate b now).1) (spend burst rate b now).2.
Proof.
  intros Hd Hb Hn. pose proof (refill_start b now Hb) as Hr. unfold spend. set (t := refill _ _ _ _) in *.
  destruct window_facts as (HW & HrW & EB & Eδ & Hd0).
  pose proof (rate_seconds_nonneg (now - lo) ltac:(lia)) as H1. pose proof (rate_seconds_nonneg (hi - now) ltac:(lia)) as H2.
  destruct (flt t 1) eqn:E; cbn [fst snd Z.b2z]; change (inject_Z 1) with 1; change (inject_Z 0) with 0.
  - apply flt_spec in E. unfold ulp in *. split; cbn [fst snd]; change (inject_Z 1) with 1; change (inject_Z 0) with 0; [lia|lra..].
  - apply flt_false in E. pose proof (take_token t ltac:(lra) Hd) as [F1 F2]. unfold ulp in *.
    split; cbn [fst snd]; change (inject_Z 1) with 1; change (inject_Z 0) with 0; [lia|lra..].
Qed.

End Bound.

(** ** Pools of buckets

    What a limiter promises of one critical section on a shard.  [tb_view] is
    the balance of a bucket and its time. *)
Class TokenBuckets (K V : Type) `{Countable K} `{Float64} := {
  tb_step : gmap K V -> K -> Z -> bool * gmap K V;
  tb_view : V -> Q * Z;
  tb_burst : Q;
  tb_rate : K -> Q;
  tb_cap : Z }.

Class TokenBucketLaws (K V : Type) `{TokenBuckets K V} := {
  (** The call spends from the bucket of its key, made on the spot if absent.
      It touches no other, except that it may evict some, and that only to make
      the bucket in a shard that is full. *)
  tb_spend sh k now :
    let b := match sh !! k with Some v => tb_view v | None => (tb_burst, now) end in
    exists v sh', tb_step sh k now = ((spend tb_burst (tb_rate k) b now).1, <[k := v]> sh') /\
      tb_view v = (spend tb_burst (tb_rate k) b now).2 /\ sh' ⊆ sh /\
      (is_Some (sh !! k) \/ tb_cap <= 0 \/ Z.of_nat (size sh) < tb_cap -> sh' = sh);
  (** A shard within the cap stays within it. *)
  tb_bounded sh k now : 0 < tb_cap -> Z.of_nat (size sh) <= tb_cap ->
    Z.of_nat (size (tb_step sh k now).2) <= tb_cap }.

Section Pools.
Context {K V : Type} `{TokenBucketLaws K V} `{MapHash K}.

(** A call on the pool, and a sequence of calls in the order of the locks. *)
Definition poolStep (p : Pool K V) (k : K) (now : Z) : bool * Pool K V :=
  let '(ok, sh) := tb_step (ShardFor p k) k now in (ok, setShard p k sh).

Fixpoint poolRun (p : Pool K V) (calls : list (K * Z)) : list bool * Pool K V :=
  match calls with
  | [] => ([], p)
  | (k, now) :: calls =>
      let '(ok, p) := poolStep p k now in
      let '(oks, p) := poolRun p calls in
      (ok :: oks, p)
  end.

(** The number of calls with key [k] that were admitted. *)
Definition admitted (k : K) (calls : list (K * Z)) (oks : list bool) : Z :=
  fold_right (fun '(c, ok) n => Z.b2z (bool_decide (c.1 = k) && ok) + n) 0 (zip calls oks).

(** The times of the calls with key [k]. *)
Definition timesOf (k : K) (calls : list (K * Z)) : list Z := (filter (fun c => c.1 = k) calls).*2.

Definition pool_wf (p : Pool K V) : Prop := length p = Z.to_nat NumShards.

Lemma shardIndex_lt (k : K) : (shardIndex k < Z.to_nat NumShards)%nat.
Proof.
  unfold shardIndex, NumShards. change (64 - 1) with (Z.ones 6). rewrite Z.land_ones by lia.
  pose proof (Z.mod_pos_bound (maphash k) (2 ^ 6)). lia.
Qed.

Lemma ShardFor_set (p : Pool K V) k k' sh : pool_wf p ->
  ShardFor (setShard p k sh) k' = if decide (shardIndex k = shardIndex k') then sh else ShardFor p k'.
Proof.
  intros Hp. unfold ShardFor, setShard. destruct (decide _) as [<-|E].
  - rewrite list_lookup_insert_eq; [done|]. rewrite Hp. apply shardIndex_lt.
  - by rewrite list_lookup_insert_ne.
Qed.

Lemma setShard_wf (p : Pool K V) k sh : pool_wf p -> pool_wf (setShard p k sh).
Proof. unfold pool_wf, setShard. by rewrite length_insert. Qed.

Lemma New_wf : pool_wf (New : Pool K V).
Proof. unfold pool_wf, New. by rewrite length_replicate. Qed.

Lemma New_ShardFor (k : K) : ShardFor (New : Pool K V) k = ∅.
Proof. unfold ShardFor, New. rewrite lookup_replicate_2; [done|]. apply shardIndex_lt. Qed.

(** The balance a call with key [k] at [now] finds. *)
Definition balance (p : Pool K V) (k : K) (now : Z) : Q * Z :=
  match ShardFor p k !! k with Some v => tb_view v | None => (tb_burst, now) end.

Lemma poolStep_spend p k now : pool_wf p ->
  let s := spend tb_burst (tb_rate k) (balance p k now) now in
  (poolStep p k now).1 = s.1 /\ pool_wf (poolStep p k now).2 /\
  (exists v, ShardFor (poolStep p k now).2 k !! k = Some v /\ tb_view v = s.2) /\
  (forall k', k' <> k -> ShardFor (poolStep p k now).2 k' !! k' = ShardFor p k' !! k' \/
                         ShardFor (poolStep p k now).2 k' !! k' = None).
Proof.
  intros Hp s. unfold poolStep. destruct (tb_spend (ShardFor p k) k now) as (v & sh' & -> & Hv & Hsub & _).
  fold (balance p k now) in Hv |- *. fold s in Hv |- *. cbn [fst snd]. split; [done|]. split; [by apply setShard_wf|]. split.
  - exists v. rewrite ShardFor_set by done. rewrite decide_True by done. by rewrite lookup_insert_eq.
  - intros k' Hne. rewrite ShardFor_set by done. destruct (decide _) as [E|]; [|by left].
    rewrite lookup_insert_ne by done. assert (ShardFor p k' = ShardFor p k) as -> by (unfold ShardFor; by rewrite E).
    destruct (sh' !! k') as [v'|] eqn:El; [left|by right]. symmetry. by eapply lookup_weaken.
Qed.

(** The number of buckets the key [k] has in turn during the calls: the one it
    has at the start, if any, and one more for every call that finds none --
    the first of all, or the first after an eviction. *)
Fixpoint started (p : Pool K V) (k : K) (calls : list (K * Z)) : Z :=
  match calls with
  | [] => 0
  | (k0, now) :: calls =>
      Z.b2z (bool_decide (k0 = k /\ ShardFor p k !! k = None)) + started (poolStep p k0 now).2 k calls
  end.
Definition lives (p : Pool K V) (k : K) (calls : list (K * Z)) : Z :=
  Z.b2z (bool_decide (ShardFor p k !! k <> None)) + started p k calls.

Lemma started_nonneg k calls p : 0 <= started p k calls.
Proof.
  revert p. induction calls as [|[k0 now] calls IH]; intros p; cbn [started]; [done|].
  specialize (IH (poolStep p k0 now).2). destruct (bool_decide _); cbn; lia.
Qed.

(** The shard of [k] has room for its keys, those of [D] among them the ones that
    the calls bring. *)
Definition fits (D : gset K) (p : Pool K V) (k : K) (calls : list (K * Z)) : Prop :=
  dom (ShardFor p k) ⊆ D /\ (tb_cap <= 0 \/ Z.of_nat (size D) <= tb_cap) /\
  Forall (fun c => shardIndex c.1 = shardIndex k -> c.1 ∈ D) calls.

Lemma fits_step D p k k0 now calls : pool_wf p -> fits D p k ((k0, now) :: calls) ->
  fits D (poolStep p k0 now).2 k calls /\
  (k0 <> k -> ShardFor (poolStep p k0 now).2 k !! k = ShardFor p k !! k).
Proof.
  intros Hp (Hd & Hc & [Hk Hk']%Forall_cons). cbn [fst] in Hk. unfold poolStep.
  destruct (tb_spend (ShardFor p k0) k0 now) as (v & sh' & -> & _ & _ & Hkeep). cbn [snd]. unfold fits.
  rewrite ShardFor_set by done. destruct (decide _) as [E|]; [|done].
  assert (ShardFor p k0 = ShardFor p k) as Es by (unfold ShardFor; by rewrite E). rewrite Es in Hkeep.
  assert (sh' = ShardFor p k) as ->.
  { apply Hkeep. destruct (ShardFor p k !! k0) as [v0|] eqn:El; [left; by eexists|right]. destruct Hc as [Hc|Hc]; [by left|right].
    rewrite <- size_dom. assert (k0 ∉ dom (ShardFor p k)) as Hn by by apply not_elem_of_dom.
    assert (size (dom (ShardFor p k)) < size D)%nat; [|lia]. apply subset_size. specialize (Hk E). set_solver. }
  split; [|intros Hne; by rewrite lookup_insert_ne]. split; [|done]. rewrite dom_insert. specialize (Hk E). set_solver.
Qed.

(** With room, a bucket once made stays. *)
Lemma fits_lives D k calls p : pool_wf p -> fits D p k calls -> lives p k calls <= 1.
Proof.
  unfold lives. revert p. induction calls as [|[k0 now] calls IH]; intros p Hp Hf; [destruct (bool_decide _); cbn; lia|].
  destruct (fits_step D p k k0 now calls Hp Hf) as [Hf' Ho].
  destruct (poolStep_spend p k0 now Hp) as (_ & Hp' & (v & Ev & _) & _). specialize (IH _ Hp' Hf'). cbn [started].
  pose proof (started_nonneg k calls (poolStep p k0 now).2). set (p' := (poolStep p k0 now).2) in *.
  repeat case_bool_decide; cbn [Z.b2z] in *; try lia; exfalso; intuition congruence.
Qed.

Lemma poolRun_wf calls (p : Pool K V) : pool_wf p -> pool_wf (poolRun p calls).2.
Proof.
  revert p. induction calls as [|[k now] calls IH]; intros p Hp; [done|]. cbn [poolRun]. unfold poolStep.
  destruct (tb_step (ShardFor p k) k now) as [ok sh]. specialize (IH (setShard p k sh) (setShard_wf p k sh Hp)).
  by destruct (poolRun _ calls).
Qed.

(** No shard outgrows the cap. *)
Lemma poolRun_bounded calls p : 0 < tb_cap -> pool_wf p ->
  Forall (fun sh : gmap K V => Z.of_nat (size sh) <= tb_cap) p ->
  Forall (fun sh : gmap K V => Z.of_nat (size sh) <= tb_cap) (poolRun p calls).2.
Proof.
  intros Hc. revert p. induction calls as [|[k now] calls IH]; intros p Hp Hs; [done|].
  cbn [poolRun]. destruct (poolStep p k now) as [ok p'] eqn:E.
  enough (pool_wf p' /\ Forall (fun sh : gmap K V => Z.of_nat (size sh) <= tb_cap) p') as [P1 P2].
  { specialize (IH p' P1 P2). by destruct (poolRun p' calls). }
  unfold poolStep in E. pose proof (tb_bounded (ShardFor p k) k now Hc) as Hb.
  destruct (tb_step (ShardFor p k) k now) as [ok' sh]. injection E as <- <-. split; [by apply setShard_wf|].
  apply Forall_insert; [done|]. apply Hb. unfold ShardFor. destruct (p !! shardIndex k) as [sh0|] eqn:El; cbn.
  - by eapply Forall_lookup_1 in Hs.
  - rewrite map_size_empty. lia.
Qed.

Lemma Len_bound (p : Pool K V) c : Forall (fun sh : gmap K V => Z.of_nat (size sh) <= c) p -> Len p <= c * zlen p.
Proof.
  unfold Len. enough (forall n, fold_left (fun n (sh : gmap K V) => n + Z.of_nat (size sh)) p n <= n + c * zlen p \/
    ~ Forall (fun sh : gmap K V => Z.of_nat (size sh) <= c) p) as E.
  { intros Hp. destruct (E 0) as [?|?]; [lia|done]. }
  induction p as [|sh p IH]; intros n; [rewrite zlen_nil; cbn; lia|].
  rewrite zlen_cons. cbn [fold_left]. destruct (decide (Z.of_nat (size sh) <= c)) as [Hc|Hc].
  - destruct (IH (n + Z.of_nat (size sh))) as [?|Hn]; [left; lia|right]. by intros [_ ?]%Forall_cons.
  - right. by intros [? _]%Forall_cons.
Qed.
End Pools.

Section PoolBound.
Context {K V : Type} `{TokenBucketLaws K V} `{MapHash K} `{!Float64Laws}.

(** A bucket as the calls of a window find it: absent, left over from before the
    window, or used [i] times in it with [cnt] calls admitted. *)
Inductive phase (burst rate : Q) (lo hi : Z) : option (Q * Z) -> Z -> Z -> Prop :=
  | phase_absent : phase burst rate lo hi None 0 0
  | phase_old b : (0 <= b.1 <= burst)%Q -> b.2 <= lo -> phase burst rate lo hi (Some b) 0 0
  | phase_used b i cnt : 0 <= i -> bucket_inv burst rate lo hi i cnt b -> phase burst rate lo hi (Some b) i cnt.

Section Window.
Context (k : K) (lo hi : Z).
Let B : Q := tb_burst.
Let R : Q := tb_rate k.
Let δ : Q := slack B R (seconds (hi - lo)).
Let most : Q := (B + R * seconds (hi - lo))%Q.
Hypothesis Hburst : (0 <= B)%Q.
Hypothesis Hrate : (0 <= R)%Q.
Hypothesis Hwindow : 0 <= hi - lo < 2 ^ 63.
Hypothesis Hmagnitude : (magnitude B R (seconds (hi - lo)) <= big)%Q.

Lemma phase_count ob i cnt : phase B R lo hi ob i cnt ->
  0 <= i /\ (inject_Z cnt <= inject_Z (Z.b2z (bool_decide (ob <> None))) * most + inject_Z i * δ)%Q.
Proof.
  pose proof (window_facts B R lo hi Hburst Hrate Hwindow) as (HW & HrW & _ & _ & Hd0).
  intros [|b _ _|b i' cnt' Hi I]; cbn [bool_decide]; (split; [lia|]); unfold most.
  - rewrite bool_decide_eq_false_2 by (intros X; done). change (inject_Z (Z.b2z false)) with 0%Q. change (inject_Z 0) with 0%Q. lra.
  - rewrite bool_decide_eq_true_2 by done. change (inject_Z (Z.b2z true)) with 1%Q. change (inject_Z 0) with 0%Q. lra.
  - rewrite bool_decide_eq_true_2 by done. change (inject_Z (Z.b2z true)) with 1%Q. destruct I as [_ _ _ _ Hc]. unfold δ. rewrite Qmult_1_l. exact Hc.
Qed.

(** A call of the window on a bucket that is there, or is made for it. *)
Lemma phase_spend ob i cnt now : phase B R lo hi ob i cnt -> lo <= now <= hi -> (inject_Z (i + 1) * δ <= 1)%Q ->
  let s := spend B R (default (B, now) ob) now in
  phase B R lo hi (Some s.2) (i + 1) (cnt + Z.b2z s.1).
Proof.
  intros Hph Hn Hd s.
  assert (forall b, bucket_start B b now -> (δ <= 1)%Q -> phase B R lo hi (Some (spend B R b now).2) (0 + 1) (0 + Z.b2z (spend B R b now).1)) as Hfirst.
  { intros b Hb Hd1. apply phase_used; [lia|]. by apply spend_start. }
  destruct Hph as [|b Hb Ht|b i cnt Hi I]; cbn [default] in s.
  - apply Hfirst; [|change (inject_Z (0 + 1)) with 1%Q in Hd; lra]. split; cbn [fst snd]; [|lia]. split; [done|apply Qle_refl].
  - apply Hfirst; [|change (inject_Z (0 + 1)) with 1%Q in Hd; lra]. split; [done|]. by etrans; [|apply Hn].
  - apply phase_used; [lia|]. by apply spend_inv.
Qed.

(** The admitted calls of one key in a window, whatever is evicted meanwhile:
    every bucket the key has had in turn allows one burst and the rate. *)
Lemma pool_bound calls (p : Pool K V) i cnt : pool_wf p -> Forall (fun c => lo <= c.2 <= hi) calls ->
  phase B R lo hi (tb_view <$> ShardFor p k !! k) i cnt ->
  (inject_Z (i + zlen (timesOf k calls)) * δ <= 1)%Q ->
  (inject_Z (cnt + admitted k calls (poolRun p calls).1)
     <= inject_Z (lives p k calls) * most + inject_Z (i + zlen (timesOf k calls)) * δ)%Q.
Proof.
  pose proof (window_facts B R lo hi Hburst Hrate Hwindow) as (HW & HrW & _ & _ & Hd0). fold δ in Hd0.
  assert (0 <= most)%Q as Hmost by (unfold most; lra).
  revert p i cnt. induction calls as [|[k0 now] calls IH]; intros p i cnt Hp Hc Hph Hd.
  { destruct (phase_count _ _ _ Hph) as [Hi Hcnt]. unfold lives, admitted, timesOf. cbn. rewrite ?Z.add_0_r.
    change (zlen []) with 0. rewrite ?Z.add_0_r.
    rewrite (bool_decide_ext (ShardFor p k !! k <> None) (tb_view <$> ShardFor p k !! k <> None)); [done|].
    destruct (ShardFor p k !! k); done. }
  apply Forall_cons in Hc as [Hnow Hc]. cbn [snd] in Hnow.
  destruct (poolStep_spend p k0 now Hp) as (E1 & Hp' & (v & Ev & Hv) & Ho). cbn [poolRun].
  specialize (IH (poolStep p k0 now).2). unfold lives in *. cbn [started].
  destruct (poolStep p k0 now) as [ok p'] eqn:Ep. cbn [fst snd] in *.
  destruct (poolRun p' calls) as [oks p''] eqn:Er. cbn [fst] in *.
  assert (admitted k ((k0, now) :: calls) (ok :: oks) = Z.b2z (bool_decide (k0 = k) && ok) + admitted k calls oks) as -> by done.
  unfold timesOf in *. rewrite filter_cons in *. cbn [fst] in *. destruct (decide (k0 = k)) as [->|Hne].
  - rewrite bool_decide_eq_true_2 by done. cbn [andb fmap list_fmap snd] in *. rewrite zlen_cons in *. pose proof (zlen_nonneg (filter (fun c => c.1 = k) calls).*2) as Hz.
    destruct (phase_count _ _ _ Hph) as [Hi _].
    assert (inject_Z (i + 1) * δ <= 1)%Q as Hd1.
    { apply (Qle_trans _ (inject_Z (i + (1 + zlen (filter (fun c => c.1 = k) calls).*2)) * δ)); [|done].
      apply Qmult_le_compat_r; [|done]. rewrite <- Zle_Qle. lia. }
    pose proof (phase_spend _ i cnt now Hph Hnow Hd1) as Hph'. cbn zeta in Hph'.
    assert (default (B, now) (tb_view <$> ShardFor p k !! k) = balance p k now) as Eb by (unfold balance; by destruct (ShardFor p k !! k)).
    rewrite Eb in Hph'. unfold B, R in Hph'. rewrite <- Hv, <- E1 in Hph'.
    specialize (IH (i + 1) (cnt + Z.b2z ok) Hp' Hc). rewrite Ev in IH. specialize (IH Hph').
    rewrite <- !Z.add_assoc in IH. specialize (IH Hd). rewrite (bool_decide_eq_true_2 (Some v <> None)) in IH by done.
    assert (Z.b2z (bool_decide (ShardFor p k !! k <> None)) + (Z.b2z (bool_decide (k = k /\ ShardFor p k !! k = None)) + started p' k calls)
      = Z.b2z true + started p' k calls) as ->; [|done].
    repeat case_bool_decide; cbn; intuition (lia || congruence).
  - rewrite (bool_decide_eq_false_2 (k0 = k)) by done. cbn [andb Z.b2z]. rewrite Z.add_0_l.
    rewrite (bool_decide_eq_false_2 (k0 = k /\ _)) by (by intros []). cbn [Z.b2z]. rewrite Z.add_0_l.
    destruct (Ho k ltac:(done)) as [Eo|Eo].
    + rewrite Eo in IH. by apply IH.
    + specialize (IH 0 0 Hp' Hc). rewrite Eo in IH. specialize (IH (phase_absent _ _ _ _)).
      destruct (phase_count _ _ _ Hph) as [Hi Hcnt].
      pose proof (zlen_nonneg (filter (fun c => c.1 = k) calls).*2) as Hz. rewrite !Z.add_0_l in IH.
      assert (inject_Z (zlen (filter (fun c => c.1 = k) calls).*2) * δ <= 1)%Q as Hd1.
      { apply (Qle_trans _ (inject_Z (i + zlen (filter (fun c => c.1 = k) calls).*2) * δ)); [|done].
        apply Qmult_le_compat_r; [|done]. rewrite <- Zle_Qle. lia. }
      specialize (IH Hd1).
      rewrite (bool_decide_ext (tb_view <$> ShardFor p k !! k <> None) (ShardFor p k !! k <> None)) in Hcnt
        by (destruct (ShardFor p k !! k); done).
      rewrite !inject_Z_plus, !Qmult_plus_distr_l. lra.
Qed.
End Window.
End PoolBound.

(** ** The query limiter *)

Lemma oldest_fold {K V} (upd : V -> Z) (l : list (K * V)) acc :
  match fold_left (oldestStep upd) l acc with
  | Some (k, t) => (exists v, (k, v) ∈ l /\ upd v = t) \/ acc = Some (k, t)
  | None => l = [] /\ acc = None
  end.
Proof.
  revert acc. induction l as [|[k v] l IH]; intros acc; cbn [fold_left]; [destruct acc as [[]|]; auto|].
  specialize (IH (oldestStep upd acc (k, v))). destruct (fold_left _ _ _) as [[k' t']|].
  - destruct IH as [(v' & Hv & Et)|E]; [left; exists v'; split; [set_solver|done]|].
    unfold oldestStep in E. cbn [fst snd] in E. destruct acc as [[k0 t0]|].
    + destruct (upd v <? t0); [injection E as <- <-; left; exists v; split; [set_solver|done]|by right].
    + injection E as <- <-. left. exists v. split; [set_solver|done].
  - destruct IH as [_ E]. unfold oldestStep in E. destruct acc as [[]|]; [|done]. by destruct (_ <? _).
Qed.

(** Dropping the oldest entry of a non-empty map makes room for one. *)
Lemma evict_oldest_size {K V} `{Countable K} `{MapRange} (upd : V -> Z) (m : gmap K V) : (0 < size m)%nat ->
  (size (match oldest upd (mapRange m) with None => m | Some (k, _) => delete k m end) = size m - 1)%nat.
Proof.
  intros Hm. pose proof (oldest_fold upd (mapRange m) None) as Ho. unfold oldest.
  pose proof (mapRange_perm m) as Hp. destruct (fold_left _ _ None) as [[k t]|].
  - destruct Ho as [(v & Hv & _)|?]; [|done]. rewrite Hp in Hv. apply elem_of_map_to_list in Hv.
    rewrite map_size_delete_Some by eauto. lia.
  - destruct Ho as [E _]. rewrite E in Hp. apply Permutation_nil_l in Hp. symmetry in Hp.
    rewrite <- length_map_to_list, Hp in Hm. cbn in Hm. lia.
Qed.

Section Limiter.
Context `{Float64} `{MapHash Key} `{MapRange}.

#[local] Instance limiterBuckets (l : limiter) : TokenBuckets Key bucket := {|
  tb_step := allowShard l;
  tb_view b := (tokens b, updated b);
  tb_burst := burst l;
  tb_rate _ := qps l;
  tb_cap := maxKeys l |}.

Lemma evictLocked_size l sh now : 0 < maxKeys l -> Z.of_nat (size sh) <= maxKeys l ->
  Z.of_nat (size (evictLocked l sh now)) < maxKeys l.
Proof.
  intros Hm Hs. unfold evictLocked. set (sh' := if flt 0 (qps l) then _ else sh).
  assert (size sh' <= size sh)%nat as Hle.
  { unfold sh'. destruct (flt 0 (qps l)); [|done]. apply map_subseteq_size, map_filter_subseteq. }
  destruct (_ || _) eqn:E; [apply orb_true_iff in E as [E|E]; bool_facts; lia|]. bool_facts.
  rewrite evict_oldest_size by lia. lia.
Qed.

Lemma limiter_evict_sub l sh now : evictLocked l sh now ⊆ sh.
Proof.
  unfold evictLocked. set (sh' := if flt 0 (qps l) then _ else sh).
  assert (sh' ⊆ sh) as Hsub by (subst sh'; destruct (flt 0 (qps l)); [apply map_filter_subseteq|done]).
  destruct (_ || _); [done|]. destruct (oldest _ _) as [[k t]|]; [|done]. etrans; [apply delete_subseteq|done].
Qed.

#[local] Instance limiterBuckets_laws l : TokenBucketLaws Key bucket (H1 := limiterBuckets l).
Proof.
  split; cbn [tb_step tb_view tb_burst tb_rate tb_cap limiterBuckets].
  - intros sh k now. unfold allowShard, spend. destruct (sh !! k) as [b|] eqn:E; cbn [fst snd tokens updated].
    + destruct (flt _ 1); cbn [fst snd]; (eexists; exists sh; repeat split; reflexivity || done).
    + set (sh' := if _ && _ then _ else sh). assert (sh' ⊆ sh) as Hsub.
      { subst sh'. destruct (_ && _); [apply limiter_evict_sub|done]. }
      assert (is_Some (@None bucket) \/ maxKeys l <= 0 \/ Z.of_nat (size sh) < maxKeys l -> sh' = sh) as Hkeep.
      { intros Hr. subst sh'. destruct (_ && _) eqn:Ec; [bool_facts|done]. destruct Hr as [[? ?]|]; [done|lia]. }
      destruct (flt _ 1); cbn [fst snd]; (eexists; exists sh'; repeat split; reflexivity || done).
  - intros sh k now Hm Hs. unfold allowShard. destruct (sh !! k) as [b|] eqn:E.
    + destruct (flt _ 1); cbn [snd]; (rewrite map_size_insert_Some; [done|by eexists]).
    + set (sh' := if _ && _ then _ else sh). assert (Z.of_nat (size sh') < maxKeys l) as Hlt.
      { unfold sh'. destruct (_ && _) eqn:Ec; [by apply evictLocked_size|].
        apply andb_false_iff in Ec as [Ec|Ec]; bool_facts; lia. }
      assert (forall v, Z.of_nat (size (<[k := v]> sh')) <= maxKeys l) as Hi.
      { intros v. rewrite map_size_insert. destruct (sh' !! k); cbn; lia. }
      destruct (flt _ 1); cbn [snd]; apply Hi.
Qed.

(** A sequence of queries, each from a source at a time. *)
Fixpoint allowAll (l : limiter) (p : Pool Key bucket) (calls : list (Addr * Z)) : list bool * Pool Key bucket :=
  match calls with
  | [] => ([], p)
  | (src, now) :: calls =>
      let '(ok, p) := allow l p src now in
      let '(oks, p) := allowAll l p calls in
      (ok :: oks, p)
  end.

Definition keyed (l : limiter) (calls : list (Addr * Z)) : list (Key * Z) := map (fun c => (key_ l c.1, c.2)) calls.

Lemma allowAll_run l p calls : allowAll l p calls = poolRun (H1 := limiterBuckets l) p (keyed l calls).
Proof.
  revert p. induction calls as [|[src now] calls IH]; intros p; [done|].
  cbn [allowAll keyed map poolRun fst snd]. fold (keyed l calls). unfold allow, poolStep.
  cbn [tb_step limiterBuckets]. destruct (allowShard _ _ _ _) as [ok sh]. by rewrite IH.
Qed.

(** What a history without backward steps of the clock leaves: balances between
    zero and the burst, none from the future. *)
Definition settled (l : limiter) (lo : Z) (p : Pool Key bucket) : Prop :=
  forall k b, ShardFor p k !! k = Some b -> (0 <= tokens b <= burst l)%Q /\ updated b <= lo.

(** C19. Whatever the queries of a window of time, the order in which their clock
    readings reach the lock and the buckets evicted meanwhile, the query limiter
    admits from one source key at most the burst plus the rate times the window
    for every bucket that key has had in turn ([lives]), plus [n] times the
    rounding error of one call ([slack]) for the [n] queries of the key, as long
    as that is at most one query.  When the keys of the source's shard fit the
    shard's cap, the key has one bucket, and the bound is the burst plus the rate
    times the window.  The balance found at the start of the window, if the key has
    a bucket then, is one that [settled] describes. *)
Theorem rate_limit_bound `{!Float64Laws} (l : limiter) (p : Pool Key bucket) (calls : list (Addr * Z))
    (src : Addr) (lo hi : Z) :
  let k := key_ l src in
  let n := inject_Z (zlen (timesOf k (keyed l calls))) in
  let δ := slack (burst l) (qps l) (seconds (hi - lo)) in
  let buckets := lives (H1 := limiterBuckets l) p k (keyed l calls) in
  (0 <= burst l)%Q -> (0 <= qps l)%Q -> 0 <= hi - lo < 2 ^ 63 ->
  (magnitude (burst l) (qps l) (seconds (hi - lo)) <= big)%Q ->
  pool_wf p -> Forall (fun c => lo <= c.2 <= hi) calls -> settled l lo p -> (n * δ <= 1)%Q ->
  (inject_Z (admitted k (keyed l calls) (allowAll l p calls).1)
     <= inject_Z buckets * (burst l + qps l * seconds (hi - lo)) + n * δ)%Q /\
  forall D : gset Key, dom (ShardFor p k) ⊆ D -> maxKeys l <= 0 \/ Z.of_nat (size D) <= maxKeys l ->
    Forall (fun c => shardIndex (key_ l c.1) = shardIndex k -> key_ l c.1 ∈ D) calls -> buckets <= 1.
Proof.
  intros k n δ buckets Hb Hq Hw Hm Hp Hc Hs Hn. rewrite allowAll_run. split.
  - assert (Forall (fun c => lo <= c.2 <= hi) (keyed l calls)) as Hc' by (unfold keyed; by apply Forall_map).
    pose proof (pool_bound (H1 := limiterBuckets l) k lo hi Hb Hq Hw Hm (keyed l calls) p 0 0 Hp Hc') as Hbound.
    rewrite !Z.add_0_l in Hbound. apply Hbound; [|done].
    destruct (ShardFor p k !! k) as [b|] eqn:E; [|constructor]. destruct (Hs k b E). by apply phase_old.
  - intros D Hd Hcap Hin. eapply (fits_lives (H1 := limiterBuckets l) D); [done|].
    split; [done|]. split; [done|]. unfold keyed. by apply Forall_map.
Qed.

(** A pool is settled at first, and after calls whose readings do not go back. *)
Lemma settled_New l lo : settled l lo New.
Proof. intros k b. by rewrite New_ShardFor, lookup_empty. Qed.

Lemma settled_step `{!Float64Laws} l lo now p src : (rnd (burst l) == burst l)%Q -> (0 <= burst l)%Q -> (0 <= qps l)%Q -> pool_wf p -> settled l lo p -> lo <= now ->
  settled l now (allow l p src now).2.
Proof.
  intros Hfl Hb Hq Hp Hs Hlo. set (k := key_ l src).
  destruct (poolStep_spend (H1 := limiterBuckets l) p k now Hp) as (_ & _ & (v & Ev & Hv) & Ho).
  assert (poolStep (H1 := limiterBuckets l) p k now = allow l p src now) as Ep by done. rewrite Ep in Ev, Ho.
  intros k' b E. destruct (decide (k' = k)) as [->|Hne].
  - rewrite Ev in E. injection E as <-. cbn in Hv. unfold spend in Hv.
    assert (bucket_start (burst l) (balance (H1 := limiterBuckets l) p k now) now) as Hst.
    { unfold balance. destruct (ShardFor p k !! k) as [b|] eqn:E; cbn.
      - destruct (Hs k b E). split; [done|]. cbn. lia.
      - split; cbn; [|lia]. split; [done|apply Qle_refl]. }
    pose proof (refill_start (burst l) (qps l) lo lo Hb Hq ltac:(lia) _ now Hst) as Hr. cbn [tb_burst tb_rate limiterBuckets] in Hv.
    set (t := refill _ _ _ _) in *. destruct (flt t 1) eqn:Ef; injection Hv as Et Eu; rewrite Et, Eu; (split; [|lia]); [done|].
    apply flt_false in Ef. unfold fsub. split; [apply rnd_nonneg; lra|].
    rewrite <- Hfl. apply rnd_mono. lra.
  - destruct (Ho k' ltac:(done)) as [Eo|Eo]; rewrite Eo in E; [|done]. destruct (Hs k' b E). split; [done|lia].
Qed.
End Limiter.

(** A limiter and a burst of queries from one host. *)
Module SampleLimiter.
#[export] Instance hash : MapHash Key := {| maphash _ := 5 |}.
#[export] Instance inKeyOrder : MapRange := {| mapRange _ _ _ _ := map_to_list; mapRange_perm _ _ _ _ m := reflexivity _ |}.
Definition host : Addr := Addr4 [192; 0; 2; 1].
Definition other : Addr := Addr4 [192; 0; 2; 2].
Definition l : limiter := NewRateLimit (H := exactFloat) [RateLimitQPS 2; RateLimitBurst 3].
Definition calls : list (Addr * Z) :=
  [(host, 0); (host, 1); (other, 1); (host, 2); (host, 3); (host, 2); (host, 500000000); (host, 500000000)].
End SampleLimiter.

(** Four of the host's calls are admitted in half a second: the bound of three
    and two per second. *)
Lemma rate_limit_bound_witness :
  let l := SampleLimiter.l in let p := New in
  (inject_Z (admitted (key_ l SampleLimiter.host) (keyed l SampleLimiter.calls)
     (allowAll (H := exactFloat) (H0 := SampleLimiter.hash) (H1 := SampleLimiter.inKeyOrder) l p SampleLimiter.calls).1)
   <= 1 * (burst l + qps l * seconds 500000000) + 7 * slack (burst l) (qps l) (seconds 500000000))%Q /\
  (allowAll (H := exactFloat) (H0 := SampleLimiter.hash) (H1 := SampleLimiter.inKeyOrder) l p SampleLimiter.calls).1
   = [true; true; true; true; false; false; true; false] /\
  lives (H1 := limiterBuckets (H := exactFloat) (H1 := SampleLimiter.inKeyOrder) l) (H3 := SampleLimiter.hash) p (key_ l SampleLimiter.host) (keyed l SampleLimiter.calls) <= 1.
Proof.
  cbn zeta.
  destruct (rate_limit_bound (H := exactFloat) (H0 := SampleLimiter.hash) (H1 := SampleLimiter.inKeyOrder) (H2 := exactFloat_laws)
    SampleLimiter.l New SampleLimiter.calls SampleLimiter.host 0 500000000) as [X Y].
  - by vm_compute.
  - by vm_compute.
  - done.
  - by vm_compute.
  - done.
  - decide_now.
  - apply settled_New.
  - by vm_compute.
  - split; [exact X|]. split; [by vm_compute|].
    apply (Y {[KeyAddr SampleLimiter.host; KeyAddr SampleLimiter.other]}); [by rewrite New_ShardFor|right; decide_now|decide_now].
Defined.
