(* ===== verification/Rrl.v ===== *)
(** * Response rate limiting (src/middleware_rrl.go)

    Buckets keyed on the source prefix, a name that stands for the responding
    zone, and the class of the response; a response over budget is dropped or,
    every [slip]-th time, replaced by a truncated stub.  Floats, shards and
    keys are represented as in RateLimit.v. *)

From Stdlib Require Import Strings.String QArith.
From S2P Require Import Prelude Name Wire RData RDataNew Message EdnsOptions Netip Handler RateLimit.
Open Scope Z_scope.
Open Scope list_scope.

Module rrl.

Inductive RRLOption :=
  | RRLQPS (qps : Q) | RRLNXDOMAINQPS (qps : Q) | RRLErrorQPS (qps : Q)
  | RRLBurst (n : Z) | RRLSlipRate (n : Z) | RRLIPv4Prefix (maskBits : Z) | RRLIPv6Prefix (maskBits : Z)
  | RRLMaxKeys (n : Z).

Record rrlConfig := mkConfig {
  c_respPerSecond : Q; c_nxdomainsPerS : Q; c_errorsPerSecond : Q; c_burst : Z; c_slip : Z;
  c_v4Prefix : Z; c_v6Prefix : Z; c_maxKeys : Z }.

Definition applyOption (c : rrlConfig) (o : RRLOption) : rrlConfig :=
  let '(mkConfig r n e b s p4 p6 k) := c in
  match o with
  | RRLQPS v => mkConfig v n e b s p4 p6 k
  | RRLNXDOMAINQPS v => mkConfig r v e b s p4 p6 k
  | RRLErrorQPS v => mkConfig r n v b s p4 p6 k
  | RRLBurst v => mkConfig r n e v s p4 p6 k
  | RRLSlipRate v => mkConfig r n e b v p4 p6 k
  | RRLIPv4Prefix v => mkConfig r n e b s v p6 k
  | RRLIPv6Prefix v => mkConfig r n e b s p4 v k
  | RRLMaxKeys v => mkConfig r n e b s p4 p6 v
  end.

Inductive rrlClass := rrlClassUnknown | rrlClassPositive | rrlClassNegative | rrlClassError.
#[global] Instance rrlClass_eq_dec : EqDecision rrlClass.
Proof. solve_decision. Defined.
#[global] Instance rrlClass_countable : Countable rrlClass.
Proof.
  refine (inj_countable' (fun c => match c with
      | rrlClassUnknown => 0 | rrlClassPositive => 1 | rrlClassNegative => 2 | rrlClassError => 3 end)
    (fun n => if n =? 0 then rrlClassUnknown else if n =? 1 then rrlClassPositive
              else if n =? 2 then rrlClassNegative else rrlClassError) _).
  by intros [].
Defined.

(** The parts of a key's text: the prefixed address, the name, the class. *)
Definition Key : Type := Addr * bytes * rrlClass.

Record rrlBucket := mkBucket { tokens : Q; updated : Z; slipCounter : Z }.

(** The fields of [rrl] that do not change; its pool is the state. *)
Record t := mk {
  respPerSecond : Q; nxdomainsPerS : Q; errorsPerSecond : Q; burst : Q; slip : Z;
  v4Prefix : Z; v6Prefix : Z; maxKeys : Z }.

Definition classify (m : Message) : rrlClass :=
  let rcode := RCODE (flags m) in
  if rcode =? RCODENoError then
    if 0 <? zlen (answers m) then rrlClassPositive else rrlClassNegative
  else if rcode =? RCODENXDomain then rrlClassNegative
  else rrlClassError.

Definition rateFor (r : t) (m : Message) : Q :=
  match classify m with
  | rrlClassPositive => respPerSecond r
  | rrlClassNegative => nxdomainsPerS r
  | rrlClassError => errorsPerSecond r
  | rrlClassUnknown => 0%Q
  end.

Definition bucketKey (r : t) (src : Addr) (name : Name) (class : rrlClass) : Key :=
  let prefixedAddr := match Addr_Prefix src (if Is4 src then v4Prefix r else v6Prefix r) with
                      | Ok pfx => pfx_addr pfx
                      | Err _ => src
                      end in
  (prefixedAddr, String_ name, class).

(** ** The name a response is accounted to *)

Definition authoritySectionName (m : Message) (t : Z) : option Name :=
  match filter (fun rec => RType rec =? t) (authorities m) with
  | rec :: _ => Some (r_name rec)
  | [] => None
  end.

(** The walk from [d] up: does it meet [anc]?  A parent is shorter than its
    child, so one step per octet is enough. *)
Fixpoint isAncestor_loop (fuel : nat) (anc d : Name) : bool :=
  match fuel with
  | O => false
  | S fuel =>
      match Parent d with
      | None => false
      | Some d => if Equal anc d then true else isAncestor_loop fuel anc d
      end
  end.
Definition isAncestorOrEqual (anc desc : Name) : bool :=
  if Equal anc desc then true else isAncestor_loop (length (wire desc)) anc desc.

(** [lca] raised until it is an ancestor of [n]; the flag is the early return
    at the root. *)
Fixpoint raise_loop (fuel : nat) (lca n : Name) : Name * bool :=
  match fuel with
  | O => (lca, true)
  | S fuel =>
      if isAncestorOrEqual lca n then (lca, false)
      else match Parent lca with
      | None => (lca, true)
      | Some parent => raise_loop fuel parent n
      end
  end.
Fixpoint commonAncestor (lca : Name) (recs : list Record_) : Name :=
  match recs with
  | [] => lca
  | rec :: recs =>
      let '(lca, atRoot) := raise_loop (S (length (wire lca))) lca (r_name rec) in
      if atRoot then lca else commonAncestor lca recs
  end.
Definition answerCommonAncestor (m : Message) : option Name :=
  match answers m with
  | [] => None
  | rec :: recs => Some (commonAncestor (r_name rec) recs)
  end.

Definition firstQuestionName (q m : Message) : Name :=
  match questions q with
  | qq :: _ => q_name qq
  | [] => match questions m with qq :: _ => q_name qq | [] => zeroName end
  end.

Definition responseKeyName (m q : Message) : Name :=
  match classify m with
  | rrlClassNegative =>
      match authoritySectionName m rrtype.SOA with
      | Some n => n
      | None => match authoritySectionName m rrtype.NS with
                | Some n => n
                | None => firstQuestionName q m
                end
      end
  | rrlClassPositive =>
      match authoritySectionName m rrtype.SOA with
      | Some n => n
      | None =>
          match (if zlen (answers m) =? 0 then authoritySectionName m rrtype.NS else None) with
          | Some n => n
          | None => match answerCommonAncestor m with
                    | Some n => n
                    | None => firstQuestionName q m
                    end
          end
      end
  | _ => firstQuestionName q m
  end.

(** ** The stub *)
Definition truncateForRRL (m q : Message) : Message :=
  let b := MessageBuilder.NewMessageBuilder |> MessageBuilder.ID (id m)
             |> MessageBuilder.Flags_ (flags m |> WithTruncated true |> WithResponse true
                                         |> WithAuthoritative false |> WithAuthenticData false) in
  let b := match questions m with
           | qq :: _ => b |> MessageBuilder.Question_ qq
           | [] => match questions q with qq :: _ => b |> MessageBuilder.Question_ qq | [] => b end
           end in
  let b := if hasEDNS m then b |> MessageBuilder.EDNS_ (edns m) else b in
  match fst (MessageBuilder.Build b) with
  | Err _ => m
  | Ok out => out
  end.

Section Limiter.
Context `{Float64} `{MapHash Key} `{MapRange}.

Definition largestOf (a b c : Q) : Q :=
  let largest := a in
  let largest := if flt largest b then b else largest in
  if flt largest c then c else largest.

Definition NewRRL (opts : list RRLOption) : t :=
  let c := fold_left applyOption opts
             (mkConfig (inject_Z 10) (inject_Z 5) (inject_Z 5) 0 2 24 56 100000) in
  let burst :=
    if c_burst c =? 0 then
      let largest := largestOf (c_respPerSecond c) (c_nxdomainsPerS c) (c_errorsPerSecond c) in
      let largest := if fle largest 0 then fofZ 1 else largest in
      toInt64 (fmul (fofZ 2) largest)
    else c_burst c in
  mk (c_respPerSecond c) (c_nxdomainsPerS c) (c_errorsPerSecond c) (fofZ burst) (c_slip c)
    (c_v4Prefix c) (c_v6Prefix c) (PerShardCap (c_maxKeys c)).

Definition evictLocked (r : t) (sh : gmap Key rrlBucket) (now : Z) : gmap Key rrlBucket :=
  let largestRate := largestOf (respPerSecond r) (nxdomainsPerS r) (errorsPerSecond r) in
  let sh := if flt 0 largestRate
            then let threshold := now - idleFor (burst r) largestRate in
                 filter (fun kv => negb (updated kv.2 <? threshold)) sh
            else sh in
  if (maxKeys r <=? 0) || (Z.of_nat (size sh) <? maxKeys r) then sh
  else match oldest updated (mapRange sh) with
  | None => sh
  | Some (k, _) => delete k sh
  end.

(** What becomes of a response: forwarded, replaced by the stub, dropped. *)
Inductive verdict := Allowed | Slipped | Dropped.

(** The critical section of [consume] on the shard of the key. *)
Definition consumeShard (r : t) (sh : gmap Key rrlBucket) (k : Key) (rate : Q) (now : Z)
    : verdict * gmap Key rrlBucket :=
  let '(b, sh) :=
    match sh !! k with
    | Some b => (b, sh)
    | None =>
        let sh := if (0 <? maxKeys r) && (maxKeys r <=? Z.of_nat (size sh)) then evictLocked r sh now else sh in
        (mkBucket (burst r) now 0, sh)
    end in
  let tk := refill (burst r) rate (tokens b) (Seconds (timeSub now (updated b))) in
  if fle 1 tk then (Allowed, <[k := mkBucket (fsub tk 1) now (slipCounter b)]> sh)
  else if slip r <=? 0 then (Dropped, <[k := mkBucket tk now (slipCounter b)]> sh)
  else
    let c := slipCounter b + 1 in
    if slip r <=? c then (Slipped, <[k := mkBucket tk now 0]> sh)
    else (Dropped, <[k := mkBucket tk now c]> sh).

Definition consume (r : t) (p : Pool Key rrlBucket) (k : Key) (rate : Q) (now : Z)
    : verdict * Pool Key rrlBucket :=
  let '(v, sh) := consumeShard r (ShardFor p k) k rate now in
  (v, setShard p k sh).

(** [rrlWriter.WriteMsg] of the first message: the error returned to the inner
    handler and the pool. *)
Definition writeFirst (r : t) (w : ResponseWriter) (q m : Message) (p : Pool Key rrlBucket)
    : prog (option error * Pool Key rrlBucket) :=
  let forward := let! e := write m in Ret (e, p) in
  if negb (bool_decide (Network w = str "udp") || bool_decide (Network w = str "dnscrypt")) then forward
  else
    let rate := rateFor r m in
    if fle rate 0 then forward
    else
      let src := Unmap (ap_addr (RemoteAddr w)) in
      let k := bucketKey r src (responseKeyName m q) (classify m) in
      let! t := now in
      let '(v, p) := consume r p k rate t in
      match v with
      | Allowed => let! e := write m in Ret (e, p)
      | Slipped => let! e := write (truncateForRRL m q) in Ret (e, p)
      | Dropped => Ret (None, p)
      end.

(** The inner handler's run through an [rrlWriter]: its first message goes
    through [writeFirst], later ones pass. *)
Fixpoint guard {A : Type} (r : t) (w : ResponseWriter) (q : Message) (p : Pool Key rrlBucket) (wrote : bool)
    (inner : prog A) : prog (A * Pool Key rrlBucket) :=
  match inner with
  | Ret a => Ret (a, p)
  | TimeNow k => TimeNow (fun t => guard r w q p wrote (k t))
  | WriteMsg m k =>
      if wrote then WriteMsg m (fun e => guard r w q p true (k e))
      else let! (e, p) := writeFirst r w q m p in guard r w q p true (k e)
  end.

Definition ServeDNS {S : Type} (r : t) (inner : Handler S) : Handler (S * Pool Key rrlBucket) :=
  fun ctx w q '(s, p) => guard r w q p false (inner ctx w q s).
End Limiter.
End rrl.
