(* ===== verification/RrlSound.v ===== *)
(** * Response rate limiting: theorems

    The bound on forwarded responses, the memory of both limiters, the slip
    rate, the name a response is accounted to -- and which responses therefore
    never share a bucket. *)

From Stdlib Require Import Strings.String QArith Qabs Lqa.
From S2P Require Import Prelude Name Wire RData RDataNew Message EdnsOptions Compare RRset Authoritative Update ZoneTree Netip Handler RateLimit Rrl RateSound.
Open Scope Z_scope.
Open Scope list_scope.
Import rrl.

(** ** The interface of token buckets *)

(** The rate of a class. *)
Definition rateOf (r : rrl.t) (c : rrlClass) : Q :=
  match c with
  | rrlClassPositive => respPerSecond r
  | rrlClassNegative => nxdomainsPerS r
  | rrlClassError => errorsPerSecond r
  | rrlClassUnknown => 0%Q
  end.

Lemma rateFor_class r m : rateFor r m = rateOf r (classify m).
Proof. done. Qed.

#[export] Instance verdict_eq_dec : EqDecision verdict.
Proof. solve_decision. Defined.

Section Limiter.
Context `{Float64} `{MapHash rrl.Key} `{MapRange}.

#[local] Instance rrlBuckets (r : rrl.t) : TokenBuckets rrl.Key rrlBucket := {|
  tb_step sh k now := let '(v, sh) := consumeShard r sh k (rateOf r k.2) now in (bool_decide (v = Allowed), sh);
  tb_view b := (rrl.tokens b, rrl.updated b);
  tb_burst := rrl.burst r;
  tb_rate k := rateOf r k.2;
  tb_cap := rrl.maxKeys r |}.

Lemma rrl_evictLocked_size r sh now : 0 < rrl.maxKeys r -> Z.of_nat (size sh) <= rrl.maxKeys r ->
  Z.of_nat (size (rrl.evictLocked r sh now)) < rrl.maxKeys r.
Proof.
  intros Hm Hs. unfold rrl.evictLocked. set (sh' := if flt 0 _ then _ else sh).
  assert (size sh' <= size sh)%nat as Hle.
  { unfold sh'. destruct (flt 0 _); [|done]. apply map_subseteq_size, map_filter_subseteq. }
  destruct (_ || _) eqn:E; [apply orb_true_iff in E as [E|E]; bool_facts; lia|]. bool_facts.
  rewrite evict_oldest_size by lia. lia.
Qed.

(** One call on a shard: the shard it works on, the bucket it finds, and what
    it leaves. *)
Definition shardAt (r : rrl.t) (sh : gmap rrl.Key rrlBucket) (k : rrl.Key) (now : Z) : gmap rrl.Key rrlBucket :=
  match sh !! k with
  | Some _ => sh
  | None => if (0 <? rrl.maxKeys r) && (rrl.maxKeys r <=? Z.of_nat (size sh)) then rrl.evictLocked r sh now else sh
  end.
Definition bucketAt (r : rrl.t) (sh : gmap rrl.Key rrlBucket) (k : rrl.Key) (now : Z) : rrlBucket :=
  match sh !! k with Some b => b | None => rrl.mkBucket (rrl.burst r) now 0 end.

Lemma consumeShard_spec r sh k rate now :
  let b := bucketAt r sh k now in
  let '(ok, (tk, _)) := spend (rrl.burst r) rate (rrl.tokens b, rrl.updated b) now in
  let c := slipCounter b + 1 in
  consumeShard r sh k rate now =
    (if ok then Allowed else if (0 <? slip r) && (slip r <=? c) then Slipped else Dropped,
     <[k := rrl.mkBucket tk now
        (if ok then slipCounter b else if slip r <=? 0 then slipCounter b else if slip r <=? c then 0 else c)]>
       (shardAt r sh k now)).
Proof.
  unfold bucketAt, shardAt, consumeShard, spend, flt, fle.
  destruct (sh !! k) as [b|]; cbn [fst snd rrl.tokens rrl.updated slipCounter];
    (destruct (Qle_bool 1 _); cbn [negb]; [done|]);
    (destruct (slip r <=? 0) eqn:E; bool_facts; [by rewrite (proj2 (Z.ltb_ge 0 (slip r))) by lia|]);
    rewrite (proj2 (Z.ltb_lt 0 (slip r))) by lia; cbn [andb]; by destruct (slip r <=? _).
Qed.

Lemma shardAt_sub r sh k now : shardAt r sh k now ⊆ sh.
Proof.
  unfold shardAt. destruct (sh !! k); [done|]. destruct (_ && _); [|done]. unfold rrl.evictLocked. set (sh' := if flt 0 _ then _ else sh).
  assert (sh' ⊆ sh) as Hsub by (subst sh'; destruct (flt 0 _); [apply map_filter_subseteq|done]).
  destruct (_ || _); [done|]. destruct (oldest _ _) as [[k0 t]|]; [|done]. etrans; [apply delete_subseteq|done].
Qed.

#[local] Instance rrlBuckets_laws r : TokenBucketLaws rrl.Key rrlBucket (H1 := rrlBuckets r).
Proof.
  split; cbn [tb_step tb_view tb_burst tb_rate tb_cap rrlBuckets].
  - intros sh k now. pose proof (consumeShard_spec r sh k (rateOf r k.2) now) as Hs. cbn zeta in Hs.
    assert (is_Some (sh !! k) \/ rrl.maxKeys r <= 0 \/ Z.of_nat (size sh) < rrl.maxKeys r -> shardAt r sh k now = sh) as Hkeep.
    { intros Hroom. clear Hs. unfold shardAt. destruct (sh !! k) as [b|]; [done|]. destruct Hroom as [[? ?]|Hroom]; [done|].
      destruct (_ && _) eqn:E; [bool_facts; lia|reflexivity]. }
    pose proof (shardAt_sub r sh k now) as Hsub. set (sh' := shardAt r sh k now) in *. clearbody sh'. unfold bucketAt in Hs.
    destruct (sh !! k) as [b|]; cbn [rrl.tokens rrl.updated] in Hs;
      destruct (spend _ _ _ now) as [ok [tk tm]] eqn:Esp; rewrite Hs; cbn [fst snd];
      (assert (tm = now) as -> by (unfold spend in Esp; destruct (flt _ 1); injection Esp; done));
      eexists; exists sh'; (split; [apply f_equal2; [destruct ok; [done|by destruct (_ && _)]|reflexivity]|done]).
  - intros sh k now Hm Hs. pose proof (consumeShard_spec r sh k (rateOf r k.2) now) as Hc. cbn zeta in Hc.
    destruct (spend _ _ _ now) as [ok [tk tm]]. rewrite Hc. clear Hc. cbn [snd]. unfold shardAt.
    destruct (sh !! k) as [b|] eqn:E; [rewrite map_size_insert_Some; [done|by eexists]|].
    destruct (_ && _) eqn:Ec.
    + pose proof (rrl_evictLocked_size r sh now Hm Hs). rewrite map_size_insert. destruct (rrl.evictLocked r sh now !! k); cbn; lia.
    + apply andb_false_iff in Ec as [Ec|Ec]; bool_facts; [lia|]. rewrite map_size_insert, E. cbn. lia.
Qed.

(** A sequence of responses, each with its bucket's key and a time. *)
Fixpoint consumeAll (r : rrl.t) (p : Pool rrl.Key rrlBucket) (calls : list (rrl.Key * Z)) : list verdict * Pool rrl.Key rrlBucket :=
  match calls with
  | [] => ([], p)
  | (k, now) :: calls =>
      let '(v, p) := consume r p k (rateOf r k.2) now in
      let '(vs, p) := consumeAll r p calls in
      (v :: vs, p)
  end.

Lemma consumeAll_run r p calls :
  (map (fun v => bool_decide (v = Allowed)) (consumeAll r p calls).1, (consumeAll r p calls).2)
    = poolRun (H1 := rrlBuckets r) p calls.
Proof.
  revert p. induction calls as [|[k now] calls IH]; intros p; [done|].
  cbn [consumeAll poolRun]. unfold consume, poolStep. cbn [tb_step rrlBuckets].
  destruct (consumeShard _ _ _ _ _) as [v sh]. rewrite <- IH. by destruct (consumeAll r _ calls).
Qed.
Lemma consume_step r p k now :
  poolStep (H1 := rrlBuckets r) p k now =
    (bool_decide ((consume r p k (rateOf r k.2) now).1 = Allowed), (consume r p k (rateOf r k.2) now).2).
Proof. unfold poolStep, consume. cbn [tb_step rrlBuckets]. by destruct (consumeShard _ _ _ _ _). Qed.

(** The verdicts on the responses with key [k]. *)
Definition verdictsOf (k : rrl.Key) (calls : list (rrl.Key * Z)) (vs : list verdict) : list verdict :=
  (filter (fun cv => cv.1.1 = k) (zip calls vs)).*2.

Definition countOf (v : verdict) (vs : list verdict) : Z := zlen (filter (fun u => u = v) vs).

Lemma admitted_verdicts k calls vs :
  admitted k calls (map (fun v => bool_decide (v = Allowed)) vs) = countOf Allowed (verdictsOf k calls vs).
Proof.
  unfold admitted, countOf, verdictsOf. revert vs. induction calls as [|[k0 t] calls IH]; intros [|v vs]; [done..|].
  cbn [map zip zip_with fold_right fst]. rewrite IH, filter_cons. cbn [fst]. destruct (decide (k0 = k)) as [E|E].
  - rewrite bool_decide_eq_true_2 by done. cbn [fmap list_fmap snd andb]. rewrite filter_cons.
    destruct (decide (v = Allowed)) as [Ev|Ev].
    + rewrite bool_decide_eq_true_2 by done. cbn [Z.b2z]. by rewrite zlen_cons.
    + by rewrite bool_decide_eq_false_2.
  - by rewrite bool_decide_eq_false_2.
Qed.

(** The slip counter of a key's bucket. *)
Definition counter (p : Pool rrl.Key rrlBucket) (k : rrl.Key) : Z :=
  match ShardFor p k !! k with Some b => slipCounter b | None => 0 end.

Lemma consume_counter r p k now : pool_wf p ->
  let '(v, p') := consume r p k (rateOf r k.2) now in
  counter p' k = match v with
                 | Allowed => counter p k
                 | Slipped => 0
                 | Dropped => if 0 <? slip r then counter p k + 1 else counter p k
                 end /\
  (v = Slipped -> 0 < slip r /\ slip r <= counter p k + 1) /\
  (v = Dropped -> 0 < slip r -> counter p k + 1 < slip r).
Proof.
  intros Hp. unfold consume. pose proof (consumeShard_spec r (ShardFor p k) k (rateOf r k.2) now) as Hs. cbn zeta in Hs.
  destruct (spend _ _ _ now) as [ok [tk tm]]. rewrite Hs. clear Hs. unfold counter.
  rewrite ShardFor_set, decide_True, lookup_insert_eq by done. cbn [slipCounter].
  assert (slipCounter (bucketAt r (ShardFor p k) k now) = match ShardFor p k !! k with Some b => slipCounter b | None => 0 end) as ->
    by (unfold bucketAt; by destruct (_ !! k)).
  set (c := match _ with Some b => _ | None => 0 end). destruct ok; [done|].
  destruct (0 <? slip r) eqn:E1; bool_facts; cbn [andb].
  - rewrite (proj2 (Z.leb_gt (slip r) 0)) by lia. destruct (slip r <=? c + 1) eqn:E2; bool_facts; repeat split; done || lia.
  - rewrite (proj2 (Z.leb_le (slip r) 0)) by lia. repeat split; done || lia.
Qed.

(** A run from a counter below the slip rate slips the [slip]-th, the
    [2*slip]-th, ... of the responses held back; an eviction in between sets the
    counter back, so that fewer slip. *)
Lemma consumeAll_slip r k calls p : 0 < slip r -> pool_wf p -> 0 <= counter p k < slip r ->
  let vs := verdictsOf k calls (consumeAll r p calls).1 in
  countOf Slipped vs <= (counter p k + countOf Slipped vs + countOf Dropped vs) / slip r /\
  (forall D, fits (H1 := rrlBuckets r) D p k calls ->
   countOf Slipped vs = (counter p k + countOf Slipped vs + countOf Dropped vs) / slip r).
Proof.
  intros Hslip. revert p. induction calls as [|[k0 now] calls IH]; intros p Hp Hk.
  { cbn zeta. unfold verdictsOf, countOf. cbn. rewrite !Z.add_0_r, Z.div_small by done. by split. }
  destruct (poolStep_spend (H1 := rrlBuckets r) p k0 now Hp) as (_ & Hp' & _ & Ho).
  assert (forall D, fits (H1 := rrlBuckets r) D p k ((k0, now) :: calls) ->
    fits (H1 := rrlBuckets r) D (consume r p k0 (rateOf r k0.2) now).2 k calls /\
    (k0 <> k -> ShardFor (consume r p k0 (rateOf r k0.2) now).2 k !! k = ShardFor p k !! k)) as Hfit.
  { intros D Hf. pose proof (fits_step (H1 := rrlBuckets r) D p k k0 now calls Hp Hf) as X. by rewrite consume_step in X. }
  rewrite consume_step in Hp', Ho. cbn [snd] in Hp', Ho.
  pose proof (consume_counter r p k0 now Hp) as Hcnt. cbn [consumeAll].
  destruct (consume r p k0 (rateOf r k0.2) now) as [v p']. cbn [snd] in *. destruct Hcnt as (E & E1 & E2).
  specialize (IH p' Hp'). destruct (consumeAll r p' calls) as [vs p''] eqn:Er. cbn [fst] in *.
  unfold verdictsOf in *. cbn [zip zip_with]. rewrite filter_cons. cbn [fst].
  destruct (decide (k0 = k)) as [->|Hne].
  - rewrite (proj2 (Z.ltb_lt 0 (slip r))) in E by done. cbn [fmap list_fmap snd]. unfold countOf in *. rewrite !filter_cons.
    rewrite E in IH. destruct v; repeat (case_decide; try done); rewrite ?zlen_cons.
    + destruct (IH ltac:(done)) as [I1 I2]. split; [done|]. intros D Hf. by apply (I2 D), (Hfit D).
    + destruct (IH ltac:(lia)) as [I1 I2]. destruct (E1 eq_refl). set (s := zlen (filter (fun u => u = Slipped) _)) in *. set (d := zlen (filter (fun u => u = Dropped) _)) in *.
      replace (counter p k + (1 + s) + d) with (0 + s + d + (counter p k + 1)) by lia.
      assert (counter p k + 1 = 1 * slip r) as -> by lia. rewrite Z.div_add by lia. split; [lia|].
      intros D Hf. rewrite (I2 D) at 1; [lia|]. by apply (Hfit D).
    + destruct (IH ltac:(specialize (E2 eq_refl); lia)) as [I1 I2]. set (s := zlen (filter (fun u => u = Slipped) _)) in *. set (d := zlen (filter (fun u => u = Dropped) _)) in *.
      replace (counter p k + s + (1 + d)) with (counter p k + 1 + s + d) by lia. split; [done|].
      intros D Hf. apply (I2 D). by apply (Hfit D).
  - set (s := countOf Slipped _) in *. set (d := countOf Dropped _) in *.
    assert (counter p' k = counter p k \/ counter p' k = 0) as Hc'.
    { unfold counter. destruct (Ho k ltac:(done)) as [Eo|Eo]; rewrite Eo; [by left|by right]. }
    destruct (IH ltac:(lia)) as [I1 I2]. split.
    + etrans; [exact I1|]. apply Z.div_le_mono; lia.
    + intros D Hf. destruct (Hfit D Hf) as [Hf' Eo]. specialize (Eo Hne).
      assert (counter p k = counter p' k) as -> by (unfold counter; by rewrite Eo). by apply (I2 D).
Qed.

Lemma consumeAll_never r k calls p : slip r <= 0 -> pool_wf p ->
  countOf Slipped (verdictsOf k calls (consumeAll r p calls).1) = 0.
Proof.
  intros Hslip. revert p. induction calls as [|[k0 now] calls IH]; intros p Hp; [done|]. cbn [consumeAll].
  pose proof (consume_counter r p k0 now Hp) as Hcnt.
  assert (pool_wf (consume r p k0 (rateOf r k0.2) now).2) as Hp'.
  { unfold consume. destruct (consumeShard _ _ _ _ _). by apply setShard_wf. }
  destruct (consume r p k0 (rateOf r k0.2) now) as [v p']. destruct Hcnt as (_ & E1 & _). cbn [snd] in Hp'.
  specialize (IH p' Hp'). destruct (consumeAll r p' calls) as [vs p'']. cbn [fst] in *.
  unfold verdictsOf in *. cbn [zip zip_with]. rewrite filter_cons. cbn [fst]. destruct (decide (k0 = k)); [|done].
  cbn [fmap list_fmap snd]. unfold countOf in *. rewrite filter_cons. rewrite decide_False; [done|].
  intros ->. destruct (E1 eq_refl). lia.
Qed.

(** The bucket of a key at the start of a window, if there is one: a balance
    between zero and the burst, none from the future, and a count of held-back
    responses below the slip rate. *)
Definition settled_bucket (r : rrl.t) (lo : Z) (b : rrlBucket) : Prop :=
  (0 <= rrl.tokens b <= rrl.burst r)%Q /\ rrl.updated b <= lo /\ (0 < slip r -> 0 <= slipCounter b < slip r).


(** ** Fresh keys and tiny bursts *)

(** A bucket made on the spot admits its first response when the burst is at
    least one. *)
Lemma spend_fresh `{!Float64Laws} burst rate now : (1 <= burst)%Q -> (spend burst rate (burst, now) now).1 = true.
Proof.
  intros Hb. unfold spend. cbn [fst snd]. assert (timeSub now now = 0) as -> by (unfold timeSub; lia).
  assert (Seconds 0 == 0)%Q as E0.
  { unfold Seconds, fadd, fdiv. change (Z.quot 0 Second) with 0. change (Z.rem 0 Second) with 0.
    rewrite !fofZ_exact by (unfold Second; lia).
    assert (inject_Z 0 / inject_Z Second == inject_Z 0)%Q as E1 by done. rewrite E1, (rnd_int 0) by lia.
    assert (inject_Z 0 + inject_Z 0 == inject_Z 0)%Q as E2 by done. by rewrite E2, (rnd_int 0) by lia. }
  assert (fmul (Seconds 0) rate == 0)%Q as E1.
  { unfold fmul. rewrite E0. assert (0 * rate == inject_Z 0)%Q as E2 by (change (inject_Z 0) with 0%Q; ring).
    by rewrite E2, (rnd_int 0) by lia. }
  assert (1 <= fadd burst (fmul (Seconds 0) rate))%Q as H2'.
  { unfold fadd. rewrite E1. change (1%Q) with (inject_Z 1). rewrite <- (rnd_int 1) by done. apply rnd_mono.
    change (inject_Z 1) with 1%Q. lra. }
  unfold refill. set (x := fadd _ _) in *. destruct (flt burst x) eqn:E.
  - assert (flt burst 1 = false) as -> by (by apply flt_false). done.
  - assert (flt x 1 = false) as -> by (by apply flt_false). done.
Qed.

Lemma refill_le burst rate t e : (refill burst rate t e <= burst)%Q.
Proof. unfold refill. destruct (flt burst _) eqn:E; [apply Qle_refl|]. by apply flt_false in E. Qed.

Lemma consume_fresh `{!Float64Laws} r p k rate now : (1 <= rrl.burst r)%Q -> ShardFor p k !! k = None ->
  (consume r p k rate now).1 = Allowed.
Proof.
  intros Hb Hk. unfold consume. pose proof (consumeShard_spec r (ShardFor p k) k rate now) as Hs. cbn zeta in Hs.
  unfold bucketAt in Hs. rewrite Hk in Hs. cbn [rrl.tokens rrl.updated] in Hs.
  pose proof (spend_fresh (rrl.burst r) rate now Hb) as Hf. destruct (spend _ _ _ now) as [ok [tk tm]]. cbn [fst] in Hf.
  subst ok. by rewrite Hs.
Qed.

(** A call adds no key but its own. *)
Lemma consume_dom r p k rate now k' : pool_wf p -> k' <> k -> ShardFor p k' !! k' = None ->
  ShardFor (consume r p k rate now).2 k' !! k' = None.
Proof.
  intros Hp Hne Hk'. unfold consume. pose proof (consumeShard_spec r (ShardFor p k) k rate now) as Hs. cbn zeta in Hs.
  destruct (spend _ _ _ now) as [ok [tk tm]]. rewrite Hs. clear Hs. cbn [snd]. rewrite ShardFor_set by done.
  destruct (decide _) as [E|]; [|done]. rewrite lookup_insert_ne by done.
  assert (ShardFor p k' = ShardFor p k) as Esh by (unfold ShardFor; by rewrite E).
  rewrite Esh in Hk'. unfold shardAt. destruct (ShardFor p k !! k); [done|]. destruct (_ && _); [|done].
  unfold rrl.evictLocked. set (sh := if flt 0 _ then _ else _).
  assert (sh !! k' = None) as Hsh.
  { unfold sh. destruct (flt 0 _); [|done]. apply map_lookup_filter_None. by left. }
  destruct (_ || _); [done|]. destruct (oldest _ _) as [[k0 t0]|]; [|done]. apply lookup_delete_None. by right.
Qed.

(** Responses that each have a key of their own are all forwarded, whatever
    the rates, the times and the evictions. *)
Lemma distinct_keys_forwarded `{!Float64Laws} r calls p : (1 <= rrl.burst r)%Q -> pool_wf p ->
  NoDup calls.*1 -> Forall (fun k => ShardFor p k !! k = None) calls.*1 ->
  Forall (fun v => v = Allowed) (consumeAll r p calls).1.
Proof.
  intros Hb. revert p. induction calls as [|[k now] calls IH]; intros p Hp Hd Ha; [constructor|].
  apply NoDup_cons in Hd as [Hk Hd]. apply Forall_cons in Ha as [Hk0 Ha]. cbn [fst] in *.
  cbn [consumeAll]. pose proof (consume_fresh r p k (rateOf r k.2) now Hb Hk0) as Hv.
  assert (pool_wf (consume r p k (rateOf r k.2) now).2) as Hp'.
  { unfold consume. destruct (consumeShard _ _ _ _ _). by apply setShard_wf. }
  assert (Forall (fun k' => ShardFor (consume r p k (rateOf r k.2) now).2 k' !! k' = None) calls.*1) as Ha'.
  { rewrite Forall_forall in Ha |- *. intros k' Hk'. apply consume_dom; [done|set_solver|by apply Ha]. }
  destruct (consume r p k _ now) as [v p']. cbn [fst snd] in *. subst v.
  specialize (IH p' Hp' Hd Ha'). by destruct (consumeAll r p' calls); constructor.
Qed.

(** With a burst below one no response of a limited class is ever forwarded. *)
Lemma small_burst_blocks r p k rate now : (rrl.burst r < 1)%Q -> (consume r p k rate now).1 <> Allowed.
Proof.
  intros Hb. unfold consume. pose proof (consumeShard_spec r (ShardFor p k) k rate now) as Hs. cbn zeta in Hs.
  unfold spend in Hs. set (t := refill _ _ _ _) in Hs. pose proof (refill_le (rrl.burst r) rate (rrl.tokens (bucketAt r (ShardFor p k) k now), rrl.updated (bucketAt r (ShardFor p k) k now)).1 (Seconds (timeSub now (rrl.tokens (bucketAt r (ShardFor p k) k now), rrl.updated (bucketAt r (ShardFor p k) k now)).2))) as Hle.
  fold t in Hle. assert (flt t 1 = true) as E by (apply flt_spec; lra). rewrite E in Hs. rewrite Hs.
  by destruct (_ && _).
Qed.

(** Neither limiter keeps more buckets than its option asks for, up to the
    rounding to a whole number per shard. *)
Theorem buckets_bounded (opts : list RRLOption) (calls : list (rrl.Key * Z)) `{MapHash RateLimit.Key}
    (lopts : list RateLimitOption) (queries : list (Addr * Z)) (n : Z) :
  0 < n ->
  (c_maxKeys (fold_left rrl.applyOption opts (mkConfig (inject_Z 10) (inject_Z 5) (inject_Z 5) 0 2 24 56 100000)) = n ->
   Len (consumeAll (NewRRL opts) New calls).2 <= n + 63) /\
  (RateLimit.c_maxKeys (fold_left applyRateLimitOption lopts (mkRLConfig (inject_Z 10) 20 false 0 0 100000)) = n ->
   Len (allowAll (NewRateLimit lopts) New queries).2 <= n + 63).
Proof.
  intros Hn.
  assert (0 < PerShardCap n /\ PerShardCap n * 64 <= n + 63) as [Hc Hc'].
  { unfold PerShardCap, NumShards. destruct (n <=? 0) eqn:E; bool_facts; [lia|]. Z.to_euclidean_division_equations. lia. }
  assert (forall (K V : Type) `{Countable K}, Forall (fun sh : gmap K V => Z.of_nat (size sh) <= PerShardCap n) New) as Hnew.
  { intros. apply Forall_replicate. rewrite map_size_empty. lia. }
  assert (forall (K V : Type) `{Countable K} (p : Pool K V), length p = Z.to_nat NumShards ->
    Forall (fun sh : gmap K V => Z.of_nat (size sh) <= PerShardCap n) p -> Len p <= n + 63) as Hlen.
  { intros K V ? ? p Hl Hp. pose proof (Len_bound p _ Hp) as Hb. unfold zlen in Hb. rewrite Hl in Hb. change (Z.of_nat (Z.to_nat NumShards)) with 64 in Hb. lia. }
  split; intros E.
  - pose proof (f_equal snd (consumeAll_run (NewRRL opts) New calls)) as Hr. cbn [snd] in Hr. rewrite Hr.
    assert (tb_cap (TokenBuckets := rrlBuckets (NewRRL opts)) = PerShardCap n) as Ecap by (cbn; by rewrite <- E).
    apply Hlen; [by apply poolRun_wf|]. rewrite <- Ecap in *. apply poolRun_bounded; [done|apply New_wf|apply Hnew].
  - rewrite allowAll_run.
    assert (tb_cap (TokenBuckets := limiterBuckets (NewRateLimit lopts)) = PerShardCap n) as Ecap by (cbn; by rewrite <- E).
    apply Hlen; [by apply poolRun_wf|]. rewrite <- Ecap in *. apply (poolRun_bounded (H2 := limiterBuckets_laws _)); [done|apply New_wf|apply Hnew].
Qed.
End Limiter.

(** ** The name a response is accounted to *)

Lemma isAncestor_loop_spec fuel a d : canonical d -> (length (wire d) <= fuel)%nat ->
  isAncestor_loop fuel a d = true <-> exists p, up d p /\ anc p a.
Proof.
  intros Hc. revert fuel. induction Hc as [d Hc IH] using name_ind. intros fuel Hf.
  assert (0 < length (wire d))%nat as Hpos.
  { pose proof (canonical_valid d Hc) as Hv. unfold IsValid, zlen in Hv. bool_facts. lia. }
  destruct fuel as [|fuel]; [lia|]. cbn [isAncestor_loop]. destruct (Parent d) as [p|] eqn:Ep.
  - pose proof (up_shorter d p Hc Ep). destruct (Equal a p) eqn:E.
    + apply Equal_iff in E as ->. split; [intros _; exists p; by split|done].
    + apply Equal_false in E. rewrite (IH p Ep) by lia. split.
      * intros (x & Hx & Ha). exists p. split; [done|]. by eapply rtc_l.
      * intros (x & Hx & Ha). unfold up in Hx. rewrite Ep in Hx. injection Hx as <-.
        inversion Ha as [|? y ? Hy Ha']; subst; [done|]. by exists y.
  - split; [done|]. intros (x & Hx & _). unfold up in Hx. congruence.
Qed.

Lemma isAncestorOrEqual_anc a d : canonical d -> isAncestorOrEqual a d = true <-> anc d a.
Proof.
  intros Hc. unfold isAncestorOrEqual. destruct (Equal a d) eqn:E.
  - apply Equal_iff in E as ->. done.
  - apply Equal_false in E. rewrite isAncestor_loop_spec by done. split.
    + intros (p & Hp & Ha). by eapply rtc_l.
    + intros Ha. inversion Ha as [|? y ? Hy Ha']; subst; [done|]. by exists y.
Qed.

Lemma canonical_root n : canonical n -> anc n Root.
Proof.
  intros Hc. induction Hc as [n Hc IH] using name_ind.
  destruct (canonical_cases n Hc) as [[-> _]|(l & ls & p & _ & _ & Hp & _)]; [done|]. eapply rtc_l; [exact Hp|by apply IH].
Qed.

(** Raising a name to the first ancestor it shares with another. *)
Lemma raise_loop_spec fuel n m : canonical n -> canonical m -> (length (wire n) < fuel)%nat ->
  exists c, raise_loop fuel n m = (c, false) /\ anc n c /\ anc m c /\ forall p, anc n p -> anc m p -> anc c p.
Proof.
  intros Hn Hm. revert fuel. induction Hn as [n Hn IH] using name_ind. intros fuel Hf.
  destruct fuel as [|fuel]; [lia|]. cbn [raise_loop]. destruct (isAncestorOrEqual n m) eqn:E.
  - apply isAncestorOrEqual_anc in E; [|done]. exists n. repeat split; done.
  - assert (~ anc m n) as Hno by (rewrite <- isAncestorOrEqual_anc by done; congruence).
    destruct (Parent n) as [p|] eqn:Ep.
    + pose proof (up_shorter n p Hn Ep). destruct (IH p Ep fuel ltac:(lia)) as (c & -> & H1 & H2 & H3).
      exists c. split; [done|]. split; [by eapply rtc_l|]. split; [done|]. intros x Hx Hmx.
      apply H3; [|done]. inversion Hx as [|? y ? Hy Hx']; subst; [done|]. unfold up in Hy. congruence.
    + exfalso. apply Hno. destruct (canonical_cases n Hn) as [[-> _]|(l & ls & q & _ & _ & Hq & _)]; [by apply canonical_root|congruence].
Qed.

Lemma commonAncestor_spec recs n : canonical n -> Forall (fun r => canonical (r_name r)) recs ->
  let c := commonAncestor n recs in
  anc n c /\ Forall (fun r => anc (r_name r) c) recs /\
  forall p, anc n p -> Forall (fun r => anc (r_name r) p) recs -> anc c p.
Proof.
  intros Hn Hr. revert n Hn. induction Hr as [|r recs Hc Hr IH]; intros n Hn; cbn [commonAncestor].
  { repeat split; [done|constructor|done]. }
  destruct (raise_loop_spec (S (length (wire n))) n (r_name r) Hn Hc ltac:(lia)) as (c & -> & H1 & H2 & H3).
  destruct (IH c (canonical_anc _ _ Hn H1)) as (I1 & I2 & I3). split; [by etrans|]. split.
  - constructor; [by etrans|done].
  - intros p Hp [Hpr Hps]%Forall_cons. apply I3; [by apply H3|done].
Qed.

(** The name a positive answer without an authority record of type SOA is
    accounted to is the deepest common ancestor of the owners of its answers. *)
Lemma positive_key (m q : Message) :
  classify m = rrlClassPositive -> authoritySectionName m rrtype.SOA = None ->
  Forall (fun r => canonical (r_name r)) (answers m) ->
  let c := responseKeyName m q in
  Forall (fun r => anc (r_name r) c) (answers m) /\
  forall p, Forall (fun r => anc (r_name r) p) (answers m) -> anc c p.
Proof.
  intros Hcl Hsoa Hca. unfold responseKeyName. rewrite Hcl, Hsoa. unfold answerCommonAncestor.
  assert (answers m <> []) as Hne.
  { intros E. unfold classify in Hcl. rewrite E in Hcl. by repeat (split_if; try done). }
  destruct (answers m) as [|r recs]; [done|]. rewrite zlen_cons.
  destruct (1 + zlen recs =? 0) eqn:E; [bool_facts; pose proof (zlen_nonneg recs); lia|].
  apply Forall_cons in Hca as [Hr Hrs]. destruct (commonAncestor_spec recs (r_name r) Hr Hrs) as (H1 & H2 & H3).
  cbn zeta. split; [by constructor|]. intros p [Hp Hps]%Forall_cons. by apply H3.
Qed.

(** ** Responses that never share a bucket *)

(** An error, or a positive answer at the name that was asked for. *)
Definition own_name (m q : Message) (n : Name) : Prop :=
  canonical n /\ (exists qq qs, questions q = qq :: qs /\ q_name qq = n) /\
  (classify m = rrlClassError \/
   classify m = rrlClassPositive /\ authoritySectionName m rrtype.SOA = None /\
   Forall (fun r => r_name r = n) (answers m)).

Lemma own_name_key m q n : own_name m q n -> responseKeyName m q = n.
Proof.
  intros (Hc & (qq & qs & Eq & En) & [Hcl|(Hcl & Hsoa & Ha)]).
  - unfold responseKeyName, firstQuestionName. by rewrite Hcl, Eq.
  - destruct (positive_key m q Hcl Hsoa) as [H1 H2].
    { eapply Forall_impl; [exact Ha|]. by intros r ->. }
    assert (exists r, r ∈ answers m) as [r Hr].
    { unfold classify in Hcl. destruct (answers m) as [|r rs] eqn:E; [|exists r; set_solver].
      exfalso. by repeat (split_if; try done). }
    rewrite Forall_forall in H1, Ha. pose proof (H1 r Hr) as A1. rewrite (Ha r Hr) in A1.
    assert (anc (responseKeyName m q) n) as A2.
    { apply H2. apply Forall_forall. intros r' Hr'. by rewrite (Ha r' Hr'). }
    symmetry. apply anc_antisym; [done|by eapply canonical_anc|done|done].
Qed.

Section Unlimited.
Context `{Float64Laws} `{MapHash rrl.Key} `{MapRange}.

(** A response [m] to the query [q], written at a time. *)
Definition keyAt (r : rrl.t) (src : Addr) (c : Message * Message * Z) : rrl.Key * Z :=
  let '(m, q, now) := c in (bucketKey r src (responseKeyName m q) (classify m), now).

(** The limiter does not limit a flood of queries for ever new names: to
    one source, any number of error responses (BADCOOKIE replies among them)
    and of positive answers at the queried name are all forwarded, at whatever
    rate, as long as no name comes twice. *)
Theorem rrl_random_names_unlimited (r : rrl.t) (p : Pool rrl.Key rrlBucket) (src : Addr)
    (resps : list (Message * Message * Z)) (names : list Name) :
  (1 <= rrl.burst r)%Q -> pool_wf p ->
  Forall2 (fun c n => own_name c.1.1 c.1.2 n) resps names -> NoDup names ->
  Forall (fun k => ShardFor p k !! k = None) (map (keyAt r src) resps).*1 ->
  (consumeAll r p (map (keyAt r src) resps)).1 = replicate (length resps) Allowed.
Proof.
  intros Hb Hp Hn Hd Ha.
  assert (Forall (fun v => v = Allowed) (consumeAll r p (map (keyAt r src) resps)).1) as Hall.
  { apply distinct_keys_forwarded; [done|done| |done]. clear Ha. revert Hd. induction Hn as [|[[m q] t] n resps names Ho Hn IH]; intros Hd; [constructor|].
    apply NoDup_cons in Hd as [Hni Hd]. cbn. constructor; [|by apply IH]. cbn [fst snd] in Ho. rewrite (own_name_key _ _ _ Ho).
    intros ([k t'] & E & Hin)%list_elem_of_fmap. cbn [fst] in E. subst k. apply Hni. apply list_elem_of_fmap in Hin as ([[m' q'] t''] & E & Hin).
    cbn in E. injection E as E _ _. apply list_elem_of_lookup in Hin as [i Hi].
    destruct (Forall2_lookup_l _ _ _ _ _ Hn Hi) as (n' & Hn' & Ho'). cbn [fst snd] in Ho'. rewrite (own_name_key _ _ _ Ho') in E.
    destruct Ho as ((ls & Hw & _) & _), Ho' as ((ls' & Hw' & _) & _).
    apply (String_inj _ _ _ _ Hw Hw') in E as ->. apply list_elem_of_lookup. by exists i. }
  assert (length (consumeAll r p (map (keyAt r src) resps)).1 = length resps) as Hl.
  { rewrite <- (length_map (keyAt r src)). generalize (map (keyAt r src) resps) as calls, p. clear.
    induction calls as [|[k t] calls IH]; intros p; [done|]. cbn [consumeAll]. destruct (consume _ _ _ _ _) as [v p'].
    specialize (IH p'). destruct (consumeAll r p' calls). cbn in *. lia. }
  rewrite <- Hl. clear Hl. revert Hall. generalize (consumeAll r p (map (keyAt r src) resps)).1 as vs.
  induction 1 as [|v vs -> _ IH]; [done|]. cbn. by f_equal.
Qed.
End Unlimited.

(** With rates of at most two fifths of a response per second and the
    default burst, no limited response is ever forwarded: the burst, twice the
    largest rate truncated to an integer, is zero. *)
Theorem rrl_small_rates_block `{Float64Laws} `{MapHash rrl.Key} `{MapRange} (a b c : Q) (opts : list RRLOption)
    (p : Pool rrl.Key rrlBucket) (k : rrl.Key) (rate : Q) (now : Z) :
  (0 < a <= 2 # 5)%Q -> (0 < b <= 2 # 5)%Q -> (0 < c <= 2 # 5)%Q ->
  Forall (fun o => match o with RRLSlipRate _ | RRLIPv4Prefix _ | RRLIPv6Prefix _ | RRLMaxKeys _ => True | _ => False end) opts ->
  (consume (NewRRL ([RRLQPS a; RRLNXDOMAINQPS b; RRLErrorQPS c] ++ opts)) p k rate now).1 <> Allowed.
Proof.
  intros Ha Hb Hc Ho. apply small_burst_blocks. unfold NewRRL. rewrite fold_left_app. cbn [fold_left rrl.applyOption].
  assert (forall cfg, let cfg' := fold_left rrl.applyOption opts cfg in
    c_respPerSecond cfg' = c_respPerSecond cfg /\ c_nxdomainsPerS cfg' = c_nxdomainsPerS cfg /\
    c_errorsPerSecond cfg' = c_errorsPerSecond cfg /\ rrl.c_burst cfg' = rrl.c_burst cfg) as Hopts.
  { clear -Ho. induction Ho as [|o opts Ho _ IH]; intros cfg; [done|]. cbn [fold_left].
    destruct (IH (rrl.applyOption cfg o)) as (-> & -> & -> & ->). by destruct cfg, o. }
  match goal with |- context [fold_left _ opts ?cfg] => destruct (Hopts cfg) as (E1 & E2 & E3 & E4) end.
  cbn [rrl.burst]. rewrite E1, E2, E3, E4. cbn [c_respPerSecond c_nxdomainsPerS c_errorsPerSecond rrl.c_burst]. change (0 =? 0) with true. cbv iota.
  set (largest := largestOf a b c).
  assert (0 < largest <= 2 # 5)%Q as Hl.
  { unfold largest, largestOf. destruct (flt a b); destruct (flt _ c); lra. }
  assert (fle largest 0 = false) as ->.
  { unfold fle. destruct (Qle_bool largest 0) eqn:E; [|done]. apply Qle_bool_iff in E. lra. }
  assert (fofZ 2 == 2)%Q as E5 by (by rewrite fofZ_exact by lia).
  assert (0 <= fmul (fofZ 2) largest /\ fmul (fofZ 2) largest < 1)%Q as [Hf0 Hf1].
  { unfold fmul. split; [apply rnd_nonneg; rewrite E5; lra|].
    assert (fofZ 2 * largest == 2 * largest)%Q as E6 by (rewrite E5; ring). rewrite E6.
    pose proof big_fmax. pose proof big_pos. pose proof (rnd_near (2 * largest) 1 ltac:(lra) ltac:(lra)) as Hr. unfold ulp in Hr. lra. }
  assert (toInt64 (fmul (fofZ 2) largest) = 0) as ->.
  { set (x := fmul _ _) in *. rewrite toInt64_trunc.
    - destruct x as [xn xd]. unfold Qle, Qlt in Hf0, Hf1. cbn in Hf0, Hf1 |- *. apply Z.quot_small. lia.
    - rewrite Qabs_pos by done. apply (Qlt_trans _ 1); done. }
  assert (fofZ 0 == 0)%Q as E7 by (by rewrite fofZ_exact by lia). rewrite E7. done.
Qed.

(** ** Samples *)

Module SampleRrl.
#[export] Instance hash : MapHash rrl.Key := {| maphash _ := 9 |}.
Definition victim : Addr := Addr4 [198; 51; 100; 7].
(** Two per second for positive answers, a burst of two, every second slipped. *)
Definition r : rrl.t := NewRRL (H := exactFloat) [RRLQPS 2; RRLBurst 2; RRLMaxKeys 64].
Definition host (c : Z) : Name := nm [[c]; str "example"].
Definition key : rrl.Key := bucketKey r victim (host 97) rrlClassPositive.
Definition calls : list (rrl.Key * Z) := [(key, 0); (key, 0); (key, 1); (key, 2); (key, 1000000000); (key, 3); (key, 4)].

Definition query (n : Name) : Message :=
  mkMessage 7 0 [NewQuestion n rrtype.A] [] [] [] (edns zeroMessage) false.
Definition refused (n : Name) : Message :=
  mkMessage 7 (WithRCODE RCODERefused (WithResponse true 0)) [NewQuestion n rrtype.A] [] [] [] (edns zeroMessage) false.
Definition flood : list (Message * Message * Z) :=
  map (fun c => (refused (host c), query (host c), 0)) [97; 98; 99; 100].
End SampleRrl.


Lemma buckets_bounded_witness :
  (Len (consumeAll (H := exactFloat) (H0 := SampleRrl.hash) (H1 := SampleLimiter.inKeyOrder)
          (NewRRL (H := exactFloat) [RRLMaxKeys 64]) New SampleRrl.calls).2 <= 64 + 63) /\
  (Len (allowAll (H := exactFloat) (H0 := SampleLimiter.hash) (H1 := SampleLimiter.inKeyOrder)
          (NewRateLimit (H := exactFloat) [RateLimitMaxKeys 64]) New SampleLimiter.calls).2 <= 64 + 63).
Proof.
  destruct (buckets_bounded (H := exactFloat) (H0 := SampleRrl.hash) (H1 := SampleLimiter.inKeyOrder) (H2 := SampleLimiter.hash)
    [RRLMaxKeys 64] SampleRrl.calls [RateLimitMaxKeys 64] SampleLimiter.calls 64 ltac:(lia)) as [X Y].
  split; [by apply X|by apply Y].
Defined.

Lemma rrl_random_names_unlimited_witness :
  (consumeAll (H := exactFloat) (H0 := SampleRrl.hash) (H1 := SampleLimiter.inKeyOrder) SampleRrl.r New
     (map (keyAt SampleRrl.r SampleRrl.victim) SampleRrl.flood)).1 = [Allowed; Allowed; Allowed; Allowed].
Proof.
  apply (rrl_random_names_unlimited (H := exactFloat) (H0 := exactFloat_laws) (H1 := SampleRrl.hash) (H2 := SampleLimiter.inKeyOrder)
    SampleRrl.r New SampleRrl.victim SampleRrl.flood (map SampleRrl.host [97; 98; 99; 100])).
  - by vm_compute.
  - done.
  - do 4 (constructor; [split; [apply labels_okb_canonical; by vm_compute|]; split; [by eexists _, _|]; left; by vm_compute|]).
    constructor.
  - decide_now.
  - do 4 (constructor; [by vm_compute|]). constructor.
Defined.

Lemma rrl_small_rates_block_witness :
  (consume (H := exactFloat) (H0 := SampleRrl.hash) (H1 := SampleLimiter.inKeyOrder)
     (NewRRL (H := exactFloat) [RRLQPS (1 # 10); RRLNXDOMAINQPS (1 # 10); RRLErrorQPS (1 # 10); RRLSlipRate 3])
     New SampleRrl.key (1 # 10) 0).1 <> Allowed.
Proof.
  apply (rrl_small_rates_block (H := exactFloat) (H0 := exactFloat_laws) (H1 := SampleRrl.hash) (H2 := SampleLimiter.inKeyOrder)
    (1 # 10) (1 # 10) (1 # 10) [RRLSlipRate 3] New SampleRrl.key (1 # 10) 0).
  - by vm_compute.
  - by vm_compute.
  - by vm_compute.
  - by repeat constructor.
Defined.
