(* ===== verification/Cookies.v ===== *)
(** * DNS cookies (src/cookies/cookies.go, src/cookies/option.go)

    The client's cache of cookies per server, the server's pool of secrets,
    and the minting and checking of server cookies; the layer that puts them
    in front of a handler is in Middleware.v.  HMAC-SHA256 is that of the class [Hmac] of
    Tsig.v.  [crypto/rand] supplies the octets a call draws as an argument,
    [None] when it fails.  Within one request the pool of secrets is fixed. *)

From Stdlib Require Import Strings.String.
From S2P Require Import Prelude Name Wire RData RDataNew Message EdnsOptions Netip Tsig Handler.
Open Scope Z_scope.
Open Scope list_scope.

Definition BADCOOKIE : Z := 23.

(** [extractCookieFromMsg]: the first cookie option that parses. *)
Fixpoint firstCookie (l : list EDNSOption) : option (bytes * bytes) :=
  match l with
  | [] => None
  | o :: l =>
      if negb (code o =? EDNSOptionCookie) then firstCookie l
      else match EdnsOptions.Cookies o with
      | None => firstCookie l
      | Some c => Some c
      end
  end.
Definition extractCookieFromMsg (msg : Message) : option (bytes * bytes) :=
  if hasEDNS msg then firstCookie (opts (edns msg)) else None.

Definition combinedRCODE (msg : Message) : Z :=
  let low := RCODE (flags msg) in
  if hasEDNS msg then Z.lor (Z.shiftl (extRCODE (edns msg)) 4) (Z.land low 0x0f) else low.

(** ** The client *)

#[export] Instance AddrPort_countable : Countable AddrPort.
Proof.
  refine (inj_countable' (fun ap => (ap_addr ap, ap_port ap)) (fun '(a, p) => mkAddrPort a p) _).
  by intros [].
Defined.

Module Client.
Definition DefaultClientMaxEntries : Z := 8192.
Definition maxBadCookieRetries : Z := 1.

Record clientEntry := mkEntry {
  clientCookie : bytes; serverCookie : bytes; updated : Z; badCookieStreak : Z }.

(** The zero [clientEntry], which a lookup of an absent server yields. *)
Definition zeroEntry : clientEntry := mkEntry (replicate 8 0) [] 0 0.

Record t := mk {
  cache : gmap AddrPort clientEntry; maxEntries : Z; rngFailures : Z; rngLogged : bool }.

Inductive ClientOption := ClientMaxEntries (n : Z) | ClientClock | ClientLogger.
Definition NewClient (opts : list ClientOption) : t :=
  mk ∅ (fold_left (fun n o => match o with ClientMaxEntries n => n | _ => n end) opts DefaultClientMaxEntries) 0 false.

Definition RNGFailures (c : t) : Z := rngFailures c.

Definition setCache (c : t) (m : gmap AddrPort clientEntry) : t := mk m (maxEntries c) (rngFailures c) (rngLogged c).

Section Evict.
Context `{MapRange}.

(** The loop over [oldestKey] and [oldestTime]. *)
Definition oldestStep (acc : option (AddrPort * Z)) (kv : AddrPort * clientEntry) : option (AddrPort * Z) :=
  match acc with
  | None => Some (kv.1, updated kv.2)
  | Some (_, t) => if updated kv.2 <? t then Some (kv.1, updated kv.2) else acc
  end.
Definition evictLocked (m : gmap AddrPort clientEntry) : gmap AddrPort clientEntry :=
  match fold_left oldestStep (mapRange m) None with
  | None => m
  | Some (k, _) => delete k m
  end.

(** [if c.maxEntries > 0 && len(c.cache) >= c.maxEntries { c.evictLocked() }] *)
Definition makeRoom (c : t) : gmap AddrPort clientEntry :=
  if (0 <? maxEntries c) && (maxEntries c <=? Z.of_nat (size (cache c))) then evictLocked (cache c) else cache c.

(** The option that Apply adds. *)
Definition cookieOption (e : clientEntry) : EDNSOption :=
  if 8 <=? zlen (serverCookie e) then
    match NewClientServerCookie (clientCookie e) (serverCookie e) with
    | Ok opt => opt
    | Err _ => NewClientCookie (clientCookie e)
    end
  else NewClientCookie (clientCookie e).

(** [random] is what crypto/rand would yield, used for an unknown server. *)
Definition Apply (c : t) (now : Z) (random : option bytes) (server : AddrPort) (b : EDNSBuilder.t)
    : t * EDNSBuilder.t :=
  match cache c !! server with
  | None =>
      match random with
      | None => (mk (cache c) (maxEntries c) ((rngFailures c + 1) mod 18446744073709551616) true, b)
      | Some cc =>
          let e := mkEntry cc [] now 0 in
          (setCache c (<[server := e]> (makeRoom c)), b |> EDNSBuilder.Option (cookieOption e))
      end
  | Some e =>
      let e := mkEntry (clientCookie e) (serverCookie e) now (badCookieStreak e) in
      (setCache c (<[server := e]> (cache c)), b |> EDNSBuilder.Option (cookieOption e))
  end.

Definition Observe (c : t) (now : Z) (server : AddrPort) (resp : Message) : t :=
  match extractCookieFromMsg resp with
  | None => c
  | Some (cc, sc) =>
      if zlen sc <? 8 then c
      else
        let m := match cache c !! server with Some _ => cache c | None => makeRoom c end in
        setCache c (<[server := mkEntry cc sc now 0]> m)
  end.

Definition Retry (c : t) (now : Z) (server : AddrPort) (resp : Message) : t * res bool :=
  if negb (combinedRCODE resp =? BADCOOKIE) then (c, Ok false)
  else match extractCookieFromMsg resp with
  | None => (c, Err ErrCookieMissing)
  | Some (cc, sc) =>
      if zlen sc <? 8 then (c, Err ErrCookieTooShort)
      else
        let e := default zeroEntry (cache c !! server) in
        let m := match cache c !! server with Some _ => cache c | None => makeRoom c end in
        if maxBadCookieRetries <=? badCookieStreak e
        then (setCache c (<[server := mkEntry (clientCookie e) (serverCookie e) (updated e) 0]> m),
              Err ErrCookieRetryExhausted)
        else (setCache c (<[server := mkEntry cc sc now ((badCookieStreak e + 1) mod 256)]> m), Ok true)
  end.
End Evict.
End Client.

(** ** The secret pool *)

Definition Secret : Type := bytes.

Module SecretPool.
Record t := mk { current : Secret; previous : Secret }.

(** [Rotate], with the fresh secret, or the error of crypto/rand. *)
Definition Rotate (p : t) (random : res Secret) : res t :=
  match random with
  | Err e => Err (ErrWrapped e)
  | Ok fresh => Ok (mk fresh (current p))
  end.

Definition Current (p : t) : Secret := current p.
Definition All (p : t) : list Secret :=
  (if 0 <? zlen (current p) then [current p] else []) ++ (if 0 <? zlen (previous p) then [previous p] else []).

Inductive PoolOption := PoolRotateEvery (d : Z) | PoolContext (set : bool) | PoolLogger.

(** The options, and whether a goroutine then rotates the pool. *)
Definition applyOption (acc : Z * bool) (o : PoolOption) : Z * bool :=
  match o with
  | PoolRotateEvery d => (d, acc.2)
  | PoolContext set => (acc.1, acc.2 || set)
  | PoolLogger => acc
  end.
Definition NewSecretPool (random : res Secret) (opts : list PoolOption) : res (t * bool) :=
  let '(rotateEvery, ctx) := fold_left applyOption opts (0, false) in
  if (0 <? rotateEvery) && negb ctx then Err ErrPoolRotationNeedsContext
  else let? p := Rotate (mk [] []) random in Ok (p, 0 <? rotateEvery).
End SecretPool.

(** ** The server *)

Module Server.
Section WithHmac.
Context `{Hmac}.

(** [t.Unix()] *)
Definition Unix (t : Z) : Z := t / Second.

(** The octets that are hashed for an address. *)
Definition addrInput (a : Addr) : bytes :=
  if Is4 a then As4 a else if Is6 a then As16 a else [].

Definition mintCookie (secret : Secret) (clientCookie : bytes) (addr : Addr) (ts : Z) : bytes :=
  let out := [1; 0; 0; 0] ++ be32 (to_u32 (Unix ts)) in
  let mac := hmacSum MacSHA256 secret (clientCookie ++ out ++ addrInput addr) in
  out ++ take 8 mac.

Definition DefaultMaxFutureSkew : Z := 5 * 60 * Second.

(** The fields of [serverImpl] next to its pool. *)
Record t := mk { maxAge : Z; maxFutureSkew : Z }.
Inductive ServerOption := ServerMaxAge (d : Z) | ServerClockSkew (d : Z).
Definition applyOption (s : t) (o : ServerOption) : t :=
  match o with
  | ServerMaxAge d => if 0 <? d then mk d (maxFutureSkew s) else s
  | ServerClockSkew d => if 0 <? d then mk (maxAge s) d else s
  end.
Definition NewServer (opts : list ServerOption) : t :=
  fold_left applyOption opts (mk (3600 * Second) DefaultMaxFutureSkew).

Definition MaxAge (s : t) : Z := maxAge s.

Definition Make (s : t) (pool : SecretPool.t) (clientCookie : bytes) (clientAddr : Addr) (ts : Z) : bytes :=
  mintCookie (SecretPool.Current pool) clientCookie (Unmap clientAddr) ts.

(** [subtle.ConstantTimeCompare(want[8:], serverCookie[8:])] *)
Definition macMatches (clientCookie : bytes) (addr : Addr) (ts : Z) (serverCookie : bytes) (ok : Z) (sec : Secret) : Z :=
  let want := mintCookie sec clientCookie addr ts in
  Z.lor ok (if bool_decide (drop 8 want = drop 8 serverCookie) then 1 else 0).

Definition Validate (s : t) (pool : SecretPool.t) (serverCookie clientCookie : bytes) (clientAddr : Addr) (now : Z)
    : res Z :=
  if negb (zlen serverCookie =? 16) then Err ErrCookieMalformed
  else if negb (zget serverCookie 0 =? 1) then Err ErrCookieMalformed
  else
    let ts := u32at serverCookie 4 * Second in
    let addr := Unmap clientAddr in
    let ok := fold_left (macMatches clientCookie addr ts serverCookie) (SecretPool.All pool) 0 in
    if negb (ok =? 1) then Err ErrCookieMismatch
    else if maxAge s <? timeSub now ts then Err ErrCookieExpired
    else if maxFutureSkew s <? timeSub ts now then Err ErrCookieExpired
    else Ok ts.
End WithHmac.
End Server.
