(* ===== verification/CookiesSound.v ===== *)
(** * DNS cookies: theorems

    What a server cookie proves to the server that checks it, for how long,
    and what the client keeps. *)

From Stdlib Require Import Strings.String.
From S2P Require Import Prelude Name Wire RData RDataNew Message EdnsOptions Netip Tsig TsigSound Handler Cookies.
Open Scope Z_scope.
Open Scope list_scope.

(** ** Minting and checking *)

Section Cookie.
Context `{HL : HmacLaws}.

(** The header of a cookie: version, reserved octets, time. *)
Definition cookieHeader (secs : Z) : bytes := [1; 0; 0; 0] ++ be32 (to_u32 secs).

(** The octets under the MAC. *)
Definition cookieInput (cc : bytes) (secs : Z) (addr : Addr) : bytes :=
  cc ++ cookieHeader secs ++ Server.addrInput addr.

(** The tag of a client cookie, address and time under a secret. *)
Definition cookieTag (secret : Secret) (cc : bytes) (secs : Z) (addr : Addr) : bytes :=
  take 8 (hmacSum MacSHA256 secret (cookieInput cc secs addr)).

Lemma mintCookie_eq secret cc addr ts :
  Server.mintCookie secret cc addr ts = cookieHeader (Server.Unix ts) ++ cookieTag secret cc (Server.Unix ts) addr.
Proof. done. Qed.

Lemma cookieTag_len secret cc secs addr : length (cookieTag secret cc secs addr) = 8%nat.
Proof.
  unfold cookieTag. rewrite length_take. pose proof (hmac_len MacSHA256 secret (cookieInput cc secs addr)) as Hl.
  unfold zlen in Hl. cbn [macSize] in Hl. lia.
Qed.

Lemma mint_drop secret cc addr ts : drop 8 (Server.mintCookie secret cc addr ts) = cookieTag secret cc (Server.Unix ts) addr.
Proof. by rewrite mintCookie_eq. Qed.

Lemma mint_time secret cc addr ts :
  u32at (Server.mintCookie secret cc addr ts) 4 = to_u32 (Server.Unix ts).
Proof.
  rewrite mintCookie_eq. unfold u32at, cookieHeader, be32, zget. cbn -[to_u32 to_u8 Z.shiftr].
  apply get32_be32. unfold to_u32, u32. pose proof (Z.mod_pos_bound (Server.Unix ts) 4294967296). lia.
Qed.

Lemma mint_len secret cc addr ts : zlen (Server.mintCookie secret cc addr ts) = 16.
Proof. rewrite mintCookie_eq. unfold zlen. rewrite length_app, cookieTag_len. done. Qed.

(** The loop over the secrets. *)
Lemma macMatches_fold cc addr ts sc secrets n : n = 0 \/ n = 1 ->
  fold_left (Server.macMatches cc addr ts sc) secrets n =
    if bool_decide (n = 1 \/ Exists (fun sec => cookieTag sec cc (Server.Unix ts) addr = drop 8 sc) secrets) then 1 else 0.
Proof.
  revert n. induction secrets as [|sec secrets IH]; intros n Hn; cbn [fold_left].
  - destruct Hn as [->| ->].
    + rewrite bool_decide_eq_false_2; [done|]. intros [?|X]; [lia|]. by apply Exists_nil in X.
    + by rewrite bool_decide_eq_true_2 by by left.
  - unfold Server.macMatches at 2. rewrite mint_drop.
    case_bool_decide as E; (rewrite IH; [|destruct Hn as [->| ->]; (by left) || by right]).
    + rewrite (bool_decide_eq_true_2 (Z.lor n 1 = 1 \/ _)) by (left; destruct Hn as [->| ->]; done).
      rewrite bool_decide_eq_true_2; [done|]. right. by constructor.
    + rewrite Z.lor_0_r. erewrite bool_decide_ext; [done|]. rewrite Exists_cons. tauto.
Qed.

(** A server cookie is accepted exactly when it has the right length and
    version, its last eight octets are the tag of this client's cookie and
    address (IPv4-mapped or not) and of the time in it under a secret still in
    the pool, and that time is within the window. *)
Lemma cookie_exact (s : Server.t) (pool : SecretPool.t) (sc cc : bytes) (addr : Addr) (now ts : Z) :
  Server.Validate s pool sc cc addr now = Ok ts <->
  zlen sc = 16 /\ zget sc 0 = 1 /\ ts = u32at sc 4 * Second /\
  Exists (fun sec => cookieTag sec cc (u32at sc 4) (Unmap addr) = drop 8 sc) (SecretPool.All pool) /\
  timeSub now ts <= Server.maxAge s /\ timeSub ts now <= Server.maxFutureSkew s.
Proof.
  unfold Server.Validate. rewrite macMatches_fold by by left.
  assert (Server.Unix (u32at sc 4 * Second) = u32at sc 4) as -> by (unfold Server.Unix; by rewrite Z.div_mul).
  case_bool_decide as E.
  - assert (Exists (fun sec => cookieTag sec cc (u32at sc 4) (Unmap addr) = drop 8 sc) (SecretPool.All pool)) as HE by (destruct E; [done|done]).
    change (negb (1 =? 1)) with false. cbv iota. repeat (split_if; bool_facts); split; try done;
      try (intros (? & ? & -> & ? & ? & ?); lia || done). intros [= <-]. done.
  - change (negb (0 =? 1)) with true. cbv iota. split; [repeat (split_if; try done)|].
    intros (_ & _ & _ & HE & _). exfalso. apply E. by right.
Qed.

Lemma cookieInput_inj cc cc' secs secs' a a' : zlen cc = 8 -> zlen cc' = 8 ->
  cookieInput cc secs a = cookieInput cc' secs' a' ->
  cc = cc' /\ to_u32 secs = to_u32 secs' /\ Server.addrInput a = Server.addrInput a'.
Proof.
  intros Hc Hc' E. unfold cookieInput in E. apply app_inj_1 in E as [-> E]; [|unfold zlen in *; lia].
  apply app_inj_1 in E as [E ->]; [|done]. split; [done|]. split; [|done].
  unfold cookieHeader in E. apply app_inj_2 in E as [_ E]; [|done].
  assert (forall v, u32 (to_u32 v)) as Hu by (intros v; unfold u32, to_u32; pose proof (Z.mod_pos_bound v 4294967296); lia).
  rewrite <- (u32at_be32 (to_u32 secs)), <- (u32at_be32 (to_u32 secs')) by done. by rewrite E.
Qed.

(** The address of a peer, without its zone. *)
Definition sameHost (a b : Addr) : Prop := addrBytes (Unmap a) = addrBytes (Unmap b).

Lemma addrInput_host a b : addr_wf a -> addr_wf b ->
  Server.addrInput (Unmap a) = Server.addrInput (Unmap b) <-> sameHost a b.
Proof.
  intros _ _. unfold sameHost, Server.addrInput. by destruct (Unmap a), (Unmap b).
Qed.

(** The times at which a cookie minted at [ts] is accepted. *)
Definition inWindow (s : Server.t) (ts now : Z) : Prop :=
  timeSub now (Server.Unix ts * Second) <= Server.maxAge s /\
  timeSub (Server.Unix ts * Second) now <= Server.maxFutureSkew s.

(** A cookie minted for a client is accepted from the same host, in either
    form of its address, throughout the window, by the pool it was minted with
    and after one rotation of the secrets. *)
Theorem cookie_roundtrip (s : Server.t) (pool pool' : SecretPool.t) (cc : bytes) (addr addr' : Addr) (ts now : Z) (fresh : Secret) :
  0 < zlen (SecretPool.current pool) -> 0 <= ts < 2 ^ 32 * Second ->
  addr_wf addr -> addr_wf addr' -> sameHost addr addr' -> inWindow s ts now ->
  pool' = pool \/ SecretPool.Rotate pool (Ok fresh) = Ok pool' ->
  Server.Validate s pool' (Server.Make s pool cc addr ts) cc addr' now = Ok (Server.Unix ts * Second).
Proof.
  intros Hsec Hts Ha Ha' Hh [Hw1 Hw2] Hp. unfold Server.Make, SecretPool.Current.
  set (sec := SecretPool.current pool) in *.
  assert (to_u32 (Server.Unix ts) = Server.Unix ts) as Eu.
  { unfold to_u32, Server.Unix, Second in *. apply Z.mod_small. Z.to_euclidean_division_equations. lia. }
  apply cookie_exact. rewrite mint_len, mint_time, mint_drop, Eu. split; [done|]. split; [done|]. split; [done|].
  split; [|done]. apply Exists_exists. exists sec. split.
  - unfold SecretPool.All. apply elem_of_app. destruct Hp as [->|Hp].
    + left. fold sec. by rewrite (proj2 (Z.ltb_lt 0 _)) by done; set_solver.
    + cbn in Hp. injection Hp as <-. right. cbn [SecretPool.previous]. fold sec.
      rewrite (proj2 (Z.ltb_lt 0 _)) by done. set_solver.
  - unfold cookieTag, cookieInput. do 4 f_equal. symmetry. by apply addrInput_host.
Qed.

(** The tag accepted from the client cookie [cc] and the address [addr] under a
    secret of the pool is the tag issued to [cc'] and [addr'] under [sec'], though
    the two inputs of the MAC differ. *)
Definition tagCollision (pool : SecretPool.t) (sec' : Secret) (secs : Z) (cc : bytes) (addr : Addr) (cc' : bytes) (addr' : Addr) : Prop :=
  cookieInput cc secs (Unmap addr) <> cookieInput cc' secs (Unmap addr') /\
  Exists (fun sec => cookieTag sec cc secs (Unmap addr) = cookieTag sec' cc' secs (Unmap addr')) (SecretPool.All pool).

(** C21. A server cookie is accepted exactly when it has 16 octets and version 1,
    its time -- the one Validate returns -- is neither too old nor too far ahead,
    and its last eight octets are the tag of this client cookie, this host and
    that time under a secret still in the pool.  So an issued cookie is accepted
    only with the client cookie and from the host it was issued to, and the time
    is the one of its issue, unless the MAC's tags of exactly these two inputs,
    the one issued and the one presented, are equal though the inputs differ. *)
Theorem cookie_binds (s : Server.t) (pool : SecretPool.t) (sc cc : bytes) (addr : Addr) (now ts : Z) :
  zlen cc = 8 -> addr_wf addr ->
  (Server.Validate s pool sc cc addr now = Ok ts <->
   zlen sc = 16 /\ zget sc 0 = 1 /\ ts = u32at sc 4 * Second /\
   Exists (fun sec => cookieTag sec cc (u32at sc 4) (Unmap addr) = drop 8 sc) (SecretPool.All pool) /\
   timeSub now ts <= Server.maxAge s /\ timeSub ts now <= Server.maxFutureSkew s) /\
  forall (s' : Server.t) (pool' : SecretPool.t) (cc' : bytes) (addr' : Addr) (ts' : Z),
    zlen cc' = 8 -> addr_wf addr' -> 0 <= ts' < 2 ^ 32 * Second ->
    sc = Server.Make s' pool' cc' addr' ts' -> Server.Validate s pool sc cc addr now = Ok ts ->
    ts = Server.Unix ts' * Second /\ inWindow s ts' now /\
    (cc = cc' /\ sameHost addr addr' \/
     tagCollision pool (SecretPool.Current pool') (Server.Unix ts') cc addr cc' addr').
Proof.
  intros Hc Ha. split; [apply cookie_exact|]. intros s' pool' cc' addr' ts' Hc' Ha' Hts -> Hv.
  unfold Server.Make in Hv. apply cookie_exact in Hv as (_ & _ & Ets & He & Hw1 & Hw2). rewrite mint_time, mint_drop in *.
  assert (to_u32 (Server.Unix ts') = Server.Unix ts') as Eu.
  { unfold to_u32, Server.Unix, Second in *. apply Z.mod_small. Z.to_euclidean_division_equations. lia. }
  rewrite Eu in *. subst ts. split; [done|]. split; [done|].
  destruct (decide (cookieInput cc (Server.Unix ts') (Unmap addr) = cookieInput cc' (Server.Unix ts') (Unmap addr'))) as [E|Hne]; [left|by right].
  apply cookieInput_inj in E as (-> & _ & E); [|done|done]. by apply addrInput_host in E.
Qed.

(** The three reserved octets of a server cookie are not under the MAC:
    Validate gives the same verdict whatever they are. *)
Theorem cookie_reserved_unbound (s : Server.t) (pool : SecretPool.t) (v a b c a' b' c' : Z) (rest cc : bytes) (addr : Addr) (now : Z) :
  Server.Validate s pool (v :: a :: b :: c :: rest) cc addr now = Server.Validate s pool (v :: a' :: b' :: c' :: rest) cc addr now.
Proof.
  unfold Server.Validate. rewrite !zlen_cons.
  done.
Qed.
End Cookie.

(** ** The client *)

Section Client.
Context `{MapRange}.
Import Client.

(** The calls a client's user makes. *)
Inductive clientCall :=
  | CallApply (now : Z) (random : option bytes) (server : AddrPort) (b : EDNSBuilder.t)
  | CallObserve (now : Z) (server : AddrPort) (resp : Message)
  | CallRetry (now : Z) (server : AddrPort) (resp : Message).

Definition clientStep (c : Client.t) (call : clientCall) : Client.t :=
  match call with
  | CallApply now random server b => (Apply c now random server b).1
  | CallObserve now server resp => Observe c now server resp
  | CallRetry now server resp => (Retry c now server resp).1
  end.

(** crypto/rand fills the array it is given. *)
Definition call_ok (call : clientCall) : Prop :=
  match call with CallApply _ (Some cc) _ _ => zlen cc = 8 | _ => True end.

Definition entry_ok (e : clientEntry) : Prop :=
  zlen (clientCookie e) = 8 /\ (serverCookie e = [] \/ 8 <= zlen (serverCookie e) <= 32) /\
  (badCookieStreak e = 0 \/ badCookieStreak e = 1).

Definition client_ok (c : Client.t) : Prop :=
  (0 < maxEntries c -> Z.of_nat (size (cache c)) <= maxEntries c) /\ map_Forall (fun _ e => entry_ok e) (cache c).

Lemma Cookies_sound o cc sc : EdnsOptions.Cookies o = Some (cc, sc) -> zlen cc = 8 /\ (sc = [] \/ 8 <= zlen sc <= 32).
Proof.
  unfold EdnsOptions.Cookies. destruct (negb _); [done|]. set (d := optData o). destruct (_ && _) eqn:E; [done|].
  intros [= <- <-]. apply andb_false_iff in E. assert (zlen d = 8 \/ 16 <= zlen d <= 40) as Hd.
  { destruct E as [E|E]; bool_facts; lia. }
  split; [unfold zlen in *; rewrite length_take; lia|].
  destruct (8 <? zlen d) eqn:E8; [right|by left]. bool_facts. unfold zlen in *. rewrite length_drop. lia.
Qed.

Lemma extract_sound msg cc sc : extractCookieFromMsg msg = Some (cc, sc) -> zlen cc = 8 /\ (sc = [] \/ 8 <= zlen sc <= 32).
Proof.
  unfold extractCookieFromMsg. destruct (hasEDNS msg); [|done].
  induction (opts (edns msg)) as [|o l IH]; cbn [firstCookie]; [done|]. destruct (negb _); [done|].
  destruct (EdnsOptions.Cookies o) as [[cc' sc']|] eqn:E; [|done]. intros [= <- <-]. by eapply Cookies_sound.
Qed.

Lemma oldestStep_fold l acc :
  match fold_left oldestStep l acc with
  | Some (k, t) => (exists e, (k, e) ∈ l) \/ acc = Some (k, t)
  | None => l = [] /\ acc = None
  end.
Proof.
  revert acc. induction l as [|[k e] l IH]; intros acc; cbn [fold_left]; [destruct acc as [[]|]; auto|].
  specialize (IH (oldestStep acc (k, e))). destruct (fold_left _ _ _) as [[k' t']|].
  - destruct IH as [(e' & He)|E]; [left; exists e'; set_solver|].
    unfold oldestStep in E. cbn [fst snd] in E. destruct acc as [[k0 t0]|].
    + destruct (updated e <? t0); [injection E as <- _; left; exists e; set_solver|by right].
    + injection E as <- _. left. exists e. set_solver.
  - destruct IH as [_ E]. unfold oldestStep in E. destruct acc as [[]|]; [|done]. by destruct (_ <? _).
Qed.

Lemma evictLocked_smaller m : (0 < size m)%nat -> (size (evictLocked m) < size m)%nat.
Proof.
  intros Hm. pose proof (oldestStep_fold (mapRange m) None) as Ho. unfold evictLocked.
  pose proof (mapRange_perm m) as Hp. destruct (fold_left _ _ None) as [[k t]|].
  - destruct Ho as [(v & Hv)|?]; [|done]. rewrite Hp in Hv. apply elem_of_map_to_list in Hv.
    rewrite map_size_delete_Some by eauto. lia.
  - destruct Ho as [E _]. rewrite E in Hp. apply Permutation_nil_l in Hp. symmetry in Hp.
    rewrite <- length_map_to_list, Hp in Hm. cbn in Hm. lia.
Qed.

Lemma evictLocked_sub m : evictLocked m ⊆ m.
Proof. unfold evictLocked. destruct (fold_left _ _ _) as [[k t]|]; [apply delete_subseteq|done]. Qed.

Lemma makeRoom_ok c : client_ok c ->
  (0 < maxEntries c -> Z.of_nat (size (makeRoom c)) < maxEntries c) /\ map_Forall (fun _ e => entry_ok e) (makeRoom c).
Proof.
  intros [Hs He]. unfold makeRoom. split.
  - intros Hm. specialize (Hs Hm). destruct (_ && _) eqn:E; bool_facts.
    + pose proof (evictLocked_smaller (cache c) ltac:(lia)). lia.
    + apply andb_false_iff in E as [E|E]; bool_facts; lia.
  - destruct (_ && _); [|done]. intros k e Hk. apply (He k). by eapply lookup_weaken, evictLocked_sub.
Qed.

(** Storing an entry for a server that is known, or after making room. *)
Lemma store_ok c server e : client_ok c -> entry_ok e ->
  client_ok (setCache c (<[server := e]> (match cache c !! server with Some _ => cache c | None => makeRoom c end))).
Proof.
  intros Hc He. destruct (makeRoom_ok c Hc) as [Hr1 Hr2]. destruct Hc as [Hs Hf]. split; cbn [maxEntries cache setCache].
  - intros Hm. destruct (cache c !! server) as [e0|] eqn:E.
    + rewrite map_size_insert_Some; [by apply Hs|by eexists].
    + rewrite map_size_insert. specialize (Hr1 Hm). destruct (makeRoom c !! server); cbn; lia.
  - apply map_Forall_insert_2; [done|]. by destruct (cache c !! server).
Qed.

Lemma zeroEntry_ok : entry_ok zeroEntry.
Proof. split; [done|]. split; by left. Qed.

Lemma entry_at c server : client_ok c -> entry_ok (default zeroEntry (cache c !! server)).
Proof. intros [_ Hf]. destruct (cache c !! server) as [e|] eqn:E; [by apply (Hf server)|apply zeroEntry_ok]. Qed.

Lemma clientStep_ok c call : client_ok c -> call_ok call -> client_ok (clientStep c call).
Proof.
  intros Hc Hk. destruct call as [now random server b|now server resp|now server resp]; cbn [clientStep].
  - unfold Apply. destruct (cache c !! server) as [e|] eqn:E.
    + pose proof (store_ok c server (mkEntry (clientCookie e) (serverCookie e) now (badCookieStreak e)) Hc) as Hst.
      rewrite E in Hst. apply Hst. destruct Hc as [_ Hf]. apply (Hf server e E).
    + destruct random as [cc|]; [|done].
      pose proof (store_ok c server (mkEntry cc [] now 0) Hc) as Hst. rewrite E in Hst. apply Hst.
      split; [done|]. split; by left.
  - unfold Observe. destruct (extractCookieFromMsg resp) as [[cc sc]|] eqn:E; [|done]. apply extract_sound in E as [H1 H2].
    destruct (zlen sc <? 8) eqn:E8; [done|]. apply store_ok; [done|]. split; [done|]. split; [done|by left].
  - unfold Retry. destruct (negb _); [done|]. destruct (extractCookieFromMsg resp) as [[cc sc]|] eqn:E; [|done].
    apply extract_sound in E as [H1 H2]. destruct (zlen sc <? 8); [done|].
    destruct (entry_at c server Hc) as (E1 & E2 & E3). destruct (_ <=? _) eqn:El; cbn [fst]; apply store_ok; try done.
    + split; [done|]. split; [done|by left].
    + split; [done|]. split; [done|]. unfold maxBadCookieRetries in El. bool_facts. cbn [badCookieStreak]. right.
      destruct E3 as [->|E3]; [done|lia].
Qed.

(** Whatever sequence of calls a resolver makes, the client remembers at
    most the configured number of servers, sends each a cookie option that
    parses to the client cookie and the server cookie it has learnt, and
    retries a server that keeps answering BADCOOKIE at most once in a row. *)
Theorem cookie_client_invariant (opts : list ClientOption) (calls : list clientCall) :
  Forall call_ok calls ->
  let c := fold_left clientStep calls (NewClient opts) in
  (0 < maxEntries c -> Z.of_nat (size (cache c)) <= maxEntries c) /\
  (forall server e, cache c !! server = Some e ->
     EdnsOptions.Cookies (cookieOption e) = Some (clientCookie e, serverCookie e)) /\
  (forall now server resp c' now' resp',
     Retry c now server resp = (c', Ok true) -> snd (Retry c' now' server resp') <> Ok true).
Proof.
  intros Hk c. assert (client_ok c) as Hc.
  { unfold c. assert (client_ok (NewClient opts)) as H0 by (split; cbn [cache NewClient]; [intros; rewrite map_size_empty; lia|apply map_Forall_empty]). revert H0.
    generalize (NewClient opts). induction Hk as [|call calls Hk _ IH]; intros c0 H0; [done|]. apply IH. by apply clientStep_ok. }
  split; [apply Hc|]. split.
  - intros server e He. destruct Hc as [_ Hf]. destruct (Hf server e He) as (E1 & E2 & _).
    destruct edns_option_accessors as (_ & _ & _ & _ & _ & F1 & F2 & _). unfold cookieOption. destruct E2 as [E2|E2].
    + rewrite E2. cbn. by apply F1.
    + rewrite (proj2 (Z.leb_le 8 _)) by lia. specialize (F2 (clientCookie e) (serverCookie e) E1).
      destruct (NewClientServerCookie _ _) as [o|]; [apply F2|]. destruct F2; lia.
  - intros now server resp c' now' resp' Hr. unfold Retry in Hr. destruct (negb _); [done|].
    destruct (extractCookieFromMsg resp) as [[cc sc]|] eqn:E; [|done]. destruct (zlen sc <? 8); [done|].
    destruct (entry_at c server Hc) as (_ & _ & E3). destruct (_ <=? _) eqn:El; [done|]. injection Hr as <-.
    unfold Retry. destruct (negb _); [done|]. destruct (extractCookieFromMsg resp') as [[cc' sc']|]; [|done].
    destruct (zlen sc' <? 8); [done|]. cbn [setCache cache]. rewrite lookup_insert_eq. cbn [default badCookieStreak].
    unfold maxBadCookieRetries in *. bool_facts. destruct E3 as [E3|E3]; [|lia]. by rewrite E3.
Qed.

(** Observe takes both cookies from any response, also when the client
    cookie in it is not the one that was sent to the server; and since it
    clears the count of BADCOOKIE answers whatever the response, a caller that
    observes every response is told to retry without end. *)
Theorem cookie_client_unchecked (c : Client.t) (now now' : Z) (server : AddrPort) (resp : Message) (cc sc : bytes) :
  extractCookieFromMsg resp = Some (cc, sc) -> 8 <= zlen sc ->
  cache (Observe c now server resp) !! server = Some (mkEntry cc sc now 0) /\
  (combinedRCODE resp = BADCOOKIE -> snd (Retry (Observe c now server resp) now' server resp) = Ok true).
Proof.
  intros E Hl. unfold Observe. rewrite E, (proj2 (Z.ltb_ge (zlen sc) 8)) by done.
  set (m := match cache c !! server with Some _ => _ | None => _ end). cbn [cache setCache].
  rewrite lookup_insert_eq. split; [done|]. intros Hb.
  unfold Retry. rewrite Hb, E, (proj2 (Z.ltb_ge (zlen sc) 8)) by done. cbn [negb Z.eqb BADCOOKIE].
  cbn [cache setCache]. by rewrite lookup_insert_eq.
Qed.
End Client.

(** ** Samples *)

Module SampleCookie.
#[export] Instance inKeyOrder : MapRange := {| mapRange _ _ _ _ := map_to_list; mapRange_perm _ _ _ _ m := reflexivity _ |}.
Definition srv : Server.t := Server.NewServer [].
Definition pool : SecretPool.t := SecretPool.mk [7; 7; 7; 7] [].
Definition cc : bytes := [1; 2; 3; 4; 5; 6; 7; 8].
Definition host : Addr := Addr4 [192; 0; 2; 1].
(** The same host as a dual-stack listener sees it. *)
Definition mapped : Addr := Addr6 (v4mapped ++ [192; 0; 2; 1]) [].
(** 2023-11-14 22:13:20.5 UTC. *)
Definition now : Z := 1700000000 * Second + 500000000.
Definition server : AddrPort := mkAddrPort host 53.
Definition badCookie (cc sc : bytes) : Message :=
  mkMessage 7 (WithRCODE 7 (WithResponse true 0)) [] [] [] [] (mkEDNS 1232 1 0 false [mkEDNSOption 10 (cc ++ sc)]) true.
End SampleCookie.

Lemma cookie_roundtrip_witness :
  Server.Validate (H := SampleKey.checksum) SampleCookie.srv (SecretPool.mk [9] [7; 7; 7; 7])
    (Server.Make (H := SampleKey.checksum) SampleCookie.srv SampleCookie.pool SampleCookie.cc SampleCookie.host SampleCookie.now)
    SampleCookie.cc SampleCookie.mapped (SampleCookie.now + 60 * Second) = Ok (1700000000 * Second).
Proof.
  apply (cookie_roundtrip (H := SampleKey.checksum) (HL := SampleKey.checksum_laws) SampleCookie.srv SampleCookie.pool
    (SecretPool.mk [9] [7; 7; 7; 7]) SampleCookie.cc SampleCookie.host SampleCookie.mapped SampleCookie.now
    (SampleCookie.now + 60 * Second) [9]); try done.
  - split; decide_now.
  - split; decide_now.
  - by right.
Defined.

(** The host that got the cookie presents it in either form of its address;
    another host is turned away. *)
Lemma cookie_binds_witness :
  let sc := Server.Make (H := SampleKey.checksum) SampleCookie.srv SampleCookie.pool SampleCookie.cc SampleCookie.host SampleCookie.now in
  (1700000000 * Second = Server.Unix SampleCookie.now * Second /\
   inWindow SampleCookie.srv SampleCookie.now (SampleCookie.now + 60 * Second) /\
   (SampleCookie.cc = SampleCookie.cc /\ sameHost SampleCookie.mapped SampleCookie.host \/
    tagCollision (H := SampleKey.checksum) SampleCookie.pool (SecretPool.Current SampleCookie.pool) (Server.Unix SampleCookie.now)
      SampleCookie.cc SampleCookie.mapped SampleCookie.cc SampleCookie.host)) /\
  Server.Validate (H := SampleKey.checksum) SampleCookie.srv SampleCookie.pool sc SampleCookie.cc (Addr4 [192; 0; 2; 2])
    (SampleCookie.now + 60 * Second) = Err ErrCookieMismatch.
Proof.
  cbn zeta. split; [|by vm_compute].
  destruct (cookie_binds (H := SampleKey.checksum) SampleCookie.srv SampleCookie.pool
    (Server.Make (H := SampleKey.checksum) SampleCookie.srv SampleCookie.pool SampleCookie.cc SampleCookie.host SampleCookie.now)
    SampleCookie.cc SampleCookie.mapped (SampleCookie.now + 60 * Second) (1700000000 * Second)) as [_ X]; [done|split; decide_now|].
  apply (X SampleCookie.srv); try done. split; decide_now.
Defined.

Lemma cookie_client_invariant_witness :
  let calls := [CallApply 0 (Some SampleCookie.cc) SampleCookie.server EDNSBuilder.NewEDNSBuilder;
                CallRetry 1 SampleCookie.server (SampleCookie.badCookie SampleCookie.cc (replicate 16 3))] in
  let c := fold_left (clientStep (H := SampleCookie.inKeyOrder)) calls (Client.NewClient [Client.ClientMaxEntries 1]) in
  Z.of_nat (size (Client.cache c)) <= 1 /\
  snd (Client.Retry (H := SampleCookie.inKeyOrder) c 2 SampleCookie.server (SampleCookie.badCookie SampleCookie.cc (replicate 16 4)))
    = Err ErrCookieRetryExhausted.
Proof.
  cbn zeta. split; [|by vm_compute].
  apply (cookie_client_invariant (H := SampleCookie.inKeyOrder) [Client.ClientMaxEntries 1]
    [CallApply 0 (Some SampleCookie.cc) SampleCookie.server EDNSBuilder.NewEDNSBuilder;
     CallRetry 1 SampleCookie.server (SampleCookie.badCookie SampleCookie.cc (replicate 16 3))]); [|by vm_compute].
  by repeat constructor.
Defined.

(** A forged response replaces the client cookie. *)
Lemma cookie_client_unchecked_witness :
  let c := clientStep (H := SampleCookie.inKeyOrder) (Client.NewClient [])
             (CallApply 0 (Some SampleCookie.cc) SampleCookie.server EDNSBuilder.NewEDNSBuilder) in
  let forged := SampleCookie.badCookie [6; 6; 6; 6; 6; 6; 6; 6] (replicate 16 3) in
  Client.cache (Client.Observe (H := SampleCookie.inKeyOrder) c 1 SampleCookie.server forged) !! SampleCookie.server
    = Some (Client.mkEntry [6; 6; 6; 6; 6; 6; 6; 6] (replicate 16 3) 1 0) /\
  snd (Client.Retry (H := SampleCookie.inKeyOrder)
         (Client.Observe (H := SampleCookie.inKeyOrder) c 1 SampleCookie.server forged) 2 SampleCookie.server forged) = Ok true.
Proof.
  cbn zeta. set (c := clientStep _ _).
  destruct (cookie_client_unchecked (H := SampleCookie.inKeyOrder) c 1 2 SampleCookie.server
    (SampleCookie.badCookie [6; 6; 6; 6; 6; 6; 6; 6] (replicate 16 3)) [6; 6; 6; 6; 6; 6; 6; 6] (replicate 16 3)) as [X Y];
    [done|done|]. split; [exact X|]. by apply Y.
Defined.
