(* ===== verification/Middleware.v ===== *)
(** * Middleware (src/middleware_acl.go, middleware_cookies.go,
      middleware_observe.go, server_public.go)

    Handlers that wrap a handler: access control, the cookie gate, observation,
    and the stack that the public listeners put together from them and the
    limiters of RateLimit.v and Rrl.v. *)

From Stdlib Require Import Strings.String QArith.
From S2P Require Import Prelude Name Wire RData RDataNew Message EdnsOptions Netip Tsig Handler RateLimit Rrl Cookies.
Open Scope Z_scope.
Open Scope list_scope.

(** The inner handler's run through a writer that replaces its first message
    [m] by [f m] and passes the others. *)
Fixpoint mapFirst {A : Type} (f : Message -> Message) (wrote : bool) (inner : prog A) : prog A :=
  match inner with
  | Ret a => Ret a
  | TimeNow k => TimeNow (fun t => mapFirst f wrote (k t))
  | WriteMsg m k => WriteMsg (if wrote then m else f m) (fun e => mapFirst f true (k e))
  end.

(** ** Access control *)
Module acl.
Inductive ACLOption := ACLAllow (prefixes : list Prefix) | ACLDeny (prefixes : list Prefix) | ACLDropDenied (drop : bool).

Record t := mk { allow : list Prefix; deny : list Prefix; dropDenied : bool }.

Definition applyOption (c : t) (o : ACLOption) : t :=
  match o with
  | ACLAllow ps => mk (allow c ++ ps) (deny c) (dropDenied c)
  | ACLDeny ps => mk (allow c) (deny c ++ ps) (dropDenied c)
  | ACLDropDenied d => mk (allow c) (deny c) d
  end.

Definition NewACL (opts : list ACLOption) : res t :=
  let c := fold_left applyOption opts (mk [] [] true) in
  if (zlen (allow c) =? 0) && (zlen (deny c) =? 0) then Err ErrACLNoRules else Ok c.

Definition permit (a : t) (src : Addr) : bool :=
  if existsb (fun p => Contains p src) (deny a) then false
  else if zlen (allow a) =? 0 then true
  else existsb (fun p => Contains p src) (allow a).

Definition ServeDNS {S : Type} (a : t) (inner : Handler S) : Handler S :=
  fun ctx w q s =>
    let src := Unmap (ap_addr (RemoteAddr w)) in
    if negb (permit a src) then
      if dropDenied a then Ret s
      else let! _ := writeRefused q in Ret s
    else inner ctx w q s.
End acl.

(** ** Cookies *)
Module cookiesMW.
Inductive CookieOption :=
  | CookieClock | RequireCookieForLarge (enable : bool) | RequireCookieMaxBytes (maxBytes : Z).

Record t := mk { srv : Server.t; requireForLarge : bool; largeRespMaxSize : Z }.

Definition applyOption (m : t) (o : CookieOption) : t :=
  match o with
  | CookieClock => m
  | RequireCookieForLarge v => mk (srv m) v (largeRespMaxSize m)
  | RequireCookieMaxBytes v => if 0 <? v then mk (srv m) (requireForLarge m) v else m
  end.

Definition NewCookies (srv : option Server.t) (opts : list CookieOption) : res t :=
  match srv with
  | None => Err ErrNilCookieServer
  | Some srv => Ok (fold_left applyOption opts (mk srv true 1232))
  end.

Definition isUDPNetwork (net : bytes) : bool :=
  bool_decide (net = str "udp") || bool_decide (net = str "dnscrypt").

(** The loop over the options: the number of cookie options so far and what
    the first of them holds; [None] when a second one is met. *)
Fixpoint scanCookies (count : Z) (first : option (bytes * bytes)) (l : list EDNSOption)
    : option (Z * option (bytes * bytes)) :=
  match l with
  | [] => Some (count, first)
  | o :: l =>
      if negb (code o =? EDNSOptionCookie) then scanCookies count first l
      else if 1 <? count + 1 then None
      else scanCookies (count + 1) (EdnsOptions.Cookies o) l
  end.
Definition extractCookies (q : Message) : option (bytes * bytes) :=
  if hasEDNS q then
    match scanCookies 0 None (opts (edns q)) with
    | None => None
    | Some (count, first) => if count =? 1 then first else None
    end
  else None.

Definition truncateForCookieGate (m q : Message) : Message :=
  let b := MessageBuilder.NewMessageBuilder |> MessageBuilder.ID (id m)
             |> MessageBuilder.Flags_ (flags m |> WithTruncated true |> WithResponse true
                                         |> WithAuthoritative false |> WithAuthenticData false) in
  let b := match questions m with
           | qq :: _ => b |> MessageBuilder.Question_ qq
           | [] => match questions q with qq :: _ => b |> MessageBuilder.Question_ qq | [] => b end
           end in
  let b := if hasEDNS m then b |> MessageBuilder.EDNS_ (edns m) else b in
  match fst (MessageBuilder.Build b) with
  | Err _ => m
  | Ok out => out
  end.

(** [cookieSizeGate.WriteMsg] of the first message. *)
Definition sizeGate (q : Message) (maxBytes : Z) (m : Message) : Message :=
  match Pack m with
  | Ok buf => if zlen buf <=? maxBytes then m else truncateForCookieGate m q
  | Err _ => truncateForCookieGate m q
  end.

Definition servFail : Message :=
  match fst (MessageBuilder.Build (MessageBuilder.NewMessageBuilder |> MessageBuilder.Response true
               |> MessageBuilder.RCODE RCODEServFail)) with
  | Ok fb => fb
  | Err _ => zeroMessage
  end.

(** The zero [EDNSOption], returned next to an error. *)
Definition zeroOption : EDNSOption := mkEDNSOption 0 [].

Definition buildBadCookieResponse (q : Message) (cc sc : bytes) : Message :=
  let cookieOpt := match NewClientServerCookie cc sc with Ok o => o | Err _ => zeroOption end in
  let badCookie := 23 in
  let udpSize_ := if hasEDNS q && negb (udpSize (edns q) =? 0) then udpSize (edns q) else 1232 in
  match fst (EDNSBuilder.Build (EDNSBuilder.NewEDNSBuilder |> EDNSBuilder.UDPSize udpSize_
               |> EDNSBuilder.ExtendedRCODE (Z.shiftr badCookie 4) |> EDNSBuilder.Option cookieOpt)) with
  | Err _ => servFail
  | Ok ed =>
      let b := MessageBuilder.NewMessageBuilder |> MessageBuilder.ID (id q) |> MessageBuilder.Response true
                 |> MessageBuilder.RecursionDesired (RecursionDesired (flags q))
                 |> MessageBuilder.RCODE (Z.land badCookie 0x0f) |> MessageBuilder.EDNS_ ed in
      let b := match questions q with [] => b | qq :: _ => b |> MessageBuilder.Question_ qq end in
      match fst (MessageBuilder.Build b) with
      | Err _ => servFail
      | Ok out => out
      end
  end.

Definition attachCookieOption (m : Message) (cc sc : bytes) : Message :=
  match NewClientServerCookie cc sc with
  | Err _ => m
  | Ok cookieOpt =>
      let eb := EDNSBuilder.NewEDNSBuilder in
      let eb :=
        if hasEDNS m then
          let e := edns m in
          let eb := eb |> EDNSBuilder.UDPSize (udpSize e) |> EDNSBuilder.Version (version e)
                       |> EDNSBuilder.ExtendedRCODE (extRCODE e) |> EDNSBuilder.DO (do_ e) in
          fold_left (fun eb opt => if code opt =? EDNSOptionCookie then eb else eb |> EDNSBuilder.Option opt)
            (opts e) eb
        else eb |> EDNSBuilder.UDPSize 1232 in
      match fst (EDNSBuilder.Build (eb |> EDNSBuilder.Option cookieOpt)) with
      | Err _ => m
      | Ok ed =>
          let b := MessageBuilder.NewMessageBuilder |> MessageBuilder.ID (id m)
                     |> MessageBuilder.Flags_ (flags m) |> MessageBuilder.EDNS_ ed in
          let b := fold_left (fun b q => b |> MessageBuilder.Question_ q) (questions m) b in
          let b := fold_left (fun b r => b |> MessageBuilder.Answer r) (answers m) b in
          let b := fold_left (fun b r => b |> MessageBuilder.Authority r) (authorities m) b in
          let b := fold_left (fun b r => b |> MessageBuilder.Additional r) (additionals m) b in
          match fst (MessageBuilder.Build b) with
          | Err _ => m
          | Ok out => out
          end
      end
  end.

Section ServeDNS.
Context `{Hmac}.

(** The part after the checks: [attach] is the cookiesWriter, if there is one. *)
Definition serveInner {S : Type} (m : t) (inner : Handler S) (attach : Message -> Message) (validated : bool)
    : Handler S :=
  fun ctx w q s =>
    if requireForLarge m && negb validated && isUDPNetwork (Network w)
    then mapFirst attach false (mapFirst (sizeGate q (largeRespMaxSize m)) false (inner ctx w q s))
    else mapFirst attach false (inner ctx w q s).

(** The state carries the pool of secrets. *)
Definition ServeDNS {S : Type} (m : t) (inner : Handler S) : Handler (S * SecretPool.t) :=
  fun ctx w q '(s, pool) =>
    match extractCookies q with
    | Some (cc, sc) =>
        let addr := ap_addr (RemoteAddr w) in
        let! now := now in
        let fresh := Server.Make (srv m) pool cc addr now in
        if (8 <=? zlen sc) && negb (is_ok (Server.Validate (srv m) pool sc cc addr now)) then
          let! _ := write (buildBadCookieResponse q cc fresh) in Ret (s, pool)
        else
          let! s := serveInner m inner (fun r => attachCookieOption r cc fresh) (8 <=? zlen sc) ctx w q s in
          Ret (s, pool)
    | None =>
        let! s := serveInner m inner (fun r => r) false ctx w q s in
        Ret (s, pool)
    end.
End ServeDNS.
End cookiesMW.

(** ** Observation *)
Module observed.
Record QueryEvent := mkEvent {
  request : Message; response : Message; remoteAddr : AddrPort; localAddr : AddrPort; network : bytes;
  latency : Z; envelopes : Z; err : option error }.

(** [capturingWriter] next to the writer it forwards to. *)
Record capturingWriter := mkCapture { wrote : Z; first : Message; firstE : option error; dropped : bool }.
Definition newCapture : capturingWriter := mkCapture 0 zeroMessage None false.

Definition capture (c : capturingWriter) (m : Message) (e : option error) : capturingWriter :=
  let n := wrote c + 1 in
  if n =? 1 then mkCapture n m e (dropped c) else mkCapture n (first c) (firstE c) true.

Definition snapshot (c : capturingWriter) : Message := if dropped c then zeroMessage else first c.
Definition firstErr (c : capturingWriter) : option error := firstE c.
Definition envelopeCount (c : capturingWriter) : Z := wrote c.

Fixpoint captured {A : Type} (c : capturingWriter) (inner : prog A) : prog (A * capturingWriter) :=
  match inner with
  | Ret a => Ret (a, c)
  | TimeNow k => TimeNow (fun t => captured c (k t))
  | WriteMsg m k => WriteMsg m (fun e => captured (capture c m e) (k e))
  end.

(** [NewObserved] and its ServeDNS; the state collects the events handed to
    the observer, if there is one. *)
Definition ServeDNS {S : Type} (observer : bool) (inner : Handler S) : Handler (S * list QueryEvent) :=
  fun ctx w q '(s, events) =>
    if observer then
      let! started := now in
      let! (s, c) := captured newCapture (inner ctx w q s) in
      let! ended := now in
      Ret (s, events ++ [mkEvent q (snapshot c) (RemoteAddr w) (LocalAddr w) (Network w)
                           (timeSub ended started) (envelopeCount c) (firstErr c)])
    else
      let! s := inner ctx w q s in Ret (s, events).
End observed.

(** ** The public stack *)
Module public.
(** The options of the listener types are [U] and [T]. *)
Inductive PublicServerOption (U T : Type) :=
  | PublicACLOptions (opts : list acl.ACLOption)
  | PublicRateLimitOptions (opts : list RateLimitOption)
  | PublicRRLOptions (opts : list rrl.RRLOption)
  | PublicCookiesOptions (opts : list cookiesMW.CookieOption)
  | PublicCookiesServer (srv : option Server.t)
  | PublicUDPOptions (opts : list U)
  | PublicTCPOptions (opts : list T).
Arguments PublicACLOptions {U T}.
Arguments PublicRateLimitOptions {U T}.
Arguments PublicRRLOptions {U T}.
Arguments PublicCookiesOptions {U T}.
Arguments PublicCookiesServer {U T}.
Arguments PublicUDPOptions {U T}.
Arguments PublicTCPOptions {U T}.

Record publicServerConfig (U T : Type) := mkConfig {
  aclOpts : list acl.ACLOption; rateLimitOpts : list RateLimitOption; rrlOpts : list rrl.RRLOption;
  cookiesOpts : list cookiesMW.CookieOption; cookiesSrv : option Server.t; udpOpts : list U; tcpOpts : list T }.
Arguments mkConfig {U T}.
Arguments aclOpts {U T}.
Arguments rateLimitOpts {U T}.
Arguments rrlOpts {U T}.
Arguments cookiesOpts {U T}.
Arguments cookiesSrv {U T}.
Arguments udpOpts {U T}.
Arguments tcpOpts {U T}.

Definition applyOption {U T} (c : publicServerConfig U T) (o : PublicServerOption U T) : publicServerConfig U T :=
  let '(mkConfig a rl r c s u t) := c in
  match o with
  | PublicACLOptions v => mkConfig (a ++ v) rl r c s u t
  | PublicRateLimitOptions v => mkConfig a (rl ++ v) r c s u t
  | PublicRRLOptions v => mkConfig a rl (r ++ v) c s u t
  | PublicCookiesOptions v => mkConfig a rl r (c ++ v) s u t
  | PublicCookiesServer v => mkConfig a rl r c v u t
  | PublicUDPOptions v => mkConfig a rl r c s (u ++ v) t
  | PublicTCPOptions v => mkConfig a rl r c s u (t ++ v)
  end.
Definition applyPublicOptions {U T} (opts : list (PublicServerOption U T)) : publicServerConfig U T :=
  fold_left applyOption opts (mkConfig [] [] [] [] None [] []).

Section Stack.
Context `{Hmac} `{Float64} `{MapHash Key} `{MapHash rrl.Key} `{MapRange}.

(** The state of the stack: the inner handler's, the secrets, the buckets of
    the response limiter and those of the query limiter. *)
Definition stackState (S : Type) : Type := S * SecretPool.t * Pool rrl.Key rrl.rrlBucket * Pool Key bucket.

Definition buildPublicStack {S U T : Type} (h : Handler S) (cfg : publicServerConfig U T)
    : res (Handler (stackState S)) :=
  if zlen (aclOpts cfg) =? 0 then Err ErrPublicACLRequired
  else match cookiesSrv cfg with
  | None => Err ErrPublicCookiesServerRequired
  | Some _ =>
      let? c := cookiesMW.NewCookies (cookiesSrv cfg) (cookiesOpts cfg) in
      let stack := cookiesMW.ServeDNS c h in
      let stack := rrl.ServeDNS (rrl.NewRRL (rrlOpts cfg)) stack in
      let stack := rateLimitServe (NewRateLimit (rateLimitOpts cfg)) stack in
      let? a := acl.NewACL (aclOpts cfg ++ [acl.ACLDropDenied true]) in
      Ok (acl.ServeDNS a stack)
  end.

Definition wrapPublicErr (e : error) : error :=
  match e with
  | ErrPublicACLRequired | ErrPublicCookiesServerRequired => e
  | _ => ErrWrapped e
  end.

Definition NewPublicUDPServer {S T : Type} (addr : AddrPort) (h : Handler S)
    (opts : list (PublicServerOption UDPListenerOption T)) : res (UDPServer (stackState S)) :=
  let cfg := applyPublicOptions opts in
  match buildPublicStack h cfg with
  | Err e => Err (wrapPublicErr e)
  | Ok stack =>
      match NewUDPServer addr (Some stack) (udpOpts cfg) with
      | Err e => Err (ErrWrapped e)
      | Ok srv => Ok srv
      end
  end.
End Stack.
End public.
