(* ===== verification/MiddlewareSound.v ===== *)
(** * Middleware: theorems

    What the stack of a public listener lets through: to the inner handler,
    and out of the socket. *)

From Stdlib Require Import Strings.String QArith.
From S2P Require Import Prelude Name Wire RData RDataNew Message EdnsOptions Padding Compare Authoritative Update ZoneTree Netip Tsig TsigSound Handler HandlerSound RateLimit Rrl RateSound RrlSound Cookies CookiesSound Middleware.
Open Scope Z_scope.
Open Scope list_scope.

(** ** Outcomes of a handler *)

(** The values a program may return, whatever the answers it gets. *)
Inductive yields {A} : prog A -> A -> Prop :=
  | yields_ret a : yields (Ret a) a
  | yields_write m k e a : yields (k e) a -> yields (WriteMsg m k) a
  | yields_now k t a : yields (k t) a -> yields (TimeNow k) a.

Lemma yields_bind {A B} (p : prog A) (f : A -> prog B) b :
  yields (pbind p f) b -> exists a, yields p a /\ yields (f a) b.
Proof.
  induction p as [a|m k IH|k IH]; cbn; intros Y; [exists a; split; [constructor|done]|..].
  - inversion Y as [|? ? e ? Y'|]; subst. destruct (IH e Y') as (a & ? & ?). exists a. split; [by econstructor|done].
  - inversion Y as [| |? t ? Y']; subst. destruct (IH t Y') as (a & ? & ?). exists a. split; [by econstructor|done].
Qed.

Lemma yields_ret_inv {A} (a b : A) : yields (Ret a) b -> b = a.
Proof. intros Y. by inversion Y. Qed.

Lemma emits_ret_inv {A} (a : A) m : ~ emits (Ret a) m.
Proof. intros E. inversion E. Qed.

Lemma runUDP_yields {A} sock clock w n (p : prog A) : yields p (runUDP sock clock w n p).1.1.
Proof.
  revert w n. induction p as [a|m k IH|k IH]; intros w n; cbn [runUDP]; [constructor| |].
  - destruct (udpWriteMsg sock w m) as [w' e]. by econstructor.
  - by econstructor.
Qed.

(** *** Through the writers of the middlewares *)

Lemma mapFirst_yields {A : Type} f b (p : prog A) a : yields (mapFirst f b p) a -> yields p a.
Proof.
  revert b. induction p as [a0|m k IH|k IH]; intros b Y; cbn in Y; [done|..].
  - inversion Y as [|? ? e ? Y'|]; subst. econstructor. by eapply IH.
  - inversion Y as [| |? t ? Y']; subst. econstructor. by eapply IH.
Qed.

Lemma mapFirst_emits {A : Type} f b (p : prog A) m : emits (mapFirst f b p) m ->
  exists m0, emits p m0 /\ (m = m0 \/ b = false /\ m = f m0).
Proof.
  revert b. induction p as [a0|m0 k IH|k IH]; intros b E; cbn in E; [by apply emits_ret_inv in E|..].
  - inversion E as [? ?|? ? e ? E'|]; subst.
    + exists m0. split; [constructor|]. destruct b; auto.
    + destruct (IH e true E') as (m1 & E1 & [->|[? _]]); [|done]. exists m1. split; [by econstructor|by left].
  - inversion E as [|? ? ? ? ?|? t ? E']; subst. destruct (IH t b E') as (m1 & E1 & Hm). exists m1. split; [by econstructor|done].
Qed.

Section Guard.
Context `{Float64} `{MapHash rrl.Key} `{MapRange}.

Lemma writeFirst_emits r w q m p m' : emits (rrl.writeFirst r w q m p) m' -> m' = m \/ m' = rrl.truncateForRRL m q.
Proof.
  unfold rrl.writeFirst. assert (forall m0 m1 (p0 : Pool rrl.Key rrl.rrlBucket), emits (let! e := write m0 in Ret (e, p0)) m1 -> m1 = m0) as Hw.
  { intros m0 m1 p0 [E|[e E]]%emits_bind; [by apply emits_write_inv|by apply emits_ret_inv in E]. }
  destruct (negb _); [intros E; left; by eapply Hw|]. destruct (fle _ _); [intros E; left; by eapply Hw|].
  intros [E|[t E]]%emits_bind; [inversion E as [| |? t ? E']; inversion E'|].
  destruct (rrl.consume _ _ _ _ _) as [[] p'].
  - left. by eapply Hw.
  - right. by eapply Hw.
  - by apply emits_ret_inv in E.
Qed.

Lemma guard_emits {A : Type} r w q p b (inner : prog A) m : emits (rrl.guard r w q p b inner) m ->
  exists m0, emits inner m0 /\ (m = m0 \/ m = rrl.truncateForRRL m0 q).
Proof.
  revert p b. induction inner as [a0|m0 k IH|k IH]; intros p b E; cbn in E; [by apply emits_ret_inv in E|..].
  - destruct b.
    + inversion E as [? ?|? ? e ? E'|]; subst; [exists m; split; [constructor|by left]|].
      destruct (IH e p true E') as (m1 & E1 & Hm). exists m1. split; [by econstructor|done].
    + apply emits_bind in E as [E|[[e p'] E]].
      * apply writeFirst_emits in E. exists m0. split; [constructor|done].
      * destruct (IH e p' true E) as (m1 & E1 & Hm). exists m1. split; [by econstructor|done].
  - inversion E as [|? ? ? ? ?|? t ? E']; subst. destruct (IH t p b E') as (m1 & E1 & Hm). exists m1. split; [by econstructor|done].
Qed.

Lemma guard_yields {A : Type} r w q p b (inner : prog A) a p' : yields (rrl.guard r w q p b inner) (a, p') -> yields inner a.
Proof.
  revert p b. induction inner as [a0|m0 k IH|k IH]; intros p b Y; cbn in Y.
  - apply yields_ret_inv in Y as [= -> ->]. constructor.
  - destruct b.
    + inversion Y as [|? ? e ? Y'|]; subst. econstructor. by eapply IH.
    + apply yields_bind in Y as ([e p1] & _ & Y). econstructor. by eapply IH.
  - inversion Y as [| |? t ? Y']; subst. econstructor. by eapply IH.
Qed.
End Guard.

(** ** Each layer *)

Section Layers.
Context `{Hmac} `{Float64} `{MapHash Key} `{MapHash rrl.Key} `{MapRange}.

(** What becomes of a request: the access list turns it away, the query limiter
    does, its server cookie is found invalid (the reply is built from the client
    cookie and a fresh server cookie), or the inner handler gets it. *)
Inductive verdict := Denied | Limited | BadCookie (cc fresh : bytes) | Served.

(** The verdict on a request, when the limiter reads the clock at [t1] and the
    cookie middleware at [t2]. *)
Definition gate (a : acl.t) (lim : limiter) (c : cookiesMW.t) (lp : Pool Key bucket) (sp : SecretPool.t) (q : Message)
    (src : AddrPort) (t1 t2 : Z) : verdict :=
  let addr := ap_addr src in
  if acl.permit a (Unmap addr) then
    if (allow lim lp (Unmap addr) t1).1 then
      match cookiesMW.extractCookies q with
      | Some (cc, sc) =>
          if (8 <=? zlen sc) && negb (is_ok (Server.Validate (cookiesMW.srv c) sp sc cc addr t2))
          then BadCookie cc (Server.Make (cookiesMW.srv c) sp cc addr t2) else Served
      | None => Served
      end
    else Limited
  else Denied.

(** What goes out is nothing, or one datagram made of a message in [P]. *)
Definition sends (max : Z) (P : Message -> Prop) (out : list bytes) : Prop :=
  out = [] \/ exists m d, P m /\ datagram max m d /\ out = [d].

(** The state a request leaves behind and what it sends, by verdict. *)
Definition outcome {S : Type} (lim : limiter) (c : cookiesMW.t) (h : Handler S) (ctx : Context_) (w : ResponseWriter) (q : Message)
    (max : Z) (st st' : public.stackState S) (out : list bytes) (t1 : Z) (v : verdict) : Prop :=
  let '(s, sp, rp, lp) := st in let '(s', sp', rp', lp') := st' in
  let lp1 := (allow lim lp (Unmap (ap_addr (RemoteAddr w))) t1).2 in
  match v with
  | Denied => st' = st /\ out = []
  | Limited => st' = (s, sp, rp, lp1) /\ sends max (fun m => drop_ lim = false /\ emits (writeRefused q) m) out
  | BadCookie cc fresh =>
      let bad := cookiesMW.buildBadCookieResponse q cc fresh in
      st' = (s, sp, rp', lp1) /\ sends max (fun m => m = bad \/ m = rrl.truncateForRRL bad q) out
  | Served =>
      (sp' = sp /\ lp' = lp1) /\ yields (h ctx w q s) s' /\ sends max (fun _ => exists m, emits (h ctx w q s) m) out
  end.

Lemma runUDP_sends {A : Type} sock clock max n (p : prog A) (P : Message -> Prop) : (forall m, emits p m -> P m) ->
  sends max P (sent (runUDP sock clock (mkUDPWriter max false []) n p).1.2).
Proof.
  intros Hp. destruct (runUDP_sent sock clock (mkUDPWriter max false []) n p eq_refl) as [?|(m & d & ? & ? & ?)]; [by left|].
  right. exists m, d. split; [by apply Hp|done].
Qed.

(** *** The inner handler behind the writers *)

Lemma serveInner_yields {S : Type} m (inner : Handler S) attach v ctx w q s s' :
  yields (cookiesMW.serveInner m inner attach v ctx w q s) s' -> yields (inner ctx w q s) s'.
Proof. unfold cookiesMW.serveInner. destruct (_ && _ && _); intros Y; repeat (apply mapFirst_yields in Y); done. Qed.

Lemma serveInner_emits {S : Type} m (inner : Handler S) attach v ctx w q s r :
  emits (cookiesMW.serveInner m inner attach v ctx w q s) r -> exists m0, emits (inner ctx w q s) m0.
Proof.
  unfold cookiesMW.serveInner. destruct (_ && _ && _); intros E; apply mapFirst_emits in E as (m0 & E & _);
    [apply mapFirst_emits in E as (m1 & E & _); by exists m1|by exists m0].
Qed.

Lemma emits_bind_ret {A B : Type} (p : prog A) (f : A -> B) m : emits (let! a := p in Ret (f a)) m -> emits p m.
Proof. intros [E|[a E]]%emits_bind; [done|by apply emits_ret_inv in E]. Qed.

Lemma yields_bind_ret {A B : Type} (p : prog A) (f : A -> B) b : yields (let! a := p in Ret (f a)) b -> exists a, yields p a /\ b = f a.
Proof. intros (a & Y & ->%yields_ret_inv)%yields_bind. by exists a. Qed.

(** The part of the stack below the query limiter, once the cookies are checked
    and the inner handler is called. *)
Lemma served_yields {S : Type} r c (h : Handler S) attach v ctx w q s sp rp lp (st : public.stackState S) :
  yields (let! x := rrl.guard r w q rp false (let! s1 := cookiesMW.serveInner c h attach v ctx w q s in Ret (s1, sp)) in Ret (x, lp)) st ->
  exists s' rp', st = (s', sp, rp', lp) /\ yields (h ctx w q s) s'.
Proof.
  intros ([x rp'] & Y & ->)%yields_bind_ret. apply guard_yields, yields_bind_ret in Y as (s' & Y & ->).
  exists s', rp'. split; [done|by eapply serveInner_yields].
Qed.

Lemma served_emits {S : Type} r c (h : Handler S) attach v ctx w q s sp rp lp m :
  emits (let! x := rrl.guard r w q rp false (let! s1 := cookiesMW.serveInner c h attach v ctx w q s in Ret (s1, sp)) in
         Ret ((x, lp) : public.stackState S)) m ->
  exists m0, emits (h ctx w q s) m0.
Proof. intros (m0 & E%emits_bind_ret & _)%emits_bind_ret%guard_emits. by eapply serveInner_emits. Qed.

(** The same for the reply to an invalid cookie. *)
Lemma bad_yields {S : Type} r w q bad (s : S) sp rp lp (st : public.stackState S) :
  yields (let! x := rrl.guard r w q rp false (let! _ := write bad in Ret (s, sp)) in Ret (x, lp)) st ->
  exists rp', st = (s, sp, rp', lp).
Proof.
  intros ([x rp'] & Y & ->)%yields_bind_ret. apply guard_yields, yields_bind_ret in Y as (e & _ & ->). by exists rp'.
Qed.

Lemma bad_emits {S : Type} r w q bad (s : S) sp rp lp m :
  emits (let! x := rrl.guard r w q rp false (let! _ := write bad in Ret (s, sp)) in Ret ((x, lp) : public.stackState S)) m ->
  m = bad \/ m = rrl.truncateForRRL bad q.
Proof. intros (m0 & E%emits_bind_ret%emits_write_inv & ?)%emits_bind_ret%guard_emits. by subst m0. Qed.

(** *** A run of the stack

    The limiter is the first to read the clock and the cookie middleware the
    second, for nothing between them writes. *)
Lemma stack_run {S : Type} a lim r c (h : Handler S) ctx w q st sock clock max n : acl.dropDenied a = true ->
  let run := runUDP sock clock (mkUDPWriter max false []) n
               (acl.ServeDNS a (rateLimitServe lim (rrl.ServeDNS r (cookiesMW.ServeDNS c h))) ctx w q st) in
  outcome lim c h ctx w q max st run.1.1 (sent run.1.2) (clock n)
    (gate a lim c st.2 st.1.1.2 q (RemoteAddr w) (clock n) (clock (Datatypes.S n))).
Proof.
  intros Hd run. subst run. destruct st as [[[s sp] rp] lp]. unfold gate, acl.ServeDNS. rewrite Hd. cbn [fst snd].
  destruct (acl.permit a _); cbn [negb]; [|done].
  unfold rateLimitServe, now. cbn [pbind runUDP outcome]. set (peer := Unmap _). fold peer.
  destruct (allow lim lp peer (clock n)) as [ok lp1]; cbn [fst snd]. destruct ok; cbn [negb].
  2: { set (p := if drop_ lim then _ else _).
       assert (forall st, yields p st -> st = (s, sp, rp, lp1)) as Hy.
       { subst p. intros st Y. destruct (drop_ lim); [by apply yields_ret_inv in Y|]. by apply yields_bind_ret in Y as (? & _ & ->). }
       pose proof (Hy _ (runUDP_yields sock clock (mkUDPWriter max false []) (Datatypes.S n) p)) as Est.
       pose proof (runUDP_sends sock clock max (Datatypes.S n) p (fun m => drop_ lim = false /\ emits (writeRefused q) m)) as Hs.
       destruct (runUDP _ _ _ _ p) as [[st w'] n']. cbn [fst snd] in *. subst st. split; [done|]. apply Hs.
       intros m. subst p. destruct (drop_ lim); intros E; [by apply emits_ret_inv in E|]. by apply emits_bind_ret in E. }
  unfold rrl.ServeDNS, cookiesMW.ServeDNS, now.
  destruct (cookiesMW.extractCookies q) as [[cc sc]|]; cbn [pbind rrl.guard runUDP].
  - destruct (_ && _).
    + match goal with |- context [runUDP sock clock ?wr ?k ?p] => 
        pose proof (bad_yields _ _ _ _ _ _ _ _ _ (runUDP_yields sock clock wr k p)) as [rp' Est];
        pose proof (runUDP_sends sock clock max k p _ (bad_emits _ _ _ _ _ _ _ _)) as Hs;
        destruct (runUDP sock clock wr k p) as [[st w'] n'] end.
      cbn [fst snd] in *. by subst st.
    + match goal with |- context [runUDP sock clock ?wr ?k ?p] => 
        pose proof (served_yields _ _ _ _ _ _ _ _ _ _ _ _ _ (runUDP_yields sock clock wr k p)) as (s' & rp' & Est & Y);
        pose proof (runUDP_sends sock clock max k p _ (served_emits _ _ _ _ _ _ _ _ _ _ _ _)) as Hs;
        destruct (runUDP sock clock wr k p) as [[st w'] n'] end.
      cbn [fst snd] in *. by subst st.
  - match goal with |- context [runUDP sock clock ?wr ?k ?p] => 
        pose proof (served_yields _ _ _ _ _ _ _ _ _ _ _ _ _ (runUDP_yields sock clock wr k p)) as (s' & rp' & Est & Y);
        pose proof (runUDP_sends sock clock max k p _ (served_emits _ _ _ _ _ _ _ _ _ _ _ _)) as Hs;
        destruct (runUDP sock clock wr k p) as [[st w'] n'] end.
      cbn [fst snd] in *. by subst st.
Qed.

Lemma NewACL_drop opts a : acl.NewACL (opts ++ [acl.ACLDropDenied true]) = Ok a ->
  acl.dropDenied a = true /\ (acl.allow a <> [] \/ acl.deny a <> []).
Proof.
  unfold acl.NewACL. rewrite fold_left_app. cbn [fold_left acl.applyOption]. destruct (fold_left _ opts _) as [al de dr].
  destruct (_ && _) eqn:E; [done|]. intros [= <-]. split; [done|]. cbn [acl.allow acl.deny] in *.
  apply andb_false_iff in E as [E|E]; bool_facts; [left|right]; by intros ->.
Qed.

(** The layers of a public stack. *)
Lemma buildPublicStack_inv {S U T : Type} (h : Handler S) (cfg : public.publicServerConfig U T) stack :
  public.buildPublicStack h cfg = Ok stack ->
  exists c a, cookiesMW.NewCookies (public.cookiesSrv cfg) (public.cookiesOpts cfg) = Ok c /\
    acl.NewACL (public.aclOpts cfg ++ [acl.ACLDropDenied true]) = Ok a /\
    stack = acl.ServeDNS a (rateLimitServe (NewRateLimit (public.rateLimitOpts cfg))
              (rrl.ServeDNS (rrl.NewRRL (public.rrlOpts cfg)) (cookiesMW.ServeDNS c h))).
Proof.
  unfold public.buildPublicStack. destruct (_ =? 0); [done|]. destruct (public.cookiesSrv cfg) as [srv|] eqn:Es; [|done].
  intros (c & Hc & Hr)%res_bind_Ok. apply res_bind_Ok in Hr as (a & Ha & [= <-]). by exists c, a.
Qed.

(** C18. Behind a public listener, for every datagram that comes in and whatever
    the clock reads: input that does not parse, or that the framework answers or
    drops itself, changes nothing of the stack's state.  Any other request is
    decided by [gate]: turned away in silence unless the access list permits the
    source; refused (or dropped) unless the query limiter admits the source at the
    first reading of the clock; answered with BADCOOKIE and a fresh cookie if its
    server cookie is invalid at the second reading; and only otherwise handed to
    the inner handler, whose own run then gives the new state.  In the first three
    cases the inner handler's state does not change, and what goes out is nothing
    or that reply. *)
Theorem public_udp_gates {S T : Type} (addr : AddrPort) (h : Handler S)
    (opts : list (public.PublicServerOption UDPListenerOption T)) (srv : UDPServer (public.stackState S))
    (sock : bytes -> option error) (clock : nat -> Z) (l : udpState (public.stackState S)) (body : bytes) (src : AddrPort) :
  public.NewPublicUDPServer addr h opts = Ok srv ->
  let cfg := public.applyPublicOptions opts in let lim := NewRateLimit (public.rateLimitOpts cfg) in
  let '(l', out) := handlePacket srv sock clock l body src in
  let n := readings l in
  exists c a, cookiesMW.NewCookies (public.cookiesSrv cfg) (public.cookiesOpts cfg) = Ok c /\
    acl.NewACL (public.aclOpts cfg ++ [acl.ACLDropDenied true]) = Ok a /\
    match Unpack body with
    | Err _ => hstate l' = hstate l /\ out = []
    | Ok q =>
        match PreflightRequest q with
        | PreflightDrop => hstate l' = hstate l /\ out = []
        | PreflightReply _ => hstate l' = hstate l
        | PreflightAccept =>
            outcome lim c h (contextWithRawRequest None body) (mkWriter src addr (str "udp")) q (maxResp (us_cfg srv) q)
              (hstate l) (hstate l') out (clock n)
              (gate a lim c (hstate l).2 (hstate l).1.1.2 q src (clock n) (clock (Datatypes.S n)))
        end
    end.
Proof.
  intros Hnew cfg lim. unfold public.NewPublicUDPServer in Hnew. fold cfg in Hnew.
  destruct (public.buildPublicStack h cfg) as [stack|] eqn:Eb; [|done]. apply buildPublicStack_inv in Eb as (c & a & Hc & Ha & ->).
  destruct (NewUDPServer addr _ _) as [srv'|] eqn:Eu; [|done]. injection Hnew as ->. unfold NewUDPServer in Eu.
  destruct (negb _); [done|]. injection Eu as <-. unfold handlePacket. destruct (Unpack body) as [q|]; [|by exists c, a].
  destruct (PreflightRequest q) as [| |reply]; [|by exists c, a..]. cbn [us_handler us_addr us_cfg].
  pose proof (stack_run a lim (rrl.NewRRL (public.rrlOpts cfg)) c h (contextWithRawRequest None body) (mkWriter src addr (str "udp")) q
    (hstate l) sock clock (maxResp (fold_left applyUDPOption (public.udpOpts cfg) (mkUDPConfig 4096 1232 4096 (5 * Second) None)) q) (readings l) (proj1 (NewACL_drop _ _ Ha))) as Hrun.
  cbn zeta in Hrun. fold lim. destruct (runUDP _ _ _ _ _) as [[st w'] n']. by exists c, a.
Qed.
End Layers.

(** ** The access list and zones *)

(** A source address with a zone -- every link-local IPv6 peer -- matches
    no prefix: no deny rule stops it, and an allow list shuts it out whatever
    it allows. *)
Theorem acl_zone_unmatched (a : acl.t) (b zone : bytes) :
  zone <> [] -> Is4In6 (Addr6 b zone) = false ->
  acl.permit a (Unmap (Addr6 b zone)) = bool_decide (acl.allow a = []).
Proof.
  intros Hz H4. unfold Unmap. rewrite H4. unfold acl.permit.
  assert (forall l, existsb (fun p => Contains p (Addr6 b zone)) l = false) as Hno.
  { induction l as [|p l IH]; [done|]. cbn [existsb]. rewrite IH, orb_false_r. unfold Contains, hasZone.
    rewrite (bool_decide_eq_false_2 (zone = [])) by done. by rewrite orb_true_r. }
  rewrite !Hno. destruct (acl.allow a) as [|p l]; [done|]. rewrite zlen_cons. pose proof (zlen_nonneg l).
  by rewrite (proj2 (Z.eqb_neq _ _)) by lia.
Qed.

(** ** The size gate *)

Lemma truncateForCookieGate_stub m q : is_stub m (cookiesMW.truncateForCookieGate m q).
Proof.
  unfold cookiesMW.truncateForCookieGate. destruct (questions m) as [|qq qs], (questions q) as [|qq' qs'], (hasEDNS m) eqn:E;
    (split; cbn; [done|done|done|done|rewrite E; done]).
Qed.

Lemma sizeGate_spec q maxBytes m :
  let m' := cookiesMW.sizeGate q maxBytes m in
  (m' = m /\ exists buf, Pack m = Ok buf /\ zlen buf <= maxBytes) \/ is_stub m m'.
Proof.
  unfold cookiesMW.sizeGate. destruct (Pack m) as [buf|] eqn:E; [|right; apply truncateForCookieGate_stub].
  destruct (zlen buf <=? maxBytes) eqn:El; [|right; apply truncateForCookieGate_stub]. bool_facts. left.
  split; [done|]. by exists buf.
Qed.

(** The first message a program writes, on the path with the given clock and
    write errors. *)
Fixpoint firstWritten {A} (clock : nat -> Z) (n : nat) (p : prog A) : option Message :=
  match p with
  | Ret _ => None
  | WriteMsg m _ => Some m
  | TimeNow k => firstWritten clock (S n) (k (clock n))
  end.

Lemma firstWritten_mapFirst {A : Type} clock n f (p : prog A) :
  firstWritten clock n (mapFirst f false p) = f <$> firstWritten clock n p.
Proof. revert n. induction p as [a|m k IH|k IH]; intros n; cbn; [done|done|apply IH]. Qed.

Lemma firstWritten_bind_ret {A B : Type} clock n (p : prog A) (f : A -> B) :
  firstWritten clock n (let! a := p in Ret (f a)) = firstWritten clock n p.
Proof. revert n. induction p as [a|m k IH|k IH]; intros n; cbn; [done|done|apply IH]. Qed.

(** A request that came in a datagram without a cookie option gets a
    response within the configured size, or one without records. *)
Theorem cookie_gate_bounds `{Hmac} {S : Type} (m : cookiesMW.t) (inner : Handler S) (ctx : Context_) (w : ResponseWriter)
    (q : Message) (s : S) (pool : SecretPool.t) (clock : nat -> Z) (r : Message) :
  cookiesMW.requireForLarge m = true -> cookiesMW.isUDPNetwork (Network w) = true -> cookiesMW.extractCookies q = None ->
  firstWritten clock 0 (cookiesMW.ServeDNS m inner ctx w q (s, pool)) = Some r ->
  exists r0, firstWritten clock 0 (inner ctx w q s) = Some r0 /\
    ((r = r0 /\ exists buf, Pack r = Ok buf /\ zlen buf <= cookiesMW.largeRespMaxSize m) \/ is_stub r0 r).
Proof.
  intros Hr Hu Hc. unfold cookiesMW.ServeDNS. rewrite Hc, firstWritten_bind_ret. unfold cookiesMW.serveInner. rewrite Hr, Hu. cbn [andb negb].
  rewrite !firstWritten_mapFirst. destruct (firstWritten clock 0 (inner ctx w q s)) as [r0|]; [|done]. cbn. intros [= <-].
  exists r0. split; [done|]. destruct (sizeGate_spec q (cookiesMW.largeRespMaxSize m) r0) as [[E Hb]|Hs]; [left|by right].
  by rewrite E.
Qed.

(** ** Samples *)

Module SamplePublic.
Definition opts : list (public.PublicServerOption UDPListenerOption unit) :=
  [public.PublicACLOptions [acl.ACLAllow [PrefixFrom (Addr4 [192; 0; 2; 0]) 24]];
   public.PublicCookiesServer (Some (Server.NewServer []))].
(** A handler that counts the queries and refuses them. *)
Definition counting : Handler Z := fun _ _ q n => let! _ := writeRefused q in Ret (n + 1).
Definition listen : AddrPort := mkAddrPort (Addr4 [0; 0; 0; 0]) 53.
Definition qname : Name := nm [str "example"].
Definition query : Message := mkMessage 7 0 [mkQuestion qname rrtype.A rrtype.ClassIN []] [] [] [] (mkEDNS 0 0 0 false []) false.
Definition body : bytes := match Pack query with Ok b => b | Err _ => [] end.
Definition friend : AddrPort := mkAddrPort (Addr6 (v4mapped ++ [192; 0; 2; 9]) []) 4242.
Definition stranger : AddrPort := mkAddrPort (Addr4 [203; 0; 113; 9]) 4242.
Definition build : res (UDPServer (public.stackState Z)) :=
  public.NewPublicUDPServer (H := SampleKey.checksum) (H0 := exactFloat) (H1 := SampleLimiter.hash) (H2 := SampleRrl.hash)
    (H3 := SampleLimiter.inKeyOrder) listen counting opts.
Definition srv : UDPServer (public.stackState Z) :=
  match build with Ok s => s | Err _ => mkUDPServer listen (fun _ _ _ s => Ret s) (mkUDPConfig 0 0 0 0 None) end.
Definition start : udpState (public.stackState Z) :=
  mkUDPState (mkUDPController 0 0 0 0) (0, SecretPool.mk [1; 2; 3] [], New, New) 0.
(** The query as the listener reads it. *)
Definition received : Message := match Unpack body with Ok q => q | Err _ => zeroMessage end.
(** The same query with a server cookie that was never issued. *)
Definition forged : bytes :=
  match Pack (mkMessage 7 0 (questions query) [] [] [] (mkEDNS 1232 0 0 false [mkEDNSOption EDNSOptionCookie (replicate 24 1)]) true) with
  | Ok b => b | Err _ => [] end.
Definition receive (data : bytes) (src : AddrPort) : udpState (public.stackState Z) * list bytes :=
  handlePacket srv (fun _ => None) (fun n => Z.of_nat n * Second) start data src.
End SamplePublic.

(** A permitted source reaches the handler; another is met with silence; and a
    server cookie that was never issued is answered without it. *)
Lemma public_udp_gates_witness :
  let lim := NewRateLimit (H := exactFloat) (public.rateLimitOpts (public.applyPublicOptions SamplePublic.opts)) in
  let sp := SecretPool.mk [1; 2; 3] [] in
  (exists c a h' out, cookiesMW.NewCookies (Some (Server.NewServer [])) [] = Ok c /\
     acl.NewACL [acl.ACLAllow [PrefixFrom (Addr4 [192; 0; 2; 0]) 24]; acl.ACLDropDenied true] = Ok a /\
     gate (H := SampleKey.checksum) (H0 := exactFloat) (H1 := SampleLimiter.hash) (H3 := SampleLimiter.inKeyOrder)
       a lim c New sp SamplePublic.received SamplePublic.friend 0 Second = Served /\
     outcome (H0 := exactFloat) (H1 := SampleLimiter.hash) (H3 := SampleLimiter.inKeyOrder) lim c SamplePublic.counting
       (Some SamplePublic.body) (mkWriter SamplePublic.friend SamplePublic.listen (str "udp")) SamplePublic.received
       (maxResp (us_cfg SamplePublic.srv) SamplePublic.received) (0, sp, New, New) h' out 0 Served /\
     h'.1.1.1 = 1) /\
  (SamplePublic.receive SamplePublic.body SamplePublic.stranger).2 = [] /\
  (hstate (SamplePublic.receive SamplePublic.body SamplePublic.stranger).1).1.1.1 = 0 /\
  (exists d, (SamplePublic.receive SamplePublic.forged SamplePublic.friend).2 = [d]) /\
  (hstate (SamplePublic.receive SamplePublic.forged SamplePublic.friend).1).1.1.1 = 0.
Proof.
  cbn zeta. split; [|split; [by vm_compute|]; split; [by vm_compute|]; split; [eexists; by vm_compute|by vm_compute]].
  pose proof (public_udp_gates (H := SampleKey.checksum) (H0 := exactFloat) (H1 := SampleLimiter.hash) (H2 := SampleRrl.hash)
    (H3 := SampleLimiter.inKeyOrder) SamplePublic.listen SamplePublic.counting SamplePublic.opts SamplePublic.srv (fun _ => None)
    (fun n => Z.of_nat n * Second) SamplePublic.start SamplePublic.body SamplePublic.friend ltac:(reflexivity)) as X. cbn zeta in X.
  destruct (handlePacket _ _ _ _ _ _) as [l' out] eqn:E. destruct X as (c & a & Hc & Ha & X). exists c, a, (hstate l'), out.
  split; [done|]. split; [done|].
  assert (Unpack SamplePublic.body = Ok SamplePublic.received) as Eu by (vm_compute; reflexivity).
  assert (PreflightRequest SamplePublic.received = PreflightAccept) as Ep by (vm_compute; reflexivity).
  rewrite Eu in X. rewrite Ep in X.
  match type of X with outcome _ _ _ _ _ _ _ _ _ _ _ ?g => assert (g = Served) as Eg end.
  { injection Hc as <-. injection Ha as <-. by vm_compute. }
  rewrite Eg in X. split; [exact Eg|]. split; [exact X|].
  change (hstate l') with (hstate (l', out).1). rewrite <- E. by vm_compute.
Defined.

Lemma acl_zone_unmatched_witness :
  acl.permit (acl.mk [] [PrefixFrom (Addr6 (254 :: 128 :: replicate 14 0) []) 10] true)
    (Unmap (Addr6 (254 :: 128 :: replicate 13 0 ++ [1]) (str "eth0"))) = true /\
  acl.permit (acl.mk [] [PrefixFrom (Addr6 (254 :: 128 :: replicate 14 0) []) 10] true)
    (Unmap (Addr6 (254 :: 128 :: replicate 13 0 ++ [1]) [])) = false.
Proof.
  split; [|by vm_compute].
  apply (acl_zone_unmatched (acl.mk [] [PrefixFrom (Addr6 (254 :: 128 :: replicate 14 0) []) 10] true)
    (254 :: 128 :: replicate 13 0 ++ [1]) (str "eth0")); by vm_compute.
Defined.

Lemma cookie_gate_bounds_witness :
  let m := cookiesMW.mk (Server.NewServer []) true 20 in
  let w := mkWriter SamplePublic.friend SamplePublic.listen (str "udp") in
  exists r r0, firstWritten (fun _ => 0) 0 (SamplePublic.counting None w SamplePublic.query 0) = Some r0 /\
    ((r = r0 /\ exists buf, Pack r = Ok buf /\ zlen buf <= 20) \/ is_stub r0 r) /\ r <> r0.
Proof.
  cbn zeta. eexists.
  destruct (cookie_gate_bounds (H := SampleKey.checksum) (cookiesMW.mk (Server.NewServer []) true 20) SamplePublic.counting None
    (mkWriter SamplePublic.friend SamplePublic.listen (str "udp")) SamplePublic.query 0 (SecretPool.mk [1] []) (fun _ => 0)
    (cookiesMW.truncateForCookieGate
       (default zeroMessage (firstWritten (fun _ => 0) 0 (SamplePublic.counting None (mkWriter SamplePublic.friend SamplePublic.listen (str "udp")) SamplePublic.query 0)))
       SamplePublic.query)) as (r0 & E & Hr); [done|by vm_compute|by vm_compute|by vm_compute|].
  exists r0. split; [exact E|]. split; [exact Hr|]. injection E as <-. intros X. apply (f_equal (fun m => Truncated (flags m))) in X. by vm_compute in X.
Defined.

(** The gate measures a response before the cookie option is attached: to a
    request with a client cookie only, a response of the permitted size goes
    out longer. *)
Lemma cookie_gate_before_attach :
  let q := mkMessage 7 0 [mkQuestion SamplePublic.qname rrtype.A rrtype.ClassIN []] [] [] []
             (mkEDNS 1232 0 0 false [mkEDNSOption EDNSOptionCookie (replicate 8 1)]) true in
  let m := cookiesMW.mk (Server.NewServer []) true 60 in
  let w := mkWriter SamplePublic.friend SamplePublic.listen (str "udp") in
  let len (r : option Message) := match r with Some r => match Pack r with Ok d => zlen d | Err _ => 0 end | None => 0 end in
  len (firstWritten (fun _ => 0) 0 (SamplePublic.counting None w q 0)) = 36 /\
  len (firstWritten (fun _ => 0) 0 (cookiesMW.ServeDNS (H := SampleKey.checksum) m SamplePublic.counting None w q (0, SecretPool.mk [1] []))) = 64.
Proof. by vm_compute. Qed.
