(* ===== verification/Exchanger.v ===== *)
(** * Clients: the exchangers over UDP and TCP, and the stream framing
      (src/exchanger.go, exchanger_udp.go, exchanger_tcp.go,
      internal/streamframe/streamframe.go)

    An exchange is a tree of [action]s on sockets, the random source and the
    context, each followed by what the client does for every result.  A
    connection is the number [Dial] returned for it.  Deadlines appear as
    errors of the reads and writes; closing a connection releases it and is
    not observed. *)

From Stdlib Require Import Strings.String.
From S2P Require Import Prelude Name Wire RData RDataNew Message EdnsOptions Netip Compare Authoritative.
Open Scope Z_scope.
Open Scope list_scope.

Module exchanger.

Inductive action : Type -> Type :=
  | Rand (n : Z) : action (res bytes)                       (* crypto/rand.Read of n bytes *)
  | Dial (network : bytes) (addr : AddrPort) : action (res nat)
  | Write (conn : nat) (b : bytes) : action (option error)
  | Read (conn : nat) (size : Z) : action (res bytes)       (* one datagram, cut at size *)
  | ReadFull (conn : nat) (n : Z) : action (res bytes)
  | CtxErr : action (option error)
  | SetServer (addr : AddrPort) : action unit.              (* the sink of SetExchangeServer *)

Inductive prog (A : Type) : Type :=
  | Ret (a : A) : prog A
  | Act {X : Type} (a : action X) (k : X -> prog A) : prog A.
Arguments Ret {A} a.
Arguments Act {A X} a k.

Fixpoint bind {A B} (p : prog A) (f : A -> prog B) : prog B :=
  match p with
  | Ret a => f a
  | Act a k => Act a (fun x => bind (k x) f)
  end.
Definition act {X} (a : action X) : prog X := Act a Ret.

Notation "x <- p ;; k" := (bind p (fun x => k)) (at level 62, p at next level, right associativity).
Notation "'do:' a ;; k" := (Act a (fun _ => k)) (at level 62, a at next level, right associativity).

(** [acidns.Exchanger] *)
Definition Exchanger : Type := Message -> prog (res Message).

Definition randomID : prog (res Z) :=
  b <- act (Rand 2) ;; Ret (match b with Ok b => Ok (u16at b 0) | Err e => Err (ErrWrapped e) end).

(** ** exchanger_udp.go *)

Inductive UDPClientOption := UDPClientTimeout (d : Z) | UDPClientBufferSize (n : Z) | UDPClientCaseRandomization (v : bool).
Record UDPClient := mkUDPClient { uc_addr : AddrPort; uc_timeout : Z; uc_bufsize : Z; uc_use0x20 : bool }.

Definition applyUDPClientOption (c : UDPClient) (o : UDPClientOption) : UDPClient :=
  match o with
  | UDPClientTimeout d => mkUDPClient (uc_addr c) d (uc_bufsize c) (uc_use0x20 c)
  | UDPClientBufferSize n => mkUDPClient (uc_addr c) (uc_timeout c) n (uc_use0x20 c)
  | UDPClientCaseRandomization v => mkUDPClient (uc_addr c) (uc_timeout c) (uc_bufsize c) v
  end.

Definition NewUDPClient (addr : AddrPort) (opts : list UDPClientOption) : res UDPClient :=
  if negb (AddrPort_IsValid addr) then Err ErrInvalidAddress
  else Ok (fold_left applyUDPClientOption opts (mkUDPClient addr (5 * Second) 4096 true)).

(** The loop over the bytes of a label: those left, the offset, the number of
    bits used.  [true] when the bits ran out, which ends the walk. *)
Fixpoint label_loop (n : nat) (qname bits : bytes) (i bitIdx : Z) : bytes * Z * bool :=
  match n with
  | O => (qname, bitIdx, false)
  | S n =>
      let b := zget qname i in
      if (b <? 97) || (122 <? b) then label_loop n qname bits (i + 1) bitIdx
      else if zlen bits <=? bitIdx / 8 then (qname, bitIdx, true)
      else
        let qname := if negb (Z.land (zget bits (bitIdx / 8)) (Z.shiftl 1 (bitIdx mod 8)) =? 0)
                     then <[Z.to_nat i := b - 32]> qname else qname in
        label_loop n qname bits (i + 1) (bitIdx + 1)
  end.

Fixpoint case_loop (fuel : nat) (qname bits : bytes) (off bitIdx : Z) : bytes :=
  match fuel with
  | O => qname
  | S fuel =>
      if zlen qname <=? off then qname
      else
        let l := zget qname off in
        if l =? 0 then qname
        else if negb (Z.land l 0xc0 =? 0) then qname
        else
          let end_ := off + 1 + l in
          if zlen qname <? end_ then qname
          else let '(qname, bitIdx, stop) := label_loop (Z.to_nat l) qname bits (off + 1) bitIdx in
               if stop then qname else case_loop fuel qname bits end_ bitIdx
  end.
(** [randomizeQNameCase], with the random bytes it read. *)
Definition randomizeQNameCase (qname bits : bytes) : bytes := case_loop (S (length qname)) qname bits 0 0.

Fixpoint question_loop (fuel : nat) (msg : bytes) (off : Z) : res Z :=
  match fuel with
  | O => Err ErrFuel
  | S fuel =>
      if zlen msg <=? off then Err ErrPlain
      else
        let l := zget msg off in
        if l =? 0 then Ok (off + 1)
        else if negb (Z.land l 0xc0 =? 0) then Err ErrPlain
        else question_loop fuel msg (off + 1 + l)
  end.
Definition questionSectionBytes (msg : bytes) : res bytes :=
  if zlen msg <? 12 then Err ErrPlain
  else let? off := question_loop (S (length msg)) msg 12 in
       if zlen msg <? off + 4 then Err ErrPlain else Ok (zslice msg 12 (off + 4)).

Definition maxParseErr : Z := 16.
Definition maxIDMismatch : Z := 256.
Definition maxQuestionMismatch : Z := 16.
Definition maxCaseMismatch : Z := 16.

(** What the reader makes of a datagram. *)
Inductive verdict := VParse (e : error) | VID | VQuestion | VCase | VAccept (resp : Message).

(** [sent] is the question section as sent, when its case was randomised. *)
Definition judge (q : Message) (sent : option bytes) (buf : bytes) : verdict :=
  match Unpack buf with
  | Err e => VParse e
  | Ok resp =>
      if negb (Message.id resp =? Message.id q) then VID
      else if negb (QuestionsMatch q resp) then VQuestion
      else match sent with
      | None => VAccept resp
      | Some s => match questionSectionBytes buf with
                  | Ok r => if bool_decide (r = s) then VAccept resp else VCase
                  | Err _ => VCase
                  end
      end
  end.

(** The loop over the datagrams; the counters are those of the source. *)
Fixpoint read_loop (fuel : nat) (c : UDPClient) (conn : nat) (q : Message) (sent : option bytes)
    (parseErr idMis qMis caseMis : Z) : prog (res Message) :=
  match fuel with
  | O => Ret (Err ErrFuel)
  | S fuel =>
      n <- act (Read conn (uc_bufsize c)) ;;
      cerr <- act CtxErr ;;
      match n with
      | Err e => Ret (Err (match cerr with Some ce => ce | None => ErrWrapped e end))
      | Ok buf =>
          match cerr with
          | Some ce => Ret (Err ce)
          | None =>
              match judge q sent buf with
              | VParse e => if maxParseErr <=? parseErr + 1 then Ret (Err (ErrWrapped e))
                            else read_loop fuel c conn q sent (parseErr + 1) idMis qMis caseMis
              | VID => if maxIDMismatch <=? idMis + 1 then Ret (Err ErrPlain)
                       else read_loop fuel c conn q sent parseErr (idMis + 1) qMis caseMis
              | VQuestion => if maxQuestionMismatch <=? qMis + 1 then Ret (Err ErrPlain)
                             else read_loop fuel c conn q sent parseErr idMis (qMis + 1) caseMis
              | VCase => if maxCaseMismatch <=? caseMis + 1 then Ret (Err ErrPlain)
                         else read_loop fuel c conn q sent parseErr idMis qMis (caseMis + 1)
              | VAccept resp => do: SetServer (uc_addr c) ;; Ret (Ok resp)
              end
          end
      end
  end.
(** Each datagram uses up one of the four budgets. *)
Definition readFuel : nat := Z.to_nat (maxParseErr + maxIDMismatch + maxQuestionMismatch + maxCaseMismatch).

(** From the dial on, with the message to send. *)
Definition udpSend (c : UDPClient) (q : Message) (msg : bytes) (sent : option bytes) : prog (res Message) :=
  d <- act (Dial (str "udp") (uc_addr c)) ;;
  match d with
  | Err e => Ret (Err (ErrWrapped e))
  | Ok conn =>
      w <- act (Write conn msg) ;;
      match w with
      | Some e => Ret (Err (ErrWrapped e))
      | None => read_loop readFuel c conn q sent 0 0 0 0
      end
  end.

(** The message with the case of its question's name randomised, and the
    question section that results. *)
Definition randomised (msg qs bits : bytes) : bytes * bytes :=
  let name := randomizeQNameCase (zslice msg 12 (12 + zlen qs - 4)) bits in
  let msg := zslice msg 0 12 ++ name ++ zslice msg (12 + zlen qs - 4) (zlen msg) in
  (msg, zslice msg 12 (12 + zlen qs)).

Definition udpExchange (c : UDPClient) : Exchanger := fun q =>
  match Pack q with
  | Err e => Ret (Err (ErrWrapped e))
  | Ok msg =>
      if uc_use0x20 c && (0 <? zlen (questions q)) && (Opcode (flags q) =? OpcodeQuery) then
        match questionSectionBytes msg with
        | Err e => Ret (Err (ErrWrapped e))
        | Ok qs =>
            b <- act (Rand ((zlen qs - 4 + 7) / 8)) ;;
            match b with
            | Err e => Ret (Err (ErrWrapped e))
            | Ok bits => let '(msg, sent) := randomised msg qs bits in udpSend c q msg (Some sent)
            end
        end
      else udpSend c q msg None
  end.

(** ** internal/streamframe/streamframe.go *)

(** The frame of a message: what [WriteFrame] writes, in two writes. *)
Definition frameOf (m : Message) : res (bytes * bytes) :=
  match Pack m with
  | Err e => Err (ErrWrapped e)
  | Ok wire => if 0xffff <? zlen wire then Err ErrPlain else Ok (be16 (to_u16 (zlen wire)), wire)
  end.

Definition WriteFrame (conn : nat) (m : Message) : prog (option error) :=
  match frameOf m with
  | Err e => Ret (Some e)
  | Ok (hdr, wire) =>
      w <- act (Write conn hdr) ;;
      match w with
      | Some e => Ret (Some (ErrWrapped e))
      | None => w <- act (Write conn wire) ;; Ret (match w with Some e => Some (ErrWrapped e) | None => None end)
      end
  end.

Definition ReadFrame (conn : nat) : prog (res Message) :=
  h <- act (ReadFull conn 2) ;;
  match h with
  | Err e => Ret (Err e)
  | Ok hdr =>
      b <- act (ReadFull conn (u16at hdr 0)) ;;
      Ret (match b with
           | Err e => if bool_decide (e = EOF) then Err ErrUnexpectedEOF else Err (ErrWrapped e)
           | Ok body => match Unpack body with Ok m => Ok m | Err e => Err (ErrWrapped e) end
           end)
  end.

Definition ExchangeOnConn (conn : nat) (q : Message) : prog (res Message) :=
  w <- WriteFrame conn q ;;
  match w with
  | Some e => Ret (Err e)
  | None =>
      r <- ReadFrame conn ;;
      match r with
      | Err e => c <- act CtxErr ;; Ret (Err (match c with Some ce => ce | None => e end))
      | Ok resp =>
          if negb (Message.id resp =? Message.id q) then Ret (Err ErrPlain)
          else if negb (QuestionsMatch q resp) then Ret (Err ErrPlain)
          else Ret (Ok resp)
      end
  end.

(** A [ConnStream] is its connection and the ID it expects. *)
Definition NewConnStream (conn : nat) (q : Message) : prog (res (nat * Z)) :=
  w <- WriteFrame conn q ;;
  Ret (match w with Some e => Err e | None => Ok (conn, Message.id q) end).
Definition Next (s : nat * Z) : prog (res Message) :=
  r <- ReadFrame s.1 ;;
  match r with
  | Err e => c <- act CtxErr ;; Ret (Err (match c with Some ce => ce | None => e end))
  | Ok m => if negb (Message.id m =? s.2) then Ret (Err ErrPlain) else Ret (Ok m)
  end.

(** ** exchanger_tcp.go *)

Record TCPClient := mkTCPClient { tc_addr : AddrPort; tc_timeout : Z }.
(** [WithTCPClientTimeout] is the only option. *)
Definition NewTCPClient (addr : AddrPort) (opts : list Z) : res TCPClient :=
  if negb (AddrPort_IsValid addr) then Err ErrInvalidAddress
  else Ok (mkTCPClient addr (fold_left (fun _ d => d) opts (5 * Second))).

Definition tcpExchange (c : TCPClient) : Exchanger := fun q =>
  d <- act (Dial (str "tcp") (tc_addr c)) ;;
  match d with
  | Err e => Ret (Err (ErrWrapped e))
  | Ok conn =>
      r <- ExchangeOnConn conn q ;;
      match r with
      | Err e => Ret (Err e)
      | Ok resp => do: SetServer (tc_addr c) ;; Ret (Ok resp)
      end
  end.

Definition tcpStream (c : TCPClient) (q : Message) : prog (res (nat * Z)) :=
  d <- act (Dial (str "tcp") (tc_addr c)) ;;
  match d with
  | Err e => Ret (Err (ErrWrapped e))
  | Ok conn => s <- NewConnStream conn q ;; Ret (match s with Ok s => Ok s | Err e => Err (ErrWrapped e) end)
  end.

(** ** The exchangers resolver.go composes *)

(** [retryExchanger]: [i] is the number of the attempt. *)
Fixpoint retry_loop (n : nat) (inner : Exchanger) (q : Message) (first : bool) (lastErr : error) : prog (res Message) :=
  match n with
  | O => Ret (Err lastErr)
  | S n =>
      rid <- (if first then Ret (Ok None) else rid <- randomID ;; Ret (match rid with Ok v => Ok (Some v) | Err e => Err e end)) ;;
      match rid with
      | Err e => Ret (Err e)
      | Ok rid =>
          resp <- inner (match rid with Some v => WithID q v | None => q end) ;;
          match resp with
          | Ok m => Ret (Ok m)
          | Err e =>
              c <- act CtxErr ;;
              match c with Some ce => Ret (Err ce) | None => retry_loop n inner q false e end
          end
      end
  end.
(** With no attempts the source returns its zero error, which is no error, and
    the zero message. *)
Definition retryExchange (attempts : Z) (inner : Exchanger) : Exchanger := fun q =>
  if attempts <=? 0 then Ret (Ok zeroMessage) else retry_loop (Z.to_nat attempts) inner q true ErrPlain.

Definition isRetryableRCODE (rc : Z) : bool := (rc =? RCODEServFail) || (rc =? RCODERefused).

Fixpoint failover_loop (exs : list Exchanger) (q : Message) (first : bool) (lastErr : option error) (lastResp : option Message) :
    prog (res Message) :=
  match exs with
  | [] => Ret (match lastResp with
               | Some m => Ok m
               | None => match lastErr with Some e => Err e | None => Ok zeroMessage end
               end)
  | ex :: exs =>
      rid <- (if first then Ret (Ok None) else rid <- randomID ;; Ret (match rid with Ok v => Ok (Some v) | Err e => Err e end)) ;;
      match rid with
      | Err e => Ret (Err e)
      | Ok rid =>
          resp <- ex (match rid with Some v => WithID q v | None => q end) ;;
          match resp with
          | Err e =>
              c <- act CtxErr ;;
              match c with Some ce => Ret (Err ce) | None => failover_loop exs q false (Some e) lastResp end
          | Ok m => if isRetryableRCODE (RCODE (flags m)) then failover_loop exs q false lastErr (Some m) else Ret (Ok m)
          end
      end
  end.
Definition failover (exs : list Exchanger) : Exchanger := fun q => failover_loop exs q true None None.

(** [fallback] is never nil where the package builds one. *)
Definition tcFallback (primary fallback : Exchanger) : Exchanger := fun q =>
  resp <- primary q ;;
  match resp with
  | Err e => Ret (Err e)
  | Ok m =>
      if negb (Truncated (flags m)) then Ret (Ok m)
      else
        rid <- randomID ;;
        resp <- fallback (match rid with Ok v => WithID q v | Err _ => q end) ;;
        match resp with
        | Err e => Ret (Err e)
        | Ok m => if Truncated (flags m) then Ret (Err ErrPlain) else Ret (Ok m)
        end
  end.

Fixpoint build_loop (servers : list AddrPort) (attempts perAttempt : Z) (use0x20 : bool) (bufSize : Z) : res (list Exchanger) :=
  match servers with
  | [] => Ok []
  | s :: servers =>
      let? uex := NewUDPClient s [UDPClientCaseRandomization use0x20; UDPClientBufferSize bufSize] in
      let? tex := NewTCPClient s [] in
      let ex := tcFallback (udpExchange uex) (tcpExchange tex) in
      let ex := if (1 <? attempts) || (0 <? perAttempt) then retryExchange (Z.max attempts 1) ex else ex in
      let? exs := build_loop servers attempts perAttempt use0x20 bufSize in
      Ok (ex :: exs)
  end.
Definition buildFallover (servers : list AddrPort) (attempts perAttempt : Z) (use0x20 : bool) (ednsUDP : Z) : res Exchanger :=
  let? exs := build_loop servers attempts perAttempt use0x20 (Z.max ednsUDP 4096) in
  match exs with [ex] => Ok ex | _ => Ok (failover exs) end.
End exchanger.
