(* ===== verification/ExchangerSound.v ===== *)
(** * Properties of the clients

    What an execution of an exchange can look like, whatever the network, the
    random source and the context do: where the message it returns comes from
    and how much it reads; the case randomisation against a reference; frames
    on a stream. *)

From Stdlib Require Import Strings.String.
From S2P Require Import Prelude Name Wire RData Message Reader MessageRoundtrip MessageReads EdnsOptions Netip Compare Exchanger.
Import exchanger.
Open Scope Z_scope.
Open Scope list_scope.

(** ** Executions *)

(** An action and its result. *)
Inductive event : Type :=
  | Ev {X : Type} (a : action X) (x : X).

(** [runs p h r]: with the results in [h], [p] does the actions in [h] and
    returns [r].  Nothing is assumed of the results. *)
Fixpoint runs {A : Type} (p : prog A) (h : list event) (r : A) : Prop :=
  match p with
  | Ret a => h = [] /\ r = a
  | Act a k => exists x h', h = Ev a x :: h' /\ runs (k x) h' r
  end.

Lemma runs_bind {A B : Type} (p : prog A) (f : A -> prog B) h b :
  runs (bind p f) h b <-> exists h1 h2 a, h = h1 ++ h2 /\ runs p h1 a /\ runs (f a) h2 b.
Proof.
  revert h. induction p as [a|X a k IH]; intros h; cbn.
  - split; [intros; by exists [], h, a|]. by intros (h1 & h2 & a' & -> & (-> & ->) & ?).
  - split.
    + intros (x & h' & -> & (h1 & h2 & r & -> & ? & ?)%IH). exists (Ev a x :: h1), h2, r. split_and!; [done| |done].
      by exists x, h1.
    + intros (h1 & h2 & r & -> & (x & h' & -> & ?) & ?). exists x, (h' ++ h2). split; [done|]. apply IH. eauto 6.
Qed.

(** Takes an execution apart, action by action. *)
Ltac runs_inv :=
  repeat (cbn [runs bind act] in *; match goal with
  | H : runs (bind ?p _) _ _ |- _ => apply runs_bind in H; destruct H as (? & ? & ? & -> & ? & ?)
  | H : runs (act _) _ _ |- _ => unfold act in H
  | H : exists _, _ |- _ => destruct H
  | H : _ /\ _ |- _ => destruct H
  | H : runs (match ?x with _ => _ end) _ _ |- _ => let E := fresh "E" in destruct x eqn:E
  | H : _ :: _ = _ |- _ => symmetry in H
  end; subst; try discriminate).

(** ** Where a response comes from *)

(** [b] is [a], or the capital of the small letter [a]. *)
Definition recased (a b : Z) : Prop := b = a \/ (97 <= a <= 122 /\ b = a - 32).

(** The question section is sent with its case randomised. *)
Definition randomises (use0x20 : bool) (q : Message) : bool :=
  use0x20 && (0 <? zlen (questions q)) && (Opcode (flags q) =? OpcodeQuery).

(** In [h] a datagram [sent] went to [s] over a connection of its own: the
    packed [q] up to the case of letters; and [m] is a datagram received on the
    same connection that carries the ID and the questions of [q] and, with
    randomised case, octet for octet the question section that was sent. *)
Definition overUDP (use0x20 : bool) (s : AddrPort) (q : Message) (h : list event) (m : Message) : Prop :=
  exists pre conn wire sent reads size buf post,
    h = pre ++ Ev (Dial (str "udp") s) (Ok conn) :: Ev (Write conn sent) None :: reads ++ Ev (Read conn size) (Ok buf) :: post /\
    Pack q = Ok wire /\ Forall2 recased wire sent /\
    Unpack buf = Ok m /\ Message.id m = Message.id q /\ QuestionsMatch q m = true /\
    (randomises use0x20 q = true ->
       exists qs, questionSectionBytes wire = Ok qs /\ questionSectionBytes buf = Ok (zslice sent 12 (12 + zlen qs))).

(** In [h] the frame of [q] went to [s], and [m] is the body of the frame read
    next on the same connection, with the ID and the questions of [q]. *)
Definition overTCP (s : AddrPort) (q : Message) (h : list event) (m : Message) : Prop :=
  exists pre conn wire hdr body post,
    h = pre ++ Ev (Dial (str "tcp") s) (Ok conn) :: Ev (Write conn (be16 (zlen wire))) None :: Ev (Write conn wire) None ::
          Ev (ReadFull conn 2) (Ok hdr) :: Ev (ReadFull conn (u16at hdr 0)) (Ok body) :: post /\
    Pack q = Ok wire /\ Unpack body = Ok m /\ Message.id m = Message.id q /\ QuestionsMatch q m = true.

(** The query, or the query with an ID drawn in [h]. *)
Definition askedAs (q : Message) (h : list event) (q' : Message) : Prop :=
  q' = q \/ exists b, Ev (Rand 2) (Ok b) ∈ h /\ q' = WithID q (u16at b 0).

(** *** Case randomisation keeps letters *)

Lemma recased_refl l : Forall2 recased l l.
Proof. induction l; constructor; [by left|done]. Qed.

Lemma recased_trans l1 l2 l3 : Forall2 recased l1 l2 -> Forall2 recased l2 l3 -> Forall2 recased l1 l3.
Proof.
  intros H. revert l3. induction H as [|a b l1 l2 Hab H IH]; intros l3 H3; inversion H3 as [|? c ? l3' Hbc]; subst; constructor; [|by apply IH].
  unfold recased in *. destruct Hab as [->|[? ->]], Hbc as [->|[? ->]]; [by left|by right|by right|lia].
Qed.

Lemma recased_insert l (i : nat) b : default 0 (l !! i) = b -> 97 <= b <= 122 -> Forall2 recased l (<[i := b - 32]> l).
Proof.
  revert i. induction l as [|a l IH]; intros [|i] H Hb; cbn in *; try constructor; subst.
  - by right.
  - apply recased_refl.
  - by left.
  - by apply IH.
Qed.

Lemma label_loop_recased n qname bits i bitIdx : Forall2 recased qname (label_loop n qname bits i bitIdx).1.1.
Proof.
  revert qname i bitIdx. induction n as [|n IH]; intros qname i bitIdx; cbn; [apply recased_refl|].
  destruct ((_ <? 97) || _) eqn:E; [apply IH|]. destruct (_ <=? _); [apply recased_refl|].
  eapply recased_trans; [|apply IH]. destruct (negb _); [|apply recased_refl].
  apply recased_insert; [done|]. apply orb_false_iff in E as [??]. lia.
Qed.

Lemma case_loop_recased fuel qname bits off bitIdx : Forall2 recased qname (case_loop fuel qname bits off bitIdx).
Proof.
  revert qname off bitIdx. induction fuel as [|fuel IH]; intros qname off bitIdx; cbn; [apply recased_refl|].
  repeat (case_match; [apply recased_refl|]).
  pose proof (label_loop_recased (Z.to_nat (zget qname off)) qname bits (off + 1) bitIdx) as HL.
  destruct (label_loop _ _ _ _ _) as [[q' bi] stop]. cbn in HL. destruct stop; [done|].
  eapply recased_trans; [done|]. apply IH.
Qed.

Lemma question_loop_bound fuel msg off r : 0 <= off -> is_bytes msg -> question_loop fuel msg off = Ok r -> off < r.
Proof.
  revert off. induction fuel as [|fuel IH]; intros off Ho Hb; cbn; [done|].
  repeat (case_match; try done); intros ?; simplify_eq; [lia|].
  assert (0 <= zget msg off). { unfold zget. destruct (msg !! _) eqn:E; cbn; [|lia]. apply (Forall_lookup_1 _ _ _ _ Hb) in E. unfold u8 in E. lia. }
  apply IH in H2; [lia|lia|done].
Qed.

Lemma zslice_split {A} (l : list A) a b : 0 <= a <= b -> b <= zlen l -> l = zslice l 0 a ++ zslice l a b ++ zslice l b (zlen l).
Proof.
  intros Ha Hb. unfold zslice, zlen in *. rewrite Z.sub_0_r, drop_0.
  rewrite (take_ge (drop (Z.to_nat b) l)) by (rewrite length_drop; lia).
  replace (drop (Z.to_nat b) l) with (drop (Z.to_nat (b - a)) (drop (Z.to_nat a) l)) by (rewrite drop_drop; f_equal; lia).
  by rewrite !take_drop.
Qed.

Lemma length_zslice {A} (l : list A) a b : 0 <= a <= b -> b <= zlen l -> zlen (zslice l a b) = b - a.
Proof. intros. unfold zlen, zslice in *. rewrite length_take, length_drop. lia. Qed.

Lemma questionSectionBytes_len msg qs : is_bytes msg -> questionSectionBytes msg = Ok qs ->
  5 <= zlen qs /\ 12 + zlen qs <= zlen msg /\ qs = zslice msg 12 (12 + zlen qs).
Proof.
  intros Hb. unfold questionSectionBytes. case_match; [done|]. destruct (question_loop _ _ _) as [off|] eqn:E; cbn; [|done].
  apply question_loop_bound in E; [|lia|done]. case_match; [done|]. intros [= <-]. bool_facts.
  rewrite length_zslice by lia. split_and!; try lia. f_equal. lia.
Qed.

Lemma randomised_recased msg qs bits : is_bytes msg -> questionSectionBytes msg = Ok qs ->
  Forall2 recased msg (randomised msg qs bits).1.
Proof.
  intros Hb Hq. destruct (questionSectionBytes_len _ _ Hb Hq) as (? & ? & _). unfold randomised, randomizeQNameCase. cbn [fst].
  rewrite (zslice_split msg 12 (12 + zlen qs - 4)) at 1 by lia.
  repeat apply Forall2_app; try apply recased_refl. apply case_loop_recased.
Qed.

Lemma Pack_bytes m b : message_ok (WithID m 0) -> Pack m = Ok b -> is_bytes b.
Proof.
  intros Hm HP. destruct (Pack_inv _ _ HP) as (_ & _ & _ & _ & p1 & p2 & p3 & p4 & E1 & E2 & E3 & E4 & -> & _).
  refine (proj2 (proj1 (proj2 (packs_body (WithID m 0) _ p1 p2 p3 p4 0 0 Hm _ E1 E2 E3 E4)))).
  repeat apply packer_ok_raw; auto using packer_ok_new with wire.
Qed.

(** *** The exchangers *)

(** What the message [q] contains can be written on the wire. *)
Definition sendable (q : Message) : Prop := message_ok (WithID q 0).

(** Where the response [m] to [q] comes from: one of [servers]. *)
Definition comesFrom (use0x20 : bool) (servers : list AddrPort) (q : Message) (h : list event) (m : Message) : Prop :=
  exists s q', s ∈ servers /\ askedAs q h q' /\ (overUDP use0x20 s q' h m \/ overTCP s q' h m).

(** The interface between exchangers: whatever is returned comes from a server. *)
Definition authentic (use0x20 : bool) (servers : list AddrPort) (ex : Exchanger) : Prop :=
  forall q h m, sendable q -> runs (ex q) h (Ok m) -> comesFrom use0x20 servers q h m.

Lemma read_loop_accepts fuel c conn q sent n1 n2 n3 n4 h m :
  runs (read_loop fuel c conn q sent n1 n2 n3 n4) h (Ok m) ->
  exists reads buf post, h = reads ++ Ev (Read conn (uc_bufsize c)) (Ok buf) :: post /\ judge q sent buf = VAccept m.
Proof.
  revert n1 n2 n3 n4 h. induction fuel as [|fuel IH]; intros * H; [by destruct H|]. cbn in H.
  runs_inv; try match goal with
  | H : runs (read_loop _ _ _ _ _ _ _ _ _) _ _ |- _ => apply IH in H as (reads & buf & post & -> & ?)
  end; try (eexists (_ :: _ :: reads), buf, post; split; [reflexivity|done]).
  simplify_eq. eexists [], _, _. split; [reflexivity|done].
Qed.

Lemma judge_accept q sent buf m : judge q sent buf = VAccept m ->
  Unpack buf = Ok m /\ Message.id m = Message.id q /\ QuestionsMatch q m = true /\ forall s, sent = Some s -> questionSectionBytes buf = Ok s.
Proof.
  unfold judge. destruct (Unpack buf) as [r|]; [|done].
  destruct (negb (_ =? _)) eqn:E1; [done|]. destruct (negb (QuestionsMatch _ _)) eqn:E2; [done|].
  apply negb_false_iff in E1 as E1%Z.eqb_eq, E2.
  destruct sent as [s|]; [|intros [= <-]; by rewrite E2].
  destruct (questionSectionBytes buf) as [r'|]; [|done]. case_bool_decide; [|done]. intros [= <-]. subst.
  split_and!; try done. by intros ? [= <-].
Qed.

Lemma udpSend_authentic c q sentMsg sent h m : runs (udpSend c q sentMsg sent) h (Ok m) ->
  exists conn reads buf post,
    h = Ev (Dial (str "udp") (uc_addr c)) (Ok conn) :: Ev (Write conn sentMsg) None :: reads ++ Ev (Read conn (uc_bufsize c)) (Ok buf) :: post /\
    judge q sent buf = VAccept m.
Proof.
  unfold udpSend. intros H. runs_inv.
  match goal with H : runs (read_loop _ _ _ _ _ _ _ _ _) _ _ |- _ => apply read_loop_accepts in H as (reads & buf & post & -> & ?) end.
  eexists _, reads, buf, post. split; [reflexivity|done].
Qed.

Lemma udp_authentic c : authentic (uc_use0x20 c) [uc_addr c] (udpExchange c).
Proof.
  intros q h m Hq. unfold udpExchange. intros H. exists (uc_addr c), q.
  split; [by constructor|]. split; [by left|]. left.
  destruct (Pack q) as [wire|] eqn:EP; [|by destruct H]. pose proof (Pack_bytes _ _ Hq EP) as Hb.
  fold (randomises (uc_use0x20 c) q) in H. destruct (randomises _ _) eqn:ER.
  - destruct (questionSectionBytes wire) as [qs|] eqn:EQ; [|by destruct H]. cbn [bind act runs] in H. destruct H as (b & h' & -> & H).
    destruct b as [bits|]; [|by destruct H]. pose proof (randomised_recased _ _ bits Hb EQ) as HR.
    destruct (randomised wire qs bits) as [sent s] eqn:E. apply udpSend_authentic in H as (conn & reads & buf & post & -> & HJ).
    apply judge_accept in HJ as (? & ? & ? & Hs).
    eexists [_], conn, wire, sent, reads, _, buf, post. split; [reflexivity|]. split_and!; try done. intros _. exists qs.
    split; [done|]. rewrite (Hs _ eq_refl). unfold randomised in E. by simplify_eq.
  - apply udpSend_authentic in H as (conn & reads & buf & post & -> & HJ). apply judge_accept in HJ as (? & ? & ? & _).
    eexists [], conn, wire, wire, reads, _, buf, post. split; [reflexivity|]. split_and!; try done; [apply recased_refl|by rewrite ER].
Qed.

Lemma tcp_authentic c use0x20 : authentic use0x20 [tc_addr c] (tcpExchange c).
Proof.
  intros q h m Hq. unfold tcpExchange, ExchangeOnConn, WriteFrame, frameOf. intros H.
  exists (tc_addr c), q. split; [by constructor|]. split; [by left|]. right.
  cbn [bind act runs] in H. destruct H as (d & h' & -> & H). destruct d as [conn|]; [|by destruct H].
  destruct (Pack q) as [wire|] eqn:EP; [|by runs_inv]. destruct (_ <? _) eqn:EL; [by runs_inv|]. bool_facts.
  unfold ReadFrame in H. runs_inv; simplify_eq.
  match goal with H : negb (_ =? _) = false |- _ => apply negb_false_iff in H as ?%Z.eqb_eq end.
  match goal with H : negb _ = false |- _ => apply negb_false_iff in H end.
  match goal with H : None = match ?x with _ => _ end |- _ => destruct x; [done|] end.
  match goal with H : Ok _ = match ?x with _ => _ end |- _ => destruct x as [body|]; [|by case_bool_decide] end.
  destruct (Unpack body) as [m'|] eqn:EU; simplify_eq. eexists [], _, wire, _, _, _. split; [|by split_and!]. rewrite to_u16_id by (unfold u16; llia). reflexivity.
Qed.

Lemma askedAs_ext q h1 h h2 q' : askedAs q h q' -> askedAs q (h1 ++ h ++ h2) q'.
Proof. intros [->|(b & Hb & ->)]; [by left|]. right. exists b. split; [|done]. rewrite !elem_of_app. auto. Qed.

Lemma comesFrom_ext use0x20 servers q h1 h h2 m : comesFrom use0x20 servers q h m -> comesFrom use0x20 servers q (h1 ++ h ++ h2) m.
Proof.
  intros (s & q' & Hs & Hq & H). exists s, q'. split; [done|]. split; [by apply askedAs_ext|]. destruct H as [H|H]; [left|right].
  - destruct H as (pre & conn & wire & sent & reads & size & buf & post & -> & H).
    exists (h1 ++ pre), conn, wire, sent, reads, size, buf, (post ++ h2). split; [by rewrite <- !app_assoc; cbn; rewrite <- !app_assoc|done].
  - destruct H as (pre & conn & wire & hdr & body & post & -> & H).
    exists (h1 ++ pre), conn, wire, hdr, body, (post ++ h2). split; [by rewrite <- !app_assoc|done].
Qed.

Lemma comesFrom_mono use0x20 servers servers' q h m : servers ⊆ servers' -> comesFrom use0x20 servers q h m -> comesFrom use0x20 servers' q h m.
Proof. intros Hs (s & q' & ? & ?). exists s, q'. split; [by apply Hs|done]. Qed.

(** The ID of a repeated query is drawn just before. *)
Lemma comesFrom_renumbered use0x20 servers q b h m :
  comesFrom use0x20 servers (WithID q (u16at b 0)) h m -> comesFrom use0x20 servers q (Ev (Rand 2) (Ok b) :: h) m.
Proof.
  intros H. apply (comesFrom_ext _ _ _ [Ev (Rand 2) (Ok b)] _ []) in H. rewrite app_nil_r in H. cbn [app] in H.
  destruct H as (s & q' & Hs & Hq & H). exists s, q'. split; [done|]. split; [|done]. right.
  destruct Hq as [->|(b' & Hb' & ->)]; [exists b; split; [by constructor|done]|exists b'; by split].
Qed.

(** One attempt, with a new ID unless it is the first. *)
Lemma attempt_authentic {A : Type} use0x20 servers (ex : Exchanger) (first : bool) q (k : res Message -> prog (res A)) h r :
  authentic use0x20 servers ex -> sendable q ->
  runs (rid <- (if first then Ret (Ok None) else rid <- randomID ;; Ret (match rid with Ok v => Ok (Some v) | Err e => Err e end)) ;;
        match rid with
        | Err e => Ret (Err e)
        | Ok rid => resp <- ex (match rid with Some v => WithID q v | None => q end) ;; k resp
        end) h r ->
  (exists e, r = Err e) \/
  exists h1 h2 resp, h = h1 ++ h2 /\ runs (k resp) h2 r /\ (forall m, resp = Ok m -> comesFrom use0x20 servers q h1 m).
Proof.
  intros Hex Hq. destruct first; cbn [bind]; [|unfold randomID; cbn [bind act runs]].
  - intros (h1 & h2 & resp & -> & H1 & H2)%runs_bind. right. exists h1, h2, resp. split_and!; [done..|]. intros m ->. by apply Hex.
  - intros (x & h' & -> & H). destruct x as [b|]; [|destruct H as [_ ->]; eauto].
    apply runs_bind in H as (h1 & h2 & resp & -> & H1 & H2). right. exists (Ev (Rand 2) (Ok b) :: h1), h2, resp.
    split_and!; [done..|]. intros m ->. by apply comesFrom_renumbered, Hex.
Qed.

Lemma comesFrom_before use0x20 servers q h1 h2 m : comesFrom use0x20 servers q h1 m -> comesFrom use0x20 servers q (h1 ++ h2) m.
Proof. apply (comesFrom_ext _ _ _ []). Qed.
Lemma comesFrom_after use0x20 servers q h1 h2 m : comesFrom use0x20 servers q h2 m -> comesFrom use0x20 servers q (h1 ++ h2) m.
Proof. intros H. rewrite <- (app_nil_r h2). by apply comesFrom_ext. Qed.

Lemma retry_authentic use0x20 servers ex attempts :
  authentic use0x20 servers ex -> 0 < attempts -> authentic use0x20 servers (retryExchange attempts ex).
Proof.
  intros Hex Ha q h m Hq. unfold retryExchange. if_false. clear Ha. generalize true ErrPlain.
  revert h. induction (Z.to_nat attempts) as [|n IH]; intros h first e H; [by destruct H|]. cbn [retry_loop] in H.
  apply (attempt_authentic use0x20 servers) in H as [(? & ?)|(h1 & h2 & resp & -> & H & Hm)]; [done| |done..].
  destruct resp as [m'|]; [destruct H as [-> [= ->]]; by apply comesFrom_before, Hm|]. runs_inv.
  apply comesFrom_after, (comesFrom_after _ _ _ [_]). by eapply IH.
Qed.

Lemma failover_loop_authentic use0x20 servers exs q first le lr h m :
  Forall (authentic use0x20 servers) exs -> sendable q -> runs (failover_loop exs q first le lr) h (Ok m) ->
  comesFrom use0x20 servers q h m \/ lr = Some m \/ (exs = [] /\ le = None /\ lr = None).
Proof.
  intros Hexs Hq. revert first le lr h. induction Hexs as [|ex exs Hex Hexs IH]; intros first le lr h H; cbn [failover_loop] in H.
  { destruct H as [-> H]. right. destruct lr as [m'|]; [injection H as <-; by left|]. destruct le; [done|]. by right. }
  apply (attempt_authentic use0x20 servers) in H as [(? & ?)|(h1 & h2 & resp & -> & H & Hm)]; [done| |done..].
  destruct resp as [m'|e].
  - destruct (isRetryableRCODE _); [|destruct H as [-> [= ->]]; left; by apply comesFrom_before, Hm].
    apply IH in H as [H|[[= ->]|(_ & _ & ?)]]; [left; by apply comesFrom_after|left; by apply comesFrom_before, Hm|done].
  - runs_inv. match goal with H : runs (failover_loop _ _ _ _ _) _ _ |- _ => apply IH in H as [H|[H|(_ & ? & _)]]; [|auto|done] end.
    left. by apply comesFrom_after, (comesFrom_after _ _ _ [_]).
Qed.

Lemma tcFallback_authentic use0x20 servers p f :
  authentic use0x20 servers p -> authentic use0x20 servers f -> authentic use0x20 servers (tcFallback p f).
Proof.
  intros Hp Hf q h m Hq. unfold tcFallback. intros (h1 & h2 & r & -> & H1 & H)%runs_bind. destruct r as [m1|]; [|by destruct H].
  destruct (negb _); [destruct H as [-> [= ->]]; by apply comesFrom_before, Hp|]. unfold randomID in H. cbn [bind act runs] in H.
  destruct H as (b & h' & -> & H). apply runs_bind in H as (h2 & h3 & r & -> & H2 & H3). destruct r as [m2|]; [|by destruct H3].
  destruct (Truncated _); [by destruct H3|]. destruct H3 as [-> [= ->]]. rewrite app_nil_r. apply comesFrom_after.
  destruct b as [b|]; [apply comesFrom_renumbered|apply (comesFrom_after _ _ _ [_])]; by apply Hf.
Qed.

(** *** Truncation *)

(** An exchanger that never returns a truncated message. *)
Definition complete (ex : Exchanger) : Prop := forall q h m, runs (ex q) h (Ok m) -> Truncated (flags m) = false.

Lemma tcFallback_complete p f : complete (tcFallback p f).
Proof.
  intros q h m. unfold tcFallback. intros (h1 & h2 & r & -> & H1 & H)%runs_bind. destruct r as [m1|]; [|by destruct H].
  destruct (negb _) eqn:E; [destruct H as [-> [= ->]]; by apply negb_true_iff|]. clear E.
  apply runs_bind in H as (? & ? & rid & -> & _ & H). apply runs_bind in H as (? & ? & r & -> & _ & H).
  destruct r as [m2|]; [|by destruct H]. destruct (Truncated _) eqn:E; [by destruct H|]. destruct H as [-> [= ->]]. done.
Qed.

Lemma attempt_complete (ex : Exchanger) (first : bool) q (k : res Message -> prog (res Message)) h m :
  complete ex ->
  runs (rid <- (if first then Ret (Ok None) else rid <- randomID ;; Ret (match rid with Ok v => Ok (Some v) | Err e => Err e end)) ;;
        match rid with
        | Err e => Ret (Err e)
        | Ok rid => resp <- ex (match rid with Some v => WithID q v | None => q end) ;; k resp
        end) h (Ok m) ->
  exists h2 resp, runs (k resp) h2 (Ok m) /\ (forall m, resp = Ok m -> Truncated (flags m) = false).
Proof.
  intros Hex (h1 & h2 & rid & -> & _ & H)%runs_bind. destruct rid as [rid|]; [|by destruct H].
  apply runs_bind in H as (h3 & h4 & resp & -> & H3 & H4). exists h4, resp. split; [done|]. intros m' ->. by eapply Hex.
Qed.

Lemma retry_complete ex attempts : complete ex -> complete (retryExchange attempts ex).
Proof.
  intros Hex q h m. unfold retryExchange. case_match; [by intros [_ [= ->]]|]. generalize true ErrPlain.
  revert h. induction (Z.to_nat attempts) as [|n IH]; intros h first e H'; [by destruct H'|]. cbn [retry_loop] in H'.
  apply attempt_complete in H' as (h2 & resp & H' & Hm); [|done]. destruct resp; [destruct H' as [_ [= ->]]; by apply Hm|].
  runs_inv. by eapply IH.
Qed.

Lemma failover_complete exs : Forall complete exs -> complete (failover exs).
Proof.
  intros Hexs q h m. unfold failover. assert (forall m', @None Message = Some m' -> Truncated (flags m') = false) as Hl by done.
  revert Hl. generalize true (@None error) (@None Message). revert h.
  induction Hexs as [|ex exs Hex Hexs IH]; intros h first le lr Hl H; cbn [failover_loop] in H.
  { destruct H as [_ H]. destruct lr; [injection H as <-; by apply Hl|]. destruct le; simplify_eq. done. }
  apply attempt_complete in H as (h2 & resp & H & Hm); [|done]. destruct resp as [m'|].
  - destruct (isRetryableRCODE _); [eapply IH; [|done]; by intros ? [= <-]; apply Hm|]. destruct H as [_ [= ->]]. by apply Hm.
  - runs_inv. by eapply IH.
Qed.

(** *** How much is read *)

(** The number of actions of a kind in an execution. *)
Definition count (f : forall X : Type, action X -> bool) (h : list event) : nat :=
  length (List.filter (fun e => match e with @Ev X a _ => f X a end) h).
Definition isRead (X : Type) (a : action X) : bool := match a with Read _ _ => true | _ => false end.
Definition isDial (X : Type) (a : action X) : bool := match a with Dial _ _ => true | _ => false end.

(** No execution of [p] has more than [n] actions of the kind [f]. *)
Definition atMost (f : forall X : Type, action X -> bool) (n : Z) {A : Type} (p : prog A) : Prop :=
  forall h r, runs p h r -> Z.of_nat (count f h) <= n.

Lemma count_app f h1 h2 : count f (h1 ++ h2) = (count f h1 + count f h2)%nat.
Proof. unfold count. by rewrite List.filter_app, length_app. Qed.
Lemma atMost_ret f {A : Type} (a : A) n : 0 <= n -> atMost f n (Ret a).
Proof. intros ? h r [-> ->]. done. Qed.
Lemma atMost_act f n {A X : Type} (a : action X) (k : X -> prog A) :
  (forall x, atMost f (n - (if f X a then 1 else 0)) (k x)) -> atMost f n (Act a k).
Proof.
  intros H h r (x & h' & -> & Hr). apply H in Hr. unfold count in *. cbn [List.filter]. destruct (f X a); cbn [length]; lia.
Qed.
Lemma atMost_bind f n1 n2 {A B : Type} (p : prog A) (k : A -> prog B) :
  atMost f n1 p -> (forall a, atMost f n2 (k a)) -> atMost f (n1 + n2) (bind p k).
Proof. intros H1 H2 h r (h1 & h2 & a & -> & ?%H1 & ?%H2)%runs_bind. rewrite count_app. lia. Qed.
Lemma atMost_weaken f n n' {A : Type} (p : prog A) : atMost f n p -> n <= n' -> atMost f n' p.
Proof. intros H ? h r ?%H. lia. Qed.

Ltac at_most :=
  cbn [bind act isRead isDial];
  repeat (lazymatch goal with
  | |- atMost _ _ (Ret _) => apply atMost_ret; nia
  | |- atMost _ _ (Act _ _) => apply atMost_act; intros
  | |- atMost _ _ (match ?x with _ => _ end) => destruct x eqn:?
  | |- atMost _ _ (bind (match ?x with _ => _ end) _) => destruct x eqn:?
  | |- atMost _ _ (bind (bind (match ?x with _ => _ end) _) _) => destruct x eqn:?
  end; cbn [bind act isRead isDial]).

Lemma read_loop_reads fuel c conn q sent n1 n2 n3 n4 :
  n1 < maxParseErr -> n2 < maxIDMismatch -> n3 < maxQuestionMismatch -> n4 < maxCaseMismatch ->
  atMost isRead (301 - n1 - n2 - n3 - n4) (read_loop fuel c conn q sent n1 n2 n3 n4) /\
  atMost isDial 0 (read_loop fuel c conn q sent n1 n2 n3 n4).
Proof.
  unfold maxParseErr, maxIDMismatch, maxQuestionMismatch, maxCaseMismatch.
  revert n1 n2 n3 n4. induction fuel as [|fuel IH]; intros n1 n2 n3 n4 ????; [split; apply atMost_ret; lia|].
  split; cbn [read_loop bind act]; at_most; bool_facts; unfold maxParseErr, maxIDMismatch, maxQuestionMismatch, maxCaseMismatch in *;
    (eapply atMost_weaken; [apply IH; lia|lia]).
Qed.

Lemma udpSend_cost c q msg sent : atMost isRead 301 (udpSend c q msg sent) /\ atMost isDial 1 (udpSend c q msg sent).
Proof.
  unfold udpSend. split; at_most; (eapply atMost_weaken; [apply read_loop_reads; done|done]).
Qed.

Lemma udp_cost c q : atMost isRead 301 (udpExchange c q) /\ atMost isDial 1 (udpExchange c q).
Proof.
  unfold udpExchange. split; at_most; (eapply atMost_weaken; [apply udpSend_cost|done]).
Qed.

Lemma tcp_cost c q : atMost isRead 0 (tcpExchange c q) /\ atMost isDial 1 (tcpExchange c q).
Proof.
  unfold tcpExchange, ExchangeOnConn, WriteFrame, ReadFrame. split; at_most.
Qed.

(** The cost of an exchanger: datagrams read, and connections opened. *)
Definition costs (ex : Exchanger) (reads dials : Z) : Prop := forall q, atMost isRead reads (ex q) /\ atMost isDial dials (ex q).

Lemma randomID_cost : atMost isRead 0 randomID /\ atMost isDial 0 randomID.
Proof. unfold randomID. split; at_most. Qed.

Lemma tcFallback_cost p f r1 d1 r2 d2 :
  costs p r1 d1 -> costs f r2 d2 -> 0 <= r2 -> 0 <= d2 -> costs (tcFallback p f) (r1 + r2) (d1 + d2).
Proof.
  intros Hp Hf ?? q. destruct (Hp q). unfold tcFallback, randomID.
  split; apply atMost_bind; try done; intros; at_most;
    (eapply atMost_weaken; [eapply (atMost_bind _ _ 0); [apply Hf|intros; at_most]|lia]).
Qed.

Lemma retry_cost ex attempts reads dials : costs ex reads dials -> 0 <= reads -> 0 <= dials -> 0 < attempts ->
  costs (retryExchange attempts ex) (attempts * reads) (attempts * dials).
Proof.
  intros Hex Hr Hd Ha q. unfold retryExchange. if_false. generalize true ErrPlain.
  assert (Z.of_nat (Z.to_nat attempts) = attempts) as <- by lia. rewrite Nat2Z.id. clear Ha.
  induction (Z.to_nat attempts) as [|n IH]; intros first e; [split; by apply atMost_ret|].
  cbn [retry_loop]. unfold randomID. rewrite Nat2Z.inj_succ, !Z.mul_succ_l, !(Z.add_comm (Z.of_nat n * _)).
  split; destruct first; at_most; rewrite ?Z.sub_0_r; (apply atMost_bind; [apply Hex|intros; at_most; rewrite ?Z.sub_0_r; apply IH]).
Qed.

Lemma failover_cost exs reads dials : 0 <= reads -> 0 <= dials -> Forall (fun ex => costs ex reads dials) exs ->
  costs (failover exs) (zlen exs * reads) (zlen exs * dials).
Proof.
  intros Hr Hd Hexs q. unfold failover. generalize true (@None error) (@None Message).
  induction Hexs as [|ex exs Hex Hexs IH]; intros first le lr; [split; by apply atMost_ret|].
  pose proof (zlen_nonneg exs). cbn [failover_loop]. unfold randomID. rewrite zlen_cons, !Z.mul_add_distr_r, !Z.mul_1_l.
  split; destruct first; at_most; rewrite ?Z.sub_0_r; (apply atMost_bind; [apply Hex|intros; at_most; rewrite ?Z.sub_0_r; apply IH]).
Qed.

(** *** The fuel of the read loop *)

(** The error [e] is the result of an action. *)
Definition raised (e : error) (h : list event) : Prop :=
  Ev CtxErr (Some e) ∈ h \/ exists conn n, Ev (ReadFull conn n) (Err e) ∈ h.
(** An exchanger that does not run out of fuel. *)
Definition fueled (ex : Exchanger) : Prop := forall q h, runs (ex q) h (Err ErrFuel) -> raised ErrFuel h.

Lemma raised_app e h1 h2 : raised e h1 \/ raised e h2 -> raised e (h1 ++ h2).
Proof. intros [[H|(c & n & H)]|[H|(c & n & H)]]; [left|right; exists c, n|left|right; exists c, n]; rewrite elem_of_app; auto. Qed.
Lemma raised_cons e x h : raised e h -> raised e (x :: h).
Proof. intros. apply (raised_app _ [x]). by right. Qed.
Lemma raised_ctx e h : raised e (Ev CtxErr (Some e) :: h).
Proof. left. constructor. Qed.
Lemma raised_read e conn n h : raised e (Ev (ReadFull conn n) (Err e) :: h).
Proof. right. exists conn, n. constructor. Qed.
Create HintDb raised.
Hint Resolve raised_ctx raised_read raised_cons : raised.

Lemma read_loop_fueled fuel c conn q sent n1 n2 n3 n4 h :
  n1 < maxParseErr -> n2 < maxIDMismatch -> n3 < maxQuestionMismatch -> n4 < maxCaseMismatch ->
  301 - n1 - n2 - n3 - n4 <= Z.of_nat fuel ->
  runs (read_loop fuel c conn q sent n1 n2 n3 n4) h (Err ErrFuel) -> raised ErrFuel h.
Proof.
  unfold maxParseErr, maxIDMismatch, maxQuestionMismatch, maxCaseMismatch.
  revert n1 n2 n3 n4 h. induction fuel as [|fuel IH]; intros n1 n2 n3 n4 h ????? H; [lia|].
  cbn [read_loop] in H. runs_inv; repeat case_match; simplify_eq; eauto with raised; bool_facts;
    unfold maxParseErr, maxIDMismatch, maxQuestionMismatch, maxCaseMismatch in *;
    match goal with H : runs (read_loop _ _ _ _ _ _ _ _ _) _ _ |- _ => apply IH in H; [by apply raised_cons, raised_cons|lia..] end.
Qed.

Lemma udpSend_fueled c q msg sent h : runs (udpSend c q msg sent) h (Err ErrFuel) -> raised ErrFuel h.
Proof.
  unfold udpSend. intros H. runs_inv; simplify_eq. apply raised_cons, raised_cons.
  match goal with H : runs (read_loop _ _ _ _ _ _ _ _ _) _ _ |- _ => apply read_loop_fueled in H; [done|by vm_compute..] end.
Qed.

Lemma udp_fueled c : fueled (udpExchange c).
Proof.
  intros q h. unfold udpExchange. intros H. destruct (Pack q); [|by destruct H]. destruct (_ && _); [|by eapply udpSend_fueled].
  destruct (questionSectionBytes _); [|by destruct H]. cbn [bind act runs] in H. destruct H as (b & h' & -> & H).
  destruct b; [|by destruct H]. destruct (randomised _ _ _). apply raised_cons. by eapply udpSend_fueled.
Qed.

Lemma tcp_fueled c : fueled (tcpExchange c).
Proof.
  intros q h. unfold tcpExchange, ExchangeOnConn, WriteFrame, ReadFrame, frameOf. intros H. cbn [bind act runs] in H.
  destruct H as (d & h' & -> & H). destruct d; [|by destruct H]. apply raised_cons.
  destruct (Pack q); [|by runs_inv]. destruct (_ <? _); [by runs_inv|].
  runs_inv; repeat case_match; simplify_eq; cbn [app]; eauto 8 with raised.
Qed.

(** One attempt that fails, or is followed by [k]. *)
Lemma attempt_fueled (ex : Exchanger) (first : bool) q (k : res Message -> prog (res Message)) h :
  fueled ex ->
  runs (rid <- (if first then Ret (Ok None) else rid <- randomID ;; Ret (match rid with Ok v => Ok (Some v) | Err e => Err e end)) ;;
        match rid with
        | Err e => Ret (Err e)
        | Ok rid => resp <- ex (match rid with Some v => WithID q v | None => q end) ;; k resp
        end) h (Err ErrFuel) ->
  exists h1 h2 resp, h = h1 ++ h2 /\ runs (k resp) h2 (Err ErrFuel) /\ (resp = Err ErrFuel -> raised ErrFuel h1).
Proof.
  intros Hex (h1 & h2 & rid & -> & H1 & H)%runs_bind. destruct rid as [rid|e].
  - apply runs_bind in H as (h3 & h4 & resp & -> & H3 & H4). exists (h1 ++ h3), h4, resp. split_and!; [by rewrite app_assoc|done|].
    intros ->. apply raised_app. right. by eapply Hex.
  - destruct H as [-> [= <-]]. destruct first; [by destruct H1|]. unfold randomID in H1. runs_inv; repeat case_match; by simplify_eq.
Qed.

Lemma retry_fueled ex attempts : fueled ex -> fueled (retryExchange attempts ex).
Proof.
  intros Hex q h. unfold retryExchange. case_match; [by intros [_ ?]|].
  enough (forall n first e h, runs (retry_loop n ex q first e) h (Err ErrFuel) -> e = ErrFuel \/ raised ErrFuel h) as HE
    by (by intros [|]%HE).
  clear h H. intros n. induction n as [|n IH]; intros first e h H; [destruct H as [-> [= <-]]; by left|]. right.
  cbn [retry_loop] in H. apply attempt_fueled in H as (h1 & h2 & resp & -> & H & Hr); [|done].
  apply raised_app. destruct resp as [|e']; [by destruct H|]. runs_inv; simplify_eq; [right; apply raised_ctx|].
  match goal with H : runs (retry_loop _ _ _ _ _) _ _ |- _ => apply IH in H as [->|H] end; [left; by apply Hr|right; by apply raised_cons].
Qed.

Lemma failover_fueled exs : Forall fueled exs -> fueled (failover exs).
Proof.
  intros Hexs q h. unfold failover.
  enough (forall first le lr h, runs (failover_loop exs q first le lr) h (Err ErrFuel) -> le = Some ErrFuel \/ raised ErrFuel h) as HE
    by (by intros [|]%HE).
  clear h. induction Hexs as [|ex exs Hex Hexs IH]; intros first le lr h H; cbn [failover_loop] in H.
  { destruct H as [-> H]. left. destruct lr; [done|]. destruct le; by simplify_eq. }
  apply attempt_fueled in H as (h1 & h2 & resp & -> & H & Hr); [|done]. destruct resp as [m|e'].
  - destruct (isRetryableRCODE _); [|by destruct H]. apply IH in H as [?|?]; [by left|right; apply raised_app; by right].
  - right. apply raised_app. runs_inv; simplify_eq; [right; apply raised_ctx|].
    match goal with H : runs (failover_loop _ _ _ _ _) _ _ |- _ => apply IH in H as [[= ->]|H] end; [left; by apply Hr|right; by apply raised_cons].
Qed.

Lemma tcFallback_fueled p f : fueled p -> fueled f -> fueled (tcFallback p f).
Proof.
  intros Hp Hf q h. unfold tcFallback. intros (h1 & h2 & r & -> & H1 & H)%runs_bind. apply raised_app.
  destruct r as [m1|e]; [|destruct H as [-> [= <-]]; left; by eapply Hp]. right. destruct (negb _); [by destruct H|].
  apply runs_bind in H as (? & ? & rid & -> & _ & H). apply raised_app. right.
  apply runs_bind in H as (? & ? & r & -> & H2 & H). apply raised_app. left.
  destruct r as [m2|]; [destruct (Truncated _); by destruct H|]. destruct H as [-> [= <-]]. by eapply Hf.
Qed.

(** *** What the package builds *)

(** The exchanger of one server, and the fail-over between them. *)
Lemma buildFallover_ind (P : list AddrPort -> Exchanger -> Prop) servers attempts perAttempt use0x20 ednsUDP ex :
  (forall s uc tc, s ∈ servers -> uc_addr uc = s -> uc_use0x20 uc = use0x20 -> tc_addr tc = s ->
     let ex := tcFallback (udpExchange uc) (tcpExchange tc) in P [s] ex /\ P [s] (retryExchange (Z.max attempts 1) ex)) ->
  (forall exs, Forall2 (fun s ex => P [s] ex) servers exs -> P servers (failover exs)) ->
  buildFallover servers attempts perAttempt use0x20 ednsUDP = Ok ex -> P servers ex.
Proof.
  intros H1 H3. unfold buildFallover. generalize (Z.max ednsUDP 4096). intros bufSize.
  assert (forall ss exs, (forall s, s ∈ ss -> s ∈ servers) -> build_loop ss attempts perAttempt use0x20 bufSize = Ok exs -> Forall2 (fun s ex => P [s] ex) ss exs) as HB.
  { induction ss as [|s ss IH]; intros exs Hss HB; cbn [build_loop] in HB; [by simplify_eq; constructor|].
    unfold NewUDPClient, NewTCPClient in HB. destruct (negb (AddrPort_IsValid s)); [done|]. cbn [res_bind] in HB.
    destruct (build_loop _ _ _ _ _) as [exs'|] eqn:E; cbn [res_bind] in HB; [|done]. injection HB as <-.
    constructor; [|apply IH; [|done]; intros; apply Hss; by constructor].
    case_match; (apply H1; [apply Hss; by constructor|done..]). }
  destruct (build_loop servers _ _ _ _) as [exs|] eqn:E; cbn [res_bind]; [|done]. apply HB in E; [|done]. intros HX.
  destruct exs as [|ex1 [|ex2 exs]]; simplify_eq; try by apply H3.
  apply Forall2_cons_inv_r in E as (s & ? & ? & H & ->). by apply Forall2_nil_inv_r in H as ->.
Qed.

(** ** The theorems *)

(** C27. Whatever the network, the random source and the context do: a message
    that the exchanger of the stub resolver returns is not truncated, and was
    received from one of the configured servers on the connection opened for
    the query -- over UDP after a datagram that is the packed query up to the
    case of letters, over TCP as the frame that follows the query's --, carries
    the ID and the questions of the query as it was sent, which is the
    caller's query with the caller's ID or one drawn in the exchange, and, with
    case randomisation, echoes the question section octet for octet. *)
Theorem exchange_authentic servers attempts perAttempt use0x20 ednsUDP ex q h m :
  buildFallover servers attempts perAttempt use0x20 ednsUDP = Ok ex -> servers <> [] -> sendable q -> runs (ex q) h (Ok m) ->
  Truncated (flags m) = false /\ comesFrom use0x20 servers q h m.
Proof.
  intros HB Hne Hq H. enough (authentic use0x20 servers ex /\ complete ex) as [HA HC] by (split; [by eapply HC|by apply HA]).
  clear q h m Hq H. revert Hne. revert HB.
  apply (buildFallover_ind (fun ss ex => ss <> [] -> authentic use0x20 ss ex /\ complete ex)).
  - intros s uc tc _ <- <- E. cbv zeta.
    assert (authentic (uc_use0x20 uc) [uc_addr uc] (tcFallback (udpExchange uc) (tcpExchange tc))) as HA
      by (apply tcFallback_authentic; [apply udp_authentic|rewrite <- E; apply tcp_authentic]).
    split; intros _; split; auto using tcFallback_complete, retry_complete. apply retry_authentic; [done|lia].
  - intros exs HE Hne. assert (Forall (fun ex => authentic use0x20 servers ex /\ complete ex) exs) as [HA HC]%Forall_and.
    { apply Forall_forall. intros ex' (i & Hi)%list_elem_of_lookup. destruct (Forall2_lookup_r _ _ _ _ _ HE Hi) as (s & Hs & HP).
      destruct HP as [HA HC]; [done|]. split; [|done]. intros q h m Hq H. eapply (comesFrom_mono _ [s]); [|by apply HA].
      intros x ->%list_elem_of_singleton. by eapply list_elem_of_lookup_2. }
    split; [|by apply failover_complete]. intros q h m Hq H.
    eapply failover_loop_authentic in H as [?|[?|(-> & _)]]; try done. by apply Forall2_nil_inv_r in HE.
Qed.

(** C28. An exchange opens at most two connections and reads at most 301
    datagrams per attempt and server, whatever is sent to it: the budgets for
    datagrams that do not parse, have another ID, another question or another
    case add up, and none of them is refilled.  The model's fuel is never
    exhausted: its error is returned only if the context or a read returned it. *)
Theorem exchange_bounded servers attempts perAttempt use0x20 ednsUDP ex q h r :
  buildFallover servers attempts perAttempt use0x20 ednsUDP = Ok ex -> runs (ex q) h r ->
  Z.of_nat (count isRead h) <= zlen servers * (Z.max attempts 1 * 301) /\
  Z.of_nat (count isDial h) <= zlen servers * (Z.max attempts 1 * 2) /\
  (r = Err ErrFuel -> raised ErrFuel h).
Proof.
  intros HB. revert q h r. set (n := Z.max attempts 1).
  enough (costs ex (zlen servers * (n * 301)) (zlen servers * (n * 2)) /\ fueled ex) as [HC HF].
  { intros q h r H. destruct (HC q) as [H1 H2]. split_and!; [by eapply H1|by eapply H2|]. intros ->. by eapply HF. }
  revert HB. apply (buildFallover_ind (fun ss ex => costs ex (zlen ss * (n * 301)) (zlen ss * (n * 2)) /\ fueled ex)).
  - intros s uc tc _ _ _ _. cbv zeta. change (zlen [s]) with 1. rewrite !Z.mul_1_l.
    set (ex0 := tcFallback _ _). assert (fueled ex0) by (apply tcFallback_fueled; [apply udp_fueled|apply tcp_fueled]).
    assert (costs ex0 (301 + 0) (1 + 1)) as HC by (apply tcFallback_cost; [intros q; apply udp_cost|intros q; apply tcp_cost|done..]).
    split; split; try done; [|apply retry_cost; [done|lia..]|by apply retry_fueled].
    intros q. destruct (HC q). split; (eapply atMost_weaken; [done|lia]).
  - intros exs HE. assert (Forall (fun ex => costs ex (n * 301) (n * 2) /\ fueled ex) exs) as [HA HF]%Forall_and.
    { apply Forall_forall. intros ex' (i & Hi)%list_elem_of_lookup. destruct (Forall2_lookup_r _ _ _ _ _ HE Hi) as (s & _ & HC & HF).
      change (zlen [s]) with 1 in HC. by rewrite !Z.mul_1_l in HC. }
    apply Forall2_length in HE. replace (zlen servers) with (zlen exs) by (unfold zlen; lia).
    split; [apply failover_cost; [lia..|done]|by apply failover_fueled].
Qed.

(** ** Case randomisation *)

(** The reference: every small letter, in order, becomes a capital if the next
    bit is set; everything else stays. *)
Definition small (c : Z) : bool := (97 <=? c) && (c <=? 122).
Fixpoint mixCase (bs : list bool) (l : bytes) : bytes :=
  match l with
  | [] => []
  | c :: l =>
      if small c then match bs with
                      | [] => c :: l
                      | b :: bs => (if b then c - 32 else c) :: mixCase bs l
                      end
      else c :: mixCase bs l
  end.
(** The bits of a byte string, those of lower value first. *)
Definition byteBits (b : Z) : list bool := map (Z.testbit b) (seqZ 0 8).
Definition bitsOf (bits : bytes) : list bool := concat (map byteBits bits).
Definition letters (l : bytes) : nat := length (List.filter small l).

Lemma bit_test a k : 0 <= k -> negb (Z.land a (Z.shiftl 1 k) =? 0) = Z.testbit a k.
Proof.
  intros Hk. rewrite Z.shiftl_1_l. destruct (Z.testbit a k) eqn:E.
  - apply negb_true_iff, Z.eqb_neq. intros H. assert (Z.testbit (Z.land a (2 ^ k)) k = false) as H' by by rewrite H, Z.bits_0.
    rewrite Z.land_spec, Z.pow2_bits_true, E in H' by done. done.
  - apply negb_false_iff, Z.eqb_eq. apply Z.bits_inj'. intros n Hn. rewrite Z.land_spec, Z.bits_0.
    destruct (decide (n = k)) as [->|]; [by rewrite E|]. by rewrite Z.pow2_bits_false, andb_false_r by done.
Qed.

Lemma byteBits_lookup b (k : nat) : (k < 8)%nat -> byteBits b !! k = Some (Z.testbit b (Z.of_nat k)).
Proof. intros Hk. do 8 (destruct k as [|k]; [done|]). lia. Qed.

Lemma bitsOf_length bits : Z.of_nat (length (bitsOf bits)) = 8 * zlen bits.
Proof. induction bits as [|b bits IH]; [done|]. unfold bitsOf in *. cbn [map concat]. rewrite length_app, zlen_cons. change (length (byteBits b)) with 8%nat. lia. Qed.

Lemma bitsOf_lookup bits (k : Z) : 0 <= k < 8 * zlen bits ->
  bitsOf bits !! Z.to_nat k = Some (Z.testbit (zget bits (k / 8)) (k mod 8)).
Proof.
  revert k. induction bits as [|b bits IH]; intros k Hk; [llia|]. rewrite zlen_cons in Hk.
  unfold bitsOf. cbn [map concat]. fold (bitsOf bits). destruct (decide (k < 8)).
  - rewrite lookup_app_l by (change (length (byteBits b)) with 8%nat; lia). rewrite byteBits_lookup, Z2Nat.id by lia.
    by rewrite Z.div_small, Z.mod_small by lia.
  - rewrite lookup_app_r by (change (length (byteBits b)) with 8%nat; lia). change (length (byteBits b)) with 8%nat.
    replace (Z.to_nat k - 8)%nat with (Z.to_nat (k - 8)) by lia. rewrite IH by lia.
    replace (k mod 8) with ((k - 8) mod 8) by elia. f_equal. f_equal. unfold zget.
    replace (Z.to_nat (k / 8)) with (S (Z.to_nat ((k - 8) / 8))) by elia. done.
Qed.

Lemma mixCase_app bs l1 l2 : (letters l1 <= length bs)%nat -> mixCase bs (l1 ++ l2) = mixCase bs l1 ++ mixCase (drop (letters l1) bs) l2.
Proof.
  revert bs. induction l1 as [|c l1 IH]; intros bs H; [by rewrite drop_0|]. unfold letters in *. cbn [app mixCase List.filter] in *.
  destruct (small c); cbn [length] in *; [|by rewrite IH]. destruct bs as [|b bs]; cbn [length] in H; [lia|].
  cbn [drop app]. by rewrite IH by lia.
Qed.
Lemma mixCase_short bs l1 l2 : (length bs < letters l1)%nat -> mixCase bs (l1 ++ l2) = mixCase bs l1 ++ l2.
Proof.
  revert bs. induction l1 as [|c l1 IH]; intros bs H; [cbn in H; lia|]. unfold letters in *. cbn [app mixCase List.filter] in *.
  destruct (small c); cbn [length] in *; [|by rewrite IH]. destruct bs as [|b bs]; cbn [length] in H; [done|].
  cbn [app]. by rewrite IH by lia.
Qed.

(** What the loop over a label does to it. *)
Lemma label_loop_mixes bits l pre post k : 0 <= k <= 8 * zlen bits ->
  label_loop (length l) (pre ++ l ++ post) bits (zlen pre) k =
    (pre ++ mixCase (drop (Z.to_nat k) (bitsOf bits)) l ++ post,
     Z.min (k + Z.of_nat (letters l)) (8 * zlen bits), bool_decide (8 * zlen bits < k + Z.of_nat (letters l))).
Proof.
  revert pre k. induction l as [|c l IH]; intros pre k Hk; cbn [length label_loop app mixCase].
  { rewrite bool_decide_eq_false_2 by (cbn; lia). cbn. f_equal. f_equal. lia. }
  assert (zget (pre ++ c :: l ++ post) (zlen pre) = c) as Hc.
  { unfold zget, zlen. rewrite Nat2Z.id, lookup_app_r, Nat.sub_diag by lia. done. }
  rewrite Hc. replace ((c <? 97) || (122 <? c)) with (negb (small c))
    by (unfold small; rewrite negb_andb, <- !Z.ltb_antisym; done).
  assert (forall d, pre ++ d :: l ++ post = (pre ++ [d]) ++ l ++ post) as Hs by (intros; by rewrite <- app_assoc).
  assert (forall d : Z, zlen pre + 1 = zlen (pre ++ [d])) as Hz by (intros; llia).
  unfold letters in *. cbn [List.filter]. destruct (small c); cbn [negb length].
  - destruct (_ <=? _) eqn:E; bool_facts.
    + assert (k = 8 * zlen bits) as -> by elia. rewrite drop_ge by (pose proof (bitsOf_length bits); lia).
      rewrite bool_decide_eq_true_2 by lia. f_equal. f_equal. lia.
    + assert (k < 8 * zlen bits) by elia. rewrite (drop_S _ _ _ (bitsOf_lookup bits k ltac:(lia))).
      rewrite bit_test by elia. set (b := Z.testbit _ _).
      replace (if b then <[Z.to_nat (zlen pre) := c - 32]> (pre ++ c :: l ++ post) else pre ++ c :: l ++ post)
        with (pre ++ (if b then c - 32 else c) :: l ++ post)
        by (destruct b; [|done]; unfold zlen; rewrite Nat2Z.id, insert_app_r_alt, Nat.sub_diag by lia; done).
      rewrite Hs, (Hz (if b then c - 32 else c)), IH by lia. rewrite <- app_assoc. cbn [app].
      replace (Z.to_nat (k + 1)) with (S (Z.to_nat k)) by lia. f_equal; [f_equal; lia|]. apply bool_decide_ext. lia.
  - rewrite Hs, (Hz c), IH by lia. by rewrite <- app_assoc.
Qed.

Lemma letters_app l1 l2 : letters (l1 ++ l2) = (letters l1 + letters l2)%nat.
Proof. unfold letters. by rewrite List.filter_app, length_app. Qed.
Lemma small_length l : label_ok l -> small (zlen l) = false.
Proof. intros [? _]. unfold small. apply andb_false_iff. left. apply Z.leb_gt. lia. Qed.
Lemma letters_encLabel l : label_ok l -> letters (encLabel l) = letters l.
Proof. intros H. unfold letters, encLabel. cbn [List.filter]. by rewrite small_length. Qed.
Lemma mixCase_encLabel bs l : label_ok l -> mixCase bs (encLabel l) = zlen l :: mixCase bs l.
Proof. intros H. unfold encLabel. cbn [mixCase]. by rewrite small_length. Qed.

Lemma case_loop_mixes fuel bits ls pre post k : Forall label_ok ls -> 0 <= k <= 8 * zlen bits -> (length ls < fuel)%nat ->
  case_loop fuel (pre ++ encName ls ++ post) bits (zlen pre) k = pre ++ mixCase (drop (Z.to_nat k) (bitsOf bits)) (encName ls) ++ post.
Proof.
  intros Hok. revert fuel pre k. induction Hok as [|l ls Hl Hok IH]; intros fuel pre k Hk Hf; destruct fuel as [|fuel]; [cbn in Hf; lia| |cbn in Hf; lia|].
  - cbn [case_loop]. if_false. by rewrite (at_bytes_get _ _ 0 []) by (apply (at_bytes_mid pre [0])).
  - rewrite encName_cons. cbn [case_loop]. pose proof Hl as [Hn Hb]. if_false.
    rewrite (at_bytes_get _ _ (zlen l) l) by (rewrite <- app_assoc; apply (at_bytes_mid pre (encLabel l))).
    if_false. replace (Z.land (zlen l) 192) with 0 by (symmetry; apply land_c0_label; llia). cbn [negb Z.eqb]. if_false.
    replace (pre ++ (encLabel l ++ encName ls) ++ post) with ((pre ++ [zlen l]) ++ l ++ encName ls ++ post)
      by (rewrite <- !app_assoc; done).
    replace (zlen pre + 1) with (zlen (pre ++ [zlen l])) by llia. replace (Z.to_nat (zlen l)) with (length l) by (unfold zlen; lia).
    rewrite label_loop_mixes by done.
    assert (Z.of_nat (length (drop (Z.to_nat k) (bitsOf bits))) = 8 * zlen bits - k) as HL
      by (rewrite length_drop; pose proof (bitsOf_length bits); lia).
    case_bool_decide as Hs.
    + rewrite mixCase_short, mixCase_encLabel by (rewrite ?letters_encLabel by done; first [done|lia]). by rewrite <- !app_assoc.
    + rewrite mixCase_app, mixCase_encLabel by (rewrite ?letters_encLabel by done; first [done|lia]).
      assert (forall bs l, length (mixCase bs l) = length l) as HM.
      { clear. intros bs l. revert bs. induction l as [|c l IH]; intros bs; cbn; [done|]. repeat case_match; cbn; by rewrite ?IH. }
      set (ml := mixCase (drop (Z.to_nat k) (bitsOf bits)) l).
      assert (zlen ml = zlen l) as Hml by (unfold zlen, ml; by rewrite HM).
      replace ((pre ++ [zlen l]) ++ ml ++ encName ls ++ post) with ((pre ++ zlen l :: ml) ++ encName ls ++ post) by (by rewrite <- !app_assoc).
      replace (zlen (pre ++ [zlen l]) + zlen l) with (zlen (pre ++ zlen l :: ml)) by llia.
      rewrite IH by (cbn in Hf; lia). rewrite letters_encLabel, drop_drop by done. rewrite <- !app_assoc. cbn [app].
      do 4 f_equal. f_equal. f_equal. lia.
Qed.

Lemma length_encName ls : (length ls < length (encName ls))%nat.
Proof. induction ls as [|l ls IH]; [cbn; lia|]. rewrite encName_cons, length_app. cbn [length encLabel]. lia. Qed.

Lemma randomizeQNameCase_mixes bits ls : Forall label_ok ls -> randomizeQNameCase (encName ls) bits = mixCase (bitsOf bits) (encName ls).
Proof.
  intros H. unfold randomizeQNameCase. pose proof (case_loop_mixes (S (length (encName ls))) bits ls [] [] 0 H) as E.
  cbn [app] in E. rewrite !app_nil_r, drop_0 in E. apply E; [llia|]. pose proof (length_encName ls). lia.
Qed.

Lemma mixCase_inj bs bs' l : (letters l <= length bs)%nat -> (letters l <= length bs')%nat ->
  mixCase bs l = mixCase bs' l -> take (letters l) bs = take (letters l) bs'.
Proof.
  revert bs bs'. unfold letters. induction l as [|c l IH]; intros bs bs' H H' E; [by rewrite !take_0|]. cbn [mixCase List.filter] in *.
  destruct (small c); cbn [length] in *; [|injection E; by apply IH].
  destruct bs as [|b bs], bs' as [|b' bs']; cbn [length] in *; try lia. injection E as E1 E2. cbn [take].
  f_equal; [destruct b, b'; try done; lia|]. apply IH; [lia..|done].
Qed.

(** A name that differs in the case of letters. *)
Lemma recased_encName ls x : Forall label_ok ls -> Forall2 recased (encName ls) x ->
  exists ls', x = encName ls' /\ Forall label_ok ls' /\ foldLabels ls' = foldLabels ls.
Proof.
  intros Hok. revert x. induction Hok as [|l ls Hl Hok IH]; intros x Hx.
  - exists []. split_and!; [|constructor|done]. inversion Hx as [|? ? ? ? H0 H1]; subst. apply Forall2_nil_inv_l in H1 as ->.
    destruct H0 as [->|?]; [done|lia].
  - rewrite encName_cons in Hx. apply Forall2_app_inv_l in Hx as (x1 & x2 & H1 & H2 & ->).
    apply IH in H2 as (ls' & -> & ? & HF). inversion H1 as [|? ? ? l' H0 H3]; subst. destruct Hl as [Hz Hb].
    assert (zlen l' = zlen l) as Hlen by (unfold zlen; f_equal; symmetry; by eapply Forall2_length).
    destruct H0 as [->|?]; [|lia]. exists (l' :: ls').
    split; [by rewrite encName_cons; unfold encLabel; rewrite Hlen|]. split.
    + constructor; [|done]. split; [lia|]. clear -H3 Hb. induction H3 as [|a b ? ? Hab _ IH]; [constructor|].
      inversion Hb; subst. constructor; [unfold recased, u8 in *; lia|by apply IH].
    + change (map foldByte l' :: foldLabels ls' = map foldByte l :: foldLabels ls). f_equal; [|done]. clear -H3.
      induction H3 as [|a b ? ? Hab _ IH]; [done|]. cbn. f_equal; [|done]. destruct Hab as [->|[? ->]]; [done|].
      unfold foldByte. repeat case_match; bool_facts; lia.
Qed.

(** The walk over a question's name ends exactly after an uncompressed name. *)
Lemma question_loop_sound fuel msg off r : is_bytes msg -> 0 <= off -> r <= zlen msg -> question_loop fuel msg off = Ok r ->
  exists ls, at_bytes msg off (encName ls) /\ Forall label_ok ls /\ r = off + zlen (encName ls).
Proof.
  intros Hb. revert off. induction fuel as [|fuel IH]; intros off Ho Hr; cbn [question_loop]; [done|].
  destruct (_ <=? _) eqn:E1; [done|]. bool_facts. pose proof (at_bytes_of_get msg off ltac:(lia)) as Hg.
  pose proof (zget_u8 msg off Hb ltac:(lia)) as Hu.
  destruct (_ =? 0) eqn:E2; bool_facts; [intros [= <-]; rewrite E2 in Hg; exists []; split_and!; [done|constructor|done]|].
  destruct (negb _) eqn:E3; [done|]. apply negb_false_iff, Z.eqb_eq, land_c0_label in E3; [|done]. intros HQ.
  pose proof HQ as HQ'. apply question_loop_bound in HQ'; [|unfold u8 in Hu; lia|done].
  apply IH in HQ as (ls & Ha & Hok & ->); [|unfold u8 in Hu; lia|done].
  destruct (at_bytes_of_slice msg (off + 1) (zget msg off)) as [Hs Hz]; [unfold u8 in Hu; lia..|].
  set (l := zslice msg (off + 1) (off + 1 + zget msg off)) in *. exists (l :: ls). rewrite encName_cons. unfold encLabel. rewrite Hz.
  split_and!.
  - apply at_bytes_app. split; [by apply at_bytes_cons|]. by replace (off + zlen (zget msg off :: l)) with (off + 1 + zget msg off) by llia.
  - constructor; [|done]. split; [unfold u8 in Hu; lia|]. by eapply at_bytes_Forall.
  - llia.
Qed.

Lemma question_loop_complete fuel msg off ls : at_bytes msg off (encName ls) -> Forall label_ok ls -> (length ls < fuel)%nat ->
  question_loop fuel msg off = Ok (off + zlen (encName ls)).
Proof.
  intros Ha Hok. revert fuel off Ha. induction Hok as [|l ls Hl Hok IH]; intros fuel off Ha Hf; destruct fuel as [|fuel]; [cbn in Hf; lia| |cbn in Hf; lia|];
    cbn [question_loop].
  - pose proof (at_bytes_len _ _ _ _ Ha). pose proof (proj1 Ha). if_false. by rewrite (at_bytes_get _ _ _ _ Ha).
  - rewrite encName_cons in *. apply at_bytes_app in Ha as [Ha Hr]. pose proof (at_bytes_len _ _ _ _ Ha). pose proof Hl as [??]. if_false.
    rewrite (at_bytes_get _ _ _ _ Ha). if_false.
    replace (Z.land (zlen l) 192) with 0 by (symmetry; apply land_c0_label; llia). cbn [negb Z.eqb].
    replace (off + zlen (encLabel l)) with (off + 1 + zlen l) in Hr by llia. rewrite IH; [f_equal; llia|done|cbn in Hf; lia].
Qed.

Lemma questionSectionBytes_name msg qs : is_bytes msg -> questionSectionBytes msg = Ok qs ->
  exists ls, zslice msg 12 (12 + zlen qs - 4) = encName ls /\ Forall label_ok ls /\ zlen qs = zlen (encName ls) + 4.
Proof.
  intros Hb HQ. destruct (questionSectionBytes_len _ _ Hb HQ) as (H5 & Hz & _). revert HQ. unfold questionSectionBytes.
  destruct (_ <? 12); [done|]. destruct (question_loop _ _ _) as [off|] eqn:E; cbn [res_bind]; [|done].
  destruct (_ <? _) eqn:EL; [done|]. bool_facts. intros [= <-].
  apply question_loop_sound in E as (ls & Ha & Hok & ->); [|done|lia..]. exists ls.
  rewrite length_zslice in * by llia. split_and!; [|done|lia].
  replace (12 + (12 + zlen (encName ls) + 4 - 12) - 4) with (12 + zlen (encName ls)) by lia. by apply at_bytes_slice.
Qed.

Lemma zslice_app_r {A} (l1 l2 : list A) a b : a = zlen l1 -> zslice (l1 ++ l2) a b = take (Z.to_nat (b - a)) l2.
Proof. intros ->. unfold zslice, zlen. by rewrite Nat2Z.id, drop_app_length. Qed.

Lemma mixCase_recased bs l : Forall2 recased l (mixCase bs l).
Proof.
  revert bs. induction l as [|c l IH]; intros bs; cbn [mixCase]; [constructor|]. destruct (small c) eqn:E; [|constructor; [by left|done]].
  destruct bs as [|b bs]; [apply recased_refl|]. constructor; [|done]. unfold small in E. apply andb_true_iff in E as [??].
  destruct b; [right; lia|by left].
Qed.

Lemma mixCase_bytes bs l : is_bytes l -> is_bytes (mixCase bs l).
Proof.
  intros H. pose proof (mixCase_recased bs l) as HR. induction HR as [|a b ? ? Hab _ IH]; [constructor|]. inversion H; subst.
  constructor; [unfold recased, u8 in *; lia|by apply IH].
Qed.

(** An uncompressed name is read in one way only. *)
Lemma name_at_inline_det msg off ls ls' h nx : at_bytes msg off (encName ls) -> Forall label_ok ls -> name_at msg off ls' h nx ->
  ls' = ls /\ nx = off + zlen (encName ls).
Proof.
  intros Ha Hok. revert off Ha ls' h nx. induction Hok as [|l ls [Hl _] Hok IH]; intros off Ha ls' h nx Hn.
  - destruct Hn as [off Hb|off l' ls' h nx Hb Hl' _|off hi lo ls' h nx Hb Hhi _ _ _]; [done|..];
      apply at_bytes_get in Hb; rewrite (at_bytes_get _ _ _ _ Ha) in Hb; lia.
  - rewrite encName_cons in *. apply at_bytes_app in Ha as [Ha Hr]. replace (off + zlen (encLabel l)) with (off + 1 + zlen l) in Hr by llia.
    destruct Hn as [off Hb|off l' ls' h nx Hb Hl' Hn'|off hi lo ls' h nx Hb Hhi _ _ _];
      pose proof (at_bytes_get _ _ _ _ Hb) as Hg; rewrite (at_bytes_get _ _ _ _ Ha) in Hg; [lia| |lia].
    rewrite <- Hg in Hn'. destruct (IH _ Hr _ _ _ Hn') as [-> ->]. split; [|llia]. f_equal.
    assert (encLabel l' = encLabel l) as [= _ ->] by (eapply at_bytes_det; [done..|unfold encLabel; llia]). done.
Qed.

(** The bytes of the question section of [msg] that hold its name. *)
Definition nameOf (msg qs : bytes) : bytes := zslice msg 12 (12 + zlen qs - 4).

Section Randomised.
Context (msg qs : bytes) (Hb : is_bytes msg) (HQ : questionSectionBytes msg = Ok qs).

Lemma nameOf_len : zlen (nameOf msg qs) = zlen qs - 4.
Proof. destruct (questionSectionBytes_len _ _ Hb HQ) as (? & ? & _). unfold nameOf. rewrite length_zslice; lia. Qed.
Lemma mixCase_len bs l : zlen (mixCase bs l) = zlen l.
Proof. unfold zlen. f_equal. symmetry. eapply Forall2_length, mixCase_recased. Qed.
Lemma letters_le l : (letters l <= length l)%nat.
Proof. unfold letters. apply List.filter_length_le. Qed.

Lemma randomised_mixes bits : randomised msg qs bits =
  let msg' := zslice msg 0 12 ++ mixCase (bitsOf bits) (nameOf msg qs) ++ zslice msg (12 + zlen qs - 4) (zlen msg) in
  (msg', zslice msg' 12 (12 + zlen qs)).
Proof.
  destruct (questionSectionBytes_name _ _ Hb HQ) as (ls & EN & Hok & _). unfold randomised. fold (nameOf msg qs) in *.
  by rewrite EN, randomizeQNameCase_mixes.
Qed.

(** The bits drawn are enough. *)
Lemma drawn_enough bits : zlen bits = (zlen qs - 4 + 7) / 8 -> (letters (nameOf msg qs) <= length (bitsOf bits))%nat.
Proof.
  intros. pose proof (bitsOf_length bits). pose proof (letters_le (nameOf msg qs)). pose proof nameOf_len. unfold zlen in *. elia.
Qed.

Lemma randomised_inj bits bits' : zlen bits = (zlen qs - 4 + 7) / 8 -> zlen bits' = zlen bits ->
  (randomised msg qs bits).2 = (randomised msg qs bits').2 ->
  take (letters (nameOf msg qs)) (bitsOf bits) = take (letters (nameOf msg qs)) (bitsOf bits').
Proof.
  intros Hn Hn'. destruct (questionSectionBytes_len _ _ Hb HQ) as (? & ? & _).
  assert (zlen (zslice msg 0 12) = 12) as Hhd by (rewrite length_zslice; lia).
  rewrite !randomised_mixes. cbv zeta. cbn [snd]. rewrite !zslice_app_r by done.
  intros E%(f_equal (take (length (nameOf msg qs)))). rewrite !take_take in E. pose proof nameOf_len as HL.
  rewrite Nat.min_l in E by (unfold zlen in *; lia).
  rewrite !take_app_length' in E by (pose proof mixCase_len as HM; unfold zlen in HM; apply Nat2Z.inj; by rewrite HM).
  apply mixCase_inj in E; [done|apply drawn_enough; lia..].
Qed.

(** The question as sent is the question section of the message sent, and has
    the same name. *)
Lemma randomised_question bits : let '(msg', sent) := randomised msg qs bits in
  questionSectionBytes msg' = Ok sent /\ forall r, DecodeWire msg 12 = Ok r -> DecodeWire msg' 12 = Ok r.
Proof.
  destruct (questionSectionBytes_len _ _ Hb HQ) as (H5 & Hz & _). destruct (questionSectionBytes_name _ _ Hb HQ) as (ls & EN & Hok & Hlen).
  fold (nameOf msg qs) in EN. rewrite randomised_mixes. cbv zeta. set (tl := zslice msg _ (zlen msg)).
  assert (zlen (zslice msg 0 12) = 12) as Hhd by (rewrite length_zslice; lia).
  destruct (recased_encName ls (mixCase (bitsOf bits) (nameOf msg qs))) as (ls' & EM & Hok' & HF); [done|rewrite <- EN; apply mixCase_recased|].
  assert (4 <= zlen tl) as Htl by (unfold tl; rewrite length_zslice; lia).
  set (msg' := zslice msg 0 12 ++ _). assert (at_bytes msg' 12 (encName ls')) as Ha
    by (unfold msg'; rewrite <- Hhd at 2; rewrite EM; apply at_bytes_mid).
  assert (zlen (encName ls') = zlen qs - 4) as Hls' by (rewrite <- EM, mixCase_len, EN; lia).
  split.
  - unfold questionSectionBytes. assert (zlen msg' = 12 + (zlen (encName ls') + zlen tl)) as Hm' by (unfold msg'; rewrite EM; llia).
    if_false. rewrite (question_loop_complete _ _ _ ls'); [|done|done|].
    + cbn [res_bind]. if_false. do 2 f_equal. lia.
    + pose proof (length_encName ls'). unfold zlen in *. lia.
  - intros [n nx] (l0 & h & Hn0 & _ & H255 & ->)%DecodeWire_spec; [|done]. apply DecodeWire_spec.
    { repeat (apply Forall_app; split); try by apply is_bytes_zslice. apply mixCase_bytes. by apply is_bytes_zslice. }
    assert (at_bytes msg 12 (encName ls)) as Hm.
    { rewrite <- EN. unfold nameOf. replace (12 + zlen qs - 4) with (12 + (zlen qs - 4)) by lia. apply at_bytes_of_slice; lia. }
    destruct (name_at_inline_det _ _ _ _ _ _ Hm Hok Hn0) as [-> ->]. exists ls', 0.
    replace (zlen (encName ls)) with (zlen (encName ls')) in * by lia. split_and!; [by apply name_at_inline|done|lia|by rewrite HF].
Qed.
End Randomised.

(** C29. The name in a query is sent with its small letters in a random case and
    nothing else changed: the k-th letter is a capital exactly if the k-th
    random bit is set.  The message still carries a question of the same
    length that decodes to the same name, and it is the one replies are
    compared with; the random bytes drawn are enough for every letter; and a
    datagram is accepted for one pattern of the letters' bits only, so that one
    made without knowing them is accepted with probability 2^-letters. *)
Theorem case_randomisation msg qs bits :
  is_bytes msg -> questionSectionBytes msg = Ok qs -> zlen bits = (zlen qs - 4 + 7) / 8 ->
  let '(msg', sent) := randomised msg qs bits in
  msg' = zslice msg 0 12 ++ mixCase (bitsOf bits) (nameOf msg qs) ++ zslice msg (12 + zlen qs - 4) (zlen msg) /\
  questionSectionBytes msg' = Ok sent /\
  (forall r, DecodeWire msg 12 = Ok r -> DecodeWire msg' 12 = Ok r) /\
  (letters (nameOf msg qs) <= length (bitsOf bits))%nat /\
  forall bits' q q' buf m m', zlen bits' = zlen bits ->
    judge q (Some sent) buf = VAccept m -> judge q' (Some (randomised msg qs bits').2) buf = VAccept m' ->
    take (letters (nameOf msg qs)) (bitsOf bits) = take (letters (nameOf msg qs)) (bitsOf bits').
Proof.
  intros Hb HQ Hn. pose proof (randomised_question msg qs Hb HQ bits) as HR. pose proof (randomised_inj msg qs Hb HQ bits) as HI.
  rewrite randomised_mixes in HR, HI |- * by done. cbv zeta in *. destruct HR as [HR1 HR2].
  split_and!; [done..|by apply drawn_enough|]. intros bits' q q' buf m m' Hb' (_ & _ & _ & H1)%judge_accept (_ & _ & _ & H2)%judge_accept.
  specialize (H1 _ eq_refl). specialize (H2 _ eq_refl). rewrite H1 in H2. apply HI; [done..|]. by injection H2.
Qed.

(** ** Frames on a stream *)

(** [io.ReadFull] of [n] octets from a stream that holds [input] and ends. *)
Definition readFull (n : Z) (input : bytes) : res bytes * bytes :=
  if n <=? zlen input then (Ok (take (Z.to_nat n) input), drop (Z.to_nat n) input)
  else if zlen input =? 0 then (Err EOF, []) else (Err ErrUnexpectedEOF, []).

(** The reads in [h] are reads from a stream that holds [input], the context is
    not cancelled, and [rest] is left. *)
Fixpoint delivers (h : list event) (input rest : bytes) : Prop :=
  match h with
  | [] => rest = input
  | @Ev X a x :: h =>
      match a in action X return X -> Prop with
      | ReadFull _ n => fun x => x = (readFull n input).1 /\ delivers h (readFull n input).2 rest
      | CtxErr => fun x => x = None /\ delivers h input rest
      | _ => fun _ => delivers h input rest
      end x
  end.
(** What was written. *)
Fixpoint written (h : list event) : bytes :=
  match h with
  | [] => []
  | @Ev X a x :: h => match a with Write _ b => b | _ => [] end ++ written h
  end.

(** A peer that writes messages, and one that reads until an error. *)
Fixpoint writeAll (conn : nat) (ms : list Message) : prog (option error) :=
  match ms with
  | [] => Ret None
  | m :: ms => w <- WriteFrame conn m ;; match w with Some e => Ret (Some e) | None => writeAll conn ms end
  end.
Fixpoint drain (n : nat) (s : nat * Z) : prog (list Message * option error) :=
  match n with
  | O => Ret ([], None)
  | S n => r <- Next s ;;
           match r with Ok m => x <- drain n s ;; Ret (m :: x.1, x.2) | Err e => Ret ([], Some e) end
  end.

Definition frame (m : Message) : bytes := match frameOf m with Ok (hdr, body) => hdr ++ body | Err _ => [] end.
Definition framesOf (ms : list Message) : bytes := concat (map frame ms).

Lemma delivers_app h1 h2 input rest : delivers (h1 ++ h2) input rest <-> exists mid, delivers h1 input mid /\ delivers h2 mid rest.
Proof.
  revert input. induction h1 as [|[X a x] h1 IH]; intros input; cbn [app delivers].
  { split; [intros H; by exists input|]. by intros (? & -> & ?). }
  destruct a; rewrite ?IH; naive_solver.
Qed.
Lemma written_app h1 h2 : written (h1 ++ h2) = written h1 ++ written h2.
Proof. induction h1 as [|[X a x] h1 IH]; cbn [app written]; [done|]. by rewrite IH, app_assoc. Qed.

Lemma writeAll_writes conn ms h : runs (writeAll conn ms) h None ->
  written h = framesOf ms /\ Forall (fun m => exists body, Pack m = Ok body /\ zlen body <= 0xffff /\ frame m = be16 (zlen body) ++ body) ms.
Proof.
  revert h. induction ms as [|m ms IH]; intros h H; [destruct H as [-> _]; by split; [|constructor]|]. cbn [writeAll] in H.
  apply runs_bind in H as (h1 & h2 & w & -> & H1 & H2). destruct w; [by destruct H2|]. apply IH in H2 as [H2 HF].
  unfold WriteFrame, frame, frameOf in *. unfold framesOf. cbn [map concat]. rewrite written_app, H2. unfold frame, frameOf.
  destruct (Pack m) as [body|] eqn:EP; [|by destruct H1]. destruct (_ <? _) eqn:EL; [by destruct H1|]. bool_facts.
  rewrite to_u16_id in * by (unfold u16; llia).
  runs_inv. split; [cbn [written]; by rewrite <- !app_assoc|]. constructor; [|done].
  exists body. rewrite EP. assert (0xffff <? zlen body = false) as -> by (apply Z.ltb_ge; lia). by rewrite to_u16_id by (unfold u16; llia).
Qed.

Lemma frame_length_be16 v : u16 v -> u16at (be16 v) 0 = v.
Proof. intros. unfold u16at. cbn. by apply get16_be16. Qed.

Lemma readFull_app n l r : zlen l = n -> readFull n (l ++ r) = (Ok l, r).
Proof.
  intros <-. unfold readFull. rewrite zlen_app. if_true. unfold zlen. by rewrite Nat2Z.id, take_app_length, drop_app_length.
Qed.

(** A complete frame at the head of the stream is the next message. *)
Lemma Next_frame conn id_ m body rest h r left_ :
  message_ok m -> Message.id m = id_ -> Pack m = Ok body -> zlen body <= 0xffff ->
  runs (Next (conn, id_)) h r -> delivers h ((be16 (zlen body) ++ body) ++ rest) left_ -> r = Ok (echoMessage m) /\ left_ = rest.
Proof.
  intros Hm Hi HP Hl. unfold Next, ReadFrame. cbn [fst snd]. intros H HD. cbn [bind act runs] in H. destruct H as (x & h' & -> & H).
  cbn [delivers] in HD. rewrite <- app_assoc, readFull_app in HD by done. cbn [fst snd] in HD. destruct HD as [-> HD].
  cbn [bind act runs] in H. destruct H as (x & h2 & -> & H). cbn [delivers] in HD.
  rewrite frame_length_be16, readFull_app in HD by (unfold u16; llia). cbn [fst snd] in HD. destruct HD as [-> HD].
  cbn [bind] in H. rewrite (Unpack_Pack _ _ Hm HP) in H. cbn [echoMessage Message.id] in H. rewrite Hi, Z.eqb_refl in H.
  destruct H as [-> ->]. by cbn in HD.
Qed.

(** An incomplete frame is an error: io.EOF if nothing is there. *)
Lemma Next_cut conn id_ body input cut h r left_ :
  zlen body <= 0xffff -> be16 (zlen body) ++ body = input ++ cut -> cut <> [] ->
  runs (Next (conn, id_)) h r -> delivers h input left_ ->
  exists e, r = Err e /\ if decide (input = []) then e = EOF else e = ErrUnexpectedEOF \/ e = ErrWrapped ErrUnexpectedEOF.
Proof.
  intros Hl E Hc. unfold Next, ReadFrame. cbn [fst snd]. intros H HD. cbn [bind act runs] in H. destruct H as (x & h' & -> & H).
  cbn [delivers] in HD. destruct HD as [-> HD]. destruct (decide (zlen input < 2)) as [Hs|Hs].
  { assert ((readFull 2 input).1 = Err (if decide (input = []) then EOF else ErrUnexpectedEOF)) as EE.
    { unfold readFull. if_false. destruct input as [|a input]; [done|]. rewrite decide_False by done. if_false. done. }
    rewrite EE in H. cbn [bind runs] in H. destruct H as (c & h2 & -> & H). cbn [delivers] in HD. destruct HD as [-> HD].
    destruct H as [-> ->]. eexists. split; [done|]. destruct (decide _); [done|by left]. }
  assert (input = be16 (zlen body) ++ drop 2 input /\ body = drop 2 input ++ cut) as [EI EB].
  { destruct input as [|a [|b input]]; [llia|llia|]. cbn in E. injection E as <- <- E. by split. }
  rewrite EI, readFull_app in HD, H by done. cbn [fst snd] in HD, H. cbn [bind act runs] in H. destruct H as (x & h2 & -> & H).
  cbn [delivers] in HD. rewrite frame_length_be16 in HD by (unfold u16; llia). destruct HD as [-> HD].
  assert (zlen (drop 2 input) < zlen body) as Hlt. { rewrite EB, zlen_app. destruct cut; [done|]. llia. }
  unfold readFull in H, HD. replace (zlen body <=? zlen (drop 2 input)) with false in H, HD by (symmetry; apply Z.leb_gt; lia).
  assert (input <> []) by (intros ->; llia).
  destruct (zlen (drop 2 input) =? 0); cbn [fst snd bind] in H, HD; [rewrite bool_decide_eq_true_2 in H by done|rewrite bool_decide_eq_false_2 in H by done];
    cbn [bind act runs] in H; destruct H as (c & h3 & -> & -> & ->); destruct HD as [-> _]; eexists; (split; [done|]);
    rewrite decide_False by done; auto.
Qed.

Lemma app_prefix {A} (a b c d : list A) : a ++ b = c ++ d ->
  (exists x, c = a ++ x /\ b = x ++ d) \/ (exists x, a = c ++ x /\ x <> [] /\ d = x ++ b).
Proof.
  intros [(x & -> & ->)|(x & -> & ->)]%app_eq_inv; [|left; by exists x].
  destruct x as [|y x]; [left; exists []; by rewrite !app_nil_r|right; by exists (y :: x)].
Qed.

(** C30. Frames on a stream: what one side writes as a sequence of messages the
    other side reads as the same sequence.  If the stream ends early, at
    whatever octet, the reader gets exactly the messages written completely
    before, and then io.EOF if the stream ends between two frames and an
    unexpected-EOF error if it ends inside one. *)
Theorem frames_roundtrip conn id_ ms h input cut h' rest got err :
  Forall (fun m => message_ok m /\ Message.id m = id_) ms ->
  runs (writeAll conn ms) h None -> written h = input ++ cut ->
  runs (drain (S (length ms)) (conn, id_)) h' (got, err) -> delivers h' input rest ->
  exists k partial, (k <= length ms)%nat /\ (cut = [] -> k = length ms) /\
    got = map echoMessage (take k ms) /\ input = framesOf (take k ms) ++ partial /\
    if decide (partial = []) then err = Some EOF
    else (err = Some ErrUnexpectedEOF \/ err = Some (ErrWrapped ErrUnexpectedEOF)) /\
         exists m, ms !! k = Some m /\ zlen partial < zlen (frame m).
Proof.
  intros Hms [HW HF]%writeAll_writes. rewrite HW. clear h HW. revert input h' got err.
  induction HF as [|m ms (body & HP & Hl & Hfr) HF IH]; intros input h' got err E H HD.
  - symmetry in E. apply app_nil in E as [-> ->]. cbn [length drain] in H. apply runs_bind in H as (h1 & h2 & r & -> & H1 & H2).
    apply delivers_app in HD as (mid & HD1 & HD2).
    destruct (Next_cut conn id_ [] [] (be16 0) h1 r mid) as (e & -> & He); [done..|]. destruct H2 as [-> [= -> ->]].
    rewrite decide_True in He by done. subst e. by exists 0%nat, [].
  - inversion Hms as [|? ? [Hm Hi] Hms']; subst. cbn [length drain] in H.
    apply runs_bind in H as (h1 & h2 & r & -> & H1 & H2). apply delivers_app in HD as (mid & HD1 & HD2).
    unfold framesOf in E. cbn [map concat] in E. fold (framesOf ms) in E.
    apply app_prefix in E as [(input' & -> & E')|(c & Ec & Hc & ->)].
    + rewrite Hfr in HD1. destruct (Next_frame _ _ _ _ _ _ _ _ Hm eq_refl HP Hl H1 HD1) as [-> ->].
      apply runs_bind in H2 as (h3 & h4 & [got' err'] & -> & H3 & H4). destruct H4 as [-> [= -> ->]]. rewrite app_nil_r in HD2.
      destruct (IH Hms' _ _ _ _ E' H3 HD2) as (k & partial & Hk & Hcut & -> & -> & Herr). exists (S k), partial. split_and!.
      * cbn [length]. lia.
      * intros. cbn [length]. by rewrite Hcut.
      * done.
      * cbn [take]. unfold framesOf. cbn [map concat]. by rewrite <- app_assoc.
      * destruct (decide _); [done|]. done.
    + pose proof Ec as Ec'. rewrite Hfr in Ec. destruct (Next_cut _ _ _ _ _ _ _ _ Hl Ec Hc H1 HD1) as (e & -> & He). destruct H2 as [-> [= -> ->]].
      exists 0%nat, input. split_and!; [lia| |done|done|].
      * intros [-> _]%app_nil. done.
      * destruct (decide _); [by subst|]. split; [by destruct He as [-> | ->]; auto|]. exists m. split; [done|]. rewrite Ec'. destruct c; [done|]. llia.
Qed.

(** ** Examples *)

(** An execution against a network given as a function of what happened. *)
Fixpoint play {A : Type} (o : list event -> forall X : Type, action X -> X) (past : list event) (p : prog A) : list event * A :=
  match p with
  | Ret a => ([], a)
  | @Act _ X a k => let x := o past X a in let '(h, r) := play o (past ++ [Ev a x]) (k x) in (Ev a x :: h, r)
  end.
Lemma play_runs {A : Type} o past (p : prog A) : runs p (play o past p).1 (play o past p).2.
Proof.
  revert past. induction p as [a|X a k IH]; intros past; cbn; [done|]. specialize (IH (o past X a) (past ++ [Ev a (o past X a)])).
  destruct (play _ _ _) as [h r]. by exists (o past X a), h.
Qed.

Module Reflector.
(** A server that sends back what it receives: the UDP client does not look at
    the QR bit, and takes its own query for the response. *)
Definition lastWrite (h : list event) : bytes :=
  fold_left (fun b e => match e with @Ev X a _ => match a with Write _ b' => b' | _ => b end end) h [].
Definition net (h : list event) (X : Type) (a : action X) : X :=
  match a with
  | Rand n => Ok (replicate (Z.to_nat n) 85)
  | Dial _ _ => Ok 0%nat
  | Write _ _ => None
  | Read _ _ => Ok (lastWrite h)
  | ReadFull _ _ => Err EOF
  | CtxErr => None
  | SetServer _ => tt
  end.

Definition server : AddrPort := mkAddrPort (Addr4 [192; 0; 2; 1]) 53.
Definition query : Message := mkMessage 7 (WithRecursionDesired true 0) [NewQuestion sampleName rrtype.A] [] [] [] zeroEDNS false.
Definition ex : Exchanger := match buildFallover [server] 2 0 true 1232 with Ok ex => ex | Err _ => fun _ => Ret (Err ErrPlain) end.
Definition outcome : list event * res Message := play net [] (ex query).
Definition answer : Message := match outcome.2 with Ok m => m | Err _ => zeroMessage end.
Definition packed : bytes := match Pack query with Ok b => b | Err _ => [] end.
Definition question : bytes := match questionSectionBytes packed with Ok b => b | Err _ => [] end.

Lemma ex_built : buildFallover [server] 2 0 true 1232 = Ok ex.
Proof. reflexivity. Qed.
Lemma query_sendable : sendable query.
Proof.
  split_and!; cbn [WithID id flags questions answers authorities additionals edns hasEDNS query]; [decide_now|decide_now| |constructor..|done].
  constructor; [|constructor]. split; [decide_now|]. split; [decide_now|].
  exists [[101; 120; 97; 109; 112; 108; 101]]. split_and!; [decide_now|reflexivity|by vm_compute|reflexivity].
Qed.
Lemma runs_ok : runs (ex query) outcome.1 (Ok answer).
Proof. replace (Ok answer) with outcome.2 by (vm_compute; reflexivity). apply play_runs. Qed.
End Reflector.

Lemma exchange_authentic_witness :
  Response (flags Reflector.answer) = false /\ Truncated (flags Reflector.answer) = false /\
  comesFrom true [Reflector.server] Reflector.query Reflector.outcome.1 Reflector.answer.
Proof.
  split; [vm_compute; reflexivity|].
  exact (exchange_authentic [Reflector.server] 2 0 true 1232 Reflector.ex Reflector.query Reflector.outcome.1 Reflector.answer
    Reflector.ex_built ltac:(discriminate) Reflector.query_sendable Reflector.runs_ok).
Defined.

Lemma exchange_bounded_witness :
  (count isRead Reflector.outcome.1 = 1)%nat /\ Z.of_nat (count isRead Reflector.outcome.1) <= 602 /\
  Z.of_nat (count isDial Reflector.outcome.1) <= 4.
Proof.
  split; [vm_compute; reflexivity|].
  destruct (exchange_bounded [Reflector.server] 2 0 true 1232 Reflector.ex Reflector.query Reflector.outcome.1 (Ok Reflector.answer)
    Reflector.ex_built Reflector.runs_ok) as (H1 & H2 & _). split; [exact H1|exact H2].
Defined.

(** The letters of "example" with the bits 1010101 (85, lowest first). *)
Lemma case_randomisation_witness :
  nameOf Reflector.packed Reflector.question = [7; 101; 120; 97; 109; 112; 108; 101; 0] /\
  mixCase (bitsOf [85; 85]) (nameOf Reflector.packed Reflector.question) = [7; 69; 120; 65; 109; 80; 108; 69; 0] /\
  let '(msg', sent) := randomised Reflector.packed Reflector.question [85; 85] in questionSectionBytes msg' = Ok sent.
Proof.
  split; [vm_compute; reflexivity|]. split; [vm_compute; reflexivity|].
  pose proof (case_randomisation Reflector.packed Reflector.question [85; 85] ltac:(decide_now) ltac:(vm_compute; reflexivity)
    ltac:(vm_compute; reflexivity)) as H.
  destruct (randomised _ _ _) as [msg' sent]. exact (proj1 (proj2 H)).
Defined.

Module Stream.
(** Two messages are written; the stream ends three octets before the end. *)
Definition quiet (h : list event) (X : Type) (a : action X) : X := Reflector.net h X a.
Definition ms : list Message := [sampleMessage; sampleMessage].
Definition output : list event := (play quiet [] (writeAll 0 ms)).1.
Definition input : bytes := take (length (written output) - 3) (written output).
Definition source (h : list event) (X : Type) (a : action X) : X :=
  match a with
  | ReadFull _ n => (readFull n (fold_left (fun l e => match e with @Ev Y b _ => match b with ReadFull _ n => (readFull n l).2 | _ => l end end) h input)).1
  | a => quiet h _ a
  end.
Definition reading : list event * (list Message * option error) := play source [] (drain 3 (0%nat, 4660)).
End Stream.

Lemma frames_roundtrip_witness :
  zlen Stream.input = 171 /\ Stream.reading.2 = ([echoMessage sampleMessage], Some (ErrWrapped ErrUnexpectedEOF)) /\
  exists k partial, (k <= 2)%nat /\ Stream.input = framesOf (take k Stream.ms) ++ partial.
Proof.
  split; [vm_compute; reflexivity|]. split; [vm_compute; reflexivity|].
  destruct (frames_roundtrip 0 4660 Stream.ms Stream.output Stream.input
    (drop (length (written Stream.output) - 3) (written Stream.output)) Stream.reading.1 [] Stream.reading.2.1 Stream.reading.2.2)
    as (k & partial & Hk & _ & _ & E & _).
  - constructor; [|constructor; [|constructor]]; (split; [exact sampleMessage_ok|reflexivity]).
  - exact (play_runs Stream.quiet [] (writeAll 0 Stream.ms)).
  - symmetry. apply take_drop.
  - rewrite <- surjective_pairing. exact (play_runs Stream.source [] (drain 3 (0%nat, 4660))).
  - vm_compute. repeat split; reflexivity.
  - exists k, partial. split; [exact Hk|exact E].
Defined.
