(* ===== verification/Stub.v ===== *)
(** * The stub resolver (src/resolver.go, resolver_errors.go,
      specialuse/specialuse.go)

    [NewResolver] and the resolver it returns, over the exchangers of
    Exchanger.v.  Logging is not modelled; the result of loading
    /etc/resolv.conf is an argument of the option that loads it. *)

From Stdlib Require Import Strings.String.
From S2P Require Import Prelude Name Wire RData RDataNew Message EdnsOptions Netip Compare Authoritative Exchanger.
Import exchanger.
Open Scope Z_scope.
Open Scope list_scope.

(** ** specialuse.go *)

Module specialuse.
Inductive Disposition := Pass | SynthLocalhost | Refuse | Local.

(** [strings.ToLower] of bytes that are ASCII, as those of a printed name are. *)
Definition ToLower (s : bytes) : bytes := map (fun b => if (65 <=? b) && (b <=? 90) then b + 32 else b) s.
Definition HasSuffix (s suffix : bytes) : bool :=
  (zlen suffix <=? zlen s) && bool_decide (zslice s (zlen s - zlen suffix) (zlen s) = suffix).
Definition suffixIs (name reserved : bytes) : bool :=
  bool_decide (name = reserved) || HasSuffix name (str "." ++ reserved).

Definition For (n : Name) : Disposition :=
  if negb (IsValid n) then Pass
  else
    let s := ToLower (String_ n) in
    if bool_decide (s = str "localhost.") || HasSuffix s (str ".localhost.") then SynthLocalhost
    else if bool_decide (s = str "local.") || HasSuffix s (str ".local.") then Local
    else if suffixIs s (str "invalid.") || suffixIs s (str "test.") || suffixIs s (str "onion.") || suffixIs s (str "alt.") then Refuse
    else Pass.

Definition LoopbackForType (t : Z) : list Addr :=
  if t =? rrtype.A then [Addr4 [127; 0; 0; 1]]
  else if t =? rrtype.AAAA then [Addr6 [0; 0; 0; 0; 0; 0; 0; 0; 0; 0; 0; 0; 0; 0; 0; 1] []]
  else [].
End specialuse.

(** ** Answers and errors *)

Record Answer := mkAnswer { a_q : Question; a_records : list Record_; a_raw : Message; a_server : option AddrPort }.
Definition NewAnswer (q : Question) (records : list Record_) (raw : Message) : Answer := mkAnswer q records raw None.

(** The errors of [Resolve]: an RCODE with its answer, an error of the
    exchange with the server's address, and the others. *)
Inductive resolveError :=
  | RCodeError (code : Z) (answer : option Answer)
  | serverErr (addr : AddrPort) (e : error)
  | plainErr (e : error).

(** [RCodeError.Is] *)
Definition RCodeError_Is (e target : resolveError) : bool :=
  match e, target with RCodeError c _, RCodeError c' _ => c =? c' | _, _ => false end.
Definition ErrNXDOMAIN : resolveError := RCodeError RCODENXDomain None.
Definition ErrServFail : resolveError := RCodeError RCODEServFail None.

Definition wrapRCode (ans : Answer) : Answer + resolveError :=
  let rcode := RCODE (flags (a_raw ans)) in
  if negb (rcode =? RCODENoError) then inr (RCodeError rcode (Some ans)) else inl ans.

(** *** MatchAnswers *)

Fixpoint cnameAt (answers : list Record_) (target : Name) : option Name :=
  match answers with
  | [] => None
  | rec :: answers =>
      if negb (Equal (r_name rec) target) then cnameAt answers target
      else match asCNAME rec with None => cnameAt answers target | Some c => Some c end
  end.
Fixpoint hops (n : nat) (answers : list Record_) (target : Name) : Name :=
  match n with
  | O => target
  | S n => match cnameAt answers target with None => target | Some next => hops n answers next end
  end.
Definition maxHops : nat := 8.
Definition MatchAnswers (answers : list Record_) (qname : Name) (qtype : Z) : list Record_ :=
  let target := if negb (qtype =? rrtype.CNAME) then hops maxHops answers qname else qname in
  List.filter (fun rec => (RType rec =? qtype) && Equal (r_name rec) target) answers.

(** ** Configuration *)

Record resolvConfig := mkResolvConf {
  rc_nameservers : list AddrPort; rc_search : list Name; rc_ndots : Z; rc_timeout : Z; rc_attempts : Z }.

Inductive ResolverOption :=
  | WithExchanger (ex : Exchanger) | WithServers (servers : list AddrPort) | WithEDNSUDPSize (n : Z) | WithDNSSEC (v : bool)
  | WithEDNS (v : bool) | WithAttempts (n : Z) | WithPerAttemptTimeout (d : Z) | WithSystemResolvers (loaded : res resolvConfig)
  | WithCaseRandomization (v : bool) | WithSpecialUse (v : bool) | WithSearchList (suffixes : list Name) | WithNdots (n : Z)
  | WithLogger.

Record resolverConfig := mkRC {
  c_exchanger : option Exchanger; c_servers : list AddrPort; c_ednsUDP : Z; c_ednsDO : bool; c_disableEDNS : bool;
  c_attempts : Z; c_attemptsSet : bool; c_perAttempt : Z; c_perAttemptSet : bool; c_searchList : list Name;
  c_ndots : option Z; c_disableSpecialUse : bool; c_disable0x20 : bool; c_disable0x20Set : bool; c_systemErr : option error }.

Definition maxResolvconfTimeout : Z := 30 * Second.
Definition maxResolvconfAttempts : Z := 10.

Definition applyResolvconfToConfig (c : resolverConfig) (cfg : resolvConfig) : resolverConfig :=
  let perAttempt := if 0 <? rc_timeout cfg then Z.min (rc_timeout cfg) maxResolvconfTimeout else c_perAttempt c in
  let attempts := if 0 <? rc_attempts cfg then Z.min (rc_attempts cfg) maxResolvconfAttempts else c_attempts c in
  mkRC (c_exchanger c) (rc_nameservers cfg) (c_ednsUDP c) (c_ednsDO c) (c_disableEDNS c) attempts (c_attemptsSet c)
    perAttempt (c_perAttemptSet c) (rc_search cfg) (Some (rc_ndots cfg)) (c_disableSpecialUse c) (c_disable0x20 c)
    (c_disable0x20Set c) (c_systemErr c).

Definition applyOption (c : resolverConfig) (o : ResolverOption) : resolverConfig :=
  let '(mkRC ex se ud dd de at_ ats pa pas sl nd su xx xxs sy) := c in
  match o with
  | WithExchanger v => mkRC (Some v) se ud dd de at_ ats pa pas sl nd su xx xxs sy
  | WithServers v => mkRC ex v ud dd de at_ ats pa pas sl nd su xx xxs sy
  | WithEDNSUDPSize v => mkRC ex se v dd de at_ ats pa pas sl nd su xx xxs sy
  | WithDNSSEC v => mkRC ex se ud v de at_ ats pa pas sl nd su xx xxs sy
  | WithEDNS v => mkRC ex se ud dd (negb v) at_ ats pa pas sl nd su xx xxs sy
  | WithAttempts v => mkRC ex se ud dd de v true pa pas sl nd su xx xxs sy
  | WithPerAttemptTimeout v => mkRC ex se ud dd de at_ ats v true sl nd su xx xxs sy
  | WithSystemResolvers loaded =>
      match loaded with
      | Err e => mkRC ex se ud dd de at_ ats pa pas sl nd su xx xxs (Some e)
      | Ok cfg => if zlen (rc_nameservers cfg) =? 0
                  then mkRC ex se ud dd de at_ ats pa pas sl nd su xx xxs (Some ErrNoNameserver)
                  else applyResolvconfToConfig c cfg
      end
  | WithCaseRandomization v => mkRC ex se ud dd de at_ ats pa pas sl nd su (negb v) true sy
  | WithSpecialUse v => mkRC ex se ud dd de at_ ats pa pas sl nd (negb v) xx xxs sy
  | WithSearchList v => mkRC ex se ud dd de at_ ats pa pas v nd su xx xxs sy
  | WithNdots v => mkRC ex se ud dd de at_ ats pa pas sl (Some v) su xx xxs sy
  | WithLogger => c
  end.

Record resolver := mkResolver {
  exchanger_ : Exchanger; ednsUDP : Z; ednsDO : bool; disableEDNS : bool; SearchList : list Name; Ndots : Z;
  disableSpecialUse : bool }.

Definition NewResolver (opts : list ResolverOption) : res resolver :=
  let c := fold_left applyOption opts (mkRC None [] 1232 false false 0 false 0 false [] None false false false None) in
  match c_systemErr c with
  | Some e => Err e
  | None =>
      let? ex := match c_exchanger c with
                 | None => if zlen (c_servers c) =? 0 then Err ErrNoResolver
                           else buildFallover (c_servers c) (c_attempts c) (c_perAttempt c) (negb (c_disable0x20 c)) (c_ednsUDP c)
                 | Some ex => if 0 <? zlen (c_servers c) then Err ErrPlain
                              else if c_attemptsSet c || c_perAttemptSet c || c_disable0x20Set c then Err ErrPlain
                              else Ok ex
                 end in
      Ok (mkResolver ex (c_ednsUDP c) (c_ednsDO c) (c_disableEDNS c) (c_searchList c)
            (match c_ndots c with Some n => n | None => 1 end) (c_disableSpecialUse c))
  end.

Definition NewSystemResolver (loaded : res resolvConfig) (opts : list ResolverOption) : res resolver :=
  NewResolver (WithSystemResolvers loaded :: opts).

(** ** Resolve *)

(** [Build] cannot fail here; the source drops its error. *)
Definition synthMessage (name : Name) (t : Z) (records : list Record_) (rcode : Z) : Message :=
  let b := MessageBuilder.Question_ (NewQuestion name t) (MessageBuilder.RecursionAvailable true
             (MessageBuilder.RecursionDesired true (MessageBuilder.Response true (MessageBuilder.ID 0 MessageBuilder.NewMessageBuilder)))) in
  let b := if negb (rcode =? RCODENoError) then MessageBuilder.RCODE rcode b else b in
  let b := fold_left (fun b rec => MessageBuilder.Answer rec b) records b in
  match fst (MessageBuilder.Build b) with Ok m => m | Err _ => zeroMessage end.

Definition specialUseAnswer (name : Name) (t : Z) : option Answer :=
  match specialuse.For name with
  | specialuse.SynthLocalhost =>
      let records := omap (fun addr =>
        let rd := if t =? rrtype.A then (match NewA addr with Ok a => Some a | Err _ => None end)
                  else if t =? rrtype.AAAA then (match NewAAAA addr with Ok a => Some a | Err _ => None end)
                  else None in
        match rd with Some rd => Some (NewRecord name 0 rd) | None => None end) (specialuse.LoopbackForType t) in
      Some (mkAnswer (NewQuestion name t) records (synthMessage name t records RCODENoError) None)
  | specialuse.Refuse | specialuse.Local =>
      Some (mkAnswer (NewQuestion name t) [] (synthMessage name t [] RCODENXDomain) None)
  | specialuse.Pass => None
  end.

(** The exchange under [withServerSink]: its result and the address set last. *)
Fixpoint withServerSink {A} (p : prog A) (server : option AddrPort) : prog (A * option AddrPort) :=
  match p with
  | Ret a => Ret (a, server)
  | Act a k => Act a (fun x => withServerSink (k x) (match a with SetServer addr => Some addr | _ => server end))
  end.

Definition queryOf (r : resolver) (id_ : Z) (name : Name) (t : Z) : res Message :=
  let b := MessageBuilder.Question_ (NewQuestion name t) (MessageBuilder.RecursionDesired true
             (MessageBuilder.ID id_ MessageBuilder.NewMessageBuilder)) in
  if negb (disableEDNS r) then
    let? ed := fst (EDNSBuilder.Build (EDNSBuilder.DO (ednsDO r) (EDNSBuilder.UDPSize (ednsUDP r) EDNSBuilder.NewEDNSBuilder))) in
    fst (MessageBuilder.Build (MessageBuilder.EDNS_ ed b))
  else fst (MessageBuilder.Build b).

Definition resolve (r : resolver) (name : Name) (t : Z) : prog (Answer + resolveError) :=
  match (if negb (disableSpecialUse r) then specialUseAnswer name t else None) with
  | Some ans => Ret (wrapRCode ans)
  | None =>
      rid <- randomID ;;
      match rid with
      | Err e => Ret (inr (plainErr e))
      | Ok rid =>
          match queryOf r rid name t with
          | Err e => Ret (inr (plainErr e))
          | Ok q =>
              x <- withServerSink (exchanger_ r q) None ;;
              Ret (match x with
                   | (Err e, Some addr) => inr (if AddrPort_IsValid addr then serverErr addr e else plainErr e)
                   | (Err e, None) => inr (plainErr e)
                   | (Ok resp, server) =>
                       let question := match questions resp with q0 :: _ => q0 | [] => mkQuestion zeroName 0 0 [] end in
                       wrapRCode (mkAnswer question (MatchAnswers (answers resp) name t) resp server)
                   end)
          end
      end
  end.
