(* ===== verification/Cache.v ===== *)
(** * The resolver's cache (src/recursive/cache.go)

    Entries, their builder, and [MemoryCache]: shards of entries under a cap,
    each behind its lock.  A key's text is the name's wire form, the class and
    the type joined by bars; here it is the triple.  The hash of a key is that
    of the class [MapHash] of RateLimit.v, and the pool of 64 shards the one
    defined there.  Of [Get], the read under the read lock and the removal of
    an expired entry under the write lock are separate operations, since
    another goroutine may run between them. *)

From S2P Require Import Prelude Name Wire RData RDataNew Message EdnsOptions Netip Authoritative Handler RateLimit.
Open Scope Z_scope.

(** ** Entries *)

Record Entry := mkEntry {
  e_answer : list Record_; e_authority : list Record_; e_additional : list Record_;
  e_rcode : Z; e_aa : bool; e_ad : bool; e_expiresAt : Z }.

(** [time.Time{}]: the first of January of the year 1. *)
Definition zeroTime : Z := -62135596800 * Second.

Definition zeroEntry : Entry := mkEntry [] [] [] 0 false false zeroTime.

Module EntryBuilder.
Definition t : Type := Entry.
Definition NewEntryBuilder : t := zeroEntry.
Definition Answer (b : t) (r : list Record_) : t :=
  mkEntry r (e_authority b) (e_additional b) (e_rcode b) (e_aa b) (e_ad b) (e_expiresAt b).
Definition Authority (b : t) (r : list Record_) : t :=
  mkEntry (e_answer b) r (e_additional b) (e_rcode b) (e_aa b) (e_ad b) (e_expiresAt b).
Definition Additional (b : t) (r : list Record_) : t :=
  mkEntry (e_answer b) (e_authority b) r (e_rcode b) (e_aa b) (e_ad b) (e_expiresAt b).
Definition RCODE (b : t) (c : Z) : t :=
  mkEntry (e_answer b) (e_authority b) (e_additional b) c (e_aa b) (e_ad b) (e_expiresAt b).
Definition AA (b : t) (v : bool) : t :=
  mkEntry (e_answer b) (e_authority b) (e_additional b) (e_rcode b) v (e_ad b) (e_expiresAt b).
Definition AD (b : t) (v : bool) : t :=
  mkEntry (e_answer b) (e_authority b) (e_additional b) (e_rcode b) (e_aa b) v (e_expiresAt b).
Definition ExpiresAt (b : t) (at_ : Z) : t :=
  mkEntry (e_answer b) (e_authority b) (e_additional b) (e_rcode b) (e_aa b) (e_ad b) at_.
(** [now] is the reading of [time.Now()]. *)
Definition TTL (b : t) (now d : Z) : t := ExpiresAt b (now + d).
(** The entry and the builder afterwards. *)
Definition Build (b : t) : Entry * t := (b, zeroEntry).
End EntryBuilder.

(** ** Helpers on entries *)

Definition cacheKey : Type := bytes * Z * Z.
Definition key (n : Name) (c t : Z) : cacheKey := (AppendWire n [], c, t).

Definition cloneRecordsWithTTL (s : list Record_) (ttl : Z) : list Record_ :=
  map (fun r => mkRecord (r_name r) (r_class r) ttl (r_rd r)) s.

Definition cloneEntryWithTTL (e : Entry) (remaining : Z) : Entry :=
  mkEntry (cloneRecordsWithTTL (e_answer e) remaining) (cloneRecordsWithTTL (e_authority e) remaining)
    (cloneRecordsWithTTL (e_additional e) remaining) (e_rcode e) (e_aa e) (e_ad e) (e_expiresAt e).

(** [if n := len(s); trim > 0 && n > 0 { drop := min(n, trim); s = s[:n-drop]; trim -= drop }] *)
Definition trimSection (s : list Record_) (trim : Z) : list Record_ * Z :=
  let drop := Z.min (zlen s) trim in (zslice s 0 (zlen s - drop), trim - drop).

Definition capEntryRecords (e : Entry) (limit : Z) : Entry :=
  let total := zlen (e_answer e) + zlen (e_authority e) + zlen (e_additional e) in
  if total <=? limit then e
  else
    let trim := total - limit in
    let '(additional, trim) := trimSection (e_additional e) trim in
    let '(authority, trim) := trimSection (e_authority e) trim in
    let '(answer, _) := trimSection (e_answer e) trim in
    mkEntry answer authority additional (e_rcode e) (e_aa e) (e_ad e) (e_expiresAt e).

(** The smallest TTL of the records of the sets, or [floor] when there are none. *)
Definition minTTL (floor : Z) (sets : list (list Record_)) : Z :=
  let smallest := fold_left (fun acc set => fold_left (fun acc r =>
                    if (acc <? 0) || (r_ttl r <? acc) then r_ttl r else acc) set acc) sets (-1) in
  if smallest <? 0 then floor else smallest.

(** ** MemoryCache *)

Definition DefaultMemoryCacheSize : Z := 10000.
Definition DefaultMaxRecordsPerEntry : Z := 256.
Definition numCacheShards : Z := NumShards.

Module MemoryCache.
(** The fields that do not change; the clock is an argument of each call. *)
Record t := mk { maxSize : Z; maxRecordsPerEntr : Z }.

Inductive MemoryCacheOption :=
  | MemoryCacheSize (n : Z) | MemoryCacheMaxRecordsPerEntry (n : Z) | MemoryCacheClock.

Definition applyOption (c : Z * Z) (o : MemoryCacheOption) : Z * Z :=
  match o with
  | MemoryCacheSize n => (n, c.2)
  | MemoryCacheMaxRecordsPerEntry n => (c.1, n)
  | MemoryCacheClock => c
  end.

Definition NewMemoryCache (opts : list MemoryCacheOption) : t :=
  let '(size, records) := fold_left applyOption opts (DefaultMemoryCacheSize, DefaultMaxRecordsPerEntry) in
  mk (if 0 <? size then (size + numCacheShards - 1) / numCacheShards else 0) records.

Section Cache.
Context `{MapHash cacheKey} `{MapRange}.

Abbreviation shards := (Pool cacheKey Entry).
Definition shardFor (p : shards) (k : cacheKey) : gmap cacheKey Entry := ShardFor p k.

(** Under the read lock: the entry stored. *)
Definition lookup_ (p : shards) (k : cacheKey) : option Entry := shardFor p k !! k.

(** Under the write lock, when the entry read had expired at [now]. *)
Definition expire (p : shards) (k : cacheKey) (now : Z) : shards :=
  match shardFor p k !! k with
  | Some cur => if negb (now <? e_expiresAt cur) then setShard p k (delete k (shardFor p k)) else p
  | None => p
  end.

(** The result of [Get] for the entry read, at the clock's reading. *)
Definition result (e : option Entry) (now : Z) : option Entry :=
  match e with
  | None => None
  | Some e =>
      let remaining := timeSub (e_expiresAt e) now in
      if remaining <=? 0 then None else Some (cloneEntryWithTTL e remaining)
  end.

(** [Get] with nothing in between. *)
Definition Get (p : shards) (n : Name) (cl t now : Z) : option Entry * shards :=
  let k := key n cl t in
  match lookup_ p k with
  | None => (None, p)
  | Some e => match result (Some e) now with
              | None => (None, expire p k now)
              | Some e => (Some e, p)
              end
  end.

Definition evictLocked (c : t) (sh : gmap cacheKey Entry) (now : Z) : gmap cacheKey Entry :=
  let sh := filter (fun kv => now <? e_expiresAt kv.2) sh in
  if Z.of_nat (size sh) <? maxSize c then sh
  else match oldest e_expiresAt (mapRange sh) with
  | None => sh
  | Some (k, _) => delete k sh
  end.

(** [now] is the reading of [time.Now()], not of the injected clock. *)
Definition Put (c : t) (p : shards) (n : Name) (cl t_ : Z) (e : Entry) (now : Z) : shards :=
  let stored := if 0 <? maxRecordsPerEntr c then capEntryRecords e (maxRecordsPerEntr c) else e in
  let k := key n cl t_ in
  let sh := shardFor p k in
  let sh := if negb (bool_decide (is_Some (sh !! k))) && (0 <? maxSize c) && (maxSize c <=? Z.of_nat (size sh))
            then evictLocked c sh now else sh in
  setShard p k (<[k := stored]> sh).

Definition Len (p : shards) : Z := RateLimit.Len p.
End Cache.
End MemoryCache.
