(* ===== verification/CacheSound.v ===== *)
(** * The resolver's cache: theorems about Cache.v

    The sharded, capped cache against a plain map of what was put last, under
    any interleaving of the callers' critical sections. *)

From Stdlib Require Import Strings.String.
From S2P Require Import Prelude Name Wire RData RDataNew Message EdnsOptions Netip Authoritative Handler RateLimit RateSound Cache.
Open Scope Z_scope.
Open Scope list_scope.

Import MemoryCache.

(** ** Critical sections and the reference map *)

(** What a caller does under a shard's write lock, each with the clock reading
    it uses. *)
Inductive cacheOp :=
  | OpPut (n : Name) (cl t : Z) (e : Entry) (now : Z)
  | OpExpire (n : Name) (cl t : Z) (now : Z).

Definition storedForm (c : MemoryCache.t) (e : Entry) : Entry :=
  if 0 <? maxRecordsPerEntr c then capEntryRecords e (maxRecordsPerEntr c) else e.

(** The reference: the entry put last under a key. *)
Definition lastStep (c : MemoryCache.t) (m : gmap cacheKey Entry) (op : cacheOp) : gmap cacheKey Entry :=
  match op with OpPut n cl t e _ => <[key n cl t := storedForm c e]> m | OpExpire _ _ _ _ => m end.
Definition lastPut (c : MemoryCache.t) (ops : list cacheOp) : gmap cacheKey Entry := fold_left (lastStep c) ops ∅.

(** Of the entries in range order, the one chosen has the least time. *)
Lemma oldest_least {K V} (upd : V -> Z) (l : list (K * V)) k t : oldest upd l = Some (k, t) ->
  forall k' v', (k', v') ∈ l -> t <= upd v'.
Proof.
  unfold oldest. enough (forall acc, fold_left (oldestStep upd) l acc = Some (k, t) ->
    (forall k' v', (k', v') ∈ l -> t <= upd v') /\ (forall k0 t0, acc = Some (k0, t0) -> t <= t0)) as X by (intros E; by apply (X None)).
  induction l as [|[k1 v1] l IH]; intros acc E; cbn [fold_left] in E.
  { subst acc. split; [set_solver|]. by intros ? ? [= <- <-]. }
  destruct (IH _ E) as [H1 H2]. unfold oldestStep in H2. cbn [fst snd] in H2. destruct acc as [[k0 t0]|].
  - destruct (upd v1 <? t0) eqn:El; bool_facts; specialize (H2 _ _ eq_refl); (split; [|intros ? ? [= <- <-]; lia]);
      (intros k' v' [[= -> ->]|Hin]%elem_of_cons; [lia|by eapply H1]).
  - specialize (H2 _ _ eq_refl). split; [|done]. intros k' v' [[= -> ->]|Hin]%elem_of_cons; [done|by eapply H1].
Qed.

Section Cache.
Context `{MapHash cacheKey} `{MapRange}.

Definition cacheStep (c : MemoryCache.t) (p : Pool cacheKey Entry) (op : cacheOp) : Pool cacheKey Entry :=
  match op with OpPut n cl t e now => Put c p n cl t e now | OpExpire n cl t now => expire p (key n cl t) now end.
Definition cacheRun (c : MemoryCache.t) (ops : list cacheOp) : Pool cacheKey Entry := fold_left (cacheStep c) ops RateLimit.New.

Lemma cacheRun_snoc c ops op : cacheRun c (ops ++ [op]) = cacheStep c (cacheRun c ops) op.
Proof. unfold cacheRun. by rewrite fold_left_app. Qed.
Lemma lastPut_snoc c ops op : lastPut c (ops ++ [op]) = lastStep c (lastPut c ops) op.
Proof. unfold lastPut. by rewrite fold_left_app. Qed.

Lemma cache_evict_sub c sh now : evictLocked c sh now ⊆ sh.
Proof.
  unfold evictLocked. set (sh' := filter _ sh). assert (sh' ⊆ sh) as Hs by apply map_filter_subseteq.
  destruct (_ <? _); [done|]. destruct (oldest _ _) as [[k ?]|]; [|done]. etrans; [apply delete_subseteq|done].
Qed.

Lemma cache_evict_size c sh now : 0 < maxSize c -> Z.of_nat (size sh) <= maxSize c ->
  Z.of_nat (size (evictLocked c sh now)) < maxSize c.
Proof.
  intros Hm Hs. unfold evictLocked. set (sh' := filter _ sh).
  assert (size sh' <= size sh)%nat as Hle by apply map_subseteq_size, map_filter_subseteq.
  destruct (_ <? _) eqn:E; bool_facts; [done|]. rewrite evict_oldest_size by lia. lia.
Qed.

(** The shard an entry is put in, before the insertion. *)
Definition roomFor (c : MemoryCache.t) (sh : gmap cacheKey Entry) (k : cacheKey) (now : Z) : gmap cacheKey Entry :=
  if negb (bool_decide (is_Some (sh !! k))) && (0 <? maxSize c) && (maxSize c <=? Z.of_nat (size sh))
  then evictLocked c sh now else sh.

Lemma Put_shard c p n cl t e now :
  Put c p n cl t e now =
    setShard p (key n cl t) (<[key n cl t := storedForm c e]> (roomFor c (shardFor p (key n cl t)) (key n cl t) now)).
Proof. done. Qed.

Lemma roomFor_sub c sh k now : roomFor c sh k now ⊆ sh.
Proof. unfold roomFor. destruct (_ && _); [apply cache_evict_sub|done]. Qed.

Lemma expire_lookup p k now k' : pool_wf p ->
  lookup_ (expire p k now) k' =
    if decide (k = k') then match lookup_ p k with
                            | Some e => if now <? e_expiresAt e then Some e else None
                            | None => None end
    else lookup_ p k'.
Proof.
  intros Hp. unfold expire, lookup_, shardFor. destruct (ShardFor p k !! k) as [e|] eqn:E.
  - destruct (now <? e_expiresAt e) eqn:El; cbn [negb].
    + destruct (decide (k = k')) as [<-|]; [by rewrite E|done].
    + rewrite ShardFor_set by done. destruct (decide (k = k')) as [<-|Hne].
      * rewrite decide_True by done. apply lookup_delete_eq.
      * destruct (decide (shardIndex k = shardIndex k')) as [Ei|]; [|done].
        rewrite lookup_delete_ne by done. unfold ShardFor. by rewrite Ei.
  - destruct (decide (k = k')) as [<-|]; [by rewrite E|done].
Qed.

Lemma Put_lookup c p n cl t e now k' : pool_wf p ->
  lookup_ (Put c p n cl t e now) k' =
    if decide (key n cl t = k') then Some (storedForm c e)
    else if decide (shardIndex (key n cl t) = shardIndex k')
         then roomFor c (shardFor p (key n cl t)) (key n cl t) now !! k' else lookup_ p k'.
Proof.
  intros Hp. rewrite Put_shard. unfold lookup_, shardFor. rewrite ShardFor_set by done.
  destruct (decide (key n cl t = k')) as [<-|Hne].
  - rewrite decide_True by done. apply lookup_insert_eq.
  - destruct (decide _); [|done]. by apply lookup_insert_ne.
Qed.

Lemma cacheStep_wf c p op : pool_wf p -> pool_wf (cacheStep c p op).
Proof.
  intros Hp. destruct op; cbn [cacheStep]; [rewrite Put_shard; by apply setShard_wf|].
  unfold expire. destruct (_ !! _); [|done]. destruct (negb _); [by apply setShard_wf|done].
Qed.
Lemma cacheRun_wf c ops : pool_wf (cacheRun c ops).
Proof.
  induction ops as [|op ops IH] using rev_ind; [apply New_wf|]. rewrite cacheRun_snoc. by apply cacheStep_wf.
Qed.

(** Whatever is in the cache was put there last under its key. *)
Lemma cacheRun_sub c ops k e : lookup_ (cacheRun c ops) k = Some e -> lastPut c ops !! k = Some e.
Proof.
  revert e. induction ops as [|op ops IH] using rev_ind; intros e.
  { unfold lookup_, shardFor, cacheRun. cbn [fold_left]. rewrite New_ShardFor. done. }
  rewrite cacheRun_snoc, lastPut_snoc. pose proof (cacheRun_wf c ops) as Hwf. destruct op as [n cl t e0 now|n cl t now]; cbn [cacheStep lastStep].
  - rewrite Put_lookup by done. destruct (decide (key n cl t = k)) as [<-|Hne]; [by rewrite lookup_insert_eq|].
    rewrite lookup_insert_ne by done. destruct (decide _) as [Ei|]; [|apply IH].
    intros Hl. apply IH. unfold lookup_, shardFor in *. unfold ShardFor in *. rewrite <- Ei.
    by eapply lookup_weaken, roomFor_sub.
  - rewrite expire_lookup by done. destruct (decide (key n cl t = k)) as [<-|]; [|apply IH].
    destruct (lookup_ _ _) as [e'|] eqn:E; [|done]. destruct (now <? _); [|done]. intros [= <-]. by apply IH.
Qed.

(** An entry that making room in its shard removed: it had expired by then, or
    none of those that had not expires earlier. *)
Lemma evict_victim c sh now k e : sh !! k = Some e -> evictLocked c sh now !! k = None ->
  e_expiresAt e <= now \/ forall k' e', sh !! k' = Some e' -> now < e_expiresAt e' -> e_expiresAt e <= e_expiresAt e'.
Proof.
  intros Hk. unfold evictLocked. set (sh' := filter _ sh).
  assert (forall k' e', sh' !! k' = Some e' <-> sh !! k' = Some e' /\ now < e_expiresAt e') as Hsh.
  { intros k' e'. unfold sh'. rewrite map_lookup_filter_Some. cbn [snd]. by rewrite Is_true_true, Z.ltb_lt. }
  destruct (decide (now < e_expiresAt e)) as [Hn|]; [|left; lia].
  assert (sh' !! k = Some e) as Hk' by by apply Hsh. destruct (_ <? _); [congruence|].
  pose proof (oldest_least e_expiresAt (mapRange sh')) as Hmin. pose proof (oldest_fold e_expiresAt (mapRange sh') None) as Ho.
  fold (oldest e_expiresAt (mapRange sh')) in Ho. destruct (oldest _ _) as [[k0 t0]|]; [|congruence].
  intros [->|?]%lookup_delete_None; [right|congruence].
  destruct Ho as [(v & Hv & <-)|?]; [|done]. rewrite mapRange_perm in Hv. apply elem_of_map_to_list in Hv. rewrite Hk' in Hv. injection Hv as <-.
  intros k' e' He' Hn'. eapply (Hmin _ _ eq_refl k'). rewrite mapRange_perm. apply elem_of_map_to_list. by apply Hsh.
Qed.

(** The entry [e] of [k] fell to a Put of a new key in the same shard, which was
    full: it had expired by that Put's clock, or expired first of all that had
    not. *)
Definition evictedBy (c : MemoryCache.t) (ops : list cacheOp) (k : cacheKey) (e : Entry) : Prop :=
  exists before n cl t e0 now after, ops = before ++ OpPut n cl t e0 now :: after /\
    let sh := shardFor (cacheRun c before) k in
    shardIndex (key n cl t) = shardIndex k /\ sh !! key n cl t = None /\ sh !! k = Some e /\
    0 < maxSize c <= Z.of_nat (size sh) /\
    (e_expiresAt e <= now \/ forall k' e', sh !! k' = Some e' -> now < e_expiresAt e' -> e_expiresAt e <= e_expiresAt e').

Lemma evictedBy_snoc c ops op k e : evictedBy c ops k e -> evictedBy c (ops ++ [op]) k e.
Proof.
  intros (before & n & cl & t & e0 & now & after & -> & Hev). exists before, n, cl, t, e0, now, (after ++ [op]).
  split; [|done]. by rewrite <- app_assoc.
Qed.

(** An entry put last under its key is there unless a reader saw it expired or
    it was evicted. *)
Lemma cacheRun_complete c ops k e : lastPut c ops !! k = Some e ->
  lookup_ (cacheRun c ops) k = Some e \/
  (exists n cl t now, k = key n cl t /\ OpExpire n cl t now ∈ ops /\ e_expiresAt e <= now) \/ evictedBy c ops k e.
Proof.
  revert e. induction ops as [|op ops IH] using rev_ind; intros e; [done|]. rewrite cacheRun_snoc, lastPut_snoc.
  assert (forall e, (exists n cl t now, k = key n cl t /\ OpExpire n cl t now ∈ ops /\ e_expiresAt e <= now) \/ evictedBy c ops k e ->
    (exists n cl t now, k = key n cl t /\ OpExpire n cl t now ∈ ops ++ [op] /\ e_expiresAt e <= now) \/ evictedBy c (ops ++ [op]) k e) as Hlost.
  { intros e' [(n' & cl' & t' & now' & -> & Hin & Hle)|?]; [left|right; by apply evictedBy_snoc].
    exists n', cl', t', now'. split; [done|]. split; [set_solver|done]. }
  pose proof (cacheRun_wf c ops) as Hwf. destruct op as [n cl t e0 now|n cl t now]; cbn [cacheStep lastStep].
  - rewrite Put_lookup by done. destruct (decide (key n cl t = k)) as [<-|Hne]; [rewrite lookup_insert_eq; by left|].
    rewrite lookup_insert_ne by done. intros Hl.
    destruct (decide (shardIndex (key n cl t) = shardIndex k)) as [Ei|]; [|by destruct (IH e Hl) as [?|?]; [left|right; apply Hlost]].
    assert (shardFor (cacheRun c ops) (key n cl t) = shardFor (cacheRun c ops) k) as -> by (unfold shardFor, ShardFor; by rewrite Ei).
    destruct (roomFor c (shardFor (cacheRun c ops) k) (key n cl t) now !! k) as [e'|] eqn:Er.
    + destruct (IH e Hl) as [Hk|?]; [left|right; by apply Hlost]. rewrite <- Hk. symmetry. by eapply lookup_weaken, roomFor_sub.
    + destruct (IH e Hl) as [Hk|?]; [|right; by apply Hlost].
      right. right. exists ops, n, cl, t, e0, now, []. split; [done|]. cbv zeta. unfold lookup_ in Hk. unfold roomFor in Er.
      match type of Er with (if ?b then _ else _) !! _ = _ => destruct b eqn:Ec; [|congruence] end. bool_facts.
      match goal with X : bool_decide _ = false |- _ => apply bool_decide_eq_false in X; rename X into Hno end.
      split; [done|]. split; [by apply eq_None_not_Some|]. split; [done|]. split; [lia|]. by eapply evict_victim.
  - intros Hl. rewrite expire_lookup by done. destruct (decide (key n cl t = k)) as [<-|]; [|by destruct (IH e Hl) as [?|?]; [left|right; apply Hlost]].
    destruct (IH e Hl) as [Hr|?]; [|right; by apply Hlost].
    rewrite Hr. destruct (now <? e_expiresAt e) eqn:El; [by left|right; left]. bool_facts.
    exists n, cl, t, now. split; [done|]. split; [set_solver|lia].
Qed.

Lemma cacheRun_size c ops : 0 < maxSize c ->
  Forall (fun sh : gmap cacheKey Entry => Z.of_nat (size sh) <= maxSize c) (cacheRun c ops).
Proof.
  intros Hm. induction ops as [|op ops IH] using rev_ind.
  { apply Forall_replicate. rewrite map_size_empty. lia. }
  assert (forall k, Z.of_nat (size (ShardFor (cacheRun c ops) k)) <= maxSize c) as Hs.
  { intros k. unfold ShardFor. destruct (_ !! _) as [sh|] eqn:E; cbn [default].
    - by apply (Forall_lookup_1 _ _ _ _ IH E).
    - rewrite map_size_empty. lia. }
  rewrite cacheRun_snoc. destruct op as [n cl t e0 now|n cl t now]; cbn [cacheStep].
  - rewrite Put_shard. apply Forall_insert; [done|]. unfold roomFor, shardFor. specialize (Hs (key n cl t)).
    set (k := key n cl t) in *. set (sh := ShardFor _ k) in *.
    rewrite map_size_insert. destruct (_ && _) eqn:E.
    + pose proof (cache_evict_size c sh now Hm Hs). destruct (evictLocked _ _ _ !! k); cbn; lia.
    + destruct (sh !! k) eqn:Ek; [cbn; lia|]. rewrite bool_decide_false in E by by intros []. cbn [negb andb] in E.
      apply andb_false_iff in E as [E|E]; bool_facts; cbn; lia.
  - unfold expire, shardFor. destruct (_ !! _) as [cur|] eqn:E; [|done]. destruct (negb _); [|done].
    apply Forall_insert; [done|]. etrans; [|apply (Hs (key n cl t))].
    pose proof (map_subseteq_size _ _ (delete_subseteq (ShardFor (cacheRun c ops) (key n cl t)) (key n cl t))). lia.
Qed.
End Cache.

(** ** The theorem *)

Definition readBy (now : Z) (op : cacheOp) : Prop :=
  match op with OpExpire _ _ _ now' => now' <= now | OpPut _ _ _ _ _ => True end.

(** C25. After any interleaving of the callers' critical sections, a hit is the
    entry put last under this name, class and type (its sections capped), not yet
    expired, in which the TTL of every record has been replaced by the time the
    entry has left -- which is also what it gets when its own TTL was longer or
    shorter than the entry's, unlike the comment on Get says.  A miss means that
    nothing was put, that the entry has expired, or that it was evicted to make
    room for a new key in its own full shard, when it had expired by the evicting
    Put's clock or was the first to expire of those that had not.  The cache keeps
    at most the configured number of entries, up to the rounding to a whole number
    per shard.  The readers that removed entries did so at readings of the clock
    no later than [now]. *)
Theorem cache_refines `{MapHash cacheKey} `{MapRange} (opts : list MemoryCacheOption) (ops : list cacheOp)
    (n : Name) (cl t now : Z) :
  Forall (readBy now) ops ->
  let c := NewMemoryCache opts in
  let last := lastPut c ops !! key n cl t in
  match (Get (cacheRun c ops) n cl t now).1 with
  | Some e' => exists e, last = Some e /\ now < e_expiresAt e /\ e' = cloneEntryWithTTL e (timeSub (e_expiresAt e) now)
  | None => match last with None => True | Some e => e_expiresAt e <= now \/ evictedBy c ops (key n cl t) e end
  end /\
  (let cap := (fold_left applyOption opts (DefaultMemoryCacheSize, DefaultMaxRecordsPerEntry)).1 in
   0 < cap -> Len (cacheRun c ops) <= cap + 63).
Proof.
  intros Hr c last. split.
  - unfold Get. destruct (lookup_ _ _) as [e|] eqn:E.
    + pose proof (cacheRun_sub _ _ _ _ E) as Hl. unfold last. rewrite Hl. unfold result.
      destruct (_ <=? 0) eqn:Er; cbn [fst]; bool_facts; unfold timeSub in *; [left; lia|].
      exists e. split; [done|]. split; [lia|done].
    + cbn [fst]. unfold last. destruct (lastPut c ops !! key n cl t) as [e|] eqn:Hl; [|done].
      destruct (cacheRun_complete c ops _ _ Hl) as [Hx|[(n' & cl' & t' & now' & _ & Hin & Hle)|?]]; [congruence| |by right].
      left. rewrite Forall_forall in Hr. specialize (Hr _ Hin). cbn in Hr. lia.
  - intros cap Hcap. unfold c. set (c0 := NewMemoryCache opts).
    assert (maxSize c0 = (cap + 63) / 64) as Ec.
    { unfold c0, NewMemoryCache, cap in *. destruct (fold_left _ _ _) as [size records]. cbn [fst] in *.
      rewrite (proj2 (Z.ltb_lt _ _) Hcap). cbn [maxSize]. unfold numCacheShards, NumShards. f_equal. lia. }
    assert (0 < maxSize c0) as Hm by (rewrite Ec; elia).
    pose proof (Len_bound _ _ (cacheRun_size c0 ops Hm)) as Hlen. unfold Len.
    assert (zlen (cacheRun c0 ops) = 64) as El by (unfold zlen; rewrite (cacheRun_wf c0 ops); done).
    rewrite El, Ec in Hlen. elia.
Qed.

Module SampleCache.
#[export] Instance hash : MapHash cacheKey := {| maphash k := zlen k.1.1 |}.
#[export] Instance inKeyOrder : MapRange := {| mapRange _ _ _ _ := map_to_list; mapRange_perm _ _ _ _ m := reflexivity _ |}.
Definition www : Name := mkName [3; 119; 119; 119; 0].
Definition entry (a : Z) (expires : Z) : Entry :=
  mkEntry [mkRecord www 1 (300 * Second) (Some (RD_A (Addr4 [192; 0; 2; a])))] [] [] 0 true false expires.
(** A reader that saw the first entry expired removes nothing once a second
    one has taken its place. *)
Definition ops : list cacheOp :=
  [OpPut www 1 1 (entry 1 (10 * Second)) 0; OpPut www 1 1 (entry 2 (60 * Second)) (12 * Second);
   OpExpire www 1 1 (11 * Second)].
(** With one place per shard, another type of the same name takes its place. *)
Definition crowded : list cacheOp := [OpPut www 1 1 (entry 1 (60 * Second)) 0; OpPut www 1 28 (entry 2 (90 * Second)) 0].
End SampleCache.

Lemma cache_refines_witness :
  (MemoryCache.Get (H := SampleCache.hash) (cacheRun (H := SampleCache.hash) (H0 := SampleCache.inKeyOrder)
      (NewMemoryCache []) SampleCache.ops) SampleCache.www 1 1 (40 * Second)).1
    = Some (cloneEntryWithTTL (SampleCache.entry 2 (60 * Second)) (20 * Second)) /\
  Len (cacheRun (H := SampleCache.hash) (H0 := SampleCache.inKeyOrder) (NewMemoryCache []) SampleCache.ops) <= 10063 /\
  evictedBy (H := SampleCache.hash) (H0 := SampleCache.inKeyOrder) (NewMemoryCache [MemoryCacheSize 64]) SampleCache.crowded
    (key SampleCache.www 1 1) (SampleCache.entry 1 (60 * Second)).
Proof.
  assert (Forall (readBy (40 * Second)) SampleCache.ops) as Hr.
  { repeat constructor. vm_compute. discriminate. }
  destruct (cache_refines (H := SampleCache.hash) (H0 := SampleCache.inKeyOrder) [] SampleCache.ops
              SampleCache.www 1 1 (40 * Second) Hr) as [Hg Hlen].
  split; [vm_compute; reflexivity|]. split; [apply Hlen; vm_compute; reflexivity|].
  destruct (cache_refines (H := SampleCache.hash) (H0 := SampleCache.inKeyOrder) [MemoryCacheSize 64] SampleCache.crowded
              SampleCache.www 1 1 (40 * Second) ltac:(repeat constructor)) as [Hm _].
  match type of Hm with match ?x with _ => _ end => assert (x = None) as E by (vm_compute; reflexivity) end. rewrite E in Hm.
  match type of Hm with match ?x with _ => _ end =>
    assert (x = Some (SampleCache.entry 1 (60 * Second))) as El by (vm_compute; reflexivity) end. rewrite El in Hm.
  destruct Hm as [Hm|Hm]; [|exact Hm]. exfalso. revert Hm. vm_compute. congruence.
Defined.
