(* ===== verification/Aggressive.v ===== *)
(** * Aggressive use of validated denials (src/recursive/aggressive_nsec.go,
      aggressive_nsec3.go)

    The two indexes of validated NSEC and NSEC3 records and the synthesis of
    negative entries from them.  An index is a value; the reads of one
    synthesis, which the code makes under separate read locks, are made of one
    value.  An insertion at an offset past the end of a slice panics; the
    functions that can do so return [Err Panic]. *)

From Stdlib Require Import Strings.String.
From S2P Require Import Prelude Name Wire RData RDataNew Message EdnsOptions Netip Compare Authoritative Dnssec Denial Handler RateLimit Cache.
Open Scope Z_scope.
Open Scope list_scope.

(** ** package slices *)

(** The loop of [slices.BinarySearchFunc]: the least offset in [i, j) whose
    element is not below the target, for a sorted slice. *)
Fixpoint search_loop {E} (fuel : nat) (x : list E) (below : E -> bool) (i j : Z) : Z :=
  match fuel with
  | O => i
  | S fuel =>
      if i <? j then
        let h := (i + j) / 2 in
        match x !! Z.to_nat h with
        | Some e => if below e then search_loop fuel x below (h + 1) j else search_loop fuel x below i h
        | None => i
        end
      else i
  end.
(** The offset and whether the element there equals the target. *)
Definition BinarySearchFunc {E T} (x : list E) (target : T) (cmp : E -> T -> Z) : Z * bool :=
  let i := search_loop (length x) x (fun e => cmp e target <? 0) 0 (zlen x) in
  (i, match x !! Z.to_nat i with Some e => cmp e target =? 0 | None => false end).

Definition Insert_ {E} (s : list E) (i : Z) (v : E) : res (list E) :=
  if zlen s <? i then Err Panic else Ok (take (Z.to_nat i) s ++ v :: drop (Z.to_nat i) s).
Definition Delete_ {E} (s : list E) (i j : Z) : list E := take (Z.to_nat i) s ++ drop (Z.to_nat j) s.

(** The offset of the first element that [f] holds of, or -1. *)
Fixpoint IndexFunc {E} (f : E -> bool) (s : list E) : Z :=
  match s with
  | [] => -1
  | e :: s => if f e then 0 else let i := IndexFunc f s in if i =? -1 then -1 else i + 1
  end.

(** ** The NSEC index *)

Record nsecEntry := mkNsecEntry {
  ne_owner : Name; ne_next : Name; ne_types : list Z; ne_issuingZone : Name;
  ne_expiresAt : Z; ne_canonicalKey : bytes }.

Record nsecIndex := mkNsecIndex { ni_entries : list nsecEntry; ni_maxLen : Z }.

Definition defaultAggressiveNSECCap : Z := 4096.
Definition newNSECIndex : nsecIndex := mkNsecIndex [] defaultAggressiveNSECCap.

Definition canonicalKey (n : Name) : bytes :=
  match Labels n with
  | [] => [0]
  | labels => fold_left (fun key v => key ++ [to_u8 (zlen v)] ++ v) (rev labels) [] ++ [0]
  end.

Definition findByOwnerLocked (entries : list nsecEntry) (key : bytes) : Z * bool :=
  BinarySearchFunc entries key (fun e target => cmpBytes (ne_canonicalKey e) target).

Definition sweepExpiredLocked (entries : list nsecEntry) (now : Z) : list nsecEntry :=
  List.filter (fun e => now <? ne_expiresAt e) entries.

(** The least offset of an entry with the least expiry, from offset [j] on. *)
Fixpoint soonest_loop (entries : list nsecEntry) (j soonest best : Z) : Z :=
  match entries with
  | [] => soonest
  | e :: entries =>
      if ne_expiresAt e <? best then soonest_loop entries (j + 1) j (ne_expiresAt e)
      else soonest_loop entries (j + 1) soonest best
  end.
Definition evictSoonestLocked (entries : list nsecEntry) : list nsecEntry :=
  match entries with
  | [] => []
  | e :: rest => let soonest := soonest_loop rest 1 0 (ne_expiresAt e) in Delete_ entries soonest (soonest + 1)
  end.

(** [now] is the reading of [time.Now()] if the index is full. *)
Definition Insert (i : nsecIndex) (e : nsecEntry) (now : Z) : res nsecIndex :=
  let '(idx, found) := findByOwnerLocked (ni_entries i) (ne_canonicalKey e) in
  if found then Ok (mkNsecIndex (<[Z.to_nat idx := e]> (ni_entries i)) (ni_maxLen i))
  else
    let full (entries : list nsecEntry) := (0 <? ni_maxLen i) && (ni_maxLen i <=? zlen entries) in
    let entries := if full (ni_entries i) then sweepExpiredLocked (ni_entries i) now else ni_entries i in
    let '(entries, idx) :=
      if full entries
      then let entries := evictSoonestLocked entries in (entries, fst (findByOwnerLocked entries (ne_canonicalKey e)))
      else (entries, idx) in
    let? entries := Insert_ entries idx e in
    Ok (mkNsecIndex entries (ni_maxLen i)).

Definition SweepExpired (i : nsecIndex) (now : Z) : nsecIndex :=
  mkNsecIndex (sweepExpiredLocked (ni_entries i) now) (ni_maxLen i).

Inductive nsecLookupKind := nsecLookupNone | nsecLookupNXDOMAIN | nsecLookupNoData.

Definition nsecCovers (owner next q : Name) : bool :=
  let oKey := canonicalKey owner in
  let nKey := canonicalKey next in
  let qKey := canonicalKey q in
  if 0 <=? cmpBytes oKey nKey then (0 <? cmpBytes qKey oKey) || (cmpBytes qKey nKey <? 0)
  else (0 <? cmpBytes qKey oKey) && (cmpBytes qKey nKey <? 0).

(** [inBailiwick] of recursive.go and its copy [inBailiwickName]. *)
Fixpoint bailiwick_loop (fuel : nat) (ancestor cur : Name) : bool :=
  match fuel with
  | O => false
  | S fuel =>
      if negb (IsValid cur) then false
      else if Equal cur ancestor then true
      else match Parent cur with
           | None => false
           | Some p => if Equal cur p then false else bailiwick_loop fuel ancestor p
           end
  end.
Definition inBailiwickName (ancestor descendant : Name) : bool :=
  bailiwick_loop (S (length (wire descendant))) ancestor descendant.

Definition typeInBitmap (bitmap : list Z) (t : Z) : bool := existsb (Z.eqb t) bitmap.

Definition Lookup (i : nsecIndex) (q : Name) (qtype now : Z) : option nsecEntry * nsecLookupKind :=
  let qKey := canonicalKey q in
  let idx := IndexFunc (fun e => 0 <? cmpBytes (ne_canonicalKey e) qKey) (ni_entries i) in
  let idx := if idx =? -1 then zlen (ni_entries i) else idx in
  if idx =? 0 then (None, nsecLookupNone)
  else match ni_entries i !! Z.to_nat (idx - 1) with
  | None => (None, nsecLookupNone)
  | Some cand =>
      if negb (now <? ne_expiresAt cand) then (None, nsecLookupNone)
      else if negb (inBailiwickName (ne_issuingZone cand) q) then (None, nsecLookupNone)
      else if Equal (ne_owner cand) q then
        if typeInBitmap (ne_types cand) rrtype.CNAME then (None, nsecLookupNone)
        else if typeInBitmap (ne_types cand) qtype then (None, nsecLookupNone)
        else (Some cand, nsecLookupNoData)
      else if negb (nsecCovers (ne_owner cand) (ne_next cand) q) then (None, nsecLookupNone)
      else (Some cand, nsecLookupNXDOMAIN)
  end.

(** [wire.ParseName("*." + n.String())] *)
Definition parseWildcard (n : Name) : res Name := Parse (42 :: 46 :: String_ n).

Fixpoint wildcard_loop (fuel : nat) (i : nsecIndex) (cur : Name) (now : Z) : bool :=
  match fuel with
  | O => false
  | S fuel =>
      match Parent cur with
      | None => false
      | Some p =>
          if Equal cur p then false
          else
            let denied := match parseWildcard p with
                          | Ok wc => match Lookup i wc rrtype.ANY now with (_, nsecLookupNXDOMAIN) => true | _ => false end
                          | Err _ => false
                          end in
            if denied then true else wildcard_loop fuel i p now
      end
  end.
Definition hasWildcardDenial (i : nsecIndex) (q : Name) (now : Z) : bool :=
  wildcard_loop (length (wire q)) i q now.

(** [now] and [later] are the readings of the clock; [None] also stands for
    an index that is not configured. *)
Definition synthesiseFromNSEC (idx : option nsecIndex) (name : Name) (t now later : Z) : option Entry :=
  match idx with
  | None => None
  | Some i =>
      match Lookup i name t now with
      | (Some cand, k) =>
          if negb (hasWildcardDenial i name now) then None
          else
            let ttl := timeSub (ne_expiresAt cand) later in
            if ttl <=? 0 then None
            else Some (mkEntry [] [NewRecord (ne_owner cand) ttl (NewNSEC (ne_next cand) (ne_types cand))] []
                         (match k with nsecLookupNoData => RCODENoError | _ => RCODENXDomain end)
                         false true (ne_expiresAt cand))
      | (None, _) => None
      end
  end.

(** The owner of the first SOA of a section, or the zero name. *)
Definition soaOwnerOf (authority : list Record_) : Name :=
  match List.find (fun r => RType r =? rrtype.SOA) authority with Some r => r_name r | None => zeroName end.

Definition extractValidatedNSECs (authority : list Record_) (now : Z) : list nsecEntry :=
  let soaOwner := soaOwnerOf authority in
  if negb (IsValid soaOwner) then []
  else omap (fun r =>
    if negb (RType r =? rrtype.NSEC) then None
    else match asNSEC r with
         | None => None
         | Some nsec => Some (mkNsecEntry (r_name r) (nsec_next nsec) (nsec_types nsec) soaOwner
                                (now + r_ttl r) (canonicalKey (r_name r)))
         end) authority.

(** ** The NSEC3 index *)

Module nsec3.
Definition maxNSEC3Iterations : Z := 100.

Record nsec3Params := mkParams { p_alg : Z; p_iterations : Z; p_salt : bytes }.
Definition equal (p o : nsec3Params) : bool :=
  (p_alg p =? p_alg o) && (p_iterations p =? p_iterations o) && bool_decide (p_salt p = p_salt o).
Definition zeroParams : nsec3Params := mkParams 0 0 [].

Record nsec3Entry := mkNsec3Entry {
  n3e_ownerHash : bytes; n3e_nextHash : bytes; n3e_types : list Z; n3e_optOut : bool; n3e_expiresAt : Z }.
Record nsec3ZoneIndex := mkZone { z_params : nsec3Params; z_entries : list nsec3Entry }.
Record nsec3Index := mkIndex { zones : gmap bytes nsec3ZoneIndex; maxLen : Z }.

Definition newNSEC3Index : nsec3Index := mkIndex ∅ defaultAggressiveNSECCap.

Section Index.
Context `{MapRange}.

Definition totalLocked (zs : gmap bytes nsec3ZoneIndex) : Z :=
  fold_left (fun n (kz : bytes * nsec3ZoneIndex) => n + zlen (z_entries kz.2)) (mapRange zs) 0.

Definition sweepZone (now : Z) (z : nsec3ZoneIndex) : option nsec3ZoneIndex :=
  let kept := List.filter (fun e => now <? n3e_expiresAt e) (z_entries z) in
  if zlen kept =? 0 then None else Some (mkZone (z_params z) kept).
Definition sweepExpiredLocked (zs : gmap bytes nsec3ZoneIndex) (now : Z) : gmap bytes nsec3ZoneIndex :=
  omap (sweepZone now) zs.
Definition SweepExpired (i : nsec3Index) (now : Z) : nsec3Index := mkIndex (sweepExpiredLocked (zones i) now) (maxLen i).

(** The loops over the zones and their entries: the zone, the offset and the
    expiry of the soonest so far. *)
Fixpoint soonestEntry (k : bytes) (entries : list nsec3Entry) (j : Z) (acc : option (bytes * Z * Z)) : option (bytes * Z * Z) :=
  match entries with
  | [] => acc
  | e :: entries =>
      soonestEntry k entries (j + 1)
        (match acc with
         | None => Some (k, j, n3e_expiresAt e)
         | Some (_, _, at_) => if n3e_expiresAt e <? at_ then Some (k, j, n3e_expiresAt e) else acc
         end)
  end.
Definition evictSoonestLocked (zs : gmap bytes nsec3ZoneIndex) : gmap bytes nsec3ZoneIndex :=
  match fold_left (fun acc kz => soonestEntry kz.1 (z_entries kz.2) 0 acc) (mapRange zs) None with
  | None => zs
  | Some (k, idx, _) =>
      match zs !! k with
      | None => zs
      | Some z =>
          let entries := Delete_ (z_entries z) idx (idx + 1) in
          if zlen entries =? 0 then delete k zs else <[k := mkZone (z_params z) entries]> zs
      end
  end.

Definition find (entries : list nsec3Entry) (hash : bytes) : Z * bool :=
  BinarySearchFunc entries hash (fun x target => cmpBytes (n3e_ownerHash x) target).

(** [Insert].  [z] is a pointer the code keeps across the sweep: when the
    sweep drops the zone, the pointer designates a zone with no entries that
    is no longer in the index, and what is inserted there is lost. *)
Definition Insert (i : nsec3Index) (zoneApex : Name) (params : nsec3Params) (e : nsec3Entry) (now : Z) : res nsec3Index :=
  if negb (p_alg params =? NSEC3HashSHA1) || (maxNSEC3Iterations <? p_iterations params) then Ok i
  else
    let k := AppendWire zoneApex [] in
    let fresh := mkZone params [] in
    let '(z, zs) := match zones i !! k with
                    | Some z => if equal (z_params z) params then (z, zones i) else (fresh, <[k := fresh]> (zones i))
                    | None => (fresh, <[k := fresh]> (zones i))
                    end in
    let '(idx, found) := find (z_entries z) (n3e_ownerHash e) in
    if found then Ok (mkIndex (<[k := mkZone (z_params z) (<[Z.to_nat idx := e]> (z_entries z))]> zs) (maxLen i))
    else
      let full zs := (0 <? maxLen i) && (maxLen i <=? totalLocked zs) in
      let zs := if full zs then sweepExpiredLocked zs now else zs in
      if full zs then
        let zs := evictSoonestLocked zs in
        let z := default fresh (zs !! k) in
        let idx := fst (find (z_entries z) (n3e_ownerHash e)) in
        let? entries := Insert_ (z_entries z) idx e in
        Ok (mkIndex (<[k := mkZone (z_params z) entries]> zs) (maxLen i))
      else
        match zs !! k with
        | Some z => let? entries := Insert_ (z_entries z) idx e in
                    Ok (mkIndex (<[k := mkZone (z_params z) entries]> zs) (maxLen i))
        | None => let? _ := Insert_ [] idx e in Ok (mkIndex zs (maxLen i))
        end.
End Index.

Section Hashing.
Context `{Crypto}.

Definition nsec3HashOf (name : Name) (p : nsec3Params) : option bytes :=
  if negb (p_alg p =? NSEC3HashSHA1) || (maxNSEC3Iterations <? p_iterations p) then None
  else Some (Nat.iter (Z.to_nat (p_iterations p)) (fun h => sha1 (h ++ p_salt p)) (sha1 (AppendWire name [] ++ p_salt p))).

Definition matchHashLocked (z : nsec3ZoneIndex) (name : Name) (now : Z) : option nsec3Entry :=
  match nsec3HashOf name (z_params z) with
  | None => None
  | Some want =>
      let '(idx, found) := find (z_entries z) want in
      if negb found then None
      else match z_entries z !! Z.to_nat idx with
           | None => None
           | Some e => if negb (now <? n3e_expiresAt e) then None else Some e
           end
  end.

Definition coverHashLocked (z : nsec3ZoneIndex) (name : Name) (now : Z) (denyOptOut : bool) : option nsec3Entry :=
  match nsec3HashOf name (z_params z) with
  | None => None
  | Some target =>
      List.find (fun e => (now <? n3e_expiresAt e) && negb (denyOptOut && n3e_optOut e) &&
                          validatorbb.HashIntervalContains (n3e_ownerHash e) (n3e_nextHash e) target) (z_entries z)
  end.

Fixpoint longer_loop (fuel : nat) (n : Name) (encLabels : Z) : Name :=
  match fuel with
  | O => zeroName
  | S fuel =>
      if encLabels + 1 <? NumLabels n then
        match Parent n with
        | None => zeroName
        | Some p => if Equal n p then zeroName else longer_loop fuel p encLabels
        end
      else if negb (NumLabels n =? encLabels + 1) then zeroName
      else n
  end.
Definition oneLabelLonger (q encloser : Name) : Name := longer_loop (S (length (wire q))) q (NumLabels encloser).

Definition wildcardAt (encloser : Name) : Name :=
  match parseWildcard encloser with Ok wc => wc | Err _ => zeroName end.

Fixpoint encloser_loop (fuel : nat) (z : nsec3ZoneIndex) (q cur : Name) (now : Z) : option (list nsec3Entry) :=
  match fuel with
  | O => None
  | S fuel =>
      match matchHashLocked z cur now with
      | Some matchEntry =>
          let nextCloser := oneLabelLonger q cur in
          if negb (IsValid nextCloser) then None
          else match coverHashLocked z nextCloser now true with
          | None => None
          | Some ncEntry =>
              let wildcard := wildcardAt cur in
              if negb (IsValid wildcard) then None
              else match coverHashLocked z wildcard now true with
              | None => None
              | Some wcEntry => Some [matchEntry; ncEntry; wcEntry]
              end
          end
      | None =>
          match Parent cur with
          | None => None
          | Some p => if Equal cur p then None else encloser_loop fuel z q p now
          end
      end
  end.
Definition closestEncloserProofLocked (z : nsec3ZoneIndex) (q : Name) (now : Z) : option (list nsec3Entry) :=
  encloser_loop (S (length (wire q))) z q q now.

Definition Lookup (i : nsec3Index) (zoneApex q : Name) (qtype now : Z) : list nsec3Entry * nsec3Params * nsecLookupKind :=
  match zones i !! AppendWire zoneApex [] with
  | None => ([], zeroParams, nsecLookupNone)
  | Some z =>
      let nodata := match matchHashLocked z q now with
                    | Some entry => if negb (typeInBitmap (n3e_types entry) rrtype.CNAME) &&
                                       negb (typeInBitmap (n3e_types entry) qtype) then Some entry else None
                    | None => None
                    end in
      match nodata with
      | Some entry => ([entry], z_params z, nsecLookupNoData)
      | None => match closestEncloserProofLocked z q now with
                | Some proofs => (proofs, z_params z, nsecLookupNXDOMAIN)
                | None => ([], zeroParams, nsecLookupNone)
                end
      end
  end.

(** The deepest name at or above [cur] that has a zone in the index. *)
Fixpoint zone_loop (fuel : nat) (zs : gmap bytes nsec3ZoneIndex) (cur : Name) : Name :=
  match fuel with
  | O => zeroName
  | S fuel =>
      match zs !! AppendWire cur [] with
      | Some _ => cur
      | None => match Parent cur with
                | None => zeroName
                | Some p => if Equal cur p then zeroName else zone_loop fuel zs p
                end
      end
  end.

Definition nsec3OwnerName (ownerHash : bytes) (zone : Name) : Name :=
  match Parse (validatorbb.Base32HexEncode ownerHash ++ 46 :: String_ zone) with Ok n => n | Err _ => zeroName end.

(** The records of the proof, or [None] when one has no time left or cannot
    be built. *)
Fixpoint proofRecords (params : nsec3Params) (zone : Name) (later : Z) (entries : list nsec3Entry) : option (list Record_) :=
  match entries with
  | [] => Some []
  | e :: entries =>
      let ttl := timeSub (n3e_expiresAt e) later in
      if ttl <=? 0 then None
      else match NewNSEC3 (p_alg params) (if n3e_optOut e then 0x01 else 0) (p_iterations params) (p_salt params)
                   (n3e_nextHash e) (n3e_types e) with
           | Err _ => None
           | Ok n3 => match proofRecords params zone later entries with
                      | None => None
                      | Some rs => Some (NewRecord (nsec3OwnerName (n3e_ownerHash e) zone) ttl n3 :: rs)
                      end
           end
  end.

Definition earliestOf (entries : list nsec3Entry) : Z :=
  match entries with
  | [] => 0
  | e :: rest => fold_left (fun a e => if n3e_expiresAt e <? a then n3e_expiresAt e else a) rest (n3e_expiresAt e)
  end.

(** [later] is the reading of the clock behind [time.Until]. *)
Definition synthesiseFromNSEC3 (idx : option nsec3Index) (name : Name) (t now later : Z) : option Entry :=
  match idx with
  | None => None
  | Some i =>
      let zone := zone_loop (S (length (wire name))) (zones i) name in
      if negb (IsValid zone) then None
      else match Lookup i zone name t now, zones i !! AppendWire zone [] with
      | (_, _, nsecLookupNone), _ | _, None => None
      | (entries, _, k), Some zoneAuth =>
          match proofRecords (z_params zoneAuth) zone later entries with
          | None => None
          | Some authority =>
              Some (mkEntry [] authority [] (match k with nsecLookupNoData => RCODENoError | _ => RCODENXDomain end)
                      false true (earliestOf entries))
          end
      end
  end.
End Hashing.

Definition nsec3OwnerHashFromName (owner : Name) : res bytes :=
  match Labels owner with
  | [] => Ok []
  | l :: _ => validatorbb.Base32HexDecode (map (fun c => if (97 <=? c) && (c <=? 122) then c - 32 else c) l)
  end.

(** The loop over the authority section: the parameters and the entries so
    far; [None] when two records disagree on the parameters. *)
Fixpoint extract_loop (authority : list Record_) (now : Z) (params : nsec3Params) (entries : list nsec3Entry) :
    option (nsec3Params * list nsec3Entry) :=
  match authority with
  | [] => Some (params, entries)
  | r :: authority =>
      if negb (RType r =? rrtype.NSEC3) then extract_loop authority now params entries
      else match asNSEC3 r with
      | None => extract_loop authority now params entries
      | Some n3 =>
          let p := mkParams (n3_alg n3) (n3_iterations n3) (n3_salt n3) in
          if negb (zlen entries =? 0) && negb (equal params p) then None
          else
            let params := if zlen entries =? 0 then p else params in
            match nsec3OwnerHashFromName (r_name r) with
            | Err _ => extract_loop authority now params entries
            | Ok ownerHash =>
                extract_loop authority now params
                  (entries ++ [mkNsec3Entry ownerHash (n3_next n3) (n3_types n3)
                                 (negb (Z.land (n3_flags n3) 0x01 =? 0)) (now + r_ttl r)])
            end
      end
  end.
Definition extractValidatedNSEC3s (authority : list Record_) (now : Z) : Name * nsec3Params * list nsec3Entry :=
  let zoneApex := soaOwnerOf authority in
  if negb (IsValid zoneApex) then (zeroName, zeroParams, [])
  else match extract_loop authority now zeroParams [] with
       | None => (zeroName, zeroParams, [])
       | Some (params, entries) => (zoneApex, params, entries)
       end.
End nsec3.
