(* ===== verification/AggressiveSound.v ===== *)
(** * Aggressive use of validated denials: theorems about Aggressive.v

    Negative answers synthesised from cached NSEC3 records agree with the
    zones the records come from; those synthesised from NSEC records need not;
    and an insertion into a full index can panic. *)

From Stdlib Require Import Strings.String.
From S2P Require Import Prelude Name Wire RData RDataNew Message EdnsOptions Netip Compare Authoritative ZoneTree ZoneLookup Dnssec Signatures Denial DenialOrder DenialSound Walker NsecSound Handler RateLimit Cache Aggressive.
Open Scope Z_scope.
Open Scope list_scope.

(** ** Names *)

Lemma parse_escapeLabels_any ls w : Forall label_ok ls -> Forall printable ls ->
  parse_loop (concat (map escapeLabel ls)) w [] = Ok (w ++ encLabels ls, []) \/
  exists e, parse_loop (concat (map escapeLabel ls)) w [] = Err e.
Proof.
  intros Hok. revert w. induction Hok as [|l ls Hl _ IH]; intros w Hp.
  { left. by rewrite app_nil_r. }
  inversion Hp; subst. cbn [map concat]. unfold escapeLabel at 1 3. rewrite <- !app_assoc.
  rewrite parse_escapes by (done || destruct Hl; llia).
  cbn [app parse_loop]. change (46 =? 46) with true. cbv iota.
  destruct (flush w l) as [w'|e] eqn:Ef; [|right; by exists e].
  assert (w' = w ++ encLabel l) as ->.
  { unfold flush in Ef. repeat case_match; try done. injection Ef as <-. unfold encLabel.
    by rewrite to_u8_id by (destruct Hl; unfold u8; lia). }
  rewrite encLabels_cons, app_assoc. by apply IH.
Qed.

Lemma parseWildcard_spec e w : canonical e -> Forall printable (Labels e) -> parseWildcard e = Ok w -> wildcard e w.
Proof.
  intros (ls & Hw & Hf). rewrite (Labels_wf _ _ Hw). intros Hp. unfold parseWildcard, wildcard.
  rewrite (Labels_wf _ _ Hw). pose proof (wf_valid _ _ Hw) as Hv. pose proof (IsRoot_wf _ _ Hw) as Hr.
  unfold String_. rewrite Hv. cbn [negb]. destruct (IsRoot e) eqn:Er; [by vm_compute|].
  destruct Hw as (Ew & Hok & Hlen). rewrite Ew, string_loop_enc by done.
  assert (label_ok [42]) as Hstar by (split; [vm_compute; split; discriminate|by repeat constructor]).
  assert (printable [42]) as Hps by (repeat constructor; vm_compute; (split; discriminate) || discriminate || done).
  change (42 :: 46 :: concat (map escapeLabel ls)) with (concat (map escapeLabel ([42] :: ls))).
  unfold Parse. rewrite bool_decide_eq_false_2 by (cbn; discriminate).
  destruct (_ =? 0) eqn:E0; [done|].
  destruct (parse_escapeLabels_any ([42] :: ls) [] ltac:(by constructor) ltac:(by constructor)) as [->|[? ->]]; [|done].
  cbn [res_bind app]. change (0 <? zlen (@nil Z)) with false. cbn [res_bind].
  change (encLabels ([42] :: ls) ++ [0]) with (encName ([42] :: ls)).
  destruct (maxNameLen <? _) eqn:El; [done|]. bool_facts. intros [= <-].
  assert (wf_name (mkName (encName ([42] :: ls))) ([42] :: ls)) as Hwf by (split_and!; [done|by constructor|cbn [wire]; lia]).
  split; [|apply (Labels_wf _ _ Hwf)]. exists ([42] :: ls). split; [done|]. by constructor.
Qed.

Lemma longer_loop_spec fuel n k : canonical n -> IsValid (nsec3.longer_loop fuel n k) = true ->
  anc n (nsec3.longer_loop fuel n k) /\ NumLabels (nsec3.longer_loop fuel n k) = k + 1.
Proof.
  revert n. induction fuel as [|fuel IH]; intros n Hn; [done|]. cbn [nsec3.longer_loop].
  destruct (_ <? _) eqn:E.
  - destruct (Parent n) as [p|] eqn:Ep; [|done]. destruct (Equal n p); [done|].
    intros Hv. destruct (IH p (canonical_up _ _ Hn Ep) Hv) as [Ha ?]. split; [by eapply rtc_l|done].
  - destruct (negb _) eqn:E2; [done|]. bool_facts. intros _. split; [apply rtc_refl|done].
Qed.

Lemma oneLabelLonger_spec q e : canonical q -> anc q e -> IsValid (nsec3.oneLabelLonger q e) = true ->
  above q e /\ anc q (nsec3.oneLabelLonger q e) /\ up (nsec3.oneLabelLonger q e) e.
Proof.
  intros Hq He Hv. unfold nsec3.oneLabelLonger in *. destruct (longer_loop_spec _ _ _ Hq Hv) as [Ha Hn].
  assert (above q e) as Hab.
  { inversion He as [|? m ? Hm He']; subst; [|by exists m].
    pose proof (NumLabels_anc _ _ Hq Ha). lia. }
  split_and!; [done..|]. destruct (NextCloserName_spec q e Hq Hab) as (Hc & H1 & H2).
  rewrite (anc_same_depth q _ (validatorbb.NextCloserName q e) Hq Ha H1); [done|].
  rewrite Hn, (NumLabels_up _ _ Hc H2). done.
Qed.

Lemma zone_loop_spec fuel zs n : canonical n -> IsValid (nsec3.zone_loop fuel zs n) = true ->
  anc n (nsec3.zone_loop fuel zs n).
Proof.
  revert n. induction fuel as [|fuel IH]; intros n Hn; [done|]. cbn [nsec3.zone_loop].
  destruct (zs !! _); [intros _; apply rtc_refl|]. destruct (Parent n) as [p|] eqn:Ep; [|done].
  destruct (Equal n p); [done|]. intros Hv. eapply rtc_l; [exact Ep|]. apply IH; [by eapply canonical_up|done].
Qed.

(** ** Where the entries of the index come from *)

Inductive indexOp :=
  | OpInsert (apex : Name) (params : nsec3.nsec3Params) (e : nsec3.nsec3Entry) (now : Z)
  | OpSweep (now : Z).

Section Index.
Context `{MapRange}.

Definition indexStep (i : res nsec3.nsec3Index) (op : indexOp) : res nsec3.nsec3Index :=
  let? i := i in
  match op with
  | OpInsert apex params e now => nsec3.Insert i apex params e now
  | OpSweep now => Ok (nsec3.SweepExpired i now)
  end.
Definition indexRun (ops : list indexOp) : res nsec3.nsec3Index := fold_left indexStep ops (Ok nsec3.newNSEC3Index).

(** Every entry of a zone was inserted for that zone under its parameters. *)
Definition inserted (ops : list indexOp) (zs : gmap bytes nsec3.nsec3ZoneIndex) : Prop :=
  forall k z e, zs !! k = Some z -> e ∈ nsec3.z_entries z ->
    exists apex now, k = AppendWire apex [] /\ OpInsert apex (nsec3.z_params z) e now ∈ ops.

Lemma equal_eq p o : nsec3.equal p o = true -> p = o.
Proof.
  unfold nsec3.equal. intros E. bool_facts.
  match goal with X : bool_decide _ = true |- _ => apply bool_decide_eq_true in X end. destruct p, o; cbn in *; congruence.
Qed.

Lemma inserted_mono ops op zs : inserted ops zs -> inserted (ops ++ [op]) zs.
Proof. intros Hi k z e Hz He. destruct (Hi k z e Hz He) as (a & n & ? & ?). exists a, n. set_solver. Qed.

(** A zone replaced by one whose entries are old or new. *)
Lemma inserted_insert ops zs k z : inserted ops zs ->
  (forall e, e ∈ nsec3.z_entries z -> exists apex now, k = AppendWire apex [] /\ OpInsert apex (nsec3.z_params z) e now ∈ ops) ->
  inserted ops (<[k := z]> zs).
Proof.
  intros Hi Hz k' z' e [[<- <-]|[Hne Hl]]%lookup_insert_Some He; [by apply Hz|by eapply Hi].
Qed.

Lemma inserted_sweep ops zs now : inserted ops zs -> inserted ops (nsec3.sweepExpiredLocked zs now).
Proof.
  intros Hi k z e. unfold nsec3.sweepExpiredLocked. rewrite lookup_omap. destruct (zs !! k) as [z0|] eqn:E; [|done].
  cbn [mbind option_bind]. unfold nsec3.sweepZone. destruct (_ =? 0); [done|]. intros [= <-]. cbn [nsec3.z_entries nsec3.z_params].
  rewrite list_elem_of_In, filter_In, <- list_elem_of_In. intros [He _]. by eapply Hi.
Qed.

Lemma Delete_sub {E} (s : list E) i x : x ∈ Delete_ s i (i + 1) -> x ∈ s.
Proof.
  unfold Delete_. intros [Hx|Hx]%elem_of_app.
  - eapply subseteq_take; exact Hx.
  - eapply subseteq_drop; exact Hx.
Qed.
Lemma Insert_sub {E} (s s' : list E) i v x : Insert_ s i v = Ok s' -> x ∈ s' -> x = v \/ x ∈ s.
Proof.
  unfold Insert_. destruct (_ <? _); [done|]. intros [= <-] [Hx|[->|Hx]%elem_of_cons]%elem_of_app.
  - right. eapply subseteq_take; exact Hx.
  - by left.
  - right. eapply subseteq_drop; exact Hx.
Qed.

Lemma insert_sub {E} (s : list E) i v x : x ∈ <[i := v]> s -> x = v \/ x ∈ s.
Proof.
  intros [j Hj]%list_elem_of_lookup. apply list_lookup_insert_Some in Hj as [(_ & <- & _)|[_ Hj]]; [by left|right].
  by eapply list_elem_of_lookup_2.
Qed.

Lemma inserted_evict ops zs : inserted ops zs -> inserted ops (nsec3.evictSoonestLocked zs).
Proof.
  intros Hi. unfold nsec3.evictSoonestLocked. destruct (fold_left _ _ _) as [[[k idx] at_]|]; [|done].
  destruct (zs !! k) as [z|] eqn:E; [|done]. destruct (_ =? 0).
  - intros k' z' e [_ Hl]%lookup_delete_Some He. by eapply Hi.
  - apply inserted_insert; [done|]. cbn [nsec3.z_entries nsec3.z_params]. intros e He%Delete_sub. by eapply Hi.
Qed.

Lemma sweep_params zs now k z' : nsec3.sweepExpiredLocked zs now !! k = Some z' ->
  exists z, zs !! k = Some z /\ nsec3.z_params z' = nsec3.z_params z.
Proof.
  unfold nsec3.sweepExpiredLocked. rewrite lookup_omap. destruct (zs !! k) as [z|]; [|done].
  cbn [mbind option_bind]. unfold nsec3.sweepZone. destruct (_ =? 0); [done|]. intros [= <-]. by exists z.
Qed.
Lemma evict_params zs k z' : nsec3.evictSoonestLocked zs !! k = Some z' ->
  exists z, zs !! k = Some z /\ nsec3.z_params z' = nsec3.z_params z.
Proof.
  unfold nsec3.evictSoonestLocked. destruct (fold_left _ _ _) as [[[k0 idx] at_]|]; [|by eauto].
  destruct (zs !! k0) as [z|] eqn:E; [|by eauto]. destruct (_ =? 0).
  - intros [_ Hl]%lookup_delete_Some. by eauto.
  - intros [[<- <-]|[_ Hl]]%lookup_insert_Some; by eauto.
Qed.

(** The zones as they are before the new entry goes in: the bucket of the
    apex, if there, has the parameters of the entry. *)
Definition ready (ops : list indexOp) (k : bytes) (params : nsec3.nsec3Params) (zs : gmap bytes nsec3.nsec3ZoneIndex) : Prop :=
  inserted ops zs /\ forall z, zs !! k = Some z -> nsec3.z_params z = params.

Lemma ready_sweep ops k params zs now : ready ops k params zs -> ready ops k params (nsec3.sweepExpiredLocked zs now).
Proof. intros [Hi Hp]. split; [by apply inserted_sweep|]. intros z (z0 & Hz & ->)%sweep_params. by apply Hp. Qed.
Lemma ready_evict ops k params zs : ready ops k params zs -> ready ops k params (nsec3.evictSoonestLocked zs).
Proof. intros [Hi Hp]. split; [by apply inserted_evict|]. intros z (z0 & Hz & ->)%evict_params. by apply Hp. Qed.

Lemma ready_put ops apex params e now zs es : let k := AppendWire apex [] in
  OpInsert apex params e now ∈ ops -> ready ops k params zs ->
  (forall x, x ∈ es -> x = e \/ exists z, zs !! k = Some z /\ x ∈ nsec3.z_entries z) ->
  inserted ops (<[k := nsec3.mkZone params es]> zs).
Proof.
  intros k Hop [Hi Hp] He. apply inserted_insert; [done|]. cbn [nsec3.z_entries nsec3.z_params].
  intros x [->|(z & Hz & Hx)]%He; [by exists apex, now|]. rewrite <- (Hp z Hz). by apply (Hi k z).
Qed.

Lemma Insert_inserted ops i apex params e now i' : inserted ops (nsec3.zones i) ->
  nsec3.Insert i apex params e now = Ok i' -> inserted (ops ++ [OpInsert apex params e now]) (nsec3.zones i').
Proof.
  intros Hi%(inserted_mono _ (OpInsert apex params e now)). set (ops' := ops ++ _) in *. unfold nsec3.Insert.
  destruct (_ || _); [by intros [= <-]|]. set (k := AppendWire apex []). set (fresh := nsec3.mkZone params []).
  destruct (match nsec3.zones i !! k with Some z => _ | None => _ end) as [z zs] eqn:Ez.
  assert (OpInsert apex params e now ∈ ops') as Hop by set_solver.
  assert (ready ops' k params (<[k := fresh]> (nsec3.zones i))) as Hfresh.
  { split; [|by intros z0 [[_ <-]|[]]%lookup_insert_Some]. apply inserted_insert; [done|].
    intros x Hx. by apply elem_of_nil in Hx. }
  assert (ready ops' k params zs /\ zs !! k = Some z /\ nsec3.z_params z = params) as (Hzs & Hz & Hp).
  { destruct (nsec3.zones i !! k) as [z0|] eqn:E0; [destruct (nsec3.equal _ _) eqn:Eq|]; injection Ez as <- <-.
    - apply equal_eq in Eq. split_and!; [|done..]. split; [done|]. intros ? [= <-]%(eq_trans (eq_sym E0)). done.
    - split_and!; [done|apply lookup_insert_eq|done].
    - split_and!; [done|apply lookup_insert_eq|done]. }
  assert (forall zs0 z0 es idx, ready ops' k params zs0 -> (zs0 !! k = Some z0 \/ z0 = fresh) ->
    Insert_ (nsec3.z_entries z0) idx e = Ok es -> inserted ops' (<[k := nsec3.mkZone (nsec3.z_params z0) es]> zs0)) as Hins.
  { intros zs0 z0 es idx H0 Hl He. assert (nsec3.z_params z0 = params) as -> by (destruct Hl as [Hl| ->]; [by apply H0|done]).
    apply (ready_put ops' apex params e now); [done..|]. intros x Hx. destruct (Insert_sub _ _ _ _ _ He Hx) as [->|Hx']; [by left|].
    destruct Hl as [Hl| ->]; [by eauto|by apply elem_of_nil in Hx']. }
  destruct (nsec3.find _ _) as [idx found]. destruct found.
  { intros [= <-]. rewrite Hp. apply (ready_put ops' apex params e now); [done..|]. cbn [nsec3.zones].
    intros x [Hx|Hx]%insert_sub; [by left|right; eauto]. }
  match goal with |- context [if ?b then nsec3.sweepExpiredLocked zs now else zs] =>
    set (zs1 := if b then nsec3.sweepExpiredLocked zs now else zs) end.
  assert (ready ops' k params zs1) as H1 by (unfold zs1; destruct (_ && _); [by apply ready_sweep|done]).
  clearbody zs1.
  destruct (_ && _).
  - set (zs2 := nsec3.evictSoonestLocked zs1). assert (ready ops' k params zs2) as H2 by by apply ready_evict.
    intros E. apply res_bind_Ok in E as (es & He & [= <-]). eapply Hins; [done| |exact He].
    destruct (zs2 !! k); [by left|by right].
  - destruct (zs1 !! k) as [z1|] eqn:E1.
    + intros E. apply res_bind_Ok in E as (es & He & [= <-]). eapply Hins; [done|by left|exact He].
    + intros E. apply res_bind_Ok in E as (es & He & [= <-]). apply H1.
Qed.

Lemma indexRun_inserted ops i : indexRun ops = Ok i -> inserted ops (nsec3.zones i).
Proof.
  revert i. induction ops as [|op ops IH] using rev_ind; intros i.
  { intros [= <-] k z e Hz. change (nsec3.zones nsec3.newNSEC3Index) with (∅ : gmap bytes nsec3.nsec3ZoneIndex) in Hz. by rewrite lookup_empty in Hz. }
  unfold indexRun. rewrite fold_left_app. cbn [fold_left]. fold (indexRun ops).
  destruct (indexRun ops) as [i0|]; [|done]. specialize (IH i0 eq_refl). cbn [indexStep res_bind].
  destruct op as [apex params e now|now].
  - by apply Insert_inserted.
  - intros [= <-]. by apply inserted_mono, inserted_sweep.
Qed.
End Index.

(** ** Genuine entries *)

Section Genuine.
Context `{Crypto} (o : Name) (R : list Record_).

(** The entry is that of a name of the zone, with every type of the name in
    its bitmap, and (unless it opts out) no name of the zone hashes strictly
    between it and the next. *)
Record genuineEntry (params : nsec3.nsec3Params) (e : nsec3.nsec3Entry) : Prop := {
  ge_owner : exists n, exists_in o R n /\ nsec3.nsec3HashOf n params = Some (nsec3.n3e_ownerHash e) /\
    forall x, x ∈ owned R n -> typeInBitmap (nsec3.n3e_types e) (RType x) = true;
  ge_gap : nsec3.n3e_optOut e = false -> forall n hn, exists_in o R n -> nsec3.nsec3HashOf n params = Some hn ->
    validatorbb.HashIntervalContains (nsec3.n3e_ownerHash e) (nsec3.n3e_nextHash e) hn = false }.

(** No ancestor of the query name collides with a name of the zone. *)
Definition collisionFree (params : nsec3.nsec3Params) (q : Name) : Prop :=
  forall m n, anc q m -> exists_in o R n -> nsec3.nsec3HashOf m params = nsec3.nsec3HashOf n params -> m = n.

Context (z : nsec3.nsec3ZoneIndex) (Hgen : Forall (genuineEntry (nsec3.z_params z)) (nsec3.z_entries z)).

Lemma key_compare_eq a b : cmpBytes a b = 0 -> a = b.
Proof.
  revert b. induction a as [|x a IH]; intros [|y b]; cbn [cmpBytes]; try done.
  destruct (x <? y) eqn:E1; [done|]. destruct (y <? x) eqn:E2; [done|]. bool_facts. intros E%IH. f_equal; [lia|done].
Qed.

Lemma matchHash_spec m now e : nsec3.matchHashLocked z m now = Some e ->
  e ∈ nsec3.z_entries z /\ nsec3.nsec3HashOf m (nsec3.z_params z) = Some (nsec3.n3e_ownerHash e) /\ now < nsec3.n3e_expiresAt e.
Proof.
  unfold nsec3.matchHashLocked. destruct (nsec3.nsec3HashOf _ _) as [want|]; [|done].
  unfold nsec3.find, BinarySearchFunc. set (i := search_loop _ _ _ _ _).
  destruct (nsec3.z_entries z !! Z.to_nat i) as [x|] eqn:Ex; [|done].
  destruct (cmpBytes _ _ =? 0) eqn:Ec; [|done]. cbn [negb]. bool_facts. apply key_compare_eq in Ec.
  destruct (now <? _) eqn:En; [|done]. cbn [negb]. intros [= <-]. bool_facts.
  split_and!; [by eapply list_elem_of_lookup_2|congruence|done].
Qed.

Lemma coverHash_spec m now e : nsec3.coverHashLocked z m now true = Some e ->
  e ∈ nsec3.z_entries z /\ nsec3.n3e_optOut e = false /\ now < nsec3.n3e_expiresAt e /\
  exists h, nsec3.nsec3HashOf m (nsec3.z_params z) = Some h /\
    validatorbb.HashIntervalContains (nsec3.n3e_ownerHash e) (nsec3.n3e_nextHash e) h = true.
Proof.
  unfold nsec3.coverHashLocked. destruct (nsec3.nsec3HashOf _ _) as [h|] eqn:Eh; [|done].
  intros [He Hf]%find_some. rewrite !andb_true_iff, negb_true_iff in Hf. destruct Hf as [[Hn Ho] Hi]. cbn [andb] in Ho. bool_facts.
  split_and!; [by apply list_elem_of_In|done|done|]. by exists h.
Qed.

Lemma match_denotes m q now e : collisionFree (nsec3.z_params z) q -> anc q m -> nsec3.matchHashLocked z m now = Some e ->
  exists_in o R m /\ forall x, x ∈ owned R m -> typeInBitmap (nsec3.n3e_types e) (RType x) = true.
Proof.
  intros Hc Ha (He & Eh & _)%matchHash_spec. rewrite Forall_forall in Hgen.
  destruct (ge_owner _ _ (Hgen e He)) as (n & Hn & En & Ht).
  assert (m = n) as -> by (apply Hc; [done|done|congruence]). done.
Qed.

Lemma cover_denies m now e : nsec3.coverHashLocked z m now true = Some e -> ~ exists_in o R m.
Proof.
  intros (He & Ho & _ & h & Eh & Hi)%coverHash_spec Hm. rewrite Forall_forall in Hgen.
  pose proof (ge_gap _ _ (Hgen e He) Ho m h Hm Eh). congruence.
Qed.

Lemma encloser_loop_sound fuel q cur now es : canonical q -> Forall printable (Labels q) -> anc q cur ->
  Forall (rec_ok o) R -> collisionFree (nsec3.z_params z) q ->
  nsec3.encloser_loop fuel z q cur now = Some es ->
  ~ exists_in o R q /\ exists e, closest_encloser o R q e /\ forall w, wildcard e w -> owned R w = [].
Proof.
  intros Hq Hpr Ha HR Hc. revert cur Ha. induction fuel as [|fuel IH]; intros cur Ha; [done|]. cbn [nsec3.encloser_loop].
  destruct (nsec3.matchHashLocked z cur now) as [me|] eqn:Em.
  - destruct (negb (IsValid (nsec3.oneLabelLonger q cur))) eqn:Ev; [done|]. bool_facts.
    destruct (nsec3.coverHashLocked z (nsec3.oneLabelLonger q cur) now true) as [nc|] eqn:En; [|done].
    destruct (negb (IsValid (nsec3.wildcardAt cur))) eqn:Ew; [done|]. bool_facts.
    destruct (nsec3.coverHashLocked z (nsec3.wildcardAt cur) now true) as [we|] eqn:Ewc; [|done]. intros _.
    destruct (oneLabelLonger_spec q cur Hq Ha Ev) as (Hab & H1 & H2).
    destruct (match_denotes cur q now me Hc Ha Em) as [He _].
    destruct (closest_by_next_closer o R q cur _ Hq Hab He H1 H2 (cover_denies _ _ _ En)) as [Hce Hno].
    split; [done|]. exists cur. split; [done|]. intros w Hw. unfold nsec3.wildcardAt in *.
    destruct (parseWildcard cur) as [w'|] eqn:Epw; [|done].
    assert (canonical cur) as Hcc by by eapply canonical_anc.
    assert (Forall printable (Labels cur)) as Hpc.
    { destruct (anc_labels q cur Hq Ha) as [pre E]. rewrite E in Hpr. by apply Forall_app in Hpr as [_ ?]. }
    rewrite (wildcard_inj cur w w') by (done || by apply parseWildcard_spec).
    destruct (owned R w') eqn:Eo; [done|]. exfalso. eapply cover_denies; [exact Ewc|]. apply owned_exists_in; [done|congruence].
  - destruct (Parent cur) as [p|] eqn:Ep; [|done]. destruct (Equal cur p); [done|]. apply IH. by eapply rtc_r.
Qed.
End Genuine.

(** ** Synthesis from NSEC3 records *)

Lemma proofRecords_time params zone later entries rs : nsec3.proofRecords params zone later entries = Some rs ->
  Forall (fun e => later < nsec3.n3e_expiresAt e) entries.
Proof.
  revert rs. induction entries as [|e entries IH]; intros rs; cbn [nsec3.proofRecords]; [constructor|].
  destruct (_ <=? 0) eqn:E; [done|]. bool_facts. destruct (NewNSEC3 _ _ _ _ _ _); [|done].
  destruct (nsec3.proofRecords _ _ _ entries) as [rs'|]; [|done]. intros _. constructor; [|by eapply IH].
  unfold timeSub in E. lia.
Qed.
Lemma earliestOf_time later entries : entries <> [] -> Forall (fun e => later < nsec3.n3e_expiresAt e) entries ->
  later < nsec3.earliestOf entries.
Proof.
  destruct entries as [|e entries]; [done|]. intros _ [He Hs]%Forall_cons. cbn [nsec3.earliestOf].
  revert He. generalize (nsec3.n3e_expiresAt e). induction Hs as [|x entries Hx _ IH]; intros a Ha; [done|].
  cbn [fold_left]. apply IH. by destruct (_ <? _).
Qed.

Lemma AppendWire_inj n m : IsValid n = true -> IsValid m = true -> AppendWire n [] = AppendWire m [] -> n = m.
Proof. intros Hn Hm. unfold AppendWire. rewrite Hn, Hm. cbn [negb app]. apply Name_ext. Qed.

Lemma encloser_loop_nonempty `{Crypto} fuel z q cur now es : nsec3.encloser_loop fuel z q cur now = Some es ->
  es <> [] /\ nsec3.z_entries z <> [].
Proof.
  revert cur. induction fuel as [|fuel IH]; intros cur; cbn [nsec3.encloser_loop]; [done|].
  destruct (nsec3.matchHashLocked z cur now) as [me|] eqn:Em.
  - pose proof (matchHash_spec z cur now me Em) as (Hin & _). repeat case_match; try done. intros [= <-].
    split; [done|]. intros E. rewrite E in Hin. by apply elem_of_nil in Hin.
  - destruct (Parent cur) as [p|]; [|done]. destruct (Equal cur p); [done|]. apply IH.
Qed.

Lemma Lookup_sound `{Crypto} (o : Name) (R : list Record_) (i : nsec3.nsec3Index) (z : nsec3.nsec3ZoneIndex)
    (q : Name) (t now : Z) (es : list nsec3.nsec3Entry) (ps : nsec3.nsec3Params) (k : nsecLookupKind) :
  nsec3.zones i !! AppendWire o [] = Some z -> Forall (genuineEntry o R (nsec3.z_params z)) (nsec3.z_entries z) ->
  (nsec3.z_entries z <> [] -> collisionFree o R (nsec3.z_params z) q) -> Forall (rec_ok o) R ->
  canonical q -> Forall printable (Labels q) ->
  nsec3.Lookup i o q t now = (es, ps, k) ->
  match k with
  | nsecLookupNone => True
  | nsecLookupNXDOMAIN => es <> [] /\ ~ exists_in o R q /\
      ((forall d s, ~ dname_redirects R q d s) -> (forall ns, ~ delegated o R q ns) -> forall t', zone_denies o R t' q RCODENXDomain)
  | nsecLookupNoData => es <> [] /\ exists_in o R q /\ ((forall ns, ~ delegated o R q ns) -> zone_denies o R t q RCODENoError)
  end.
Proof.
  intros Hz Hg Hc HR Hq Hp. unfold nsec3.Lookup. rewrite Hz.
  destruct (nsec3.matchHashLocked z q now) as [me|] eqn:Em;
    [destruct (negb (typeInBitmap (nsec3.n3e_types me) rrtype.CNAME) && negb (typeInBitmap (nsec3.n3e_types me) t)) eqn:Eb|].
  1: { intros [= <- <- <-]. split; [done|]. pose proof (matchHash_spec z q now me Em) as (Hin & _).
       destruct (match_denotes o R z Hg q q now me (Hc ltac:(by intros E; rewrite E in Hin; apply elem_of_nil in Hin)) (rtc_refl _ _) Em)
         as [He Ht].
       split; [done|]. intros Hcut soa k. apply rfc_nodata; [done|]. apply nodata_exact; [done|]. intros x Hx. specialize (Ht x Hx). bool_facts. split; intros E; congruence. }
  all: unfold nsec3.closestEncloserProofLocked; destruct (nsec3.encloser_loop _ z q q now) as [es'|] eqn:Ee; intros [= <- <- <-]; try done.
  all: destruct (encloser_loop_nonempty _ _ _ _ _ _ Ee) as [Hne Hze].
  all: destruct (encloser_loop_sound o R z Hg _ q q now es' Hq Hp (rtc_refl _ _) HR (Hc Hze) Ee) as (Hno & e & Hce & Hw).
  all: split_and!; [done..|]; intros Hd Hcut t' soa k; apply rfc_nxdomain; [done|]; apply node_nxdomain; [done..|]; intros e' w' He' Hw';
    rewrite (closest_encloser_inj o R q e' e) in Hw' by done; by apply Hw.
Qed.


(** *** The sample zone's chain, cached *)
Module CachedChain.
#[local] Existing Instance plainCrypto.
Import Nsec3Sample.
#[export] Instance inKeyOrder : MapRange := {| mapRange _ _ _ _ := map_to_list; mapRange_perm _ _ _ _ m := reflexivity _ |}.
Definition params : nsec3.nsec3Params := nsec3.mkParams NSEC3HashSHA1 0 [].
Definition entry (n next : Name) (types : list Z) : nsec3.nsec3Entry :=
  nsec3.mkNsec3Entry (wire n) (wire next) types false (60 * Second).
Definition ops : list indexOp :=
  [OpInsert zone params (entry zone host [rrtype.SOA]) 0; OpSweep Second; OpInsert zone params (entry host zone [rrtype.A]) Second].
(** They are what the resolver extracts from a response. *)
Lemma extracted : nsec3.extractValidatedNSEC3s (soa :: chain) 0 =
  (zone, params, [entry zone host [rrtype.SOA]; entry host zone [rrtype.A]]).
Proof. vm_compute. reflexivity. Qed.
Definition data (o : Name) : list Record_ := if bool_decide (o = zone) then R else [].
Lemma data_zone : data zone = R.
Proof. unfold data. by rewrite bool_decide_eq_true_2. Qed.

Lemma hashOf n : canonical n -> nsec3.nsec3HashOf n params = Some (wire n).
Proof. intros Hn. cbn. rewrite app_nil_r. f_equal. by apply AppendWire_valid, canonical_valid. Qed.

Lemma entry_genuine n next types : (n = zone \/ n = host) -> exists_in zone R n ->
  forallb (fun x => negb (Equal (r_name x) n) || typeInBitmap types (RType x)) R = true ->
  validatorbb.HashIntervalContains (wire n) (wire next) (wire zone) = false ->
  validatorbb.HashIntervalContains (wire n) (wire next) (wire host) = false ->
  genuineEntry zone R params (entry n next types).
Proof.
  intros Hn He Ht H1 H2. assert (canonical n) as Cn by (destruct Hn as [-> | ->]; auto using zone_canonical, host_canonical). split.
  - exists n. rewrite hashOf by done. split_and!; [done..|]. intros x [Hx Ex]%elem_of_owned.
    rewrite forallb_forall in Ht. apply list_elem_of_In in Hx. specialize (Ht x Hx). rewrite Ex, Equal_refl in Ht. done.
  - intros _ m hm Hm. cbn [nsec3.n3e_ownerHash nsec3.n3e_nextHash entry].
    destruct (names m Hm) as [-> | ->]; rewrite hashOf by auto using zone_canonical, host_canonical; by intros [= <-].
Qed.
Lemma no_collision : collisionFree zone R params q.
Proof.
  intros m n Hm Hn E. assert (canonical m) as Cm by (eapply canonical_anc; [apply q_canonical|done]).
  assert (canonical n) as Cn by (destruct (names n Hn) as [-> | ->]; auto using zone_canonical, host_canonical).
  rewrite !hashOf in E by done. injection E as E. by apply Name_ext.
Qed.
Lemma ops_ok apex ps x at_ : OpInsert apex ps x at_ ∈ ops ->
  canonical apex /\ genuineEntry apex (data apex) ps x /\ collisionFree apex (data apex) ps q.
Proof.
  assert (exists_in zone R zone) as Hz by (split; [apply rtc_refl|]; exists soa; split; [left|apply rtc_refl]).
  assert (exists_in zone R host) as Hh.
  { split; [apply (anc_nm [[97]] [SigSample.example]); reflexivity|]. eexists. split; [right; left|apply rtc_refl]. }
  intros Hop. repeat (apply elem_of_cons in Hop as [E|Hop]; [|try by apply elem_of_nil in Hop]); simplify_eq;
    rewrite data_zone; (split_and!; [apply zone_canonical| |apply no_collision]);
    apply entry_genuine; auto; vm_compute; reflexivity.
Qed.
End CachedChain.


(** A zone with a delegation at [b.example]: from the NSEC3 records of its apex
    and of the cut, a name in the child zone is denied, and the cut is said to
    have no address, where the zone refers to the child. *)
Module CachedCut.
#[local] Existing Instance plainCrypto.
Definition entries : list nsec3.nsec3Entry :=
  [CachedChain.entry DelegWorld.zone DelegWorld.cut [rrtype.SOA]; CachedChain.entry DelegWorld.cut DelegWorld.zone [rrtype.NS]].
Definition index : res nsec3.nsec3Index :=
  indexRun (H := CachedChain.inKeyOrder) (map (fun x => OpInsert DelegWorld.zone CachedChain.params x 0) entries).
Definition answer (q : Name) : option Z :=
  match index with Ok i => option_map e_rcode (nsec3.synthesiseFromNSEC3 (H := plainCrypto) (Some i) q rrtype.A Second Second) | Err _ => None end.
End CachedCut.
Lemma nsec3_below_delegation :
  CachedCut.answer DelegWorld.below = Some RCODENXDomain /\ CachedCut.answer DelegWorld.cut = Some RCODENoError /\
  delegated DelegWorld.zone DelegWorld.R DelegWorld.below [DelegWorld.ns].
Proof. split; [vm_compute; reflexivity|]. split; [vm_compute; reflexivity|]. apply nsec_below_delegation. Qed.

(** ** Synthesis from NSEC records *)

Definition nsecRun (entries : list nsecEntry) : res nsecIndex :=
  fold_left (fun i e => let? i := i in Insert i e 0) entries (Ok newNSECIndex).

(** Of the records [R] of a zone, genuine NSEC records [nsecs] with the SOA
    record of a response make the resolver synthesise a validated answer with
    this code. *)
Definition synthesises (R : list Record_) (soa : Record_) (nsecs : list Record_) (q : Name) (t rcode : Z) : Prop :=
  genuine_set R nsecs /\
  match nsecRun (extractValidatedNSECs (soa :: nsecs) 0) with
  | Ok i => match synthesiseFromNSEC (Some i) q t Second Second with
            | Some e => e_rcode e = rcode /\ e_ad e = true
            | None => False
            end
  | Err _ => False
  end.

(** [genuine] for the records of a concrete zone. *)
Definition genuineb (R : list Record_) (r : Record_) : bool :=
  match asNSEC r with
  | None => true
  | Some ns =>
      (0 <? zlen (owned R (r_name r))) && (0 <? zlen (owned R (nsec_next ns))) &&
      forallb (fun x => bitmapHas (nsec_types ns) (RType x)) (owned R (r_name r)) &&
      forallb (fun x => negb (validatorbb.NameCoveredBy (r_name x) (r_name r) (nsec_next ns))) R
  end.
Lemma genuineb_spec R nsecs : forallb (genuineb R) nsecs = true -> genuine_set R nsecs.
Proof.
  intros Hb r ns Hr En. rewrite forallb_forall in Hb. apply list_elem_of_In in Hr. specialize (Hb r Hr).
  unfold genuineb in Hb. rewrite En in Hb. rewrite !andb_true_iff, !forallb_forall in Hb. destruct Hb as [[[H1 H2] H3] H4].
  bool_facts. split.
  - intros E. rewrite E in H1. done.
  - intros E. rewrite E in H2. done.
  - intros x Hx%list_elem_of_In. by apply H3.
  - intros n Hn. destruct (owned R n) as [|x l] eqn:E; [done|].
    assert (x ∈ owned R n) as Hx by (rewrite E; left). apply elem_of_owned in Hx as [Hx <-].
    apply list_elem_of_In in Hx. specialize (H4 x Hx). by apply negb_true_iff in H4.
Qed.

Module NsecZones.
Definition parsed (s : string) : Name := match Parse (str s) with Ok n => n | Err _ => zeroName end.
Definition rr (n : string) (rd : RData) : Record_ := NewRecord (parsed n) (60 * Second) rd.
Definition addr : RData := RD_A (Addr4 [192; 0; 2; 1]).
Definition soa : Record_ := rr "example." (RD_SOA (parsed "example.") (parsed "example.") 1 Second Second Second Second).
Definition nsec (n next : string) (types : list Z) : Record_ := rr n (RD_NSEC (parsed next) types).
Definition index (R : list Record_) : zoneIndex.t := buildIndex (mkZone (parsed "example.") R) soa.
(** What the zone's own server returns: the AA bit, the answer and the authority section. *)
Definition served (R : list Record_) (q : string) (t : Z) : res (bool * list Record_ * list Record_) :=
  let? r := zoneIndex.lookup_ (index R) (parsed q) t in
  Ok (zoneIndex.l_aa r, zoneIndex.l_answer r, zoneIndex.l_authority r).

(** The names b, ccc and dd; the NSEC records of the apex and of b. *)
Definition lengths : list Record_ := [soa; rr "b.example." addr; rr "ccc.example." addr; rr "dd.example." addr].
Definition lengths_nsecs : list Record_ :=
  [nsec "example." "b.example." [rrtype.SOA]; nsec "b.example." "ccc.example." [rrtype.A]].
(** A wildcard below b. *)
Definition wild : list Record_ := [soa; rr "*.b.example." addr].
Definition wild_nsecs : list Record_ :=
  [nsec "example." "*.b.example." [rrtype.SOA]; nsec "*.b.example." "example." [rrtype.A]].
(** A delegation at b. *)
Definition cut : list Record_ := [soa; rr "b.example." (RD_NS (parsed "ns.other."))].
Definition cut_nsecs : list Record_ :=
  [nsec "example." "b.example." [rrtype.SOA]; nsec "b.example." "example." [rrtype.NS]].
End NsecZones.

(** C39. Synthesis from cached NSEC records is not sound: from genuine records
    of a zone the resolver answers NXDOMAIN with the AD bit for a name whose
    address the zone's server returns (the index sorts labels by length
    first), for a name that a wildcard of the zone answers (denial of any
    wildcard above the name is accepted), and for names in a child zone that
    the zone delegates; and it answers that the delegated name has no data. *)
Theorem nsec_synthesis_unsound :
  (synthesises NsecZones.lengths NsecZones.soa NsecZones.lengths_nsecs (NsecZones.parsed "dd.example.") rrtype.A RCODENXDomain /\
   NsecZones.served NsecZones.lengths "dd.example." rrtype.A = Ok (true, [NsecZones.rr "dd.example." NsecZones.addr], [])) /\
  (synthesises NsecZones.wild NsecZones.soa NsecZones.wild_nsecs (NsecZones.parsed "x.b.example.") rrtype.A RCODENXDomain /\
   NsecZones.served NsecZones.wild "x.b.example." rrtype.A = Ok (true, [NsecZones.rr "x.b.example." NsecZones.addr], [])) /\
  (synthesises NsecZones.cut NsecZones.soa NsecZones.cut_nsecs (NsecZones.parsed "www.b.example.") rrtype.A RCODENXDomain /\
   synthesises NsecZones.cut NsecZones.soa NsecZones.cut_nsecs (NsecZones.parsed "b.example.") rrtype.A RCODENoError /\
   NsecZones.served NsecZones.cut "www.b.example." rrtype.A = Ok (false, [], [NsecZones.rr "b.example." (RD_NS (NsecZones.parsed "ns.other."))]) /\
   NsecZones.served NsecZones.cut "b.example." rrtype.A = Ok (false, [], [NsecZones.rr "b.example." (RD_NS (NsecZones.parsed "ns.other."))])).
Proof.
  split_and!; lazymatch goal with
  | |- synthesises _ _ _ _ _ _ => split; [apply genuineb_spec; vm_compute; reflexivity|vm_compute; split; reflexivity]
  | |- _ => vm_compute; reflexivity
  end.
Qed.

(** ** Insertion into a full index *)

Lemma search_loop_all {E} (x : list E) below fuel i j : Forall (fun e => below e = true) x ->
  0 <= i <= j -> j <= zlen x -> j - i <= Z.of_nat fuel -> search_loop fuel x below i j = j.
Proof.
  intros Hb. revert i. induction fuel as [|fuel IH]; intros i Hij Hj Hf; cbn [search_loop]; [lia|].
  destruct (i <? j) eqn:Eij; bool_facts; [|lia]. set (h := (i + j) / 2). assert (i <= h < j) as Hh by (unfold h; elia).
  destruct (x !! Z.to_nat h) as [e|] eqn:Ex.
  - rewrite Forall_forall in Hb. rewrite (Hb e) by by eapply list_elem_of_lookup_2. apply IH; lia.
  - apply lookup_ge_None in Ex. unfold zlen in Hj. lia.
Qed.

(** The offset found before the sweep of a full index is used after it: a
    record that sorts after all the entries of a full index whose entries have
    all expired makes the insertion panic. *)
Theorem nsec_insert_panics (i : nsecIndex) (e : nsecEntry) (now : Z) :
  0 < ni_maxLen i -> zlen (ni_entries i) = ni_maxLen i -> Forall (fun x => ne_expiresAt x <= now) (ni_entries i) ->
  Forall (fun x => cmpBytes (ne_canonicalKey x) (ne_canonicalKey e) < 0) (ni_entries i) ->
  Insert i e now = Err Panic.
Proof.
  intros Hm Hl Hx Hk. unfold Insert, findByOwnerLocked, BinarySearchFunc. rewrite search_loop_all.
  - rewrite (proj2 (lookup_ge_None (ni_entries i) (Z.to_nat (zlen (ni_entries i))))) by (unfold zlen; lia).
    rewrite (proj2 (Z.ltb_lt _ _) Hm). cbn [andb]. rewrite (proj2 (Z.leb_le (ni_maxLen i) (zlen (ni_entries i)))) by lia.
    assert (sweepExpiredLocked (ni_entries i) now = []) as ->.
    { clear Hl Hk. unfold sweepExpiredLocked. induction Hx as [|x l Hx _ IH]; [done|]. cbn [List.filter].
      by rewrite (proj2 (Z.ltb_ge _ _) Hx). }
    rewrite (proj2 (Z.leb_gt (ni_maxLen i) (zlen (@nil nsecEntry)))) by (rewrite zlen_nil; lia).
    unfold Insert_. rewrite (proj2 (Z.ltb_lt (zlen (@nil nsecEntry)) (zlen (ni_entries i)))) by (rewrite Hl, zlen_nil; lia). done.
  - eapply Forall_impl; [exact Hk|]. intros x Hxk. by apply Z.ltb_lt.
  - pose proof (zlen_nonneg (ni_entries i)). lia.
  - lia.
  - unfold zlen. lia.
Qed.

Lemma nsec_insert_panics_witness :
  let filler k := mkNsecEntry Root Root [] Root Second [1; k / 256; k mod 256; 0] in
  Insert (mkNsecIndex (map filler (seqZ 0 4096)) defaultAggressiveNSECCap)
    (mkNsecEntry Root Root [] Root (90 * Second) [2; 98; 98; 0]) (60 * Second) = Err Panic.
Proof.
  intros filler. apply nsec_insert_panics; cbn [ni_maxLen ni_entries].
  - done.
  - unfold zlen. rewrite length_map, length_seqZ. done.
  - apply Forall_fmap, Forall_true. intros k. cbn. unfold Second. lia.
  - apply Forall_fmap, Forall_true. intros k. reflexivity.
Defined.
