(* ===== verification/Recursive.v ===== *)
(** * The recursive resolver (src/recursive/recursive.go, resolver.go,
      priming.go, roothints.go, server_stats.go, upstream_ratelimit.go,
      option.go)

    What a resolution does to the state it shares with others -- the cache,
    the statistics of servers, the sets of calls in flight and of name servers
    being looked up, the indexes of denials -- and to the network is an
    [action]; a resolution is a tree of actions, [prog], in which each action
    is followed by what the resolver does for each of its possible results.
    Where the code runs two goroutines and waits for both, the tree has both
    ([Par]).  The tree does not say in which order concurrent resolutions take
    their steps: theorems about all branches of a tree hold for all of them.
    [run] executes a tree alone, on a concrete state.  The list of servers
    inside an [AllServersLameError] is for diagnosis and is left out; contexts
    appear as the results of the actions that observe them. *)

From Stdlib Require Import QArith Strings.String.
From S2P Require Import Prelude Name Wire RData RDataNew Message EdnsOptions Netip Compare Authoritative Dnssec Denial Handler RateLimit Cookies Exchanger Stub Cache Aggressive.
Open Scope Z_scope.
Open Scope list_scope.

Module recursive.

(** ** server_stats.go *)

Record Score := NewScore { rtt : Z; failureStreak : Z }.
Record statEntry := mkStat { s_rtt : Z; s_streak : Z; s_lastUsed : Z }.

Definition maxMemoryStatEntries : Z := 16384.
Definition memoryStatsEvictBatch : Z := 64.

Section Stats.
Context `{MapRange}.

(** The offset of the youngest victim: the first of those with the latest time. *)
Fixpoint youngest_loop (victims : list (AddrPort * Z)) (i best : Z) (t : Z) : Z :=
  match victims with
  | [] => best
  | v :: victims => if t <? v.2 then youngest_loop victims (i + 1) i v.2 else youngest_loop victims (i + 1) best t
  end.
Definition youngestIdx (victims : list (AddrPort * Z)) : Z :=
  match victims with [] => 0 | v :: rest => youngest_loop rest 1 0 v.2 end.

Definition victimStep (n : Z) (victims : list (AddrPort * Z)) (kv : AddrPort * statEntry) : list (AddrPort * Z) :=
  let o := (kv.1, s_lastUsed kv.2) in
  if zlen victims <? n then victims ++ [o]
  else match victims !! Z.to_nat (youngestIdx victims) with
       | Some y => if s_lastUsed kv.2 <? y.2 then <[Z.to_nat (youngestIdx victims) := o]> victims else victims
       | None => victims
       end.

Definition evictOldestLocked (m : gmap AddrPort statEntry) (n : Z) : gmap AddrPort statEntry :=
  if (n <=? 0) || (Z.of_nat (size m) =? 0) then m
  else
    let n := if Z.of_nat (size m) <? n then Z.of_nat (size m) else n in
    let victims := fold_left (victimStep n) (mapRange m) [] in
    fold_left (fun m o => delete o.1 m) victims m.

(** [now] is the reading of [time.Now()]. *)
Definition Record_ (m : gmap AddrPort statEntry) (server : AddrPort) (rtt : Z) (ok : bool) (now : Z) : gmap AddrPort statEntry :=
  let '(e, m) :=
    match m !! server with
    | Some e => (e, m)
    | None => (mkStat 0 0 zeroTime,
               if maxMemoryStatEntries <=? Z.of_nat (size m) then evictOldestLocked m memoryStatsEvictBatch else m)
    end in
  let '(r, s) := if ok then (if s_rtt e =? 0 then rtt else Z.quot (s_rtt e * 7 + rtt) 8, 0) else (s_rtt e, s_streak e + 1) in
  <[server := mkStat r s now]> m.
End Stats.

Definition Score_ (m : gmap AddrPort statEntry) (server : AddrPort) : Score :=
  match m !! server with None => NewScore 0 0 | Some e => NewScore (s_rtt e) (s_streak e) end.

Definition rankLess (si sj : Score) : bool :=
  if negb (failureStreak si =? failureStreak sj) then failureStreak si <? failureStreak sj
  else if (rtt si =? 0) && negb (rtt sj =? 0) then true
  else if (rtt sj =? 0) && negb (rtt si =? 0) then false
  else rtt si <? rtt sj.

(** [sort.SliceStable]: the sorted arrangement in which equal elements keep
    their order. *)
Fixpoint stableInsert {A} (less : A -> A -> bool) (x : A) (l : list A) : list A :=
  match l with
  | [] => [x]
  | y :: l => if less x y then x :: y :: l else y :: stableInsert less x l
  end.
Definition SliceStable {A} (less : A -> A -> bool) (l : list A) : list A :=
  fold_left (fun acc x => stableInsert less x acc) l [].

Definition rankServers (score : AddrPort -> Score) (servers : list AddrPort) : list AddrPort :=
  SliceStable (fun i j => rankLess (score i) (score j)) servers.

(** ** upstream_ratelimit.go *)

Definition defaultUpstreamMaxKeys : Z := 16384.
Record upstreamLimiter := mkUpstream { u_qps : Q; u_burst : Q; u_maxKeys : Z }.
Record tokenBucket := mkToken { t_tokens : Q; t_lastRefill : Z }.

Section Limiter.
Context `{Float64} `{MapRange}.

Definition newUpstreamLimiter (qps burst : Q) : upstreamLimiter := mkUpstream qps burst defaultUpstreamMaxKeys.

Definition evictUpstream (l : upstreamLimiter) (m : gmap AddrPort tokenBucket) (now : Z) : gmap AddrPort tokenBucket :=
  let m := if flt 0 (u_qps l)
           then let threshold := now - idleFor (u_burst l) (u_qps l) in
                filter (fun kv => negb (t_lastRefill kv.2 <? threshold)) m
           else m in
  if (u_maxKeys l <=? 0) || (Z.of_nat (size m) <? u_maxKeys l) then m
  else match oldest t_lastRefill (mapRange m) with None => m | Some (k, _) => delete k m end.

(** [Take]; a nil limiter is [None]. *)
Definition Take (l : option upstreamLimiter) (m : gmap AddrPort tokenBucket) (addr : AddrPort) (now : Z) :
    bool * gmap AddrPort tokenBucket :=
  match l with
  | None => (true, m)
  | Some l =>
      if fle (u_qps l) 0 then (true, m)
      else
        let '(b, m) := match m !! addr with
                       | Some b => (b, m)
                       | None => (mkToken (u_burst l) now,
                                  if (0 <? u_maxKeys l) && (u_maxKeys l <=? Z.of_nat (size m)) then evictUpstream l m now else m)
                       end in
        let elapsed := Seconds (timeSub now (t_lastRefill b)) in
        let b := if flt 0 elapsed
                 then let maxElapsed := fdiv (u_burst l) (u_qps l) in
                      let elapsed := if flt maxElapsed elapsed then maxElapsed else elapsed in
                      mkToken (refill (u_burst l) (u_qps l) (t_tokens b) elapsed) now
                 else b in
        if flt (t_tokens b) 1 then (false, <[addr := b]> m)
        else (true, <[addr := mkToken (fsub (t_tokens b) 1) (t_lastRefill b)]> m)
  end.
End Limiter.

(** ** Helpers of recursive.go *)

Definition inBailiwick (ancestor descendant : Name) : bool := inBailiwickName ancestor descendant.

Definition recordsAt (records : list Message.Record_) (name : Name) : list Message.Record_ :=
  List.filter (fun r => Equal (r_name r) name) records.

Fixpoint minimised_loop (fuel : nat) (n target : Name) (encLabels : Z) : Name :=
  match fuel with
  | O => target
  | S fuel =>
      if encLabels + 1 <? NumLabels n then
        match Parent n with
        | None => target
        | Some p => if Equal n p then target else minimised_loop fuel p target encLabels
        end
      else n
  end.
Definition minimisedQName (closestZone target : Name) : Name :=
  minimised_loop (S (length (wire target))) target target (NumLabels closestZone).

Definition referralZone (resp : Message) : Name :=
  match List.find (fun auth => RType auth =? rrtype.NS) (authorities resp) with Some auth => r_name auth | None => zeroName end.

(** [netip.AddrPortFrom(a.Addr(), 53)] of an address record *)
Definition addrOf (r : Message.Record_) : option AddrPort :=
  match r_rd r with
  | Some (RD_A a) => Some (mkAddrPort a 53)
  | Some (RD_AAAA a) => Some (mkAddrPort a 53)
  | _ => None
  end.
Definition addrsOf4 (records : list Message.Record_) : list AddrPort :=
  omap (fun r => match r_rd r with Some (RD_A a) => Some (mkAddrPort a 53) | _ => None end) records.
Definition addrsOf6 (records : list Message.Record_) : list AddrPort :=
  omap (fun r => match r_rd r with Some (RD_AAAA a) => Some (mkAddrPort a 53) | _ => None end) records.

Definition glueFor (target : Name) (additional : list Message.Record_) (zone : Name) : list AddrPort :=
  omap (fun add =>
    if negb (Equal (r_name add) target) then None
    else if IsValid zone && negb (inBailiwick zone (r_name add)) then None
    else addrOf add) additional.

Definition hasAnswerFor (resp : Message) (name : Name) (t : Z) : bool :=
  existsb (fun rec => ((RType rec =? t) && Equal (r_name rec) name) ||
                      ((RType rec =? rrtype.CNAME) && Equal (r_name rec) name)) (answers resp).

Fixpoint pickCNAMETarget (records : list Message.Record_) (owner : Name) : option Name :=
  match records with
  | [] => None
  | r :: records =>
      if negb (RType r =? rrtype.CNAME) then pickCNAMETarget records owner
      else if negb (Equal (r_name r) owner) then pickCNAMETarget records owner
      else match asCNAME r with None => pickCNAMETarget records owner | Some c => Some c end
  end.

Definition hasTypeAt (records : list Message.Record_) (owner : Name) (t : Z) : bool :=
  existsb (fun r => (RType r =? t) && Equal (r_name r) owner) records.

Definition removeServer (servers : list AddrPort) (target : AddrPort) : list AddrPort :=
  List.filter (fun s => negb (bool_decide (s = target))) servers.

Definition isDNSSECDenialType (t : Z) : bool := (t =? rrtype.NSEC) || (t =? rrtype.NSEC3) || (t =? rrtype.RRSIG).

(** The names reached from [qname] by the CNAMEs of the answer section: one
    pass over the section, and the passes until one adds nothing. *)
Definition chainStep (st : gset bytes * bool) (r : Message.Record_) : gset bytes * bool :=
  let '(chain, grew) := st in
  if negb (RType r =? rrtype.CNAME) then (chain, grew)
  else if negb (bool_decide (nameKey (r_name r) ∈ chain)) then (chain, grew)
  else match asCNAME r with
       | None => (chain, grew)
       | Some target => if bool_decide (nameKey target ∈ chain) then (chain, grew) else ({[nameKey target]} ∪ chain, true)
       end.
Fixpoint chain_loop (fuel : nat) (records : list Message.Record_) (chain : gset bytes) : gset bytes :=
  match fuel with
  | O => chain
  | S fuel => let '(chain, grew) := fold_left chainStep records (chain, false) in
              if negb grew then chain else chain_loop fuel records chain
  end.
Definition cnameChain (qname : Name) (records : list Message.Record_) : gset bytes :=
  chain_loop (S (length records)) records {[nameKey qname]}.

Definition deepestAncestor (authority : list Message.Record_) (qname : Name) : Name :=
  fold_left (fun best r =>
    if negb (inBailiwick (r_name r) qname) then best
    else if negb (IsValid best) || (WireLen best <? WireLen (r_name r)) then r_name r else best) authority zeroName.

Definition bailiwickFilter (qname : Name) (resp : Message) :
    list Message.Record_ * list Message.Record_ * list Message.Record_ :=
  let chain := cnameChain qname (answers resp) in
  let answers_ := List.filter (fun r => bool_decide (nameKey (r_name r) ∈ chain)) (answers resp) in
  let soaOwner := soaOwnerOf (authorities resp) in
  let soaOwner := if IsValid soaOwner && negb (inBailiwick soaOwner qname) then zeroName else soaOwner in
  let soaOwner := if IsRoot soaOwner && negb (IsRoot qname) then zeroName else soaOwner in
  let authority := List.filter (fun r =>
    if IsRoot (r_name r) && negb (IsRoot qname) then false
    else inBailiwick (r_name r) qname ||
         (IsValid soaOwner && isDNSSECDenialType (RType r) && inBailiwick soaOwner (r_name r))) (authorities resp) in
  let zoneCut := deepestAncestor authority qname in
  let referenced : list bytes := omap (fun r => nameKey <$> asCNAME r) answers_ ++ omap (fun r => nameKey <$> asNS r) authority in
  let additional := List.filter (fun r =>
    if RType r =? rrtype.OPT then true
    else if negb (bool_decide (nameKey (r_name r) ∈ referenced)) then false
    else if IsValid zoneCut && negb (inBailiwick zoneCut (r_name r)) then false
    else true) (additionals resp) in
  (answers_, authority, additional).

Fixpoint negativeCacheTTL (authority : list Message.Record_) : Z :=
  match authority with
  | [] => 0
  | r :: authority =>
      if negb (RType r =? rrtype.SOA) then negativeCacheTTL authority
      else match asSOA r with
           | Some (RD_SOA _ _ _ _ _ _ minimum) => if r_ttl r <? minimum then r_ttl r else minimum
           | _ => negativeCacheTTL authority
           end
  end.

(** ** Configuration (option.go, New) *)

Inductive Option_ :=
  | OptRoots (addrs : list AddrPort) | OptCache | OptServerStats | OptMaxIterations (n : Z) | OptMaxDepth (n : Z)
  | OptMaxCNAMEDepth (n : Z) | OptQueryTimeout (d : Z) | OptValidator (present : bool) | OptDialer
  | OptResolveBudget (d : Z) | OptMaxNegativeTTL (d : Z) | OptMaxPositiveTTL (d : Z) | OptAllowNoRD (v : bool)
  | OptAggressiveNSEC (v : bool) | OptQNameMinimisation (v : bool) | OptCaseRandomization (v : bool)
  | OptUpstreamRateLimit (qps burst : Q) | OptUpstreamRateLimitMaxKeys (n : Z) | OptMaxInflight (n : Z)
  | OptRootPriming (refresh : Z).

Record config := mkConfig {
  c_roots : list AddrPort; c_maxIterations : Z; c_maxDepth : Z; c_maxCNAMEs : Z; c_maxInflight : Z;
  c_validator : bool; c_queryTimeout : Z; c_maxNegTTL : Z; c_maxPosTTL : Z; c_resolveBudget : Z;
  c_allowNoRD : bool; c_caseRandom : bool; c_qnameMin : bool; c_aggressiveNSEC : bool;
  c_upstreamQPS : Q; c_upstreamBurst : Q; c_upstreamMaxKeys : option Z; c_rootPriming : bool; c_rootRefresh : Z }.

Definition defaultConfig : config :=
  mkConfig [] 30 8 8 1024 false (4 * Second) (3600 * Second) (86400 * Second) (30 * Second)
    false true true false 0 0 None false 0.

Definition applyOption (c : config) (o : Option_) : config :=
  let '(mkConfig ro it de cn fl va qt ne po bu no ca qn ag uq ub uk pr re) := c in
  match o with
  | OptRoots v => mkConfig v it de cn fl va qt ne po bu no ca qn ag uq ub uk pr re
  | OptCache | OptServerStats | OptDialer => c
  | OptMaxIterations v => mkConfig ro v de cn fl va qt ne po bu no ca qn ag uq ub uk pr re
  | OptMaxDepth v => mkConfig ro it v cn fl va qt ne po bu no ca qn ag uq ub uk pr re
  | OptMaxCNAMEDepth v => mkConfig ro it de v fl va qt ne po bu no ca qn ag uq ub uk pr re
  | OptQueryTimeout v => mkConfig ro it de cn fl va v ne po bu no ca qn ag uq ub uk pr re
  | OptValidator v => mkConfig ro it de cn fl v qt ne po bu no ca qn ag uq ub uk pr re
  | OptResolveBudget v => mkConfig ro it de cn fl va qt ne po v no ca qn ag uq ub uk pr re
  | OptMaxNegativeTTL v => mkConfig ro it de cn fl va qt v po bu no ca qn ag uq ub uk pr re
  | OptMaxPositiveTTL v => mkConfig ro it de cn fl va qt ne v bu no ca qn ag uq ub uk pr re
  | OptAllowNoRD v => mkConfig ro it de cn fl va qt ne po bu v ca qn ag uq ub uk pr re
  | OptAggressiveNSEC v => mkConfig ro it de cn fl va qt ne po bu no ca qn v uq ub uk pr re
  | OptQNameMinimisation v => mkConfig ro it de cn fl va qt ne po bu no ca v ag uq ub uk pr re
  | OptCaseRandomization v => mkConfig ro it de cn fl va qt ne po bu no v qn ag uq ub uk pr re
  | OptUpstreamRateLimit q b => mkConfig ro it de cn fl va qt ne po bu no ca qn ag q b uk pr re
  | OptUpstreamRateLimitMaxKeys v => mkConfig ro it de cn fl va qt ne po bu no ca qn ag uq ub (Some v) pr re
  | OptMaxInflight v => mkConfig ro it de cn v va qt ne po bu no ca qn ag uq ub uk pr re
  | OptRootPriming v => mkConfig ro it de cn fl va qt ne po bu no ca qn ag uq ub uk true v
  end.

Definition defaultRootRefreshInterval : Z := 86400 * Second.

(** The fields of [Recursive] that do not change.  The cache, the statistics
    and the dialer are behind the actions; the roots and the indexes are part
    of the shared state. *)
Record Recursive := mkRecursive {
  maxIterations : Z; maxDepth : Z; maxCNAMEs : Z; hasValidator : bool;
  maxNegTTL : Z; maxPosTTL : Z; allowNoRD : bool; qnameMin : bool; aggressiveNSEC : bool;
  upstreamLim : option upstreamLimiter; maxInflight : Z; rootPriming : bool; rootRefresh : Z }.

(** The resolver and its initial roots. *)
Definition New `{Float64} (opts : list Option_) : res (Recursive * list AddrPort) :=
  let c := fold_left applyOption opts defaultConfig in
  if c_aggressiveNSEC c && negb (c_validator c) then Err ErrPlain
  else
    let lim := if flt 0 (c_upstreamQPS c)
               then let burst := if fle (c_upstreamBurst c) 0 then c_upstreamQPS c else c_upstreamBurst c in
                    let l := newUpstreamLimiter (c_upstreamQPS c) burst in
                    Some (match c_upstreamMaxKeys c with Some n => mkUpstream (u_qps l) (u_burst l) n | None => l end)
               else None in
    let refresh := if c_rootPriming c
                   then if c_rootRefresh c <=? 0 then defaultRootRefreshInterval else c_rootRefresh c
                   else 0 in
    Ok (mkRecursive (c_maxIterations c) (c_maxDepth c) (c_maxCNAMEs c) (c_validator c) (c_maxNegTTL c) (c_maxPosTTL c)
          (c_allowNoRD c) (c_qnameMin c) (c_aggressiveNSEC c) lim (c_maxInflight c) (c_rootPriming c) refresh, c_roots c).

(** ** roothints.go *)

Definition iANARootHints : list AddrPort := map (fun a => mkAddrPort a 53) [
  Addr4 [198; 41; 0; 4];
  Addr6 [32; 1; 5; 3; 186; 62; 0; 0; 0; 0; 0; 0; 0; 2; 0; 48] [];
  Addr4 [170; 247; 170; 2];
  Addr6 [40; 1; 1; 184; 0; 16; 0; 0; 0; 0; 0; 0; 0; 0; 0; 11] [];
  Addr4 [192; 33; 4; 12];
  Addr6 [32; 1; 5; 0; 0; 2; 0; 0; 0; 0; 0; 0; 0; 0; 0; 12] [];
  Addr4 [199; 7; 91; 13];
  Addr6 [32; 1; 5; 0; 0; 45; 0; 0; 0; 0; 0; 0; 0; 0; 0; 13] [];
  Addr4 [192; 203; 230; 10];
  Addr6 [32; 1; 5; 0; 0; 168; 0; 0; 0; 0; 0; 0; 0; 0; 0; 14] [];
  Addr4 [192; 5; 5; 241];
  Addr6 [32; 1; 5; 0; 0; 47; 0; 0; 0; 0; 0; 0; 0; 0; 0; 15] [];
  Addr4 [192; 112; 36; 4];
  Addr6 [32; 1; 5; 0; 0; 18; 0; 0; 0; 0; 0; 0; 0; 0; 13; 13] [];
  Addr4 [198; 97; 190; 53];
  Addr6 [32; 1; 5; 0; 0; 1; 0; 0; 0; 0; 0; 0; 0; 0; 0; 83] [];
  Addr4 [192; 36; 148; 17];
  Addr6 [32; 1; 7; 254; 0; 0; 0; 0; 0; 0; 0; 0; 0; 0; 0; 83] [];
  Addr4 [192; 58; 128; 30];
  Addr6 [32; 1; 5; 3; 12; 39; 0; 0; 0; 0; 0; 0; 0; 2; 0; 48] [];
  Addr4 [193; 0; 14; 129];
  Addr6 [32; 1; 7; 253; 0; 0; 0; 0; 0; 0; 0; 0; 0; 0; 0; 1] [];
  Addr4 [199; 7; 83; 42];
  Addr6 [32; 1; 5; 0; 0; 159; 0; 0; 0; 0; 0; 0; 0; 0; 0; 66] [];
  Addr4 [202; 12; 27; 33];
  Addr6 [32; 1; 13; 195; 0; 0; 0; 0; 0; 0; 0; 0; 0; 0; 0; 53] []].

(** [currentRoots], of the field [roots]. *)
Definition currentRoots (roots : list AddrPort) : list AddrPort :=
  if zlen roots =? 0 then iANARootHints else roots.

(** ** Actions and programs *)

Inductive ValidationStatus := StatusSecure | StatusInsecure | StatusBogus | StatusIndeterminate.

(** The key of a call in flight. *)
Definition callKey : Type := bytes * Z.

(** What becomes of a request to resolve a key: this caller runs the
    resolution, another one is running it, or too many are running. *)
Inductive claim := Leader | Follower | Full.

Inductive action : Type -> Type :=
  | CacheGet (n : Name) (cl t : Z) : action (option Entry)
  | CachePut (n : Name) (cl t : Z) (e : Entry) : action unit
  | TimeNow : action Z
  | ReadNSEC : action (option nsecIndex)
  | ReadNSEC3 : action (option nsec3.nsec3Index)
  | InsertNSEC (e : nsecEntry) : action (res unit)
  | InsertNSEC3 (apex : Name) (params : nsec3.nsec3Params) (e : nsec3.nsec3Entry) : action (res unit)
  | SweepIndexes (now : Z) : action unit
  | ReadRoots : action (list AddrPort)                      (* currentRoots *)
  | WriteRoots (addrs : list AddrPort) : action unit
  | ReadScores : action (AddrPort -> Score)
  | RecordStat (s : AddrPort) (rtt : Z) (ok : bool) : action unit
  | TakeToken (s : AddrPort) : action bool
  | RandomID : action (res Z)
  | Exchange (s : AddrPort) (q : Message) : action (res Message)
  | CtxErr : action (option error)
  | Acquire (k : callKey) : action claim
  | Await (k : callKey) : action (res Entry)
  | Release (k : callKey) (r : res Entry) : action unit
  | MarkNS (k : bytes) : action bool
  | UnmarkNS (k : bytes) : action unit
  | Validate (n : Name) (t : Z) : action (res ValidationStatus).

Inductive prog (A : Type) : Type :=
  | Ret (a : A) : prog A
  | Act {X : Type} (a : action X) (k : X -> prog A) : prog A
  | Par (p q : prog (list AddrPort)) (k : list AddrPort -> list AddrPort -> prog A) : prog A.
Arguments Ret {A} a.
Arguments Act {A X} a k.
Arguments Par {A} p q k.

Fixpoint bind {A B : Type} (p : prog A) (f : A -> prog B) : prog B :=
  match p with
  | Ret a => f a
  | Act a k => Act a (fun x => bind (k x) f)
  | Par p q k => Par p q (fun x y => bind (k x y) f)
  end.
Definition act {X : Type} (a : action X) : prog X := Act a Ret.

Notation "x <- p ;; k" := (bind p (fun x => k)) (at level 62, p at next level, right associativity).
Notation "'do:' a ;; k" := (Act a (fun _ => k)) (at level 62, a at next level, right associativity).

Definition RootName : Name := Root.

Section Resolver.
Context `{Crypto} (r : Recursive).

(** The synthesis of a negative answer from either index. *)
Definition synthesise (name : Name) (t : Z) : prog (option Entry) :=
  if negb (aggressiveNSEC r) then Ret None
  else
    now <- act TimeNow ;;
    i <- act ReadNSEC ;;
    later <- act TimeNow ;;
    match synthesiseFromNSEC i name t now later with
    | Some e => Ret (Some e)
    | None =>
        now <- act TimeNow ;;
        i <- act ReadNSEC3 ;;
        later <- act TimeNow ;;
        Ret (nsec3.synthesiseFromNSEC3 i name t now later)
    end.

(** *** queryAny *)

Definition queryMessage (id_ : Z) (name : Name) (t : Z) : res Message :=
  let? ed := fst (EDNSBuilder.Build (EDNSBuilder.UDPSize 1232 EDNSBuilder.NewEDNSBuilder)) in
  fst (MessageBuilder.Build (MessageBuilder.EDNS_ ed (MessageBuilder.Question_ (NewQuestion name t)
         (MessageBuilder.ID id_ MessageBuilder.NewMessageBuilder)))).

Fixpoint query_loop (servers : list AddrPort) (name : Name) (t : Z) (lastErr : option error) (skipped : bool) :
    prog (res (Message * AddrPort)) :=
  match servers with
  | [] => Ret (Err (match lastErr with
                    | Some e => e
                    | None => if skipped then ErrUpstreamRateLimited else ErrPlain
                    end))
  | s :: servers =>
      ok <- act (TakeToken s) ;;
      if negb ok then query_loop servers name t lastErr true
      else
        rid <- act RandomID ;;
        match rid with
        | Err e => Ret (Err e)
        | Ok rid =>
            match queryMessage rid name t with
            | Err e => Ret (Err e)
            | Ok q =>
                started <- act TimeNow ;;
                resp <- act (Exchange s q) ;;
                ended <- act TimeNow ;;
                match resp with
                | Ok m => do: RecordStat s (timeSub ended started) true ;; Ret (Ok (m, s))
                | Err e =>
                    do: RecordStat s (timeSub ended started) false ;;
                    c <- act CtxErr ;;
                    match c with
                    | Some ce => Ret (Err ce)
                    | None => query_loop servers name t (Some e) skipped
                    end
                end
            end
        end
  end.
Definition queryAny (servers : list AddrPort) (name : Name) (t : Z) : prog (res (Message * AddrPort)) :=
  query_loop servers name t None false.

(** *** Entries *)

(** [now] is the reading of [time.Now()]. *)
Definition entryFromResponse (qname : Name) (resp : Message) (now : Z) : Entry :=
  let ttl := minTTL (60 * Second) [answers resp; authorities resp] in
  let ttl :=
    if zlen (answers resp) =? 0 then
      let neg := negativeCacheTTL (authorities resp) in
      let ttl := if (0 <? neg) && (neg <? ttl) then neg else ttl in
      if (0 <? maxNegTTL r) && (maxNegTTL r <? ttl) then maxNegTTL r else ttl
    else if (0 <? maxPosTTL r) && (maxPosTTL r <? ttl) then maxPosTTL r else ttl in
  let '(answers_, authority, additional) := bailiwickFilter qname resp in
  mkEntry answers_ authority additional (RCODE (flags resp)) (Authoritative (flags resp))
    (hasValidator r && AuthenticData (flags resp)) (now + ttl).

(** *** Referrals *)

(** The split of a referral's NS records: the addresses of the glue, and the
    names without. *)
Fixpoint referral_loop (auths : list Message.Record_) (zone : Name) (additional : list Message.Record_)
    (glued : list AddrPort) (unglued : list Name) : list AddrPort * list Name :=
  match auths with
  | [] => (glued, unglued)
  | auth :: auths =>
      if negb (RType auth =? rrtype.NS) then referral_loop auths zone additional glued unglued
      else if IsValid zone && negb (Equal (r_name auth) zone) then referral_loop auths zone additional glued unglued
      else match asNS auth with
      | None => referral_loop auths zone additional glued unglued
      | Some target =>
          let addrs := if IsValid zone && inBailiwick zone target then glueFor target additional zone else [] in
          if 0 <? zlen addrs then referral_loop auths zone additional (glued ++ addrs) unglued
          else referral_loop auths zone additional glued (unglued ++ [target])
      end
  end.

Section Depth.
(** [resolveDepth] one level deeper. *)
Variable deeper : Name -> Z -> prog (res Entry).

Definition resolveUngluedNS (ns : Name) : prog (list AddrPort) :=
  let nsKey := nameKey ns in
  ok <- act (MarkNS nsKey) ;;
  if negb ok then Ret []
  else
    Par (e <- deeper ns rrtype.A ;; Ret (match e with Ok e => addrsOf4 (e_answer e) | Err _ => [] end))
        (e <- deeper ns rrtype.AAAA ;; Ret (match e with Ok e => addrsOf6 (e_answer e) | Err _ => [] end))
        (fun a4 a6 => do: UnmarkNS nsKey ;; Ret (a4 ++ a6)).

Fixpoint unglued_loop (names : list Name) (out : list AddrPort) : prog (list AddrPort) :=
  match names with
  | [] => Ret out
  | ns :: names => addrs <- resolveUngluedNS ns ;; unglued_loop names (out ++ addrs)
  end.

Definition serversFromReferral (resp : Message) : prog (list AddrPort) :=
  let zone := referralZone resp in
  let '(glued, ungluedNS) := referral_loop (authorities resp) zone (additionals resp) [] [] in
  if 0 <? zlen glued then Ret glued else unglued_loop ungluedNS [].

(** *** resolveDepthInner *)

Fixpoint iterate (fuel : nat) (target : Name) (t : Z) (servers : list AddrPort) (closestZone : Name) (fellBack : bool) :
    prog (res Entry) :=
  match fuel with
  | O => Ret (Err ErrIterationLimit)
  | S fuel =>
      if zlen servers =? 0 then Ret (Err ErrPlain)
      else
        let queryName := if negb fellBack then minimisedQName closestZone target else target in
        score <- act ReadScores ;;
        let ranked := rankServers score servers in
        a <- queryAny ranked queryName t ;;
        match a with
        | Err e => Ret (Err e)
        | Ok (resp, used) =>
            let rcode := RCODE (flags resp) in
            if (rcode =? RCODERefused) || (rcode =? RCODEServFail) then
              do: RecordStat used 0 false ;;
              let servers := removeServer ranked used in
              if zlen servers =? 0 then
                if negb fellBack then iterate fuel target t ranked closestZone true
                else Ret (Err ErrAllServersLame)
              else iterate fuel target t servers closestZone fellBack
            else if Authoritative (flags resp) then
              if Equal queryName target then
                now <- act TimeNow ;;
                let entry := entryFromResponse target resp now in
                do: CachePut target rrtype.ClassIN t entry ;;
                Ret (Ok entry)
              else if (rcode =? RCODENoError) && (zlen (answers resp) =? 0) then
                iterate fuel target t servers queryName fellBack
              else iterate fuel target t servers closestZone true
            else
              next <- serversFromReferral resp ;;
              if 0 <? zlen next then
                let rz := referralZone resp in
                iterate fuel target t next (if IsValid rz then rz else closestZone) fellBack
              else if Equal queryName target && hasAnswerFor resp target t then
                now <- act TimeNow ;;
                let entry := entryFromResponse target resp now in
                do: CachePut target rrtype.ClassIN t entry ;;
                Ret (Ok entry)
              else if negb fellBack then iterate fuel target t servers closestZone true
              else Ret (Err ErrPlain)
        end
  end.

Definition resolveDepthInner (target : Name) (t : Z) : prog (res Entry) :=
  servers <- act ReadRoots ;;
  iterate (Z.to_nat (maxIterations r)) target t servers RootName (negb (qnameMin r)).
End Depth.

(** *** resolveDepth *)

(** [n] is [maxDepth - depth].  The leader of a call runs the resolution and
    then, like the followers, waits for it or for its context. *)
Fixpoint resolveDepth (n : nat) (name : Name) (t : Z) : prog (res Entry) :=
  match n with
  | O => Ret (Err ErrPlain)
  | S n =>
      hit <- act (CacheGet name rrtype.ClassIN t) ;;
      match hit with
      | Some e => Ret (Ok e)
      | None =>
          synth <- synthesise name t ;;
          match synth with
          | Some e => do: CachePut name rrtype.ClassIN t e ;; Ret (Ok e)
          | None =>
              let k := (nameKey name, t) in
              c <- act (Acquire k) ;;
              match c with
              | Full => Ret (Err ErrInflightFull)
              | Follower => act (Await k)
              | Leader =>
                  e <- resolveDepthInner (resolveDepth n) name t ;;
                  do: Release k e ;;
                  c <- act CtxErr ;;
                  Ret (match c with Some ce => Err ce | None => e end)
              end
          end
      end
  end.

(** *** resolveDepthFollow *)

(** The loop over the chain of aliases; [seen] is the map [cnameSeen]. *)
Fixpoint follow_loop (fuel : nat) (cur : Name) (t cnameDepth : Z) (seen : list bytes) (aggregated : Entry) : prog (res Entry) :=
  match fuel with
  | O => Ret (Err ErrFuel)
  | S fuel =>
      if bool_decide (String_ cur ∈ seen) then Ret (Err ErrCNAMELoop)
      else
        let seen := String_ cur :: seen in
        a <- resolveDepth (Z.to_nat (maxDepth r)) cur t ;;
        match a with
        | Err e => Ret (Err e)
        | Ok entry =>
            let legAnswers := recordsAt (e_answer entry) cur in
            let aggregated :=
              if (zlen (e_answer aggregated) =? 0) && (zlen (e_authority aggregated) =? 0)
              then mkEntry legAnswers (e_authority entry) (e_additional entry) (e_rcode entry) (e_aa entry) (e_ad entry) (e_expiresAt entry)
              else mkEntry (e_answer aggregated ++ legAnswers) (e_authority aggregated) (e_additional aggregated)
                     (if negb (e_rcode entry =? RCODENoError) then e_rcode entry else e_rcode aggregated)
                     (e_aa aggregated) (e_ad aggregated)
                     (if e_expiresAt entry <? e_expiresAt aggregated then e_expiresAt entry else e_expiresAt aggregated) in
            if t =? rrtype.CNAME then Ret (Ok aggregated)
            else match pickCNAMETarget (e_answer entry) cur with
            | None => Ret (Ok aggregated)
            | Some target =>
                if hasTypeAt (e_answer entry) cur t then Ret (Ok aggregated)
                else if maxCNAMEs r <=? cnameDepth + 1 then Ret (Err ErrCNAMELoop)
                else follow_loop fuel target t (cnameDepth + 1) seen aggregated
            end
        end
  end.
(** [resolveDepthFollow] as [ResolveEntry] calls it: at depth 0, with an empty chain. *)
Definition resolveDepthFollow (name : Name) (t : Z) : prog (res Entry) :=
  if maxCNAMEs r <=? 0 then Ret (Err ErrCNAMELoop)
  else follow_loop (Z.to_nat (maxCNAMEs r)) name t 0 [] zeroEntry.

(** *** ResolveEntry *)

Fixpoint insertNSECs (entries : list nsecEntry) : prog (res unit) :=
  match entries with
  | [] => Ret (Ok tt)
  | e :: entries =>
      a <- act (InsertNSEC e) ;;
      match a with Err x => Ret (Err x) | Ok _ => insertNSECs entries end
  end.
Fixpoint insertNSEC3s (apex : Name) (params : nsec3.nsec3Params) (entries : list nsec3.nsec3Entry) : prog (res unit) :=
  match entries with
  | [] => Ret (Ok tt)
  | e :: entries =>
      a <- act (InsertNSEC3 apex params e) ;;
      match a with Err x => Ret (Err x) | Ok _ => insertNSEC3s apex params entries end
  end.

(** The records of a validated negative answer go into the indexes; an error
    is a panic. *)
Definition harvest (entry : Entry) : prog (res unit) :=
  if aggressiveNSEC r && e_ad entry && (zlen (e_answer entry) =? 0) &&
     ((e_rcode entry =? RCODENXDomain) || (e_rcode entry =? RCODENoError)) then
    now <- act TimeNow ;;
    a <- insertNSECs (extractValidatedNSECs (e_authority entry) now) ;;
    match a with
    | Err x => Ret (Err x)
    | Ok _ =>
        let '(zoneApex, params, n3) := nsec3.extractValidatedNSEC3s (e_authority entry) now in
        if IsValid zoneApex then insertNSEC3s zoneApex params n3 else Ret (Ok tt)
    end
  else Ret (Ok tt).

Definition withAD (e : Entry) : Entry :=
  mkEntry (e_answer e) (e_authority e) (e_additional e) (e_rcode e) (e_aa e) true (e_expiresAt e).

Definition finishEntry (entry : Entry) : prog (res Entry) :=
  h <- harvest entry ;;
  match h with Err x => Ret (Err x) | Ok _ => Ret (Ok entry) end.

Definition ResolveEntry (name : Name) (t : Z) : prog (res Entry) :=
  hit <- act (CacheGet name rrtype.ClassIN t) ;;
  match hit with
  | Some e => Ret (Ok e)
  | None =>
      a <- resolveDepthFollow name t ;;
      match a with
      | Err e => Ret (Err e)
      | Ok entry =>
          if hasValidator r then
            v <- act (Validate name t) ;;
            match v with
            | Err e => Ret (Err e)
            | Ok StatusBogus => Ret (Err errBogusAnswer)
            | Ok StatusSecure => finishEntry (withAD entry)
            | Ok _ => finishEntry entry
            end
          else finishEntry entry
      end
  end.

(** *** ServeDNS *)

Definition must (b : res Message) : Message :=
  match b with
  | Ok m => m
  | Err _ => match fst (MessageBuilder.Build (MessageBuilder.RCODE RCODEServFail
                     (MessageBuilder.Response true MessageBuilder.NewMessageBuilder))) with
             | Ok m => m
             | Err _ => zeroMessage
             end
  end.
Definition buildMust (b : MessageBuilder.t) : Message := must (fst (MessageBuilder.Build b)).

(** The reply to a resolved question. *)
Definition entryReply (b : MessageBuilder.t) (entry : Entry) : Message :=
  let b := fold_left (fun b rec => MessageBuilder.Answer rec b) (e_answer entry) b in
  let b := fold_left (fun b rec => MessageBuilder.Authority rec b) (e_authority entry) b in
  let b := fold_left (fun b rec => MessageBuilder.Additional rec b) (e_additional entry) b in
  let b := if negb (e_rcode entry =? RCODENoError) then MessageBuilder.RCODE (e_rcode entry) b else b in
  let b := if e_ad entry then MessageBuilder.AuthenticData true b else b in
  buildMust b.

Definition ExtendedErrorDNSSECBogus : Z := 6.

Definition bogusReply (b : MessageBuilder.t) : Message :=
  match fst (EDNSBuilder.Build (EDNSBuilder.Option (NewExtendedError ExtendedErrorDNSSECBogus (str "DNSSEC bogus"))
               (EDNSBuilder.UDPSize 1232 EDNSBuilder.NewEDNSBuilder))) with
  | Ok edns => buildMust (MessageBuilder.EDNS_ edns (MessageBuilder.RCODE RCODEServFail b))
  | Err _ => buildMust (MessageBuilder.RCODE RCODEServFail b)
  end.

(** The message [ServeDNS] writes. *)
Definition ServeDNS (q : Message) : prog Message :=
  let b := MessageBuilder.RecursionAvailable true (MessageBuilder.RecursionDesired (RecursionDesired (flags q))
             (MessageBuilder.Response true (MessageBuilder.ID (Message.id q) MessageBuilder.NewMessageBuilder))) in
  match questions q with
  | [] => Ret (buildMust (MessageBuilder.RCODE RCODEFormErr b))
  | question :: _ =>
      let b := MessageBuilder.Question_ question b in
      if negb (q_class question =? rrtype.ClassIN) then Ret (buildMust (MessageBuilder.RCODE RCODENotImp b))
      else if negb (RecursionDesired (flags q)) && negb (allowNoRD r) then Ret (buildMust (MessageBuilder.RCODE RCODERefused b))
      else
        a <- ResolveEntry (q_name question) (q_typ question) ;;
        Ret (match a with
             | Err errBogusAnswer => bogusReply b
             | Err _ => buildMust (MessageBuilder.RCODE RCODEServFail b)
             | Ok entry => entryReply b entry
             end)
  end.

(** *** Priming (priming.go) *)

Definition setRoots (addrs : list AddrPort) : prog (res unit) :=
  if zlen addrs =? 0 then Ret (Err ErrPlain) else do: WriteRoots addrs ;; Ret (Ok tt).

Definition primingAddrsFromResponse (resp : Message) : list AddrPort :=
  let wantedNS := omap (fun rec =>
    if negb (RType rec =? rrtype.NS) || negb (Equal (r_name rec) RootName) then None
    else nameKey <$> asNS rec) (answers resp ++ authorities resp) in
  if zlen wantedNS =? 0 then []
  else omap (fun rec => if bool_decide (nameKey (r_name rec) ∈ wantedNS) then addrOf rec else None) (additionals resp).

Definition Prime : prog (res unit) :=
  servers <- act ReadRoots ;;
  if zlen servers =? 0 then Ret (Err ErrPlain)
  else
    a <- queryAny servers RootName rrtype.NS ;;
    match a with
    | Err e => Ret (Err e)
    | Ok (resp, _) =>
        if negb (RCODE (flags resp) =? RCODENoError) then Ret (Err ErrPlain)
        else
          let addrs := primingAddrsFromResponse resp in
          if zlen addrs =? 0 then Ret (Err ErrPlain) else setRoots addrs
    end.

Definition aggressiveSweepDefault : Z := 300 * Second.
Definition sweepInterval : Z :=
  if rootPriming r && (Second <? Z.quot (rootRefresh r) 8) then Z.quot (rootRefresh r) 8 else aggressiveSweepDefault.

(** The ticks that reach the select of [RunMaintenance], until its context
    ends; a channel that was not made never ticks. *)
Inductive tick := PrimeTick | SweepTick.
Fixpoint maintenance_loop (ticks : list tick) : prog (res unit) :=
  match ticks with
  | [] => Ret (Err ErrContext)
  | PrimeTick :: ticks => if rootPriming r then _ <- Prime ;; maintenance_loop ticks else maintenance_loop ticks
  | SweepTick :: ticks => if aggressiveNSEC r then now <- act TimeNow ;; do: SweepIndexes now ;; maintenance_loop ticks
                          else maintenance_loop ticks
  end.
(** [running] is the flag [maintenanceRunning] as the call finds it. *)
Definition RunMaintenance (running : bool) (ticks : list tick) : prog (res unit) :=
  if negb (rootPriming r) && negb (aggressiveNSEC r) then Ret (Ok tt)
  else if running then Ret (Err ErrMaintenanceAlreadyRunning)
  else if rootPriming r then
    _ <- Prime ;;
    c <- act CtxErr ;;
    match c with Some e => Ret (Err e) | None => maintenance_loop ticks end
  else maintenance_loop ticks.

(** *** resolver.go *)

Definition buildSynthesisedResponse (name : Name) (t : Z) (e : Entry) (ad : bool) : Message :=
  let b := MessageBuilder.Question_ (NewQuestion name t) (MessageBuilder.RecursionAvailable true
             (MessageBuilder.RecursionDesired true (MessageBuilder.Response true MessageBuilder.NewMessageBuilder))) in
  let b := if negb (e_rcode e =? RCODENoError) then MessageBuilder.RCODE (e_rcode e) b else b in
  let b := if ad then MessageBuilder.AuthenticData true b else b in
  let b := fold_left (fun b rec => MessageBuilder.Answer rec b) (e_answer e) b in
  let b := fold_left (fun b rec => MessageBuilder.Authority rec b) (e_authority e) b in
  let b := fold_left (fun b rec => MessageBuilder.Additional rec b) (e_additional e) b in
  buildMust b.

Definition servFailEntry : Entry :=
  mkEntry [] [] [] RCODEServFail (e_aa zeroEntry) (e_ad zeroEntry) (e_expiresAt zeroEntry).

Definition Resolve (name : Name) (t : Z) : prog (Answer + resolveError) :=
  a <- ResolveEntry name t ;;
  Ret (match a with
       | Err errBogusAnswer =>
           inr (RCodeError RCODEServFail (Some (NewAnswer (NewQuestion name t) [] (buildSynthesisedResponse name t servFailEntry false))))
       | Err e => inr (plainErr e)
       | Ok entry =>
           let ans := NewAnswer (NewQuestion name t) (MatchAnswers (e_answer entry) name t)
                        (buildSynthesisedResponse name t entry (e_ad entry)) in
           if negb (e_rcode entry =? RCODENoError) then inr (RCodeError (e_rcode entry) (Some ans)) else inl ans
       end).
End Resolver.

(** ** The default dialer *)

Definition tcpRetry (server : AddrPort) (q : Message) : exchanger.prog (res Message) :=
  match exchanger.NewTCPClient server [] with
  | Err _ => exchanger.Ret (Err ErrTruncatedAfterTCPFail)
  | Ok tex =>
      exchanger.bind exchanger.randomID (fun rid =>
        match rid with
        | Err _ => exchanger.Ret (Err ErrTruncatedAfterTCPFail)
        | Ok rid => exchanger.bind (exchanger.tcpExchange tex (WithID q rid)) (fun r2 =>
                      exchanger.Ret (match r2 with Ok m => Ok m | Err _ => Err ErrTruncatedAfterTCPFail end))
        end)
  end.
Definition dialerExchange (use0x20 : bool) (server : AddrPort) (q : Message) : exchanger.prog (res Message) :=
  match exchanger.NewUDPClient server [exchanger.UDPClientCaseRandomization use0x20] with
  | Err e => exchanger.Ret (Err e)
  | Ok uex =>
      exchanger.bind (exchanger.udpExchange uex q) (fun resp =>
        match resp with
        | Err e => exchanger.Ret (Err e)
        | Ok m => if negb (Truncated (flags m)) then exchanger.Ret (Ok m) else tcpRetry server q
        end)
  end.

(** ** A resolution alone

    [run] executes a tree on a state, with nothing else running: the clock and
    the random source are read in order, the network and the validator are
    functions, the two resolutions of a [Par] follow each other.  A call that
    waits for one it is itself part of ends with its context. *)
Record world := mkWorld {
  w_cache : Pool cacheKey Entry; w_stats : gmap AddrPort statEntry; w_buckets : gmap AddrPort tokenBucket;
  w_roots : list AddrPort; w_inflight : list callKey; w_nsBusy : gset bytes;
  w_nsec : option nsecIndex; w_nsec3 : option nsec3.nsec3Index; w_time : nat; w_ids : nat; w_sent : list (AddrPort * Message) }.

Record environment := mkEnv {
  clock : nat -> Z; ids : nat -> res Z; net : nat -> AddrPort -> Message -> res Message;
  ctx : nat -> option error; validate : Name -> Z -> res ValidationStatus; cacheOf : MemoryCache.t }.

Section Run.
Context `{Float64} `{MapRange} `{MapHash cacheKey} (E : environment) (r : Recursive).

Definition upd_cache (w : world) v := mkWorld v (w_stats w) (w_buckets w) (w_roots w) (w_inflight w) (w_nsBusy w) (w_nsec w) (w_nsec3 w) (w_time w) (w_ids w) (w_sent w).
Definition upd_stats (w : world) v := mkWorld (w_cache w) v (w_buckets w) (w_roots w) (w_inflight w) (w_nsBusy w) (w_nsec w) (w_nsec3 w) (w_time w) (w_ids w) (w_sent w).
Definition upd_buckets (w : world) v := mkWorld (w_cache w) (w_stats w) v (w_roots w) (w_inflight w) (w_nsBusy w) (w_nsec w) (w_nsec3 w) (w_time w) (w_ids w) (w_sent w).
Definition upd_roots (w : world) v := mkWorld (w_cache w) (w_stats w) (w_buckets w) v (w_inflight w) (w_nsBusy w) (w_nsec w) (w_nsec3 w) (w_time w) (w_ids w) (w_sent w).
Definition upd_inflight (w : world) v := mkWorld (w_cache w) (w_stats w) (w_buckets w) (w_roots w) v (w_nsBusy w) (w_nsec w) (w_nsec3 w) (w_time w) (w_ids w) (w_sent w).
Definition upd_nsBusy (w : world) v := mkWorld (w_cache w) (w_stats w) (w_buckets w) (w_roots w) (w_inflight w) v (w_nsec w) (w_nsec3 w) (w_time w) (w_ids w) (w_sent w).
Definition upd_nsec (w : world) v := mkWorld (w_cache w) (w_stats w) (w_buckets w) (w_roots w) (w_inflight w) (w_nsBusy w) v (w_nsec3 w) (w_time w) (w_ids w) (w_sent w).
Definition upd_nsec3 (w : world) v := mkWorld (w_cache w) (w_stats w) (w_buckets w) (w_roots w) (w_inflight w) (w_nsBusy w) (w_nsec w) v (w_time w) (w_ids w) (w_sent w).
Definition tick_time (w : world) := mkWorld (w_cache w) (w_stats w) (w_buckets w) (w_roots w) (w_inflight w) (w_nsBusy w) (w_nsec w) (w_nsec3 w) (S (w_time w)) (w_ids w) (w_sent w).
Definition tick_ids (w : world) := mkWorld (w_cache w) (w_stats w) (w_buckets w) (w_roots w) (w_inflight w) (w_nsBusy w) (w_nsec w) (w_nsec3 w) (w_time w) (S (w_ids w)) (w_sent w).
Definition add_sent (w : world) m := mkWorld (w_cache w) (w_stats w) (w_buckets w) (w_roots w) (w_inflight w) (w_nsBusy w) (w_nsec w) (w_nsec3 w) (w_time w) (w_ids w) (w_sent w ++ [m]).

(** The initial state of a resolver with these roots. *)
Definition newWorld (roots : list AddrPort) : world :=
  mkWorld RateLimit.New ∅ ∅ roots [] ∅
    (if aggressiveNSEC r then Some newNSECIndex else None) (if aggressiveNSEC r then Some nsec3.newNSEC3Index else None) 0 0 [].

Definition perform {X : Type} (a : action X) (w : world) : X * world :=
  let now := clock E (w_time w) in
  let w' := tick_time w in
  match a in action X return X * world with
  | CacheGet n cl t => let '(e, p) := MemoryCache.Get (w_cache w) n cl t now in (e, upd_cache w' p)
  | CachePut n cl t e => (tt, upd_cache w' (MemoryCache.Put (cacheOf E) (w_cache w) n cl t e now))
  | TimeNow => (now, w')
  | ReadNSEC => (w_nsec w, w)
  | ReadNSEC3 => (w_nsec3 w, w)
  | InsertNSEC e => match w_nsec w with
                    | None => (Err Panic, w)
                    | Some i => match Insert i e now with Ok i => (Ok tt, upd_nsec w' (Some i)) | Err x => (Err x, w') end
                    end
  | InsertNSEC3 apex ps e => match w_nsec3 w with
                    | None => (Err Panic, w)
                    | Some i => match nsec3.Insert i apex ps e now with Ok i => (Ok tt, upd_nsec3 w' (Some i)) | Err x => (Err x, w') end
                    end
  | SweepIndexes t => (tt, upd_nsec3 (upd_nsec w ((fun i => SweepExpired i t) <$> w_nsec w))
                                     ((fun i => nsec3.SweepExpired i t) <$> w_nsec3 w))
  | ReadRoots => (currentRoots (w_roots w), w)
  | WriteRoots addrs => (tt, upd_roots w addrs)
  | ReadScores => (Score_ (w_stats w), w)
  | RecordStat s rtt ok => (tt, upd_stats w' (Record_ (w_stats w) s rtt ok now))
  | TakeToken s => let '(ok, m) := Take (upstreamLim r) (w_buckets w) s now in (ok, upd_buckets w' m)
  | RandomID => (ids E (w_ids w), tick_ids w)
  | Exchange s q => (net E (length (w_sent w)) s q, add_sent w (s, q))
  | CtxErr => (ctx E (w_time w), w)
  | Acquire k => if bool_decide (k ∈ w_inflight w) then (Follower, w)
                 else if (0 <? maxInflight r) && (maxInflight r <=? zlen (w_inflight w)) then (Full, w)
                 else (Leader, upd_inflight w (k :: w_inflight w))
  | Await k => (Err ErrContext, w)
  | Release k _ => (tt, upd_inflight w (List.filter (fun k' => negb (bool_decide (k' = k))) (w_inflight w)))
  | MarkNS k => if bool_decide (k ∈ w_nsBusy w) then (false, w) else (true, upd_nsBusy w ({[k]} ∪ w_nsBusy w))
  | UnmarkNS k => (tt, upd_nsBusy w (w_nsBusy w ∖ {[k]}))
  | Validate n t => (validate E n t, w)
  end.

Fixpoint run {A : Type} (p : prog A) (w : world) : A * world :=
  match p with
  | Ret a => (a, w)
  | Act a k => let '(x, w) := perform a w in run (k x) w
  | Par p q k => let '(x, w) := run p w in let '(y, w) := run q w in run (k x y) w
  end.
End Run.
End recursive.
