(* ===== verification/RecursiveSound.v ===== *)
(** * The recursive resolver: what it accepts (theorems about Recursive.v)

    The filter of terminal responses, the ranking of servers, and a logic for
    the trees of actions with which the provenance of every cached entry is
    established, under any interleaving of any number of resolutions. *)

From Stdlib Require Import QArith Strings.String.
From S2P Require Import Prelude Name Wire RData RDataNew Message EdnsOptions Netip Compare Authoritative Update ZoneTree Dnssec Signatures Denial Handler RateLimit Cookies Exchanger Stub Cache Aggressive Recursive.
Open Scope Z_scope.
Open Scope list_scope.

Import recursive.
Abbreviation record := Message.Record_.

(** ** Names *)

Lemma bailiwick_loop_anc fuel a d : canonical d -> (length (wire d) < fuel)%nat -> bailiwick_loop fuel a d = true <-> anc d a.
Proof.
  intros Hc. revert fuel. induction Hc as [d Hc IH] using name_ind. intros [|fuel] Hf; [lia|]. cbn [bailiwick_loop].
  rewrite canonical_valid by done. cbn [negb]. destruct (Equal d a) eqn:E.
  { apply Equal_iff in E as ->. done. }
  apply Equal_false in E. destruct (Parent d) as [p|] eqn:Ep.
  - pose proof (up_shorter d p Hc Ep). assert (Equal d p = false) as -> by (apply Equal_false; intros ->; lia).
    rewrite (IH p Ep) by lia. split; [intros H1; by eapply rtc_l|].
    intros Ha. inversion Ha as [|? y ? Hy Ha']; subst; [done|]. unfold up in Hy. congruence.
  - split; [done|]. intros Ha. inversion Ha as [|? y ? Hy Ha']; subst; [done|]. unfold up in Hy. congruence.
Qed.
Lemma inBailiwick_anc a d : canonical d -> inBailiwick a d = true <-> anc d a.
Proof. intros Hc. apply bailiwick_loop_anc; [done|lia]. Qed.

(** ** The aliases of an answer section *)

(** One CNAME of the section leads from the name of key [x] to that of key [y]. *)
Definition alias (records : list record) (x y : bytes) : Prop :=
  exists r target, r ∈ records /\ nameKey (r_name r) = x /\ asCNAME r = Some target /\ y = nameKey target.

Lemma cname_record_type r target : asCNAME r = Some target -> RType r = rrtype.CNAME.
Proof. unfold asCNAME, RType. destruct (r_rd r) as [[]|]; intros; try discriminate; reflexivity. Qed.

(** A pass adds only what an alias leads to, and says whether it added anything. *)
Lemma chainStep_spec records chain grew r chain' grew' : r ∈ records -> chainStep (chain, grew) r = (chain', grew') ->
  chain ⊆ chain' /\ (grew = true -> grew' = true) /\
  (forall y, y ∈ chain' -> y ∈ chain \/ exists x, x ∈ chain /\ alias records x y) /\
  (grew' = false -> chain' = chain /\ forall target, asCNAME r = Some target -> nameKey (r_name r) ∈ chain -> nameKey target ∈ chain) /\
  (grew' = true -> grew = true \/ (size chain < size chain')%nat).
Proof.
  intros Hr. unfold chainStep. destruct (negb (RType r =? rrtype.CNAME)) eqn:Et; bool_facts.
  { intros [= <- <-]. split_and!; auto. intros ->. split; [done|]. intros target Ha. apply cname_record_type in Ha. done. }
  destruct (bool_decide (nameKey (r_name r) ∈ chain)) eqn:Ec; cbn [negb];
    [apply bool_decide_eq_true in Ec|apply bool_decide_eq_false in Ec; intros [= <- <-]; split_and!; auto; intros ->; by split].
  destruct (asCNAME r) as [target|] eqn:Ea; [|intros [= <- <-]; split_and!; auto; intros ->; by split].
  destruct (decide (nameKey target ∈ chain)) as [Ek|Ek]; [rewrite bool_decide_eq_true_2 by done|rewrite bool_decide_eq_false_2 by done]; intros [= <- <-]; split_and!; auto.
  - intros ->. split; [done|]. intros ? [= <-]. done.
  - set_solver.
  - intros y [->%elem_of_singleton|Hy]%elem_of_union; [right|by left]. eexists. split; [exact Ec|]. by exists r, target.
  - done.
  - intros _. right. rewrite size_union by set_solver. rewrite size_singleton. lia.
Qed.

Lemma chain_pass_spec records pass chain grew chain' grew' : pass ⊆ records ->
  fold_left chainStep pass (chain, grew) = (chain', grew') ->
  chain ⊆ chain' /\ (grew = true -> grew' = true) /\
  (forall q, (forall y, y ∈ chain -> rtc (alias records) q y) -> forall y, y ∈ chain' -> rtc (alias records) q y) /\
  (grew' = false -> chain' = chain /\ forall r target, r ∈ pass -> asCNAME r = Some target ->
     nameKey (r_name r) ∈ chain -> nameKey target ∈ chain) /\
  (grew' = true -> grew = true \/ (size chain < size chain')%nat).
Proof.
  revert chain grew. induction pass as [|r pass IH]; intros chain grew Hs; cbn [fold_left].
  { intros [= <- <-]. split_and!; auto. intros ->. split; [done|]. by intros ?? ?%elem_of_nil. }
  destruct (chainStep (chain, grew) r) as [c1 g1] eqn:E1. intros E2.
  destruct (chainStep_spec records chain grew r c1 g1 ltac:(set_solver) E1) as (A1 & A2 & A3 & A4 & A5).
  destruct (IH c1 g1 ltac:(set_solver) E2) as (B1 & B2 & B3 & B4 & B5). split_and!.
  - set_solver.
  - auto.
  - intros q Hq y Hy. eapply B3; [|exact Hy]. intros z Hz. destruct (A3 z Hz) as [?|(x & Hx & Ha)]; [auto|].
    eapply rtc_r; [by apply Hq|done].
  - intros Hf. destruct (B4 Hf) as [-> B]. assert (g1 = false) as Hg by (destruct g1; [by rewrite B2 in Hf|done]).
    destruct (A4 Hg) as [-> A]. split; [done|]. intros x target [->|Hx]%elem_of_cons; eauto.
  - intros Ht. destruct (B5 Ht) as [Hg|Hg].
    + destruct (A5 Hg) as [?|?]; [by left|right]. pose proof (subseteq_size _ _ B1). lia.
    + right. pose proof (subseteq_size _ _ A1). lia.
Qed.

Definition aliasTargets (records : list record) : gset bytes := list_to_set (omap (fun r => nameKey <$> asCNAME r) records).
Lemma aliasTargets_size records : (size (aliasTargets records) <= length records)%nat.
Proof.
  unfold aliasTargets. induction records as [|r records IH]; cbn; [done|]. destruct (asCNAME r); cbn; [|lia].
  rewrite size_union_alt, size_singleton. etrans; [|apply le_n_S, IH]. cbn. apply le_n_S, subseteq_size. set_solver.
Qed.
Lemma rtc_alias_in records q y : rtc (alias records) q y -> y ∈ ({[q]} ∪ aliasTargets records : gset bytes).
Proof.
  intros Hr. apply rtc_inv_r in Hr as [->|(x & _ & (r & target & Hin & _ & Ha & ->))]; [set_solver|].
  apply elem_of_union_r. unfold aliasTargets. rewrite elem_of_list_to_set, list_elem_of_omap. exists r. by rewrite Ha.
Qed.

(** The passes reach exactly the names the aliases lead to, within the bound. *)
Lemma chain_loop_spec records q fuel chain :
  q ∈ chain -> (forall y, y ∈ chain -> rtc (alias records) q y) ->
  (S (length records) < fuel + size chain)%nat ->
  forall y, y ∈ chain_loop fuel records chain <-> rtc (alias records) q y.
Proof.
  revert chain. induction fuel as [|fuel IH]; intros chain Hq Hsound Hf y; cbn [chain_loop].
  { assert (chain ⊆ {[q]} ∪ aliasTargets records) as Hsub by (intros x Hx; by apply rtc_alias_in, Hsound).
    apply subseteq_size in Hsub. rewrite size_union_alt, size_singleton in Hsub. pose proof (aliasTargets_size records).
    assert (aliasTargets records ∖ {[q]} ⊆ aliasTargets records) as Hd%subseteq_size by set_solver. lia. }
  destruct (fold_left chainStep records (chain, false)) as [chain' grew] eqn:E.
  destruct (chain_pass_spec records records chain false chain' grew ltac:(done) E) as (A1 & _ & A3 & A4 & A5).
  destruct grew; cbn [negb].
  - destruct (A5 eq_refl) as [?|Hlt]; [done|]. apply IH; [set_solver|by apply A3|lia].
  - destruct (A4 eq_refl) as [-> Hcl]. split; [apply Hsound|]. intros Hr.
    apply (rtc_ind_r (R := alias records) (fun y => y ∈ chain) q); [done| |exact Hr]. intros x z _ (r & target & Hin & <- & Ha & ->) Hx.
    by apply (Hcl r).
Qed.
Lemma cnameChain_spec qname records y : y ∈ cnameChain qname records <-> rtc (alias records) (nameKey qname) y.
Proof.
  apply chain_loop_spec; [set_solver| |rewrite size_singleton; lia]. intros x ->%elem_of_singleton. done.
Qed.

(** ** The filter *)

(** The zone whose denials a response to [qname] may carry: the owner of its
    first SOA, when that is an ancestor of [qname] other than the root. *)
Definition denialZone (qname : Name) (resp : Message) (z : Name) : Prop :=
  soaOwnerOf (authorities resp) = z /\ anc qname z /\ (z = Root -> qname = Root).

(** The deepest owner above [qname] among the authority records kept. *)
Definition cutOf (authority : list record) (qname z : Name) : Prop :=
  (exists r, r ∈ authority /\ r_name r = z /\ anc qname z) /\
  forall r, r ∈ authority -> anc qname (r_name r) -> WireLen (r_name r) <= WireLen z.

Lemma IsRoot_iff n : IsRoot n = true <-> n = Root.
Proof. unfold IsRoot. rewrite bool_decide_eq_true. split; [intros Hw; by apply Name_ext|by intros ->]. Qed.

Lemma deepest_fold qname authority best : canonical qname -> (IsValid best = true -> anc qname best) ->
  let z := fold_left (fun best r =>
    if negb (inBailiwick (r_name r) qname) then best
    else if negb (IsValid best) || (WireLen best <? WireLen (r_name r)) then r_name r else best) authority best in
  (z = best /\ (forall r, r ∈ authority -> anc qname (r_name r) -> IsValid best = true /\ WireLen (r_name r) <= WireLen best)) \/
  (IsValid z = true /\ (IsValid best = true -> WireLen best <= WireLen z) /\ cutOf authority qname z).
Proof.
  intros Hq. revert best. induction authority as [|r authority IH]; intros best Hb; cbn [fold_left].
  { left. split; [done|]. by intros ? ?%elem_of_nil. }
  destruct (inBailiwick (r_name r) qname) eqn:Ei; cbn [negb].
  2: { assert (~ anc qname (r_name r)) as Hn by (rewrite <- inBailiwick_anc by done; congruence).
       destruct (IH best Hb) as [[-> H]|(H1 & H2 & (x & Hx & He & Ha) & H3)].
       - left. split; [done|]. intros x [->|Hx]%elem_of_cons Ha; [done|by apply H].
       - right. split_and!; [done|done|]. split; [exists x; set_solver|]. intros y [->|Hy]%elem_of_cons Ha'; [done|by apply H3]. }
  apply inBailiwick_anc in Ei; [|done]. pose proof (canonical_valid _ (canonical_anc _ _ Hq Ei)) as Hv.
  destruct (negb (IsValid best) || (WireLen best <? WireLen (r_name r))) eqn:Et.
  - destruct (IH (r_name r) (fun _ => Ei)) as [[-> H]|(H1 & H2 & (x & Hx & He & Ha) & H3)]; right.
    + split_and!; [done| |].
      * intros Hbv. rewrite Hbv in Et. cbn in Et. bool_facts. lia.
      * split; [exists r; set_solver|]. intros y [->|Hy]%elem_of_cons Ha; [lia|by apply H].
    + specialize (H2 Hv). split_and!; [done| |].
      * intros Hbv. rewrite Hbv in Et. cbn in Et. bool_facts. lia.
      * split; [exists x; set_solver|]. intros y [->|Hy]%elem_of_cons Ha'; [done|by apply H3].
  - apply orb_false_iff in Et as [E1%negb_false_iff E2%Z.ltb_ge]. destruct (IH best Hb) as [[-> H]|(H1 & H2 & (x & Hx & He & Ha) & H3)].
    + left. split; [done|]. intros x [->|Hx]%elem_of_cons Ha; [done|by apply H].
    + right. split_and!; [done|done|]. split; [exists x; set_solver|].
      intros y [->|Hy]%elem_of_cons Ha'; [|by apply H3]. specialize (H2 ltac:(done)). lia.
Qed.

Lemma deepestAncestor_spec qname authority : canonical qname ->
  if IsValid (deepestAncestor authority qname) then cutOf authority qname (deepestAncestor authority qname)
  else forall r, r ∈ authority -> ~ anc qname (r_name r).
Proof.
  intros Hq. unfold deepestAncestor.
  destruct (deepest_fold qname authority zeroName Hq ltac:(done)) as [[-> H]|(H1 & _ & H2)].
  - cbn. intros r Hr Ha. by destruct (H r Hr Ha).
  - by rewrite H1.
Qed.
Lemma cutOf_unique authority qname z z' : canonical qname -> cutOf authority qname z -> cutOf authority qname z' -> z = z'.
Proof.
  intros Hq [(r & Hr & <- & Ha) H1] [(r' & Hr' & <- & Ha') H2]. pose proof (H1 _ Hr' Ha'). pose proof (H2 _ Hr Ha).
  assert (canonical (r_name r) /\ canonical (r_name r')) as [C1 C2] by eauto using canonical_anc.
  assert (forall n, canonical n -> WireLen n = zlen (wire n)) as Hw.
  { intros n Hn. unfold WireLen. by rewrite canonical_valid by done. }
  rewrite !Hw in * by done. unfold zlen in *. destruct (anc_total _ _ _ Ha Ha') as [H3|H3];
    [destruct (anc_shorter _ _ C1 H3) as [?|?]|destruct (anc_shorter _ _ C2 H3) as [?|?]]; (congruence || lia).
Qed.

Definition referenced (answers_ authority : list record) (k : bytes) : Prop :=
  (exists r target, r ∈ answers_ /\ asCNAME r = Some target /\ k = nameKey target) \/
  (exists r target, r ∈ authority /\ asNS r = Some target /\ k = nameKey target).

(** The name [bailiwickFilter] computes for the zone of the denials. *)
Definition denialOwner (qname : Name) (resp : Message) : Name :=
  let soaOwner := soaOwnerOf (authorities resp) in
  let soaOwner := if IsValid soaOwner && negb (inBailiwick soaOwner qname) then zeroName else soaOwner in
  if IsRoot soaOwner && negb (IsRoot qname) then zeroName else soaOwner.
Lemma denialOwner_spec qname resp z : canonical qname ->
  IsValid (denialOwner qname resp) = true /\ denialOwner qname resp = z <-> denialZone qname resp z.
Proof.
  intros Hq. unfold denialOwner, denialZone. generalize (soaOwnerOf (authorities resp)). intros soa. cbv zeta.
  destruct (IsValid soa) eqn:Ev; cbn [andb].
  - destruct (inBailiwick soa qname) eqn:Ei; cbn [negb].
    + apply inBailiwick_anc in Ei; [|done]. destruct (IsRoot soa) eqn:Er, (IsRoot qname) eqn:Eq; cbn [andb negb];
        [| |split; [intros [_ <-]; split_and!; [done..|intros ?%IsRoot_iff; congruence]|by intros (<- & _)]..].
      { apply IsRoot_iff in Er as ->, Eq as ->. split; [by intros [_ <-]|by intros (<- & _)]. }
      split; [by intros [? _]|]. intros (<- & _ & Hr). apply IsRoot_iff, Hr, IsRoot_iff in Er. congruence.
    + cbn. split; [by intros [? _]|]. intros (<- & Ha & _). rewrite <- inBailiwick_anc in Ha by done; congruence.
  - split; [intros [Hs _]; destruct (IsRoot soa && _); [done|congruence]|].
    intros (<- & Ha & _). rewrite (canonical_valid soa) in Ev; [done|]. by eapply canonical_anc.
Qed.

Lemma filter_sublist {A} (f : A -> bool) l : List.filter f l `sublist_of` l.
Proof. induction l as [|x l IH]; cbn; [done|]. destruct (f x); by constructor. Qed.
Lemma elem_of_filterb {A} (f : A -> bool) l x : x ∈ List.filter f l <-> x ∈ l /\ f x = true.
Proof. by rewrite !list_elem_of_In, filter_In. Qed.

Lemma referenced_spec an au k :
  k ∈ omap (fun r => nameKey <$> asCNAME r) an ++ omap (fun r => nameKey <$> asNS r) au <-> referenced an au k.
Proof.
  rewrite elem_of_app, !list_elem_of_omap. unfold referenced. f_equiv; split.
  1,3: intros (x & Hx & (y & Hy & ->)%fmap_Some); by exists x, y.
  all: intros (x & y & Hx & Hy & ->); exists x; by rewrite Hy.
Qed.

Lemma keepAuthority_spec qname resp r : canonical qname -> canonical (r_name r) ->
  (if IsRoot (r_name r) && negb (IsRoot qname) then false
   else inBailiwick (r_name r) qname ||
        (IsValid (denialOwner qname resp) && isDNSSECDenialType (RType r) && inBailiwick (denialOwner qname resp) (r_name r))) = true <->
  (r_name r = Root -> qname = Root) /\
  (anc qname (r_name r) \/ (isDNSSECDenialType (RType r) = true /\ exists z, denialZone qname resp z /\ anc (r_name r) z)).
Proof.
  intros Hq Hc. destruct (IsRoot (r_name r) && negb (IsRoot qname)) eqn:E.
  { bool_facts. split; [done|]. intros [Hr _]. rewrite IsRoot_iff in H. apply Hr, IsRoot_iff in H. congruence. }
  rewrite orb_true_iff, !andb_true_iff, !inBailiwick_anc by done. split.
  - intros H. split.
    { intros Hr. apply IsRoot_iff. apply IsRoot_iff in Hr. rewrite Hr in E. by destruct (IsRoot qname). }
    destruct H as [H|[[H1 H2] H3]]; [by left|right]. split; [done|]. exists (denialOwner qname resp). split; [|done].
    by apply denialOwner_spec.
  - intros [_ [H|[H (z & Hz & Ha)]]]; [by left|right]. apply denialOwner_spec in Hz as [? <-]; [|done]. done.
Qed.

Lemma keepAdditional_spec qname an au r : canonical qname -> canonical (r_name r) ->
  (if RType r =? rrtype.OPT then true
   else if negb (bool_decide (nameKey (r_name r) ∈ omap (fun r => nameKey <$> asCNAME r) an ++ omap (fun r => nameKey <$> asNS r) au)) then false
   else if IsValid (deepestAncestor au qname) && negb (inBailiwick (deepestAncestor au qname) (r_name r)) then false
   else true) = true <->
  RType r = rrtype.OPT \/ (referenced an au (nameKey (r_name r)) /\ forall z, cutOf au qname z -> anc (r_name r) z).
Proof.
  intros Hq Hc. destruct (RType r =? rrtype.OPT) eqn:Eo; bool_facts; [split; [by left|done]|].
  pose proof (deepestAncestor_spec qname au Hq) as Hcut. set (cut := deepestAncestor au qname) in *.
  rewrite <- referenced_spec. case_bool_decide as Hin; cbn [negb]; [|split; [done|by intros [?|[? _]]]].
  destruct (IsValid cut) eqn:Ev; cbn [andb].
  - destruct (inBailiwick cut (r_name r)) eqn:Ei; cbn [negb].
    + apply inBailiwick_anc in Ei; [|done]. split; [|done]. intros _. right. split; [done|]. intros z Hz.
      by rewrite (cutOf_unique au qname z cut).
    + split; [done|]. intros [?|[_ H]]; [done|]. specialize (H cut Hcut). rewrite <- inBailiwick_anc in H by done; congruence.
  - split; [|done]. intros _. right. split; [done|]. intros z [(x & Hx & <- & Ha) _]. by destruct (Hcut x Hx).
Qed.

(** C24. What the resolver keeps of a terminal response to a query for [qname]:
    of the answer section, in order, exactly the records whose owner the
    section's own CNAMEs lead to from [qname]; of the authority section the
    records owned at or above [qname] -- none at the root, unless [qname] is
    the root -- and the denials, with their signatures, of the zone named by
    the first SOA when that zone is an ancestor of [qname]; of the additional
    section the OPT records and those owned by a target of a kept CNAME or NS
    inside the deepest zone the kept authority records name. *)
Theorem bailiwick_exact (qname : Name) (resp : Message) (an au ad : list record) :
  canonical qname -> (forall r, r ∈ authorities resp ++ additionals resp -> canonical (r_name r)) ->
  bailiwickFilter qname resp = (an, au, ad) ->
  an `sublist_of` answers resp /\ au `sublist_of` authorities resp /\ ad `sublist_of` additionals resp /\
  (forall r, r ∈ an <-> r ∈ answers resp /\ rtc (alias (answers resp)) (nameKey qname) (nameKey (r_name r))) /\
  (forall r, r ∈ au <-> r ∈ authorities resp /\ (r_name r = Root -> qname = Root) /\
     (anc qname (r_name r) \/ (isDNSSECDenialType (RType r) = true /\ exists z, denialZone qname resp z /\ anc (r_name r) z))) /\
  (forall r, r ∈ ad <-> r ∈ additionals resp /\
     (RType r = rrtype.OPT \/ (referenced an au (nameKey (r_name r)) /\ forall z, cutOf au qname z -> anc (r_name r) z))).
Proof.
  intros Hq Hc. unfold bailiwickFilter. fold (denialOwner qname resp). cbv zeta.
  set (AN := List.filter _ (answers resp)). set (AU := List.filter _ (authorities resp)). intros [= <- <- <-].
  split_and!; [apply filter_sublist..| | |]; intros r.
  - unfold AN. by rewrite elem_of_filterb, bool_decide_eq_true, cnameChain_spec.
  - unfold AU. rewrite elem_of_filterb. split; intros [Hr H]; (split; [done|]); revert H;
      apply keepAuthority_spec; (done || apply Hc; set_solver).
  - rewrite elem_of_filterb. split; intros [Hr H]; (split; [done|]); revert H;
      apply keepAdditional_spec; (done || apply Hc; set_solver).
Qed.

(** ** A logic for trees of actions

    [Ev a x]: the action [a] had the result [x].  A system is a list of trees,
    the resolutions that run; in a step one of them performs its next action --
    of a [Par], either side's.  [safe K p Q]: whatever the results of its
    actions, as long as [rely] holds of them, and whatever else happens in
    between, [p] performs an action only when [may] allows it after the
    events so far, and what it returns satisfies [Q]. *)

Inductive event := | Ev {X : Type} (a : action X) (x : X).
Definition events : Type := event -> Prop.
Definition more (K K' : events) : Prop := forall e, K e -> K' e.
#[export] Instance more_preorder : PreOrder more.
Proof. split; [by intros K e|intros K1 K2 K3 H1 H2 e He; by apply H2, H1]. Qed.

(** What a finished tree returned. *)
Fixpoint returns {A : Type} (p : prog A) (a : A) : Prop :=
  match p with
  | Ret a' => a' = a
  | Act _ _ => False
  | Par p1 p2 k => exists x y, returns p1 x /\ returns p2 y /\ returns (k x y) a
  end.

Fixpoint pstep {A : Type} (p : prog A) (ev : event) (p' : prog A) : Prop :=
  match p with
  | Ret _ => False
  | Act a k => exists x, ev = Ev a x /\ p' = k x
  | Par p1 p2 k =>
      (exists p1', pstep p1 ev p1' /\ p' = Par p1' p2 k) \/ (exists p2', pstep p2 ev p2' /\ p' = Par p1 p2' k) \/
      (exists a b, returns p1 a /\ returns p2 b /\ pstep (k a b) ev p')
  end.

Record contract := mkContract {
  may : events -> forall X, action X -> Prop;
  rely : events -> forall X, action X -> X -> Prop;
  may_more K K' X (a : action X) : more K K' -> may K X a -> may K' X a }.

Section Logic.
Context (C : contract).

(** Every event so far was allowed. *)
Definition sound (K : events) : Prop := forall X (a : action X) x, K (Ev a x) -> may C K _ a.

Definition stable {A : Type} (Q : events -> A -> Prop) : Prop := forall K K' a, more K K' -> Q K a -> Q K' a.

Fixpoint safe {A : Type} (K : events) (p : prog A) (Q : events -> A -> Prop) : Prop :=
  match p with
  | Ret a => Q K a
  | Act a k => may C K _ a /\ forall K' x, more K K' -> sound K' -> rely C K' _ a x -> K' (Ev a x) -> safe K' (k x) Q
  | Par p1 p2 k =>
      exists Q1 Q2, stable Q1 /\ stable Q2 /\ safe K p1 Q1 /\ safe K p2 Q2 /\
      forall K' a b, more K K' -> Q1 K' a -> Q2 K' b -> safe K' (k a b) Q
  end.

Lemma safe_more {A : Type} (p : prog A) K K' Q : stable Q -> more K K' -> safe K p Q -> safe K' p Q.
Proof.
  revert K K' Q. induction p as [A a|A X a k IH|A p1 IH1 p2 IH2 k IHk]; intros K K' Q HQ HK; cbn [safe].
  - by apply HQ.
  - intros [Hg Hk]. split; [by eapply may_more|]. intros K2 x H2. apply Hk. by etrans.
  - intros (Q1 & Q2 & S1 & S2 & H1 & H2 & Hk). exists Q1, Q2. split_and!; eauto. intros K2 a b HK2. apply Hk. by etrans.
Qed.

Lemma safe_bind {A B : Type} (p : prog A) (f : A -> prog B) K Q R : stable Q ->
  safe K p Q -> (forall K' a, more K K' -> Q K' a -> safe K' (f a) R) -> safe K (bind p f) R.
Proof.
  revert B f K Q R. induction p as [A a|A X a k IH|A p1 _ p2 _ k IHk]; intros B f K Q R HQ; cbn [safe bind].
  - intros Ha Hf. by apply Hf.
  - intros [Hg Hk] Hf. split; [done|]. intros K' x HK Hs Hr He. eapply IH; [exact HQ|by apply Hk|]. intros K2 b H2. apply Hf. by etrans.
  - intros (Q1 & Q2 & S1 & S2 & H1 & H2 & Hk) Hf. exists Q1, Q2. split_and!; [done..|]. intros K' a b HK Ha Hb.
    eapply IHk; [exact HQ|by apply Hk|]. intros K2 c HK2. apply Hf. by etrans.
Qed.

Lemma safe_weaken {A : Type} (p : prog A) K Q R : (forall K' a, more K K' -> Q K' a -> R K' a) -> safe K p Q -> safe K p R.
Proof.
  revert K. induction p as [A a|A X a k IH|A p1 _ p2 _ k IHk]; intros K HQ; cbn [safe].
  - by apply HQ.
  - intros [Hg Hk]. split; [done|]. intros K' x HK Hs Hr He. eapply IH; [|by apply Hk]. intros K2 b H2. apply HQ. by etrans.
  - intros (Q1 & Q2 & S1 & S2 & H1 & H2 & Hk). exists Q1, Q2. split_and!; [done..|]. intros K' a b HK Ha Hb.
    eapply IHk; [|by apply Hk]. intros K2 c H2'. apply HQ. by etrans.
Qed.

Lemma safe_returns {A : Type} (p : prog A) K Q a : safe K p Q -> returns p a -> Q K a.
Proof.
  revert K. induction p as [A a'|A X a' k IH|A p1 IH1 p2 IH2 k IHk]; intros K; cbn [safe returns]; [by intros ? <-|done|].
  intros (Q1 & Q2 & _ & _ & H1 & H2 & Hk) (x & y & Hx & Hy & Hr). eapply IHk; [|exact Hr]. apply Hk; [reflexivity|by apply IH1|by apply IH2].
Qed.

(** A step keeps a tree safe, with the event added to those known. *)
Definition allowed (K : events) (ev : event) : Prop := match ev with Ev a x => may C K _ a end.
Definition legal (K : events) (ev : event) : Prop := match ev with Ev a x => rely C K _ a x end.

Lemma safe_step {A : Type} (p p' : prog A) ev K K' Q : stable Q -> safe K p Q -> pstep p ev p' ->
  allowed K ev /\ (more K K' -> sound K' -> K' ev -> legal K' ev -> safe K' p' Q).
Proof.
  revert K Q p'. induction p as [A a|A X a k IH|A p1 IH1 p2 IH2 k IHk]; intros K Q p' HQ; cbn [safe pstep]; [done| |].
  - intros [Hg Hk] (x & -> & ->). split; [done|]. intros HK Hs He Hl. by apply Hk.
  - intros (Q1 & Q2 & S1 & S2 & H1 & H2 & Hk) [(p1' & Hp & ->)|[(p2' & Hp & ->)|(a & b & Ha & Hb & Hp)]].
    + destruct (IH1 K Q1 _ S1 H1 Hp) as [Hal Hn]. split; [done|]. intros HK Hs He Hl. cbn [safe]. exists Q1, Q2.
      split_and!; [done|done|by apply Hn|by eapply safe_more|]. intros K2 a b H3. apply Hk. by etrans.
    + destruct (IH2 K Q2 _ S2 H2 Hp) as [Hal Hn]. split; [done|]. intros HK Hs He Hl. cbn [safe]. exists Q1, Q2.
      split_and!; [done|done|by eapply safe_more|by apply Hn|]. intros K2 a b H3. apply Hk. by etrans.
    + eapply IHk; [done| |done]. apply Hk; [reflexivity|by eapply safe_returns..].
Qed.
(** *** Systems *)

Context {request : Type} (answer : request -> Type) (start : forall q, prog (answer q))
  (promise : forall q, events -> answer q -> Prop).

(** A request and what is left to do for it. *)
Inductive thread := | Thread (q : request) (p : prog (answer q)).
Definition tstep (t : thread) (ev : event) (t' : thread) : Prop :=
  match t with Thread q p => exists p', pstep p ev p' /\ t' = Thread q p' end.
Definition tsafe (K : events) (t : thread) : Prop := match t with Thread q p => safe K p (promise q) end.

(** The events so far, first to last. *)
Definition known (h : list event) : events := fun e => In e h.

(** Requests arrive at any time; at each step one of them goes on. *)
Inductive reaches : list thread -> list event -> Prop :=
  | reaches_start : reaches [] []
  | reaches_arrive ts h q : reaches ts h -> reaches (ts ++ [Thread q (start q)]) h
  | reaches_step ts1 t t' ts2 h ev : reaches (ts1 ++ t :: ts2) h -> tstep t ev t' ->
      legal (known (h ++ [ev])) ev -> reaches (ts1 ++ t' :: ts2) (h ++ [ev]).

Lemma system_safe ts h : (forall q, stable (promise q)) -> (forall q K, safe K (start q) (promise q)) -> reaches ts h ->
  Forall (tsafe (known h)) ts /\ forall h1 ev h2, h = h1 ++ ev :: h2 -> allowed (known h1) ev.
Proof.
  intros HQ H0 Hr. induction Hr as [|ts h q _ [IH1 IH2]|ts1 t t' ts2 h ev _ [IH1 IH2] Hs Hl].
  - split; [done|]. by intros [|? ?] ? ?.
  - split; [|done]. apply Forall_app. split; [done|]. constructor; [apply H0|done].
  - assert (more (known h) (known (h ++ [ev]))) as Hm by (intros e He; apply in_or_app; by left).
    assert (forall t, tsafe (known h) t -> tsafe (known (h ++ [ev])) t) as Hgrow.
    { intros [q p] Hp. by eapply safe_more. }
    apply Forall_app in IH1 as [Ha [Hb Hc]%Forall_cons]. destruct t as [q p], Hs as (p' & Hs & ->).
    destruct (safe_step p p' ev _ (known (h ++ [ev])) _ (HQ q) Hb Hs) as [Hal Hp'].
    assert (sound (known (h ++ [ev]))) as Hso.
    { intros X a x [Hin|[->|[]]]%in_app_or; [|by eapply may_more].
      apply in_split in Hin as (h1 & h2 & ->). eapply may_more; [|exact (IH2 h1 _ h2 eq_refl)].
      intros e He. apply in_or_app. left. apply in_or_app. by left. }
    split; [apply Forall_app; split; [|constructor; [apply Hp'; [done..| |done]; apply in_or_app; right; by left|]]; eapply Forall_impl; eauto|].
    intros h1 e h2 E. destruct h2 as [|e2 h2 _] using rev_ind.
    + apply app_inj_tail in E as [<- <-]. done.
    + rewrite app_comm_cons, app_assoc in E. apply app_inj_tail in E as [-> _]. by eapply IH2.
Qed.
End Logic.

(** ** Where entries come from *)

(** The message asks for the records of type [t] at [n]. *)
Definition asks (q : Message) (n : Name) (t : Z) : Prop := questions q = [NewQuestion n t].

(** [rec] is [rec0] but for its TTL. *)
Definition sameButTTL (rec0 rec : record) : Prop :=
  r_name rec = r_name rec0 /\ r_class rec = r_class rec0 /\ r_rd rec = r_rd rec0.

Section Provenance.
Context `{Crypto} (r : Recursive).

(** A server replied [resp] to a query for [n] and [t]. *)
Definition replied (K : events) (n : Name) (t : Z) (resp : Message) : Prop :=
  exists s q, K (Ev (Exchange s q) (Ok resp)) /\ asks q n t.

Definition fetched (K : events) (n : Name) (t : Z) (e : Entry) : Prop :=
  exists resp now, replied K n t resp /\ e = entryFromResponse r n resp now /\
    (Authoritative (flags resp) = true \/ hasAnswerFor resp n t = true).
Definition denied (K : events) (n : Name) (t : Z) (e : Entry) : Prop :=
  exists now later,
    (exists i, K (Ev ReadNSEC i) /\ synthesiseFromNSEC i n t now later = Some e) \/
    (exists i, K (Ev ReadNSEC3 i) /\ nsec3.synthesiseFromNSEC3 i n t now later = Some e).
Definition origin (K : events) (n : Name) (t : Z) (e : Entry) : Prop := fetched K n t e \/ denied K n t e.

(** What a cache may return for an entry put into it: a copy with other TTLs,
    cut to a number of records or not. *)
Definition copyOf (e0 e : Entry) : Prop :=
  exists remaining, e = cloneEntryWithTTL e0 remaining \/ exists limit, e = cloneEntryWithTTL (capEntryRecords e0 limit) remaining.

Definition mayDo (K : events) (X : Type) (a : action X) : Prop :=
  match a with
  | CachePut n cl t e => cl = rrtype.ClassIN /\ origin K n t e
  | Release k (Ok e) => exists n t, k = (nameKey n, t) /\ origin K n t e
  | _ => True
  end.
(** The cache returns copies of what was put under the key, and a caller that
    waits for another gets what that one released. *)
Definition comesBack (K : events) (X : Type) (a : action X) : X -> Prop :=
  match a with
  | CacheGet n cl t => fun x => forall e, x = Some e ->
      exists n' e0, nameKey n' = nameKey n /\ K (Ev (CachePut n' cl t e0) tt) /\ copyOf e0 e
  | Await k => fun x => forall e, x = Ok e -> K (Ev (Release k (Ok e)) tt)
  | _ => fun _ => True
  end.

Lemma replied_more K K' n t resp : more K K' -> replied K n t resp -> replied K' n t resp.
Proof. intros HK (s & q & He & Ha). exists s, q. split; [by apply HK|done]. Qed.
Lemma origin_more K K' n t e : more K K' -> origin K n t e -> origin K' n t e.
Proof.
  intros HK [(resp & now & Hr & He & Hu)|(now & later & [(i & Hi & He)|(i & Hi & He)])].
  - left. exists resp, now. split_and!; [by eapply replied_more|done..].
  - right. exists now, later. left. exists i. split; [by apply HK|done].
  - right. exists now, later. right. exists i. split; [by apply HK|done].
Qed.
Lemma mayDo_more K K' X (a : action X) : more K K' -> mayDo K X a -> mayDo K' X a.
Proof.
  intros HK. destruct a; cbn; try done.
  - intros [? ?]. split; [done|by eapply origin_more].
  - destruct r0; [|done]. intros (n & t & ? & ?). exists n, t. split; [done|by eapply origin_more].
Qed.
Definition resolverContract : contract := mkContract mayDo comesBack mayDo_more.
Abbreviation SAFE := (safe resolverContract).

Definition held (K : events) (n : Name) (t : Z) (e : Entry) : Prop :=
  exists n0 e0, nameKey n0 = nameKey n /\ origin K n0 t e0 /\ (e = e0 \/ copyOf e0 e).
Lemma held_more K K' n t e : more K K' -> held K n t e -> held K' n t e.
Proof. intros HK (n0 & e0 & ? & ? & ?). exists n0, e0. split_and!; [done|by eapply origin_more|done]. Qed.
Lemma held_origin K n t e : origin K n t e -> held K n t e.
Proof. intros He. exists n, e. by split_and!; [|done|left]. Qed.

(** *** The operations *)

Lemma queryMessage_asks id_ n t q : queryMessage id_ n t = Ok q -> asks q n t.
Proof. intros [= <-]. done. Qed.

Definition okThen {A : Type} (P : events -> A -> Prop) (K : events) (x : res A) : Prop :=
  match x with Ok a => P K a | Err _ => True end.
Definition whatever {A : Type} (K : events) (a : A) : Prop := True.
Lemma stable_okThen {A : Type} (P : events -> A -> Prop) : stable P -> stable (okThen P).
Proof. intros HP K K' [a|e] HK; [by apply HP|done]. Qed.
Lemma stable_whatever {A : Type} : stable (@whatever A).
Proof. done. Qed.
Lemma stable_origin n t : stable (fun K => origin K n t).
Proof. intros K K' e. apply origin_more. Qed.
Lemma stable_held n t : stable (fun K => held K n t).
Proof. intros K K' e. apply held_more. Qed.
Lemma stable_replied n t : stable (fun K (x : Message * AddrPort) => replied K n t x.1).
Proof. intros K K' e. apply replied_more. Qed.
#[local] Hint Resolve stable_okThen stable_whatever stable_origin stable_held stable_replied : core.

(** One action, and a tree followed by another: the events afterwards, the
    result, what is known of them. *)
Tactic Notation "act_step" ident(K) ident(x) ident(HK) ident(Hs) ident(Hr) ident(He) :=
  cbn [bind act safe]; split; [first [exact I|done|idtac]|intros K x HK Hs Hr He].
Tactic Notation "run_step" uconstr(L) "as" ident(K) simple_intropattern(x) ident(HK) ident(Hx) :=
  (eapply safe_bind; [|apply L|]); [eauto|intros K x HK Hx].

Lemma query_loop_safe K servers n t lastErr skipped :
  SAFE K (query_loop servers n t lastErr skipped) (okThen (fun K x => replied K n t x.1)).
Proof.
  revert K lastErr skipped. induction servers as [|s servers IH]; intros K lastErr skipped; cbn [query_loop]; [done|].
  act_step K1 tok HK1 Hs1 Hr1 He1. destruct tok; cbn [negb]; [|apply IH]. act_step K2 rid HK2 Hs2 Hr2 He2.
  destruct rid as [rid|e]; [|done]. destruct (queryMessage rid n t) as [q|e] eqn:Eq; [|done].
  act_step K3 t0 HK3 Hs3 Hr3 He3. act_step K4 resp HK4 Hs4 Hr4 He4. act_step K5 t1 HK5 Hs5 Hr5 He5.
  destruct resp as [m|e]; act_step K6 u HK6 Hs6 Hr6 He6.
  - cbn [okThen fst]. exists s, q. split; [|by eapply queryMessage_asks]. by apply HK6, HK5.
  - act_step K7 c HK7 Hs7 Hr7 He7. destruct c; [done|apply IH].
Qed.

Section Depth.
Variable deeper : Name -> Z -> prog (res Entry).
Hypothesis deeper_safe : forall n t K, SAFE K (deeper n t) (okThen (fun K => held K n t)).

Lemma resolveUngluedNS_safe K ns : SAFE K (resolveUngluedNS deeper ns) whatever.
Proof.
  unfold resolveUngluedNS. act_step K1 ok HK1 Hs1 Hr1 He1. destruct ok; [|done]. cbn [negb safe]. exists whatever, whatever.
  split_and!; [done|done| | |].
  1,2: run_step deeper_safe as K2 x HK2 Hx; done.
  intros K2 a b _ _ _. by act_step K3 u HK3 Hs3 Hr3 He3.
Qed.
Lemma serversFromReferral_safe K resp : SAFE K (serversFromReferral deeper resp) whatever.
Proof.
  unfold serversFromReferral. destruct (referral_loop _ _ _ _ _) as [glued un]. destruct (0 <? zlen glued); [done|].
  generalize (@nil AddrPort). revert K. induction un as [|ns un IH]; intros K out; cbn [unglued_loop]; [done|].
  run_step resolveUngluedNS_safe as K1 x HK1 Hx. apply IH.
Qed.

(** A response to the target's own query is cached and returned. *)
Lemma cache_response_safe K target t resp : replied K target t resp ->
  Authoritative (flags resp) = true \/ hasAnswerFor resp target t = true ->
  SAFE K (bind (act TimeNow) (fun now => let entry := entryFromResponse r target resp now in
            Act (CachePut target rrtype.ClassIN t entry) (fun _ => Ret (Ok entry)))) (okThen (fun K => origin K target t)).
Proof.
  intros Hrep Hu. act_step K1 now HK1 Hs1 Hr1 He1. assert (origin K1 target t (entryFromResponse r target resp now)) as Ho.
  { left. exists resp, now. split_and!; [by eapply replied_more|done..]. }
  act_step K2 u HK2 Hs2 Hr2 He2. by eapply origin_more.
Qed.

Lemma iterate_safe K fuel target t servers zone fellBack :
  SAFE K (iterate r deeper fuel target t servers zone fellBack) (okThen (fun K => origin K target t)).
Proof.
  revert K servers zone fellBack. induction fuel as [|fuel IH]; intros K servers zone fellBack; cbn [iterate]; [done|].
  destruct (zlen servers =? 0); [done|]. act_step K1 score HK1 Hs1 Hr1 He1. set (qn := if negb fellBack then _ else _).
  run_step query_loop_safe as K2 [[resp used]|e] HK2 Hrep; [|done]. cbn [okThen fst] in Hrep.
  destruct (_ || _).
  { act_step K3 u HK3 Hs3 Hr3 He3. destruct (zlen (removeServer _ _) =? 0); [|apply IH]. destruct fellBack; [done|apply IH]. }
  destruct (Authoritative (flags resp)) eqn:Ea.
  { destruct (Equal qn target) eqn:Eq; [|destruct (_ && _); apply IH].
    apply Equal_iff in Eq as Eq'. apply cache_response_safe; [by rewrite <- Eq'|by left]. }
  run_step serversFromReferral_safe as K3 next HK3 _Hx. destruct (0 <? zlen next); [apply IH|].
  destruct (Equal qn target && hasAnswerFor resp target t) eqn:Eu; [|destruct fellBack; [done|apply IH]].
  apply andb_true_iff in Eu as [Eq%Equal_iff Eu]. apply cache_response_safe; [|by right]. rewrite <- Eq. by eapply replied_more.
Qed.
End Depth.

Lemma denied_more K K' n t e : more K K' -> denied K n t e -> denied K' n t e.
Proof.
  intros HK (now & later & [(i & Hi & He)|(i & Hi & He)]); exists now, later; [left|right]; exists i; (split; [by apply HK|done]).
Qed.
Definition deniedThen (n : Name) (t : Z) (K : events) (x : option Entry) : Prop := forall e, x = Some e -> denied K n t e.
Lemma stable_deniedThen n t : stable (deniedThen n t).
Proof. intros K K' x HK Hx e He. eapply denied_more; [exact HK|by apply Hx]. Qed.
#[local] Hint Resolve stable_deniedThen : core.

Lemma synthesise_safe K n t : SAFE K (synthesise r n t) (deniedThen n t).
Proof.
  unfold synthesise. destruct (negb (aggressiveNSEC r)); [done|]. act_step K1 now HK1 Hs1 Hr1 He1.
  act_step K2 i HK2 Hs2 Hr2 He2. act_step K3 later HK3 Hs3 Hr3 He3.
  destruct (synthesiseFromNSEC i n t now later) as [e|] eqn:E.
  - intros ? [= <-]. exists now, later. left. exists i. split; [by apply HK3|done].
  - act_step K4 now' HK4 Hs4 Hr4 He4. act_step K5 i3 HK5 Hs5 Hr5 He5. act_step K6 later' HK6 Hs6 Hr6 He6.
    cbn [safe]. intros e He. exists now', later'. right. exists i3. split; [by apply HK6|done].
Qed.

Lemma cacheGet_held K n t x : sound resolverContract K ->
  comesBack K _ (CacheGet n rrtype.ClassIN t) x -> forall e, x = Some e -> held K n t e.
Proof.
  intros Hs Hr e He. destruct (Hr e He) as (n' & e0 & Hn & Hp & Hc). destruct (Hs _ _ _ Hp) as [_ Ho].
  exists n', e0. by split_and!; [|done|right].
Qed.

Lemma resolveDepth_safe n name t K : SAFE K (resolveDepth r n name t) (okThen (fun K => held K name t)).
Proof.
  revert name t K. induction n as [|n IH]; intros name t K; cbn [resolveDepth]; [done|].
  act_step K1 hit HK1 Hs1 Hr1 He1. destruct hit as [e|]; [by eapply cacheGet_held|].
  run_step synthesise_safe as K2 synth HK2 Hsy. destruct synth as [e|].
  { specialize (Hsy e eq_refl). act_step K3 u HK3 Hs3 Hr3 He3; [split; [done|by right]|].
    apply held_origin. right. by eapply denied_more. }
  act_step K3 c HK3 Hs3 Hr3 He3. destruct c; [|act_step K4 e HK4 Hs4 Hr4 He4|done].
  - unfold resolveDepthInner. act_step K4 roots HK4 Hs4 Hr4 He4. run_step (iterate_safe _ IH) as K5 e HK5 He. cbn [bind].
    act_step K6 u HK6 Hs6 Hr6 He6; [destruct e; [by exists name, t|done]|]. act_step K7 c HK7 Hs7 Hr7 He7.
    destruct c; [done|]. destruct e as [e|]; [|done]. cbn [safe okThen] in *. apply held_origin.
    eapply origin_more; [|exact He]. by etrans.
  - destruct e as [e|]; [|done]. specialize (Hr4 e eq_refl). destruct (Hs4 _ _ _ Hr4) as (n' & t' & [= Hk <-] & Ho).
    exists n', e. by split_and!; [|done|left].
Qed.

(** *** Replies *)

(** An answer to a query for the name of key [x] has a CNAME from it to the
    name of key [y]. *)
Definition link (K : events) (t : Z) (x y : bytes) : Prop :=
  exists n resp rec target, nameKey n = x /\ replied K n t resp /\ rec ∈ answers resp /\ nameKey (r_name rec) = x /\
    asCNAME rec = Some target /\ y = nameKey target.

(** A record returned for a question about [name]: but for its TTL it is an
    answer record of a response to a query for [n], where [n] is [name] or a
    name such aliases lead to, and its owner is one the response's own aliases
    lead to from [n]. *)
Definition sourced (K : events) (name : Name) (t : Z) (rec : record) : Prop :=
  exists n resp rec0, rtc (link K t) (nameKey name) (nameKey n) /\ replied K n t resp /\ rec0 ∈ answers resp /\
    sameButTTL rec0 rec /\ rtc (alias (answers resp)) (nameKey n) (nameKey (r_name rec)).

Lemma link_more K K' t x y : more K K' -> link K t x y -> link K' t x y.
Proof.
  intros HK (n & resp & rec & target & ? & ? & ? & ? & ? & ?). exists n, resp, rec, target.
  split_and!; [done|by eapply replied_more|done..].
Qed.
Lemma links_more K K' t x y : more K K' -> rtc (link K t) x y -> rtc (link K' t) x y.
Proof. intros HK. apply rtc_subrel. intros a b. by apply link_more. Qed.
Lemma sourced_more K K' name t rec : more K K' -> sourced K name t rec -> sourced K' name t rec.
Proof.
  intros HK (n & resp & rec0 & ? & ? & ? & ? & ?). exists n, resp, rec0.
  split_and!; [by eapply links_more|by eapply replied_more|done..].
Qed.

Lemma elem_of_zslice {A : Type} (x : A) l a b : x ∈ zslice l a b -> x ∈ l.
Proof.
  unfold zslice. intros Hin. rewrite <- (take_drop (Z.to_nat a) l). apply elem_of_app. right.
  rewrite <- (take_drop (Z.to_nat (b - a)) (drop (Z.to_nat a) l)). apply elem_of_app. by left.
Qed.
Lemma copyOf_answer e0 e rec : copyOf e0 e -> rec ∈ e_answer e -> exists rec0, rec0 ∈ e_answer e0 /\ sameButTTL rec0 rec.
Proof.
  assert (forall rem l, rec ∈ cloneRecordsWithTTL l rem -> exists rec0, rec0 ∈ l /\ sameButTTL rec0 rec) as Hcl.
  { intros rem l (rec0 & -> & Hin)%list_elem_of_fmap. by exists rec0. }
  intros (rem & [->|(limit & ->)]) Hin; cbn [e_answer cloneEntryWithTTL] in Hin; apply Hcl in Hin as (rec0 & Hin & Hs); exists rec0; [done|].
  split; [|done]. unfold capEntryRecords in Hin. destruct (_ <=? limit); [done|].
  destruct (trimSection (e_additional e0) _) as [ad t1], (trimSection (e_authority e0) t1) as [au t2].
  cbn in Hin. by eapply elem_of_zslice.
Qed.

(** Every answer of an entry that is held is a record of a response. *)
Lemma held_answer K name t e rec : held K name t e -> rec ∈ e_answer e ->
  exists n resp rec0, nameKey n = nameKey name /\ replied K n t resp /\ rec0 ∈ answers resp /\ sameButTTL rec0 rec /\
    rtc (alias (answers resp)) (nameKey n) (nameKey (r_name rec)).
Proof.
  intros (n & e0 & Hn & Ho & Hc) Hin.
  assert (exists rec0, rec0 ∈ e_answer e0 /\ sameButTTL rec0 rec) as (rec0 & Hin0 & Hs).
  { destruct Hc as [->|Hc]; [by exists rec|by eapply copyOf_answer]. }
  destruct Ho as [(resp & now & Hrep & -> & _)|(now & later & Hd)].
  - unfold entryFromResponse in Hin0. destruct (bailiwickFilter n resp) as [[an au] ad] eqn:Ef. cbn [e_answer] in Hin0.
    injection Ef as <- _ _. apply elem_of_filterb in Hin0 as [Hin0 Hc0]. rewrite bool_decide_eq_true, cnameChain_spec in Hc0.
    exists n, resp, rec0. split_and!; try done. destruct Hs as (-> & _). done.
  - exfalso. assert (e_answer e0 = []) as E.
    { destruct Hd as [(i & _ & Hd)|(i & _ & Hd)].
      - unfold synthesiseFromNSEC in Hd. destruct i as [i|]; [|done]. destruct (Lookup i n t now) as [[c|] k]; [|done].
        destruct (negb _); [done|]. destruct (_ <=? 0); [done|]. by injection Hd as <-.
      - unfold nsec3.synthesiseFromNSEC3 in Hd. destruct i as [i|]; [|done]. destruct (negb _); [done|].
        destruct (nsec3.Lookup _ _ _ _ _) as [[es ps] k]. destruct (nsec3.zones i !! _) as [z|]; [|by destruct k].
        destruct (nsec3.proofRecords _ _ _ _); destruct k; try done; by injection Hd as <-. }
    rewrite E in Hin0. by apply elem_of_nil in Hin0.
Qed.

Lemma held_sourced K name cur t e rec : rtc (link K t) (nameKey name) (nameKey cur) -> held K cur t e -> rec ∈ e_answer e ->
  sourced K name t rec.
Proof.
  intros Hl Hh Hin. destruct (held_answer K cur t e rec Hh Hin) as (n & resp & rec0 & Hn & ?). exists n, resp, rec0.
  rewrite Hn. by rewrite Hn in H0.
Qed.
Lemma pickCNAMETarget_spec records owner target : pickCNAMETarget records owner = Some target ->
  exists rec, rec ∈ records /\ r_name rec = owner /\ asCNAME rec = Some target.
Proof.
  induction records as [|x records IH]; cbn [pickCNAMETarget]; [done|].
  assert (pickCNAMETarget records owner = Some target -> exists rec, rec ∈ x :: records /\ r_name rec = owner /\ asCNAME rec = Some target) as Hr.
  { intros (rec & ? & ?)%IH. exists rec. split; [by right|done]. }
  destruct (negb _); [done|]. destruct (Equal (r_name x) owner) eqn:E; cbn [negb]; [|done].
  destruct (asCNAME x) as [c|] eqn:Ec; [|done]. intros [= ->]. exists x. split_and!; [left|by apply Equal_iff|done].
Qed.

Definition allSourced (name : Name) (t : Z) (K : events) (e : Entry) : Prop := forall rec, rec ∈ e_answer e -> sourced K name t rec.
Lemma stable_allSourced name t : stable (allSourced name t).
Proof. intros K K' e HK He rec Hin. eapply sourced_more; [exact HK|by apply He]. Qed.
#[local] Hint Resolve stable_allSourced : core.

Lemma follow_loop_safe K fuel name cur t depth seen agg :
  rtc (link K t) (nameKey name) (nameKey cur) -> allSourced name t K agg ->
  SAFE K (follow_loop r fuel cur t depth seen agg) (okThen (allSourced name t)).
Proof.
  revert K cur depth seen agg. induction fuel as [|fuel IH]; intros K cur depth seen agg Hl Hagg; cbn [follow_loop]; [done|].
  destruct (bool_decide _); [done|]. run_step resolveDepth_safe as K1 [entry|e] HK1 Hh; [|done]. cbn [okThen] in Hh.
  apply (links_more K K1) in Hl; [|done]. apply (stable_allSourced name t K K1) in Hagg; [|done].
  set (agg' := if _ && _ then _ else _). assert (allSourced name t K1 agg') as Hagg'.
  { assert (forall rec, rec ∈ recordsAt (e_answer entry) cur -> sourced K1 name t rec) as Hleg.
    { intros rec Hin. eapply held_sourced; [done..|]. by apply elem_of_filterb in Hin as [? _]. }
    intros rec. unfold agg'. destruct (_ && _); cbn [e_answer]; [apply Hleg|]. intros [?|?]%elem_of_app; auto. }
  destruct (t =? rrtype.CNAME); [done|]. destruct (pickCNAMETarget (e_answer entry) cur) as [target|] eqn:Ep; [|done].
  destruct (hasTypeAt _ _ _); [done|]. destruct (_ <=? _); [done|]. apply IH; [|done].
  apply pickCNAMETarget_spec in Ep as (rec & Hin & Ho & Ha).
  destruct (held_answer K1 cur t entry rec Hh Hin) as (n & resp & rec0 & Hn & Hrep & Hin0 & (E1 & _ & E3) & _).
  eapply rtc_r; [exact Hl|]. exists n, resp, rec0, target. split_and!; try done.
  - by rewrite <- E1, Ho.
  - unfold asCNAME in *. by rewrite <- E3.
Qed.

Lemma insertNSECs_safe K es : SAFE K (insertNSECs es) whatever.
Proof. revert K. induction es as [|e es IH]; intros K; cbn [insertNSECs]; [done|]. act_step K1 a HK1 Hs1 Hr1 He1. destruct a; [apply IH|done]. Qed.
Lemma insertNSEC3s_safe K apex ps es : SAFE K (insertNSEC3s apex ps es) whatever.
Proof. revert K. induction es as [|e es IH]; intros K; cbn [insertNSEC3s]; [done|]. act_step K1 a HK1 Hs1 Hr1 He1. destruct a; [apply IH|done]. Qed.

Lemma finishEntry_safe K name t e : allSourced name t K e -> SAFE K (finishEntry r e) (okThen (allSourced name t)).
Proof.
  intros He. unfold finishEntry. eapply safe_bind with (Q := whatever); [done| |].
  - unfold harvest. destruct (_ && _); [|done]. act_step K1 now HK1 Hs1 Hr1 He1.
    run_step insertNSECs_safe as K2 [u|x] HK2 Hu; [|done].
    destruct (nsec3.extractValidatedNSEC3s _ _) as [[apex ps] n3]. destruct (IsValid apex); [apply insertNSEC3s_safe|done].
  - intros K1 [u|x] HK1 _; [|done]. cbn [safe okThen]. by eapply stable_allSourced.
Qed.

Lemma ResolveEntry_safe K name t : SAFE K (ResolveEntry r name t) (okThen (allSourced name t)).
Proof.
  unfold ResolveEntry. act_step K1 hit HK1 Hs1 Hr1 He1. destruct hit as [e|].
  { intros rec Hin. eapply held_sourced; [apply rtc_refl| |done]. by eapply cacheGet_held. }
  eapply safe_bind with (Q := okThen (allSourced name t)); [eauto| |].
  { unfold resolveDepthFollow. destruct (_ <=? 0); [done|]. apply follow_loop_safe; [done|]. intros rec Hin. by apply elem_of_nil in Hin. }
  intros K2 [entry|e] HK2 He; [|done]. cbn [okThen] in He. destruct (hasValidator r); [|by apply finishEntry_safe].
  act_step K3 v HK3 Hs3 Hr3 He3. apply (stable_allSourced name t K2 K3) in He; [|done].
  destruct v as [[]|e]; try done; by apply finishEntry_safe.
Qed.

(** *** ServeDNS, Resolve and the maintenance *)

Lemma fold_answers l b : answers (MessageBuilder.msg (fold_left (fun b rec => MessageBuilder.Answer rec b) l b)) ⊆
  answers (MessageBuilder.msg b) ++ l.
Proof.
  revert b. induction l as [|x l IH]; intros b; cbn [fold_left]; [by rewrite app_nil_r|].
  etrans; [apply IH|]. unfold MessageBuilder.Answer. destruct (IsZero x).
  - unfold MessageBuilder.setErr. destruct (MessageBuilder.err b); cbn; set_solver.
  - cbn. rewrite <- app_assoc. done.
Qed.
Lemma fold_same (f : MessageBuilder.t -> record -> MessageBuilder.t) l b :
  (forall b x, answers (MessageBuilder.msg (f b x)) = answers (MessageBuilder.msg b)) ->
  answers (MessageBuilder.msg (fold_left f l b)) = answers (MessageBuilder.msg b).
Proof. intros Hf. revert b. induction l as [|x l IH]; intros b; cbn [fold_left]; [done|]. by rewrite IH, Hf. Qed.
Lemma buildMust_answers b : answers (buildMust b) ⊆ answers (MessageBuilder.msg b).
Proof. unfold buildMust, MessageBuilder.Build. destruct (MessageBuilder.err b); cbn; set_solver. Qed.
Lemma keep_answers b x :
  answers (MessageBuilder.msg (MessageBuilder.Authority x b)) = answers (MessageBuilder.msg b) /\
  answers (MessageBuilder.msg (MessageBuilder.Additional x b)) = answers (MessageBuilder.msg b).
Proof.
  unfold MessageBuilder.Authority, MessageBuilder.Additional, MessageBuilder.setErr.
  destruct (IsZero x), (MessageBuilder.err b); done.
Qed.

Lemma entryReply_answers b e : answers (MessageBuilder.msg b) = [] -> answers (entryReply b e) ⊆ e_answer e.
Proof.
  intros Hb. unfold entryReply. etrans; [apply buildMust_answers|].
  assert (forall c (b : MessageBuilder.t), answers (MessageBuilder.msg (if e_ad e then MessageBuilder.AuthenticData true
    (if (c : bool) then MessageBuilder.RCODE (e_rcode e) b else b) else if c then MessageBuilder.RCODE (e_rcode e) b else b)) =
    answers (MessageBuilder.msg b)) as -> by (intros [] ?; by destruct (e_ad e)).
  rewrite !fold_same by (intros; apply keep_answers). etrans; [apply fold_answers|]. by rewrite Hb.
Qed.
Lemma synthesised_answers name t e ad : answers (buildSynthesisedResponse name t e ad) ⊆ e_answer e.
Proof.
  unfold buildSynthesisedResponse. etrans; [apply buildMust_answers|]. rewrite !fold_same by (intros; apply keep_answers).
  etrans; [apply fold_answers|]. by destruct (negb _), ad.
Qed.

(** What the requests promise: the answers of a reply to a query, and the
    records of an answer, are sourced for the question. *)
Inductive request := Serve (q : Message) | Lookup_ (name : Name) (t : Z) | Maintain (running : bool) (ticks : list tick).
Definition answerType (q : request) : Type :=
  match q with Serve _ => Message | Lookup_ _ _ => Answer + resolveError | Maintain _ _ => res unit end.
Definition startOf (q : request) : prog (answerType q) :=
  match q with
  | Serve q => ServeDNS r q
  | Lookup_ name t => Resolve r name t
  | Maintain running ticks => RunMaintenance r running ticks
  end.
Definition promiseOf (q : request) : events -> answerType q -> Prop :=
  match q with
  | Serve q => fun K m => forall rec, rec ∈ answers m ->
      exists question rest, questions q = question :: rest /\ q_class question = rrtype.ClassIN /\
        sourced K (q_name question) (q_typ question) rec
  | Lookup_ name t => fun K a => forall ans, a = inl ans -> forall rec, rec ∈ a_records ans -> sourced K name t rec
  | Maintain _ _ => fun _ _ => True
  end.

Lemma promiseOf_stable q : stable (promiseOf q).
Proof.
  intros K K' a HK. destruct q; cbn; [| |done].
  - intros Ha rec Hin. destruct (Ha rec Hin) as (question & rest & ? & ? & ?). exists question, rest.
    split_and!; [done..|by eapply sourced_more].
  - intros Ha ans E rec Hin. eapply sourced_more; [exact HK|by eapply Ha].
Qed.

Lemma Prime_safe K : SAFE K (@Prime) whatever.
Proof.
  unfold Prime. act_step K1 roots HK1 Hs1 Hr1 He1. destruct (_ =? 0); [done|].
  run_step query_loop_safe as K2 [[m s]|e] HK2 Hx; [|done]. destruct (negb _); [done|]. destruct (_ =? 0); [done|].
  unfold setRoots. destruct (_ =? 0); [done|]. by act_step K3 u HK3 Hs3 Hr3 He3.
Qed.
Lemma maintenance_safe K ticks : SAFE K (maintenance_loop r ticks) whatever.
Proof.
  revert K. induction ticks as [|[] ticks IH]; intros K; cbn [maintenance_loop]; [done| |].
  - destruct (rootPriming r); [|apply IH]. run_step Prime_safe as K1 x HK1 Hx. apply IH.
  - destruct (aggressiveNSEC r); [|apply IH]. act_step K1 now HK1 Hs1 Hr1 He1. act_step K2 u HK2 Hs2 Hr2 He2. apply IH.
Qed.

Lemma startOf_safe K q : SAFE K (startOf q) (promiseOf q).
Proof.
  assert (forall (P : record -> Prop), P = P -> forall x, x ∈ @nil record -> P x) as Hnil by (by intros ? _ ? ?%elem_of_nil).
  destruct q as [q|name t|running ticks]; cbn [startOf promiseOf answerType].
  - unfold ServeDNS. destruct (questions q) as [|question rest] eqn:Eq; [by intros rec ?%elem_of_nil|].
    destruct (negb (q_class question =? rrtype.ClassIN)) eqn:Ec; [by intros rec ?%elem_of_nil|]. bool_facts.
    destruct (_ && _); [by intros rec ?%elem_of_nil|]. run_step ResolveEntry_safe as K1 a HK1 Ha. cbn [safe].
    intros rec Hin. destruct a as [entry|e]; [|by destruct e; apply elem_of_nil in Hin].
    apply entryReply_answers in Hin; [|done]. exists question, rest. split_and!; [done..|by apply Ha].
  - unfold Resolve. run_step ResolveEntry_safe as K1 a HK1 Ha. cbn [safe]. intros ans. destruct a as [entry|e]; [|by destruct e].
    destruct (negb _); [done|]. intros [= <-] rec Hin. apply elem_of_filterb in Hin as [Hin _]. by apply Ha.
  - eapply safe_weaken with (Q := whatever); [done|]. unfold RunMaintenance. destruct (_ && _); [done|]. destruct running; [done|].
    destruct (rootPriming r); [|apply maintenance_safe]. run_step Prime_safe as K1 x HK1 Hx. act_step K2 c HK2 Hs2 Hr2 He2.
    destruct c; [done|apply maintenance_safe].
Qed.
End Provenance.

(** C22. Whatever the servers reply, whatever order any number of queries,
    lookups and maintenance runs take their steps in, as long as the cache
    returns (copies of) what was put under a key and a waiting caller gets what
    the one it waits for released: every entry the resolver caches under a name
    and type is of class IN, and is what [entryFromResponse] keeps of a
    response, received before, to a query for exactly that name and type, or
    is synthesised for them from the denials indexed before; and every answer
    record of a reply to a client comes, its TTL apart, from the answer section
    of a response to a query for the client's type and the name it asked for or
    one that CNAMEs received in such responses lead to. *)
Theorem resolver_provenance `{Crypto} (r : Recursive) (ts : list (thread answerType)) (h : list event) :
  reaches (resolverContract r) answerType (startOf r) ts h ->
  (forall h1 n cl t e h2, h = h1 ++ Ev (CachePut n cl t e) tt :: h2 -> cl = rrtype.ClassIN /\ origin r (known h1) n t e) /\
  (forall q p a, Thread answerType q p ∈ ts -> returns p a -> promiseOf q (known h) a).
Proof.
  intros Hr. destruct (system_safe (resolverContract r) answerType (startOf r) promiseOf ts h (promiseOf_stable)
    (fun q K => startOf_safe r K q) Hr) as [Ht Hp]. split.
  - intros h1 n cl t e h2 ->. exact (Hp h1 _ h2 eq_refl).
  - intros q p a Hin Ha. rewrite Forall_forall in Ht. specialize (Ht _ Hin). cbn in Ht. by eapply safe_returns.
Qed.

(** *** Executions with fixed results *)

(** The events of a tree run alone when each action has the result [o] gives. *)
Fixpoint exec {A : Type} (o : forall X, action X -> X) (p : prog A) : list event * A :=
  match p with
  | Ret a => ([], a)
  | Act a k => let '(h, x) := exec o (k (o _ a)) in (Ev a (o _ a) :: h, x)
  | Par p q k => let '(h1, x) := exec o p in let '(h2, y) := exec o q in let '(h3, z) := exec o (k x y) in (h1 ++ h2 ++ h3, z)
  end.

Inductive psteps {A : Type} : prog A -> list event -> prog A -> Prop :=
  | psteps_nil p : psteps p [] p
  | psteps_cons p ev p1 h p2 : pstep p ev p1 -> psteps p1 h p2 -> psteps p (ev :: h) p2.
Lemma psteps_app {A : Type} (p p1 p2 : prog A) h1 h2 : psteps p h1 p1 -> psteps p1 h2 p2 -> psteps p (h1 ++ h2) p2.
Proof. induction 1; [done|]. intros. econstructor; eauto. Qed.
Lemma psteps_left {A : Type} p1 h p1' p2 (k : list AddrPort -> list AddrPort -> prog A) :
  psteps p1 h p1' -> psteps (Par p1 p2 k) h (Par p1' p2 k).
Proof. induction 1; [constructor|]. econstructor; [|eauto]. left. eauto. Qed.
Lemma psteps_right {A : Type} p1 h p2 p2' (k : list AddrPort -> list AddrPort -> prog A) :
  psteps p2 h p2' -> psteps (Par p1 p2 k) h (Par p1 p2' k).
Proof. induction 1; [constructor|]. econstructor; [|eauto]. right. left. eauto. Qed.
Lemma psteps_join {A : Type} p1 p2 (k : list AddrPort -> list AddrPort -> prog A) a b h p z :
  returns p1 a -> returns p2 b -> psteps (k a b) h p -> returns p z ->
  exists p', psteps (Par p1 p2 k) h p' /\ returns p' z.
Proof.
  intros Ha Hb Hs Hz. inversion Hs as [|? ev p3 h' ? H1 H2]; subst.
  - exists (Par p1 p2 k). split; [constructor|]. cbn. eauto.
  - exists p. split; [|done]. econstructor; [|exact H2]. cbn. right. right. eauto.
Qed.

Lemma exec_steps {A : Type} o (p : prog A) : exists p', psteps p (exec o p).1 p' /\ returns p' (exec o p).2.
Proof.
  induction p as [A a|A X a k IH|A p1 IH1 p2 IH2 k IHk]; cbn [exec].
  - exists (Ret a). split; [constructor|done].
  - destruct (IH (o X a)) as (p' & Hs & Hr). destruct (exec o (k (o X a))) as [h x]. exists p'. split; [|done].
    econstructor; [|exact Hs]. cbn. eauto.
  - destruct IH1 as (p1' & Hs1 & Hr1), IH2 as (p2' & Hs2 & Hr2).
    destruct (exec o p1) as [h1 x], (exec o p2) as [h2 y]. destruct (IHk x y) as (p3 & Hs3 & Hr3).
    destruct (exec o (k x y)) as [h3 z]. destruct (psteps_join p1' p2' k x y h3 p3 z Hr1 Hr2 Hs3 Hr3) as (p' & Hs & Hr).
    exists p'. split; [|done]. eapply psteps_app; [by apply psteps_left|]. eapply psteps_app; [by apply psteps_right|done].
Qed.

Lemma psteps_reaches C {request : Type} (answer : request -> Type) start q p h0 h p' :
  reaches C answer start [Thread answer q p] h0 -> psteps p h p' -> (forall K ev, ev ∈ h -> legal C K ev) ->
  reaches C answer start [Thread answer q p'] (h0 ++ h).
Proof.
  intros Hr Hs. revert h0 Hr. induction Hs as [p|p ev p1 h p2 Hp Hs IH]; intros h0 Hr Hl; [by rewrite app_nil_r|].
  rewrite cons_middle, app_assoc. apply IH; [|intros K e He; apply Hl; by right].
  apply (reaches_step C answer start [] (Thread answer q p) (Thread answer q p1) [] h0 ev Hr); [by exists p1|]. apply Hl. left.
Qed.
(** Alone, with results that are always legal, a request runs to its end. *)
Lemma exec_reaches C {request : Type} (answer : request -> Type) start o q :
  (forall K ev, ev ∈ (exec o (start q)).1 -> legal C K ev) ->
  exists p, reaches C answer start [Thread answer q p] (exec o (start q)).1 /\ returns p (exec o (start q)).2.
Proof.
  intros Hl. destruct (exec_steps o (start q)) as (p & Hs & Hr). exists p. split; [|done].
  apply (psteps_reaches C answer start q (start q) []); [|done|done]. apply (reaches_arrive C answer start [] [] q). constructor.
Qed.
Lemma exec_legal {A : Type} C o (p : prog A) K ev :
  (forall X (a : action X), rely C K X a (o X a)) -> ev ∈ (exec o p).1 -> legal C K ev.
Proof.
  intros Ho. induction p as [A a|A X a k IH|A p1 IH1 p2 IH2 k IHk]; cbn [exec].
  - by intros ?%elem_of_nil.
  - specialize (IH (o X a)). destruct (exec o (k (o X a))) as [h x]. intros [->|Hin]%elem_of_cons; [apply Ho|by apply IH].
  - destruct (exec o p1) as [h1 x], (exec o p2) as [h2 y]. specialize (IHk x y). destruct (exec o (k x y)) as [h3 z].
    cbn [fst] in *. intros [?|[?|?]%elem_of_app]%elem_of_app; auto.
Qed.

(** *** A query answered by a server that answers every query with an address *)
Module OneServer.
#[local] Existing Instance plainCrypto.
Definition www : Name := nm [str "www"; str "example"].
Definition server : AddrPort := mkAddrPort (Addr4 [192; 0; 2; 53]) 53.
Definition address : record := NewRecord www (300 * Second) (RD_A (Addr4 [192; 0; 2; 80])).
Definition r : Recursive := mkRecursive 30 8 8 false (3600 * Second) (86400 * Second) false true false None 1024 false 0.
Definition reply (q : Message) : Message :=
  mkMessage (Message.id q) (WithAuthoritative true (WithResponse true 0)) (questions q) [address] [] [] zeroEDNS false.
Definition query : Message := mkMessage 7 (WithRecursionDesired true 0) [NewQuestion www rrtype.A] [] [] [] zeroEDNS false.

Definition o (X : Type) (a : action X) : X :=
  match a in action X return X with
  | CacheGet _ _ _ => None
  | CachePut _ _ _ _ => tt
  | TimeNow => 1000 * Second
  | ReadNSEC => None
  | ReadNSEC3 => None
  | InsertNSEC _ => Ok tt
  | InsertNSEC3 _ _ _ => Ok tt
  | SweepIndexes _ => tt
  | ReadRoots => [server]
  | WriteRoots _ => tt
  | ReadScores => fun _ => NewScore 0 0
  | RecordStat _ _ _ => tt
  | TakeToken _ => true
  | RandomID => Ok 4711
  | Exchange _ q => Ok (reply q)
  | CtxErr => None
  | Acquire _ => Leader
  | Await _ => Err ErrContext
  | Release _ _ => tt
  | MarkNS _ => true
  | UnmarkNS _ => tt
  | Validate _ _ => Ok StatusInsecure
  end.
Lemma o_legal K X (a : action X) : rely (resolverContract r) K X a (o X a).
Proof. by destruct a. Qed.

Definition history : list event := (exec o (startOf r (Serve query))).1.
Definition entry : Entry := mkEntry [address] [] [] RCODENoError true false (1300 * Second).
(** The minimised name, then the name itself; the entry goes into the cache after both. *)
Lemma history_put : exists h1 h2, history = h1 ++ Ev (CachePut www rrtype.ClassIN rrtype.A entry) tt :: h2 /\ length h1 = 19%nat.
Proof. exists (take 19 history), (drop 20 history). vm_compute. split; reflexivity. Qed.
Definition answer : Message := (exec o (startOf r (Serve query))).2.
Lemma answer_records : answers answer = [address].
Proof. vm_compute. reflexivity. Qed.
Lemma reached : exists p, reaches (resolverContract r) answerType (startOf r) [Thread answerType (Serve query) p] history /\ returns p answer.
Proof.
  unfold history, answer. apply exec_reaches. intros K ev Hin. eapply exec_legal; [|exact Hin]. intros X a. apply o_legal.
Qed.
End OneServer.

Lemma resolver_provenance_witness :
  exists h1 h2, OneServer.history = h1 ++ Ev (CachePut OneServer.www rrtype.ClassIN rrtype.A OneServer.entry) tt :: h2 /\
    origin (H := plainCrypto) OneServer.r (known h1) OneServer.www rrtype.A OneServer.entry /\
    sourced (known OneServer.history) OneServer.www rrtype.A OneServer.address.
Proof.
  destruct OneServer.reached as (p & Hr & Ha).
  destruct (resolver_provenance (H := plainCrypto) OneServer.r _ _ Hr) as [H1 H2].
  destruct OneServer.history_put as (h1 & h2 & Eh & _). exists h1, h2. split; [exact Eh|]. split.
  - exact (proj2 (H1 h1 _ _ _ _ h2 Eh)).
  - destruct (H2 (Serve OneServer.query) p OneServer.answer ltac:(left) Ha OneServer.address) as (question & rest & Eq & _ & Hs).
    + rewrite OneServer.answer_records. left.
    + change (questions OneServer.query) with [NewQuestion OneServer.www rrtype.A] in Eq. injection Eq as <- <-. exact Hs.
Defined.

(** *** A forged record and a forged zone in a response *)
Module Forged.
Definition www : Name := nm [str "www"; str "example"].
Definition cdn : Name := nm [str "cdn"; str "test"].
Definition bank : Name := nm [str "bank"; str "test"].
Definition alias_ : record := NewRecord www Second (RD_CNAME cdn).
Definition cdnAddress : record := NewRecord cdn Second (RD_A (Addr4 [192; 0; 2; 1])).
Definition bankAddress : record := NewRecord bank Second (RD_A (Addr4 [192; 0; 2; 66])).
Definition rootNS : record := NewRecord Root Second (RD_NS bank).
Definition zoneNS : record := NewRecord (nm [str "example"]) Second (RD_NS www).
Definition resp : Message :=
  mkMessage 1 (WithAuthoritative true 0) [] [bankAddress; cdnAddress; alias_] [rootNS; zoneNS] [bankAddress] zeroEDNS false.
End Forged.
Lemma bailiwick_exact_witness :
  bailiwickFilter Forged.www Forged.resp = ([Forged.cdnAddress; Forged.alias_], [Forged.zoneNS], []) /\
  (forall r, r ∈ [Forged.cdnAddress; Forged.alias_] <-> r ∈ answers Forged.resp /\
     rtc (alias (answers Forged.resp)) (nameKey Forged.www) (nameKey (r_name r))).
Proof.
  assert (bailiwickFilter Forged.www Forged.resp = ([Forged.cdnAddress; Forged.alias_], [Forged.zoneNS], [])) as E
    by (vm_compute; reflexivity).
  split; [exact E|]. eapply (bailiwick_exact Forged.www Forged.resp); [apply labels_okb_canonical; reflexivity| |exact E].
  intros r Hr. cbn in Hr. repeat (apply elem_of_cons in Hr as [->|Hr]; [first [apply (labels_okb_canonical []); reflexivity|apply labels_okb_canonical; reflexivity]|]). by apply elem_of_nil in Hr.
Defined.
