(* ===== verification/RecursiveLive.v ===== *)
(** * The recursive resolver: what it finds (theorems about Recursive.v)

    Resolution along a path of delegations whose servers answer as the
    delegations and the zones say. *)

From Stdlib Require Import QArith Strings.String.
From S2P Require Import Prelude Name Wire RData RDataNew Message EdnsOptions Netip Compare Authoritative Update ZoneTree ZoneLookup Dnssec Signatures Denial DenialOrder Handler RateLimit Cookies Exchanger Stub Cache Aggressive Recursive RecursiveSound.
Open Scope Z_scope.
Open Scope list_scope.

Import recursive.

(** ** The ranking *)

Lemma stableInsert_perm {A : Type} (less : A -> A -> bool) x l : stableInsert less x l ≡ₚ x :: l.
Proof. induction l as [|y l IH]; cbn; [done|]. destruct (less x y); [done|]. rewrite IH. apply Permutation_swap. Qed.
Lemma SliceStable_perm {A : Type} (less : A -> A -> bool) l : SliceStable less l ≡ₚ l.
Proof.
  unfold SliceStable. cut (forall acc, fold_left (fun acc x => stableInsert less x acc) l acc ≡ₚ acc ++ l); [intros Hc; apply Hc|].
  induction l as [|x l IH]; intros acc; cbn [fold_left]; [by rewrite app_nil_r|].
  rewrite IH, stableInsert_perm. cbn. by rewrite Permutation_middle.
Qed.
Lemma rankServers_perm score servers : rankServers score servers ≡ₚ servers.
Proof. apply SliceStable_perm. Qed.

(** ** Minimised names *)

Lemma minimised_loop_spec fuel n target enc : canonical n -> anc target n -> (length (wire n) < fuel)%nat -> 0 <= enc -> enc < NumLabels n ->
  anc n (minimised_loop fuel n target enc) /\ NumLabels (minimised_loop fuel n target enc) = enc + 1.
Proof.
  intros Hc. revert fuel. induction Hc as [n Hc IH] using name_ind. intros [|fuel] Ha Hf He Hl; [lia|]. cbn [minimised_loop].
  destruct (enc + 1 <? NumLabels n) eqn:E; bool_facts; [|split; [done|lia]].
  destruct (Parent n) as [p|] eqn:Ep.
  - pose proof (up_shorter n p Hc Ep). assert (Equal n p = false) as -> by (apply Equal_false; intros ->; lia).
    pose proof (NumLabels_up n p Hc Ep). destruct (IH p Ep fuel) as [H1 H2]; [by eapply rtc_r|lia..|].
    split; [by eapply rtc_l|done].
  - destruct (canonical_cases n Hc) as [[-> _]|(l & ls & p & _ & _ & Hp & _)]; [|congruence]. change (NumLabels Root) with 0 in *. lia.
Qed.

(** The minimised name is the ancestor of the target one label below the zone. *)
Lemma minimisedQName_spec zone target : canonical target -> anc target zone ->
  anc target (minimisedQName zone target) /\
  (zone = target /\ minimisedQName zone target = target \/
   up (minimisedQName zone target) zone /\ NumLabels (minimisedQName zone target) = NumLabels zone + 1).
Proof.
  intros Hc Ha. pose proof (canonical_anc _ _ Hc Ha) as Hz. pose proof (NumLabels_nonneg _ Hz).
  pose proof (NumLabels_anc _ _ Hc Ha). destruct (decide (zone = target)) as [->|Hne].
  - assert (minimisedQName target target = target) as ->; [|by auto].
    unfold minimisedQName. cbn [minimised_loop]. assert (NumLabels target + 1 <? NumLabels target = false) as -> by lia. done.
  - assert (NumLabels zone < NumLabels target) as Hlt.
    { destruct (decide (NumLabels zone = NumLabels target)) as [E|]; [|lia]. destruct Hne. by apply (anc_same_depth target). }
    destruct (minimised_loop_spec (S (length (wire target))) target target (NumLabels zone)) as [H1 H2]; [done|done|lia|done|done|].
    fold (minimisedQName zone target) in *. set (n := minimisedQName zone target) in *. split; [done|]. right. split; [|done].
    pose proof (canonical_anc _ _ Hc H1) as Hn. destruct (canonical_cases n Hn) as [[E _]|(l & ls & p & _ & _ & Hp & _)].
    + rewrite E in H2. change (NumLabels Root) with 0 in H2. lia.
    + pose proof (NumLabels_up n p Hn Hp). unfold up. rewrite Hp. f_equal.
      apply (anc_same_depth target); [done|by eapply rtc_r|done|lia].
Qed.

(** ** Paths of delegations *)

(** A zone cut on the way to the target: the zone and the addresses of its servers. *)
Abbreviation cut := (Name * list AddrPort)%type.

(** A path from the root to the zone of the target: each zone is below the one
    before, and no server is on the path twice. *)
Definition path_ok (path : list cut) (target : Name) : Prop :=
  (exists roots, path !! 0%nat = Some (Root, roots)) /\
  (forall i z ss z' ss', path !! i = Some (z, ss) -> path !! S i = Some (z', ss') -> anc z' z /\ z' <> z) /\
  (forall i z ss, path !! i = Some (z, ss) -> anc target z) /\
  (forall i j z ss z' ss' s, path !! i = Some (z, ss) -> path !! j = Some (z', ss') -> s ∈ ss -> s ∈ ss' -> i = j).

(** A referral to the zone [z]: its name servers are inside the zone and the
    glue gives addresses of [ss]. *)
Definition refersTo (z : Name) (ss : list AddrPort) (resp : Message) : Prop :=
  RCODE (flags resp) = RCODENoError /\ Authoritative (flags resp) = false /\ referralZone resp = z /\
  exists glued unglued, referral_loop (authorities resp) z (additionals resp) [] [] = (glued, unglued) /\
    glued <> [] /\ forall s, s ∈ glued -> s ∈ ss.
(** There are names below, but no records of the type. *)
Definition emptyNode (resp : Message) : Prop :=
  Authoritative (flags resp) = true /\ RCODE (flags resp) = RCODENoError /\ answers resp = [].
Definition usable (resp : Message) : Prop :=
  Authoritative (flags resp) = true /\ RCODE (flags resp) <> RCODERefused /\ RCODE (flags resp) <> RCODEServFail.

Section Honest.
Context `{Crypto} (r : Recursive) (path : list cut) (target : Name) (t : Z) (final : Message).
(** What the servers of the target's zone say about the names above the target. *)
Context (between : Message -> Prop).

(** The reply of a server of the [i]th zone to a query for [n]. *)
Definition zoneReply (i : nat) (n : Name) (resp : Message) : Prop :=
  match path !! S i with
  | Some (z', ss') => (anc n z' -> refersTo z' ss' resp) /\ (~ anc n z' -> emptyNode resp)
  | None => (n = target -> resp = final) /\ (n <> target -> between resp)
  end.

(** Servers reply, and reply as their zone says; the resolver has what it
    needs to ask them, and nothing about the target yet. *)
Definition honest (K : events) (X : Type) (a : action X) : X -> Prop :=
  match a with
  | CacheGet _ _ _ => fun x => x = None
  | ReadRoots => fun x => x <> [] /\ forall ss, path !! 0%nat = Some (Root, ss) -> forall s, s ∈ x -> s ∈ ss
  | TakeToken _ => fun x => x = true
  | RandomID => fun x => exists v, x = Ok v
  | CtxErr => fun x => x = None
  | Acquire _ => fun x => x = Leader
  | Exchange s q => fun x => exists resp, x = Ok resp /\
      forall i z ss n, path !! i = Some (z, ss) -> s ∈ ss -> asks q n t -> anc target n -> zoneReply i n resp
  | _ => fun _ => True
  end.
Definition honestContract : contract := mkContract (fun _ _ _ => True) honest (fun _ _ _ _ _ h => h).
Abbreviation RUNS := (safe honestContract).

Hypothesis (Hc : canonical target) (Hpath : path_ok path target).

(** A query to servers of the [i]th zone is answered by that zone. *)
Lemma queryAny_honest K i z ss servers n : path !! i = Some (z, ss) -> servers <> [] -> (forall s, s ∈ servers -> s ∈ ss) ->
  anc target n -> RUNS K (queryAny servers n t) (fun _ x => exists resp s, x = Ok (resp, s) /\ zoneReply i n resp).
Proof.
  intros Hi Hne Hin Ha. destruct servers as [|s servers]; [done|]. unfold queryAny. cbn [query_loop bind act safe].
  split; [done|]. intros K1 ? _ _ -> _. cbn [negb bind act safe]. split; [done|]. intros K2 ? _ _ [rid ->] _.
  destruct (queryMessage rid n t) as [q|e] eqn:Eq; [|done]. cbn [bind act safe]. split; [done|]. intros K3 t0 _ _ _ _.
  split; [done|]. intros K4 ? _ _ (resp & -> & Hrep) _. split; [done|]. intros K5 t1 _ _ _ _. split; [done|].
  intros K6 u _ _ _ _. cbn [safe]. exists resp, s. split; [done|]. apply (Hrep i z ss n Hi); [apply Hin; left|by eapply queryMessage_asks|done].
Qed.

Lemma serversFromReferral_honest deeper z ss resp : IsValid z = true -> refersTo z ss resp ->
  exists glued, serversFromReferral deeper resp = Ret glued /\ glued <> [] /\ forall s, s ∈ glued -> s ∈ ss.
Proof.
  intros Hz (_ & _ & <- & glued & un & E & Hne & Hin). exists glued. split; [|done]. unfold serversFromReferral. rewrite E.
  destruct glued as [|s glued]; [done|]. by rewrite (proj2 (Z.ltb_lt 0 (zlen (s :: glued)))) by (unfold zlen; cbn; lia).
Qed.

(** What [iterate] has found: the servers are those of the [i]th zone, and the
    closest zone is between that zone and the next. *)
Definition atZone (i : nat) (servers : list AddrPort) (closest : Name) : Prop :=
  exists z ss, path !! i = Some (z, ss) /\ servers <> [] /\ (forall s, s ∈ servers -> s ∈ ss) /\ anc target closest /\ anc closest z /\
    forall z' ss', path !! S i = Some (z', ss') -> ~ anc closest z'.

Lemma zlen_nonzero {A : Type} (l : list A) : l <> [] -> zlen l =? 0 = false.
Proof. destruct l; [done|]. intros _. apply Z.eqb_neq. unfold zlen. cbn. lia. Qed.

(** The next zone is the one asked for, or below. *)
Lemma next_zone i servers closest z' ss' : atZone i servers closest -> path !! S i = Some (z', ss') ->
  anc z' closest /\ z' <> closest /\ canonical z' /\ anc target z'.
Proof.
  intros (z & ss & Hi & _ & _ & Htc & Hcz & Hno) Hn. destruct Hpath as (_ & Hup & Htz & _). specialize (Htz _ _ _ Hn).
  specialize (Hno _ _ Hn). split_and!; [|intros ->; by destruct Hno|by eapply canonical_anc|done].
  by destruct (anc_total _ _ _ Htz Htc) as [?|?].
Qed.
Lemma enter_zone i z' ss' servers : path !! S i = Some (z', ss') -> servers <> [] -> (forall s, s ∈ servers -> s ∈ ss') ->
  atZone (S i) servers z'.
Proof.
  intros Hn Hne Hin. destruct Hpath as (_ & Hup & Htz & _). exists z', ss'. split_and!; try done; [by eapply Htz|].
  intros z2 ss2 H2 Ha. destruct (Hup _ _ _ _ _ Hn H2) as [Hz Hzne]. destruct Hzne.
  apply anc_antisym; [by eapply canonical_anc, Htz|eapply canonical_anc, Htz; eauto|done|done].
Qed.

Hypothesis (Hfinal : usable final) (Hbetween : forall resp, between resp -> usable resp).

Lemma refused_false rc : rc <> RCODERefused -> rc <> RCODEServFail -> (rc =? RCODERefused) || (rc =? RCODEServFail) = false.
Proof. intros H1 H2. apply orb_false_iff. split; by apply Z.eqb_neq. Qed.

(** One round: a referral leads to the next zone, an empty node to the name
    asked for, the target's own query to the answer. *)
Lemma iterate_round deeper K fuel i servers closest fellBack Q :
  let n := if negb fellBack then minimisedQName closest target else target in
  anc target n -> atZone i servers closest ->
  (forall K' servers' z' ss', path !! S i = Some (z', ss') -> anc n z' -> atZone (S i) servers' z' ->
     RUNS K' (iterate r deeper fuel target t servers' z' fellBack) Q) ->
  (forall K' z' ss', path !! S i = Some (z', ss') -> ~ anc n z' -> RUNS K' (iterate r deeper fuel target t servers n fellBack) Q) ->
  (path !! S i = None -> n = target -> forall K' now, Q K' (Ok (entryFromResponse r target final now))) ->
  (path !! S i = None -> n <> target -> forall K' resp, between resp ->
     RUNS K' (if (RCODE (flags resp) =? RCODENoError) && (zlen (answers resp) =? 0)
              then iterate r deeper fuel target t servers n fellBack else iterate r deeper fuel target t servers closest true) Q) ->
  RUNS K (iterate r deeper (S fuel) target t servers closest fellBack) Q.
Proof.
  intros n Han (z & ss & Hi & Hne & Hin & Htc & Hcz & Hno) Hrefer Hempty Hfin Hbtw. cbn [iterate].
  rewrite zlen_nonzero by done. cbn [bind act safe]. split; [done|]. intros K1 score _ _ _ _. fold n.
  set (ranked := rankServers score servers). pose proof (rankServers_perm score servers) as Hp. fold ranked in Hp.
  eapply safe_bind; [|apply (queryAny_honest K1 i z ss ranked n Hi)|]; [by intros ? ? ? ?| | |done|].
  { intros E. rewrite E in Hp. by apply Permutation_nil in Hp. }
  { intros s Hs. apply Hin. by rewrite <- Hp. }
  intros K2 a _ (resp & used & -> & Hz). unfold zoneReply in Hz.
  destruct (path !! S i) as [[z' ss']|] eqn:En.
  - destruct (decide (inBailiwick z' n = true)) as [Hd|Hd]; rewrite inBailiwick_anc in Hd by by eapply canonical_anc.
    + destruct (proj1 Hz Hd) as (Erc & Eaa & Erz & Hgl). rewrite refused_false by (rewrite Erc; done). rewrite Eaa.
      assert (canonical z') as Cz by (eapply canonical_anc, Hpath, En; done).
      destruct (serversFromReferral_honest deeper z' ss' resp (canonical_valid _ Cz) (conj Erc (conj Eaa (conj Erz Hgl)))) as (glued & -> & Gne & Gin).
      cbn [bind]. rewrite (proj2 (Z.ltb_lt 0 (zlen glued))) by (destruct glued; [done|unfold zlen; cbn; lia]).
      rewrite Erz, (canonical_valid _ Cz). by eapply Hrefer, enter_zone.
    + destruct (proj2 Hz Hd) as (Eaa & Erc & Ean). rewrite refused_false by (rewrite Erc; done). rewrite Eaa.
      assert (Equal n target = false) as ->.
      { apply Equal_false. intros ->. apply Hd. by eapply Hpath. }
      rewrite Erc, Ean. by eapply Hempty.
  - destruct (decide (n = target)) as [En'|Hne'].
    + rewrite (proj1 Hz En'). destruct Hfinal as (Eaa & H1 & H2). rewrite refused_false, Eaa by done.
      rewrite (proj2 (Equal_iff n target)) by done. cbn [bind act safe]. split; [done|]. intros K3 now _ _ _ _.
      split; [done|]. intros K4 u _ _ _ _. by apply Hfin.
    + specialize (proj2 Hz Hne'). intros Hb. destruct (Hbetween resp Hb) as (Eaa & H1 & H2).
      rewrite refused_false, Eaa by done. rewrite (proj2 (Equal_false n target)) by done. by apply Hbtw.
Qed.

(** The answer is found: a round less per label, or per zone when the whole
    name is asked. *)
Lemma iterate_finds deeper fuel : forall K i servers closest fellBack, atZone i servers closest ->
  (if fellBack : bool then (length path - i <= fuel)%nat else NumLabels target - NumLabels closest + 1 <= Z.of_nat fuel) ->
  RUNS K (iterate r deeper fuel target t servers closest fellBack) (fun _ x => exists now, x = Ok (entryFromResponse r target final now)).
Proof.
  induction fuel as [|fuel IH]; intros K i servers closest fellBack Hat Hf; pose proof Hat as (z & ss & Hi & Hne & Hin & Htc & Hcz & Hno).
  { pose proof (lookup_lt_Some _ _ _ Hi). pose proof (NumLabels_anc _ _ Hc Htc). destruct fellBack; cbn match in Hf; exfalso; lia. }
  destruct (minimisedQName_spec closest target Hc Htc) as [Hmin Hcase].
  assert (anc target (if negb fellBack then minimisedQName closest target else target)) as Han by by destruct fellBack.
  assert (forall n, anc target n -> atZone i servers n -> NumLabels closest + 1 <= NumLabels n -> fellBack = false ->
    forall K', RUNS K' (iterate r deeper fuel target t servers n fellBack) (fun _ x => exists now, x = Ok (entryFromResponse r target final now))) as Hadv.
  { intros n Hn Hat' Hl -> K'. apply (IH K' i); [done|]. cbn match in Hf |- *. lia. }
  assert (forall z' ss', path !! S i = Some (z', ss') -> NumLabels closest + 1 <= NumLabels z') as Hdeeper.
  { intros z' ss' Hn. destruct (next_zone i servers closest z' ss' Hat Hn) as (H1 & H2 & H3 & H4).
    pose proof (NumLabels_anc _ _ H3 H1). destruct (decide (NumLabels closest = NumLabels z')); [|lia].
    destruct H2. symmetry. by apply (anc_same_depth target). }
  apply (iterate_round deeper K fuel i servers closest fellBack); try done.
  - intros K' servers' z' ss' Hn _ Hat'. apply (IH K' (S i)); [done|]. specialize (Hdeeper _ _ Hn).
    destruct fellBack; cbn match in Hf |- *; lia.
  - intros K' z' ss' Hn Hnot. destruct fellBack; cbn [negb] in *.
    { destruct Hnot. by eapply Hpath. }
    destruct Hcase as [[-> E]|[Hup Hl]]; [by destruct Hnot; rewrite E; eapply Hpath|].
    apply Hadv; [done| |lia|done]. exists z, ss. split_and!; try done; [by eapply rtc_l|]. intros z2 ss2 H2. rewrite Hn in H2. by injection H2 as <- <-.
  - intros _ _ K' now. by exists now.
  - intros Hn Hnt K' resp Hb. destruct fellBack; cbn [negb] in *; [done|].
    destruct Hcase as [[-> E]|[Hup Hl]]; [by destruct Hnt|]. destruct (_ && _).
    + apply Hadv; [done| |lia|done]. exists z, ss. split_and!; try done; [by eapply rtc_l|]. intros z2 ss2 H2. by rewrite Hn in H2.
    + apply (IH K' i); [done|]. pose proof (NumLabels_anc _ _ Hc Hmin). apply lookup_ge_None in Hn. lia.
Qed.

(** A name of more labels than rounds: the rounds are used up. *)
Lemma iterate_exhausted deeper fuel : (forall resp, between resp -> emptyNode resp) -> forall K i servers closest,
  atZone i servers closest -> NumLabels closest + Z.of_nat fuel < NumLabels target ->
  RUNS K (iterate r deeper fuel target t servers closest false) (fun _ x => x = Err ErrIterationLimit).
Proof.
  intros Hemp. induction fuel as [|fuel IH]; intros K i servers closest Hat Hf; pose proof Hat as (z & ss & Hi & Hne & Hin & Htc & Hcz & Hno); [done|].
  destruct (minimisedQName_spec closest target Hc Htc) as [Hmin [[-> _]|[Hup Hl]]]; [lia|].
  assert (minimisedQName closest target <> target) as Hnt by (intros E; rewrite E in Hl; lia).
  pose proof (canonical_anc _ _ Hc Hmin) as Cm.
  apply (iterate_round deeper K fuel i servers closest false); cbn [negb]; try done.
  - intros K' servers' z' ss' Hn Ha Hat'. apply (IH K' (S i)); [done|]. pose proof (NumLabels_anc _ _ Cm Ha). lia.
  - intros K' z' ss' Hn Hnot. apply (IH K' i); [|lia]. exists z, ss. split_and!; try done; [by eapply rtc_l|].
    intros z2 ss2 H2. rewrite Hn in H2. by injection H2 as <- <-.
  - intros Hn _ K' resp Hb. destruct (Hemp resp Hb) as (_ & -> & ->). cbn [andb Z.eqb]. apply (IH K' i); [|lia].
    exists z, ss. split_and!; try done; [by eapply rtc_l|]. intros z2 ss2 H2. by rewrite Hn in H2.
Qed.

(** *** The whole resolution *)

Hypothesis (Hnsec : aggressiveNSEC r = false) (Hval : hasValidator r = false) (Hdepth : 1 <= maxDepth r) (Hcn : 1 <= maxCNAMEs r).

Lemma atZone_roots servers : servers <> [] -> (forall ss, path !! 0%nat = Some (Root, ss) -> forall s, s ∈ servers -> s ∈ ss) ->
  atZone 0 servers Root.
Proof.
  intros Hne Hin. destruct Hpath as ((roots & H0) & Hup & Htz & _). exists Root, roots. split_and!; try done; [by eapply Hin|by eapply Htz|].
  intros z' ss' H1 Ha. destruct (Hup _ _ _ _ _ H0 H1) as [_ Hne']. destruct Hne'. by inversion Ha.
Qed.

(** [resolveDepth] is [iterate] from the roots, with the whole of it in between. *)
Lemma resolveDepth_honest K n Q : stable Q ->
  (forall K servers, atZone 0 servers Root ->
     RUNS K (iterate r (resolveDepth r n) (Z.to_nat (maxIterations r)) target t servers Root (negb (qnameMin r))) Q) ->
  RUNS K (resolveDepth r (S n) target t) Q.
Proof.
  intros HQ Hit. cbn [resolveDepth bind act safe]. split; [done|]. intros K1 ? _ _ -> _. unfold synthesise. rewrite Hnsec.
  cbn [negb bind act safe]. split; [done|]. intros K2 ? _ _ -> _. unfold resolveDepthInner. cbn [bind act safe].
  split; [done|]. intros K3 roots _ _ [Hne Hin] _. eapply safe_bind; [exact HQ|by apply Hit, atZone_roots|].
  intros K4 e _ He. cbn [bind act safe]. split; [done|]. intros K5 u HK5 _ _ _. split; [done|]. intros K6 ? HK6 _ -> _.
  cbn [safe]. eapply HQ; [|exact He]. by etrans.
Qed.

Lemma filter_filter {A : Type} (f g : A -> bool) l : (forall x, f x = true -> g x = true) -> List.filter f (List.filter g l) = List.filter f l.
Proof.
  intros Hfg. induction l as [|x l IH]; cbn; [done|]. destruct (g x) eqn:Eg; cbn; rewrite IH; [done|].
  destruct (f x) eqn:Ef; [|done]. by rewrite Hfg in Eg.
Qed.
Lemma entry_answers n resp now : let e := entryFromResponse r n resp now in
  recordsAt (e_answer e) n = recordsAt (answers resp) n /\ e_rcode e = RCODE (flags resp) /\
  forall rec, rec ∈ e_answer e -> rec ∈ answers resp.
Proof.
  unfold entryFromResponse. destruct (bailiwickFilter n resp) as [[an au] ad] eqn:E. cbn [e_answer e_rcode].
  injection E as <- _ _. split_and!; [|done|by intros rec [? _]%elem_of_filterb].
  apply filter_filter. intros x ->%Equal_iff. rewrite bool_decide_eq_true. by apply cnameChain_spec.
Qed.

(** The answer at the target is no alias to follow. *)
Definition direct : Prop := t = rrtype.CNAME \/ forall rec, rec ∈ answers final -> r_name rec = target -> RType rec <> rrtype.CNAME.

Lemma ResolveEntry_honest K : direct -> NumLabels target + 1 <= maxIterations r ->
  RUNS K (ResolveEntry r target t) (fun _ x => exists e, x = Ok e /\ e_answer e = recordsAt (answers final) target /\ e_rcode e = RCODE (flags final)).
Proof.
  intros Hdir Hit. unfold ResolveEntry. cbn [bind act safe]. split; [done|]. intros K1 ? _ _ -> _.
  unfold resolveDepthFollow. rewrite (proj2 (Z.leb_gt (maxCNAMEs r) 0)) by lia.
  destruct (Z.to_nat (maxCNAMEs r)) as [|c] eqn:Ec; [lia|]. cbn [follow_loop]. rewrite bool_decide_eq_false_2 by apply not_elem_of_nil.
  destruct (Z.to_nat (maxDepth r)) as [|d] eqn:Ed; [lia|].
  eapply safe_bind with (Q := fun _ a => exists e, a = Ok e /\ e_answer e = recordsAt (answers final) target /\ e_rcode e = RCODE (flags final));
    [by intros ? ? ? ?| |].
  - eapply safe_bind; [|apply resolveDepth_honest|]; [| |intros K2 servers Hat; apply (iterate_finds _ _ K2 0); [done|]|]; [by intros ? ? ? ?..| |].
    { change (NumLabels Root) with 0. destruct Hpath as ((roots & H0) & Hup & Htz & _).
      assert (Z.of_nat (length path) <= NumLabels target + 1).
      { assert (forall i z ss, path !! i = Some (z, ss) -> Z.of_nat i <= NumLabels z) as Hgrow.
        { induction i as [|i IHi]; intros z ss Hi; [apply NumLabels_nonneg; by eapply canonical_anc, Htz|].
          destruct (path !! i) as [[z0 ss0]|] eqn:E0; [|apply lookup_ge_None in E0; apply lookup_lt_Some in Hi; lia].
          destruct (Hup _ _ _ _ _ E0 Hi) as [Ha Hne]. specialize (IHi _ _ eq_refl). pose proof (Htz _ _ _ Hi) as Ht.
          pose proof (canonical_anc _ _ Hc Ht) as Cz. pose proof (NumLabels_anc _ _ Cz Ha).
          destruct (decide (NumLabels z0 = NumLabels z)); [|lia]. destruct Hne. by apply (anc_same_depth z). }
        destruct (path !! (length path - 1)%nat) as [[z ss]|] eqn:E.
        - pose proof (Hgrow _ _ _ E). pose proof (NumLabels_anc _ _ Hc (Htz _ _ _ E)). lia.
        - apply lookup_ge_None in E. apply lookup_lt_Some in H0. lia. }
      destruct (qnameMin r); cbn [negb]; cbn match; lia. }
    intros K2 a _ (now & ->). destruct (entry_answers target final now) as (Ea & Erc & Esub).
    cbn [e_answer e_authority e_additional e_rcode e_aa e_ad e_expiresAt zeroEntry zlen length Z.of_nat Z.eqb andb].
    destruct (t =? rrtype.CNAME) eqn:Et; [eexists; split_and!; done|]. bool_facts.
    destruct (pickCNAMETarget _ target) as [x|] eqn:Ep; [|eexists; split_and!; done].
    apply pickCNAMETarget_spec in Ep as (rec & Hin & Ho & Ha). destruct Hdir as [?|Hd]; [done|].
    destruct (Hd rec (Esub _ Hin) Ho). by eapply cname_record_type.
  - intros K2 a _ (e & -> & Ea & Erc). rewrite Hval. unfold finishEntry, harvest. rewrite Hnsec. cbn [andb bind safe]. by exists e.
Qed.

Lemma ResolveEntry_exhausted K : (forall resp, between resp -> emptyNode resp) -> qnameMin r = true -> 0 <= maxIterations r < NumLabels target ->
  RUNS K (ResolveEntry r target t) (fun _ x => x = Err ErrIterationLimit).
Proof.
  intros Hemp Hq Hit. unfold ResolveEntry. cbn [bind act safe]. split; [done|]. intros K1 ? _ _ -> _.
  unfold resolveDepthFollow. rewrite (proj2 (Z.leb_gt (maxCNAMEs r) 0)) by lia.
  destruct (Z.to_nat (maxCNAMEs r)) as [|c] eqn:Ec; [lia|]. cbn [follow_loop]. rewrite bool_decide_eq_false_2 by apply not_elem_of_nil.
  destruct (Z.to_nat (maxDepth r)) as [|d] eqn:Ed; [lia|].
  eapply safe_bind with (Q := fun _ a => a = Err ErrIterationLimit); [by intros ? ? ? ?| |by intros K2 ? _ ->].
  eapply safe_bind; [|apply resolveDepth_honest|]; [| |intros K2 servers Hat; rewrite Hq; apply (iterate_exhausted _ _ Hemp K2 0); [done|]|];
    [by intros ? ? ? ?..| |by intros K2 ? _ ->].
  change (NumLabels Root) with 0. pose proof (NumLabels_nonneg _ Hc). lia.
Qed.
End Honest.

(** ** Executions *)

Lemma returns_det {A : Type} (p : prog A) a b : returns p a -> returns p b -> a = b.
Proof.
  induction p as [A a'|A X a' k IH|A p1 IH1 p2 IH2 k IHk]; cbn [returns]; [by intros <- <-|done|].
  intros (x1 & y1 & ? & ? & ?) (x2 & y2 & ? & ? & ?). assert (x1 = x2) as -> by eauto. assert (y1 = y2) as -> by eauto. eauto.
Qed.
Lemma returns_stuck {A : Type} (p : prog A) a ev p' : returns p a -> ~ pstep p ev p'.
Proof.
  revert p'. induction p as [A a'|A X a' k IH|A p1 IH1 p2 IH2 k IHk]; intros p'; cbn [returns pstep]; [by intros _ []|done|].
  intros (x & y & Hx & Hy & Hk) [(p1' & Hp & _)|[(p2' & Hp & _)|(a' & b & Ha & Hb & Hp)]].
  - by eapply IH1.
  - by eapply IH2.
  - assert (a' = x) as -> by eauto using returns_det. assert (b = y) as -> by eauto using returns_det. by eapply IHk.
Qed.

(** Every action has results, so a tree that cannot go on has returned. *)
Lemma stuck_returns {A : Type} (p : prog A) : (forall ev p', ~ pstep p ev p') -> exists a, returns p a.
Proof.
  induction p as [A a'|A X a' k IH|A p1 IH1 p2 IH2 k IHk]; cbn [returns pstep]; intros Hs; [by eexists| |].
  - exfalso. apply (Hs (Ev a' (OneServer.o X a')) (k (OneServer.o X a'))). eauto.
  - destruct IH1 as [x Hx]; [intros ev p' Hp; eapply Hs; left; eauto|].
    destruct IH2 as [y Hy]; [intros ev p' Hp; eapply Hs; right; left; eauto|].
    destruct (IHk x y) as [a Ha]; [intros ev p' Hp; eapply Hs; right; right; eauto|]. exists a, x, y. done.
Qed.

(** [p] runs to the end in any of its executions in which the actions have
    honest results, and what it returns then satisfies [P]. *)
Definition always {A : Type} (path : list cut) (target : Name) (t : Z) (final : Message) (between : Message -> Prop)
    (p : prog A) (P : A -> Prop) : Prop :=
  forall h p', psteps p h p' -> (forall ev, ev ∈ h -> legal (honestContract path target t final between) (known h) ev) ->
    (forall ev p'', ~ pstep p' ev p'') -> exists a, returns p' a /\ P a.

Lemma always_intro {A : Type} path target t final between (p : prog A) (P : A -> Prop) :
  safe (honestContract path target t final between) (fun _ => True) p (fun _ => P) -> always path target t final between p P.
Proof.
  intros Hp h p' Hs Hl Hstuck. destruct (stuck_returns p' Hstuck) as [a Ha]. exists a. split; [done|].
  assert (safe (honestContract path target t final between) (fun _ => True) p' (fun _ => P)) as Hp'; [|by eapply safe_returns in Hp'].
  clear Ha Hstuck. revert Hl. generalize (known h) as K. induction Hs as [p|p ev p1 h p2 H1 Hs IH]; intros K Hl; [done|].
  apply (IH) with (K := K); [|intros e He; apply Hl; by right].
  destruct (safe_step _ p p1 ev (fun _ => True) (fun _ => True) (fun _ => P) ltac:(by intros ? ? ? ?) Hp H1) as [_ Hn].
  apply Hn; [done|done|done|]. specialize (Hl ev ltac:(left)). by destruct ev.
Qed.

(** C23. Along a path of delegations from the roots to the zone of the target,
    whose servers refer to the next zone for names in it, answer that a name
    between two cuts is empty, and answer the target's own query with the
    authoritative response [final] (in the target's zone the names above it get
    any authoritative reply but REFUSED and SERVFAIL): starting with nothing
    cached, every execution of [ResolveEntry] ends, and returns exactly the
    answer records of [final] owned by the target and its RCODE -- with and
    without QNAME minimisation, whatever the ranking of the servers, as long as
    the iteration limit is above the number of labels of the target. *)
Theorem delegation_resolves `{Crypto} (r : Recursive) (path : list cut) (target : Name) (t : Z) (final : Message) :
  canonical target -> path_ok path target -> usable final ->
  t = rrtype.CNAME \/ (forall rec, rec ∈ answers final -> r_name rec = target -> RType rec <> rrtype.CNAME) ->
  aggressiveNSEC r = false -> hasValidator r = false -> 1 <= maxDepth r -> 1 <= maxCNAMEs r -> NumLabels target < maxIterations r ->
  always path target t final usable (ResolveEntry r target t)
    (fun x => exists e, x = Ok e /\ e_answer e = recordsAt (answers final) target /\ e_rcode e = RCODE (flags final)).
Proof.
  intros Hc Hp Hu Hd Hn Hv H1 H2 Hi. apply always_intro. apply ResolveEntry_honest; auto; lia.
Qed.

(** With QNAME minimisation, on by default, a name of more labels than the
    iteration limit, 30 by default, is never resolved along such a path when the
    servers of its zone, too, answer that the names above it are empty: every
    execution ends with [ErrIterationLimit], since a round is spent on each
    label.  The names of ip6.arpa have 34. *)
Theorem minimisation_exhausts_iterations `{Crypto} (r : Recursive) (path : list cut) (target : Name) (t : Z) (final : Message) :
  canonical target -> path_ok path target -> usable final -> qnameMin r = true ->
  aggressiveNSEC r = false -> hasValidator r = false -> 1 <= maxDepth r -> 1 <= maxCNAMEs r ->
  0 <= maxIterations r < NumLabels target ->
  always path target t final emptyNode (ResolveEntry r target t) (fun x => x = Err ErrIterationLimit).
Proof.
  intros Hc Hp Hu Hq Hn Hv H1 H2 Hi. apply always_intro. apply ResolveEntry_exhausted; auto.
  intros resp (H3 & H4 & _). split; [done|]. rewrite H4. done.
Qed.

(** *** A zone delegated from the root *)
Module Delegated.
Definition rootServer : AddrPort := mkAddrPort (Addr4 [192; 0; 2; 1]) 53.
Definition zoneServer : AddrPort := mkAddrPort (Addr4 [192; 0; 2; 2]) 53.

Section Zone.
Variables (zone target : Name) (ns : Name) (t : Z) (final : Message).

Definition path : list cut := [(Root, [rootServer]); (zone, [zoneServer])].
Definition referral : Message :=
  mkMessage 0 (WithResponse true 0) [] [] [NewRecord zone Second (RD_NS ns)]
    [NewRecord ns Second (RD_A (ap_addr zoneServer))] zeroEDNS false.
Definition empty_ : Message := mkMessage 0 (WithAuthoritative true (WithResponse true 0)) [] [] [] [] zeroEDNS false.
Definition serve (s : AddrPort) (q : Message) : Message :=
  match questions q with
  | [question] => if bool_decide (s = rootServer) then (if inBailiwick zone (q_name question) then referral else empty_)
                  else if Equal (q_name question) target then final else empty_
  | _ => zeroMessage
  end.
Definition o (X : Type) (a : action X) : X :=
  match a in action X return X with
  | ReadRoots => [rootServer]
  | Exchange s q => Ok (serve s q)
  | CacheGet n cl t => OneServer.o _ (CacheGet n cl t)
  | CachePut n cl t e => OneServer.o _ (CachePut n cl t e)
  | TimeNow => OneServer.o _ TimeNow
  | ReadNSEC => None
  | ReadNSEC3 => None
  | InsertNSEC _ => Ok tt
  | InsertNSEC3 _ _ _ => Ok tt
  | SweepIndexes _ => tt
  | WriteRoots _ => tt
  | ReadScores => fun _ => NewScore 0 0
  | RecordStat _ _ _ => tt
  | TakeToken _ => true
  | RandomID => Ok 4711
  | CtxErr => None
  | Acquire _ => Leader
  | Await _ => Err ErrContext
  | Release _ _ => tt
  | MarkNS _ => true
  | UnmarkNS _ => tt
  | Validate _ _ => Ok StatusInsecure
  end.

Hypothesis (Ht : canonical target) (Hz : anc target zone) (Hzr : zone <> Root)
  (Hglue : referral_loop (authorities referral) zone (additionals referral) [] [] = ([zoneServer], [])).

Lemma path_good : path_ok path target.
Proof.
  assert (canonical zone) as Cz by by eapply canonical_anc. split_and!.
  - by eexists.
  - intros [|[|i]] z ss z' ss' H1 H2; cbn in H1, H2; simplify_eq. split; [by apply anc_root|done].
  - intros [|[|i]] z ss H1; cbn in H1; simplify_eq; [by apply anc_root|done].
  - intros [|[|i]] [|[|j]] z ss z' ss' s H1 H2; cbn in H1, H2; simplify_eq; try done;
      intros ?%list_elem_of_singleton ?%list_elem_of_singleton; subst; done.
Qed.

Lemma o_honest between K X (a : action X) : between empty_ -> honest path target t final between K X a (o X a).
Proof.
  intros Hb. destruct a; try done; cbn [honest o].
  - split; [done|]. intros ss H0. cbn in H0. by injection H0 as <-.
  - by exists 4711.
  - exists (serve s q). split; [done|]. intros i z ss n Hi Hin Ha Han. pose proof (canonical_anc _ _ Ht Han) as Cn.
    unfold serve. unfold asks in Ha. rewrite Ha. cbn [q_name NewQuestion]. destruct i as [|[|i]]; cbn in Hi; simplify_eq;
      apply list_elem_of_singleton in Hin as ->; unfold zoneReply; cbn [path lookup list_lookup].
    + rewrite bool_decide_eq_true_2 by done. split; intros Hd; rewrite <- inBailiwick_anc in Hd by done.
      * rewrite Hd. do 3 (split; [done|]). exists [zoneServer], []. by split_and!.
      * apply not_true_is_false in Hd. rewrite Hd. done.
    + rewrite bool_decide_eq_false_2 by done. split; intros Hd.
      * by rewrite (proj2 (Equal_iff n target)).
      * by rewrite (proj2 (Equal_false n target)).
Qed.

Lemma always_o {A : Type} (p : prog A) between (P : A -> Prop) : between empty_ ->
  always path target t final between p P -> P (exec o p).2.
Proof.
  intros Hb Hal. destruct (exec_steps o p) as (p' & Hs & Hr). destruct (Hal _ p' Hs) as (a & Ha & HP).
  - intros ev Hin. eapply exec_legal; [|exact Hin]. intros X b. by apply o_honest.
  - intros ev p'' Hp. by eapply returns_stuck.
  - by rewrite (returns_det _ _ _ Hr Ha).
Qed.
End Zone.
End Delegated.

Module Found.
Definition zone : Name := nm [str "example"].
Definition www : Name := nm [str "www"; str "example"].
Definition ns : Name := nm [str "ns"; str "example"].
Definition address : record := NewRecord www Second (RD_A (Addr4 [192; 0; 2; 80])).
Definition final : Message := mkMessage 0 (WithAuthoritative true (WithResponse true 0)) [] [address] [] [] zeroEDNS false.
Definition resolver : Recursive := OneServer.r.
Lemma www_canonical : canonical www.
Proof. apply labels_okb_canonical. reflexivity. Qed.
Lemma www_zone : anc www zone.
Proof. apply (anc_nm [str "www"] [str "example"]). reflexivity. Qed.
End Found.
(** The records of the answer, found by way of the delegation. *)
Lemma delegation_resolves_witness :
  exists e, (exec (Delegated.o Found.zone Found.www Found.ns Found.final) (ResolveEntry (H := plainCrypto) Found.resolver Found.www rrtype.A)).2 = Ok e /\
    e_answer e = [Found.address] /\ e_rcode e = RCODENoError.
Proof.
  destruct (Delegated.always_o Found.zone Found.www Found.ns rrtype.A Found.final Found.www_canonical ltac:(done) eq_refl
    (ResolveEntry (H := plainCrypto) Found.resolver Found.www rrtype.A) usable
    (fun x => exists e, x = Ok e /\ e_answer e = recordsAt (answers Found.final) Found.www /\ e_rcode e = RCODE (flags Found.final))) as (e & He & Ha & Hr).
  - by split_and!.
  - apply (delegation_resolves (H := plainCrypto) Found.resolver (Delegated.path Found.zone) Found.www rrtype.A Found.final);
      [apply Found.www_canonical|apply Delegated.path_good; [apply Found.www_canonical|apply Found.www_zone|done]|by split_and!| |done|done|done|done|done].
    right. intros rec ->%list_elem_of_singleton _. done.
  - exists e. split_and!; [exact He|rewrite Ha; vm_compute; reflexivity|exact Hr].
Defined.

(** The name of an address of 2001:db8::/32 in the reverse tree, whose zone is
    delegated from the root. *)
Module Reverse.
Definition zone : Name := nm [str "ip6"; str "arpa"].
Definition ns : Name := nm [str "ns"; str "ip6"; str "arpa"].
Definition nibbles : list bytes := repeat (str "0") 24 ++ [str "8"; str "b"; str "d"; str "0"; str "1"; str "0"; str "0"; str "2"].
Definition ptr : Name := nm (nibbles ++ [str "ip6"; str "arpa"]).
Definition host : record := NewRecord ptr Second (RD_PTR (nm [str "host"; str "example"])).
Definition final : Message := mkMessage 0 (WithAuthoritative true (WithResponse true 0)) [] [host] [] [] zeroEDNS false.
Lemma ptr_canonical : canonical ptr.
Proof. apply labels_okb_canonical. vm_compute. reflexivity. Qed.
Lemma ptr_zone : anc ptr zone.
Proof. apply (anc_nm nibbles [str "ip6"; str "arpa"]). vm_compute. reflexivity. Qed.
End Reverse.
Lemma minimisation_exhausts_iterations_witness :
  NumLabels Reverse.ptr = 34 /\
  (exec (Delegated.o Reverse.zone Reverse.ptr Reverse.ns Reverse.final)
     (ResolveEntry (H := plainCrypto) OneServer.r Reverse.ptr rrtype.PTR)).2 = Err ErrIterationLimit.
Proof.
  assert (NumLabels Reverse.ptr = 34) as E by (vm_compute; reflexivity). split; [exact E|].
  apply (Delegated.always_o Reverse.zone Reverse.ptr Reverse.ns rrtype.PTR Reverse.final Reverse.ptr_canonical ltac:(done) eq_refl _ emptyNode (fun x => x = Err ErrIterationLimit));
    [by split_and!|].
  apply (minimisation_exhausts_iterations (H := plainCrypto) OneServer.r (Delegated.path Reverse.zone) Reverse.ptr rrtype.PTR Reverse.final);
    [apply Reverse.ptr_canonical|apply Delegated.path_good; [apply Reverse.ptr_canonical|apply Reverse.ptr_zone|done]|by split_and!|done|done|done|done|done|].
  rewrite E. cbn. lia.
Defined.

(** ** Two queries in a row

    [run] executes them one after the other on the resolver's own cache. *)
Module Twice.
#[local] Existing Instance plainCrypto.
#[local] Instance float : Float64 := {| rnd := fun x => x; toInt64 := fun x => Z.quot (Qnum x) (Zpos (Qden x)) |}.
#[local] Instance hash : MapHash cacheKey := {| maphash k := zlen k.1.1 |}.
#[local] Instance inKeyOrder : MapRange := {| mapRange _ _ _ _ := map_to_list; mapRange_perm _ _ _ _ m := reflexivity _ |}.

Definition www : Name := nm [str "www"; str "example"].
Definition cdn : Name := nm [str "cdn"; str "example"].
Definition server : AddrPort := mkAddrPort (Addr4 [192; 0; 2; 1]) 53.
Definition wwwAddress : record := NewRecord www (300 * Second) (RD_A (Addr4 [192; 0; 2; 66])).
Definition wwwAlias : record := NewRecord www (300 * Second) (RD_CNAME cdn).
Definition cdnAddress : record := NewRecord cdn (300 * Second) (RD_A (Addr4 [192; 0; 2; 80])).

Definition query : Message := mkMessage 7 (WithRecursionDesired true 0) [NewQuestion www rrtype.A] [] [] [] zeroEDNS false.
(** A server that answers from a list of records, with the given flags. *)
Definition net_ (fl : Flags) (records : list record) (s : AddrPort) (q : Message) : res Message :=
  Ok (mkMessage (Message.id q) fl (questions q)
        (List.filter (fun rec => existsb (fun question => Equal (r_name rec) (q_name question)) (questions q)) records) [] [] zeroEDNS false).
Definition environment_ (fl : Flags) (records : list record) (status : ValidationStatus) : environment :=
  mkEnv (fun _ => 1000 * Second) (fun n => Ok (Z.of_nat n)) (fun _ => net_ fl records) (fun _ => None) (fun _ _ => Ok status)
    (MemoryCache.NewMemoryCache []).

(** The replies to a query asked twice, and the messages sent for it. *)
Definition twice (r : Recursive) (E : environment) : Message * Message * list Message :=
  let '(m1, w) := run E r (ServeDNS r query) (newWorld r [server]) in
  let '(m2, w) := run E r (ServeDNS r query) w in
  (m1, m2, map snd (w_sent w)).

Definition authoritative : Flags := WithAuthoritative true (WithResponse true 0).
Definition validating : Recursive := mkRecursive 30 8 8 true (3600 * Second) (86400 * Second) false true false None 1024 false 0.
End Twice.

(** C40. The validator judges the answer to a query bogus, and the client gets
    SERVFAIL with the extended error DNSSEC Bogus; but the answer was cached
    before it was validated, and the same query, asked again, is answered from
    the cache: NOERROR, the bogus record, and the AD bit the upstream server
    set. *)
Theorem bogus_answer_served_from_cache :
  let '(m1, m2, sent) := Twice.twice Twice.validating
    (Twice.environment_ (WithAuthenticData true Twice.authoritative) [Twice.wwwAddress] StatusBogus) in
  RCODE (flags m1) = RCODEServFail /\ answers m1 = [] /\ opts (edns m1) = [NewExtendedError ExtendedErrorDNSSECBogus (str "DNSSEC bogus")] /\
  RCODE (flags m2) = RCODENoError /\ answers m2 = [Twice.wwwAddress] /\ AuthenticData (flags m2) = true /\ length sent = 2%nat.
Proof. vm_compute. repeat split; reflexivity. Qed.

(** A name that is an alias: the first query for it is answered with the
    alias and the address at its target; the second, from the cache, with the
    alias alone, because the entry cached under the name is that of the chain's
    first leg and a hit is returned without following it. *)
Theorem cached_alias_not_followed :
  let '(m1, m2, sent) := Twice.twice OneServer.r
    (Twice.environment_ Twice.authoritative [Twice.wwwAlias; Twice.cdnAddress] StatusInsecure) in
  answers m1 = [Twice.wwwAlias; Twice.cdnAddress] /\ answers m2 = [Twice.wwwAlias] /\
  RCODE (flags m1) = RCODENoError /\ RCODE (flags m2) = RCODENoError /\ length sent = 4%nat.
Proof. vm_compute. repeat split; reflexivity. Qed.

(** An answer the validator calls insecure keeps the AD bit of the upstream
    server: the client is told that a forged answer was authenticated. *)
Theorem insecure_answer_keeps_upstream_ad :
  let '(m1, _, _) := Twice.twice Twice.validating
    (Twice.environment_ (WithAuthenticData true Twice.authoritative) [Twice.wwwAddress] StatusInsecure) in
  RCODE (flags m1) = RCODENoError /\ answers m1 = [Twice.wwwAddress] /\ AuthenticData (flags m1) = true.
Proof. vm_compute. repeat split; reflexivity. Qed.
