(* ===== verification/Forward.v ===== *)
(** * The caching forwarder (src/forward)

    The LRU cache of cache.go over the elements of its list; the filter of
    upstream responses (bailiwick.go); the messages built for the upstream and
    for clients, and the decision what to cache (forward.go); and the handler
    as a transition system: what a client's goroutine does while it holds a
    lock is one step, and the upstream answers at any time.  Logging and the
    release of the upstream's connections are not modelled. *)

From Stdlib Require Import Strings.String.
From S2P Require Import Prelude Name Wire RData Message EdnsOptions Netip Authoritative Handler Exchanger.
Open Scope Z_scope.
Open Scope list_scope.

Module forward.

(** ** cache.go *)

Record entry := mkEntry {
  answers_ : list Record_; authority : list Record_; additional : list Record_; rcode : Z; ad : bool; insertedAt : Z; expiresAt : Z }.
(** [cacheKey]: name, type, class and the DO bit. *)
Definition cacheKey : Type := bytes * Z * Z * bool.
Definition makeKey (name : Name) (qtype class : Z) (doBit : bool) : cacheKey := (AppendWire name [], qtype, class, doBit).

Module cache.
(** [lru] lists the elements, front first; an element is the number it was
    made as, and [elems] holds its item. *)
Record t := mk { cap : Z; lru : list nat; elems : gmap nat (cacheKey * entry); m : gmap cacheKey nat; next : nat }.

Definition newCache (capacity : Z) : option t := if capacity <=? 0 then None else Some (mk capacity [] ∅ ∅ 0).

(** container/list: [Remove], [MoveToFront], [PushFront] and [Back]. *)
Definition remove (el : nat) (l : list nat) : list nat := List.filter (fun x => negb (x =? el)%nat) l.
Definition moveToFront (el : nat) (l : list nat) : list nat := el :: remove el l.

Definition get (c : option t) (name : Name) (qtype class : Z) (doBit : bool) (now : Z) : option entry * option t :=
  match c with
  | None => (None, c)
  | Some c0 =>
      let k := makeKey name qtype class doBit in
      match m c0 !! k with
      | None => (None, c)
      | Some el =>
          match elems c0 !! el with
          | None => (None, c)
          | Some (_, val) =>
              if negb (now <? expiresAt val)
              then (None, Some (mk (cap c0) (remove el (lru c0)) (delete el (elems c0)) (delete k (m c0)) (next c0)))
              else (Some val, Some (mk (cap c0) (moveToFront el (lru c0)) (elems c0) (m c0) (next c0)))
          end
      end
  end.

Definition put (c : option t) (name : Name) (qtype class : Z) (doBit : bool) (e : entry) : option t :=
  match c with
  | None => c
  | Some c0 =>
      let k := makeKey name qtype class doBit in
      match m c0 !! k with
      | Some el => Some (mk (cap c0) (moveToFront el (lru c0)) (<[el := (k, e)]> (elems c0)) (m c0) (next c0))
      | None =>
          let el := next c0 in
          let c1 := mk (cap c0) (el :: lru c0) (<[el := (k, e)]> (elems c0)) (<[k := el]> (m c0)) (S el) in
          if cap c1 <? zlen (lru c1) then
            match last (lru c1) with
            | None => Some c1
            | Some oldest => Some (mk (cap c1) (remove oldest (lru c1)) (delete oldest (elems c1))
                                     (match elems c1 !! oldest with Some (k', _) => delete k' (m c1) | None => m c1 end) (next c1))
            end
          else Some c1
      end
  end.

Definition len (c : option t) : Z := match c with None => 0 | Some c0 => zlen (lru c0) end.
Definition clear (c : option t) : option t :=
  match c with None => None | Some c0 => Some (mk (cap c0) [] ∅ ∅ (next c0)) end.
End cache.

(** ** bailiwick.go *)

(** [isAtOrAbove]: the walk over the parents, one per label and one more. *)
Fixpoint above_loop (fuel : nat) (ancestor cur : Name) : bool :=
  match fuel with
  | O => false
  | S fuel =>
      if negb (IsValid cur) then false
      else if Equal cur ancestor then true
      else match Parent cur with
           | None => false
           | Some p => if Equal cur p then false else above_loop fuel ancestor p
           end
  end.
Definition isAtOrAbove (ancestor descendant : Name) : bool := above_loop (S (length (wire descendant))) ancestor descendant.

(** One pass over the answers: the names reached, and whether one was added. *)
Definition chainStep (st : gset bytes * bool) (r : Record_) : gset bytes * bool :=
  let '(chain, grew) := st in
  if negb (RType r =? rrtype.CNAME) then (chain, grew)
  else if negb (bool_decide (nameKey (r_name r) ∈ chain)) then (chain, grew)
  else match asCNAME r with
       | None => (chain, grew)
       | Some target => if bool_decide (nameKey target ∈ chain) then (chain, grew) else ({[nameKey target]} ∪ chain, true)
       end.
(** Every pass but the last adds a name, so that one more than the records is enough. *)
Fixpoint chain_loop (fuel : nat) (records : list Record_) (chain : gset bytes) : gset bytes :=
  match fuel with
  | O => chain
  | S fuel => let '(chain, grew) := fold_left chainStep records (chain, false) in
              if negb grew then chain else chain_loop fuel records chain
  end.
Definition cnameChain (qname : Name) (records : list Record_) : gset bytes := chain_loop (S (length records)) records {[nameKey qname]}.

Definition keptAnswers (qname : Name) (resp : Message) : list Record_ :=
  List.filter (fun r => bool_decide (nameKey (r_name r) ∈ cnameChain qname (answers resp))) (answers resp).
Definition keptAuthority (qname : Name) (resp : Message) : list Record_ :=
  List.filter (fun r =>
    if negb (isAtOrAbove (r_name r) qname) then false else negb (IsRoot (r_name r) && negb (IsRoot qname))) (authorities resp).
Definition keptAdditional (qname : Name) (resp : Message) : list Record_ :=
  let referenced := omap (fun r => nameKey <$> asCNAME r) (keptAnswers qname resp) ++
                    omap (fun r => nameKey <$> asNS r) (keptAuthority qname resp) in
  List.filter (fun r => (RType r =? rrtype.OPT) || bool_decide (nameKey (r_name r) ∈ referenced)) (additionals resp).

(** The loops that add questions and records to a builder. *)
Definition addQuestions (qs : list Question) (b : MessageBuilder.t) : MessageBuilder.t :=
  fold_left (fun b q => MessageBuilder.Question_ q b) qs b.
Definition addRecords (an au add : list Record_) (b : MessageBuilder.t) : MessageBuilder.t :=
  let b := fold_left (fun b r => MessageBuilder.Answer r b) an b in
  let b := fold_left (fun b r => MessageBuilder.Authority r b) au b in
  fold_left (fun b r => MessageBuilder.Additional r b) add b.

Definition filterBailiwick (qname : Name) (resp : Message) : Message :=
  let b := MessageBuilder.Flags_ (flags resp) (MessageBuilder.ID (Message.id resp) MessageBuilder.NewMessageBuilder) in
  let b := addQuestions (questions resp) b in
  let b := addRecords (keptAnswers qname resp) (keptAuthority qname resp) (keptAdditional qname resp) b in
  let b := if hasEDNS resp then MessageBuilder.EDNS_ (edns resp) b else b in
  match fst (MessageBuilder.Build b) with Ok out => out | Err _ => resp end.

(** ** forward.go: messages *)

(** [m, _ := b.Build()] *)
Definition buildOrZero (b : MessageBuilder.t) : Message := match fst (MessageBuilder.Build b) with Ok m => m | Err _ => zeroMessage end.

Definition edsoDOBit (q : Message) : bool := if hasEDNS q then do_ (edns q) else false.

Definition isForwardSafeEDNSOption (c : Z) : bool :=
  (c =? EDNSOptionPadding) || (c =? EDNSOptionTCPKeepalive) || (c =? EDNSOptionDAU) || (c =? EDNSOptionDHU) ||
  (c =? EDNSOptionN3U) || (c =? EDNSOptionExtendedDNS).

(** [id_] is the random ID, 0 when reading random numbers fails. *)
Definition buildForwardQuery (id_ : Z) (q : Message) : Message :=
  let b := MessageBuilder.CheckingDisabled (CheckingDisabled (flags q))
             (MessageBuilder.RecursionDesired true (MessageBuilder.ID id_ MessageBuilder.NewMessageBuilder)) in
  let b := addQuestions (questions q) b in
  let b := if hasEDNS q then
             let e := edns q in
             let eb := EDNSBuilder.DO (do_ e) (EDNSBuilder.Version (version e)
                         (EDNSBuilder.ExtendedRCODE (extRCODE e) (EDNSBuilder.UDPSize (udpSize e) EDNSBuilder.NewEDNSBuilder))) in
             let eb := fold_left (fun eb o => if negb (isForwardSafeEDNSOption (code o)) then eb else EDNSBuilder.Option o eb) (opts e) eb in
             match fst (EDNSBuilder.Build eb) with Ok ed => MessageBuilder.EDNS_ ed b | Err _ => b end
           else b in
  buildOrZero b.

(** The header of a reply to [in_], with [ad] and [rcode], and its question. *)
Definition replyHeader (in_ : Message) (ad : bool) (rcode : Z) : MessageBuilder.t :=
  addQuestions (questions in_)
    (MessageBuilder.RCODE rcode (MessageBuilder.AuthenticData ad (MessageBuilder.CheckingDisabled (CheckingDisabled (flags in_))
      (MessageBuilder.RecursionAvailable true (MessageBuilder.RecursionDesired (RecursionDesired (flags in_))
        (MessageBuilder.Response true (MessageBuilder.ID (Message.id in_) MessageBuilder.NewMessageBuilder))))))).

Definition rebuildForClient (in_ resp : Message) : Message :=
  let b := replyHeader in_ (AuthenticData (flags resp)) (RCODE (flags resp)) in
  let b := addRecords (answers resp) (authorities resp) (additionals resp) b in
  buildOrZero (if hasEDNS resp then MessageBuilder.EDNS_ (edns resp) b else b).

Definition adjustTTL (r : Record_) (elapsed : Z) : Record_ :=
  mkRecord (r_name r) (r_class r) (Z.max (r_ttl r - elapsed) 0) (r_rd r).

Definition buildFromCache (in_ : Message) (e : entry) (now : Z) : Message :=
  let elapsed := timeSub now (insertedAt e) in
  let adjusted := map (fun r => adjustTTL r elapsed) in
  buildOrZero (addRecords (adjusted (answers_ e)) (adjusted (authority e)) (adjusted (additional e)) (replyHeader in_ (ad e) (rcode e))).

Definition buildErrorResponse (q : Message) (code : Z) : Message :=
  buildOrZero (addQuestions (questions q)
    (MessageBuilder.RCODE code (MessageBuilder.RecursionAvailable true (MessageBuilder.RecursionDesired (RecursionDesired (flags q))
      (MessageBuilder.Response true (MessageBuilder.ID (Message.id q) MessageBuilder.NewMessageBuilder)))))).

(** ** forward.go: what is cached *)

Record config := mkConfig { cacheSize : Z; minTTL_ : Z; maxTTL : Z; maxNegTTL : Z; maxInflight : Z; allowNoRD : bool }.

(** [negativeTTLFromSOA]: the first SOA decides. *)
Fixpoint negativeTTLFromSOA (authority : list Record_) (maxNeg : Z) : option Z :=
  match authority with
  | [] => None
  | r :: authority =>
      match r_rd r with
      | Some (RD_SOA _ _ _ _ _ _ minimum) =>
          let ttl := Z.min (Z.min (r_ttl r) minimum) maxNeg in if ttl <=? 0 then None else Some ttl
      | _ => negativeTTLFromSOA authority maxNeg
      end
  end.

Definition minTTL (sets : list (list Record_)) : Z :=
  let smallest := fold_left (fun smallest set_ =>
    fold_left (fun smallest r => if (smallest <? 0) || (r_ttl r <? smallest) then r_ttl r else smallest) set_ smallest) sets (-1) in
  if smallest <? 0 then 0 else smallest.

Definition clamp (v lo hi : Z) : Z :=
  let v := if v <? lo then lo else v in if (0 <? hi) && (hi <? v) then hi else v.

Definition makeEntry (resp : Message) (cfg : config) (now : Z) : option entry :=
  let rc := RCODE (flags resp) in
  let negative ttl := Some (mkEntry [] (authorities resp) (additionals resp) rc (AuthenticData (flags resp)) now (now + ttl)) in
  if rc =? RCODENoError then
    if 0 <? zlen (answers resp) then
      let ttl := clamp (minTTL [answers resp; authorities resp]) (minTTL_ cfg) (maxTTL cfg) in
      if ttl <=? 0 then None
      else Some (mkEntry (answers resp) (authorities resp) (additionals resp) rc (AuthenticData (flags resp)) now (now + ttl))
    else match negativeTTLFromSOA (authorities resp) (maxNegTTL cfg) with None => None | Some ttl => negative ttl end
  else if rc =? RCODENXDomain then
    negative (match negativeTTLFromSOA (authorities resp) (maxNegTTL cfg) with None => maxNegTTL cfg | Some ttl => ttl end)
  else None.

Inductive Option_ :=
  | CacheSize (n : Z) | MinTTL (d : Z) | MaxTTL (d : Z) | MaxNegTTL (d : Z) | QueryTimeout (d : Z) | MaxInflight (n : Z) | AllowNoRD (v : bool).
Definition defaultConfig : config := mkConfig 4096 0 (24 * 3600 * Second) (300 * Second) 1024 false.
(** The query timeout shows only as an error of the exchange. *)
Definition applyOption (c : config) (o : Option_) : config :=
  let '(mkConfig cs mi ma mn mf nr) := c in
  match o with
  | CacheSize n => mkConfig n mi ma mn mf nr
  | MinTTL d => mkConfig cs d ma mn mf nr
  | MaxTTL d => mkConfig cs mi d mn mf nr
  | MaxNegTTL d => mkConfig cs mi ma d mf nr
  | QueryTimeout _ => c
  | MaxInflight n => mkConfig cs mi ma mn n nr
  | AllowNoRD v => mkConfig cs mi ma mn mf v
  end.

(** ** upstream.go *)

(** [udpTCPFallback.Exchange] *)
Definition udpTCPFallback (udp tcp : exchanger.Exchanger) : exchanger.Exchanger := fun q =>
  exchanger.bind (udp q) (fun resp =>
  match resp with
  | Err e => exchanger.Ret (Err e)
  | Ok m =>
      if negb (Truncated (flags m)) then exchanger.Ret (Ok m)
      else exchanger.bind exchanger.randomID (fun id_ =>
           match id_ with Err e => exchanger.Ret (Err e) | Ok v => tcp (WithID q v) end)
  end).
(** [newUDPTCPFallback]; a construction error is returned by every exchange. *)
Definition newUDPTCPFallback (addr : AddrPort) : exchanger.Exchanger :=
  match exchanger.NewUDPClient addr [exchanger.UDPClientCaseRandomization true] with
  | Err e => fun _ => exchanger.Ret (Err (ErrWrapped e))
  | Ok udp => match exchanger.NewTCPClient addr [] with
              | Err e => fun _ => exchanger.Ret (Err (ErrWrapped e))
              | Ok tcp => udpTCPFallback (exchanger.udpExchange udp) (exchanger.tcpExchange tcp)
              end
  end.

(** ** forward.go: the handler *)

(** [inflightCall], with the query that started it, the one sent upstream,
    the result once the exchange has returned, and whether the channel [done]
    is closed. *)
Record call := mkCall { c_key : cacheKey; c_in : Message; c_query : Message; c_result : option (res Message); c_done : bool }.

(** How far the goroutine that serves a query is. *)
Inductive phase :=
  | Arrived
  | Looking (qq : Question)                      (* about to look into the cache *)
  | Claiming (qq : Question)                     (* about to take the lock of the calls in flight *)
  | Waiting (qq : Question) (c : nat)
  | Answering (qq : Question) (resp : Message)   (* about to cache the response and to reply *)
  | Replied (reply : option Message)
  | Panicked.

Record system := mkSystem {
  s_cache : option cache.t; s_inflight : gmap cacheKey nat; s_calls : list call; s_sem : Z; s_closed : bool;
  s_clients : list (Message * phase) }.

(** [newForwarder], up to the upstream and the lifecycle. *)
Definition newForwarder (opts_ : list Option_) : config * system :=
  let cfg := fold_left applyOption opts_ defaultConfig in (cfg, mkSystem (cache.newCache (cacheSize cfg)) ∅ [] 0 false []).

(** What [ServeDNS] does before it looks into the cache. *)
Definition ingress (cfg : config) (closed : bool) (q : Message) : phase :=
  if closed then Replied (Some (buildErrorResponse q RCODEServFail))
  else match PreflightRequest q with
  | PreflightDrop => Replied None
  | PreflightReply reply => Replied (Some reply)
  | PreflightAccept =>
      if negb (Opcode (flags q) =? OpcodeQuery) then Replied (Some (buildErrorResponse q RCODENotImp))
      else match questions q with
      | [] => Panicked
      | qq :: _ =>
          if negb (q_class qq =? rrtype.ClassIN) then Replied (Some (buildErrorResponse q RCODENotImp))
          else if negb (RecursionDesired (flags q)) && negb (allowNoRD cfg) then Replied (Some (buildErrorResponse q RCODERefused))
          else Looking qq
      end
  end.

(** [singleflightKey]; its text determines these four. *)
Definition singleflightKey (qq : Question) (doBit : bool) : cacheKey := makeKey (q_name qq) (q_typ qq) (q_class qq) doBit.

(** [exchangeSingleflight] up to the wait: a phase, and the state of the calls.
    [id_] is the ID drawn for the upstream query. *)
Definition claim (cfg : config) (s : system) (q : Message) (qq : Question) (id_ : Z) : phase * gmap cacheKey nat * list call * Z :=
  let key := singleflightKey qq (edsoDOBit q) in
  match s_inflight s !! key with
  | Some c => (Waiting qq c, s_inflight s, s_calls s, s_sem s)
  | None =>
      if (0 <? maxInflight cfg) && (maxInflight cfg <=? s_sem s)
      then (Replied (Some (buildErrorResponse q RCODEServFail)), s_inflight s, s_calls s, s_sem s)
      else (Waiting qq (length (s_calls s)), <[key := length (s_calls s)]> (s_inflight s),
            s_calls s ++ [mkCall key q (buildForwardQuery id_ q) None false], if 0 <? maxInflight cfg then s_sem s + 1 else s_sem s)
  end.

(** What can happen: a query arrives; the goroutine of client [i] goes on,
    reading the clock or drawing an ID where it does; the upstream answers the
    call [c], or fails, and the call leaves the index; the call [c] returns its
    slot and closes its channel; the context of client [i] ends; the forwarder
    closes, and then drops its cache ([cleanup]). *)
Inductive event :=
  | Arrive (q : Message) | Serve (i : nat) | Look (i : nat) (now : Z) | Claim (i : nat) (id_ : Z) | Upstream (c : nat) (r : res Message) | Done (c : nat)
  | Wake (i : nat) | Cancel (i : nat) | Answer (i : nat) (now : Z) | Close | Clear.

Definition setClient (s : system) (i : nat) (q : Message) (ph : phase) : system :=
  mkSystem (s_cache s) (s_inflight s) (s_calls s) (s_sem s) (s_closed s) (<[i := (q, ph)]> (s_clients s)).

Definition step (cfg : config) (s : system) (ev : event) : option system :=
  match ev with
  | Arrive q => Some (mkSystem (s_cache s) (s_inflight s) (s_calls s) (s_sem s) (s_closed s) (s_clients s ++ [(q, Arrived)]))
  | Serve i =>
      match s_clients s !! i with
      | Some (q, Arrived) => Some (setClient s i q (ingress cfg (s_closed s) q))
      | _ => None
      end
  | Look i now =>
      match s_clients s !! i with
      | Some (q, Looking qq) =>
          let '(e, c) := cache.get (s_cache s) (q_name qq) (q_typ qq) (q_class qq) (edsoDOBit q) now in
          let s := mkSystem c (s_inflight s) (s_calls s) (s_sem s) (s_closed s) (s_clients s) in
          Some (setClient s i q (match e with Some e => Replied (Some (buildFromCache q e now)) | None => Claiming qq end))
      | _ => None
      end
  | Claim i id_ =>
      match s_clients s !! i with
      | Some (q, Claiming qq) =>
          let '(ph, inflight, calls, sem) := claim cfg s q qq id_ in
          Some (setClient (mkSystem (s_cache s) inflight calls sem (s_closed s) (s_clients s)) i q ph)
      | _ => None
      end
  | Upstream c r =>
      match s_calls s !! c with
      | Some (mkCall key in_ query None d) =>
          Some (mkSystem (s_cache s) (delete key (s_inflight s)) (<[c := mkCall key in_ query (Some r) d]> (s_calls s)) (s_sem s) (s_closed s) (s_clients s))
      | _ => None
      end
  | Done c =>
      match s_calls s !! c with
      | Some (mkCall key in_ query (Some r) false) =>
          Some (mkSystem (s_cache s) (s_inflight s) (<[c := mkCall key in_ query (Some r) true]> (s_calls s))
                  (if 0 <? maxInflight cfg then s_sem s - 1 else s_sem s) (s_closed s) (s_clients s))
      | _ => None
      end
  | Wake i =>
      match s_clients s !! i with
      | Some (q, Waiting qq c) =>
          match s_calls s !! c with
          | Some (mkCall _ _ _ (Some (Ok resp)) true) => Some (setClient s i q (Answering qq resp))
          | Some (mkCall _ _ _ (Some (Err _)) true) => Some (setClient s i q (Replied (Some (buildErrorResponse q RCODEServFail))))
          | _ => None
          end
      | _ => None
      end
  | Cancel i =>
      match s_clients s !! i with
      | Some (q, Waiting _ _) => Some (setClient s i q (Replied (Some (buildErrorResponse q RCODEServFail))))
      | _ => None
      end
  | Answer i now =>
      match s_clients s !! i with
      | Some (q, Answering qq resp) =>
          let resp := filterBailiwick (q_name qq) resp in
          let c := match makeEntry resp cfg now with
                   | Some e => cache.put (s_cache s) (q_name qq) (q_typ qq) (q_class qq) (edsoDOBit q) e
                   | None => s_cache s
                   end in
          let s := mkSystem c (s_inflight s) (s_calls s) (s_sem s) (s_closed s) (s_clients s) in
          Some (setClient s i q (Replied (Some (rebuildForClient q resp))))
      | _ => None
      end
  | Close => Some (mkSystem (s_cache s) (s_inflight s) (s_calls s) (s_sem s) true (s_clients s))
  | Clear => if s_closed s then Some (mkSystem (cache.clear (s_cache s)) (s_inflight s) (s_calls s) (s_sem s) true (s_clients s)) else None
  end.

(** The states a forwarder with configuration [cfg] can be in. *)
Inductive reachable (cfg : config) (init : system) : system -> Prop :=
  | reachable_init : reachable cfg init init
  | reachable_step s ev s' : reachable cfg init s -> step cfg s ev = Some s' -> reachable cfg init s'.
End forward.
