(* ===== verification/ForwardSound.v ===== *)
(** * Properties of the forwarder

    The cache of linked elements against the list it implements; who may use
    the upstream at a time; where replies come from, how old they are, and what
    the upstream learns. *)

From Stdlib Require Import Strings.String.
From S2P Require Import Prelude Name Wire RData Message MessageRoundtrip MessageOps EdnsOptions Netip Authoritative ZoneTree Handler Exchanger ExchangerSound Recursive RecursiveSound Forward.
Import forward.
Open Scope Z_scope.
Open Scope list_scope.

(** ** The cache is a list in order of use *)

Module lruSpec.
(** The entries, the one used last in front. *)
Definition t : Type := list (cacheKey * entry).
Definition drop_ (k : cacheKey) (l : t) : t := List.filter (fun p => negb (bool_decide (p.1 = k))) l.
Definition find (k : cacheKey) (l : t) : option entry := snd <$> List.find (fun p => bool_decide (p.1 = k)) l.

Definition get (k : cacheKey) (now : Z) (l : t) : option entry * t :=
  match find k l with
  | None => (None, l)
  | Some e => if now <? expiresAt e then (Some e, (k, e) :: drop_ k l) else (None, drop_ k l)
  end.
(** Put in front; what exceeds the capacity, the entries used longest ago, is forgotten. *)
Definition put (cap : Z) (k : cacheKey) (e : entry) (l : t) : t := take (Z.to_nat cap) ((k, e) :: drop_ k l).
End lruSpec.

(** The state of the cache: at most [n] elements, without duplicates, in step
    with the map of elements and the index by key. *)
Record lru_ok (n : Z) (c : cache.t) : Prop := {
  ok_nodup : NoDup (cache.lru c);
  ok_elem el : el ∈ cache.lru c -> exists k e, cache.elems c !! el = Some (k, e) /\ cache.m c !! k = Some el;
  ok_index k el : cache.m c !! k = Some el -> el ∈ cache.lru c /\ exists e, cache.elems c !! el = Some (k, e);
  ok_next el : el ∈ cache.lru c -> (el < cache.next c)%nat;
  ok_cap : 0 < cache.cap c;
  ok_len : zlen (cache.lru c) <= n }.

(** The list a cache stands for. *)
Definition items (c : cache.t) : lruSpec.t := omap (fun el => cache.elems c !! el) (cache.lru c).

Lemma omap_ext_in {A B} (f g : A -> option B) (l : list A) : (forall x, x ∈ l -> f x = g x) -> omap f l = omap g l.
Proof. induction l as [|a l IH]; intros H; [done|]. cbn. rewrite (H a) by constructor. rewrite IH; [done|]. intros. apply H. by constructor. Qed.

Lemma elem_of_remove el el' l : el' ∈ cache.remove el l <-> el' ∈ l /\ el' <> el.
Proof.
  unfold cache.remove. rewrite !list_elem_of_In, List.filter_In. by rewrite negb_true_iff, Nat.eqb_neq.
Qed.
Lemma NoDup_remove_el el l : NoDup l -> NoDup (cache.remove el l).
Proof. rewrite !NoDup_ListNoDup. apply List.NoDup_filter. Qed.

(** Taking an element out of the list drops its key. *)
Lemma items_remove n c el k e : lru_ok n c -> cache.elems c !! el = Some (k, e) -> cache.m c !! k = Some el ->
  omap (fun el => cache.elems c !! el) (cache.remove el (cache.lru c)) = lruSpec.drop_ k (items c).
Proof.
  intros Hc He Hm. unfold items, lruSpec.drop_.
  assert (forall el', el' ∈ cache.lru c -> exists k' e', cache.elems c !! el' = Some (k', e') /\ cache.m c !! k' = Some el') as H by apply Hc.
  revert H. induction (cache.lru c) as [|x l IH]; intros H; [done|]. destruct (H x) as (k' & e' & Ex & Mx); [constructor|].
  cbn [cache.remove List.filter omap list_omap]. rewrite Ex. cbn [List.filter fst].
  assert ((x =? el)%nat = bool_decide (k' = k)) as ->.
  { destruct (Nat.eqb_spec x el) as [->|Hne]; [rewrite bool_decide_eq_true_2 by congruence; done|].
    rewrite bool_decide_eq_false_2; [done|]. intros ->. congruence. }
  rewrite <- IH by (intros; apply H; by constructor). case_bool_decide; cbn; [done|]. by rewrite Ex.
Qed.

Lemma items_without n c el k e : lru_ok n c -> cache.elems c !! el = Some (k, e) -> cache.m c !! k = Some el ->
  items (cache.mk (cache.cap c) (cache.remove el (cache.lru c)) (delete el (cache.elems c)) (delete k (cache.m c)) (cache.next c)) =
  lruSpec.drop_ k (items c).
Proof.
  intros Hc He Hm. rewrite <- (items_remove n c el k e Hc He Hm). unfold items. cbn.
  apply omap_ext_in. intros x [_ Hx]%elem_of_remove. by rewrite lookup_delete_ne.
Qed.

Lemma items_find n c k : lru_ok n c -> lruSpec.find k (items c) = match cache.m c !! k with
  | Some el => snd <$> cache.elems c !! el | None => None end.
Proof.
  intros Hc. unfold items, lruSpec.find.
  assert (forall el', el' ∈ cache.lru c -> exists k' e', cache.elems c !! el' = Some (k', e') /\ cache.m c !! k' = Some el') as H by apply Hc.
  assert (forall el, cache.m c !! k = Some el -> el ∈ cache.lru c) as H' by (intros el Hel; by apply Hc in Hel as [? _]).
  revert H H'. induction (cache.lru c) as [|x l IH]; intros H H'.
  { destruct (cache.m c !! k) as [el|] eqn:E; [|done]. specialize (H' el eq_refl). by apply elem_of_nil in H'. }
  destruct (H x) as (k' & e' & Ex & Mx); [constructor|]. cbn [omap list_omap]. rewrite Ex. cbn [List.find fst].
  case_bool_decide as Hk; [subst; by rewrite Mx, Ex|]. apply IH; [intros; apply H; by constructor|].
  intros el Hel. apply H' in Hel as Hin. apply elem_of_cons in Hin as [->|?]; [|done].
  destruct (ok_index n c Hc k x Hel) as [_ [e'' ?]]. congruence.
Qed.

Lemma remove_length el l : el ∈ l -> (length (cache.remove el l) < length l)%nat.
Proof.
  unfold cache.remove. induction l as [|x l IH]; intros Hin; [by apply elem_of_nil in Hin|]. cbn [List.filter].
  destruct (Nat.eqb_spec x el) as [->|Hne]; cbn [negb length].
  - pose proof (List.filter_length_le (fun x => negb (x =? el)%nat) l). lia.
  - apply elem_of_cons in Hin as [->|Hin]; [done|]. specialize (IH Hin). lia.
Qed.
Lemma lru_ok_weaken n n' c : lru_ok n c -> n <= n' -> lru_ok n' c.
Proof. intros [] ?. constructor; try done. lia. Qed.

(** The state after an element was taken out, wherever it is put back. *)
Lemma lru_ok_without n c el k e : lru_ok n c -> cache.elems c !! el = Some (k, e) -> cache.m c !! k = Some el ->
  lru_ok (n - 1) (cache.mk (cache.cap c) (cache.remove el (cache.lru c)) (delete el (cache.elems c)) (delete k (cache.m c)) (cache.next c)).
Proof.
  intros Hc He Hm. constructor; cbn.
  - by apply NoDup_remove_el, Hc.
  - intros el' [Hin Hne]%elem_of_remove. destruct (ok_elem n c Hc el' Hin) as (k' & e' & E1 & E2). exists k', e'.
    rewrite lookup_delete_ne by done. split; [done|]. rewrite lookup_delete_ne; [done|]. intros ->. congruence.
  - intros k' el' [Hne E]%lookup_delete_Some. destruct (ok_index n c Hc k' el' E) as [Hin [e' E']].
    assert (el' <> el) by congruence. split; [by apply elem_of_remove|]. exists e'. by rewrite lookup_delete_ne.
  - intros el' [Hin _]%elem_of_remove. by apply Hc.
  - apply Hc.
  - destruct (ok_index n c Hc k el Hm) as [Hin _]. pose proof (ok_len n c Hc). pose proof (remove_length el (cache.lru c) Hin). unfold zlen in *. lia.
Qed.

(** An element moved to the front, with a new value. *)
Lemma lru_ok_front n c el k e e' : lru_ok n c -> cache.elems c !! el = Some (k, e) -> cache.m c !! k = Some el ->
  let c' := cache.mk (cache.cap c) (cache.moveToFront el (cache.lru c)) (<[el := (k, e')]> (cache.elems c)) (cache.m c) (cache.next c) in
  lru_ok n c' /\ items c' = (k, e') :: lruSpec.drop_ k (items c).
Proof.
  intros Hc He Hm. cbv zeta. assert (el ∈ cache.lru c) as Hin by (by apply Hc in Hm as [? _]). split; [constructor; cbn|].
  - constructor; [by intros [_ ?]%elem_of_remove|by apply NoDup_remove_el, Hc].
  - intros el' [->|[Hin' Hne]%elem_of_remove]%elem_of_cons; [exists k, e'; by rewrite lookup_insert_eq|].
    destruct (ok_elem n c Hc el' Hin') as (k' & e'' & E1 & E2). exists k', e''. by rewrite lookup_insert_ne.
  - intros k' el' E. destruct (ok_index n c Hc k' el' E) as [Hin' [e'' E']]. destruct (decide (el' = el)) as [->|Hne].
    + split; [by constructor|]. exists e'. rewrite lookup_insert_eq. congruence.
    + split; [apply elem_of_cons; right; by apply elem_of_remove|]. exists e''. by rewrite lookup_insert_ne.
  - intros el' [->|[Hin' _]%elem_of_remove]%elem_of_cons; by apply Hc.
  - apply Hc.
  - pose proof (ok_len n c Hc). pose proof (remove_length el (cache.lru c) Hin). unfold cache.moveToFront, zlen in *. cbn [length]. lia.
  - unfold items at 1, cache.moveToFront. cbn [cache.lru cache.elems omap list_omap]. rewrite lookup_insert_eq. f_equal.
    rewrite <- (items_remove n c el k e Hc He Hm). apply omap_ext_in. intros x [_ Hx]%elem_of_remove. by rewrite lookup_insert_ne.
Qed.

(** A new element in front, before the capacity is looked at. *)
Lemma items_pushed n c k e : lru_ok n c -> cache.m c !! k = None ->
  omap (fun el => (<[cache.next c := (k, e)]> (cache.elems c)) !! el) (cache.next c :: cache.lru c) = (k, e) :: items c /\
  lruSpec.drop_ k (items c) = items c.
Proof.
  intros Hc Hm. split.
  - cbn [omap list_omap]. rewrite lookup_insert_eq. f_equal. apply omap_ext_in. intros x Hx%(ok_next n c Hc). rewrite lookup_insert_ne; [done|lia].
  - unfold lruSpec.drop_, items. assert (forall el, el ∈ cache.lru c -> exists k' e', cache.elems c !! el = Some (k', e') /\ k' <> k) as H.
    { intros el Hel. destruct (ok_elem n c Hc el Hel) as (k' & e' & ? & ?). exists k', e'. split; [done|congruence]. }
    induction (cache.lru c) as [|x l IH]; [done|]. destruct (H x) as (k' & e' & Ex & Hk); [constructor|].
    cbn [omap list_omap]. rewrite Ex. cbn [List.filter fst]. rewrite bool_decide_eq_false_2 by done. cbn [negb].
    f_equal. apply IH. intros. apply H. by constructor.
Qed.

Lemma items_length n c : lru_ok n c -> length (items c) = length (cache.lru c).
Proof.
  intros Hc. unfold items. assert (forall el, el ∈ cache.lru c -> is_Some (cache.elems c !! el)) as H.
  { intros el Hel. destruct (ok_elem n c Hc el Hel) as (k & e & -> & _). eauto. }
  induction (cache.lru c) as [|x l IH]; [done|]. destruct (H x) as [p Hp]; [constructor|]. cbn. rewrite Hp. cbn.
  f_equal. apply IH. intros. apply H. by constructor.
Qed.

Lemma lru_get n c k now el e : lru_ok n c -> cache.m c !! k = Some el -> cache.elems c !! el = Some (k, e) ->
  let c' := if now <? expiresAt e
            then cache.mk (cache.cap c) (cache.moveToFront el (cache.lru c)) (cache.elems c) (cache.m c) (cache.next c)
            else cache.mk (cache.cap c) (cache.remove el (cache.lru c)) (delete el (cache.elems c)) (delete k (cache.m c)) (cache.next c) in
  lru_ok n c' /\ items c' = if now <? expiresAt e then (k, e) :: lruSpec.drop_ k (items c) else lruSpec.drop_ k (items c).
Proof.
  intros Hc Hm He. destruct (now <? expiresAt e); cbv zeta.
  - pose proof (lru_ok_front n c el k e e Hc He Hm) as H. cbv zeta in H. by rewrite insert_id in H.
  - split; [eapply lru_ok_weaken; [by eapply lru_ok_without|lia]|]. by eapply items_without.
Qed.

(** A new key: pushed in front. *)
Lemma lru_push n c k e : lru_ok n c -> cache.m c !! k = None ->
  let c1 := cache.mk (cache.cap c) (cache.next c :: cache.lru c) (<[cache.next c := (k, e)]> (cache.elems c))
              (<[k := cache.next c]> (cache.m c)) (S (cache.next c)) in
  lru_ok (n + 1) c1 /\ items c1 = (k, e) :: lruSpec.drop_ k (items c).
Proof.
  intros Hc Hm. destruct (items_pushed n c k e Hc Hm) as [Hp Hd]. cbv zeta. split; [|unfold items at 1; cbn [cache.lru cache.elems]; by rewrite Hp, Hd].
  assert (cache.next c ∉ cache.lru c) as Hn by (intros H%(ok_next n c Hc); lia). constructor; cbn.
  - constructor; [done|apply Hc].
  - intros el [->|Hin]%elem_of_cons; [exists k, e; by rewrite !lookup_insert_eq|].
    destruct (ok_elem n c Hc el Hin) as (k' & e' & E1 & E2). assert (el <> cache.next c) by congruence. exists k', e'.
    rewrite lookup_insert_ne by done. split; [done|]. rewrite lookup_insert_ne; [done|]. congruence.
  - intros k' el E. destruct (decide (k' = k)) as [->|Hk].
    + rewrite lookup_insert_eq in E. injection E as <-. split; [constructor|]. exists e. by rewrite lookup_insert_eq.
    + rewrite lookup_insert_ne in E by done. destruct (ok_index n c Hc k' el E) as [Hin [e' E']]. split; [by constructor|].
      exists e'. rewrite lookup_insert_ne; [done|]. congruence.
  - intros el [->|Hin%(ok_next n c Hc)]%elem_of_cons; lia.
  - apply Hc.
  - rewrite zlen_cons. pose proof (ok_len n c Hc). lia.
Qed.

Lemma drop_last (l : lruSpec.t) k e : NoDup (l ++ [(k, e)]).*1 -> lruSpec.drop_ k (l ++ [(k, e)]) = l.
Proof.
  rewrite fmap_app. intros (_ & Hd & _)%NoDup_app. unfold lruSpec.drop_. rewrite List.filter_app. cbn [List.filter fst].
  rewrite bool_decide_eq_true_2 by done. cbn [negb]. rewrite app_nil_r.
  assert (forall x, x ∈ l -> x.1 <> k) as H. { intros x Hx <-. apply (Hd x.1); [by apply list_elem_of_fmap_2|constructor]. }
  clear -H. induction l as [|x l IH]; [done|]. cbn [List.filter]. rewrite bool_decide_eq_false_2 by (apply H; constructor).
  cbn [negb]. f_equal. apply IH. intros. apply H. by constructor.
Qed.

(** Every element's key is its own. *)
Lemma items_nodup n c : lru_ok n c -> NoDup (items c).*1.
Proof.
  intros Hc. unfold items. pose proof (ok_nodup n c Hc) as Hn.
  assert (forall el, el ∈ cache.lru c -> exists k e, cache.elems c !! el = Some (k, e) /\ cache.m c !! k = Some el) as H by apply Hc.
  induction Hn as [|x l Hx Hn IH]; [constructor|]. destruct (H x) as (k & e & Ex & Mx); [constructor|]. cbn [omap list_omap]. rewrite Ex.
  cbn [fmap list_fmap fst]. constructor; [|apply IH; intros; apply H; by constructor].
  intros ([k' e'] & -> & (y & Hy & Ey)%list_elem_of_omap)%list_elem_of_fmap. cbn in *.
  destruct (H y) as (k2 & e2 & E2 & M2); [by constructor|]. simplify_eq. congruence.
Qed.

Lemma items_last n c oldest k e : lru_ok n c -> last (cache.lru c) = Some oldest -> cache.elems c !! oldest = Some (k, e) ->
  lruSpec.drop_ k (items c) = take (length (cache.lru c) - 1) (items c).
Proof.
  intros Hc [l El]%last_Some Eo. pose proof (items_nodup n c Hc) as Hn. pose proof (items_length n c Hc) as HL.
  assert (items c = omap (fun el => cache.elems c !! el) l ++ [(k, e)]) as Ei.
  { unfold items. rewrite El, omap_app. cbn. by rewrite Eo. }
  rewrite Ei in *. rewrite drop_last by done. rewrite length_app in HL. cbn in HL.
  rewrite take_app_length' by lia. done.
Qed.

Lemma lru_put c name qtype class doBit e : lru_ok (cache.cap c) c ->
  exists c', cache.put (Some c) name qtype class doBit e = Some c' /\ cache.cap c' = cache.cap c /\ lru_ok (cache.cap c) c' /\
    items c' = lruSpec.put (cache.cap c) (makeKey name qtype class doBit) e (items c).
Proof.
  intros Hc. unfold lruSpec.put, cache.put. set (k := makeKey _ _ _ _). destruct (cache.m c !! k) as [el|] eqn:Em.
  { destruct (ok_index _ c Hc k el Em) as [Hin [e0 E0]]. destruct (lru_ok_front _ c el k e0 e Hc E0 Em) as [Hok Hi].
    eexists. split; [reflexivity|]. split; [done|]. split; [exact Hok|]. rewrite Hi, take_ge; [done|].
    rewrite <- Hi, (items_length _ _ Hok). pose proof (ok_len _ _ Hok) as Hl. unfold zlen in Hl. lia. }
  destruct (lru_push _ c k e Hc Em) as [H1 Hi]. cbv zeta in *. set (c1 := cache.mk _ (_ :: _) _ _ _) in *.
  assert (cache.cap c1 = cache.cap c) as Hcap by done. rewrite <- Hi. clear Hi. clearbody c1. rewrite <- Hcap in H1 |- *.
  pose proof (items_length _ c1 H1) as HL. pose proof (ok_cap _ _ H1).
  destruct (_ <? _) eqn:E; bool_facts.
  - assert (zlen (cache.lru c1) = cache.cap c1 + 1) as Hz by (pose proof (ok_len _ _ H1); lia).
    destruct (last (cache.lru c1)) as [oldest|] eqn:EL; [|apply last_None in EL; rewrite EL, zlen_nil in Hz; lia].
    assert (oldest ∈ cache.lru c1) as Hin by (by apply last_Some_elem_of).
    destruct (ok_elem _ _ H1 oldest Hin) as (k' & e' & Eo & Mo). rewrite Eo. eexists. split; [reflexivity|]. split; [done|].
    split; [replace (cache.cap c1) with (cache.cap c1 + 1 - 1) at 1 by lia; by eapply lru_ok_without|].
    rewrite (items_without _ c1 oldest k' e' H1 Eo Mo), (items_last _ c1 oldest k' e' H1 EL Eo). f_equal. unfold zlen in Hz. lia.
  - exists c1. split; [done|]. split; [done|]. split; [by destruct H1; constructor|]. rewrite take_ge; [done|]. unfold zlen in E. lia.
Qed.

(** *** Sequences of operations *)

Inductive cacheOp :=
  | OpGet (name : Name) (qtype class : Z) (doBit : bool) (now : Z)
  | OpPut (name : Name) (qtype class : Z) (doBit : bool) (e : entry)
  | OpClear.
Definition cacheDo (c : option cache.t) (o : cacheOp) : option entry * option cache.t :=
  match o with
  | OpGet n t cl d now => cache.get c n t cl d now
  | OpPut n t cl d e => (None, cache.put c n t cl d e)
  | OpClear => (None, cache.clear c)
  end.
Definition specDo (cap : Z) (l : lruSpec.t) (o : cacheOp) : option entry * lruSpec.t :=
  match o with
  | OpGet n t cl d now => lruSpec.get (makeKey n t cl d) now l
  | OpPut n t cl d e => (None, lruSpec.put cap (makeKey n t cl d) e l)
  | OpClear => (None, [])
  end.
(** The results of a sequence, and the state after it. *)
Fixpoint doAll {S : Type} (f : S -> cacheOp -> option entry * S) (s : S) (ops : list cacheOp) : list (option entry) * S :=
  match ops with
  | [] => ([], s)
  | o :: ops => let '(r, s) := f s o in let '(rs, s) := doAll f s ops in (r :: rs, s)
  end.

(** The cache [c] implements the list [l]. *)
Definition implements (cap : Z) (c : option cache.t) (l : lruSpec.t) : Prop :=
  match c with
  | None => cap <= 0 /\ l = []
  | Some c => cache.cap c = cap /\ lru_ok cap c /\ items c = l
  end.

Lemma lru_ok_empty cap n : 0 < cap -> lru_ok cap (cache.mk cap [] ∅ ∅ n).
Proof.
  intros. constructor; cbn [cache.lru cache.elems cache.m cache.next cache.cap];
    [apply NoDup_nil_2|by intros ? ?%elem_of_nil|intros k el; by rewrite lookup_empty|by intros ? ?%elem_of_nil|done|rewrite zlen_nil; lia].
Qed.

Lemma implements_step cap c l o : implements cap c l ->
  (cacheDo c o).1 = (specDo cap l o).1 /\ implements cap (cacheDo c o).2 (specDo cap l o).2.
Proof.
  destruct c as [c|]; cbn [implements].
  - intros (Hcap & Hc & <-). destruct o as [n t cl d now|n t cl d e|]; cbn [cacheDo specDo fst snd].
    + unfold cache.get, lruSpec.get. rewrite (items_find _ c _ Hc). set (k := makeKey _ _ _ _).
      destruct (cache.m c !! k) as [el|] eqn:Em; [|done]. destruct (ok_index _ c Hc k el Em) as [_ [e Ee]]. rewrite Ee. cbn [fmap option_fmap option_map snd].
      destruct (lru_get _ c k now el e Hc Em Ee) as [Hok Hi]. destruct (now <? expiresAt e); cbn [negb fst snd implements]; by split_and!.
    + subst cap. destruct (lru_put c n t cl d e Hc) as (c' & -> & Hcap' & Hc' & Hi). split; [done|]. by split_and!.
    + split; [done|]. split; [done|]. split; [|done]. subst cap. apply lru_ok_empty. by apply Hc.
  - intros [Hcap ->]. destruct o; cbn; [done| |done]. unfold lruSpec.put. by replace (Z.to_nat cap) with 0%nat by lia.
Qed.

Lemma implements_new capacity : implements capacity (cache.newCache capacity) [].
Proof.
  unfold cache.newCache. destruct (_ <=? _) eqn:E; bool_facts; [by split|]. split; [done|]. split; [|done]. by apply lru_ok_empty.
Qed.

(** C34. The cache is a list in order of use: over any sequence of lookups,
    insertions and clearings, every lookup returns what it returns on the list
    in which an entry that is used or put moves to the front, a lookup drops
    an expired entry, and what exceeds the capacity falls off the end; and it
    holds as many entries, at most the capacity, none if that is not positive. *)
Theorem lru_refines capacity ops :
  let '(results, c) := doAll cacheDo (cache.newCache capacity) ops in
  let '(results', l) := doAll (specDo capacity) [] ops in
  results = results' /\ cache.len c = zlen l /\ cache.len c <= Z.max capacity 0.
Proof.
  pose proof (implements_new capacity) as H.
  revert H. generalize (cache.newCache capacity) (@nil (cacheKey * entry)). induction ops as [|o ops IH]; intros c l H; cbn [doAll].
  - split; [done|]. destruct c as [c|]; cbn in *; [|destruct H as [? ->]; by split; [|lia]]. destruct H as (Hcap & Hc & <-).
    unfold zlen. rewrite (items_length _ c Hc). pose proof (ok_len _ _ Hc). unfold zlen in *. split; [done|]. lia.
  - destruct (implements_step _ _ _ o H) as [E H']. destruct (cacheDo c o) as [r c1], (specDo capacity l o) as [r' l1]. cbn in E, H'. subst r'.
    specialize (IH c1 l1 H'). destruct (doAll _ _ ops) as [rs c2], (doAll (specDo capacity) l1 ops) as [rs' l2].
    destruct IH as (-> & ? & ?). done.
Qed.

(** ** What the builders build *)

Lemma addQuestions_spec qs b : addQuestions qs b =
  let m := MessageBuilder.msg b in
  MessageBuilder.mk (mkMessage (Message.id m) (flags m) (questions m ++ qs) (answers m) (authorities m) (additionals m) (edns m) (hasEDNS m)) (MessageBuilder.err b).
Proof.
  unfold addQuestions. revert b. induction qs as [|q qs IH]; intros [m e]; cbn [fold_left].
  - rewrite app_nil_r. by destruct m.
  - rewrite IH. cbn. by rewrite <- app_assoc.
Qed.

(** A loop that adds records, by [g], and fails exactly if one of them is the
    zero record. *)
Section Adding.
Context (f : Record_ -> MessageBuilder.t -> MessageBuilder.t) (g : list Record_ -> Message -> Message)
  (Hf : forall r b, f r b = if IsZero r then MessageBuilder.setErr ErrPlain b else MessageBuilder.upd (g [r]) b)
  (Hg0 : forall m, g [] m = m) (Hg : forall l l' m, g l' (g l m) = g (l ++ l') m).

Lemma adding_err l b : is_Some (MessageBuilder.err b) -> is_Some (MessageBuilder.err (fold_left (fun b r => f r b) l b)).
Proof.
  revert b. induction l as [|r l IH]; intros [m e] Hb; cbn [fold_left]; [done|]. apply IH. rewrite Hf. cbn in Hb. destruct Hb as [x ->].
  destruct (IsZero r); cbn; eauto.
Qed.
Lemma adding_spec l m e : let b := fold_left (fun b r => f r b) l (MessageBuilder.mk m e) in
  if existsb IsZero l then is_Some (MessageBuilder.err b) else b = MessageBuilder.mk (g l m) e.
Proof.
  revert m. induction l as [|r l IH]; intros m; cbn [fold_left existsb]; [by rewrite Hg0|]. rewrite Hf.
  destruct (IsZero r); cbn [orb]; [apply adding_err; destruct e; cbn; eauto|]. cbv zeta in *. unfold MessageBuilder.upd.
  cbn [MessageBuilder.msg MessageBuilder.err]. specialize (IH (g [r] m)). destruct (existsb _ _); [done|]. by rewrite IH, Hg.
Qed.
End Adding.

Lemma addRecords_spec an au add b : MessageBuilder.err b = None ->
  let m := MessageBuilder.msg b in let b' := addRecords an au add b in
  if existsb IsZero (an ++ au ++ add) then is_Some (MessageBuilder.err b')
  else b' = MessageBuilder.mk (mkMessage (Message.id m) (flags m) (questions m) (answers m ++ an) (authorities m ++ au) (additionals m ++ add) (edns m) (hasEDNS m)) None.
Proof.
  destruct b as [m e]. cbn [MessageBuilder.err MessageBuilder.msg]. intros ->. cbv zeta. unfold addRecords. rewrite !existsb_app.
  set (g1 l m := mkMessage (Message.id m) (flags m) (questions m) (answers m ++ l) (authorities m) (additionals m) (edns m) (hasEDNS m)).
  set (g2 l m := mkMessage (Message.id m) (flags m) (questions m) (answers m) (authorities m ++ l) (additionals m) (edns m) (hasEDNS m)).
  set (g3 l m := mkMessage (Message.id m) (flags m) (questions m) (answers m) (authorities m) (additionals m ++ l) (edns m) (hasEDNS m)).
  assert (forall m, g1 [] m = m /\ g2 [] m = m /\ g3 [] m = m) as H0 by (intros []; unfold g1, g2, g3; cbn; by rewrite !app_nil_r).
  assert (forall l l' m, g1 l' (g1 l m) = g1 (l ++ l') m /\ g2 l' (g2 l m) = g2 (l ++ l') m /\ g3 l' (g3 l m) = g3 (l ++ l') m) as H1
    by (intros; unfold g1, g2, g3; cbn; by rewrite <- !app_assoc).
  pose proof (adding_spec MessageBuilder.Answer g1 ltac:(done) ltac:(apply H0) ltac:(apply H1) an m None) as A1.
  pose proof (adding_spec MessageBuilder.Authority g2 ltac:(done) ltac:(apply H0) ltac:(apply H1) au) as A2.
  pose proof (adding_spec MessageBuilder.Additional g3 ltac:(done) ltac:(apply H0) ltac:(apply H1) add) as A3.
  pose proof (adding_err MessageBuilder.Authority g2 ltac:(done)) as E2.
  pose proof (adding_err MessageBuilder.Additional g3 ltac:(done)) as E3. cbv zeta in *.
  destruct (existsb IsZero an); cbn [orb]; [by apply E3, E2|]. rewrite A1. specialize (A2 (g1 an m) None).
  destruct (existsb IsZero au); cbn [orb]; [by apply E3|]. rewrite A2. specialize (A3 (g2 au (g1 an m)) None).
  by destruct (existsb IsZero add).
Qed.

(** A reply to a query: its own header and question, and records. *)
Definition replyWith (q : Message) (fl : Flags) (an au add : list Record_) (e : option EDNS) : Message :=
  if existsb IsZero (an ++ au ++ add) then zeroMessage
  else mkMessage (Message.id q) fl (questions q) an au add (default zeroEDNS e) (match e with Some _ => true | None => false end).
Definition replyFlags (q : Message) (ad_ : bool) (rc : Z) : Flags :=
  WithRCODE rc (WithAuthenticData ad_ (WithCheckingDisabled (CheckingDisabled (flags q))
    (WithRecursionAvailable true (WithRecursionDesired (RecursionDesired (flags q)) (WithResponse true 0))))).

Lemma replyHeader_spec q ad_ rc : replyHeader q ad_ rc =
  MessageBuilder.mk (mkMessage (Message.id q) (replyFlags q ad_ rc) (questions q) [] [] [] zeroEDNS false) None.
Proof. unfold replyHeader. by rewrite addQuestions_spec. Qed.

Lemma rebuildForClient_spec q resp : rebuildForClient q resp =
  replyWith q (replyFlags q (AuthenticData (flags resp)) (RCODE (flags resp))) (answers resp) (authorities resp) (additionals resp)
    (if hasEDNS resp then Some (edns resp) else None).
Proof.
  unfold rebuildForClient, replyWith, buildOrZero, MessageBuilder.Build. rewrite replyHeader_spec.
  pose proof (addRecords_spec (answers resp) (authorities resp) (additionals resp)
    (MessageBuilder.mk (mkMessage (Message.id q) (replyFlags q (AuthenticData (flags resp)) (RCODE (flags resp))) (questions q) [] [] [] zeroEDNS false) None) eq_refl) as H.
  cbv zeta in H. cbn [MessageBuilder.msg Message.id flags questions answers authorities additionals edns hasEDNS app] in H.
  destruct (existsb _ _); [|rewrite H; by destruct (hasEDNS resp)].
  destruct H as [x Hx]. destruct (addRecords _ _ _ _) as [m e]. cbn in Hx. subst. by destruct (hasEDNS resp).
Qed.

Lemma buildFromCache_spec q e now : buildFromCache q e now =
  let adj := map (fun r => adjustTTL r (timeSub now (insertedAt e))) in
  replyWith q (replyFlags q (ad e) (rcode e)) (adj (answers_ e)) (adj (authority e)) (adj (additional e)) None.
Proof.
  unfold buildFromCache, replyWith, buildOrZero, MessageBuilder.Build. rewrite replyHeader_spec. cbv zeta. set (adj := map _).
  pose proof (addRecords_spec (adj (answers_ e)) (adj (authority e)) (adj (additional e))
    (MessageBuilder.mk (mkMessage (Message.id q) (replyFlags q (ad e) (rcode e)) (questions q) [] [] [] zeroEDNS false) None) eq_refl) as H.
  cbv zeta in H. cbn [MessageBuilder.msg Message.id flags questions answers authorities additionals edns hasEDNS app] in H.
  destruct (existsb _ _); [|by rewrite H]. destruct H as [x ->]. done.
Qed.

Lemma buildErrorResponse_spec q rc :
  exists fl, buildErrorResponse q rc = mkMessage (Message.id q) fl (questions q) [] [] [] zeroEDNS false.
Proof. unfold buildErrorResponse, buildOrZero. rewrite addQuestions_spec. eexists. reflexivity. Qed.

(** What passes the filter, unless a zero record stops it. *)
Lemma filterBailiwick_spec qname resp : filterBailiwick qname resp =
  if existsb IsZero (keptAnswers qname resp ++ keptAuthority qname resp ++ keptAdditional qname resp) then resp
  else mkMessage (Message.id resp) (flags resp) (questions resp) (keptAnswers qname resp) (keptAuthority qname resp)
         (keptAdditional qname resp) (if hasEDNS resp then edns resp else zeroEDNS) (hasEDNS resp).
Proof.
  unfold filterBailiwick, MessageBuilder.Build. rewrite addQuestions_spec. cbv zeta.
  set (an := keptAnswers qname resp). set (au := keptAuthority qname resp). set (add := keptAdditional qname resp).
  match goal with |- context [addRecords an au add ?b] => pose proof (addRecords_spec an au add b eq_refl) as H end.
  cbv zeta in H. destruct (existsb _ _); [destruct H as [x Hx]|rewrite H; by destruct (hasEDNS resp)].
  destruct (addRecords _ _ _ _) as [m e]. cbn in Hx. subst. by destruct (hasEDNS resp).
Qed.

(** ** The calls to the upstream *)

(** A call that has not been answered. *)
Definition pending (x : call) : bool := match c_result x with None => true | Some _ => false end.
Definition inFlight (s : system) : Z := zlen (List.filter pending (s_calls s)).
(** A call that holds a slot. *)
Definition holds (x : call) : bool := negb (c_done x).
Definition slots (s : system) : Z := zlen (List.filter holds (s_calls s)).

(** A query that passed the checks, with its question. *)
Definition served (cfg : config) (q : Message) (qq : Question) : Prop :=
  questions q = [qq] /\ Response (flags q) = false /\ q_class qq = rrtype.ClassIN /\ (RecursionDesired (flags q) = true \/ allowNoRD cfg = true).
Definition keyOf (q : Message) (qq : Question) : cacheKey := singleflightKey qq (edsoDOBit q).

(** The calls and their index, and the slots they hold. *)
Record calls_ok (cfg : config) (s : system) : Prop := {
  calls_index k c : s_inflight s !! k = Some c -> exists x, s_calls s !! c = Some x /\ c_key x = k /\ pending x = true;
  calls_pending c x : s_calls s !! c = Some x -> pending x = true -> s_inflight s !! c_key x = Some c;
  calls_query c x : s_calls s !! c = Some x ->
    exists qq id_, served cfg (c_in x) qq /\ c_key x = keyOf (c_in x) qq /\ c_query x = buildForwardQuery id_ (c_in x);
  calls_done c x : s_calls s !! c = Some x -> pending x = true -> holds x = true;
  calls_sem : 0 < maxInflight cfg -> s_sem s = slots s /\ slots s <= maxInflight cfg }.

(** The upstream answered a call for the key [k] with [m]. *)
Definition answered (s : system) (k : cacheKey) (m : Message) : Prop :=
  exists c x, s_calls s !! c = Some x /\ c_key x = k /\ c_result x = Some (Ok m).

(** *** Where replies come from *)

Definition empty (m : Message) : Prop := answers m = [] /\ authorities m = [] /\ additionals m = [].

(** The reply [rep] to [q]: without records, or made of a response to its
    question, new or from the cache. *)
Definition justified (cfg : config) (s : system) (q rep : Message) : Prop :=
  empty rep \/
  exists qq m n, served cfg q qq /\ answered s (keyOf q qq) m /\ nameKey n = nameKey (q_name qq) /\
    let resp := filterBailiwick n m in
    (rep = rebuildForClient q resp \/
     exists t now e, makeEntry resp cfg t = Some e /\ now < expiresAt e /\ rep = buildFromCache q e now).

Definition client_ok (cfg : config) (s : system) (q : Message) (ph : phase) : Prop :=
  match ph with
  | Arrived | Replied None => True
  | Looking qq | Claiming qq => served cfg q qq
  | Waiting qq c => served cfg q qq /\ exists x, s_calls s !! c = Some x /\ c_key x = keyOf q qq
  | Answering qq m => served cfg q qq /\ answered s (keyOf q qq) m
  | Replied (Some rep) => justified cfg s q rep
  | Panicked => False
  end.

(** An entry was made of a response to its key's question. *)
Definition entry_ok (cfg : config) (s : system) (p : cacheKey * entry) : Prop :=
  exists n t cl d m now, p.1 = makeKey n t cl d /\ answered s p.1 m /\ makeEntry (filterBailiwick n m) cfg now = Some p.2.

Record system_ok (cfg : config) (s : system) : Prop := {
  sys_calls : calls_ok cfg s;
  sys_clients i q ph : s_clients s !! i = Some (q, ph) -> client_ok cfg s q ph;
  sys_cache : exists l, implements (cacheSize cfg) (s_cache s) l /\ Forall (entry_ok cfg s) l }.

(** Calls are only added and answered. *)
Definition grows (s s' : system) : Prop :=
  forall c x, s_calls s !! c = Some x -> exists x', s_calls s' !! c = Some x' /\ c_key x' = c_key x /\ (pending x = false -> c_result x' = c_result x).

Lemma answered_grows s s' k m : grows s s' -> answered s k m -> answered s' k m.
Proof.
  intros Hg (c & x & Hx & Hk & Hr). destruct (Hg c x Hx) as (x' & Hx' & Hk' & Hp). unfold pending in Hp. rewrite Hr in Hp.
  specialize (Hp eq_refl). exists c, x'. by rewrite Hk'.
Qed.
Lemma client_grows cfg s s' q ph : grows s s' -> client_ok cfg s q ph -> client_ok cfg s' q ph.
Proof.
  intros Hg. destruct ph as [| | |qq c|qq m|[rep|]|]; cbn; try done.
  - intros [? (x & Hx & Hk)]. split; [done|]. destruct (Hg c x Hx) as (x' & Hx' & Hk' & _). exists x'. by rewrite Hk'.
  - intros [? ?]. split; [done|]. by eapply answered_grows.
  - intros [?|(qq & m & n & ? & ? & ?)]; [by left|right]. exists qq, m, n. split; [done|]. split; [by eapply answered_grows|done].
Qed.
Lemma entry_grows cfg s s' p : grows s s' -> entry_ok cfg s p -> entry_ok cfg s' p.
Proof. intros Hg (n & t & cl & d & m & now & E & Ha & Hm). exists n, t, cl, d, m, now. split_and!; [done|by eapply answered_grows|done]. Qed.
Lemma grows_same s s' : s_calls s' = s_calls s -> grows s s'.
Proof. intros E c x Hx. exists x. by rewrite E. Qed.

Lemma grows_insert s s' c x x' : s_calls s !! c = Some x -> s_calls s' = <[c := x']> (s_calls s) -> c_key x' = c_key x ->
  (pending x = false -> c_result x' = c_result x) -> grows s s'.
Proof.
  intros Hx E Hk Hr c' y Hy. rewrite E. destruct (decide (c = c')) as [->|Hne].
  - rewrite list_lookup_insert_eq by (by eapply lookup_lt_Some). rewrite Hx in Hy. simplify_eq. by exists x'.
  - rewrite list_lookup_insert_ne by done. by exists y.
Qed.

Lemma ingress_ok cfg s closed q : client_ok cfg s q (ingress cfg closed q).
Proof.
  unfold ingress, PreflightRequest.
  assert (forall rc, justified cfg s q (buildErrorResponse q rc)) as HE by (intros rc; left; destruct (buildErrorResponse_spec q rc) as [fl ->]; repeat split).
  destruct closed; [apply HE|]. destruct (Response (flags q)) eqn:ER; [done|]. cbv zeta.
  destruct (_ && _) eqn:EP.
  { destruct (formErrReply q) as [rep|] eqn:EF; [|done]. left. unfold formErrReply in EF. destruct (hasEDNS q); [|cbn in EF; injection EF as <-; repeat split].
    destruct (fst (EDNSBuilder.Build _)); [|done]. cbn in EF. injection EF as <-. repeat split. }
  destruct (negb (Opcode _ =? _)) eqn:EO; [apply HE|]. apply negb_false_iff in EO. rewrite EO in EP. cbn [orb andb] in EP.
  apply negb_false_iff, Z.eqb_eq in EP. destruct (questions q) as [|qq [|]] eqn:EQ; [done| |rewrite !zlen_cons in EP; llia].
  destruct (negb (q_class qq =? _)) eqn:EC; [apply HE|]. destruct (_ && _) eqn:ED; [apply HE|].
  apply negb_false_iff, Z.eqb_eq in EC. split_and!; [done..|]. apply andb_false_iff in ED as [E|E]; apply negb_false_iff in E; auto.
Qed.

(** A client's phase changes, and nothing else. *)
Lemma sys_setClient cfg s s0 i q q0 ph0 ph : system_ok cfg s -> grows s s0 -> s_clients s0 = s_clients s -> s_clients s !! i = Some (q0, ph0) ->
  calls_ok cfg s0 -> (exists l, implements (cacheSize cfg) (s_cache s0) l /\ Forall (entry_ok cfg s0) l) ->
  client_ok cfg s0 q ph -> system_ok cfg (setClient s0 i q ph).
Proof.
  intros [_ Hcl _] Hg Ec Hi Hc0 Hl Hp. constructor.
  - destruct Hc0. by constructor.
  - intros j q' ph'. cbn [setClient s_clients]. rewrite Ec. intros Hj.
    assert (client_ok cfg s0 q' ph') as H.
    { destruct (decide (i = j)) as [<-|Hne].
      - rewrite list_lookup_insert_eq in Hj by (by eapply lookup_lt_Some). by simplify_eq.
      - rewrite list_lookup_insert_ne in Hj by done. eapply client_grows; [done|by eapply Hcl]. }
    eapply client_grows; [|exact H]. by apply grows_same.
  - destruct Hl as (l & ? & Hl). exists l. split; [done|]. eapply Forall_impl; [exact Hl|]. intros p. apply entry_grows. by apply grows_same.
Qed.

(** The calls change, and nothing else. *)
Lemma sys_calls_only cfg s s' : system_ok cfg s -> s_clients s' = s_clients s -> s_cache s' = s_cache s -> calls_ok cfg s' -> grows s s' -> system_ok cfg s'.
Proof.
  intros [_ Hcl (l & ? & Hl)] E1 E2 Hc Hg. constructor; [done| |].
  - rewrite E1. intros i q ph Hq. eapply client_grows; [done|]. by eapply Hcl.
  - exists l. rewrite E2. split; [done|]. eapply Forall_impl; [exact Hl|]. intros p. by apply entry_grows.
Qed.

(** What the cache holds after a lookup or an insertion. *)
Lemma spec_get_sub k now l e l' : lruSpec.get k now l = (e, l') -> Forall (fun p => p ∈ l) l' /\ (forall e0, e = Some e0 -> (k, e0) ∈ l /\ now < expiresAt e0).
Proof.
  assert (Forall (fun p => p ∈ l) (lruSpec.drop_ k l)) as Hd.
  { apply Forall_forall. intros p Hp. unfold lruSpec.drop_ in Hp. by apply elem_of_filterb in Hp as [? _]. }
  unfold lruSpec.get, lruSpec.find. destruct (List.find _ l) as [[k' e']|] eqn:E; cbn.
  - apply find_some in E as [Hin Hk]. apply bool_decide_eq_true in Hk. cbn in Hk. subst k'. apply list_elem_of_In in Hin.
    destruct (now <? expiresAt e') eqn:Et; intros [= <- <-]; (split; [|done || intros ? [= <-]; by split; [|apply Z.ltb_lt]]); [by constructor|done].
  - intros [= <- <-]. split; [|done]. apply Forall_forall. done.
Qed.
Lemma spec_put_sub cap k e l : Forall (fun p => p = (k, e) \/ p ∈ l) (lruSpec.put cap k e l).
Proof.
  unfold lruSpec.put. apply Forall_take. constructor; [by left|]. apply Forall_forall. intros p Hp. right. unfold lruSpec.drop_ in Hp.
  by apply elem_of_filterb in Hp as [? _].
Qed.

Lemma slots_app l x : zlen (List.filter holds (l ++ [x])) = zlen (List.filter holds l) + (if holds x then 1 else 0).
Proof. rewrite List.filter_app. cbn. destruct (holds x); llia. Qed.
Lemma slots_insert l (c : nat) x x' : l !! c = Some x ->
  zlen (List.filter holds (<[c := x']> l)) = zlen (List.filter holds l) - (if holds x then 1 else 0) + (if holds x' then 1 else 0).
Proof.
  revert c. induction l as [|y l IH]; intros [|c] H; try discriminate.
  - injection H as ->. change (<[0%nat := x']> (x :: l)) with (x' :: l). cbn [List.filter]. destruct (holds x), (holds x'); llia.
  - apply IH in H. change (<[S c := x']> (y :: l)) with (y :: <[c := x']> l). cbn [List.filter].
    destruct (holds y); rewrite ?zlen_cons, H; lia.
Qed.
Lemma inFlight_slots l : (forall c x, l !! c = Some x -> pending x = true -> holds x = true) -> zlen (List.filter pending l) <= zlen (List.filter holds l).
Proof.
  induction l as [|x l IH]; intros H; [done|]. cbn [List.filter]. pose proof (H 0%nat x eq_refl) as Hx.
  specialize (IH (fun c y Hy => H (S c) y Hy)). destruct (pending x); [rewrite Hx by done; llia|]. destruct (holds x); llia.
Qed.

Lemma claim_ok cfg s q qq id_ ph inflight calls sem : calls_ok cfg s -> served cfg q qq -> claim cfg s q qq id_ = (ph, inflight, calls, sem) ->
  let s' := mkSystem (s_cache s) inflight calls sem (s_closed s) (s_clients s) in
  calls_ok cfg s' /\ grows s s' /\ client_ok cfg s' q ph.
Proof.
  intros Hc Hq. unfold claim. fold (keyOf q qq). destruct (s_inflight s !! keyOf q qq) as [c|] eqn:Ei.
  { intros [= <- <- <- <-]. cbv zeta. split_and!; [by destruct Hc; constructor|by apply grows_same|]. split; [done|].
    destruct (calls_index _ _ Hc _ _ Ei) as (x & Hx & Hk & _). by exists x. }
  destruct (_ && _) eqn:EM; intros [= <- <- <- <-]; cbv zeta.
  { split_and!; [by destruct Hc; constructor|by apply grows_same|]. left. destruct (buildErrorResponse_spec q RCODEServFail) as [fl ->]. repeat split. }
  set (x := mkCall (keyOf q qq) q (buildForwardQuery id_ q) None false). set (n := length (s_calls s)).
  assert ((s_calls s ++ [x]) !! n = Some x) as Hn by (unfold n; by rewrite list_lookup_middle).
  split_and!; [constructor; cbn [s_inflight s_calls s_sem]| |].
  - intros k c. destruct (decide (k = keyOf q qq)) as [->|Hne]; [rewrite lookup_insert_eq; intros [= <-]; by exists x|].
    rewrite lookup_insert_ne by done. intros (y & Hy & ? & ?)%(calls_index _ _ Hc). exists y. by rewrite (lookup_app_l_Some _ _ _ _ Hy).
  - intros c y Hy Hp. apply lookup_app_Some in Hy as [Hy|[Hge Hy]].
    + pose proof (calls_pending _ _ Hc c y Hy Hp) as Hi. rewrite lookup_insert_ne; [done|]. intros E. rewrite <- E in Hi. congruence.
    + apply list_lookup_singleton_Some in Hy as [Hz <-]. cbn. rewrite lookup_insert_eq. f_equal. unfold n. lia.
  - intros c y Hy. apply lookup_app_Some in Hy as [Hy|[_ [_ <-]%list_lookup_singleton_Some]]; [by apply (calls_query _ _ Hc c)|]. by exists qq, id_.
  - intros c y Hy. apply lookup_app_Some in Hy as [Hy|[_ [_ <-]%list_lookup_singleton_Some]]; [by apply (calls_done _ _ Hc c)|done].
  - intros Hm. destruct (calls_sem _ _ Hc Hm) as [Hs Hl]. unfold slots in *. cbn [s_calls]. rewrite slots_app. cbn [holds x c_done negb].
    rewrite (proj2 (Z.ltb_lt 0 (maxInflight cfg)) Hm) in *. cbn [andb] in EM. apply Z.leb_gt in EM. lia.
  - intros c y Hy. exists y. cbn [s_calls]. by rewrite (lookup_app_l_Some _ _ _ _ Hy).
  - split; [done|]. by exists x.
Qed.

Lemma upstream_ok cfg s c r key in_ query d : calls_ok cfg s -> s_calls s !! c = Some (mkCall key in_ query None d) ->
  let s' := mkSystem (s_cache s) (delete key (s_inflight s)) (<[c := mkCall key in_ query (Some r) d]> (s_calls s))
              (s_sem s) (s_closed s) (s_clients s) in
  calls_ok cfg s' /\ grows s s'.
Proof.
  intros Hc Hx. set (x' := mkCall key in_ query (Some r) d). assert (c < length (s_calls s))%nat as Hlt by (by eapply lookup_lt_Some).
  pose proof (calls_pending _ _ Hc c _ Hx eq_refl) as Hi. cbn [c_key] in Hi. cbv zeta. split; [constructor; cbn [s_inflight s_calls s_sem]|].
  - intros k c' [Hne Hk]%lookup_delete_Some. destruct (calls_index _ _ Hc k c' Hk) as (y & Hy & Hky & Hp). exists y.
    rewrite list_lookup_insert_ne; [done|]. intros ->. rewrite Hx in Hy. by simplify_eq.
  - intros c' y Hy Hp. destruct (decide (c = c')) as [->|Hne]; [rewrite list_lookup_insert_eq in Hy by done; by simplify_eq|].
    rewrite list_lookup_insert_ne in Hy by done. pose proof (calls_pending _ _ Hc c' y Hy Hp) as Hy'.
    rewrite lookup_delete_ne; [done|]. intros E. rewrite E in Hi. congruence.
  - intros c' y Hy. destruct (decide (c = c')) as [->|Hne].
    + rewrite list_lookup_insert_eq in Hy by done. simplify_eq. apply (calls_query _ _ Hc c' _ Hx).
    + rewrite list_lookup_insert_ne in Hy by done. by apply (calls_query _ _ Hc c').
  - intros c' y Hy Hp. destruct (decide (c = c')) as [->|Hne]; [rewrite list_lookup_insert_eq in Hy by done; by simplify_eq|].
    rewrite list_lookup_insert_ne in Hy by done. by apply (calls_done _ _ Hc c').
  - intros Hm. destruct (calls_sem _ _ Hc Hm) as [Hs Hl]. unfold slots in *. cbn [s_calls].
    rewrite (slots_insert _ _ _ _ Hx). change (holds x') with (holds (mkCall key in_ query None d)). destruct (holds (mkCall _ _ _ _ _)); lia.
  - by apply (grows_insert s _ c _ x' Hx).
Qed.

Lemma done_ok cfg s c r key in_ query : calls_ok cfg s -> s_calls s !! c = Some (mkCall key in_ query (Some r) false) ->
  let s' := mkSystem (s_cache s) (s_inflight s) (<[c := mkCall key in_ query (Some r) true]> (s_calls s))
              (if 0 <? maxInflight cfg then s_sem s - 1 else s_sem s) (s_closed s) (s_clients s) in
  calls_ok cfg s' /\ grows s s'.
Proof.
  intros Hc Hx. set (x' := mkCall key in_ query (Some r) true). assert (c < length (s_calls s))%nat as Hlt by (by eapply lookup_lt_Some).
  assert (forall c' y, <[c := x']> (s_calls s) !! c' = Some y -> (c' = c /\ y = x') \/ s_calls s !! c' = Some y) as Hold.
  { intros c' y. destruct (decide (c = c')) as [->|Hne]; [rewrite list_lookup_insert_eq by done; intros [= <-]; by left|].
    rewrite list_lookup_insert_ne by done. by right. }
  cbv zeta. split; [constructor; cbn [s_inflight s_calls s_sem]|].
  - intros k c' Hk. destruct (calls_index _ _ Hc k c' Hk) as (y & Hy & Hky & Hp). exists y.
    rewrite list_lookup_insert_ne; [done|]. intros ->. rewrite Hx in Hy. by simplify_eq.
  - intros c' y [[-> ->]|Hy]%Hold; [done|by apply (calls_pending _ _ Hc)].
  - intros c' y [[-> ->]|Hy]%Hold; [apply (calls_query _ _ Hc c _ Hx)|by apply (calls_query _ _ Hc c')].
  - intros c' y [[-> ->]|Hy]%Hold; [done|by apply (calls_done _ _ Hc c')].
  - intros Hm. destruct (calls_sem _ _ Hc Hm) as [Hs Hl]. unfold slots in *. cbn [s_calls].
    rewrite (slots_insert _ _ _ _ Hx). cbn [holds c_done x' negb]. rewrite (proj2 (Z.ltb_lt 0 (maxInflight cfg)) Hm). lia.
  - by apply (grows_insert s _ c _ x' Hx).
Qed.

(** Every step keeps the invariant. *)
Lemma forward_step_ok cfg s ev s' : system_ok cfg s -> step cfg s ev = Some s' -> system_ok cfg s'.
Proof.
  intros Hs. pose proof Hs as [Hc Hcl (l & Hi & Hl)]. destruct ev as [q|i|i now|i id_|c r|c|i|i|i now| |]; cbn [step].
  - intros [= <-]. constructor; [by destruct Hc; constructor| |by exists l]. cbn [s_clients]. intros j q' ph' [Hj|[_ [_ E]%list_lookup_singleton_Some]]%lookup_app_Some.
    + by apply (Hcl j).
    + by simplify_eq.
  - destruct (s_clients s !! i) as [[q []]|] eqn:Ei; try done. intros [= <-]. eapply sys_setClient; try done; [by apply grows_same|by exists l|apply ingress_ok].
  - destruct (s_clients s !! i) as [[q [| qq| | | | |]]|] eqn:Ei; try done. pose proof (Hcl _ _ _ Ei) as Hq.
    destruct (implements_step (cacheSize cfg) (s_cache s) l (OpGet (q_name qq) (q_typ qq) (q_class qq) (edsoDOBit q) now) Hi) as [He Hi'].
    cbn [cacheDo specDo] in He, Hi'. destruct (cache.get _ _ _ _ _ _) as [e c']. destruct (lruSpec.get _ _ _) as [e' l'] eqn:EG. cbn in He, Hi'. subst e'.
    apply spec_get_sub in EG as [Hsub Hhit]. rewrite Forall_forall in Hl. intros [= <-]. eapply sys_setClient; try done; [by apply grows_same| | |].
    + by destruct Hc; constructor.
    + exists l'. split; [done|]. eapply Forall_impl; [exact Hsub|]. intros p Hp. by apply Hl.
    + destruct e as [e|]; [|done]. right. destruct (Hhit e eq_refl) as [Hin Hnow]. apply Hl in Hin as (n & t & cl & d & m & t0 & Ek & Ha & Hm).
      cbn [fst snd] in Ek, Ha, Hm. exists qq, m, n. split; [done|]. split; [done|]. split; [by injection Ek|]. right. by exists t0, now, e.
  - destruct (s_clients s !! i) as [[q [| |qq| | | |]]|] eqn:Ei; try done. pose proof (Hcl _ _ _ Ei) as Hq.
    destruct (claim cfg s q qq id_) as [[[ph inflight] calls] sem] eqn:EC. intros [= <-].
    destruct (claim_ok _ _ _ _ _ _ _ _ _ Hc Hq EC) as (H1 & H2 & H3). eapply sys_setClient; try done.
    exists l. split; [done|]. eapply Forall_impl; [exact Hl|]. intros p. by apply entry_grows.
  - destruct (s_calls s !! c) as [[key in_ query [|] d]|] eqn:Ec; try done. intros [= <-].
    destruct (upstream_ok cfg s c r key in_ query d Hc Ec) as [H1 H2]. by apply (sys_calls_only cfg s).
  - destruct (s_calls s !! c) as [[key in_ query [r|] []]|] eqn:Ec; try done. intros [= <-].
    destruct (done_ok cfg s c r key in_ query Hc Ec) as [H1 H2]. by apply (sys_calls_only cfg s).
  - destruct (s_clients s !! i) as [[q [| | |qq c| | |]]|] eqn:Ei; try done. pose proof (Hcl _ _ _ Ei) as [Hq (x & Hx & Hk)]. rewrite Hx.
    destruct x as [key in_ query [[m|e]|] []]; try done; intros [= <-]; (eapply sys_setClient; try done; [by apply grows_same|by exists l|]).
    + split; [done|]. by exists c, (mkCall key in_ query (Some (Ok m)) true).
    + left. destruct (buildErrorResponse_spec q RCODEServFail) as [fl ->]. repeat split.
  - destruct (s_clients s !! i) as [[q [| | |qq c| | |]]|] eqn:Ei; try done. intros [= <-]. eapply sys_setClient; try done; [by apply grows_same|by exists l|].
    left. destruct (buildErrorResponse_spec q RCODEServFail) as [fl ->]. repeat split.
  - destruct (s_clients s !! i) as [[q [| | | |qq m| |]]|] eqn:Ei; try done. pose proof (Hcl _ _ _ Ei) as [Hq Ha]. intros [= <-].
    eapply sys_setClient; try done; [by apply grows_same|by destruct Hc; constructor| |].
    + destruct (makeEntry _ cfg now) as [e|] eqn:Em; [|by exists l].
      destruct (implements_step (cacheSize cfg) (s_cache s) l (OpPut (q_name qq) (q_typ qq) (q_class qq) (edsoDOBit q) e) Hi) as [_ Hi'].
      eexists. split; [exact Hi'|]. eapply Forall_impl; [apply spec_put_sub|]. rewrite Forall_forall in Hl.
      intros p [->|Hp]; [|by apply Hl]. by exists (q_name qq), (q_typ qq), (q_class qq), (edsoDOBit q), m, now.
    + right. exists qq, m, (q_name qq). split; [done|]. split; [done|]. split; [done|]. by left.
  - intros [= <-]. constructor; [by destruct Hc; constructor|done|by exists l].
  - destruct (s_closed s); [|done]. intros [= <-]. constructor; [by destruct Hc; constructor|done|].
    destruct (implements_step (cacheSize cfg) (s_cache s) l OpClear Hi) as [_ Hi']. by exists [].
Qed.

Lemma init_ok opts_ : let '(cfg, s) := newForwarder opts_ in system_ok cfg s.
Proof.
  cbn [newForwarder]. set (cfg := fold_left _ _ _). clearbody cfg. constructor.
  - constructor; cbn [s_inflight s_calls s_sem]; [intros k c; by rewrite lookup_empty|done|done|done|]. intros ?. split; [done|].
    change (slots _) with 0. lia.
  - done.
  - exists []. split; [|done]. apply implements_new.
Qed.

Lemma reachable_ok opts_ s : let '(cfg, init) := newForwarder opts_ in reachable cfg init s -> system_ok cfg s.
Proof.
  pose proof (init_ok opts_) as H0. destruct (newForwarder opts_) as [cfg init]. induction 1 as [|s ev s' _ IH Hs]; [done|]. by eapply forward_step_ok.
Qed.

(** C32. The upstream is asked at most once at a time for the same name, type,
    class and DO bit, and about at most [maxInflight] of them at a time (a slot is held until
    the waiting queries are told): every
    query that waits for an answer not in the cache waits for a call made for
    its own question.  No query makes the handler panic. *)
Theorem forward_singleflight opts_ s :
  let '(cfg, init) := newForwarder opts_ in
  reachable cfg init s ->
  (forall c1 c2 x1 x2, s_calls s !! c1 = Some x1 -> s_calls s !! c2 = Some x2 -> pending x1 = true -> pending x2 = true ->
     c_key x1 = c_key x2 -> c1 = c2) /\
  (0 < maxInflight cfg -> inFlight s <= s_sem s <= maxInflight cfg) /\
  (forall i q qq c, s_clients s !! i = Some (q, Waiting qq c) -> exists x, s_calls s !! c = Some x /\ c_key x = keyOf q qq /\ questions q = [qq]) /\
  (forall i q, s_clients s !! i <> Some (q, Panicked)).
Proof.
  pose proof (reachable_ok opts_ s) as H. destruct (newForwarder opts_) as [cfg init]. intros [Hc Hcl _]%H. split_and!.
  - intros c1 c2 x1 x2 H1 H2 P1 P2 E. apply (calls_pending _ _ Hc) in H1, H2; [|done..]. congruence.
  - intros Hm. destruct (calls_sem _ _ Hc Hm) as [-> ?]. split; [|done]. apply inFlight_slots, (calls_done _ _ Hc).
  - intros i q qq c Hi. destruct (Hcl _ _ _ Hi) as [(? & _) (x & ? & ?)]. by exists x.
  - intros i q Hi. by apply Hcl in Hi.
Qed.

(** *** Records of replies *)

Lemma RCODE_range f : 0 <= RCODE f < 16.
Proof. unfold RCODE. change 0x0f with (Z.ones 4). rewrite Z.land_ones by lia. apply Z.mod_pos_bound. lia. Qed.

Lemma replyFlags_fields q ad_ rc : 0 <= rc < 16 ->
  flagFields (replyFlags q ad_ rc) = (true, 0, false, false, RecursionDesired (flags q), true, ad_, CheckingDisabled (flags q), rc).
Proof.
  intros Hrc. unfold replyFlags.
  assert (forall f qr op aa tc rd ra ad cd rc, flagFields f = (qr, op, aa, tc, rd, ra, ad, cd, rc) ->
    (forall v, flagFields (WithResponse v f) = (v, op, aa, tc, rd, ra, ad, cd, rc)) /\
    (forall v, flagFields (WithRecursionDesired v f) = (qr, op, aa, tc, v, ra, ad, cd, rc)) /\
    (forall v, flagFields (WithRecursionAvailable v f) = (qr, op, aa, tc, rd, v, ad, cd, rc)) /\
    (forall v, flagFields (WithAuthenticData v f) = (qr, op, aa, tc, rd, ra, v, cd, rc)) /\
    (forall v, flagFields (WithCheckingDisabled v f) = (qr, op, aa, tc, rd, ra, ad, v, rc)) /\
    (forall r, 0 <= r < 16 -> flagFields (WithRCODE r f) = (qr, op, aa, tc, rd, ra, ad, cd, r))) as H.
  { intros f qr op aa tc rd ra ad_' cd rc' E. pose proof (flags_setters f) as H. rewrite E in H. destruct_and!. by split_and!. }
  eapply H; [|done]. eapply H. eapply H. eapply H. eapply H. eapply H. reflexivity.
Qed.

Lemma cnameChain_alias qname records y : y ∈ cnameChain qname records <-> rtc (alias records) (nameKey qname) y.
Proof. exact (cnameChain_spec qname records y). Qed.

(** *** What passes the filter *)

Lemma above_loop_spec fuel a d : (length (wire d) < fuel)%nat -> above_loop fuel a d = true <-> anc d a /\ IsValid a = true.
Proof.
  revert d. induction fuel as [|fuel IH]; intros d Hf; [lia|]. cbn [above_loop]. destruct (IsValid d) eqn:Ev; cbn [negb].
  2: { split; [done|]. intros [Ha Hv]. inversion Ha as [|? y ? Hy]; subst; [congruence|]. unfold up, Parent in Hy. by rewrite Ev in Hy. }
  destruct (Equal d a) eqn:Ee; [apply Equal_iff in Ee as ->; done|]. apply Equal_false in Ee.
  destruct (Parent d) as [p|] eqn:Ep.
  2: { split; [done|]. intros [Ha _]. inversion Ha as [|? y ? Hy]; subst; [done|]. unfold up in Hy. congruence. }
  destruct (Equal d p) eqn:Eq.
  { apply Equal_iff in Eq as <-. split; [done|]. intros [Ha _]. exfalso. apply Ee. clear Ee.
    induction Ha as [|x y z Hy _ IHa]; [done|]. unfold up in Hy. rewrite Ep in Hy. injection Hy as <-. by apply IHa. }
  apply Equal_false in Eq. rewrite IH.
  - split; intros [Ha Hv]; (split; [|done]); [by eapply rtc_l|]. inversion Ha as [|? y ? Hy]; subst; [done|]. unfold up in Hy. congruence.
  - enough (length (wire p) < length (wire d))%nat by lia. unfold Parent in Ep. destruct (_ || _); [done|]. injection Ep as <-. cbn [wire].
    rewrite length_drop. destruct (Z.to_nat (1 + zget (wire d) 0)) as [|k]; [exfalso; apply Eq; by destruct d|].
    unfold IsValid, zlen in Ev. bool_facts. lia.
Qed.

(** [l'] is what of [l] has the property, in order. *)
Definition keeps (P : Record_ -> Prop) (l l' : list Record_) : Prop :=
  exists f : Record_ -> bool, (forall r, f r = true <-> P r) /\ l' = List.filter f l.

(** What a response [m] to a query for [n] contributes: the answers at names that
    its CNAMEs lead to from [n]; of the authority section the records at or above
    [n], none at the root unless [n] is the root; of the additional section the
    OPT records and those at a target of a CNAME or NS record kept. *)
Record filtered (n : Name) (m : Message) (an au add : list Record_) : Prop := {
  filtered_answers : keeps (fun r => rtc (alias (answers m)) (nameKey n) (nameKey (r_name r))) (answers m) an;
  filtered_authority : keeps (fun r => (anc n (r_name r) /\ IsValid (r_name r) = true) /\ (r_name r = Root -> n = Root)) (authorities m) au;
  filtered_additional : keeps (fun r => RType r = rrtype.OPT \/ referenced an au (nameKey (r_name r))) (additionals m) add }.

Lemma kept_filtered n m : filtered n m (keptAnswers n m) (keptAuthority n m) (keptAdditional n m).
Proof.
  constructor; eexists; (split; [|reflexivity]); intros r; cbn beta.
  - by rewrite bool_decide_eq_true, cnameChain_alias.
  - unfold isAtOrAbove. pose proof (above_loop_spec (S (length (wire n))) (r_name r) n ltac:(lia)) as Ha.
    rewrite <- Ha. destruct (above_loop _ _ _); cbn [negb]; [|split; [done|by intros [? _]]].
    rewrite negb_true_iff, andb_false_iff, negb_false_iff, <- !IsRoot_iff. destruct (IsRoot (r_name r)), (IsRoot n); naive_solver.
  - rewrite orb_true_iff, Z.eqb_eq, bool_decide_eq_true. unfold referenced. rewrite elem_of_app, !list_elem_of_omap.
    split; (intros [?|[H|H]]; [by left|right; left|right; right]).
    + destruct H as (x & Hx & (y & ? & ?)%fmap_Some). by exists x, y.
    + destruct H as (x & Hx & (y & ? & ?)%fmap_Some). by exists x, y.
    + destruct H as (x & y & Hx & Hy & ->). exists x. split; [done|]. by rewrite Hy.
    + destruct H as (x & y & Hx & Hy & ->). exists x. split; [done|]. by rewrite Hy.
Qed.

(** A response without zero records, as parsing gives, passes exactly this. *)
Definition no_zero (m : Message) : Prop := existsb IsZero (answers m ++ authorities m ++ additionals m) = false.

Lemma filterBailiwick_filtered n m (resp := filterBailiwick n m) : no_zero m ->
  filtered n m (answers resp) (authorities resp) (additionals resp) /\ hasEDNS resp = hasEDNS m /\ (hasEDNS m = true -> edns resp = edns m).
Proof.
  unfold resp, no_zero. rewrite filterBailiwick_spec. destruct (existsb IsZero (keptAnswers n m ++ _)) eqn:EZ.
  - intros Hz. exfalso. apply existsb_exists in EZ as (x & Hx & Hzx). assert (existsb IsZero (answers m ++ authorities m ++ additionals m) = true) as E; [|congruence].
    apply existsb_exists. exists x. split; [|done]. rewrite !in_app_iff in *. unfold keptAnswers, keptAuthority, keptAdditional in Hx.
    rewrite !List.filter_In in Hx. tauto.
  - intros _. cbn [answers authorities additionals hasEDNS edns]. split; [apply kept_filtered|]. split; [done|]. by intros ->.
Qed.

Lemma minTTL_le sets set_ r : (forall s r, s ∈ sets -> r ∈ s -> 0 <= r_ttl r) -> set_ ∈ sets -> r ∈ set_ -> minTTL sets <= r_ttl r.
Proof.
  intros Hpos Hs Hr. unfold minTTL. set (step_ := fun smallest r => if (smallest <? 0) || (r_ttl r <? smallest) then r_ttl r else smallest).
  assert (forall l acc, -1 <= acc -> (forall x, x ∈ l -> 0 <= r_ttl x) ->
    -1 <= fold_left step_ l acc /\ (0 <= acc -> fold_left step_ l acc <= acc) /\ (0 <= acc -> 0 <= fold_left step_ l acc) /\
    forall x, x ∈ l -> 0 <= fold_left step_ l acc <= r_ttl x) as H1.
  { induction l as [|y l IH]; intros acc Ha Hl; cbn [fold_left]; [split_and!; [done..|by intros ? ?%elem_of_nil]|].
    assert (0 <= r_ttl y) as Hy by (apply Hl; constructor).
    assert (0 <= step_ acc y <= r_ttl y /\ (0 <= acc -> step_ acc y <= acc)) as [Hst Hst'].
    { unfold step_. destruct (_ || _) eqn:E; [apply orb_true_iff in E as [?|?]; lia|]. apply orb_false_iff in E as [??]. lia. }
    destruct (IH (step_ acc y)) as (I1 & I2 & I3 & I4); [lia|intros; apply Hl; by constructor|]. split_and!; try lia.
    intros x [->|Hx]%elem_of_cons; [split; lia|by apply I4]. }
  assert (forall l acc, -1 <= acc -> (forall s x, s ∈ l -> x ∈ s -> 0 <= r_ttl x) ->
    let f := fold_left (fun acc s => fold_left step_ s acc) l acc in
    -1 <= f /\ (0 <= acc -> 0 <= f <= acc) /\ forall s x, s ∈ l -> x ∈ s -> 0 <= f <= r_ttl x) as H2.
  { induction l as [|s l IH]; intros acc Ha Hl; cbn [fold_left]; [split_and!; [done|lia|by intros ? ? ?%elem_of_nil]|].
    destruct (H1 s acc Ha) as (A1 & A2 & A3 & A4); [intros; eapply Hl; [constructor|done]|].
    destruct (IH (fold_left step_ s acc) A1) as (B1 & B2 & B3); [intros; eapply Hl; [by constructor|done]|]. split_and!; [lia|lia|].
    intros s' x [->|Hs']%elem_of_cons Hx; [|by eapply B3]. specialize (A4 x Hx). lia. }
  destruct (H2 sets (-1)) as (_ & _ & H3); [lia|done|]. specialize (H3 _ _ Hs Hr). fold step_. case_match; bool_facts; lia.
Qed.

Lemma minTTL_nonneg sets : 0 <= minTTL sets.
Proof. unfold minTTL. case_match; bool_facts; lia. Qed.

(** For how long, [life], the forwarder may keep what it filtered: an answer no
    longer than the maximum, if there is one, and, when no minimum is configured,
    than the TTL of any of its answer and authority records; a negative response
    no longer than its own maximum. *)
Definition keepable (cfg : config) (m : Message) (an au : list Record_) (life : Z) : Prop :=
  if bool_decide (RCODE (flags m) = RCODENoError /\ an <> []) then
    0 < life /\ (0 < maxTTL cfg -> life <= maxTTL cfg) /\
    (minTTL_ cfg <= 0 -> (forall x, x ∈ an ++ au -> 0 <= r_ttl x) -> forall r, r ∈ an ++ au -> life <= r_ttl r)
  else (RCODE (flags m) = RCODENoError \/ RCODE (flags m) = RCODENXDomain) /\ life <= maxNegTTL cfg.

Lemma negativeTTL_le au maxNeg ttl : negativeTTLFromSOA au maxNeg = Some ttl -> ttl <= maxNeg.
Proof.
  induction au as [|r au IH]; [done|]. cbn [negativeTTLFromSOA]. repeat case_match; try done; intros [= <-]; lia.
Qed.

Lemma makeEntry_of resp cfg t e : makeEntry resp cfg t = Some e ->
  answers_ e = (if RCODE (flags resp) =? RCODENXDomain then [] else answers resp) /\
  authority e = authorities resp /\ additional e = additionals resp /\ rcode e = RCODE (flags resp) /\ ad e = AuthenticData (flags resp) /\
  insertedAt e = t /\ exists life, expiresAt e = t + life /\ keepable cfg resp (answers resp) (authorities resp) life.
Proof.
  unfold makeEntry, keepable. intros H. destruct (RCODE (flags resp) =? RCODENoError) eqn:E0; bool_facts.
  - rewrite E0. change (RCODENoError =? RCODENXDomain) with false. destruct (0 <? zlen (answers resp)) eqn:E1; bool_facts.
    + assert (answers resp <> []) as Hne by (intros E; by rewrite E in E1). rewrite bool_decide_eq_true_2 by done.
      set (ttl := clamp _ _ _) in *. destruct (ttl <=? 0) eqn:ET; [done|]. bool_facts. injection H as <-. cbn. split_and!; [done..|].
      exists ttl. split_and!; [done|done| |].
      * intros Hm. unfold ttl, clamp. rewrite (proj2 (Z.ltb_lt 0 (maxTTL cfg)) Hm). cbn [andb]. destruct (maxTTL cfg <? _) eqn:E; bool_facts; lia.
      * intros Hlo Hpos r Hr.
        assert (minTTL [answers resp; authorities resp] <= r_ttl r) as Hm.
        { apply elem_of_app in Hr as [Hr|Hr]; (eapply minTTL_le; [|by repeat constructor|exact Hr]);
            intros s_ x Hs Hx; apply Hpos; rewrite elem_of_app; apply elem_of_cons in Hs as [->|[->|[]%elem_of_nil]%elem_of_cons]; auto. }
        pose proof (minTTL_nonneg [answers resp; authorities resp]) as H0. etrans; [|exact Hm]. unfold ttl, clamp.
        destruct (_ <? minTTL_ cfg) eqn:E2; bool_facts; [lia|]. destruct (_ && _) eqn:E3; [|lia]. apply andb_true_iff in E3 as [_ ?]. lia.
    + assert (answers resp = []) as Hnil by (destruct (answers resp); [done|rewrite zlen_cons in *; pose proof (zlen_nonneg l); lia]).
      rewrite bool_decide_eq_false_2 by (intros [_ ?]; done).
      destruct (negativeTTLFromSOA _ _) as [ttl|] eqn:EN; [|done]. injection H as <-. cbn. rewrite Hnil. split_and!; [done..|].
      exists ttl. split_and!; [done|by left|]. by eapply negativeTTL_le.
  - rewrite bool_decide_eq_false_2 by (by intros [? _]). destruct (RCODE (flags resp) =? RCODENXDomain) eqn:E1; bool_facts; [|done].
    injection H as <-. cbn. split_and!; [done..|]. eexists. split_and!; [reflexivity|by right|].
    destruct (negativeTTLFromSOA _ _) as [ttl|] eqn:EN; [by eapply negativeTTL_le|done].
Qed.

Lemma existsb_map_adjust l age : existsb IsZero (map (fun r => adjustTTL r age) l) = existsb IsZero l.
Proof. induction l as [|r l IH]; [done|]. cbn. rewrite IH. by destruct r. Qed.

(** A record in a reply from the cache: its TTL lowered by the entry's age, at
    least zero. *)
Definition aged (age : Z) (r : Record_) : Record_ := mkRecord (r_name r) (r_class r) (Z.max (r_ttl r - age) 0) (r_rd r).

(** The sections of a reply made of the response [m] to a query for [n]: passed on
    at once, or kept at [t] for [life] and taken from the cache at [now]. *)
Inductive suppliedBy (cfg : config) (n : Name) (m rep : Message) : Prop :=
  | fromResponse :
      filtered n m (answers rep) (authorities rep) (additionals rep) ->
      hasEDNS rep = hasEDNS m -> (hasEDNS m = true -> edns rep = edns m) -> suppliedBy cfg n m rep
  | fromCache an au add t now life :
      filtered n m an au add -> keepable cfg m an au life -> now < t + life -> hasEDNS rep = false ->
      answers rep = (if RCODE (flags m) =? RCODENXDomain then [] else map (aged (timeSub now t)) an) ->
      authorities rep = map (aged (timeSub now t)) au -> additionals rep = map (aged (timeSub now t)) add ->
      suppliedBy cfg n m rep.

Lemma replyWith_cases q fl an au add e :
  empty (replyWith q fl an au add e) \/
  (existsb IsZero (an ++ au ++ add) = false /\
   replyWith q fl an au add e = mkMessage (Message.id q) fl (questions q) an au add (default zeroEDNS e) (match e with Some _ => true | None => false end)).
Proof. unfold replyWith. destruct (existsb IsZero _); [left; repeat split|by right]. Qed.

Lemma filterBailiwick_flags n m : flags (filterBailiwick n m) = flags m.
Proof. rewrite filterBailiwick_spec. by destruct (existsb _ _). Qed.

Lemma justified_sourced cfg q rep n m (resp := filterBailiwick n m) :
  (rep = rebuildForClient q resp \/ exists t now e, makeEntry resp cfg t = Some e /\ now < expiresAt e /\ rep = buildFromCache q e now) ->
  empty rep \/
  (Message.id rep = Message.id q /\ questions rep = questions q /\
   flagFields (flags rep) = (true, 0, false, false, RecursionDesired (flags q), true, AuthenticData (flags m), CheckingDisabled (flags q), RCODE (flags m)) /\
   (no_zero m -> suppliedBy cfg n m rep)).
Proof.
  intros [->|(t & now & e & HE & Hnow & ->)].
  - rewrite rebuildForClient_spec. destruct (replyWith_cases q (replyFlags q (AuthenticData (flags resp)) (RCODE (flags resp))) (answers resp)
      (authorities resp) (additionals resp) (if hasEDNS resp then Some (edns resp) else None)) as [?|(_ & ->)]; [by left|right].
    assert (flags resp = flags m) as Efl by apply filterBailiwick_flags.
    cbn [Message.id questions flags]. rewrite Efl, replyFlags_fields by apply RCODE_range. split_and!; try done. intros Hm.
    destruct (filterBailiwick_filtered n m Hm) as (Hf & Eh & Ee). fold resp in Hf, Eh, Ee.
    apply fromResponse; cbn [answers authorities additionals hasEDNS edns]; [done|by rewrite Eh; destruct (hasEDNS m)|].
    intros Hmm. rewrite Eh, Hmm. by apply Ee.
  - rewrite buildFromCache_spec. cbv zeta. destruct (makeEntry_of _ _ _ _ HE) as (Ha & Hau & Had & Hrc & Hadb & Ht & life & Hlife & Hk).
    set (age := timeSub now (insertedAt e)). assert (flags resp = flags m) as Efl by apply filterBailiwick_flags.
    destruct (replyWith_cases q (replyFlags q (ad e) (rcode e)) (map (fun r => adjustTTL r age) (answers_ e))
      (map (fun r => adjustTTL r age) (authority e)) (map (fun r => adjustTTL r age) (additional e)) None)
      as [?|(_ & ->)]; [by left|right].
    cbn [Message.id questions flags]. rewrite Hrc, Hadb, Efl, replyFlags_fields by apply RCODE_range. split_and!; try done. intros Hm.
    destruct (filterBailiwick_filtered n m Hm) as (Hf & _ & _). fold resp in Hf.
    unfold age. rewrite Ht. eapply (fromCache _ _ _ _ (answers resp) (authorities resp) (additionals resp) t now life);
      cbn [answers authorities additionals hasEDNS]; [done| |lia|done| |by rewrite Hau|by rewrite Had]; [|rewrite Ha, Efl; by destruct (RCODE (flags m) =? _)].
    unfold keepable in *. by rewrite Efl in Hk.
Qed.


(** ** What the upstream learns *)

(** What of a query may reach the upstream: the question, the CD bit, and of
    EDNS the fixed fields and the options on the list. *)
Definition visible (q : Message) : list Question * bool * option (Z * Z * Z * bool * list EDNSOption) :=
  (questions q, CheckingDisabled (flags q),
   if hasEDNS q then Some (udpSize (edns q), extRCODE (edns q), version (edns q), do_ (edns q),
     List.filter (fun o => isForwardSafeEDNSOption (code o)) (opts (edns q))) else None).

Lemma safe_options l eb :
  fold_left (fun eb o => if negb (isForwardSafeEDNSOption (code o)) then eb else EDNSBuilder.Option o eb) l eb =
  fold_left (fun eb o => EDNSBuilder.Option o eb) (List.filter (fun o => isForwardSafeEDNSOption (code o)) l) eb.
Proof. revert eb. induction l as [|o l IH]; intros eb; cbn [fold_left List.filter]; [done|]. destruct (isForwardSafeEDNSOption _); apply IH. Qed.

(** C33. Two clients' queries that agree on the question, the CD bit, the fixed
    EDNS fields and the options of the allow list become the same upstream
    query: the client subnet, cookies, the ID, the other header bits, every
    other option and all records stay with the forwarder. *)
Theorem forward_query_private id_ q1 q2 : visible q1 = visible q2 -> buildForwardQuery id_ q1 = buildForwardQuery id_ q2.
Proof.
  unfold visible, buildForwardQuery. intros [= -> -> HE]. destruct (hasEDNS q1), (hasEDNS q2); try discriminate; [|done].
  injection HE as -> -> -> -> HO. by rewrite !safe_options, HO.
Qed.

(** ** Examples *)

Module Upstream.
Definition www : Name := nm [str "www"; str "example"].
Definition query (id_ : Z) (cd : bool) (o : list EDNSOption) : Message :=
  mkMessage id_ (WithCheckingDisabled cd (WithRecursionDesired true 0)) [NewQuestion www rrtype.A] [] [] [] (mkEDNS 1232 0 0 true o) true.
Definition address : Record_ := NewRecord www (300 * Second) (RD_A (Addr4 [192; 0; 2; 80])).
Definition response (fl : Flags) (an au : list Record_) : Message := mkMessage 9 fl [NewQuestion www rrtype.A] an au [] zeroEDNS false.
Definition cfg : config := (newForwarder []).1.
Definition init : system := (newForwarder []).2.

(** A client asks, the upstream answers, the client is answered; then a second
    client asks. *)
Definition events (q1 q2 : Message) (resp : Message) : list event :=
  [Arrive q1; Serve 0; Look 0 0; Claim 0 77; forward.Upstream 0 (Ok resp); Done 0; Wake 0; Answer 0 0; Arrive q2; Serve 1; Look 1 (10 * Second)].
Definition runAll (evs : list event) : option system := fold_left (fun s ev => s ≫= fun s => step cfg s ev) evs (Some init).
Definition final (q1 q2 resp : Message) : system := default init (runAll (events q1 q2 resp)).
Definition replyOf (s : system) (i : nat) : Message := match s_clients s !! i with Some (_, Replied (Some rep)) => rep | _ => zeroMessage end.

Lemma runAll_reachable evs s s' : reachable cfg init s -> fold_left (fun s ev => s ≫= fun s => step cfg s ev) evs (Some s) = Some s' -> reachable cfg init s'.
Proof.
  revert s. induction evs as [|ev evs IH]; intros s Hs; cbn [fold_left]; [by intros [= <-]|]. cbn [mbind option_bind].
  destruct (step cfg s ev) as [s1|] eqn:E; [apply IH; by eapply reachable_step|]. clear. induction evs; [done|]. done.
Qed.

Definition ok : Flags := WithResponse true 0.
Definition plain : system := final (query 1 false []) (query 2 false [mkEDNSOption EDNSOptionClientSubnet [0; 1; 24; 0; 192; 0; 2]]) (response ok [address] []).
Lemma plain_reachable : reachable cfg init plain.
Proof. apply (runAll_reachable (events (query 1 false []) (query 2 false [mkEDNSOption EDNSOptionClientSubnet [0; 1; 24; 0; 192; 0; 2]]) (response ok [address] [])) init); [constructor|vm_compute; reflexivity]. Qed.
End Upstream.

Lemma forward_singleflight_witness : inFlight Upstream.plain <= 1024 /\ length (s_calls Upstream.plain) = 1%nat.
Proof.
  split; [|vm_compute; reflexivity]. destruct (forward_singleflight [] Upstream.plain Upstream.plain_reachable) as (_ & H & _).
  specialize (H ltac:(vm_compute; reflexivity)). etransitivity; apply H.
Defined.


Lemma forward_query_private_witness :
  opts (edns (Upstream.query 2 false [mkEDNSOption EDNSOptionClientSubnet [0; 1; 24; 0; 192; 0; 2]])) <> [] /\
  buildForwardQuery 5 (Upstream.query 2 false [mkEDNSOption EDNSOptionClientSubnet [0; 1; 24; 0; 192; 0; 2]]) =
  buildForwardQuery 5 (Upstream.query 1 false []).
Proof. split; [discriminate|]. apply forward_query_private. reflexivity. Defined.

(** The CD bit is no part of the keys: what the upstream returns to a client
    that disables checking is served to one that relies on it. *)
Theorem forward_checking_disabled_shared :
  let s := Upstream.final (Upstream.query 1 true []) (Upstream.query 2 false []) (Upstream.response Upstream.ok [Upstream.address] []) in
  map (fun x => CheckingDisabled (flags (c_query x))) (s_calls s) = [true] /\
  answers (Upstream.replyOf s 1) = [NewRecord Upstream.www (290 * Second) (RD_A (Addr4 [192; 0; 2; 80]))] /\
  CheckingDisabled (flags (Upstream.replyOf s 1)) = false.
Proof. vm_compute. repeat split; reflexivity. Qed.

(** A truncated response is passed on, and cached, without its TC bit. *)
Theorem forward_truncation_hidden :
  let s := Upstream.final (Upstream.query 1 false []) (Upstream.query 2 false [])
             (Upstream.response (WithTruncated true Upstream.ok) [Upstream.address] []) in
  map (fun i => (Truncated (flags (Upstream.replyOf s i)), length (answers (Upstream.replyOf s i)))) [0; 1]%nat = [(false, 1); (false, 1)]%nat /\
  length (s_calls s) = 1%nat.
Proof. vm_compute. split; reflexivity. Qed.

(** An NXDOMAIN whose SOA says not to cache it (MINIMUM 0) is cached for the
    whole maximum. *)
Theorem forward_zero_minimum_cached :
  let soa := NewRecord (nm [str "example"]) (300 * Second) (RD_SOA Root Root 1 0 0 0 0) in
  let resp := Upstream.response (WithRCODE RCODENXDomain Upstream.ok) [] [soa] in
  makeEntry resp Upstream.cfg 0 = Some (mkEntry [] [soa] [] RCODENXDomain false 0 (300 * Second)).
Proof. vm_compute. reflexivity. Qed.

(** The denials in a negative response do not pass the filter: a validator
    behind the forwarder cannot check it. *)
Theorem forward_denials_dropped :
  let soa := NewRecord (nm [str "example"]) (300 * Second) (RD_SOA Root Root 1 0 0 0 (300 * Second)) in
  let nsec := NewRecord (nm [str "a"; str "example"]) (300 * Second) (RD_NSEC (nm [str "z"; str "example"]) [rrtype.A]) in
  authorities (filterBailiwick Upstream.www (Upstream.response (WithRCODE RCODENXDomain Upstream.ok) [] [soa; nsec])) = [soa].
Proof. vm_compute. reflexivity. Qed.
