(* ===== verification/Text.v ===== *)
(** * Numbers, octets and addresses as text

    What the zone-file code uses of Go's strconv, encoding/hex,
    encoding/base64, strings and net/netip, and the mnemonics of record types
    and classes (src/wire/rrtype/rrtype.go); and that each reader undoes its
    printer. *)

From Stdlib Require Import Strings.String.
From S2P Require Import Prelude Name RData RDataRoundtrip RDataNew EdnsOptions Netip.
Open Scope Z_scope.
Open Scope list_scope.

(** ** strconv *)

Definition maxInt64 : Z := 9223372036854775807.
(** Arithmetic on Go's int, which has 64 bits, wraps around. *)
Definition wrap64 (v : Z) : Z := (v + 2 ^ 63) mod 2 ^ 64 - 2 ^ 63.

(** [strconv.ParseUint(s, 10, bits)]: digits only, and in range. *)
Fixpoint parseUint_loop (maxVal n : Z) (s : bytes) : option Z :=
  match s with
  | [] => Some n
  | c :: s => if isDigit c then let n1 := n * 10 + (c - 48) in if maxVal <? n1 then None else parseUint_loop maxVal n1 s else None
  end.
Definition ParseUint (s : bytes) (bits : Z) : option Z :=
  match s with [] => None | _ => parseUint_loop (2 ^ bits - 1) 0 s end.

(** [strconv.ParseInt(s, 10, bits)]: an optional sign first.
    [strconv.Atoi(s)] is [ParseInt s 64]. *)
Definition ParseInt (s : bytes) (bits : Z) : option Z :=
  match s with
  | [] => None
  | c :: s' =>
      let '(neg, digits) := if c =? 43 then (false, s') else if c =? 45 then (true, s') else (false, s) in
      match ParseUint digits bits with
      | None => None
      | Some un =>
          let cutoff := 2 ^ (bits - 1) in
          if negb neg && (cutoff <=? un) then None
          else if neg && (cutoff <? un) then None
          else Some (if neg then - un else un)
      end
  end.
Definition Atoi (s : bytes) : option Z := ParseInt s 64.

(** [strconv.FormatInt(v, base)]; 64 bits have at most 64 digits. *)
Definition digit (d : Z) : Z := if d <? 10 then 48 + d else 87 + d.
Fixpoint format_loop (fuel : nat) (base v : Z) (acc : bytes) : bytes :=
  match fuel with
  | O => acc
  | S fuel => if v <? base then digit v :: acc else format_loop fuel base (v / base) (digit (v mod base) :: acc)
  end.
Definition FormatInt (v base : Z) : bytes := if v <? 0 then 45 :: format_loop 64 base (- v) [] else format_loop 64 base v [].
(** [strconv.Itoa(v)] and the verb %d. *)
Definition Itoa (v : Z) : bytes := FormatInt v 10.

(** ** encoding/hex *)

Definition EncodeToString (b : bytes) : bytes := concat (map (fun x => [digit (x / 16); digit (x mod 16)]) b).
Definition fromHex (c : Z) : option Z :=
  if isDigit c then Some (c - 48)
  else if (97 <=? c) && (c <=? 102) then Some (c - 87)
  else if (65 <=? c) && (c <=? 70) then Some (c - 55)
  else None.
Fixpoint DecodeString (s : bytes) : option bytes :=
  match s with
  | [] => Some []
  | [_] => None
  | a :: b :: s =>
      match fromHex a, fromHex b, DecodeString s with
      | Some x, Some y, Some r => Some (16 * x + y :: r)
      | _, _, _ => None
      end
  end.

(** ** encoding/base64, StdEncoding *)

Definition alphabet : bytes := str "ABCDEFGHIJKLMNOPQRSTUVWXYZabcdefghijklmnopqrstuvwxyz0123456789+/".
Definition toB64 (v : Z) : Z := zget alphabet v.
Definition fromB64 (c : Z) : option Z :=
  if (65 <=? c) && (c <=? 90) then Some (c - 65)
  else if (97 <=? c) && (c <=? 122) then Some (c - 71)
  else if isDigit c then Some (c + 4)
  else if c =? 43 then Some 62
  else if c =? 47 then Some 63
  else None.

Fixpoint b64Encode (b : bytes) : bytes :=
  match b with
  | [] => []
  | [x] => [toB64 (x / 4); toB64 (x mod 4 * 16); 61; 61]
  | [x; y] => [toB64 (x / 4); toB64 (x mod 4 * 16 + y / 16); toB64 (y mod 16 * 4); 61]
  | x :: y :: z :: b => [toB64 (x / 4); toB64 (x mod 4 * 16 + y / 16); toB64 (y mod 16 * 4 + z / 64); toB64 (z mod 64)] ++ b64Encode b
  end.

(** The quanta of four characters; the padding ends the text. *)
Fixpoint b64Quanta (s : bytes) : option bytes :=
  match s with
  | [] => Some []
  | a :: b :: c :: d :: s =>
      match fromB64 a, fromB64 b with
      | Some va, Some vb =>
          let x := va * 4 + vb / 16 in
          match fromB64 c with
          | Some vc =>
              let y := vb mod 16 * 16 + vc / 4 in
              match fromB64 d with
              | Some vd => match b64Quanta s with Some r => Some (x :: y :: vc mod 4 * 64 + vd :: r) | None => None end
              | None => if d =? 61 then match s with [] => Some [x; y] | _ => None end else None
              end
          | None => if (c =? 61) && (d =? 61) then match s with [] => Some [x] | _ => None end else None
          end
      | _, _ => None
      end
  | _ => None
  end.
(** Line ends are skipped wherever they are. *)
Definition b64DecodeString (s : bytes) : option bytes := b64Quanta (List.filter (fun c => negb ((c =? 10) || (c =? 13))) s).

(** ** strings *)

(** [strings.ToUpper], as far as a comparison with ASCII text can tell: of the
    other letters only U+0131 and U+017F have an ASCII letter as upper case. *)
Fixpoint ToUpper (s : bytes) : bytes :=
  match s with
  | [] => []
  | a :: s1 =>
      match s1 with
      | b :: s2 =>
          if (a =? 0xc4) && (b =? 0xb1) then 73 :: ToUpper s2
          else if (a =? 0xc5) && (b =? 0xbf) then 83 :: ToUpper s2
          else (if (97 <=? a) && (a <=? 122) then a - 32 else a) :: ToUpper s1
      | [] => [if (97 <=? a) && (a <=? 122) then a - 32 else a]
      end
  end.
Definition upperByte (c : Z) : Z := if (97 <=? c) && (c <=? 122) then c - 32 else c.

(** [strings.IndexByte]: what is before the first [c], and what is after it. *)
Fixpoint cutByte (c : Z) (s : bytes) : bytes * option bytes :=
  match s with
  | [] => ([], None)
  | x :: s => if x =? c then ([], Some s) else let '(before, after) := cutByte c s in (x :: before, after)
  end.
Definition HasPrefix (s prefix : bytes) : bool := bool_decide (take (length prefix) s = prefix).
Definition HasSuffix (s suffix : bytes) : bool := bool_decide (drop (length s - length suffix) s = suffix).
(** [strings.CutSuffix] *)
Definition CutSuffix (s suffix : bytes) : option bytes :=
  if HasSuffix s suffix then Some (take (length s - length suffix) s) else None.

(** [strings.Join] with one character between the parts. *)
Definition joinWith (c : Z) (parts : list bytes) : bytes :=
  match parts with [] => [] | p :: ps => p ++ concat (map (cons c) ps) end.

(** ** net/netip *)

Definition string4 (b : bytes) : bytes := joinWith 46 (map Itoa b).

(** The groups of an IPv6 address, and the first longest run of at least two
    zero groups: its start and its end, 255 when there is none. *)
Fixpoint groups (b : bytes) : list Z := match b with x :: y :: b => (x * 256 + y) :: groups b | _ => [] end.
Fixpoint zeroRun (gs : list Z) : Z := match gs with 0 :: gs => 1 + zeroRun gs | _ => 0 end.
Fixpoint longestRun (i : Z) (gs : list Z) (start stop : Z) : Z * Z :=
  match gs with
  | [] => (start, stop)
  | _ :: gs' =>
      let l := zeroRun gs in
      if (2 <=? l) && (stop - start <? l) then longestRun (i + 1) gs' i (i + l) else longestRun (i + 1) gs' start stop
  end.
Definition hex16 (v : Z) : bytes := FormatInt v 16.
(** [appendTo6]: the loop over the groups, each with its index. *)
Fixpoint groups_loop (fuel : nat) (gs : list Z) (i zeroStart zeroEnd : Z) : bytes :=
  match fuel with
  | O => []
  | S fuel =>
      if 8 <=? i then []
      else if i =? zeroStart then
        if 8 <=? zeroEnd then [58; 58]
        else [58; 58] ++ hex16 (zget gs zeroEnd) ++ groups_loop fuel gs (zeroEnd + 1) zeroStart zeroEnd
      else (if 0 <? i then [58] else []) ++ hex16 (zget gs i) ++ groups_loop fuel gs (i + 1) zeroStart zeroEnd
  end.
Definition string6 (b : bytes) : bytes :=
  let gs := groups b in let '(start, stop) := longestRun 0 gs 255 255 in groups_loop 9 gs 0 start stop.

(** [ip.String()] *)
Definition Addr_String (a : Addr) : bytes :=
  match a with
  | AddrZero => str "invalid IP"
  | Addr4 b => string4 b
  | Addr6 b zone =>
      (if Is4In6 a then str "::ffff:" ++ string4 (drop 12 b) else string6 b) ++ match zone with [] => [] | _ => 37 :: zone end
  end.

(** [parseIPv4Fields]: [prevDot] says that the octet before was a dot, or that
    there was none. *)
Fixpoint ipv4_loop (s : bytes) (val digLen pos : Z) (fields : bytes) (prevDot : bool) : option bytes :=
  match s with
  | [] => if pos <? 3 then None else Some (fields ++ [val])
  | c :: s =>
      if isDigit c then
        if (digLen =? 1) && (val =? 0) then None
        else let val := val * 10 + (c - 48) in
             if 255 <? val then None else ipv4_loop s val (digLen + 1) pos fields false
      else if c =? 46 then
        if prevDot || bool_decide (s = []) then None
        else if pos =? 3 then None
        else ipv4_loop s 0 0 (pos + 1) (fields ++ [val]) true
      else None
  end.
Definition parseIPv4Fields (s : bytes) : option bytes := ipv4_loop s 0 0 0 [] true.

(** A group of hexadecimal digits at the front: how many, their value, and the
    rest; [None] when there are more than four. *)
Fixpoint hexGroup (s : bytes) (off acc : Z) : option (Z * Z * bytes) :=
  match s with
  | [] => Some (off, acc, [])
  | c :: s' =>
      match fromHex c with
      | None => Some (off, acc, s)
      | Some d =>
          let acc := acc * 16 + d in
          if 3 <? off then None else if 65535 <? acc then None else hexGroup s' (off + 1) acc
      end
  end.

(** [parseIPv6] after the zone and a leading "::": [ip] are the octets so far,
    [ellipsis] the place of "::", -1 when there is none.  There are at most 8
    groups. *)
Fixpoint ipv6_loop (fuel : nat) (s ip : bytes) (ellipsis : Z) : option (bytes * bytes * Z) :=
  match fuel with
  | O => Some (s, ip, ellipsis)
  | S fuel =>
      if 16 <=? zlen ip then Some (s, ip, ellipsis)
      else match hexGroup s 0 0 with
      | None => None
      | Some (off, acc, rest) =>
          if off =? 0 then None
          else match rest with
          | 46 :: _ =>
              if (ellipsis <? 0) && negb (zlen ip =? 12) then None
              else if 16 <? zlen ip + 4 then None
              else match parseIPv4Fields s with None => None | Some f => Some ([], ip ++ f, ellipsis) end
          | _ =>
              let ip := ip ++ [acc / 256; acc mod 256] in
              match rest with
              | [] => Some ([], ip, ellipsis)
              | 58 :: s =>
                  match s with
                  | [] => None
                  | 58 :: s =>
                      if 0 <=? ellipsis then None
                      else match s with [] => Some ([], ip, zlen ip) | _ => ipv6_loop fuel s ip (zlen ip) end
                  | _ => ipv6_loop fuel s ip ellipsis
                  end
              | _ => None
              end
          end
      end
  end.
Definition parseIPv6 (s : bytes) : option Addr :=
  let '(s, zone) := cutByte 37 s in
  if bool_decide (zone = Some []) then None
  else let zone := default [] zone in
  let '(s, ellipsis) := match s with 58 :: 58 :: s' => (s', 0) | _ => (s, -1) end in
  if (ellipsis =? 0) && bool_decide (s = []) then Some (Addr6 (replicate 16 0) zone)
  else match ipv6_loop 8 s [] ellipsis with
  | None => None
  | Some (s, ip, ellipsis) =>
      if negb (bool_decide (s = [])) then None
      else if zlen ip <? 16 then
        if ellipsis <? 0 then None
        else Some (Addr6 (zslice ip 0 ellipsis ++ replicate (Z.to_nat (16 - zlen ip)) 0 ++ zslice ip ellipsis (zlen ip)) zone)
      else if 0 <=? ellipsis then None
      else Some (Addr6 ip zone)
  end.

(** [netip.ParseAddr(s)] *)
Fixpoint ParseAddr_loop (s t : bytes) : option Addr :=
  match t with
  | [] => None
  | c :: t =>
      if c =? 46 then (Addr4 <$> parseIPv4Fields s)
      else if c =? 58 then parseIPv6 s
      else if c =? 37 then None
      else ParseAddr_loop s t
  end.
Definition ParseAddr (s : bytes) : option Addr := ParseAddr_loop s s.

(** ** Mnemonics (rrtype.go) *)

Definition typeNames : list (Z * bytes) := [
  (rrtype.A, str "A"); (rrtype.NS, str "NS"); (rrtype.CNAME, str "CNAME"); (rrtype.SOA, str "SOA"); (rrtype.PTR, str "PTR");
  (rrtype.HINFO, str "HINFO"); (rrtype.MX, str "MX"); (rrtype.TXT, str "TXT"); (rrtype.RP, str "RP"); (rrtype.AFSDB, str "AFSDB");
  (rrtype.X25, str "X25"); (rrtype.ISDN, str "ISDN"); (rrtype.RT, str "RT"); (rrtype.NSAP, str "NSAP"); (rrtype.NSAPPTR, str "NSAP-PTR");
  (rrtype.LOC, str "LOC"); (rrtype.AAAA, str "AAAA"); (rrtype.SRV, str "SRV"); (rrtype.KX, str "KX"); (rrtype.CERT, str "CERT");
  (rrtype.NAPTR, str "NAPTR"); (rrtype.DNAME, str "DNAME"); (rrtype.OPT, str "OPT"); (rrtype.APL, str "APL"); (rrtype.DS, str "DS");
  (rrtype.SSHFP, str "SSHFP"); (rrtype.IPSECKEY, str "IPSECKEY"); (rrtype.RRSIG, str "RRSIG"); (rrtype.NSEC, str "NSEC");
  (rrtype.DNSKEY, str "DNSKEY"); (rrtype.DHCID, str "DHCID"); (rrtype.NSEC3, str "NSEC3"); (rrtype.NSEC3PARAM, str "NSEC3PARAM");
  (rrtype.TLSA, str "TLSA"); (rrtype.SMIMEA, str "SMIMEA"); (rrtype.HIP, str "HIP"); (rrtype.CDS, str "CDS"); (rrtype.CDNSKEY, str "CDNSKEY");
  (rrtype.OPENPGPKEY, str "OPENPGPKEY"); (rrtype.CSYNC, str "CSYNC"); (rrtype.ZONEMD, str "ZONEMD"); (rrtype.SVCB, str "SVCB");
  (rrtype.HTTPS, str "HTTPS"); (rrtype.SPF, str "SPF"); (rrtype.NID, str "NID"); (rrtype.L32, str "L32"); (rrtype.L64, str "L64");
  (rrtype.LP, str "LP"); (rrtype.EUI48, str "EUI48"); (rrtype.EUI64, str "EUI64"); (rrtype.URI, str "URI"); (rrtype.CAA, str "CAA");
  (rrtype.AMTRELAY, str "AMTRELAY"); (rrtype.RESINFO, str "RESINFO"); (rrtype.NXNAME, str "NXNAME"); (rrtype.ANY, str "ANY");
  (rrtype.AXFR, str "AXFR"); (rrtype.IXFR, str "IXFR"); (rrtype.TKEY, str "TKEY")].

(** [Type.String] *)
Definition Type_String (t : Z) : bytes :=
  match List.find (fun p => p.1 =? t) typeNames with
  | Some (_, s) => s
  | None => str "TYPE" ++ Itoa t
  end.
(** [rrtype.Parse]; the names of [typeNames] are distinct. *)
Definition Type_Parse (s : bytes) : option Z :=
  match List.find (fun p => bool_decide (p.2 = ToUpper s)) typeNames with
  | Some (t, _) => Some t
  | None =>
      if (4 <? zlen s) && bool_decide (map upperByte (zslice s 0 4) = str "TYPE") then ParseUint (zslice s 4 (zlen s)) 16 else None
  end.

(** [Class.String] *)
Definition Class_String (c : Z) : bytes :=
  if c =? rrtype.ClassIN then str "IN"
  else if c =? rrtype.ClassCH then str "CH"
  else if c =? rrtype.ClassHS then str "HS"
  else if c =? rrtype.ClassNONE then str "NONE"
  else if c =? rrtype.ClassANY then str "ANY"
  else str "CLASS" ++ Itoa c.

(** ** Facts: numbers *)

Lemma digit_ok d : 0 <= d < 10 -> digit d = 48 + d /\ isDigit (digit d) = true.
Proof. intros H. unfold digit. rewrite (proj2 (Z.ltb_lt d 10)) by lia. split; [done|]. unfold isDigit. lia. Qed.

Definition digits (ds : bytes) : Prop := ds <> [] /\ Forall (fun c => isDigit c = true) ds.

(** The digits of [v] before [acc], and what reading them after the number [n] gives. *)
Lemma format_parse fuel v acc : 0 <= v -> v < 10 ^ Z.of_nat fuel -> (0 < fuel)%nat ->
  exists ds, format_loop fuel 10 v acc = ds ++ acc /\ digits ds /\
    forall maxVal n s, 0 <= n -> n * 10 ^ zlen ds + v <= maxVal -> parseUint_loop maxVal n (ds ++ s) = parseUint_loop maxVal (n * 10 ^ zlen ds + v) s.
Proof.
  revert v acc. induction fuel as [|fuel IH]; intros v acc Hv Hb Hf; [lia|]. cbn [format_loop]. destruct (v <? 10) eqn:E; bool_facts.
  - exists [digit v]. destruct (digit_ok v) as [Hd Hd']; [lia|]. split_and!; [done|split; [done|by repeat constructor]|]. intros m n s Hn Hm.
    cbn [app parseUint_loop]. rewrite Hd'. change (10 ^ zlen [digit v]) with 10 in *. rewrite Hd. replace (48 + v - 48) with v by lia. by if_false.
  - assert (0 < fuel)%nat by (destruct fuel; [|lia]; cbn in Hb; lia). rewrite Nat2Z.inj_succ, Z.pow_succ_r in Hb by lia.
    destruct (IH (v / 10) (digit (v mod 10) :: acc)) as (ds & -> & [Hne HF] & HP); [elia|elia|lia|].
    exists (ds ++ [digit (v mod 10)]). destruct (digit_ok (v mod 10)) as [Hd Hd']; [elia|].
    split_and!; [by rewrite <- app_assoc|split; [by destruct ds|rewrite Forall_app; split; [done|by repeat constructor]]|].
    intros m n s Hn. rewrite zlen_app. change (zlen [digit (v mod 10)]) with 1. rewrite Z.pow_add_r by (unfold zlen; lia). change (10 ^ 1) with 10.
    intros Hm. rewrite <- app_assoc. cbn [app]. rewrite HP by (elia || done). cbn [parseUint_loop]. rewrite Hd', Hd.
    replace ((n * 10 ^ zlen ds + v / 10) * 10 + (48 + v mod 10 - 48)) with (n * (10 ^ zlen ds * 10) + v) by elia. by if_false.
Qed.

Lemma Itoa_spec v : 0 <= v < 2 ^ 64 -> digits (Itoa v) /\ forall maxVal, v <= maxVal -> parseUint_loop maxVal 0 (Itoa v) = Some v.
Proof.
  intros Hv. unfold Itoa, FormatInt. rewrite (proj2 (Z.ltb_ge v 0)) by lia.
  destruct (format_parse 64 v []) as (ds & -> & Hd & HP); [lia|transitivity (2 ^ 64); [lia|by vm_compute]|lia|]. rewrite app_nil_r. split; [done|].
  intros m Hm. rewrite <- (app_nil_r ds), HP by lia. by rewrite Z.mul_0_l, Z.add_0_l.
Qed.

(** What is printed in decimal is read back. *)
Lemma ParseUint_Itoa v bits : 0 <= v < 2 ^ bits -> bits <= 64 -> ParseUint (Itoa v) bits = Some v.
Proof.
  intros Hv Hb. assert (v < 2 ^ 64) by (pose proof (Z.pow_le_mono_r 2 bits 64); lia). destruct (Itoa_spec v) as [[Hne _] HP]; [lia|].
  unfold ParseUint. destruct (Itoa v) as [|c s] eqn:E; [done|]. rewrite <- E in *. apply HP. lia.
Qed.
Lemma ParseInt_Itoa v bits : 0 <= v < 2 ^ (bits - 1) -> 1 <= bits <= 64 -> ParseInt (Itoa v) bits = Some v.
Proof.
  intros Hv Hb. assert (2 ^ bits = 2 * 2 ^ (bits - 1)) as E2 by (rewrite <- Z.pow_succ_r by lia; f_equal; lia).
  pose proof (ParseUint_Itoa v bits ltac:(lia) ltac:(lia)) as HP. assert (v < 2 ^ 64) by (pose proof (Z.pow_le_mono_r 2 (bits - 1) 64); lia).
  destruct (Itoa_spec v) as [[Hne HF] _]; [lia|]. unfold ParseInt. destruct (Itoa v) as [|c s]; [done|].
  inversion_clear HF as [|? ? Hc _]. unfold isDigit in Hc. apply andb_true_iff in Hc as [??]. bool_facts.
  rewrite (proj2 (Z.eqb_neq c 43)), (proj2 (Z.eqb_neq c 45)) by lia. rewrite HP. cbn [negb andb].
  rewrite (proj2 (Z.leb_gt _ _)) by lia. done.
Qed.

(** ** Facts: octets *)

Lemma fromHex_digit d : 0 <= d < 16 -> fromHex (digit d) = Some d.
Proof.
  intros H. assert (d ∈ map Z.of_nat (seq 0 16)) as Hin.
  { apply list_elem_of_In, in_map_iff. exists (Z.to_nat d). rewrite Z2Nat.id by lia. split; [done|]. apply in_seq. lia. }
  clear H. revert d Hin. apply Forall_forall. by repeat constructor.
Qed.
Lemma hex_roundtrip b : is_bytes b -> DecodeString (EncodeToString b) = Some b.
Proof.
  induction 1 as [|x b Hx _ IH]; [done|]. unfold EncodeToString in *. cbn [map concat app DecodeString]. unfold u8 in Hx.
  rewrite !fromHex_digit by elia. rewrite IH. do 2 f_equal. elia.
Qed.

Lemma fromB64_toB64 v : 0 <= v < 64 -> fromB64 (toB64 v) = Some v /\ toB64 v <> 61 /\ toB64 v <> 10 /\ toB64 v <> 13.
Proof.
  intros H. assert (v ∈ map Z.of_nat (seq 0 64)) as Hin.
  { apply list_elem_of_In, in_map_iff. exists (Z.to_nat v). rewrite Z2Nat.id by lia. split; [done|]. apply in_seq. lia. }
  clear H. revert v Hin. apply Forall_forall. repeat constructor; cbn; by discriminate.
Qed.
Lemma fromB64_ok v : 0 <= v < 64 -> fromB64 (toB64 v) = Some v.
Proof. intros H. by destruct (fromB64_toB64 v H). Qed.
Lemma b64_ind (P : bytes -> Prop) :
  P [] -> (forall x, P [x]) -> (forall x y, P [x; y]) -> (forall x y z b, P b -> P (x :: y :: z :: b)) -> forall b, P b.
Proof. intros H0 H1 H2 H3. fix go 1. intros [|x [|y [|z b]]]; [done|done|done|]. apply H3, go. Qed.

(** A character of the alphabet, or padding. *)
Definition b64char (c : Z) : Prop := c = 61 \/ exists v, 0 <= v < 64 /\ c = toB64 v.
Lemma b64Encode_chars b : is_bytes b -> Forall b64char (b64Encode b).
Proof.
  induction b as [|x|x y|x y z b IH] using b64_ind; intros H; cbn [b64Encode app]; decompose_Forall_hyps; unfold u8 in *;
    repeat first [apply Forall_nil; done | apply Forall_cons_2]; try (by left); try (right; eexists; split; [|reflexivity]; elia); by apply IH.
Qed.

Lemma b64_quanta b : is_bytes b -> b64Quanta (b64Encode b) = Some b.
Proof.
  induction b as [|x|x y|x y z b IH] using b64_ind; intros H; [done|..]; decompose_Forall_hyps; unfold u8 in *; cbn [b64Encode app b64Quanta].
  - rewrite !fromB64_ok by elia. cbn. do 2 f_equal. elia.
  - rewrite !fromB64_ok by elia. cbn. repeat f_equal; elia.
  - rewrite !fromB64_ok by elia. rewrite IH by done. repeat f_equal; elia.
Qed.
Lemma b64_roundtrip b : is_bytes b -> b64DecodeString (b64Encode b) = Some b.
Proof.
  intros H. unfold b64DecodeString. replace (List.filter _ (b64Encode b)) with (b64Encode b); [by apply b64_quanta|].
  pose proof (b64Encode_chars b H) as HF. induction HF as [|c l Hc _ IH]; [done|]. cbn [List.filter].
  assert (c <> 10 /\ c <> 13) as [? ?] by (destruct Hc as [->|(v & Hv & ->)]; [done|]; by destruct (fromB64_toB64 v Hv) as (_ & _ & ?)).
  rewrite (proj2 (Z.eqb_neq c 10)), (proj2 (Z.eqb_neq c 13)) by done. cbn. by f_equal.
Qed.

(** ** Facts: addresses *)

Lemma Itoa_u8 v : u8 v -> Itoa v = if v <? 10 then [48 + v] else if v <? 100 then [48 + v / 10; 48 + v mod 10] else [48 + v / 100; 48 + v / 10 mod 10; 48 + v mod 10].
Proof. byte_cases v. Qed.

Ltac digit_facts := unfold isDigit in *; repeat match goal with
  | |- context [(?a <=? ?b) && (?c <=? ?d)] => replace ((a <=? b) && (c <=? d)) with true by (symmetry; elia)
  end; cbn [andb negb orb].

Lemma ipv4_octet v s pos f pd : u8 v -> exists n, 0 < n /\ ipv4_loop (Itoa v ++ s) 0 0 pos f pd = ipv4_loop s v n pos f false.
Proof.
  intros Hv. rewrite Itoa_u8 by done. unfold u8 in Hv. destruct (v <? 10) eqn:E1; [|destruct (v <? 100) eqn:E2]; bool_facts; cbn [app ipv4_loop].
  - exists 1. split; [lia|]. digit_facts. cbn [Z.eqb]. rewrite (proj2 (Z.ltb_ge _ _)) by lia. f_equal; lia.
  - exists 2. split; [lia|]. digit_facts. cbn [Z.eqb]. rewrite (proj2 (Z.ltb_ge _ _)) by elia. change (0 + 1 =? 1) with true. cbn [andb].
    rewrite (proj2 (Z.eqb_neq _ 0)) by elia. rewrite (proj2 (Z.ltb_ge _ _)) by elia. f_equal; elia.
  - exists 3. split; [lia|]. digit_facts. cbn [Z.eqb]. rewrite (proj2 (Z.ltb_ge _ _)) by elia. change (0 + 1 =? 1) with true. cbn [andb].
    rewrite (proj2 (Z.eqb_neq _ 0)) by elia. rewrite (proj2 (Z.ltb_ge _ _)) by elia. change (0 + 1 + 1 =? 1) with false. cbn [andb].
    rewrite (proj2 (Z.ltb_ge _ _)) by elia. f_equal; elia.
Qed.

Lemma string4_parse b : is_bytes b -> zlen b = 4 -> parseIPv4Fields (string4 b) = Some b.
Proof.
  intros Hb Hl. destruct b as [|a [|b [|c [|d [|]]]]]; try (exfalso; llia).
  decompose_Forall_hyps. unfold parseIPv4Fields, string4, joinWith. cbn [map concat app].
  assert (forall v s pos f pd, u8 v -> s <> [] -> pos < 3 -> ipv4_loop (Itoa v ++ 46 :: s) 0 0 pos f pd = ipv4_loop s 0 0 (pos + 1) (f ++ [v]) true) as Hstep.
  { intros v s pos f pd Hv Hs Hp. destruct (ipv4_octet v (46 :: s) pos f pd Hv) as (n & _ & ->). cbn [ipv4_loop]. change (isDigit 46) with false.
    cbn [Z.eqb orb]. rewrite bool_decide_eq_false_2 by done. by rewrite (proj2 (Z.eqb_neq pos 3)) by lia. }
  assert (forall v, u8 v -> Itoa v <> []) as Hne by (intros v Hv; rewrite Itoa_u8 by done; by repeat case_match).
  rewrite !app_nil_r. rewrite !Hstep; try done; try lia; try (by destruct (Itoa _)); [|by apply Hne].
  destruct (ipv4_octet d [] 3 [a; b; c] true) as (n & _ & HE); [done|]. rewrite app_nil_r in HE. by etransitivity; [exact HE|].
Qed.

(** *** IPv6 *)

Definition notHex (s : bytes) : Prop := match s with [] => True | c :: _ => fromHex c = None end.
Definition isHexDigit (c : Z) : Prop := exists d, 0 <= d < 16 /\ c = digit d.

Lemma hexGroup_step d s off acc : 0 <= d < 16 -> off <= 3 -> 0 <= acc -> acc * 16 + d <= 65535 ->
  hexGroup (digit d :: s) off acc = hexGroup s (off + 1) (acc * 16 + d).
Proof. intros Hd Ho Ha Hm. cbn [hexGroup]. rewrite fromHex_digit by done. by rewrite (proj2 (Z.ltb_ge 3 off)), (proj2 (Z.ltb_ge 65535 _)) by lia. Qed.
Lemma hexGroup_end s off acc : notHex s -> hexGroup s off acc = Some (off, acc, s).
Proof. destruct s as [|c s]; [done|]. cbn. by intros ->. Qed.

(** The digits of a group are read as it. *)
Lemma hexGroup_hex16 v : u16 v ->
  (forall s, notHex s -> exists n, 0 < n /\ hexGroup (hex16 v ++ s) 0 0 = Some (n, v, s)) /\ Forall isHexDigit (hex16 v) /\ hex16 v <> [].
Proof.
  unfold u16, hex16, FormatInt. intros Hv. rewrite (proj2 (Z.ltb_ge v 0)) by lia.
  assert (forall w, 0 <= w < 16 -> isHexDigit (digit w)) as HD by (intros w ?; by exists w).
  change 64%nat with (S (S (S (S 60)))). generalize 60%nat. intros k. cbn [format_loop]. rewrite !Z.div_div by lia. change (16 * 16) with 256. change (256 * 16) with 4096. change (4096 * 16) with 65536.
  destruct (v <? 16) eqn:E1; [|destruct (v / 16 <? 16) eqn:E2; [|destruct (v / 256 <? 16) eqn:E3; [|destruct (v / 4096 <? 16) eqn:E4]]]; bool_facts;
    try (exfalso; elia); (split_and!; [intros s Hs|repeat (apply Forall_cons_2; [apply HD; elia|]); apply Forall_nil_2|done]); cbn [app]; rewrite !hexGroup_step by elia;
    rewrite hexGroup_end by done; eexists; (split; [|repeat f_equal; elia]); lia.
Qed.

Definition octets (gs : list Z) : bytes := concat (map (fun g => [g / 256; g mod 256]) gs).

(** One group, and what follows it. *)
Lemma ipv6_group fuel g rest ip e : u16 g -> zlen ip < 16 -> match rest with [] => True | c :: _ => c = 58 end ->
  ipv6_loop (S fuel) (hex16 g ++ rest) ip e =
  let ip := ip ++ [g / 256; g mod 256] in
  match rest with
  | [] => Some ([], ip, e)
  | _ :: s =>
      match s with
      | [] => None
      | 58 :: s => if 0 <=? e then None else match s with [] => Some ([], ip, zlen ip) | _ => ipv6_loop fuel s ip (zlen ip) end
      | _ => ipv6_loop fuel s ip e
      end
  end.
Proof.
  intros Hg Hip Hr. cbn [ipv6_loop]. rewrite (proj2 (Z.leb_gt 16 (zlen ip))) by lia. destruct (hexGroup_hex16 g Hg) as [HG _].
  destruct (HG rest) as (n & Hn & ->); [destruct rest; [done|by subst]|]. rewrite (proj2 (Z.eqb_neq n 0)) by lia. destruct rest as [|c s]; [done|]. by subst c.
Qed.

(** A text that does not begin with a colon. *)
Definition noColon (s : bytes) : Prop := match s with [] => False | c :: _ => c <> 58 end.
Lemma hex16_noColon g s : u16 g -> noColon (hex16 g ++ s).
Proof.
  intros Hg. destruct (hexGroup_hex16 g Hg) as (_ & HF & Hne). destruct (hex16 g) as [|c l]; [done|]. inversion_clear HF as [|? ? (d & Hd & ->) _]. cbn.
  unfold digit. destruct (d <? 10) eqn:E; bool_facts; lia.
Qed.
Lemma noColon_case {A} s (f : bytes -> A) (k : A) : noColon s -> match s with [] => k | 58 :: r => f r | _ => k end = k.
Proof. destruct s as [|c s]; [done|]. cbn. intros. repeat case_match; congruence. Qed.

Definition joined (gs : list Z) : bytes := joinWith 58 (map hex16 gs).
Lemma joined_cons g g' gs : joined (g :: g' :: gs) = hex16 g ++ 58 :: joined (g' :: gs).
Proof. done. Qed.

(** Groups up to the end. *)
Lemma ipv6_groups gs : forall fuel ip e, gs <> [] -> Forall u16 gs -> (length gs <= fuel)%nat -> zlen ip + 2 * zlen gs <= 16 ->
  ipv6_loop fuel (joined gs) ip e = Some ([], ip ++ octets gs, e).
Proof.
  induction gs as [|g [|g' gs] IH]; intros fuel ip e Hne HF Hf Hl; [done|..]; destruct fuel as [|fuel]; try (cbn in Hf; lia); apply Forall_cons in HF as [Hg HF].
  - change (joined [g]) with (hex16 g ++ []).  by rewrite ipv6_group by (done || llia).
  - rewrite joined_cons, ipv6_group by (done || llia). cbv zeta. pose proof (hex16_noColon g' (concat (map (cons 58) (map hex16 gs))) (Forall_inv HF)) as HN.
    change (hex16 g' ++ _) with (joined (g' :: gs)) in HN.
    assert (ipv6_loop fuel (joined (g' :: gs)) (ip ++ [g / 256; g mod 256]) e = Some ([], ip ++ octets (g :: g' :: gs), e)) as E.
    { rewrite IH; [|done|done|cbn in *; lia|llia]. by rewrite <- app_assoc. }
    destruct (joined (g' :: gs)) as [|c s]; [done|]. cbn in HN. rewrite <- E. repeat case_match; congruence.
Qed.

(** Groups up to a double colon. *)
Lemma ipv6_ellipsis gs : forall fuel tail ip, gs <> [] -> Forall u16 gs -> (length gs <= fuel)%nat -> zlen ip + 2 * zlen gs <= 16 ->
  ipv6_loop fuel (joined gs ++ 58 :: 58 :: tail) ip (-1) =
  match tail with
  | [] => Some ([], ip ++ octets gs, zlen (ip ++ octets gs))
  | _ => ipv6_loop (fuel - length gs) tail (ip ++ octets gs) (zlen (ip ++ octets gs))
  end.
Proof.
  induction gs as [|g [|g' gs] IH]; intros fuel tail ip Hne HF Hf Hl; [done|..]; destruct fuel as [|fuel]; try (cbn in Hf; lia); apply Forall_cons in HF as [Hg HF].
  - change (joined [g]) with (hex16 g ++ []). rewrite app_nil_r, ipv6_group by (done || llia). cbn [length]. by rewrite Nat.sub_succ, Nat.sub_0_r.
  - rewrite joined_cons, <- app_assoc. cbn [app]. rewrite ipv6_group by (done || llia). cbv zeta.
    pose proof (hex16_noColon g' (concat (map (cons 58) (map hex16 gs)) ++ 58 :: 58 :: tail) (Forall_inv HF)) as HN.
    rewrite app_assoc in HN. change ((hex16 g' ++ _) ++ _) with (joined (g' :: gs) ++ 58 :: 58 :: tail) in HN.
    replace (ip ++ octets (g :: g' :: gs)) with ((ip ++ [g / 256; g mod 256]) ++ octets (g' :: gs)) by (by rewrite <- app_assoc).
    change (S fuel - length (g :: g' :: gs))%nat with (fuel - length (g' :: gs))%nat.
    rewrite <- (IH fuel tail (ip ++ [g / 256; g mod 256])); [|done|done|cbn in *; lia|llia].
    destruct (joined (g' :: gs) ++ 58 :: 58 :: tail) as [|c s]; [done|]. cbn in HN. repeat case_match; congruence.
Qed.

Lemma zeroRun_spec gs : 0 <= zeroRun gs <= zlen gs /\ take (Z.to_nat (zeroRun gs)) gs = replicate (Z.to_nat (zeroRun gs)) 0.
Proof.
  induction gs as [|g gs [IH1 IH2]]; [done|]. cbn [zeroRun]. rewrite zlen_cons. destruct g as [|p|p]; [|split; [llia|done]..].
  split; [lia|]. replace (Z.to_nat (1 + zeroRun gs)) with (S (Z.to_nat (zeroRun gs))) by lia. cbn. by f_equal.
Qed.

(** A run of zero groups. *)
Definition isRun (gs : list Z) (s e : Z) : Prop :=
  0 <= s /\ s + 2 <= e <= zlen gs /\ gs = take (Z.to_nat s) gs ++ replicate (Z.to_nat (e - s)) 0 ++ drop (Z.to_nat e) gs.

Lemma longestRun_spec pre gs s e : let r := longestRun (zlen pre) gs s e in r = (s, e) \/ isRun (pre ++ gs) r.1 r.2.
Proof.
  revert pre s e. induction gs as [|g gs IH]; intros pre s e; [by left|]. cbn [longestRun]. cbv zeta.
  destruct (zeroRun_spec (g :: gs)) as [HR1 HR2]. set (l := zeroRun (g :: gs)) in *.
  assert (forall s e, let r := longestRun (zlen pre + 1) gs s e in r = (s, e) \/ isRun (pre ++ g :: gs) r.1 r.2) as IH'.
  { intros s' e'. specialize (IH (pre ++ [g]) s' e'). rewrite zlen_app, <- app_assoc in IH. exact IH. }
  destruct (_ && _) eqn:E; [|apply IH']. apply andb_true_iff in E as [E1 _]. bool_facts.
  destruct (IH' (zlen pre) (zlen pre + l)) as [->|?]; [|by right]. right. unfold isRun. cbn [fst snd]. pose proof (zlen_nonneg pre).
  split_and!; [lia|lia|rewrite zlen_app; lia|]. unfold zlen. rewrite Nat2Z.id, take_app_length. f_equal.
  replace (Z.to_nat (Z.of_nat (length pre) + l - Z.of_nat (length pre))) with (Z.to_nat l) by lia.
  replace (Z.to_nat (Z.of_nat (length pre) + l)) with (length pre + Z.to_nat l)%nat by lia.
  rewrite drop_app_add, <- HR2. by rewrite take_drop.
Qed.

Lemma groups_octets b : is_bytes b -> Nat.Even (length b) -> octets (groups b) = b /\ Forall u16 (groups b).
Proof.
  revert b. fix go 1. intros [|x [|y b]] Hb He; [done|destruct He as [k Hk]; cbn in Hk; lia|]. apply Forall_cons in Hb as [Hx Hb]. apply Forall_cons in Hb as [Hy Hb].
  destruct (go b Hb) as [IH1 IH2]; [destruct He as [k Hk]; exists (k - 1)%nat; cbn in Hk; lia|]. unfold u8 in *. split.
  - unfold octets in *. cbn [groups map concat app]. rewrite IH1. repeat f_equal; elia.
  - constructor; [unfold u16; lia|done].
Qed.

Lemma string6_shape gs s e : zlen gs = 8 -> (s = 255 \/ isRun gs s e) ->
  groups_loop 9 gs 0 s e = if s =? 255 then joined gs else joined (take (Z.to_nat s) gs) ++ 58 :: 58 :: joined (drop (Z.to_nat e) gs).
Proof.
  intros Hl H. do 9 (destruct gs as [|? gs]; [try (exfalso; by vm_compute in Hl)|]); [|exfalso; llia].
  destruct H as [->|(Hs & He & _)]; [lazy -[hex16 app]; rewrite ?app_nil_r, <- ?app_assoc; reflexivity|]. clear Hl. rewrite !zlen_cons, zlen_nil in He.
  assert (s ∈ seqZ 0 7) as Hs' by (apply elem_of_seqZ; lia). assert (e ∈ seqZ 2 7) as He' by (apply elem_of_seqZ; lia).
  vm_compute in Hs', He'. repeat (apply elem_of_cons in Hs' as [->|Hs']); [..|by apply elem_of_nil in Hs'];
    repeat (apply elem_of_cons in He' as [->|He']); try (by apply elem_of_nil in He'); try (exfalso; lia); lazy -[hex16 app]; rewrite ?app_nil_r, <- ?app_assoc; reflexivity.
Qed.

Lemma cutByte_none c s : Forall (fun x => x <> c) s -> cutByte c s = (s, None).
Proof. induction 1 as [|x s Hx _ IH]; [done|]. cbn [cutByte]. by rewrite (proj2 (Z.eqb_neq x c)), IH by done. Qed.

Lemma isHexDigit_ne c : isHexDigit c -> c <> 58 /\ c <> 46 /\ c <> 37.
Proof. intros (d & Hd & ->). unfold digit. destruct (d <? 10) eqn:E; bool_facts; lia. Qed.
Definition v6char (c : Z) : Prop := c = 58 \/ isHexDigit c.
Lemma joined_chars gs : Forall u16 gs -> Forall v6char (joined gs).
Proof.
  assert (forall g, u16 g -> Forall v6char (hex16 g)) as Hh.
  { intros g Hg. destruct (hexGroup_hex16 g Hg) as (_ & HF & _). eapply Forall_impl; [exact HF|]. by right. }
  induction gs as [|g [|g' gs] IH]; intros HF; [done|..]; apply Forall_cons in HF as [Hg HF].
  - change (joined [g]) with (hex16 g ++ []). rewrite app_nil_r. by apply Hh.
  - rewrite joined_cons, Forall_app. split; [by apply Hh|]. constructor; [by left|by apply IH].
Qed.
Lemma v6char_plain s : Forall v6char s -> Forall (fun c => c <> 37) s.
Proof. intros H. eapply Forall_impl; [exact H|]. intros c [->|?%isHexDigit_ne]; [done|]. by destruct_and!. Qed.

Lemma ParseAddr_colon s h r : Forall isHexDigit h -> ParseAddr_loop s (h ++ 58 :: r) = parseIPv6 s.
Proof.
  induction 1 as [|c h Hc _ IH]; [done|]. destruct (isHexDigit_ne c Hc) as (? & ? & ?). cbn [app ParseAddr_loop].
  by rewrite (proj2 (Z.eqb_neq c 46)), (proj2 (Z.eqb_neq c 58)), (proj2 (Z.eqb_neq c 37)).
Qed.

Lemma octets_len gs : zlen (octets gs) = 2 * zlen gs.
Proof. induction gs as [|g gs IH]; [done|]. change (octets (g :: gs)) with ([g / 256; g mod 256] ++ octets gs). llia. Qed.
Lemma zslice_all {A} (l : list A) : zslice l 0 (zlen l) = l.
Proof. unfold zslice. cbn [Z.to_nat]. rewrite drop_0, Z.sub_0_r. unfold zlen. by rewrite Nat2Z.id, firstn_all. Qed.
Lemma zslice_app {A} (l k : list A) : zslice (l ++ k) 0 (zlen l) = l /\ zslice (l ++ k) (zlen l) (zlen (l ++ k)) = k.
Proof.
  unfold zslice. rewrite zlen_app. replace (zlen l + zlen k - zlen l) with (zlen k) by lia. rewrite Z.sub_0_r. unfold zlen. rewrite !Nat2Z.id.
  rewrite drop_0, take_app_length, drop_app_length. by rewrite firstn_all.
Qed.

(** All eight groups. *)
Lemma parseIPv6_full gs : Forall u16 gs -> zlen gs = 8 -> parseIPv6 (joined gs) = Some (Addr6 (octets gs) []).
Proof.
  intros HF Hl. unfold parseIPv6. rewrite cutByte_none by (by apply v6char_plain, joined_chars). cbn [default].
  rewrite bool_decide_eq_false_2 by done. pose proof (octets_len gs).
  assert (match joined gs with 58 :: 58 :: s' => (s', 0) | _ => (joined gs, -1) end = (joined gs, -1)) as ->.
  { destruct gs as [|g gs]; [done|]. pose proof (hex16_noColon g (concat (map (cons 58) (map hex16 gs))) (Forall_inv HF)) as HN.
    change (hex16 g ++ _) with (joined (g :: gs)) in HN. destruct (joined (g :: gs)) as [|c s]; [done|]. cbn in HN. repeat case_match; congruence. }
  change (-1 =? 0) with false. cbn [andb]. rewrite ipv6_groups; [|by destruct gs|done|unfold zlen in Hl; lia|rewrite zlen_nil; lia].
  rewrite bool_decide_eq_true_2 by done. cbn [negb app]. by rewrite (proj2 (Z.ltb_ge _ _)) by lia.
Qed.

(** Groups around a double colon. *)
Lemma parseIPv6_ellipsis a b : Forall u16 a -> Forall u16 b -> zlen a + zlen b <= 7 ->
  parseIPv6 (joined a ++ 58 :: 58 :: joined b) = Some (Addr6 (octets a ++ replicate (Z.to_nat (16 - 2 * zlen a - 2 * zlen b)) 0 ++ octets b) []).
Proof.
  intros Ha Hb Hl. unfold parseIPv6. pose proof (octets_len a) as La. pose proof (octets_len b) as Lb. pose proof (zlen_nonneg a). pose proof (zlen_nonneg b).
  rewrite cutByte_none by (apply v6char_plain; rewrite Forall_app; split; [by apply joined_chars|]; repeat (constructor; [by left|]); by apply joined_chars).
  cbn [default]. rewrite bool_decide_eq_false_2 by done. destruct a as [|g a].
  - change (joined [] ++ _) with (58 :: 58 :: joined b). cbn [Z.eqb andb]. destruct b as [|g b]; [done|].
    pose proof (hex16_noColon g (concat (map (cons 58) (map hex16 b))) (Forall_inv Hb)) as HN. change (hex16 g ++ _) with (joined (g :: b)) in HN.
    rewrite bool_decide_eq_false_2 by (by intros E; rewrite E in HN).
    rewrite ipv6_groups; [|done|done|unfold zlen in Hl; cbn in *; lia|rewrite zlen_nil; lia]. rewrite bool_decide_eq_true_2 by done. cbn [negb app].
    rewrite (proj2 (Z.ltb_lt _ _)) by lia. cbn [Z.ltb Z.compare]. rewrite zslice_all. change (zslice (octets (g :: b)) 0 0) with (@nil Z).
    change (octets []) with (@nil Z). cbn [app]. by rewrite Lb.
  - pose proof (hex16_noColon g (concat (map (cons 58) (map hex16 a)) ++ 58 :: 58 :: joined b) (Forall_inv Ha)) as HN.
    rewrite app_assoc in HN. change ((hex16 g ++ _) ++ _) with (joined (g :: a) ++ 58 :: 58 :: joined b) in HN.
    set (t := joined (g :: a) ++ 58 :: 58 :: joined b) in *.
    assert (match t with 58 :: 58 :: s' => (s', 0) | _ => (t, -1) end = (t, -1)) as -> by (destruct t as [|c s]; [done|]; cbn in HN; repeat case_match; congruence).
    change (-1 =? 0) with false. cbn [andb]. unfold t.
    rewrite ipv6_ellipsis; [|done|done|unfold zlen in *; cbn in *; lia|rewrite zlen_nil; lia]. cbn [app].
    assert (match joined b with [] => Some ([], octets (g :: a), zlen (octets (g :: a))) | _ => ipv6_loop (8 - length (g :: a)) (joined b) (octets (g :: a)) (zlen (octets (g :: a))) end
      = Some ([], octets (g :: a) ++ octets b, zlen (octets (g :: a)))) as ->.
    { destruct b as [|g' b]; [by rewrite app_nil_r|]. pose proof (hex16_noColon g' (concat (map (cons 58) (map hex16 b))) (Forall_inv Hb)) as HN'.
      change (hex16 g' ++ _) with (joined (g' :: b)) in HN'. rewrite <- ipv6_groups with (fuel := (8 - length (g :: a))%nat); [by destruct (joined (g' :: b))|done|done|unfold zlen in *; lia|lia]. }
    rewrite bool_decide_eq_true_2 by done. cbn [negb]. rewrite zlen_app, (proj2 (Z.ltb_lt _ _)) by lia. rewrite (proj2 (Z.ltb_ge _ 0)) by lia.
    rewrite <- zlen_app. destruct (zslice_app (octets (g :: a)) (octets b)) as [-> ->]. rewrite zlen_app, La, Lb. do 5 f_equal. lia.
Qed.

Lemma ParseAddr_dot s h r : Forall (fun c => isDigit c = true) h -> ParseAddr_loop s (h ++ 46 :: r) = Addr4 <$> parseIPv4Fields s.
Proof.
  induction 1 as [|c h Hc _ IH]; [done|]. unfold isDigit in Hc. cbn [app ParseAddr_loop].
  by rewrite (proj2 (Z.eqb_neq c 46)), (proj2 (Z.eqb_neq c 58)), (proj2 (Z.eqb_neq c 37)) by lia.
Qed.

(** A character of an address. *)
Definition addrChar (c : Z) : Prop := c = 46 \/ v6char c.
Lemma digit_isHex c : isDigit c = true -> isHexDigit c.
Proof. unfold isDigit. intros H. exists (c - 48). unfold digit. rewrite (proj2 (Z.ltb_lt _ _)) by lia. split; lia. Qed.
Lemma Itoa_digits v : u8 v -> digits (Itoa v).
Proof. unfold u8. intros H. apply Itoa_spec. lia. Qed.
Lemma string4_chars b : is_bytes b -> Forall addrChar (string4 b).
Proof.
  intros Hb. assert (forall v, u8 v -> Forall addrChar (Itoa v)) as Hv.
  { intros v H. destruct (Itoa_digits v H) as [_ HF]. eapply Forall_impl; [exact HF|]. intros c ?%digit_isHex. right. by right. }
  unfold string4, joinWith. destruct b as [|x b]; [done|]. apply Forall_cons in Hb as [Hx Hb]. cbn [map]. rewrite Forall_app. split; [by apply Hv|].
  rewrite Forall_concat. apply Forall_forall. intros l (y & -> & (z & -> & Hz)%list_elem_of_fmap)%list_elem_of_fmap.
  constructor; [by left|]. apply Hv. by eapply Forall_forall in Hb.
Qed.

Lemma parse_string4 b : is_bytes b -> zlen b = 4 -> ParseAddr (string4 b) = Some (Addr4 b).
Proof.
  intros Hb Hl. assert (exists h r, string4 b = h ++ 46 :: r /\ Forall (fun c => isDigit c = true) h) as (h & r & E & HF).
  { destruct b as [|x [|y b]]; try (exfalso; llia). apply Forall_cons in Hb as [Hx _]. destruct (Itoa_digits x Hx) as [_ HF].
    unfold string4, joinWith. cbn [map concat]. by eexists _, _. }
  unfold ParseAddr. rewrite E at 2. rewrite ParseAddr_dot by done. by rewrite string4_parse.
Qed.

Lemma hexGroup_octet x s : u8 x -> notHex s -> exists n v, 0 < n /\ hexGroup (Itoa x ++ s) 0 0 = Some (n, v, s).
Proof.
  intros Hx Hs. rewrite Itoa_u8 by done. unfold u8 in Hx.
  assert (forall d, 0 <= d < 10 -> 48 + d = digit d) as HD by (intros d Hd; symmetry; by apply digit_ok).
  destruct (x <? 10) eqn:E1; [|destruct (x <? 100) eqn:E2]; bool_facts; rewrite !HD by elia; cbn [app]; rewrite !hexGroup_step by elia;
    rewrite hexGroup_end by done; eexists _, _; (split; [|reflexivity]); lia.
Qed.

(** A dotted quad at the end of an address. *)
Lemma ipv6_embedded fuel b ip e : is_bytes b -> zlen b = 4 -> zlen ip <= 12 -> 0 <= e -> ipv6_loop (S fuel) (string4 b) ip e = Some ([], ip ++ b, e).
Proof.
  intros Hb Hl Hip He. pose proof (string4_parse b Hb Hl) as HP.
  assert (exists x r, string4 b = Itoa x ++ 46 :: r /\ u8 x) as (x & r & E & Hx).
  { destruct b as [|x [|y b]]; try (exfalso; llia). apply Forall_cons in Hb as [Hx _]. unfold string4, joinWith. cbn [map concat]. by eexists x, _. }
  cbn [ipv6_loop]. rewrite (proj2 (Z.leb_gt 16 _)) by lia. destruct (hexGroup_octet x (46 :: r) Hx) as (n & v & Hn & HG); [done|].
  rewrite <- E in HG. rewrite HG, (proj2 (Z.eqb_neq n 0)) by lia. rewrite (proj2 (Z.ltb_ge e 0)) by lia. cbn [andb].
  rewrite (proj2 (Z.ltb_ge 16 _)) by lia. by rewrite HP.
Qed.
Lemma string4_noColon b : is_bytes b -> zlen b = 4 -> noColon (string4 b).
Proof.
  intros Hb Hl. destruct b as [|x b]; [exfalso; llia|]. apply Forall_cons in Hb as [Hx _]. destruct (Itoa_digits x Hx) as [Hne HF].
  unfold string4, joinWith. cbn [map]. destruct (Itoa x) as [|c s]; [done|]. inversion_clear HF. cbn. unfold isDigit in *. lia.
Qed.

Lemma parse_string4in6 b : is_bytes b -> zlen b = 4 -> parseIPv6 (str "::ffff:" ++ string4 b) = Some (Addr6 (v4mapped ++ b) []).
Proof.
  intros Hb Hl. pose proof (string4_chars b Hb) as HC. unfold parseIPv6. rewrite cutByte_none.
  2: { rewrite Forall_app. split; [by repeat constructor|]. eapply Forall_impl; [exact HC|]. intros c [->|[->|?%isHexDigit_ne]]; [done..|]. by destruct_and!. }
  cbn [default]. rewrite bool_decide_eq_false_2 by done. change (str "::ffff:" ++ string4 b) with (58 :: 58 :: hex16 65535 ++ 58 :: string4 b).
  cbn [Z.eqb andb]. rewrite bool_decide_eq_false_2 by done. change 8%nat with (S (S 6)). rewrite ipv6_group by (done || llia). cbv zeta. cbn [app].
  pose proof (ipv6_embedded 6 b [65535 / 256; 65535 mod 256] 0 Hb Hl ltac:(by vm_compute) ltac:(lia)) as HE. pose proof (string4_noColon b Hb Hl) as HN.
  assert (zlen ([65535 / 256; 65535 mod 256] ++ b) = 6) as HL by (rewrite zlen_app, Hl; done).
  destruct (string4 b) as [|c s]; [done|]. cbn in HN.
  match goal with |- match ?o with _ => _ end = _ => replace o with (Some (@nil Z, [65535 / 256; 65535 mod 256] ++ b, 0)) by (rewrite <- HE; repeat case_match; congruence) end.
  rewrite bool_decide_eq_true_2 by done. cbn [negb]. rewrite HL. cbn [Z.ltb Z.compare Pos.compare Pos.compare_cont]. rewrite <- HL, zslice_all.
  rewrite HL. done.
Qed.

(** What is printed of an address is read back. *)
Lemma ParseAddr_String a : addr4_ok a \/ addr6_ok a ->
  ParseAddr (Addr_String a) = Some a /\ Forall addrChar (Addr_String a) /\ Addr_String a <> [].
Proof.
  intros [(b & -> & Hb & Hl)|(b & -> & Hb & Hl)].
  { cbn [Addr_String]. split_and!; [by apply parse_string4|by apply string4_chars|]. pose proof (string4_noColon b Hb Hl). by destruct (string4 b). }
  cbn [Addr_String]. rewrite app_nil_r. destruct (Is4In6 (Addr6 b [])) eqn:EI.
  - cbn in EI. apply bool_decide_eq_true in EI. rewrite <- (take_drop 12 b) in Hb, Hl |- *. rewrite EI in *. apply Forall_app in Hb as [_ Hb].
    rewrite zlen_app in Hl. change (zlen v4mapped) with 12 in Hl. rewrite drop_app_length' by done. split_and!; [|..|done].
    + unfold ParseAddr. change (ParseAddr_loop ?s (str "::ffff:" ++ _)) with (parseIPv6 s). apply parse_string4in6; [done|lia].
    + rewrite Forall_app. split; [|by apply string4_chars]. change (str "::ffff:") with [58; 58; 102; 102; 102; 102; 58].
      repeat (apply Forall_cons_2; [right; first [by left|right; by exists 15]|]). apply Forall_nil_2.
  - clear EI. destruct (groups_octets b Hb) as [HO HG]; [exists 8%nat; unfold zlen in Hl; lia|]. pose proof (octets_len (groups b)) as HL. rewrite HO, Hl in HL.
    unfold string6. destruct (longestRun_spec [] (groups b) 255 255) as [E|HR]; cbv zeta in *; change (zlen []) with 0 in *; destruct (longestRun _ _ _ _) as [s e].
    + injection E as -> ->. rewrite string6_shape by (by left || lia). cbn [Z.eqb Pos.eqb]. split_and!.
      * unfold ParseAddr. destruct (groups b) as [|g [|g' gs]] eqn:Eg; try (exfalso; llia). rewrite joined_cons. apply Forall_cons in HG as [Hg HG].
        destruct (hexGroup_hex16 g Hg) as (_ & HH & _). rewrite ParseAddr_colon by done. rewrite <- joined_cons, parseIPv6_full; [by rewrite HO|by constructor|lia].
      * eapply Forall_impl; [by apply joined_chars|]. by right.
      * destruct (groups b) as [|g gs] eqn:Eg; [exfalso; llia|]. apply Forall_cons in HG as [Hg HG]. pose proof (hex16_noColon g (concat (map (cons 58) (map hex16 gs))) Hg) as HN.
        change (hex16 g ++ _) with (joined (g :: gs)) in HN. by destruct (joined (g :: gs)).
    + cbn [fst snd app] in HR. rewrite string6_shape by (by right || lia). destruct HR as (Hs & He & HR). rewrite (proj2 (Z.eqb_neq s 255)) by lia.
      set (x := take (Z.to_nat s) (groups b)) in *. set (y := drop (Z.to_nat e) (groups b)) in *. rewrite HR in HG. apply Forall_app in HG as [Hx HG].
      apply Forall_app in HG as [_ Hy]. assert (zlen x = s /\ zlen y = 8 - e) as [Lx Ly] by (unfold x, y, zlen in *; rewrite length_take, length_drop; lia).
      split_and!.
      * assert (forall t, ParseAddr_loop t (joined x ++ 58 :: 58 :: joined y) = parseIPv6 t) as HPA.
        { intros t. destruct x as [|g [|g' gs]]; [done|..]; apply Forall_cons in Hx as [Hg Hx]; destruct (hexGroup_hex16 g Hg) as (_ & HH & _).
          - change (joined [g]) with (hex16 g ++ []). rewrite app_nil_r. by apply ParseAddr_colon.
          - rewrite joined_cons, <- app_assoc. by apply ParseAddr_colon. }
        unfold ParseAddr. rewrite HPA, parseIPv6_ellipsis by (done || lia). do 2 f_equal. rewrite <- HO, HR at 1. unfold octets. rewrite !map_app, !concat_app.
        f_equal. f_equal. fold (octets (replicate (Z.to_nat (e - s)) 0)). rewrite Lx, Ly.
        replace (Z.to_nat (16 - 2 * s - 2 * (8 - e))) with (2 * Z.to_nat (e - s))%nat by lia. clear.
        induction (Z.to_nat (e - s)) as [|k IH]; [done|]. replace (2 * S k)%nat with (S (S (2 * k))) by lia. cbn [replicate]. rewrite IH. done.
      * rewrite Forall_app. split; [|repeat (constructor; [right; by left|])]; (eapply Forall_impl; [by apply joined_chars|]; by right).
      * by destruct (joined x).
Qed.

(** ** Facts: mnemonics *)

Lemma ToUpper_ascii s : Forall (fun c => c < 128) s -> ToUpper s = map upperByte s.
Proof.
  induction 1 as [|a s Ha Hs IH]; [done|]. cbn [ToUpper map]. destruct s as [|b s]; [done|].
  rewrite (proj2 (Z.eqb_neq a 0xc4)), (proj2 (Z.eqb_neq a 0xc5)) by lia. cbn [andb]. by rewrite IH.
Qed.
Lemma digits_upper ds : Forall (fun c => isDigit c = true) ds -> map upperByte ds = ds.
Proof. induction 1 as [|c l Hc _ IH]; [done|]. cbn. rewrite IH. f_equal. unfold upperByte. unfold isDigit in Hc. by replace ((97 <=? c) && (c <=? 122)) with false by lia. Qed.
Lemma digits_ascii ds : Forall (fun c => isDigit c = true) ds -> Forall (fun c => c < 128) ds.
Proof. intros H. eapply Forall_impl; [exact H|]. unfold isDigit. intros c ?. cbn in *. lia. Qed.

Lemma Type_Parse_String t : u16 t -> Type_Parse (Type_String t) = Some t.
Proof.
  intros Ht. unfold Type_String. destruct (List.find _ typeNames) as [[t' s]|] eqn:E.
  - apply find_some in E as [Hin Heq]. cbn in Heq. bool_facts. subst t'.
    assert (forallb (fun p => bool_decide (Type_Parse p.2 = Some p.1)) typeNames = true) as HF by (vm_compute; reflexivity).
    rewrite forallb_forall in HF. apply HF in Hin. by apply bool_decide_eq_true in Hin.
  - clear E. unfold u16 in Ht. destruct (Itoa_spec t) as [[Hne HF] _]; [lia|]. pose proof (ParseUint_Itoa t 16 ltac:(lia) ltac:(lia)) as HP.
    assert (ToUpper (str "TYPE" ++ Itoa t) = str "TYPE" ++ Itoa t) as EU.
    { rewrite ToUpper_ascii, map_app, (digits_upper (Itoa t)); [done|done|]. rewrite Forall_app. split; [by repeat constructor|by apply digits_ascii]. }
    unfold Type_Parse. rewrite EU. destruct (List.find _ typeNames) as [[t' s]|] eqn:E.
    { exfalso. apply find_some in E as [Hin Heq]. apply bool_decide_eq_true in Heq. cbn in Heq.
      assert (forallb (fun p => bool_decide (take 4 p.2 <> str "TYPE")) typeNames = true) as HN by (vm_compute; reflexivity).
      rewrite forallb_forall in HN. apply HN, bool_decide_eq_true in Hin. cbn [snd] in Hin. by rewrite Heq in Hin. }
    rewrite zlen_app. change (zlen (str "TYPE")) with 4. destruct (Itoa t) as [|c ds] eqn:EI; [done|]. rewrite <- EI in *.
    rewrite (proj2 (Z.ltb_lt 4 _)) by (rewrite EI; llia). cbn [andb]. destruct (zslice_app (str "TYPE") (Itoa t)) as [H1 H2].
    rewrite zlen_app in H2. change (zlen (str "TYPE")) with 4 in *. rewrite H1, H2. by rewrite bool_decide_eq_true_2 by done.
Qed.

(** The first letter of a mnemonic is one, so that it is no number. *)
Definition capital (c : Z) : Prop := 65 <= c <= 90.
Definition mnemonicChar (c : Z) : Prop := capital c \/ isDigit c = true \/ c = 45.
Lemma Type_String_chars t : u16 t -> Forall mnemonicChar (Type_String t) /\ exists c s, Type_String t = c :: s /\ capital c.
Proof.
  intros Ht. unfold Type_String. destruct (List.find _ typeNames) as [[t' s]|] eqn:E.
  - apply find_some in E as [Hin _].
    assert (forallb (fun p => forallb (fun c => (65 <=? c) && (c <=? 90) || isDigit c || (c =? 45)) p.2 &&
      match p.2 with c :: _ => (65 <=? c) && (c <=? 90) | [] => false end) typeNames = true) as HF by (vm_compute; reflexivity).
    rewrite forallb_forall in HF. apply HF, andb_true_iff in Hin as [H1 H2]. cbn [snd] in *. split.
    + rewrite forallb_forall in H1. apply Forall_forall. intros c Hc%list_elem_of_In. apply H1 in Hc. unfold mnemonicChar, capital.
      rewrite !orb_true_iff, andb_true_iff in Hc. destruct Hc as [[[? ?]|?]|?]; bool_facts; auto.
    + destruct s as [|c s]; [done|]. exists c, s. split; [done|]. cbn in H2. unfold capital. lia.
  - unfold u16 in Ht. destruct (Itoa_spec t) as [[_ HF] _]; [lia|]. split; [|by eexists 84, _].
    rewrite Forall_app. split; [change (str "TYPE") with [84; 89; 80; 69]; repeat (apply Forall_cons_2; [left; unfold capital; lia|]); apply Forall_nil_2|].
    eapply Forall_impl; [exact HF|]. intros c ?. right. by left.
Qed.
