(* ===== verification/Zonefile.v ===== *)
(** * Zone files (src/zonefile)

    The lexer (lexer.go), the parser with its directives (parser.go,
    generate.go, include.go), the writer (writer.go), the API (zonefile.go,
    option.go) and the helper for classless delegations (classless).  A reader
    is the octets it delivers before io.EOF; errors keep their place and not
    their text; the file system behind [$INCLUDE] is a parameter. *)

From Stdlib Require Import Strings.String.
From S2P Require Import Prelude Name Wire RData RDataNew Message Netip Authoritative Text.
Open Scope Z_scope.
Open Scope list_scope.

Module zonefile.

(** ** Errors *)

Inductive failure :=
  | Lexical (line : Z)                                      (* "line %d: ..." from the lexer *)
  | AtLine (source : bytes) (line : Z) (cause : error)      (* [lineErr] *)
  | IncludedFrom (f : failure) (source : bytes) (line : Z)  (* "... (included from %s)" *)
  | Panicked (n : Z)                                        (* a panic, of strings.Repeat to [n] octets or (0) of an index out of range *)
  | Endless (start stop step : Z)                           (* no Go error: a $GENERATE the values of which have come round *)
  | OutOfFuel.                                              (* no Go error *)

(** ** lexer.go *)

Inductive tokenKind := tokWord | tokQuoted | tokEOL | tokEOF.
Record token := mkToken { kind : tokenKind; text : bytes; line : Z }.
Record lexer := mkLexer { l_r : bytes; l_line : Z; parenDepth : Z; inLine : bool; sawLeadingWS : bool }.
Definition newLexer (r : bytes) : lexer := mkLexer r 1 0 false false.

Definition maxLexerTokenSize : Z := 64 * 1024.

(** The characters that end a word. *)
Definition endsWord (b : Z) : bool :=
  (b =? 32) || (b =? 9) || (b =? 10) || (b =? 13) || (b =? 59) || (b =? 40) || (b =? 41) || (b =? 34).
Fixpoint readWord (r sb : bytes) (ln : Z) : failure + (bytes * bytes) :=
  match r with
  | [] => inr (sb, [])
  | b :: r' =>
      if endsWord b then inr (sb, r)
      else if b =? 92 then
        match r' with
        | [] => inl (Lexical ln)
        | c :: r'' => let sb := sb ++ [92; c] in if maxLexerTokenSize <? zlen sb then inl (Lexical ln) else readWord r'' sb ln
        end
      else let sb := sb ++ [b] in if maxLexerTokenSize <? zlen sb then inl (Lexical ln) else readWord r' sb ln
  end.

Definition readDecimalEscapeTail (first d2 d3 : Z) : option Z :=
  if negb (isDigit d2) then None else if negb (isDigit d3) then None
  else let v := (first - 48) * 100 + (d2 - 48) * 10 + (d3 - 48) in if 255 <? v then None else Some v.

(** [readQuoted]: the text, the rest, and the line. *)
Fixpoint readQuoted (r sb : bytes) (ln : Z) : failure + (bytes * bytes * Z) :=
  let more sb r := if maxLexerTokenSize <? zlen sb then inl (Lexical ln) else r tt in
  match r with
  | [] => inl (Lexical ln)
  | b :: r =>
      if b =? 34 then inr (sb, r, ln)
      else if b =? 92 then
        match r with
        | [] => inl (Lexical ln)
        | c :: r =>
            if isDigit c then
              match r with
              | d2 :: d3 :: r =>
                  match readDecimalEscapeTail c d2 d3 with
                  | None => inl (Lexical ln)
                  | Some v => more (sb ++ [v]) (fun _ => readQuoted r (sb ++ [v]) ln)
                  end
              | _ => inl (Lexical ln)
              end
            else more (sb ++ [c]) (fun _ => readQuoted r (sb ++ [c]) ln)
        end
      else if b =? 10 then
        if maxLexerTokenSize <? zlen (sb ++ [b]) then inl (Lexical (ln + 1)) else readQuoted r (sb ++ [b]) (ln + 1)
      else more (sb ++ [b]) (fun _ => readQuoted r (sb ++ [b]) ln)
  end.

(** A comment: what follows its line, [None] at the end of the file. *)
Fixpoint skipComment (r : bytes) : option bytes :=
  match r with [] => None | c :: r => if c =? 10 then Some r else skipComment r end.

(** [flushOnEOF] *)
Definition flushOnEOF (l : lexer) : token * bool * lexer :=
  if inLine l then (mkToken tokEOL [] (l_line l), false, mkLexer [] (l_line l) (parenDepth l) false false)
  else (mkToken tokEOF [] (l_line l), false, mkLexer [] (l_line l) (parenDepth l) (inLine l) (sawLeadingWS l)).

(** A token of [kind], and whether it is the first of its line, after blanks. *)
Definition emit (k : tokenKind) (s r : bytes) (ln : Z) (l : lexer) : token * bool * lexer :=
  (mkToken k s ln, sawLeadingWS l && negb (inLine l), mkLexer r ln (parenDepth l) true (sawLeadingWS l)).

(** [next]; every round consumes a character. *)
Fixpoint next_loop (fuel : nat) (l : lexer) : failure + (token * bool * lexer) :=
  match fuel with
  | O => inl OutOfFuel
  | S fuel =>
      let '(mkLexer r ln depth inl_ ws) := l in
      let newline r :=
        if (depth =? 0) && inl_ then inr (mkToken tokEOL [] ln, false, mkLexer r (ln + 1) depth false false)
        else next_loop fuel (mkLexer r (ln + 1) depth inl_ ws) in
      match r with
      | [] => if negb (depth =? 0) then inl (Lexical ln) else inr (flushOnEOF l)
      | b :: r' =>
          if b =? 13 then next_loop fuel (mkLexer r' ln depth inl_ ws)
          else if b =? 10 then newline r'
          else if (b =? 32) || (b =? 9) then next_loop fuel (mkLexer r' ln depth inl_ (if negb inl_ then true else ws))
          else if b =? 59 then match skipComment r' with None => inr (flushOnEOF l) | Some r' => newline r' end
          else if b =? 40 then next_loop fuel (mkLexer r' ln (depth + 1) inl_ ws)
          else if b =? 41 then if depth =? 0 then inl (Lexical ln) else next_loop fuel (mkLexer r' ln (depth - 1) inl_ ws)
          else if b =? 34 then match readQuoted r' [] ln with inl f => inl f | inr (s, r', ln) => inr (emit tokQuoted s r' ln l) end
          else match readWord r [] ln with inl f => inl f | inr (s, r') => inr (emit tokWord s r' ln l) end
      end
  end.
Definition next (l : lexer) : failure + (token * bool * lexer) := next_loop (S (length (l_r l))) l.

(** ** parser.go *)

Definition maxTTL : Z := 0x7fffffff.

(** [hexDecode], [b64Decode] *)
Definition clean (s : bytes) : bytes := List.filter (fun r => negb ((r =? 32) || (r =? 9))) s.
Definition hexDecode (s : bytes) : option bytes := DecodeString (clean s).
Definition b64Decode (s : bytes) : option bytes := b64DecodeString (clean s).

(** A resolver maps the file that includes and the name given to the contents
    and the canonical name. *)
Definition IncludeResolver : Type := bytes -> bytes -> res (bytes * bytes).
Record config := mkConfig {
  c_origin : Name; c_defaultTTL : Z; c_maxGenerateIterations : Z; c_source : bytes; c_includeResolver : option IncludeResolver; c_maxIncludeDepth : Z }.
(** [parser]: what stays the same in a file, and what changes. *)
Record settings := mkSettings {
  maxGenerateIterations : Z; source : bytes; includeResolver : option IncludeResolver; includeDepth : Z; maxIncludeDepth : Z }.
Record parser := mkParser { lex : lexer; origin : Name; defaultTTL : Z; prevName : Name; records : list Record_ }.

Definition DefaultGenerateMaxIterations : Z := 65536.
Definition DefaultIncludeMaxDepth : Z := 8.
Definition newParser (r : bytes) (c : config) : settings * parser :=
  let maxGen := if c_maxGenerateIterations c <=? 0 then DefaultGenerateMaxIterations else c_maxGenerateIterations c in
  let maxInc := if c_maxIncludeDepth c <=? 0 then DefaultIncludeMaxDepth else c_maxIncludeDepth c in
  (mkSettings maxGen (c_source c) (c_includeResolver c) 0 maxInc, mkParser (newLexer r) (c_origin c) (c_defaultTTL c) zeroName []).

Record fieldTok := mkField { f_text : bytes; f_quoted : bool; f_line : Z }.

(** [readLine]: the fields, whether the first is after blanks, whether the
    file ended, and the lexer. *)
Fixpoint readLine_loop (fuel : nat) (l : lexer) (out : list fieldTok) (leading first : bool) : failure + (list fieldTok * bool * bool * lexer) :=
  match fuel with
  | O => inl OutOfFuel
  | S fuel =>
      match next l with
      | inl f => inl f
      | inr (t, lws, l) =>
          match kind t with
          | tokEOF => inr (out, false, true, l)
          | tokEOL => inr (out, leading, false, l)
          | k => readLine_loop fuel l (out ++ [mkField (text t) (match k with tokQuoted => true | _ => false end) (line t)])
                   (if first then lws else leading) false
          end
      end
  end.
Definition readLine (l : lexer) : failure + (list fieldTok * bool * bool * lexer) := readLine_loop (2 + length (l_r l)) l [] false true.

Definition resolveName (p : parser) (s : bytes) : res Name :=
  if bool_decide (s = []) then Ok (prevName p)
  else if bool_decide (s = [64]) then if negb (IsValid (origin p)) then Err ErrPlain else Ok (origin p)
  else if HasSuffix s [46] then Parse s
  else if negb (IsValid (origin p)) then Err ErrPlain
  else Parse (s ++ [46] ++ String_ (origin p)).

Definition parseClass (s : bytes) : option Z :=
  let s := ToUpper s in
  if bool_decide (s = str "IN") then Some rrtype.ClassIN
  else if bool_decide (s = str "CH") then Some rrtype.ClassCH
  else if bool_decide (s = str "HS") then Some rrtype.ClassHS
  else if bool_decide (s = str "ANY") then Some rrtype.ClassANY
  else if bool_decide (s = str "NONE") then Some rrtype.ClassNONE
  else None.

(** TTL and class, in any order, before the type; the line of a TTL out of range. *)
Fixpoint ttlClass (fields : list fieldTok) (ttl class : Z) : Z + (Z * Z * list fieldTok) :=
  match fields with
  | [] => inr (ttl, class, [])
  | f :: fs =>
      if negb (class =? rrtype.ClassIN) then inr (ttl, class, fields)
      else match ParseInt (f_text f) 64 with
           | Some t => if (t <? 0) || (maxTTL <? t) then inl (f_line f) else ttlClass fs t class
           | None => match parseClass (f_text f) with Some c => ttlClass fs ttl c | None => inr (ttl, class, fields) end
           end
  end.

(** The result of a call that may fail; the error's text is not kept. *)
Definition must {A} (o : option A) : res A := match o with Some a => Ok a | None => Err ErrPlain end.

Definition parseGenericRData (t : Z) (fields : list fieldTok) : res RData :=
  match fields with
  | [] => Err ErrPlain
  | f :: fields =>
      let? n := must (ParseInt (f_text f) 32) in
      if n <? 0 then Err ErrPlain
      else let? payload := must (hexDecode (concat (map f_text fields))) in
      if negb (zlen payload =? n) then Err ErrPlain
      else fst (RData.Unpack t (zlen payload) (Unpacker.mk payload 0))
  end.

Definition parseSOATimer (f : fieldTok) : res Z :=
  let? v := must (ParseUint (f_text f) 32) in if maxTTL <? v then Err ErrPlain else Ok v.

Definition parseSOA (p : parser) (fields : list fieldTok) : res RData :=
  match fields with
  | [f0; f1; f2; f3; f4; f5; f6] =>
      let? mname := resolveName p (f_text f0) in
      let? rname := resolveName p (f_text f1) in
      let? serial := must (ParseUint (f_text f2) 32) in
      let? refresh := parseSOATimer f3 in
      let? retry := parseSOATimer f4 in
      let? expire := parseSOATimer f5 in
      let? minimum := parseSOATimer f6 in
      NewSOA mname rname serial (refresh * Second) (retry * Second) (expire * Second) (minimum * Second)
  | _ => Err ErrPlain
  end.

Definition parseSRV (p : parser) (fields : list fieldTok) : res RData :=
  match fields with
  | [f0; f1; f2; f3] =>
      let? pri := must (ParseUint (f_text f0) 16) in
      let? wgt := must (ParseUint (f_text f1) 16) in
      let? port := must (ParseUint (f_text f2) 16) in
      let? target := resolveName p (f_text f3) in
      NewSRV pri wgt port target
  | _ => Err ErrPlain
  end.

Definition parseCAA (fields : list fieldTok) : res RData :=
  match fields with
  | [f0; f1; f2] => let? flags := must (ParseUint (f_text f0) 8) in NewCAA flags (f_text f1) (f_text f2)
  | _ => Err ErrPlain
  end.

Definition parseDNAME (p : parser) (fields : list fieldTok) : res RData :=
  match fields with [f] => let? target := resolveName p (f_text f) in NewDNAME target | _ => Err ErrPlain end.

Definition parseDS (fields : list fieldTok) : res RData :=
  match fields with
  | f0 :: f1 :: f2 :: ((_ :: _) as rest) =>
      let? keytag := must (ParseUint (f_text f0) 16) in
      let? alg := must (ParseUint (f_text f1) 8) in
      let? dt := must (ParseUint (f_text f2) 8) in
      let? digest := must (hexDecode (concat (map f_text rest))) in
      NewDS keytag alg dt digest
  | _ => Err ErrPlain
  end.

Definition parseDNSKEY (fields : list fieldTok) : res RData :=
  match fields with
  | f0 :: f1 :: f2 :: ((_ :: _) as rest) =>
      let? flags := must (ParseUint (f_text f0) 16) in
      let? proto := must (ParseUint (f_text f1) 8) in
      let? alg := must (ParseUint (f_text f2) 8) in
      let? key := must (b64Decode (concat (map f_text rest))) in
      NewDNSKEY flags proto alg key
  | _ => Err ErrPlain
  end.

(** The cases of one name: NS, CNAME, PTR. *)
Definition parseOneName (p : parser) (new : Name -> res RData) (fields : list fieldTok) : res RData :=
  match fields with [f] => let? n := resolveName p (f_text f) in new n | _ => Err ErrPlain end.

(** The switch of [parseRData] over the types. *)
Definition parseTyped (p : parser) (t : Z) (fields : list fieldTok) : res RData :=
  if t =? rrtype.A then
    match fields with [f] => let? ip := must (ParseAddr (f_text f)) in if negb (Is4 ip) then Err ErrPlain else NewA ip | _ => Err ErrPlain end
  else if t =? rrtype.AAAA then
    match fields with [f] => let? ip := must (ParseAddr (f_text f)) in if negb (Is6 ip) then Err ErrPlain else NewAAAA ip | _ => Err ErrPlain end
  else if t =? rrtype.NS then parseOneName p NewNS fields
  else if t =? rrtype.CNAME then parseOneName p NewCNAME fields
  else if t =? rrtype.PTR then parseOneName p NewPTR fields
  else if t =? rrtype.MX then
    match fields with
    | [f0; f1] => let? pref := must (ParseUint (f_text f0) 16) in let? n := resolveName p (f_text f1) in NewMX pref n
    | _ => Err ErrPlain
    end
  else if t =? rrtype.TXT then NewTXT (map f_text fields)
  else if t =? rrtype.SOA then parseSOA p fields
  else if t =? rrtype.SRV then parseSRV p fields
  else if t =? rrtype.CAA then parseCAA fields
  else if t =? rrtype.DNAME then parseDNAME p fields
  else if t =? rrtype.DS then parseDS fields
  else if t =? rrtype.DNSKEY then parseDNSKEY fields
  else Err ErrPlain.

Definition parseRData (p : parser) (t : Z) (fields : list fieldTok) : res RData :=
  match fields with
  | f :: rest =>
      if bool_decide (f_text f = str "\#") then parseGenericRData t rest else parseTyped p t fields
  | [] => parseTyped p t fields
  end.

Definition append (p : parser) (rec : Record_) : parser :=
  mkParser (lex p) (origin p) (defaultTTL p) (r_name rec) (records p ++ [rec]).
(** [time.Duration(ttl) * time.Second] *)
Definition seconds (ttl : Z) : Z := wrap64 (ttl * Second).

(** ** generate.go *)

Record generateRange := mkRange { g_start : Z; g_stop : Z; g_step : Z }.
Definition iterations (g : generateRange) : Z := wrap64 (Z.quot (g_stop g - g_start g) (g_step g) + 1).

Definition parseGenerateRange (s : bytes) : option generateRange :=
  let '(s, stepStr) := cutByte 47 s in
  match cutByte 45 s with
  | (_, None) => None
  | (before, Some after) =>
      if bool_decide (before = []) || bool_decide (after = []) then None
      else match Atoi before, Atoi after with
      | Some start, Some stop =>
          if (start <? 0) || (stop <? 0) then None
          else if stop <? start then None
          else match stepStr with
               | None | Some [] => Some (mkRange start stop 1)
               | Some stepStr => match Atoi stepStr with
                                 | Some step => if step <=? 0 then None else Some (mkRange start stop step)
                                 | None => None
                                 end
               end
      | _, _ => None
      end
  end.

(** [strings.SplitN(spec, ",", 3)] *)
Definition splitN3 (spec : bytes) : list bytes :=
  match cutByte 44 spec with
  | (a, None) => [a]
  | (a, Some r) => match cutByte 44 r with (b, None) => [a; b] | (b, Some c) => [a; b; c] end
  end.

(** The largest number of octets Go allocates at once. *)
Definition maxAlloc : Z := 2 ^ 48.

(** A failed substitution, or a panic of [strings.Repeat]. *)
Inductive substError := BadSubst | RepeatPanics (n : Z).
Definition formatGenerateSubst (spec : bytes) (value : Z) : substError + bytes :=
  let parts := splitN3 spec in
  let field i := default [] (parts !! i) in
  let number (s : bytes) := match s with [] => Some 0 | _ => Atoi s end in
  match number (field 0%nat) with
  | None => inl BadSubst
  | Some offset =>
      match number (field 1%nat) with
      | None => inl BadSubst
      | Some width =>
          if width <? 0 then inl BadSubst
          else let format := match field 2%nat with [] => Some 100 | [c] => Some c | _ => None end in
          let n := wrap64 (value + offset) in
          let rendered :=
            match format with
            | None => None
            | Some c =>
                if c =? 100 then Some (FormatInt n 10)
                else if c =? 111 then Some (FormatInt n 8)
                else if c =? 120 then Some (FormatInt n 16)
                else if c =? 88 then Some (ToUpper (FormatInt n 16))
                else None
            end in
          match rendered with
          | None => inl BadSubst
          | Some rendered =>
              if (0 <? width) && (zlen rendered <? width) then
                if maxAlloc <? width - zlen rendered then inl (RepeatPanics (width - zlen rendered))
                else let pad := replicate (Z.to_nat (width - zlen rendered)) 48 in
                     match rendered with 45 :: digits => inr ([45] ++ pad ++ digits) | _ => inr (pad ++ rendered) end
              else inr rendered
          end
      end
  end.

(** [substituteGenerate]: every round consumes a character of the template. *)
Fixpoint substitute_loop (fuel : nat) (template : bytes) (value : Z) : substError + bytes :=
  match fuel, template with
  | O, _ | _, [] => inr []
  | S fuel, c :: rest =>
      let andThen out rest := match substitute_loop fuel rest value with inl e => inl e | inr more => inr (out ++ more) end in
      match rest with
      | 36 :: rest' => if c =? 92 then andThen [36] rest' else if negb (c =? 36) then andThen [c] rest else andThen (Itoa value) rest
      | 123 :: rest' =>
          if negb (c =? 36) then andThen [c] rest
          else match cutByte 125 rest' with
               | (_, None) => inl BadSubst
               | (spec, Some rest'') => match formatGenerateSubst spec value with inl e => inl e | inr out => andThen out rest'' end
               end
      | _ => if negb (c =? 36) then andThen [c] rest else andThen (Itoa value) rest
      end
  end.
Definition substituteGenerate (template : bytes) (value : Z) : substError + bytes := substitute_loop (length template) template value.

Fixpoint substituteAll (toks : list fieldTok) (value : Z) : substError + list fieldTok :=
  match toks with
  | [] => inr []
  | t :: toks =>
      match substituteGenerate (f_text t) value with
      | inl e => inl e
      | inr s => match substituteAll toks value with inl e => inl e | inr l => inr (mkField s (f_quoted t) (f_line t) :: l) end
      end
  end.

Definition lineErr {A} (e : settings) (ln : Z) (cause : error) : failure + A := inl (AtLine (source e) ln cause).
Definition substFailure {A} (e : settings) (ln : Z) (err : substError) : failure + A :=
  match err with BadSubst => lineErr e ln ErrPlain | RepeatPanics n => inl (Panicked n) end.

(** The record for the value [v]. *)
Definition generateOne (e : settings) (p : parser) (ln : Z) (lhs : bytes) (ttl class t : Z) (rhs : list fieldTok) (v : Z) : failure + parser :=
  match substituteGenerate lhs v with
  | inl err => substFailure e ln err
  | inr ownerStr =>
      match resolveName p ownerStr with
      | Err err => lineErr e ln err
      | Ok owner =>
          match substituteAll rhs v with
          | inl err => substFailure e ln err
          | inr subBuf =>
              match parseRData p t subBuf with
              | Err err => lineErr e ln err
              | Ok rd => inr (append p (NewRecordClass owner class (seconds ttl) rd))
              end
          end
      end
  end.
(** Up to [n] rounds of a loop, the body of which ends with a result or goes on. *)
Fixpoint rounds {R St} (n : positive) (body : St -> R + St) (s : St) : R + St :=
  match n with
  | xH => body s
  | xO n => match rounds n body s with inl r => inl r | inr s => rounds n body s end
  | xI n => match body s with
            | inl r => inl r
            | inr s => match rounds n body s with inl r => inl r | inr s => rounds n body s end
            end
  end.
(** One round of the loop over the values. *)
Definition generate_round (one : parser -> Z -> failure + parser) (g : generateRange) (s : Z * parser) : (failure + parser) + (Z * parser) :=
  let '(v, p) := s in
  match one p v with
  | inl f => inl (inl f)
  | inr p => if v =? g_stop g then inl (inr p)
             else if g_stop g <? wrap64 (v + g_step g) then inl (inr p)
             else inr (wrap64 (v + g_step g), p)
  end.
(** The loop; the counter has 2^64 values, so that after as many rounds they
    repeat. *)
Definition generateRounds : positive := 2 ^ 64.
Definition generate_loop (fuel : positive) (one : parser -> Z -> failure + parser) (g : generateRange) (v : Z) (p : parser) : failure + parser :=
  match rounds fuel (generate_round one g) (v, p) with
  | inl r => r
  | inr _ => inl (Endless (g_start g) (g_stop g) (g_step g))
  end.

Definition handleGenerate (e : settings) (p : parser) (fields : list fieldTok) : failure + parser :=
  match fields with
  | f0 :: f1 :: f2 :: rest =>
      if zlen fields <? 5 then lineErr e (f_line f0) ErrPlain
      else match parseGenerateRange (f_text f1) with
      | None => lineErr e (f_line f0) ErrPlain
      | Some g =>
          if maxGenerateIterations e <? iterations g then lineErr e (f_line f0) ErrPlain
          else match ttlClass rest (defaultTTL p) rrtype.ClassIN with
          | inl ln => lineErr e ln ErrPlain
          | inr (ttl, class, rest) =>
              match rest with
              | [] => lineErr e (f_line f0) ErrPlain
              | ft :: rhs =>
                  match Type_Parse (f_text ft) with
                  | None => lineErr e (f_line ft) ErrPlain
                  | Some t =>
                      if ttl <? 0 then lineErr e (f_line f0) ErrPlain
                      else generate_loop generateRounds
                             (fun p v => generateOne e p (f_line f0) (f_text f2) ttl class t rhs v) g (g_start g) p
                  end
              end
          end
      end
  | f0 :: _ => lineErr e (f_line f0) ErrPlain
  | [] => inl (Panicked 0)
  end.

(** ** include.go *)

(** [nested] runs a parser one level deeper. *)
Definition handleInclude (nested : settings -> parser -> failure + parser) (e : settings) (p : parser) (fields : list fieldTok) : failure + parser :=
  match fields with
  | [] => inl (Panicked 0)
  | f0 :: args =>
      let ln := f_line f0 in
      match includeResolver e with
      | None => lineErr e ln ErrPlain
      | Some resolve =>
          match args with
          | f1 :: dom =>
              if 1 <? zlen dom then lineErr e ln ErrPlain
              else if maxIncludeDepth e <=? includeDepth e then lineErr e ln ErrPlain
              else match (match dom with f2 :: _ => Parse (f_text f2) | [] => Ok (origin p) end) with
              | Err err => lineErr e ln err
              | Ok includeOrigin =>
                  match resolve (source e) (f_text f1) with
                  | Err err => lineErr e ln err
                  | Ok (rc, canonical) =>
                      let sub := mkSettings (maxGenerateIterations e) canonical (includeResolver e) (includeDepth e + 1) (maxIncludeDepth e) in
                      match nested sub (mkParser (newLexer rc) includeOrigin (defaultTTL p) zeroName []) with
                      | inl f => inl (IncludedFrom f (source e) ln)
                      | inr q => inr (mkParser (lex p) (origin p) (defaultTTL p) (prevName p) (records p ++ records q))
                      end
                  end
              end
          | [] => lineErr e ln ErrPlain
          end
      end
  end.

(** ** parser.go: lines *)

Definition handleDirective (nested : settings -> parser -> failure + parser) (e : settings) (p : parser) (fields : list fieldTok) : failure + parser :=
  match fields with
  | [] => inl (Panicked 0)
  | f0 :: args =>
      let directive := ToUpper (f_text f0) in
      let ln := f_line f0 in
      if bool_decide (directive = str "$ORIGIN") then
        match args with
        | [a] => match Parse (f_text a) with
                 | Err err => lineErr e ln err
                 | Ok n => inr (mkParser (lex p) n (defaultTTL p) (prevName p) (records p))
                 end
        | _ => lineErr e ln ErrPlain
        end
      else if bool_decide (directive = str "$TTL") then
        match args with
        | [a] => match ParseInt (f_text a) 64 with
                 | None => lineErr e ln ErrPlain
                 | Some v => if (v <? 0) || (maxTTL <? v) then lineErr e ln ErrPlain
                             else inr (mkParser (lex p) (origin p) v (prevName p) (records p))
                 end
        | _ => lineErr e ln ErrPlain
        end
      else if bool_decide (directive = str "$GENERATE") then handleGenerate e p fields
      else if bool_decide (directive = str "$INCLUDE") then handleInclude nested e p fields
      else lineErr e ln ErrPlain
  end.

Definition handleLine (nested : settings -> parser -> failure + parser) (e : settings) (p : parser) (fields : list fieldTok) (leadingWS : bool) : failure + parser :=
  match fields with
  | [] => inl (Panicked 0)
  | f0 :: fs =>
      if HasPrefix (f_text f0) [36] then handleDirective nested e p fields
      else if leadingWS && negb (IsValid (prevName p)) then lineErr e (f_line f0) ErrPlain
      else let '(ownerText, fields) := if leadingWS then ([], fields) else (f_text f0, fs) in
      match resolveName p ownerText with
      | Err err => lineErr e (f_line f0) err
      | Ok owner =>
          match ttlClass fields (defaultTTL p) rrtype.ClassIN with
          | inl ln => lineErr e ln ErrPlain
          | inr (_, _, []) => lineErr e (f_line f0) ErrPlain
          | inr (ttl, class, ft :: rest) =>
              match Type_Parse (f_text ft) with
              | None => lineErr e (f_line ft) ErrPlain
              | Some t =>
                  if ttl <? 0 then lineErr e (f_line ft) ErrPlain
                  else match parseRData p t rest with
                       | Err err => lineErr e (f_line ft) err
                       | Ok rd => inr (append p (NewRecordClass owner class (seconds ttl) rd))
                       end
              end
          end
      end
  end.

(** [run]; every round but the last consumes a character. *)
Fixpoint run_loop (fuel : nat) (nested : settings -> parser -> failure + parser) (e : settings) (p : parser) : failure + parser :=
  match fuel with
  | O => inl OutOfFuel
  | S fuel =>
      match readLine (lex p) with
      | inl f => inl f
      | inr (fields, leadingWS, eof, l) =>
          let p := mkParser l (origin p) (defaultTTL p) (prevName p) (records p) in
          if eof && bool_decide (fields = []) then inr p
          else if bool_decide (fields = []) then run_loop fuel nested e p
          else match handleLine nested e p fields leadingWS with inl f => inl f | inr p => run_loop fuel nested e p end
      end
  end.
(** [run], with [depth] levels of includes left. *)
Fixpoint run (depth : nat) (e : settings) (p : parser) : failure + parser :=
  run_loop (2 + length (l_r (lex p))) (match depth with O => fun _ _ => inl OutOfFuel | S depth => run depth end) e p.

(** ** zonefile.go *)

Inductive Option_ :=
  | WithOrigin (n : Name) | WithDefaultTTL (seconds : Z) | WithGenerateMaxIterations (n : Z) | WithSourceName (name : bytes)
  | WithIncludeResolver (r : IncludeResolver) | WithIncludeMaxDepth (n : Z).
Definition applyOption (c : config) (o : Option_) : config :=
  let '(mkConfig og dt mg so re md) := c in
  match o with
  | WithOrigin n => mkConfig n dt mg so re md
  | WithDefaultTTL s => mkConfig og s mg so re md
  | WithGenerateMaxIterations n => mkConfig og dt n so re md
  | WithSourceName s => mkConfig og dt mg s re md
  | WithIncludeResolver r => mkConfig og dt mg so (Some r) md
  | WithIncludeMaxDepth n => mkConfig og dt mg so re n
  end.
Definition parseConfig (opts : list Option_) : config :=
  fold_left applyOption opts (mkConfig zeroName (-1) DefaultGenerateMaxIterations [] None DefaultIncludeMaxDepth).
(** [zonefile.Parse] *)
Definition ParseZone (r : bytes) (opts : list Option_) : failure + Zone :=
  let '(e, p) := newParser r (parseConfig opts) in
  match run (Z.to_nat (maxIncludeDepth e)) e p with
  | inl f => inl f
  | inr p => inr (mkZone (origin p) (records p))
  end.

(** ** writer.go *)

(** [int64(d.Seconds())] and [int(d.Seconds())]: the whole seconds.  (Seconds
    returns a float64, which may round other durations up.) *)
Definition wholeSeconds (d : Z) : Z := Z.quot d Second.

Definition quoteByte (c : Z) : bytes :=
  if (c =? 34) || (c =? 92) then [92; c] else if (c <? 0x20) || (0x7e <? c) then 92 :: fmt03 c else [c].
Definition quoteCharString (s : bytes) : bytes := [34] ++ concat (map quoteByte s) ++ [34].

Definition relativise (n origin : Name) : bytes :=
  if Equal n origin then [64]
  else let full := String_ n in
       match CutSuffix full (46 :: String_ origin) with Some before => before | None => full end.

(** The verbs joined by blanks. *)
Definition spaced (parts : list bytes) : bytes := joinWith 32 parts.
Definition genericForm (b : bytes) : bytes := str "\# " ++ Itoa (zlen b) ++ [32] ++ EncodeToString b.
Definition formatRDataPresentation (rd : RData) : bytes :=
  match rd with
  | RD_A a | RD_AAAA a => Addr_String a
  | RD_CNAME n | RD_NS n | RD_PTR n | RD_DNAME n => String_ n
  | RD_MX pref n => spaced [Itoa pref; String_ n]
  | RD_TXT strs => spaced (map quoteCharString strs)
  | RD_SOA mname rname serial refresh retry expire minimum =>
      spaced [String_ mname; String_ rname; [40; 10; 9; 9] ++ Itoa serial] ++ [9] ++ str "; serial" ++ [10; 9; 9]
      ++ Itoa (wholeSeconds refresh) ++ [9] ++ str "; refresh" ++ [10; 9; 9]
      ++ Itoa (wholeSeconds retry) ++ [9] ++ str "; retry" ++ [10; 9; 9]
      ++ Itoa (wholeSeconds expire) ++ [9] ++ str "; expire" ++ [10; 9; 9]
      ++ Itoa (wholeSeconds minimum) ++ str " )" ++ [9] ++ str "; minimum"
  | RD_CAA flags tag value => spaced [Itoa flags; tag; quoteCharString value]
  | RD_SRV priority weight port target => spaced [Itoa priority; Itoa weight; Itoa port; String_ target]
  | RD_DS keyTag alg dt digest => spaced [Itoa keyTag; Itoa alg; Itoa dt; EncodeToString digest]
  | RD_DNSKEY flags protocol alg key => spaced [Itoa flags; Itoa protocol; Itoa alg; b64Encode key]
  | RD_Unknown _ b => genericForm b
  | _ => genericForm (Packer.buf (RData.Pack rd (Packer.NewPacker [])))
  end.

(** [formatRecord]; a record without payload makes the type switch's fallback
    panic. *)
Definition formatRecord (rec : Record_) (origin : Name) : res bytes :=
  match r_rd rec with
  | None => Err Panic
  | Some rd => Ok (joinWith 9 [relativise (r_name rec) origin; Itoa (wholeSeconds (r_ttl rec)); Class_String (r_class rec);
                               Type_String (RType rec); formatRDataPresentation rd] ++ [10])
  end.

Fixpoint formatRecords (recs : list Record_) (origin : Name) : res bytes :=
  match recs with
  | [] => Ok []
  | r :: recs => let? s := formatRecord r origin in let? rest := formatRecords recs origin in Ok (s ++ rest)
  end.

(** [zonefile.Write], up to the error of the underlying writer. *)
Definition WriteZone (z : Zone) : res bytes :=
  let ttlLine :=
    match Zone_SOA z with
    | Some r => match r_rd r with
                | Some (RD_SOA _ _ _ _ _ _ minimum) =>
                    if 0 <? wholeSeconds minimum then str "$TTL " ++ Itoa (wholeSeconds minimum) ++ [10] else []
                | _ => []
                end
    | None => []
    end in
  let? body := formatRecords (z_records z) (z_origin z) in
  Ok (str "$ORIGIN " ++ String_ (z_origin z) ++ [10] ++ ttlLine ++ body).

(** ** include.go: the resolver over a file system *)

(** utf8.ValidString *)
Definition cont (lo hi c : Z) : bool := (lo <=? c) && (c <=? hi).
Fixpoint validUTF8 (s : bytes) : bool :=
  match s with
  | [] => true
  | a :: s =>
      if a <? 0x80 then validUTF8 s
      else match s with
      | b :: s =>
          if cont 0xc2 0xdf a then cont 0x80 0xbf b && validUTF8 s
          else match s with
          | c :: s =>
              let three := cont 0x80 0xbf c && validUTF8 s in
              if a =? 0xe0 then cont 0xa0 0xbf b && three
              else if a =? 0xed then cont 0x80 0x9f b && three
              else if cont 0xe1 0xef a then cont 0x80 0xbf b && three
              else match s with
              | d :: s =>
                  let four := cont 0x80 0xbf c && cont 0x80 0xbf d && validUTF8 s in
                  if a =? 0xf0 then cont 0x90 0xbf b && four
                  else if cont 0xf1 0xf3 a then cont 0x80 0xbf b && four
                  else if a =? 0xf4 then cont 0x80 0x8f b && four
                  else false
              | [] => false
              end
          | [] => false
          end
      | [] => false
      end
  end.

(** [strings.Split(name, "/")] *)
Fixpoint splitPath (s : bytes) : list bytes :=
  match s with
  | [] => [[]]
  | c :: s => if c =? 47 then [] :: splitPath s else match splitPath s with p :: ps => (c :: p) :: ps | [] => [[c]] end
  end.
(** [fs.ValidPath] *)
Definition ValidPath (name : bytes) : bool :=
  if negb (validUTF8 name) then false
  else bool_decide (name = [46]) ||
       forallb (fun elem => negb (bool_decide (elem = []) || bool_decide (elem = [46]) || bool_decide (elem = [46; 46]))) (splitPath name).

(** [path.Clean]: the elements kept, last first. *)
Fixpoint clean_loop (rooted : bool) (elems out : list bytes) : list bytes :=
  match elems with
  | [] => out
  | e :: elems =>
      clean_loop rooted elems
        (if bool_decide (e = []) || bool_decide (e = [46]) then out
         else if bool_decide (e = [46; 46]) then
           match out with
           | top :: out' => if bool_decide (top = [46; 46]) then e :: out else out'
           | [] => if rooted then [] else [e]
           end
         else e :: out)
  end.
Definition Clean (path : bytes) : bytes :=
  let rooted := HasPrefix path [47] in
  let body := joinWith 47 (rev (clean_loop rooted (splitPath path) [])) in
  let out := (if rooted then [47] else []) ++ body in
  if bool_decide (out = []) then [46] else out.
(** [path.Dir]: the part before the last slash, cleaned. *)
Definition Dir (path : bytes) : bytes :=
  let elems := splitPath path in Clean (concat (map (fun e => e ++ [47]) (take (length elems - 1) elems))).

Section FS.
(** [fsys.Open], with the contents of the file. *)
Context (open_ : bytes -> res bytes).
(** [fsIncludeResolver.ResolveInclude] *)
Definition fsResolveInclude : IncludeResolver := fun includer name =>
  if negb (ValidPath name) then Err ErrPlain
  else if existsb (fun e => bool_decide (e = [46; 46])) (splitPath name) then Err ErrPlain
  else
    let resolved := if negb (bool_decide (includer = [])) && negb (bool_decide (Dir includer = [46])) then Clean (Dir includer ++ [47] ++ name) else name in
    if negb (ValidPath resolved) then Err ErrPlain
    else let? contents := open_ resolved in Ok (contents, resolved).
End FS.
End zonefile.

(** ** classless.go *)
Module classless.
Definition reverseInAddr (a b c : Z) : res Name := Parse (joinWith 46 [Itoa c; Itoa b; Itoa a; str "in-addr"; str "arpa"]).

Definition one (parentRev subzoneOwner : Name) (ttl oct : Z) : res Record_ :=
  let? owner := Parse (Itoa oct ++ [46] ++ String_ parentRev) in
  let? target := Parse (Itoa oct ++ [46] ++ String_ subzoneOwner) in
  let? cname := NewCNAME target in
  Ok (NewRecord owner ttl cname).
Fixpoint all (parentRev subzoneOwner : Name) (ttl : Z) (octs : list Z) : res (list Record_) :=
  match octs with
  | [] => Ok []
  | oct :: octs => let? r := one parentRev subzoneOwner ttl oct in let? rest := all parentRev subzoneOwner ttl octs in Ok (r :: rest)
  end.
Definition BuildDelegationCNAMEs (prefix : Prefix) (subzoneOwner : Name) (ttl : Z) : res (list Record_) :=
  if negb (Is4 (pfx_addr prefix)) then Err ErrPlain
  else let bits := pfx_bits prefix in
  if (bits <? 25) || (31 <? bits) then Err ErrPlain
  else let first := As4 (pfx_addr prefix) in
  let count := 2 ^ (32 - bits) in
  let? parentRev := reverseInAddr (zget first 0) (zget first 1) (zget first 2) in
  all parentRev subzoneOwner ttl (map (fun i => zget first 3 + Z.of_nat i) (seq 0 (Z.to_nat count))).
End classless.
