(* ===== verification/ZonefileSound.v ===== *)
(** * Zone files: theorems

    The parser on every input: it ends, and what it returns is well-formed.
    [$GENERATE] makes the records of its range. *)

From Stdlib Require Import Strings.String.
From S2P Require Import Prelude Name Wire RData RDataCodec RDataRoundtrip Reader RDataReads RDataNew Message Netip Authoritative Text Zonefile.
Open Scope Z_scope.
Open Scope list_scope.
Import zonefile.

(** ** The lexer consumes its input *)

Lemma bytes_strong (P : bytes -> Prop) : (forall r, (forall q, (length q < length r)%nat -> P q) -> P r) -> forall r, P r.
Proof. intros H r. remember (length r) as n eqn:E. revert r E. induction n as [n IH] using lt_wf_ind. intros r ->. apply H. intros q Hq. by eapply IH. Qed.

Lemma skipComment_shorter r r' : skipComment r = Some r' -> (length r' < length r)%nat.
Proof. induction r as [|c r IH]; cbn; [done|]. destruct (c =? 10); [intros [= ->]; lia|]. intros H%IH. lia. Qed.

Lemma readWord_shorter r sb ln s r' : readWord r sb ln = inr (s, r') ->
  (length r' <= length r)%nat /\ (forall b q, r = b :: q -> endsWord b = false -> (length r' < length r)%nat).
Proof.
  revert sb. induction r as [r go] using bytes_strong. intros sb. destruct r as [|b r]; cbn [readWord]; [intros [= _ <-]; split; [done|discriminate]|].
  assert (forall sb', readWord r sb' ln = inr (s, r') -> (length r' < length (b :: r))%nat) as HR by (intros sb' [H _]%go; cbn in *; lia).
  destruct (endsWord b) eqn:E; [intros [= _ <-]; split; [done|intros ? ? [= -> ->]; congruence]|].
  intros H. enough (length r' < length (b :: r))%nat by (split; [lia|done]). destruct (b =? 92).
  - destruct r as [|c r]; [done|]. cbv zeta in H. destruct (_ <? _); [done|]. apply go in H as [H _]; cbn in *; lia.
  - cbv zeta in H. destruct (_ <? _); [done|]. by apply HR in H.
Qed.

Lemma readQuoted_shorter r sb ln s r' ln' : readQuoted r sb ln = inr (s, r', ln') -> (length r' < length r)%nat.
Proof.
  revert sb ln. induction r as [r go] using bytes_strong. intros sb ln. destruct r as [|b r]; cbn [readQuoted]; [done|]. destruct (b =? 34); [intros [= _ <- _]; cbn; lia|].
  assert (forall sb' ln0, readQuoted r sb' ln0 = inr (s, r', ln') -> (length r' < length (b :: r))%nat) as HR by (intros sb' ln0 H%go; cbn in *; lia).
  destruct (b =? 92).
  - destruct r as [|c r]; [done|]. destruct (isDigit c).
    + destruct r as [|d2 [|d3 r]]; [done..|]. destruct (readDecimalEscapeTail c d2 d3); [|done]. cbv zeta. destruct (_ <? _); [done|]. intros H%go; cbn in *; lia.
    + cbv zeta. destruct (_ <? _); [done|]. intros H%go; cbn in *; lia.
  - destruct (b =? 10); cbv zeta; (destruct (_ <? _); [done|]); apply HR.
Qed.

Definition isText (k : tokenKind) : bool := match k with tokWord | tokQuoted => true | _ => false end.

(** What [next] returns: a token that consumed something, the end of a line
    that had a token, or the end of the file; and never out of fuel. *)
Definition next_good (l : lexer) (r : failure + (token * bool * lexer)) : Prop :=
  match r with
  | inl f => exists ln, f = Lexical ln
  | inr (t, _, l') =>
      match kind t with
      | tokEOF => inLine l = false
      | tokEOL => inLine l = true /\ inLine l' = false /\ sawLeadingWS l' = false /\ (length (l_r l') <= length (l_r l))%nat
      | _ => inLine l' = true /\ (length (l_r l') < length (l_r l))%nat
      end
  end.

Lemma readWord_fails r sb ln f : readWord r sb ln = inl f -> f = Lexical ln.
Proof.
  revert sb. induction r as [r go] using bytes_strong. intros sb. destruct r as [|b r]; cbn [readWord]; [done|]. destruct (endsWord b); [done|]. destruct (b =? 92).
  - destruct r as [|c r]; [by intros [= <-]|]. cbv zeta. destruct (_ <? _); [by intros [= <-]|]. apply go; cbn; lia.
  - cbv zeta. destruct (_ <? _); [by intros [= <-]|]. apply go; cbn; lia.
Qed.
Lemma readQuoted_fails r sb ln f : readQuoted r sb ln = inl f -> exists ln', f = Lexical ln'.
Proof.
  revert sb ln. induction r as [r go] using bytes_strong. intros sb ln. destruct r as [|b r]; cbn [readQuoted]; [intros [= <-]; eauto|]. destruct (b =? 34); [done|]. destruct (b =? 92).
  - destruct r as [|c r]; [intros [= <-]; eauto|]. destruct (isDigit c).
    + destruct r as [|d2 [|d3 r]]; [intros [= <-]; eauto..|]. destruct (readDecimalEscapeTail c d2 d3); [|intros [= <-]; eauto].
      cbv zeta. destruct (_ <? _); [intros [= <-]; eauto|]. apply go; cbn; lia.
    + cbv zeta. destruct (_ <? _); [intros [= <-]; eauto|]. apply go; cbn; lia.
  - destruct (b =? 10); cbv zeta; (destruct (_ <? _); [intros [= <-]; eauto|]); apply go; cbn; lia.
Qed.

Lemma flushOnEOF_good l : next_good l (inr (flushOnEOF l)).
Proof. unfold flushOnEOF, next_good. destruct (inLine l) eqn:E; cbn; [split_and!; [done..|lia]|done]. Qed.

Lemma next_good_mono l l' r : (length (l_r l') <= length (l_r l))%nat -> inLine l' = inLine l -> next_good l' r -> next_good l r.
Proof.
  intros Hl HI. unfold next_good. destruct r as [f|[[t lws] l'']]; [done|]. rewrite HI. destruct (kind t); intros; destruct_and?; split_and?; try done; lia.
Qed.

Lemma next_loop_good fuel : forall l, (length (l_r l) < fuel)%nat -> next_good l (next_loop fuel l).
Proof.
  induction fuel as [|fuel IH]; intros [r ln d il ws] Hf; [lia|]. cbn [next_loop l_r] in *. destruct r as [|b r].
  { destruct (negb _); [by eexists|apply flushOnEOF_good]. }
  assert (forall r' ln' d' ws', (length r' <= length r)%nat -> next_good (mkLexer (b :: r) ln d il ws) (next_loop fuel (mkLexer r' ln' d' il ws'))) as Hstep.
  { intros r' ln' d' ws' Hr'. eapply next_good_mono; [| |apply IH]; cbn in *; [lia|done|lia]. }
  assert (forall r', (length r' <= length r)%nat -> next_good (mkLexer (b :: r) ln d il ws)
    (if (d =? 0) && il then inr (mkToken tokEOL [] ln, false, mkLexer r' (ln + 1) d false false) else next_loop fuel (mkLexer r' (ln + 1) d il ws))) as Hnl.
  { intros r' Hr'. destruct (_ && _) eqn:E; [|by apply Hstep]. apply andb_true_iff in E as [_ ->]. cbn. split_and!; [done..|lia]. }
  destruct (b =? 13) eqn:E13; [by apply Hstep|]. destruct (b =? 10) eqn:E10; [by apply Hnl|]. destruct (_ || _) eqn:EW; [by apply Hstep|].
  destruct (b =? 59) eqn:E59.
  { destruct (skipComment r) as [r'|] eqn:ES; [apply Hnl; apply skipComment_shorter in ES; lia|apply flushOnEOF_good]. }
  destruct (b =? 40) eqn:E40; [by apply Hstep|]. destruct (b =? 41) eqn:E41; [destruct (d =? 0); [by eexists|by apply Hstep]|]. destruct (b =? 34) eqn:E34.
  - destruct (readQuoted r [] ln) as [f|[[s r'] ln']] eqn:EQ; [by apply readQuoted_fails in EQ|]. apply readQuoted_shorter in EQ. cbn. split; [done|lia].
  - destruct (readWord (b :: r) [] ln) as [f|[s r']] eqn:EQ; [apply readWord_fails in EQ; by exists ln|]. apply readWord_shorter in EQ as [_ EQ].
    cbn -[length]. split; [done|]. apply (EQ b r); [done|]. unfold endsWord. apply orb_false_iff in EW as [-> ->]. by rewrite E10, E13, E59, E40, E41, E34.
Qed.
Lemma next_is_good l : next_good l (next l).
Proof. apply next_loop_good. lia. Qed.

(** A line: the end of the file, or fields and a shorter rest. *)
Lemma readLine_loop_good fuel : forall l out lead first, (length (l_r l) < fuel)%nat -> (inLine l = true -> out <> []) ->
  match readLine_loop fuel l out lead first with
  | inl f => exists ln, f = Lexical ln
  | inr (fields, _, eof, l') =>
      if eof then inLine l = false /\ fields = out
      else fields <> [] /\ inLine l' = false /\ sawLeadingWS l' = false /\ (length (l_r l') <= length (l_r l))%nat /\ (inLine l = false -> (length (l_r l') < length (l_r l))%nat)
  end.
Proof.
  induction fuel as [|fuel IH]; intros l out lead first Hf Hout; [lia|]. cbn [readLine_loop]. pose proof (next_is_good l) as HN. unfold next_good in HN.
  destruct (next l) as [f|[[t lws] l1]]; [done|]. destruct (kind t) eqn:EK.
  1-2: destruct HN as [HI HL]; specialize (IH l1 (out ++ [mkField (text t) (match kind t with tokQuoted => true | _ => false end) (line t)]) (if first then lws else lead) false);
    rewrite EK in IH; (destruct (readLine_loop _ _ _ _ _) as [f|[[[fields ld] eof] l']]; [apply IH; [lia|by destruct out]|]);
    (destruct eof; [destruct IH as [IH _]; [lia|by destruct out|congruence]|]; destruct IH as (? & ? & ? & ? & _); [lia|by destruct out|]; split_and!; [done..|lia|lia]).
  - destruct HN as (? & ? & ? & ?). split_and!; [by apply Hout|done..|congruence].
  - done.
Qed.
Lemma readLine_good l : inLine l = false ->
  match readLine l with
  | inl f => exists ln, f = Lexical ln
  | inr (fields, _, eof, l') => if eof then fields = [] else fields <> [] /\ inLine l' = false /\ sawLeadingWS l' = false /\ (length (l_r l') < length (l_r l))%nat
  end.
Proof.
  intros HI. pose proof (readLine_loop_good (2 + length (l_r l)) l [] false true ltac:(lia) ltac:(congruence)) as H. unfold readLine.
  destruct (readLine_loop _ _ _ _ _) as [f|[[[fields ld] [|]] l']]; [done|by destruct H|]. destruct H as (? & ? & ? & ? & ?). split_and!; auto.
Qed.

(** ** Errors *)

(** An error of the library: no panic, no loop bound of the model. *)
Definition plain (e : error) : Prop := exists len, err_ok len e.
Definition plainly {A} (r : res A) : Prop := forall e, r = Err e -> plain e.

Lemma plain_Err {A} e : err_ok 0 e -> plainly (Err (A := A) e).
Proof. intros H e' [= <-]. by exists 0. Qed.
Lemma plainly_Ok {A} (a : A) : plainly (Ok a).
Proof. done. Qed.
Lemma plainly_bind {A B} (r : res A) (k : A -> res B) : plainly r -> (forall a, plainly (k a)) -> plainly (res_bind r k).
Proof. intros Hr Hk e. destruct r as [a|e']; cbn; [apply Hk|]. intros [= <-]. by apply Hr. Qed.
Lemma plainly_must {A} (o : option A) : plainly (must o).
Proof. destruct o; [done|]. by apply plain_Err. Qed.
Ltac plain_steps := repeat first [done | apply plainly_bind; [|intros ?] | apply plainly_must | apply plainly_Ok | apply plain_Err; exact I | progress case_match].

Lemma appendLabel_plain l c : plainly (appendLabel l c).
Proof. unfold appendLabel. plain_steps. Qed.
Lemma flush_plain w l : plainly (flush w l).
Proof. unfold flush. plain_steps. Qed.
Lemma parse_loop_plain s : forall w label, plainly (parse_loop s w label).
Proof.
  induction s as [s go] using bytes_strong. intros w label. destruct s as [|c s]; cbn [parse_loop]; [plain_steps|].
  pose proof (appendLabel_plain label) as HA. pose proof (flush_plain w label) as HF.
  repeat first [done | apply plain_Err; exact I | (apply go; cbn; lia)
    | match goal with |- context [appendLabel ?l ?c] => specialize (HA c); destruct (appendLabel l c) as [?|?]; [|intros ? [= <-]; by apply HA] end
    | match goal with |- context [flush ?w ?l] => destruct (flush w l) as [?|?]; [|intros ? [= <-]; by apply HF] end
    | progress case_match].
Qed.
Lemma Parse_plain s : plainly (Parse s).
Proof.
  unfold Parse. destruct (_ =? 0); [by apply plain_Err|]. destruct (bool_decide _); [done|]. apply plainly_bind; [apply parse_loop_plain|]. intros [w label].
  apply plainly_bind; [destruct (0 <? _); [apply flush_plain|done]|]. intros w'. cbv zeta. plain_steps.
Qed.
Lemma resolveName_plain p s : plainly (resolveName p s).
Proof. unfold resolveName. repeat first [done | apply Parse_plain | apply plain_Err; exact I | progress case_match]. Qed.

Lemma DecodeString_bytes s : forall b, DecodeString s = Some b -> is_bytes b.
Proof.
  assert (forall c x, fromHex c = Some x -> 0 <= x <= 15) as HX.
  { intros c x. unfold fromHex, isDigit. intros H. repeat case_match; simplify_eq; bool_facts; repeat match goal with E : _ && _ = true |- _ => apply andb_true_iff in E as [? ?] end; bool_facts; lia. }
  induction s as [s go] using bytes_strong. intros b. destruct s as [|x [|y s]]; cbn [DecodeString]; [intros [= <-]; by apply Forall_nil_2|done|].
  destruct (fromHex x) as [vx|] eqn:Ex; [|done]. destruct (fromHex y) as [vy|] eqn:Ey; [|done]. destruct (DecodeString s) as [r|] eqn:Er; [|done].
  intros E. assert (b = 16 * vx + vy :: r) as -> by congruence. apply HX in Ex. apply HX in Ey. apply Forall_cons_2; [unfold u8; lia|]. apply (go s); [cbn; lia|done].
Qed.
Lemma parseGenericRData_plain t fields : plainly (parseGenericRData t fields).
Proof.
  unfold parseGenericRData. destruct fields as [|f fields]; [by apply plain_Err|]. apply plainly_bind; [apply plainly_must|]. intros n. destruct (n <? 0); [by apply plain_Err|].
  destruct (hexDecode _) as [payload|] eqn:EH; cbn [must res_bind]; [|by apply plain_Err]. destruct (negb _); [by apply plain_Err|].
  pose proof (reads_Unpack t (zlen payload) (Unpacker.mk payload 0)) as HU. destruct (RData.Unpack _ _ _) as [[rd|err] u']; [done|].
  destruct HU as (_ & _ & HU); [split; [by apply DecodeString_bytes in EH|cbn; pose proof (zlen_nonneg payload); lia]|]. intros e [= <-]. by exists (zlen payload).
Qed.
Lemma checkName_plain n rd : plainly (checkName n rd).
Proof. unfold checkName. plain_steps. Qed.
Lemma new_plain : (forall a, plainly (NewA a)) /\ (forall a, plainly (NewAAAA a)) /\ (forall n, plainly (NewNS n)) /\ (forall n, plainly (NewCNAME n)) /\ (forall n, plainly (NewPTR n)) /\
  (forall p n, plainly (NewMX p n)) /\ (forall l, plainly (NewTXT l)) /\ (forall a b c d e f g, plainly (NewSOA a b c d e f g)) /\ (forall a b c n, plainly (NewSRV a b c n)) /\
  (forall a b c, plainly (NewCAA a b c)) /\ (forall n, plainly (NewDNAME n)) /\ (forall a b c d, plainly (NewDS a b c d)) /\ (forall a b c d, plainly (NewDNSKEY a b c d)).
Proof. split_and!; intros; repeat (progress unfold NewA, NewAAAA, NewNS, NewCNAME, NewPTR, NewMX, NewTXT, NewSOA, NewSRV, NewCAA, NewDNAME, NewDS, NewDNSKEY, checkName; cbv zeta); plain_steps. Qed.
Lemma parseRData_plain p t fields : plainly (parseRData p t fields).
Proof.
  destruct new_plain as (H1 & H2 & H3 & H4 & H5 & H6 & H7 & H8 & H9 & H10 & H11 & H12 & H13). assert (forall f, plainly (parseSOATimer f)) as HT by (intros; unfold parseSOATimer; plain_steps).
  assert (plainly (parseTyped p t fields)).
  { unfold parseTyped, parseOneName, parseSOA, parseSRV, parseCAA, parseDNAME, parseDS, parseDNSKEY.
    repeat first [done | apply plainly_bind; [|intros ?] | apply plainly_must | apply resolveName_plain | apply HT | apply H1 | apply H2 | apply H3 | apply H4 | apply H5 | apply H6 | apply H7 | apply H8 | apply H9 | apply H10 | apply H11 | apply H12 | apply H13
      | apply plain_Err; exact I | progress case_match]. }
  unfold parseRData. destruct fields as [|f rest]; [done|]. destruct (bool_decide _); [apply parseGenericRData_plain|done].
Qed.

(** ** Every input *)

Section Sound.
(** The resolver of includes and the default TTL passed as an option. *)
Context (resolver : option IncludeResolver) (dflt : Z).

(** The failures there are: an error of the library or of the resolver; a
    [$GENERATE] whose values pass the largest integer; a field padded to more
    octets than can be allocated. *)
Fixpoint explained (f : failure) : Prop :=
  match f with
  | Lexical _ => True
  | AtLine _ _ cause => plain cause \/ exists resolve source name, resolver = Some resolve /\ resolve source name = Err cause
  | IncludedFrom f _ _ => explained f
  | Panicked n => maxAlloc < n
  | Endless _ stop step => maxInt64 < stop + step
  | OutOfFuel => False
  end.

Definition classes : list Z := [rrtype.ClassIN; rrtype.ClassCH; rrtype.ClassHS; rrtype.ClassANY; rrtype.ClassNONE].
(** A record as zone files have them: the TTL is in range or the one passed. *)
Definition validTTL (ttl : Z) : Prop := 0 <= ttl /\ (ttl <= maxTTL \/ ttl = dflt).
Definition typedRecord (r : Record_) : Prop :=
  (exists ttl, validTTL ttl /\ r_ttl r = seconds ttl) /\ r_class r ∈ classes /\ exists rd, r_rd r = Some rd.

(** The invariant of the parser. *)
Definition typed (p : parser) : Prop := (defaultTTL p <= maxTTL \/ defaultTTL p = dflt) /\ Forall typedRecord (records p).
Definition sound (p : parser) (r : failure + parser) : Prop :=
  match r with inl f => explained f | inr q => lex q = lex p /\ typed q end.

Lemma lineErr_sound p e ln err : err_ok 0 err -> sound p (lineErr e ln err).
Proof. left. by exists 0. Qed.
Lemma lineErr_plain {A} p e ln (r : res A) err : plainly r -> r = Err err -> sound p (lineErr e ln err).
Proof. left. by apply H. Qed.

Lemma parseClass_classes s c : parseClass s = Some c -> c ∈ classes.
Proof. unfold parseClass. intros H. repeat case_match; simplify_eq; set_solver. Qed.
Lemma ttlClass_good fields ttl class : match ttlClass fields ttl class with
  | inl _ => True
  | inr (ttl', class', _) => (ttl' = ttl \/ 0 <= ttl' <= maxTTL) /\ (class ∈ classes -> class' ∈ classes)
  end.
Proof.
  revert ttl class. induction fields as [|f fields IH]; intros ttl class; cbn [ttlClass]; [auto|]. destruct (negb _); [auto|].
  destruct (ParseInt _ _) as [t|].
  - destruct (_ || _) eqn:E; [done|]. apply orb_false_iff in E as [E1 E2]. bool_facts. specialize (IH t class).
    destruct (ttlClass _ _ _) as [|[[ttl' class'] rest]]; [done|]. destruct IH as [[->|?] ?]; auto with lia.
  - destruct (parseClass _) as [c|] eqn:EC; [|auto]. apply parseClass_classes in EC. specialize (IH ttl c).
    destruct (ttlClass _ _ _) as [|[[ttl' class'] rest]]; [done|]. destruct IH as [? ?]. auto.
Qed.

Lemma wrap64_id v : - 2 ^ 63 <= v < 2 ^ 63 -> wrap64 v = v.
Proof. intros H. unfold wrap64. rewrite Z.mod_small by lia. lia. Qed.
Lemma seconds_id ttl : 0 <= ttl <= maxTTL -> seconds ttl = ttl * Second.
Proof. unfold maxTTL, seconds, Second. intros H. apply wrap64_id. lia. Qed.

Lemma append_typed p owner class ttl rd : validTTL ttl -> class ∈ classes -> typed p -> typed (append p (NewRecordClass owner class (seconds ttl) rd)).
Proof.
  intros Ht Hc [? ?]. split; [done|]. cbn [append records]. apply Forall_app. split; [done|]. constructor; [|done].
  split_and!; [by exists ttl|done|by eexists].
Qed.
Lemma ttl_typed p ttl : (ttl = defaultTTL p \/ 0 <= ttl <= maxTTL) -> (ttl <? 0) = false -> typed p -> validTTL ttl.
Proof. intros H Hn [? _]. bool_facts. split; [lia|]. destruct H as [->|?]; [done|left; lia]. Qed.

(** *** $GENERATE *)

Lemma padded_explained spec v n : formatGenerateSubst spec v = inl (RepeatPanics n) -> maxAlloc < n.
Proof. unfold formatGenerateSubst. intros H. repeat case_match; simplify_eq; bool_facts; done. Qed.
Lemma substitute_explained template v n : substituteGenerate template v = inl (RepeatPanics n) -> maxAlloc < n.
Proof.
  unfold substituteGenerate. generalize (length template) as fuel. intros fuel. revert template.
  induction fuel as [|fuel IH]; intros template; [by destruct template|]. destruct template as [|c rest]; [done|]. cbn [substitute_loop].
  assert (forall out rest, match substitute_loop fuel rest v with inl e => inl e | inr more => inr (out ++ more) end = inl (RepeatPanics n) -> maxAlloc < n) as HA.
  { intros out rest'. destruct (substitute_loop fuel rest' v) as [e|] eqn:E; [|done]. intros [= ->]. by apply IH in E. }
  intros H. cbv zeta in H. repeat (case_match; try (by apply HA in H)); simplify_eq. by eapply padded_explained.
Qed.
Lemma substituteAll_explained toks v n : substituteAll toks v = inl (RepeatPanics n) -> maxAlloc < n.
Proof.
  induction toks as [|t toks IH]; cbn [substituteAll]; [done|]. destruct (substituteGenerate _ v) as [e|] eqn:E; [intros [= ->]; by apply substitute_explained in E|].
  destruct (substituteAll toks v) as [e|]; [|done]. intros [= ->]. by apply IH.
Qed.
Lemma substFailure_sound p e ln err : (forall n, err = RepeatPanics n -> maxAlloc < n) -> sound p (substFailure e ln err).
Proof. destruct err as [|n]; [intros; by apply lineErr_sound|]. intros H. by apply H. Qed.

Lemma generateOne_sound e p ln lhs ttl class t rhs v : typed p -> validTTL ttl -> class ∈ classes -> sound p (generateOne e p ln lhs ttl class t rhs v).
Proof.
  intros Hp Ht Hc. unfold generateOne. destruct (substituteGenerate lhs v) as [err|s] eqn:E1; [apply substFailure_sound; intros n ->; by apply substitute_explained in E1|].
  destruct (resolveName p s) as [owner|] eqn:ER; [|by eapply lineErr_plain; [apply resolveName_plain|]].
  destruct (substituteAll rhs v) as [err|toks] eqn:E2; [apply substFailure_sound; intros n ->; by apply substituteAll_explained in E2|].
  destruct (parseRData p t toks) as [rd|] eqn:EP; [|by eapply lineErr_plain; [apply parseRData_plain|]]. split; [done|]. by apply append_typed.
Qed.

(** [n] rounds of a loop that goes on. *)
Inductive goes {R St} (body : St -> R + St) : nat -> St -> St -> Prop :=
  | goes_O s : goes body 0 s s
  | goes_S n s s' s'' : body s = inr s' -> goes body n s' s'' -> goes body (S n) s s''.
Lemma goes_app {R St} (body : St -> R + St) n m s s' s'' : goes body n s s' -> goes body m s' s'' -> goes body (n + m) s s''.
Proof. induction 1; [done|]. intros. cbn. econstructor; [done|auto]. Qed.
Lemma rounds_goes {R St} (body : St -> R + St) n : forall s,
  match rounds n body s with
  | inl r => exists k s', goes body k s s' /\ body s' = inl r
  | inr s' => goes body (Pos.to_nat n) s s'
  end.
Proof.
  assert (forall m s, (forall s, match rounds m body s with inl r => exists k s', goes body k s s' /\ body s' = inl r | inr s' => goes body (Pos.to_nat m) s s' end) ->
    match match rounds m body s with inl r => inl r | inr s => rounds m body s end with inl r => exists k s', goes body k s s' /\ body s' = inl r | inr s' => goes body (Pos.to_nat m + Pos.to_nat m) s s' end) as H2.
  { intros m s H. pose proof (H s) as Hs. destruct (rounds m body s) as [r|s1]; [done|]. specialize (H s1). destruct (rounds m body s1) as [r|s2]; [|by eapply goes_app].
    destruct H as (k & s' & Hg & E). exists (Pos.to_nat m + k)%nat, s'. split; [by eapply goes_app|done]. }
  induction n as [n IH|n IH|]; intros s; cbn [rounds].
  - destruct (body s) as [r|s1] eqn:E; [exists 0%nat, s; split; [constructor|done]|]. specialize (H2 n s1 IH). destruct (match rounds n body s1 with inl r => _ | inr _ => _ end) as [r|s2].
    + destruct H2 as (k & s' & Hg & E'). exists (S k), s'. split; [by econstructor|done].
    + rewrite Pos2Nat.inj_xI. replace (S (2 * _)) with (S (Pos.to_nat n + Pos.to_nat n)) by lia. by econstructor.
  - specialize (H2 n s IH). destruct (match rounds n body s with inl r => _ | inr _ => _ end); [done|]. rewrite Pos2Nat.inj_xO. by replace (2 * _)%nat with (Pos.to_nat n + Pos.to_nat n)%nat by lia.
  - destruct (body s) as [r|s1] eqn:E; [exists 0%nat, s; split; [constructor|done]|]. econstructor; [done|constructor].
Qed.

(** The values of a range that does not pass the largest integer. *)
Definition inRange (g : generateRange) : Prop := 0 <= g_start g <= g_stop g /\ 0 < g_step g /\ g_stop g + g_step g <= maxInt64.
Lemma goes_inRange one g n v p v' p' : inRange g -> goes (generate_round one g) n (v, p) (v', p') -> g_start g <= v <= g_stop g -> v' = v + Z.of_nat n * g_step g /\ g_start g <= v' <= g_stop g.
Proof.
  intros (Hs & Hst & Hm) H. remember (v, p) as s eqn:E. remember (v', p') as s' eqn:E'. revert v p E E'. induction H as [s|n s s1 s2 E1 _ IH]; intros v p -> E'; [injection E' as <- <-; lia|].
  intros Hv. cbn [generate_round] in E1. destruct (one p v) as [f|q]; [done|]. destruct (_ =? _) eqn:Ea; [done|]. unfold maxInt64 in Hm. rewrite wrap64_id in E1 by lia.
  destruct (_ <? _) eqn:Eb; [done|]. bool_facts. injection E1 as <-. destruct (IH _ _ eq_refl E') as [-> ?]; lia.
Qed.

Lemma goes_typed one g n s s' : (forall q v, typed q -> sound q (one q v)) -> goes (generate_round one g) n s s' -> typed s.2 -> typed s'.2 /\ lex s'.2 = lex s.2.
Proof.
  intros H. induction 1 as [s|n [v p] s1 s2 E1 _ IH]; [done|]. intros Hp. cbn [generate_round snd] in *. specialize (H p v Hp). destruct (one p v) as [f|q]; [done|].
  destruct (_ =? _); [done|]. destruct (_ <? _); [done|]. injection E1 as <-. destruct H as [<- Hq]. auto.
Qed.
(** The loop ends as [one] does; it goes on only past the largest integer. *)
Lemma generate_loop_sound one g p : 0 <= g_start g <= g_stop g -> 0 < g_step g -> typed p -> (forall q v, typed q -> sound q (one q v)) ->
  sound p (generate_loop generateRounds one g (g_start g) p).
Proof.
  intros Hs Hst Hp H. unfold generate_loop. pose proof (rounds_goes (generate_round one g) generateRounds (g_start g, p)) as HR. destruct (rounds _ _ _) as [r|[v' p']].
  - destruct HR as (k & [v q] & Hg & E). apply (goes_typed one g) in Hg as [Hq Hl]; [|done..]. cbn [snd] in *. cbn [generate_round] in E. specialize (H q v Hq).
    destruct (one q v) as [f|q']; [by injection E as <-|]. assert (r = inr q') as -> by (destruct (_ =? _); [congruence|]; destruct (_ <? _); congruence). unfold sound in *. by rewrite <- Hl.
  - cbn [sound explained]. destruct (decide (g_stop g + g_step g <= maxInt64)) as [Hm|]; [|lia]. exfalso. apply goes_inRange in HR as [-> HR]; [|done|lia].
    rewrite positive_nat_Z in HR. unfold generateRounds in HR. change (Z.pos (2 ^ 64)) with 18446744073709551616 in HR. unfold maxInt64 in Hm. nia.
Qed.

Lemma parseUint_nonneg maxVal s : forall n v, 0 <= n -> parseUint_loop maxVal n s = Some v -> 0 <= v.
Proof.
  induction s as [|c s IH]; intros n v Hn; cbn; [intros [= <-]; done|]. destruct (isDigit c) eqn:E; [|done]. destruct (_ <? _); [done|]. apply IH. unfold isDigit in E. apply andb_true_iff in E as [? ?]. bool_facts. lia.
Qed.
Lemma Atoi_max s v : Atoi s = Some v -> v <= maxInt64.
Proof.
  unfold Atoi, ParseInt, maxInt64. destruct s as [|c s]; [done|]. destruct (if c =? 43 then _ else _) as [neg digits]. destruct (ParseUint digits 64) as [un|] eqn:EU; [|done].
  assert (0 <= un) by (unfold ParseUint in EU; destruct digits; [done|]; by eapply parseUint_nonneg in EU). cbv zeta. destruct neg; cbn [negb andb]; [destruct (_ <? _)|destruct (_ <=? _) eqn:E]; try done; intros [= <-]; bool_facts; [lia|].
  change (2 ^ (64 - 1)) with 9223372036854775808 in E. lia.
Qed.
Lemma parseGenerateRange_spec s g : parseGenerateRange s = Some g -> 0 <= g_start g <= g_stop g /\ 0 < g_step g /\ g_stop g <= maxInt64.
Proof.
  unfold parseGenerateRange. intros H. pose proof Atoi_max as HA. repeat case_match; simplify_eq; cbn; repeat match goal with E : _ || _ = false |- _ => apply orb_false_iff in E as [? ?] end; bool_facts; (split_and!; [lia..|by eapply HA]).
Qed.

Lemma handleGenerate_sound e p fields : typed p -> fields <> [] -> sound p (handleGenerate e p fields).
Proof.
  intros Hp Hne. unfold handleGenerate. destruct fields as [|f0 [|f1 [|f2 rest]]]; try (done || by apply lineErr_sound). destruct (_ <? _); [by apply lineErr_sound|].
  destruct (parseGenerateRange (f_text f1)) as [g|] eqn:EG; [|by apply lineErr_sound]. destruct (_ <? _); [by apply lineErr_sound|].
  pose proof (ttlClass_good rest (defaultTTL p) rrtype.ClassIN) as HT. destruct (ttlClass _ _ _) as [ln|[[ttl class] rest']]; [by apply lineErr_sound|]. destruct HT as [HT HC].
  destruct rest' as [|ft rhs]; [by apply lineErr_sound|]. destruct (Type_Parse _) as [t|]; [|by apply lineErr_sound]. destruct (ttl <? 0) eqn:EN; [by apply lineErr_sound|].
  apply parseGenerateRange_spec in EG as (Hs & Hst & _). apply generate_loop_sound; [done..|]. intros q v Hq. apply generateOne_sound; [done|by eapply ttl_typed|apply HC; by left].
Qed.

(** *** Lines and files *)

Section Nested.
Context (nested : settings -> parser -> failure + parser) (d : Z).
Hypothesis nested_sound : forall e p, includeResolver e = resolver -> 0 <= maxIncludeDepth e - includeDepth e <= d -> inLine (lex p) = false -> typed p -> match nested e p with inl f => explained f | inr q => typed q end.

Lemma handleInclude_sound e p fields : includeResolver e = resolver -> maxIncludeDepth e - includeDepth e <= d + 1 -> typed p -> fields <> [] -> sound p (handleInclude nested e p fields).
Proof.
  intros He Hd Hp Hne. unfold handleInclude. destruct fields as [|f0 args]; [done|]. cbv zeta. destruct (includeResolver e) as [resolve|] eqn:ER; [|by apply lineErr_sound].
  destruct args as [|f1 dom]; [by apply lineErr_sound|]. destruct (_ <? _); [by apply lineErr_sound|]. destruct (maxIncludeDepth e <=? includeDepth e) eqn:ED; [by apply lineErr_sound|]. bool_facts.
  destruct (match dom with f2 :: _ => Parse (f_text f2) | [] => _ end) as [org|] eqn:EO; [|left; destruct dom; [done|]; by eapply Parse_plain].
  destruct (resolve _ _) as [[rc canonical]|] eqn:EF; [|right; by exists resolve, (source e), (f_text f1)]. cbv zeta.
  match goal with |- context [nested ?e' ?p'] => pose proof (nested_sound e' p') as HN end. destruct Hp as [Hp1 Hp2].
  destruct (nested _ _) as [f|q].
  - apply HN; cbn; [done|lia|done|]. by split.
  - split; [done|]. split; [done|]. cbn [records]. apply Forall_app. split; [done|]. apply HN; cbn; [done|lia|done|]. by split.
Qed.

Lemma handleDirective_sound e p fields : includeResolver e = resolver -> maxIncludeDepth e - includeDepth e <= d + 1 -> typed p -> fields <> [] -> sound p (handleDirective nested e p fields).
Proof.
  intros He Hd Hp Hne. unfold handleDirective. destruct fields as [|f0 args]; [done|]. cbv zeta. destruct (bool_decide _).
  { destruct args as [|a [|]]; try by apply lineErr_sound. destruct (Parse _) eqn:EP; [done|]. eapply lineErr_plain; [apply Parse_plain|done]. }
  destruct (bool_decide _).
  { destruct args as [|a [|]]; try by apply lineErr_sound. destruct (ParseInt _ _) as [v|]; [|by apply lineErr_sound]. destruct (_ || _) eqn:E; [by apply lineErr_sound|]. apply orb_false_iff in E as [E1 E2]. bool_facts.
    split; [done|]. destruct Hp. split; [by left|done]. }
  destruct (bool_decide _); [by apply handleGenerate_sound|]. destruct (bool_decide _); [by apply handleInclude_sound|by apply lineErr_sound].
Qed.

Lemma handleLine_sound e p fields ws : includeResolver e = resolver -> maxIncludeDepth e - includeDepth e <= d + 1 -> typed p -> fields <> [] -> sound p (handleLine nested e p fields ws).
Proof.
  intros He Hd Hp Hne. unfold handleLine. destruct fields as [|f0 fs]; [done|]. destruct (HasPrefix _ _); [by apply handleDirective_sound|]. destruct (_ && _); [by apply lineErr_sound|].
  destruct (if ws then _ else _) as [ownerText fields]. destruct (resolveName p ownerText) as [owner|] eqn:ER; [|by eapply lineErr_plain; [apply resolveName_plain|]].
  pose proof (ttlClass_good fields (defaultTTL p) rrtype.ClassIN) as HT. destruct (ttlClass _ _ _) as [ln|[[ttl class] rest]]; [by apply lineErr_sound|]. destruct HT as [HT HC].
  destruct rest as [|ft rest]; [by apply lineErr_sound|]. destruct (Type_Parse _) as [t|]; [|by apply lineErr_sound]. destruct (ttl <? 0) eqn:EN; [by apply lineErr_sound|].
  destruct (parseRData _ _ _) as [rd|] eqn:EP; [|by eapply lineErr_plain; [apply parseRData_plain|]].
  split; [done|]. apply append_typed; [by eapply ttl_typed|apply HC; by left|done].
Qed.

Lemma run_loop_sound fuel : forall e p, includeResolver e = resolver -> maxIncludeDepth e - includeDepth e <= d + 1 -> (length (l_r (lex p)) < fuel)%nat -> inLine (lex p) = false -> typed p ->
  match run_loop fuel nested e p with inl f => explained f | inr q => typed q end.
Proof.
  induction fuel as [|fuel IH]; intros e p He Hd Hf HI Hp; [lia|]. cbn [run_loop]. pose proof (readLine_good (lex p) HI) as HR.
  destruct (readLine (lex p)) as [f|[[[fields ws] eof] l]]; [by destruct HR as [ln ->]|]. cbv zeta. destruct eof.
  - subst fields. by rewrite bool_decide_eq_true_2.
  - destruct HR as (Hne & HI' & _ & Hl). rewrite bool_decide_eq_false_2 by done. cbn [andb].
    match goal with |- context [handleLine nested e ?p' fields ws] => pose proof (handleLine_sound e p' fields ws He Hd Hp Hne) as HL end.
    destruct (handleLine _ _ _ _ _) as [f|q]; [done|]. destruct HL as [HL Hq]. apply IH; rewrite ?HL; cbn; [done|done|lia|done|done].
Qed.
End Nested.

Lemma run_sound depth : forall e p, includeResolver e = resolver -> maxIncludeDepth e - includeDepth e <= Z.of_nat depth -> inLine (lex p) = false -> typed p ->
  match run depth e p with inl f => explained f | inr q => typed q end.
Proof.
  induction depth as [|depth IH]; intros e p He Hd HI Hp; cbn [run].
  - apply (run_loop_sound _ (-1)); [intros; lia|done|lia|lia|done..].
  - apply (run_loop_sound _ (Z.of_nat depth)); [intros e' p' ? [_ ?] ? ?; by apply IH|done|lia|lia|done..].
Qed.
End Sound.

Lemma newParser_run r c : let '(e, p) := newParser r c in
  match run (Z.to_nat (maxIncludeDepth e)) e p with inl f => explained (c_includeResolver c) f | inr q => typed (c_defaultTTL c) q end.
Proof.
  cbn [newParser]. cbv zeta. apply run_sound; cbn; [done|case_match; bool_facts; [by vm_compute|lia]|done|]. split; [by right|done].
Qed.

(** C36. Parsing ends on every input, whatever files [$INCLUDE] leads to: it
    returns a zone, or an error of the lexer, of the library (at any depth of
    wrapping neither a panic nor an exhausted loop bound) or of the resolver of
    includes; it panics only when a [$GENERATE] field is padded to more octets
    than can be allocated; and it goes on for ever only in a [$GENERATE] whose
    last value plus its step passes the largest integer. *)
Theorem zonefile_total r opts : match ParseZone r opts with inl f => explained (c_includeResolver (parseConfig opts)) f | inr _ => True end.
Proof.
  unfold ParseZone. pose proof (newParser_run r (parseConfig opts)) as H. destruct (newParser _ _) as [e p].
  by destruct (run _ e p).
Qed.

(** C38. In a zone that was parsed every record has a payload, one of the five
    classes, and as its TTL a number of seconds between 0 and 2^31 - 1 or the
    default that the caller passed as an option, which is not checked against
    that limit. *)
Theorem zonefile_typed r opts z : ParseZone r opts = inr z -> Forall (typedRecord (c_defaultTTL (parseConfig opts))) (z_records z).
Proof.
  unfold ParseZone. pose proof (newParser_run r (parseConfig opts)) as H. destruct (newParser _ _) as [e p].
  destruct (run _ e p) as [f|q]; [done|]. intros [= <-]. by apply H.
Qed.

(** *** What [$GENERATE] makes *)

(** The fields before the type: each a TTL or a class, the last of each counts,
    and nothing is read after a class other than IN. *)
Definition numberOf (f : fieldTok) : option Z := ParseInt (f_text f) 64.
Definition classOf (f : fieldTok) : option Z := match numberOf f with Some _ => None | None => parseClass (f_text f) end.
Definition header (opts : list fieldTok) (ft : fieldTok) (dflt ttl class : Z) : Prop :=
  Forall (fun f => (exists n, numberOf f = Some n /\ 0 <= n <= maxTTL) \/ exists c, classOf f = Some c) opts /\
  ttl = default dflt (last (omap numberOf opts)) /\ class = default rrtype.ClassIN (last (omap classOf opts)) /\
  Forall (fun f => forall c, classOf f = Some c -> c = rrtype.ClassIN) (removelast opts) /\
  (class = rrtype.ClassIN -> numberOf ft = None /\ classOf ft = None).

Lemma last_default {A} (d x : A) l : default d (last (x :: l)) = default x (last l).
Proof. by rewrite last_cons; destruct (last l). Qed.
Lemma ttlClass_header fields : forall ttl0 ttl class ft rhs, ttlClass fields ttl0 rrtype.ClassIN = inr (ttl, class, ft :: rhs) ->
  exists opts, fields = opts ++ ft :: rhs /\ header opts ft ttl0 ttl class.
Proof.
  induction fields as [|f fields IH]; intros ttl0 ttl class ft rhs; cbn [ttlClass]; [done|]. rewrite Z.eqb_refl. cbn [negb]. destruct (ParseInt (f_text f) 64) as [n|] eqn:EN.
  - destruct (_ || _) eqn:E; [done|]. apply orb_false_iff in E as [E1 E2]. bool_facts. intros (opts & -> & H1 & H2 & H3 & H4 & H5)%IH. exists (f :: opts). split; [done|].
    assert (numberOf f = Some n) as Hn by done. assert (classOf f = None) as Hc by (unfold classOf; by rewrite Hn).
    split_and!; [by apply Forall_cons_2; [left; exists n|]|cbn [omap list_omap]; by rewrite Hn, last_default|cbn [omap list_omap]; by rewrite Hc| |done].
    destruct opts; [done|]. apply Forall_cons_2; [by rewrite Hc|done].
  - assert (numberOf f = None) as Hn by done. assert (classOf f = parseClass (f_text f)) as Hc by (unfold classOf; by rewrite Hn).
    destruct (parseClass (f_text f)) as [c|] eqn:EC.
    + destruct (decide (c = rrtype.ClassIN)) as [->|Hne].
      * intros (opts & -> & H1 & H2 & H3 & H4 & H5)%IH. exists (f :: opts). split; [done|].
        split_and!; [by apply Forall_cons_2; [right; eauto|]|cbn [omap list_omap]; by rewrite Hn|cbn [omap list_omap]; by rewrite Hc, last_default| |done].
        destruct opts; [done|]. apply Forall_cons_2; [rewrite Hc; congruence|done].
      * destruct fields as [|f' fields]; cbn [ttlClass]; [done|]. rewrite (proj2 (Z.eqb_neq _ _)) by done. cbn [negb]. intros [= <- <- <- <-]. exists [f]. split; [done|].
        split_and!; [apply Forall_singleton; right; eauto|cbn; by rewrite Hn|cbn; by rewrite Hc|apply Forall_nil_2|done].
    + intros [= <- <- <- <-]. exists []. split; [done|]. split_and!; [apply Forall_nil_2|done|done|apply Forall_nil_2|done].
Qed.

(** The parser's state when the owner before was [prev]. *)
Definition after (p : parser) (prev : Name) : parser := mkParser (lex p) (origin p) (defaultTTL p) prev (records p).
(** The record [r] for the value [v]: of the owner and the tokens of the
    payload with the value put in. *)
Definition made (p : parser) (lhs : bytes) (ttl class t : Z) (rhs : list fieldTok) (prev : Name) (v : Z) (r : Record_) : Prop :=
  exists s toks owner rd, substituteGenerate lhs v = inr s /\ resolveName (after p prev) s = Ok owner /\
    substituteAll rhs v = inr toks /\ parseRData (after p prev) t toks = Ok rd /\ r = NewRecordClass owner class (seconds ttl) rd.
(** The records for the values, in order. *)
Fixpoint madeAll (one : Name -> Z -> Record_ -> Prop) (prev : Name) (vs : list Z) (recs : list Record_) : Prop :=
  match vs, recs with
  | [], [] => True
  | v :: vs, r :: recs => one prev v r /\ madeAll one (r_name r) vs recs
  | _, _ => False
  end.
(** The loop ends at [v]. *)
Definition ends (g : generateRange) (v : Z) : Prop := v = g_stop g \/ g_stop g < wrap64 (v + g_step g).
Definition values (g : generateRange) (n : nat) : list Z := map (fun i => wrap64 (g_start g + Z.of_nat i * g_step g)) (seq 0 n).

Lemma resolveName_after p q s : origin p = origin q -> prevName p = prevName q -> resolveName p s = resolveName q s.
Proof. unfold resolveName. by intros -> ->. Qed.
Lemma parseRData_after p q t fields : origin p = origin q -> prevName p = prevName q -> parseRData p t fields = parseRData q t fields.
Proof.
  destruct p as [lp op dp pp rp], q as [lq oq dq pq rq]. cbn. intros -> ->. reflexivity.
Qed.
Lemma generateOne_made e p ln lhs ttl class t rhs v q : generateOne e p ln lhs ttl class t rhs v = inr q ->
  exists r, q = append p r /\ made p lhs ttl class t rhs (prevName p) v r.
Proof.
  unfold generateOne, lineErr, substFailure. intros H. destruct (substituteGenerate lhs v) as [err|s] eqn:E1; [by destruct err|]. destruct (resolveName p s) as [owner|] eqn:E2; [|done].
  destruct (substituteAll rhs v) as [err|toks] eqn:E3; [by destruct err|]. destruct (parseRData p t toks) as [rd|] eqn:E4; [|done].
  injection H as <-. eexists. split; [reflexivity|]. exists s, toks, owner, rd. split_and!; [done|by rewrite (resolveName_after _ p)|done|by rewrite (parseRData_after _ p)|done].
Qed.
Lemma made_ext p q lhs ttl class t rhs prev v r : origin p = origin q -> made p lhs ttl class t rhs prev v r -> made q lhs ttl class t rhs prev v r.
Proof.
  intros Ho (s & toks & owner & rd & H1 & H2 & H3 & H4 & H5). exists s, toks, owner, rd. split_and!; [done|by rewrite (resolveName_after _ (after p prev))|done|by rewrite (parseRData_after _ (after p prev))|done].
Qed.
Lemma madeAll_ext (P Q : Name -> Z -> Record_ -> Prop) prev vs recs : (forall n v r, P n v r -> Q n v r) -> madeAll P prev vs recs -> madeAll Q prev vs recs.
Proof. intros H. revert prev recs. induction vs as [|v vs IH]; intros prev [|r recs]; cbn; try done. intros [? ?]. auto. Qed.

(** A run of the loop from the value [v]. *)
Lemma wrap64_add a b : wrap64 (wrap64 a + b) = wrap64 (a + b).
Proof.
  unfold wrap64. set (M := 2 ^ 64). set (h := 2 ^ 63). replace ((a + h) mod M - h + b + h) with ((a + h) mod M + b) by lia. rewrite Zplus_mod_idemp_l. do 2 f_equal. lia.
Qed.
Lemma goes_made e ln lhs ttl class t rhs g n : forall v p v' p' q, let one := fun p v => generateOne e p ln lhs ttl class t rhs v in
  goes (generate_round one g) n (wrap64 v, p) (v', p') -> generate_round one g (v', p') = inl (inr q) ->
  exists recs, let vs := map (fun i => wrap64 (v + Z.of_nat i * g_step g)) (seq 0 (S n)) in
    records q = records p ++ recs /\ madeAll (made p lhs ttl class t rhs) (prevName p) vs recs /\
    Forall (fun v => ~ ends g v) (removelast vs) /\ ends g (List.last vs 0).
Proof.
  induction n as [|n IH]; intros v p v' p' q one Hg HE; inversion Hg as [|? ? [v1 p1] ? E1 Hg']; subst.
  - cbn [generate_round] in HE. destruct (one _ (wrap64 v)) as [f|q'] eqn:E; [done|]. assert (q' = q) as -> by (destruct (_ =? _); [congruence|]; destruct (_ <? _); congruence).
    apply generateOne_made in E as (r & -> & Hr). exists [r]. cbn [map seq removelast List.last]. replace (v + Z.of_nat 0 * g_step g) with v by lia.
    split_and!; [done|done|apply Forall_nil_2|]. destruct (_ =? _) eqn:Ea; bool_facts; [by left|]. destruct (_ <? _) eqn:Eb; [|done]. bool_facts. by right.
  - cbn [generate_round] in E1. destruct (one _ (wrap64 v)) as [f|q'] eqn:E; [done|]. destruct (_ =? _) eqn:Ea; [done|]. destruct (_ <? _) eqn:Eb; [done|]. bool_facts.
    injection E1 as <- <-. rewrite wrap64_add in Hg'. destruct (IH _ _ _ _ q Hg' HE) as (recs & H1 & H2 & H3 & H4). apply generateOne_made in E as (r & -> & Hr).
    exists (r :: recs). assert (map (fun i => wrap64 (v + Z.of_nat i * g_step g)) (seq 0 (S (S n))) = wrap64 v :: map (fun i => wrap64 (v + g_step g + Z.of_nat i * g_step g)) (seq 0 (S n))) as ->.
    { cbn [seq map]. replace (v + Z.of_nat 0 * g_step g) with v by lia. f_equal. rewrite <- !seq_shift, !map_map. f_equal; [f_equal; lia|]. apply map_ext. intros i. f_equal. lia. }
    cbv zeta. set (vs := map _ _) in *. assert (vs <> []) as Hne by (unfold vs; by rewrite <- cons_seq). split_and!.
    + rewrite H1. cbn. by rewrite <- app_assoc.
    + cbn [madeAll]. split; [done|]. eapply madeAll_ext; [|exact H2]. intros ? ? ?. by apply made_ext.
    + destruct vs as [|v1 vs]; [done|]. cbn [removelast] in *. apply Forall_cons_2; [|done]. unfold ends. lia.
    + destruct vs; [done|exact H4].
Qed.

(** C37. A [$GENERATE] that succeeds appends one record for each value of its
    loop, in order.  Owner and payload are those its templates give for the
    value; TTL, class and type are those of its fields, with the file's default
    TTL and IN if there are none.  The values go up from the start by the step,
    in 64 bits, and the last is the first that is the stop or from which a step
    leads past it; if no sum passes the largest integer there are
    (stop - start) / step + 1 of them, and no more than the limit says. *)
Theorem generate_exact e p f0 f1 f2 rest g q : parseGenerateRange (f_text f1) = Some g -> handleGenerate e p (f0 :: f1 :: f2 :: rest) = inr q ->
  exists opts ft rhs ttl class t recs,
    rest = opts ++ ft :: rhs /\ header opts ft (defaultTTL p) ttl class /\ 0 <= ttl /\ Type_Parse (f_text ft) = Some t /\
    records q = records p ++ recs /\ madeAll (made p (f_text f2) ttl class t rhs) (prevName p) (values g (length recs)) recs /\
    Forall (fun v => ~ ends g v) (removelast (values g (length recs))) /\ ends g (List.last (values g (length recs)) 0) /\
    (g_stop g + g_step g <= maxInt64 -> zlen recs = (g_stop g - g_start g) / g_step g + 1 /\ zlen recs <= maxGenerateIterations e).
Proof.
  intros EG. unfold handleGenerate. destruct (_ <? _); [done|]. rewrite EG. apply parseGenerateRange_spec in EG as (Hs & Hst & Hmax).
  destruct (_ <? _) eqn:EL; [done|]. bool_facts. destruct (ttlClass _ _ _) as [ln|[[ttl class] rest']] eqn:ET; [done|]. destruct rest' as [|ft rhs]; [done|].
  apply ttlClass_header in ET as (opts & -> & Hh). destruct (Type_Parse _) as [t|] eqn:Et; [|done]. destruct (ttl <? 0) eqn:En; [done|]. bool_facts.
  set (one := fun p v => generateOne _ _ _ _ _ _ _ _ _). unfold generate_loop. pose proof (rounds_goes (generate_round one g) generateRounds (g_start g, p)) as HR.
  destruct (rounds _ _ _) as [r|]; [|done]. intros ->. destruct HR as (n & [v' p'] & Hg & HE).
  assert (wrap64 (g_start g) = g_start g) as Hw by (apply wrap64_id; unfold maxInt64 in Hmax; lia). pose proof Hg as Hg'. rewrite <- Hw in Hg'.
  destruct (goes_made _ _ _ _ _ _ _ _ _ _ _ _ _ q Hg' HE) as (recs & H1 & H2 & H3 & H4). fold (values g (S n)) in H2, H3, H4.
  assert (length recs = S n) as HL.
  { assert (forall (P : Name -> Z -> Record_ -> Prop) vs prev l, madeAll P prev vs l -> length l = length vs) as HM by (clear; intros P vs; induction vs as [|v vs IH]; intros prev [|r l]; cbn; try done; intros [_ H%IH]; by f_equal).
    apply HM in H2. rewrite H2. unfold values. by rewrite length_map, length_seq. }
  exists opts, ft, rhs, ttl, class, t, recs. rewrite HL. split_and!; [done..|]. intros Hm. assert (inRange g) as Hr by done.
  destruct (goes_inRange _ _ _ _ _ _ _ Hr Hg) as [-> Hv]; [lia|]. assert (g_stop g < g_start g + Z.of_nat n * g_step g + g_step g) as He.
  { cbn [generate_round] in HE. destruct (one p' _); [done|]. destruct (_ =? _) eqn:Ea; bool_facts; [lia|]. destruct (_ <? _) eqn:Eb; [|done]. unfold maxInt64 in *. rewrite wrap64_id in Eb by lia. by bool_facts. }
  assert ((g_stop g - g_start g) / g_step g = Z.of_nat n) as Hd by (symmetry; apply (Z.div_unique _ _ _ (g_stop g - g_start g - Z.of_nat n * g_step g)); lia).
  assert (zlen recs = Z.of_nat n + 1) as -> by (unfold zlen; lia). rewrite Hd. split; [done|]. unfold iterations in EL. rewrite Z.quot_div_nonneg, Hd, wrap64_id in EL; [done|unfold maxInt64 in *; nia|lia..].
Qed.

Module Generated.
Definition name (s : string) : Name := match Parse (str s) with Ok n => n | Err _ => zeroName end.
Definition e := mkSettings DefaultGenerateMaxIterations [] None 0 DefaultIncludeMaxDepth.
Definition p := mkParser (newLexer []) (name "example.") 300 zeroName [].
Definition fields := map (fun s => mkField (str s) false 1) ["$GENERATE"; "1-5/2"; "host-$"; "60"; "A"; "192.0.2.${10}"]%string.
Definition host (s : string) (ttl n : Z) := NewRecord (name s) (ttl * Second) (RD_A (Addr4 [192; 0; 2; n])).
Lemma generate_exact_witness : exists q recs, handleGenerate e p fields = inr q /\ records q = recs /\ zlen recs = 3 /\
  recs = [host "host-1.example." 60 11; host "host-3.example." 60 13; host "host-5.example." 60 15].
Proof.
  destruct (handleGenerate e p fields) as [f|q] eqn:E; [exfalso; vm_compute in E; discriminate|]. exists q, (records q). split; [done|].
  pose proof (generate_exact e p (mkField (str "$GENERATE") false 1) (mkField (str "1-5/2") false 1) (mkField (str "host-$") false 1)
    (drop 3 fields) (mkRange 1 5 2) q eq_refl E) as (opts & ft & rhs & ttl & class & t & recs & _ & _ & _ & _ & ER & _ & _ & _ & HL).
  split; [done|]. rewrite ER. split; [apply HL; vm_compute; congruence|]. rewrite <- ER. vm_compute in E. injection E as <-. vm_compute. reflexivity.
Defined.
Definition file : bytes := str "$ORIGIN example." ++ [10] ++ str "www 300 A 192.0.2.1".
Lemma zonefile_typed_witness : exists z, ParseZone file [] = inr z /\ z_records z = [host "www.example." 300 1] /\ Forall (typedRecord (-1)) (z_records z).
Proof.
  destruct (ParseZone file []) as [f|z] eqn:E; [exfalso; vm_compute in E; discriminate|]. exists z. split; [done|].
  split; [vm_compute in E; injection E as <-; vm_compute; reflexivity|]. apply (zonefile_typed file [] z). exact E.
Defined.

(** The option is not checked: records of more than 2^31 - 1 seconds. *)
Definition large : bytes := str "www A 192.0.2.1".
Lemma default_ttl_unchecked : exists z, ParseZone large [WithOrigin (name "example."); WithDefaultTTL (2 ^ 31)] = inr z /\ map r_ttl (z_records z) = [(maxTTL + 1) * Second].
Proof. eexists. split; vm_compute; reflexivity. Qed.
End Generated.
