(* ===== verification/ZonefileRoundtrip.v ===== *)
(** * Zone files: the round trip

    The parser undoes the writer, on every zone that can be written; and the
    places where the code errs. *)

From Stdlib Require Import Strings.String.
From S2P Require Import Prelude Name Wire RData RDataCodec RDataRoundtrip RDataNew Message Netip Authoritative Text Zonefile ZonefileSound.
Open Scope Z_scope.
Open Scope list_scope.
Import zonefile.

(** ** The parser undoes the writer *)

(** *** Lexing what is written *)

(** The text of a word: no character that ends one but after a backslash. *)
Inductive word : bytes -> Prop :=
  | word_nil : word []
  | word_plain c w : endsWord c = false -> c <> 92 -> word w -> word (c :: w)
  | word_escaped c w : word w -> word (92 :: c :: w).
Lemma word_app v w : word v -> word w -> word (v ++ w).
Proof. intros Hv Hw. induction Hv; cbn; [done|by apply word_plain|by apply word_escaped]. Qed.
Lemma word_of (P : Z -> Prop) w : (forall c, P c -> endsWord c = false /\ c <> 92) -> Forall P w -> word w.
Proof. intros HP. induction 1 as [|c w Hc _ IH]; [constructor|]. destruct (HP c Hc). by apply word_plain. Qed.

Lemma readWord_word w b r sb ln : word w -> endsWord b = true -> zlen sb + zlen w <= maxLexerTokenSize ->
  readWord (w ++ b :: r) sb ln = inr (sb ++ w, b :: r).
Proof.
  intros Hw Hb. revert sb. induction Hw as [|c w Hc Hne _ IH|c w _ IH]; intros sb Hl.
  - cbn. by rewrite Hb, app_nil_r.
  - cbn [app readWord]. rewrite Hc, (proj2 (Z.eqb_neq c 92)) by done. cbv zeta. rewrite zlen_cons in Hl. pose proof (zlen_nonneg w).
    rewrite (proj2 (Z.ltb_ge _ _)) by (rewrite zlen_app, zlen_cons, zlen_nil; lia). rewrite IH by (rewrite zlen_app, zlen_cons, zlen_nil; lia). by rewrite <- app_assoc.
  - cbn [app readWord]. change (endsWord 92) with false. change (92 =? 92) with true. cbv iota zeta. rewrite !zlen_cons in Hl. pose proof (zlen_nonneg w).
    rewrite (proj2 (Z.ltb_ge _ _)) by (rewrite zlen_app, !zlen_cons, zlen_nil; lia). rewrite IH by (rewrite zlen_app, !zlen_cons, zlen_nil; lia). by rewrite <- app_assoc.
Qed.

Lemma readQuoted_quoted s r sb ln : is_bytes s -> zlen sb + zlen s <= maxLexerTokenSize ->
  readQuoted (concat (map quoteByte s) ++ 34 :: r) sb ln = inr (sb ++ s, r, ln).
Proof.
  intros Hs. revert sb. induction Hs as [|c s Hc _ IH]; intros sb Hl; [cbn; by rewrite app_nil_r|]. cbn [map concat]. rewrite <- app_assoc.
  rewrite zlen_cons in Hl. pose proof (zlen_nonneg s). specialize (IH (sb ++ [c])). rewrite <- app_assoc in IH.
  assert (zlen (sb ++ [c]) + zlen s <= maxLexerTokenSize) as Hl' by (rewrite zlen_app, zlen_cons, zlen_nil; lia). specialize (IH Hl'). rewrite zlen_app in Hl'.
  assert ((maxLexerTokenSize <? zlen (sb ++ [c])) = false) as HT by (apply Z.ltb_ge; rewrite zlen_app; lia).
  unfold quoteByte at 1. destruct ((c =? 34) || (c =? 92)) eqn:E1; [|destruct ((c <? 0x20) || (0x7e <? c)) eqn:E2].
  - cbn [app readQuoted]. change (92 =? 34) with false. change (92 =? 92) with true. cbv iota zeta. apply orb_true_iff in E1.
    replace (isDigit c) with false by (unfold isDigit; destruct E1; bool_facts; subst; done). by rewrite HT.
  - cbn [app fmt03 readQuoted]. change (92 =? 34) with false. change (92 =? 92) with true. cbv iota zeta. unfold u8 in Hc.
    replace (isDigit (48 + c / 100)) with true by (unfold isDigit; elia). unfold readDecimalEscapeTail.
    replace (isDigit (48 + c / 10 mod 10)) with true by (unfold isDigit; elia). replace (isDigit (48 + c mod 10)) with true by (unfold isDigit; elia). cbn [negb]. cbv zeta.
    replace ((48 + c / 100 - 48) * 100 + (48 + c / 10 mod 10 - 48) * 10 + (48 + c mod 10 - 48)) with c by elia.  rewrite (proj2 (Z.ltb_ge 255 c)) by lia. by rewrite HT.
  - apply orb_false_iff in E1 as [??], E2 as [??]. bool_facts. cbn [app readQuoted]. rewrite (proj2 (Z.eqb_neq c 34)), (proj2 (Z.eqb_neq c 92)), (proj2 (Z.eqb_neq c 10)) by lia.
    cbv zeta. by rewrite (proj2 (Z.ltb_ge _ _) HT).
Qed.

Lemma next_fuel f1 : forall f2 l, (length (l_r l) < f1)%nat -> (length (l_r l) < f2)%nat -> next_loop f1 l = next_loop f2 l.
Proof.
  induction f1 as [|f1 IH]; intros f2 [r ln d il ws] H1 H2; [lia|]. destruct f2 as [|f2]; [lia|]. cbn [next_loop l_r] in *. destruct r as [|b r]; [done|].
  assert (forall r' ln' d' ws', (length r' <= length r)%nat -> next_loop f1 (mkLexer r' ln' d' il ws') = next_loop f2 (mkLexer r' ln' d' il ws')) as Hs.
  { intros r' ln' d' ws' Hr. apply IH; cbn in *; lia. }
  destruct (skipComment r) as [r'|] eqn:ES; [apply skipComment_shorter in ES|]; rewrite !Hs by lia; repeat case_match; try done; apply Hs; lia.
Qed.

(** The tokens up to the end of the line, and where the lexer is then. *)
Inductive lexed : lexer -> list (bool * bytes) -> lexer -> Prop :=
  | lexed_eol l ln l' : next l = inr (mkToken tokEOL [] ln, false, l') -> lexed l [] l'
  | lexed_tok l k s ln lws l1 toks l' : next l = inr (mkToken k s ln, lws, l1) -> isText k = true -> lexed l1 toks l' ->
      lexed l ((match k with tokQuoted => true | _ => false end, s) :: toks) l'.
Lemma lexed_next l1 l2 toks l' : next l1 = next l2 -> lexed l2 toks l' -> lexed l1 toks l'.
Proof. intros E H. inversion H; subst; [eapply lexed_eol|eapply lexed_tok]; by rewrite ?E. Qed.

(** Inside a line. *)
Definition within (r : bytes) (ln d : Z) : lexer := mkLexer r ln d true false.
Definition ended (r : bytes) (ln : Z) : lexer := mkLexer r ln 0 false false.

Lemma lex_word w b r ln d toks l' : word w -> w <> [] -> zlen w <= maxLexerTokenSize -> endsWord b = true ->
  lexed (within (b :: r) ln d) toks l' -> lexed (within (w ++ b :: r) ln d) ((false, w) :: toks) l'.
Proof.
  intros Hw Hne Hl Hb H. eapply (lexed_tok _ tokWord _ ln false); [|done|exact H]. unfold next, within.
  assert (exists c w', w = c :: w' /\ endsWord c = false) as (c & w' & -> & Hc) by (destruct Hw; [done|by eexists _, _..]).
  pose proof (readWord_word (c :: w') b r [] ln Hw Hb Hl) as HR. cbn [app] in HR. cbn [l_r next_loop app]. unfold endsWord in Hc.
  repeat (apply orb_false_iff in Hc as [Hc ?]). rewrite HR. repeat match goal with E : (c =? _) = false |- _ => rewrite E; clear E end. reflexivity.
Qed.
Lemma lex_quoted s r ln d toks l' : is_bytes s -> zlen s <= maxLexerTokenSize ->
  lexed (within r ln d) toks l' -> lexed (within (quoteCharString s ++ r) ln d) ((true, s) :: toks) l'.
Proof.
  intros Hs Hl H. eapply (lexed_tok _ tokQuoted _ ln false); [|done|exact H]. unfold next, within, quoteCharString. cbn [app l_r next_loop Z.eqb Pos.eqb orb].
  rewrite <- app_assoc. cbn [app]. rewrite readQuoted_quoted by done. reflexivity.
Qed.
Lemma lex_blank b r ln d toks l' : b = 32 \/ b = 9 -> lexed (within r ln d) toks l' -> lexed (within (b :: r) ln d) toks l'.
Proof. intros Hb. apply lexed_next. by destruct Hb as [->| ->]. Qed.
Lemma lex_open r ln d toks l' : lexed (within r ln (d + 1)) toks l' -> lexed (within (40 :: r) ln d) toks l'.
Proof. by apply lexed_next. Qed.
Lemma lex_close r ln d toks l' : d <> 0 -> lexed (within r ln (d - 1)) toks l' -> lexed (within (41 :: r) ln d) toks l'.
Proof.
  intros Hd. apply lexed_next. change (next (within (41 :: r) ln d)) with (if d =? 0 then inl (Lexical ln) else next (within r ln (d - 1))).
  by rewrite (proj2 (Z.eqb_neq d 0)).
Qed.
Lemma lex_newline r ln d toks l' : d <> 0 -> lexed (within r (ln + 1) d) toks l' -> lexed (within (10 :: r) ln d) toks l'.
Proof.
  intros Hd. apply lexed_next. change (next (within (10 :: r) ln d)) with
    (if (d =? 0) && true then inr (mkToken tokEOL [] ln, false, mkLexer r (ln + 1) d false false) else next (within r (ln + 1) d)).
  by rewrite (proj2 (Z.eqb_neq d 0)).
Qed.
Lemma skipComment_text c r : Forall (fun x => x <> 10) c -> skipComment (c ++ 10 :: r) = Some r.
Proof. induction 1 as [|x c Hx _ IH]; [done|]. cbn. by rewrite (proj2 (Z.eqb_neq x 10)). Qed.
Lemma lex_comment c r ln d toks l' : Forall (fun x => x <> 10) c -> d <> 0 -> lexed (within r (ln + 1) d) toks l' -> lexed (within (59 :: c ++ 10 :: r) ln d) toks l'.
Proof.
  intros Hc Hd. apply lexed_next. set (n := length (59 :: c ++ 10 :: r)).
  change (next (within (59 :: c ++ 10 :: r) ln d)) with
    (match skipComment (c ++ 10 :: r) with
     | None => inr (flushOnEOF (within (59 :: c ++ 10 :: r) ln d))
     | Some r' => if (d =? 0) && true then inr (mkToken tokEOL [] ln, false, mkLexer r' (ln + 1) d false false) else next_loop n (within r' (ln + 1) d)
     end).
  rewrite skipComment_text, (proj2 (Z.eqb_neq d 0)) by done. cbn [andb]. apply next_fuel; unfold n; cbn; rewrite ?length_app; cbn; lia.
Qed.
Lemma lex_eol r ln : lexed (within (10 :: r) ln 0) [] (ended r (ln + 1)).
Proof. eapply lexed_eol. reflexivity. Qed.
Lemma lex_comment_eol c r ln : Forall (fun x => x <> 10) c -> lexed (within (59 :: c ++ 10 :: r) ln 0) [] (ended r (ln + 1)).
Proof. intros Hc. eapply lexed_eol. unfold next, within. cbn [l_r next_loop Z.eqb Pos.eqb orb]. rewrite skipComment_text by done. reflexivity. Qed.

(** A whole line, from its first word on. *)
Lemma lex_first w b r ln : word w -> w <> [] -> zlen w <= maxLexerTokenSize -> endsWord b = true ->
  next (ended (w ++ b :: r) ln) = inr (mkToken tokWord w ln, false, within (b :: r) ln 0).
Proof.
  intros Hw Hne Hl Hb. assert (exists c w', w = c :: w' /\ endsWord c = false) as (c & w' & -> & Hc) by (destruct Hw; [done|by eexists _, _..]).
  pose proof (readWord_word (c :: w') b r [] ln Hw Hb Hl) as HR. cbn [app] in HR. unfold next, ended. cbn [l_r next_loop app]. unfold endsWord in Hc.
  repeat (apply orb_false_iff in Hc as [Hc ?]). rewrite HR. repeat match goal with E : (c =? _) = false |- _ => rewrite E; clear E end. reflexivity.
Qed.

Definition token_of (f : fieldTok) : bool * bytes := (f_quoted f, f_text f).
Lemma readLine_lexed fuel : forall l toks l' out lead, lexed l toks l' -> (length (l_r l) < fuel)%nat ->
  exists fields, readLine_loop fuel l out lead false = inr (out ++ fields, lead, false, l') /\ map token_of fields = toks.
Proof.
  induction fuel as [|fuel IH]; intros l toks l' out lead H Hf; [lia|]. cbn [readLine_loop]. pose proof (next_is_good l) as HN.
  inversion H as [? ln ? E|? k s ln lws l1 toks' ? E Hk H1]; subst.
  - rewrite E. exists []. by rewrite app_nil_r.
  - rewrite E in HN |- *. cbn [next_good kind] in HN. assert (length (l_r l1) < length (l_r l))%nat as Hlt by (destruct k; try done; apply HN).
    cbn [kind text line]. edestruct (IH l1 toks' l' (out ++ [mkField s (match k with tokQuoted => true | _ => false end) ln]) lead H1) as (fields & EF & EM); [lia|].
    exists (mkField s (match k with tokQuoted => true | _ => false end) ln :: fields). rewrite <- app_assoc in EF. cbn [app] in EF. split; [by destruct k|]. cbn. by f_equal.
Qed.
Lemma readLine_line w b r ln toks l' : word w -> w <> [] -> zlen w <= maxLexerTokenSize -> endsWord b = true -> lexed (within (b :: r) ln 0) toks l' ->
  exists fields, readLine (ended (w ++ b :: r) ln) = inr (fields, false, false, l') /\ map token_of fields = (false, w) :: toks.
Proof.
  intros Hw Hne Hl Hb H. unfold readLine. change (2 + length (l_r (ended (w ++ b :: r) ln)))%nat with (S (S (length (w ++ b :: r)))).
  set (n := S (length (w ++ b :: r))). cbn [readLine_loop]. rewrite lex_first by done. cbn [kind text line].
  destruct (readLine_lexed n _ _ _ ([] ++ [mkField w false ln]) false H) as (fields & -> & EM); [unfold n; cbn; rewrite length_app; cbn; lia|].
  exists (mkField w false ln :: fields). split; [done|]. cbn. by f_equal.
Qed.

(** *** Names *)

Definition textLabels (ls : list bytes) : Prop := Forall printable ls /\ Forall (Forall (fun c => c ∉ [34; 40; 41; 59])) ls.
(** A name that can be written: [Parse] accepts its octets, and none of them is
    a quote, a parenthesis or a semicolon, which the writer does not escape. *)
Definition textName (n : Name) : Prop := exists ls, wf_name n ls /\ textLabels ls.

Lemma escapeByte_word c : u8 c -> c ∉ [34; 40; 41; 59] -> word (escapeByte c).
Proof.
  intros Hc Hn. unfold u8, escapeByte in *. destruct ((c =? 46) || (c =? 92)) eqn:E1; [apply word_escaped, word_nil|]. destruct ((c <? 33) || (126 <? c)) eqn:E2.
  - unfold fmt03. apply word_escaped. do 2 (apply word_plain; [unfold endsWord; elia|elia|]). apply word_nil.
  - apply orb_false_iff in E1 as [? ?], E2 as [? ?]. bool_facts. rewrite !not_elem_of_cons in Hn. destruct_and!. apply word_plain; [unfold endsWord; lia|done|apply word_nil].
Qed.
Lemma escapes_word l : printable l -> Forall (fun c => c ∉ [34; 40; 41; 59]) l -> word (concat (map escapeByte l)).
Proof.
  intros Hp. induction Hp as [|c l (Hc & _) _ IH]; intros HF; [apply word_nil|]. apply Forall_cons in HF as [? ?]. cbn. apply word_app; [by apply escapeByte_word|auto].
Qed.
Lemma labels_word ls : textLabels ls -> word (concat (map escapeLabel ls)).
Proof.
  intros [Hp Hq]. induction Hp as [|l ls Hl _ IH]; [apply word_nil|]. apply Forall_cons in Hq as [? ?]. cbn. apply word_app; [|auto].
  apply word_app; [by apply escapes_word|]. apply word_plain; [done|done|apply word_nil].
Qed.

Lemma String_labels n ls : wf_name n ls -> String_ n = match ls with [] => [46] | _ => concat (map escapeLabel ls) end.
Proof.
  intros Hw. pose proof (IsRoot_wf _ _ Hw) as Hr. unfold String_. rewrite (wf_valid _ _ Hw). cbn [negb]. destruct ls as [|l ls].
  - by rewrite (proj2 Hr).
  - destruct (IsRoot n) eqn:E; [by discriminate (proj1 Hr eq_refl)|]. destruct Hw as (Ew & Hok & _). rewrite Ew. by rewrite string_loop_enc.
Qed.

Lemma zlen_escapes l : zlen (concat (map escapeByte l)) <= 4 * zlen l.
Proof. induction l as [|c l IH]; [done|]. cbn [map concat]. assert (zlen (escapeByte c) <= 4) by (unfold escapeByte, fmt03; repeat case_match; done). llia. Qed.
Lemma String_short n ls : wf_name n ls -> zlen (String_ n) <= 1020.
Proof.
  intros Hw. rewrite (String_labels n ls Hw). destruct Hw as (Ew & _ & Hl). rewrite Ew in Hl. unfold maxNameLen in Hl.
  assert (zlen (concat (map escapeLabel ls)) <= 4 * zlen (encLabels ls)) as H.
  { clear. induction ls as [|l ls IH]; [done|]. rewrite encLabels_cons. cbn [map concat]. unfold escapeLabel at 1. pose proof (zlen_escapes l). rewrite zlen_app, zlen_app, zlen_app, zlen_encLabel.
    change (zlen [46]) with 1. lia. }
  rewrite zlen_encName in Hl. destruct ls; [done|]. lia.
Qed.
Lemma String_dot n ls : wf_name n ls -> exists s, String_ n = s ++ [46].
Proof.
  intros Hw. rewrite (String_labels n ls Hw). destruct ls as [|l ls]; [by exists []|].
  assert (exists init x, l :: ls = init ++ [x]) as (init & x & ->) by (destruct (exists_last (l := l :: ls) ltac:(done)) as (i & x & ->); eauto).
  rewrite map_app, concat_app. cbn [map concat]. rewrite app_nil_r. unfold escapeLabel at 2. rewrite app_assoc. by eexists.
Qed.
Lemma HasSuffix_app s t : HasSuffix (s ++ t) t = true.
Proof. unfold HasSuffix. apply bool_decide_eq_true. rewrite length_app. replace (length s + length t - length t)%nat with (length s) by lia. by rewrite drop_app_length. Qed.
Lemma HasSuffix_split s t : HasSuffix s t = true -> s = take (length s - length t) s ++ t.
Proof. unfold HasSuffix. intros H%bool_decide_eq_true. pose proof (take_drop (length s - length t) s) as E. by rewrite H in E. Qed.

(** A name of a payload: one word, read back without the origin. *)
Lemma textName_read n : textName n ->
  word (String_ n) /\ String_ n <> [] /\ zlen (String_ n) <= maxLexerTokenSize /\ Parse (String_ n) = Ok n /\ (forall p, resolveName p (String_ n) = Ok n) /\ String_ n <> str "\#".
Proof.
  intros (ls & Hw & Ht). destruct (String_dot n ls Hw) as [s Es]. pose proof (String_short n ls Hw). pose proof (Parse_String n ls Hw (proj1 Ht)) as HP.
  split_and!; [|by rewrite Es; destruct s|unfold maxLexerTokenSize; lia|done| |].
  - rewrite (String_labels n ls Hw). destruct ls as [|l ls]; [apply word_plain; [done|done|apply word_nil]|by apply labels_word].
  - intros p. unfold resolveName. rewrite bool_decide_eq_false_2 by (rewrite Es; by destruct s). rewrite bool_decide_eq_false_2.
    + rewrite Es, HasSuffix_app, <- Es. done.
    + rewrite Es. intros [_ [=]]%(app_inj_2 s [] [46] [64]); done.
  - rewrite Es. change (str "\#") with ([92] ++ [35]). intros [_ [=]]%(app_inj_2 s [92] [46] [35]); done.
Qed.

(** *** Owners *)

(** The owner of a record: besides, no dot in a label, and a first label that
    is neither "@" nor begins with "$". *)
Definition ownerName (n : Name) : Prop := exists ls, wf_name n ls /\ textLabels ls /\ Forall (Forall (fun c => c <> 46)) ls /\
  match ls with [] => True | l :: _ => l <> [64] /\ head l <> Some 36 end.

Lemma escapes_no_dot l : printable l -> Forall (fun c => c <> 46) l -> Forall (fun c => c <> 46) (concat (map escapeByte l)).
Proof.
  intros Hp. induction Hp as [|c l (Hu & _) _ IH]; intros HF; [done|]. apply Forall_cons in HF as [Hc HF]. specialize (IH HF). unfold u8 in Hu. cbn. apply Forall_app. split; [|done]. unfold escapeByte, fmt03. repeat case_match; repeat (apply Forall_cons_2; [elia|]); apply Forall_nil_2.
Qed.
Lemma split_at_dot e tail before rest : Forall (fun c => c <> 46) e -> e ++ 46 :: tail = before ++ 46 :: rest ->
  before = e \/ exists b', before = e ++ 46 :: b' /\ tail = b' ++ 46 :: rest.
Proof.
  intros He. revert before. induction He as [|c e Hc _ IH]; intros before; cbn.
  - destruct before as [|x b]; [by left|]. cbn. intros [= <- ->]. right. by exists b.
  - destruct before as [|x b]; cbn; [by intros [= -> _]|]. intros [= <- [->|(b' & -> & ->)]%IH]; [by left|right]. by exists b'.
Qed.

Lemma escapeByte_last c : c <> 46 -> last (escapeByte c) <> Some 46 /\ last (escapeByte c) <> None.
Proof. intros Hc. unfold escapeByte, fmt03. repeat case_match; cbn; split; try done; intros [= ?]; elia. Qed.
Lemma escapes_last l : l <> [] -> Forall (fun c => c <> 46) l -> last (concat (map escapeByte l)) <> Some 46 /\ concat (map escapeByte l) <> [].
Proof.
  intros Hne HF. destruct (exists_last Hne) as (init & c & ->). apply Forall_app in HF as [_ HF]. inversion_clear HF as [|? ? Hc _].
  rewrite map_app, concat_app. cbn [map concat]. rewrite app_nil_r. destruct (escapeByte_last c Hc) as [H1 H2].
  destruct (escapeByte c) as [|x k]; [done|]. rewrite last_app_cons. split; [done|]. by destruct (concat (map escapeByte init)).
Qed.

Lemma label_ne l : label_ok l -> l <> [].
Proof. intros [Hl _] ->. rewrite zlen_nil in Hl. lia. Qed.

(** What is before a dot of a name's text: the text of its first labels. *)
Lemma labels_cut ls : forall before rest, Forall label_ok ls -> textLabels ls -> Forall (Forall (fun c => c <> 46)) ls ->
  concat (map escapeLabel ls) = before ++ 46 :: rest ->
  word before /\ last before <> Some 46 /\ exists l ls' more, ls = l :: ls' /\ before = concat (map escapeByte l) ++ more /\ (more = [] \/ exists m, more = 46 :: m).
Proof.
  induction ls as [|l ls IH]; intros before rest Hok [Hp Hq] Hd E; [by destruct before|].
  apply Forall_cons in Hok as [Hl Hok], Hp as [Hp1 Hp2], Hq as [Hq1 Hq2], Hd as [Hd1 Hd2]. cbn [map concat] in E. unfold escapeLabel at 1 in E. rewrite <- app_assoc in E.
  pose proof (label_ne l Hl) as Hne. destruct (escapes_last l Hne Hd1) as [HL _]. pose proof (escapes_word l Hp1 Hq1) as HW.
  apply split_at_dot in E as [->|(b' & -> & E)]; [..|by apply escapes_no_dot].
  - split_and!; [done..|]. exists l, ls, []. rewrite app_nil_r. auto.
  - destruct (IH b' rest Hok (conj Hp2 Hq2) Hd2 E) as (Hw & Hlast & l' & ls' & more & -> & -> & _). split_and!.
    + apply word_app; [done|]. apply word_plain; [done|done|done].
    + rewrite last_app_cons. cbn. destruct (concat (map escapeByte l') ++ more) eqn:EB; [|done]. exfalso. apply app_eq_nil in EB as [EB _].
      apply Forall_cons in Hok as [Hl' _], Hd2 as [Hd' _]. destruct (escapes_last l' (label_ne l' Hl')) as [_ HN]; done.
    + exists l, (l' :: ls'), (46 :: concat (map escapeByte l') ++ more). eauto.
Qed.

(** The first character of a label's text. *)
Lemma escapes_head l more : l <> [] -> head l <> Some 36 -> HasPrefix (concat (map escapeByte l) ++ more) [36] = false.
Proof.
  intros Hne Hh. unfold HasPrefix. apply bool_decide_eq_false. destruct l as [|c l]; [done|]. cbn [map concat]. unfold escapeByte.
  repeat case_match; cbn; intros [= ?]; subst; done.
Qed.
Lemma escapes_at l more : l <> [] -> l <> [64] -> (more = [] \/ exists m, more = 46 :: m) -> concat (map escapeByte l) ++ more <> [64].
Proof.
  intros Hne H64 Hm E. destruct l as [|c l]; [done|]. cbn [map concat] in E. unfold escapeByte at 1 in E.
  repeat case_match; cbn in E; try done. injection E as -> E. apply app_eq_nil in E as [E ->].
  destruct l as [|x l]; [done|]. cbn in E. apply app_eq_nil in E as [E _]. pose proof (escapeByte_nonempty x) as HN. rewrite E in HN. done.
Qed.

Lemma owner_read n org : ownerName n -> textName org ->
  let s := relativise n org in
  word s /\ s <> [] /\ zlen s <= maxLexerTokenSize /\ HasPrefix s [36] = false /\ forall p, origin p = org -> resolveName p s = Ok n.
Proof.
  intros (ls & Hw & Ht & Hd & Hh) Ho. pose proof Ho as (os & How & _). unfold relativise. destruct (Equal n org) eqn:EE.
  { unfold Equal in EE. apply bool_decide_eq_true in EE. split_and!; [apply word_plain; [done|done|apply word_nil]|done|done|done|]. intros p Hp. unfold resolveName.
    rewrite bool_decide_eq_false_2, bool_decide_eq_true_2 by done. rewrite Hp, (wf_valid _ _ How). cbn. f_equal. destruct n, org; cbn in *; congruence. }
  assert (textName n) as Hn by (by exists ls). destruct (textName_read n Hn) as (HW & Hne & Hl & HP & HR & _). pose proof (String_labels n ls Hw) as HS.
  pose proof Hw as (_ & Hok & _).
  assert (HasPrefix (String_ n) [36] = false) as HF.
  { rewrite HS. destruct ls as [|l ls]; [done|]. apply Forall_cons in Hok as [Hl1 _]. cbn [map concat]. unfold escapeLabel at 1. rewrite <- app_assoc.
    apply escapes_head; [by apply label_ne|by destruct Hh]. }
  cbv zeta. unfold CutSuffix. destruct (HasSuffix _ _) eqn:ES; [|split_and!; auto].
  apply HasSuffix_split in ES. set (before := take _ _) in *. destruct ls as [|l ls].
  { exfalso. rewrite HS in ES. destruct (String_dot org os How) as [s Es]. rewrite Es in ES. destruct before as [|x b]; [injection ES as ES; by destruct s|].
    destruct b; discriminate. }
  rewrite HS in ES. destruct (labels_cut _ before (String_ org) Hok Ht Hd ES) as (Hbw & Hlast & l' & ls' & more & [= <- <-] & Eb & Hm).
  apply Forall_cons in Hok as [Hl1 _]. pose proof (label_ne l Hl1) as Hlne. destruct Hh as [Hh1 Hh2].
  assert (before <> []) as Hbne. { rewrite Eb. destruct (escapes_last l Hlne) as [_ HN]; [by apply Forall_cons in Hd as [? _]|]. by destruct (concat (map escapeByte l)). }
  assert (zlen before <= zlen (String_ n)) as Hbl by (rewrite HS, ES; llia).
  split_and!; [done|done|lia|rewrite Eb; by apply escapes_head|].
  intros p Hp. unfold resolveName. rewrite bool_decide_eq_false_2 by done. rewrite bool_decide_eq_false_2 by (rewrite Eb; by apply escapes_at).
  replace (HasSuffix before [46]) with false.
  - rewrite Hp, (wf_valid _ _ How). cbn [negb app]. rewrite <- ES, <- HS. done.
  - symmetry. destruct (HasSuffix before [46]) eqn:EH; [|done]. apply HasSuffix_split in EH. exfalso. apply Hlast. rewrite EH. by rewrite last_snoc.
Qed.

(** *** Fields that are words *)

Definition field (w : bytes) : Prop := word w /\ w <> [] /\ zlen w <= maxLexerTokenSize.

Lemma digits_field ds : digits ds -> zlen ds <= maxLexerTokenSize -> field ds.
Proof.
  intros [Hne HF] Hl. split_and!; [|done|done]. eapply word_of; [|exact HF]. intros c Hc. unfold isDigit in Hc. split; [unfold endsWord; lia|lia].
Qed.
Lemma format_short fuel base v acc : zlen (format_loop fuel base v acc) <= zlen acc + Z.of_nat fuel.
Proof.
  revert v acc. induction fuel as [|fuel IH]; intros v acc; cbn [format_loop]; [llia|]. destruct (_ <? _); [llia|]. specialize (IH (v / base) (digit (v mod base) :: acc)).
  rewrite zlen_cons in IH. lia.
Qed.
Lemma Itoa_field v : 0 <= v < 2 ^ 64 -> field (Itoa v) /\ Itoa v <> str "\#".
Proof.
  intros Hv. destruct (Itoa_spec v Hv) as [Hd _]. split.
  - apply digits_field; [done|]. unfold Itoa, FormatInt. pose proof (format_short 64 10 v []). rewrite (proj2 (Z.ltb_ge v 0)) by lia. unfold maxLexerTokenSize. rewrite zlen_nil in *. lia.
  - intros E. destruct Hd as [_ HF]. rewrite E in HF. by inversion HF.
Qed.
Lemma hexDigit_plain c : isHexDigit c -> endsWord c = false /\ c <> 92.
Proof. intros (d & Hd & ->). unfold digit, endsWord. destruct (d <? 10) eqn:E; bool_facts; split; lia. Qed.
Lemma Encode_hex b : is_bytes b -> Forall isHexDigit (EncodeToString b).
Proof.
  induction 1 as [|x b Hx _ IH]; [done|]. unfold EncodeToString in *. cbn [map concat app]. unfold u8 in Hx.
  repeat (apply Forall_cons_2; [eexists; split; [|reflexivity]; elia|]). done.
Qed.
Lemma zlen_Encode b : zlen (EncodeToString b) = 2 * zlen b.
Proof. induction b as [|x b IH]; [done|]. change (EncodeToString (x :: b)) with ([digit (x / 16); digit (x mod 16)] ++ EncodeToString b). rewrite zlen_app, IH. llia. Qed.
Lemma hex_field b : blob_ok b -> 2 * zlen b <= maxLexerTokenSize -> field (EncodeToString b).
Proof.
  intros [Hb Hne] Hl. split_and!; [|by destruct b|by rewrite zlen_Encode]. eapply word_of; [apply hexDigit_plain|]. by apply Encode_hex.
Qed.
Lemma toB64_plain v : 0 <= v < 64 -> endsWord (toB64 v) = false /\ toB64 v <> 92.
Proof.
  intros H. assert (v ∈ seqZ 0 64) as Hin by (apply elem_of_seqZ; lia).
  assert (forallb (fun v => negb (endsWord (toB64 v)) && negb (toB64 v =? 92)) (seqZ 0 64) = true) as HF by (vm_compute; reflexivity).
  rewrite forallb_forall in HF. apply list_elem_of_In, HF, andb_true_iff in Hin as [H1 H2]. apply negb_true_iff in H1, H2. bool_facts. done.
Qed.
Lemma b64char_plain c : b64char c -> endsWord c = false /\ c <> 92.
Proof. intros [->|(v & Hv & ->)]; [done|]. by apply toB64_plain. Qed.
Lemma b64_field b : blob_ok b -> zlen (b64Encode b) <= maxLexerTokenSize -> field (b64Encode b).
Proof. intros [Hb Hne] Hl. split_and!; [|by destruct b as [|x [|y [|z b]]]|done]. eapply word_of; [apply b64char_plain|]. by apply b64Encode_chars. Qed.
Lemma addr_plain c : addrChar c -> endsWord c = false /\ c <> 92.
Proof. intros [->|[->|?]]; [done..|by apply hexDigit_plain]. Qed.
Lemma mnemonic_plain c : mnemonicChar c -> endsWord c = false /\ c <> 92.
Proof. unfold mnemonicChar, capital, isDigit, endsWord. intros [?|[?| ->]]; [split; lia..|done]. Qed.

(** Neither blank is in a hexadecimal or base64 text. *)
Lemma clean_plain s : Forall (fun c => endsWord c = false) s -> clean s = s.
Proof.
  induction 1 as [|c s Hc _ IH]; [done|]. unfold clean in *. cbn [List.filter]. unfold endsWord in Hc. repeat (apply orb_false_iff in Hc as [Hc ?]). rewrite Hc.
  match goal with E : (c =? 9) = false |- _ => rewrite E end. cbn. by rewrite IH.
Qed.
Lemma hexDecode_Encode b : is_bytes b -> hexDecode (EncodeToString b) = Some b.
Proof.
  intros Hb. unfold hexDecode. rewrite clean_plain; [by apply hex_roundtrip|]. eapply Forall_impl; [by apply Encode_hex|]. intros c Hc. by apply hexDigit_plain.
Qed.
Lemma b64Decode_Encode b : is_bytes b -> b64Decode (b64Encode b) = Some b.
Proof.
  intros Hb. unfold b64Decode. rewrite clean_plain; [by apply b64_roundtrip|]. eapply Forall_impl; [by apply b64Encode_chars|]. intros c Hc. by apply b64char_plain.
Qed.

(** *** Payloads *)

Definition timer (d : Z) : Prop := exists s, d = s * Second /\ 0 <= s <= maxTTL.
Definition genericBytes (rd : RData) : bytes := match rd with RD_Unknown _ b => b | _ => Packer.buf (RData.Pack rd (Packer.NewPacker [])) end.
(** A payload that can be written: fields in the range of their types, names
    that can be written, and tokens that the lexer admits. *)
Definition textRData (rd : RData) : Prop :=
  match rd with
  | RD_A a => addr4_ok a
  | RD_AAAA a => addr6_ok a
  | RD_CNAME n | RD_NS n | RD_PTR n | RD_DNAME n => textName n
  | RD_MX pref n => u16 pref /\ textName n
  | RD_TXT strs => Forall str_ok strs /\ head strs <> Some (str "\#")
  | RD_SOA mname rname serial refresh retry expire minimum =>
      textName mname /\ textName rname /\ u32 serial /\ timer refresh /\ timer retry /\ timer expire /\ timer minimum
  | RD_CAA flags tag value =>
      u8 flags /\ 0 < zlen tag <= 15 /\ is_bytes tag /\ forallb isAlnum tag = true /\ is_bytes value /\ zlen value <= maxLexerTokenSize
  | RD_SRV priority weight port target => u16 priority /\ u16 weight /\ u16 port /\ textName target
  | RD_DS keyTag alg dt digest =>
      u16 keyTag /\ u8 alg /\ u8 dt /\ blob_ok digest /\ 2 * zlen digest <= maxLexerTokenSize /\ (dsDigestLen dt = 0 \/ zlen digest = dsDigestLen dt)
  | RD_DNSKEY flags protocol alg key => u16 flags /\ protocol = 3 /\ u8 alg /\ blob_ok key /\ zlen (b64Encode key) <= maxLexerTokenSize
  | _ => rd_ok rd /\ u16 (Type_ rd) /\ 2 * zlen (genericBytes rd) <= maxLexerTokenSize
  end.

Definition W (w : bytes) : bool * bytes := (false, w).
Definition genericTokens (b : bytes) : list (bool * bytes) := map W ([str "\#"; Itoa (zlen b)] ++ if bool_decide (b = []) then [] else [EncodeToString b]).
(** The tokens of a payload. *)
Definition rdTokens (rd : RData) : list (bool * bytes) :=
  match rd with
  | RD_A a | RD_AAAA a => [W (Addr_String a)]
  | RD_CNAME n | RD_NS n | RD_PTR n | RD_DNAME n => [W (String_ n)]
  | RD_MX pref n => map W [Itoa pref; String_ n]
  | RD_TXT strs => map (fun s => (true, s)) strs
  | RD_SOA mname rname serial refresh retry expire minimum =>
      map W [String_ mname; String_ rname; Itoa serial; Itoa (wholeSeconds refresh); Itoa (wholeSeconds retry); Itoa (wholeSeconds expire); Itoa (wholeSeconds minimum)]
  | RD_CAA flags tag value => [W (Itoa flags); W tag; (true, value)]
  | RD_SRV priority weight port target => map W [Itoa priority; Itoa weight; Itoa port; String_ target]
  | RD_DS keyTag alg dt digest => map W [Itoa keyTag; Itoa alg; Itoa dt; EncodeToString digest]
  | RD_DNSKEY flags protocol alg key => map W [Itoa flags; Itoa protocol; Itoa alg; b64Encode key]
  | _ => genericTokens (genericBytes rd)
  end.

Lemma textName_field n : textName n -> field (String_ n).
Proof. intros (? & ? & ? & _)%textName_read. done. Qed.
Lemma wholeSeconds_timer d : timer d -> 0 <= wholeSeconds d <= maxTTL /\ d = wholeSeconds d * Second.
Proof. intros (s & -> & Hs). unfold wholeSeconds, Second. rewrite Z.quot_mul by lia. done. Qed.
Lemma Itoa_small v : 0 <= v <= 0xffffffff -> field (Itoa v).
Proof. intros H. apply Itoa_field. lia. Qed.

(** Words with blanks between them. *)
Lemma lex_spaced ws b r ln d toks l' : ws <> [] -> Forall field ws -> endsWord b = true -> lexed (within (b :: r) ln d) toks l' ->
  lexed (within (spaced ws ++ b :: r) ln d) (map W ws ++ toks) l'.
Proof.
  intros Hne HF Hb H. unfold spaced. induction HF as [|w [|w' ws] (H1 & H2 & H3) HF IH]; [done|..].
  - cbn [joinWith map concat app]. rewrite app_nil_r. by apply lex_word.
  - change (joinWith 32 (w :: w' :: ws)) with (w ++ 32 :: joinWith 32 (w' :: ws)). rewrite <- app_assoc. cbn [map app]. apply lex_word; [done..|].
    apply lex_blank; [by left|]. by apply IH.
Qed.
Lemma lex_strings strs r ln toks l' : Forall str_ok strs -> lexed (within r ln 0) toks l' ->
  lexed (within (spaced (map quoteCharString strs) ++ r) ln 0) (map (fun s => (true, s)) strs ++ toks) l'.
Proof.
  assert (forall s, str_ok s -> zlen s <= maxLexerTokenSize) as HS by (intros s [_ ?]; unfold maxLexerTokenSize; lia).
  intros HF H. unfold spaced. induction HF as [|s [|s' strs] Hs HF IH]; [done|..].
  - cbn [joinWith map concat app]. rewrite app_nil_r. apply lex_quoted; [apply Hs|auto|done].
  - change (joinWith 32 (map quoteCharString (s :: s' :: strs))) with (quoteCharString s ++ 32 :: joinWith 32 (map quoteCharString (s' :: strs))). rewrite <- app_assoc. cbn [map app].
    apply lex_quoted; [apply Hs|auto|]. apply lex_blank; [by left|]. by apply IH.
Qed.
Lemma lex_generic b r ln : is_bytes b -> 2 * zlen b <= maxLexerTokenSize -> lexed (within (genericForm b ++ 10 :: r) ln 0) (genericTokens b) (ended r (ln + 1)).
Proof.
  intros Hb Hl. assert (field (Itoa (zlen b))) as (H1 & H2 & H3) by (apply Itoa_small; unfold maxLexerTokenSize in Hl; llia).
  change (genericForm b) with (str "\#" ++ 32 :: Itoa (zlen b) ++ 32 :: EncodeToString b). rewrite <- app_assoc. cbn [app]. rewrite <- app_assoc. cbn [app].
  unfold genericTokens. cbn [app map]. apply lex_word; [by apply word_escaped, word_nil|done|done|done|]. apply lex_blank; [by left|]. apply lex_word; [done..|]. apply lex_blank; [by left|].
  destruct (decide (b = [])) as [->|Hne]; [apply lex_eol|]. rewrite bool_decide_eq_false_2 by done. destruct (hex_field b) as (H4 & H5 & H6); [done|done|]. apply lex_word; [done..|]. apply lex_eol.
Qed.

(** *** Addresses *)

Lemma Format_short v base : zlen (FormatInt v base) <= 65.
Proof. unfold FormatInt. destruct (v <? 0); pose proof (format_short 64 base (- v) []); pose proof (format_short 64 base v []); rewrite zlen_nil in *; llia. Qed.
Lemma string4_short b : zlen (string4 b) <= 66 * zlen b.
Proof.
  unfold string4, joinWith. destruct b as [|x b]; [done|]. cbn [map]. rewrite zlen_app, zlen_cons.
  assert (zlen (concat (map (cons 46) (map Itoa b))) <= 66 * zlen b) as H.
  { induction b as [|y b IH]; [done|]. cbn [map concat]. pose proof (Format_short y 10). unfold Itoa at 1. llia. }
  pose proof (Format_short x 10). unfold Itoa at 1. lia.
Qed.
Lemma groups_short fuel gs i s e : zlen (groups_loop fuel gs i s e) <= 67 * Z.of_nat fuel.
Proof.
  revert i. induction fuel as [|fuel IH]; intros i; cbn [groups_loop]; [done|]. pose proof (IH (i + 1)). pose proof (IH (e + 1)).
  pose proof (Format_short (zget gs i) 16). pose proof (Format_short (zget gs e) 16). unfold hex16. repeat case_match; llia.
Qed.
Lemma addr_field a : addr4_ok a \/ addr6_ok a -> field (Addr_String a) /\ Addr_String a <> str "\#" /\ ParseAddr (Addr_String a) = Some a.
Proof.
  intros H. destruct (ParseAddr_String a H) as (HP & HF & Hne). split_and!; [..|done].
  - split_and!; [eapply word_of; [apply addr_plain|done]|done|]. unfold maxLexerTokenSize. destruct H as [(b & -> & _ & Hl)|(b & -> & _ & Hl)]; cbn [Addr_String].
    + pose proof (string4_short b). lia.
    + rewrite app_nil_r. destruct (Is4In6 _); [|unfold string6; destruct (longestRun _ _ _ _) as [s e]; pose proof (groups_short 9 (groups b) 0 s e); lia].
      rewrite zlen_app. change (zlen (str "::ffff:")) with 7. pose proof (string4_short (drop 12 b)). assert (zlen (drop 12 b) = 4) by (unfold zlen in *; rewrite length_drop; lia). lia.
  - intros E. rewrite E in HF. inversion HF as [|? ? H1 _]; subst. apply addr_plain in H1 as [_ H1]. done.
Qed.

(** *** Payloads, lexed *)

Lemma lex_words ws r ln : ws <> [] -> Forall field ws -> lexed (within (spaced ws ++ 10 :: r) ln 0) (map W ws) (ended r (ln + 1)).
Proof. intros Hne HF. rewrite <- (app_nil_r (map W ws)). apply lex_spaced; [done..|apply lex_eol]. Qed.
Lemma lex_word_eol w r ln : field w -> lexed (within (w ++ 10 :: r) ln 0) [W w] (ended r (ln + 1)).
Proof. intros H. pose proof (lex_words [w] r ln) as HW. unfold spaced in HW. cbn [joinWith map concat] in HW. rewrite app_nil_r in HW. apply HW; [done|by constructor]. Qed.

(** A number with a comment after it, inside parentheses. *)
Lemma lex_noted w c r ln d toks l' : field w -> Forall (fun x => x <> 10) c -> d <> 0 -> lexed (within r (ln + 1) d) toks l' ->
  lexed (within (9 :: 9 :: w ++ 9 :: 59 :: c ++ 10 :: r) ln d) (W w :: toks) l'.
Proof.
  intros (H1 & H2 & H3) Hc Hd H. do 2 (apply lex_blank; [by right|]). apply lex_word; [done..|]. apply lex_blank; [by right|]. by apply lex_comment.
Qed.

Lemma packed_bytes rd : rd_ok rd -> is_bytes (Packer.buf (RData.Pack rd (Packer.NewPacker []))).
Proof. intros H. destruct (rcodec_Unpack rd H) as [_ HC]. destruct (HC _ packer_ok_new) as [[_ ?] _]. done. Qed.
Lemma generic_bytes rd : rd_ok rd -> is_bytes (genericBytes rd).
Proof. intros H. pose proof (packed_bytes rd H). destruct rd; done. Qed.

Lemma alnum_field s : 0 < zlen s <= 15 -> forallb isAlnum s = true -> field s.
Proof.
  intros Hl HF. rewrite forallb_forall in HF. split_and!; [|intros ->; llia|unfold maxLexerTokenSize; lia]. apply word_of with (fun c => isAlnum c = true).
  - unfold isAlnum, endsWord. intros c Hc. split; lia.
  - apply Forall_forall. intros c Hc%list_elem_of_In. auto.
Qed.

Lemma lex_SOA mname rname serial refresh retry expire minimum r ln : Forall field [mname; rname; serial; refresh; retry; expire; minimum] ->
  lexed (within (spaced [mname; rname; [40; 10; 9; 9] ++ serial] ++ [9] ++ str "; serial" ++ [10; 9; 9]
      ++ refresh ++ [9] ++ str "; refresh" ++ [10; 9; 9] ++ retry ++ [9] ++ str "; retry" ++ [10; 9; 9]
      ++ expire ++ [9] ++ str "; expire" ++ [10; 9; 9] ++ minimum ++ str " )" ++ [9] ++ str "; minimum" ++ 10 :: r) ln 0)
    (map W [mname; rname; serial; refresh; retry; expire; minimum]) (ended r (ln + 6)).
Proof.
  intros HF. repeat (apply Forall_cons in HF as [? HF]). change (spaced [mname; rname; [40; 10; 9; 9] ++ serial]) with (mname ++ (32 :: rname) ++ (32 :: 40 :: 10 :: 9 :: 9 :: serial) ++ []).
  rewrite app_nil_r, <- !app_assoc. cbn [app map]. repeat match goal with H : field mname |- _ => destruct H as (? & ? & ?) | H : field rname |- _ => destruct H as (? & ? & ?) end.
  apply lex_word; [done..|]. apply lex_blank; [by left|]. apply lex_word; [done..|]. apply lex_blank; [by left|]. apply lex_open, lex_newline; [done|].
  change (str "; serial" ++ ?t) with (59 :: str " serial" ++ t). change (str "; refresh" ++ ?t) with (59 :: str " refresh" ++ t).
  change (str "; retry" ++ ?t) with (59 :: str " retry" ++ t). change (str "; expire" ++ ?t) with (59 :: str " expire" ++ t).
  do 4 (apply lex_noted; [done|by repeat constructor|done|]). do 2 (apply lex_blank; [by right|]).
  match goal with H : field minimum |- _ => destruct H as (? & ? & ?) end. apply lex_word; [done..|]. apply lex_blank; [by left|]. apply lex_close; [done|]. apply lex_blank; [by right|].
  replace (ln + 6) with (ln + 1 + 1 + 1 + 1 + 1 + 1) by lia. change (59 :: ?t) with (59 :: str " minimum" ++ 10 :: r). apply lex_comment_eol. by repeat constructor.
Qed.

Lemma lex_rdata rd r ln : textRData rd -> exists ln', lexed (within (formatRDataPresentation rd ++ 10 :: r) ln 0) (rdTokens rd) (ended r ln').
Proof.
  assert (forall v, u16 v -> field (Itoa v)) as H16 by (unfold u16; intros; apply Itoa_small; lia).
  assert (forall v, u8 v -> field (Itoa v)) as H8 by (unfold u8; intros; apply Itoa_small; lia).
  assert (forall d, timer d -> field (Itoa (wholeSeconds d))) as HT by (intros d [? _]%wholeSeconds_timer; unfold maxTTL in *; apply Itoa_small; lia).
  intros H. destruct rd; cbn [textRData] in H;
    try (exists (ln + 1); destruct H as (Hok & _ & Hl); apply lex_generic; [exact (generic_bytes _ Hok)|exact Hl]); destruct_and?;
    try (exists (ln + 1); apply lex_word_eol; first [apply addr_field; auto|by apply textName_field]);
    try (exists (ln + 1); apply lex_words; [done|repeat (apply Forall_cons_2; [first [by auto | by apply textName_field | by apply hex_field | by apply b64_field | subst; apply Itoa_small; lia]|]); apply Forall_nil_2]).
  - exists (ln + 1). rewrite <- (app_nil_r (rdTokens _)). apply lex_strings; [done|apply lex_eol].
  - exists (ln + 6). cbn [formatRDataPresentation rdTokens]. pose proof (lex_SOA (String_ mname) (String_ rname) (Itoa serial) (Itoa (wholeSeconds refresh)) (Itoa (wholeSeconds retry)) (Itoa (wholeSeconds expire)) (Itoa (wholeSeconds minimum)) r ln) as HS.
    rewrite <- !app_assoc. apply HS. repeat (apply Forall_cons_2; [first [by auto | by apply textName_field | unfold u32 in *; apply Itoa_small; lia]|]). apply Forall_nil_2.
  - exists (ln + 1). cbn [formatRDataPresentation rdTokens]. destruct (H8 flags) as (? & ? & ?); [done|]. destruct (alnum_field tag) as (? & ? & ?); [done..|].
    change (spaced _) with (Itoa flags ++ (32 :: tag) ++ (32 :: quoteCharString value) ++ []). rewrite app_nil_r, <- !app_assoc. cbn [app].
    apply lex_word; [done..|]. apply lex_blank; [by left|]. apply lex_word; [done..|]. apply lex_blank; [by left|]. apply lex_quoted; [done..|]. apply lex_eol.
Qed.

(** *** Payloads, parsed *)

Lemma tokens_text fields toks : map token_of fields = toks -> map f_text fields = map snd toks.
Proof. intros <-. rewrite map_map. done. Qed.
Lemma words_text ws : map snd (map W ws) = ws.
Proof. rewrite map_map. apply map_id. Qed.

Lemma hexDecode_rest b (rest : list fieldTok) : is_bytes b -> map f_text rest = (if bool_decide (b = []) then [] else [EncodeToString b]) ->
  hexDecode (concat (map f_text rest)) = Some b.
Proof.
  intros Hb ->. case_bool_decide as E; [by subst|]. cbn [concat]. rewrite app_nil_r. by apply hexDecode_Encode.
Qed.
Lemma parse_generic p rd fields : rd_ok rd -> 2 * zlen (genericBytes rd) <= maxLexerTokenSize -> map token_of fields = genericTokens (genericBytes rd) ->
  parseRData p (Type_ rd) fields = Ok rd.
Proof.
  intros Hok Hl HT%tokens_text. pose proof (generic_bytes rd Hok) as Hb. unfold genericTokens in HT. rewrite words_text in HT. unfold maxLexerTokenSize in Hl.
  destruct fields as [|f0 [|f1 rest]]; [done..|]. cbn [map app] in HT. injection HT as E0 E1 ER. unfold parseRData. rewrite E0, bool_decide_eq_true_2 by done.
  unfold parseGenericRData. pose proof (zlen_nonneg (genericBytes rd)). rewrite E1, ParseInt_Itoa by lia. cbn [must res_bind]. rewrite (proj2 (Z.ltb_ge _ _)) by lia.
  rewrite (hexDecode_rest _ _ Hb ER). cbn [must res_bind]. rewrite Z.eqb_refl. cbn [negb].
  destruct (rcodec_Unpack rd Hok) as [_ HC]. destruct (HC _ packer_ok_new) as [_ HU]. specialize (HU [] (Forall_nil_2 _)).
  rewrite app_nil_r in HU. change (zlen (Packer.buf (Packer.NewPacker []))) with 0 in HU. rewrite Z.sub_0_r in HU.
  assert (genericBytes rd = Packer.buf (RData.Pack rd (Packer.NewPacker []))) as -> by (by destruct rd). by rewrite HU.
Qed.

(** The rules of the typed forms. *)
Lemma resolve_text p n f : textName n -> f = String_ n -> resolveName p f = Ok n.
Proof. intros H ->. destruct (textName_read n H) as (_ & _ & _ & _ & HR & _). apply HR. Qed.
Lemma uint_text v bits f : f = Itoa v -> 0 <= v < 2 ^ bits -> bits <= 64 -> ParseUint f bits = Some v.
Proof. intros ->. apply ParseUint_Itoa. Qed.
Lemma timer_text d f : timer d -> f_text f = Itoa (wholeSeconds d) -> parseSOATimer f = Ok (wholeSeconds d).
Proof.
  intros [? _]%wholeSeconds_timer E. unfold parseSOATimer, maxTTL in *. rewrite (uint_text (wholeSeconds d) 32 _ E) by lia. cbn [must res_bind]. by rewrite (proj2 (Z.ltb_ge _ _)) by lia.
Qed.
Lemma textName_valid n : textName n -> IsValid n = true.
Proof. intros (ls & Hw & _). by eapply wf_valid. Qed.
Lemma notGeneric p t f fields : f_text f <> str "\#" -> parseRData p t (f :: fields) = parseTyped p t (f :: fields).
Proof. intros H. unfold parseRData. by rewrite bool_decide_eq_false_2. Qed.
Lemma first_number p t f fields v : f_text f = Itoa v -> 0 <= v < 2 ^ 64 -> parseRData p t (f :: fields) = parseTyped p t (f :: fields).
Proof. intros E Hv. apply notGeneric. rewrite E. by apply Itoa_field. Qed.
Lemma first_name p t f fields n : f_text f = String_ n -> textName n -> parseRData p t (f :: fields) = parseTyped p t (f :: fields).
Proof. intros E Hn. apply notGeneric. rewrite E. by apply textName_read. Qed.

Lemma parse_addr p rd a fields : (rd = RD_A a /\ addr4_ok a) \/ (rd = RD_AAAA a /\ addr6_ok a) -> map token_of fields = [W (Addr_String a)] ->
  parseRData p (Type_ rd) fields = Ok rd.
Proof.
  intros H HT. destruct fields as [|f [|]]; [done| |done]. injection HT as _ E.
  destruct (addr_field a) as (_ & Hne & HP); [by destruct H as [[_ ?]|[_ ?]]; auto|]. rewrite notGeneric by (by rewrite E).
  destruct H as [[-> (b & -> & _)]|[-> (b & -> & _)]]; cbn [parseTyped Type_ Z.eqb Pos.eqb]; unfold parseTyped; cbn [Z.eqb Pos.eqb]; rewrite E, HP; done.
Qed.
Lemma parse_one p rd n fields : (rd = RD_CNAME n \/ rd = RD_NS n \/ rd = RD_PTR n \/ rd = RD_DNAME n) -> textName n -> map token_of fields = [W (String_ n)] ->
  parseRData p (Type_ rd) fields = Ok rd.
Proof.
  intros H Hn HT. destruct fields as [|f [|]]; [done| |done]. injection HT as _ E. rewrite (first_name _ _ _ _ n) by done.
  pose proof (resolve_text p n _ Hn E) as HR. pose proof (textName_valid n Hn) as HV.
  destruct H as [->|[->|[->| ->]]]; unfold parseTyped, parseOneName, parseDNAME; cbn [Type_ Z.eqb Pos.eqb]; cbv beta iota; rewrite HR; cbn [res_bind]; unfold NewNS, NewCNAME, NewPTR, NewDNAME, checkName; by rewrite HV.
Qed.

Lemma parse_TXT p strs fields : textRData (RD_TXT strs) -> map token_of fields = rdTokens (RD_TXT strs) -> parseRData p rrtype.TXT fields = Ok (RD_TXT strs).
Proof.
  intros [HF Hh] HT%tokens_text. assert (map snd (rdTokens (RD_TXT strs)) = strs) as ES by (cbn [rdTokens]; rewrite map_map; apply map_id). rewrite ES in HT.
  assert (NewTXT (map f_text fields) = Ok (RD_TXT strs)) as HN.
  { rewrite HT. unfold NewTXT, checkStrings. replace (forallb _ strs) with true; [done|]. symmetry. apply forallb_forall. intros s Hs%list_elem_of_In.
    eapply Forall_forall in HF as [_ ?]; [|exact Hs]. lia. }
  destruct fields as [|f fields]; [exact HN|]. rewrite notGeneric; [exact HN|]. intros E. apply Hh. by rewrite <- HT; cbn; rewrite E.
Qed.
Lemma parse_MX p pref n fields : textRData (RD_MX pref n) -> map token_of fields = rdTokens (RD_MX pref n) -> parseRData p rrtype.MX fields = Ok (RD_MX pref n).
Proof.
  intros [Hp Hn] HT%tokens_text. cbn [rdTokens] in HT. rewrite words_text in HT. destruct fields as [|f0 [|f1 [|]]]; try done. injection HT as E0 E1. unfold u16 in Hp.
  rewrite (first_number _ _ _ _ pref) by (done || lia). unfold parseTyped. cbn [Z.eqb Pos.eqb]. cbv beta iota.
  rewrite (uint_text pref 16 _ E0) by lia. cbn [must res_bind]. rewrite (resolve_text p n _ Hn E1). cbn [res_bind]. unfold NewMX. by rewrite (textName_valid n Hn).
Qed.
Lemma NewSOA_text m n serial refresh retry expire minimum : textRData (RD_SOA m n serial refresh retry expire minimum) ->
  NewSOA m n serial (wholeSeconds refresh * Second) (wholeSeconds retry * Second) (wholeSeconds expire * Second) (wholeSeconds minimum * Second)
  = Ok (RD_SOA m n serial refresh retry expire minimum).
Proof.
  intros (Hm & Hn & _ & H1 & H2 & H3 & H4). unfold NewSOA. rewrite (textName_valid m Hm), (textName_valid n Hn). cbn [negb].
  assert (forall d, timer d -> d = wholeSeconds d * Second /\ ((wholeSeconds d * Second <? 0) || (maxSOATimerSeconds <? Z.quot (wholeSeconds d * Second) Second)) = false) as HD.
  { intros d [Hd E]%wholeSeconds_timer. split; [done|]. unfold Second, maxTTL, maxSOATimerSeconds in *. rewrite Z.quot_mul by done. lia. }
  cbn [existsb]. rewrite (proj2 (HD _ H1)), (proj2 (HD _ H2)), (proj2 (HD _ H3)), (proj2 (HD _ H4)). cbn [orb].
  by rewrite <- (proj1 (HD _ H1)), <- (proj1 (HD _ H2)), <- (proj1 (HD _ H3)), <- (proj1 (HD _ H4)).
Qed.
Lemma parse_SOA p m n serial refresh retry expire minimum fields : let rd := RD_SOA m n serial refresh retry expire minimum in
  textRData rd -> map token_of fields = rdTokens rd -> parseRData p rrtype.SOA fields = Ok rd.
Proof.
  intros rd Ht HT%tokens_text. pose proof (NewSOA_text _ _ _ _ _ _ _ Ht) as HN. destruct Ht as (Hm & Hn & Hs & H1 & H2 & H3 & H4). unfold rd in HT. cbn [rdTokens] in HT. rewrite words_text in HT.
  destruct fields as [|f0 [|f1 [|f2 [|f3 [|f4 [|f5 [|f6 [|]]]]]]]]; try done. injection HT as E0 E1 E2 E3 E4 E5 E6. unfold u32 in Hs.
  rewrite (first_name _ _ _ _ m) by done. unfold parseTyped. cbn [Z.eqb Pos.eqb]. cbv beta iota. unfold parseSOA.
  rewrite (resolve_text p m _ Hm E0), (resolve_text p n _ Hn E1), (uint_text serial 32 _ E2) by lia. cbn [must res_bind].
  by rewrite (timer_text refresh), (timer_text retry), (timer_text expire), (timer_text minimum).
Qed.
Lemma parse_CAA p flags tag value fields : let rd := RD_CAA flags tag value in textRData rd -> map token_of fields = rdTokens rd -> parseRData p rrtype.CAA fields = Ok rd.
Proof.
  intros rd (Hf & Hl & _ & Ha & _) HT%tokens_text. destruct fields as [|f0 [|f1 [|f2 [|]]]]; try done. injection HT as E0 E1 E2. unfold u8 in Hf.
  rewrite (first_number _ _ _ _ flags) by (done || lia). unfold parseTyped. cbn [Z.eqb Pos.eqb]. cbv beta iota. unfold parseCAA.
  rewrite (uint_text flags 8 _ E0), E1, E2 by lia. cbn [must res_bind snd W]. unfold NewCAA. rewrite (proj2 (Z.eqb_neq _ 0)), (proj2 (Z.ltb_ge 15 _)) by lia. by rewrite Ha.
Qed.
Lemma parse_SRV p priority weight port n fields : let rd := RD_SRV priority weight port n in textRData rd -> map token_of fields = rdTokens rd -> parseRData p rrtype.SRV fields = Ok rd.
Proof.
  intros rd (H0 & H1 & H2 & Hn) HT%tokens_text. unfold rd in HT. cbn [rdTokens] in HT. rewrite words_text in HT. destruct fields as [|f0 [|f1 [|f2 [|f3 [|]]]]]; try done. injection HT as E0 E1 E2 E3.
  unfold u16 in *. rewrite (first_number _ _ _ _ priority) by (done || lia). unfold parseTyped. cbn [Z.eqb Pos.eqb]. cbv beta iota. unfold parseSRV.
  rewrite (uint_text priority 16 _ E0), (uint_text weight 16 _ E1), (uint_text port 16 _ E2) by lia. cbn [must res_bind].
  rewrite (resolve_text p n _ Hn E3). cbn [res_bind]. unfold NewSRV. by rewrite (textName_valid n Hn).
Qed.
Lemma parse_DS p keyTag alg dt digest fields : let rd := RD_DS keyTag alg dt digest in textRData rd -> map token_of fields = rdTokens rd -> parseRData p rrtype.DS fields = Ok rd.
Proof.
  intros rd (H0 & H1 & H2 & [Hb _] & _ & HD) HT%tokens_text. unfold rd in HT. cbn [rdTokens] in HT. rewrite words_text in HT. destruct fields as [|f0 [|f1 [|f2 [|f3 [|]]]]]; try done. injection HT as E0 E1 E2 E3.
  unfold u16, u8 in *. rewrite (first_number _ _ _ _ keyTag) by (done || lia). change (parseTyped p rrtype.DS ?l) with (parseDS l). unfold parseDS.
  rewrite (uint_text keyTag 16 _ E0), (uint_text alg 8 _ E1), (uint_text dt 8 _ E2) by lia. cbn [must res_bind]. change (concat (map f_text [f3])) with (f_text f3 ++ []). rewrite app_nil_r, E3, hexDecode_Encode by done. cbn [must res_bind].
  unfold NewDS. cbv zeta. destruct HD as [->|HD]; [done|]. rewrite HD, Z.eqb_refl. by rewrite andb_false_r.
Qed.
Lemma parse_DNSKEY p flags protocol alg key fields : let rd := RD_DNSKEY flags protocol alg key in textRData rd -> map token_of fields = rdTokens rd -> parseRData p rrtype.DNSKEY fields = Ok rd.
Proof.
  intros rd (H0 & H1 & H2 & [Hb _] & _) HT%tokens_text. unfold rd in HT. cbn [rdTokens] in HT. rewrite words_text in HT. destruct fields as [|f0 [|f1 [|f2 [|f3 [|]]]]]; try done. injection HT as E0 E1 E2 E3.
  unfold u16, u8 in *. rewrite (first_number _ _ _ _ flags) by (done || lia). change (parseTyped p rrtype.DNSKEY ?l) with (parseDNSKEY l). unfold parseDNSKEY.
  rewrite (uint_text flags 16 _ E0), (uint_text protocol 8 _ E1), (uint_text alg 8 _ E2) by lia. cbn [must res_bind]. change (concat (map f_text [f3])) with (f_text f3 ++ []). rewrite app_nil_r, E3, b64Decode_Encode by done. cbn [must res_bind].
  unfold NewDNSKEY, rd. by subst protocol.
Qed.

Lemma parse_rdata p rd fields : textRData rd -> map token_of fields = rdTokens rd -> parseRData p (Type_ rd) fields = Ok rd.
Proof.
  intros H HT. destruct rd; try (destruct H as (Hok & _ & Hl); by apply parse_generic).
  all: first [by eapply parse_addr; eauto|by eapply parse_one; eauto 6|by apply parse_TXT|by apply parse_MX|by apply parse_SOA|by apply parse_CAA|by apply parse_SRV|by apply parse_DS|by apply parse_DNSKEY].
Qed.
Lemma Type_u16 rd : textRData rd -> u16 (Type_ rd).
Proof. destruct rd; intros H; first [by apply H|split; by vm_compute]. Qed.

(** *** Lines *)

(** A record that can be written. *)
Definition textRecord (r : Record_) : Prop :=
  ownerName (r_name r) /\ timer (r_ttl r) /\ r_class r ∈ classes /\
  exists rd, r_rd r = Some rd /\ textRData rd /\ (r_class r = rrtype.ClassIN -> Type_ rd <> rrtype.ANY).

Lemma ParseInt_capital c s bits : capital c -> ParseInt (c :: s) bits = None.
Proof.
  unfold capital. intros Hc. unfold ParseInt. rewrite (proj2 (Z.eqb_neq c 43)), (proj2 (Z.eqb_neq c 45)) by lia.
  unfold ParseUint. cbn [parseUint_loop]. replace (isDigit c) with false by (unfold isDigit; lia). done.
Qed.
Lemma mnemonic_upper s : Forall mnemonicChar s -> ToUpper s = s.
Proof.
  intros H. rewrite ToUpper_ascii; [|eapply Forall_impl; [exact H|]; unfold mnemonicChar, capital, isDigit; intros; cbn in *; lia].
  induction H as [|c s Hc _ IH]; [done|]. cbn. rewrite IH. f_equal. unfold upperByte. unfold mnemonicChar, capital, isDigit in Hc. by replace ((97 <=? c) && (c <=? 122)) with false by lia.
Qed.
(** The mnemonic of a type is no class, but for ANY. *)
Lemma Type_String_class t : u16 t -> t <> rrtype.ANY -> parseClass (Type_String t) = None.
Proof.
  intros Ht Hne. destruct (Type_String_chars t Ht) as [HF _]. pose proof (Type_Parse_String t Ht) as HP. unfold parseClass. rewrite mnemonic_upper by done.
  rewrite !bool_decide_eq_false_2 by (intros E; rewrite E in HP; vm_compute in HP; try done; injection HP as <-; by destruct Hne). done.
Qed.

Lemma class_text c : c ∈ classes -> field (Class_String c) /\ parseClass (Class_String c) = Some c /\ ParseInt (Class_String c) 64 = None.
Proof.
  assert (forall s, Forall capital s -> s <> [] -> zlen s <= 4 -> field s) as HF.
  { intros s Hs Hne Hl. split_and!; [|done|unfold maxLexerTokenSize; lia]. eapply word_of; [|exact Hs]. unfold capital, endsWord. intros; split; lia. }
  intros H. unfold classes in H. repeat (apply elem_of_cons in H as [->|H]); [..|by apply elem_of_nil in H];
    (split_and!; [apply HF; [repeat (apply Forall_cons_2; [split; by vm_compute|]); apply Forall_nil_2|done|by vm_compute]|by vm_compute|by vm_compute]).
Qed.
Lemma type_field t : u16 t -> field (Type_String t) /\ ParseInt (Type_String t) 64 = None.
Proof.
  intros Ht. destruct (Type_String_chars t Ht) as [HF (c & s & E & Hc)]. split; [|by rewrite E, ParseInt_capital].
  split_and!; [eapply word_of; [apply mnemonic_plain|done]|by rewrite E|]. unfold Type_String, maxLexerTokenSize. destruct (List.find _ _) as [[t' s']|] eqn:EF.
  - apply find_some in EF as [Hin _]. assert (forallb (fun q => zlen q.2 <=? 100) typeNames = true) as HB by (vm_compute; reflexivity). rewrite forallb_forall in HB. apply HB in Hin. cbn [snd] in Hin. lia.
  - rewrite zlen_app. change (zlen (str "TYPE")) with 4. pose proof (Format_short t 10). unfold Itoa. lia.
Qed.

Lemma ttlClass_line fs fc ft rest dttl s c t : f_text fs = Itoa s -> 0 <= s <= maxTTL -> c ∈ classes -> f_text fc = Class_String c -> u16 t -> f_text ft = Type_String t ->
  (c = rrtype.ClassIN -> t <> rrtype.ANY) -> ttlClass (fs :: fc :: ft :: rest) dttl rrtype.ClassIN = inr (s, c, ft :: rest).
Proof.
  intros Es Hs Hc Ec Ht Et HA. unfold maxTTL in Hs. destruct (class_text c Hc) as (_ & HC & HI). destruct (type_field t Ht) as [_ HTI].
  cbn [ttlClass]. rewrite Z.eqb_refl. cbn [negb]. rewrite Es, ParseInt_Itoa by lia. replace ((s <? 0) || (maxTTL <? s)) with false by (unfold maxTTL; lia).
  rewrite Ec, HI, HC. destruct (c =? rrtype.ClassIN) eqn:E; bool_facts; [|done]. cbn [negb]. rewrite Et, HTI, Type_String_class by auto. by rewrite E.
Qed.

Definition lineTokens (r : Record_) (rd : RData) (org : Name) : list (bool * bytes) :=
  map W [relativise (r_name r) org; Itoa (wholeSeconds (r_ttl r)); Class_String (r_class r); Type_String (Type_ rd)] ++ rdTokens rd.
Lemma handleLine_record nested e p fields r rd org : textRecord r -> r_rd r = Some rd -> textName org -> origin p = org -> map token_of fields = lineTokens r rd org ->
  handleLine nested e p fields false = inr (append p r).
Proof.
  intros (Ho & HT & Hc & rd' & Erd & Hrd & HA) E Horg Hp HF. rewrite Erd in E. injection E as ->. destruct (owner_read _ org Ho Horg) as (_ & _ & _ & Hd & HR).
  destruct fields as [|f0 [|f1 [|f2 [|f3 rest]]]]; try done. unfold lineTokens in HF. cbn [map app] in HF. injection HF as _ E0 _ E1 _ E2 _ E3 ER.
  destruct (wholeSeconds_timer _ HT) as [Hs Es]. unfold handleLine. rewrite E0, Hd. cbn [andb]. rewrite (HR p Hp).
  rewrite (ttlClass_line f1 f2 f3 rest _ (wholeSeconds (r_ttl r)) (r_class r) (Type_ rd)) by (done || by apply Type_u16).
  rewrite E3, Type_Parse_String by (by apply Type_u16). rewrite (proj2 (Z.ltb_ge _ _)) by lia. rewrite (parse_rdata p rd rest Hrd ER). rewrite seconds_id, <- Es by done.
  destruct r as [n c t o]. cbn in Erd |- *. by rewrite Erd.
Qed.

Lemma lex_tabbed w r ln d toks l' : field w -> lexed (within (9 :: r) ln d) toks l' -> lexed (within (9 :: w ++ 9 :: r) ln d) (W w :: toks) l'.
Proof. intros (H1 & H2 & H3) H. apply lex_blank; [by right|]. by apply lex_word. Qed.
Lemma join_line a b c d x rest : (joinWith 9 [a; b; c; d; x] ++ [10]) ++ rest = a ++ 9 :: b ++ 9 :: c ++ 9 :: d ++ 9 :: x ++ 10 :: rest.
Proof. unfold joinWith. cbn [map concat]. rewrite app_nil_r. repeat (rewrite <- !app_assoc; cbn [app]). reflexivity. Qed.
Lemma readLine_record r rd org text rest ln : textRecord r -> r_rd r = Some rd -> textName org -> formatRecord r org = Ok text ->
  exists fields ln', readLine (ended (text ++ rest) ln) = inr (fields, false, false, ended rest ln') /\ map token_of fields = lineTokens r rd org.
Proof.
  intros (Ho & HT & Hc & rd' & Erd & Hrd & HA) E Horg HF. rewrite Erd in E. injection E as ->. unfold formatRecord in HF. rewrite Erd in HF.
  destruct (owner_read _ org Ho Horg) as (Hw & Hne & Hl & _ & _). destruct (wholeSeconds_timer _ HT) as [Hs _]. unfold maxTTL in Hs.
  assert (RType r = Type_ rd) as ER by (unfold RType; by rewrite Erd). rewrite ER in HF.
  assert (text = joinWith 9 [relativise (r_name r) org; Itoa (wholeSeconds (r_ttl r)); Class_String (r_class r); Type_String (Type_ rd); formatRDataPresentation rd] ++ [10]) as -> by congruence.
  rewrite join_line.
  destruct (lex_rdata rd rest ln Hrd) as [ln' HX].
  destruct (readLine_line (relativise (r_name r) org) 9 (Itoa (wholeSeconds (r_ttl r)) ++ 9 :: Class_String (r_class r) ++ 9 :: Type_String (Type_ rd) ++ 9 :: formatRDataPresentation rd ++ 10 :: rest) ln
    (map W [Itoa (wholeSeconds (r_ttl r)); Class_String (r_class r); Type_String (Type_ rd)] ++ rdTokens rd) (ended rest ln')) as (fields & EF & EM); [done..| |].
  - cbn [map app]. apply lex_tabbed; [apply Itoa_small; lia|]. apply lex_tabbed; [by apply class_text|]. apply lex_tabbed; [by apply type_field, Type_u16|]. apply lex_blank; [by right|done].
  - exists fields, ln'. split; [exact EF|exact EM].
Qed.

(** *** Files *)

Lemma run_line fuel nested e p fields l q : readLine (lex p) = inr (fields, false, false, l) -> fields <> [] ->
  handleLine nested e (mkParser l (origin p) (defaultTTL p) (prevName p) (records p)) fields false = inr q ->
  run_loop (S fuel) nested e p = run_loop fuel nested e q.
Proof. intros ER Hne EL. cbn [run_loop]. rewrite ER. cbv zeta. rewrite bool_decide_eq_false_2 by done. cbn [andb]. by rewrite EL. Qed.

Lemma formatRecord_ends r org text : formatRecord r org = Ok text -> text <> [].
Proof. unfold formatRecord. destruct (r_rd r); [|done]. intros [= <-]. by intros [_ [=]]%app_eq_nil. Qed.

Lemma run_records nested e org recs : textName org -> Forall textRecord recs -> forall fuel p ln text, formatRecords recs org = Ok text ->
  lex p = ended text ln -> origin p = org -> (length text < fuel)%nat ->
  exists q, run_loop fuel nested e p = inr q /\ origin q = org /\ records q = records p ++ recs.
Proof.
  intros Horg HF. induction HF as [|r recs Hr HF IH]; intros fuel p ln text ET EL EO Hf; cbn [formatRecords] in ET; destruct fuel as [|fuel]; try lia.
  - injection ET as <-. eexists. cbn [run_loop]. rewrite EL. split; [reflexivity|]. cbn. by rewrite app_nil_r.
  - apply res_bind_Ok in ET as (s & Es & ET). apply res_bind_Ok in ET as (rest & Erest & ET). assert (text = s ++ rest) as -> by congruence.
    pose proof Hr as (_ & _ & _ & rd & Erd & _). destruct (readLine_record r rd org s rest ln Hr Erd Horg Es) as (fields & ln' & ER & EF). rewrite <- EL in ER.
    assert (fields <> []) as Hne by (by destruct fields).
    erewrite (run_line fuel nested e p fields _ _ ER Hne) by (by apply (handleLine_record nested e _ fields r rd org)). pose proof (formatRecord_ends r org s Es).
    edestruct (IH fuel (append (mkParser (ended rest ln') (origin p) (defaultTTL p) (prevName p) (records p)) r) ln' rest) as (q & EQ & EOq & ERq); [done|done|done| |].
    + rewrite length_app in Hf. destruct s; [done|]. cbn in Hf. lia.
    + exists q. split_and!; [done|done|]. rewrite ERq. cbn. by rewrite <- app_assoc.
Qed.

(** A directive and its argument. *)
Lemma run_directive fuel nested e p d arg rest ln q : field d -> field arg -> lex p = ended (d ++ 32 :: arg ++ 10 :: rest) ln -> HasPrefix d [36] = true ->
  (forall f0 f1, f_text f0 = d -> f_text f1 = arg -> handleDirective nested e (mkParser (ended rest (ln + 1)) (origin p) (defaultTTL p) (prevName p) (records p)) [f0; f1] = inr q) ->
  run_loop (S fuel) nested e p = run_loop fuel nested e q.
Proof.
  intros (H1 & H2 & H3) Ha EL HP HD. destruct (readLine_line d 32 (arg ++ 10 :: rest) ln [W arg] (ended rest (ln + 1))) as (fields & ER & EF); [done..| |].
  { apply lex_blank; [by left|]. by apply lex_word_eol. }
  destruct fields as [|f0 [|f1 [|]]]; try done. injection EF as _ E0 _ E1. eapply run_line; [by rewrite EL|done|]. unfold handleLine. rewrite E0, HP. by apply HD.
Qed.

Definition textZone (z : Zone) : Prop := textName (z_origin z) /\ Forall textRecord (z_records z).

Lemma formatRecords_Ok recs org : Forall textRecord recs -> exists text, formatRecords recs org = Ok text.
Proof.
  induction 1 as [|r recs (_ & _ & _ & rd & Erd & _) _ [text IH]]; [by eexists|]. cbn [formatRecords]. unfold formatRecord. rewrite Erd. cbn [res_bind]. rewrite IH. by eexists.
Qed.

(** The line of the default TTL, when there is one. *)
Definition defaultLine (z : Zone) (line : bytes) : Prop := line = [] \/ exists v, 0 <= v <= maxTTL /\ line = str "$TTL " ++ Itoa v ++ [10].
Lemma WriteZone_shape z : textZone z -> exists line text, formatRecords (z_records z) (z_origin z) = Ok text /\ defaultLine z line /\
  WriteZone z = Ok (str "$ORIGIN " ++ String_ (z_origin z) ++ [10] ++ line ++ text).
Proof.
  intros [_ HF]. destruct (formatRecords_Ok _ (z_origin z) HF) as [text ET]. unfold WriteZone. rewrite ET. cbn [res_bind]. eexists _, text. split_and!; [done| |reflexivity].
  destruct (Zone_SOA z) as [r|] eqn:ES; [|by left]. apply find_some in ES as [Hin%list_elem_of_In _]. eapply Forall_forall in HF as (_ & _ & _ & rd & Erd & Hrd & _); [|exact Hin].
  rewrite Erd. destruct rd; try (by left). destruct Hrd as (_ & _ & _ & _ & _ & _ & [? _]%wholeSeconds_timer). destruct (_ <? _); [right; eauto|by left].
Qed.

Lemma run_written z line text fuel nested e p : textZone z -> formatRecords (z_records z) (z_origin z) = Ok text -> defaultLine z line ->
  lex p = ended (str "$ORIGIN " ++ String_ (z_origin z) ++ [10] ++ line ++ text) 1 -> records p = [] -> (length (l_r (lex p)) < fuel)%nat ->
  exists q, run_loop fuel nested e p = inr q /\ mkZone (origin q) (records q) = z.
Proof.
  intros [Ho HF] ET HL EL ER Hf. rewrite EL in Hf. pose proof (textName_read _ Ho) as (Hw & Hne & Hlen & HP & _). cbn [l_r ended] in Hf. rewrite !length_app in Hf. cbn [length str] in Hf.
  destruct fuel as [|fuel]; [lia|]. change (str "$ORIGIN " ++ ?t) with (str "$ORIGIN" ++ 32 :: t) in EL.
  assert (field (str "$ORIGIN")) as Hd by (split_and!; [repeat (apply word_plain; [done|done|]); apply word_nil|done|done]).
  set (p1 := mkParser (ended (line ++ text) 2) (z_origin z) (defaultTTL p) (prevName p) []).
  assert (run_loop (S fuel) nested e p = run_loop fuel nested e p1) as ->.
  { eapply run_directive; [exact Hd|by apply textName_field|exact EL|done|]. intros f0 f1 E0 E1. unfold handleDirective. rewrite E0, E1, HP, ER. reflexivity. }
  assert (forall fuel ln p2, (length text < fuel)%nat -> lex p2 = ended text ln -> origin p2 = z_origin z -> records p2 = [] ->
    exists q, run_loop fuel nested e p2 = inr q /\ mkZone (origin q) (records q) = z) as Hrest.
  { intros fuel' ln p2 Hf' E1 E2 E3. destruct (run_records nested e _ _ Ho HF fuel' p2 ln text ET E1 E2 Hf') as (q & EQ & EO & ERq). exists q. split; [done|].
    rewrite EO, ERq, E3. by destruct z. }
  destruct HL as [->|(v & Hv & ->)]; [apply (Hrest _ 2); [cbn in Hf; lia|done..]|]. unfold maxTTL in Hv.
  rewrite !length_app in Hf. destruct fuel as [|fuel]; [cbn in Hf; lia|]. set (p2 := mkParser (ended text 3) (z_origin z) v (prevName p) []).
  assert (run_loop (S fuel) nested e p1 = run_loop fuel nested e p2) as ->; [|apply (Hrest _ 3); [cbn in Hf; lia|done..]].
  eapply (run_directive _ _ _ p1 (str "$TTL") (Itoa v) text 2); [split_and!; [repeat (apply word_plain; [done|done|]); apply word_nil|done|done]|apply Itoa_small; lia| |done|].
  - unfold p1. cbn [lex]. rewrite <- !app_assoc. reflexivity.
  - intros f0 f1 E0 E1. unfold handleDirective. rewrite E0, E1, ParseInt_Itoa by lia. replace ((v <? 0) || (maxTTL <? v)) with false by (unfold maxTTL; lia). reflexivity.
Qed.

(** C35. What [Write] prints of a zone, [Parse] reads back as the same zone, of
    every zone whose names, payloads and numbers can be written: names free of
    the quote, the parentheses and the semicolon, owners besides without dots
    in a label and not beginning with "@" alone or "$", TTLs and timers of
    whole seconds, and payloads valid for their type. *)
Theorem zone_roundtrip z : textZone z -> exists text, WriteZone z = Ok text /\ ParseZone text [] = inr z.
Proof.
  intros Hz. destruct (WriteZone_shape z Hz) as (line & text & ET & HL & EW). eexists. split; [exact EW|]. unfold ParseZone. cbn [parseConfig fold_left newParser]. cbv zeta.
  match goal with |- context [run ?d ?e ?p] => change d with 8%nat; set (e' := e); set (p' := p) end. cbn [run].
  destruct (run_written z line text (2 + length (l_r (lex p'))) (run 7) e' p' Hz ET HL) as (q & EQ & EZ); [done|done|lia|]. cbn [run] in EQ. rewrite EQ. by rewrite EZ.
Qed.

Module Written.
Definition labels (s : list string) : list bytes := map str s.
Definition named (s : list string) : Name := mkName (encName (labels s)).
Definition org := named ["example"%string].
Definition www := named ["www"; "example"]%string.
Definition zone : Zone := mkZone org [
  mkRecord org rrtype.ClassIN (3600 * Second) (Some (RD_SOA www (named ["admin"%string]) 2024010101 (7200 * Second) (900 * Second) (86400 * Second) (300 * Second)));
  mkRecord www rrtype.ClassIN (60 * Second) (Some (RD_A (Addr4 [192; 0; 2; 1])));
  mkRecord www rrtype.ClassCH (60 * Second) (Some (RD_TXT [str "say "; [34; 59; 92; 200]]));
  mkRecord (named ["b"; "a"]%string) rrtype.ClassIN (0 * Second) (Some (RD_CAA 128 (str "issue") (str "ca.example")));
  mkRecord www rrtype.ClassIN (60 * Second) (Some (RD_EUI48 [0; 17; 34; 51; 68; 255]))].

Definition letter (c : Z) : bool := (97 <=? c) && (c <=? 122).
Definition letters (ls : list bytes) : bool := forallb (fun l => (1 <=? zlen l) && (zlen l <=? 63) && forallb letter l) ls && (zlen (encName ls) <=? maxNameLen).
Lemma letters_text ls : letters ls = true -> ownerName (mkName (encName ls)) /\ textName (mkName (encName ls)).
Proof.
  intros [HF HL]%andb_true_iff. rewrite forallb_forall in HF.
  assert (Forall (fun l => 1 <= zlen l <= 63 /\ Forall (fun c => 97 <= c <= 122) l) ls) as HP.
  { apply Forall_forall. intros l Hl%list_elem_of_In. apply HF in Hl. apply andb_true_iff in Hl as [Hz Hl]. rewrite forallb_forall in Hl. split; [lia|].
    apply Forall_forall. intros c Hc%list_elem_of_In%Hl. unfold letter in Hc. lia. }
  assert (forall Q : Z -> Prop, (forall c, 97 <= c <= 122 -> Q c) -> Forall (Forall Q) ls) as HA.
  { intros Q HQ. eapply Forall_impl; [exact HP|]. intros l [_ Hl]. eapply Forall_impl; [exact Hl|exact HQ]. }
  assert (wf_name (mkName (encName ls)) ls) as Hw.
  { split_and!; [done| |cbn; lia]. eapply Forall_impl; [exact HP|]. intros l [Hz Hl]. split; [done|]. eapply Forall_impl; [exact Hl|]. unfold u8. intros; cbn in *; lia. }
  assert (textLabels ls) as Ht.
  { split; [apply HA|apply HA; intros c Hc; rewrite !not_elem_of_cons; split_and!; [lia..|apply not_elem_of_nil]].
    intros c Hc. split_and!; [unfold u8; lia|lia|]. unfold foldByte. repeat case_match; lia. }
  split; [|by exists ls]. exists ls. split_and!; [done..|apply HA; lia|]. destruct ls as [|l ls]; [done|]. apply Forall_cons in HP as [[_ HP] _].
  destruct HP as [|c l Hc _]; [done|]. split; [intros [= -> _]; lia|]. cbn. intros [= ->]. lia.
Qed.
Lemma zone_text : textZone zone.
Proof.
  assert (forall s, 0 <= s <= maxTTL -> timer (s * Second)) as HS by (intros s Hs; by exists s).
  assert (forall b, forallb (fun c => (0 <=? c) && (c <? 256)) b = true -> is_bytes b) as HB.
  { intros b Hb. rewrite forallb_forall in Hb. apply Forall_forall. intros c Hc%list_elem_of_In%Hb. unfold u8. lia. }
  split; [by apply letters_text|]. repeat (apply Forall_cons_2; [split_and!; [by apply letters_text|apply HS; by vm_compute|set_solver|eexists; split; [reflexivity|]; split; [|done]]|]); [..|apply Forall_nil_2].
  - split_and!; [by apply letters_text|by apply letters_text|split; by vm_compute|apply HS; by vm_compute..].
  - exists [192; 0; 2; 1]. split_and!; [done|by apply HB|done].
  - split; [|done]. repeat (apply Forall_cons_2; [split; [by apply HB|by vm_compute]|]). apply Forall_nil_2.
  - split_and!; try (split; by vm_compute); by (apply HB || vm_compute).
  - split_and!; [split; [by apply HB|done]|split; by vm_compute|by vm_compute].
Qed.
Lemma zone_roundtrip_witness : exists text, WriteZone zone = Ok text /\ ParseZone text [] = inr zone.
Proof. exact (zone_roundtrip zone zone_text). Defined.
End Written.

(** ** Where the code errs *)

Module Errs.
Definition lines (l : list string) : bytes := fold_right (fun s r => str s ++ [10] ++ r) [] l.
Definition parsed (l : list string) : failure + Zone := ParseZone (lines l) [].
Definition named (ls : list bytes) : Name := mkName (encName ls).
Definition x := named [str "x"].
Definition ax := named [str "a"; str "x"].
Definition A1234 := RD_A (Addr4 [1; 2; 3; 4]).
(** What is read of a zone that was written. *)
Definition reread (z : Zone) : failure + Zone := match WriteZone z with Ok t => ParseZone t [] | Err _ => inl OutOfFuel end.

(** The check that ends the loop of [$GENERATE] (generate.go:121) tests a sum
    that wraps: past the largest integer the values begin anew. *)
Definition endless := mkRange 0 9223372036854775806 4611686018427387904.
Definition orbit : list Z := [0; 4611686018427387904; -9223372036854775808; -4611686018427387904].
Lemma generate_endless (P : parser -> Prop) one : (forall p v, P p -> v ∈ orbit -> exists q, one p v = inr q /\ P q) ->
  forall fuel p, P p -> generate_loop fuel one endless (g_start endless) p = inl (Endless (g_start endless) (g_stop endless) (g_step endless)).
Proof.
  intros Hone. set (body := generate_round one endless). assert (forall v p, P p -> v ∈ orbit -> exists v' p', body (v, p) = inr (v', p') /\ P p' /\ v' ∈ orbit) as H1.
  { intros v p Hp Hv. unfold body, generate_round. destruct (Hone p v Hp Hv) as (q & -> & Hq).
    repeat (apply elem_of_cons in Hv as [->|Hv]); [..|by apply elem_of_nil in Hv];
      (rewrite (proj2 (Z.eqb_neq _ _)), (proj2 (Z.ltb_ge _ _)) by (vm_compute; congruence); do 2 eexists; split; [reflexivity|]; split; [done|vm_compute (wrap64 _); set_solver]). }
  assert (forall n v p, P p -> v ∈ orbit -> exists v' p', rounds n body (v, p) = inr (v', p') /\ P p' /\ v' ∈ orbit) as H2.
  { induction n as [n IH|n IH|]; intros v p Hp Hv; cbn [rounds]; [..|by apply H1].
    - destruct (H1 v p Hp Hv) as (v1 & p1 & -> & Hp1 & Hv1). destruct (IH v1 p1 Hp1 Hv1) as (v2 & p2 & -> & Hp2 & Hv2). by apply IH.
    - destruct (IH v p Hp Hv) as (v2 & p2 & -> & Hp2 & Hv2). by apply IH. }
  intros fuel p Hp. unfold generate_loop. fold body. destruct (H2 fuel (g_start endless) p Hp ltac:(by left)) as (v' & p' & -> & _). done.
Qed.
(** Its count, which is checked against the limit, is two. *)
Definition settings0 := mkSettings DefaultGenerateMaxIterations [] None 0 DefaultIncludeMaxDepth.
Definition fields (l : list string) : list fieldTok := map (fun s => mkField (str s) false 3) l.
Lemma generate_endless_admitted p : origin p = x -> iterations endless = 2 /\
  handleGenerate settings0 p (fields ["$GENERATE"; "0-9223372036854775806/4611686018427387904"; "a$"; "1"; "A"; "1.2.3.4"]%string) = inl (Endless 0 9223372036854775806 4611686018427387904).
Proof.
  intros Hp. split; [vm_compute; reflexivity|]. unfold handleGenerate, fields. cbn [map]. replace (_ <? 5) with false by (vm_compute; reflexivity).
  replace (parseGenerateRange _) with (Some endless) by (vm_compute; reflexivity). replace (_ <? _) with false by (vm_compute; reflexivity).
  replace (ttlClass _ _ _) with (inr (A := Z) (1, rrtype.ClassIN, fields ["A"; "1.2.3.4"]%string)) by (vm_compute; reflexivity). cbn [fields map]. replace (Type_Parse _) with (Some rrtype.A) by (vm_compute; reflexivity).
  replace (1 <? 0) with false by reflexivity. cbv iota. apply (generate_endless (fun q => origin q = x)); [|done].
  intros [l o d pr rs] v Ho Hv. cbn in Ho. subst o. repeat (apply elem_of_cons in Hv as [->|Hv]); [..|by apply elem_of_nil in Hv]; (eexists; split; [vm_compute; reflexivity|reflexivity]).
Qed.
(** Where the values come down on the far side of the stop, the loop ends, with
    more records than were counted: eleven instead of two. *)
Lemma generate_exceeds_count : iterations (mkRange 0 9223372036854775806 5869418568907584605) = 2 /\
  exists z, parsed ["$ORIGIN x."; "$TTL 1"; "$GENERATE 0-9223372036854775806/5869418568907584605 a$ A 1.2.3.4"]%string = inr z /\ length (z_records z) = 11%nat.
Proof. split; [vm_compute; reflexivity|]. eexists. split; vm_compute; reflexivity. Qed.

(** The count itself wraps: the widest range has a negative one, below every
    limit. *)
Definition widest := mkRange 0 9223372036854775807 1.
Lemma generate_limit_bypassed e : 0 <= maxGenerateIterations e ->
  parseGenerateRange (str "0-9223372036854775807") = Some widest /\ (maxGenerateIterations e <? iterations widest) = false.
Proof.
  intros H. split; [vm_compute; reflexivity|]. assert (iterations widest = -9223372036854775808) as -> by (vm_compute; reflexivity). apply Z.ltb_ge. lia.
Qed.

(** A width that cannot be allocated makes the parser panic. *)
Lemma generate_width_panics : parsed ["$ORIGIN x."; "$TTL 1"; "$GENERATE 0-1 a${0,9223372036854775807} A 1.2.3.4"]%string = inl (Panicked 9223372036854775806).
Proof. vm_compute. reflexivity. Qed.

(** A quoted [\#] is taken for the generic form (parser.go:298). *)
Lemma quoted_hash_misread :
  reread (mkZone x [mkRecord ax rrtype.ClassIN Second (Some (RD_TXT [str "\#"; str "0"]))]) = inr (mkZone x [mkRecord ax rrtype.ClassIN Second (Some (RD_Unknown rrtype.TXT []))]).
Proof. vm_compute. reflexivity. Qed.

(** A name that ends in an escaped dot is taken for an absolute one. *)
Lemma escaped_dot_absolute : parsed ["$ORIGIN x."; "$TTL 1"; "foo\. A 1.2.3.4"]%string = inr (mkZone x [mkRecord (named [str "foo."]) rrtype.ClassIN Second (Some A1234)]).
Proof. vm_compute. reflexivity. Qed.

(** The writer does not escape what the lexer or the parser gives a meaning: a
    semicolon begins a comment, a label "@" reads as the origin. *)
Lemma semicolon_not_escaped : reread (mkZone x [mkRecord (named [str "a;b"; str "x"]) rrtype.ClassIN Second (Some A1234)]) = inl (AtLine [] 2 ErrPlain).
Proof. vm_compute. reflexivity. Qed.
Lemma at_not_escaped : reread (mkZone x [mkRecord (named [str "@"; str "x"]) rrtype.ClassIN Second (Some A1234)]) = inr (mkZone x [mkRecord x rrtype.ClassIN Second (Some A1234)]).
Proof. vm_compute. reflexivity. Qed.

(** After IN, the type ANY is read as a class. *)
Lemma any_read_as_class : reread (mkZone x [mkRecord ax rrtype.ClassIN Second (Some (RD_Unknown rrtype.ANY [1]))]) = inl (AtLine [] 2 ErrPlain).
Proof. vm_compute. reflexivity. Qed.

(** After another class than IN, no TTL is read. *)
Lemma ttl_after_class : parsed ["$ORIGIN x."; "a CH 60 TXT hi"]%string = inl (AtLine [] 2 ErrPlain) /\
  parsed ["$ORIGIN x."; "a IN 60 TXT hi"]%string = inr (mkZone x [mkRecord ax rrtype.ClassIN (60 * Second) (Some (RD_TXT [str "hi"]))]).
Proof. split; vm_compute; reflexivity. Qed.

(** An empty quoted string as the first owner yields a record without a name. *)
Lemma empty_owner_accepted : ParseZone ([34; 34] ++ lines [" 1 A 1.2.3.4"]%string) [] = inr (mkZone zeroName [mkRecord zeroName rrtype.ClassIN Second (Some A1234)]).
Proof. vm_compute. reflexivity. Qed.

(** The host bits of the prefix are kept, and the octets pass 255. *)
Lemma classless_past_octet : exists rs, classless.BuildDelegationCNAMEs (PrefixFrom (Addr4 [192; 0; 2; 200]) 25) (named [str "s"]) 0 = Ok rs /\
  exists r, last rs = Some r /\ String_ (r_name r) = str "327.2.0.192.in-addr.arpa.".
Proof. eexists. split; [vm_compute; reflexivity|]. eexists. split; vm_compute; reflexivity. Qed.
End Errs.
