(* ===== verification/Sig0.v ===== *)
(** * SIG(0) (src/sig0)

    Transaction signatures by public keys: the signer appends a SIG record to
    the packed message, the verifier finds and removes the last record and
    checks the signature and its validity (sig0.go); a cache refuses what was
    verified before (replay.go).  The signer's callback is an argument, the
    crypto packages are the class [Crypto], the clock is an argument; the error
    [ErrTSIGMissing] stands for sig0's own ErrSIGMissing. *)

From Stdlib Require Import Strings.String.
From S2P Require Import Prelude Name Wire RData Message Compare Dnssec Tsig Replay.
Open Scope Z_scope.
Open Scope list_scope.

Module sig0.

Definition sigType : Z := 24.
Definition classANY : Z := 255.

(** ** sig0.go *)

Definition buildSIGRDataPrefix (alg expiration inception keyTag : Z) (signer : Name) : bytes :=
  be16 0 ++ [to_u8 alg] ++ [0] ++ be32 0 ++ be32 expiration ++ be32 inception ++ be16 keyTag ++ AppendWire signer [].

Definition appendSIGRR (buf rdataBytes : bytes) : bytes :=
  buf ++ [0] ++ be16 sigType ++ be16 classANY ++ be32 0 ++ be16 (zlen rdataBytes) ++ rdataBytes.

(** [signFn] is the callback. *)
Definition Sign (msg : bytes) (signer : Name) (alg keyTag : Z) (signFn : bytes -> res bytes) (now validity : Z) : res bytes :=
  if zlen msg <? 12 then Err ErrPlain
  else
    let exp := now + validity in
    if (unix now <? 0) || (unix exp <? 0) || (0xFFFFFFFF <? unix now) || (0xFFFFFFFF <? unix exp) then Err ErrPlain
    else
      let rdataNoSig := buildSIGRDataPrefix alg (to_u32 (unix exp)) (to_u32 (unix now)) keyTag signer in
      let? sig := signFn (rdataNoSig ++ msg) in
      let out := msg ++ appendSIGRR [] (rdataNoSig ++ sig) in
      Ok (putUint16 out 10 (to_u16 (uint16At out 10 + 1))).

Record parsedSIG := mkSIG { sig_algorithm : Z; sig_expiration : Z; sig_inception : Z; sig_keyTag : Z; sig_signer : Name; sig_signature : bytes }.

(** [binary.BigEndian.Uint32(msg[i:])], in range. *)
Definition uint32At (msg : bytes) (i : Z) : Z := get32 (zget msg i) (zget msg (i + 1)) (zget msg (i + 2)) (zget msg (i + 3)).

(** The walk over the questions and records is the one of package tsig. *)
Definition findLastRROffset (msg : bytes) : res Z :=
  let qdcount := uint16At msg 4 in
  let ancount := uint16At msg 6 in
  let nscount := uint16At msg 8 in
  let arcount := uint16At msg 10 in
  let totalRR := ancount + nscount + arcount in
  let? off := skipQuestions (Z.to_nat qdcount) msg 12 in
  let? r := skipRRs (Z.to_nat totalRR) msg off off in
  Ok (snd r).

(** The payload of the record, between two offsets. *)
Definition parseSIGRData (msg : bytes) (rdataStart rdataEnd : Z) : res parsedSIG :=
  let cur := rdataStart in
  if rdataEnd <? cur + 18 then Err ErrPlain
  else
    let cur := cur + 2 in
    let alg := zget msg cur in
    let cur := cur + 1 + 1 + 4 in
    let expiration := uint32At msg cur in
    let cur := cur + 4 in
    let inception := uint32At msg cur in
    let cur := cur + 4 in
    let keyTag := uint16At msg cur in
    let cur := cur + 2 in
    let? r := DecodeWire msg cur in
    let '(signer, sigStart) := r in
    if rdataEnd <? sigStart then Err ErrPlain
    else Ok (mkSIG alg expiration inception keyTag signer (zslice msg sigStart rdataEnd)).

Definition stripSIG (msg : bytes) : res (bytes * parsedSIG) :=
  if zlen msg <? 12 then Err ErrPlain
  else
    let arcount := uint16At msg 10 in
    if arcount =? 0 then Err ErrTSIGMissing
    else
      let? last := findLastRROffset msg in
      let? r := DecodeWire msg last in
      let '(owner, off) := r in
      if negb (IsRoot owner) then Err ErrTSIGMissing
      else if zlen msg <? off + 10 then Err ErrPlain
      else if negb (uint16At msg off =? sigType) then Err ErrTSIGMissing
      else if negb (uint16At msg (off + 2) =? classANY) then Err ErrTSIGMissing
      else
        let rdlen := uint16At msg (off + 8) in
        let rdataStart := off + 10 in
        let rdataEnd := rdataStart + rdlen in
        if zlen msg <? rdataEnd then Err ErrPlain
        else
          let? sig := parseSIGRData msg rdataStart rdataEnd in
          Ok (putUint16 (zslice msg 0 last) 10 (arcount - 1), sig).

(** RFC 1982: [int32(a-b) < 0] *)
Definition sig0SerialLT (a b : Z) : bool := 2 ^ 31 <=? to_u32 (a - b).

Section Crypto.
Context `{Crypto}.

Definition parseRSAPublic (b : bytes) : res (Z * Z) := dnssecbb.ParseRSAPublic b.

Definition verifyECDSA (curve : Curve) (sz : Z) (h : bytes -> bytes) (data pub sig : bytes) : res unit :=
  if negb (zlen pub =? 2 * sz) then Err ErrBadSignature
  else if negb (zlen sig =? 2 * sz) then Err ErrBadSignature
  else
    let k := Z.to_nat sz in
    let x := dnssecbb.SetBytes (take k pub) in
    let y := dnssecbb.SetBytes (drop k pub) in
    let r := dnssecbb.SetBytes (take k sig) in
    let s := dnssecbb.SetBytes (drop k sig) in
    if negb (ecdsaVerify curve (x, y) (h data) (r, s)) then Err ErrBadSignature else Ok tt.

Definition verifySignature (alg : Z) (pubkeyWire data sig : bytes) : res unit :=
  if alg =? AlgRSASHA256 then
    let? pub := parseRSAPublic pubkeyWire in
    if rsaVerifyPKCS1v15 pub (sha256 data) sig then Ok tt else Err ErrBadSignature
  else if alg =? AlgRSASHA512 then
    let? pub := parseRSAPublic pubkeyWire in
    if rsaVerifyPKCS1v15 pub (sha512 data) sig then Ok tt else Err ErrBadSignature
  else if alg =? AlgECDSAP256SHA256 then verifyECDSA P256 32 sha256 data pubkeyWire sig
  else if alg =? AlgECDSAP384SHA384 then verifyECDSA P384 48 sha384 data pubkeyWire sig
  else if alg =? AlgED25519 then
    if negb (zlen pubkeyWire =? 32) then Err ErrBadSignature
    else if negb (ed25519Verify pubkeyWire data sig) then Err ErrBadSignature else Ok tt
  else Err ErrUnsupportedAlgorithm.

Definition verifyExtractSIG (msg : bytes) (key : DNSKEY) (expectedSigner : Name) (now : Z) : res (bytes * parsedSIG) :=
  let? r := stripSIG msg in
  let '(body, sig) := r in
  if negb (Equal (sig_signer sig) expectedSigner) then Err ErrPlain
  else if negb (k_algorithm key =? sig_algorithm sig) then Err ErrUnsupportedAlgorithm
  else if IsRejectedAlgorithm (sig_algorithm sig) then Err ErrUnsupportedAlgorithm
  else if negb (KeyTag key =? sig_keyTag sig) then Err ErrKeyTagMismatch
  else
    let rdataNoSig := buildSIGRDataPrefix (k_algorithm key) (sig_expiration sig) (sig_inception sig) (sig_keyTag sig) (sig_signer sig) in
    let? _ := verifySignature (k_algorithm key) (k_pubkey key) (rdataNoSig ++ body) (sig_signature sig) in
    let nowU := to_u32 (unix now) in
    if sig0SerialLT (sig_expiration sig) nowU || sig0SerialLT nowU (sig_inception sig) then Err ErrBadTime
    else Ok (body, sig).
Definition Verify (msg : bytes) (key : DNSKEY) (expectedSigner : Name) (now : Z) : res bytes :=
  let? r := verifyExtractSIG msg key expectedSigner now in Ok (fst r).
End Crypto.

(** ** replay.go *)

Record MemoryReplayCache := mkCache { size : Z; window : Z; seen : gmap bytes Z }.
Inductive ReplayCacheOption := WithReplayWindow (d : Z) | WithReplayCacheSize (n : Z).
Definition applyReplayOption (c : MemoryReplayCache) (o : ReplayCacheOption) : MemoryReplayCache :=
  match o with
  | WithReplayWindow d => mkCache (size c) d (seen c)
  | WithReplayCacheSize n => mkCache n (window c) (seen c)
  end.
Definition DefaultReplayWindow : Z := 5 * Minute.
Definition DefaultReplayCacheSize : Z := 16384.
Definition NewMemoryReplayCache (opts : list ReplayCacheOption) : MemoryReplayCache :=
  fold_left applyReplayOption opts (mkCache DefaultReplayCacheSize DefaultReplayWindow ∅).

(** Sixteen digits, the lowest four bits last. *)
Fixpoint hexDigits (n : nat) (v : Z) : bytes :=
  match n with O => [] | S n => hexDigits n (Z.shiftr v 4) ++ [hexDigit (Z.land v 15)] end.
Definition hexInt64 (v : Z) : bytes := hexDigits 16 v.
Definition replayKey (signer : Name) (inception : Z) (signature : bytes) : bytes :=
  AppendWire signer [] ++ [0] ++ hexInt64 (unix inception) ++ [0] ++ EncodeToString signature.

Definition evictExpiredLocked (c : MemoryReplayCache) (now : Z) : MemoryReplayCache :=
  let cutoff := now - window c in
  mkCache (size c) (window c) (filter (fun kt => cutoff <= snd kt) (seen c)).
Definition evictOldestLocked `{MapRange} (c : MemoryReplayCache) : MemoryReplayCache :=
  match fold_left olderOf (mapRange (seen c)) None with
  | Some (oldestKey, _) => mkCache (size c) (window c) (delete oldestKey (seen c))
  | None => c
  end.

Definition Seen `{MapRange} (c : MemoryReplayCache) (now : Z) (signer : Name) (inception : Z) (signature : bytes) : bool * MemoryReplayCache :=
  let key := replayKey signer inception signature in
  let c := evictExpiredLocked c now in
  match seen c !! key with
  | Some _ => (true, c)
  | None =>
      let c := if (0 <? size c) && (size c <=? Z.of_nat (base.size (seen c))) then evictOldestLocked c else c in
      (false, mkCache (size c) (window c) (<[key := now]> (seen c)))
  end.

(** [cache] is [None] when nil; its clock reads [now] too. *)
Definition VerifyWithReplay `{Crypto} `{MapRange} (msg : bytes) (key : DNSKEY) (expectedSigner : Name) (now : Z) (cache : option MemoryReplayCache) :
    res bytes * option MemoryReplayCache :=
  match verifyExtractSIG msg key expectedSigner now with
  | Err e => (Err e, cache)
  | Ok (body, sig) =>
      match cache with
      | None => (Ok body, None)
      | Some c =>
          let incept := sig_inception sig * Second in
          let '(dup, c) := Seen c now (sig_signer sig) incept (sig_signature sig) in
          if dup then (Err ErrReplay, Some c) else (Ok body, Some c)
      end
  end.
End sig0.
