(* ===== verification/Sig0Sound.v ===== *)
(** * SIG(0): theorems

    A signed message verifies to the bytes that were signed; an accepted
    message was signed as such by the key, or the signature is a forgery; and a
    message is accepted once, as long as the cache remembers it. *)

From Stdlib Require Import Strings.String.
From S2P Require Import Prelude Name Wire RData RDataCodec RDataRoundtrip Message MessageRoundtrip Reader RDataReads MessageReads Compare Dnssec Signatures Tsig TsigSound Replay ReplaySound Sig0.
Open Scope Z_scope.
Open Scope list_scope.
Import sig0.

(** ** Fields *)

Lemma uint32At_at msg off v : u32 v -> at_bytes msg off (be32 v) -> uint32At msg off = v.
Proof.
  intros Hv Ha. unfold uint32At, be32 in *. apply at_bytes_cons in Ha as [H0 Ha]. apply at_bytes_cons in Ha as [H1 Ha]. apply at_bytes_cons in Ha as [H2 H3].
  replace (off + 1 + 1) with (off + 2) in H2, H3 by lia. replace (off + 2 + 1) with (off + 3) in H3 by lia.
  rewrite (at_bytes_get _ _ _ _ H0), (at_bytes_get _ _ _ _ H1), (at_bytes_get _ _ _ _ H2), (at_bytes_get _ _ _ _ H3). by apply get32_be32.
Qed.
Lemma canonical_Root : canonical Root /\ AppendWire Root [] = [0].
Proof. split; [|done]. exists []. split; [split_and!; [done|apply Forall_nil_2|by vm_compute]|apply Forall_nil_2]. Qed.

Lemma prefix_ok alg exp inc kt n : canonical n ->
  is_bytes (buildSIGRDataPrefix alg exp inc kt n) /\ zlen (buildSIGRDataPrefix alg exp inc kt n) = 18 + zlen (AppendWire n []).
Proof.
  intros Hn. destruct (AppendWire_len _ Hn) as [Hb _]. unfold buildSIGRDataPrefix. split.
  - repeat (apply Forall_app_2; [first [by auto with wire|apply Forall_cons_2; [first [apply to_u8_range|unfold u8; lia]|apply Forall_nil_2]]|]). done.
  - rewrite !zlen_app, !zlen_be16, !zlen_be32. llia.
Qed.

Lemma parseSIGRData_at msg off alg exp inc kt n sig : canonical n -> is_bytes msg -> u8 alg -> u32 exp -> u32 inc -> u16 kt ->
  at_bytes msg off (buildSIGRDataPrefix alg exp inc kt n ++ sig) ->
  parseSIGRData msg off (off + zlen (buildSIGRDataPrefix alg exp inc kt n ++ sig)) = Ok (mkSIG alg exp inc kt n sig).
Proof.
  intros Hn Hb Ha He Hi Hk HA. destruct (prefix_ok alg exp inc kt n Hn) as [_ HL]. rewrite zlen_app, HL. destruct (AppendWire_len _ Hn) as [_ Ln]. pose proof (zlen_nonneg sig).
  apply at_bytes_app in HA as [HP HS]. rewrite HL in HS. unfold buildSIGRDataPrefix in HP.
  apply at_bytes_app in HP as [_ HP]. rewrite zlen_be16 in HP. apply at_bytes_app in HP as [P1 HP]. change (zlen [to_u8 alg]) with 1 in HP.
  apply at_bytes_app in HP as [_ HP]. change (zlen [0]) with 1 in HP. apply at_bytes_app in HP as [_ HP]. rewrite zlen_be32 in HP.
  apply at_bytes_app in HP as [P2 HP]. rewrite zlen_be32 in HP. apply at_bytes_app in HP as [P3 HP]. rewrite zlen_be32 in HP. apply at_bytes_app in HP as [P4 P5]. rewrite zlen_be16 in P5.
  unfold parseSIGRData. if_false. rewrite (at_bytes_get _ _ _ _ P1). cbv zeta.
  rewrite (uint32At_at msg (off + 2 + 1 + 1 + 4) exp), (uint32At_at msg (off + 2 + 1 + 1 + 4 + 4) inc), (uint16At_at msg (off + 2 + 1 + 1 + 4 + 4 + 4) kt) by done.
  rewrite (DecodeWire_at n msg _ Hn Hb P5). cbn [res_bind]. set (s := off + 2 + 1 + 1 + 4 + 4 + 4 + 2 + zlen (AppendWire n [])).
  replace (off + (18 + zlen (AppendWire n []) + zlen sig)) with (s + zlen sig) by (unfold s; lia). if_false.
  replace (off + (18 + zlen (AppendWire n []))) with s in HS by (unfold s; lia). rewrite (at_bytes_slice _ _ _ HS).
  unfold to_u8, u8 in *. by rewrite Z.mod_small by lia.
Qed.

(** [stripSIG] undoes the end of [Sign]. *)
Lemma stripSIG_append b alg exp inc kt n sig : let rd := buildSIGRDataPrefix alg exp inc kt n ++ sig in let ar := uint16At b 10 in
  signable b -> canonical n -> u8 alg -> u32 exp -> u32 inc -> u16 kt -> is_bytes sig -> zlen sig <= 0x8000 ->
  stripSIG (putUint16 (b ++ appendSIGRR [] rd) 10 (ar + 1)) = Ok (b, mkSIG alg exp inc kt n sig).
Proof.
  intros rd ar (Hb & H12 & Har & qoff & last & Wq & Wr) Hn Halg He Hi Hk Hsig Lsig. fold ar in Har, Wq, Wr.
  destruct (prefix_ok alg exp inc kt n Hn) as [Hpb HL]. destruct (AppendWire_len _ Hn) as [_ Ln]. pose proof (zlen_nonneg sig).
  assert (is_bytes rd) as Hrd by (by apply Forall_app_2). assert (18 <= zlen rd <= 0x8200) as Lrd by (unfold rd; rewrite zlen_app; lia).
  assert (u16 ar) as Hu by (by apply uint16At_u16; [|lia|lia]). unfold u16 in Hu.
  rewrite putUint16_ext by lia. set (pre := putUint16 b 10 (ar + 1)) in *. unfold appendSIGRR. rewrite app_nil_l. set (R := [0] ++ _).
  assert (is_bytes R) as HR by (apply Forall_app_2; [apply Forall_cons_2; [unfold u8; lia|apply Forall_nil_2]|]; do 4 (apply Forall_app_2; [auto with wire|]); done).
  assert (is_bytes pre) as Hpre by (by apply putUint16_bytes). assert (zlen pre = zlen b) as Lpre by (apply putUint16_len; lia).
  assert (is_bytes (pre ++ R)) as HM by (by apply Forall_app_2).
  assert (at_bytes (pre ++ R) (zlen b) R) as HA.
  { rewrite <- Lpre. pose proof (at_bytes_mid pre R []) as H'. by rewrite app_nil_r in H'. }
  unfold R in HA at 2. apply at_bytes_app in HA as [A1 HA]. change (zlen [0]) with 1 in HA. apply at_bytes_app in HA as [A2 HA]. apply at_bytes_app in HA as [A3 HA].
  apply at_bytes_app in HA as [A4 HA]. apply at_bytes_app in HA as [A5 A6]. set (nx := zlen b + 1) in *. rewrite !zlen_be16, zlen_be32 in *.
  replace (nx + 2 + 2 + 4) with (nx + 8) in * by lia. replace (nx + 8 + 2) with (nx + 10) in * by lia.
  assert (zlen (pre ++ R) = nx + 10 + zlen rd) as LM by (unfold R; rewrite !zlen_app, !zlen_be16, zlen_be32; change (zlen [0]) with 1; lia).
  assert (uint16At (pre ++ R) (nx + 8) = zlen rd) as Erd by (apply uint16At_at; [unfold u16; lia|done]).
  assert (DecodeWire (pre ++ R) (zlen b) = Ok (Root, nx)) as Eown.
  { destruct canonical_Root as [HRt EA]. rewrite (DecodeWire_at Root (pre ++ R) (zlen b) HRt HM); [by rewrite EA|]. by rewrite EA. }
  assert (forall i, 0 <= i -> i + 2 <= 10 -> uint16At (pre ++ R) i = uint16At b i) as Hhdr.
  { intros i Hi0 Hi2. rewrite uint16At_ext by lia. unfold uint16At, pre. by rewrite !putUint16_other by lia. }
  assert (uint16At (pre ++ R) 10 = ar + 1) as Ear.
  { apply uint16At_at; [unfold u16; lia|]. apply at_bytes_ext, putUint16_at; lia. }
  assert (findLastRROffset (pre ++ R) = Ok (zlen b)) as Efind.
  { unfold findLastRROffset. cbv zeta. rewrite (Hhdr 4), (Hhdr 6), (Hhdr 8), Ear by lia.
    assert (forall i, i = 6 \/ i = 8 -> u16 (uint16At b i)) as Hc by (intros i Hii; apply uint16At_u16; [done|lia..]).
    pose proof (Hc 6 ltac:(lia)) as C6. pose proof (Hc 8 ltac:(lia)) as C8. unfold u16 in C6, C8.
    unfold counts in Wq, Wr. cbn [fst snd] in Wq, Wr. erewrite skipQuestions_ext by done. cbn [res_bind].
    replace (Z.to_nat (uint16At b 6 + uint16At b 8 + (ar + 1))) with (S (Z.to_nat (uint16At b 6) + Z.to_nat (uint16At b 8) + Z.to_nat ar)) by lia.
    rewrite skipRRs_snoc. erewrite skipRRs_ext by done. cbn [res_bind fst snd].
    by rewrite (skipRR_header _ _ Root nx (zlen rd)) by (done || lia). }
  unfold stripSIG. if_false. rewrite Ear. if_false. rewrite Efind. cbn [res_bind]. rewrite Eown. cbn [res_bind]. change (negb (IsRoot Root)) with false. cbv iota.
  if_false. rewrite (uint16At_at _ _ sigType) by (done || (unfold u16, sigType; lia)). change (negb (sigType =? sigType)) with false. cbv iota.
  rewrite (uint16At_at _ _ classANY) by (done || (unfold u16, classANY; lia)). change (negb (classANY =? classANY)) with false. cbv iota zeta.
  rewrite Erd. if_false. unfold rd at 1. rewrite parseSIGRData_at by done.
  cbn [res_bind]. do 2 f_equal. replace (ar + 1 - 1) with ar by lia.
  replace (zslice (pre ++ R) 0 (zlen b)) with pre.
  2: { rewrite <- Lpre. symmetry. apply (at_bytes_slice (pre ++ R) 0 pre). exact (at_bytes_mid [] pre R). }
  unfold pre. rewrite putUint16_put by lia. apply putUint16_same; [done|lia..].
Qed.

(** ** Signing and verifying *)

(** Serial arithmetic, when the times are less than half its range apart. *)
Lemma serial_spec a b : u32 a -> u32 b -> sig0SerialLT a b = false <-> (a - b) mod 2 ^ 32 < 2 ^ 31.
Proof. intros _ _. unfold sig0SerialLT, to_u32. change 4294967296 with (2 ^ 32). rewrite Z.leb_gt. done. Qed.
Lemma serial_le a b : u32 a -> u32 b -> b <= a -> a - b < 2 ^ 31 -> sig0SerialLT a b = false.
Proof. intros Ha Hb Hl Hd. apply serial_spec; [done..|]. unfold u32 in *. rewrite Z.mod_small by lia. lia. Qed.
Lemma to_u32_unix v : 0 <= v <= 0xFFFFFFFF -> to_u32 v = v /\ u32 v.
Proof. intros H. unfold to_u32, u32. rewrite Z.mod_small by lia. lia. Qed.
Lemma KeyTag_u16 k : u16 (KeyTag k).
Proof. unfold KeyTag, to_u16, u16. apply Z.mod_pos_bound. lia. Qed.

Section Scheme.
Context {C : Crypto}.

(** Signing and verifying are inverse: for every message the wire format
    can express that [Pack] accepts, and a callback whose signatures the key
    verifies, the signed bytes verify throughout their validity to exactly the
    packed message. *)
Theorem sig0_roundtrip m b key signer signFn now validity now' :
  message_ok m -> Message.Pack m = Ok b -> canonical signer -> u8 (k_algorithm key) -> IsRejectedAlgorithm (k_algorithm key) = false ->
  (forall data, exists sig, signFn data = Ok sig /\ is_bytes sig /\ zlen sig <= 0x8000 /\ verifySignature (k_algorithm key) (k_pubkey key) data sig = Ok tt) ->
  0 <= unix now <= unix now' -> unix now' <= unix (now + validity) <= 0xFFFFFFFF -> unix (now + validity) - unix now < 2 ^ 31 ->
  exists out, Sign b signer (k_algorithm key) (KeyTag key) signFn now validity = Ok out /\ Verify out key signer now' = Ok b.
Proof.
  intros Hm HP Hn Ha Hr Hs Hnow Hexp Hd. pose proof (packed_signable m b Hm HP) as Hsg. pose proof Hsg as (Hb & H12 & Har & _).
  destruct (to_u32_unix (unix now)) as [Enow Unow]; [lia|]. destruct (to_u32_unix (unix (now + validity))) as [Eexp Uexp]; [lia|]. destruct (to_u32_unix (unix now')) as [Enow' Unow']; [lia|].
  unfold Sign. if_false. cbv zeta. replace ((unix now <? 0) || _ || _ || _) with false by (symmetry; rewrite !orb_false_iff; lia). rewrite Enow, Eexp.
  set (pf := buildSIGRDataPrefix _ _ _ _ _). destruct (Hs (pf ++ b)) as (sig & -> & Hsb & Hsl & HV). cbn [res_bind]. eexists. split; [reflexivity|].
  assert (u16 (uint16At b 10)) as Hu by (by apply uint16At_u16; [|lia|lia]). unfold u16 in Hu.
  rewrite uint16At_ext by lia. unfold to_u16. rewrite Z.mod_small by lia.
  unfold Verify, verifyExtractSIG. unfold pf at 1. rewrite stripSIG_append by (done || apply KeyTag_u16). cbn [res_bind sig_signer sig_algorithm sig_keyTag sig_expiration sig_inception sig_signature].
  rewrite key_equal, Z.eqb_refl, Hr, Z.eqb_refl. cbn [negb]. fold pf. rewrite HV. cbn [res_bind]. rewrite Enow', !serial_le by (done || lia). done.
Qed.

(** ** What an accepted message was signed as *)

(** A call of the signer, and what it signs. *)
Record call := mkCall { c_msg : bytes; c_signer : Name; c_alg : Z; c_keyTag : Z; c_now : Z; c_validity : Z }.
Definition call_ok (c : call) : Prop := canonical (c_signer c) /\ u8 (c_alg c) /\ u16 (c_keyTag c) /\
  0 <= unix (c_now c) <= 0xFFFFFFFF /\ 0 <= unix (c_now c + c_validity c) <= 0xFFFFFFFF.
Definition callData (c : call) : bytes :=
  buildSIGRDataPrefix (c_alg c) (unix (c_now c + c_validity c)) (unix (c_now c)) (c_keyTag c) (c_signer c) ++ c_msg c.

(** The callback of [Sign] is called on this and nothing else. *)
Lemma Sign_data c signFn signFn' : call_ok c -> signFn (callData c) = signFn' (callData c) ->
  Sign (c_msg c) (c_signer c) (c_alg c) (c_keyTag c) signFn (c_now c) (c_validity c) = Sign (c_msg c) (c_signer c) (c_alg c) (c_keyTag c) signFn' (c_now c) (c_validity c).
Proof.
  intros (_ & _ & _ & Hn & He) E. unfold Sign. destruct (_ <? 12); [done|]. cbv zeta. destruct (_ || _); [done|].
  rewrite (proj1 (to_u32_unix _ Hn)), (proj1 (to_u32_unix _ He)). unfold callData in E. by rewrite E.
Qed.

Lemma name_prefix_inj n n' a b : canonical n -> canonical n' -> AppendWire n [] ++ a = AppendWire n' [] ++ b -> n = n' /\ a = b.
Proof.
  intros (ls & Hw & _) (ls' & Hw' & _). rewrite (AppendWire_wf _ _ Hw), (AppendWire_wf _ _ Hw'). destruct Hw as (Ew & Hok & _), Hw' as (Ew' & Hok' & _).
  intros [-> ->]%encName_app_inj; [|done..]. split; [|done]. destruct n, n'. cbn in *. congruence.
Qed.
Lemma be16_only v w : u16 v -> u16 w -> be16 v = be16 w -> v = w.
Proof. intros Hv Hw E. rewrite <- (get16_be16 v Hv), <- (get16_be16 w Hw). unfold be16 in E. by injection E as -> ->. Qed.
Lemma be32_only v w : u32 v -> u32 w -> be32 v = be32 w -> v = w.
Proof. intros Hv Hw E. rewrite <- (get32_be32 v Hv), <- (get32_be32 w Hw). unfold be32 in E. by injection E as -> -> -> ->. Qed.

(** The signed bytes determine every field of the prefix and the message. *)
Lemma signed_inj alg exp inc kt n b alg' exp' inc' kt' n' b' :
  u8 alg -> u32 exp -> u32 inc -> u16 kt -> canonical n -> u8 alg' -> u32 exp' -> u32 inc' -> u16 kt' -> canonical n' ->
  buildSIGRDataPrefix alg exp inc kt n ++ b = buildSIGRDataPrefix alg' exp' inc' kt' n' ++ b' ->
  alg = alg' /\ exp = exp' /\ inc = inc' /\ kt = kt' /\ n = n' /\ b = b'.
Proof.
  intros Ha He Hi Hk Hn Ha' He' Hi' Hk' Hn' E. unfold buildSIGRDataPrefix in E. rewrite <- !app_assoc in E. apply app_inv_head in E.
  apply app_inj_1 in E as [Ea E]; [|done]. do 2 apply app_inv_head in E. apply app_inj_1 in E as [Ee E]; [|done]. apply app_inj_1 in E as [Ei E]; [|done].
  apply app_inj_1 in E as [Ek E]; [|done]. apply name_prefix_inj in E as [-> ->]; [|done..]. injection Ea as Ea. unfold to_u8, u8 in *. rewrite !Z.mod_small in Ea by lia.
  split_and!; [done|by apply be32_only|by apply be32_only|by apply be16_only|done..].
Qed.

Lemma parseSIGRData_range msg s e sig : is_bytes msg -> 0 <= s -> e <= zlen msg -> parseSIGRData msg s e = Ok sig ->
  u8 (sig_algorithm sig) /\ u32 (sig_expiration sig) /\ u32 (sig_inception sig) /\ u16 (sig_keyTag sig) /\ canonical (sig_signer sig) /\ is_bytes (sig_signature sig).
Proof.
  intros Hb Hs He. unfold parseSIGRData. destruct (_ <? _) eqn:L; [done|]. bool_facts. cbv zeta. intros ([n o] & E & H)%res_bind_Ok. destruct (_ <? _) in H; [done|]. injection H as <-.
  cbn [sig_algorithm sig_expiration sig_inception sig_keyTag sig_signer sig_signature].
  assert (forall i, s <= i -> i + 4 <= s + 18 -> u32 (uint32At msg i)) as H32 by (intros i ? ?; unfold uint32At; apply get32_range; apply zget_u8; done || lia).
  split_and!; [apply zget_u8; [done|lia]|apply H32; lia|apply H32; lia|apply uint16At_u16; [done|lia|lia]|apply DecodeWire_ok in E as [? _]; done|by apply is_bytes_zslice].
Qed.
Lemma stripSIG_range msg body sig : is_bytes msg -> stripSIG msg = Ok (body, sig) ->
  u8 (sig_algorithm sig) /\ u32 (sig_expiration sig) /\ u32 (sig_inception sig) /\ u16 (sig_keyTag sig) /\ canonical (sig_signer sig) /\ is_bytes (sig_signature sig).
Proof.
  intros Hb. unfold stripSIG. destruct (_ <? 12); [done|]. cbv zeta. destruct (_ =? 0); [done|]. intros (last & _ & E)%res_bind_Ok. apply res_bind_Ok in E as ([owner off] & En & E).
  destruct (negb _); [done|]. destruct (_ <? _); [done|]. destruct (negb _) in E; [done|]. destruct (negb _) in E; [done|]. destruct (_ <? _) eqn:L in E; [done|]. bool_facts.
  apply res_bind_Ok in E as (sg & Ep & E). injection E as <- <-. apply DecodeWire_off in En; [|done]. eapply parseSIGRData_range; [done| |exact L|exact Ep]. lia.
Qed.
Lemma Equal_eq n m : Equal n m = true -> n = m.
Proof. unfold Equal. intros H%bool_decide_eq_true. destruct n, m. cbn in *. congruence. Qed.

Lemma verify_inv msg key signer now body sig : is_bytes msg -> verifyExtractSIG msg key signer now = Ok (body, sig) ->
  stripSIG msg = Ok (body, sig) /\ sig_signer sig = signer /\ sig_algorithm sig = k_algorithm key /\ sig_keyTag sig = KeyTag key /\ IsRejectedAlgorithm (k_algorithm key) = false /\
  verifySignature (k_algorithm key) (k_pubkey key) (buildSIGRDataPrefix (k_algorithm key) (sig_expiration sig) (sig_inception sig) (KeyTag key) signer ++ body) (sig_signature sig) = Ok tt /\
  sig0SerialLT (sig_expiration sig) (to_u32 (unix now)) = false /\ sig0SerialLT (to_u32 (unix now)) (sig_inception sig) = false.
Proof.
  intros Hb. unfold verifyExtractSIG. intros ([bd sg] & Es & E)%res_bind_Ok. destruct (Equal _ _) eqn:E1; [|done]. apply Equal_eq in E1. cbn [negb] in E.
  destruct (k_algorithm key =? sig_algorithm sg) eqn:E2; [|done]. cbn [negb] in E. destruct (IsRejectedAlgorithm _) eqn:E3; [done|]. destruct (KeyTag key =? _) eqn:E4; [|done].
  cbn [negb] in E. bool_facts. cbv zeta in E. apply res_bind_Ok in E as ([] & EV & E). destruct (_ || _) eqn:ET in E; [done|]. apply orb_false_iff in ET as [T1 T2].
  injection E as <- <-. rewrite E1, E4 in *. split_and!; try done; congruence.
Qed.

(** Authenticity, relative to the signature scheme: a message that [Verify]
    accepts carries a signature by the key, of an algorithm that is not
    rejected, over one definite string; the clock is inside the validity by
    serial arithmetic; and the string is what no call of the signer signs but
    one for exactly the returned body, this signer, algorithm and key tag, and
    these times. *)
Theorem sig0_authentic msg key signer now body : is_bytes msg -> Verify msg key signer now = Ok body ->
  exists exp inc sig, u32 exp /\ u32 inc /\
    let data := buildSIGRDataPrefix (k_algorithm key) exp inc (KeyTag key) signer ++ body in
    verifySignature (k_algorithm key) (k_pubkey key) data sig = Ok tt /\ IsRejectedAlgorithm (k_algorithm key) = false /\
    (exp - unix now) mod 2 ^ 32 < 2 ^ 31 /\ (unix now - inc) mod 2 ^ 32 < 2 ^ 31 /\
    forall c, call_ok c -> callData c = data ->
      c_msg c = body /\ c_signer c = signer /\ c_alg c = k_algorithm key /\ c_keyTag c = KeyTag key /\ unix (c_now c) = inc /\ unix (c_now c + c_validity c) = exp.
Proof.
  intros Hb. unfold Verify. intros ([bd sig] & E & [= <-])%res_bind_Ok. apply verify_inv in E as (Es & E1 & E2 & E3 & Hr & HV & T1 & T2); [|done].
  apply stripSIG_range in Es as (Ra & Re & Ri & Rk & Rn & _); [|done]. exists (sig_expiration sig), (sig_inception sig), (sig_signature sig). cbv zeta.
  assert (forall v, u32 (to_u32 v)) as HU by (intros v; apply to_u32_range). apply serial_spec in T1, T2; [|done..].
  unfold to_u32 in T1, T2. change 4294967296 with (2 ^ 32) in T1, T2. rewrite Zminus_mod_idemp_r in T1. rewrite Zminus_mod_idemp_l in T2. split_and!; [done..|].
  intros c (Cn & Ca & Ck & Ct1 & Ct2) Ed. unfold callData in Ed. apply signed_inj in Ed as (? & ? & ? & ? & ? & ?); [by split_and!|..]; try done; try congruence; by apply to_u32_unix.
Qed.
End Scheme.

(** ** The replay cache *)

Section Cache.
Context {C : Crypto} {R : MapRange}.

Definition room (c : MemoryReplayCache) (n : nat) : Prop := size c <= 0 \/ Z.of_nat (base.size (seen c)) + Z.of_nat n <= size c.

Lemma expired_size c now : (base.size (seen (evictExpiredLocked c now)) <= base.size (seen c))%nat.
Proof. unfold evictExpiredLocked. cbn. apply map_size_filter. Qed.

(** With room, a call keeps what is not expired, and takes one place. *)
Lemma Seen_keeps c now n i s k t m : seen c !! k = Some t -> now - window c <= t -> room c (S m) ->
  let c' := (Seen c now n i s).2 in seen c' !! k = Some t /\ window c' = window c /\ room c' m.
Proof.
  intros Hk Ht Hr. unfold Seen. set (e := evictExpiredLocked c now). assert (seen e !! k = Some t) as He by (unfold e, evictExpiredLocked; cbn; by apply map_lookup_filter_Some_2).
  pose proof (expired_size c now) as Hs. fold e in Hs. assert (size e = size c /\ window e = window c) as [Es Ew] by done.
  destruct (seen e !! replayKey n i s) as [t'|] eqn:E; cbn [snd].
  - split_and!; [done..|]. unfold room in *. rewrite Es. lia.
  - replace ((0 <? size e) && _) with false by (symmetry; apply andb_false_iff; unfold room in Hr; rewrite Es; lia). cbn [seen window size].
    split_and!; [rewrite lookup_insert_ne by (intros <-; congruence); done|done|]. unfold room in *. rewrite Es. cbn [seen size]. rewrite map_size_insert_None by done. lia.
Qed.
Lemma Seen_recorded c now n i s m : 0 <= window c -> room c (S m) -> (Seen c now n i s).1 = false ->
  let c' := (Seen c now n i s).2 in seen c' !! replayKey n i s = Some now /\ window c' = window c /\ room c' m.
Proof.
  intros Hw Hr. unfold Seen. set (e := evictExpiredLocked c now). pose proof (expired_size c now) as Hs. fold e in Hs. assert (size e = size c /\ window e = window c) as [Es Ew] by done.
  destruct (seen e !! replayKey n i s) as [t'|] eqn:E; cbn [fst snd]; [done|]. intros _.
  replace ((0 <? size e) && _) with false by (symmetry; apply andb_false_iff; unfold room in Hr; rewrite Es; lia). cbn [seen window size].
  split_and!; [by rewrite lookup_insert_eq|done|]. unfold room in *. cbn [seen size]. rewrite Es, map_size_insert_None by done. lia.
Qed.

(** Calls of the verifier on one cache: the message, the key, the signer and the time. *)
Record event := mkEvent { e_msg : bytes; e_key : DNSKEY; e_signer : Name; e_now : Z }.
Definition runEvent (c : MemoryReplayCache) (e : event) : MemoryReplayCache := default c (VerifyWithReplay (e_msg e) (e_key e) (e_signer e) (e_now e) (Some c)).2.
Definition runEvents (c : MemoryReplayCache) (l : list event) : MemoryReplayCache := fold_left runEvent l c.

Lemma runEvent_keeps c e k t m : seen c !! k = Some t -> e_now e - window c <= t -> room c (S m) ->
  seen (runEvent c e) !! k = Some t /\ window (runEvent c e) = window c /\ room (runEvent c e) m.
Proof.
  intros Hk Ht Hr. unfold runEvent, VerifyWithReplay. destruct (verifyExtractSIG _ _ _ _) as [[body sig]|].
  - pose proof (Seen_keeps c (e_now e) (sig_signer sig) (sig_inception sig * Second) (sig_signature sig) k t m Hk Ht Hr) as H. cbv zeta in H |- *.
    destruct (Seen _ _ _ _ _) as [[] c']; exact H.
  - cbn. split_and!; [done..|]. unfold room in *. lia.
Qed.
Lemma runEvents_keeps l : forall c k t m, seen c !! k = Some t -> Forall (fun e => e_now e - window c <= t) l -> room c (length l + m) ->
  seen (runEvents c l) !! k = Some t /\ window (runEvents c l) = window c /\ room (runEvents c l) m.
Proof.
  induction l as [|e l IH]; intros c k t m Hk HF Hr; [done|]. apply Forall_cons in HF as [He HF].
  destruct (runEvent_keeps c e k t (length l + m) Hk He Hr) as (H1 & H2 & H3). cbn [runEvents fold_left]. destruct (IH (runEvent c e) k t m) as (G1 & G2 & G3); [done|by rewrite H2|done|].
  unfold runEvents in *. by rewrite <- H2.
Qed.

(** A message accepted once is not accepted again while the cache has room
    and its window has not passed, whatever else is verified in between and in
    whatever order the clocks are read: it is refused as a replay, or for its
    time. *)
Theorem sig0_replay_refused c msg key signer now body c1 l now' r :
  0 <= window c -> room c (S (length l)) ->
  VerifyWithReplay msg key signer now (Some c) = (Ok body, Some c1) ->
  Forall (fun e => e_now e <= now + window c) l -> now' <= now + window c ->
  (VerifyWithReplay msg key signer now' (Some (runEvents c1 l))).1 = r -> r = Err ErrReplay \/ r = Err ErrBadTime.
Proof.
  intros Hw Hr E HF Hn'. unfold VerifyWithReplay in E. destruct (verifyExtractSIG msg key signer now) as [[bd sig]|] eqn:EV; [|done]. cbv zeta in E.
  pose proof (Seen_recorded c now (sig_signer sig) (sig_inception sig * Second) (sig_signature sig) (length l) Hw Hr) as HS. cbv zeta in HS.
  destruct (Seen _ _ _ _ _) as [[] c'] in E, HS; [done|]. injection E as <- <-. cbn [fst snd] in HS. destruct (HS eq_refl) as (H1 & H2 & H3).
  destruct (runEvents_keeps l c' _ _ 0 H1) as (G1 & G2 & _); [rewrite H2; eapply Forall_impl; [exact HF|]; cbn; intros; lia|by rewrite Nat.add_0_r|].
  intros <-. unfold VerifyWithReplay. assert (verifyExtractSIG msg key signer now' = Ok (bd, sig) \/ verifyExtractSIG msg key signer now' = Err ErrBadTime) as [-> | ->]; [|..|by right].
  { unfold verifyExtractSIG in *. destruct (stripSIG msg) as [[b0 s0]|]; [|done]. cbn [res_bind] in *. destruct (negb _); [done|]. destruct (negb _); [done|]. destruct (IsRejectedAlgorithm _); [done|].
    destruct (negb _); [done|]. cbv zeta in *. destruct (verifySignature _ _ _ _); [|done]. cbn [res_bind] in *. destruct (_ || _) in EV; [done|]. destruct (_ || _); auto. }
  left. cbv zeta. unfold Seen. set (e := evictExpiredLocked _ now'). assert (seen e !! replayKey (sig_signer sig) (sig_inception sig * Second) (sig_signature sig) = Some now) as He.
  { unfold e, evictExpiredLocked. cbn. apply map_lookup_filter_Some_2; [done|]. cbn. rewrite G2, H2. lia. }
  by rewrite He.
Qed.
End Cache.

(** ** A concrete scheme *)

Module Sample.
(** A checksum in place of a signature; as with ECDSA, beside [s] the negative
    of [s] is accepted. *)
Definition sum (bs : bytes) : Z := fold_left (fun a c => (31 * a + c) mod 256) bs 7.
Lemma sum_octet bs : u8 (sum bs).
Proof.
  unfold sum. assert (u8 7) as H7 by (unfold u8; lia). revert H7. generalize 7. induction bs as [|c bs IH]; intros a Ha; [done|].
  cbn [fold_left]. apply IH. unfold u8. pose proof (Z.mod_pos_bound (31 * a + c) 256 ltac:(lia)). lia.
Qed.
#[local] Instance checksum : Crypto := {|
  sha1 := fun d => d; sha256 := fun d => [sum d]; sha384 := fun d => d; sha512 := fun d => d; rsaVerifyPKCS1v15 _ _ _ := false;
  ecdsaVerify _ _ h rs := (rs.2 =? sum h) || (rs.2 =? 256 - sum h); ed25519Verify _ data sig := bool_decide (sig = [sum data]) |}.
#[local] Instance inOrder : MapRange := {| mapRange K _ _ A m := map_to_list m; mapRange_perm K _ _ A m := reflexivity _ |}.

Definition key : DNSKEY := mkDNSKEY 512 3 AlgED25519 (replicate 32 1).
Definition signFn (data : bytes) : res bytes := Ok [sum data].
Definition now : Z := 1700000000 * Second.
Definition signed : bytes := match Sign sampleBytes sampleName AlgED25519 (KeyTag key) signFn now (300 * Second) with Ok out => out | Err _ => [] end.

Lemma sig0_roundtrip_witness : exists out, Sign sampleBytes sampleName AlgED25519 (KeyTag key) signFn now (300 * Second) = Ok out /\
  Verify out key sampleName (now + 20 * Second) = Ok sampleBytes.
Proof.
  apply (sig0_roundtrip sampleMessage sampleBytes key sampleName signFn now (300 * Second) (now + 20 * Second)); try decide_now.
  - apply sampleMessage_ok.
  - apply name_ok_canonical, sampleName_ok.
  - intros data. exists [sum data]. split_and!; [done|by apply Forall_singleton, sum_octet|done|]. unfold verifySignature. cbn. by rewrite bool_decide_eq_true_2.
Defined.

Lemma sig0_authentic_witness : exists exp inc sig, u32 exp /\ u32 inc /\
  let data := buildSIGRDataPrefix AlgED25519 exp inc (KeyTag key) sampleName ++ sampleBytes in
  verifySignature AlgED25519 (k_pubkey key) data sig = Ok tt /\ IsRejectedAlgorithm AlgED25519 = false /\
  (exp - unix (now + 20 * Second)) mod 2 ^ 32 < 2 ^ 31 /\ (unix (now + 20 * Second) - inc) mod 2 ^ 32 < 2 ^ 31 /\
  forall c, call_ok c -> callData c = data ->
    c_msg c = sampleBytes /\ c_signer c = sampleName /\ c_alg c = AlgED25519 /\ c_keyTag c = KeyTag key /\ unix (c_now c) = inc /\ unix (c_now c + c_validity c) = exp.
Proof.
  apply (sig0_authentic signed key sampleName (now + 20 * Second) sampleBytes); [|vm_compute; reflexivity].
  apply (bool_decide_eq_true_1 (Forall u8 signed)). vm_compute. reflexivity.
Defined.

Definition cache := NewMemoryReplayCache [].
Definition cache1 : MemoryReplayCache := default cache (VerifyWithReplay signed key sampleName now (Some cache)).2.
Lemma sig0_replay_refused_witness : (VerifyWithReplay signed key sampleName (now + Second) (Some (runEvents cache1 []))).1 = Err ErrReplay.
Proof.
  destruct (sig0_replay_refused cache signed key sampleName now sampleBytes cache1 [] (now + Second) _ ltac:(vm_compute; congruence) ltac:(right; vm_compute; congruence)
    ltac:(vm_compute; reflexivity) (Forall_nil_2 _) ltac:(vm_compute; congruence) eq_refl) as [E|E]; [exact E|]. vm_compute in E. discriminate.
Defined.

(** The key of the cache contains the signature, which the holder of an ECDSA
    signature can change: negating [s] gives another message that verifies to
    the same body and is accepted again. *)
Definition ecKey : DNSKEY := mkDNSKEY 512 3 AlgECDSAP256SHA256 (replicate 64 1).
Definition ecSign (f : Z -> Z) (data : bytes) : res bytes := Ok (replicate 63 0 ++ [f (sum [sum data])]).
Definition ecSigned (f : Z -> Z) : bytes := match Sign sampleBytes sampleName AlgECDSAP256SHA256 (KeyTag ecKey) (ecSign f) now (300 * Second) with Ok out => out | Err _ => [] end.
Lemma replayed_with_negated_signature :
  let r := VerifyWithReplay (ecSigned (fun s => s)) ecKey sampleName now (Some cache) in
  r.1 = Ok sampleBytes /\ (VerifyWithReplay (ecSigned (fun s => s)) ecKey sampleName now r.2).1 = Err ErrReplay /\
  (VerifyWithReplay (ecSigned (fun s => 256 - s)) ecKey sampleName now r.2).1 = Ok sampleBytes.
Proof. split_and!; vm_compute; reflexivity. Qed.
End Sample.
