(* ===== verification/Dso.v ===== *)
(** * DNS Stateful Operations (src/dso/dso.go)

    The TLVs of a message body, the typed TLVs, and their round trips.  A
    duration is a number of nanoseconds. *)

From S2P Require Import Prelude Name Wire RData Message Tsig TsigSound Sig0 Sig0Sound.
Open Scope Z_scope.
Open Scope list_scope.

Module dso.

Definition TypeKeepAlive : Z := 1.
Definition TypeRetryDelay : Z := 2.
Definition TypeEncryptionPadding : Z := 3.

Record TLV := mkTLV { typ : Z; data : bytes }.
Definition NewTLV (t : Z) (d : bytes) : TLV := mkTLV t d.
(** The zero TLV is the absence of a primary. *)
Definition zeroTLV : TLV := mkTLV 0 [].
Record Message := mkMessage { primary : TLV; additional : list TLV }.
Definition NewMessage (p : TLV) (a : list TLV) : Message := mkMessage p a.

Definition packTLV (t : TLV) : res bytes :=
  if 0xffff <? zlen (data t) then Err ErrInvalidDSO else Ok (be16 (typ t) ++ be16 (zlen (data t)) ++ data t).
Fixpoint packTLVs (l : list TLV) : res bytes :=
  match l with
  | [] => Ok []
  | t :: l => let? b := packTLV t in let? rest := packTLVs l in Ok (b ++ rest)
  end.
Definition Pack (m : Message) : res bytes :=
  let? p := (if negb (typ (primary m) =? 0) then packTLV (primary m) else Ok []) in
  let? a := packTLVs (additional m) in
  Ok (p ++ a).

(** [unpackTLV]: the TLV and the octets it takes. *)
Definition unpackTLV (b : bytes) : res (TLV * Z) :=
  if zlen b <? 4 then Err ErrInvalidDSO
  else
    let t := uint16At b 0 in
    let l := uint16At b 2 in
    if zlen b <? 4 + l then Err ErrInvalidDSO
    else Ok (mkTLV t (zslice b 4 (4 + l)), 4 + l).
(** The loop of [Unpack] over what is left; each TLV takes at least 4 octets. *)
Fixpoint unpack_loop (fuel : nat) (b : bytes) (primary : option TLV) (additional : list TLV) : res Message :=
  match fuel with
  | O => Err ErrFuel
  | S fuel =>
      if zlen b <=? 0 then Ok (mkMessage (default zeroTLV primary) additional)
      else
        let? r := unpackTLV b in
        let '(tlv, n) := r in
        match primary with
        | None => unpack_loop fuel (drop (Z.to_nat n) b) (Some tlv) additional
        | Some _ => unpack_loop fuel (drop (Z.to_nat n) b) primary (additional ++ [tlv])
        end
  end.
Definition Unpack (b : bytes) : res Message := unpack_loop (S (length b)) b None [].

(** [uint32(d/time.Millisecond)] *)
Definition Millisecond : Z := 1000000.
Definition millis (d : Z) : Z := to_u32 (Z.quot d Millisecond).
Definition NewKeepAlive (inactivity keepalive : Z) : TLV := mkTLV TypeKeepAlive (be32 (millis inactivity) ++ be32 (millis keepalive)).
Definition KeepAlive (t : TLV) : option (Z * Z) :=
  if negb (typ t =? TypeKeepAlive) || negb (zlen (data t) =? 8) then None
  else Some (sig0.uint32At (data t) 0 * Millisecond, sig0.uint32At (data t) 4 * Millisecond).
Definition NewRetryDelay (delay : Z) : TLV := mkTLV TypeRetryDelay (be32 (millis delay)).
Definition RetryDelay (t : TLV) : option Z :=
  if negb (typ t =? TypeRetryDelay) || negb (zlen (data t) =? 4) then None else Some (sig0.uint32At (data t) 0 * Millisecond).
Definition NewEncryptionPadding (length : Z) : res TLV :=
  if (length <? 0) || (0xffff <? length) then Err ErrInvalidDSO else Ok (mkTLV TypeEncryptionPadding (replicate (Z.to_nat length) 0)).

(** ** Round trips *)

Definition tlv_ok (t : TLV) : Prop := u16 (typ t) /\ zlen (data t) <= 0xffff.

Lemma unpackTLV_pack t r b : tlv_ok t -> packTLV t = Ok b -> unpackTLV (b ++ r) = Ok (t, zlen b) /\ 4 <= zlen b.
Proof.
  intros [Ht Hl]. unfold packTLV. destruct (_ <? _) eqn:E; [done|]. intros Eb. assert (be16 (typ t) ++ be16 (zlen (data t)) ++ data t = b) as <- by congruence. clear Eb. pose proof (zlen_nonneg (data t)). pose proof (zlen_nonneg r).
  pose proof (at_bytes_mid [] (be16 (typ t) ++ be16 (zlen (data t)) ++ data t) r) as HA. cbn [app] in HA. change (zlen []) with 0 in HA.
  apply at_bytes_app in HA as [A1 HA]. rewrite zlen_be16 in HA. apply at_bytes_app in HA as [A2 A3]. rewrite zlen_be16 in A3. cbn [Z.add] in *.
  set (m := (be16 (typ t) ++ _) ++ r) in *. assert (zlen m = 4 + zlen (data t) + zlen r) as HL by (unfold m; rewrite !zlen_app, !zlen_be16; lia).
  rewrite !zlen_app, !zlen_be16. split; [|lia]. unfold unpackTLV. if_false. rewrite (uint16At_at m 0 (typ t)) by done.
  rewrite (uint16At_at m 2 (zlen (data t))) by (done || unfold u16; lia). cbv zeta. if_false. rewrite (at_bytes_slice m 4 (data t) A3). destruct t. cbn. do 2 f_equal. lia.
Qed.

Lemma unpack_packed l : Forall tlv_ok l -> forall fuel b p acc, packTLVs l = Ok b -> (length b < fuel)%nat -> unpack_loop fuel b (Some p) acc = Ok (mkMessage p (acc ++ l)).
Proof.
  induction 1 as [|t l Ht _ IH]; intros fuel b p acc E Hf; destruct fuel as [|fuel]; try lia; cbn [packTLVs unpack_loop] in *.
  - injection E as <-. cbn. by rewrite app_nil_r.
  - apply res_bind_Ok in E as (bt & Et & E). apply res_bind_Ok in E as (rest & Er & E). assert (b = bt ++ rest) as -> by congruence.
    destruct (unpackTLV_pack t rest bt Ht Et) as [EU HL]. pose proof (zlen_nonneg rest). rewrite (proj2 (Z.leb_gt _ _)) by (rewrite zlen_app; lia). rewrite EU. cbn [res_bind].
    rewrite drop_app_length' by (unfold zlen; lia). rewrite (IH fuel rest p (acc ++ [t]) Er); [by rewrite <- app_assoc|]. rewrite length_app in Hf. unfold zlen in HL. lia.
Qed.

(** A stateful-operations message with a primary TLV that [Pack] accepts is
    unpacked to the same message, and packing fails only for a TLV of more than
    65535 octets. *)
Theorem dso_roundtrip m : Forall (fun t => u16 (typ t)) (primary m :: additional m) -> typ (primary m) <> 0 ->
  match Pack m with Ok b => Unpack b = Ok m | Err e => e = ErrInvalidDSO /\ Exists (fun t => 0xffff < zlen (data t)) (primary m :: additional m) end.
Proof.
  intros HF Hp. destruct m as [p l]. cbn [primary additional] in *. apply Forall_cons in HF as [Hpt HF].
  assert (forall t, match packTLV t with Ok _ => zlen (data t) <= 0xffff | Err e => e = ErrInvalidDSO /\ 0xffff < zlen (data t) end) as H1.
  { intros t. unfold packTLV. destruct (_ <? _) eqn:E; bool_facts; [split; [done|]|]; lia. }
  assert (match packTLVs l with Ok _ => Forall tlv_ok l | Err e => e = ErrInvalidDSO /\ Exists (fun t => 0xffff < zlen (data t)) l end) as H2.
  { induction HF as [|t l Ht _ IH]; [apply Forall_nil_2|]. cbn [packTLVs]. specialize (H1 t). destruct (packTLV t); [|destruct H1; split; [done|by left]]. cbn [res_bind].
    destruct (packTLVs l); [|destruct IH; split; [done|by right]]. constructor; [done|exact IH]. }
  unfold Pack. cbn [primary additional]. rewrite (proj2 (Z.eqb_neq _ _)) by done. cbn [negb]. specialize (H1 p). destruct (packTLV p) as [bp|] eqn:Ep; [|destruct H1; split; [done|by left]].
  cbn [res_bind]. destruct (packTLVs l) as [bl|] eqn:El; [|destruct H2; split; [done|by right]]. cbn [res_bind].
  destruct (unpackTLV_pack p bl bp (conj Hpt H1) Ep) as [EU HL]. pose proof (zlen_nonneg bl). unfold Unpack. cbn [unpack_loop]. rewrite (proj2 (Z.leb_gt _ _)) by (rewrite zlen_app; lia).
  rewrite EU. cbn [res_bind]. rewrite drop_app_length' by (unfold zlen; lia). rewrite (unpack_packed l H2 _ bl p [] El); [done|]. rewrite length_app. unfold zlen in HL. lia.
Qed.
Lemma dso_roundtrip_witness : let m := mkMessage (NewRetryDelay (5 * Second)) [mkTLV 3 [0; 0; 0]] in match Pack m with Ok b => Unpack b = Ok m | Err e => e = ErrInvalidDSO /\ Exists (fun t => 0xffff < zlen (data t)) (primary m :: additional m) end.
Proof. apply (dso_roundtrip (mkMessage (NewRetryDelay (5 * Second)) [mkTLV 3 [0; 0; 0]])); [repeat (apply Forall_cons_2; [split; by vm_compute|]); apply Forall_nil_2|done]. Defined.

(** Durations below 2^32 milliseconds, to the millisecond. *)
Lemma millis_exact d : 0 <= d < 2 ^ 32 * Millisecond -> u32 (millis d) /\ millis d * Millisecond = d - d mod Millisecond.
Proof.
  unfold millis, Millisecond, u32, to_u32. intros H. rewrite Z.quot_div_nonneg by lia. pose proof (Z.div_mod d 1000000 ltac:(lia)). pose proof (Z.mod_pos_bound d 1000000 ltac:(lia)).
  rewrite Z.mod_small by lia. lia.
Qed.
Lemma keepalive_roundtrip i k : 0 <= i < 2 ^ 32 * Millisecond -> 0 <= k < 2 ^ 32 * Millisecond ->
  KeepAlive (NewKeepAlive i k) = Some (i - i mod Millisecond, k - k mod Millisecond).
Proof.
  intros [Hi Ei]%millis_exact [Hk Ek]%millis_exact. unfold KeepAlive, NewKeepAlive. cbn [typ data]. rewrite Z.eqb_refl, zlen_app, !zlen_be32. cbn [negb orb Z.add Z.eqb Pos.eqb Pos.add].
  pose proof (at_bytes_mid [] (be32 (millis i) ++ be32 (millis k)) []) as HA. rewrite app_nil_r in HA. cbn [app] in HA. change (zlen []) with 0 in HA. apply at_bytes_app in HA as [A1 A2]. rewrite zlen_be32 in A2.
  rewrite (uint32At_at _ 0 (millis i)), (uint32At_at _ 4 (millis k)) by done. by rewrite Ei, Ek.
Qed.
Lemma retry_delay_roundtrip d : 0 <= d < 2 ^ 32 * Millisecond -> RetryDelay (NewRetryDelay d) = Some (d - d mod Millisecond).
Proof.
  intros [Hd Ed]%millis_exact. unfold RetryDelay, NewRetryDelay. cbn [typ data]. rewrite zlen_be32. cbn [negb orb].
  pose proof (at_bytes_mid [] (be32 (millis d)) []) as HA. rewrite app_nil_r in HA. cbn [app] in HA. change (zlen []) with 0 in HA. rewrite (uint32At_at _ 0 (millis d)) by done. by rewrite Ed.
Qed.

(** A primary TLV of type 0 is not written, so that the first additional one is
    read back as the primary. *)
Lemma reserved_primary_dropped : exists b, Pack (mkMessage (mkTLV 0 [1]) [mkTLV 3 []]) = Ok b /\ Unpack b = Ok (mkMessage (mkTLV 3 []) []).
Proof. eexists. split; vm_compute; reflexivity. Qed.
End dso.
