(* ===== verification/Dnscrypt.v ===== *)
(** * DNSCrypt (src/dnscrypt)

    Certificates, the encryption of packets, the client (dnscrypt.go), the
    server with its key material (server.go) and its replay cache (replay.go).
    The curve, the cipher and the signature of Go's crypto packages are the
    class [Box]; random octets, the clock and what the network returns are
    arguments.  Arrays of fixed length are lists; [fit n b] is the array of [n]
    octets that [copy] fills from [b].  An Ed25519 key of a length other than
    its type's, on which Go's package panics, is not represented. *)

From Stdlib Require Import Strings.String.
From S2P Require Import Prelude Name Wire RData RDataNew Message EdnsOptions Netip Compare Tsig Replay Sig0 Handler.
Open Scope Z_scope.
Open Scope list_scope.

Class Box := {
  x25519 : bytes -> bytes -> option bytes;              (* scalar, point *)
  basepoint : bytes;
  seal : bytes -> bytes -> bytes -> bytes;               (* key, nonce, plaintext *)
  open_ : bytes -> bytes -> bytes -> option bytes;       (* key, nonce, ciphertext *)
  edVerify : bytes -> bytes -> bytes -> bool;            (* public key, message, signature *)
  edSign : bytes -> bytes -> bytes }.                    (* private key, message *)

Module dnscrypt.

Definition fit (n : nat) (b : bytes) : bytes := take n b ++ replicate (n - length b) 0.

Definition certMagic : bytes := str "DNSC".
Definition resolverMagic : bytes := str "r6fnvWj8".
Definition ESVersion1 : Z := 1.
Definition ESVersion2 : Z := 2.

(** ** Certificates *)

Record Cert := mkCert {
  esVersion : Z; protocolMinor : Z; signature : bytes; resolverPK : bytes; clientMagic : bytes; serial : Z; validFrom : Z; validUntil : Z; verified : bool }.

Inductive CertOption :=
  | WithCertESVersion (v : Z) | WithCertProtocolMinor (v : Z) | WithCertResolverPK (pk : bytes) | WithCertClientMagic (m : bytes)
  | WithCertSerial (v : Z) | WithCertValidFrom (t : Z) | WithCertValidUntil (t : Z).
(** A field with its Set flag is an [option]. *)
Record certConfig := mkCertConfig {
  cc_esVersion : Z; cc_protocolMinor : Z; cc_resolverPK : option bytes; cc_clientMagic : option bytes; cc_serial : Z; cc_validFrom : option Z; cc_validUntil : option Z }.
Definition applyCertOption (c : certConfig) (o : CertOption) : certConfig :=
  let '(mkCertConfig es pm pk cm se vf vu) := c in
  match o with
  | WithCertESVersion v => mkCertConfig v pm pk cm se vf vu
  | WithCertProtocolMinor v => mkCertConfig es v pk cm se vf vu
  | WithCertResolverPK k => mkCertConfig es pm (Some k) cm se vf vu
  | WithCertClientMagic m => mkCertConfig es pm pk (Some m) se vf vu
  | WithCertSerial v => mkCertConfig es pm pk cm v vf vu
  | WithCertValidFrom t => mkCertConfig es pm pk cm se (Some t) vu
  | WithCertValidUntil t => mkCertConfig es pm pk cm se vf (Some t)
  end.
Definition NewCert (opts : list CertOption) : res Cert :=
  let c := fold_left applyCertOption opts (mkCertConfig ESVersion2 0 None None 0 None None) in
  match cc_resolverPK c, cc_clientMagic c, cc_validFrom c, cc_validUntil c with
  | Some pk, Some cm, Some vf, Some vu =>
      if vu <? vf then Err ErrPlain
      else Ok (mkCert (cc_esVersion c) (cc_protocolMinor c) (replicate 64 0) pk cm (cc_serial c) vf vu false)
  | _, _, _, _ => Err ErrPlain
  end.

(** [uint32(t.Unix())] *)
Definition unix32 (t : Z) : Z := to_u32 (unix t).
Definition ParseCert (b : bytes) : res Cert :=
  if zlen b <? 124 then Err ErrPlain
  else if negb (bool_decide (zslice b 0 4 = certMagic)) then Err ErrCertMagicMismatch
  else Ok (mkCert (uint16At b 4) (uint16At b 6) (zslice b 8 72) (zslice b 72 104) (zslice b 104 112)
             (sig0.uint32At b 112) (sig0.uint32At b 116 * Second) (sig0.uint32At b 120 * Second) false).
(** The octets the provider signs. *)
Definition signedPart (c : Cert) : bytes :=
  resolverPK c ++ clientMagic c ++ be32 (serial c) ++ be32 (unix32 (validFrom c)) ++ be32 (unix32 (validUntil c)).
Definition setVerified (c : Cert) (sig : bytes) : Cert :=
  mkCert (esVersion c) (protocolMinor c) sig (resolverPK c) (clientMagic c) (serial c) (validFrom c) (validUntil c) true.
Definition EncodeCert (c : Cert) : bytes :=
  certMagic ++ be16 (esVersion c) ++ be16 (protocolMinor c) ++ signature c ++ resolverPK c ++ clientMagic c ++
  be32 (serial c) ++ be32 (unix32 (validFrom c)) ++ be32 (unix32 (validUntil c)).

(** ** Padding *)

Definition pad (query : bytes) : bytes :=
  let out := query ++ [0x80] in out ++ replicate (Z.to_nat ((- zlen out) mod 64)) 0.
(** The loop goes backward: the octets in reverse. *)
Fixpoint unpad_loop (rev_b : bytes) : res bytes :=
  match rev_b with
  | [] => Err ErrPlain
  | v :: r => if v =? 0 then unpad_loop r else if v =? 0x80 then Ok (rev r) else Err ErrPlain
  end.
Definition unpad (b : bytes) : res bytes := unpad_loop (rev b).

Section Crypto.
Context `{Box}.

Definition Verify (c : Cert) (providerPK : bytes) (now : Z) : res Cert :=
  if negb (esVersion c =? ESVersion2) then Err ErrUnsupportedESVersion
  else if (now <? validFrom c) || (validUntil c <? now) then Err ErrCertExpired
  else if negb (edVerify providerPK (signedPart c) (signature c)) then Err ErrCertSignatureInvalid
  else Ok (setVerified c (signature c)).
Definition SignCert (c : Cert) (providerSK : bytes) : Cert := setVerified c (fit 64 (edSign providerSK (signedPart c))).

Definition sharedKey (resolverPK clientSK : bytes) : res bytes :=
  match x25519 clientSK resolverPK with
  | None => Err ErrPlain
  | Some out =>
      let k := fit 32 out in
      if bool_decide (k = replicate 32 0) then Err ErrLowOrderPoint else Ok k
  end.

(** Twelve octets each of the client and of the resolver. *)
Definition fullNonce (client resolver : bytes) : bytes := client ++ resolver.
Definition zeroNonce : bytes := replicate 12 0.

Definition Encrypt (c : Cert) (clientPK clientSK nonce query : bytes) : res bytes :=
  if negb (esVersion c =? ESVersion2) then Err ErrUnsupportedESVersion
  else
    let? k := sharedKey (resolverPK c) clientSK in
    let ct := seal k (fullNonce nonce zeroNonce) (pad query) in
    Ok (clientMagic c ++ clientPK ++ nonce ++ ct).

Definition Decrypt (c : Cert) (clientSK clientNonce packet : bytes) : res bytes :=
  if negb (esVersion c =? ESVersion2) then Err ErrUnsupportedESVersion
  else if zlen packet <? 8 + 12 + 12 then Err ErrPlainTextTooShort
  else if negb (bool_decide (zslice packet 0 8 = resolverMagic)) then Err ErrResponseMagic
  else if negb (bool_decide (zslice packet 8 20 = clientNonce)) then Err ErrPlain
  else
    let? k := sharedKey (resolverPK c) clientSK in
    match open_ k (fullNonce (zslice packet 8 20) (zslice packet 20 32)) (zslice packet 32 (zlen packet)) with
    | None => Err ErrPlain
    | Some plain => unpad plain
    end.

(** ** The client *)

Definition certWithinWindow (now : Z) (cert : Cert) (skew : Z) : bool :=
  let skew := if skew <? 0 then 0 else skew in
  if now <? validFrom cert - skew then false else if validUntil cert + skew <? now then false else true.

Record Client := mkClient { cl_addr : AddrPort; cl_cert : Cert; cl_clockSkew : Z }.
(** The timeout and the clock are left out. *)
Inductive Option_ := WithCertificate (c : option Cert) | WithClockSkew (d : Z).
Definition applyOption (c : option Cert * Z) (o : Option_) : option Cert * Z :=
  match o with WithCertificate x => (x, c.2) | WithClockSkew d => (c.1, d) end.
Definition NewClient (addr : AddrPort) (opts : list Option_) : res Client :=
  let '(cert, skew) := fold_left applyOption opts (None, 5 * Second) in
  match cert with
  | None => Err ErrCertRequired
  | Some cert =>
      if negb (verified cert) then Err ErrCertUnverified
      else if negb (esVersion cert =? ESVersion2) then Err ErrUnsupportedESVersion
      else Ok (mkClient addr cert skew)
  end.

Definition readBuffer : Z := 65535.
(** [now] is the clock, [sk] and [nonce] what the random source returns, [net]
    what dialling, writing the packet and reading once lead to. *)
Definition Exchange (e : Client) (now : Z) (sk nonce : res bytes) (net : bytes -> res bytes) (q : Message) : res Message :=
  if negb (certWithinWindow now (cl_cert e) (cl_clockSkew e)) then Err ErrCertExpired
  else
    let? msg := Pack q in
    let? clientSK := sk in
    match x25519 clientSK basepoint with
    | None => Err ErrPlain
    | Some pk =>
        let clientPK := fit 32 pk in
        let? nonce := nonce in
        let? enc := Encrypt (cl_cert e) clientPK clientSK nonce msg in
        let? d := net enc in
        if readBuffer <=? zlen d then Err ErrPlain
        else
          let? plain := Decrypt (cl_cert e) clientSK nonce d in
          let? resp := Unpack plain in
          if negb (id resp =? id q) then Err ErrPlain
          else if negb (QuestionsMatch q resp) then Err ErrPlain
          else Ok resp
    end.

(** ** replay.go *)

Record replayCache := mkReplay { entries : gmap bytes Z; r_window : Z; r_max : Z }.
Definition newReplayCache (window max : Z) : replayCache := mkReplay ∅ window max.

(** The loop for the oldest entry starts at [now] with the zero key. *)
Definition olderThan (best : bytes * Z) (kt : bytes * Z) : bytes * Z := if kt.2 <? best.2 then kt else best.
Definition zeroKey : bytes := replicate 44 0.
Definition evictOne `{MapRange} (m : gmap bytes Z) (now : Z) : gmap bytes Z := delete (fold_left olderThan (mapRange m) (zeroKey, now)).1 m.
Definition seen `{MapRange} (c : replayCache) (clientPK nonce : bytes) (now : Z) : bool * replayCache :=
  let key := clientPK ++ nonce in
  let cutoff := now - r_window c in
  if match entries c !! key with Some t => cutoff <? t | None => false end then (true, c)
  else
    let m := entries c in
    let m :=
      if r_max c <=? Z.of_nat (base.size m) then
        let m := filter (fun kt => cutoff < kt.2) m in
        if r_max c <=? Z.of_nat (base.size m) then evictOne m now else m
      else m in
    (false, mkReplay (<[key := now]> m) (r_window c) (r_max c)).

(** ** The server *)

Record keyMaterial := mkMaterial { km_cert : Cert; km_resolverSK : bytes }.
Record serverConfig := mkServerConfig {
  sc_bufferSize : Z; sc_maxInflight : Z; sc_clockSkew : Z; sc_replay : bool; sc_replayWindow : Z; sc_replayMax : Z; sc_cert : option Cert; sc_resolverSK : option bytes }.
(** The write timeout and the clock are left out. *)
Inductive ServerOption :=
  | WithCert (c : option Cert) | WithResolverSecretKey (sk : bytes) | WithServerBufferSize (n : Z) | WithServerMaxInflight (n : Z)
  | WithServerClockSkew (d : Z) | WithReplayProtection (b : bool) | WithReplayWindow (d : Z) | WithReplayMax (n : Z).
Definition applyServerOption (c : serverConfig) (o : ServerOption) : serverConfig :=
  let '(mkServerConfig bs mi cs rp rw rm ce sk) := c in
  match o with
  | WithCert x => mkServerConfig bs mi cs rp rw rm x sk
  | WithResolverSecretKey k => mkServerConfig bs mi cs rp rw rm ce (Some k)
  | WithServerBufferSize n => mkServerConfig (if 0 <? n then n else bs) mi cs rp rw rm ce sk
  | WithServerMaxInflight n => mkServerConfig bs n cs rp rw rm ce sk
  | WithServerClockSkew d => mkServerConfig bs mi d rp rw rm ce sk
  | WithReplayProtection b => mkServerConfig bs mi cs b rw rm ce sk
  | WithReplayWindow d => mkServerConfig bs mi cs rp d rm ce sk
  | WithReplayMax n => mkServerConfig bs mi cs rp rw n ce sk
  end.
Definition zero32 : bytes := replicate 32 0.
(** The configuration, the certificate and the key of a server; [h] is whether
    the handler is not nil. *)
Definition NewServer (h : bool) (opts : list ServerOption) : res (serverConfig * keyMaterial) :=
  if negb h then Err ErrPlain
  else
    let cfg := fold_left applyServerOption opts (mkServerConfig 4096 256 (5 * Second) true Minute 10000 None None) in
    let '(mkServerConfig bs mi cs rp rw rm ce sk) := cfg in
    let rw := if rw <=? 0 then Minute else rw in
    let rm := if rm <=? 0 then 10000 else rm in
    match ce with
    | None => Err ErrPlain
    | Some cert =>
        if negb (esVersion cert =? ESVersion2) then Err ErrUnsupportedESVersion
        else match sk with
        | None => Err ErrPlain
        | Some k => if bool_decide (k = zero32) then Err ErrPlain else Ok (mkServerConfig bs mi cs rp rw rm ce sk, mkMaterial cert k)
        end
    end.

(** The runtime state: the key material, the replay cache, the slots in use. *)
Record serverLoop := mkLoop_ { material : keyMaterial; replay : option replayCache; slots : Z }.
Definition Run (cfg : serverConfig) (mat : keyMaterial) (now : Z) : res serverLoop :=
  if negb (certWithinWindow now (km_cert mat) (sc_clockSkew cfg)) then Err ErrCertExpired
  else Ok (mkLoop_ mat (if sc_replay cfg then Some (newReplayCache (sc_replayWindow cfg) (sc_replayMax cfg)) else None) 0).
Definition Rotate (cfg : serverConfig) (l : serverLoop) (cert : option Cert) (resolverSK : bytes) (now : Z) : res serverLoop :=
  match cert with
  | None => Err ErrPlain
  | Some cert =>
      if negb (esVersion cert =? ESVersion2) then Err ErrUnsupportedESVersion
      else if bool_decide (resolverSK = zero32) then Err ErrPlain
      else if negb (certWithinWindow now cert (sc_clockSkew cfg)) then Err ErrCertExpired
      else Ok (mkLoop_ (mkMaterial cert resolverSK) (replay l) (slots l))
  end.

(** One datagram in [run]: dropped, or dispatched to a goroutine. *)
Definition receive (cfg : serverConfig) (l : serverLoop) (datagram : bytes) : serverLoop * option bytes :=
  let body := zslice datagram 0 (sc_bufferSize cfg) in
  if zlen body <? 8 then (l, None)
  else if negb (bool_decide (zslice body 0 8 = clientMagic (km_cert (material l)))) then (l, None)
  else if 0 <? sc_maxInflight cfg then
    if slots l <? sc_maxInflight cfg then (mkLoop_ (material l) (replay l) (slots l + 1), Some body) else (l, None)
  else (l, Some body).
Definition handlerDone (cfg : serverConfig) (l : serverLoop) : serverLoop :=
  if 0 <? sc_maxInflight cfg then mkLoop_ (material l) (replay l) (slots l - 1) else l.

(** [chacha20poly1305.Overhead] *)
Definition Overhead : Z := 16.
(** What [handlePacket] makes of a packet before the handler is called: the
    query, the nonce and the key. *)
Definition openPacket `{MapRange} (l : serverLoop) (body : bytes) (now : Z) : option (Message * bytes * bytes) * serverLoop :=
  if zlen body <? 8 + 32 + 12 + Overhead then (None, l)
  else
    let mat := material l in
    if negb (bool_decide (zslice body 0 8 = clientMagic (km_cert mat))) then (None, l)
    else
      let clientPK := zslice body 8 40 in
      let clientNonce := zslice body 40 52 in
      let ct := zslice body 52 (zlen body) in
      let '(dup, l) :=
        match replay l with
        | None => (false, l)
        | Some r => let '(dup, r) := seen r clientPK clientNonce now in (dup, mkLoop_ mat (Some r) (slots l))
        end in
      if dup then (None, l)
      else match sharedKey clientPK (km_resolverSK mat) with
      | Err _ => (None, l)
      | Ok shared =>
          match open_ shared (fullNonce clientNonce zeroNonce) ct with
          | None => (None, l)
          | Some plain =>
              match (let? qb := unpad plain in Unpack qb) with
              | Err _ => (None, l)
              | Ok q => (Some (q, clientNonce, shared), l)
              end
          end
      end.

(** [responseWriter.WriteMsg], with the random source's result; [sent] is what
    went to the socket, [sock] the error it returns. *)
Record responseWriter := mkResponse { w_nonce : bytes; w_key : bytes; w_wrote : bool; w_sent : list bytes }.
Definition sealResponse (key clientNonce resolverNonce plain : bytes) : bytes :=
  resolverMagic ++ clientNonce ++ resolverNonce ++ seal key (fullNonce clientNonce resolverNonce) (pad plain).
Definition writeMsg (rnd : res bytes) (sock : bytes -> option error) (w : responseWriter) (m : Message) : responseWriter * option error :=
  if w_wrote w then (w, Some ErrPlain)
  else
    let w := mkResponse (w_nonce w) (w_key w) true (w_sent w) in
    match (let? plain := Pack m in let? r := rnd in Ok (plain, r)) with
    | Err e => (w, Some e)
    | Ok (plain, resolverNonce) =>
        let out := sealResponse (w_key w) (w_nonce w) resolverNonce plain in
        (mkResponse (w_nonce w) (w_key w) true (w_sent w ++ [out]), sock out)
    end.
Fixpoint runWriter {A} (rnd : res bytes) (sock : bytes -> option error) (clock : nat -> Z) (w : responseWriter) (n : nat) (p : prog A) : A * responseWriter * nat :=
  match p with
  | Ret a => (a, w, n)
  | WriteMsg m k => let '(w, e) := writeMsg rnd sock w m in runWriter rnd sock clock w n (k e)
  | TimeNow k => runWriter rnd sock clock w (S n) (k (clock n))
  end.

(** [handlePacket]; [h] has the state [S]. *)
Definition handlePacket `{MapRange} {S} (h : Handler S) (local : AddrPort) (rnd : res bytes) (sock : bytes -> option error) (clock : nat -> Z)
    (l : serverLoop) (st : S) (body : bytes) (src : AddrPort) (now : Z) : serverLoop * S * list bytes :=
  match openPacket l body now with
  | (None, l) => (l, st, [])
  | (Some (q, clientNonce, shared), l) =>
      let w := mkResponse clientNonce shared false [] in
      match PreflightRequest q with
      | PreflightDrop => (l, st, [])
      | PreflightReply reply => (l, st, w_sent (fst (writeMsg rnd sock w reply)))
      | PreflightAccept =>
          let '(st, w, _) := runWriter rnd sock clock w 0 (h None (mkWriter src local (str "dnscrypt")) q st) in
          (l, st, w_sent w)
      end
  end.
End Crypto.
End dnscrypt.
