(* ===== verification/DnscryptSound.v ===== *)
(** * DNSCrypt: theorems

    Padding and certificates have round trips; a query that a client encrypts
    for a server's certificate reaches the handler, and the message the handler
    writes is what the client's exchange returns; a packet is opened once while
    the replay cache has room; what the client and the cache do not guarantee. *)

From Stdlib Require Import Strings.String.
From S2P Require Import Prelude Name Wire RData RDataNew Message MessageRoundtrip EdnsOptions Netip Compare ZoneTree Tsig TsigSound Replay Sig0 Sig0Sound Handler Dnscrypt.
Open Scope Z_scope.
Open Scope list_scope.
Import dnscrypt.

(** What the documentation of the packages promises: the two ends of a key
    agreement compute the same secret, of 32 octets; opening undoes sealing,
    which adds the tag. *)
Class BoxLaws `{Box} : Prop := {
  agree a b pa pb : x25519 a basepoint = Some pa -> x25519 b basepoint = Some pb -> x25519 a pb = x25519 b pa;
  x25519_len a p s : x25519 a p = Some s -> length s = 32%nat;
  open_seal k n p : length k = 32%nat -> length n = 24%nat -> open_ k n (seal k n p) = Some p;
  seal_len k n p : zlen (seal k n p) = zlen p + 16 }.

(** Sums of literals in the hypotheses. *)
Ltac lit a := lazymatch a with Z0 => idtac | Zpos _ => idtac end.
Ltac lit_sums := repeat match goal with H : context [Z.add ?a ?b] |- _ => lit a; lit b; let v := eval compute in (Z.add a b) in change (Z.add a b) with v in H end.

(** ** Padding *)

Lemma unpad_zeros n b : unpad_loop (replicate n 0 ++ b) = unpad_loop b.
Proof. induction n; [done|exact IHn]. Qed.
Lemma unpad_pad q : unpad (pad q) = Ok q.
Proof.
  unfold unpad, pad. cbv zeta. rewrite !rev_app_distr, (rev_alt (replicate _ _)). change (rev_append ?l []) with (reverse l). rewrite reverse_replicate. cbn [rev app]. rewrite unpad_zeros. cbn. by rewrite rev_involutive.
Qed.
Lemma zlen_pad q : zlen q < zlen (pad q) <= zlen q + 64.
Proof.
  unfold pad. cbv zeta. rewrite zlen_app. set (l := zlen (q ++ [128])). set (n := Z.to_nat _). assert (zlen (replicate n 0) = Z.of_nat n) as -> by (unfold zlen; by rewrite length_replicate). unfold n. assert (l = zlen q + 1) by (unfold l; rewrite zlen_app; done).
  pose proof (Z.mod_pos_bound (- l) 64 ltac:(lia)). rewrite Z2Nat.id by lia. lia.
Qed.

(** ** Certificates *)

Definition seconds (t : Z) : Prop := exists s, u32 s /\ t = s * Second.
Definition cert_ok (c : Cert) : Prop :=
  u16 (esVersion c) /\ u16 (protocolMinor c) /\ zlen (signature c) = 64 /\ zlen (resolverPK c) = 32 /\ zlen (clientMagic c) = 8 /\
  u32 (serial c) /\ seconds (validFrom c) /\ seconds (validUntil c).
Definition unverified (c : Cert) : Cert :=
  mkCert (esVersion c) (protocolMinor c) (signature c) (resolverPK c) (clientMagic c) (serial c) (validFrom c) (validUntil c) false.

Lemma unix32_seconds t : seconds t -> u32 (unix32 t) /\ unix32 t * Second = t.
Proof.
  intros (s & Hs & ->). unfold unix32, unix, to_u32, u32, Second in *. rewrite Z.div_mul by lia. rewrite Z.mod_small by lia. lia.
Qed.
Lemma ParseCert_Encode c : cert_ok c -> ParseCert (EncodeCert c) = Ok (unverified c).
Proof.
  intros (He & Hp & Hs & Hr & Hm & Hn & [Hf Ef]%unix32_seconds & [Hu Eu]%unix32_seconds).
  pose proof (at_bytes_self (EncodeCert c)) as HA. unfold EncodeCert in HA at 2. assert (zlen (EncodeCert c) = 124) as HL.
  { unfold EncodeCert. rewrite !zlen_app, !zlen_be16, !zlen_be32, Hs, Hr, Hm. done. }
  do 8 (apply at_bytes_app in HA as [?A HA]; rewrite ?zlen_be16, ?zlen_be32, ?Hs, ?Hr, ?Hm in HA; change (zlen certMagic) with 4 in HA; lit_sums).
  unfold ParseCert. rewrite HL. cbn [Z.ltb Z.compare Pos.compare Pos.compare_cont].
  rewrite bool_decide_eq_true_2 by exact (at_bytes_slice _ 0 certMagic A). cbn [negb].
  pose proof (at_bytes_slice _ _ _ A2) as S1. pose proof (at_bytes_slice _ _ _ A3) as S2. pose proof (at_bytes_slice _ _ _ A4) as S3. rewrite Hs in S1. rewrite Hr in S2. rewrite Hm in S3. lit_sums.
  rewrite (uint16At_at _ 4 _ He A0), (uint16At_at _ 6 _ Hp A1), S1, S2, S3, (uint32At_at _ 112 _ Hn A5), (uint32At_at _ 116 _ Hf A6), (uint32At_at _ 120 _ Hu HA), Ef, Eu.
  done.
Qed.

Section Laws.
Context `{BL : BoxLaws}.

(** A certificate that was signed and published is read back with the same
    fields, unverified; it verifies with the provider's key exactly in its
    validity, and is then the certificate that was signed. *)
Theorem certificate_roundtrip c sk pk now : cert_ok c -> esVersion c = ESVersion2 ->
  (forall m, zlen (edSign sk m) = 64 /\ edVerify pk m (edSign sk m) = true) ->
  exists c', ParseCert (EncodeCert (SignCert c sk)) = Ok c' /\ verified c' = false /\
    Verify c' pk now = if bool_decide (validFrom c <= now <= validUntil c) then Ok (SignCert c sk) else Err ErrCertExpired.
Proof.
  intros Hc He Hk. destruct (Hk (signedPart c)) as [HL HV]. assert (fit 64 (edSign sk (signedPart c)) = edSign sk (signedPart c)) as Hfit.
  { unfold fit, zlen in *. rewrite take_ge by lia. replace (64 - _)%nat with 0%nat by lia. apply app_nil_r. }
  exists (unverified (SignCert c sk)). split_and!; [|done|].
  - apply ParseCert_Encode. destruct Hc as (?&?&?&?&?&?&?&?). unfold SignCert. rewrite Hfit. split_and!; done.
  - unfold Verify, SignCert. rewrite Hfit. set (sig := edSign _ _) in *. change (signedPart (unverified (setVerified c sig))) with (signedPart c). cbn [unverified setVerified esVersion validFrom validUntil signature]. rewrite He, HV. cbn [negb Z.eqb Pos.eqb ESVersion2].
    case_bool_decide as E; [replace (_ || _) with false by (symmetry; rewrite orb_false_iff; lia); done|]. replace (_ || _) with true; [done|]. symmetry. rewrite orb_true_iff. lia.
Qed.

(** ** Key agreement *)

Lemma sharedKey_agree a b pa pb : x25519 a basepoint = Some pa -> x25519 b basepoint = Some pb -> sharedKey pb a = sharedKey pa b.
Proof. intros Ha Hb. unfold sharedKey. by rewrite (agree a b pa pb Ha Hb). Qed.
Lemma sharedKey_len p a k : sharedKey p a = Ok k -> length k = 32%nat.
Proof.
  unfold sharedKey. destruct (x25519 a p) as [s|] eqn:E; [|done]. case_bool_decide; [done|]. intros E'. assert (fit 32 s = k) as <- by congruence.
  unfold fit. rewrite length_app, length_take, length_replicate. lia.
Qed.
Lemma fit_id n b : length b = n -> fit n b = b.
Proof. intros <-. unfold fit. rewrite firstn_all, Nat.sub_diag. apply app_nil_r. Qed.
Lemma open_sealed p a k nonce r q : sharedKey p a = Ok k -> zlen nonce = 12 -> zlen r = 12 ->
  open_ k (fullNonce nonce r) (seal k (fullNonce nonce r) q) = Some q.
Proof. intros Hk Hn Hr. apply open_seal; [by eapply sharedKey_len|]. unfold fullNonce, zlen in *. rewrite length_app. lia. Qed.

(** A packet of three fields and a rest. *)
Lemma fields3 (a b c d : bytes) : let m := a ++ b ++ c ++ d in let i := zlen a in let j := i + zlen b in let k := j + zlen c in
  zslice m 0 i = a /\ zslice m i j = b /\ zslice m j k = c /\ zslice m k (zlen m) = d.
Proof.
  intros m i j k. pose proof (at_bytes_self m) as HA. unfold m in HA at 2. apply at_bytes_app in HA as [A1 HA]. apply at_bytes_app in HA as [A2 HA]. apply at_bytes_app in HA as [A3 A4].
  split_and!; [exact (at_bytes_slice _ _ _ A1)|exact (at_bytes_slice _ _ _ A2)|exact (at_bytes_slice _ _ _ A3)|].
  replace (zlen m) with (k + zlen d) by (unfold m, k, j, i; rewrite !zlen_app; lia). exact (at_bytes_slice _ _ _ A4).
Qed.

(** What is sealed as a response is read as such. *)
Lemma Decrypt_sealed c sk k nonce r plain : esVersion c = ESVersion2 -> sharedKey (resolverPK c) sk = Ok k -> zlen nonce = 12 -> zlen r = 12 ->
  Decrypt c sk nonce (sealResponse k nonce r plain) = Ok plain.
Proof.
  intros He Hk Hn Hr. unfold Decrypt, sealResponse. set (ct := seal _ _ _). destruct (fields3 resolverMagic nonce r ct) as (F1 & F2 & F3 & F4).
  set (m := resolverMagic ++ _) in *. assert (zlen m = 32 + zlen ct) as HL by (unfold m; rewrite !zlen_app, Hn, Hr; change (zlen resolverMagic) with 8; lia). pose proof (zlen_nonneg ct).
  change (zlen resolverMagic) with 8 in *. rewrite Hn, Hr in *. lit_sums. rewrite He. cbn [negb Z.eqb Pos.eqb ESVersion2]. if_false.
  rewrite !bool_decide_eq_true_2 by done. cbn [negb]. rewrite Hk. cbn [res_bind]. rewrite F2, F3, F4. unfold ct. erewrite open_sealed by done. apply unpad_pad.
Qed.
End Laws.

(** ** A query and its answer *)

(** What a handler writes first. *)
Fixpoint firstWrite {A} (clock : nat -> Z) (n : nat) (p : prog A) : option Message :=
  match p with Ret _ => None | WriteMsg m _ => Some m | TimeNow k => firstWrite clock (S n) (k (clock n)) end.

(** The keys of one exchange: the server holds the secret of the certificate,
    the client its own, and the point is not of low order. *)
Record keyed `{Box} (cert : Cert) (rsk csk cpk key nonce : bytes) : Prop := mkKeyed {
  keyed_es : esVersion cert = ESVersion2;
  keyed_magic : zlen (clientMagic cert) = 8;
  keyed_server : x25519 rsk basepoint = Some (resolverPK cert);
  keyed_client : x25519 csk basepoint = Some cpk;
  keyed_shared : sharedKey (resolverPK cert) csk = Ok key;
  keyed_nonce : zlen nonce = 12 }.
(** The server has not recorded the packet, and has a slot for it. *)
Definition unseen (l : serverLoop) (key : bytes) : Prop := match replay l with None => True | Some c => entries c !! key = None end.
Definition freeSlot (cfg : serverConfig) (l : serverLoop) : Prop := 0 < sc_maxInflight cfg -> slots l < sc_maxInflight cfg.

Lemma QuestionsMatch_echo q : QuestionsMatch q (echoMessage q) = true.
Proof.
  unfold QuestionsMatch, questionsEqual. cbn [echoMessage questions]. rewrite andb_true_iff. split; [unfold zlen; rewrite length_map; apply Z.eqb_refl|].
  induction (questions q) as [|x l IH]; [done|]. cbn. by rewrite Equal_refl, !Z.eqb_refl.
Qed.

Section Channel.
Context `{BL : BoxLaws} `{MR : MapRange}.

Definition sealQuery (cert : Cert) (cpk key nonce qb : bytes) : bytes :=
  clientMagic cert ++ cpk ++ nonce ++ seal key (fullNonce nonce zeroNonce) (pad qb).
Lemma Encrypt_keyed cert rsk csk cpk key nonce qb : keyed cert rsk csk cpk key nonce -> Encrypt cert cpk csk nonce qb = Ok (sealQuery cert cpk key nonce qb).
Proof. intros []. unfold Encrypt. by rewrite keyed_es0, keyed_shared0. Qed.
Lemma cpk_len a p s : x25519 a p = Some s -> zlen s = 32.
Proof. intros E. unfold zlen. by rewrite (x25519_len a p s E). Qed.
Lemma sealQuery_len cert rsk csk cpk key nonce qb : keyed cert rsk csk cpk key nonce -> 68 < zlen (sealQuery cert cpk key nonce qb) <= 132 + zlen qb.
Proof.
  intros []. unfold sealQuery. rewrite !zlen_app, seal_len, keyed_magic0, keyed_nonce0, (cpk_len _ _ _ keyed_client0). pose proof (zlen_pad qb). pose proof (zlen_nonneg qb). lia.
Qed.

(** The server opens what the client sealed. *)
Lemma openPacket_sealed cert rsk csk cpk key nonce qb q l now : keyed cert rsk csk cpk key nonce -> material l = mkMaterial cert rsk ->
  unseen l (cpk ++ nonce) -> Unpack qb = Ok q -> exists l', openPacket l (sealQuery cert cpk key nonce qb) now = (Some (q, nonce, key), l').
Proof.
  intros HK Hm Hu HQ. pose proof (sealQuery_len _ _ _ _ _ _ qb HK) as HL. destruct HK. unfold openPacket. rewrite (proj2 (Z.ltb_ge _ _)) by (unfold Overhead; lia). clear HL.
  pose proof (cpk_len _ _ _ keyed_client0) as Hc. rewrite Hm. cbn [km_cert km_resolverSK]. unfold sealQuery. set (ct := seal _ _ _).
  destruct (fields3 (clientMagic cert) cpk nonce ct) as (F1 & F2 & F3 & F4). rewrite keyed_magic0, Hc, keyed_nonce0 in *. lit_sums. set (m := clientMagic cert ++ _) in *.
  rewrite bool_decide_eq_true_2 by done. cbn [negb]. cbv zeta. rewrite F2, F3, F4, <- (sharedKey_agree csk rsk cpk (resolverPK cert)) by done. rewrite keyed_shared0.
  assert (forall l0 : serverLoop, exists l', (match open_ key (fullNonce nonce zeroNonce) ct with
    | None => (None, l0)
    | Some plain => match (let? qb := unpad plain in Unpack qb) with Err _ => (None, l0) | Ok q => (Some (q, nonce, key), l0) end
    end) = (Some (q, nonce, key), l')) as HO.
  { intros l0. exists l0. unfold ct. erewrite open_sealed by done. rewrite unpad_pad. cbn [res_bind]. by rewrite HQ. }
  unfold unseen in Hu. destruct (replay l) as [c|]; [|apply HO]. unfold seen. cbv zeta. rewrite Hu. apply HO.
Qed.

Lemma receive_fits cfg l d : zlen d <= sc_bufferSize cfg -> 8 <= zlen d -> zslice d 0 8 = clientMagic (km_cert (material l)) -> freeSlot cfg l ->
  exists l', receive cfg l d = (l', Some d) /\ material l' = material l /\ replay l' = replay l.
Proof.
  intros Hd H8 Hm Hs. unfold receive. cbv zeta. assert (zslice d 0 (sc_bufferSize cfg) = d) as -> by (unfold zslice, zlen in *; rewrite drop_0, Z.sub_0_r; apply take_ge; lia).
  rewrite (proj2 (Z.ltb_ge _ _)) by lia. rewrite bool_decide_eq_true_2 by done. cbn [negb]. destruct (0 <? sc_maxInflight cfg) eqn:E; [|by exists l].
  rewrite (proj2 (Z.ltb_lt _ _)) by (apply Hs; lia). by eexists.
Qed.

(** After the first message nothing is sent. *)
Lemma runWriter_wrote {A} rnd sock clock (p : prog A) : forall w n, w_wrote w = true -> w_sent (runWriter rnd sock clock w n p).1.2 = w_sent w.
Proof. induction p as [a|m k IH|k IH]; intros w n Hw; cbn; [done| |by apply IH]. unfold writeMsg. rewrite Hw. by apply IH. Qed.
Lemma runWriter_first {A} r sock clock (p : prog A) m mb : Pack m = Ok mb -> forall w n, w_wrote w = false -> firstWrite clock n p = Some m ->
  w_sent (runWriter (Ok r) sock clock w n p).1.2 = w_sent w ++ [sealResponse (w_key w) (w_nonce w) r mb].
Proof.
  intros HP. induction p as [a|m' k IH|k IH]; intros w n Hw Hf; cbn in *; [done| |by apply IH]. injection Hf as ->. unfold writeMsg. rewrite Hw. cbv zeta. rewrite HP. cbn [res_bind w_key w_nonce w_sent].
  by rewrite runWriter_wrote.
Qed.

(** The network with one server at its other end. *)
Definition serve {S} (h : Handler S) (cfg : serverConfig) (local src : AddrPort) (r : bytes) (sock : bytes -> option error) (clock : nat -> Z) (l : serverLoop) (st : S) (now : Z) (d : bytes) : res bytes :=
  match receive cfg l d with
  | (l, Some body) => match (handlePacket h local (Ok r) sock clock l st body src now).2 with out :: _ => Ok out | [] => Err ErrPlain end
  | (_, None) => Err ErrPlain
  end.

(** Client and server compose: with the keys of a certificate in force, a
    nonce the server has not recorded and a free slot, a query reaches the
    handler as the client packed it, and the exchange returns the message the
    handler writes first, if it answers the query's id and question. *)
Theorem dnscrypt_exchange {S} (h : Handler S) cfg local src r sock clock l st now' e now rsk csk cpk key nonce q qb m mb :
  keyed (cl_cert e) rsk csk cpk key nonce -> certWithinWindow now (cl_cert e) (cl_clockSkew e) = true ->
  material l = mkMaterial (cl_cert e) rsk -> unseen l (cpk ++ nonce) -> freeSlot cfg l -> zlen r = 12 ->
  message_ok q -> Pack q = Ok qb -> 132 + zlen qb <= sc_bufferSize cfg -> PreflightRequest (echoMessage q) = PreflightAccept ->
  firstWrite clock 0 (h None (mkWriter src local (str "dnscrypt")) (echoMessage q) st) = Some m ->
  message_ok m -> Pack m = Ok mb -> 112 + zlen mb < readBuffer -> Message.id m = Message.id q -> QuestionsMatch q (echoMessage m) = true ->
  Exchange e now (Ok csk) (Ok nonce) (serve h cfg local src r sock clock l st now') q = Ok (echoMessage m).
Proof.
  intros HK Hw Hm Hu Hs Hr Hq HP Hl Hpf Hf Hmo HPm Hlm Hid HQ. unfold Exchange. rewrite Hw. cbn [negb]. rewrite HP. cbn [res_bind]. rewrite (keyed_client _ _ _ _ _ _ HK).
  rewrite fit_id by (by eapply x25519_len, keyed_client). cbn [res_bind]. rewrite (Encrypt_keyed _ _ _ _ _ _ _ HK). cbn [res_bind].
  pose proof (sealQuery_len _ _ _ _ _ _ qb HK) as HL. set (d := sealQuery _ _ _ _ _) in *.
  assert (serve h cfg local src r sock clock l st now' d = Ok (sealResponse key nonce r mb)) as ->.
  { unfold serve. destruct (receive_fits cfg l d) as (l' & -> & Hm' & Hr'); [lia|lia| |done|].
    { rewrite Hm. unfold d, sealQuery. destruct (fields3 (clientMagic (cl_cert e)) cpk nonce (seal key (fullNonce nonce zeroNonce) (pad qb))) as (F1 & _). by rewrite (keyed_magic _ _ _ _ _ _ HK) in F1. }
    destruct (openPacket_sealed (cl_cert e) rsk csk cpk key nonce qb (echoMessage q) l' now') as (l2 & EO); [done|by rewrite Hm'|unfold unseen in *; by rewrite Hr'|by apply Unpack_Pack|].
    unfold handlePacket. fold d in EO. rewrite EO. cbv zeta. rewrite Hpf. pose proof (runWriter_first r sock clock _ m mb HPm (mkResponse nonce key false []) 0 eq_refl Hf) as HW.
    destruct (runWriter _ _ _ _ _ _) as [[st' w'] n']. cbn [fst snd] in *. by rewrite HW. }
  cbn [res_bind]. assert (zlen (sealResponse key nonce r mb) < readBuffer) as Hlen.
  { unfold sealResponse. rewrite !zlen_app, seal_len, (keyed_nonce _ _ _ _ _ _ HK), Hr. change (zlen resolverMagic) with 8. pose proof (zlen_pad mb). lia. }
  rewrite (proj2 (Z.leb_gt _ _)) by done. rewrite (Decrypt_sealed _ _ key) by (done || apply HK). cbn [res_bind].
  rewrite (Unpack_Pack _ _ Hmo HPm). cbn [res_bind]. change (Message.id (echoMessage m)) with (Message.id m). by rewrite Hid, Z.eqb_refl, HQ.
Qed.

(** A packet that anyone who sees the query can make, without a key. *)
Definition reflect (d : bytes) : res bytes := Ok (resolverMagic ++ zslice d 40 52 ++ zeroNonce ++ zslice d 52 (zlen d)).
(** The key and the nonce of the two directions are the same when the resolver's
    half of the nonce is zero, and the client does not look at the QR bit: its
    own query, reflected, is accepted as the response. *)
Lemma reflected_query_accepted e now rsk csk cpk key nonce q qb :
  keyed (cl_cert e) rsk csk cpk key nonce -> certWithinWindow now (cl_cert e) (cl_clockSkew e) = true ->
  message_ok q -> Pack q = Ok qb -> 112 + zlen qb < readBuffer ->
  Exchange e now (Ok csk) (Ok nonce) reflect q = Ok (echoMessage q).
Proof.
  intros HK Hw Hq HP Hl. unfold Exchange. rewrite Hw. cbn [negb]. rewrite HP. cbn [res_bind]. rewrite (keyed_client _ _ _ _ _ _ HK).
  rewrite fit_id by (by eapply x25519_len, keyed_client). cbn [res_bind]. rewrite (Encrypt_keyed _ _ _ _ _ _ _ HK). cbn [res_bind].
  assert (reflect (sealQuery (cl_cert e) cpk key nonce qb) = Ok (sealResponse key nonce zeroNonce qb)) as ->.
  { unfold reflect, sealQuery. set (ct := seal _ _ _). destruct (fields3 (clientMagic (cl_cert e)) cpk nonce ct) as (_ & _ & F3 & F4).
    rewrite (keyed_magic _ _ _ _ _ _ HK), (keyed_nonce _ _ _ _ _ _ HK), (cpk_len _ _ _ (keyed_client _ _ _ _ _ _ HK)) in *. lit_sums. by rewrite F3, F4. }
  cbn [res_bind]. assert (zlen (sealResponse key nonce zeroNonce qb) < readBuffer) as Hlen.
  { unfold sealResponse. rewrite !zlen_app, seal_len, (keyed_nonce _ _ _ _ _ _ HK). change (zlen resolverMagic) with 8. change (zlen zeroNonce) with 12. pose proof (zlen_pad qb). lia. }
  rewrite (proj2 (Z.leb_gt _ _)) by done. rewrite (Decrypt_sealed _ _ key) by (done || apply HK). cbn [res_bind].
  rewrite (Unpack_Pack _ _ Hq HP). cbn [res_bind]. change (Message.id (echoMessage q)) with (Message.id q). by rewrite Z.eqb_refl, QuestionsMatch_echo.
Qed.
End Channel.

(** ** Replays *)

(** What happens to a running server. *)
Inductive event := Packet (body : bytes) (now : Z) | Rotation (cert : option Cert) (sk : bytes) (now : Z).
Definition runEvent `{Box} `{MapRange} (cfg : serverConfig) (l : serverLoop) (e : event) : serverLoop :=
  match e with
  | Packet body now => (openPacket l body now).2
  | Rotation cert sk now => match Rotate cfg l cert sk now with Ok l' => l' | Err _ => l end
  end.
Definition runEvents `{Box} `{MapRange} (cfg : serverConfig) (l : serverLoop) (es : list event) : serverLoop := fold_left (runEvent cfg) es l.

Section Replays.
Context `{B : Box} `{MR : MapRange}.

(** Room for [n] more entries. *)
Definition roomFor (c : replayCache) (n : nat) : Prop := Z.of_nat (base.size (entries c)) + Z.of_nat n <= r_max c.
(** The entry [k] is at [t] or later. *)
Definition recorded (c : replayCache) (k : bytes) (t : Z) : Prop := exists t', entries c !! k = Some t' /\ t <= t'.

Lemma seen_room c pk nonce now n : roomFor c (S n) -> 0 <= r_window c ->
  let '(dup, c') := seen c pk nonce now in
  r_window c' = r_window c /\ roomFor c' n /\ (dup = false -> recorded c' (pk ++ nonce) now) /\ forall k t, recorded c k t -> recorded c' k t.
Proof.
  intros Hr Hw. unfold seen. cbv zeta. unfold roomFor in *. destruct (match entries c !! (pk ++ nonce) with Some _ => _ | None => _ end) eqn:E; [split_and!; (done || lia)|].
  rewrite (proj2 (Z.leb_gt _ _)) by lia. cbn [r_window r_max entries]. split_and!; [done| |intros _; exists now; split; [apply lookup_insert_eq|lia]|].
  - destruct (entries c !! (pk ++ nonce)) eqn:El; [rewrite map_size_insert_Some by eauto; lia|rewrite map_size_insert_None by done; lia].
  - intros k t (t' & Hk & Ht). unfold recorded. cbn [entries]. destruct (decide (pk ++ nonce = k)) as [<-|Hn]; [|exists t'; split; [by rewrite lookup_insert_ne by done|done]].
    exists now. split; [apply lookup_insert_eq|]. rewrite Hk in E. lia.
Qed.

Lemma openPacket_replay l body now : exists r', replay (openPacket l body now).2 = r' /\
  (r' = replay l \/ exists c, replay l = Some c /\ r' = Some (seen c (zslice body 8 40) (zslice body 40 52) now).2).
Proof.
  eexists. split; [reflexivity|]. unfold openPacket. destruct (_ <? _); [by left|]. destruct (negb _); [by left|]. cbv zeta. destruct (replay l) as [c|] eqn:E.
  - right. exists c. split; [done|]. destruct (seen c _ _ _) as [[] c']; [done|]. destruct (sharedKey _ _); [|done]. destruct (open_ _ _ _); [|done]. by destruct (let? _ := _ in _).
  - left. destruct (sharedKey _ _); [|done]. destruct (open_ _ _ _); [|done]. by destruct (let? _ := _ in _).
Qed.

Lemma runEvent_recorded cfg l c e n k t : replay l = Some c -> roomFor c (S n) -> 0 <= r_window c -> recorded c k t ->
  exists c', replay (runEvent cfg l e) = Some c' /\ r_window c' = r_window c /\ roomFor c' n /\ recorded c' k t.
Proof.
  intros Hl Hr Hw Hk. assert (roomFor c n) as Hr' by (unfold roomFor in *; lia). destruct e as [body now|cert sk now]; cbn [runEvent].
  - destruct (openPacket_replay l body now) as (r' & -> & [-> | (c0 & E & ->)]); [by exists c|]. assert (c0 = c) as -> by congruence.
    pose proof (seen_room c (zslice body 8 40) (zslice body 40 52) now n Hr Hw) as HS. destruct (seen c _ _ now) as [dup c']. destruct HS as (H1 & H2 & _ & H3). exists c'. auto.
  - exists c. unfold Rotate. destruct cert as [cert|]; [|done]. destruct (negb _); [done|]. destruct (bool_decide _); [done|]. by destruct (negb _).
Qed.
Lemma runEvents_recorded cfg es : forall l c k t, replay l = Some c -> roomFor c (length es) -> 0 <= r_window c -> recorded c k t ->
  exists c', replay (runEvents cfg l es) = Some c' /\ r_window c' = r_window c /\ recorded c' k t.
Proof.
  induction es as [|e es IH]; intros l c k t Hl Hr Hw Hk; [by exists c|]. destruct (runEvent_recorded cfg l c e (length es) k t Hl Hr Hw Hk) as (c1 & H1 & H2 & H3 & H4).
  destruct (IH (runEvent cfg l e) c1 k t) as (c2 & G1 & G2 & G3); [done|done|by rewrite H2|done|]. exists c2. split; [done|]. by rewrite G2.
Qed.

(** A packet the server has opened is not opened again within the replay
    window, whatever packets arrive and whatever keys are installed in between
    and in whatever order the clock is read, as long as the cache does not
    fill. *)
Theorem dnscrypt_replay_refused cfg l c body now x l1 es now' :
  replay l = Some c -> 0 <= r_window c -> roomFor c (S (length es)) ->
  openPacket l body now = (Some x, l1) -> now' < now + r_window c ->
  (openPacket (runEvents cfg l1 es) body now').1 = None.
Proof.
  intros Hl Hw Hr HO Hn. assert (exists c1, replay l1 = Some c1 /\ r_window c1 = r_window c /\ roomFor c1 (length es) /\ recorded c1 (zslice body 8 40 ++ zslice body 40 52) now) as (c1 & H1 & H2 & H3 & H4).
  { pose proof (seen_room c (zslice body 8 40) (zslice body 40 52) now (length es) Hr Hw) as HS. unfold openPacket in HO. destruct (_ <? _); [done|]. destruct (negb _); [done|]. cbv zeta in HO. rewrite Hl in HO.
    destruct (seen c _ _ _) as [[] c']; [done|]. destruct HS as (S1 & S2 & S3 & _). exists c'. split; [|auto].
    destruct (sharedKey _ _); [|done]. destruct (open_ _ _ _); [|done]. destruct (let? _ := _ in _); [|done]. by injection HO as _ <-. }
  destruct (runEvents_recorded cfg es l1 c1 _ _ H1 H3 ltac:(lia) H4) as (c2 & G1 & G2 & t' & G3 & G4).
  unfold openPacket. destruct (_ <? _); [done|]. destruct (negb _); [done|]. cbv zeta. rewrite G1. unfold seen. cbv zeta. rewrite G3. rewrite (proj2 (Z.ltb_lt _ _)) by lia. done.
Qed.

(** At most [maxInflight] handlers run. *)
Lemma receive_bounded cfg l d : 0 <= slots l <= sc_maxInflight cfg -> 0 <= slots (receive cfg l d).1 <= sc_maxInflight cfg /\
  ((receive cfg l d).2 <> None -> 0 < sc_maxInflight cfg -> slots (handlerDone cfg (receive cfg l d).1) = slots l).
Proof.
  intros Hs. unfold receive, handlerDone. cbv zeta. destruct (_ <? 8); [done|]. destruct (negb _); [done|]. destruct (0 <? sc_maxInflight cfg) eqn:E; [|split; [done|cbn; lia]].
  destruct (slots l <? _) eqn:E'; [|done]. cbn. lia.
Qed.
End Replays.

(** ** A concrete box *)

Module Toy.
(** Multiplication modulo 251 in place of the curve, a checksum in place of the
    cipher's tag. *)
Definition hd (b : bytes) : Z := zget b 0.
Definition tag (k n p : bytes) : bytes := replicate 16 (Sample.sum (k ++ n ++ p)).
#[local] Instance toyBox : Box := {|
  x25519 a p := Some (replicate 32 ((hd a * hd p) mod 251)); basepoint := replicate 32 1;
  seal k n p := p ++ tag k n p;
  open_ k n c := let p := take (length c - 16) c in if bool_decide (p ++ tag k n p = c) then Some p else None;
  edVerify _ m s := bool_decide (s = replicate 64 (Sample.sum m)); edSign _ m := replicate 64 (Sample.sum m) |}.
#[local] Instance toyLaws : BoxLaws.
Proof.
  split.
  - assert (forall x, hd (replicate 32 x) = x) as Hh by done. intros a b pa pb Ea Eb. cbn [x25519 toyBox basepoint] in *. rewrite !Hh, !Z.mul_1_r in *.
    assert (pa = replicate 32 (hd a mod 251)) as -> by congruence. assert (pb = replicate 32 (hd b mod 251)) as -> by congruence. rewrite !Hh. do 2 f_equal. rewrite !Z.mul_mod_idemp_r by lia. f_equal. lia.
  - by intros a p s [= <-].
  - intros k n p _ _. cbn [open_ seal toyBox]. rewrite length_app. replace (length (tag k n p)) with 16%nat by done. replace (length p + 16 - 16)%nat with (length p) by lia. rewrite take_app_length. by rewrite bool_decide_eq_true_2.
  - intros k n p. cbn [seal toyBox]. rewrite zlen_app. done.
Qed.
#[local] Instance inOrder : MapRange := {| mapRange K _ _ A m := map_to_list m; mapRange_perm K _ _ A m := reflexivity _ |}.

Definition rsk : bytes := replicate 32 5.
Definition csk : bytes := replicate 32 7.
Definition cpk : bytes := replicate 32 7.
Definition key : bytes := replicate 32 35.
Definition nonce : bytes := replicate 12 3.
Definition t0 : Z := 1700000000 * Second.
Definition draft : Cert := mkCert ESVersion2 0 (replicate 64 0) (replicate 32 5) (str "acidns!!") 1 (1699999000 * Second) (1700001000 * Second) false.
Definition cert : Cert := SignCert draft [].

Lemma certificate_roundtrip_witness : exists c', ParseCert (EncodeCert cert) = Ok c' /\ verified c' = false /\ Verify c' [] t0 = Ok cert.
Proof.
  apply (certificate_roundtrip draft [] [] t0); [|done|].
  - split_and!; [decide_now|decide_now|done|done|done|decide_now|exists 1699999000; split; [decide_now|done]|exists 1700001000; split; [decide_now|done]].
  - intros m. split; [done|]. cbn. by rewrite bool_decide_eq_true_2.
Defined.

Definition client : Client := mkClient (mkAddrPort (Addr4 [192; 0; 2; 53]) 443) cert (5 * Second).
Definition cfg : serverConfig := mkServerConfig 4096 256 (5 * Second) true Minute 10000 (Some cert) (Some rsk).
Definition cache : replayCache := newReplayCache Minute 10000.
Definition loop : serverLoop := mkLoop_ (mkMaterial cert rsk) (Some cache) 0.
Definition query : Message := mkMessage 4660 256 (questions sampleMessage) [] [] [] zeroEDNS false.
Definition queryBytes : bytes := match Pack query with Ok b => b | Err _ => [] end.
Definition answering : Handler unit := fun _ _ _ st => TimeNow (fun _ => WriteMsg sampleMessage (fun _ => Ret st)).
Definition packet : bytes := sealQuery cert cpk key nonce queryBytes.

Lemma query_ok : message_ok query.
Proof. destruct sampleMessage_ok as (_ & _ & Hq & _). split_and!; [decide_now|decide_now|exact Hq|apply Forall_nil_2..|done]. Qed.
Lemma toyKeys : keyed cert rsk csk cpk key nonce.
Proof. split; vm_compute; reflexivity. Qed.

Lemma dnscrypt_exchange_witness :
  Exchange client t0 (Ok csk) (Ok nonce) (serve answering cfg (cl_addr client) (cl_addr client) (replicate 12 9) (fun _ => None) (fun _ => t0) loop tt t0) query = Ok (echoMessage sampleMessage).
Proof.
  apply (dnscrypt_exchange answering cfg (cl_addr client) (cl_addr client) (replicate 12 9) (fun _ => None) (fun _ => t0) loop tt t0 client t0 rsk csk cpk key nonce query queryBytes sampleMessage sampleBytes);
    [apply toyKeys|vm_compute; reflexivity|reflexivity|reflexivity|intros _; by vm_compute|reflexivity|apply query_ok|vm_compute; reflexivity|by vm_compute|vm_compute; reflexivity|reflexivity|apply sampleMessage_ok|vm_compute; reflexivity|by vm_compute|reflexivity|vm_compute; reflexivity].
Defined.

Lemma dnscrypt_replay_refused_witness : (openPacket (runEvents cfg (openPacket loop packet t0).2 [Packet (str "junk") (t0 + Second); Rotation None rsk t0]) packet (t0 + 2 * Second)).1 = None.
Proof.
  eapply (dnscrypt_replay_refused cfg loop cache packet t0 (echoMessage query, nonce, key) (openPacket loop packet t0).2 [Packet (str "junk") (t0 + Second); Rotation None rsk t0] (t0 + 2 * Second));
    [reflexivity|by vm_compute|by vm_compute|vm_compute; reflexivity|by vm_compute].
Defined.

(** The reflected query, concretely. *)
Lemma reflected_query : Exchange client t0 (Ok csk) (Ok nonce) reflect query = Ok (echoMessage query) /\ Response (flags query) = false.
Proof. split; [|reflexivity]. apply (reflected_query_accepted client t0 rsk csk cpk key nonce query queryBytes); [apply toyKeys|vm_compute; reflexivity|apply query_ok|vm_compute; reflexivity|by vm_compute]. Qed.

(** A packet is recorded before it is authenticated: one with another's key and
    nonce, and anything for a ciphertext, has the genuine one dropped. *)
Definition forged : bytes := clientMagic cert ++ cpk ++ nonce ++ replicate 16 0.
Lemma forged_packet_displaces : (openPacket loop packet t0).1 <> None /\ (openPacket loop forged t0).1 = None /\ (openPacket (openPacket loop forged t0).2 packet t0).1 = None.
Proof. split_and!; [vm_compute; discriminate|vm_compute; reflexivity..]. Qed.

(** Entries of one instant are none older than [now], so that nothing is
    evicted and the cache grows past its maximum. *)
Lemma replay_cache_exceeds_max : let c := newReplayCache Minute 1 in let c := (seen c cpk nonce t0).2 in let c := (seen c csk (replicate 12 4) t0).2 in
  r_max c = 1 /\ base.size (entries (seen c rsk nonce t0).2) = 3%nat.
Proof. split; vm_compute; reflexivity. Qed.
End Toy.
